(* ===== verification/_CoqProject ===== *)
-Q . S2P
Prelude.v
Wire.v
Prng.v
Name.v
Compress.v
Qtype.v
Edns.v
Bitmap.v
RData.v
Rr.v
Message.v
BTree.v
Sort.v
Bounded.v
Time.v
Addr.v
Cidr.v
Pattern.v
FakeIp.v
Routing.v
Hosts.v
Float64.v
Budget.v
Policy.v
Rsa.v
RrSet.v
Tier.v
CacheKey.v
Cache.v
Alias.v
Query.v
Engine.v
Dnssec.v
QuicRx.v
QuicConn.v
Front.v
Inflight.v
Float.v
FloatOrder.v
Rendezvous.v
Upstream.v
Servers.v
Walk.v
Hazard.v
Risk.v
Provenance.v
Estimator.v
Planner.v
Persist.v
Tls.v
QuicLink.v
Transports.v
Forward.v
Forwarded.v
Server.v
Voi.v
Maintain.v
Config.v
