(* ===== verification/Prelude.v ===== *)
(** * Verification of RecurseX, a recursive DNS resolver in Rust

    The program under [src/src/] is a recursive resolver: a wire codec
    for DNS messages, a tiered answer cache, the bookkeeping around one
    resolution (budget, policy, routing, static hosts, synthetic addresses),
    DNSSEC checks, encrypted transports and statistical models that pick what
    to refresh and whom to ask.  This library translates the deterministic part
    of that code into executable definitions and proves the theorems that make
    each part correct.  Sockets, threads and third-party crates are outside.

    ** Conventions

    Machine integers are [Z] with their wrap-around and saturation written out
    ([wrap], [sat_add] below); a byte string is a [list Z].  A Rust
    [Result] is [result E A] of this file with its bind notation; a method that
    mutates [self] returns the new value; the query loop and the walk run in a
    state-and-error monad over the shared state ([Servers.M]).  [BTreeMap] is the key-sorted
    association list of [BTree]; [HashMap]s whose order never shows are gmaps.
    Double-precision arithmetic is the Standard Library's executable
    specification of binary64 ([Float64]).  An error value keeps its kind and
    its text; a text that the code interpolates is a named constant, so only
    the kind of such an error is meant to be compared.  Loops without a
    structural argument take fuel, a value of its own saying that it ran out, and every
    such loop has a theorem that the fuel its caller gives is enough: one step
    per label and pointer for names ([Name.from_wire_never_out_of_fuel]), one
    per bucket of the demand forecast ([Estimator.demand_window]), one
    per queued key for the dependency walk ([Alias.closure_spec]), one per
    candidate address for the fake-IP sweep ([FakeIp.fakeip_allocate_total]), one
    per parked fragment for the handshake stream ([QuicRx.crypto_reassembly]), one
    per byte of a TLS message and one more ([Tls.feed_decided]), one more than the subqueries the budget has left for a resolution walk
    ([Walk.resolution_bounded]).

    ** The parts

    Codec, bottom up:
    - [Wire] ([wire.rs]): bounds-checked reads of network bytes.
    - [Prng] ([prng.rs]): SplitMix64, the ChaCha20 generator, rejection
      sampling, FNV-1a and SipHash; [RandomSource] is the class clients use.
    - [Name], [Compress] ([name.rs]): names, their wire and text parsers, the
      compressor and 0x20 case randomisation.
    - [Qtype], [Edns], [Bitmap], [RData], [Rr] ([qtype.rs], [edns.rs],
      [rdata.rs]): constants, options, record data, records.
    - [Message] ([message.rs]): header, sections, parser, serialiser and UDP
      truncation.
    State and policy around a resolution:
    - [BTree], [Sort], [Float64], [Addr]: what the code uses of the Rust
      standard library (ordered maps, stable sorts, binary64, address text).
    - [Bounded] ([bounded.rs]), [Time] ([time.rs]), [Cidr] ([cidr.rs]),
      [Pattern] ([pattern.rs]): shared helpers.
    - [FakeIp] ([fakeip.rs]), [Routing] ([routing.rs]), [Hosts] ([hosts.rs]),
      [Budget] ([budget.rs]), [Policy] ([policy.rs]): one file per module.
    The cache:
    - [RrSet] ([rrset.rs]): the unit of caching.
    - [CacheKey], [Tier], [Cache] ([cache/mod.rs], [cache/score.rs]): keys and
      client-subnet partitions, one score-ranked tier, and the cache itself,
      its operations as a step relation.  The stability statistics of an entry
      are the interface [StabilityOps], so the cache's theorems do not depend on
      the estimator.
    - [Alias] ([alias.rs]): which cached key is servable only while another is.
    Security:
    - [Rsa] ([dnssec/rsa.rs]): PKCS#1 v1.5 verification over limb arithmetic,
      SHA-256 being third-party code and a parameter.
    - [Dnssec] ([dnssec/mod.rs], [TrustLevel] of [risk.rs]): key tags, the
      canonical form of a record set, signature checks, groups and sections,
      and the decision to set the authenticated-data bit.  The lookup of
      DNSKEY and DS records through the resolver is a parameter.
    Resolution:
    - [Query] ([query.rs]), [Engine] ([engine.rs]): the question as a cache
      key, the outgoing query, matching and classifying its response, DNAME
      redirection.
    - [Float] ([float.rs]), [Rendezvous] ([rendezvous.rs]), [Upstream]
      ([upstream.rs]): the binary64 functions, the keyed lottery, and the path
      models, costs and ranking of the servers of a zone.
    - [Front] ([resolver.rs]): client messages and their responses, answers from
      pins and from the fake-IP pool, reverse names.
    - [Inflight] ([resolver.rs]): the coalescing of identical resolutions as a
      step relation over the claims and owners of concurrent threads.
    - [Servers] ([resolver.rs], [query_servers]): one question asked of a zone's
      servers.  The network, the clocks and the estimator are the interfaces
      [NetworkOps] and [EstimatorOps].
    - [Walk] ([resolver.rs]): query-name minimisation, the iterative walk, the
      lookup of name-server addresses that starts walks of its own, answers
      from the cache, the choice of a forwarder group, and the filling of the cache.
    Serving what has expired:
    - [FloatOrder]: the theory of rounding and order the next parts rest on: sums,
      products and quotients of binary64 as roundings of exact values, intervals.
    - [Hazard] ([hazard.rs], [stability.rs]): how often an entry's data changes, as a
      Gamma posterior with a conservative bound; the instance of [StabilityOps].
    - [Risk] ([risk.rs]): classes of consequence, the assessment of one stale answer,
      the ledger of risk and the budget of refreshes.
    - [Provenance] ([provenance.rs]): the entries one answer rests on, under a cap.
    - [Estimator] ([estimator.rs]): demand and cost per zone; the instance of
      [EstimatorOps].
    - [Planner] ([planner.rs], and the stale decision of [resolve_from_cache]): what
      composes them, as the argument [Walk] leaves open.
    - [Voi] ([behavior.rs], [voi.rs], [refresh_schedule] of [cache/mod.rs]): behavioural
      classes and keyed fingerprints, what one observation is worth, and which entries a
      tick's budget refreshes.
    - [Maintain] ([resolver.rs], [queue_background_refresh] to [spawn_maintenance]):
      background refreshes, their marks, slots, tokens and threads as a step relation, the
      functions one thread runs as runs of it, and the maintenance tick.  [BackgroundEnv] is
      the clock and the spawning of threads.
    - [Persist] ([cache/persist.rs]): the cache as a plain snapshot and its restoration,
      record data passing through the wire codec.  The file's binary encoding is
      third-party code and a parameter.
    Transport:
    - [QuicRx], [QuicConn] ([transports/doq/quic.rs]): reassembly of the
      handshake stream and ACK frames; the client connection with its frame
      handlers, flow control, query sender and timer, each handler a function
      from a state to a result and a state.  Sealing and sending a packet, the
      TLS handshake behind a CRYPTO frame and the clock are parameters.
    - [Tls] ([transports/doq/tls.rs]): the TLS 1.3 client as a state machine over whole
      handshake messages: their parsers, the certificate and signature checks, the
      order of keys, and the QUIC transport parameters.  [TlsCrypto] is the class of the
      third-party primitives.
    - [QuicLink] ([transports/doq/quic.rs], [transports/doq/mod.rs]): what joins the two
      above: packet headers, Retry, version negotiation, datagrams of several packets,
      the connection's establishment, the receive loop, and the two-byte framing
      of a query on its stream.  [PacketProtection] is the class of sealing and opening.
    - [Transports] ([transport.rs], [transports/]): one exchange over each protocol,
      around sockets and third-party TLS, HTTP and QUIC clients, which are classes.
    - [Forward] ([forward.rs]): upstream resolvers, the pool of transports keyed by
      identity, the loop over a group, the query and the resolution of its response.
    - [Forwarded] ([forward_once] of [resolver.rs]): the two composed, as the argument
      [Walk] leaves open for forwarding.
    - [Config] ([config.rs]): the configuration document as the codec delivers it, upstream
      lines, and the resolver's configuration built from it: groups, routes and limits.
    - [Server] ([server.rs]): the answer to the octets of one query, the queue between
      receivers and handlers and the admission of connections as step relations over
      threads, and the loop that serves one connection.  [Connection] is the class of a socket,
      the clock and the shutdown flag.

    ** What the theorems show

    Round trips for names, compressed names, EDNS, records and whole messages,
    each with the exact condition under which writing succeeds; refinement of
    the name parser to a relational specification of compressed names;
    termination on hostile input; truncation that fits and says so.  For the
    stateful parts, an invariant over every reachable state ([fakeip], cache,
    alias graph, rate limiter, budget) and what each operation does on every
    branch.  For the cache: the lookup order over partitions and the refusal to
    serve dead data, capacity, and the refresh mark.  For RSA: acceptance is
    exactly the PKCS#1 equation over the integers.  For DNSSEC: each verdict
    characterised, and exactly when the authenticated-data bit may be set.  For
    responses: what each classification says of the message.  For QUIC: whatever
    the order of fragments the handshake gets the stream's messages, packet
    numbers are never reused over any run of the handlers, and what one call of
    the query sender puts on the wire.  For a resolution: it always ends, and whatever
    the network does its exchanges are bounded by its budget; only the servers of
    the zone are asked, and what comes back answers what was asked; the answer is a
    chain of aliases from the query name; a server learns no more of the name than
    it needs; the order of servers is by cost, with a lottery that is a function
    of the set of candidates; identical resolutions share one slot, and no waiter
    is left behind.  For stale answers: the change rate used is never below the
    posterior mean; the bound of a provenance is the exact minimum whatever the cap
    drops; the ledger's debt stays between zero and its capacity; and an answer from
    the cache that is stale meets a specification stated entry by entry and costs the
    ledger exactly its risk.  For refreshes: the value of an observation is
    bounded whatever the model holds, the schedule is the best the budget allows next to its
    reservations, and it takes only entries that are due;
    refreshes in flight never exceed their limit, in any interleaving, and a tick is a
    bounded run of their steps.  A snapshot of the cache, restored, is the cache again up to
    what the code leaves out on purpose.  For encrypted transport: a handshake with verification on completes only with a
    certificate chain the roots accept for the configured name, a signature by its
    leaf over the transcript and a Finished under the handshake keys; every
    other message is refused or leaves the state alone; the encoder and the parser
    of transport parameters are inverse; and no query leaves
    before that and before the server's connection identifiers are confirmed.  A message
    on a stream is read whole however the reads divide it.  For forwarding: the first
    server that answers the query decides, those behind it are not asked; a pooled
    transport never lends one server the name of another; and a forwarded resolution is the
    response of a server of the group the policy chose.  For the server: whatever arrives,
    one response of the right size and identifier goes out; a connection is served in order
    however its octets are cut; and the datagram queue is a bounded FIFO that is empty
    when its handlers leave.  For the configuration: every documented upstream line reads as
    what it spells, a name goes to the servers of its most specific rule, and what does not
    make sense is refused as an error of the configuration.

    ** Not modelled

    - Sockets, threads, locks and timers themselves: the binding and joining of
      [server.rs], [sync.rs], [entropy.rs] and the event loop of the QUIC connection.  What [Transports] asks of the system and of the
      TLS and HTTP clients is a class of its own there.  A receive loop of UDP has no
      bound of its own: its fuel is a parameter, and a world whose sockets settle within it
      never shows the cut ([Forward.exchange_with_settles]); the arrivals on a TCP connection are
      fuel enough for its reads ([Server.tcp_serves_in_order]).
    - Behind [TlsCrypto], [PacketProtection] and the frame argument of [QuicLink]: hashes,
      key exchange, X.509, packet protection and the QUIC frame codec, which
      third-party crates implement.
    - The JSON codec of [config.rs], a third-party parser: [Config] starts at the document it
      delivers.
    - The calibration statistics beside the decision path ([calibration.rs]).
    - [resolver.rs]: shutdown, the saving of snapshots by the maintenance thread, and its
      counters.  [cache/persist.rs]: the temporary file and its renaming.
    - [Debug] and most [Display] texts, and counters that nothing reads ([stats.rs]).

    ** Plan

    Next: the calibration statistics. *)
From Stdlib Require Export ZArith Lia String.
From stdpp Require Export prelude list strings countable.

#[global] Open Scope Z_scope.

(** ** Machine integers

    Every Rust integer is a [Z]; an operation that wraps is written with
    [wrap w], and a range is a hypothesis where it matters. *)

Definition usize_max : Z := 2 ^ 64 - 1.
Definition u8_max : Z := 2 ^ 8 - 1.
Definition u16_max : Z := 2 ^ 16 - 1.
Definition u32_max : Z := 2 ^ 32 - 1.
Definition u64_max : Z := 2 ^ 64 - 1.
Definition i128_max : Z := 2 ^ 127 - 1.
Definition i128_min : Z := - 2 ^ 127.

Definition wrap (w z : Z) : Z := z mod 2 ^ w.
(** [saturating_add] of [w]-bit counters. *)
Definition sat_add (w a b : Z) : Z := Z.min (2 ^ w - 1) (a + b).

Definition checked_add (a b : Z) : option Z :=
  if a + b <=? usize_max then Some (a + b) else None.

Definition is_byte (b : Z) : Prop := 0 <= b < 256.
Definition is_u16 (v : Z) : Prop := 0 <= v < 65536.
Definition is_u32 (v : Z) : Prop := 0 <= v < 4294967296.

Abbreviation bytes := (Forall is_byte).

(** Big-endian and little-endian encodings ([to_be_bytes], [from_be_bytes]). *)
Fixpoint be_bytes (n : nat) (v : Z) : list Z :=
  match n with
  | O => []
  | S n' => v / 256 ^ Z.of_nat n' mod 256 :: be_bytes n' v
  end.

Definition be_val (l : list Z) : Z := fold_left (fun acc b => acc * 256 + b) l 0.

Fixpoint le_bytes (n : nat) (v : Z) : list Z :=
  match n with
  | O => []
  | S n' => v mod 256 :: le_bytes n' (v / 256)
  end.

Fixpoint le_val (l : list Z) : Z :=
  match l with
  | [] => 0
  | b :: l' => b + 256 * le_val l'
  end.

(** ** Slices indexed by [Z] *)

Definition zlen {A} (l : list A) : Z := Z.of_nat (length l).
#[global] Arguments zlen : simpl never.

(** [slice.get(i)] *)
Definition get {A} (l : list A) (i : Z) : option A :=
  if 0 <=? i then l !! Z.to_nat i else None.

(** [slice.get(a..b)] *)
Definition get_range {A} (l : list A) (a b : Z) : option (list A) :=
  if (0 <=? a) && (a <=? b) && (b <=? zlen l)
  then Some (take (Z.to_nat (b - a)) (drop (Z.to_nat a) l))
  else None.

(** [slice.get(a..)] *)
Definition get_from {A} (l : list A) (a : Z) : option (list A) :=
  get_range l a (zlen l).

(** [iter().find_map(f)] *)
Fixpoint list_find_map {A B} (f : A -> option B) (l : list A) : option B :=
  match l with
  | [] => None
  | x :: l => match f x with Some y => Some y | None => list_find_map f l end
  end.

(** ** Errors ([src/error.rs]) *)

Inductive ErrorKind :=
| Wire | Truncated | Timeout | Io | Transport | Servfail | Refused | NoData
| NxDomain | Dnssec | RateLimited | Policy | NoUpstream | Config | Canceled
| Internal | Unsupported.

Record Error := mkError { err_kind : ErrorKind; err_msg : string }.

Inductive result (E A : Type) :=
| Ok (a : A)
| Err (e : E).
Arguments Ok {E A} a.
Arguments Err {E A} e.

Definition wire (msg : string) : Error := mkError Wire msg.
Definition internal (msg : string) : Error := mkError Internal msg.
Definition transport (msg : string) : Error := mkError Transport msg.
Definition io (msg : string) : Error := mkError Io msg.
Definition config (msg : string) : Error := mkError Config msg.

Definition is_transient (e : Error) : bool :=
  match err_kind e with
  | Timeout | Io | Transport | Servfail => true
  | _ => false
  end.

#[global] Instance result_ret {E} : MRet (result E) := fun _ a => Ok a.
#[global] Instance result_bind {E} : MBind (result E) := fun _ _ f m =>
  match m with Ok a => f a | Err e => Err e end.
#[global] Instance result_fmap {E} : FMap (result E) := fun _ _ f m =>
  match m with Ok a => Ok (f a) | Err e => Err e end.

(** [Option::ok_or] and [Result::map_err]. *)
Definition ok_or {E A} (o : option A) (e : E) : result E A :=
  match o with Some a => Ok a | None => Err e end.

Definition map_err {E F A} (f : E -> F) (r : result E A) : result F A :=
  match r with Ok a => Ok a | Err e => Err (f e) end.

Definition is_ok {E A} (r : result E A) : bool :=
  match r with Ok _ => true | Err _ => false end.

(** A guard: [if c { return Err(e) }]. *)
Definition reject_if {E} (c : bool) (e : E) : result E unit :=
  if c then Err e else Ok tt.

#[global] Instance ErrorKind_eq_dec : EqDecision ErrorKind.
Proof. solve_decision. Defined.
#[global] Instance Error_eq_dec : EqDecision Error.
Proof. solve_decision. Defined.
#[global] Instance result_eq_dec {E A} `{EqDecision E, EqDecision A} :
  EqDecision (result E A).
Proof. solve_decision. Defined.

(** ** Tactics and hint databases *)

Create HintDb rx.
Create Rewrite HintDb rxlen.

(** Split conjunctions only, never a record or a range underneath. *)
Ltac conjs := repeat match goal with |- _ /\ _ => split end.

(** Split the boolean tests of the hypotheses and the goal into propositions. *)
Ltac bools :=
  repeat match goal with
  | H : (_ && _)%bool = true |- _ => apply andb_prop in H; destruct H
  | H : (_ || _)%bool = false |- _ => apply orb_false_elim in H; destruct H
  | H : (_ <=? _) = true |- _ => apply Z.leb_le in H
  | H : (_ <=? _) = false |- _ => apply Z.leb_gt in H
  | H : (_ <? _) = true |- _ => apply Z.ltb_lt in H
  | H : (_ <? _) = false |- _ => apply Z.ltb_ge in H
  | H : (_ =? _) = true |- _ => apply Z.eqb_eq in H
  | H : (_ =? _) = false |- _ => apply Z.eqb_neq in H
  | H : negb _ = true |- _ => apply negb_true_iff in H
  | H : negb _ = false |- _ => apply negb_false_iff in H
  end.

(** Decide every comparison the goal branches on, by [lia]. *)
Ltac decide_ifs :=
  repeat match goal with
  | |- context [?a <=? ?b] =>
      first [ rewrite (proj2 (Z.leb_le a b)) by lia
            | rewrite (proj2 (Z.leb_gt a b)) by lia ]
  | |- context [?a <? ?b] =>
      first [ rewrite (proj2 (Z.ltb_lt a b)) by lia
            | rewrite (proj2 (Z.ltb_ge a b)) by lia ]
  | |- context [?a =? ?b] =>
      first [ rewrite (proj2 (Z.eqb_eq a b)) by lia
            | rewrite (proj2 (Z.eqb_neq a b)) by lia ]
  end; cbn [andb orb negb].

(** Walk a monadic computation known to return [Ok]. *)
Ltac result_step :=
  match goal with
  | H : Ok _ = Ok _ |- _ => injection H as H
  | H : Some _ = Some _ |- _ => injection H as H
  | H : Err _ = Ok _ |- _ => discriminate H
  | H : Ok _ = Err _ |- _ => discriminate H
  | H : None = Some _ |- _ => discriminate H
  | H : mret _ = Ok _ |- _ => unfold mret, result_ret in H
  | H : mbind _ ?m = Ok _ |- _ =>
      unfold mbind, result_bind in H;
      let E := fresh "E" in destruct m eqn:E; [|discriminate H]
  | H : match ?m with Ok _ => _ | Err _ => _ end = Ok _ |- _ =>
      let E := fresh "E" in destruct m eqn:E; [|discriminate H]
  | H : reject_if ?c _ = Ok _ |- _ =>
      let E := fresh "E" in unfold reject_if in H; destruct c eqn:E; [discriminate H|clear H]
  | H : ok_or ?o _ = Ok _ |- _ =>
      let E := fresh "E" in unfold ok_or in H; destruct o eqn:E; [|discriminate H]
  | H : map_err _ ?r = Ok _ |- _ =>
      let E := fresh "E" in unfold map_err in H; destruct r eqn:E; [|discriminate H]
  end.
Ltac results := repeat (result_step; simplify_eq).

(** ** Lengths *)

Section lengths.
Context {A : Type}.
Implicit Types (l : list A) (x : A) (i a b : Z).

Lemma zlen_nonneg l : 0 <= zlen l.
Proof. unfold zlen. lia. Qed.
Lemma zlen_nil : zlen (@nil A) = 0.
Proof. done. Qed.
Lemma zlen_cons x l : zlen (x :: l) = 1 + zlen l.
Proof. unfold zlen. cbn [length]. lia. Qed.
Lemma zlen_app l1 l2 : zlen (l1 ++ l2) = zlen l1 + zlen l2.
Proof. unfold zlen. rewrite length_app. lia. Qed.
Lemma zlen_take n l : 0 <= n <= zlen l -> zlen (take (Z.to_nat n) l) = n.
Proof. unfold zlen. rewrite length_take. lia. Qed.
Lemma zlen_drop n l : 0 <= n <= zlen l -> zlen (drop (Z.to_nat n) l) = zlen l - n.
Proof. unfold zlen. rewrite length_drop. lia. Qed.
Lemma zlen_replicate n x : zlen (replicate n x) = Z.of_nat n.
Proof. unfold zlen. by rewrite length_replicate. Qed.
Lemma zlen_0 l : zlen l = 0 -> l = [].
Proof. destruct l; [done|]. rewrite zlen_cons. pose proof (zlen_nonneg l). lia. Qed.
Lemma zlen_reverse l : zlen (reverse l) = zlen l.
Proof. unfold zlen. by rewrite length_reverse. Qed.

(** A read at an index splits the list there. *)
Lemma get_split l i x :
  get l i = Some x <-> exists pre post, l = pre ++ x :: post /\ zlen pre = i.
Proof.
  unfold get, zlen. split.
  - destruct (0 <=? i) eqn:E; [|done]. bools. intros H.
    pose proof (lookup_lt_Some _ _ _ H).
    exists (take (Z.to_nat i) l), (drop (S (Z.to_nat i)) l).
    rewrite take_drop_middle by done. rewrite length_take. split; [done|lia].
  - intros (pre & post & -> & <-). decide_ifs. rewrite Nat2Z.id.
    by apply list_lookup_middle.
Qed.

Lemma get_Some_lt l i x : get l i = Some x -> 0 <= i < zlen l.
Proof.
  intros (pre & post & -> & <-)%get_split. rewrite zlen_app, zlen_cons.
  pose proof (zlen_nonneg pre); pose proof (zlen_nonneg post). lia.
Qed.
Lemma get_lt_Some l i : 0 <= i < zlen l -> exists x, get l i = Some x.
Proof.
  unfold get, zlen. intros H. decide_ifs.
  apply lookup_lt_is_Some. lia.
Qed.
Lemma get_ge_None l i : i < 0 \/ zlen l <= i -> get l i = None.
Proof.
  unfold get, zlen. destruct (0 <=? i) eqn:E; [|done]; bools. intros.
  apply lookup_ge_None. lia.
Qed.
Lemma get_middle pre x post : get (pre ++ x :: post) (zlen pre) = Some x.
Proof. apply get_split. eauto. Qed.
Lemma get_0 x l : get (x :: l) 0 = Some x.
Proof. done. Qed.
Lemma get_app_l l1 l2 i x : get l1 i = Some x -> get (l1 ++ l2) i = Some x.
Proof.
  intros (pre & post & -> & <-)%get_split. rewrite <- app_assoc. apply get_middle.
Qed.
Lemma get_app_r l1 l2 i : 0 <= i -> get (l1 ++ l2) (zlen l1 + i) = get l2 i.
Proof.
  intros. unfold get, zlen. decide_ifs.
  rewrite lookup_app_r by lia. f_equal. lia.
Qed.
Lemma get_In l i x : get l i = Some x -> In x l.
Proof. intros (pre & post & -> & _)%get_split. apply in_elt. Qed.
Lemma get_Forall (P : A -> Prop) l i x : Forall P l -> get l i = Some x -> P x.
Proof. intros H Hx%get_In. rewrite List.Forall_forall in H. auto. Qed.

(** A range read splits the list at both ends. *)
Lemma get_range_split l a b s :
  get_range l a b = Some s <->
  exists pre post, l = pre ++ s ++ post /\ zlen pre = a /\ b = a + zlen s.
Proof.
  unfold get_range. split.
  - destruct (_ && _)%bool eqn:E; [|done]. bools. intros [= <-].
    exists (take (Z.to_nat a) l), (drop (Z.to_nat (b - a)) (drop (Z.to_nat a) l)).
    rewrite !take_drop, zlen_take by lia.
    split; [done|]. split; [done|]. rewrite zlen_take; [lia|].
    rewrite zlen_drop; lia.
  - intros (pre & post & -> & <- & ->).
    pose proof (zlen_nonneg pre); pose proof (zlen_nonneg post); pose proof (zlen_nonneg s).
    rewrite !zlen_app. decide_ifs. f_equal.
    unfold zlen. rewrite Nat2Z.id, drop_app_length.
    rewrite Z.add_simpl_l, Nat2Z.id. by rewrite take_app_length.
Qed.

Lemma get_range_len l a b s :
  get_range l a b = Some s -> 0 <= a /\ zlen s = b - a /\ b <= zlen l.
Proof.
  intros (pre & post & -> & <- & ->)%get_range_split.
  rewrite !zlen_app. pose proof (zlen_nonneg pre); pose proof (zlen_nonneg post). lia.
Qed.
Lemma get_range_Some l a b :
  0 <= a <= b -> b <= zlen l -> exists s, get_range l a b = Some s.
Proof. intros. unfold get_range. decide_ifs. eauto. Qed.
Lemma get_range_None l a b :
  get_range l a b = None <-> ~ (0 <= a <= b /\ b <= zlen l).
Proof.
  unfold get_range. destruct (_ && _)%bool eqn:E; bools.
  - split; [done|lia].
  - split; [|done]. intros _ H. apply not_true_iff_false in E. apply E.
    decide_ifs. done.
Qed.
Lemma get_range_app_l l1 l2 a b s :
  get_range l1 a b = Some s -> get_range (l1 ++ l2) a b = Some s.
Proof.
  rewrite !get_range_split. intros (pre & post & -> & ? & ?).
  exists pre, (post ++ l2). by rewrite <- !app_assoc.
Qed.
Lemma get_range_middle (pre s post : list A) a b :
  a = zlen pre -> b = zlen pre + zlen s ->
  get_range (pre ++ s ++ post) a b = Some s.
Proof. intros -> ->. apply get_range_split. by exists pre, post. Qed.
Lemma get_range_Forall (P : A -> Prop) l a b s :
  Forall P l -> get_range l a b = Some s -> Forall P s.
Proof.
  intros H (pre & post & -> & _)%get_range_split.
  apply Forall_app in H as [_ [H _]%Forall_app]. done.
Qed.
Lemma get_range_empty l a : 0 <= a <= zlen l -> get_range l a a = Some [].
Proof.
  intros. unfold get_range. decide_ifs. by rewrite Z.sub_diag.
Qed.
End lengths.

#[export] Hint Rewrite @zlen_nil @zlen_cons @zlen_app @zlen_replicate @zlen_reverse
  : rxlen.

(** Normalise lengths, assert that they are not negative, and call [lia]. *)
Ltac len_facts :=
  repeat match goal with
  | |- context [zlen ?l] =>
      lazymatch goal with H : 0 <= zlen l |- _ => fail | _ => idtac end;
      pose proof (zlen_nonneg l)
  | H : context [zlen ?l] |- _ =>
      lazymatch goal with H' : 0 <= zlen l |- _ => fail | _ => idtac end;
      pose proof (zlen_nonneg l)
  end.
Ltac lens := autorewrite with rxlen in *; len_facts; lia.

(** ** Byte encodings *)

Lemma zlen_be_bytes n v : zlen (be_bytes n v) = Z.of_nat n.
Proof. induction n; cbn [be_bytes]; [done|]. rewrite zlen_cons. lia. Qed.
#[export] Hint Rewrite zlen_be_bytes : rxlen.

Lemma be_bytes_bytes n v : bytes (be_bytes n v).
Proof.
  induction n; cbn [be_bytes]; constructor; [|done].
  apply Z.mod_pos_bound. lia.
Qed.
#[export] Hint Resolve be_bytes_bytes : rx.

Lemma be_val_snoc l b : be_val (l ++ [b]) = be_val l * 256 + b.
Proof. unfold be_val. by rewrite fold_left_app. Qed.

Lemma be_val_acc l acc :
  fold_left (fun acc b => acc * 256 + b) l acc = acc * 256 ^ zlen l + be_val l.
Proof.
  induction l as [|l b IH] using rev_ind; [rewrite zlen_nil, Z.pow_0_r; cbn; lia|].
  rewrite fold_left_app, be_val_snoc. cbn. rewrite IH.
  rewrite zlen_app, zlen_cons, zlen_nil, Z.add_0_r, Z.pow_add_r by (try apply zlen_nonneg; lia).
  ring.
Qed.

Lemma be_val_cons b l : be_val (b :: l) = b * 256 ^ zlen l + be_val l.
Proof. unfold be_val at 1. cbn. rewrite be_val_acc. lia. Qed.

Lemma be_val_app l1 l2 : be_val (l1 ++ l2) = be_val l1 * 256 ^ zlen l2 + be_val l2.
Proof. unfold be_val at 1. rewrite fold_left_app. apply be_val_acc. Qed.

Lemma be_val_bound l : bytes l -> 0 <= be_val l < 256 ^ zlen l.
Proof.
  induction 1 as [|b l Hb Hl IH]; [done|].
  rewrite be_val_cons, zlen_cons, Z.pow_add_r by (try apply zlen_nonneg; lia).
  unfold is_byte in *. nia.
Qed.

Lemma be_val_be_bytes n v : be_val (be_bytes n v) = v mod 256 ^ Z.of_nat n.
Proof.
  induction n; cbn [be_bytes]; [by rewrite Z.mod_1_r|].
  rewrite be_val_cons, IHn, zlen_be_bytes.
  rewrite Nat2Z.inj_succ, Z.pow_succ_r by lia.
  rewrite (Z.mul_comm 256), Z.rem_mul_r by lia. lia.
Qed.

Lemma be_val_be_bytes_small n v :
  0 <= v < 256 ^ Z.of_nat n -> be_val (be_bytes n v) = v.
Proof. intros. rewrite be_val_be_bytes. by apply Z.mod_small. Qed.

Lemma be_bytes_mod n v k :
  (n <= k)%nat -> be_bytes n (v mod 256 ^ Z.of_nat k) = be_bytes n v.
Proof.
  intros Hk. induction n as [|n IH]; cbn [be_bytes]; [done|].
  rewrite IH by lia. f_equal.
  replace (Z.of_nat k) with (Z.of_nat n + Z.of_nat (k - n)) by lia.
  rewrite Z.pow_add_r, Z.rem_mul_r by lia.
  rewrite (Z.mul_comm (256 ^ Z.of_nat n)), Z.div_add by lia.
  rewrite Z.div_small by (apply Z.mod_pos_bound; lia). rewrite Z.add_0_l.
  replace (256 ^ Z.of_nat (k - n)) with (256 * 256 ^ Z.of_nat (k - S n)).
  2: { rewrite <- Z.pow_succ_r by lia. f_equal. lia. }
  rewrite Z.rem_mul_r by lia.
  rewrite Z.mul_comm, Z.mod_add by lia. apply Z.mod_mod. lia.
Qed.

Lemma be_bytes_be_val l : bytes l -> be_bytes (length l) (be_val l) = l.
Proof.
  induction 1 as [|b l Hb Hl IH]; [done|]. cbn [length be_bytes].
  pose proof (be_val_bound l Hl) as B. unfold is_byte in Hb.
  rewrite be_val_cons. unfold zlen in *. f_equal.
  - rewrite Z.div_add_l by lia. rewrite (Z.div_small (be_val l)) by lia.
    rewrite Z.mod_small; lia.
  - rewrite <- (be_bytes_mod _ _ (length l)) by lia.
    rewrite Z.add_comm, Z.mod_add, be_bytes_mod by lia. done.
Qed.

Lemma zlen_le_bytes n v : zlen (le_bytes n v) = Z.of_nat n.
Proof. revert v; induction n; intros; cbn [le_bytes]; [done|]. rewrite zlen_cons, IHn. lia. Qed.
#[export] Hint Rewrite zlen_le_bytes : rxlen.

Lemma le_bytes_bytes n v : bytes (le_bytes n v).
Proof.
  revert v; induction n; intros; cbn [le_bytes]; constructor; [|done].
  apply Z.mod_pos_bound. lia.
Qed.
#[export] Hint Resolve le_bytes_bytes : rx.

Lemma le_val_le_bytes n v : le_val (le_bytes n v) = v mod 256 ^ Z.of_nat n.
Proof.
  revert v; induction n; intros; cbn [le_bytes le_val]; [by rewrite Z.mod_1_r|].
  rewrite IHn, Nat2Z.inj_succ, Z.pow_succ_r, Z.rem_mul_r by lia. lia.
Qed.

Lemma le_val_bound l : bytes l -> 0 <= le_val l < 256 ^ zlen l.
Proof.
  induction 1 as [|b l Hb Hl IH]; [done|]. cbn [le_val].
  rewrite zlen_cons, Z.pow_add_r by (try apply zlen_nonneg; lia).
  unfold is_byte in *. nia.
Qed.

(** ** Monadic equations *)

Lemma bind_Ok {E A B} (m : result E A) (f : A -> result E B) b :
  (m ≫= f) = Ok b <-> exists a, m = Ok a /\ f a = Ok b.
Proof. unfold mbind, result_bind. destruct m; split; [eauto|intros (? & [= ->] & ?); done|done|by intros (? & ? & ?)]. Qed.

Lemma ok_or_Ok {E A} (o : option A) (e : E) a : ok_or o e = Ok a <-> o = Some a.
Proof. destruct o; naive_solver. Qed.

Lemma map_err_Ok {E F A} (f : E -> F) (r : result E A) a : map_err f r = Ok a <-> r = Ok a.
Proof. destruct r; naive_solver. Qed.

Lemma reject_if_Ok {E} c (e : E) u : reject_if c e = Ok u <-> c = false.
Proof. destruct c, u; naive_solver. Qed.

Lemma reject_bind {E A} c (e : E) (f : unit -> result E A) a : (reject_if c e ≫= f) = Ok a <-> c = false /\ f tt = Ok a.
Proof. unfold reject_if. destruct c; cbn; split; [done|by intros [? _]|done|by intros [_ ?]]. Qed.

Lemma ok_or_bind {E A B} (o : option A) (e : E) (f : A -> result E B) b : (ok_or o e ≫= f) = Ok b <-> exists a, o = Some a /\ f a = Ok b.
Proof. destruct o; cbn; [|split; [done|by intros (? & ? & _)]]. split; [eauto|by intros (? & [= ->] & ?)]. Qed.

Lemma map_err_bind {E F A B} (g : E -> F) (r : result E A) (f : A -> result F B) b :
  (map_err g r ≫= f) = Ok b <-> exists a, r = Ok a /\ f a = Ok b.
Proof. destruct r; cbn; [|split; [done|by intros (? & ? & _)]]. split; [eauto|by intros (? & [= ->] & ?)]. Qed.

(** ** Bits *)

(** A test against a single bit. *)
Lemma land_pow2 x n : 0 <= n -> Z.land x (2 ^ n) = if Z.testbit x n then 2 ^ n else 0.
Proof.
  intros Hn. apply Z.bits_inj'. intros m Hm. rewrite Z.land_spec.
  destruct (Z.eq_dec n m) as [<-|Hne].
  - rewrite Z.pow2_bits_true by done. destruct (Z.testbit x n) eqn:E; cbn [andb].
    + by rewrite Z.pow2_bits_true.
    + by rewrite Z.bits_0.
  - rewrite Z.pow2_bits_false by done. rewrite andb_false_r.
    destruct (Z.testbit x n); [by rewrite Z.pow2_bits_false|by rewrite Z.bits_0].
Qed.

Lemma testbit_div x n : 0 <= n -> Z.testbit x n = (x / 2 ^ n mod 2 =? 1).
Proof.
  intros Hn. rewrite <- Z.testbit_spec' by done. by destruct (Z.testbit x n).
Qed.

(** Or-ing a value below [2 ^ k] into a multiple of [2 ^ k] adds it. *)
Lemma lor_shiftl_low k a b :
  0 <= k -> 0 <= b < 2 ^ k -> Z.lor (Z.shiftl a k) b = a * 2 ^ k + b.
Proof.
  intros Hk Hb.
  assert (Z.land (Z.shiftl a k) b = 0) as L.
  { apply Z.bits_inj'. intros n Hn. rewrite Z.land_spec, Z.bits_0.
    destruct (Z.lt_ge_cases n k); [by rewrite Z.shiftl_spec_low|].
    destruct (Z.eq_dec b 0) as [->|]; [by rewrite Z.bits_0, andb_false_r|].
    rewrite (Z.bits_above_log2 b), andb_false_r; [done|lia|].
    apply Z.log2_lt_pow2; [lia|].
    apply Z.lt_le_trans with (2 ^ k); [lia|apply Z.pow_le_mono_r; lia]. }
  rewrite <- Z.lxor_lor, <- Z.add_nocarry_lxor, Z.shiftl_mul_pow2 by done. done.
Qed.

(** ** Searching lists *)

Lemma find_none_all {A} (f : A -> bool) l : List.find f l = None <-> forall x, In x l -> f x = false.
Proof.
  split; [apply List.find_none|]. intros H. destruct (List.find f l) eqn:E; [|done].
  apply List.find_some in E as [Hin E]. by rewrite H in E.
Qed.

Lemma filter_nil_all {A} (f : A -> bool) l : List.filter f l = [] <-> forall x, In x l -> f x = false.
Proof.
  split.
  - intros E x Hin. destruct (f x) eqn:Ef; [|done].
    assert (In x (List.filter f l)) as X by (by apply filter_In). by rewrite E in X.
  - intros H. induction l as [|x l IH]; [done|]. cbn. rewrite H by (by left).
    apply IH. intros. apply H. by right.
Qed.

(** ** Counting *)

(** How many elements pass a test. *)
Definition tally {A} (f : A -> bool) (l : list A) : Z := zlen (List.filter f l).

Lemma tally_cons {A} (f : A -> bool) x l : tally f (x :: l) = (if f x then 1 else 0) + tally f l.
Proof. unfold tally. cbn [List.filter]. destruct (f x); [by rewrite zlen_cons|lia]. Qed.

Lemma tally_app {A} (f : A -> bool) l1 l2 : tally f (l1 ++ l2) = tally f l1 + tally f l2.
Proof. unfold tally. by rewrite List.filter_app, zlen_app. Qed.

Lemma tally_insert {A} (f : A -> bool) (l : list A) i x y : l !! i = Some x ->
  tally f (<[i := y]> l) = tally f l - (if f x then 1 else 0) + (if f y then 1 else 0).
Proof.
  revert i. induction l as [|z l IH]; intros [|i] E; try done; cbn [lookup list_lookup] in E.
  - injection E as ->. change (<[O := y]> (x :: l)) with (y :: l). rewrite !tally_cons. lia.
  - change (<[S i := y]> (z :: l)) with (z :: <[i := y]> l). rewrite !tally_cons, (IH i E). lia.
Qed.

Lemma tally_delete {A} (f : A -> bool) (l : list A) i x : l !! i = Some x -> tally f (delete i l) = tally f l - (if f x then 1 else 0).
Proof.
  intros Ei. rewrite <- (take_drop_middle l i x Ei) at 2. rewrite delete_take_drop, !tally_app, tally_cons. lia.
Qed.

Lemma tally_bounds {A} (f : A -> bool) l : 0 <= tally f l <= zlen l.
Proof. induction l as [|x l IH]; [done|]. rewrite tally_cons, zlen_cons. destruct (f x); lia. Qed.

(** A stronger test counts fewer. *)
Lemma tally_le {A} (f g : A -> bool) l : (forall x, f x = true -> g x = true) -> tally f l <= tally g l.
Proof.
  intros H. induction l as [|x l IH]; [done|]. rewrite !tally_cons. specialize (H x).
  destruct (f x); [rewrite H by done; lia|destruct (g x); lia].
Qed.
