(* ===== verification/Wire.v ===== *)
(** * Bounds-checked reads ([src/wire.rs])

    Every parser reads the network's bytes through these functions: a read is
    [Ok] exactly when all the bytes it names exist, and a length field that
    would overflow a [usize] is an error. *)
From S2P Require Import Prelude.

Definition out_of_range : Error := wire "read past the end of the message".

Definition byte_at (buf : list Z) (at_ : Z) : result Error Z :=
  ok_or (get buf at_) out_of_range.

(** [at + len] is [checked_add]: overflow is an error, not a wrapped bound. *)
Definition slice_at (buf : list Z) (at_ len : Z) : result Error (list Z) :=
  end_ ← ok_or (checked_add at_ len) out_of_range;
  ok_or (get_range buf at_ end_) out_of_range.

(** [array_at::<N>]: the slice, whose length is then [N] by conversion. *)
Definition array_at (n : Z) (buf : list Z) (at_ : Z) : result Error (list Z) :=
  bs ← slice_at buf at_ n;
  if zlen bs =? n then Ok bs
  else Err (internal "wire read returned the wrong length").

Definition u16_at (buf : list Z) (at_ : Z) : result Error Z :=
  b ← array_at 2 buf at_; Ok (be_val b).

Definition u32_at (buf : list Z) (at_ : Z) : result Error Z :=
  b ← array_at 4 buf at_; Ok (be_val b).

Definition u24_at (buf : list Z) (at_ : Z) : result Error Z :=
  b ← array_at 3 buf at_;
  match b with
  | [b0; b1; b2] => Ok (Z.lor (Z.lor (Z.shiftl b0 16) (Z.shiftl b1 8)) b2)
  | _ => Err (internal "wire read returned the wrong length")
  end.

Definition u48_at (buf : list Z) (at_ : Z) : result Error Z :=
  b ← array_at 6 buf at_;
  Ok (fold_left (fun v byte => Z.lor (wrap 64 (Z.shiftl v 8)) byte) b 0).

Definition rest_at (buf : list Z) (at_ : Z) : result Error (list Z) :=
  ok_or (get_from buf at_) out_of_range.

Definition capped {A} (bs : list A) (limit : Z) : list A :=
  match get_range bs 0 limit with Some s => s | None => bs end.

(** ** Lemmas *)

Lemma byte_at_Ok buf i b : byte_at buf i = Ok b <-> get buf i = Some b.
Proof. apply ok_or_Ok. Qed.

Lemma slice_at_Ok buf i n s :
  slice_at buf i n = Ok s <-> get_range buf i (i + n) = Some s /\ i + n <= usize_max.
Proof.
  unfold slice_at, checked_add. rewrite bind_Ok. split.
  - intros (e & He%ok_or_Ok & Hs%ok_or_Ok). destruct (_ <=? _) eqn:E; simplify_eq.
    bools. done.
  - intros [Hs Hm]. exists (i + n). decide_ifs. split; [done|]. by apply ok_or_Ok.
Qed.

Lemma array_at_Ok n buf i s :
  array_at n buf i = Ok s <-> get_range buf i (i + n) = Some s /\ i + n <= usize_max.
Proof.
  unfold array_at. rewrite bind_Ok. setoid_rewrite slice_at_Ok. split.
  - intros (? & [H ?] & E). destruct (_ =? _); simplify_eq. done.
  - intros [H Hm]. exists s. split; [done|].
    apply get_range_len in H as (? & ? & ?). decide_ifs. done.
Qed.

Lemma capped_all {A} (bs : list A) n : zlen bs <= n -> capped bs n = bs.
Proof.
  intros H. unfold capped. destruct (get_range bs 0 n) eqn:E; [|done].
  apply get_range_split in E as (pre & post & -> & ->%zlen_0 & Hn).
  destruct post; [by rewrite app_nil_r|].
  autorewrite with rxlen in H. len_facts. lia.
Qed.

Lemma capped_len {A} (bs : list A) n :
  0 <= n -> zlen (capped bs n) = Z.min (zlen bs) n.
Proof.
  intros H. unfold capped. destruct (get_range bs 0 n) eqn:E.
  - apply get_range_len in E. lia.
  - apply get_range_None in E. len_facts. lia.
Qed.

(** Reading back what was written, wherever it stands in the message. *)
Lemma u16_at_middle pre v post :
  is_u16 v -> zlen pre + 2 <= usize_max ->
  u16_at (pre ++ be_bytes 2 v ++ post) (zlen pre) = Ok v.
Proof.
  intros Hv Hm. unfold u16_at. apply bind_Ok. exists (be_bytes 2 v).
  rewrite array_at_Ok. split.
  - split; [|lia]. apply get_range_middle; [done|]. by rewrite zlen_be_bytes.
  - f_equal. apply be_val_be_bytes_small. unfold is_u16 in Hv. lia.
Qed.

Lemma u32_at_middle pre v post :
  is_u32 v -> zlen pre + 4 <= usize_max ->
  u32_at (pre ++ be_bytes 4 v ++ post) (zlen pre) = Ok v.
Proof.
  intros Hv Hm. unfold u32_at. apply bind_Ok. exists (be_bytes 4 v).
  rewrite array_at_Ok. split.
  - split; [|lia]. apply get_range_middle; [done|]. by rewrite zlen_be_bytes.
  - f_equal. apply be_val_be_bytes_small. unfold is_u32 in Hv. lia.
Qed.

Lemma u16_at_bound buf i v : bytes buf -> u16_at buf i = Ok v -> is_u16 v.
Proof.
  intros Hb (s & [Hs _]%array_at_Ok & [= <-])%bind_Ok.
  pose proof (be_val_bound s (get_range_Forall _ _ _ _ _ Hb Hs)) as B.
  apply get_range_len in Hs as (_ & Hl & _).
  replace (zlen s) with 2 in B by lia. unfold is_u16. lia.
Qed.

Lemma u32_at_bound buf i v : bytes buf -> u32_at buf i = Ok v -> is_u32 v.
Proof.
  intros Hb (s & [Hs _]%array_at_Ok & [= <-])%bind_Ok.
  pose proof (be_val_bound s (get_range_Forall _ _ _ _ _ Hb Hs)) as B.
  apply get_range_len in Hs as (_ & Hl & _).
  replace (zlen s) with 4 in B by lia. unfold is_u32. lia.
Qed.

(** A 16-bit read succeeds exactly when both octets exist. *)
Lemma u16_at_is_ok buf i :
  zlen buf <= usize_max -> is_ok (u16_at buf i) = true <-> 0 <= i /\ i + 2 <= zlen buf.
Proof.
  intros Hm. destruct (u16_at buf i) eqn:E; cbn.
  - apply bind_Ok in E as (s & [Hs _]%array_at_Ok & _).
    apply get_range_len in Hs. split; lia.
  - split; [done|]. intros H. exfalso.
    destruct (get_range_Some buf i (i + 2)) as [s Hs]; [lia..|].
    unfold u16_at, mbind, result_bind in E.
    rewrite (proj2 (array_at_Ok 2 buf i s)) in E; [done|]. split; [done|lia].
Qed.

(** ** Inversion: what a successful read at the end of [pre] says of the rest *)

Lemma get_range_app_inv {A} (pre rest s : list A) b :
  get_range (pre ++ rest) (zlen pre) b = Some s ->
  exists r, rest = s ++ r /\ b = zlen pre + zlen s.
Proof.
  intros (p & q & E & Hp & Hb)%get_range_split.
  apply app_inj_1 in E as [-> ->]; [|unfold zlen in Hp; lia]. by exists q.
Qed.

Lemma slice_at_inv pre rest n s :
  slice_at (pre ++ rest) (zlen pre) n = Ok s -> exists r, rest = s ++ r /\ zlen s = n.
Proof.
  intros [(r & -> & Hb)%get_range_app_inv _]%slice_at_Ok. exists r. split; [done|lia].
Qed.

Lemma u16_at_inv pre rest v :
  bytes rest -> u16_at (pre ++ rest) (zlen pre) = Ok v ->
  exists r, rest = be_bytes 2 v ++ r /\ is_u16 v.
Proof.
  intros Hb (s & [(r & -> & Hs)%get_range_app_inv _]%array_at_Ok & [= <-])%bind_Ok.
  apply Forall_app in Hb as [Hb _]. exists r. pose proof (be_val_bound s Hb) as B.
  replace (zlen s) with 2 in B by lia. split; [|exact B].
  replace 2%nat with (length s) by (unfold zlen in *; lia). by rewrite be_bytes_be_val.
Qed.

Lemma u32_at_inv pre rest v :
  bytes rest -> u32_at (pre ++ rest) (zlen pre) = Ok v ->
  exists r, rest = be_bytes 4 v ++ r /\ is_u32 v.
Proof.
  intros Hb (s & [(r & -> & Hs)%get_range_app_inv _]%array_at_Ok & [= <-])%bind_Ok.
  apply Forall_app in Hb as [Hb _]. exists r. pose proof (be_val_bound s Hb) as B.
  replace (zlen s) with 4 in B by lia. split; [|exact B].
  replace 4%nat with (length s) by (unfold zlen in *; lia). by rewrite be_bytes_be_val.
Qed.

(** ** Segments: [seg buf p s] says that [s] stands at offset [p] of [buf] *)

Definition seg (buf : list Z) (p : Z) (s : list Z) : Prop :=
  get_range buf p (p + zlen s) = Some s.

Lemma seg_iff buf p s : seg buf p s <-> exists pre post, buf = pre ++ s ++ post /\ zlen pre = p.
Proof.
  unfold seg. rewrite get_range_split. split.
  - intros (pre & post & ? & ? & _). eauto.
  - intros (pre & post & ? & <-). eauto.
Qed.

Lemma seg_middle pre s post : seg (pre ++ s ++ post) (zlen pre) s.
Proof. apply seg_iff. eauto. Qed.

Lemma seg_app buf p a b : seg buf p (a ++ b) <-> seg buf p a /\ seg buf (p + zlen a) b.
Proof.
  rewrite !seg_iff. split.
  - intros (pre & post & -> & <-). split.
    + exists pre, (b ++ post). by rewrite <- app_assoc.
    + exists (pre ++ a), post. rewrite <- !app_assoc. split; [done|lens].
  - intros [(pre & post & -> & <-) (pre' & post' & E & E')].
    rewrite app_assoc in E. apply app_inj_1 in E as [<- ->].
    + exists pre, post'. by rewrite <- app_assoc.
    + unfold zlen in E'. rewrite length_app. lia.
Qed.

Lemma seg_cons buf p b s : seg buf p (b :: s) <-> seg buf p [b] /\ seg buf (p + 1) s.
Proof. apply (seg_app buf p [b] s). Qed.

Lemma seg_mono buf tail p s : seg buf p s -> seg (buf ++ tail) p s.
Proof. apply get_range_app_l. Qed.

Lemma seg_bounds buf p s : seg buf p s -> 0 <= p /\ p + zlen s <= zlen buf.
Proof. intros H. apply get_range_len in H. lia. Qed.

Lemma seg_byte buf p b : seg buf p [b] -> byte_at buf p = Ok b.
Proof. intros (pre & post & -> & <-)%seg_iff. apply byte_at_Ok, get_middle. Qed.

Lemma seg_u16 buf p v :
  zlen buf <= usize_max -> seg buf p (be_bytes 2 v) -> is_u16 v -> u16_at buf p = Ok v.
Proof.
  intros Hm H Hv. pose proof (seg_bounds _ _ _ H) as B. rewrite zlen_be_bytes in B.
  apply seg_iff in H as (pre & post & -> & <-). apply u16_at_middle; [done|lia].
Qed.

Lemma seg_u32 buf p v :
  zlen buf <= usize_max -> seg buf p (be_bytes 4 v) -> is_u32 v -> u32_at buf p = Ok v.
Proof.
  intros Hm H Hv. pose proof (seg_bounds _ _ _ H) as B. rewrite zlen_be_bytes in B.
  apply seg_iff in H as (pre & post & -> & <-). apply u32_at_middle; [done|lia].
Qed.

Lemma seg_array buf p s n :
  zlen buf <= usize_max -> seg buf p s -> zlen s = n -> array_at n buf p = Ok s.
Proof.
  intros Hm H <-. apply array_at_Ok. split; [exact H|]. pose proof (seg_bounds _ _ _ H). lia.
Qed.
