(* ===== verification/Prng.v ===== *)
(** * Random sources, SipHash and FNV ([src/prng.rs])

    [RandomSource] is the interface the clients (transaction identifiers, 0x20
    case randomisation, sampling) are generic over; [SplitMix64] and the
    ChaCha20 counter-mode [Csprng] implement it.  [RandomSourceLaws] is what
    the interface promises, and both implementations are proved to keep it. *)
From S2P Require Import Prelude Wire.

Definition wadd (w a b : Z) : Z := wrap w (a + b).
Definition wmul (w a b : Z) : Z := wrap w (a * b).
Definition rotate_left (w x n : Z) : Z :=
  Z.lor (wrap w (Z.shiftl x n)) (Z.shiftr x (w - n)).

(** ** The interface *)

Class RandomSource (G : Type) := {
  next_u64 : G -> Z * G;
  fill_bytes : list Z -> G -> list Z * G }.

Definition next_u32 {G} `{RandomSource G} (g : G) : Z * G :=
  let '(v, g) := next_u64 g in (wrap 32 (Z.shiftr v 32), g).

(** Rejection sampling; the loop has no bound, so the model takes a fuel and
    answers [None] when every draw was rejected. *)
Fixpoint below_loop {G} `{RandomSource G} (fuel : nat) (limit n : Z) (g : G) : option (Z * G) :=
  match fuel with
  | O => None
  | S fuel' =>
      let '(v, g) := next_u64 g in
      if v <? limit then Some (v mod n, g) else below_loop fuel' limit n g
  end.

Definition below_limit (n : Z) : Z := u64_max / n * n.

Definition below {G} `{RandomSource G} (fuel : nat) (g : G) (n : Z) : option (Z * G) :=
  if n <=? 1 then Some (0, g)
  else below_loop fuel (below_limit n) n g.

(** What every source promises: 64-bit values, and exactly the bytes asked for. *)
Class RandomSourceLaws (G : Type) `{RandomSource G} (ok : G -> Prop) := {
  next_u64_range : forall g, ok g -> 0 <= fst (next_u64 g) <= u64_max /\ ok (snd (next_u64 g));
  fill_bytes_ok : forall out g, ok g -> bytes out ->
    length (fst (fill_bytes out g)) = length out /\ bytes (fst (fill_bytes out g)) /\
    ok (snd (fill_bytes out g)) }.

(** ** SplitMix64 *)

Record SplitMix64 := mkSplitMix64 { sm_state : Z }.

Definition sm_next_u64 (g : SplitMix64) : Z * SplitMix64 :=
  let state := wadd 64 (sm_state g) 0x9e3779b97f4a7c15 in
  let z := state in
  let z := wmul 64 (Z.lxor z (Z.shiftr z 30)) 0xbf58476d1ce4e5b9 in
  let z := wmul 64 (Z.lxor z (Z.shiftr z 27)) 0x94d049bb133111eb in
  (Z.lxor z (Z.shiftr z 31), mkSplitMix64 state).

(** [out.chunks_mut(8)]: every chunk takes the first bytes of one draw. *)
Fixpoint sm_fill_loop (fuel : nat) (out : list Z) (g : SplitMix64) : list Z * SplitMix64 :=
  match fuel, out with
  | S fuel', _ :: _ =>
      let chunk := take 8 out in
      let '(v, g) := sm_next_u64 g in
      let '(rest, g) := sm_fill_loop fuel' (drop 8 out) g in
      (capped (le_bytes 8 v) (zlen chunk) ++ rest, g)
  | _, _ => ([], g)
  end.

Definition sm_fill_bytes (out : list Z) (g : SplitMix64) : list Z * SplitMix64 :=
  sm_fill_loop (length out) out g.

#[global] Instance splitmix64_source : RandomSource SplitMix64 := {
  next_u64 := sm_next_u64;
  fill_bytes := sm_fill_bytes }.

(** ** ChaCha20 *)

Definition word (s : list Z) (i : nat) : Z := default 0 (s !! i).
Definition set_word (s : list Z) (i : nat) (v : Z) : list Z := <[i := v]> s.

Definition quarter_round (s : list Z) (a b c d : nat) : list Z :=
  let sa := word s a in let sb := word s b in let sc := word s c in let sd := word s d in
  let sa := wadd 32 sa sb in
  let sd := rotate_left 32 (Z.lxor sd sa) 16 in
  let sc := wadd 32 sc sd in
  let sb := rotate_left 32 (Z.lxor sb sc) 12 in
  let sa := wadd 32 sa sb in
  let sd := rotate_left 32 (Z.lxor sd sa) 8 in
  let sc := wadd 32 sc sd in
  let sb := rotate_left 32 (Z.lxor sb sc) 7 in
  set_word (set_word (set_word (set_word s a sa) b sb) c sc) d sd.

(** [chunks_exact(4)] of the key or nonce, each read little-endian. *)
Fixpoint set_words_le (n : nat) (s : list Z) (i : nat) (src : list Z) : list Z :=
  match n with
  | O => s
  | S n' => set_words_le n' (set_word s i (le_val (take 4 src))) (S i) (drop 4 src)
  end.

Definition double_round (s : list Z) : list Z :=
  let s := quarter_round s 0 4 8 12 in
  let s := quarter_round s 1 5 9 13 in
  let s := quarter_round s 2 6 10 14 in
  let s := quarter_round s 3 7 11 15 in
  let s := quarter_round s 0 5 10 15 in
  let s := quarter_round s 1 6 11 12 in
  let s := quarter_round s 2 7 8 13 in
  quarter_round s 3 4 9 14.

Definition chacha20_block (key : list Z) (counter : Z) (nonce : list Z) : list Z :=
  let state := replicate 16 0 in
  let state := set_word state 0 0x61707865 in
  let state := set_word state 1 0x3320646e in
  let state := set_word state 2 0x79622d32 in
  let state := set_word state 3 0x6b206574 in
  let state := set_words_le 8 state 4 key in
  let state := set_word state 12 counter in
  let state := set_words_le 3 state 13 nonce in
  let working := state in
  let state := Nat.iter 10 double_round state in
  fold_left (fun state i => set_word state i (wadd 32 (word state i) (word working i)))
    (seq 0 16) state.

(** ** The ChaCha20 counter-mode generator *)

Record Csprng := mkCsprng {
  key : list Z;
  nonce : list Z;
  counter : Z;
  block : list Z;
  pos : Z;
  bytes_since_rekey : Z;
  rekey_after_bytes : Z }.

Definition DEFAULT_REKEY_BYTES : Z := Z.shiftl 1 20.

Definition cs_new (key nonce : list Z) : Csprng :=
  mkCsprng key nonce 0 (replicate 64 0) 64 0 DEFAULT_REKEY_BYTES.

Definition rekey (g : Csprng) (key nonce : list Z) : Csprng :=
  mkCsprng key nonce 0 (block g) 64 0 (rekey_after_bytes g).

Definition needs_rekey (g : Csprng) : bool := rekey_after_bytes g <=? bytes_since_rekey g.

Definition set_rekey_threshold (g : Csprng) (bs : Z) : Csprng :=
  mkCsprng (key g) (nonce g) (counter g) (block g) (pos g) (bytes_since_rekey g) (Z.max bs 64).

(** The sixteen words fill the 64 octets of the block. *)
Definition refill (g : Csprng) : Csprng :=
  mkCsprng (key g) (nonce g) (wadd 32 (counter g) 1)
    (flat_map (le_bytes 4) (chacha20_block (key g) (counter g) (nonce g)))
    0 (bytes_since_rekey g) (rekey_after_bytes g).

Definition saturating_add_u64 (a b : Z) : Z := Z.min u64_max (a + b).

Definition advance (g : Csprng) (n : Z) : Csprng :=
  mkCsprng (key g) (nonce g) (counter g) (block g) (pos g + n)
    (saturating_add_u64 (bytes_since_rekey g) n) (rekey_after_bytes g).

(** The loop of [fill_bytes]: [want] bytes are still to write, and what comes
    back is the bytes written.  Every iteration writes at least one. *)
Fixpoint cs_fill_loop (fuel : nat) (want : Z) (g : Csprng) : list Z * Csprng :=
  match fuel with
  | O => ([], g)
  | S fuel' =>
      if want <=? 0 then ([], g)
      else
        let g := if zlen (block g) <=? pos g then refill g else g in
        let available := Z.max 0 (zlen (block g) - pos g) in
        let n := Z.min available want in
        if n =? 0 then ([], g)
        else
          let src := default [] (get_range (block g) (pos g) (pos g + n)) in
          let '(rest, g) := cs_fill_loop fuel' (want - n) (advance g n) in
          (src ++ rest, g)
  end.

(** Bytes that are not written keep the caller's value. *)
Definition cs_fill_bytes (out : list Z) (g : Csprng) : list Z * Csprng :=
  let '(bs, g) := cs_fill_loop (length out) (zlen out) g in
  (bs ++ drop (length bs) out, g).

Definition cs_next_u64 (g : Csprng) : Z * Csprng :=
  let '(b, g) := cs_fill_bytes (replicate 8 0) g in (le_val b, g).

#[global] Instance csprng_source : RandomSource Csprng := {
  next_u64 := cs_next_u64;
  fill_bytes := cs_fill_bytes }.

(** ** FNV-1a and SipHash-2-4 *)

Definition fnv1a_combine (acc : Z) (bs : list Z) : Z :=
  fold_left (fun h b => wmul 64 (Z.lxor h b) 0x100000001b3) bs acc.

Definition fnv1a64 (bs : list Z) : Z := fnv1a_combine 0xcbf29ce484222325 bs.

Definition sip_round (v : Z * Z * Z * Z) : Z * Z * Z * Z :=
  let '(v0, v1, v2, v3) := v in
  let v0 := wadd 64 v0 v1 in
  let v1 := rotate_left 64 v1 13 in
  let v1 := Z.lxor v1 v0 in
  let v0 := rotate_left 64 v0 32 in
  let v2 := wadd 64 v2 v3 in
  let v3 := rotate_left 64 v3 16 in
  let v3 := Z.lxor v3 v2 in
  let v0 := wadd 64 v0 v3 in
  let v3 := rotate_left 64 v3 21 in
  let v3 := Z.lxor v3 v0 in
  let v2 := wadd 64 v2 v1 in
  let v1 := rotate_left 64 v1 17 in
  let v1 := Z.lxor v1 v2 in
  let v2 := rotate_left 64 v2 32 in
  (v0, v1, v2, v3).

(** [m |= b << 8 * i] over the bytes of a block. *)
Definition or_le (m : Z) (bs : list Z) : Z :=
  fst (fold_left (fun '(m, i) b => (Z.lor m (Z.shiftl b (8 * i)), i + 1)) bs (m, 0)).

Definition sip_absorb (v : Z * Z * Z * Z) (m : Z) : Z * Z * Z * Z :=
  let '(v0, v1, v2, v3) := v in
  let '(v0, v1, v2, v3) := sip_round (sip_round (v0, v1, v2, Z.lxor v3 m)) in
  (Z.lxor v0 m, v1, v2, v3).

(** The eight-byte blocks; what is left over is the remainder. *)
Fixpoint sip_blocks (fuel : nat) (v : Z * Z * Z * Z) (input : list Z)
    : (Z * Z * Z * Z) * list Z :=
  match fuel with
  | S fuel' =>
      if 8 <=? zlen input
      then sip_blocks fuel' (sip_absorb v (or_le 0 (take 8 input))) (drop 8 input)
      else (v, input)
  | O => (v, input)
  end.

Definition siphash24 (k0 k1 : Z) (input : list Z) : Z :=
  let v := (Z.lxor k0 0x736f6d6570736575, Z.lxor k1 0x646f72616e646f6d,
            Z.lxor k0 0x6c7967656e657261, Z.lxor k1 0x7465646279746573) in
  let '(v, remainder) := sip_blocks (length input) v input in
  let last := or_le (wrap 64 (Z.shiftl (zlen input) 56)) remainder in
  let '(v0, v1, v2, v3) := sip_absorb v last in
  let '(v0, v1, v2, v3) := Nat.iter 4 sip_round (v0, v1, Z.lxor v2 0xff, v3) in
  Z.lxor (Z.lxor (Z.lxor v0 v1) v2) v3.

Definition siphash24_128 (k0 k1 : Z) (input : list Z) : list Z :=
  le_bytes 8 (siphash24 k0 k1 input) ++
  le_bytes 8 (siphash24 (Z.lxor k0 0x736f6d6570736575) (Z.lxor k1 0x646f72616e646f6d) input).

(** The published test vectors evaluate: RFC 8439 2.3.2 and SipHash's own. *)
Example chacha20_rfc8439 :
  chacha20_block (seqZ 0 32) 1 [0; 0; 0; 9; 0; 0; 0; 0x4a; 0; 0; 0; 0] =
  [0xe4e7f110; 0x15593bd1; 0x1fdd0f50; 0xc47120a3; 0xc7f4d1c7; 0x0368c033; 0x9aaa2204; 0x4e6cd4c3;
   0x466482d2; 0x09aa9f07; 0x05d7c214; 0xa2028bd9; 0xd19c12b5; 0xb94e16de; 0xe883d0cb; 0x4e3c50a2].
Proof. vm_compute. reflexivity. Qed.

Example siphash24_vectors :
  (fun n => siphash24 0x0706050403020100 0x0f0e0d0c0b0a0908 (seqZ 0 n)) <$> [0; 1; 7] =
  [0x726fdb47dd0e0e31; 0x74f839c593dc67fd; 0xab0200f58b01d137] /\
  siphash24 0x0706050403020100 0x0f0e0d0c0b0a0908 [48; 49; 50; 51; 52; 53; 54; 55; 56; 57]
  = 0x266fb4ed0635fd04.
Proof. vm_compute. done. Qed.

(** ** Specification: one byte of the keystream at a time *)

Definition fresh_block (g : Csprng) : Csprng := if 64 <=? pos g then refill g else g.

Definition next_byte (g : Csprng) : Z * Csprng :=
  let g := fresh_block g in (default 0 (get (block g) (pos g)), advance g 1).

Fixpoint next_bytes (n : nat) (g : Csprng) : list Z * Csprng :=
  match n with
  | O => ([], g)
  | S n' =>
      let '(b, g) := next_byte g in
      let '(bs, g) := next_bytes n' g in (b :: bs, g)
  end.

Definition cs_ok (g : Csprng) : Prop :=
  zlen (block g) = 64 /\ bytes (block g) /\ 0 <= pos g <= 64 /\
  0 <= bytes_since_rekey g <= u64_max.

(** ** Lemmas *)

Lemma length_quarter_round s a b c d : length (quarter_round s a b c d) = length s.
Proof. unfold quarter_round, set_word. by rewrite !length_insert. Qed.

Lemma length_set_words_le n s i src : length (set_words_le n s i src) = length s.
Proof.
  revert s i src. induction n as [|n IH]; intros; cbn; [done|].
  rewrite IH. apply length_insert.
Qed.

Lemma length_chacha20_block k c n : length (chacha20_block k c n) = 16%nat.
Proof.
  unfold chacha20_block.
  assert (Hf : forall w l s, length (fold_left (fun s i =>
    set_word s i (wadd 32 (word s i) (word w i))) l s) = length s).
  { intros w l. induction l as [|i l IH]; intros s; cbn [fold_left]; [done|].
    rewrite IH. apply length_insert. }
  rewrite Hf.
  assert (Hi : forall m s, length (Nat.iter m double_round s) = length s).
  { intros m s. induction m as [|m IH]; cbn; [done|]. rewrite <- IH.
    unfold double_round. by rewrite !length_quarter_round. }
  rewrite Hi, length_set_words_le. unfold set_word.
  rewrite length_insert, length_set_words_le, !length_insert. apply length_replicate.
Qed.

Lemma zlen_flat_map_le n ws : zlen (flat_map (le_bytes n) ws) = Z.of_nat n * zlen ws.
Proof.
  induction ws as [|w ws IH]; cbn [flat_map]; [rewrite !zlen_nil; lia|].
  rewrite zlen_app, zlen_le_bytes, IH, zlen_cons. lia.
Qed.

Lemma bytes_flat_map_le n ws : bytes (flat_map (le_bytes n) ws).
Proof.
  induction ws as [|w ws IH]; cbn [flat_map]; [constructor|].
  apply Forall_app. split; [apply le_bytes_bytes|done].
Qed.

Lemma cs_new_ok k n : cs_ok (cs_new k n).
Proof.
  split; [done|]. split; [apply Forall_replicate; done|]. done.
Qed.

Lemma refill_ok g : cs_ok g -> cs_ok (refill g) /\ pos (refill g) = 0.
Proof.
  intros (_ & _ & _ & Hs). split; [|done]. split; [|split; [|split; [cbn; lia|exact Hs]]].
  - cbn [refill block]. rewrite zlen_flat_map_le. unfold zlen. by rewrite length_chacha20_block.
  - apply bytes_flat_map_le.
Qed.

Lemma fresh_block_ok g : cs_ok g -> cs_ok (fresh_block g) /\ pos (fresh_block g) < 64.
Proof.
  intros H. unfold fresh_block. destruct (64 <=? pos g) eqn:E; bools; [|done].
  destruct (refill_ok g H) as [? ->]. done.
Qed.

Lemma advance_ok g n : cs_ok g -> 0 <= n -> pos g + n <= 64 -> cs_ok (advance g n).
Proof.
  intros (? & ? & ? & ?) ??. unfold cs_ok. cbn [advance block pos bytes_since_rekey].
  unfold saturating_add_u64.
  split; [done|]. split; [done|]. split; lia.
Qed.

Lemma advance_0 g : cs_ok g -> advance g 0 = g.
Proof.
  intros (_ & _ & _ & Hs). destruct g. unfold advance, saturating_add_u64.
  cbn [key nonce counter block pos bytes_since_rekey rekey_after_bytes] in *. f_equal; lia.
Qed.

Lemma advance_add g a b :
  0 <= a -> 0 <= b -> advance (advance g a) b = advance g (a + b).
Proof.
  intros. unfold advance. cbn [key nonce counter block pos bytes_since_rekey rekey_after_bytes].
  rewrite <- Z.add_assoc. f_equal. unfold saturating_add_u64.
  destruct (Z.min_spec u64_max (bytes_since_rekey g + a)); lia.
Qed.

Lemma next_bytes_add a b g :
  next_bytes (a + b) g =
  (let '(x, g) := next_bytes a g in let '(y, g) := next_bytes b g in (x ++ y, g)).
Proof.
  revert g. induction a as [|a IH]; intros g; cbn [next_bytes Nat.add].
  - by destruct (next_bytes b g).
  - destruct (next_byte g) as [x g1]. rewrite IH.
    destruct (next_bytes a g1) as [xs g2]. by destruct (next_bytes b g2).
Qed.

Lemma next_bytes_fresh n g : cs_ok g -> next_bytes (S n) (fresh_block g) = next_bytes (S n) g.
Proof.
  intros H. destruct (fresh_block_ok g H) as [_ Hp].
  assert (E : fresh_block (fresh_block g) = fresh_block g).
  { unfold fresh_block at 1. by rewrite (proj2 (Z.leb_gt _ _)) by lia. }
  cbn [next_bytes]. unfold next_byte. by rewrite E.
Qed.

(** Inside one block the bytes are a slice of it. *)
Lemma next_bytes_block n g :
  cs_ok g -> pos g + Z.of_nat n <= 64 ->
  next_bytes n g =
  (default [] (get_range (block g) (pos g) (pos g + Z.of_nat n)), advance g (Z.of_nat n)).
Proof.
  revert g. induction n as [|n IH]; intros g Hok Hn; cbn [next_bytes].
  - destruct Hok as (Hl & Hb & Hp & Hs). rewrite Z.add_0_r, get_range_empty by lia.
    by rewrite advance_0.
  - unfold next_byte, fresh_block. rewrite (proj2 (Z.leb_gt _ _)) by lia.
    rewrite IH; [|apply advance_ok; [done|lia|lia]|cbn [advance pos]; lia].
    rewrite advance_add by lia. replace (1 + Z.of_nat n) with (Z.of_nat (S n)) by lia.
    f_equal. cbn [advance block pos]. destruct Hok as (Hl & Hb & Hp & Hs).
    destruct (get_range_Some (block g) (pos g) (pos g + Z.of_nat (S n))) as [s Es]; [lia..|].
    rewrite Es. apply get_range_split in Es as (pre & post & E & El & Es).
    destruct s as [|b s]; [autorewrite with rxlen in Es; lia|].
    rewrite E, <- El. rewrite (get_middle pre b (s ++ post) : get (pre ++ (b :: s) ++ post) _ = _).
    replace (pre ++ (b :: s) ++ post) with ((pre ++ [b]) ++ s ++ post)
      by (by rewrite <- app_assoc).
    rewrite (get_range_middle (pre ++ [b]) s post); [done|lens|lens].
Qed.

Lemma cs_fill_loop_next_bytes fuel n g :
  cs_ok g -> (n <= fuel)%nat -> cs_fill_loop fuel (Z.of_nat n) g = next_bytes n g.
Proof.
  revert n g. induction fuel as [|fuel IH]; intros n g Hok Hn.
  { by replace n with 0%nat by lia. }
  destruct n as [|n]; [done|]. cbn [cs_fill_loop]. rewrite (proj2 (Z.leb_gt _ _)) by lia.
  replace (if zlen (block g) <=? pos g then refill g else g) with (fresh_block g)
    by (destruct Hok as [-> _]; done).
  rewrite <- next_bytes_fresh by done.
  destruct (fresh_block_ok g Hok) as [Hok' Hp]. revert Hok' Hp.
  generalize (fresh_block g). clear g Hok. intros g Hok Hp.
  pose proof Hok as (Hl & Hb & Hp0 & Hs). rewrite Hl.
  rewrite (Z.max_r 0) by lia. set (m := Z.min (64 - pos g) (Z.of_nat (S n))).
  assert (Hm : 1 <= m <= Z.of_nat (S n) /\ pos g + m <= 64) by lia.
  rewrite (proj2 (Z.eqb_neq m 0)) by lia.
  replace (Z.of_nat (S n) - m) with (Z.of_nat (S n - Z.to_nat m)) by lia.
  rewrite IH by (try apply advance_ok; try done; lia).
  replace (S n) with (Z.to_nat m + (S n - Z.to_nat m))%nat at 2 by lia.
  rewrite next_bytes_add, (next_bytes_block (Z.to_nat m)) by (try done; lia).
  by rewrite Z2Nat.id by lia.
Qed.

Lemma next_byte_ok g : cs_ok g -> is_byte (fst (next_byte g)) /\ cs_ok (snd (next_byte g)).
Proof.
  intros H. unfold next_byte. cbn [fst snd].
  destruct (fresh_block_ok g H) as [Hok Hp]. split; [|apply advance_ok; [done|lia|lia]].
  destruct Hok as (Hl & Hb & Hp0 & _).
  destruct (get_lt_Some (block (fresh_block g)) (pos (fresh_block g))) as [b E]; [lia|].
  rewrite E. by eapply get_Forall.
Qed.

Lemma next_bytes_ok n g :
  cs_ok g -> length (fst (next_bytes n g)) = n /\ bytes (fst (next_bytes n g)) /\
    cs_ok (snd (next_bytes n g)).
Proof.
  revert g. induction n as [|n IH]; intros g H; cbn [next_bytes];
    [split; [done|split; [constructor|done]]|].
  destruct (next_byte_ok g H) as [Hb Hg]. destruct (next_byte g) as [b g1].
  destruct (IH g1 Hg) as (Hl & Hbs & Hg2). destruct (next_bytes n g1) as [bs g2].
  cbn [fst snd] in *. split; [cbn; by rewrite Hl|]. split; [by constructor|done].
Qed.

Lemma cs_fill_bytes_next_bytes out g :
  cs_ok g -> cs_fill_bytes out g = next_bytes (length out) g.
Proof.
  intros H. unfold cs_fill_bytes, zlen. rewrite cs_fill_loop_next_bytes by done.
  destruct (next_bytes_ok (length out) g H) as (Hl & _ & _).
  destruct (next_bytes (length out) g) as [bs g']. cbn in Hl.
  by rewrite Hl, drop_all, app_nil_r.
Qed.

(** ** The implementations keep the laws of the interface *)

Lemma lxor_bound w a b :
  0 <= w -> 0 <= a < 2 ^ w -> 0 <= b < 2 ^ w -> 0 <= Z.lxor a b < 2 ^ w.
Proof.
  intros Hw Ha Hb. replace (Z.lxor a b) with (Z.lxor a b mod 2 ^ w).
  { apply Z.mod_pos_bound. lia. }
  apply Z.bits_inj'. intros n Hn. destruct (Z.lt_ge_cases n w).
  - by rewrite Z.mod_pow2_bits_low.
  - rewrite Z.mod_pow2_bits_high, Z.lxor_spec by lia.
    rewrite <- (Z.mod_small a (2 ^ w)), <- (Z.mod_small b (2 ^ w)) by lia.
    by rewrite !Z.mod_pow2_bits_high by lia.
Qed.

Lemma wrap_range w z : 0 <= w -> 0 <= wrap w z < 2 ^ w.
Proof. intros. apply Z.mod_pos_bound. lia. Qed.

Lemma shiftr_range w a n : 0 <= n -> 0 <= a < 2 ^ w -> 0 <= Z.shiftr a n < 2 ^ w.
Proof.
  intros Hn Ha. pose proof (Z.pow_pos_nonneg 2 n ltac:(lia) Hn).
  rewrite Z.shiftr_div_pow2 by lia. split; [apply Z.div_pos; lia|].
  eapply Z.le_lt_trans; [|apply Ha]. apply Z.div_le_upper_bound; [lia|]. nia.
Qed.

Lemma sm_next_u64_range g : 0 <= fst (sm_next_u64 g) <= u64_max.
Proof.
  unfold sm_next_u64. cbn [fst]. change u64_max with (2 ^ 64 - 1).
  match goal with |- context [Z.lxor ?a (Z.shiftr ?a 31)] =>
    pose proof (lxor_bound 64 a (Z.shiftr a 31) ltac:(lia) ltac:(by apply wrap_range)
      ltac:(apply shiftr_range; [lia|by apply wrap_range])); lia
  end.
Qed.

Lemma sm_fill_loop_ok fuel out g :
  (length out <= fuel)%nat ->
  length (fst (sm_fill_loop fuel out g)) = length out /\ bytes (fst (sm_fill_loop fuel out g)).
Proof.
  revert out g. induction fuel as [|fuel IH]; intros out g Hf.
  { destruct out; [|cbn in Hf; lia]. split; [done|constructor]. }
  destruct out as [|o out]; [split; [done|constructor]|].
  change (sm_fill_loop (S fuel) (o :: out) g) with
    (let '(v, g) := sm_next_u64 g in
     let '(rest, g) := sm_fill_loop fuel (drop 8 (o :: out)) g in
     (capped (le_bytes 8 v) (zlen (take 8 (o :: out))) ++ rest, g)).
  destruct (sm_next_u64 g) as [v g1].
  destruct (IH (drop 8 (o :: out)) g1) as [Hl Hb].
  { rewrite length_drop. cbn [length] in *. lia. }
  destruct (sm_fill_loop fuel _ g1) as [rest g2]. cbn [fst] in *.
  pose proof (capped_len (le_bytes 8 v) (zlen (take 8 (o :: out))) (zlen_nonneg _)) as Hc.
  rewrite zlen_le_bytes in Hc.
  split.
  - rewrite length_app, Hl, length_drop. revert Hc. generalize (capped (le_bytes 8 v)). intros c.
    unfold zlen at 1 3. rewrite length_take. cbn [length] in *. lia.
  - apply Forall_app. split; [|done]. unfold capped.
    destruct (get_range (le_bytes 8 v) _ _) eqn:E; [|apply le_bytes_bytes].
    eapply get_range_Forall; [apply le_bytes_bytes|exact E].
Qed.

#[global] Instance splitmix64_laws : RandomSourceLaws SplitMix64 (fun _ => True).
Proof.
  split; [intros g _; split; [apply sm_next_u64_range|done]|].
  intros out g _ _. destruct (sm_fill_loop_ok (length out) out g) as [? ?]; [done|].
  by split.
Qed.

#[global] Instance csprng_laws : RandomSourceLaws Csprng cs_ok.
Proof.
  split.
  - intros g H. cbn [next_u64 csprng_source]. unfold cs_next_u64.
    rewrite cs_fill_bytes_next_bytes by done. destruct (next_bytes_ok 8 g H) as (Hl & Hb & Hg).
    change (length (replicate 8 0)) with 8%nat.
    destruct (next_bytes 8 g) as [bs g']. cbn [fst snd] in *. split; [|done].
    pose proof (le_val_bound bs Hb) as B. unfold zlen in B. rewrite Hl in B.
    change (256 ^ Z.of_nat 8) with (u64_max + 1) in B. lia.
  - intros out g H _. cbn [fill_bytes csprng_source]. rewrite cs_fill_bytes_next_bytes by done.
    by apply next_bytes_ok.
Qed.

Section below.
Context {G : Type} {ok : G -> Prop} `{RandomSourceLaws G ok}.

Lemma below_limit_bounds n :
  1 < n <= u64_max -> n <= below_limit n <= u64_max /\ u64_max < 2 * below_limit n.
Proof.
  intros Hn. unfold below_limit.
  pose proof (Z.div_mod u64_max n ltac:(lia)). pose proof (Z.mod_pos_bound u64_max n ltac:(lia)).
  pose proof (Z.div_str_pos u64_max n ltac:(lia)). nia.
Qed.

Lemma below_loop_range fuel n g v g' :
  1 < n -> ok g -> below_loop fuel (below_limit n) n g = Some (v, g') -> 0 <= v < n /\ ok g'.
Proof.
  intros Hn. revert g. induction fuel as [|fuel IH]; intros g Hg; cbn [below_loop]; [done|].
  destruct (next_u64_range g Hg) as [Hv Hg1]. destruct (next_u64 g) as [d g1]. cbn in *.
  destruct (d <? below_limit n); [|by apply IH].
  intros [= <- <-]. split; [|done]. apply Z.mod_pos_bound. lia.
Qed.
End below.

(** ** Properties *)

(** filling a buffer from the ChaCha20 generator yields the next bytes of
    its keystream, one after the other, whatever the block boundaries: filling
    two buffers in turn equals filling one of their total size, and the
    rekeying counter advances by the bytes handed out (saturating). *)
Theorem csprng_fill_is_keystream g out1 out2 :
  cs_ok g ->
  fill_bytes out1 g = next_bytes (length out1) g /\
  fill_bytes (out1 ++ out2) g =
    (let '(x, g) := fill_bytes out1 g in let '(y, g) := fill_bytes out2 g in (x ++ y, g)) /\
  bytes_since_rekey (snd (fill_bytes out1 g)) =
    saturating_add_u64 (bytes_since_rekey g) (zlen out1).
Proof.
  intros H. cbn [fill_bytes csprng_source]. rewrite !cs_fill_bytes_next_bytes by done.
  split; [done|]. split.
  - rewrite length_app, next_bytes_add. destruct (next_bytes_ok (length out1) g H) as (_ & _ & H').
    destruct (next_bytes (length out1) g) as [x g1]. by rewrite cs_fill_bytes_next_bytes.
  - unfold zlen. generalize (length out1). clear out1 out2. intros n. revert g H.
    induction n as [|n IH]; intros g H; cbn [next_bytes].
    + cbn [snd]. destruct H as (_ & _ & _ & ?). unfold saturating_add_u64. lia.
    + destruct (next_byte_ok g H) as [_ Hg].
      assert (E : bytes_since_rekey (snd (next_byte g)) =
                  saturating_add_u64 (bytes_since_rekey g) 1).
      { unfold next_byte, fresh_block. by destruct (64 <=? pos g). }
      destruct (next_byte g) as [b g1]. cbn [snd] in *. specialize (IH g1 Hg).
      destruct (next_bytes n g1) as [bs g2]. cbn [snd] in *. rewrite IH, E.
      destruct H as (_ & _ & _ & ?). unfold saturating_add_u64. lia.
Qed.

Lemma csprng_fill_is_keystream_witness :
  fill_bytes (replicate 70 0) (cs_new (replicate 32 1) (replicate 12 2)) =
  next_bytes (length (replicate 70 0)) (cs_new (replicate 32 1) (replicate 12 2)).
Proof.
  exact (proj1 (csprng_fill_is_keystream (cs_new (replicate 32 1) (replicate 12 2))
    (replicate 70 0) [] (cs_new_ok _ _))).
Defined.

(** [below] returns a value of [0, n) from any source that keeps its laws;
    the accepted 64-bit draws are the pairs of a quotient and a residue, so
    every residue comes from equally many draws, and more than half of all
    draws are accepted. *)
Theorem below_unbiased {G} `{RandomSourceLaws G ok} n :
  1 < n <= u64_max ->
  (forall fuel g v g', ok g -> below fuel g n = Some (v, g') -> 0 <= v < n /\ ok g') /\
  (forall fuel g d g', next_u64 g = (d, g') -> d < below_limit n ->
     below (S fuel) g n = Some (d mod n, g')) /\
  (forall d, 0 <= d < below_limit n <->
     exists q r, 0 <= q < u64_max / n /\ 0 <= r < n /\ d = q * n + r /\ d mod n = r) /\
  below_limit n <= u64_max < 2 * below_limit n.
Proof.
  intros Hn. split; [|split; [|split]].
  - intros fuel g v g' Hg. unfold below. rewrite (proj2 (Z.leb_gt _ _)) by lia.
    intros Hr. eapply (below_loop_range (ok := ok)); [apply Hn|exact Hg|exact Hr].
  - intros fuel g d g' Hd Hl. unfold below. rewrite (proj2 (Z.leb_gt _ _)) by lia.
    cbn [below_loop]. rewrite Hd. by rewrite (proj2 (Z.ltb_lt _ _)).
  - intros d. unfold below_limit. split.
    + intros Hd. exists (d / n), (d mod n).
      pose proof (Z.div_mod d n ltac:(lia)). pose proof (Z.mod_pos_bound d n ltac:(lia)).
      split; [|lia]. split; [apply Z.div_pos; lia|apply Z.div_lt_upper_bound; lia].
    + intros (q & r & ? & ? & -> & _). nia.
  - pose proof (below_limit_bounds n Hn). lia.
Qed.

Lemma below_unbiased_witness :
  below_limit 3 <= u64_max < 2 * below_limit 3 /\
  below 2 (mkSplitMix64 7) 5 = Some (2, mkSplitMix64 11400714819323198492).
Proof.
  split.
  - apply (below_unbiased (G := SplitMix64) 3). done.
  - vm_compute. reflexivity.
Defined.
