(* ===== verification/Name.v ===== *)
(** * Domain names ([src/name.rs])

    A name is its canonical wire form.  The file translates the label walk,
    the structural operations, the wire parser with its compression pointers,
    and the presentation format.  [Decodes] is the specification of a
    (possibly compressed) name in a message that [from_wire] is proved to
    implement; [wf_labels] is the well-formedness every parsed name has. *)
From S2P Require Import Prelude Wire.

Definition MAX_NAME_LEN : Z := 255.
Definition MAX_LABELS : Z := 127.
Definition MAX_POINTER_HOPS : Z := MAX_LABELS + 1.

Record Name := MkName { as_bytes : list Z }.

#[global] Instance Name_eq_dec : EqDecision Name.
Proof. solve_decision. Defined.
#[global] Instance Name_countable : Countable Name.
Proof. by apply (inj_countable' as_bytes MkName); intros []. Defined.

(** ** ASCII helpers of the standard library *)

Definition to_lower (b : Z) : Z := if (65 <=? b) && (b <=? 90) then b + 32 else b.
Definition to_upper (b : Z) : Z := if (97 <=? b) && (b <=? 122) then b - 32 else b.
Definition is_ascii_alphabetic (b : Z) : bool :=
  ((65 <=? b) && (b <=? 90)) || ((97 <=? b) && (b <=? 122)).
Definition is_ascii_digit (b : Z) : bool := (48 <=? b) && (b <=? 57).

(** [slice.ends_with] *)
Definition ends_with (l s : list Z) : bool :=
  bool_decide (get_range l (zlen l - zlen s) (zlen l) = Some s).

(** ** Structure *)

Definition root : Name := MkName [0].

Definition is_root (n : Name) : bool :=
  (zlen (as_bytes n) =? 1) && bool_decide (get (as_bytes n) 0 = Some 0).

Definition wire_len (n : Name) : Z := zlen (as_bytes n).

(** The label walk; every step consumes at least two bytes, so a fuel equal to
    the length never runs out ([label_walk_fuel]). *)
Fixpoint label_walk (fuel : nat) (rest : list Z) : list (list Z) :=
  match fuel, rest with
  | S fuel', len :: tail =>
      if (len =? 0) || (zlen tail <? len) then []
      else take (Z.to_nat len) tail :: label_walk fuel' (drop (Z.to_nat len) tail)
  | _, _ => []
  end.

Definition labels (n : Name) : list (list Z) :=
  label_walk (length (as_bytes n)) (as_bytes n).

Definition label_count (n : Name) : Z := zlen (labels n).

Definition first_label (n : Name) : option (list Z) :=
  if is_root n then None else list.head (labels n).

Definition last_label (n : Name) : option (list Z) :=
  if is_root n then None else list.last (labels n).

Definition parent (n : Name) : option Name :=
  if zlen (as_bytes n) =? 1 then None
  else first ← get (as_bytes n) 0;
       MkName <$> get_from (as_bytes n) (1 + first).

(** [label.len() as u8] followed by the label. *)
Definition push_label (out label : list Z) : list Z :=
  out ++ [wrap 8 (zlen label)] ++ label.

Definition apex (n : Name) : Name :=
  let total := label_count n in
  if total <=? 2 then n
  else MkName (fold_left push_label (drop (Z.to_nat (total - 2)) (labels n)) [] ++ [0]).

Definition is_subdomain_of (self other : Name) : bool :=
  ends_with (as_bytes self) (as_bytes other).

Definition is_strict_subdomain_of (self other : Name) : bool :=
  negb (bool_decide (self = other)) && is_subdomain_of self other.

(** The loop of [common_suffix] over the two reversed label lists. *)
Fixpoint common_suffix_loop (a_rev b_rev : list (list Z)) (suffix : list Z) : list Z :=
  match a_rev, b_rev with
  | a :: a_rev', b :: b_rev' =>
      if bool_decide (a = b)
      then common_suffix_loop a_rev' b_rev' ([wrap 8 (zlen a)] ++ a ++ suffix)
      else suffix
  | _, _ => suffix
  end.

Definition common_suffix (self other : Name) : Name :=
  MkName (common_suffix_loop (reverse (labels self)) (reverse (labels other)) [] ++ [0]).

Definition canonical (n : Name) : Name := MkName (to_lower <$> as_bytes n).

Definition is_0x20_eligible (n : Name) : bool :=
  existsb is_ascii_alphabetic (as_bytes n).

Definition write_wire (n : Name) (out : list Z) : list Z := out ++ as_bytes n.

(** ** Parsing from the wire *)

(** The loop of [from_wire].  [None] means that the fuel ran out, which
    [from_wire_loop_fuel] excludes for the fuel [from_wire] gives. *)
Fixpoint from_wire_loop (fuel : nat) (buf : list Z) (p end_ : Z) (jumped : bool)
    (hops total : Z) (label_bytes lens : list Z)
    : option (result Error (Z * list Z * list Z)) :=
  match fuel with
  | O => None
  | S fuel' =>
    match byte_at buf p with
    | Err _ => Some (Err (wire "truncated name"))
    | Ok len =>
      let tag := Z.land len 0xc0 in
      if tag =? 0 then
        if len =? 0 then
          Some (Ok (if jumped then end_ else p + 1, label_bytes, lens))
        else if 63 <? len then Some (Err (wire "label longer than 63 octets"))
        else match slice_at buf (p + 1) len with
        | Err _ => Some (Err (wire "truncated label"))
        | Ok label =>
          let total := total + (1 + len) in
          if MAX_NAME_LEN <? total then Some (Err (wire "name exceeds 255 octets"))
          else if MAX_LABELS <=? zlen lens then Some (Err (wire "too many labels"))
          else from_wire_loop fuel' buf (p + (1 + len)) end_ jumped hops total
                 (label_bytes ++ (to_lower <$> label)) (lens ++ [wrap 8 len])
        end
      else if tag =? 0xc0 then
        match byte_at buf (p + 1) with
        | Err _ => Some (Err (wire "truncated compression pointer"))
        | Ok second =>
          let off := Z.lor (Z.shiftl (Z.land len 0x3f) 8) second in
          if zlen buf <=? off then Some (Err (wire "compression pointer out of range"))
          else
            let end_ := if jumped then end_ else p + 2 in
            let hops := hops + 1 in
            if MAX_POINTER_HOPS <? hops then Some (Err (wire "compression pointer loop"))
            else from_wire_loop fuel' buf off end_ true hops total label_bytes lens
        end
      else Some (Err (wire "unsupported label type (EDNS label types are not accepted)"))
    end
  end.

Definition lengths_disagree : Error :=
  internal "label lengths disagree with the byte pool".

(** The reassembly of [len][label]... from the recorded lengths. *)
Fixpoint reassemble (lens rest out : list Z) : result Error (list Z) :=
  match lens with
  | [] => Ok out
  | l :: lens' =>
      label ← ok_or (get_range rest 0 l) lengths_disagree;
      rest' ← ok_or (get_from rest l) lengths_disagree;
      reassemble lens' rest' (out ++ [l] ++ label)
  end.

(** One iteration per label (at most 127) or pointer (at most 129), plus one. *)
Definition from_wire_fuel : nat := 260.

Definition from_wire (buf : list Z) (pos : Z) : result Error (Name * Z) :=
  if zlen buf <=? pos then Err (wire "truncated name (position out of bounds)")
  else match from_wire_loop from_wire_fuel buf pos pos false 0 1 [] [] with
  | None => Err (internal "out of fuel")
  | Some r =>
      '(end_, label_bytes, lens) ← r;
      _ ← reject_if (MAX_LABELS <=? zlen lens) (wire "too many labels");
      out ← reassemble lens label_bytes [];
      Ok (MkName (out ++ [0]), end_)
  end.

(** ** Presentation format *)

Record ascii_state := AsciiState {
  st_labels : list Z;
  st_current : list Z;
  st_total : Z;
  st_count : Z }.

Definition finish_label (st : ascii_state) : result Error ascii_state :=
  let n := zlen (st_current st) in
  _ ← reject_if (63 <? n) (wire "label longer than 63 octets");
  let total := st_total st + (1 + n) in
  _ ← reject_if (MAX_NAME_LEN <? total) (wire "name exceeds 255 octets");
  _ ← reject_if (MAX_LABELS <=? st_count st) (wire "too many labels");
  Ok (AsciiState (st_labels st ++ [wrap 8 n] ++ st_current st) [] total (st_count st + 1)).

Definition push_current (st : ascii_state) (b : Z) : ascii_state :=
  AsciiState (st_labels st) (st_current st ++ [b]) (st_total st) (st_count st).

Definition bad_ddd : Error := wire "bad \DDD escape in name".

(** The character loop of [from_ascii]: 92 is the backslash, 46 the dot. *)
Fixpoint from_ascii_loop (rest : list Z) (st : ascii_state) : result Error ascii_state :=
  match rest with
  | [] => Ok st
  | b :: rest =>
    if b =? 92 then
      match rest with
      | [] => Err (wire "trailing backslash in name")
      | escaped :: rest =>
        if is_ascii_digit escaped then
          match rest with
          | [] => Err bad_ddd
          | d2 :: rest =>
            match rest with
            | [] => Err bad_ddd
            | d3 :: rest =>
              if negb (is_ascii_digit d2) || negb (is_ascii_digit d3) then Err bad_ddd
              else
                let v := (escaped - 48) * 100 + (d2 - 48) * 10 + (d3 - 48) in
                if 255 <? v then Err bad_ddd
                else from_ascii_loop rest (push_current st v)
            end
          end
        else from_ascii_loop rest (push_current st escaped)
      end
    else if b =? 46 then
      if zlen (st_current st) =? 0 then
        if zlen rest =? 0 then Ok st else Err (wire "empty label in name")
      else
        match finish_label st with
        | Err e => Err e
        | Ok st => from_ascii_loop rest st
        end
    else from_ascii_loop rest (push_current st b)
  end.

Definition from_ascii (s : list Z) : result Error Name :=
  st ← from_ascii_loop s (AsciiState [] [] 0 0);
  st ← (if zlen (st_current st) =? 0 then Ok st else finish_label st);
  Ok (MkName ((to_lower <$> st_labels st) ++ [0])).

(** [format!("{:03}", b)] *)
Definition three_digits (b : Z) : list Z :=
  [48 + b / 100; 48 + b / 10 mod 10; 48 + b mod 10].

Definition escape_byte (b : Z) : list Z :=
  if b =? 46 then [92; 46]                      (* . *)
  else if b =? 92 then [92; 92]                 (* \ *)
  else if b =? 32 then [92; 48; 51; 50]         (* space, \032 *)
  else if b =? 34 then [92; 48; 52; 50]         (* double quote, \042 *)
  else if b =? 64 then [92; 48; 54; 52]         (* @, \064 *)
  else if b =? 40 then [92; 48; 52; 48]         (* \040 *)
  else if b =? 41 then [92; 48; 52; 49]         (* \041 *)
  else if b =? 59 then [92; 48; 53; 57]         (* ;, \059 *)
  else if negb ((0x21 <=? b) && (b <=? 0x7e)) then 92 :: three_digits b
  else [b].

Definition to_ascii (n : Name) : list Z :=
  let s := fold_left (fun s label =>
             (if zlen s =? 0 then s else s ++ [46]) ++ flat_map escape_byte label)
             (labels n) [] in
  if zlen s =? 0 then [46] else s.

(** ** Specification: label lists and decodings *)

(** The wire form of a label list, without the root octet. *)
Definition enc_labels (ls : list (list Z)) : list Z :=
  flat_map (fun l => zlen l :: l) ls.

Definition of_labels (ls : list (list Z)) : Name := MkName (enc_labels ls ++ [0]).

Definition label_ok (l : list Z) : Prop := 1 <= zlen l <= 63 /\ bytes l.
Definition lower_ok (l : list Z) : Prop := to_lower <$> l = l.

(** A buffer a Rust slice can have. *)
Definition buf_ok (buf : list Z) : Prop := bytes buf /\ zlen buf <= usize_max.

(** The labels of a parsed name: at most 126 lower-case labels of 1 to 63
    octets, at most 255 octets in all. *)
Definition wf_labels (ls : list (list Z)) : Prop :=
  Forall label_ok ls /\ Forall lower_ok ls /\
  zlen (enc_labels ls) + 1 <= MAX_NAME_LEN /\ zlen ls < MAX_LABELS.

Definition wf_name (n : Name) : Prop := exists ls, wf_labels ls /\ n = of_labels ls.

(** [Decodes buf p ls h e]: at [p] the message [buf] holds a name whose labels
    (folded to lower case) are [ls], reached through [h] compression pointers;
    its encoding at [p] ends just before [e]. *)
Inductive Decodes (buf : list Z) : Z -> list (list Z) -> nat -> Z -> Prop :=
| Decodes_root p :
    get buf p = Some 0 -> Decodes buf p [] 0 (p + 1)
| Decodes_label p len label ls h e :
    get buf p = Some len -> 1 <= len <= 63 ->
    get_range buf (p + 1) (p + 1 + len) = Some label ->
    Decodes buf (p + 1 + len) ls h e ->
    Decodes buf p ((to_lower <$> label) :: ls) h e
| Decodes_pointer p b1 b2 ls h e :
    get buf p = Some b1 -> 192 <= b1 < 256 -> get buf (p + 1) = Some b2 ->
    Decodes buf ((b1 - 192) * 256 + b2) ls h e ->
    Decodes buf p ls (S h) (p + 2).

(** ** Lemmas: bytes and label lists *)

(** A decidable fact of all bytes holds if it holds of the 256 values. *)
Lemma byte_forall (P : Z -> bool) :
  forallb P (seqZ 0 256) = true -> forall b, is_byte b -> P b = true.
Proof.
  intros H b Hb. rewrite forallb_forall in H. apply H.
  apply list_elem_of_In, elem_of_seqZ. exact Hb.
Qed.

Lemma to_lower_byte b : is_byte b -> is_byte (to_lower b).
Proof. unfold to_lower, is_byte. destruct (_ && _)%bool eqn:E; bools; lia. Qed.

Lemma to_lower_idem b : to_lower (to_lower b) = to_lower b.
Proof.
  unfold to_lower. destruct ((65 <=? b) && (b <=? 90))%bool eqn:E; [|by rewrite E].
  bools. decide_ifs. done.
Qed.

Lemma lower_ok_lower l : lower_ok (to_lower <$> l).
Proof.
  unfold lower_ok. rewrite <- list_fmap_compose. apply list_fmap_ext.
  intros. apply to_lower_idem.
Qed.

Lemma zlen_fmap {A B} (f : A -> B) (l : list A) : zlen (f <$> l) = zlen l.
Proof. unfold zlen. by rewrite length_fmap. Qed.
#[export] Hint Rewrite @zlen_fmap : rxlen.

Lemma bytes_lower l : bytes l -> bytes (to_lower <$> l).
Proof. intros H. apply Forall_fmap. eapply List.Forall_impl; [|exact H]. intros x. apply to_lower_byte. Qed.

Lemma label_ok_lower l : label_ok l -> label_ok (to_lower <$> l).
Proof. intros [? ?]. split; [lens|by apply bytes_lower]. Qed.

Lemma enc_labels_app ls1 ls2 : enc_labels (ls1 ++ ls2) = enc_labels ls1 ++ enc_labels ls2.
Proof. apply flat_map_app. Qed.

Lemma enc_labels_cons l ls : enc_labels (l :: ls) = zlen l :: l ++ enc_labels ls.
Proof. done. Qed.

Lemma enc_labels_bytes ls : Forall label_ok ls -> bytes (enc_labels ls).
Proof.
  induction 1 as [|l ls [Hl Hb] _ IH]; [constructor|]. rewrite enc_labels_cons.
  constructor; [unfold is_byte; lia|]. by apply Forall_app.
Qed.

Lemma zlen_enc_labels_cons l ls :
  zlen (enc_labels (l :: ls)) = 1 + zlen l + zlen (enc_labels ls).
Proof. rewrite enc_labels_cons. lens. Qed.
#[export] Hint Rewrite zlen_enc_labels_cons : rxlen.

Lemma length_enc_labels ls : Forall label_ok ls -> 2 * zlen ls <= zlen (enc_labels ls).
Proof.
  induction 1 as [|l ls [? _] _ IH]; [done|]. lens.
Qed.

Lemma push_label_ok out l : label_ok l -> push_label out l = out ++ enc_labels [l].
Proof.
  intros [Hl _]. unfold push_label, wrap. cbn [enc_labels flat_map].
  rewrite Z.mod_small by lia. by rewrite app_nil_r.
Qed.

Lemma fold_push_label ls out :
  Forall label_ok ls -> fold_left push_label ls out = out ++ enc_labels ls.
Proof.
  intros H. revert out. induction H as [|l ls Hl _ IH]; intros; cbn [fold_left].
  - by rewrite app_nil_r.
  - rewrite IH, push_label_ok by done. rewrite <- app_assoc, <- enc_labels_app. done.
Qed.

(** ** Lemmas: the label walk *)

Lemma label_walk_enc fuel ls tail :
  Forall label_ok ls -> (length ls < fuel)%nat ->
  label_walk fuel (enc_labels ls ++ 0 :: tail) = ls.
Proof.
  intros H. revert fuel. induction H as [|l ls [Hl _] _ IH]; intros [|fuel] Hf; try (cbn in Hf; lia).
  - done.
  - rewrite enc_labels_cons. cbn [label_walk app].
    assert (Hlen : zlen ((l ++ enc_labels ls) ++ 0 :: tail)
                   = zlen l + zlen (enc_labels ls) + 1 + zlen tail) by lens.
    rewrite Hlen. len_facts. decide_ifs. unfold zlen at 1 2. rewrite Nat2Z.id.
    rewrite <- app_assoc, take_app_length, drop_app_length.
    f_equal. apply IH. cbn in Hf. lia.
Qed.

Lemma labels_of_labels ls : Forall label_ok ls -> labels (of_labels ls) = ls.
Proof.
  intros H. unfold labels, of_labels. cbn [as_bytes]. apply label_walk_enc; [done|].
  pose proof (length_enc_labels ls H). unfold zlen in *. rewrite length_app. cbn. lia.
Qed.

Lemma of_labels_inj ls1 ls2 :
  Forall label_ok ls1 -> Forall label_ok ls2 -> of_labels ls1 = of_labels ls2 -> ls1 = ls2.
Proof. intros H1 H2 E. rewrite <- (labels_of_labels ls1), E by done. by apply labels_of_labels. Qed.

Lemma wire_len_of_labels ls : wire_len (of_labels ls) = zlen (enc_labels ls) + 1.
Proof. unfold wire_len, of_labels. cbn [as_bytes]. lens. Qed.

Lemma is_root_of_labels ls : Forall label_ok ls -> is_root (of_labels ls) = bool_decide (ls = []).
Proof.
  intros H. destruct ls as [|l ls]; [done|]. inversion H as [|?? [? ?]]; subst.
  rewrite (bool_decide_false (_ = _)) by done.
  unfold is_root. fold (wire_len (of_labels (l :: ls))). rewrite wire_len_of_labels.
  autorewrite with rxlen. len_facts. decide_ifs. done.
Qed.

Lemma parent_of_labels l ls : label_ok l -> parent (of_labels (l :: ls)) = Some (of_labels ls).
Proof.
  intros [Hl _]. unfold parent, of_labels. cbn [as_bytes]. rewrite enc_labels_cons.
  replace (zlen _ =? 1) with false.
  2: { symmetry. apply Z.eqb_neq. lens. }
  cbn [app]. rewrite get_0. cbn [mbind option_bind].
  unfold get_from.
  rewrite (proj2 (get_range_split _ _ _ (enc_labels ls ++ [0]))); [done|].
  exists (zlen l :: l), []. rewrite app_nil_r, <- !app_assoc. cbn.
  split; [done|]. split; lens.
Qed.

(** Dropping every label walks the name down to the root. *)
Lemma parent_root : parent (of_labels []) = None.
Proof. done. Qed.

(** ** Lemmas: the wire parser against [Decodes] *)

(** The two tag bits classify a length octet. *)
Lemma tag_spec b : is_byte b ->
  (Z.land b 0xc0 = 0 <-> b < 64) /\ (Z.land b 0xc0 = 0xc0 <-> 192 <= b) /\
  (192 <= b -> Z.land b 0x3f = b - 192).
Proof.
  intros Hb.
  pose proof (byte_forall (fun b =>
    Bool.eqb (Z.land b 0xc0 =? 0) (b <? 64)
    && Bool.eqb (Z.land b 0xc0 =? 0xc0) (192 <=? b)
    && implb (192 <=? b) (Z.land b 0x3f =? b - 192)) eq_refl b Hb) as H.
  apply andb_prop in H as [[H1 H2]%andb_prop H3].
  apply eqb_prop in H1, H2.
  split; [|split].
  - destruct (Z.ltb_spec b 64); bools; lia.
  - destruct (Z.leb_spec 192 b); bools; lia.
  - intros Hl. rewrite (proj2 (Z.leb_le 192 b) Hl) in H3. by apply Z.eqb_eq in H3.
Qed.

Lemma lor_shiftl_8 a b : 0 <= a -> is_byte b -> Z.lor (Z.shiftl a 8) b = a * 256 + b.
Proof.
  intros Ha Hb. rewrite Z.shiftl_mul_pow2 by lia. change (2 ^ 8) with 256.
  rewrite <- Z.lxor_lor; [symmetry; apply Z.add_nocarry_lxor|].
  all: apply Z.bits_inj'; intros n Hn; rewrite Z.land_spec, Z.bits_0;
    destruct (Z.lt_ge_cases n 8) as [Hn8|Hn8].
  1, 3: change 256 with (2 ^ 8); by rewrite (Z.mul_pow2_bits_low a 8 n).
  all: rewrite <- (Z.mod_small b (2 ^ 8)) by exact Hb;
    rewrite Z.mod_pow2_bits_high by lia; apply andb_false_r.
Qed.

Lemma pointer_offset b1 b2 :
  192 <= b1 < 256 -> is_byte b2 ->
  Z.lor (Z.shiftl (Z.land b1 0x3f) 8) b2 = (b1 - 192) * 256 + b2.
Proof.
  intros H1 H2. destruct (tag_spec b1) as (_ & _ & E); [unfold is_byte; lia|].
  rewrite E by lia. apply lor_shiftl_8; [lia|done].
Qed.

Section parser.
Variable buf : list Z.
Hypothesis Hbuf : buf_ok buf.

Lemma get_byte i b : get buf i = Some b -> is_byte b.
Proof. apply get_Forall. apply Hbuf. Qed.

(** What a successful run of the loop has read. *)
Lemma from_wire_loop_sound fuel p end_ jumped hops total lb lens e lb' lens' :
  hops <= MAX_POINTER_HOPS -> total <= MAX_NAME_LEN -> zlen lens <= MAX_LABELS ->
  from_wire_loop fuel buf p end_ jumped hops total lb lens = Some (Ok (e, lb', lens')) ->
  exists ls h ed, Decodes buf p ls h ed /\
    lb' = lb ++ concat ls /\ lens' = lens ++ (zlen <$> ls) /\
    e = (if jumped then end_ else ed) /\
    hops + Z.of_nat h <= MAX_POINTER_HOPS /\
    total + zlen (enc_labels ls) <= MAX_NAME_LEN /\
    zlen lens + zlen ls <= MAX_LABELS /\ Forall label_ok ls /\ Forall lower_ok ls.
Proof.
  revert p end_ jumped hops total lb lens.
  induction fuel as [|fuel IH]; intros p end_ jumped hops total lb lens Hh Ht Hn; [done|].
  cbn [from_wire_loop]. destruct (byte_at buf p) as [len|] eqn:Ep; [|done].
  apply byte_at_Ok in Ep. pose proof (get_byte _ _ Ep) as Hb.
  destruct (tag_spec len Hb) as (T0 & T3 & _). unfold is_byte in Hb.
  destruct (Z.eqb_spec (Z.land len 0xc0) 0) as [E0|E0].
  { destruct (Z.eqb_spec len 0) as [->|Hl0].
    { intros [= <- <- <-]. exists [], 0%nat, (p + 1). cbn [concat fmap list_fmap enc_labels flat_map].
      rewrite !app_nil_r, ?zlen_nil. repeat split; try constructor; try done; try lia; lens. }
    destruct (63 <? len) eqn:E63; [done|]. bools.
    destruct (slice_at buf (p + 1) len) as [label|] eqn:El; [|done].
    apply slice_at_Ok in El as [El _].
    destruct (MAX_NAME_LEN <? total + (1 + len)) eqn:EN; [done|].
    destruct (MAX_LABELS <=? zlen lens) eqn:EL; [done|]. bools. intros Hrun.
    pose proof (get_range_len _ _ _ _ El) as (_ & Hlab & _).
    assert (Hw : wrap 8 len = len) by (apply Z.mod_small; lia). rewrite Hw in Hrun.
    apply IH in Hrun as (ls & h & ed & HD & -> & -> & -> & ? & ? & ? & Hok & Hlow); [|lia|lia|lens].
    exists ((to_lower <$> label) :: ls), h, ed. split.
    { eapply Decodes_label; [exact Ep|lia|exact El|].
      by replace (p + 1 + len) with (p + (1 + len)) by lia. }
    autorewrite with rxlen in *. cbn [concat fmap list_fmap]. rewrite zlen_fmap.
    replace len with (zlen label) by lia.
    rewrite <- !app_assoc. repeat split; try lia; try done.
    - constructor; [|done]. apply label_ok_lower. split; [lia|].
      eapply get_range_Forall; [apply Hbuf|exact El].
    - constructor; [|done]. apply lower_ok_lower. }
  destruct (Z.eqb_spec (Z.land len 0xc0) 0xc0) as [E3|E3]; [|done].
  destruct (byte_at buf (p + 1)) as [second|] eqn:E2; [|done]. apply byte_at_Ok in E2.
  pose proof (get_byte _ _ E2) as Hb2. rewrite pointer_offset by (done || lia).
  destruct (zlen buf <=? _); [done|].
  destruct (MAX_POINTER_HOPS <? hops + 1) eqn:EH; [done|]. bools. intros Hrun.
  apply IH in Hrun as (ls & h & ed & HD & -> & -> & -> & ? & ? & ? & Hok & Hlow); [|lia..].
  exists ls, (S h), (p + 2). split.
  { eapply Decodes_pointer; [exact Ep|lia|exact E2|exact HD]. }
  repeat split; try done; try lia.
Qed.

(** Every name the specification admits within the limits is parsed. *)
Lemma from_wire_loop_complete p ls h ed :
  Decodes buf p ls h ed ->
  forall fuel end_ jumped hops total lb lens,
  hops + Z.of_nat h <= MAX_POINTER_HOPS -> total + zlen (enc_labels ls) <= MAX_NAME_LEN ->
  zlen lens + zlen ls <= MAX_LABELS -> (length ls + h < fuel)%nat ->
  from_wire_loop fuel buf p end_ jumped hops total lb lens =
    Some (Ok (if jumped then end_ else ed, lb ++ concat ls, lens ++ (zlen <$> ls))).
Proof.
  induction 1 as [p Hp|p len label ls h e Hp Hl Hr HD IH|p b1 b2 ls h e Hp Hb1 Hp2 HD IH];
    intros [|fuel] end_ jumped hops total lb lens Hh Ht Hn Hf; try (cbn in Hf; lia).
  - cbn [from_wire_loop]. rewrite (proj2 (byte_at_Ok _ _ _) Hp). cbn. by rewrite !app_nil_r.
  - cbn [from_wire_loop]. rewrite (proj2 (byte_at_Ok _ _ _) Hp).
    destruct (tag_spec len) as (T0 & _ & _); [unfold is_byte; lia|].
    rewrite (proj2 T0) by lia. cbn [Z.eqb].
    pose proof (get_range_len _ _ _ _ Hr) as (_ & Hlab & Hle).
    rewrite (proj2 (slice_at_Ok buf (p + 1) len label)); [|split; [done|destruct Hbuf; lia]].
    autorewrite with rxlen in *. len_facts. decide_ifs.
    replace (wrap 8 len) with len by (symmetry; apply Z.mod_small; lia).
    replace (p + (1 + len)) with (p + 1 + len) by lia. rewrite IH.
    + cbn [concat fmap list_fmap]. rewrite zlen_fmap, <- !app_assoc. cbn [app].
      by replace (zlen label) with len by lia.
    + done.
    + lia.
    + lens.
    + cbn [length] in Hf. lia.
  - cbn [from_wire_loop]. rewrite (proj2 (byte_at_Ok _ _ _) Hp).
    destruct (tag_spec b1) as (T0 & T3 & _); [unfold is_byte; lia|].
    rewrite (proj2 T3) by lia. cbn [Z.eqb Pos.eqb]. rewrite (proj2 (byte_at_Ok _ _ _) Hp2).
    pose proof (get_byte _ _ Hp2) as Hbb2. rewrite pointer_offset by done.
    assert (Hoff : (b1 - 192) * 256 + b2 < zlen buf).
    { inversion HD; match goal with H : get buf _ = Some _ |- _ => apply get_Some_lt in H end; lia. }
    decide_ifs. rewrite IH by lia. done.
Qed.

(** The fuel never runs out. *)
Lemma from_wire_loop_fuel fuel p end_ jumped hops total lb lens :
  hops <= MAX_POINTER_HOPS -> zlen lens <= MAX_LABELS ->
  (MAX_POINTER_HOPS - hops) + (MAX_LABELS - zlen lens) < Z.of_nat fuel ->
  from_wire_loop fuel buf p end_ jumped hops total lb lens <> None.
Proof.
  revert p end_ jumped hops total lb lens.
  induction fuel as [|fuel IH]; intros p end_ jumped hops total lb lens Hh Hn Hf; [lia|].
  cbn [from_wire_loop].
  repeat case_match; try done; bools; apply IH; autorewrite with rxlen; lia.
Qed.

Lemma reassemble_concat ls tail out :
  reassemble (zlen <$> ls) (concat ls ++ tail) out = Ok (out ++ enc_labels ls).
Proof.
  revert out. induction ls as [|l ls IH]; intros out; cbn [fmap list_fmap reassemble concat].
  - by rewrite app_nil_r.
  - rewrite <- app_assoc.
    rewrite (proj2 (get_range_split _ 0 (zlen l) l)); [|exists [], (concat ls ++ tail); done].
    cbn [ok_or mbind result_bind]. unfold get_from.
    rewrite (proj2 (get_range_split _ (zlen l) _ (concat ls ++ tail))).
    2: { exists l, []. rewrite app_nil_r. split; [done|]. split; [done|lens]. }
    cbn [ok_or mbind result_bind]. rewrite IH.
    by rewrite enc_labels_cons, <- !app_assoc.
Qed.

Lemma from_wire_iff pos n e :
  from_wire buf pos = Ok (n, e) <->
  exists ls h, Decodes buf pos ls h e /\ Z.of_nat h <= MAX_POINTER_HOPS /\
    wf_labels ls /\ n = of_labels ls.
Proof.
  unfold from_wire. split.
  - destruct (_ <=? _); [done|].
    destruct (from_wire_loop _ _ _ _ _ _ _ _ _) as [[[[e' lb] lens]|]|] eqn:E; [|done..].
    apply from_wire_loop_sound in E
      as (ls & h & ed & HD & -> & -> & -> & Hh & Ht & Hn & Hok & Hlow); [|done..].
    cbn [mbind result_bind app] in *. unfold reject_if.
    destruct (MAX_LABELS <=? _) eqn:EL; [done|]. bools.
    rewrite <- (app_nil_r (concat ls)), reassemble_concat.
    intros [= <- <-]. exists ls, h. unfold wf_labels. autorewrite with rxlen in *.
    repeat split; try done; lia.
  - intros (ls & h & HD & Hh & (Hok & Hlow & Ht & Hn) & ->).
    assert (Hpos : pos < zlen buf).
    { inversion HD; match goal with H : get buf pos = Some _ |- _ => apply get_Some_lt in H end; lia. }
    decide_ifs.
    rewrite (from_wire_loop_complete _ _ _ _ HD); [|lia|lia|rewrite zlen_nil; lia|].
    2: { unfold MAX_POINTER_HOPS, MAX_LABELS, from_wire_fuel, zlen in *. lia. }
    cbn [mbind result_bind app]. unfold reject_if. rewrite zlen_fmap. decide_ifs.
    rewrite <- (app_nil_r (concat ls)), reassemble_concat. done.
Qed.
End parser.

(** A decoding depends on the bytes it reads only, so it survives an append. *)
Lemma Decodes_app buf tail p ls h e : Decodes buf p ls h e -> Decodes (buf ++ tail) p ls h e.
Proof.
  induction 1.
  - constructor. by apply get_app_l.
  - eapply Decodes_label; [by apply get_app_l|done|by apply get_range_app_l|done].
  - eapply Decodes_pointer; [by apply get_app_l|done|by apply get_app_l|done].
Qed.

Lemma Decodes_bounds buf p ls h e : Decodes buf p ls h e -> 0 <= p < e /\ e <= zlen buf.
Proof.
  induction 1 as [p Hp|p len label ls h e Hp Hl Hr HD [IH1 IH2]|p b1 b2 ls h e Hp Hb1 Hp2 HD IH].
  - apply get_Some_lt in Hp. lia.
  - apply get_Some_lt in Hp. lia.
  - apply get_Some_lt in Hp, Hp2. lia.
Qed.

(** A decoding is unique. *)
Lemma Decodes_det buf p ls h e :
  Decodes buf p ls h e -> forall ls' h' e', Decodes buf p ls' h' e' -> ls' = ls /\ h' = h /\ e' = e.
Proof.
  induction 1 as [p Hp|p len label ls h e Hp Hl Hr HD IH|p b1 b2 ls h e Hp Hb1 Hp2 HD IH];
    intros ls' h' e' H'; inversion H'; subst; simplify_eq; try lia.
  - done.
  - match goal with H : Decodes _ _ ls0 _ _ |- _ => apply IH in H as (-> & -> & ->) end. done.
  - match goal with H : Decodes _ _ ls' _ _ |- _ => apply IH in H as (-> & -> & _) end. done.
Qed.

(** The uncompressed encoding decodes to its own labels. *)
Lemma Decodes_enc ls pre post :
  Forall label_ok ls -> Forall lower_ok ls ->
  Decodes (pre ++ enc_labels ls ++ 0 :: post) (zlen pre) ls 0
    (zlen pre + zlen (enc_labels ls) + 1).
Proof.
  intros Hok Hlow. revert pre. induction Hok as [|l ls [Hl _] Hok IH]; intros pre.
  - cbn. rewrite Z.add_0_r. constructor. apply get_middle.
  - inversion Hlow as [|?? Hll Hls]; subst.
    unfold lower_ok in Hll. rewrite <- Hll at 2. eapply (Decodes_label _ _ (zlen l) l).
    + rewrite enc_labels_cons. apply get_middle.
    + done.
    + rewrite enc_labels_cons.
      apply get_range_split. exists (pre ++ [zlen l]), (enc_labels ls ++ 0 :: post).
      split; [by rewrite <- !app_assoc; cbn; rewrite <- app_assoc|]. split; [lens|done].
    + specialize (IH Hls (pre ++ zlen l :: l)).
      rewrite enc_labels_cons.
      replace (pre ++ (zlen l :: l ++ enc_labels ls) ++ 0 :: post)
        with ((pre ++ zlen l :: l) ++ enc_labels ls ++ 0 :: post)
        by (by rewrite <- !app_assoc; cbn; rewrite <- !app_assoc).
      replace (zlen pre + 1 + zlen l) with (zlen (pre ++ zlen l :: l)) by lens.
      replace (zlen pre + zlen (zlen l :: l ++ enc_labels ls) + 1)
        with (zlen (pre ++ zlen l :: l) + zlen (enc_labels ls) + 1) by lens.
      exact IH.
Qed.

(** ** Lemmas: suffixes *)

(** A suffix of the wire form is a label suffix as soon as no label of the
    longer name contains the octet that starts the shorter one. *)
Lemma enc_suffix_aligned ls l ls2 x :
  Forall (fun a => ~ In (zlen l) a) ls ->
  enc_labels ls = x ++ enc_labels (l :: ls2) ->
  Forall label_ok ls -> Forall label_ok (l :: ls2) ->
  exists pre, ls = pre ++ l :: ls2.
Proof.
  intros Hno. revert x. induction Hno as [|a ls Ha Hls IH]; intros x E Hok Hok2.
  { destruct x; done. }
  inversion Hok as [|?? [Hal _] Hok']; subst.
  destruct x as [|c x].
  - exists []. apply (of_labels_inj (a :: ls) (l :: ls2)); [done..|].
    unfold of_labels. by rewrite E.
  - rewrite enc_labels_cons in E. cbn [app] in E. injection E as <- E.
    apply app_eq_app in E as (m & [[Em1 Em2]|[Em1 Em2]]).
    + destruct m as [|c m].
      * rewrite app_nil_r in Em1. cbn in Em2. subst x.
        edestruct (IH []) as [pre ->]; [done..|]. by exists (a :: pre).
      * exfalso. injection Em2 as <- _.
        apply Ha. rewrite Em1. apply in_elt.
    + edestruct (IH m) as [pre ->]; [exact Em2|done..|]. by exists (a :: pre).
Qed.

Lemma ends_with_iff l s : ends_with l s = true <-> exists pre, l = pre ++ s.
Proof.
  unfold ends_with. rewrite bool_decide_eq_true, get_range_split. split.
  - intros (pre & post & -> & Hl & _). exists pre.
    destruct post; [by rewrite app_nil_r|]. exfalso.
    autorewrite with rxlen in Hl. len_facts. lia.
  - intros [pre ->]. exists pre, []. rewrite app_nil_r. split; [done|]. lens.
Qed.

Lemma common_suffix_loop_spec a b suf :
  Forall label_ok a ->
  exists p : list (list Z),
    common_suffix_loop a b suf = enc_labels (reverse p) ++ suf /\
    (exists a', a = p ++ a') /\ (exists b', b = p ++ b') /\
    (forall q, (exists a', a = q ++ a') -> (exists b', b = q ++ b') -> exists p', p = q ++ p').
Proof.
  intros Ha. revert b suf. induction Ha as [|x a [Hx _] _ IH]; intros [|y b] suf.
  1, 2, 3: exists []; cbn; split; [done|]; split; [eauto|]; split; [eauto|];
    intros q [a' Ea] [b' Eb]; destruct q; [eauto|done].
  cbn [common_suffix_loop]. case_bool_decide as E; subst.
  - unfold wrap. rewrite Z.mod_small by lia.
    destruct (IH b ([zlen y] ++ y ++ suf)) as (p & -> & [a' ->] & [b' ->] & Hmax).
    exists (y :: p). split; [|split; [by exists a'|split; [by exists b'|]]].
    + rewrite reverse_cons, enc_labels_app. cbn [enc_labels flat_map].
      rewrite app_nil_r, <- !app_assoc. done.
    + intros [|z q] [a2 Ea] [b2 Eb]; [eauto|].
      injection Ea as -> Ea. injection Eb as Eb.
      destruct (Hmax q) as [p' ->]; [by exists a2|by exists b2|]. by exists p'.
  - exists []. cbn. split; [done|]. split; [eauto|]. split; [eauto|].
    intros [|z q] [a2 Ea] [b2 Eb]; [eauto|]. cbn in *. simplify_eq.
Qed.

Lemma common_suffix_of_labels la lb :
  Forall label_ok la -> Forall label_ok lb ->
  exists lc, common_suffix (of_labels la) (of_labels lb) = of_labels lc /\
    (exists pa, la = pa ++ lc) /\ (exists pb, lb = pb ++ lc) /\
    (forall ld, (exists pa, la = pa ++ ld) -> (exists pb, lb = pb ++ ld) ->
       exists pc, lc = pc ++ ld).
Proof.
  intros Ha Hb. unfold common_suffix. rewrite !labels_of_labels by done.
  destruct (common_suffix_loop_spec (reverse la) (reverse lb) [])
    as (p & -> & [a' Ea] & [b' Eb] & Hmax).
  { by apply Forall_reverse. }
  exists (reverse p). rewrite app_nil_r. split; [done|].
  apply (f_equal reverse) in Ea, Eb. rewrite reverse_involutive, reverse_app in Ea, Eb.
  split; [by exists (reverse a')|]. split; [by exists (reverse b')|].
  intros ld [pa Ea2] [pb Eb2]. destruct (Hmax (reverse ld)) as [p' ->].
  - exists (reverse pa). by rewrite Ea2, reverse_app.
  - exists (reverse pb). by rewrite Eb2, reverse_app.
  - exists (reverse p'). by rewrite reverse_app, reverse_involutive.
Qed.

Lemma apex_of_labels ls :
  Forall label_ok ls -> apex (of_labels ls) = of_labels (drop (length ls - 2) ls).
Proof.
  intros H. unfold apex, label_count. rewrite labels_of_labels by done.
  destruct (zlen ls <=? 2) eqn:E; bools; unfold zlen in E.
  - by replace (length ls - 2)%nat with 0%nat by lia.
  - replace (Z.to_nat (zlen ls - 2)) with (length ls - 2)%nat by (unfold zlen; lia).
    rewrite fold_push_label by (by apply Forall_drop). done.
Qed.

(** ** Lemmas: the presentation format *)

(** What reading back an escaped octet yields: the escape of the double quote
    (34) is the octal spelling of it, and a \DDD escape is read as decimal. *)
Definition reread (b : Z) : Z := if b =? 34 then 42 else b.
Definition reread_label (l : list Z) : list Z := reread <$> l.
Definition reread_labels (ls : list (list Z)) : list (list Z) := reread_label <$> ls.

Lemma from_ascii_loop_escape b rest st :
  is_byte b ->
  from_ascii_loop (escape_byte b ++ rest) st = from_ascii_loop rest (push_current st (reread b)).
Proof.
  intros Hb. unfold is_byte in Hb. unfold escape_byte, reread.
  repeat match goal with
  | |- context [b =? ?k] => destruct (Z.eqb_spec b k) as [->|]; [done|]
  end.
  destruct (negb _) eqn:E.
  - unfold three_digits. cbn [app from_ascii_loop].
    rewrite Z.eqb_refl.
    pose proof (Z.mod_pos_bound b 10 ltac:(lia)). pose proof (Z.mod_pos_bound (b / 10) 10 ltac:(lia)).
    assert (0 <= b / 100 < 3) by (split; [apply Z.div_pos; lia|apply Z.div_lt_upper_bound; lia]).
    assert (Hv : (48 + b / 100 - 48) * 100 + (48 + b / 10 mod 10 - 48) * 10
                 + (48 + b mod 10 - 48) = b).
    { replace (b / 100) with (b / 10 / 10) by (rewrite Z.div_div by lia; done).
      pose proof (Z.div_mod b 10 ltac:(lia)). pose proof (Z.div_mod (b / 10) 10 ltac:(lia)). lia. }
    unfold is_ascii_digit. rewrite Hv. decide_ifs. done.
  - cbn [app from_ascii_loop]. decide_ifs. done.
Qed.

Lemma from_ascii_loop_label l rest st :
  bytes l ->
  from_ascii_loop (flat_map escape_byte l ++ rest) st =
  from_ascii_loop rest
    (AsciiState (st_labels st) (st_current st ++ (reread_label l)) (st_total st) (st_count st)).
Proof.
  intros Hl. revert st. induction Hl as [|b l Hb _ IH]; intros [lb c t n]; cbn [flat_map].
  - cbn. by rewrite app_nil_r.
  - rewrite <- app_assoc, from_ascii_loop_escape, IH by done. cbn. by rewrite <- app_assoc.
Qed.

Lemma escape_byte_nonempty b : 1 <= zlen (escape_byte b).
Proof. unfold escape_byte, three_digits. repeat case_match; lens. Qed.

Lemma escape_label_nonempty l : 1 <= zlen l -> 1 <= zlen (flat_map escape_byte l).
Proof.
  destruct l as [|b l]; [cbn; lia|]. intros _. cbn [flat_map].
  pose proof (escape_byte_nonempty b). lens.
Qed.

(** The rendered form after the first label: a dot before every label. *)
Definition dotted (ls : list (list Z)) : list Z :=
  flat_map (fun l => 46 :: flat_map escape_byte l) ls.

Lemma fold_dotted ls s :
  1 <= zlen s -> Forall label_ok ls ->
  fold_left (fun s label => (if zlen s =? 0 then s else s ++ [46]) ++ flat_map escape_byte label)
    ls s = s ++ dotted ls.
Proof.
  intros Hs Hok. revert s Hs. induction Hok as [|l ls Hl Hok IH]; intros s Hs; cbn [fold_left].
  - unfold dotted. cbn [flat_map]. by rewrite app_nil_r.
  - rewrite (proj2 (Z.eqb_neq _ _)) by lia. rewrite IH by lens.
    unfold dotted. cbn [flat_map]. by rewrite <- !app_assoc.
Qed.

Lemma to_ascii_of_labels l ls :
  Forall label_ok (l :: ls) ->
  to_ascii (of_labels (l :: ls)) = flat_map escape_byte l ++ dotted ls.
Proof.
  intros H. unfold to_ascii. rewrite labels_of_labels by done.
  inversion H as [|?? [Hl _] Hls]; subst. cbn [fold_left]. change (zlen [] =? 0) with true. cbn [app].
  pose proof (escape_label_nonempty l ltac:(lia)).
  rewrite fold_dotted by done. rewrite (proj2 (Z.eqb_neq _ _)); [done|]. lens.
Qed.

Lemma finish_label_ok done_ l :
  label_ok l -> zlen (enc_labels (done_ ++ [l])) <= MAX_NAME_LEN -> zlen done_ < MAX_LABELS ->
  finish_label (AsciiState (enc_labels done_) l (zlen (enc_labels done_)) (zlen done_)) =
  Ok (AsciiState (enc_labels (done_ ++ [l])) [] (zlen (enc_labels (done_ ++ [l])))
        (zlen (done_ ++ [l]))).
Proof.
  intros [Hl _] Ht Hn. unfold finish_label. cbn [st_current st_total st_count st_labels].
  rewrite enc_labels_app in *. autorewrite with rxlen in *. cbn [enc_labels flat_map] in *.
  unfold reject_if. decide_ifs. cbn [mbind result_bind]. unfold wrap.
  rewrite Z.mod_small by lia. rewrite app_nil_r in *. cbn.
  do 2 f_equal; lens.
Qed.

Lemma reread_byte b : is_byte b -> is_byte (reread b).
Proof. unfold reread, is_byte. destruct (Z.eqb_spec b 34); lia. Qed.

Lemma reread_lower b : to_lower b = b -> to_lower (reread b) = reread b.
Proof. unfold reread. by destruct (b =? 34). Qed.

Lemma zlen_reread_label l : zlen (reread_label l) = zlen l.
Proof. apply zlen_fmap. Qed.
#[export] Hint Rewrite zlen_reread_label : rxlen.

Lemma label_ok_reread l : label_ok l -> label_ok (reread_label l).
Proof.
  intros [? H]. split; [lens|]. apply Forall_fmap.
  eapply List.Forall_impl; [|exact H]. intros x. apply reread_byte.
Qed.

Lemma zlen_enc_reread ls : zlen (enc_labels (reread_labels ls)) = zlen (enc_labels ls).
Proof.
  induction ls as [|l ls IH]; [done|].
  change (reread_labels (l :: ls)) with (reread_label l :: reread_labels ls).
  rewrite !zlen_enc_labels_cons, zlen_reread_label. lia.
Qed.

Lemma lower_ok_reread l : lower_ok l -> lower_ok (reread_label l).
Proof.
  unfold lower_ok, reread_label. induction l as [|b l IH]; [done|]. cbn.
  intros [= Hb Hl]. rewrite reread_lower by done. f_equal. by apply IH.
Qed.

Lemma from_ascii_loop_dotted ls done_ l :
  Forall label_ok done_ -> label_ok l -> Forall label_ok ls ->
  zlen (enc_labels (done_ ++ l :: ls)) <= MAX_NAME_LEN ->
  zlen (done_ ++ l :: ls) <= MAX_LABELS ->
  exists done' l', done_ ++ l :: reread_labels ls = done' ++ [l'] /\ label_ok l' /\
    from_ascii_loop (dotted ls)
      (AsciiState (enc_labels done_) l (zlen (enc_labels done_)) (zlen done_)) =
    Ok (AsciiState (enc_labels done') l' (zlen (enc_labels done')) (zlen done')).
Proof.
  revert done_ l. induction ls as [|l2 ls IH]; intros done_ l Hd Hl1 Hl2 Ht Hn.
  { exists done_, l. done. }
  cbn [dotted flat_map app from_ascii_loop]. cbn [Z.eqb Pos.eqb].
  inversion Hl2 as [|?? Hl2' Hls]; subst.
  cbn [st_current]. rewrite (proj2 (Z.eqb_neq (zlen l) 0)) by (destruct Hl1; lia).
  replace (done_ ++ l :: l2 :: ls) with ((done_ ++ [l]) ++ l2 :: ls) in *
    by (by rewrite <- app_assoc).
  rewrite finish_label_ok; [|done| |].
  2: { rewrite enc_labels_app in Ht. autorewrite with rxlen in Ht. len_facts. lia. }
  2: { autorewrite with rxlen in Hn. len_facts. lia. }
  rewrite from_ascii_loop_label by apply Hl2'.
  cbn [st_labels st_current st_total st_count app reread_labels fmap list_fmap].
  destruct (IH (done_ ++ [l]) (reread_label l2)) as (done' & l' & E & Hrun).
  - apply Forall_app. split; [done|]. by constructor.
  - by apply label_ok_reread.
  - done.
  - rewrite !enc_labels_app in *. autorewrite with rxlen in *. lia.
  - autorewrite with rxlen in *. lia.
  - exists done', l'. rewrite <- E, <- app_assoc. done.
Qed.

Lemma lower_enc_labels ls :
  Forall label_ok ls -> Forall lower_ok ls -> to_lower <$> enc_labels ls = enc_labels ls.
Proof.
  induction 1 as [|l ls [Hl _] _ IH]; [done|]. intros Hlow.
  inversion Hlow as [|?? Hl1 Hls]; subst. rewrite !enc_labels_cons. cbn [fmap list_fmap].
  change (list_fmap ?A ?B ?f ?x) with (f <$> x).
  rewrite fmap_app, IH, Hl1 by done. f_equal. unfold to_lower. decide_ifs. done.
Qed.

Lemma from_ascii_to_ascii ls :
  Forall label_ok ls -> Forall lower_ok ls ->
  zlen (enc_labels ls) <= MAX_NAME_LEN -> zlen ls <= MAX_LABELS ->
  from_ascii (to_ascii (of_labels ls)) = Ok (of_labels (reread_labels ls)).
Proof.
  intros Hok Hlow Ht Hn. destruct ls as [|l ls]; [done|].
  rewrite to_ascii_of_labels by done. unfold from_ascii.
  inversion Hok as [|?? Hl Hls]; subst. rewrite from_ascii_loop_label by apply Hl.
  destruct (from_ascii_loop_dotted ls [] (reread_label l)) as (done' & l' & E & Hl' & Hrun).
  { done. } { by apply label_ok_reread. } { done. }
  { cbn [app]. autorewrite with rxlen in *. done. } { cbn [app]. autorewrite with rxlen in *. done. }
  cbn [st_labels st_current st_total st_count app] in *.
  change (zlen (enc_labels [])) with 0 in Hrun. change (zlen []) with 0 in Hrun.
  change (enc_labels []) with (@nil Z) in Hrun. rewrite Hrun.
  change ((reread_label l) :: reread_labels ls) with (reread_labels (l :: ls)) in E.
  assert (Ht' : zlen (enc_labels (done' ++ [l'])) <= MAX_NAME_LEN)
    by (rewrite <- E, zlen_enc_reread; done).
  assert (Hn' : zlen (done' ++ [l']) <= MAX_LABELS)
    by (rewrite <- E; unfold reread_labels; by rewrite zlen_fmap).
  cbn [mbind result_bind st_current]. rewrite (proj2 (Z.eqb_neq _ _)) by (destruct Hl'; lia).
  rewrite finish_label_ok; [|done|done|autorewrite with rxlen in Hn'; lia].
  cbn [mbind result_bind st_labels]. rewrite <- E.
  assert (Hok' : Forall label_ok (reread_labels (l :: ls))).
  { apply Forall_fmap. eapply List.Forall_impl; [|exact Hok]. apply label_ok_reread. }
  rewrite lower_enc_labels; [done|done|].
  apply Forall_fmap. eapply List.Forall_impl; [|exact Hlow]. apply lower_ok_reread.
Qed.

Lemma reread_label_id l : reread_label l = l <-> ~ In 34 l.
Proof.
  induction l as [|b l IH]; [by split; [intros _ []|]|].
  change (reread_label (b :: l)) with (reread b :: reread_label l).
  assert (Hb : reread b = b <-> b <> 34) by (unfold reread; destruct (Z.eqb_spec b 34); lia).
  cbn [In]. split.
  - intros [= H1 H2] [->|Hin]; [by apply Hb|by apply IH].
  - intros H. f_equal.
    + apply Hb. intros ->. apply H. by left.
    + apply IH. intros ?. apply H. by right.
Qed.

Lemma reread_labels_id ls :
  reread_labels ls = ls <-> Forall (fun l => ~ In 34 l) ls.
Proof.
  induction ls as [|l ls IH]; [by split; [constructor|]|].
  change (reread_labels (l :: ls)) with (reread_label l :: reread_labels ls).
  rewrite List.Forall_cons_iff, <- IH, <- reread_label_id.
  split; [by intros [= ? ?]|by intros [-> ->]].
Qed.

(** [from_ascii] accepts only lower-cased labels of 1 to 63 octets. *)
Lemma finish_label_Ok st st' :
  finish_label st = Ok st' ->
  zlen (st_current st) <= 63 /\ st_total st + (1 + zlen (st_current st)) <= MAX_NAME_LEN /\
  st_count st < MAX_LABELS /\
  st' = AsciiState (st_labels st ++ zlen (st_current st) :: st_current st) []
          (st_total st + (1 + zlen (st_current st))) (st_count st + 1).
Proof.
  unfold finish_label. intros H. results. bools. split; [lia|]. split; [lia|]. split; [lia|].
  len_facts. unfold wrap. by rewrite Z.mod_small by lia.
Qed.

(** The accumulated state is the encoding of some label list. *)
Definition ascii_inv (st : ascii_state) : Prop :=
  exists ls, st_labels st = enc_labels ls /\ Forall label_ok ls /\
    bytes (st_current st) /\ st_total st = zlen (enc_labels ls) /\ st_count st = zlen ls /\
    st_total st <= MAX_NAME_LEN /\ st_count st <= MAX_LABELS.

Lemma ascii_inv_push st b : ascii_inv st -> is_byte b -> ascii_inv (push_current st b).
Proof.
  intros (ls & ? & ? & Hc & ? & ? & ? & ?) Hb. exists ls. cbn.
  repeat split; try done. apply Forall_app. split; [done|]. by constructor.
Qed.

Lemma ascii_inv_finish st st' :
  ascii_inv st -> zlen (st_current st) <> 0 -> finish_label st = Ok st' ->
  ascii_inv st' /\ st_current st' = [].
Proof.
  intros (ls & E1 & Hok & Hc & E2 & E3 & Ht & Hn) Hne (Hl & Ht' & Hn' & ->)%finish_label_Ok.
  split; [|done]. exists (ls ++ [st_current st]).
  cbn [st_labels st_current st_total st_count].
  rewrite enc_labels_app, E1, E2, E3. cbn [enc_labels flat_map]. rewrite app_nil_r.
  repeat split; try lens; [|constructor].
  apply Forall_app. split; [done|]. constructor; [|done].
  pose proof (zlen_nonneg (st_current st)). split; [lia|done].
Qed.

Lemma from_ascii_loop_inv n rest st st' :
  (length rest <= n)%nat -> bytes rest -> ascii_inv st ->
  from_ascii_loop rest st = Ok st' -> ascii_inv st'.
Proof.
  revert rest st. induction n as [|n IH]; intros [|b rest] st Hn Hb Hi; cbn in Hn;
    try lia; cbn [from_ascii_loop]; try (by intros [= <-]).
  inversion Hb as [|?? Hb1 Hb2]; subst. case_match.
  - destruct rest as [|e rest]; [done|]. inversion Hb2 as [|?? Hb3 Hb4]; subst.
    cbn in Hn. case_match.
    + destruct rest as [|d2 rest]; [done|]. destruct rest as [|d3 rest]; [done|].
      inversion Hb4 as [|?? Hd2 Hb5]; subst. inversion Hb5 as [|?? Hd3 Hb6]; subst. cbn in Hn.
      case_match eqn:Ed; [done|]. case_match eqn:Ev; [done|].
      unfold is_ascii_digit in *. bools. intros Hr. eapply IH in Hr; [done|lia|done|].
      apply ascii_inv_push; [done|]. unfold is_byte. lia.
    + intros Hr. eapply IH in Hr; [done|lia|done|]. by apply ascii_inv_push.
  - case_match.
    + case_match eqn:Ec.
      * case_match; [|done]. by intros [= <-].
      * destruct (finish_label st) eqn:Ef; [|done]. intros Hr.
        eapply IH in Hr; [done|lia|done|]. eapply ascii_inv_finish; [done|by bools|done].
    + intros Hr. eapply IH in Hr; [done|lia|done|]. by apply ascii_inv_push.
Qed.

Lemma lower_enc_map ls :
  Forall label_ok ls -> to_lower <$> enc_labels ls = enc_labels (map (map to_lower) ls).
Proof.
  induction 1 as [|l ls [Hl _] _ IH]; [done|]. cbn [map]. rewrite !enc_labels_cons.
  rewrite fmap_cons, fmap_app, IH. f_equal.
  unfold zlen in *. rewrite length_map. unfold to_lower. decide_ifs. done.
Qed.

Lemma from_ascii_labels s n :
  bytes s -> from_ascii s = Ok n ->
  exists ls, n = of_labels ls /\ Forall label_ok ls /\ Forall lower_ok ls /\
    zlen (enc_labels ls) <= MAX_NAME_LEN /\ zlen ls <= MAX_LABELS.
Proof.
  intros Hs. unfold from_ascii. intros (st & H1 & H)%bind_Ok.
  apply bind_Ok in H as (st2 & H2 & [= <-]).
  apply (from_ascii_loop_inv (length s)) in H1; [|lia|done|].
  2: { exists []. cbn. repeat split; [constructor..|done|done]. }
  assert (ascii_inv st2) as (ls & E1 & Hok & _ & E2 & E3 & Ht & Hn).
  { destruct (_ =? 0) eqn:E in H2; [by injection H2 as <-|]. bools.
    by eapply ascii_inv_finish. }
  exists (map (map to_lower) ls). rewrite E1, lower_enc_map by done.
  split; [done|]. rewrite <- lower_enc_map by done. rewrite zlen_fmap.
  change (zlen (map (map to_lower) ls)) with (zlen (map to_lower <$> ls)). rewrite zlen_fmap.
  repeat split; try lia.
  - apply Forall_fmap. eapply List.Forall_impl; [|exact Hok]. apply label_ok_lower.
  - apply Forall_fmap, Forall_true. apply lower_ok_lower.
Qed.

(** ** Properties *)

(** C21: [from_wire] implements the specification [Decodes]: it accepts exactly
    the positions at which the message holds a name, compressed or not, of at
    most 126 labels, 255 octets and 128 pointer hops, and it returns the
    lower-cased name and the offset just past it. *)
Theorem from_wire_refines_decodes buf pos n e :
  buf_ok buf ->
  from_wire buf pos = Ok (n, e) <->
  exists ls h, Decodes buf pos ls h e /\ Z.of_nat h <= MAX_POINTER_HOPS /\
    wf_labels ls /\ n = of_labels ls.
Proof. intros H. by apply from_wire_iff. Qed.

Lemma from_wire_refines_decodes_witness :
  from_wire [3; 87; 119; 87; 0; 1; 97; 192; 0] 5 = Ok (of_labels [[97]; [119; 119; 119]], 9) /\
  exists ls h, Decodes [3; 87; 119; 87; 0; 1; 97; 192; 0] 5 ls h 9 /\
    Z.of_nat h <= MAX_POINTER_HOPS /\ wf_labels ls /\
    of_labels [[97]; [119; 119; 119]] = of_labels ls.
Proof.
  split; [reflexivity|].
  apply (from_wire_refines_decodes _ 5 _ 9); [|reflexivity].
  split; [|done]. repeat constructor; done.
Defined.

Lemma reassemble_no_fuel_error lens rest out :
  reassemble lens rest out <> Err (internal "out of fuel").
Proof.
  revert rest out. induction lens as [|l lens IH]; intros rest out; cbn; [done|].
  destruct (get_range rest 0 l); cbn; [|done]. destruct (get_from rest l); cbn; [|done].
  apply IH.
Qed.

Lemma from_wire_loop_no_fuel_error buf fuel lb lens p end_ j h t :
  from_wire_loop fuel buf p end_ j h t lb lens <> Some (Err (internal "out of fuel")).
Proof.
  revert lb lens p end_ j h t.
  induction fuel as [|fuel IH]; intros; [done|]. cbn [from_wire_loop].
  repeat case_match; done.
Qed.

(** A well-formed label list reads back from its own encoding. *)
Lemma from_wire_of_labels ls :
  Forall label_ok ls -> Forall lower_ok ls -> zlen (enc_labels ls) <= MAX_NAME_LEN ->
  from_wire (as_bytes (of_labels ls)) 0 = Ok (of_labels ls, zlen (enc_labels ls) + 1) <->
  zlen (enc_labels ls) + 1 <= MAX_NAME_LEN /\ zlen ls < MAX_LABELS.
Proof.
  intros Hok Hlow Ht. rewrite from_wire_iff.
  2: { split; [apply Forall_app; split; [by apply enc_labels_bytes|by repeat constructor]|].
       fold (wire_len (of_labels ls)). rewrite wire_len_of_labels. unfold MAX_NAME_LEN, usize_max in *. lia. }
  split.
  - intros (ls' & h & _ & _ & (Hok' & _ & ? & ?) & E). by apply of_labels_inj in E as <-.
  - intros [??]. exists ls, 0%nat. split; [|done]. by apply (Decodes_enc ls [] []).
Qed.

(** parsing a name terminates on every input, compression loops included:
    the work is bounded by one step for each of 127 labels and 129 pointers,
    so the fuel of [from_wire] is never exhausted. *)
Theorem from_wire_never_out_of_fuel buf pos :
  from_wire_loop from_wire_fuel buf pos pos false 0 1 [] [] <> None /\
  from_wire buf pos <> Err (internal "out of fuel").
Proof.
  assert (H : from_wire_loop from_wire_fuel buf pos pos false 0 1 [] [] <> None)
    by (apply from_wire_loop_fuel; done).
  split; [done|]. unfold from_wire. case_match; [done|].
  destruct (from_wire_loop _ _ _ _ _ _ _ _ _) as [r|] eqn:E; [|done]. intros Hr. clear H.
  destruct r as [[[e lb] lens]|e]; cbn [mbind result_bind] in Hr.
  - unfold reject_if in Hr. case_match; [done|].
    cbn [mbind result_bind] in Hr.
    destruct (reassemble lens lb []) eqn:Er; [done|].
    injection Hr as ->. by apply reassemble_no_fuel_error in Er.
  - injection Hr as ->. by apply from_wire_loop_no_fuel_error in E.
Qed.

(** rendering a name and reading it back returns the same name exactly
    when none of its octets is a double quote (34): its escape is written in
    octal, and read back as the decimal 42. *)
Theorem ascii_round_trip ls :
  wf_labels ls ->
  from_ascii (to_ascii (of_labels ls)) = Ok (of_labels (reread_labels ls)) /\
  (from_ascii (to_ascii (of_labels ls)) = Ok (of_labels ls) <->
   Forall (fun l => ~ In 34 l) ls).
Proof.
  intros (Hok & Hlow & Ht & Hn).
  assert (E := from_ascii_to_ascii ls Hok Hlow ltac:(lia) ltac:(lia)). split; [done|].
  rewrite E, <- reread_labels_id. split; [|by intros ->]. intros [= H].
  apply of_labels_inj; [|done|by apply (f_equal MkName)].
  apply Forall_fmap. eapply List.Forall_impl; [|exact Hok]. apply label_ok_reread.
Qed.

Lemma ascii_round_trip_witness :
  from_ascii (to_ascii (of_labels [[34; 46; 255]; [99]])) = Ok (of_labels [[42; 46; 255]; [99]]) /\
  ~ from_ascii (to_ascii (of_labels [[34; 46; 255]; [99]])) = Ok (of_labels [[34; 46; 255]; [99]]).
Proof.
  destruct (ascii_round_trip [[34; 46; 255]; [99]]) as [H1 H2].
  - repeat split; repeat constructor; done.
  - split; [exact H1|]. intros H%H2. inversion H as [|?? Hn]. apply Hn. by left.
Defined.

(** [from_ascii] accepts only well-formed labels (1 to 63 octets, lower
    case) of at most 255 octets without the root label.  So a name it builds
    can be 256 octets long (the bound is reached), and the wire parser accepts
    the result exactly when it has at most 255 octets and 126 labels. *)
Theorem from_ascii_sound :
  (forall s n, bytes s -> from_ascii s = Ok n ->
    (exists ls, n = of_labels ls /\ Forall label_ok ls /\ Forall lower_ok ls) /\
    wire_len n <= MAX_NAME_LEN + 1 /\ label_count n <= MAX_LABELS /\
    (from_wire (as_bytes n) 0 = Ok (n, wire_len n) <->
     wire_len n <= MAX_NAME_LEN /\ label_count n < MAX_LABELS)) /\
  (exists s n, bytes s /\ from_ascii s = Ok n /\ wire_len n = 256).
Proof.
  split.
  - intros s n Hs H. destruct (from_ascii_labels _ _ Hs H) as (ls & -> & Hok & Hlow & Ht & Hn).
    split; [by exists ls|]. unfold label_count.
    rewrite wire_len_of_labels, from_wire_of_labels, labels_of_labels by done. lia.
  - pose (s := repeat 97 63 ++ [46] ++ repeat 97 63 ++ [46] ++ repeat 97 63 ++ [46] ++ repeat 97 62).
    exists s, (MkName ((63 :: repeat 97 63) ++ (63 :: repeat 97 63) ++ (63 :: repeat 97 63)
                 ++ (62 :: repeat 97 62) ++ [0])).
    split; [|by vm_compute]. unfold s. cbn [repeat app]. repeat constructor; done.
Qed.

(** [is_subdomain_of] accepts every label-aligned suffix, and accepts
    nothing else as long as no label of the name contains the octet that
    starts the other name; without that proviso it accepts hostnames outside
    the zone, since the comparison is of octets and not of labels. *)
Theorem is_subdomain_of_aligned :
  (forall ls1 ls2, Forall label_ok ls1 -> Forall label_ok ls2 ->
    ((exists pre, ls1 = pre ++ ls2) -> is_subdomain_of (of_labels ls1) (of_labels ls2) = true) /\
    (Forall (fun a => match ls2 with [] => True | l :: _ => ~ In (zlen l) a end) ls1 ->
     is_subdomain_of (of_labels ls1) (of_labels ls2) = true -> exists pre, ls1 = pre ++ ls2)) /\
  (exists ls1 ls2, wf_labels ls1 /\ wf_labels ls2 /\
    Forall (Forall (fun b => (is_ascii_alphabetic b || is_ascii_digit b)%bool = true)) (ls1 ++ ls2) /\
    is_subdomain_of (of_labels ls1) (of_labels ls2) = true /\
    ~ exists pre, ls1 = pre ++ ls2).
Proof.
  split.
  - intros ls1 ls2 H1 H2. unfold is_subdomain_of. rewrite ends_with_iff. split.
    + intros [pre ->]. exists (enc_labels pre). unfold of_labels. cbn [as_bytes].
      by rewrite enc_labels_app, app_assoc.
    + unfold of_labels. cbn [as_bytes]. intros Hno [x Hx].
      rewrite app_assoc in Hx. apply app_inj_tail in Hx as [Hx _].
      destruct ls2 as [|l ls2]; [exists ls1; by rewrite app_nil_r|].
      by eapply enc_suffix_aligned.
  - exists [120 :: 48 :: repeat 97 48], [repeat 97 48].
    split; [|split; [|split; [|split]]].
    1, 2: repeat split; repeat constructor; done.
    + repeat constructor.
    + reflexivity.
    + intros [[|? [|? ?]] [=]].
Qed.

(** [common_suffix] is the longest common label suffix: it is a suffix of
    both names, and every common suffix is a suffix of it. *)
Theorem common_suffix_longest la lb :
  Forall label_ok la -> Forall label_ok lb ->
  exists lc, common_suffix (of_labels la) (of_labels lb) = of_labels lc /\
    (exists pa, la = pa ++ lc) /\ (exists pb, lb = pb ++ lc) /\
    (forall ld, (exists pa, la = pa ++ ld) -> (exists pb, lb = pb ++ ld) ->
       exists pc, lc = pc ++ ld).
Proof. intros. by apply common_suffix_of_labels. Qed.

Lemma common_suffix_longest_witness :
  common_suffix (of_labels [[97]; [98; 99]; [100]]) (of_labels [[101]; [98; 99]; [100]])
    = of_labels [[98; 99]; [100]] /\
  exists lc, common_suffix (of_labels [[97]; [98; 99]; [100]]) (of_labels [[101]; [98; 99]; [100]])
    = of_labels lc.
Proof.
  split; [reflexivity|].
  destruct (common_suffix_longest [[97]; [98; 99]; [100]] [[101]; [98; 99]; [100]])
    as (lc & H & _); [repeat constructor; done..|].
  exists lc. exact H.
Defined.
