(* ===== verification/Compress.v ===== *)
(** * Writing names: compression and 0x20 case randomisation ([src/name.rs])

    [NameCompressor::write] emits a name into the message being built and
    replaces the longest suffix already written by a pointer.  The state is
    the table of suffixes and offsets; [tbl_ok] says that each entry decodes,
    in the bytes written so far, to the labels it stands for. *)
From stdpp Require Import gmap.
From S2P Require Import Prelude Wire Prng Name.

(** ** 0x20 case randomisation *)

Fixpoint randomize_bytes {R} `{RandomSource R} (bs : list Z) (rng : R) : list Z * R :=
  match bs with
  | [] => ([], rng)
  | b :: bs =>
      if is_ascii_alphabetic b then
        let '(v, rng) := next_u64 rng in
        let upper := Z.land v 1 =? 0 in
        let '(out, rng) := randomize_bytes bs rng in
        ((if upper then to_upper b else b) :: out, rng)
      else
        let '(out, rng) := randomize_bytes bs rng in (b :: out, rng)
  end.

Definition randomized_case {R} `{RandomSource R} (n : Name) (rng : R) : Name * R :=
  let '(out, rng) := randomize_bytes (as_bytes n) rng in (MkName out, rng).

(** ** The compressor *)

Definition NameCompressor : Type := gmap Name Z.

Definition MAX_POINTER_OFFSET : Z := 0x3fff.

(** The suffixes of a name, longest first, with their offset in the name. *)
Fixpoint suffixes_loop (fuel : nat) (cur : Name) (total : Z) : list (Name * Z) :=
  match fuel with
  | O => []
  | S fuel' =>
      if is_root cur then []
      else (cur, total - wire_len cur) ::
           match parent cur with
           | Some p => suffixes_loop fuel' p total
           | None => []
           end
  end.

Definition suffixes (name : Name) : list (Name * Z) :=
  suffixes_loop (length (as_bytes name)) name (wire_len name).

(** [enumerate().find_map(...)] over the suffixes. *)
Fixpoint find_hit (tbl : NameCompressor) (sfx : list (Name * Z)) (i : nat)
    : option (nat * Name * Z) :=
  match sfx with
  | [] => None
  | (s, _) :: sfx =>
      match tbl !! s with
      | Some offset => Some (i, s, offset)
      | None => find_hit tbl sfx (S i)
      end
  end.

Definition strip_suffix (l s : list Z) : option (list Z) :=
  if ends_with l s then get_range l 0 (zlen l - zlen s) else None.

Definition record (tbl : NameCompressor) (base : Z) (suffix : Name) (rel : Z) : NameCompressor :=
  let abs := base + rel in
  if abs <=? MAX_POINTER_OFFSET
  then match tbl !! suffix with Some _ => tbl | None => <[suffix := abs]> tbl end
  else tbl.

Definition record_all (base : Z) (sfx : list (Name * Z)) (tbl : NameCompressor) : NameCompressor :=
  fold_left (fun tbl '(s, rel) => record tbl base s rel) sfx tbl.

Definition write (tbl : NameCompressor) (name : Name) (out : list Z) : NameCompressor * list Z :=
  let sfx := suffixes name in
  let base := zlen out in
  match find_hit tbl sfx 0 with
  | None => (record_all base sfx tbl, write_wire name out)
  | Some (i, suffix, offset) =>
      let out :=
        match strip_suffix (as_bytes name) (as_bytes suffix) with
        | Some prefix =>
            out ++ prefix ++ [Z.lor 0xc0 (wrap 8 (Z.shiftr offset 8))]
                ++ [wrap 8 (Z.land offset 0xff)]
        | None => write_wire name out
        end in
      (record_all base (take i sfx) tbl, out)
  end.

(** ** Specification *)

Definition lower_labels (ls : list (list Z)) : list (list Z) := map (map to_lower) ls.

(** The entry [name -> off] of the table is right for the message [buf]. *)
Definition entry_ok (buf : list Z) (n : Name) (off : Z) : Prop :=
  exists ls h e, n = of_labels ls /\ Forall label_ok ls /\ Z.of_nat h < zlen ls /\
    0 <= off <= MAX_POINTER_OFFSET /\ Decodes buf off (lower_labels ls) h e.

Definition tbl_ok (tbl : NameCompressor) (buf : list Z) : Prop :=
  map_Forall (entry_ok buf) tbl.

Fixpoint suffs (acc : Z) (ls : list (list Z)) : list (Name * Z) :=
  match ls with
  | [] => []
  | l :: ls' => (of_labels ls, acc) :: suffs (acc + 1 + zlen l) ls'
  end.

(** ** Lemmas: 0x20 *)

Lemma to_lower_to_upper b : is_ascii_alphabetic b = true -> to_lower (to_upper b) = to_lower b.
Proof.
  unfold is_ascii_alphabetic, to_upper, to_lower. intros H.
  destruct ((97 <=? b) && (b <=? 122))%bool eqn:E; [|done]. bools. decide_ifs. lia.
Qed.

Lemma to_upper_small b : b < 65 -> to_upper b = b.
Proof. intros. unfold to_upper. by rewrite (proj2 (Z.leb_gt 97 b)) by lia. Qed.

Lemma randomize_bytes_lower {R} `{RandomSource R} bs (rng : R) :
  to_lower <$> (randomize_bytes bs rng).1 = to_lower <$> bs.
Proof.
  revert rng. induction bs as [|b bs IH]; intros rng; cbn [randomize_bytes]; [done|].
  destruct (is_ascii_alphabetic b) eqn:Ea.
  - destruct (next_u64 rng) as [v rng1]. specialize (IH rng1).
    destruct (randomize_bytes bs rng1) as [out rng2]. cbn [fst] in *.
    rewrite !fmap_cons, IH. f_equal. destruct (_ =? _); [|done]. by apply to_lower_to_upper.
  - specialize (IH rng). destruct (randomize_bytes bs rng) as [out rng2].
    cbn [fst] in *. by rewrite !fmap_cons, IH.
Qed.

(** ** Lemmas: the label structure *)

Lemma zlen_lower_labels ls : zlen (lower_labels ls) = zlen ls.
Proof. apply (zlen_fmap (map to_lower)). Qed.
#[export] Hint Rewrite zlen_lower_labels : rxlen.

Lemma lower_labels_app a b : lower_labels (a ++ b) = lower_labels a ++ lower_labels b.
Proof. apply map_app. Qed.

Lemma lower_labels_id ls : Forall lower_ok ls -> lower_labels ls = ls.
Proof.
  induction 1 as [|l ls Hl _ IH]; [done|]. cbn [lower_labels map].
  change (map (map to_lower) ls) with (lower_labels ls). rewrite IH.
  change (map to_lower l = l) in Hl. by rewrite Hl.
Qed.

(** Labels in front of a decoding. *)
Lemma Decodes_prefix ls pre post rest h e :
  Forall label_ok ls ->
  Decodes (pre ++ enc_labels ls ++ post) (zlen pre + zlen (enc_labels ls)) rest h e ->
  Decodes (pre ++ enc_labels ls ++ post) (zlen pre) (lower_labels ls ++ rest) h e.
Proof.
  intros Hok. revert pre. induction Hok as [|l ls [Hl _] Hok IH]; intros pre HD.
  { cbn [enc_labels flat_map] in *. by rewrite zlen_nil, Z.add_0_r in HD. }
  change (lower_labels (l :: ls)) with ((to_lower <$> l) :: lower_labels ls).
  rewrite enc_labels_cons in *.
  replace (pre ++ (zlen l :: l ++ enc_labels ls) ++ post)
    with ((pre ++ zlen l :: l) ++ enc_labels ls ++ post) in *
    by (by rewrite <- !app_assoc; cbn; rewrite <- !app_assoc).
  cbn [app]. apply (Decodes_label _ _ (zlen l) l).
  - rewrite <- app_assoc. apply get_middle.
  - done.
  - replace ((pre ++ zlen l :: l) ++ enc_labels ls ++ post)
      with ((pre ++ [zlen l]) ++ l ++ enc_labels ls ++ post)
      by (by rewrite <- !app_assoc).
    apply get_range_middle; lens.
  - replace (zlen pre + 1 + zlen l) with (zlen (pre ++ zlen l :: l)) by lens.
    apply IH. by replace (zlen (pre ++ zlen l :: l) + zlen (enc_labels ls))
      with (zlen pre + zlen (zlen l :: l ++ enc_labels ls)) by lens.
Qed.

Lemma suffixes_of_labels fuel ls total :
  Forall label_ok ls -> (length ls < fuel)%nat ->
  suffixes_loop fuel (of_labels ls) total = suffs (total - wire_len (of_labels ls)) ls.
Proof.
  intros H. revert fuel. induction H as [|l ls Hl Hok IH]; intros [|fuel] Hf;
    cbn [length] in Hf; try lia; cbn [suffixes_loop suffs]; [done|].
  rewrite is_root_of_labels by (by constructor). rewrite bool_decide_false by done.
  rewrite parent_of_labels by done. f_equal. rewrite IH by lia. f_equal.
  rewrite !wire_len_of_labels. lens.
Qed.

Lemma suffixes_suffs ls : Forall label_ok ls -> suffixes (of_labels ls) = suffs 0 ls.
Proof.
  intros H. unfold suffixes. rewrite suffixes_of_labels; [by rewrite Z.sub_diag|done|].
  pose proof (length_enc_labels ls H). unfold of_labels, zlen in *. cbn [as_bytes].
  rewrite length_app. cbn [length]. lia.
Qed.

Lemma find_hit_empty sfx i : find_hit ∅ sfx i = None.
Proof.
  revert i. induction sfx as [|[n o] sfx IH]; intros i; cbn [find_hit]; [done|].
  assert ((∅ : NameCompressor) !! n = None) as -> by apply lookup_empty. apply IH.
Qed.

Lemma find_hit_suffs tbl acc ls i j s off :
  find_hit tbl (suffs acc ls) i = Some (j, s, off) ->
  exists p t, ls = p ++ t /\ j = (i + length p)%nat /\ t <> [] /\ s = of_labels t /\
    tbl !! s = Some off.
Proof.
  revert acc i. induction ls as [|l ls IH]; intros acc i; cbn [suffs find_hit]; [done|].
  destruct (tbl !! of_labels (l :: ls)) as [o|] eqn:E.
  - intros [= <- <- <-]. exists [], (l :: ls). cbn. repeat split; try done; lia.
  - intros (p & t & -> & -> & Ht & -> & Hl)%IH. exists (l :: p), t. cbn.
    repeat split; try done; lia.
Qed.

Lemma suffs_Forall (P : Name * Z -> Prop) acc p t :
  (forall p1 p2, p = p1 ++ p2 -> p2 <> [] -> P (of_labels (p2 ++ t), acc + zlen (enc_labels p1))) ->
  Forall P (take (length p) (suffs acc (p ++ t))).
Proof.
  revert acc. induction p as [|l p IH]; intros acc H; cbn [app suffs length take]; [constructor|].
  constructor.
  - specialize (H [] (l :: p)). cbn in H. rewrite Z.add_0_r in H. by apply H.
  - apply IH. intros p1 p2 -> Hne. specialize (H (l :: p1) p2 eq_refl Hne).
    rewrite zlen_enc_labels_cons in H.
    by replace (acc + 1 + zlen l + zlen (enc_labels p1))
      with (acc + (1 + zlen l + zlen (enc_labels p1))) by lia.
Qed.

Lemma length_suffs acc ls : length (suffs acc ls) = length ls.
Proof. revert acc. induction ls; intros; cbn; [done|]. by rewrite IHls. Qed.

Lemma strip_suffix_of_labels p t :
  strip_suffix (as_bytes (of_labels (p ++ t))) (as_bytes (of_labels t)) = Some (enc_labels p).
Proof.
  unfold strip_suffix, of_labels. cbn [as_bytes]. rewrite enc_labels_app, <- app_assoc.
  replace (ends_with _ _) with true by (symmetry; apply ends_with_iff; eauto).
  apply (get_range_middle []); lens.
Qed.

(** ** Lemmas: the table *)

Lemma entry_ok_app buf tail n off : entry_ok buf n off -> entry_ok (buf ++ tail) n off.
Proof.
  intros (ls & h & e & ? & ? & ? & ? & ?). exists ls, h, e.
  repeat split; try done; try lia. by apply Decodes_app.
Qed.

Lemma tbl_ok_app tbl buf tail : tbl_ok tbl buf -> tbl_ok tbl (buf ++ tail).
Proof. intros H n off Hn. apply entry_ok_app. by apply H. Qed.

Lemma tbl_ok_empty buf : tbl_ok ∅ buf.
Proof. apply map_Forall_empty. Qed.
#[export] Hint Resolve tbl_ok_empty tbl_ok_app : rx.

Lemma record_all_ok buf base sfx tbl :
  tbl_ok tbl buf ->
  Forall (fun '(s, rel) => base + rel <= MAX_POINTER_OFFSET -> entry_ok buf s (base + rel)) sfx ->
  tbl_ok (record_all base sfx tbl) buf.
Proof.
  intros Ht Hs. revert tbl Ht. induction Hs as [|[s rel] sfx Hsr _ IH]; intros tbl Ht; [done|].
  cbn [record_all fold_left]. apply IH. unfold record.
  destruct (_ <=? _) eqn:E; bools; [|done]. destruct (tbl !! s); [done|].
  apply map_Forall_insert_2; [|done]. by apply Hsr.
Qed.

(** A compression pointer to [off] in two octets. *)
Definition pointer (off : Z) : list Z :=
  [Z.lor 0xc0 (wrap 8 (Z.shiftr off 8)); wrap 8 (Z.land off 0xff)].

Lemma pointer_bytes off :
  0 <= off <= MAX_POINTER_OFFSET ->
  exists b1 b2, pointer off = [b1; b2] /\ 192 <= b1 < 256 /\ is_byte b2 /\
    (b1 - 192) * 256 + b2 = off.
Proof.
  unfold MAX_POINTER_OFFSET. intros H. unfold pointer. do 2 eexists. split; [done|].
  rewrite Z.shiftr_div_pow2 by lia. change 0xff with (Z.ones 8). rewrite Z.land_ones by lia.
  change (2 ^ 8) with 256.
  pose proof (Z.div_mod off 256 ltac:(lia)). pose proof (Z.mod_pos_bound off 256 ltac:(lia)).
  assert (0 <= off / 256 < 64) by (split; [apply Z.div_pos|apply Z.div_lt_upper_bound]; lia).
  unfold wrap. change (2 ^ 8) with 256. rewrite !(Z.mod_small _ 256) by lia.
  assert (E : Z.lor 192 (off / 256) = 192 + off / 256).
  { pose proof (byte_forall (fun b => implb (b <? 64) (Z.lor 192 b =? 192 + b))
      ltac:(vm_compute; reflexivity) (off / 256) ltac:(unfold is_byte; lia)) as Hb.
    cbn beta in Hb. rewrite (proj2 (Z.ltb_lt _ _)) in Hb by lia. by apply Z.eqb_eq in Hb. }
  rewrite E. unfold is_byte. lia.
Qed.

(** What [write] appends, and the state it leaves. *)
Definition written (out : list Z) (ls : list (list Z)) (r : NameCompressor * list Z) : Prop :=
  exists w h, r.2 = out ++ w /\ bytes w /\ 1 <= zlen w <= zlen (enc_labels ls) + 2 /\
    tbl_ok r.1 r.2 /\ Z.of_nat h <= zlen ls /\
    Decodes r.2 (zlen out) (lower_labels ls) h (zlen r.2).

Lemma write_miss tbl ls out :
  Forall label_ok ls -> tbl_ok tbl out ->
  written out ls (record_all (zlen out) (suffs 0 ls) tbl, write_wire (of_labels ls) out).
Proof.
  intros Hok Ht. unfold write_wire, of_labels. cbn [as_bytes].
  assert (HD : forall p1 p2, ls = p1 ++ p2 ->
    Decodes (out ++ enc_labels ls ++ [0]) (zlen out + zlen (enc_labels p1))
      (lower_labels p2) 0 (zlen (out ++ enc_labels ls ++ [0]))).
  { intros p1 p2 ->. rewrite <- (app_nil_r (lower_labels p2)), enc_labels_app.
    apply Forall_app in Hok as [_ Hok].
    replace (out ++ (enc_labels p1 ++ enc_labels p2) ++ [0])
      with ((out ++ enc_labels p1) ++ enc_labels p2 ++ [0]) by (by rewrite <- !app_assoc).
    rewrite <- zlen_app. apply Decodes_prefix; [done|].
    replace (zlen ((out ++ enc_labels p1) ++ enc_labels p2 ++ [0]))
      with (zlen (out ++ enc_labels p1) + zlen (enc_labels p2) + 1) by lens.
    constructor. rewrite app_assoc, <- zlen_app. apply get_middle. }
  exists (enc_labels ls ++ [0]), 0%nat. cbn [fst snd]. split; [done|]. split.
  { apply Forall_app. split; [by apply enc_labels_bytes|by repeat constructor]. }
  split; [lens|]. split; [|split; [lens|]].
  - apply record_all_ok; [by apply tbl_ok_app|].
    replace (suffs 0 ls) with (take (length ls) (suffs 0 (ls ++ [])))
      by (rewrite app_nil_r, firstn_all2; [done|rewrite length_suffs; lia]).
    apply suffs_Forall. intros p1 p2 -> Hne Hmax.
    exists p2, 0%nat, (zlen (out ++ enc_labels (p1 ++ p2) ++ [0])). rewrite app_nil_r, Z.add_0_l.
    split; [done|]. apply Forall_app in Hok as Hok2.
    split; [apply Hok2|]. split; [destruct p2; [done|lens]|].
    split; [lens|]. by apply HD.
  - specialize (HD [] ls eq_refl). by rewrite Z.add_0_r in HD.
Qed.

Lemma write_hit tbl p t out off :
  Forall label_ok (p ++ t) -> t <> [] -> tbl_ok tbl out -> tbl !! of_labels t = Some off ->
  written out (p ++ t) (record_all (zlen out) (take (length p) (suffs 0 (p ++ t))) tbl,
    out ++ enc_labels p ++ pointer off).
Proof.
  intros Hok Hne Ht Hoff. pose proof Hok as [Hp Htok]%Forall_app.
  destruct (Ht _ _ Hoff) as (t' & h & e & E & Hok' & Hh & Hoff' & HD).
  apply of_labels_inj in E as <-; [|done..].
  destruct (pointer_bytes off Hoff') as (b1 & b2 & -> & Hb1 & Hb2 & Ho).
  set (buf := out ++ enc_labels p ++ [b1; b2]).
  assert (HDp : forall p1 p2, p = p1 ++ p2 ->
    Decodes buf (zlen out + zlen (enc_labels p1)) (lower_labels (p2 ++ t)) (S h) (zlen buf)).
  { intros p1 p2 ->. rewrite lower_labels_app. unfold buf. rewrite enc_labels_app.
    apply Forall_app in Hp as [_ Hp2].
    replace (out ++ (enc_labels p1 ++ enc_labels p2) ++ [b1; b2])
      with ((out ++ enc_labels p1) ++ enc_labels p2 ++ [b1; b2]) by (by rewrite <- !app_assoc).
    rewrite <- zlen_app. apply Decodes_prefix; [done|].
    replace (zlen ((out ++ enc_labels p1) ++ enc_labels p2 ++ [b1; b2]))
      with (zlen (out ++ enc_labels p1) + zlen (enc_labels p2) + 2) by lens.
    eapply (Decodes_pointer _ _ b1 b2).
    - rewrite app_assoc, <- zlen_app. apply get_middle.
    - done.
    - rewrite app_assoc, <- zlen_app.
      replace (_ ++ [b1; b2]) with ((((out ++ enc_labels p1) ++ enc_labels p2) ++ [b1]) ++ [b2])
        by (by rewrite <- !app_assoc).
      replace (zlen _ + 1) with (zlen (((out ++ enc_labels p1) ++ enc_labels p2) ++ [b1])) by lens.
      apply get_middle.
    - rewrite Ho, <- !app_assoc. by eapply Decodes_app. }
  exists (enc_labels p ++ [b1; b2]), (S h). cbn [fst snd]. fold buf. split; [done|]. split.
  { apply Forall_app. split; [by apply enc_labels_bytes|].
    constructor; [unfold is_byte; lia|]. constructor; [done|constructor]. }
  split; [rewrite enc_labels_app; lens|]. split; [|split; [lens|]].
  - apply record_all_ok; [by apply tbl_ok_app|]. apply suffs_Forall.
    intros p1 p2 -> Hne2 Hmax. exists (p2 ++ t), (S h), (zlen buf). rewrite Z.add_0_l in *.
    rewrite <- app_assoc in Hok. apply Forall_app in Hok as [_ Hok2].
    split; [done|]. split; [done|]. split; [destruct p2; [done|lens]|].
    split; [lens|]. by apply HDp.
  - specialize (HDp [] p eq_refl). by rewrite Z.add_0_r in HDp.
Qed.

Lemma write_written tbl ls out :
  Forall label_ok ls -> tbl_ok tbl out -> written out ls (write tbl (of_labels ls) out).
Proof.
  intros Hok Ht. unfold write. rewrite suffixes_suffs by done.
  destruct (find_hit tbl (suffs 0 ls) 0) as [[[i s] off]|] eqn:E.
  - apply find_hit_suffs in E as (p & t & -> & -> & Hne & -> & Hoff).
    rewrite strip_suffix_of_labels. by apply write_hit.
  - by apply write_miss.
Qed.

(** What is written depends on the message only through its length. *)
Lemma write_by_length tbl n out :
  exists w, forall out', zlen out' = zlen out -> write tbl n out' = ((write tbl n out).1, out' ++ w).
Proof.
  unfold write, write_wire. destruct (find_hit tbl (suffixes n) 0) as [[[i s] off]|].
  - destruct (strip_suffix _ _); eexists; intros out' ->; done.
  - eexists. intros out' ->. done.
Qed.

(** A decoded well-formed name is what [from_wire] returns. *)
Lemma Decodes_from_wire buf p ls h e :
  buf_ok buf -> wf_labels ls -> Decodes buf p ls h e -> Z.of_nat h <= zlen ls ->
  from_wire buf p = Ok (of_labels ls, e).
Proof.
  intros Hb Hw HD Hh. apply from_wire_iff; [done|]. exists ls, h.
  split; [done|]. split; [|done]. destruct Hw as (_ & _ & _ & ?). unfold MAX_POINTER_HOPS. lia.
Qed.

Lemma to_lower_small b n : to_lower b = n -> n <= 63 -> b = n.
Proof. unfold to_lower. destruct (_ && _)%bool eqn:E; bools; lia. Qed.

(** Case folding does not touch the length octets, so it can be undone label
    by label. *)
Lemma lower_enc_inv ls bs tail :
  Forall label_ok ls -> to_lower <$> bs = enc_labels ls ++ tail ->
  exists ls' tail', bs = enc_labels ls' ++ tail' /\ lower_labels ls' = ls /\
    to_lower <$> tail' = tail.
Proof.
  intros H. revert bs. induction H as [|l ls [Hl _] _ IH]; intros bs E.
  { by exists [], bs. }
  rewrite enc_labels_cons in E. destruct bs as [|b bs]; [done|].
  cbn [fmap list_fmap app] in E. injection E as Eb E.
  apply to_lower_small in Eb as ->; [|lia]. rewrite <- app_assoc in E.
  apply fmap_app_inv in E as (l' & bs' & El & E & ->). symmetry in El, E.
  destruct (IH bs' E) as (ls' & tail' & -> & Els & Et). exists (l' :: ls'), tail'.
  rewrite enc_labels_cons. rewrite <- El, zlen_fmap. cbn [app]. rewrite <- app_assoc.
  split; [done|]. split; [|done]. cbn [lower_labels map]. f_equal. exact Els.
Qed.

Lemma to_lower_byte_inv b : is_byte (to_lower b) -> is_byte b.
Proof. unfold to_lower, is_byte. destruct (_ && _)%bool eqn:E; bools; lia. Qed.

Lemma label_ok_lower_inv ls : Forall label_ok (lower_labels ls) -> Forall label_ok ls.
Proof.
  unfold lower_labels. rewrite List.Forall_map. apply List.Forall_impl. intros l [Hl Hb].
  rewrite (zlen_fmap to_lower l : zlen (map to_lower l) = _) in Hl. split; [done|].
  rewrite List.Forall_map in Hb. eapply List.Forall_impl; [|exact Hb].
  intros b. apply to_lower_byte_inv.
Qed.

(** The uncompressed encoding of labels in any case. *)
Lemma Decodes_mixed_case ls :
  Forall label_ok ls ->
  Decodes (enc_labels ls ++ [0]) 0 (lower_labels ls) 0 (zlen (enc_labels ls) + 1).
Proof.
  intros Hok. rewrite <- (app_nil_r (lower_labels ls)).
  apply (Decodes_prefix ls [] [0]); [done|]. constructor. apply (get_middle (enc_labels ls) 0 []).
Qed.

(** A name in any case whose folding is well formed. *)
Lemma cased_labels n : wf_name (canonical n) ->
  exists ls, n = of_labels ls /\ Forall label_ok ls /\ wf_labels (lower_labels ls) /\
    canonical n = of_labels (lower_labels ls).
Proof.
  intros (ls & Hw & E). pose proof Hw as (Hok & _). unfold canonical, of_labels in E. injection E as E.
  destruct (lower_enc_inv ls (as_bytes n) [0] Hok E) as (ls' & tail' & En & Els & Et).
  destruct tail' as [|b [|]]; try done. injection Et as Eb. apply to_lower_small in Eb as ->; [|lia].
  exists ls'. destruct n as [bs]. cbn [as_bytes] in *. subst bs ls. split; [done|].
  split; [by apply label_ok_lower_inv|]. split; [done|]. unfold canonical. cbn [as_bytes]. by rewrite E.
Qed.

Lemma canonical_wf n : wf_name n -> canonical n = n.
Proof.
  intros (ls & (Hok & Hlow & _) & ->). unfold canonical, of_labels. cbn [as_bytes].
  by rewrite fmap_app, lower_enc_labels.
Qed.

(** ** Properties *)

(** a name written by the compressor, after any bytes whose table is
    right, reads back from its position as the same name and ends where the
    writer stopped, also after more bytes are appended; and the table stays
    right. *)
Theorem compressed_name_round_trip tbl ls out tail :
  wf_labels ls -> tbl_ok tbl out -> bytes out -> bytes tail ->
  zlen out + zlen (enc_labels ls) + 2 + zlen tail <= usize_max ->
  let r := write tbl (of_labels ls) out in
  from_wire (r.2 ++ tail) (zlen out) = Ok (of_labels ls, zlen r.2) /\
  tbl_ok r.1 (r.2 ++ tail) /\
  zlen r.2 <= zlen out + zlen (enc_labels ls) + 2.
Proof.
  intros Hw Ht Hb Hbt Hlen. destruct Hw as (Hok & Hlow & Hrest) eqn:Hw'. clear Hw'.
  destruct (write_written tbl ls out Hok Ht) as (w & h & E & Hbw & Hlw & Ht' & Hh & HD).
  cbn zeta. rewrite lower_labels_id in HD by done.
  split; [|split].
  - apply (Decodes_from_wire _ _ _ h); [|done|by apply Decodes_app|done].
    rewrite E. split; [|lens]. by repeat (apply Forall_app; split).
  - by apply tbl_ok_app.
  - rewrite E. lens.
Qed.

Lemma compressed_name_round_trip_witness :
  let r := write ∅ (of_labels [[97]; [99]]) [7] in
  let r2 := write r.1 (of_labels [[98]; [97]; [99]]) r.2 in
  r2.2 = [7; 1; 97; 1; 99; 0; 1; 98; 192; 1] /\
  from_wire (r.2 ++ []) 1 = Ok (of_labels [[97]; [99]], 6).
Proof.
  split; [vm_compute; reflexivity|].
  destruct (compressed_name_round_trip ∅ [[97]; [99]] [7] []) as (H & _).
  - repeat split; repeat constructor; done.
  - apply tbl_ok_empty.
  - repeat constructor; done.
  - constructor.
  - vm_compute. discriminate.
  - exact H.
Defined.

(** 0x20 randomisation changes nothing but the case of letters: whatever
    the random source answers, the randomised name has the same length, folds
    to the original, and reads back from the wire as the original. *)
Theorem randomized_case_same_name {R} `{RandomSource R} ls (rng : R) :
  wf_labels ls ->
  let n := (randomized_case (of_labels ls) rng).1 in
  canonical n = of_labels ls /\ wire_len n = wire_len (of_labels ls) /\
  from_wire (as_bytes n) 0 = Ok (of_labels ls, wire_len n).
Proof.
  intros (Hok & Hlow & Ht & Hn). unfold randomized_case.
  pose proof (randomize_bytes_lower (as_bytes (of_labels ls)) rng) as E.
  destruct (randomize_bytes _ rng) as [bs rng'] eqn:Er. cbn [fst] in *. cbn zeta.
  unfold of_labels in E at 1. cbn [as_bytes] in E.
  rewrite fmap_app, lower_enc_labels in E by done. change (to_lower <$> [0]) with [0] in E.
  assert (El : zlen bs = zlen (enc_labels ls) + 1).
  { rewrite <- (zlen_fmap to_lower), E. lens. }
  assert (Ew : wire_len (MkName bs) = wire_len (of_labels ls))
    by (rewrite wire_len_of_labels; exact El).
  split; [unfold canonical; cbn [as_bytes]; by rewrite E|]. split; [done|].
  destruct (lower_enc_inv ls bs [0] Hok E) as (ls' & tail' & -> & Els & Et').
  destruct tail' as [|b [|]]; try done. injection Et' as Eb.
  apply to_lower_small in Eb as ->; [|lia]. cbn [as_bytes].
  assert (Hok' : Forall label_ok ls') by (apply label_ok_lower_inv; by rewrite Els).
  pose proof (Decodes_mixed_case ls' Hok') as HD. rewrite Els in HD.
  unfold wire_len. cbn [as_bytes]. rewrite zlen_app, zlen_cons, zlen_nil, Z.add_0_r in *.
  apply (Decodes_from_wire _ _ _ 0%nat); [|done|done|apply zlen_nonneg].
  split; [|unfold MAX_NAME_LEN, usize_max in *; lens].
  apply Forall_app. split; [by apply enc_labels_bytes|by repeat constructor].
Qed.

Lemma randomized_case_same_name_witness :
  fst (randomized_case (of_labels [[119; 119; 119]; [99]]) (mkSplitMix64 7))
    = MkName [3; 119; 87; 87; 1; 99; 0] /\
  canonical (fst (randomized_case (of_labels [[119; 119; 119]; [99]]) (mkSplitMix64 7)))
    = of_labels [[119; 119; 119]; [99]].
Proof.
  split; [vm_compute; reflexivity|].
  apply (randomized_case_same_name [[119; 119; 119]; [99]] (mkSplitMix64 7)).
  repeat split; repeat constructor; done.
Defined.
