(* ===== verification/Qtype.v ===== *)
(** * Protocol constants ([src/qtype.rs])

    Record types, classes, opcodes, response codes and DNSSEC algorithm
    numbers.  A newtype over [u16] or [u8] is its number; the constants live
    in a Module per type, and the [match] tables are association lists. *)
From stdpp Require Import pretty.
From S2P Require Import Prelude.

Abbreviation RrType := Z (only parsing).
Abbreviation RrClass := Z (only parsing).
Abbreviation Opcode := Z (only parsing).
Abbreviation Rcode := Z (only parsing).
Abbreviation DnssecAlgorithm := Z (only parsing).
Abbreviation DsDigestType := Z (only parsing).

(** The constants of [RrType]. *)
Module RrTypes.
Definition A : RrType := 1.
Definition NS : RrType := 2.
Definition MD : RrType := 3.
Definition MF : RrType := 4.
Definition CNAME : RrType := 5.
Definition SOA : RrType := 6.
Definition MB : RrType := 7.
Definition MG : RrType := 8.
Definition MR : RrType := 9.
Definition NULL : RrType := 10.
Definition WKS : RrType := 11.
Definition PTR : RrType := 12.
Definition HINFO : RrType := 13.
Definition MINFO : RrType := 14.
Definition MX : RrType := 15.
Definition TXT : RrType := 16.
Definition RP : RrType := 17.
Definition AFSDB : RrType := 18.
Definition SIG : RrType := 24.
Definition KEY : RrType := 25.
Definition AAAA : RrType := 28.
Definition LOC : RrType := 29.
Definition SRV : RrType := 33.
Definition NAPTR : RrType := 35.
Definition KX : RrType := 36.
Definition CERT : RrType := 37.
Definition DNAME : RrType := 39.
Definition OPT : RrType := 41.
Definition APL : RrType := 42.
Definition DS : RrType := 43.
Definition SSHFP : RrType := 44.
Definition IPSECKEY : RrType := 45.
Definition RRSIG : RrType := 46.
Definition NSEC : RrType := 47.
Definition DNSKEY : RrType := 48.
Definition DHCID : RrType := 49.
Definition NSEC3 : RrType := 50.
Definition NSEC3PARAM : RrType := 51.
Definition TLSA : RrType := 52.
Definition SMIMEA : RrType := 53.
Definition HIP : RrType := 55.
Definition CDS : RrType := 59.
Definition CDNSKEY : RrType := 60.
Definition OPENPGPKEY : RrType := 61.
Definition CSYNC : RrType := 62.
Definition ZONEMD : RrType := 63.
Definition SVCB : RrType := 64.
Definition HTTPS : RrType := 65.
Definition SPF : RrType := 99.
Definition TKEY : RrType := 249.
Definition TSIG : RrType := 250.
Definition IXFR : RrType := 251.
Definition AXFR : RrType := 252.
Definition ANY : RrType := 255.
Definition URI : RrType := 256.
Definition CAA : RrType := 257.
Definition TA : RrType := 32768.
Definition DLV : RrType := 32769.
End RrTypes.

(** The constants of [RrClass]. *)
Module RrClasses.
Definition IN_ : RrClass := 1.
Definition CS : RrClass := 2.
Definition CH : RrClass := 3.
Definition HS : RrClass := 4.
Definition NONE : RrClass := 254.
Definition ANY : RrClass := 255.
End RrClasses.

(** The constants of [Opcode]. *)
Module Opcodes.
Definition QUERY : Opcode := 0.
Definition IQUERY : Opcode := 1.
Definition STATUS : Opcode := 2.
Definition NOTIFY : Opcode := 4.
Definition UPDATE : Opcode := 5.
End Opcodes.

(** The constants of [Rcode]. *)
Module Rcodes.
Definition NOERROR : Rcode := 0.
Definition FORMERR : Rcode := 1.
Definition SERVFAIL : Rcode := 2.
Definition NXDOMAIN : Rcode := 3.
Definition NOTIMP : Rcode := 4.
Definition REFUSED : Rcode := 5.
Definition YXDOMAIN : Rcode := 6.
Definition YXRRSET : Rcode := 7.
Definition NXRRSET : Rcode := 8.
Definition NOTAUTH : Rcode := 9.
Definition NOTZONE : Rcode := 10.
Definition BADVERS : Rcode := 16.
End Rcodes.

(** The constants of [DnssecAlgorithm]. *)
Module Algorithms.
Definition RSAMD5 : DnssecAlgorithm := 1.
Definition DH : DnssecAlgorithm := 2.
Definition DSA : DnssecAlgorithm := 3.
Definition ECC : DnssecAlgorithm := 4.
Definition RSASHA1 : DnssecAlgorithm := 5.
Definition DSANSEC3SHA1 : DnssecAlgorithm := 6.
Definition RSASHA1NSEC3SHA1 : DnssecAlgorithm := 7.
Definition RSASHA256 : DnssecAlgorithm := 8.
Definition RSASHA512 : DnssecAlgorithm := 10.
Definition ECCGOST : DnssecAlgorithm := 12.
Definition ECDSAP256SHA256 : DnssecAlgorithm := 13.
Definition ECDSAP384SHA384 : DnssecAlgorithm := 14.
Definition ED25519 : DnssecAlgorithm := 15.
Definition ED448 : DnssecAlgorithm := 16.
Definition INDIRECT : DnssecAlgorithm := 252.
Definition PRIVATEDNS : DnssecAlgorithm := 253.
Definition PRIVATEOID : DnssecAlgorithm := 254.
End Algorithms.

(** The constants of [DsDigestType]. *)
Module Digests.
Definition SHA1 : DsDigestType := 1.
Definition SHA256 : DsDigestType := 2.
Definition GOST : DsDigestType := 3.
Definition SHA384 : DsDigestType := 4.
End Digests.

(** ** Lookup in a [match] table *)

Fixpoint lookup_name (table : list (Z * string)) (v : Z) : option string :=
  match table with
  | [] => None
  | (k, s) :: table => if v =? k then Some s else lookup_name table v
  end.

(** ** Record types *)

Definition is_known (t : RrType) : bool :=
  ((1 <=? t) && (t <=? 65)) || ((99 <=? t) && (t <=? 109)) ||
  ((249 <=? t) && (t <=? 260)) || ((32768 <=? t) && (t <=? 32769)).

Definition is_rrset_type (t : RrType) : bool :=
  negb ((t =? 41) || (t =? 250) || (t =? 249) || (t =? 251) || (t =? 252) || (t =? 255)).

Definition permits_compression (t : RrType) : bool :=
  (t =? 2) || (t =? 5) || (t =? 6) || (t =? 12) || (t =? 15) || (t =? 39).

Definition rrtype_names : list (Z * string) :=
  [(1, "A"%string); (2, "NS"%string); (3, "MD"%string); (4, "MF"%string);
   (5, "CNAME"%string); (6, "SOA"%string); (7, "MB"%string); (8, "MG"%string);
   (9, "MR"%string); (10, "NULL"%string); (11, "WKS"%string); (12, "PTR"%string);
   (13, "HINFO"%string); (14, "MINFO"%string); (15, "MX"%string); (16, "TXT"%string);
   (17, "RP"%string); (18, "AFSDB"%string); (24, "SIG"%string); (25, "KEY"%string);
   (28, "AAAA"%string); (29, "LOC"%string); (33, "SRV"%string); (35, "NAPTR"%string);
   (36, "KX"%string); (37, "CERT"%string); (39, "DNAME"%string); (41, "OPT"%string);
   (42, "APL"%string); (43, "DS"%string); (44, "SSHFP"%string); (45, "IPSECKEY"%string);
   (46, "RRSIG"%string); (47, "NSEC"%string); (48, "DNSKEY"%string); (49, "DHCID"%string);
   (50, "NSEC3"%string); (51, "NSEC3PARAM"%string); (52, "TLSA"%string);
   (53, "SMIMEA"%string); (55, "HIP"%string); (59, "CDS"%string); (60, "CDNSKEY"%string);
   (61, "OPENPGPKEY"%string); (62, "CSYNC"%string); (63, "ZONEMD"%string);
   (64, "SVCB"%string); (65, "HTTPS"%string); (99, "SPF"%string); (249, "TKEY"%string);
   (250, "TSIG"%string); (251, "IXFR"%string); (252, "AXFR"%string); (255, "ANY"%string);
   (256, "URI"%string); (257, "CAA"%string); (32768, "TA"%string); (32769, "DLV"%string)].

Definition as_str (t : RrType) : string := default "TYPE"%string (lookup_name rrtype_names t).

(** [impl Display for RrType] *)
Definition rrtype_display (t : RrType) : string :=
  if (t <=? 32769) && negb (is_known t) && String.eqb (as_str t) "TYPE"
  then ("TYPE" +:+ pretty t)%string
  else as_str t.

(** ** Classes, opcodes, response codes, algorithms *)

Definition rrclass_names : list (Z * string) :=
  [(1, "IN"%string); (2, "CS"%string); (3, "CH"%string); (4, "HS"%string);
   (254, "NONE"%string); (255, "ANY"%string)].

Definition rrclass_display (c : RrClass) : string :=
  default ("CLASS" +:+ pretty c)%string (lookup_name rrclass_names c).

(** [impl From<u8> for Opcode] *)
Definition opcode_from (v : Z) : Opcode := Z.land v 0x0f.

Definition opcode_names : list (Z * string) :=
  [(0, "QUERY"%string); (1, "IQUERY"%string); (2, "STATUS"%string); (4, "NOTIFY"%string);
   (5, "UPDATE"%string)].

Definition opcode_display (o : Opcode) : string :=
  default ("OPCODE" +:+ pretty o)%string (lookup_name opcode_names o).

Definition is_nxdomain (r : Rcode) : bool := r =? 3.
Definition is_noerror (r : Rcode) : bool := r =? 0.
Definition is_failure (r : Rcode) : bool :=
  (r =? 1) || (r =? 2) || (r =? 4) || (r =? 5) || (r =? 9) || (r =? 10).

Definition rcode_names : list (Z * string) :=
  [(0, "NOERROR"%string); (1, "FORMERR"%string); (2, "SERVFAIL"%string);
   (3, "NXDOMAIN"%string); (4, "NOTIMP"%string); (5, "REFUSED"%string);
   (6, "YXDOMAIN"%string); (7, "YXRRSET"%string); (8, "NXRRSET"%string);
   (9, "NOTAUTH"%string); (10, "NOTZONE"%string)].

Definition rcode_display (r : Rcode) : string :=
  default ("RCODE" +:+ pretty r)%string (lookup_name rcode_names r).

Definition alg_supported (a : DnssecAlgorithm) : bool := a =? 8.

Definition algorithm_names : list (Z * string) :=
  [(1, "RSAMD5"%string); (2, "DH"%string); (3, "DSA"%string); (4, "ECC"%string);
   (5, "RSASHA1"%string); (6, "DSA-NSEC3-SHA1"%string); (7, "RSASHA1-NSEC3-SHA1"%string);
   (8, "RSASHA256"%string); (10, "RSASHA512"%string); (12, "ECC-GOST"%string);
   (13, "ECDSA-P256-SHA256"%string); (14, "ECDSA-P384-SHA384"%string);
   (15, "ED25519"%string); (16, "ED448"%string); (252, "INDIRECT"%string);
   (253, "PRIVATE-DNS"%string); (254, "PRIVATE-OID"%string)].

Definition algorithm_as_str (a : DnssecAlgorithm) : string :=
  default "UNKNOWN"%string (lookup_name algorithm_names a).
(** ** Lemmas *)

Lemma lookup_name_In table v s : lookup_name table v = Some s -> In (v, s) table.
Proof.
  induction table as [|[k s'] table IH]; cbn; [done|].
  destruct (Z.eqb_spec v k) as [->|]; [intros [= ->]; by left|]. intros H. right. auto.
Qed.

(** In a table whose names are distinct, the name determines the number. *)
Lemma lookup_name_inj table v1 v2 s :
  NoDup (map snd table) ->
  lookup_name table v1 = Some s -> lookup_name table v2 = Some s -> v1 = v2.
Proof.
  intros Hnd H1%lookup_name_In H2%lookup_name_In. induction table as [|[k s'] table IH]; [done|].
  cbn in Hnd. inversion_clear Hnd as [|? ? Hn Hnd']. cbn in H1, H2.
  assert (Hs : forall v, In (v, s') table -> False).
  { intros v Hv. apply Hn. apply list_elem_of_In. by apply (in_map snd) in Hv. }
  destruct H1 as [H1|H1], H2 as [H2|H2]; simplify_eq; try done; naive_solver.
Qed.

Lemma as_str_inj t1 t2 :
  as_str t1 = as_str t2 -> as_str t1 <> "TYPE"%string -> t1 = t2.
Proof.
  unfold as_str. intros E H.
  destruct (lookup_name rrtype_names t1) as [s1|] eqn:E1; [|done].
  destruct (lookup_name rrtype_names t2) as [s2|] eqn:E2; cbn [default from_option id] in *; [|done]. subst s2.
  eapply lookup_name_inj; [|exact E1|exact E2].
  apply (bool_decide_eq_true_1 (NoDup (map snd rrtype_names))). vm_compute. reflexivity.
Qed.

(** No table entry looks like the generic spelling of an unassigned type. *)
Lemma as_str_not_generic t x : x <> ""%string -> as_str t <> ("TYPE" +:+ x)%string.
Proof.
  intros Hx E. unfold as_str in E.
  destruct (lookup_name rrtype_names t) as [s|] eqn:Es; cbn in E.
  - apply lookup_name_In in Es. subst s.
    assert (H : forallb (fun p => negb (String.prefix "TYPE" (snd p))) rrtype_names = true)
      by (vm_compute; done).
    rewrite forallb_forall in H. specialize (H _ Es). cbn in H. by destruct x.
  - injection E as E. by destruct x.
Qed.

Lemma pretty_N_go_nonempty x s : s <> ""%string -> pretty_N_go x s <> ""%string.
Proof.
  revert s. induction (N.lt_wf_0 x) as [x _ IH]; intros s Hs.
  assert (x = 0 \/ 0 < x)%N as [->|?] by lia; [by rewrite pretty_N_go_0|].
  rewrite pretty_N_go_step by done. apply IH; [by apply N.div_lt|done].
Qed.

Lemma pretty_Z_nonempty (t : Z) : pretty t <> ""%string.
Proof.
  destruct t as [|p|p]; [done| |done]. unfold pretty, pretty_Z, pretty, pretty_positive.
  unfold pretty, pretty_N. case_decide; [done|].
  rewrite pretty_N_go_step by lia. by apply pretty_N_go_nonempty.
Qed.

(** ** Properties *)

(** the textual form of a record type identifies it, except for the bare
    TYPE, which is what every unnamed type is printed as if it is either
    known to the registry or above 32769; the doc comment promises TYPE###
    for all of them. *)
Theorem rrtype_display_identifies t1 t2 :
  is_u16 t1 -> is_u16 t2 ->
  (rrtype_display t1 = "TYPE"%string <->
   lookup_name rrtype_names t1 = None /\ (is_known t1 = true \/ 32769 < t1)) /\
  (rrtype_display t1 = rrtype_display t2 ->
   t1 = t2 \/ rrtype_display t1 = "TYPE"%string).
Proof.
  intros H1 H2.
  assert (Hg : forall x : string, ("TYPE" +:+ x)%string = "TYPE"%string -> x = ""%string)
    by (intros x E; by injection E).
  split.
  - unfold rrtype_display. destruct (_ && _)%bool eqn:E.
    + bools. split; [intros Hx%Hg; by apply pretty_Z_nonempty in Hx|].
      intros [_ [?|?]]; [congruence|lia].
    + unfold as_str. split.
      * intros Ht. destruct (lookup_name rrtype_names t1) as [s|] eqn:Es; cbn in Ht.
        -- exfalso. subst s. apply lookup_name_In in Es. clear -Es. cbn in Es.
           repeat destruct Es as [[= ]|Es]; done.
        -- split; [done|]. unfold as_str in E. rewrite Es in E. cbn in E.
           rewrite andb_true_r in E. apply andb_false_iff in E as [E|E]; bools; [lia|auto].
      * by intros [-> _].
  - unfold rrtype_display.
    set (g1 := (_ && _)%bool). set (g2 := (_ && String.eqb (as_str t2) _)%bool).
    destruct g1, g2.
    + intros E. left. apply (inj pretty). by injection E.
    + intros E. symmetry in E. by apply as_str_not_generic in E; [|apply pretty_Z_nonempty].
    + intros E. by apply as_str_not_generic in E; [|apply pretty_Z_nonempty].
    + intros E. destruct (decide (as_str t1 = "TYPE"%string)) as [Ht|Ht]; [by right|].
      left. by apply as_str_inj.
Qed.

Lemma rrtype_display_identifies_witness :
  rrtype_display 19 = "TYPE"%string /\ rrtype_display 40000 = "TYPE"%string /\
  rrtype_display 1234 = "TYPE1234"%string /\
  (rrtype_display 19 = "TYPE"%string <->
   lookup_name rrtype_names 19 = None /\ (is_known 19 = true \/ 32769 < 19)).
Proof.
  split; [reflexivity|]. split; [reflexivity|]. split; [vm_compute; reflexivity|].
  apply (rrtype_display_identifies 19 19); done.
Defined.
