(* ===== verification/Edns.v ===== *)
(** * EDNS(0) and its options ([src/edns.rs])

    The OPT pseudo-record and the option list: client subnet, cookies,
    keepalive, padding, key tags, NSID, extended errors and raw options.
    [opt_ok] is the well-formedness every parsed option has, and serialising
    and parsing are proved inverse on it, up to the padding length. *)
From S2P Require Import Prelude Wire.

(** The option codes ([mod opt]). *)
Module opt.
Definition LLQ : Z := 1.
Definition UL : Z := 2.
Definition NSID : Z := 3.
Definition DAU : Z := 5.
Definition DHU : Z := 6.
Definition N3U : Z := 7.
Definition ECS : Z := 8.
Definition EXPIRE : Z := 9.
Definition COOKIE : Z := 10.
Definition KEEPALIVE : Z := 11.
Definition PADDING : Z := 12.
Definition CHAIN : Z := 13.
Definition KEY_TAG : Z := 14.
Definition EDE : Z := 15.
Definition CLIENT_TAG : Z := 16.
Definition SERVER_TAG : Z := 17.
Definition ZONEVERSION : Z := 18.
End opt.

(** ** Client subnet *)

Record Ecs := mkEcs {
  family : Z;
  source_prefix : Z;
  scope_prefix : Z;
  address : list Z }.

Definition div_ceil (a b : Z) : Z := (a + b - 1) / b.

(** [0xffu8 << k] and [!m] on octets. *)
Definition mask_byte (valid : Z) : Z := wrap 8 (Z.shiftl 0xff (8 - valid)).
Definition not8 (m : Z) : Z := Z.lxor 0xff m.

(** [dst.iter_mut().zip(src)]: copy as much of the source as fits. *)
Fixpoint zip_copy (dst src : list Z) : list Z :=
  match dst, src with
  | _ :: dst, s :: src => s :: zip_copy dst src
  | _, _ => dst
  end.

(** [if let Some(last) = out.last_mut() { *last &= m }] *)
Definition and_last (m : Z) (out : list Z) : list Z :=
  match reverse out with
  | [] => []
  | last :: front => reverse front ++ [Z.land last m]
  end.

Definition mask (addr : list Z) (prefix : Z) : list Z :=
  let n := div_ceil prefix 8 in
  let out := zip_copy (replicate (Z.to_nat n) 0) addr in
  if negb (prefix mod 8 =? 0) then and_last (mask_byte (prefix mod 8)) out else out.

Definition ecs_ipv4 (octets : list Z) (prefix : Z) : result Error Ecs :=
  _ ← reject_if (32 <? prefix) (wire "ECS IPv4 prefix > 32");
  Ok (mkEcs 1 prefix 0 (mask octets prefix)).

Definition ecs_ipv6 (octets : list Z) (prefix : Z) : result Error Ecs :=
  _ ← reject_if (128 <? prefix) (wire "ECS IPv6 prefix > 128");
  Ok (mkEcs 2 prefix 0 (mask octets prefix)).

Definition full_address (e : Ecs) : list Z :=
  let full := if family e =? 1 then 4 else if family e =? 2 then 16 else 0 in
  if full =? 0 then address e else zip_copy (replicate (Z.to_nat full) 0) (address e).

Definition ecs_is_none (e : Ecs) : bool := (family e =? 0) || (source_prefix e =? 0).

Definition ecs_parse (data : list Z) : result Error Ecs :=
  _ ← reject_if (zlen data <? 4) (wire "ECS option too short");
  family ← u16_at data 0;
  source_prefix ← byte_at data 2;
  scope_prefix ← byte_at data 3;
  max_prefix ← (if family =? 1 then Ok 32 else if family =? 2 then Ok 128
                else Err (wire "ECS unknown family"));
  _ ← reject_if ((max_prefix <? source_prefix) || (max_prefix <? scope_prefix))
        (wire "ECS prefix out of range");
  let addr_len := div_ceil source_prefix 8 in
  _ ← reject_if (negb (zlen data =? 4 + addr_len)) (wire "ECS address length mismatch");
  addr ← rest_at data 4;
  _ ← match list.last addr with
      | Some last =>
          let valid_bits := source_prefix mod 8 in
          reject_if (negb (valid_bits =? 0) &&
                     negb (Z.land last (not8 (mask_byte valid_bits)) =? 0))
            (wire "ECS non-canonical address")
      | None => Ok tt
      end;
  Ok (mkEcs family source_prefix scope_prefix addr).

Definition ecs_to_wire (e : Ecs) : list Z :=
  be_bytes 2 (family e) ++ [source_prefix e] ++ [scope_prefix e] ++ address e.

(** ** Options *)

Inductive EdnsOption :=
| OptEcs (e : Ecs)
| OptCookie (client server : list Z)
| OptTcpKeepalive (timeout : option Z)
| OptPadding (n : Z)
| OptKeyTag (tags : list Z)
| OptNsid (v : list Z)
| OptEde (info_code : Z) (extra : list Z)
| OptUnknown (code : Z) (data : list Z).

Definition code (o : EdnsOption) : Z :=
  match o with
  | OptEcs _ => opt.ECS
  | OptCookie _ _ => opt.COOKIE
  | OptTcpKeepalive _ => opt.KEEPALIVE
  | OptPadding _ => opt.PADDING
  | OptKeyTag _ => opt.KEY_TAG
  | OptNsid _ => opt.NSID
  | OptEde _ _ => opt.EDE
  | OptUnknown c _ => c
  end.

Record Edns := mkEdns {
  udp_payload_size : Z;
  ext_rcode : Z;
  version : Z;
  dnssec_ok : bool;
  options : list EdnsOption }.

Definition edns_new (udp_payload_size : Z) : Edns := mkEdns udp_payload_size 0 0 false [].

Definition extended_rcode (e : Edns) (base : Z) : Z :=
  Z.lor (wrap 16 (Z.shiftl (ext_rcode e) 4)) (Z.land base 0x0f).

Definition ttl_field (e : Edns) : Z :=
  let ttl := Z.lor (wrap 32 (Z.shiftl (ext_rcode e) 24)) (Z.shiftl (version e) 16) in
  if dnssec_ok e then Z.lor ttl 0x8000 else ttl.

(** The data of one option; padding carries none. *)
Definition option_data (o : EdnsOption) : list Z :=
  match o with
  | OptEcs e => ecs_to_wire e
  | OptCookie client server => client ++ server
  | OptTcpKeepalive (Some t) => be_bytes 2 t
  | OptTcpKeepalive None => []
  | OptPadding _ => []
  | OptKeyTag tags => flat_map (be_bytes 2) tags
  | OptNsid v => v
  | OptEde info_code extra => be_bytes 2 info_code ++ extra
  | OptUnknown _ data => data
  end.

Definition option_wire (o : EdnsOption) : list Z :=
  let data := option_data o in
  be_bytes 2 (code o) ++ be_bytes 2 (wrap 16 (zlen data)) ++ data.

Definition options_wire (e : Edns) : list Z := flat_map option_wire (options e).

Definition ecs (e : Edns) : option Ecs :=
  list_find_map (fun o => match o with OptEcs e => Some e | _ => None end) (options e).

Definition client_cookie (e : Edns) : option (list Z) :=
  list_find_map (fun o => match o with OptCookie c _ => Some c | _ => None end) (options e).

(** [data.chunks_exact(2)], each chunk a big-endian tag. *)
Fixpoint key_tags (data : list Z) : list Z :=
  match data with
  | a :: b :: data => be_val [a; b] :: key_tags data
  | _ => []
  end.

Definition parse_option (code : Z) (data : list Z) : result Error EdnsOption :=
  if code =? opt.ECS then e ← ecs_parse data; Ok (OptEcs e)
  else if code =? opt.COOKIE then
    client ← map_err (fun _ => wire "cookie option too short") (array_at 8 data 0);
    server ← rest_at data 8;
    Ok (OptCookie client server)
  else if code =? opt.KEEPALIVE then
    if zlen data =? 0 then Ok (OptTcpKeepalive None)
    else if zlen data =? 2 then t ← u16_at data 0; Ok (OptTcpKeepalive (Some t))
    else Err (wire "keepalive option malformed")
  else if code =? opt.PADDING then Ok (OptPadding (wrap 16 (zlen data)))
  else if code =? opt.KEY_TAG then
    _ ← reject_if (negb (zlen data mod 2 =? 0)) (wire "key-tag option malformed");
    Ok (OptKeyTag (key_tags data))
  else if code =? opt.NSID then Ok (OptNsid data)
  else if code =? opt.EDE then
    info_code ← map_err (fun _ => wire "EDE option too short") (u16_at data 0);
    extra ← rest_at data 2;
    Ok (OptEde info_code extra)
  else Ok (OptUnknown code data).

Definition header_truncated : Error := wire "EDNS option header truncated".

(** The option loop; every option takes at least four octets. *)
Fixpoint parse_options_loop (fuel : nat) (rdata : list Z) (pos : Z) (opts : list EdnsOption)
    : result Error (list EdnsOption) :=
  match fuel with
  | O => Err (internal "out of fuel")
  | S fuel' =>
      if zlen rdata <=? pos then Ok opts
      else
        code ← map_err (fun _ => header_truncated) (u16_at rdata pos);
        len ← map_err (fun _ => header_truncated) (u16_at rdata (pos + 2));
        let pos := pos + 4 in
        data ← map_err (fun _ => wire "EDNS option data truncated") (slice_at rdata pos len);
        option ← parse_option code data;
        parse_options_loop fuel' rdata (pos + len) (opts ++ [option])
  end.

Definition parse_options (rdata : list Z) : result Error (list EdnsOption) :=
  parse_options_loop (S (length rdata)) rdata 0 [].

Definition edns_parse (class ttl : Z) (rdata : list Z) : result Error Edns :=
  let ext_rcode := Z.land (Z.shiftr ttl 24) 0xff in
  let version := Z.land (Z.shiftr ttl 16) 0xff in
  let dnssec_ok := negb (Z.land ttl 0x8000 =? 0) in
  options ← parse_options rdata;
  Ok (mkEdns class ext_rcode version dnssec_ok options).

(** ** Specification *)

Definition canonical_last (prefix : Z) (addr : list Z) : Prop :=
  match list.last addr with
  | Some last => prefix mod 8 = 0 \/ Z.land last (not8 (mask_byte (prefix mod 8))) = 0
  | None => True
  end.

Definition ecs_ok (e : Ecs) : Prop :=
  exists max, (family e = 1 /\ max = 32 \/ family e = 2 /\ max = 128) /\
    0 <= source_prefix e <= max /\ 0 <= scope_prefix e <= max /\
    zlen (address e) = div_ceil (source_prefix e) 8 /\ bytes (address e) /\
    canonical_last (source_prefix e) (address e).

Definition known_code (c : Z) : bool :=
  (c =? opt.ECS) || (c =? opt.COOKIE) || (c =? opt.KEEPALIVE) || (c =? opt.PADDING)
  || (c =? opt.KEY_TAG) || (c =? opt.NSID) || (c =? opt.EDE).

(** The options the parser produces. *)
Definition opt_ok (o : EdnsOption) : Prop :=
  zlen (option_data o) <= u16_max /\ bytes (option_data o) /\
  match o with
  | OptEcs e => ecs_ok e
  | OptCookie client server => zlen client = 8
  | OptTcpKeepalive (Some t) => is_u16 t
  | OptTcpKeepalive None => True
  | OptPadding n => is_u16 n
  | OptKeyTag tags => Forall is_u16 tags
  | OptNsid v => True
  | OptEde info_code extra => is_u16 info_code
  | OptUnknown c data => is_u16 c /\ known_code c = false
  end.

(** Padding is serialised without its octets. *)
Definition normal (o : EdnsOption) : EdnsOption :=
  match o with OptPadding _ => OptPadding 0 | o => o end.

Definition edns_ok (e : Edns) : Prop :=
  is_u16 (udp_payload_size e) /\ is_byte (ext_rcode e) /\ is_byte (version e) /\
  Forall opt_ok (options e).

(** ** Lemmas: client subnet *)

Lemma rest_at_app pre post : rest_at (pre ++ post) (zlen pre) = Ok post.
Proof.
  apply ok_or_Ok. unfold get_from. apply get_range_split. exists pre, [].
  rewrite app_nil_r. split; [done|]. split; [done|lens].
Qed.

Lemma u16_at_prefix v post : is_u16 v -> u16_at (be_bytes 2 v ++ post) 0 = Ok v.
Proof. intros. by apply (u16_at_middle [] v post). Qed.

Lemma bytes_cons b l : bytes (b :: l) <-> is_byte b /\ bytes l.
Proof. apply List.Forall_cons_iff. Qed.

Lemma div_ceil_8 p : 0 <= p -> 0 <= div_ceil p 8 /\ (p <= 128 -> div_ceil p 8 <= 16).
Proof.
  intros H. unfold div_ceil. split; [apply Z.div_pos; lia|].
  intros. apply Z.lt_succ_r, Z.div_lt_upper_bound; lia.
Qed.

Lemma ecs_parse_to_wire e : ecs_ok e -> ecs_parse (ecs_to_wire e) = Ok e.
Proof.
  intros (max & Hf & Hs & Hc & Hl & Hb & Hcl). destruct e as [f s c a].
  cbn [family source_prefix scope_prefix address] in *.
  destruct (div_ceil_8 s) as [Hd _]; [lia|].
  assert (Ht : ecs_to_wire (mkEcs f s c a) = [0; f; s; c] ++ a).
  { by destruct Hf as [[-> _]|[-> _]]. }
  assert (Hu : u16_at (ecs_to_wire (mkEcs f s c a)) 0 = Ok f)
    by (apply (u16_at_prefix f ([s] ++ [c] ++ a)); unfold is_u16; lia).
  assert (Hr : rest_at (ecs_to_wire (mkEcs f s c a)) 4 = Ok a)
    by (rewrite Ht; apply (rest_at_app [0; f; s; c])).
  assert (Hn : zlen (ecs_to_wire (mkEcs f s c a)) = 4 + div_ceil s 8) by (rewrite Ht; lens).
  assert (H2 : byte_at (ecs_to_wire (mkEcs f s c a)) 2 = Ok s) by (by rewrite Ht).
  assert (H3 : byte_at (ecs_to_wire (mkEcs f s c a)) 3 = Ok c) by (by rewrite Ht).
  unfold ecs_parse. rewrite Hu, H2, H3, Hr, Hn. unfold reject_if at 1.
  rewrite (proj2 (Z.ltb_ge _ _)) by lia. cbn [mbind result_bind].
  replace (if f =? 1 then Ok 32 else if f =? 2 then Ok 128 else _) with (@Ok Error Z max)
    by (by destruct Hf as [[-> ->]|[-> ->]]).
  cbn [mbind result_bind]. unfold reject_if at 1.
  rewrite !(proj2 (Z.ltb_ge _ _)) by lia. cbn [orb mbind result_bind].
  unfold reject_if at 1. rewrite Z.eqb_refl.
  cbn [negb mbind result_bind]. unfold canonical_last in Hcl.
  destruct (list.last a) as [l|]; [|done]. unfold reject_if.
  destruct Hcl as [->| ->]; [done|]. by rewrite andb_false_r.
Qed.

Lemma ecs_parse_ok data e :
  bytes data -> ecs_parse data = Ok e -> ecs_ok e /\ ecs_to_wire e = data.
Proof.
  intros Hb H. unfold ecs_parse in H. results. bools.
  match goal with H : rest_at _ _ = Ok ?a |- _ => rename H into Hrest; rename a into addr end.
  match goal with H : u16_at _ _ = Ok ?a |- _ => rename H into Hf; rename a into f end.
  match goal with H : byte_at _ 2 = Ok ?a |- _ => rename H into Hs; rename a into s end.
  match goal with H : byte_at _ 3 = Ok ?a |- _ => rename H into Hc; rename a into c end.
  apply ok_or_Ok in Hrest. unfold get_from in Hrest.
  apply get_range_split in Hrest as (pre & post & -> & Hpre & Hend).
  assert (post = []) as -> by (apply zlen_0; autorewrite with rxlen in Hend; lia).
  rewrite app_nil_r in *. apply Forall_app in Hb as [Hb1 Hb2].
  destruct pre as [|b0 [|b1 [|b2 [|b3 [|]]]]]; autorewrite with rxlen in Hpre;
    try (len_facts; lia).
  rewrite !bytes_cons in Hb1. destruct Hb1 as (Hb0 & Hb1 & Hbs & Hbc & _).
  apply bind_Ok in Hf as (fs & [Hfs _]%array_at_Ok & [= <-]). cbn in Hfs.
  change (Z.of_nat _) with 4 in *.
  assert (fs = [b0; b1]) as ->.
  { apply get_range_split in Hfs as (p & q & E & Ep & Eq).
    apply zlen_0 in Ep as ->. cbn in E. destruct fs as [|x [|y [|]]]; autorewrite with rxlen in Eq;
      try (len_facts; lia). by injection E as -> ->. }
  injection Hs as ->. injection Hc as ->.
  assert (Hmax : exists max, (be_val [b0; b1] = 1 /\ max = 32 \/ be_val [b0; b1] = 2 /\ max = 128) /\
            s <= max /\ c <= max).
  { repeat case_match; bools; results; eexists; (split; [eauto|]); bools; lia. }
  destruct Hmax as (max & Hfam & ? & ?).
  split.
  - exists max. cbn. unfold is_byte in *.
    split; [done|]. split; [lia|]. split; [lia|].
    split; [autorewrite with rxlen in *; lia|]. split; [done|].
    unfold canonical_last. destruct (list.last addr) as [l|] eqn:El; [|done].
    match goal with H : reject_if _ _ = Ok _ |- _ => apply reject_if_Ok, andb_false_iff in H end.
    intuition (bools; auto).
  - unfold ecs_to_wire. cbn [family source_prefix scope_prefix address].
    rewrite (be_bytes_be_val [b0; b1] ltac:(by constructor; [|constructor; [|constructor]])
             : be_bytes 2 _ = _). done.
Qed.

Lemma length_zip_copy dst src : length (zip_copy dst src) = length dst.
Proof.
  revert src. induction dst as [|d dst IH]; intros [|s src]; cbn; [done..|]. by rewrite IH.
Qed.

Lemma bytes_zip_copy dst src : bytes dst -> bytes src -> bytes (zip_copy dst src).
Proof.
  intros Hd. revert src. induction Hd as [|d dst Hd1 Hd IH]; intros [|s src] Hs; cbn;
    try (by constructor).
  rewrite bytes_cons in *. destruct Hs. by split; [|apply IH].
Qed.

Lemma land_byte a b : is_byte a -> 0 <= b -> is_byte (Z.land a b).
Proof.
  unfold is_byte. intros Ha Hb. assert (0 <= Z.land a b) by (apply Z.land_nonneg; lia).
  replace (Z.land a b) with (Z.land a b mod 2 ^ 8); [apply (Z.mod_pos_bound _ 256); lia|].
  rewrite <- Z.land_ones, <- Z.land_assoc, (Z.land_comm b), Z.land_assoc, Z.land_ones by lia.
  by rewrite Z.mod_small by (change (2 ^ 8) with 256; lia).
Qed.

Lemma and_last_app front x m : and_last m (front ++ [x]) = front ++ [Z.land x m].
Proof. unfold and_last. by rewrite reverse_snoc, reverse_involutive. Qed.

Lemma list_last_app (l : list Z) x : list.last (l ++ [x]) = Some x.
Proof. apply last_snoc. Qed.

Lemma mask_canonical addr prefix :
  bytes addr -> 0 <= prefix <= 128 ->
  zlen (mask addr prefix) = div_ceil prefix 8 /\ bytes (mask addr prefix) /\
  canonical_last prefix (mask addr prefix).
Proof.
  intros Ha Hp. destruct (div_ceil_8 prefix) as [Hd _]; [lia|]. unfold mask.
  set (out := zip_copy _ addr).
  assert (Hl : zlen out = div_ceil prefix 8).
  { unfold zlen, out. rewrite length_zip_copy, length_replicate. lia. }
  assert (Hb : bytes out).
  { apply bytes_zip_copy; [|done]. by apply Forall_replicate. }
  destruct (Z.eqb_spec (prefix mod 8) 0) as [E|E]; cbn [negb].
  { split; [done|]. split; [done|]. unfold canonical_last. destruct (list.last out); auto. }
  destruct out as [|x front _] using rev_ind.
  { split; [done|]. split; done. }
  rewrite and_last_app. apply Forall_app in Hb as [Hb1 Hb2]. apply bytes_cons in Hb2 as [Hx _].
  assert (Hm : is_byte (mask_byte (prefix mod 8))) by (apply Z.mod_pos_bound; lia).
  split; [rewrite zlen_app in *; exact Hl|]. split.
  - apply Forall_app. split; [done|]. constructor; [|constructor].
    apply land_byte; [done|]. apply Hm.
  - unfold canonical_last. rewrite list_last_app. right.
    rewrite <- Z.land_assoc. unfold not8.
    replace (Z.land (mask_byte _) (Z.lxor 255 (mask_byte _))) with 0; [apply Z.land_0_r|].
    pose proof (Z.mod_pos_bound prefix 8 ltac:(lia)).
    assert (Hk : forall k, In k (seqZ 0 8) -> Z.land (mask_byte k) (Z.lxor 255 (mask_byte k)) = 0).
    { apply List.Forall_forall. by repeat constructor. }
    symmetry. apply Hk. apply list_elem_of_In, elem_of_seqZ. lia.
Qed.

Lemma ecs_build_ok f max octets prefix :
  (f = 1 /\ max = 32 \/ f = 2 /\ max = 128) -> bytes octets -> 0 <= prefix <= max ->
  ecs_ok (mkEcs f prefix 0 (mask octets prefix)).
Proof.
  intros Hf Hb Hp. destruct (mask_canonical octets prefix Hb) as (Hl & Hb' & Hc); [lia|].
  exists max. cbn [family source_prefix scope_prefix address]. repeat split; try done; lia.
Qed.

(** ** Lemmas: one option *)

Lemma key_tags_flat_map tags : Forall is_u16 tags -> key_tags (flat_map (be_bytes 2) tags) = tags.
Proof.
  induction 1 as [|t tags Ht _ IH]; [done|].
  change (flat_map (be_bytes 2) (t :: tags)) with (be_bytes 2 t ++ flat_map (be_bytes 2) tags).
  change (key_tags (be_bytes 2 t ++ flat_map (be_bytes 2) tags))
    with (be_val (be_bytes 2 t) :: key_tags (flat_map (be_bytes 2) tags)).
  rewrite IH, be_val_be_bytes_small; [done|]. unfold is_u16 in Ht. lia.
Qed.

Lemma key_tags_inv n data :
  (length data <= n)%nat -> bytes data -> zlen data mod 2 = 0 ->
  flat_map (be_bytes 2) (key_tags data) = data /\ Forall is_u16 (key_tags data).
Proof.
  revert data. induction n as [|n IH]; intros [|a [|b data]] Hn Hb Hm;
    try (by split; [|cbn; constructor]); try (cbn in Hn; lia).
  rewrite !bytes_cons in Hb. destruct Hb as (Ha & Hb & Hd).
  assert (Hab : bytes [a; b]) by (by constructor; [|constructor; [|constructor]]).
  destruct (IH data) as [E Ht]; [cbn in Hn; lia|done| |].
  { rewrite !zlen_cons in Hm. rewrite <- Hm.
    replace (1 + (1 + zlen data)) with (zlen data + 1 * 2) by lia. by rewrite Z.mod_add by lia. }
  cbn [key_tags flat_map]. rewrite E. split.
  - by rewrite (be_bytes_be_val [a; b] Hab : be_bytes 2 _ = _).
  - constructor; [|done]. pose proof (be_val_bound _ Hab) as B. exact B.
Qed.

Lemma zlen_key_tags tags : zlen (flat_map (be_bytes 2) tags) = 2 * zlen tags.
Proof. induction tags as [|t tags IH]; [done|]. cbn [flat_map]. lens. Qed.

Lemma array_at_prefix (s post : list Z) n :
  n = zlen s -> n <= usize_max -> array_at n (s ++ post) 0 = Ok s.
Proof. intros -> ?. apply array_at_Ok. split; [by apply (get_range_middle [] s post)|lia]. Qed.

Lemma parse_option_data o :
  opt_ok o -> parse_option (code o) (option_data o) = Ok (normal o).
Proof.
  intros (Hl & Hb & Ho). destruct o; cbn [code option_data] in *; unfold parse_option; cbn [Z.eqb Pos.eqb].
  - cbn [opt.ECS]. by rewrite ecs_parse_to_wire.
  - rewrite array_at_prefix by (unfold usize_max; lia). cbn [map_err mbind result_bind].
    rewrite <- Ho, rest_at_app. done.
  - destruct timeout as [t|]; [|done]. cbn [option_data code] in *.
    rewrite zlen_be_bytes. change (Z.of_nat 2 =? 0) with false. change (Z.of_nat 2 =? 2) with true.
    rewrite <- (app_nil_r (be_bytes 2 t)), u16_at_prefix; done.
  - done.
  - rewrite zlen_key_tags. unfold reject_if. rewrite Z.mul_comm, Z.mod_mul by lia.
    cbn. by rewrite key_tags_flat_map.
  - done.
  - rewrite u16_at_prefix by done. cbn [map_err mbind result_bind].
    rewrite (rest_at_app (be_bytes 2 info_code) extra : rest_at _ 2 = _). done.
  - destruct Ho as [Hc Hk]. unfold known_code in Hk. bools.
    repeat match goal with H : (_ =? _) = false |- _ => rewrite H; clear H end.
    cbn [normal]. repeat (rewrite (proj2 (Z.eqb_neq _ _)) by done). done.
Qed.

Lemma array_rest_inv n data s r :
  array_at n data 0 = Ok s -> rest_at data n = Ok r -> data = s ++ r /\ zlen s = n.
Proof.
  intros [Hs _]%array_at_Ok Hr%ok_or_Ok. unfold get_from in Hr.
  apply get_range_split in Hs as (pre & post & E & ->%zlen_0 & Hn). cbn [app] in E.
  apply get_range_split in Hr as (pre2 & post2 & E2 & Hp & Hn2).
  split; [|lia]. rewrite E2 in Hn2. assert (post2 = []) as -> by (apply zlen_0; lens).
  rewrite app_nil_r in E2. rewrite E in E2.
  apply app_inj_1 in E2 as [-> ->]; [congruence|]. unfold zlen in *. lia.
Qed.

Lemma u16_rest_inv data v r :
  bytes data -> u16_at data 0 = Ok v -> rest_at data 2 = Ok r ->
  data = be_bytes 2 v ++ r /\ is_u16 v.
Proof.
  intros Hb (s & Hs & [= <-])%bind_Ok Hr. destruct (array_rest_inv _ _ _ _ Hs Hr) as [-> Hl].
  apply Forall_app in Hb as [Hb _]. pose proof (be_val_bound s Hb) as B.
  rewrite Hl in B. split; [|exact B].
  replace 2%nat with (length s) by (unfold zlen in Hl; lia). by rewrite be_bytes_be_val.
Qed.

Lemma parse_option_ok c data o :
  is_u16 c -> bytes data -> zlen data <= u16_max -> parse_option c data = Ok o ->
  opt_ok o /\ code o = c /\ (option_data o = data \/ o = OptPadding (zlen data)).
Proof.
  intros Hc Hb Hl.
  assert (Hout : forall o, option_data o = data -> code o = c ->
    (zlen data <= u16_max -> bytes data -> opt_ok o) ->
    opt_ok o /\ code o = c /\ (option_data o = data \/ o = OptPadding (zlen data)))
    by (intros; auto).
  unfold parse_option.
  destruct (Z.eqb_spec c opt.ECS) as [->|?].
  { intros (e & [He Hw]%ecs_parse_ok & [= <-])%bind_Ok; [|done].
    apply Hout; [done..|]. unfold opt_ok. cbn [option_data]. by rewrite Hw. }
  destruct (Z.eqb_spec c opt.COOKIE) as [->|?].
  { intros (cl & Hcl%map_err_Ok & (s & Hs & [= <-])%bind_Ok)%bind_Ok.
    destruct (array_rest_inv _ _ _ _ Hcl Hs) as [-> Hcl8]. apply Hout; [done..|].
    intros. by split; [|split]. }
  destruct (Z.eqb_spec c opt.KEEPALIVE) as [->|?].
  { destruct (Z.eqb_spec (zlen data) 0) as [->%zlen_0|?].
    { intros [= <-]. apply Hout; [done..|]. intros. by split; [|split]. }
    destruct (Z.eqb_spec (zlen data) 2) as [H2|?]; [|done].
    intros (t & Ht & [= <-])%bind_Ok.
    destruct (u16_rest_inv data t []) as [E Hu]; [done|done| |].
    { apply ok_or_Ok. unfold get_from. rewrite H2. apply get_range_empty. lia. }
    rewrite app_nil_r in E. subst data. apply Hout; [done..|]. intros. by split; [|split]. }
  destruct (Z.eqb_spec c opt.PADDING) as [->|?].
  { intros [= <-]. unfold wrap. pose proof (zlen_nonneg data). unfold u16_max in Hl.
    rewrite Z.mod_small by lia.
    split; [|auto]. split; [done|]. split; [constructor|]. unfold is_u16. lia. }
  destruct (Z.eqb_spec c opt.KEY_TAG) as [->|?].
  { intros (? & Hm%reject_if_Ok & [= <-])%bind_Ok. bools.
    destruct (key_tags_inv (length data) data) as [E Ht]; [done..|].
    apply Hout; [done|done|]. intros.
    split; [cbn [option_data]; by rewrite E|]. split; [cbn [option_data]; by rewrite E|done]. }
  destruct (Z.eqb_spec c opt.NSID) as [->|?].
  { intros [= <-]. apply Hout; [done..|]. intros. by split; [|split]. }
  destruct (Z.eqb_spec c opt.EDE) as [->|?].
  { intros (ic & Hi%map_err_Ok & (ex & Hx & [= <-])%bind_Ok)%bind_Ok.
    destruct (u16_rest_inv _ _ _ Hb Hi Hx) as [E Hu]. apply Hout; [by rewrite E|done|].
    intros. split; [cbn [option_data]; by rewrite <- E|].
    split; [cbn [option_data]; by rewrite <- E|done]. }
  intros [= <-]. apply Hout; [done..|]. intros. split; [done|]. split; [done|].
  split; [done|]. unfold known_code.
  by repeat (rewrite (proj2 (Z.eqb_neq _ _)) by done).
Qed.

(** ** Lemmas: the option list *)

Lemma code_u16 o : opt_ok o -> is_u16 (code o).
Proof. intros (_ & _ & H). destruct o; cbn [code]; (done || apply H). Qed.

Lemma zlen_option_wire o : zlen (option_wire o) = 4 + zlen (option_data o).
Proof. unfold option_wire. rewrite !zlen_app, !zlen_be_bytes. lia. Qed.

Lemma parse_options_loop_wire os pre fuel acc :
  Forall opt_ok os -> (length os < fuel)%nat ->
  zlen (pre ++ flat_map option_wire os) <= usize_max ->
  parse_options_loop fuel (pre ++ flat_map option_wire os) (zlen pre) acc =
    Ok (acc ++ (normal <$> os)).
Proof.
  intros H. revert pre fuel acc. induction H as [|o os Ho _ IH]; intros pre [|fuel] acc Hf Hm;
    cbn [length] in Hf; try lia; cbn [parse_options_loop flat_map] in *.
  - rewrite app_nil_r. rewrite (proj2 (Z.leb_le _ _)) by lia. by rewrite app_nil_r.
  - pose proof (zlen_option_wire o) as Hz. rewrite !zlen_app in Hm.
    rewrite (proj2 (Z.leb_gt _ _)) by (rewrite !zlen_app; len_facts; lia).
    set (tail := flat_map option_wire os) in *.
    assert (E1 : pre ++ option_wire o ++ tail = pre ++ be_bytes 2 (code o) ++
      (be_bytes 2 (wrap 16 (zlen (option_data o))) ++ option_data o ++ tail))
      by (unfold option_wire; by rewrite <- !app_assoc).
    assert (E2 : pre ++ option_wire o ++ tail = (pre ++ be_bytes 2 (code o)) ++
      be_bytes 2 (wrap 16 (zlen (option_data o))) ++ (option_data o ++ tail))
      by (unfold option_wire; by rewrite <- !app_assoc).
    assert (E3 : pre ++ option_wire o ++ tail = (pre ++ be_bytes 2 (code o) ++
      be_bytes 2 (wrap 16 (zlen (option_data o)))) ++ option_data o ++ tail)
      by (unfold option_wire; by rewrite <- !app_assoc).
    assert (Hw : wrap 16 (zlen (option_data o)) = zlen (option_data o)).
    { destruct Ho as (Hl & _). unfold wrap, u16_max in *. rewrite Z.mod_small; len_facts; lia. }
    rewrite Hw in *. len_facts.
    rewrite E1 at 1. rewrite u16_at_middle by (try apply code_u16; done || lia).
    cbn [map_err mbind result_bind]. rewrite E2 at 1.
    replace (zlen pre + 2) with (zlen (pre ++ be_bytes 2 (code o))) by lens.
    rewrite u16_at_middle.
    2: { destruct Ho as (Hl & _). unfold is_u16, u16_max in *. lia. }
    2: { rewrite zlen_app, zlen_be_bytes. lia. }
    cbn [map_err mbind result_bind]. rewrite E3 at 1.
    replace (zlen pre + 4) with (zlen (pre ++ be_bytes 2 (code o) ++ be_bytes 2 (zlen (option_data o))))
      by lens.
    rewrite (proj2 (slice_at_Ok _ _ (zlen (option_data o)) (option_data o))).
    2: { split; [by apply get_range_middle|]. rewrite !zlen_app, !zlen_be_bytes. lia. }
    cbn [map_err mbind result_bind]. rewrite parse_option_data by done.
    cbn [mbind result_bind]. rewrite <- zlen_app.
    replace ((pre ++ be_bytes 2 (code o) ++ be_bytes 2 (zlen (option_data o))) ++ option_data o)
      with (pre ++ option_wire o)
      by (unfold option_wire; rewrite Hw; by rewrite <- !app_assoc).
    rewrite app_assoc. rewrite IH; [|lia|rewrite !zlen_app; lia].
    rewrite <- app_assoc. done.
Qed.

Lemma length_options_wire os : (length os <= length (flat_map option_wire os))%nat.
Proof.
  induction os as [|o os IH]; [done|]. cbn [flat_map length]. rewrite length_app.
  pose proof (zlen_option_wire o). pose proof (zlen_nonneg (option_data o)). unfold zlen in *. lia.
Qed.

Lemma parse_options_wire os :
  Forall opt_ok os -> zlen (flat_map option_wire os) <= usize_max ->
  parse_options (flat_map option_wire os) = Ok (normal <$> os).
Proof.
  intros H Hm. unfold parse_options.
  apply (parse_options_loop_wire os []); [done| |done]. pose proof (length_options_wire os). lia.
Qed.

Definition is_padding (o : EdnsOption) : bool := match o with OptPadding _ => true | _ => false end.

Lemma option_wire_of_parse c data o :
  is_u16 c -> bytes data -> zlen data <= u16_max -> parse_option c data = Ok o ->
  opt_ok o /\
  (is_padding o = false -> option_wire o = be_bytes 2 c ++ be_bytes 2 (zlen data) ++ data).
Proof.
  intros Hc Hb Hl H. destruct (parse_option_ok c data o Hc Hb Hl H) as (Ho & Hco & Hd).
  split; [done|]. intros Hp. destruct Hd as [Hd| ->]; [|done].
  unfold option_wire. rewrite Hd, Hco. unfold wrap, u16_max in *. len_facts.
  by rewrite Z.mod_small by lia.
Qed.

Lemma parse_options_loop_sound fuel pre rest acc os :
  bytes rest -> Forall opt_ok acc ->
  parse_options_loop fuel (pre ++ rest) (zlen pre) acc = Ok os ->
  exists os', os = acc ++ os' /\ Forall opt_ok os' /\
    (existsb is_padding os' = false -> flat_map option_wire os' = rest).
Proof.
  intros Hb. revert pre rest acc Hb.
  induction fuel as [|fuel IH]; intros pre rest acc Hb Ha; cbn [parse_options_loop]; [done|].
  destruct (_ <=? _) eqn:E; bools.
  { intros [= <-]. exists []. rewrite app_nil_r. split; [done|]. split; [constructor|].
    intros _. symmetry. apply zlen_0. lens. }
  intros (c & Hc%map_err_Ok & H)%bind_Ok. apply bind_Ok in H as (n & Hn%map_err_Ok & H).
  apply bind_Ok in H as (data & Hd%map_err_Ok & H). apply bind_Ok in H as (o & Ho & H).
  apply u16_at_inv in Hc as (r1 & -> & Hc); [|done].
  apply Forall_app in Hb as [Hb0 Hb].
  replace (zlen pre + 2) with (zlen (pre ++ be_bytes 2 c)) in Hn by lens.
  rewrite app_assoc in Hn. apply u16_at_inv in Hn as (r2 & -> & Hn); [|done].
  apply Forall_app in Hb as [_ Hb].
  replace (zlen pre + 4) with (zlen (pre ++ be_bytes 2 c ++ be_bytes 2 n)) in * by lens.
  replace (pre ++ be_bytes 2 c ++ be_bytes 2 n ++ r2)
    with ((pre ++ be_bytes 2 c ++ be_bytes 2 n) ++ r2) in * by (by rewrite <- !app_assoc).
  apply slice_at_inv in Hd as (r3 & -> & Hd). apply Forall_app in Hb as [Hbd Hb].
  subst n. rewrite <- zlen_app, app_assoc in H.
  assert (zlen data <= u16_max) by (unfold is_u16, u16_max in *; lia).
  destruct (option_wire_of_parse c data o) as [Hoo Hw]; [done..|].
  apply IH in H as (os' & -> & Hos & Hpad); [|done|].
  2: { apply Forall_app. split; [done|]. by constructor. }
  exists (o :: os'). rewrite <- app_assoc. split; [done|]. split; [by constructor|].
  cbn [existsb flat_map]. intros [Hp1 Hp2]%orb_false_elim.
  rewrite Hw, Hpad by done. by rewrite <- !app_assoc.
Qed.

(** ** Lemmas: the TTL field *)

Lemma ttl_field_spec e :
  is_byte (ext_rcode e) -> is_byte (version e) ->
  ttl_field e = ext_rcode e * 2 ^ 24 + version e * 2 ^ 16 + (if dnssec_ok e then 2 ^ 15 else 0).
Proof.
  intros Hr Hv. unfold ttl_field, wrap, is_byte in *.
  rewrite !Z.shiftl_mul_pow2 by lia. rewrite Z.mod_small by lia.
  assert (Hdis : forall a b n, 0 <= n -> 0 <= a -> 0 <= b < 2 ^ n -> Z.lor (a * 2 ^ n) b = a * 2 ^ n + b).
  { intros a b n Hn Ha Hb. rewrite <- Z.lxor_lor; [symmetry; apply Z.add_nocarry_lxor|].
    all: apply Z.bits_inj'; intros m Hm; rewrite Z.land_spec, Z.bits_0;
      destruct (Z.lt_ge_cases m n) as [Hmn|Hmn];
      [by rewrite Z.mul_pow2_bits_low|].
    all: rewrite <- (Z.mod_small b (2 ^ n)), Z.mod_pow2_bits_high by lia; apply andb_false_r. }
  replace (ext_rcode e * 2 ^ 24) with (ext_rcode e * 2 ^ 8 * 2 ^ 16) by lia.
  replace (version e * 2 ^ 16) with (0 + version e * 2 ^ 16) at 1 by lia.
  rewrite Z.add_0_l.
  replace (Z.lor (ext_rcode e * 2 ^ 8 * 2 ^ 16) (version e * 2 ^ 16))
    with ((ext_rcode e * 2 ^ 8 + version e) * 2 ^ 16).
  2: { rewrite <- (Hdis (ext_rcode e) (version e) 8) by lia.
       rewrite <- !Z.shiftl_mul_pow2 by lia. by rewrite Z.shiftl_lor. }
  destruct (dnssec_ok e); [|lia]. rewrite (Hdis _ 0x8000 16) by lia. lia.
Qed.

Lemma ttl_field_bits e :
  is_byte (ext_rcode e) -> is_byte (version e) ->
  Z.land (Z.shiftr (ttl_field e) 24) 0xff = ext_rcode e /\
  Z.land (Z.shiftr (ttl_field e) 16) 0xff = version e /\
  negb (Z.land (ttl_field e) 0x8000 =? 0) = dnssec_ok e.
Proof.
  intros Hr Hv. rewrite !ttl_field_spec by done. unfold is_byte in *.
  change 0xff with (Z.ones 8). change 0x8000 with (2 ^ 15).
  rewrite !Z.land_ones, !Z.shiftr_div_pow2, land_pow2, testbit_div by lia.
  set (d := if dnssec_ok e then 2 ^ 15 else 0).
  assert (Hd : d = 2 ^ 15 * (if dnssec_ok e then 1 else 0)) by (unfold d; destruct (dnssec_ok e); lia).
  assert (H24 : (ext_rcode e * 2 ^ 24 + version e * 2 ^ 16 + d) / 2 ^ 24 = ext_rcode e).
  { symmetry. apply (Z.div_unique _ _ _ (version e * 2 ^ 16 + d)); [|lia].
    destruct (dnssec_ok e); lia. }
  assert (H16 : (ext_rcode e * 2 ^ 24 + version e * 2 ^ 16 + d) / 2 ^ 16 = ext_rcode e * 256 + version e).
  { symmetry. apply (Z.div_unique _ _ _ d); [|lia]. destruct (dnssec_ok e); lia. }
  assert (H15 : (ext_rcode e * 2 ^ 24 + version e * 2 ^ 16 + d) / 2 ^ 15 =
    (ext_rcode e * 256 + version e) * 2 + (if dnssec_ok e then 1 else 0)).
  { symmetry. apply (Z.div_unique _ _ _ 0); lia. }
  rewrite H24, H16, H15. change (2 ^ 8) with 256.
  rewrite (Z.add_comm (ext_rcode e * 256)), Z.mod_add, !Z.mod_small by lia.
  split; [done|]. split; [done|].
  rewrite Z.add_comm, Z.mod_add by lia. by destruct (dnssec_ok e).
Qed.

(** ** Properties *)

(** an EDNS record survives its wire form: parsing the class, TTL and
    option payload it serialises to yields the same record, except that a
    padding option comes back empty (its octets are never written). *)
Theorem edns_round_trip e :
  edns_ok e -> zlen (options_wire e) <= usize_max ->
  edns_parse (udp_payload_size e) (ttl_field e) (options_wire e) =
  Ok (mkEdns (udp_payload_size e) (ext_rcode e) (version e) (dnssec_ok e) (normal <$> options e)).
Proof.
  intros (_ & Hr & Hv & Ho) Hm. unfold edns_parse.
  unfold options_wire in *. rewrite parse_options_wire by done. cbn [mbind result_bind].
  destruct (ttl_field_bits e Hr Hv) as (-> & -> & ->). done.
Qed.

Lemma edns_round_trip_witness :
  let e := mkEdns 1232 1 0 true [OptCookie [1; 2; 3; 4; 5; 6; 7; 8] [9]; OptPadding 3;
             OptEcs (mkEcs 1 20 0 [10; 1; 16])] in
  edns_parse (udp_payload_size e) (ttl_field e) (options_wire e) =
  Ok (mkEdns 1232 1 0 true [OptCookie [1; 2; 3; 4; 5; 6; 7; 8] [9]; OptPadding 0;
        OptEcs (mkEcs 1 20 0 [10; 1; 16])]).
Proof.
  cbn zeta. apply (edns_round_trip (mkEdns 1232 1 0 true
    [OptCookie [1; 2; 3; 4; 5; 6; 7; 8] [9]; OptPadding 3; OptEcs (mkEcs 1 20 0 [10; 1; 16])])).
  - split; [done|]. split; [done|]. split; [done|].
    assert (Hb : forall l : list Z, forallb (fun b => (0 <=? b) && (b <? 256)) l = true -> bytes l).
    { intros l. rewrite forallb_forall, List.Forall_forall. intros H x Hx%H. unfold is_byte. lia. }
    constructor; [|constructor; [|constructor; [|constructor]]].
    + split; [vm_compute; discriminate|]. split; [by apply Hb|reflexivity].
    + split; [vm_compute; discriminate|]. split; [by apply Hb|done].
    + split; [vm_compute; discriminate|]. split; [by apply Hb|].
      exists 32. split; [by left|]. split; [done|]. split; [done|]. split; [done|].
      split; [by apply Hb|]. right. reflexivity.
  - vm_compute. discriminate.
Defined.

(** every option list the parser accepts is well formed (canonical client
    subnets included), and serialising it gives back the very octets that were
    parsed, unless it contains a padding option. *)
Theorem parse_options_exact rdata os :
  bytes rdata -> parse_options rdata = Ok os ->
  Forall opt_ok os /\
  (existsb is_padding os = false -> flat_map option_wire os = rdata).
Proof.
  intros Hb H. unfold parse_options in H.
  apply (parse_options_loop_sound _ [] rdata) in H as (os' & -> & Ho & Hw); [|done|constructor].
  done.
Qed.

Lemma parse_options_exact_witness :
  let rdata := [0; 8; 0; 7; 0; 1; 20; 0; 10; 1; 16; 0; 3; 0; 1; 65] in
  let os := [OptEcs (mkEcs 1 20 0 [10; 1; 16]); OptNsid [65]] in
  parse_options rdata = Ok os /\ flat_map option_wire os = rdata.
Proof.
  cbn zeta. split; [reflexivity|].
  apply (parse_options_exact [0; 8; 0; 7; 0; 1; 20; 0; 10; 1; 16; 0; 3; 0; 1; 65]
    [OptEcs (mkEcs 1 20 0 [10; 1; 16]); OptNsid [65]]); [|reflexivity|reflexivity].
  rewrite List.Forall_forall. intros b Hb. cbn in Hb. unfold is_byte. lia.
Defined.

(** a client subnet built from an address is canonical: the address is cut
    to the octets of the prefix and its bits beyond the prefix are zero, so
    the option it serialises to is accepted and read back unchanged. *)
Theorem ecs_build_round_trip octets prefix e :
  bytes octets -> 0 <= prefix ->
  (ecs_ipv4 octets prefix = Ok e \/ ecs_ipv6 octets prefix = Ok e) ->
  ecs_ok e /\ address e = mask octets prefix /\ ecs_parse (ecs_to_wire e) = Ok e.
Proof.
  intros Hb Hp H.
  assert (ecs_ok e /\ address e = mask octets prefix) as [Hok Ha].
  { destruct H as [H|H]; apply bind_Ok in H as (? & Hg%reject_if_Ok & [= <-]); bools.
    - split; [|done]. apply (ecs_build_ok 1 32); [by left|done|lia].
    - split; [|done]. apply (ecs_build_ok 2 128); [by right|done|lia]. }
  split; [done|]. split; [done|]. by apply ecs_parse_to_wire.
Qed.

Lemma ecs_build_round_trip_witness :
  ecs_ipv4 [192; 168; 255; 255] 22 = Ok (mkEcs 1 22 0 [192; 168; 252]) /\
  ecs_parse (ecs_to_wire (mkEcs 1 22 0 [192; 168; 252])) = Ok (mkEcs 1 22 0 [192; 168; 252]).
Proof.
  split; [reflexivity|].
  apply (ecs_build_round_trip [192; 168; 255; 255] 22); [|done|left; reflexivity].
  rewrite List.Forall_forall. intros b Hb. cbn in Hb. unfold is_byte. lia.
Defined.
