(* ===== verification/Bitmap.v ===== *)
(** * NSEC/NSEC3 type bitmaps ([src/rdata.rs], RFC 4034 4.1.2)

    The reader and the writer of the type bitmap, and the round trip: what is
    read back is the sorted, duplicate-free list of the types written. *)
From stdpp Require Import sorting.
From S2P Require Import Prelude Wire Name Qtype.

(** ** Reading *)

(** [byte & (0x80 >> bit) != 0] for the eight bits of an octet. *)
Definition bits_of (byte : Z) : list Z :=
  List.filter (fun bit => negb (Z.land byte (Z.shiftr 0x80 bit) =? 0)) [0; 1; 2; 3; 4; 5; 6; 7].

Fixpoint window_types (window i : Z) (window_bytes : list Z) : list Z :=
  match window_bytes with
  | [] => []
  | byte :: rest =>
      map (fun bit => window * 256 + i * 8 + bit) (bits_of byte) ++ window_types window (i + 1) rest
  end.

(** The window loop; every window takes at least three octets. *)
Fixpoint parse_type_bitmap_loop (fuel : nat) (buf : list Z) (pos end_ : Z) (types : list Z)
    : result Error (list Z * Z) :=
  match fuel with
  | O => Err (internal "out of fuel")
  | S fuel' =>
      if end_ <=? pos then Ok (types, pos)
      else
        _ ← reject_if (end_ <? pos + 2) (wire "type bitmap window truncated");
        window ← map_err (fun _ => wire "type bitmap window truncated") (byte_at buf pos);
        len ← map_err (fun _ => wire "type bitmap window truncated") (byte_at buf (pos + 1));
        let pos := pos + 2 in
        _ ← reject_if ((len =? 0) || (32 <? len) || (end_ <? pos + len))
              (wire "type bitmap window length invalid");
        window_bytes ← ok_or (get_range buf pos (pos + len)) (wire "type bitmap window truncated");
        parse_type_bitmap_loop fuel' buf (pos + len) end_ (types ++ window_types window 0 window_bytes)
  end.

Definition parse_type_bitmap (buf : list Z) (pos end_ : Z) : result Error (list Z * Z) :=
  parse_type_bitmap_loop (S (Z.to_nat (end_ - pos))) buf pos end_ [].

(** ** Writing *)

(** [Vec::dedup]: drop an element equal to the one before it. *)
Fixpoint dedup (l : list Z) : list Z :=
  match l with
  | x :: l' =>
      match l' with
      | y :: _ => if x =? y then dedup l' else x :: dedup l'
      | [] => [x]
      end
  | [] => []
  end.

Definition sort_dedup (types : list Z) : list Z := dedup (merge_sort Z.le types).

Definition set_bit (bs : list Z) (idx : nat) (bit : Z) : list Z :=
  alter (fun slot => Z.lor slot (Z.shiftr 0x80 bit)) idx bs.

Fixpoint update_window (windows : list (Z * list Z * Z)) (window : Z) (idx bit : Z)
    : option (list (Z * list Z * Z)) :=
  match windows with
  | [] => None
  | (w, bs, used) :: ws =>
      if w =? window
      then Some ((w, set_bit bs (Z.to_nat idx) bit, Z.max used (idx + 1)) :: ws)
      else cons (w, bs, used) <$> update_window ws window idx bit
  end.

Definition add_type (windows : list (Z * list Z * Z)) (t : Z) : list (Z * list Z * Z) :=
  let window := wrap 8 (Z.shiftr t 8) in
  let idx := Z.land t 0xff / 8 in
  let bit := Z.land t 0xff mod 8 in
  match update_window windows window idx bit with
  | Some ws => ws
  | None => windows ++ [(window, set_bit (replicate 32 0) (Z.to_nat idx) bit, idx + 1)]
  end.

Definition window_wire (w : Z * list Z * Z) : list Z :=
  let '(window, bs, used) := w in
  [window] ++ [wrap 8 used] ++ capped bs used.

Definition write_type_bitmap (out types : list Z) : list Z :=
  if bool_decide (types = []) then out
  else
    let windows := fold_left add_type (sort_dedup types) [] in
    out ++ flat_map window_wire windows.

Example bitmap_rfc4034 :
  write_type_bitmap [] [1; 15; 46; 47; 1234] =
  [0; 6; 0x40; 0x01; 0x00; 0x00; 0x00; 0x03;
   4; 27; 0; 0; 0; 0; 0; 0; 0; 0; 0; 0; 0; 0; 0; 0; 0; 0; 0; 0; 0; 0; 0; 0; 0; 0; 0; 0; 0x20].
Proof. vm_compute. reflexivity. Qed.

(** ** Specification: a window as a set of types *)

(** The bit of type number [j] (within a window) in its bytes. *)
Definition has_bit (bs : list Z) (j : Z) : bool :=
  match bs !! Z.to_nat (j / 8) with
  | Some byte => negb (Z.land byte (Z.shiftr 0x80 (j mod 8)) =? 0)
  | None => false
  end.

Definition window_ok (w : Z * list Z * Z) : Prop :=
  let '(window, bs, used) := w in
  is_byte window /\ length bs = 32%nat /\ bytes bs /\ 1 <= used <= 32 /\
  (forall j, 0 <= j -> has_bit bs j = true -> j < 8 * used).

(** The types of the windows. *)
Definition in_windows (ws : list (Z * list Z * Z)) (t : Z) : Prop :=
  exists w bs used, In (w, bs, used) ws /\ w = t / 256 /\ has_bit bs (t mod 256) = true.

Definition win (w : Z * list Z * Z) : Z := w.1.1.

(** ** Lemmas: sorting and deduplication *)

Lemma dedup_In x l : In x (dedup l) <-> In x l.
Proof.
  induction l as [|a [|b l] IH]; [done..|]. cbn [dedup] in *.
  destruct (Z.eqb_spec a b) as [->|].
  - rewrite IH. cbn. tauto.
  - cbn [In] in *. rewrite IH. tauto.
Qed.

Lemma dedup_sorted l : StronglySorted Z.le l -> StronglySorted Z.lt (dedup l).
Proof.
  induction 1 as [|a l Hs IH Ha]; [constructor|]. destruct l as [|b l]; [by repeat constructor|].
  cbn [dedup] in *. destruct (Z.eqb_spec a b) as [->|Hne]; [done|]. constructor; [done|].
  rewrite List.Forall_forall in *. intros x Hx%(dedup_In x (b :: l)).
  assert (b <= x); [|specialize (Ha b ltac:(by left)); lia].
  destruct Hx as [->|Hx]; [lia|]. apply StronglySorted_inv in Hs as [_ Hb].
  rewrite List.Forall_forall in Hb. by apply Hb.
Qed.

Lemma sort_dedup_sorted ts : StronglySorted Z.lt (sort_dedup ts).
Proof. apply dedup_sorted. apply (StronglySorted_merge_sort Z.le). Qed.

Lemma sort_dedup_In ts x : In x (sort_dedup ts) <-> In x ts.
Proof.
  unfold sort_dedup. rewrite dedup_In. pose proof (merge_sort_Permutation Z.le ts) as H.
  split; apply Permutation_in; [done|by symmetry].
Qed.

Lemma sorted_lt_ext l1 l2 :
  StronglySorted Z.lt l1 -> StronglySorted Z.lt l2 -> (forall x, In x l1 <-> In x l2) -> l1 = l2.
Proof.
  intros H1. revert l2. induction H1 as [|a l1 H1 IH Ha]; intros l2 H2 Hin.
  - destruct l2 as [|b l2]; [done|]. destruct (proj2 (Hin b)). by left.
  - destruct H2 as [|b l2 H2 Hb]; [destruct (proj1 (Hin a)); by left|].
    rewrite List.Forall_forall in Ha, Hb.
    assert (a = b) as ->.
    { destruct (proj1 (Hin a)) as [|Hx1]; [by left|done|].
      destruct (proj2 (Hin b)) as [|Hx2]; [by left|done|].
      specialize (Ha _ Hx2). specialize (Hb _ Hx1). lia. }
    f_equal. apply IH; [done|]. intros x. split; intros Hx.
    + destruct (proj1 (Hin x)) as [->|]; [by right| |done]. specialize (Ha _ Hx). lia.
    + destruct (proj2 (Hin x)) as [->|]; [by right| |done]. specialize (Hb _ Hx). lia.
Qed.

Lemma sorted_app l1 l2 :
  StronglySorted Z.lt l1 -> StronglySorted Z.lt l2 ->
  (forall x y, In x l1 -> In y l2 -> x < y) -> StronglySorted Z.lt (l1 ++ l2).
Proof.
  induction 1 as [|a l1 H1 IH Ha]; intros H2 H; [done|]. cbn [app]. constructor.
  - apply IH; [done|]. intros x y Hx. apply H. by right.
  - apply Forall_app. split; [done|]. apply List.Forall_forall. intros y Hy. apply H; [by left|done].
Qed.

(** ** Lemmas: the bits of one octet *)

Definition bit_set (byte bit : Z) : bool := negb (Z.land byte (Z.shiftr 0x80 bit) =? 0).

Lemma bits_of_In byte bit : In bit (bits_of byte) <-> 0 <= bit < 8 /\ bit_set byte bit = true.
Proof.
  unfold bits_of. rewrite filter_In. fold (bit_set byte bit). cbn [In].
  split; [intros [H ?]; split; [lia|done]|intros [H ?]; split; [lia|done]].
Qed.

Lemma set_bit_byte slot bit bit' :
  is_byte slot -> 0 <= bit < 8 -> 0 <= bit' < 8 ->
  is_byte (Z.lor slot (Z.shiftr 0x80 bit)) /\
  bit_set (Z.lor slot (Z.shiftr 0x80 bit)) bit' = (bit_set slot bit' || (bit =? bit')).
Proof.
  intros Hs Hb Hb'.
  pose proof (byte_forall (fun s => forallb (fun b => forallb (fun b' =>
    (0 <=? Z.lor s (Z.shiftr 0x80 b)) && (Z.lor s (Z.shiftr 0x80 b) <? 256) &&
    Bool.eqb (bit_set (Z.lor s (Z.shiftr 0x80 b)) b') (bit_set s b' || (b =? b')))
    (seqZ 0 8)) (seqZ 0 8)) ltac:(vm_compute; reflexivity) slot Hs) as H.
  cbn beta in H. rewrite forallb_forall in H.
  specialize (H bit ltac:(apply list_elem_of_In, elem_of_seqZ; lia)).
  rewrite forallb_forall in H.
  specialize (H bit' ltac:(apply list_elem_of_In, elem_of_seqZ; lia)).
  bools. split; [unfold is_byte; lia|]. by apply Bool.eqb_prop.
Qed.

Lemma bits_of_sorted byte : StronglySorted Z.lt (bits_of byte).
Proof.
  unfold bits_of. assert (H : StronglySorted Z.lt [0; 1; 2; 3; 4; 5; 6; 7])
    by (repeat (constructor; [|repeat (constructor; [lia|]); constructor]); constructor).
  induction H as [|a l H IH Ha]; cbn; [constructor|]. destruct (negb _); [|done].
  constructor; [done|]. rewrite List.Forall_forall in *. intros x [Hx _]%filter_In. by apply Ha.
Qed.

(** ** Lemmas: one window *)

Lemma window_types_In w i bs x :
  In x (window_types w i bs) <->
  exists k byte bit, bs !! k = Some byte /\ 0 <= bit < 8 /\ bit_set byte bit = true /\
    x = w * 256 + (i + Z.of_nat k) * 8 + bit.
Proof.
  revert i. induction bs as [|b bs IH]; intros i; cbn [window_types].
  { split; [done|]. intros (? & ? & ? & H & _). by rewrite lookup_nil in H. }
  rewrite in_app_iff, in_map_iff, IH. split.
  - intros [(bit & <- & Hb)|(k & byte & bit & Hk & Hb & Hs & ->)].
    + apply bits_of_In in Hb as [? ?]. exists 0%nat, b, bit. repeat split; try done; lia.
    + exists (S k), byte, bit. repeat split; try done; lia.
  - intros ([|k] & byte & bit & Hk & Hb & Hs & ->).
    + injection Hk as ->. left. exists bit. rewrite bits_of_In. split; [lia|done].
    + right. exists k, byte, bit. repeat split; try done; lia.
Qed.

Lemma window_types_sorted w i bs : StronglySorted Z.lt (window_types w i bs).
Proof.
  revert i. induction bs as [|b bs IH]; intros i; cbn [window_types]; [constructor|].
  apply sorted_app; [|apply IH|].
  - assert (H := bits_of_sorted b).
    induction H as [|a l H IHl Ha]; cbn [map]; [constructor|].
    constructor; [done|]. rewrite List.Forall_forall in *. intros x (y & <- & Hy)%in_map_iff.
    specialize (Ha y Hy). lia.
  - intros x y (bit & <- & [Hb _]%bits_of_In)%in_map_iff
      (k & byte & bit' & _ & Hb' & _ & ->)%window_types_In. lia.
Qed.

(** A window written with its trailing zero octets cut off reads back as the
    types whose bit is set. *)
Lemma window_types_capped w bs used x :
  window_ok (w, bs, used) ->
  In x (window_types w 0 (take (Z.to_nat used) bs)) <-> w = x / 256 /\ has_bit bs (x mod 256) = true.
Proof.
  intros (Hw & Hl & Hb & Hu & Hbit). rewrite window_types_In. unfold has_bit in *. split.
  - intros (k & byte & bit & Hk & Hbit' & Hs & ->).
    pose proof (lookup_lt_Some _ _ _ Hk) as Hlt. rewrite length_take in Hlt.
    rewrite lookup_take_lt in Hk by lia.
    assert (E : w * 256 + (0 + Z.of_nat k) * 8 + bit = w * 256 + (Z.of_nat k * 8 + bit)) by lia.
    rewrite E. split.
    + rewrite Z.add_comm, Z.div_add, Z.div_small by lia. lia.
    + rewrite Z.add_comm, Z.mod_add, Z.mod_small by lia.
      replace ((Z.of_nat k * 8 + bit) / 8) with (Z.of_nat k)
        by (rewrite Z.add_comm, Z.div_add, Z.div_small by lia; lia).
      replace ((Z.of_nat k * 8 + bit) mod 8) with bit
        by (rewrite Z.add_comm, Z.mod_add, Z.mod_small by lia; lia).
      by rewrite Nat2Z.id, Hk.
  - intros [-> Hx]. pose proof (Z.mod_pos_bound x 256 ltac:(lia)) as Hm.
    specialize (Hbit (x mod 256) ltac:(lia) Hx).
    pose proof (Z.div_mod (x mod 256) 8 ltac:(lia)). pose proof (Z.mod_pos_bound (x mod 256) 8 ltac:(lia)).
    pose proof (Z.div_pos (x mod 256) 8 ltac:(lia) ltac:(lia)).
    destruct (bs !! Z.to_nat (x mod 256 / 8)) as [byte|] eqn:Ek; [|done].
    exists (Z.to_nat (x mod 256 / 8)), byte, (x mod 256 mod 8).
    rewrite lookup_take_lt by lia. rewrite Z2Nat.id by lia.
    pose proof (Z.div_mod x 256 ltac:(lia)). repeat split; try done; lia.
Qed.

Lemma has_bit_set bs idx bit j :
  length bs = 32%nat -> bytes bs -> 0 <= idx < 32 -> 0 <= bit < 8 -> 0 <= j ->
  has_bit (set_bit bs (Z.to_nat idx) bit) j = (has_bit bs j || (idx * 8 + bit =? j)).
Proof.
  intros Hl Hb Hi Hbit Hj. unfold has_bit, set_bit.
  pose proof (Z.div_mod j 8 ltac:(lia)). pose proof (Z.mod_pos_bound j 8 ltac:(lia)).
  pose proof (Z.div_pos j 8 ltac:(lia) ltac:(lia)).
  destruct (Z.eq_dec idx (j / 8)) as [->|Hne].
  - destruct (lookup_lt_is_Some_2 bs (Z.to_nat (j / 8))) as [byte Hk]; [lia|].
    rewrite list_lookup_alter_eq, Hk. cbn [fmap option_fmap option_map].
    assert (Hbyte : is_byte byte) by (eapply Forall_lookup_1; [exact Hb|exact Hk]).
    destruct (set_bit_byte byte bit (j mod 8) Hbyte) as [_ E]; [lia|lia|].
    unfold bit_set in E. rewrite E. f_equal. apply Bool.eq_true_iff_eq.
    rewrite !Z.eqb_eq. lia.
  - rewrite list_lookup_alter_ne by lia.
    rewrite (proj2 (Z.eqb_neq (idx * 8 + bit) j)) by lia. by rewrite orb_false_r.
Qed.

Lemma set_bit_ok bs idx bit :
  length bs = 32%nat -> bytes bs -> 0 <= bit < 8 ->
  length (set_bit bs idx bit) = 32%nat /\ bytes (set_bit bs idx bit).
Proof.
  intros Hl Hb Hbit. unfold set_bit. rewrite length_alter. split; [done|].
  apply Forall_alter; [done|]. intros x _ Hx.
  apply (set_bit_byte x bit 0); [done|done|lia].
Qed.

(** ** Lemmas: the windows of a sorted list *)

Lemma land_ff x : Z.land x 0xff = x mod 256.
Proof. change 0xff with (Z.ones 8). by rewrite Z.land_ones. Qed.

Lemma window_of t : is_u16 t -> wrap 8 (Z.shiftr t 8) = t / 256 /\ is_byte (t / 256).
Proof.
  unfold is_u16, is_byte. intros H. rewrite Z.shiftr_div_pow2 by lia. change (2 ^ 8) with 256.
  assert (0 <= t / 256 < 256) by (split; [apply Z.div_pos|apply Z.div_lt_upper_bound]; lia).
  split; [|done]. unfold wrap. apply Z.mod_small. lia.
Qed.

Lemma window_add bs used t :
  window_ok (t / 256, bs, used) -> 0 <= t ->
  let idx := t mod 256 / 8 in
  let bs' := set_bit bs (Z.to_nat idx) (t mod 256 mod 8) in
  window_ok (t / 256, bs', Z.max used (idx + 1)) /\
  forall j, 0 <= j -> has_bit bs' j = (has_bit bs j || (t mod 256 =? j)).
Proof.
  intros (Hw & Hl & Hb & Hu & Hbit) Ht idx bs'.
  pose proof (Z.mod_pos_bound t 256 ltac:(lia)).
  pose proof (Z.div_mod (t mod 256) 8 ltac:(lia)). pose proof (Z.mod_pos_bound (t mod 256) 8 ltac:(lia)).
  assert (0 <= idx < 32) by (split; [apply Z.div_pos|apply Z.div_lt_upper_bound]; lia).
  destruct (set_bit_ok bs (Z.to_nat idx) (t mod 256 mod 8)) as [Hl' Hb']; [done|done|lia|].
  assert (Hh : forall j, 0 <= j -> has_bit bs' j = (has_bit bs j || (t mod 256 =? j))).
  { intros j Hj. unfold bs'. rewrite has_bit_set by (done || lia).
    by replace (idx * 8 + t mod 256 mod 8) with (t mod 256) by lia. }
  split; [|exact Hh].
  repeat split; try done; try lia; try apply Hw.
  intros j Hj Hs. rewrite Hh in Hs by done. apply orb_true_iff in Hs as [Hs|Hs].
  - specialize (Hbit j Hj Hs). lia.
  - bools. lia.
Qed.

Lemma has_bit_empty j : has_bit (replicate 32 0) j = false.
Proof.
  unfold has_bit. destruct (replicate 32 0 !! Z.to_nat (j / 8)) as [b|] eqn:E; [|done].
  apply lookup_replicate in E as [-> _]. by rewrite Z.land_0_l.
Qed.

Lemma window_new t :
  is_u16 t ->
  let idx := t mod 256 / 8 in
  let bs' := set_bit (replicate 32 0) (Z.to_nat idx) (t mod 256 mod 8) in
  window_ok (t / 256, bs', idx + 1) /\
  forall j, 0 <= j -> has_bit bs' j = (t mod 256 =? j).
Proof.
  intros Ht idx bs'. destruct (window_of t Ht) as [_ Hw].
  pose proof (Z.mod_pos_bound t 256 ltac:(lia)).
  pose proof (Z.div_mod (t mod 256) 8 ltac:(lia)). pose proof (Z.mod_pos_bound (t mod 256) 8 ltac:(lia)).
  assert (0 <= idx < 32) by (split; [apply Z.div_pos|apply Z.div_lt_upper_bound]; lia).
  assert (H0b : bytes (replicate 32 0)) by (by apply Forall_replicate).
  destruct (set_bit_ok (replicate 32 0) (Z.to_nat idx) (t mod 256 mod 8)) as [Hl' Hb'];
    [done|done|lia|].
  assert (Hh : forall j, 0 <= j -> has_bit bs' j = (t mod 256 =? j)).
  { intros j Hj. unfold bs'. rewrite has_bit_set by (done || lia). rewrite has_bit_empty.
    by replace (idx * 8 + t mod 256 mod 8) with (t mod 256) by lia. }
  split; [|exact Hh]. repeat split; try done; try lia; try apply Hw.
  intros j Hj Hs. rewrite Hh in Hs by done. bools. lia.
Qed.

(** The windows while a sorted list is added: ascending window numbers, and
    the bits set are the types added so far. *)
Definition windows_inv (ws : list (Z * list Z * Z)) (added : list Z) : Prop :=
  Forall window_ok ws /\ StronglySorted Z.lt (map win ws) /\
  (forall w, In w (map win ws) -> exists t, In t added /\ w = t / 256) /\
  (forall t, in_windows ws t <-> In t added).

Lemma update_window_None ws w idx bit :
  update_window ws w idx bit = None <-> ~ In w (map win ws).
Proof.
  induction ws as [|[[w' bs] used] ws IH]; cbn [update_window map In win fst]; [tauto|].
  destruct (Z.eqb_spec w' w) as [->|Hne].
  - split; [done|]. intros H. exfalso. apply H. by left.
  - destruct (update_window ws w idx bit); cbn.
    + split; [done|]. intros H. exfalso. apply H. right.
      destruct (in_dec Z.eq_dec w (map win ws)) as [|Hn]; [done|]. by apply IH in Hn.
    + split; [|done]. intros _ [?|?]; [done|]. by apply IH.
Qed.

Lemma update_window_Some ws w idx bit ws' :
  update_window ws w idx bit = Some ws' ->
  exists l r bs used, ws = l ++ (w, bs, used) :: r /\
    ws' = l ++ (w, set_bit bs (Z.to_nat idx) bit, Z.max used (idx + 1)) :: r.
Proof.
  revert ws'. induction ws as [|[[w' bs] used] ws IH]; cbn [update_window]; [done|]. intros ws'.
  destruct (Z.eqb_spec w' w) as [->|Hne].
  - intros [= <-]. by exists [], ws, bs, used.
  - destruct (update_window ws w idx bit) as [ws2|]; [|done]. intros [= <-].
    destruct (IH ws2 eq_refl) as (l & r & bs2 & used2 & -> & ->).
    by exists ((w', bs, used) :: l), r, bs2, used2.
Qed.

Lemma in_windows_app a b t : in_windows (a ++ b) t <-> in_windows a t \/ in_windows b t.
Proof.
  unfold in_windows. setoid_rewrite in_app_iff. split.
  - intros (w & bs & u & [?|?] & ?); [left|right]; eauto 10.
  - intros [(w & bs & u & ? & ?)|(w & bs & u & ? & ?)]; exists w, bs, u; auto.
Qed.

Lemma in_windows_one w bs u t :
  in_windows [(w, bs, u)] t <-> w = t / 256 /\ has_bit bs (t mod 256) = true.
Proof.
  unfold in_windows. split.
  - intros (w' & bs' & u' & [[= -> -> ->]|[]] & ?). done.
  - intros ?. exists w, bs, u. split; [by left|done].
Qed.

Lemma eq_div_mod a b : a / 256 = b / 256 -> a mod 256 = b mod 256 -> a = b.
Proof. intros. rewrite (Z.div_mod a 256), (Z.div_mod b 256) by lia. congruence. Qed.

Lemma add_type_inv ws added t :
  windows_inv ws added -> is_u16 t -> (forall x, In x added -> x < t) ->
  windows_inv (add_type ws t) (added ++ [t]).
Proof.
  intros (Hok & Hsort & Hwin & Hin) Ht Hlt. unfold add_type.
  destruct (window_of t Ht) as [-> Hw]. rewrite land_ff.
  destruct (update_window ws (t / 256) (t mod 256 / 8) (t mod 256 mod 8)) as [ws'|] eqn:E.
  - apply update_window_Some in E as (l & r & bs & used & -> & ->).
    apply Forall_app in Hok as [Hl Hr]. apply List.Forall_cons_iff in Hr as [Hw1 Hr].
    destruct (window_add bs used t Hw1) as [Hw2 Hbits]; [apply Ht|].
    split; [apply Forall_app; split; [done|by constructor]|]. split.
    { rewrite map_app in *. exact Hsort. }
    split.
    { rewrite map_app in *. intros w Hw'. destruct (Hwin w Hw') as (t' & ? & ?).
      exists t'. rewrite in_app_iff. auto. }
    intros x. specialize (Hin x).
    change ((t / 256, bs, used) :: r) with ([(t / 256, bs, used)] ++ r) in Hin.
    match goal with |- in_windows (l ++ ?y :: r) x <-> _ => change (y :: r) with ([y] ++ r) end.
    rewrite !in_windows_app, in_windows_one in *. rewrite Hbits by (apply Z.mod_pos_bound; lia).
    rewrite in_app_iff, <- Hin, orb_true_iff, Z.eqb_eq. cbn [In].
    split.
    + intros [?|[[? [?|?]]|?]]; [auto..|right; left; by apply eq_div_mod|auto].
    + intros [[?|[[? ?]|?]]|[->|[]]]; auto.
  - apply update_window_None in E. destruct (window_new t Ht) as [Hw2 Hbits].
    split; [apply Forall_app; split; [done|by constructor]|]. split.
    + rewrite map_app. apply sorted_app; [done|by repeat constructor|].
      intros x y Hx [<-|[]]. cbn [win fst].
      destruct (Hwin x Hx) as (t' & Ht' & ->). specialize (Hlt t' Ht').
      assert (t' / 256 <> t / 256) by congruence.
      pose proof (Z.div_le_mono t' t 256 ltac:(lia)). lia.
    + split.
      { rewrite map_app. setoid_rewrite in_app_iff. intros w [(t' & ? & ?)%Hwin|[<-|[]]];
          [by exists t'; auto|].
        exists t. cbn. auto. }
      intros x. rewrite in_windows_app, in_windows_one, in_app_iff, Hin.
      rewrite Hbits by (apply Z.mod_pos_bound; lia). rewrite Z.eqb_eq. cbn [In].
      split; [intros [?|[? ?]]; [auto|right; left; by apply eq_div_mod]|].
      intros [?|[->|[]]]; auto.
Qed.

Lemma fold_add_type_inv ts ws added :
  windows_inv ws added -> StronglySorted Z.lt (added ++ ts) -> Forall is_u16 ts ->
  windows_inv (fold_left add_type ts ws) (added ++ ts).
Proof.
  intros Hinv Hs Hu. revert ws added Hinv Hs.
  induction Hu as [|t ts Ht _ IH]; intros ws added Hinv Hs; cbn [fold_left].
  { by rewrite app_nil_r. }
  replace (added ++ t :: ts) with ((added ++ [t]) ++ ts) in * by (by rewrite <- app_assoc).
  apply IH; [|done]. apply add_type_inv; [done..|].
  intros x Hx. clear -Hs Hx. induction added as [|a added IHa]; [done|].
  cbn in Hs. apply StronglySorted_inv in Hs as [Hs Ha]. destruct Hx as [->|Hx]; [|auto].
  rewrite List.Forall_forall in Ha. apply Ha. rewrite !in_app_iff. cbn. auto.
Qed.

(** The types the reader collects from written windows. *)
Definition read_windows (ws : list (Z * list Z * Z)) : list Z :=
  flat_map (fun '(w, bs, used) => window_types w 0 (take (Z.to_nat used) bs)) ws.

Lemma read_windows_In ws t :
  Forall window_ok ws -> In t (read_windows ws) <-> in_windows ws t.
Proof.
  intros Hok. induction Hok as [|[[w bs] used] ws Hw _ IH]; cbn [read_windows flat_map].
  { split; [done|]. by intros (? & ? & ? & [] & _). }
  rewrite in_app_iff. fold (read_windows ws). rewrite IH, window_types_capped by done.
  change ((w, bs, used) :: ws) with ([(w, bs, used)] ++ ws).
  by rewrite in_windows_app, in_windows_one.
Qed.

Lemma read_windows_sorted ws :
  Forall window_ok ws -> StronglySorted Z.lt (map win ws) -> StronglySorted Z.lt (read_windows ws).
Proof.
  intros Hok. induction Hok as [|[[w bs] used] ws Hw Hok IH]; cbn [read_windows flat_map map];
    intros Hs; [constructor|].
  apply StronglySorted_inv in Hs as [Hs Hlt]. apply sorted_app; [apply window_types_sorted|by apply IH|].
  intros x y Hx Hy. apply window_types_capped in Hx as [-> _]; [|done].
  apply (read_windows_In ws y Hok) in Hy as (w' & bs' & u' & Hin & -> & _).
  rewrite List.Forall_forall in Hlt.
  specialize (Hlt (y / 256)). cbn [win fst] in Hlt.
  assert (x / 256 < y / 256).
  { apply Hlt. apply in_map_iff. by exists (y / 256, bs', u'). }
  destruct (Z.lt_ge_cases x y); [done|]. pose proof (Z.div_le_mono y x 256 ltac:(lia) ltac:(lia)). lia.
Qed.

Lemma capped_take (bs : list Z) used :
  0 <= used <= zlen bs -> capped bs used = take (Z.to_nat used) bs.
Proof.
  intros H. unfold capped, get_range. decide_ifs. by rewrite Z.sub_0_r.
Qed.

Lemma zlen_window_wire w : window_ok w -> 3 <= zlen (window_wire w) <= 34 /\ bytes (window_wire w).
Proof.
  destruct w as [[w bs] used]. intros (Hw & Hl & Hb & Hu & _). unfold window_wire.
  rewrite capped_take by (unfold zlen; lia). unfold wrap. rewrite Z.mod_small by lia.
  rewrite !zlen_app, !zlen_cons, zlen_nil, zlen_take by (unfold zlen; lia).
  split; [lia|]. apply Forall_app. split; [by constructor|].
  apply Forall_app. split; [constructor; [unfold is_byte; lia|constructor]|]. by apply Forall_take.
Qed.

Lemma parse_windows ws buf p end_ fuel acc :
  Forall window_ok ws -> seg buf p (flat_map window_wire ws) ->
  end_ = p + zlen (flat_map window_wire ws) -> (length ws < fuel)%nat ->
  parse_type_bitmap_loop fuel buf p end_ acc = Ok (acc ++ read_windows ws, end_).
Proof.
  intros Hok. revert p fuel acc.
  induction Hok as [|[[w bs] used] ws Hw _ IH]; intros p [|fuel] acc Hseg He Hf;
    cbn [length] in Hf; try lia; cbn [parse_type_bitmap_loop flat_map] in *.
  { rewrite zlen_nil in He. rewrite (proj2 (Z.leb_le _ _)) by lia.
    cbn. by rewrite app_nil_r, He, Z.add_0_r. }
  destruct (zlen_window_wire _ Hw) as [Hz _]. rewrite zlen_app in He.
  pose proof (zlen_nonneg (flat_map window_wire ws)).
  apply seg_app in Hseg as [Hs1 Hs2]. pose proof Hw as (Hwb & Hl & Hb & Hu & _).
  assert (Hcap : capped bs used = take (Z.to_nat used) bs)
    by (apply capped_take; unfold zlen; lia).
  assert (Hzc : zlen (take (Z.to_nat used) bs) = used) by (rewrite zlen_take; [done|unfold zlen; lia]).
  assert (Hzw : zlen (window_wire (w, bs, used)) = 2 + used).
  { unfold window_wire. rewrite Hcap, !zlen_app, Hzc, !zlen_cons, zlen_nil. lia. }
  unfold window_wire in Hs1. unfold wrap in Hs1. rewrite Z.mod_small, Hcap in Hs1 by lia.
  apply seg_app in Hs1 as [Hb0 Hs1]. apply seg_app in Hs1 as [Hb1 Hs1].
  rewrite !zlen_cons, zlen_nil in *.
  rewrite (proj2 (Z.leb_gt _ _)) by lia. unfold reject_if at 1.
  rewrite (proj2 (Z.ltb_ge _ _)) by lia. cbn [mbind result_bind].
  rewrite (seg_byte buf p w) by done. cbn [map_err mbind result_bind].
  rewrite (seg_byte buf (p + 1) used) by done. cbn [map_err mbind result_bind].
  unfold reject_if. decide_ifs. cbn [mbind result_bind].
  replace (p + (1 + 0) + (1 + 0)) with (p + 2) in Hs1 by lia.
  unfold seg in Hs1. rewrite Hzc in Hs1. rewrite Hs1. cbn [ok_or mbind result_bind].
  replace (p + 2 + used) with (p + zlen (window_wire (w, bs, used))) by lia.
  rewrite IH; [|done|lia|lia]. by rewrite <- app_assoc.
Qed.

(** ** The round trip *)

Lemma write_type_bitmap_spec types :
  Forall is_u16 types ->
  exists w, (forall out, write_type_bitmap out types = out ++ w) /\ bytes w /\
    (forall buf p, seg buf p w ->
       parse_type_bitmap buf p (p + zlen w) = Ok (sort_dedup types, p + zlen w)).
Proof.
  intros Hu. unfold write_type_bitmap. case_bool_decide as E.
  { subst. exists []. split; [intros; by rewrite app_nil_r|]. split; [constructor|].
    intros buf p _. rewrite zlen_nil, Z.add_0_r. unfold parse_type_bitmap.
    cbn [parse_type_bitmap_loop]. by rewrite Z.leb_refl. }
  assert (Hinv : windows_inv (fold_left add_type (sort_dedup types) []) (sort_dedup types)).
  { apply (fold_add_type_inv (sort_dedup types) [] []).
    - split; [constructor|]. split; [constructor|]. split; [done|].
      intros t. split; [by intros (? & ? & ? & [] & _)|done].
    - apply sort_dedup_sorted.
    - apply List.Forall_forall. intros x Hx. rewrite List.Forall_forall in Hu.
      apply Hu. by apply (proj1 (sort_dedup_In types x)). }
  destruct Hinv as (Hok & Hsort & _ & Hin).
  set (ws := fold_left _ _ _) in *. exists (flat_map window_wire ws).
  split; [done|]. split.
  { clear -Hok. induction Hok as [|w ws Hw _ IH]; cbn [flat_map]; [constructor|].
    apply Forall_app. split; [by apply zlen_window_wire|done]. }
  intros buf p Hseg. unfold parse_type_bitmap.
  rewrite (parse_windows ws); [|done|done|done|].
  - do 2 f_equal. cbn [app]. apply sorted_lt_ext.
    + by apply read_windows_sorted.
    + apply sort_dedup_sorted.
    + intros x. rewrite read_windows_In by done. apply Hin.
  - assert (Hlen : Z.of_nat (length ws) <= zlen (flat_map window_wire ws)).
    { clear -Hok. induction Hok as [|w ws Hw _ IH]; [done|]. cbn [flat_map length].
      pose proof (zlen_window_wire w Hw). rewrite zlen_app. lia. }
    lia.
Qed.
