(* ===== verification/RData.v ===== *)
(** * Resource-record data ([src/rdata.rs])

    The typed RDATA of twenty record types, its parser and its serialiser.
    The parser works inside the whole message, since names may be compressed;
    it is split into one definition per record type, as the [match] of
    [RData::parse] is, over the bounded reads the source defines as closures. *)
From stdpp Require Import gmap.
From S2P Require Import Prelude Wire Prng Name Compress Qtype Bitmap.

Inductive RData :=
| RD_A (ip : list Z)
| RD_Aaaa (ip : list Z)
| RD_Cname (n : Name)
| RD_Dname (n : Name)
| RD_Ns (n : Name)
| RD_Ptr (n : Name)
| RD_Mx (preference : Z) (exchange : Name)
| RD_Soa (mname rname : Name) (serial refresh retry expire minimum : Z)
| RD_Txt (strings : list (list Z))
| RD_Srv (priority weight port : Z) (target : Name)
| RD_Naptr (order preference : Z) (flags services regexp : list Z) (replacement : Name)
| RD_Ds (key_tag : Z) (algorithm : DnssecAlgorithm) (digest_type : DsDigestType) (digest : list Z)
| RD_Dnskey (flags protocol : Z) (algorithm : DnssecAlgorithm) (public_key : list Z)
| RD_Rrsig (type_covered : RrType) (algorithm : DnssecAlgorithm) (labels original_ttl expiration
    inception key_tag : Z) (signer : Name) (signature : list Z)
| RD_Nsec (next : Name) (types : list RrType)
| RD_Nsec3 (hash_alg flags iterations : Z) (salt next_hashed : list Z) (types : list RrType)
| RD_Nsec3Param (hash_alg flags iterations : Z) (salt : list Z)
| RD_Caa (flags : Z) (tag value : list Z)
| RD_Tlsa (usage selector matching_type : Z) (data : list Z)
| RD_Svcb (priority : Z) (target : Name) (params : list (Z * list Z))
| RD_Unknown (data : list Z).

#[global] Instance RData_eq_dec : EqDecision RData.
Proof. solve_decision. Defined.

Definition rdata_truncated : Error := wire "RDATA truncated".

(** ** Bounded reads: the closures of [RData::parse] *)

Section fields.
Context (buf : list Z) (end_ : Z).

Definition need (pos n : Z) : result Error unit := reject_if (end_ - pos <? n) rdata_truncated.

Definition ru16 (p : Z) : result Error Z :=
  _ ← reject_if (end_ <? p + 2) rdata_truncated; u16_at buf p.

Definition ru32 (p : Z) : result Error Z :=
  _ ← reject_if (end_ <? p + 4) rdata_truncated; u32_at buf p.

Definition b_at (p : Z) : result Error Z :=
  _ ← reject_if (end_ <=? p) rdata_truncated;
  map_err (fun _ => rdata_truncated) (byte_at buf p).

Definition tail (p : Z) : result Error (list Z) :=
  _ ← reject_if (end_ <? p) rdata_truncated;
  ok_or (get_range buf p end_) rdata_truncated.

Definition read_name (p : Z) : result Error (Name * Z) :=
  '(n, next) ← from_wire buf p;
  _ ← reject_if (end_ <? next) (wire "name in RDATA overruns RDATA length");
  Ok (n, next).

Definition name_exact (p : Z) : result Error (Name * Z) :=
  '(n, p) ← read_name p;
  _ ← reject_if (negb (p =? end_)) (wire "trailing bytes after name in RDATA");
  Ok (n, p).

(** [buf.get(p..p + len)] after the test [p + len > end]. *)
Definition bounded (p len : Z) (msg : string) : result Error (list Z) :=
  _ ← reject_if (end_ <? p + len) (wire msg);
  ok_or (get_range buf p (p + len)) (wire msg).

Definition read_char_string (p : Z) : result Error (list Z * Z) :=
  _ ← reject_if (end_ <=? p) (wire "character-string truncated");
  l ← map_err (fun _ => wire "character-string truncated") (byte_at buf p);
  let p := p + 1 in
  s ← bounded p l "character-string truncated";
  Ok (s, p + l).

(** ** One definition per record type *)

Definition parse_a (pos : Z) : result Error (RData * Z) :=
  _ ← need pos 4;
  ip ← map_err (fun _ => rdata_truncated) (array_at 4 buf pos);
  Ok (RD_A ip, pos + 4).

Definition parse_aaaa (pos : Z) : result Error (RData * Z) :=
  _ ← need pos 16;
  oct ← map_err (fun _ => rdata_truncated) (array_at 16 buf pos);
  Ok (RD_Aaaa oct, pos + 16).

Definition parse_name (mk : Name -> RData) (pos : Z) : result Error (RData * Z) :=
  '(n, pos) ← name_exact pos;
  Ok (mk n, pos).

Definition parse_mx (pos : Z) : result Error (RData * Z) :=
  _ ← need pos 2;
  pref ← ru16 pos;
  let pos := pos + 2 in
  '(exchange, pos) ← name_exact pos;
  Ok (RD_Mx pref exchange, pos).

Definition parse_soa (pos : Z) : result Error (RData * Z) :=
  _ ← need pos 20;
  '(mname, pos) ← read_name pos;
  '(rname, pos) ← read_name pos;
  _ ← reject_if (end_ <? pos + 20) (wire "SOA RDATA truncated");
  serial ← ru32 pos;
  refresh ← ru32 (pos + 4);
  retry ← ru32 (pos + 8);
  expire ← ru32 (pos + 12);
  minimum ← ru32 (pos + 16);
  Ok (RD_Soa mname rname serial refresh retry expire minimum, pos + 20).

Fixpoint parse_txt_loop (fuel : nat) (pos : Z) (strings : list (list Z))
    : result Error (list (list Z) * Z) :=
  match fuel with
  | O => Err (internal "out of fuel")
  | S fuel' =>
      if end_ <=? pos then Ok (strings, pos)
      else
        l ← map_err (fun _ => wire "TXT string truncated") (byte_at buf pos);
        let pos := pos + 1 in
        s ← bounded pos l "TXT string truncated";
        parse_txt_loop fuel' (pos + l) (strings ++ [s])
  end.

(** Every string takes at least one octet. *)
Definition parse_txt (pos : Z) : result Error (RData * Z) :=
  '(strings, pos) ← parse_txt_loop (S (Z.to_nat (end_ - pos))) pos [];
  Ok (RD_Txt strings, pos).

Definition parse_srv (pos : Z) : result Error (RData * Z) :=
  _ ← need pos 6;
  priority ← ru16 pos;
  weight ← ru16 (pos + 2);
  port ← ru16 (pos + 4);
  let pos := pos + 6 in
  '(target, pos) ← name_exact pos;
  Ok (RD_Srv priority weight port target, pos).

Definition parse_naptr (pos : Z) : result Error (RData * Z) :=
  _ ← need pos 4;
  order ← ru16 pos;
  preference ← ru16 (pos + 2);
  let pos := pos + 4 in
  '(flags, pos) ← read_char_string pos;
  '(services, pos) ← read_char_string pos;
  '(regexp, pos) ← read_char_string pos;
  '(replacement, pos) ← name_exact pos;
  Ok (RD_Naptr order preference flags services regexp replacement, pos).

Definition parse_ds (pos : Z) : result Error (RData * Z) :=
  _ ← need pos 4;
  key_tag ← ru16 pos;
  algorithm ← b_at (pos + 2);
  digest_type ← b_at (pos + 3);
  let pos := pos + 4 in
  _ ← reject_if (end_ <? pos) (wire "DS digest truncated");
  digest ← tail pos;
  Ok (RD_Ds key_tag algorithm digest_type digest, end_).

Definition parse_dnskey (pos : Z) : result Error (RData * Z) :=
  _ ← need pos 4;
  flags ← ru16 pos;
  protocol ← b_at (pos + 2);
  algorithm ← b_at (pos + 3);
  let pos := pos + 4 in
  _ ← reject_if (end_ <? pos) (wire "DNSKEY public key truncated");
  public_key ← tail pos;
  Ok (RD_Dnskey flags protocol algorithm public_key, end_).

Definition parse_rrsig (pos : Z) : result Error (RData * Z) :=
  _ ← need pos 18;
  type_covered ← ru16 pos;
  algorithm ← b_at (pos + 2);
  labels ← b_at (pos + 3);
  original_ttl ← ru32 (pos + 4);
  expiration ← ru32 (pos + 8);
  inception ← ru32 (pos + 12);
  key_tag ← ru16 (pos + 16);
  let pos := pos + 18 in
  '(signer, pos) ← read_name pos;
  _ ← reject_if (end_ <? pos) (wire "RRSIG signature truncated");
  signature ← tail pos;
  Ok (RD_Rrsig type_covered algorithm labels original_ttl expiration inception key_tag
        signer signature, end_).

Definition parse_nsec (pos : Z) : result Error (RData * Z) :=
  '(next, pos) ← read_name pos;
  '(types, pos) ← parse_type_bitmap buf pos end_;
  Ok (RD_Nsec next types, pos).

Definition parse_nsec3 (pos : Z) : result Error (RData * Z) :=
  _ ← need pos 5;
  hash_alg ← b_at pos;
  flags ← b_at (pos + 1);
  iterations ← ru16 (pos + 2);
  salt_len ← b_at (pos + 4);
  let pos := pos + 5 in
  salt ← bounded pos salt_len "NSEC3 salt truncated";
  let pos := pos + salt_len in
  _ ← reject_if (end_ <=? pos) (wire "NSEC3 next-hashed length missing");
  next_len ← b_at pos;
  let pos := pos + 1 in
  next_hashed ← bounded pos next_len "NSEC3 next-hashed truncated";
  let pos := pos + next_len in
  '(types, pos) ← parse_type_bitmap buf pos end_;
  Ok (RD_Nsec3 hash_alg flags iterations salt next_hashed types, pos).

Definition parse_nsec3param (pos : Z) : result Error (RData * Z) :=
  _ ← need pos 5;
  hash_alg ← b_at pos;
  flags ← b_at (pos + 1);
  iterations ← ru16 (pos + 2);
  salt_len ← b_at (pos + 4);
  let pos := pos + 5 in
  salt ← bounded pos salt_len "NSEC3PARAM salt truncated";
  Ok (RD_Nsec3Param hash_alg flags iterations salt, pos + salt_len).

Definition parse_caa (pos : Z) : result Error (RData * Z) :=
  _ ← need pos 2;
  flags ← b_at pos;
  tag_len ← b_at (pos + 1);
  let pos := pos + 2 in
  tag ← bounded pos tag_len "CAA tag truncated";
  value ← tail (pos + tag_len);
  Ok (RD_Caa flags tag value, end_).

Definition parse_tlsa (pos : Z) : result Error (RData * Z) :=
  _ ← need pos 3;
  usage ← b_at pos;
  selector ← b_at (pos + 1);
  matching_type ← b_at (pos + 2);
  data ← tail (pos + 3);
  Ok (RD_Tlsa usage selector matching_type data, end_).

Fixpoint parse_svc_params (fuel : nat) (pos : Z) (params : list (Z * list Z))
    : result Error (list (Z * list Z) * Z) :=
  match fuel with
  | O => Err (internal "out of fuel")
  | S fuel' =>
      if end_ <=? pos then Ok (params, pos)
      else
        _ ← reject_if (end_ <? pos + 4) (wire "SVCB param header truncated");
        key ← ru16 pos;
        len ← ru16 (pos + 2);
        let pos := pos + 4 in
        value ← bounded pos len "SVCB param value truncated";
        parse_svc_params fuel' (pos + len) (params ++ [(key, value)])
  end.

Definition parse_svcb (pos : Z) : result Error (RData * Z) :=
  _ ← need pos 2;
  priority ← ru16 pos;
  let pos := pos + 2 in
  '(target, pos) ← read_name pos;
  '(params, pos) ← parse_svc_params (S (Z.to_nat (end_ - pos))) pos [];
  Ok (RD_Svcb priority target params, pos).

Definition parse_unknown (pos : Z) : result Error (RData * Z) :=
  data ← tail pos; Ok (RD_Unknown data, end_).
End fields.

(** [RData::parse]: the data and the cursor behind it. *)
Definition rdata_parse (buf : list Z) (pos end_ : Z) (rr_type : RrType) : result Error (RData * Z) :=
  _ ← reject_if (zlen buf <? end_) (wire "RDATA length exceeds message");
  _ ← reject_if (end_ <? pos) (wire "RDATA cursor past end");
  if rr_type =? RrTypes.A then parse_a buf end_ pos
  else if rr_type =? RrTypes.AAAA then parse_aaaa buf end_ pos
  else if rr_type =? RrTypes.CNAME then parse_name buf end_ RD_Cname pos
  else if rr_type =? RrTypes.DNAME then parse_name buf end_ RD_Dname pos
  else if rr_type =? RrTypes.NS then parse_name buf end_ RD_Ns pos
  else if rr_type =? RrTypes.PTR then parse_name buf end_ RD_Ptr pos
  else if rr_type =? RrTypes.MX then parse_mx buf end_ pos
  else if rr_type =? RrTypes.SOA then parse_soa buf end_ pos
  else if rr_type =? RrTypes.TXT then parse_txt buf end_ pos
  else if rr_type =? RrTypes.SRV then parse_srv buf end_ pos
  else if rr_type =? RrTypes.NAPTR then parse_naptr buf end_ pos
  else if (rr_type =? RrTypes.DS) || (rr_type =? RrTypes.CDS) then parse_ds buf end_ pos
  else if (rr_type =? RrTypes.DNSKEY) || (rr_type =? RrTypes.CDNSKEY) then parse_dnskey buf end_ pos
  else if (rr_type =? RrTypes.RRSIG) || (rr_type =? RrTypes.SIG) then parse_rrsig buf end_ pos
  else if rr_type =? RrTypes.NSEC then parse_nsec buf end_ pos
  else if rr_type =? RrTypes.NSEC3 then parse_nsec3 buf end_ pos
  else if rr_type =? RrTypes.NSEC3PARAM then parse_nsec3param buf end_ pos
  else if rr_type =? RrTypes.CAA then parse_caa buf end_ pos
  else if (rr_type =? RrTypes.TLSA) || (rr_type =? RrTypes.SMIMEA) then parse_tlsa buf end_ pos
  else if (rr_type =? RrTypes.SVCB) || (rr_type =? RrTypes.HTTPS) then parse_svcb buf end_ pos
  else parse_unknown buf end_ pos.

(** ** Serialising *)

(** The closure [name]: compressed when the caller supplies a table. *)
Definition put_name (n : Name) (out : list Z) (comp : option NameCompressor)
    : list Z * option NameCompressor :=
  match comp with
  | Some c => let '(c, out) := write c n out in (out, Some c)
  | None => (write_wire n out, None)
  end.

(** [s.len().min(255) as u8], then the capped string. *)
Definition write_char_string (out s : list Z) : list Z :=
  out ++ [wrap 8 (Z.min (zlen s) 255)] ++ capped s 255.

Definition svc_param_wire (p : Z * list Z) : list Z :=
  be_bytes 2 p.1 ++ be_bytes 2 (wrap 16 (Z.min (zlen p.2) 0xffff)) ++ capped p.2 0xffff.

(** The types without a compressible name. *)
Definition plain_to_wire (d : RData) (out : list Z) : list Z :=
  match d with
  | RD_A ip => out ++ ip
  | RD_Aaaa ip => out ++ ip
  | RD_Txt strings => fold_left write_char_string strings out
  | RD_Srv priority weight port target =>
      write_wire target (out ++ be_bytes 2 priority ++ be_bytes 2 weight ++ be_bytes 2 port)
  | RD_Naptr order preference flags services regexp replacement =>
      let out := out ++ be_bytes 2 order ++ be_bytes 2 preference in
      let out := write_char_string out flags in
      let out := write_char_string out services in
      let out := write_char_string out regexp in
      write_wire replacement out
  | RD_Ds key_tag algorithm digest_type digest =>
      out ++ be_bytes 2 key_tag ++ [algorithm] ++ [digest_type] ++ digest
  | RD_Dnskey flags protocol algorithm public_key =>
      out ++ be_bytes 2 flags ++ [protocol] ++ [algorithm] ++ public_key
  | RD_Rrsig type_covered algorithm labels original_ttl expiration inception key_tag signer signature =>
      let out := out ++ be_bytes 2 type_covered ++ [algorithm] ++ [labels] ++ be_bytes 4 original_ttl
        ++ be_bytes 4 expiration ++ be_bytes 4 inception ++ be_bytes 2 key_tag in
      write_wire signer out ++ signature
  | RD_Nsec next types => write_type_bitmap (write_wire next out) types
  | RD_Nsec3 hash_alg flags iterations salt next_hashed types =>
      let out := out ++ [hash_alg] ++ [flags] ++ be_bytes 2 iterations in
      let out := write_char_string out salt in
      let out := write_char_string out next_hashed in
      write_type_bitmap out types
  | RD_Nsec3Param hash_alg flags iterations salt =>
      write_char_string (out ++ [hash_alg] ++ [flags] ++ be_bytes 2 iterations) salt
  | RD_Caa flags tag value => write_char_string (out ++ [flags]) tag ++ value
  | RD_Tlsa usage selector matching_type data =>
      out ++ [usage] ++ [selector] ++ [matching_type] ++ data
  | RD_Svcb priority target params =>
      write_wire target (out ++ be_bytes 2 priority) ++ flat_map svc_param_wire params
  | RD_Unknown data => out ++ data
  | _ => out
  end.

Definition rdata_to_wire (d : RData) (out : list Z) (comp : option NameCompressor)
    : list Z * option NameCompressor :=
  match d with
  | RD_Cname n | RD_Dname n | RD_Ns n | RD_Ptr n => put_name n out comp
  | RD_Mx preference exchange => put_name exchange (out ++ be_bytes 2 preference) comp
  | RD_Soa mname rname serial refresh retry expire minimum =>
      let '(out, comp) := put_name mname out comp in
      let '(out, comp) := put_name rname out comp in
      (out ++ be_bytes 4 serial ++ be_bytes 4 refresh ++ be_bytes 4 retry ++ be_bytes 4 expire
         ++ be_bytes 4 minimum, comp)
  | d => (plain_to_wire d out, comp)
  end.

Definition rdata_wire_len (d : RData) : Z := zlen (fst (rdata_to_wire d [] None)).

Definition type_hint (d : RData) : option RrType :=
  match d with
  | RD_A _ => Some RrTypes.A
  | RD_Aaaa _ => Some RrTypes.AAAA
  | RD_Cname _ => Some RrTypes.CNAME
  | RD_Dname _ => Some RrTypes.DNAME
  | RD_Ns _ => Some RrTypes.NS
  | RD_Ptr _ => Some RrTypes.PTR
  | RD_Mx _ _ => Some RrTypes.MX
  | RD_Soa _ _ _ _ _ _ _ => Some RrTypes.SOA
  | RD_Txt _ => Some RrTypes.TXT
  | RD_Srv _ _ _ _ => Some RrTypes.SRV
  | RD_Naptr _ _ _ _ _ _ => Some RrTypes.NAPTR
  | RD_Ds _ _ _ _ => Some RrTypes.DS
  | RD_Dnskey _ _ _ _ => Some RrTypes.DNSKEY
  | RD_Rrsig _ _ _ _ _ _ _ _ _ => Some RrTypes.RRSIG
  | RD_Nsec _ _ => Some RrTypes.NSEC
  | RD_Nsec3 _ _ _ _ _ _ => Some RrTypes.NSEC3
  | RD_Nsec3Param _ _ _ _ => Some RrTypes.NSEC3PARAM
  | RD_Caa _ _ _ => Some RrTypes.CAA
  | RD_Tlsa _ _ _ _ => Some RrTypes.TLSA
  | RD_Svcb _ _ _ => Some RrTypes.SVCB
  | RD_Unknown _ => None
  end.

(** ** Specification *)

Definition cstr_ok (s : list Z) : Prop := zlen s <= 255 /\ bytes s.

Definition types_ok (types : list RrType) : Prop :=
  Forall is_u16 types /\ sort_dedup types = types.

(** The data the parser produces: fields in range, names well formed. *)
Definition rdata_ok (d : RData) : Prop :=
  match d with
  | RD_A ip => zlen ip = 4 /\ bytes ip
  | RD_Aaaa ip => zlen ip = 16 /\ bytes ip
  | RD_Cname n | RD_Dname n | RD_Ns n | RD_Ptr n => wf_name n
  | RD_Mx preference exchange => is_u16 preference /\ wf_name exchange
  | RD_Soa mname rname serial refresh retry expire minimum =>
      wf_name mname /\ wf_name rname /\ is_u32 serial /\ is_u32 refresh /\ is_u32 retry /\
      is_u32 expire /\ is_u32 minimum
  | RD_Txt strings => Forall cstr_ok strings
  | RD_Srv priority weight port target =>
      is_u16 priority /\ is_u16 weight /\ is_u16 port /\ wf_name target
  | RD_Naptr order preference flags services regexp replacement =>
      is_u16 order /\ is_u16 preference /\ cstr_ok flags /\ cstr_ok services /\ cstr_ok regexp /\
      wf_name replacement
  | RD_Ds key_tag algorithm digest_type digest =>
      is_u16 key_tag /\ is_byte algorithm /\ is_byte digest_type /\ bytes digest
  | RD_Dnskey flags protocol algorithm public_key =>
      is_u16 flags /\ is_byte protocol /\ is_byte algorithm /\ bytes public_key
  | RD_Rrsig type_covered algorithm labels original_ttl expiration inception key_tag signer signature =>
      is_u16 type_covered /\ is_byte algorithm /\ is_byte labels /\ is_u32 original_ttl /\
      is_u32 expiration /\ is_u32 inception /\ is_u16 key_tag /\ wf_name signer /\ bytes signature
  | RD_Nsec next types => wf_name next /\ types_ok types
  | RD_Nsec3 hash_alg flags iterations salt next_hashed types =>
      is_byte hash_alg /\ is_byte flags /\ is_u16 iterations /\ cstr_ok salt /\
      cstr_ok next_hashed /\ types_ok types
  | RD_Nsec3Param hash_alg flags iterations salt =>
      is_byte hash_alg /\ is_byte flags /\ is_u16 iterations /\ cstr_ok salt
  | RD_Caa flags tag value => is_byte flags /\ cstr_ok tag /\ bytes value
  | RD_Tlsa usage selector matching_type data =>
      is_byte usage /\ is_byte selector /\ is_byte matching_type /\ bytes data
  | RD_Svcb priority target params =>
      is_u16 priority /\ wf_name target /\
      Forall (fun p => is_u16 p.1 /\ zlen p.2 <= u16_max /\ bytes p.2) params
  | RD_Unknown data => bytes data
  end.

Definition typed : list RrType :=
  [1; 28; 5; 39; 2; 12; 15; 6; 16; 33; 35; 43; 59; 48; 60; 46; 24; 47; 50; 51; 257; 52; 53; 64; 65].

(** The record types whose RDATA has the form of [d]. *)
Definition rdata_for (d : RData) (t : RrType) : Prop :=
  match d with
  | RD_Ds _ _ _ _ => t = RrTypes.DS \/ t = RrTypes.CDS
  | RD_Dnskey _ _ _ _ => t = RrTypes.DNSKEY \/ t = RrTypes.CDNSKEY
  | RD_Rrsig _ _ _ _ _ _ _ _ _ => t = RrTypes.RRSIG \/ t = RrTypes.SIG
  | RD_Tlsa _ _ _ _ => t = RrTypes.TLSA \/ t = RrTypes.SMIMEA
  | RD_Svcb _ _ _ => t = RrTypes.SVCB \/ t = RrTypes.HTTPS
  | RD_Unknown _ => ~ In t typed
  | d => type_hint d = Some t
  end.

(** ** Lemmas: bounded reads of segments *)

Lemma reject_false {E} (c : bool) (e : E) : c = false -> reject_if c e = Ok tt.
Proof. by intros ->. Qed.

Section reads.
Context (buf : list Z) (end_ : Z).
Hypothesis Hbuf : buf_ok buf.

Lemma need_ok pos n : n <= end_ - pos -> need end_ pos n = Ok tt.
Proof. intros. apply reject_false. by apply Z.ltb_ge. Qed.

Lemma ru16_seg q r v :
  seg buf r (be_bytes 2 v) -> q = r -> is_u16 v -> r + 2 <= end_ -> ru16 buf end_ q = Ok v.
Proof.
  intros Hs -> Hv He. unfold ru16. rewrite reject_false by (by apply Z.ltb_ge).
  by apply seg_u16; [apply Hbuf| |].
Qed.

Lemma ru32_seg q r v :
  seg buf r (be_bytes 4 v) -> q = r -> is_u32 v -> r + 4 <= end_ -> ru32 buf end_ q = Ok v.
Proof.
  intros Hs -> Hv He. unfold ru32. rewrite reject_false by (by apply Z.ltb_ge).
  by apply seg_u32; [apply Hbuf| |].
Qed.

Lemma b_at_seg q r v : seg buf r [v] -> q = r -> r + 1 <= end_ -> b_at buf end_ q = Ok v.
Proof.
  intros Hs -> He. unfold b_at. rewrite reject_false by (apply Z.leb_gt; lia).
  cbn [mbind result_bind]. by rewrite (seg_byte _ _ _ Hs).
Qed.

Lemma byte_at_seg q r v : seg buf r [v] -> q = r -> byte_at buf q = Ok v.
Proof. intros Hs ->. by apply seg_byte. Qed.

Lemma array_at_seg q r s n : seg buf r s -> q = r -> zlen s = n -> array_at n buf q = Ok s.
Proof. intros Hs -> Hn. apply seg_array; [apply Hbuf|done|done]. Qed.

Lemma tail_seg q r s : seg buf r s -> q = r -> r + zlen s = end_ -> tail buf end_ q = Ok s.
Proof.
  intros Hs -> <-. unfold tail. rewrite reject_false by (apply Z.ltb_ge; len_facts; lia).
  cbn [mbind result_bind]. unfold seg in Hs. by rewrite Hs.
Qed.

Lemma bounded_seg q r s n msg :
  seg buf r s -> q = r -> n = zlen s -> r + zlen s <= end_ -> bounded buf end_ q n msg = Ok s.
Proof.
  intros Hs -> -> He. unfold bounded. rewrite reject_false by (by apply Z.ltb_ge).
  cbn [mbind result_bind]. unfold seg in Hs. by rewrite Hs.
Qed.

Lemma read_char_string_seg q r s :
  seg buf r ([zlen s] ++ s) -> q = r -> r + 1 + zlen s <= end_ ->
  read_char_string buf end_ q = Ok (s, r + 1 + zlen s).
Proof.
  intros [H1 H2]%seg_app -> He. unfold read_char_string.
  rewrite reject_false by (apply Z.leb_gt; len_facts; lia). cbn [mbind result_bind].
  rewrite (seg_byte _ _ _ H1). cbn [map_err mbind result_bind].
  by rewrite (bounded_seg _ _ s _ _ H2).
Qed.

Lemma read_name_at q r n e :
  from_wire buf r = Ok (n, e) -> q = r -> e <= end_ -> read_name buf end_ q = Ok (n, e).
Proof.
  intros Hn -> He. unfold read_name. rewrite Hn. cbn [mbind result_bind].
  by rewrite reject_false by (by apply Z.ltb_ge).
Qed.

Lemma name_exact_at q r n e :
  from_wire buf r = Ok (n, e) -> q = r -> e = end_ -> name_exact buf end_ q = Ok (n, e).
Proof.
  intros Hn -> ->. unfold name_exact. rewrite (read_name_at r r n end_) by (done || lia).
  cbn [mbind result_bind]. by rewrite Z.eqb_refl.
Qed.

(** An uncompressed name is read from its segment. *)
Lemma from_wire_seg r n :
  seg buf r (as_bytes n) -> wf_name n -> from_wire buf r = Ok (n, r + zlen (as_bytes n)).
Proof.
  intros (pre & post & E & <-)%seg_iff (ls & Hw & ->). pose proof Hw as (Hok & Hlow & _).
  apply (Decodes_from_wire _ _ _ 0%nat); [done|done| |len_facts; lia].
  unfold of_labels in *. cbn [as_bytes] in *. rewrite <- app_assoc in E. subst buf.
  replace (zlen (enc_labels ls ++ [0])) with (zlen (enc_labels ls) + 1) by lens.
  rewrite Z.add_assoc. by apply Decodes_enc.
Qed.
End reads.

(** Solve one read of a parser from the segment at its position. *)
Ltac read_step :=
  cbn [mbind result_bind map_err];
  match goal with
  | |- context [need ?e ?p ?n] => rewrite (need_ok e p n) by lia
  | |- context [reject_if (?a <? ?b) ?e] => rewrite (reject_false (a <? b) e) by (apply Z.ltb_ge; lia)
  | |- context [reject_if (?a <=? ?b) ?e] => rewrite (reject_false (a <=? b) e) by (apply Z.leb_gt; lia)
  | H : seg ?b ?r (be_bytes 2 ?v) |- context [ru16 ?b ?e ?q] =>
      rewrite (ru16_seg b e ltac:(assumption) q r v H) by (lia || assumption)
  | H : seg ?b ?r (be_bytes 4 ?v) |- context [ru32 ?b ?e ?q] =>
      rewrite (ru32_seg b e ltac:(assumption) q r v H) by (lia || assumption)
  | H : seg ?b ?r [?v] |- context [b_at ?b ?e ?q] =>
      rewrite (b_at_seg b e q r v H) by lia
  | H : seg ?b ?r ?s |- context [array_at ?n ?b ?q] =>
      rewrite (array_at_seg b ltac:(assumption) q r s n H) by lia
  | H : seg ?b ?r ?s |- context [tail ?b ?e ?q] =>
      rewrite (tail_seg b e q r s H) by lia
  | H : seg ?b ?r ?s |- context [bounded ?b ?e ?q ?n ?m] =>
      rewrite (bounded_seg b e q r s n m H) by lia
  | H : seg ?b ?r ([zlen ?s] ++ ?s) |- context [read_char_string ?b ?e ?q] =>
      rewrite (read_char_string_seg b e q r s H) by lia
  | H : from_wire ?b ?r = Ok (?n, ?x) |- context [name_exact ?b ?e ?q] =>
      rewrite (name_exact_at b e q r n x H) by lia
  | H : from_wire ?b ?r = Ok (?n, ?x) |- context [read_name ?b ?e ?q] =>
      rewrite (read_name_at b e q r n x H) by lia
  end.

(** Split the segments of the hypotheses at the appends. *)
Ltac norm_lens :=
  autorewrite with rxlen in *; change (Z.of_nat 2) with 2 in *; change (Z.of_nat 4) with 4 in *;
  len_facts.
Ltac split_segs :=
  repeat match goal with
  | H : seg _ _ (_ ++ _) |- _ => apply seg_app in H as [? H]
  end; norm_lens.
Ltac run_reads := repeat read_step; cbn [mbind result_bind map_err].

(** The octets of the types without a compressible name. *)
Definition cstr (s : list Z) : list Z := [zlen s] ++ s.
Definition bitmap_wire (types : list RrType) : list Z := write_type_bitmap [] types.

Definition plain_wire (d : RData) : list Z :=
  match d with
  | RD_A ip => ip
  | RD_Aaaa ip => ip
  | RD_Txt strings => flat_map cstr strings
  | RD_Srv priority weight port target =>
      be_bytes 2 priority ++ be_bytes 2 weight ++ be_bytes 2 port ++ as_bytes target
  | RD_Naptr order preference flags services regexp replacement =>
      be_bytes 2 order ++ be_bytes 2 preference ++ cstr flags ++ cstr services ++ cstr regexp
        ++ as_bytes replacement
  | RD_Ds key_tag algorithm digest_type digest =>
      be_bytes 2 key_tag ++ [algorithm] ++ [digest_type] ++ digest
  | RD_Dnskey flags protocol algorithm public_key =>
      be_bytes 2 flags ++ [protocol] ++ [algorithm] ++ public_key
  | RD_Rrsig type_covered algorithm labels original_ttl expiration inception key_tag signer signature =>
      be_bytes 2 type_covered ++ [algorithm] ++ [labels] ++ be_bytes 4 original_ttl
        ++ be_bytes 4 expiration ++ be_bytes 4 inception ++ be_bytes 2 key_tag
        ++ as_bytes signer ++ signature
  | RD_Nsec next types => as_bytes next ++ bitmap_wire types
  | RD_Nsec3 hash_alg flags iterations salt next_hashed types =>
      [hash_alg] ++ [flags] ++ be_bytes 2 iterations ++ cstr salt ++ cstr next_hashed
        ++ bitmap_wire types
  | RD_Nsec3Param hash_alg flags iterations salt =>
      [hash_alg] ++ [flags] ++ be_bytes 2 iterations ++ cstr salt
  | RD_Caa flags tag value => [flags] ++ cstr tag ++ value
  | RD_Tlsa usage selector matching_type data => [usage] ++ [selector] ++ [matching_type] ++ data
  | RD_Svcb priority target params =>
      be_bytes 2 priority ++ as_bytes target ++ flat_map svc_param_wire params
  | RD_Unknown data => data
  | _ => []
  end.

Definition is_plain (d : RData) : bool :=
  match d with
  | RD_Cname _ | RD_Dname _ | RD_Ns _ | RD_Ptr _ | RD_Mx _ _ | RD_Soa _ _ _ _ _ _ _ => false
  | _ => true
  end.

Lemma zlen_cstr s : zlen (cstr s) = 1 + zlen s.
Proof. unfold cstr. lens. Qed.
#[export] Hint Rewrite zlen_cstr : rxlen.

Lemma write_char_string_ok out s : cstr_ok s -> write_char_string out s = out ++ cstr s.
Proof.
  intros [Hl _]. unfold write_char_string, wrap. len_facts.
  rewrite Z.min_l, Z.mod_small, capped_all by lia. done.
Qed.

Lemma fold_char_strings strings out :
  Forall cstr_ok strings -> fold_left write_char_string strings out = out ++ flat_map cstr strings.
Proof.
  intros H. revert out. induction H as [|s ss Hs _ IH]; intros out; cbn [fold_left flat_map].
  - by rewrite app_nil_r.
  - by rewrite IH, write_char_string_ok, <- app_assoc.
Qed.

Lemma bitmap_wire_spec types :
  Forall is_u16 types ->
  (forall out, write_type_bitmap out types = out ++ bitmap_wire types) /\
  bytes (bitmap_wire types) /\
  (forall buf p, seg buf p (bitmap_wire types) ->
     parse_type_bitmap buf p (p + zlen (bitmap_wire types)) =
     Ok (sort_dedup types, p + zlen (bitmap_wire types))).
Proof.
  intros (w & Hw & Hb & Hp)%write_type_bitmap_spec.
  unfold bitmap_wire. rewrite (Hw []). cbn [app]. done.
Qed.

Lemma plain_to_wire_eq d out :
  rdata_ok d -> is_plain d = true -> plain_to_wire d out = out ++ plain_wire d.
Proof.
  intros Hok Hp. destruct d; try done; cbn [plain_to_wire plain_wire rdata_ok] in *;
    destruct_and?; unfold write_wire;
    repeat rewrite write_char_string_ok by done; try (by rewrite <- ?app_assoc).
  - by apply fold_char_strings.
  - rewrite (proj1 (bitmap_wire_spec types ltac:(by unfold types_ok in *; destruct_and?))).
    by rewrite <- app_assoc.
  - rewrite (proj1 (bitmap_wire_spec types ltac:(by unfold types_ok in *; destruct_and?))).
    by rewrite <- !app_assoc.
Qed.

Lemma wf_name_bytes n : wf_name n -> bytes (as_bytes n).
Proof.
  intros (ls & (Hok & _) & ->). apply Forall_app.
  split; [by apply enc_labels_bytes|by repeat constructor].
Qed.

Lemma bytes_one b : is_byte b -> bytes [b].
Proof. intros. by constructor; [|constructor]. Qed.

Lemma cstr_bytes s : cstr_ok s -> bytes (cstr s).
Proof.
  intros [Hl Hb]. apply Forall_app. split; [|done]. apply bytes_one.
  unfold is_byte. len_facts. lia.
Qed.
#[export] Hint Resolve wf_name_bytes bytes_one cstr_bytes : rx.

Lemma svc_param_bytes p : bytes p.2 -> bytes (svc_param_wire p).
Proof.
  intros Hb. unfold svc_param_wire. repeat (apply Forall_app; split); try apply be_bytes_bytes.
  unfold capped. destruct (get_range _ _ _) eqn:E; [|done]. by eapply get_range_Forall.
Qed.

Lemma bytes_flat_map {A} (f : A -> list Z) l : Forall (fun x => bytes (f x)) l -> bytes (flat_map f l).
Proof. induction 1; cbn [flat_map]; [constructor|]. by apply Forall_app. Qed.

Lemma plain_wire_bytes d : rdata_ok d -> bytes (plain_wire d).
Proof.
  intros Hok. destruct d; cbn [plain_wire rdata_ok] in *; try (by constructor);
    destruct_and?; rewrite ?List.Forall_app;
    repeat match goal with |- _ /\ _ => split end; auto with rx.
  - apply bytes_flat_map. eapply List.Forall_impl; [|exact Hok]. auto with rx.
  - apply bitmap_wire_spec. by unfold types_ok in *; destruct_and?.
  - apply bitmap_wire_spec. by unfold types_ok in *; destruct_and?.
  - apply bytes_flat_map. eapply List.Forall_impl; [|eassumption].
    intros p (_ & _ & ?). by apply svc_param_bytes.
Qed.

(** ** The parser on written data, type by type *)

Section parse_plain.
Context (buf : list Z) (pos : Z).
Hypothesis Hbuf : buf_ok buf.

(** The data and the cursor that reading [d] from its segment yields. *)
Definition reads (d : RData) (r : result Error (RData * Z)) : Prop :=
  r = Ok (d, pos + zlen (plain_wire d)).

Lemma parse_a_seg ip :
  rdata_ok (RD_A ip) -> seg buf pos ip -> reads (RD_A ip) (parse_a buf (pos + zlen ip) pos).
Proof.
  intros [Hl _] Hs. unfold parse_a, reads. cbn [plain_wire]. run_reads. by rewrite Hl.
Qed.

Lemma parse_aaaa_seg ip :
  rdata_ok (RD_Aaaa ip) -> seg buf pos ip -> reads (RD_Aaaa ip) (parse_aaaa buf (pos + zlen ip) pos).
Proof.
  intros [Hl _] Hs. unfold parse_aaaa, reads. cbn [plain_wire]. run_reads. by rewrite Hl.
Qed.

Lemma parse_txt_loop_seg ss p fuel acc e :
  Forall cstr_ok ss -> seg buf p (flat_map cstr ss) -> e = p + zlen (flat_map cstr ss) ->
  (length ss < fuel)%nat -> parse_txt_loop buf e fuel p acc = Ok (acc ++ ss, e).
Proof.
  intros Hok. revert p fuel acc. induction Hok as [|s ss [Hl _] _ IH]; intros p [|fuel] acc Hs He Hf;
    cbn [length] in Hf; try lia; cbn [parse_txt_loop flat_map] in *.
  - rewrite zlen_nil in He. rewrite (proj2 (Z.leb_le _ _)) by lia.
    by rewrite app_nil_r, He, Z.add_0_r.
  - unfold cstr in Hs at 1. split_segs. rewrite (proj2 (Z.leb_gt _ _)) by lia.
    rewrite (byte_at_seg buf p p (zlen s)) by (done || lia). run_reads.
    rewrite IH; [by rewrite <- app_assoc| |lia|lia].
    by replace (p + 1 + zlen s) with (p + (1 + 0 + zlen s)) by lia.
Qed.

Lemma length_flat_map_ge {A} (f : A -> list Z) l :
  Forall (fun x => 1 <= zlen (f x)) l -> Z.of_nat (length l) <= zlen (flat_map f l).
Proof. induction 1; cbn [flat_map length]; [by cbn|]. rewrite zlen_app. lia. Qed.

Lemma parse_txt_seg ss :
  rdata_ok (RD_Txt ss) -> seg buf pos (flat_map cstr ss) ->
  reads (RD_Txt ss) (parse_txt buf (pos + zlen (flat_map cstr ss)) pos).
Proof.
  intros Hok Hs. unfold parse_txt, reads. cbn [plain_wire].
  rewrite (parse_txt_loop_seg ss); [done|done|done|done|].
  assert (Z.of_nat (length ss) <= zlen (flat_map cstr ss)); [|lia].
  apply length_flat_map_ge, Forall_true. intros s. rewrite zlen_cstr. len_facts. lia.
Qed.

Lemma parse_srv_seg a b c n :
  rdata_ok (RD_Srv a b c n) -> seg buf pos (plain_wire (RD_Srv a b c n)) ->
  reads (RD_Srv a b c n) (parse_srv buf (pos + zlen (plain_wire (RD_Srv a b c n))) pos).
Proof.
  cbn [rdata_ok plain_wire]. intros (? & ? & ? & Hn) Hs. unfold parse_srv, reads. cbn [plain_wire].
  split_segs. pose proof (from_wire_seg buf Hbuf _ _ Hs Hn) as Hf. run_reads. do 2 f_equal. lia.
Qed.

Lemma parse_naptr_seg a b f s r n :
  rdata_ok (RD_Naptr a b f s r n) -> seg buf pos (plain_wire (RD_Naptr a b f s r n)) ->
  reads (RD_Naptr a b f s r n) (parse_naptr buf (pos + zlen (plain_wire (RD_Naptr a b f s r n))) pos).
Proof.
  cbn [rdata_ok plain_wire]. intros (? & ? & ? & ? & ? & Hn) Hs. unfold parse_naptr, reads.
  cbn [plain_wire]. split_segs. pose proof (from_wire_seg buf Hbuf _ _ Hs Hn) as Hf.
  unfold cstr in *. run_reads. do 2 f_equal. lia.
Qed.

Lemma parse_ds_seg a b c d :
  rdata_ok (RD_Ds a b c d) -> seg buf pos (plain_wire (RD_Ds a b c d)) ->
  reads (RD_Ds a b c d) (parse_ds buf (pos + zlen (plain_wire (RD_Ds a b c d))) pos).
Proof.
  cbn [rdata_ok plain_wire]. intros (? & ? & ? & ?) Hs. unfold parse_ds, reads. cbn [plain_wire].
  split_segs. run_reads. do 2 f_equal; lia.
Qed.

Lemma parse_dnskey_seg a b c d :
  rdata_ok (RD_Dnskey a b c d) -> seg buf pos (plain_wire (RD_Dnskey a b c d)) ->
  reads (RD_Dnskey a b c d) (parse_dnskey buf (pos + zlen (plain_wire (RD_Dnskey a b c d))) pos).
Proof.
  cbn [rdata_ok plain_wire]. intros (? & ? & ? & ?) Hs. unfold parse_dnskey, reads. cbn [plain_wire].
  split_segs. run_reads. do 2 f_equal; lia.
Qed.

Lemma parse_rrsig_seg a b c d e f g n s :
  rdata_ok (RD_Rrsig a b c d e f g n s) -> seg buf pos (plain_wire (RD_Rrsig a b c d e f g n s)) ->
  reads (RD_Rrsig a b c d e f g n s)
    (parse_rrsig buf (pos + zlen (plain_wire (RD_Rrsig a b c d e f g n s))) pos).
Proof.
  cbn [rdata_ok plain_wire]. intros (? & ? & ? & ? & ? & ? & ? & Hn & ?) Hs.
  unfold parse_rrsig, reads. cbn [plain_wire]. split_segs.
  match goal with H : seg _ _ (as_bytes n) |- _ => pose proof (from_wire_seg buf Hbuf _ _ H Hn) as Hf end.
  run_reads. do 2 f_equal; lia.
Qed.

Lemma parse_nsec_seg n ts :
  rdata_ok (RD_Nsec n ts) -> seg buf pos (plain_wire (RD_Nsec n ts)) ->
  reads (RD_Nsec n ts) (parse_nsec buf (pos + zlen (plain_wire (RD_Nsec n ts))) pos).
Proof.
  cbn [rdata_ok plain_wire]. intros (Hn & Hu & Hts) Hs. unfold parse_nsec, reads. cbn [plain_wire].
  apply seg_app in Hs as [Hs1 Hs2]. pose proof (from_wire_seg buf Hbuf _ _ Hs1 Hn) as Hf.
  norm_lens. run_reads. rewrite Z.add_assoc.
  rewrite (proj2 (proj2 (bitmap_wire_spec ts Hu)) buf _ Hs2). cbn [mbind result_bind].
  by rewrite Hts.
Qed.

Lemma parse_nsec3_seg a b c s h ts :
  rdata_ok (RD_Nsec3 a b c s h ts) -> seg buf pos (plain_wire (RD_Nsec3 a b c s h ts)) ->
  reads (RD_Nsec3 a b c s h ts)
    (parse_nsec3 buf (pos + zlen (plain_wire (RD_Nsec3 a b c s h ts))) pos).
Proof.
  cbn [rdata_ok plain_wire]. intros (? & ? & ? & ? & ? & Hu & Hts) Hs.
  unfold parse_nsec3, reads. cbn [plain_wire]. unfold cstr in *. split_segs. run_reads.
  pose proof (proj2 (proj2 (bitmap_wire_spec ts Hu)) buf _ Hs) as Hp.
  match goal with |- context [parse_type_bitmap buf ?q ?e] =>
    match type of Hp with parse_type_bitmap buf ?q' ?e' = _ =>
      replace q with q' by lia; replace e with e' by lia end end.
  rewrite Hp, Hts. cbn [mbind result_bind]. do 2 f_equal; lia.
Qed.

Lemma parse_nsec3param_seg a b c s :
  rdata_ok (RD_Nsec3Param a b c s) -> seg buf pos (plain_wire (RD_Nsec3Param a b c s)) ->
  reads (RD_Nsec3Param a b c s)
    (parse_nsec3param buf (pos + zlen (plain_wire (RD_Nsec3Param a b c s))) pos).
Proof.
  cbn [rdata_ok plain_wire]. intros (? & ? & ? & ?) Hs. unfold parse_nsec3param, reads.
  cbn [plain_wire]. unfold cstr in *. split_segs. run_reads. do 2 f_equal; lia.
Qed.

Lemma parse_caa_seg a s v :
  rdata_ok (RD_Caa a s v) -> seg buf pos (plain_wire (RD_Caa a s v)) ->
  reads (RD_Caa a s v) (parse_caa buf (pos + zlen (plain_wire (RD_Caa a s v))) pos).
Proof.
  cbn [rdata_ok plain_wire]. intros (? & ? & ?) Hs. unfold parse_caa, reads. cbn [plain_wire].
  unfold cstr in *. split_segs. run_reads. do 2 f_equal; lia.
Qed.

Lemma parse_tlsa_seg a b c d :
  rdata_ok (RD_Tlsa a b c d) -> seg buf pos (plain_wire (RD_Tlsa a b c d)) ->
  reads (RD_Tlsa a b c d) (parse_tlsa buf (pos + zlen (plain_wire (RD_Tlsa a b c d))) pos).
Proof.
  cbn [rdata_ok plain_wire]. intros (? & ? & ? & ?) Hs. unfold parse_tlsa, reads. cbn [plain_wire].
  split_segs. run_reads. do 2 f_equal; lia.
Qed.

Lemma svc_param_wire_ok k v :
  zlen v <= u16_max -> svc_param_wire (k, v) = be_bytes 2 k ++ be_bytes 2 (zlen v) ++ v.
Proof.
  intros Hl. unfold svc_param_wire, wrap, u16_max in *. cbn [fst snd]. len_facts.
  rewrite Z.min_l, Z.mod_small, capped_all by lia. done.
Qed.

Lemma parse_svc_params_seg ps p fuel acc e :
  Forall (fun p => is_u16 p.1 /\ zlen p.2 <= u16_max /\ bytes p.2) ps ->
  seg buf p (flat_map svc_param_wire ps) -> e = p + zlen (flat_map svc_param_wire ps) ->
  (length ps < fuel)%nat -> parse_svc_params buf e fuel p acc = Ok (acc ++ ps, e).
Proof.
  intros Hok. revert p fuel acc.
  induction Hok as [|[k v] ps (Hk & Hl & _) _ IH]; intros p [|fuel] acc Hs He Hf;
    cbn [length fst snd] in *; try lia; cbn [parse_svc_params flat_map] in *.
  - rewrite zlen_nil in He. rewrite (proj2 (Z.leb_le _ _)) by lia.
    by rewrite app_nil_r, He, Z.add_0_r.
  - rewrite svc_param_wire_ok in * by done. split_segs.
    assert (is_u16 (zlen v)) by (unfold is_u16, u16_max in *; lia).
    rewrite (proj2 (Z.leb_gt _ _)) by lia. run_reads.
    rewrite IH; [by rewrite <- app_assoc| |lia|lia].
    by replace (p + 4 + zlen v) with (p + (2 + (2 + zlen v))) by lia.
Qed.

Lemma parse_svcb_seg a n ps :
  rdata_ok (RD_Svcb a n ps) -> seg buf pos (plain_wire (RD_Svcb a n ps)) ->
  reads (RD_Svcb a n ps) (parse_svcb buf (pos + zlen (plain_wire (RD_Svcb a n ps))) pos).
Proof.
  cbn [rdata_ok plain_wire]. intros (? & Hn & Hps) Hs. unfold parse_svcb, reads. cbn [plain_wire].
  assert (Hlen : Z.of_nat (length ps) <= zlen (flat_map svc_param_wire ps)).
  { apply length_flat_map_ge. eapply List.Forall_impl; [|exact Hps]. intros [k v] (_ & Hl & _).
    cbn [fst snd] in *. rewrite svc_param_wire_ok by done. lens. }
  split_segs.
  match goal with H : seg _ _ (as_bytes n) |- _ => pose proof (from_wire_seg buf Hbuf _ _ H Hn) as Hf end.
  run_reads. rewrite (parse_svc_params_seg ps); [|done|done|lia|lia].
  cbn [mbind result_bind app]. done.
Qed.

Lemma parse_unknown_seg d :
  seg buf pos d -> reads (RD_Unknown d) (parse_unknown buf (pos + zlen d) pos).
Proof. intros Hs. unfold parse_unknown, reads. cbn [plain_wire]. by run_reads. Qed.

(** All of them. *)
Lemma rdata_parse_plain d t :
  rdata_ok d -> is_plain d = true -> rdata_for d t -> seg buf pos (plain_wire d) ->
  reads d (rdata_parse buf pos (pos + zlen (plain_wire d)) t).
Proof.
  intros Hok Hp Hfor Hs. pose proof (seg_bounds _ _ _ Hs) as [Hs0 Hs1]. unfold rdata_parse.
  rewrite !reject_false by (apply Z.ltb_ge; len_facts; lia). cbn [mbind result_bind].
  destruct d; try done; cbn [rdata_for type_hint] in Hfor;
    try (injection Hfor as <-); try (destruct Hfor as [->| ->]).
  - by apply parse_a_seg.
  - by apply parse_aaaa_seg.
  - by apply parse_txt_seg.
  - by apply parse_srv_seg.
  - by apply parse_naptr_seg.
  - by apply parse_ds_seg.
  - by apply parse_ds_seg.
  - by apply parse_dnskey_seg.
  - by apply parse_dnskey_seg.
  - by apply parse_rrsig_seg.
  - by apply parse_rrsig_seg.
  - by apply parse_nsec_seg.
  - by apply parse_nsec3_seg.
  - by apply parse_nsec3param_seg.
  - by apply parse_caa_seg.
  - by apply parse_tlsa_seg.
  - by apply parse_tlsa_seg.
  - by apply parse_svcb_seg.
  - by apply parse_svcb_seg.
  - assert (Hne : forall k, In k typed -> (t =? k) = false).
    { intros k Hk. apply Z.eqb_neq. by intros ->. }
    repeat (rewrite Hne by (cbn; tauto)). cbn [orb]. by apply parse_unknown_seg.
Qed.
End parse_plain.

(** ** Names written with or without a compressor *)

Definition comp_ok (comp : option NameCompressor) (buf : list Z) : Prop :=
  match comp with Some c => tbl_ok c buf | None => True end.

Lemma comp_ok_app comp buf tail : comp_ok comp buf -> comp_ok comp (buf ++ tail).
Proof. destruct comp; [apply tbl_ok_app|done]. Qed.
#[export] Hint Resolve comp_ok_app : rx.

(** [f] appends [w] to any message as long as [out], which then satisfies [P]. *)
Definition appends {C} (f : list Z -> list Z * C) (out w : list Z) (c : C) : Prop :=
  forall out', zlen out' = zlen out -> f out' = (out' ++ w, c).

Lemma appends_det {C} (f : list Z -> list Z * C) out1 out2 w1 w2 c1 c2 :
  zlen out1 = zlen out2 -> appends f out1 w1 c1 -> appends f out2 w2 c2 -> w1 = w2 /\ c1 = c2.
Proof.
  intros E H1 H2. specialize (H1 out1 eq_refl). specialize (H2 out1 E). rewrite H1 in H2.
  injection H2 as Hw Hc. by apply app_inv_head in Hw.
Qed.

(** A name written in any case reads back folded. *)
Lemma put_cased_written n out comp :
  wf_name (canonical n) -> comp_ok comp out ->
  exists w comp', appends (fun out => put_name n out comp) out w comp' /\
    bytes w /\ 1 <= zlen w /\ comp_ok comp' (out ++ w) /\
    (forall tail, buf_ok ((out ++ w) ++ tail) ->
       from_wire ((out ++ w) ++ tail) (zlen out) = Ok (canonical n, zlen (out ++ w))).
Proof.
  intros (ls & -> & Hok & Hw & ->)%cased_labels Hc. destruct comp as [c|]; cbn [comp_ok] in Hc.
  - destruct (write_by_length c (of_labels ls) out) as [w Hbl].
    destruct (write_written c ls out Hok Hc) as (w' & h & E & Hb & Hl & Ht & Hh & HD).
    rewrite (Hbl out eq_refl) in *. cbn [fst snd] in *. apply app_inv_head in E as <-.
    exists w, (Some (fst (write c (of_labels ls) out))). split.
    { intros out' E'. unfold put_name. by rewrite Hbl. }
    split; [done|]. split; [lia|]. split; [done|]. intros tail Hbuf.
    apply (Decodes_from_wire _ _ _ h); [done|done| |lens]. by apply Decodes_app.
  - exists (as_bytes (of_labels ls)), None. split; [done|].
    unfold of_labels. cbn [as_bytes]. split.
    { apply Forall_app. split; [by apply enc_labels_bytes|by repeat constructor]. }
    split; [lens|]. split; [done|]. intros tail Hbuf.
    apply (Decodes_from_wire _ _ _ 0%nat); [done|done| |lens]. apply Decodes_app.
    rewrite <- (app_nil_r (lower_labels ls)). apply Decodes_prefix; [done|].
    replace (zlen (out ++ enc_labels ls ++ [0])) with (zlen out + zlen (enc_labels ls) + 1) by lens.
    constructor. rewrite app_assoc, <- zlen_app. apply get_middle.
Qed.

Lemma put_name_written n out comp :
  wf_name n -> comp_ok comp out ->
  exists w comp', appends (fun out => put_name n out comp) out w comp' /\
    bytes w /\ 1 <= zlen w /\ comp_ok comp' (out ++ w) /\
    (forall tail, buf_ok ((out ++ w) ++ tail) ->
       from_wire ((out ++ w) ++ tail) (zlen out) = Ok (n, zlen (out ++ w))).
Proof. intros Hn. pose proof (put_cased_written n out comp) as P. rewrite !canonical_wf in P by done. by apply P. Qed.

(** What serialising [d] appends and how it reads back. *)
Definition rdata_written (d : RData) (out : list Z) (comp : option NameCompressor) : Prop :=
  exists w comp', appends (fun out => rdata_to_wire d out comp) out w comp' /\
    bytes w /\ comp_ok comp' (out ++ w) /\
    (forall tail t, rdata_for d t -> buf_ok ((out ++ w) ++ tail) ->
       rdata_parse ((out ++ w) ++ tail) (zlen out) (zlen (out ++ w)) t = Ok (d, zlen (out ++ w))).

Lemma rdata_parse_guards (buf : list Z) pos e (X : result Error (RData * Z)) :
  pos <= e <= zlen buf ->
  (_ ← reject_if (zlen buf <? e) (wire "RDATA length exceeds message");
   _ ← reject_if (e <? pos) (wire "RDATA cursor past end"); X) = X.
Proof. intros. by rewrite !reject_false by (apply Z.ltb_ge; lia). Qed.

Lemma name_data_written (mk : Name -> RData) n out comp :
  (forall out, rdata_to_wire (mk n) out comp = put_name n out comp) ->
  (forall t, rdata_for (mk n) t -> forall buf pos e,
     pos <= e <= zlen buf -> rdata_parse buf pos e t = parse_name buf e mk pos) ->
  wf_name n -> comp_ok comp out -> rdata_written (mk n) out comp.
Proof.
  intros Hwr Hpa Hn Hc.
  destruct (put_name_written n out comp Hn Hc) as (w & c' & Ha & Hb & _ & Hc' & Hr).
  exists w, c'. split; [intros out' E; rewrite Hwr; by apply Ha|]. split; [done|]. split; [done|].
  intros tail t Ht Hbuf. rewrite (Hpa t Ht) by (autorewrite with rxlen; len_facts; lia).
  unfold parse_name. by rewrite (name_exact_at _ _ _ (zlen out) n _ (Hr tail Hbuf)).
Qed.

Lemma mx_written p n out comp :
  rdata_ok (RD_Mx p n) -> comp_ok comp out -> rdata_written (RD_Mx p n) out comp.
Proof.
  intros (Hp & Hn) Hc.
  destruct (put_name_written n (out ++ be_bytes 2 p) comp Hn) as (w & c' & Ha & Hb & Hl & Hc' & Hr);
    [by apply comp_ok_app|].
  exists (be_bytes 2 p ++ w), c'. rewrite app_assoc. split.
  { intros out' E. cbn [rdata_to_wire]. rewrite Ha by lens. by rewrite app_assoc. }
  split; [apply Forall_app; split; [apply be_bytes_bytes|done]|]. split; [done|].
  intros tail t [= <-] Hbuf. specialize (Hr tail Hbuf).
  set (buf := (((out ++ be_bytes 2 p) ++ w) ++ tail)) in *.
  assert (Hs : seg buf (zlen out) (be_bytes 2 p)).
  { unfold buf. rewrite <- !app_assoc. apply seg_middle. }
  assert (Hlen : zlen ((out ++ be_bytes 2 p) ++ w) <= zlen buf) by (unfold buf; lens).
  unfold rdata_parse. rewrite rdata_parse_guards by lens.
  cbn [Z.eqb Pos.eqb RrTypes.MX RrTypes.A RrTypes.AAAA RrTypes.CNAME RrTypes.DNAME RrTypes.NS RrTypes.PTR].
  unfold parse_mx. autorewrite with rxlen in *. change (Z.of_nat 2) with 2 in *. len_facts. by run_reads.
Qed.

Lemma soa_written m r a b c d e out comp :
  rdata_ok (RD_Soa m r a b c d e) -> comp_ok comp out -> rdata_written (RD_Soa m r a b c d e) out comp.
Proof.
  intros (Hm & Hr & Ha & Hb & Hc & Hd & He) Hcomp.
  destruct (put_name_written m out comp Hm Hcomp) as (w1 & c1 & Ha1 & Hb1 & Hl1 & Hc1 & Hr1).
  destruct (put_name_written r (out ++ w1) c1 Hr Hc1) as (w2 & c2 & Ha2 & Hb2 & Hl2 & Hc2 & Hr2).
  set (fixed := be_bytes 4 a ++ be_bytes 4 b ++ be_bytes 4 c ++ be_bytes 4 d ++ be_bytes 4 e).
  exists (w1 ++ w2 ++ fixed), c2. split; [|split; [|split]].
  - intros out' E. cbn [rdata_to_wire]. rewrite Ha1 by done. rewrite Ha2 by lens.
    by rewrite <- !app_assoc.
  - repeat (apply Forall_app; split); auto with rx.
  - rewrite !app_assoc. by apply comp_ok_app.
  - intros tail t [= <-] Hbuf.
    assert (Hz : zlen fixed = 20) by (unfold fixed; lens).
    assert (E1 : (out ++ w1 ++ w2 ++ fixed) ++ tail = (out ++ w1) ++ (w2 ++ fixed ++ tail))
      by (by rewrite <- !app_assoc).
    assert (E2 : (out ++ w1 ++ w2 ++ fixed) ++ tail = ((out ++ w1) ++ w2) ++ (fixed ++ tail))
      by (by rewrite <- !app_assoc).
    specialize (Hr1 (w2 ++ fixed ++ tail)). specialize (Hr2 (fixed ++ tail)).
    rewrite <- E1 in Hr1. rewrite <- E2 in Hr2. specialize (Hr1 Hbuf). specialize (Hr2 Hbuf).
    assert (Hs : seg ((out ++ w1 ++ w2 ++ fixed) ++ tail) (zlen ((out ++ w1) ++ w2)) fixed)
      by (rewrite E2; apply seg_middle).
    assert (Hlen : zlen (out ++ w1 ++ w2 ++ fixed) <= zlen ((out ++ w1 ++ w2 ++ fixed) ++ tail)) by lens.
    unfold rdata_parse. rewrite rdata_parse_guards by lens.
    set (buf := (out ++ w1 ++ w2 ++ fixed) ++ tail) in *.
    cbn [Z.eqb Pos.eqb RrTypes.SOA RrTypes.MX RrTypes.A RrTypes.AAAA RrTypes.CNAME RrTypes.DNAME RrTypes.NS RrTypes.PTR].
    unfold parse_soa. unfold fixed in Hs. autorewrite with rxlen in Hr1, Hr2, Hs, Hlen |- *.
    rewrite Hz in *. split_segs. run_reads. do 2 f_equal. lia.
Qed.

Lemma rdata_to_wire_written d out comp :
  rdata_ok d -> comp_ok comp out -> rdata_written d out comp.
Proof.
  intros Hok Hc. destruct (is_plain d) eqn:Hp.
  - exists (plain_wire d), comp. split; [|split; [by apply plain_wire_bytes|split; [by apply comp_ok_app|]]].
    + intros out' _. rewrite <- (plain_to_wire_eq d) by done. by destruct d.
    + intros tail t Ht Hbuf. rewrite zlen_app. apply rdata_parse_plain; [done..|].
      rewrite <- app_assoc. apply seg_middle.
  - destruct d; try done.
    1-4: apply name_data_written; [done| |done|done]; intros t [= <-] buf pos e He;
      unfold rdata_parse; by rewrite rdata_parse_guards.
    + by apply mx_written.
    + by apply soa_written.
Qed.
