(* ===== verification/Rr.v ===== *)
(** * Resource records ([Record] of [src/rdata.rs])

    A record with its owner, type, class, TTL and data; the parser and the
    serialiser that patches the RDATA length after writing the data. *)
From stdpp Require Import gmap.
From S2P Require Import Prelude Wire Prng Name Compress Qtype Bitmap RData.

Record Rr := mkRecord {
  name : Name;
  rr_type : RrType;
  class : RrClass;
  ttl : Z;
  rdata : RData }.

#[global] Instance Rr_eq_dec : EqDecision Rr.
Proof. solve_decision. Defined.

Definition record_header_truncated : Error := wire "record header truncated".

Definition record_parse (buf : list Z) (pos : Z) : result Error (Rr * Z) :=
  '(name, p) ← from_wire buf pos;
  _ ← reject_if (zlen buf <? p + 10) record_header_truncated;
  rr_type ← map_err (fun _ => record_header_truncated) (u16_at buf p);
  class ← map_err (fun _ => record_header_truncated) (u16_at buf (p + 2));
  ttl ← map_err (fun _ => record_header_truncated) (u32_at buf (p + 4));
  rdlen ← map_err (fun _ => record_header_truncated) (u16_at buf (p + 8));
  let p := p + 10 in
  let end_ := p + rdlen in
  _ ← reject_if (zlen buf <? end_) (wire "record RDATA overruns message");
  rdata ← (if rr_type =? RrTypes.OPT
           then data ← ok_or (get_range buf p end_) (wire "RDATA length exceeds the message");
                Ok (RD_Unknown data)
           else '(d, _) ← rdata_parse buf p end_ rr_type; Ok d);
  Ok (mkRecord name rr_type class ttl rdata, end_).

(** [out.get_mut(pos..)?.get_mut(..2)?.copy_from_slice(v)] *)
Definition patch_u16 (out : list Z) (pos v : Z) : result Error (list Z) :=
  tail ← ok_or (get_from out pos) (internal "RDLENGTH offset out of range");
  _ ← ok_or (get_range tail 0 2) (internal "RDLENGTH offset out of range");
  Ok (take (Z.to_nat pos) out ++ be_bytes 2 v ++ drop 2 tail).

Definition record_to_wire (r : Rr) (out : list Z) (comp : option NameCompressor)
    : result Error (list Z * option NameCompressor) :=
  let '(out, comp) := put_name (name r) out comp in
  let out := out ++ be_bytes 2 (rr_type r) in
  let out := out ++ be_bytes 2 (class r) in
  let out := out ++ be_bytes 4 (ttl r) in
  let rdlen_pos := zlen out in
  let out := out ++ [0; 0] in
  let '(out, comp) := rdata_to_wire (rdata r) out comp in
  let rdlen := zlen out - rdlen_pos - 2 in
  _ ← reject_if (u16_max <? rdlen) (wire "RDATA exceeds the 16-bit length field");
  out ← patch_u16 out rdlen_pos (wrap 16 rdlen);
  Ok (out, comp).

(** ** Specification *)

Definition record_ok (r : Rr) : Prop :=
  wf_name (name r) /\ is_u16 (rr_type r) /\ is_u16 (class r) /\ is_u32 (ttl r) /\
  rdata_ok (rdata r) /\ rdata_for (rdata r) (rr_type r).

(** ** Lemmas *)

Lemma patch_u16_middle out rest v :
  patch_u16 (out ++ [0; 0] ++ rest) (zlen out) v = Ok (out ++ be_bytes 2 v ++ rest).
Proof.
  unfold patch_u16, get_from.
  assert (E : get_range (out ++ [0; 0] ++ rest) (zlen out) (zlen (out ++ [0; 0] ++ rest))
              = Some ([0; 0] ++ rest)).
  { apply get_range_split. exists out, []. rewrite app_nil_r. split; [done|]. split; [done|lens]. }
  rewrite E. cbn [ok_or mbind result_bind].
  assert (E2 : get_range ([0; 0] ++ rest) 0 2 = Some [0; 0]) by (by apply (get_range_middle [] [0; 0] rest)).
  rewrite E2. cbn [ok_or mbind result_bind]. unfold zlen at 1. by rewrite Nat2Z.id, take_app_length.
Qed.

(** What serialising a record appends, and how it reads back. *)
Definition record_written (r : Rr) (out out' : list Z) (comp' : option NameCompressor) : Prop :=
  exists w, out' = out ++ w /\ bytes w /\ 11 <= zlen w /\ comp_ok comp' out' /\
    (forall tail, buf_ok (out' ++ tail) -> record_parse (out' ++ tail) (zlen out) = Ok (r, zlen out')).

Lemma record_parse_segs buf p e n t c x l d :
  buf_ok buf -> from_wire buf p = Ok (n, e) ->
  seg buf e (be_bytes 2 t ++ be_bytes 2 c ++ be_bytes 4 x ++ be_bytes 2 l) ->
  is_u16 t -> is_u16 c -> is_u32 x -> is_u16 l -> e + 10 + l <= zlen buf ->
  (t <> RrTypes.OPT -> rdata_parse buf (e + 10) (e + 10 + l) t = Ok (d, e + 10 + l)) ->
  (t = RrTypes.OPT -> exists data, d = RD_Unknown data /\
     get_range buf (e + 10) (e + 10 + l) = Some data) ->
  record_parse buf p = Ok (mkRecord n t c x d, e + 10 + l).
Proof.
  intros Hbuf Hn Hs Ht Hc Hx Hl Hb Hd Hopt. unfold record_parse. rewrite Hn.
  cbn [mbind result_bind]. rewrite reject_false by (apply Z.ltb_ge; unfold is_u16 in *; lia).
  split_segs. cbn [mbind result_bind].
  replace (e + 2 + 2) with (e + 4) in * by lia. replace (e + 4 + 4) with (e + 8) in * by lia.
  rewrite (seg_u16 buf e t) by (done || apply Hbuf). cbn [map_err mbind result_bind].
  rewrite (seg_u16 buf (e + 2) c) by (done || apply Hbuf). cbn [map_err mbind result_bind].
  rewrite (seg_u32 buf (e + 4) x) by (done || apply Hbuf). cbn [map_err mbind result_bind].
  rewrite (seg_u16 buf (e + 8) l) by (done || apply Hbuf). cbn [map_err mbind result_bind].
  rewrite reject_false by (apply Z.ltb_ge; lia). cbn [mbind result_bind].
  destruct (Z.eqb_spec t RrTypes.OPT) as [E|E].
  - destruct (Hopt E) as (data & -> & ->). done.
  - by rewrite (Hd E).
Qed.

Lemma record_to_wire_written r out comp out' comp' :
  record_ok r -> comp_ok comp out -> record_to_wire r out comp = Ok (out', comp') ->
  record_written r out out' comp'.
Proof.
  intros (Hn & Ht & Hc & Hx & Hd & Hf) Hcomp. destruct r as [n t c x d].
  unfold record_to_wire. cbn [name rr_type class ttl rdata] in *.
  destruct (put_name_written n out comp Hn Hcomp) as (w1 & c1 & Ha1 & Hb1 & Hl1 & Hc1 & Hr1).
  rewrite (Ha1 out eq_refl). rewrite <- !app_assoc.
  set (head := out ++ w1 ++ be_bytes 2 t ++ be_bytes 2 c ++ be_bytes 4 x).
  assert (Ehead : forall tl, out ++ w1 ++ be_bytes 2 t ++ be_bytes 2 c ++ be_bytes 4 x ++ tl = head ++ tl)
    by (intros; unfold head; by rewrite <- !app_assoc).
  rewrite Ehead. fold head.
  assert (Hchead : forall tl, comp_ok c1 (head ++ tl)).
  { intros tl. rewrite <- Ehead, app_assoc. by apply comp_ok_app. }
  destruct (rdata_to_wire_written d (head ++ [0; 0]) c1 Hd (Hchead _)) as (w2 & c2 & Ha2 & Hb2 & _).
  rewrite (Ha2 _ eq_refl).
  replace (zlen ((head ++ [0; 0]) ++ w2) - zlen head - 2) with (zlen w2) by lens.
  intros H. apply bind_Ok in H as (u & Hlen%reject_if_Ok & H). bools. clear u.
  rewrite <- app_assoc, patch_u16_middle in H. cbn [mbind result_bind] in H.
  len_facts. unfold wrap, u16_max in *. rewrite Z.mod_small in H by lia.
  remember (be_bytes 2 (zlen w2)) as lenb eqn:Elenb. injection H as <- <-.
  assert (Hlb : zlen lenb = 2 /\ bytes lenb) by (subst lenb; split; [done|apply be_bytes_bytes]).
  destruct Hlb as [Hlb Hlbb].
  assert (Hzl : zlen (head ++ [0; 0]) = zlen (head ++ lenb)) by lens.
  destruct (rdata_to_wire_written d (head ++ lenb) c1 Hd (Hchead _)) as (w2' & c2' & Ha2' & _ & Hc2 & Hr2).
  destruct (appends_det _ _ _ _ _ _ _ Hzl Ha2 Ha2') as [<- <-].
  exists (w1 ++ be_bytes 2 t ++ be_bytes 2 c ++ be_bytes 4 x ++ lenb ++ w2).
  split; [unfold head; by rewrite <- !app_assoc|].
  split; [repeat (apply Forall_app; split); auto with rx|].
  split; [lens|]. split; [by rewrite app_assoc|].
  intros tail Hbuf.
  assert (E1 : (head ++ lenb ++ w2) ++ tail =
    (out ++ w1) ++ ((be_bytes 2 t ++ be_bytes 2 c ++ be_bytes 4 x ++ lenb) ++ w2 ++ tail))
    by (unfold head; by rewrite <- !app_assoc).
  assert (E2 : (head ++ lenb ++ w2) ++ tail = ((head ++ lenb) ++ w2) ++ tail)
    by (by rewrite <- !app_assoc).
  pose proof Hbuf as Hbuf1. rewrite E1 in Hbuf1. specialize (Hr1 _ Hbuf1). rewrite <- E1 in Hr1.
  pose proof Hbuf as Hbuf2. rewrite E2 in Hbuf2. specialize (Hr2 tail t Hf Hbuf2). rewrite <- E2 in Hr2.
  assert (Hzh : zlen head + 2 = zlen (out ++ w1) + 10) by (unfold head; lens).
  replace (zlen (head ++ lenb ++ w2)) with (zlen (out ++ w1) + 10 + zlen w2) by lens.
  apply record_parse_segs; [done|done| |done|done|done|unfold is_u16; lia|lens| |].
  - rewrite E1, <- Elenb. apply seg_middle.
  - intros _. replace (zlen (out ++ w1) + 10) with (zlen (head ++ lenb)) by lens.
    replace (zlen (head ++ lenb) + zlen w2) with (zlen ((head ++ lenb) ++ w2)) by lens. exact Hr2.
  - intros ->. exists w2.
    assert (exists data, d = RD_Unknown data) as [data ->].
    { destruct d; try done; cbn in Hf; try (destruct Hf; done). by eexists. }
    specialize (Ha2 _ eq_refl). cbn [rdata_to_wire plain_to_wire] in Ha2.
    injection Ha2 as Hw _. apply app_inv_head in Hw as <-. split; [done|].
    rewrite E2, <- app_assoc. apply get_range_middle; lens.
Qed.

(** ** Serialisation depends on the message only through its length *)

(** The outcome [r] (what is appended and the new table, or the error) of a
    writer on every message as long as [out]. *)
Definition outcome {C} (f : list Z -> result Error (list Z * C)) (out : list Z)
    (r : result Error (list Z * C)) : Prop :=
  forall out', zlen out' = zlen out ->
    f out' = match r with Ok (w, c) => Ok (out' ++ w, c) | Err e => Err e end.

Lemma put_name_appends n comp out :
  exists w c, appends (fun out => put_name n out comp) out w c.
Proof.
  destruct comp as [c|].
  - destruct (write_by_length c n out) as [w H]. exists w, (Some (fst (write c n out))).
    intros out' E. unfold put_name. by rewrite H.
  - exists (as_bytes n), None. by intros out' _.
Qed.

Lemma write_type_bitmap_app out types : write_type_bitmap out types = out ++ bitmap_wire types.
Proof.
  unfold bitmap_wire, write_type_bitmap. case_bool_decide; [by rewrite app_nil_r|done].
Qed.

Lemma fold_char_strings_app ss out :
  fold_left write_char_string ss out = out ++ fold_left write_char_string ss [].
Proof.
  revert out. induction ss as [|s ss IH]; intros out; cbn [fold_left]; [by rewrite app_nil_r|].
  rewrite IH, (IH (write_char_string [] s)). unfold write_char_string. by rewrite <- !app_assoc.
Qed.

Lemma plain_to_wire_app d out : plain_to_wire d out = out ++ plain_to_wire d [].
Proof.
  destruct d; cbn [plain_to_wire]; unfold write_wire, write_char_string;
    rewrite ?write_type_bitmap_app, ?app_nil_r; try apply fold_char_strings_app;
    cbn [app]; by rewrite <- ?app_assoc.
Qed.

Lemma rdata_appends d comp out : exists w c, appends (fun out => rdata_to_wire d out comp) out w c.
Proof.
  assert (Hplain : forall d, exists w c,
    appends (fun out => (plain_to_wire d out, comp)) out w c).
  { intros d'. exists (plain_to_wire d' []), comp. intros out' _. by rewrite plain_to_wire_app. }
  destruct d; try apply Hplain; try apply put_name_appends.
  - destruct (put_name_appends exchange comp (out ++ be_bytes 2 preference)) as (w & c & H).
    exists (be_bytes 2 preference ++ w), c. intros out' E. cbn [rdata_to_wire].
    rewrite H by lens. by rewrite <- app_assoc.
  - destruct (put_name_appends mname comp out) as (w1 & c1 & H1).
    destruct (put_name_appends rname c1 (out ++ w1)) as (w2 & c2 & H2).
    eexists (w1 ++ w2 ++ _), c2. intros out' E. cbn [rdata_to_wire].
    rewrite H1 by done. rewrite H2 by lens. by rewrite <- !app_assoc.
Qed.

Lemma record_outcome_err r comp out :
  exists o, outcome (fun out => record_to_wire r out comp) out o /\
    forall e, o = Err e -> e = wire "RDATA exceeds the 16-bit length field".
Proof.
  destruct (put_name_appends (name r) comp out) as (w1 & c1 & H1).
  set (fixed := be_bytes 2 (rr_type r) ++ be_bytes 2 (class r) ++ be_bytes 4 (ttl r)).
  destruct (rdata_appends (rdata r) c1 ((out ++ w1 ++ fixed) ++ [0; 0])) as (w2 & c2 & H2).
  exists (if u16_max <? zlen w2 then Err (wire "RDATA exceeds the 16-bit length field")
          else Ok (w1 ++ fixed ++ be_bytes 2 (wrap 16 (zlen w2)) ++ w2, c2)).
  split; [|intros e; case_match; by intros [= <-]].
  intros out' E. unfold record_to_wire. rewrite H1 by done. rewrite <- !app_assoc.
  replace (out' ++ w1 ++ be_bytes 2 (rr_type r) ++ be_bytes 2 (class r) ++ be_bytes 4 (ttl r) ++ [0; 0])
    with ((out' ++ w1 ++ fixed) ++ [0; 0]) by (unfold fixed; by rewrite <- ?app_assoc).
  rewrite H2 by (rewrite !zlen_app, E; lia).
  replace (out' ++ w1 ++ be_bytes 2 (rr_type r) ++ be_bytes 2 (class r) ++ be_bytes 4 (ttl r))
    with (out' ++ w1 ++ fixed) by (unfold fixed; by rewrite <- ?app_assoc).
  replace (zlen (((out' ++ w1 ++ fixed) ++ [0; 0]) ++ w2) - zlen (out' ++ w1 ++ fixed) - 2)
    with (zlen w2) by lens.
  unfold reject_if. destruct (u16_max <? zlen w2); [done|]. cbn [mbind result_bind].
  rewrite <- app_assoc, patch_u16_middle. cbn [mbind result_bind]. by rewrite <- !app_assoc.
Qed.

Lemma record_outcome r comp out : exists o, outcome (fun out => record_to_wire r out comp) out o.
Proof. destruct (record_outcome_err r comp out) as (o & H & _). by exists o. Qed.

Lemma record_to_wire_err r out comp e :
  record_to_wire r out comp = Err e -> e = wire "RDATA exceeds the 16-bit length field".
Proof.
  destruct (record_outcome_err r comp out) as (o & H & He). rewrite (H out eq_refl).
  destruct o as [[w c]|e']; [done|]. intros [= <-]. by apply He.
Qed.

(** ** Properties *)

(** serialising a record succeeds exactly when its data fits the 16-bit
    length field, and every record it writes, compressed against any right
    table, reads back unchanged, whatever follows it in the message. *)
Theorem record_round_trip r out comp tail :
  record_ok r -> comp_ok comp out ->
  match record_to_wire r out comp with
  | Ok (out', comp') =>
      comp_ok comp' out' /\ zlen out < zlen out' /\
      (buf_ok (out' ++ tail) -> record_parse (out' ++ tail) (zlen out) = Ok (r, zlen out'))
  | Err e => e = wire "RDATA exceeds the 16-bit length field"
  end.
Proof.
  intros Hr Hc. destruct (record_to_wire r out comp) as [[out' comp']|e] eqn:E.
  - destruct (record_to_wire_written _ _ _ _ _ Hr Hc E) as (w & -> & _ & Hl & Hc' & Hp).
    split; [done|]. split; [lens|]. apply Hp.
  - by apply record_to_wire_err in E.
Qed.

Lemma record_round_trip_witness :
  let r := mkRecord (of_labels [[119]; [99]]) RrTypes.MX 1 300 (RD_Mx 10 (of_labels [[109]; [99]])) in
  match record_to_wire r [] (Some ∅) with
  | Ok (out', comp') =>
      comp_ok comp' out' /\ zlen (@nil Z) < zlen out' /\
      (buf_ok (out' ++ []) -> record_parse (out' ++ []) 0 = Ok (r, zlen out'))
  | Err e => e = wire "RDATA exceeds the 16-bit length field"
  end.
Proof.
  cbn zeta. apply (record_round_trip
    (mkRecord (of_labels [[119]; [99]]) RrTypes.MX 1 300 (RD_Mx 10 (of_labels [[109]; [99]]))) [] (Some ∅) []).
  - assert (Hw : forall b, is_byte b -> to_lower b = b -> wf_name (of_labels [[b]; [99]])).
    { intros b Hb Hlow. exists [[b]; [99]]. split; [|done].
      split; [constructor; [split; [done|by constructor; [|constructor]]|by repeat constructor]|].
      split; [constructor; [unfold lower_ok; cbn; by rewrite Hlow|by repeat constructor]|done]. }
    split; [by apply Hw|]. split; [done|]. split; [done|]. split; [done|].
    split; [split; [done|by apply Hw]|reflexivity].
  - apply tbl_ok_empty.
Defined.
