(* ===== verification/Message.v ===== *)
(** * DNS messages ([src/message.rs])

    The header flags, the message with its four sections and EDNS record, the
    parser, the serialiser, truncation for UDP and the error responses. *)
From stdpp Require Import gmap.
From S2P Require Import Prelude Wire Prng Name Compress Qtype Edns Bitmap RData Rr.

Definition MAX_SECTION_RECORDS : Z := 4096.
Definition MAX_QUESTIONS : Z := 16.

(** ** Header flags *)

Record HeaderFlags := mkFlags {
  qr : bool;
  opcode : Opcode;
  aa : bool;
  tc : bool;
  rd : bool;
  ra : bool;
  ad : bool;
  cd : bool;
  flags_rcode : Rcode }.

Definition default_flags : HeaderFlags :=
  mkFlags false Opcodes.QUERY false false true false false false Rcodes.NOERROR.

Definition or_if (v : Z) (b : bool) (mask : Z) : Z := if b then Z.lor v mask else v.

Definition flags_to_u16 (f : HeaderFlags) : Z :=
  let v := 0 in
  let v := or_if v (qr f) 0x8000 in
  let v := Z.lor v (wrap 16 (Z.shiftl (Z.land (opcode f) 0x0f) 11)) in
  let v := or_if v (aa f) 0x0400 in
  let v := or_if v (tc f) 0x0200 in
  let v := or_if v (rd f) 0x0100 in
  let v := or_if v (ra f) 0x0080 in
  let v := or_if v (ad f) 0x0020 in
  let v := or_if v (cd f) 0x0010 in
  Z.lor v (Z.land (flags_rcode f) 0x0f).

Definition bit_of (v mask : Z) : bool := negb (Z.land v mask =? 0).

Definition flags_from_u16 (v : Z) : HeaderFlags :=
  mkFlags (bit_of v 0x8000) (wrap 8 (Z.land (Z.shiftr v 11) 0x0f)) (bit_of v 0x0400)
    (bit_of v 0x0200) (bit_of v 0x0100) (bit_of v 0x0080) (bit_of v 0x0020) (bit_of v 0x0010)
    (wrap 8 (Z.land v 0x0f)).

(** ** Messages *)

Record Question := mkQuestion { qname : Name; qtype : RrType; qclass : RrClass }.

Record Message := mkMessage {
  id : Z;
  flags : HeaderFlags;
  questions : list Question;
  answers : list Rr;
  authorities : list Rr;
  additionals : list Rr;
  edns : option Edns }.

Definition message_new (id : Z) : Message := mkMessage id default_flags [] [] [] [] None.

Definition with_rd (f : HeaderFlags) (b : bool) : HeaderFlags :=
  mkFlags (qr f) (opcode f) (aa f) (tc f) b (ra f) (ad f) (cd f) (flags_rcode f).

Definition with_tc (f : HeaderFlags) (b : bool) : HeaderFlags :=
  mkFlags (qr f) (opcode f) (aa f) b (rd f) (ra f) (ad f) (cd f) (flags_rcode f).

Definition message_query (id : Z) (qname : Name) (qtype : RrType) (rd : bool) : Message :=
  mkMessage id (with_rd default_flags rd) [mkQuestion qname qtype RrClasses.IN_] [] [] [] None.

Definition question (m : Message) : option Question := list.head (questions m).

Definition rcode (m : Message) : Z :=
  match edns m with
  | Some e => extended_rcode e (flags_rcode (flags m))
  | None => flags_rcode (flags m)
  end.

Definition is_response (m : Message) : bool := qr (flags m).
Definition is_truncated (m : Message) : bool := tc (flags m).

(** ** Parsing *)

Fixpoint parse_questions (n : nat) (buf : list Z) (pos : Z) : result Error (list Question * Z) :=
  match n with
  | O => Ok ([], pos)
  | S n' =>
      '(qname, p) ← from_wire buf pos;
      qtype ← map_err (fun _ => wire "question truncated") (u16_at buf p);
      qclass ← map_err (fun _ => wire "question truncated") (u16_at buf (p + 2));
      '(qs, pos) ← parse_questions n' buf (p + 4);
      Ok (mkQuestion qname qtype qclass :: qs, pos)
  end.

Fixpoint parse_records (n : nat) (buf : list Z) (pos : Z) : result Error (list Rr * Z) :=
  match n with
  | O => Ok ([], pos)
  | S n' =>
      '(r, pos) ← record_parse buf pos;
      '(rs, pos) ← parse_records n' buf pos;
      Ok (r :: rs, pos)
  end.

(** The additional section: an OPT record becomes [edns], and only one may. *)
Fixpoint parse_additionals (n : nat) (buf : list Z) (pos : Z) (acc : list Rr) (edns : option Edns)
    : result Error (list Rr * option Edns) :=
  match n with
  | O => Ok (acc, edns)
  | S n' =>
      '(rec, pos) ← record_parse buf pos;
      if rr_type rec =? RrTypes.OPT then
        match edns with
        | Some _ => Err (wire "multiple OPT records")
        | None =>
            let options_data := match rdata rec with RD_Unknown d => d | _ => [] end in
            e ← edns_parse (class rec) (ttl rec) options_data;
            parse_additionals n' buf pos acc (Some e)
        end
      else parse_additionals n' buf pos (acc ++ [rec]) edns
  end.

Definition message_parse (buf : list Z) : result Error Message :=
  _ ← reject_if (zlen buf <? 12) (wire "message shorter than header");
  id ← u16_at buf 0;
  fl ← u16_at buf 2;
  let flags := flags_from_u16 fl in
  qd ← u16_at buf 4;
  an ← u16_at buf 6;
  ns ← u16_at buf 8;
  ar ← u16_at buf 10;
  _ ← reject_if ((MAX_QUESTIONS <? qd) || (MAX_SECTION_RECORDS <? an)
                 || (MAX_SECTION_RECORDS <? ns) || (MAX_SECTION_RECORDS <? ar))
        (wire "section count exceeds limits");
  '(questions, pos) ← parse_questions (Z.to_nat qd) buf 12;
  '(answers, pos) ← parse_records (Z.to_nat an) buf pos;
  '(authorities, pos) ← parse_records (Z.to_nat ns) buf pos;
  '(additionals, edns) ← parse_additionals (Z.to_nat ar) buf pos [] None;
  Ok (mkMessage id flags questions answers authorities additionals edns).

(** ** Serialising *)

Definition question_to_wire (q : Question) (st : list Z * option NameCompressor)
    : list Z * option NameCompressor :=
  let '(out, comp) := put_name (qname q) st.1 st.2 in
  (out ++ be_bytes 2 (qtype q) ++ be_bytes 2 (qclass q), comp).

Fixpoint questions_to_wire (qs : list Question) (st : list Z * option NameCompressor)
    : list Z * option NameCompressor :=
  match qs with
  | [] => st
  | q :: qs => questions_to_wire qs (question_to_wire q st)
  end.

Fixpoint records_to_wire (rs : list Rr) (out : list Z) (comp : option NameCompressor)
    : result Error (list Z * option NameCompressor) :=
  match rs with
  | [] => Ok (out, comp)
  | r :: rs => '(out, comp) ← record_to_wire r out comp; records_to_wire rs out comp
  end.

Definition edns_to_wire (e : Edns) (out : list Z) (comp : option NameCompressor)
    : list Z * option NameCompressor :=
  let '(out, comp) := put_name root out comp in
  let opt_data := options_wire e in
  (out ++ be_bytes 2 RrTypes.OPT ++ be_bytes 2 (udp_payload_size e) ++ be_bytes 4 (ttl_field e)
     ++ be_bytes 2 (wrap 16 (zlen opt_data)) ++ opt_data, comp).

Definition patch_counts (out : list Z) (pos : Z) (header_tail : list Z) : result Error (list Z) :=
  tail ← ok_or (get_from out pos) (internal "header count offset out of range");
  _ ← ok_or (get_range tail 0 (zlen header_tail)) (internal "header count offset out of range");
  Ok (take (Z.to_nat pos) out ++ header_tail ++ drop (length header_tail) tail).

(** [n.len() as u16] of the four sections. *)
Definition count_bytes (m : Message) : list Z :=
  let extra := zlen (additionals m) + (match edns m with Some _ => 1 | None => 0 end) in
  be_bytes 2 (wrap 16 (zlen (questions m))) ++ be_bytes 2 (wrap 16 (zlen (answers m)))
    ++ be_bytes 2 (wrap 16 (zlen (authorities m))) ++ be_bytes 2 (wrap 16 extra).

Definition to_bytes (m : Message) : result Error (list Z) :=
  let out := be_bytes 2 (id m) in
  let out := out ++ be_bytes 2 (flags_to_u16 (flags m)) in
  let count_pos := zlen out in
  let out := out ++ [0; 0; 0; 0; 0; 0; 0; 0] in
  let '(out, comp) := questions_to_wire (questions m) (out, Some ∅) in
  '(out, comp) ← records_to_wire (answers m) out comp;
  '(out, comp) ← records_to_wire (authorities m) out comp;
  '(out, comp) ← records_to_wire (additionals m) out comp;
  let out := match edns m with Some e => fst (edns_to_wire e out comp) | None => out end in
  patch_counts out count_pos (count_bytes m).

Definition message_wire_len (m : Message) : Z :=
  match to_bytes m with Ok b => zlen b | Err _ => usize_max end.

(** ** Truncation for UDP *)

(** The records of one section that fit; [false] stops all sections. *)
Fixpoint fit_records (rs : list Rr) (budget : Z) (out : list Z) (comp : option NameCompressor)
    (count : nat) : nat * bool * list Z * option NameCompressor :=
  match rs with
  | [] => (count, true, out, comp)
  | r :: rs =>
      match record_to_wire r out comp with
      | Err _ => (count, false, out, comp)
      | Ok (out', comp') =>
          if budget <? zlen out' then (count, false, out, comp')
          else fit_records rs budget out' comp' (S count)
      end
  end.

Definition fit_sections (m : Message) (limit : Z) : nat * nat * nat :=
  let opt_len := match edns m with Some e => 1 + 10 + zlen (options_wire e) | None => 0 end in
  let budget := Z.max 0 (limit - opt_len) in
  let out := be_bytes 2 (id m) ++ be_bytes 2 (flags_to_u16 (flags m)) ++ [0; 0; 0; 0; 0; 0; 0; 0] in
  let '(out, comp) := questions_to_wire (questions m) (out, Some ∅) in
  let '(an, go, out, comp) := fit_records (answers m) budget out comp 0 in
  if negb go then (an, 0, 0)%nat
  else
    let '(ns, go, out, comp) := fit_records (authorities m) budget out comp 0 in
    if negb go then (an, ns, 0%nat)
    else
      let '(ar, _, _, _) := fit_records (additionals m) budget out comp 0 in
      (an, ns, ar).

Definition truncate_for_udp (m : Message) (limit : Z) : Message :=
  let limit := Z.max limit 512 in
  if message_wire_len m <=? limit then m
  else
    let m := mkMessage (id m) (with_tc (flags m) true) (questions m) (answers m) (authorities m)
               (additionals m) (edns m) in
    let '(an, ns, ar) := fit_sections m limit in
    mkMessage (id m) (flags m) (questions m) (take an (answers m)) (take ns (authorities m))
      (take ar (additionals m)) (edns m).

(** ** Responses and queries *)

Definition error_response (m : Message) (rcode : Rcode) : Message :=
  mkMessage (id m)
    (mkFlags true Opcodes.QUERY false false (rd (flags m)) true false false rcode)
    (questions m) [] [] []
    (match edns m with Some e => Some (edns_new (udp_payload_size e)) | None => None end).

Definition matches_question (m : Message) (n : Name) (t : RrType) : bool :=
  match question m with
  | Some q => bool_decide (qname q = n) && (qtype q =? t)
  | None => false
  end.

Definition answers_of_type (m : Message) (t : RrType) : list Rr :=
  List.filter (fun r => rr_type r =? t) (answers m).

Definition authority_soa (m : Message) : option Rr :=
  List.find (fun r => rr_type r =? RrTypes.SOA) (authorities m).

Definition encode_query (msg_id : Z) (qname : Name) (qtype : RrType) (e : option Edns)
    : result Error (list Z) :=
  let m := message_query msg_id qname qtype true in
  to_bytes (mkMessage (id m) (flags m) (questions m) (answers m) (authorities m) (additionals m) e).

Example encode_query_bytes :
  encode_query 0x1234 (of_labels [[119; 119; 119]; [99]]) RrTypes.A (Some (edns_new 1232)) =
  Ok [0x12; 0x34; 1; 0; 0; 1; 0; 0; 0; 0; 0; 1; 3; 119; 119; 119; 1; 99; 0; 0; 1; 0; 1;
      0; 0; 41; 4; 208; 0; 0; 0; 0; 0; 0].
Proof. vm_compute. reflexivity. Qed.

(** ** Specification *)

Definition flags_ok (f : HeaderFlags) : Prop :=
  0 <= opcode f < 16 /\ 0 <= flags_rcode f < 16.

Definition question_ok (q : Question) : Prop :=
  wf_name (canonical (qname q)) /\ is_u16 (qtype q) /\ is_u16 (qclass q).

Definition opt_record_ok (e : Edns) : Prop := edns_ok e /\ zlen (options_wire e) <= u16_max.

Definition message_ok (m : Message) : Prop :=
  is_u16 (id m) /\ flags_ok (flags m) /\
  Forall question_ok (questions m) /\ Forall record_ok (answers m) /\
  Forall record_ok (authorities m) /\
  Forall (fun r => record_ok r /\ rr_type r <> RrTypes.OPT) (additionals m) /\
  match edns m with Some e => opt_record_ok e | None => True end /\
  zlen (questions m) <= MAX_QUESTIONS /\ zlen (answers m) <= MAX_SECTION_RECORDS /\
  zlen (authorities m) <= MAX_SECTION_RECORDS /\
  zlen (additionals m) + (match edns m with Some _ => 1 | None => 0 end) <= MAX_SECTION_RECORDS.

(** Question names come back in lower case, padding options empty, everything
    else unchanged. *)
Definition normal_question (q : Question) : Question :=
  mkQuestion (canonical (qname q)) (qtype q) (qclass q).

Definition normal_edns (e : Edns) : Edns :=
  mkEdns (udp_payload_size e) (ext_rcode e) (version e) (dnssec_ok e) (normal <$> options e).

Definition normal_message (m : Message) : Message :=
  mkMessage (id m) (flags m) (normal_question <$> questions m) (answers m) (authorities m)
    (additionals m) (normal_edns <$> edns m).

(** ** Lemmas: flags *)

Definition flags_of (b : list bool) (op rc : Z) : HeaderFlags :=
  match b with
  | [a; b; c; d; e; f; g] => mkFlags a op b c d e f g rc
  | _ => mkFlags false op false false false false false false rc
  end.

Fixpoint bool_lists (n : nat) : list (list bool) :=
  match n with
  | O => [[]]
  | S n' => flat_map (fun l => [true :: l; false :: l]) (bool_lists n')
  end.

Lemma bool_lists_In b : In b (bool_lists (length b)).
Proof.
  induction b as [|x b IH]; [by left|]. cbn [length bool_lists]. apply in_flat_map.
  exists b. split; [done|]. destruct x; cbn; auto.
Qed.

Lemma flags_round_trip f :
  flags_ok f -> is_u16 (flags_to_u16 f) /\ flags_from_u16 (flags_to_u16 f) = f.
Proof.
  intros [Ho Hr].
  assert (Hall : forallb (fun b => forallb (fun op => forallb (fun rc =>
     let f := flags_of b op rc in
     (0 <=? flags_to_u16 f) && (flags_to_u16 f <? 65536) &&
     let g := flags_from_u16 (flags_to_u16 f) in
     Bool.eqb (qr g) (qr f) && (opcode g =? opcode f) && Bool.eqb (aa g) (aa f) &&
     Bool.eqb (tc g) (tc f) && Bool.eqb (rd g) (rd f) && Bool.eqb (ra g) (ra f) &&
     Bool.eqb (ad g) (ad f) && Bool.eqb (cd g) (cd f) && (flags_rcode g =? flags_rcode f))
     (seqZ 0 16)) (seqZ 0 16)) (bool_lists 7) = true) by (vm_compute; reflexivity).
  rewrite forallb_forall in Hall. destruct f as [a op b c d e f g rc]. cbn [opcode flags_rcode] in *.
  specialize (Hall [a; b; c; d; e; f; g] (bool_lists_In [a; b; c; d; e; f; g])).
  rewrite forallb_forall in Hall.
  specialize (Hall op ltac:(apply list_elem_of_In, elem_of_seqZ; lia)).
  rewrite forallb_forall in Hall.
  specialize (Hall rc ltac:(apply list_elem_of_In, elem_of_seqZ; lia)).
  cbn [flags_of] in Hall. destruct (flags_from_u16 _) as [a' op' b' c' d' e' f' g' rc'].
  cbn [qr opcode aa tc rd ra ad cd flags_rcode] in Hall. bools.
  repeat match goal with H : Bool.eqb _ _ = true |- _ => apply Bool.eqb_prop in H end.
  subst. split; [unfold is_u16; lia|done].
Qed.

(** ** Lemmas: the sections *)

Lemma question_outcome qs comp out :
  exists w c, appends (fun out => questions_to_wire qs (out, comp)) out w c.
Proof.
  revert comp out. induction qs as [|q qs IH]; intros comp out.
  { exists [], comp. intros out' _. cbn. by rewrite app_nil_r. }
  destruct (put_name_appends (qname q) comp out) as (w1 & c1 & H1).
  destruct (IH c1 (out ++ w1 ++ be_bytes 2 (qtype q) ++ be_bytes 2 (qclass q))) as (w2 & c2 & H2).
  eexists ((w1 ++ be_bytes 2 (qtype q) ++ be_bytes 2 (qclass q)) ++ w2), c2.
  intros out' E. cbn [questions_to_wire]. unfold question_to_wire. cbn [fst snd].
  rewrite H1 by done. rewrite <- !app_assoc. rewrite H2 by lens. by rewrite <- !app_assoc.
Qed.

Lemma questions_written qs comp out :
  Forall question_ok qs -> comp_ok comp out ->
  exists w c, questions_to_wire qs (out, comp) = (out ++ w, c) /\ bytes w /\ comp_ok c (out ++ w) /\
    forall tail, buf_ok ((out ++ w) ++ tail) ->
      parse_questions (length qs) ((out ++ w) ++ tail) (zlen out) = Ok (normal_question <$> qs, zlen (out ++ w)).
Proof.
  intros Hq. revert comp out. induction Hq as [|q qs (Hn & Ht & Hcl) _ IH]; intros comp out Hc.
  { exists [], comp. rewrite app_nil_r. split; [done|]. split; [constructor|]. by split. }
  destruct (put_cased_written (qname q) out comp Hn Hc) as (w1 & c1 & Ha & Hb & _ & Hc1 & Hr).
  set (fixed := be_bytes 2 (qtype q) ++ be_bytes 2 (qclass q)).
  destruct (IH c1 (out ++ w1 ++ fixed)) as (w2 & c2 & E2 & Hb2 & Hc2 & Hr2).
  { rewrite app_assoc. by apply comp_ok_app. }
  exists ((w1 ++ fixed) ++ w2), c2. rewrite app_assoc. split.
  { cbn [questions_to_wire]. unfold question_to_wire. cbn [fst snd]. rewrite Ha by done.
    rewrite <- app_assoc. exact E2. }
  split.
  { repeat (apply Forall_app; split); auto with rx. }
  split; [done|]. intros tail Hbuf. specialize (Hr2 tail Hbuf).
  assert (E : ((out ++ w1 ++ fixed) ++ w2) ++ tail = (out ++ w1) ++ (fixed ++ w2 ++ tail))
    by (by rewrite <- !app_assoc).
  assert (Hn1 : from_wire (((out ++ w1 ++ fixed) ++ w2) ++ tail) (zlen out) = Ok (canonical (qname q), zlen (out ++ w1))).
  { rewrite E. apply Hr. by rewrite <- E. }
  assert (Hs : seg (((out ++ w1 ++ fixed) ++ w2) ++ tail) (zlen (out ++ w1)) fixed)
    by (rewrite E; apply seg_middle).
  assert (Hz : zlen fixed = 4) by (unfold fixed; lens).
  revert Hr2 Hn1 Hs Hbuf. generalize (((out ++ w1 ++ fixed) ++ w2) ++ tail). clear E.
  intros buf Hr2 Hn1 [Hs1 Hs2]%seg_app [_ Hmax].
  rewrite zlen_be_bytes in Hs2. change (Z.of_nat 2) with 2 in Hs2.
  cbn [length parse_questions]. rewrite Hn1. cbn [mbind result_bind].
  rewrite (seg_u16 _ _ _ Hmax Hs1 Ht). cbn [map_err mbind result_bind].
  rewrite (seg_u16 _ _ _ Hmax Hs2 Hcl). cbn [map_err mbind result_bind].
  replace (zlen (out ++ w1) + 4) with (zlen (out ++ w1 ++ fixed)) by (rewrite !zlen_app; lia).
  rewrite Hr2. cbn [mbind result_bind]. by destruct q.
Qed.

Lemma records_outcome rs comp out :
  exists o, outcome (fun out => records_to_wire rs out comp) out o.
Proof.
  revert comp out. induction rs as [|r rs IH]; intros comp out.
  { exists (Ok ([], comp)). intros out' _. cbn. by rewrite app_nil_r. }
  destruct (record_outcome r comp out) as [[[w1 c1]|e] H1].
  - destruct (IH c1 (out ++ w1)) as [[[w2 c2]|e] H2].
    + exists (Ok (w1 ++ w2, c2)). intros out' E. cbn [records_to_wire]. rewrite H1 by done.
      cbn [mbind result_bind]. rewrite H2 by lens. by rewrite app_assoc.
    + exists (Err e). intros out' E. cbn [records_to_wire]. rewrite H1 by done.
      cbn [mbind result_bind]. by rewrite H2 by lens.
  - exists (Err e). intros out' E. cbn [records_to_wire]. by rewrite H1 by done.
Qed.

Lemma records_to_wire_cons r rs out comp out' c :
  records_to_wire (r :: rs) out comp = Ok (out', c) ->
  exists out1 c1, record_to_wire r out comp = Ok (out1, c1) /\
    records_to_wire rs out1 c1 = Ok (out', c).
Proof. cbn [records_to_wire]. intros ([out1 c1] & H1 & H2)%bind_Ok. eauto. Qed.

Lemma records_written rs out comp out' c :
  Forall record_ok rs -> comp_ok comp out -> records_to_wire rs out comp = Ok (out', c) ->
  exists w, out' = out ++ w /\ bytes w /\ comp_ok c out' /\
    forall tail, buf_ok (out' ++ tail) ->
      parse_records (length rs) (out' ++ tail) (zlen out) = Ok (rs, zlen out').
Proof.
  intros Hrs. revert out comp. induction Hrs as [|r rs Hr _ IH]; intros out comp Hc H.
  { injection H as <- <-. exists []. rewrite app_nil_r. split; [done|]. split; [constructor|]. by split. }
  apply records_to_wire_cons in H as (out1 & c1 & H1 & H2).
  destruct (record_to_wire_written _ _ _ _ _ Hr Hc H1) as (w1 & -> & Hb1 & _ & Hc1 & Hp1).
  destruct (IH _ _ Hc1 H2) as (w2 & -> & Hb2 & Hc2 & Hp2).
  exists (w1 ++ w2). split; [by rewrite app_assoc|]. split; [by apply Forall_app|].
  split; [done|]. intros tail Hbuf. cbn [length parse_records].
  specialize (Hp1 (w2 ++ tail)). rewrite app_assoc in Hp1. rewrite Hp1 by done.
  cbn [mbind result_bind]. by rewrite Hp2.
Qed.

Lemma additionals_written rs out comp out' c :
  Forall (fun r => record_ok r /\ rr_type r <> RrTypes.OPT) rs -> comp_ok comp out ->
  records_to_wire rs out comp = Ok (out', c) ->
  exists w, out' = out ++ w /\ bytes w /\ comp_ok c out' /\
    forall tail k acc e, buf_ok (out' ++ tail) ->
      parse_additionals (length rs + k) (out' ++ tail) (zlen out) acc e =
      parse_additionals k (out' ++ tail) (zlen out') (acc ++ rs) e.
Proof.
  intros Hrs. revert out comp. induction Hrs as [|r rs [Hr Hopt] _ IH]; intros out comp Hc H.
  { injection H as <- <-. exists []. rewrite app_nil_r. split; [done|]. split; [constructor|].
    split; [done|]. intros. by rewrite app_nil_r. }
  apply records_to_wire_cons in H as (out1 & c1 & H1 & H2).
  destruct (record_to_wire_written _ _ _ _ _ Hr Hc H1) as (w1 & -> & Hb1 & _ & Hc1 & Hp1).
  destruct (IH _ _ Hc1 H2) as (w2 & -> & Hb2 & Hc2 & Hp2).
  exists (w1 ++ w2). split; [by rewrite app_assoc|]. split; [by apply Forall_app|].
  split; [done|]. intros tail k acc e Hbuf. cbn [length Nat.add parse_additionals].
  specialize (Hp1 (w2 ++ tail)). rewrite app_assoc in Hp1. rewrite Hp1 by done.
  cbn [mbind result_bind]. rewrite (proj2 (Z.eqb_neq _ _)) by done.
  rewrite Hp2 by done. by rewrite <- (app_assoc acc).
Qed.

Lemma wf_root : wf_name root.
Proof. exists []. split; [|done]. split; [constructor|]. split; [constructor|done]. Qed.

(** The OPT record. *)
Lemma edns_written e out comp :
  opt_record_ok e -> comp_ok comp out ->
  exists w, (forall out', zlen out' = zlen out -> fst (edns_to_wire e out' comp) = out' ++ w) /\
    bytes w /\
    forall tail, buf_ok ((out ++ w) ++ tail) ->
      record_parse ((out ++ w) ++ tail) (zlen out) =
      Ok (mkRecord root RrTypes.OPT (udp_payload_size e) (ttl_field e) (RD_Unknown (options_wire e)),
          zlen (out ++ w)).
Proof.
  intros [(Hu & Her & Hv & Ho) Hl] Hc.
  destruct (put_name_written root out comp wf_root Hc) as (w1 & c1 & Ha & Hb & _ & _ & Hr).
  set (fixed := be_bytes 2 RrTypes.OPT ++ be_bytes 2 (udp_payload_size e) ++ be_bytes 4 (ttl_field e)
     ++ be_bytes 2 (wrap 16 (zlen (options_wire e)))).
  exists (w1 ++ fixed ++ options_wire e).
  assert (Hob : bytes (options_wire e)).
  { apply bytes_flat_map. eapply List.Forall_impl; [|exact Ho]. intros o (_ & Hb' & _).
    unfold option_wire. repeat (apply Forall_app; split); auto with rx. }
  assert (Hw : wrap 16 (zlen (options_wire e)) = zlen (options_wire e)).
  { unfold wrap, u16_max in *. len_facts. rewrite Z.mod_small; lia. }
  split; [|split].
  - intros out' E. unfold edns_to_wire. rewrite Ha by done. cbn [fst]. unfold fixed.
    by rewrite <- !app_assoc.
  - unfold fixed. repeat (apply Forall_app; split); auto with rx.
  - intros tail Hbuf.
    assert (E : (out ++ w1 ++ fixed ++ options_wire e) ++ tail =
      (out ++ w1) ++ (fixed ++ options_wire e ++ tail)) by (by rewrite <- !app_assoc).
    assert (Hz : zlen fixed = 10) by (unfold fixed; lens).
    replace (zlen (out ++ w1 ++ fixed ++ options_wire e))
      with (zlen (out ++ w1) + 10 + zlen (options_wire e)) by (rewrite !zlen_app; lia).
    rewrite E in *. specialize (Hr _ Hbuf).
    apply (record_parse_segs _ _ _ _ _ _ _ (zlen (options_wire e))); try done.
    + rewrite <- Hw. apply seg_middle.
    + unfold is_u32. rewrite ttl_field_spec by done. unfold is_byte in *. destruct (dnssec_ok e); lia.
    + unfold is_u16, u16_max in *. len_facts. lia.
    + rewrite !zlen_app. len_facts. lia.
    + intros _. exists (options_wire e). split; [done|].
      rewrite app_assoc. replace (zlen (out ++ w1) + 10) with (zlen ((out ++ w1) ++ fixed)) by (rewrite zlen_app; lia).
      apply get_range_middle; lia.
Qed.

Lemma patch_counts_middle pre old new rest :
  zlen new = zlen old ->
  patch_counts (pre ++ old ++ rest) (zlen pre) new = Ok (pre ++ new ++ rest).
Proof.
  intros Hl. unfold patch_counts, get_from.
  assert (E : get_range (pre ++ old ++ rest) (zlen pre) (zlen (pre ++ old ++ rest)) = Some (old ++ rest)).
  { apply get_range_split. exists pre, []. rewrite app_nil_r. split; [done|]. split; [done|lens]. }
  rewrite E. cbn [ok_or mbind result_bind].
  assert (E2 : get_range (old ++ rest) 0 (zlen new) = Some old) by (by apply (get_range_middle [] old rest)).
  rewrite E2. cbn [ok_or mbind result_bind].
  replace (length new) with (length old) by (unfold zlen in Hl; lia).
  rewrite drop_app_length. unfold zlen. by rewrite Nat2Z.id, take_app_length.
Qed.

(** ** The body: everything [to_bytes] writes behind the header *)

Definition body (m : Message) (out : list Z) : result Error (list Z * unit) :=
  let '(out, comp) := questions_to_wire (questions m) (out, Some ∅) in
  '(out, comp) ← records_to_wire (answers m) out comp;
  '(out, comp) ← records_to_wire (authorities m) out comp;
  '(out, comp) ← records_to_wire (additionals m) out comp;
  Ok (match edns m with Some e => fst (edns_to_wire e out comp) | None => out end, tt).

Definition header (m : Message) : list Z :=
  be_bytes 2 (id m) ++ be_bytes 2 (flags_to_u16 (flags m)) ++ count_bytes m.

Lemma zlen_count_bytes m : zlen (count_bytes m) = 8.
Proof. unfold count_bytes. lens. Qed.

Lemma zlen_header m : zlen (header m) = 12.
Proof. unfold header. rewrite !zlen_app, !zlen_be_bytes, zlen_count_bytes. lia. Qed.

Lemma edns_appends e comp (out : list Z) :
  exists w, forall out', zlen out' = zlen out -> fst (edns_to_wire e out' comp) = out' ++ w.
Proof.
  destruct (put_name_appends root comp out) as (w & c & H). eexists (w ++ _).
  intros out' E. unfold edns_to_wire. rewrite H by done. cbn [fst]. by rewrite <- app_assoc.
Qed.

Lemma body_outcome m out : exists o, outcome (body m) out o.
Proof.
  destruct (question_outcome (questions m) (Some ∅) out) as (wq & c & Hq).
  destruct (records_outcome (answers m) c (out ++ wq)) as [[[wa ca]|e] Ha].
  2: { exists (Err e). intros out' E. unfold body. rewrite Hq by done. by rewrite Ha by lens. }
  destruct (records_outcome (authorities m) ca ((out ++ wq) ++ wa)) as [[[wn cn]|e] Hn].
  2: { exists (Err e). intros out' E. unfold body. rewrite Hq by done. rewrite Ha by lens.
       cbn [mbind result_bind]. by rewrite Hn by lens. }
  destruct (records_outcome (additionals m) cn (((out ++ wq) ++ wa) ++ wn)) as [[[wr cr]|e] Hr].
  2: { exists (Err e). intros out' E. unfold body. rewrite Hq by done. rewrite Ha by lens.
       cbn [mbind result_bind]. rewrite Hn by lens. cbn [mbind result_bind]. by rewrite Hr by lens. }
  assert (He : exists we, forall out', zlen out' = zlen ((((out ++ wq) ++ wa) ++ wn) ++ wr) ->
    match edns m with Some e => fst (edns_to_wire e out' cr) | None => out' end = out' ++ we).
  { destruct (edns m) as [e|]; [apply edns_appends|]. exists []. intros. by rewrite app_nil_r. }
  destruct He as [we He]. exists (Ok (wq ++ wa ++ wn ++ wr ++ we, tt)). intros out' E. unfold body.
  rewrite Hq by done. rewrite Ha by lens. cbn [mbind result_bind].
  rewrite Hn by lens. cbn [mbind result_bind]. rewrite Hr by lens. cbn [mbind result_bind].
  rewrite He by lens. by rewrite <- !app_assoc.
Qed.

Lemma to_bytes_body m :
  to_bytes m = match body m (header m) with Ok (out, _) => Ok out | Err e => Err e end.
Proof.
  destruct (body_outcome m (header m)) as [o Ho].
  set (out := (be_bytes 2 (id m) ++ be_bytes 2 (flags_to_u16 (flags m))) ++ [0; 0; 0; 0; 0; 0; 0; 0]).
  assert (Hz : zlen out = zlen (header m)) by (rewrite zlen_header; unfold out; lens).
  assert (E : to_bytes m = '(out, _) ← body m out; patch_counts out 4 (count_bytes m)).
  { unfold to_bytes, body. fold out.
    change (zlen (be_bytes 2 (id m) ++ be_bytes 2 (flags_to_u16 (flags m)))) with 4.
    destruct (questions_to_wire _ _) as [o1 c1]. destruct (records_to_wire _ o1 c1) as [[o2 c2]|]; [|done].
    cbn [mbind result_bind]. destruct (records_to_wire _ o2 c2) as [[o3 c3]|]; [|done].
    cbn [mbind result_bind]. by destruct (records_to_wire _ o3 c3) as [[o4 c4]|]. }
  rewrite E, (Ho out Hz), (Ho (header m) eq_refl). destruct o as [[w []]|e]; [|done].
  cbn [mbind result_bind]. unfold out. rewrite <- (app_assoc (be_bytes 2 (id m) ++ _)).
  change 4 with (zlen (be_bytes 2 (id m) ++ be_bytes 2 (flags_to_u16 (flags m)))).
  rewrite patch_counts_middle by (by rewrite zlen_count_bytes).
  unfold header. by rewrite <- !app_assoc.
Qed.

Lemma records_to_wire_err rs out comp e :
  records_to_wire rs out comp = Err e -> e = wire "RDATA exceeds the 16-bit length field".
Proof.
  revert out comp. induction rs as [|r rs IH]; intros out comp; cbn [records_to_wire]; [done|].
  destruct (record_to_wire r out comp) as [[out1 c1]|e'] eqn:E; cbn [mbind result_bind].
  - apply IH.
  - intros [= <-]. by apply record_to_wire_err in E.
Qed.

Lemma body_err m out e : body m out = Err e -> e = wire "RDATA exceeds the 16-bit length field".
Proof.
  unfold body. destruct (questions_to_wire _ _) as [o1 c1].
  destruct (records_to_wire (answers m) o1 c1) as [[o2 c2]|e1] eqn:E1; cbn [mbind result_bind].
  2: { intros [= <-]. by apply records_to_wire_err in E1. }
  destruct (records_to_wire (authorities m) o2 c2) as [[o3 c3]|e2] eqn:E2; cbn [mbind result_bind].
  2: { intros [= <-]. by apply records_to_wire_err in E2. }
  destruct (records_to_wire (additionals m) o3 c3) as [[o4 c4]|e3] eqn:E3; cbn [mbind result_bind]; [done|].
  intros [= <-]. by apply records_to_wire_err in E3.
Qed.

(** ** The round trip *)

Lemma header_reads m rest :
  is_u16 (id m) -> is_u16 (flags_to_u16 (flags m)) ->
  zlen (questions m) <= MAX_QUESTIONS -> zlen (answers m) <= MAX_SECTION_RECORDS ->
  zlen (authorities m) <= MAX_SECTION_RECORDS ->
  zlen (additionals m) + (match edns m with Some _ => 1 | None => 0 end) <= MAX_SECTION_RECORDS ->
  zlen (header m ++ rest) <= usize_max ->
  u16_at (header m ++ rest) 0 = Ok (id m) /\
  u16_at (header m ++ rest) 2 = Ok (flags_to_u16 (flags m)) /\
  u16_at (header m ++ rest) 4 = Ok (zlen (questions m)) /\
  u16_at (header m ++ rest) 6 = Ok (zlen (answers m)) /\
  u16_at (header m ++ rest) 8 = Ok (zlen (authorities m)) /\
  u16_at (header m ++ rest) 10 =
    Ok (zlen (additionals m) + (match edns m with Some _ => 1 | None => 0 end)).
Proof.
  intros Hi Hf Hq Ha Hn Hr Hm. pose proof (seg_middle [] (header m) rest) as Hs.
  cbn [app] in Hs. rewrite zlen_nil in Hs. revert Hs Hm. generalize (header m ++ rest). intros buf Hs Hm.
  unfold header, count_bytes in Hs.
  set (ar := zlen (additionals m) + _) in *.
  assert (Har : 0 <= ar) by (unfold ar; len_facts; destruct (edns m); lia).
  unfold MAX_QUESTIONS, MAX_SECTION_RECORDS in *. len_facts.
  unfold wrap in Hs. rewrite !Z.mod_small in Hs by lia.
  split_segs. repeat rewrite <- Z.add_assoc in *.
  change (0 + 2) with 2 in *. change (2 + 2) with 4 in *. change (2 + 4) with 6 in *.
  change (2 + 6) with 8 in *. change (2 + 8) with 10 in *.
  repeat split; (apply seg_u16; [done|done|done || (unfold is_u16; lia)]).
Qed.

Lemma header_bytes m : bytes (header m).
Proof. unfold header, count_bytes. repeat (apply Forall_app; split); auto with rx. Qed.

(** Where the sections of a serialised message stand. *)
Lemma body_sections m hdr bs :
  message_ok m -> bytes hdr -> body m hdr = Ok (bs, tt) ->
  exists p1 p2 p3,
    bytes bs /\ (exists rest, bs = hdr ++ rest) /\
    (zlen bs <= usize_max ->
     parse_questions (length (questions m)) bs (zlen hdr) = Ok (normal_question <$> questions m, p1) /\
     parse_records (length (answers m)) bs p1 = Ok (answers m, p2) /\
     parse_records (length (authorities m)) bs p2 = Ok (authorities m, p3) /\
     parse_additionals (length (additionals m) + (match edns m with Some _ => 1 | None => 0 end))
       bs p3 [] None = Ok (additionals m, normal_edns <$> edns m)).
Proof.
  intros (Hid & Hf & Hq & Ha & Hn & Hr & He & _) Hhdr. unfold body.
  destruct (questions_written (questions m) (Some ∅) hdr Hq (tbl_ok_empty hdr))
    as (wq & cq & Eq & Hbq & Hcq & Hpq). rewrite Eq.
  intros ([oa ca] & Ea & H)%bind_Ok. apply bind_Ok in H as ([on cn] & En & H).
  apply bind_Ok in H as ([oo co] & Eo & H).
  destruct (records_written _ _ _ _ _ Ha Hcq Ea) as (wa & -> & Hba & Hca & Hpa).
  destruct (records_written _ _ _ _ _ Hn Hca En) as (wn & -> & Hbn & Hcn & Hpn).
  destruct (additionals_written _ _ _ _ _ Hr Hcn Eo) as (wr & -> & Hbr & Hcr & Hpr).
  set (base := (((hdr ++ wq) ++ wa) ++ wn) ++ wr) in *.
  assert (Hbase : bytes base) by (unfold base; repeat (apply Forall_app; split); done).
  assert (Hwe : exists we, bs = base ++ we /\ bytes we /\ forall acc,
    (zlen bs <= usize_max ->
     parse_additionals (match edns m with Some _ => 1 | None => 0 end) bs (zlen base) acc None
     = Ok (acc, normal_edns <$> edns m))).
  { destruct (edns m) as [e|].
    - destruct (edns_written e base co He Hcr) as (we & Hwe & Hbe & Hpe).
      rewrite Hwe in H by done. injection H as <-. exists we. split; [done|]. split; [done|].
      intros acc Hmax. specialize (Hpe []). rewrite app_nil_r in Hpe. cbn [parse_additionals].
      rewrite Hpe by (split; [by apply Forall_app|done]). cbn [mbind result_bind rr_type Z.eqb].
      cbn [RrTypes.OPT Z.eqb Pos.eqb rdata class ttl]. destruct He as [He Hl].
      assert (Hp : edns_parse (udp_payload_size e) (ttl_field e) (options_wire e) = Ok (normal_edns e)).
      { unfold edns_parse. destruct He as (_ & Hr1 & Hv & Ho). unfold options_wire at 1.
        rewrite parse_options_wire by (done || (unfold options_wire, u16_max, usize_max in *; lia)).
        cbn [mbind result_bind]. destruct (ttl_field_bits e Hr1 Hv) as (-> & -> & ->). done. }
      by rewrite Hp.
    - injection H as <-. exists []. rewrite app_nil_r. split; [done|]. split; [constructor|done]. }
  destruct Hwe as (we & -> & Hbe & Hpe).
  exists (zlen (hdr ++ wq)), (zlen ((hdr ++ wq) ++ wa)), (zlen (((hdr ++ wq) ++ wa) ++ wn)).
  split; [by apply Forall_app|]. split; [exists (wq ++ wa ++ wn ++ wr ++ we); unfold base; by rewrite <- !app_assoc|].
  intros Hmax. assert (Hbuf : buf_ok (base ++ we)) by (split; [by apply Forall_app|done]).
  assert (E1 : base ++ we = (hdr ++ wq) ++ (wa ++ wn ++ wr ++ we)) by (unfold base; by rewrite <- !app_assoc).
  assert (E2 : base ++ we = ((hdr ++ wq) ++ wa) ++ (wn ++ wr ++ we)) by (unfold base; by rewrite <- !app_assoc).
  assert (E3 : base ++ we = (((hdr ++ wq) ++ wa) ++ wn) ++ (wr ++ we)) by (unfold base; by rewrite <- !app_assoc).
  specialize (Hpq (wa ++ wn ++ wr ++ we)). rewrite <- E1 in Hpq.
  specialize (Hpa (wn ++ wr ++ we)). rewrite <- E2 in Hpa.
  specialize (Hpn (wr ++ we)). rewrite <- E3 in Hpn.
  split; [by apply Hpq|]. split; [by apply Hpa|]. split; [by apply Hpn|].
  rewrite Hpr by done. by apply Hpe.
Qed.

(** Reading back what the body and the header wrote. *)
Lemma to_bytes_reparses m bs :
  message_ok m -> to_bytes m = Ok bs -> zlen bs <= usize_max -> message_parse bs = Ok (normal_message m).
Proof.
  intros Hm E Hmax. pose proof Hm as (Hid & Hf & Hq & Ha & Hn & Hr & He & Hlq & Hla & Hln & Hlr).
  rewrite to_bytes_body in E. destruct (body m (header m)) as [[bs' []]|e] eqn:Eb; [|done]. injection E as ->.
  destruct (body_sections m (header m) bs Hm (header_bytes m) Eb)
    as (p1 & p2 & p3 & Hb & [rest ->] & Hp).
  destruct (Hp Hmax) as (Hp1 & Hp2 & Hp3 & Hp4). clear Hp.
  destruct (flags_round_trip (flags m) Hf) as [Hfu Hff].
  destruct (header_reads m rest Hid Hfu Hlq Hla Hln Hlr Hmax) as (H0 & H2 & H4 & H6 & H8 & H10).
  assert (Hge : 12 <= zlen (header m ++ rest)) by (rewrite zlen_app, zlen_header; len_facts; lia).
  unfold message_parse. rewrite reject_false by (apply Z.ltb_ge; lia).
  cbn [mbind result_bind]. rewrite H0, H2, H4, H6, H8, H10. cbn [mbind result_bind].
  rewrite reject_false.
  2: { rewrite !(proj2 (Z.ltb_ge _ _)) by lia. done. }
  rewrite zlen_header in Hp1. cbn [mbind result_bind].
  replace (Z.to_nat (zlen (questions m))) with (length (questions m)) by (unfold zlen; lia).
  rewrite Hp1. cbn [mbind result_bind].
  replace (Z.to_nat (zlen (answers m))) with (length (answers m)) by (unfold zlen; lia).
  rewrite Hp2. cbn [mbind result_bind].
  replace (Z.to_nat (zlen (authorities m))) with (length (authorities m)) by (unfold zlen; lia).
  rewrite Hp3. cbn [mbind result_bind].
  replace (Z.to_nat (zlen (additionals m) + match edns m with Some _ => 1 | None => 0 end))
    with (length (additionals m) + match edns m with Some _ => 1 | None => 0 end)%nat
    by (unfold zlen; destruct (edns m); lia).
  rewrite Hp4. cbn [mbind result_bind]. by rewrite Hff.
Qed.

(** ** Properties *)

(** C1: a well-formed message survives its wire form: whatever [to_bytes]
    produces, with all its name compression, patched record lengths and
    section counts, [parse] reads back as the same message (question names come
    back in lower case and padding options empty), and [to_bytes] fails only on an oversized RDATA. *)
Theorem message_round_trip m :
  message_ok m ->
  match to_bytes m with
  | Ok bs => zlen bs <= usize_max -> message_parse bs = Ok (normal_message m)
  | Err e => e = wire "RDATA exceeds the 16-bit length field"
  end.
Proof.
  intros Hm. destruct (to_bytes m) as [bs|e] eqn:E.
  - by apply to_bytes_reparses.
  - rewrite to_bytes_body in E. destruct (body m (header m)) as [[bs []]|e'] eqn:Eb; [done|].
    injection E as <-. by apply body_err in Eb.
Qed.

Lemma wf_short_name l : label_ok l -> lower_ok l -> zlen l <= 50 -> wf_name (of_labels [l]).
Proof.
  intros Hl Hlow Hz. exists [l]. split; [|done]. split; [by constructor; [|constructor]|].
  split; [by constructor; [|constructor]|]. unfold MAX_NAME_LEN, MAX_LABELS.
  change (enc_labels [l]) with (zlen l :: l ++ []). split; lens.
Qed.

Lemma message_round_trip_witness :
  let n := of_labels [[99; 111; 109]] in
  let m := mkMessage 7 (with_rd default_flags true) [mkQuestion n RrTypes.NS 1]
             [mkRecord n RrTypes.NS 1 60 (RD_Ns n)] [] [] (Some (edns_new 1232)) in
  match to_bytes m with
  | Ok bs => zlen bs <= usize_max -> message_parse bs = Ok (normal_message m)
  | Err e => e = wire "RDATA exceeds the 16-bit length field"
  end.
Proof.
  cbn zeta. apply (message_round_trip (mkMessage 7 (with_rd default_flags true)
    [mkQuestion (of_labels [[99; 111; 109]]) RrTypes.NS 1]
    [mkRecord (of_labels [[99; 111; 109]]) RrTypes.NS 1 60 (RD_Ns (of_labels [[99; 111; 109]]))]
    [] [] (Some (edns_new 1232)))).
  assert (Hn : wf_name (of_labels [[99; 111; 109]])).
  { apply wf_short_name; [|done|done]. split; [done|]. repeat (constructor; [done|]). constructor. }
  split; [done|]. split; [done|]. split; [constructor; [by split|constructor]|].
  split.
  { constructor; [|constructor]. split; [done|]. split; [done|]. split; [done|]. split; [done|].
    split; [exact Hn|reflexivity]. }
  split; [constructor|]. split; [constructor|]. split; [|done].
  split; [|vm_compute; discriminate].
  split; [done|]. split; [done|]. split; [done|constructor].
Defined.

(** ** Truncation *)

Lemma fit_records_spec rs budget out comp k n go out' comp' :
  fit_records rs budget out comp k = (n, go, out', comp') -> zlen out <= budget ->
  exists j out1 c1, n = (k + j)%nat /\ (j <= length rs)%nat /\
    records_to_wire (take j rs) out comp = Ok (out1, c1) /\ zlen out1 <= budget /\
    (go = true -> j = length rs /\ out' = out1 /\ comp' = c1).
Proof.
  revert out comp k. induction rs as [|r rs IH]; intros out comp k; cbn [fit_records].
  { intros [= <- <- <- <-] Hb. exists 0%nat, out, comp. repeat split; try done; lia. }
  assert (Hstop : forall o c, (k, false, o, c) = (n, go, out', comp') -> zlen out <= budget ->
    exists j out1 c1, n = (k + j)%nat /\ (j <= length (r :: rs))%nat /\
      records_to_wire (take j (r :: rs)) out comp = Ok (out1, c1) /\ zlen out1 <= budget /\
      (go = true -> j = length (r :: rs) /\ out' = out1 /\ comp' = c1)).
  { intros o c [= <- <- _ _] Hb. exists 0%nat, out, comp. repeat split; try done; lia. }
  destruct (record_to_wire r out comp) as [[out1 c1]|e] eqn:E; [|apply Hstop].
  destruct (budget <? zlen out1) eqn:Eb; bools; [apply Hstop|].
  intros H _. apply IH in H as (j & out2 & c2 & -> & Hj & Hr & Hz & Hgo); [|done].
  exists (S j), out2, c2. cbn [take records_to_wire length]. rewrite E. cbn [mbind result_bind].
  split; [lia|]. split; [lia|]. split; [done|]. split; [done|]. intros (-> & -> & ->)%Hgo. done.
Qed.

Lemma put_root out comp : exists c, put_name root out comp = (out ++ [0], c).
Proof.
  destruct comp as [c|]; [|by exists None]. unfold put_name, write, write_wire. cbn. by exists (Some c).
Qed.

Definition opt_len (m : Message) : Z :=
  match edns m with Some e => 1 + 10 + zlen (options_wire e) | None => 0 end.

Lemma zlen_edns_to_wire m out comp :
  zlen (match edns m with Some e => fst (edns_to_wire e out comp) | None => out end)
  = zlen out + opt_len m.
Proof.
  unfold opt_len. destruct (edns m) as [e|]; [|lia]. unfold edns_to_wire.
  destruct (put_root out comp) as [c ->]. cbn [fst]. lens.
Qed.

(** Header and question section: what truncation never drops. *)
Definition fixed_part (m : Message) : Z :=
  zlen (fst (questions_to_wire (questions m) (header m, Some ∅))).

Lemma fixed_part_by_length m out :
  zlen out = 12 -> zlen (fst (questions_to_wire (questions m) (out, Some ∅))) = fixed_part m.
Proof.
  intros H. unfold fixed_part.
  destruct (question_outcome (questions m) (Some ∅) (header m)) as (w & c & Ho).
  rewrite (Ho (header m) eq_refl), (Ho out) by (rewrite H, zlen_header; done). cbn [fst]. rewrite !zlen_app, zlen_header. lia.
Qed.

(** The message with the first [an], [ns] and [ar] records of its sections. *)
Definition keep (m : Message) (an ns ar : nat) : Message :=
  mkMessage (id m) (flags m) (questions m) (take an (answers m)) (take ns (authorities m))
    (take ar (additionals m)) (edns m).

Lemma body_keep m an ns ar out oq cq oa ca on cn oo co :
  questions_to_wire (questions m) (out, Some ∅) = (oq, cq) ->
  records_to_wire (take an (answers m)) oq cq = Ok (oa, ca) ->
  records_to_wire (take ns (authorities m)) oa ca = Ok (on, cn) ->
  records_to_wire (take ar (additionals m)) on cn = Ok (oo, co) ->
  exists bs, body (keep m an ns ar) out = Ok (bs, tt) /\ zlen bs = zlen oo + opt_len m.
Proof.
  intros Eq Ea En Er. unfold body. cbn [keep questions answers authorities additionals edns].
  rewrite Eq, Ea. cbn [mbind result_bind]. rewrite En. cbn [mbind result_bind]. rewrite Er.
  cbn [mbind result_bind]. eexists. split; [done|]. apply zlen_edns_to_wire.
Qed.

Lemma fit_sections_body m limit an ns ar :
  fit_sections m limit = (an, ns, ar) -> fixed_part m + opt_len m <= limit ->
  exists bs, body (keep m an ns ar) (be_bytes 2 (id m) ++ be_bytes 2 (flags_to_u16 (flags m))
      ++ [0; 0; 0; 0; 0; 0; 0; 0]) = Ok (bs, tt) /\ zlen bs <= limit.
Proof.
  unfold fit_sections. set (hdr := be_bytes 2 (id m) ++ _). fold (opt_len m).
  assert (Hh : zlen hdr = 12) by (unfold hdr; lens).
  intros H Hfit. pose proof (fixed_part_by_length m hdr Hh) as Hq.
  assert (Hge : 0 <= opt_len m).
  { unfold opt_len. destruct (edns m) as [e|]; [|lia]. pose proof (zlen_nonneg (options_wire e)). lia. }
  assert (Hge2 : 0 <= fixed_part m) by (unfold fixed_part; apply zlen_nonneg).
  rewrite (Z.max_r 0) in H by lia.
  destruct (questions_to_wire (questions m) (hdr, Some ∅)) as [oq cq] eqn:Eq. cbn [fst] in Hq.
  assert (Hdone : forall oo co oa ca on cn,
    records_to_wire (take an (answers m)) oq cq = Ok (oa, ca) ->
    records_to_wire (take ns (authorities m)) oa ca = Ok (on, cn) ->
    records_to_wire (take ar (additionals m)) on cn = Ok (oo, co) ->
    zlen oo <= limit - opt_len m ->
    exists bs, body (keep m an ns ar) hdr = Ok (bs, tt) /\ zlen bs <= limit).
  { intros oo co oa ca on cn E1 E2 E3 Hz.
    destruct (body_keep m an ns ar hdr oq cq oa ca on cn oo co Eq E1 E2 E3) as (bs & Hbs & Hl).
    exists bs. split; [done|lia]. }
  destruct (fit_records (answers m) _ oq cq 0) as [[[n1 go1] o1] c1] eqn:E1.
  apply fit_records_spec in E1 as (j1 & oa & ca & -> & Hj1 & Ha & Hza & Hgo1); [|lia].
  rewrite Nat.add_0_l in *. destruct go1; cbn [negb] in H.
  2: { injection H as <- <- <-. by eapply Hdone. }
  destruct (Hgo1 eq_refl) as (-> & -> & ->).
  destruct (fit_records (authorities m) _ oa ca 0) as [[[n2 go2] o2] c2] eqn:E2.
  apply fit_records_spec in E2 as (j2 & on & cn & -> & Hj2 & Hn & Hzn & Hgo2); [|lia].
  rewrite Nat.add_0_l in *. destruct go2; cbn [negb] in H.
  2: { injection H as <- <- <-. by eapply Hdone. }
  destruct (Hgo2 eq_refl) as (-> & -> & ->).
  destruct (fit_records (additionals m) _ on cn 0) as [[[n3 go3] o3] c3] eqn:E3.
  apply fit_records_spec in E3 as (j3 & oo & co & -> & Hj3 & Hr & Hzr & _); [|lia].
  injection H as <- <- <-. by eapply Hdone.
Qed.

(** truncation for UDP keeps the question section and the EDNS record,
    drops only records from the ends of the sections, sets TC when it changes
    the message, and the result serialises into the limit (floored at 512)
    whenever the header, the questions and the OPT record do. *)
Theorem truncate_for_udp_fits m limit :
  fixed_part m + opt_len m <= Z.max limit 512 -> limit < usize_max ->
  let m' := truncate_for_udp m limit in
  (exists bs, to_bytes m' = Ok bs /\ zlen bs <= Z.max limit 512) /\
  id m' = id m /\ questions m' = questions m /\ edns m' = edns m /\
  answers m' `prefix_of` answers m /\ authorities m' `prefix_of` authorities m /\
  additionals m' `prefix_of` additionals m /\
  (m' = m \/ flags m' = with_tc (flags m) true).
Proof.
  intros Hfit Hlim. cbn zeta. unfold truncate_for_udp.
  destruct (message_wire_len m <=? Z.max limit 512) eqn:E; bools.
  - split; [|by repeat split; auto]. unfold message_wire_len in E.
    destruct (to_bytes m) as [bs|e] eqn:Eb; [by exists bs|].
    exfalso. unfold usize_max in *. lia.
  - set (mt := mkMessage (id m) (with_tc (flags m) true) _ _ _ _ _).
    destruct (fit_sections mt (Z.max limit 512)) as [[an ns] ar] eqn:Ef.
    apply fit_sections_body in Ef as (bs & Hb & Hz).
    2: { rewrite <- (fixed_part_by_length mt (header m)) by apply zlen_header. exact Hfit. }
    split; [|repeat (split; [done || apply prefix_take|]); by right].
    change (exists bs, to_bytes (keep mt an ns ar) = Ok bs /\ zlen bs <= Z.max limit 512).
    destruct (body_outcome (keep mt an ns ar) (header (keep mt an ns ar))) as [o Ho].
    rewrite Ho in Hb by (rewrite zlen_header; lens). rewrite to_bytes_body, (Ho _ eq_refl).
    destruct o as [[w []]|e]; [|done].
    match type of Hb with Ok (?b, _) = _ => assert (Hl : zlen b = 12 + zlen w) by lens;
      replace b with bs in Hl by congruence end.
    eexists. split; [done|]. rewrite zlen_app, zlen_header. lia.
Qed.

Lemma truncate_for_udp_fits_witness :
  let rec := mkRecord (of_labels [[99]]) RrTypes.TXT 1 60 (RD_Txt [replicate 200 65]) in
  let m := mkMessage 7 default_flags [mkQuestion (of_labels [[99]]) RrTypes.TXT 1]
             [rec; rec; rec; rec] [] [] (Some (edns_new 1232)) in
  length (answers (truncate_for_udp m 512)) = 2%nat /\
  (exists bs, to_bytes (truncate_for_udp m 512) = Ok bs /\ zlen bs <= Z.max 512 512).
Proof.
  cbn zeta. split; [vm_compute; reflexivity|].
  apply (truncate_for_udp_fits (mkMessage 7 default_flags [mkQuestion (of_labels [[99]]) RrTypes.TXT 1]
    (repeat (mkRecord (of_labels [[99]]) RrTypes.TXT 1 60 (RD_Txt [replicate 200 65])) 4)
    [] [] (Some (edns_new 1232))) 512); vm_compute; congruence.
Defined.
