(* ===== verification/BTree.v ===== *)
(** * Ordered maps ([BTreeMap] of the Rust standard library)

    A [BTreeMap] is a key-sorted association list; iteration and [retain]
    visit the keys in order, which the capacity sweeps depend on.  The keys'
    order is an interface ([KeyOrder]), with instances for integers, octet
    strings and names. *)
From Stdlib Require Import Sorted.
From S2P Require Import Prelude Wire Prng Name.

Class KeyOrder (K : Type) := klt : K -> K -> bool.

Class KeyOrderLaws (K : Type) `{KeyOrder K} := {
  klt_irrefl : forall a, klt a a = false;
  klt_trans : forall a b c, klt a b = true -> klt b c = true -> klt a c = true;
  klt_total : forall a b, klt a b = false -> klt b a = false -> a = b }.

#[global] Instance Z_order : KeyOrder Z := Z.ltb.
#[global] Instance Z_order_laws : KeyOrderLaws Z.
Proof. constructor; unfold klt, Z_order; intros; bools; apply Z.ltb_irrefl || apply Z.ltb_lt || idtac; lia. Qed.

(** Lexicographic order of slices ([Ord for [u8]]). *)
Fixpoint list_lt (a b : list Z) : bool :=
  match a, b with
  | _, [] => false
  | [], _ :: _ => true
  | x :: a, y :: b => (x <? y) || ((x =? y) && list_lt a b)
  end.

#[global] Instance list_order : KeyOrder (list Z) := list_lt.
#[global] Instance list_order_laws : KeyOrderLaws (list Z).
Proof.
  constructor; unfold klt, list_order.
  - induction a as [|x a IH]; cbn; [done|]. by rewrite Z.ltb_irrefl, Z.eqb_refl, IH.
  - induction a as [|x a IH]; intros [|y b] [|z c]; cbn; try done.
    rewrite !orb_true_iff, !andb_true_iff, !Z.ltb_lt, !Z.eqb_eq.
    intros [?|[-> ?]] [?|[-> ?]]; [left; lia|left; lia|left; lia|right; eauto].
  - induction a as [|x a IH]; intros [|y b]; cbn; try done.
    rewrite !orb_false_iff, !Z.ltb_ge. intros [? Ha] [? Hb].
    assert (x = y) as -> by lia. rewrite Z.eqb_refl in *. f_equal. by apply IH.
Qed.

#[global] Instance name_order : KeyOrder Name := fun a b => list_lt (as_bytes a) (as_bytes b).
#[global] Instance name_order_laws : KeyOrderLaws Name.
Proof.
  constructor; unfold klt, name_order.
  - intros a. apply (klt_irrefl (as_bytes a)).
  - intros a b c. apply (klt_trans (as_bytes a)).
  - intros [a] [b] H1 H2. f_equal. by apply (klt_total a b).
Qed.

(** Tuples and [Option]s compare lexicographically, [None] first: the derived
    [Ord] of the key structs. *)
#[global] Instance pair_order {A B} `{KeyOrder A, KeyOrder B, EqDecision A} : KeyOrder (A * B) :=
  fun x y => klt x.1 y.1 || (bool_decide (x.1 = y.1) && klt x.2 y.2).
#[global] Instance pair_order_laws {A B} `{KeyOrderLaws A, KeyOrderLaws B, EqDecision A} :
  KeyOrderLaws (A * B).
Proof.
  constructor; unfold klt, pair_order.
  - intros [a b]; cbn. by rewrite !klt_irrefl, andb_false_r.
  - intros [a b] [a' b'] [a'' b'']; cbn.
    rewrite !orb_true_iff, !andb_true_iff, !bool_decide_eq_true.
    intros [?|[-> ?]] [?|[-> ?]]; eauto using klt_trans.
  - intros [a b] [a' b']; cbn. rewrite !orb_false_iff. intros [? Hb] [? Hb'].
    assert (a = a') as -> by (by apply klt_total).
    rewrite bool_decide_true in * by done. cbn in *. f_equal. by apply klt_total.
Qed.

#[global] Instance option_order {A} `{KeyOrder A} : KeyOrder (option A) :=
  fun x y => match x, y with
             | None, Some _ => true | Some a, Some b => klt a b | _, None => false
             end.
#[global] Instance option_order_laws {A} `{KeyOrderLaws A} : KeyOrderLaws (option A).
Proof.
  constructor; unfold klt, option_order.
  - intros [a|]; [apply klt_irrefl|done].
  - intros [a|] [b|] [c|]; try done. apply klt_trans.
  - intros [a|] [b|]; try done. intros. f_equal. by apply klt_total.
Qed.

(** The order by an injective key. *)
Lemma order_by_laws {A B} (f : A -> B) `{KeyOrderLaws B} :
  (forall a b, f a = f b -> a = b) -> @KeyOrderLaws A (fun a b => klt (f a) (f b)).
Proof.
  intros Hf. constructor.
  - intros a. exact (klt_irrefl (f a)).
  - intros a b c. exact (klt_trans (f a) (f b) (f c)).
  - intros a b H1 H2. exact (Hf _ _ (klt_total (f a) (f b) H1 H2)).
Qed.

(** ** Operations *)

Section btree.
Context {K V : Type} `{EqDecision K, KeyOrder K}.
Implicit Types (m : list (K * V)) (k : K) (v : V).

Fixpoint bt_get m k : option V :=
  match m with
  | [] => None
  | (k', v) :: m => if decide (k = k') then Some v else bt_get m k
  end.

Definition bt_contains_key m k : bool :=
  match bt_get m k with Some _ => true | None => false end.

Fixpoint bt_insert m k v : list (K * V) :=
  match m with
  | [] => [(k, v)]
  | (k', v') :: m' =>
      if decide (k = k') then (k, v) :: m'
      else if klt k k' then (k, v) :: m
      else (k', v') :: bt_insert m' k v
  end.

Definition bt_remove m k : list (K * V) :=
  List.filter (fun kv => negb (bool_decide (kv.1 = k))) m.

Definition bt_retain (f : K -> V -> bool) m : list (K * V) :=
  List.filter (fun kv => f kv.1 kv.2) m.

Definition bt_sorted m : Prop :=
  StronglySorted (fun a b : K * V => klt a.1 b.1 = true) m.
End btree.

Section btree_lemmas.
Context {K V : Type} `{EqDecision K, KeyOrderLaws K}.
Implicit Types (m : list (K * V)) (k : K) (v : V).

Lemma klt_ne (a b : K) : klt a b = true -> a <> b.
Proof. intros Hlt ->. by rewrite klt_irrefl in Hlt. Qed.

Lemma bt_sorted_cons k v m :
  bt_sorted ((k, v) :: m) <->
  Forall (fun kv : K * V => klt k kv.1 = true) m /\ bt_sorted m.
Proof.
  unfold bt_sorted. split; [intros Hs; inversion Hs; subst; done|].
  intros [? ?]. by constructor.
Qed.

Lemma bt_get_In m k v : bt_get m k = Some v -> In (k, v) m.
Proof.
  induction m as [|[k' v'] m IH]; cbn; [done|].
  destruct (decide (k = k')) as [->|]; [intros [= ->]|]; auto.
Qed.

Lemma bt_get_None m k : bt_get m k = None <-> ~ In k m.*1.
Proof.
  induction m as [|[k' v'] m IH]; cbn; [tauto|].
  destruct (decide (k = k')) as [->|Hne]; [split; [done|tauto]|].
  rewrite IH. split; [intros Hm [->|]; done|tauto].
Qed.

Lemma bt_get_above m k k0 :
  Forall (fun kv : K * V => klt k0 kv.1 = true) m -> ~ klt k0 k = true -> bt_get m k = None.
Proof.
  intros HF Hk. apply bt_get_None. intros (x & <- & Hin)%in_map_iff.
  rewrite List.Forall_forall in HF. by apply HF in Hin.
Qed.

Lemma bt_In_get m k v : bt_sorted m -> In (k, v) m <-> bt_get m k = Some v.
Proof.
  intros Hs. split; [|apply bt_get_In]. revert Hs.
  induction m as [|[k' v'] m IH]; cbn; [done|].
  intros [HF Hs]%bt_sorted_cons [[= -> ->]|Hin]; [by rewrite decide_True|].
  destruct (decide (k = k')) as [->|]; [|auto].
  rewrite List.Forall_forall in HF. apply HF in Hin. cbn in Hin. by rewrite klt_irrefl in Hin.
Qed.

Lemma bt_get_insert m k v k' :
  bt_get (bt_insert m k v) k' = if decide (k' = k) then Some v else bt_get m k'.
Proof.
  induction m as [|[k0 v0] m IH]; cbn; [done|].
  destruct (decide (k = k0)) as [->|Hne]; cbn.
  - destruct (decide (k' = k0)); done.
  - destruct (klt k k0); cbn; [done|]. rewrite IH.
    destruct (decide (k' = k)) as [->|]; [|done]. by rewrite decide_False.
Qed.

Lemma bt_insert_Forall (P : K * V -> Prop) m k v :
  Forall P m -> P (k, v) -> Forall P (bt_insert m k v).
Proof.
  intros HF Hp. induction HF as [|[k' v'] m Hx HF IH]; cbn; [by repeat constructor|].
  destruct (decide (k = k')); [by constructor|].
  destruct (klt k k'); repeat constructor; auto.
Qed.

Lemma bt_insert_sorted m k v : bt_sorted m -> bt_sorted (bt_insert m k v).
Proof.
  induction m as [|[k' v'] m IH]; cbn; [repeat constructor|].
  intros [HF Hs]%bt_sorted_cons.
  destruct (decide (k = k')) as [->|Hne]; [by apply bt_sorted_cons|].
  destruct (klt k k') eqn:E; apply bt_sorted_cons.
  - split; [|by apply bt_sorted_cons]. constructor; [done|].
    eapply List.Forall_impl; [|done]. cbn. eauto using klt_trans.
  - split; [|by apply IH]. apply bt_insert_Forall; [done|]. cbn.
    destruct (klt k' k) eqn:E'; [done|]. by destruct Hne; apply klt_total.
Qed.

Lemma zlen_bt_insert m k v :
  bt_sorted m ->
  zlen (bt_insert m k v) = if bt_contains_key m k then zlen m else zlen m + 1.
Proof.
  unfold bt_contains_key.
  induction m as [|[k' v'] m IH]; cbn [bt_insert bt_get]; [done|].
  intros [HF Hs]%bt_sorted_cons.
  destruct (decide (k = k')) as [->|Hne]; [by rewrite !zlen_cons|].
  destruct (klt k k') eqn:E.
  - rewrite (bt_get_above m k k'); [lens|done|].
    intros E'. pose proof (klt_trans _ _ _ E E') as Hk. by rewrite klt_irrefl in Hk.
  - rewrite !zlen_cons, IH by done. destruct (bt_get m k); lia.
Qed.

Lemma filter_sorted (f : K * V -> bool) m : bt_sorted m -> bt_sorted (List.filter f m).
Proof.
  induction m as [|[k v] m IH]; cbn; [done|].
  intros [HF Hs]%bt_sorted_cons. destruct (f (k, v)); [|auto].
  apply bt_sorted_cons. split; [|auto].
  rewrite List.Forall_forall in *. intros x [? _]%filter_In. auto.
Qed.

Lemma bt_get_filter (f : K * V -> bool) m k :
  bt_sorted m ->
  bt_get (List.filter f m) k =
  match bt_get m k with Some v => if f (k, v) then Some v else None | None => None end.
Proof.
  induction m as [|[k' v'] m IH]; [done|]. cbn [List.filter bt_get].
  intros [HF Hs]%bt_sorted_cons. destruct (f (k', v')) eqn:Ef; cbn [bt_get]; rewrite IH by done;
    destruct (decide (k = k')) as [->|]; rewrite ?Ef; try done.
  rewrite (bt_get_above m k' k'); [done..|]. by rewrite klt_irrefl.
Qed.

Lemma bt_get_remove m k k' :
  bt_sorted m -> bt_get (bt_remove m k) k' = if decide (k' = k) then None else bt_get m k'.
Proof.
  intros Hs. unfold bt_remove. rewrite bt_get_filter by done. cbn [fst].
  destruct (decide (k' = k)) as [->|Hne].
  - rewrite bool_decide_true by done. by destruct (bt_get m k).
  - rewrite bool_decide_false by done. by destruct (bt_get m k').
Qed.

Lemma bt_get_retain f m k :
  bt_sorted m ->
  bt_get (bt_retain f m) k =
  match bt_get m k with Some v => if f k v then Some v else None | None => None end.
Proof. intros. unfold bt_retain. by rewrite bt_get_filter. Qed.

Lemma zlen_filter_le {A} (f : A -> bool) (l : list A) : zlen (List.filter f l) <= zlen l.
Proof. induction l as [|x l IH]; cbn; [done|]. destruct (f x); lens. Qed.

Lemma filter_zlen_eq {A} (f : A -> bool) (l : list A) :
  zlen (List.filter f l) = zlen l -> List.filter f l = l.
Proof.
  induction l as [|x l IH]; cbn; [done|].
  pose proof (zlen_filter_le f l). destruct (f x); rewrite !zlen_cons; [|lens].
  intros E. f_equal. apply IH. lia.
Qed.

Lemma zlen_bt_remove m k :
  bt_sorted m -> bt_contains_key m k = true -> zlen (bt_remove m k) = zlen m - 1.
Proof.
  unfold bt_contains_key, bt_remove.
  induction m as [|[k' v'] m IH]; cbn [bt_get List.filter fst]; [done|].
  intros [HF Hs]%bt_sorted_cons. destruct (decide (k = k')) as [->|Hne].
  - intros _. rewrite bool_decide_true by done. cbn [negb].
    assert (List.filter (fun kv : K * V => negb (bool_decide (kv.1 = k'))) m = m) as ->; [|lens].
    clear -HF H0. induction HF as [|[a b] l Hx HF IH]; cbn [List.filter]; [done|].
    rewrite bool_decide_false; [|by intros Heq; apply klt_ne in Hx; cbn in *; congruence].
    cbn [negb]. by f_equal.
  - intros Hc. rewrite bool_decide_false by done. cbn [negb].
    rewrite !zlen_cons, IH by done. lia.
Qed.

Lemma bt_remove_absent m k : bt_get m k = None -> bt_remove m k = m.
Proof.
  unfold bt_remove. induction m as [|[k' v'] m IH]; cbn [bt_get List.filter fst]; [done|].
  destruct (decide (k = k')); [done|]. intros Hk.
  rewrite bool_decide_false by done. cbn [negb]. f_equal. auto.
Qed.

Lemma bt_sorted_NoDup m : bt_sorted m -> List.NoDup m.*1.
Proof.
  induction m as [|[k v] m IH]; cbn; [constructor|].
  intros [HF Hs]%bt_sorted_cons. constructor; [|auto].
  apply bt_get_None. apply (bt_get_above m k k); [done|]. by rewrite klt_irrefl.
Qed.

(** Two maps with the same bindings are equal. *)
Lemma bt_ext m1 m2 :
  bt_sorted m1 -> bt_sorted m2 -> (forall k, bt_get m1 k = bt_get m2 k) -> m1 = m2.
Proof.
  revert m2. induction m1 as [|[k1 v1] m1 IH]; intros m2 H1 H2 Heq.
  - destruct m2 as [|[k v] m2]; [done|]. specialize (Heq k). cbn in Heq.
    by rewrite decide_True in Heq.
  - destruct m2 as [|[k2 v2] m2].
    { specialize (Heq k1). cbn in Heq. by rewrite decide_True in Heq. }
    apply bt_sorted_cons in H1 as [HF1 Hs1]. apply bt_sorted_cons in H2 as [HF2 Hs2].
    assert (k1 = k2) as ->.
    { destruct (decide (k1 = k2)) as [|Hne]; [done|].
      pose proof (Heq k1) as E1. pose proof (Heq k2) as E2. cbn in E1, E2.
      rewrite decide_True, decide_False in E1 by done.
      rewrite decide_False, decide_True in E2 by congruence.
      symmetry in E1. apply bt_get_In in E1. apply bt_get_In in E2.
      rewrite List.Forall_forall in HF1, HF2.
      apply HF2 in E1. apply HF1 in E2. cbn in E1, E2.
      pose proof (klt_trans _ _ _ E2 E1) as Hk. by rewrite klt_irrefl in Hk. }
    pose proof (Heq k2) as E. cbn in E. rewrite !decide_True in E by done.
    injection E as ->. f_equal. apply IH; [done..|]. intros k.
    specialize (Heq k). cbn in Heq. destruct (decide (k = k2)) as [->|]; [|done].
    rewrite !(bt_get_above _ k2 k2); [done..|by rewrite klt_irrefl|done|by rewrite klt_irrefl].
Qed.
End btree_lemmas.

#[export] Hint Resolve bt_insert_sorted filter_sorted : rx.
