(* ===== verification/Sort.v ===== *)
(** * Sorting ([slice::sort], [sort_by_key] of the Rust standard library)

    A stable sort for a total preorder given as a boolean: insertion sort has
    the same results as the library's, which is all the code relies on.  The
    rule tables sort by decreasing key; record sets sort their octets. *)
From Stdlib Require Import Sorted Permutation.
From S2P Require Import Prelude Wire Prng Name BTree.

Section stable_sort.
Context {A : Type} (ge : A -> A -> bool).

Fixpoint sort_insert (x : A) (l : list A) : list A :=
  match l with
  | [] => [x]
  | y :: l' => if ge x y then x :: l else y :: sort_insert x l'
  end.

Fixpoint stable_sort (l : list A) : list A :=
  match l with [] => [] | x :: l => sort_insert x (stable_sort l) end.

Lemma sort_insert_perm x l : Permutation (sort_insert x l) (x :: l).
Proof.
  induction l as [|y l IH]; cbn; [done|]. destruct (ge x y); [done|].
  rewrite IH. apply perm_swap.
Qed.

Lemma stable_sort_perm l : Permutation (stable_sort l) l.
Proof. induction l as [|x l IH]; cbn; [done|]. by rewrite sort_insert_perm, IH. Qed.

Context (ge_total : forall x y, ge x y = true \/ ge y x = true)
        (ge_trans : forall x y z, ge x y = true -> ge y z = true -> ge x z = true).

Lemma sort_insert_sorted x l :
  StronglySorted (fun a b => ge a b = true) l ->
  StronglySorted (fun a b => ge a b = true) (sort_insert x l).
Proof.
  induction 1 as [|y l Hs IH Hy]; cbn; [by repeat constructor|].
  destruct (ge x y) eqn:E.
  - repeat constructor; [done..|]. eapply List.Forall_impl; [|exact Hy]. cbn. eauto.
  - constructor; [done|]. eapply Permutation_Forall; [symmetry; apply sort_insert_perm|].
    constructor; [|done]. by destruct (ge_total x y) as [H|H]; [rewrite H in E|].
Qed.

Lemma stable_sort_sorted l : StronglySorted (fun a b => ge a b = true) (stable_sort l).
Proof. induction l as [|x l IH]; cbn; [constructor|by apply sort_insert_sorted]. Qed.

(** Sorting commutes with filtering: the elements kept stay in their order. *)
Lemma sort_insert_filter (f : A -> bool) x l :
  StronglySorted (fun a b => ge a b = true) l ->
  List.filter f (sort_insert x l) =
  if f x then sort_insert x (List.filter f l) else List.filter f l.
Proof.
  induction 1 as [|y l Hs IH Hy]; cbn [sort_insert List.filter]; [by destruct (f x)|].
  destruct (ge x y) eqn:E; cbn [List.filter].
  - destruct (f x); [|done]. destruct (f y); cbn [sort_insert]; [by rewrite E|].
    assert (Forall (fun b => ge x b = true) (List.filter f l)) as Hx.
    { apply List.Forall_forall. intros z Hz. apply filter_In in Hz as [Hz _].
        rewrite List.Forall_forall in Hy. eapply ge_trans; [exact E|by apply Hy]. }
    destruct (List.filter f l) as [|z l']; cbn [sort_insert]; [done|].
    by rewrite (List.Forall_inv Hx).
  - rewrite IH. destruct (f y), (f x); cbn [sort_insert]; by rewrite ?E.
Qed.

Lemma stable_sort_filter (f : A -> bool) l :
  List.filter f (stable_sort l) = stable_sort (List.filter f l).
Proof.
  induction l as [|x l IH]; cbn [stable_sort List.filter]; [done|].
  rewrite sort_insert_filter by apply stable_sort_sorted. rewrite IH. by destruct (f x).
Qed.

(** Under an antisymmetric order the sorted list is a function of the set of
    elements alone. *)
Lemma sorted_perm_eq l1 l2 :
  (forall x y, In x l1 -> In y l1 -> ge x y = true -> ge y x = true -> x = y) ->
  StronglySorted (fun a b => ge a b = true) l1 -> StronglySorted (fun a b => ge a b = true) l2 ->
  Permutation l1 l2 -> l1 = l2.
Proof.
  intros anti H1. revert anti l2. induction H1 as [|x l1 Hs IH Hx]; intros anti l2 H2 P.
  - apply Permutation_nil in P. done.
  - destruct H2 as [|y l2 Hs2 Hy]; [by apply Permutation_sym, Permutation_nil in P|].
    assert (x = y) as ->.
    { assert (In x (y :: l2)) as [->|Ix] by (eapply Permutation_in; [exact P|by left]); [done|].
      assert (In y (x :: l1)) as [->|Iy]
        by (eapply Permutation_in; [symmetry; exact P|by left]); [done|].
      rewrite List.Forall_forall in Hx, Hy. apply anti; [by left|by right|auto..]. }
    f_equal. apply IH; [|done|by apply Permutation_cons_inv in P]. intros a b ? ?. apply anti; by right.
Qed.

Lemma stable_sort_unique (ge_antisym : forall x y, ge x y = true -> ge y x = true -> x = y) l1 l2 :
  Permutation l1 l2 -> stable_sort l1 = stable_sort l2.
Proof.
  intros P. apply sorted_perm_eq; [auto|apply stable_sort_sorted..|].
  by rewrite !stable_sort_perm.
Qed.
End stable_sort.

Lemma filter_perm {A} (f : A -> bool) l l' : Permutation l l' -> Permutation (List.filter f l) (List.filter f l').
Proof.
  induction 1; cbn [List.filter]; [done|by case_match; [constructor|]|by repeat case_match; try constructor|].
  by etransitivity.
Qed.

(** Comparisons that agree on the elements sort alike. *)
Lemma stable_sort_ext {A} (ge ge' : A -> A -> bool) l :
  (forall x y, In x l -> In y l -> ge x y = ge' x y) -> stable_sort ge l = stable_sort ge' l.
Proof.
  induction l as [|x l IH]; intros E; cbn [stable_sort]; [done|].
  rewrite IH by (intros; apply E; by right).
  assert (forall y, In y (stable_sort ge' l) -> ge x y = ge' x y) as Ex.
  { intros y Hy. apply E; [by left|right]. eapply Permutation_in; [|exact Hy]. apply stable_sort_perm. }
  clear -Ex. induction (stable_sort ge' l) as [|y s IH]; cbn [sort_insert]; [done|].
  rewrite Ex by (by left). rewrite IH by (intros; apply Ex; by right). done.
Qed.

(** Sorting by a key sorts the keys. *)
Lemma stable_sort_map {A B} (h : A -> B) (ge : B -> B -> bool) l :
  map h (stable_sort (fun x y => ge (h x) (h y)) l) = stable_sort ge (map h l).
Proof.
  induction l as [|x l IH]; cbn [stable_sort map]; [done|]. rewrite <- IH.
  clear IH. induction (stable_sort _ l) as [|y s IHs]; cbn [sort_insert map]; [done|].
  destruct (ge (h x) (h y)); cbn [map]; [done|]. f_equal. exact IHs.
Qed.

(** The non-strict order of a key. *)
Definition kle {K} `{KeyOrder K} (a b : K) : bool := negb (klt b a).

Section kle.
Context {K : Type} `{KeyOrderLaws K}.
Implicit Types a b c : K.

Lemma kle_total a b : kle a b = true \/ kle b a = true.
Proof.
  unfold kle. destruct (klt b a) eqn:E1; [|by left]. right.
  destruct (klt a b) eqn:E2; [|done].
  pose proof (klt_trans _ _ _ E1 E2) as Hc. by rewrite klt_irrefl in Hc.
Qed.

Lemma kle_antisym a b : kle a b = true -> kle b a = true -> a = b.
Proof. unfold kle. rewrite !negb_true_iff. intros H1 H2. by apply klt_total. Qed.

Lemma kle_trans a b c : kle a b = true -> kle b c = true -> kle a c = true.
Proof.
  unfold kle. rewrite !negb_true_iff. intros H1 H2. destruct (klt c a) eqn:E; [|done].
  destruct (klt a b) eqn:E3.
  - pose proof (klt_trans c a b E E3). congruence.
  - assert (a = b) as -> by (by apply klt_total). congruence.
Qed.
End kle.

(** The order of [Vec<Vec<u8>>::sort]: octet strings, ascending. *)
Definition list_le (a b : list Z) : bool := negb (list_lt b a).

(** [items.sort()] *)
Definition sort_octets : list (list Z) -> list (list Z) := stable_sort list_le.

Lemma sort_octets_perm l : Permutation (sort_octets l) l.
Proof. apply stable_sort_perm. Qed.

Lemma sort_octets_sorted l : StronglySorted (fun a b => list_le a b = true) (sort_octets l).
Proof. apply stable_sort_sorted; [apply (kle_total (K := list Z))|apply (kle_trans (K := list Z))]. Qed.

Lemma sort_octets_unique l1 l2 : Permutation l1 l2 -> sort_octets l1 = sort_octets l2.
Proof. apply stable_sort_unique; [apply (kle_total (K := list Z))|apply (kle_trans (K := list Z))|apply (kle_antisym (K := list Z))]. Qed.
