(* ===== verification/Bounded.v ===== *)
(** * Capacity sweeps ([src/bounded.rs])

    [evict_for_capacity] frees room in a full table: the stale entries if there
    are any, else every [stride]-th entry, else the single oldest one.  It is
    generic in the key, as the code is; its clients (the fake-IP spaces, the
    rate limiter) use [evict_shrinks], [evict_incl] and [evict_sorted]. *)
From S2P Require Import Prelude Wire Prng Name BTree.

Section evict.
Context {K V : Type} `{EqDecision K, KeyOrder K}.
Context (stamp : V -> Z).

(** The second [retain]: the counter [idx] is threaded through the visit. *)
Fixpoint retain_stride (stride idx : Z) (m : list (K * V)) : list (K * V) :=
  match m with
  | [] => []
  | kv :: m =>
      let idx := idx + 1 in
      if negb (idx mod stride =? 0) then kv :: retain_stride stride idx m
      else retain_stride stride idx m
  end.

(** [iter().min_by_key(stamp)]: the first of the least. *)
Fixpoint min_by_stamp (best : K * V) (m : list (K * V)) : K * V :=
  match m with
  | [] => best
  | kv :: m => min_by_stamp (if stamp kv.2 <? stamp best.2 then kv else best) m
  end.

Definition oldest (m : list (K * V)) : option K :=
  match m with [] => None | kv :: m => Some (min_by_stamp kv m).1 end.

Definition evict_for_capacity (m : list (K * V)) (stale_before stride : Z)
    : Z * list (K * V) :=
  if zlen m =? 0 then (0, m) else
  let before := zlen m in
  let stride := Z.max stride 2 in
  let m := bt_retain (fun _ v => stale_before <=? stamp v) m in
  if zlen m <? before then (before - zlen m, m) else
  let m := retain_stride stride 0 m in
  if zlen m <? before then (before - zlen m, m) else
  let m := match oldest m with Some k => bt_remove m k | None => m end in
  (before - zlen m, m).
End evict.

(** ** Lemmas *)

Section evict_lemmas.
Context {K V : Type} `{EqDecision K, KeyOrderLaws K}.
Context (stamp : V -> Z).
Implicit Types (m : list (K * V)).

Lemma retain_stride_In stride idx m kv : In kv (retain_stride stride idx m) -> In kv m.
Proof.
  revert idx. induction m as [|x m IH]; intros idx; cbn; [done|].
  destruct (negb _); cbn; [intros [->|?]|]; eauto.
Qed.

Lemma retain_stride_sorted stride idx m : bt_sorted m -> bt_sorted (retain_stride stride idx m).
Proof.
  revert idx. induction m as [|[k v] m IH]; intros idx; cbn; [done|].
  intros [HF Hs]%bt_sorted_cons. destruct (negb _); [|auto].
  apply bt_sorted_cons. split; [|auto]. rewrite List.Forall_forall in *.
  intros x Hx%retain_stride_In. auto.
Qed.

(** One entry in [stride] goes. *)
Lemma zlen_retain_stride stride idx m :
  2 <= stride ->
  zlen (retain_stride stride idx m) =
  zlen m - ((idx + zlen m) / stride - idx / stride).
Proof.
  intros Hs. revert idx. induction m as [|kv m IH]; intros idx; cbn [retain_stride].
  { rewrite zlen_nil, Z.add_0_r. lia. }
  rewrite (zlen_cons kv m), Z.add_assoc.
  assert ((idx + 1) / stride = idx / stride + if (idx + 1) mod stride =? 0 then 1 else 0) as E.
  { pose proof (Z.div_mod idx stride). pose proof (Z.mod_pos_bound idx stride).
    pose proof (Z.div_mod (idx + 1) stride). pose proof (Z.mod_pos_bound (idx + 1) stride).
    destruct (_ =? 0) eqn:E; bools; nia. }
  destruct ((idx + 1) mod stride =? 0) eqn:Em; cbn [negb]; rewrite ?zlen_cons, IH, E; lia.
Qed.

Lemma min_by_stamp_spec best m :
  In (min_by_stamp stamp best m) (best :: m) /\
  forall kv, In kv (best :: m) -> stamp (min_by_stamp stamp best m).2 <= stamp kv.2.
Proof.
  revert best. induction m as [|x m IH]; intros best; cbn [min_by_stamp].
  { split; [by left|]. intros kv [->|[]]. lia. }
  destruct (IH (if stamp x.2 <? stamp best.2 then x else best)) as [Hin Hle].
  split.
  - destruct Hin as [<-|]; [|by right; right]. destruct (_ <? _); [right|]; by left.
  - intros kv Hkv. pose proof (Hle (if stamp x.2 <? stamp best.2 then x else best)) as Hb.
    specialize (Hb (or_introl eq_refl)).
    destruct (stamp x.2 <? stamp best.2) eqn:E; bools;
      destruct Hkv as [->|[->|Hkv]]; try lia; by apply Hle; right.
Qed.

Lemma oldest_spec m k :
  oldest stamp m = Some k ->
  exists v, In (k, v) m /\ forall kv, In kv m -> stamp v <= stamp kv.2.
Proof.
  destruct m as [|kv m]; cbn; [done|]. intros [= <-].
  destruct (min_by_stamp_spec kv m) as [Hin Hle].
  exists (min_by_stamp stamp kv m).2. by destruct (min_by_stamp stamp kv m).
Qed.

Lemma retain_all f m : zlen (bt_retain f m) >= zlen m -> bt_retain f m = m.
Proof.
  intros Hl. apply filter_zlen_eq. unfold bt_retain in *.
  pose proof (zlen_filter_le (fun kv : K * V => f kv.1 kv.2) m). lia.
Qed.

(** What a sweep of a non-empty table does, case by case. *)
Lemma evict_cases m stale_before stride n m' :
  bt_sorted m -> m <> [] -> evict_for_capacity stamp m stale_before stride = (n, m') ->
  n = zlen m - zlen m' /\
  let fresh := bt_retain (fun _ v => stale_before <=? stamp v) m in
  (zlen fresh < zlen m /\ m' = fresh) \/
  (fresh = m /\ Z.max stride 2 <= zlen m /\ m' = retain_stride (Z.max stride 2) 0 m /\
   n = zlen m / Z.max stride 2) \/
  (fresh = m /\ zlen m < Z.max stride 2 /\ exists k, oldest stamp m = Some k /\ m' = bt_remove m k).
Proof.
  intros Hs Hne. unfold evict_for_capacity. cbn zeta.
  assert (1 <= zlen m) by (destruct m; [done|lens]).
  destruct (zlen m =? 0) eqn:E0; bools; [lia|].
  set (fresh := bt_retain _ m).
  destruct (zlen fresh <? zlen m) eqn:E1; bools.
  { intros [= <- <-]. auto. }
  assert (fresh = m) as -> by (apply retain_all; unfold fresh in *; lia).
  rewrite zlen_retain_stride by lia. rewrite Z.add_0_l, Z.div_0_l, Z.sub_0_r by lia.
  destruct (_ <? _) eqn:E2; bools.
  - intros [= <- <-]. split; [rewrite zlen_retain_stride by lia; rewrite Z.add_0_l, Z.div_0_l; lia|].
    right; left. split; [done|]. split; [|split; [done|lia]].
    destruct (Z.le_gt_cases (Z.max stride 2) (zlen m)); [done|].
    rewrite Z.div_small in E2; lia.
  - assert (zlen m < Z.max stride 2).
    { destruct (Z.le_gt_cases (Z.max stride 2) (zlen m)) as [Hle|]; [|lia].
      apply (Z.div_le_mono _ _ (Z.max stride 2)) in Hle; [|lia]. rewrite Z.div_same in Hle; lia. }
    assert (retain_stride (Z.max stride 2) 0 m = m) as ->.
    { assert (forall idx, 0 <= idx -> idx + zlen m < Z.max stride 2 ->
        retain_stride (Z.max stride 2) idx m = m) as Hall; [|apply Hall; lia].
      clear. induction m as [|x m IH]; intros idx Hi Hb; cbn [retain_stride]; [done|].
      rewrite zlen_cons in Hb. len_facts.
      rewrite Z.mod_small by lia. decide_ifs. f_equal. apply IH; lia. }
    intros [= <- <-]. split; [done|]. right; right. split; [done|]. split; [done|].
    destruct m as [|kv m]; [done|]. eexists. split; reflexivity.
Qed.

Lemma evict_shrinks m stale_before stride :
  bt_sorted m -> m <> [] ->
  zlen (evict_for_capacity stamp m stale_before stride).2 < zlen m.
Proof.
  intros Hs Hne. destruct (evict_for_capacity _ _ _ _) as [n m'] eqn:E. cbn [snd].
  assert (1 <= zlen m) by (destruct m; [done|lens]).
  apply evict_cases in E as (-> & [(? & ->)|[(? & ? & -> & Hn)|(? & ? & k & Hk & ->)]]); [done| |..].
  - assert (1 <= zlen m / Z.max stride 2) by (apply Z.div_le_lower_bound; lia). lia.
  - apply oldest_spec in Hk as (v & Hv & _). rewrite zlen_bt_remove; [lia|done|].
    unfold bt_contains_key. by rewrite (proj1 (bt_In_get m k v Hs) Hv).
  - done.
  - done.
Qed.

Lemma evict_sorted m stale_before stride :
  bt_sorted m -> bt_sorted (evict_for_capacity stamp m stale_before stride).2.
Proof.
  intros Hs. destruct (decide (m = [])) as [->|Hne]; [done|].
  destruct (evict_for_capacity _ _ _ _) as [n m'] eqn:E. cbn [snd].
  apply evict_cases in E as (_ & [(? & ->)|[(? & ? & -> & Hn)|(? & ? & k & Hk & ->)]]); try done.
  - by apply filter_sorted.
  - by apply retain_stride_sorted.
  - by apply filter_sorted.
Qed.

Lemma evict_incl m stale_before stride kv :
  bt_sorted m -> In kv (evict_for_capacity stamp m stale_before stride).2 -> In kv m.
Proof.
  intros Hs. destruct (decide (m = [])) as [->|Hne]; [done|].
  destruct (evict_for_capacity _ _ _ _) as [n m'] eqn:E. cbn [snd].
  apply evict_cases in E as (_ & [(? & ->)|[(? & ? & -> & Hn)|(? & ? & k & Hk & ->)]]); try done.
  - by intros [? _]%filter_In.
  - apply retain_stride_In.
  - by intros [? _]%filter_In.
Qed.
End evict_lemmas.

(** a sweep of a non-empty table always frees room and reports exactly how
    much; it only removes entries.  If some entry is stale, it removes the
    stale entries and no other; otherwise it removes one entry in [stride]
    (at least 2), and the single oldest entry when the table is smaller than
    that. *)
Theorem evict_for_capacity_spec {K V} `{EqDecision K, KeyOrderLaws K} (stamp : V -> Z)
    (m m' : list (K * V)) (stale_before stride n : Z) :
  bt_sorted m -> m <> [] ->
  evict_for_capacity stamp m stale_before stride = (n, m') ->
  bt_sorted m' /\ n = zlen m - zlen m' /\ 1 <= n /\
  (forall k v, bt_get m' k = Some v -> bt_get m k = Some v) /\
  let s := Z.max stride 2 in
  ((exists k v, bt_get m k = Some v /\ stamp v < stale_before) ->
     forall k, bt_get m' k =
       match bt_get m k with Some v => if stale_before <=? stamp v then Some v else None | None => None end) /\
  ((forall k v, bt_get m k = Some v -> stale_before <= stamp v) ->
     if s <=? zlen m then n = zlen m / s
     else n = 1 /\ exists k v, bt_get m k = Some v /\ m' = bt_remove m k /\
            forall k' v', bt_get m k' = Some v' -> stamp v <= stamp v').
Proof.
  intros Hs Hne E. assert (1 <= zlen m) by (destruct m; [done|lens]).
  pose proof (evict_shrinks stamp m stale_before stride Hs Hne) as Hsh.
  pose proof (evict_sorted stamp m stale_before stride Hs) as Hso.
  pose proof (fun kv => evict_incl stamp m stale_before stride kv Hs) as Hin.
  rewrite E in Hsh, Hso, Hin. cbn [snd] in *.
  destruct (evict_cases stamp _ _ _ _ _ Hs Hne E) as [-> Hc]. cbn zeta in *.
  split; [done|]. split; [done|]. split; [lia|]. split.
  { intros k v Hk%bt_get_In. apply bt_In_get; auto. }
  assert (bt_retain (fun _ v => stale_before <=? stamp v) m = m ->
          forall k v, bt_get m k = Some v -> stale_before <= stamp v) as Hfresh.
  { intros Hall k v Hk. pose proof (bt_get_retain (fun _ v => stale_before <=? stamp v) m k Hs) as Hg.
    rewrite Hall, Hk in Hg. destruct (_ <=? _) eqn:El; bools; [done|by simplify_eq]. }
  split.
  - intros (k & v & Hk & Hst) k'. destruct Hc as [(_ & ->)|[(Hf & _)|(Hf & _)]].
    + by apply bt_get_retain.
    + specialize (Hfresh Hf k v Hk). lia.
    + specialize (Hfresh Hf k v Hk). lia.
  - intros Hall. destruct Hc as [(Hlt & _)|[(_ & Hle & _ & Hn)|(_ & Hlt & k & Hk & ->)]].
    + assert (bt_retain (fun _ v => stale_before <=? stamp v) m = m) as Heq; [|rewrite Heq in Hlt; lia].
      apply bt_ext; [by apply filter_sorted|done|]. intros k.
      rewrite bt_get_retain by done. destruct (bt_get m k) eqn:Ek; [|done].
      by rewrite (proj2 (Z.leb_le _ _) (Hall _ _ Ek)).
    + decide_ifs. done.
    + decide_ifs. apply oldest_spec in Hk as (v & Hv & Hmin).
      apply bt_In_get in Hv; [|done]. split.
      { rewrite zlen_bt_remove; [lia|done|]. unfold bt_contains_key. by rewrite Hv. }
      exists k, v. split; [done|]. split; [done|].
      intros k' v' Hk'%bt_get_In. by apply Hmin in Hk'.
Qed.

Lemma evict_for_capacity_spec_witness :
  let m : list (Z * Z) := [(1, 5); (2, 9); (3, 7)] in
  bt_sorted m /\ evict_for_capacity id m 8 8 = (2, [(2, 9)]) /\
  2 = zlen m - zlen [(2, 9)] /\ evict_for_capacity id m 0 8 = (1, [(2, 9); (3, 7)]).
Proof.
  assert (bt_sorted [(1, 5); (2, 9); (3, 7)]) as Hs by (repeat constructor).
  split; [exact Hs|]. split; [reflexivity|]. split; [|reflexivity].
  apply (evict_for_capacity_spec id [(1, 5); (2, 9); (3, 7)] [(2, 9)] 8 8 2); [exact Hs|discriminate|reflexivity].
Defined.
