(* ===== verification/Time.v ===== *)
(** * Time ([src/time.rs])

    Timestamps are signed 128-bit nanosecond counts; the arithmetic saturates.
    The clocks, and the rendering of a timestamp, are outside the model: every
    operation takes [now] as an argument, as the code does. *)
From S2P Require Import Prelude.

Abbreviation Ts := Z (only parsing).

Definition NS_PER_SEC : Z := 1000000000.
Definition NS_PER_MS : Z := 1000000.

Definition clamp_i128 (t : Z) : Ts := Z.max i128_min (Z.min i128_max t).
Definition ts_saturating_add (a b : Ts) : Ts := clamp_i128 (a + b).
Definition ts_saturating_sub (a b : Ts) : Ts := clamp_i128 (a - b).

Definition add_secs (t : Ts) (secs : Z) : Ts := ts_saturating_add t (secs * NS_PER_SEC).
Definition add_ms (t : Ts) (ms : Z) : Ts := ts_saturating_add t (ms * NS_PER_MS).
Definition sub_secs (t : Ts) (secs : Z) : Ts := ts_saturating_sub t (secs * NS_PER_SEC).

(** The low [w] bits, as a signed integer: a cast, or an unchecked operation. *)
Definition signed (w v : Z) : Z :=
  let u := wrap w v in if 2 ^ (w - 1) <=? u then u - 2 ^ w else u.
Definition as_i64 (v : Z) : Z := signed 64 v.

(** Signed division truncates towards zero; [as u32] is exact after the
    [min] unless the difference has overflowed. *)
Definition remaining_secs (now deadline : Ts) : Z :=
  if deadline <=? now then 0
  else wrap 32 (Z.min (Z.quot (signed 128 (deadline - now)) NS_PER_SEC) u32_max).

Definition to_secs (t : Ts) : Z := as_i64 (Z.quot t NS_PER_SEC).
Definition from_secs (s : Z) : Ts := s * NS_PER_SEC.

Definition ts_ok (t : Ts) : Prop := i128_min <= t <= i128_max.

Lemma clamp_i128_ok t : ts_ok (clamp_i128 t).
Proof. unfold ts_ok, clamp_i128, i128_min, i128_max. lia. Qed.

Lemma signed_small w v : 0 < w -> 0 <= v < 2 ^ (w - 1) -> signed w v = v.
Proof.
  intros Hw Hv. unfold signed, wrap.
  assert (2 ^ w = 2 * 2 ^ (w - 1)) as E by (rewrite <- Z.pow_succ_r by lia; f_equal; lia).
  rewrite Z.mod_small by lia. by decide_ifs.
Qed.

Lemma remaining_secs_small now deadline :
  now < deadline -> deadline - now <= i128_max ->
  remaining_secs now deadline = Z.min ((deadline - now) / NS_PER_SEC) u32_max.
Proof.
  unfold remaining_secs, i128_max, NS_PER_SEC, u32_max. intros H1 H2. decide_ifs.
  rewrite signed_small, Z.quot_div_nonneg by lia.
  unfold wrap. apply Z.mod_small.
  assert (0 <= (deadline - now) / 1000000000) by (apply Z.div_pos; lia). lia.
Qed.

(** a deadline set [secs] from now is [secs] seconds away, and the whole
    seconds left never overrun the deadline: waiting them and setting a new
    deadline does not pass the old one (for instants less than [2 ^ 127] nanoseconds
    apart, so that their difference is a timestamp). *)
Theorem remaining_secs_spec now secs deadline :
  ts_ok now -> ts_ok deadline -> deadline - now <= i128_max -> 0 <= secs <= u32_max ->
  ts_ok (add_secs now secs) /\ 0 <= remaining_secs now deadline <= u32_max /\
  (now + secs * NS_PER_SEC <= i128_max -> remaining_secs now (add_secs now secs) = secs) /\
  (now <= deadline -> add_secs now (remaining_secs now deadline) <= deadline) /\
  (now <= deadline -> remaining_secs now deadline < u32_max ->
     deadline - add_secs now (remaining_secs now deadline) < NS_PER_SEC).
Proof.
  intros Hn Hd Hdiff Hs. split; [apply clamp_i128_ok|].
  assert (now + secs * NS_PER_SEC <= i128_max -> remaining_secs now (add_secs now secs) = secs) as Hr.
  { unfold ts_ok, add_secs, ts_saturating_add, clamp_i128 in *. intros Hf.
    replace (Z.max _ _) with (now + secs * NS_PER_SEC) by (unfold NS_PER_SEC in *; lia).
    destruct (decide (secs = 0)) as [->|]; [unfold remaining_secs; by decide_ifs|].
    rewrite remaining_secs_small by (unfold NS_PER_SEC, i128_max, u32_max in *; lia).
    replace (now + secs * NS_PER_SEC - now) with (secs * NS_PER_SEC) by lia.
    rewrite Z.div_mul by done. lia. }
  destruct (Z.le_gt_cases deadline now) as [Hle|Hlt].
  - assert (remaining_secs now deadline = 0) as -> by (unfold remaining_secs; by decide_ifs).
    unfold ts_ok, add_secs, ts_saturating_add, clamp_i128, u32_max in *.
    split; [lia|]. split; [done|]. split; [lia|]. unfold NS_PER_SEC; lia.
  - rewrite remaining_secs_small by done.
    pose proof (Z.div_mod (deadline - now) NS_PER_SEC). pose proof (Z.mod_pos_bound (deadline - now) NS_PER_SEC).
    unfold ts_ok, add_secs, ts_saturating_add, clamp_i128, u32_max, NS_PER_SEC in *.
    set (q := (deadline - now) / 1000000000) in *. split; [lia|]. split; [done|]. lia.
Qed.

Lemma remaining_secs_spec_witness :
  remaining_secs 100 5000000100 = 5 /\ add_secs 100 (remaining_secs 100 5000000100) <= 5000000100.
Proof.
  split; [reflexivity|].
  apply (remaining_secs_spec 100 5 5000000100); unfold ts_ok, i128_min, i128_max, u32_max; lia.
Defined.
