(* ===== verification/Addr.v ===== *)
(** * Addresses and text: what the source uses of [core::net] and [str]

    Addresses are their integer values; the textual parsers follow the
    standard library's.  Strings are their UTF-8 octets. *)
From S2P Require Import Prelude Wire Prng Name.

(** ** Addresses *)

Abbreviation Ipv4Addr := Z (only parsing).
Abbreviation Ipv6Addr := Z (only parsing).

Inductive IpAddr := V4 (a : Ipv4Addr) | V6 (a : Ipv6Addr).

#[global] Instance IpAddr_eq_dec : EqDecision IpAddr.
Proof. solve_decision. Defined.

Definition u128_max : Z := 2 ^ 128 - 1.

Definition v4_octets (a : Ipv4Addr) : list Z := be_bytes 4 a.
Definition v6_octets (a : Ipv6Addr) : list Z := be_bytes 16 a.

Definition ip_ok (ip : IpAddr) : Prop :=
  match ip with V4 a => 0 <= a <= u32_max | V6 a => 0 <= a <= u128_max end.

(** ** Strings *)

(** [White_Space] characters, in UTF-8. *)
Definition white_space : list (list Z) :=
  [[9]; [10]; [11]; [12]; [13]; [32]; [194; 133]; [194; 160]; [225; 154; 128];
   [226; 128; 128]; [226; 128; 129]; [226; 128; 130]; [226; 128; 131]; [226; 128; 132];
   [226; 128; 133]; [226; 128; 134]; [226; 128; 135]; [226; 128; 136]; [226; 128; 137];
   [226; 128; 138]; [226; 128; 168]; [226; 128; 169]; [226; 128; 175]; [226; 129; 159];
   [227; 128; 128]].

Fixpoint strip_prefix (p s : list Z) : option (list Z) :=
  match p, s with
  | [], _ => Some s
  | x :: p, y :: s => if x =? y then strip_prefix p s else None
  | _ :: _, [] => None
  end.

Fixpoint trim_with (pats : list (list Z)) (fuel : nat) (s : list Z) : list Z :=
  match fuel with
  | O => s
  | S fuel =>
      match list_find_map (fun p => strip_prefix p s) pats with
      | Some rest => trim_with pats fuel rest
      | None => s
      end
  end.

Definition trim_start (s : list Z) : list Z := trim_with white_space (length s) s.
Definition trim_end (s : list Z) : list Z :=
  rev (trim_with (map (@rev Z) white_space) (length s) (rev s)).
Definition trim (s : list Z) : list Z := trim_end (trim_start s).

(** [split_once(c)] at the first [c], and [split(c)]. *)
Fixpoint split_once (c : Z) (s : list Z) : option (list Z * list Z) :=
  match s with
  | [] => None
  | x :: s =>
      if x =? c then Some ([], s)
      else match split_once c s with Some (a, b) => Some (x :: a, b) | None => None end
  end.

Fixpoint split_on (c : Z) (s : list Z) : list (list Z) :=
  match s with
  | [] => [[]]
  | x :: s =>
      if x =? c then [] :: split_on c s
      else match split_on c s with
           | part :: parts => (x :: part) :: parts
           | [] => [[x]]
           end
  end.

Fixpoint strip_leading (c : Z) (s : list Z) : list Z :=
  match s with
  | x :: s' => if x =? c then strip_leading c s' else s
  | [] => []
  end.
(** [trim_end_matches(c)] *)
Definition trim_end_matches (c : Z) (s : list Z) : list Z := rev (strip_leading c (rev s)).

(** [u8::from_str] *)
Definition decimal (s : list Z) : option Z :=
  if (zlen s =? 0) || negb (forallb is_ascii_digit s) then None
  else Some (fold_left (fun v b => v * 10 + (b - 48)) s 0).

Definition parse_u8 (s : list Z) : option Z :=
  let digits := match s with 43 :: s' => s' | _ => s end in
  match decimal digits with
  | Some v => if v <=? u8_max then Some v else None
  | None => None
  end.

(** [write!(f, {n})] of a [u8] *)
Definition show_u8 (n : Z) : list Z :=
  if n <? 10 then [48 + n]
  else if n <? 100 then [48 + n / 10; 48 + n mod 10]
  else [48 + n / 100; 48 + n / 10 mod 10; 48 + n mod 10].

(** ** Address parsers *)

Definition to_digit (radix c : Z) : option Z :=
  let d := if is_ascii_digit c then c - 48
           else if (97 <=? c) && (c <=? 102) then c - 87
           else if (65 <=? c) && (c <=? 70) then c - 55 else 255 in
  if d <? radix then Some d else None.

Fixpoint read_digits (radix max : Z) (s : list Z) (acc count : Z) : option (Z * Z * list Z) :=
  match s with
  | c :: s' =>
      match to_digit radix c with
      | Some d =>
          if max <? count + 1 then None
          else read_digits radix max s' (acc * radix + d) (count + 1)
      | None => Some (acc, count, s)
      end
  | [] => Some (acc, count, [])
  end.

Definition read_number (radix max bound : Z) (zero_prefix : bool) (s : list Z)
    : option (Z * list Z) :=
  let leading_zero := match s with 48 :: _ => true | _ => false end in
  match read_digits radix max s 0 0 with
  | Some (v, count, rest) =>
      if (count =? 0) || (negb zero_prefix && leading_zero && (1 <? count)) || (bound <? v)
      then None else Some (v, rest)
  | None => None
  end.

Definition read_given_char (c : Z) (s : list Z) : option (list Z) :=
  match s with x :: s => if x =? c then Some s else None | [] => None end.

Definition read_separator {A} (sep i : Z) (inner : list Z -> option (A * list Z)) (s : list Z)
    : option (A * list Z) :=
  if 0 <? i then s ← read_given_char sep s; inner s else inner s.

Definition read_ipv4_addr (s : list Z) : option (Ipv4Addr * list Z) :=
  let octet i s := read_separator 46 i (read_number 10 3 u8_max false) s in
  '(a, s) ← octet 0 s; '(b, s) ← octet 1 s; '(c, s) ← octet 2 s; '(d, s) ← octet 3 s;
  Some (be_val [a; b; c; d], s).

Definition parse_v4 (s : list Z) : option Ipv4Addr :=
  if 15 <? zlen s then None
  else match read_ipv4_addr s with Some (a, []) => Some a | _ => None end.

(** At most [n] groups from group [i] of [limit]; the flag tells of a trailing
    dotted quad. *)
Fixpoint read_groups (n : nat) (i limit : Z) (s : list Z) : list Z * bool * list Z :=
  match n with
  | O => ([], false, s)
  | S n =>
      match (if i <? limit - 1 then read_separator 58 i read_ipv4_addr s else None) with
      | Some (v4, rest) => ([v4 / 65536; v4 mod 65536], true, rest)
      | None =>
          match read_separator 58 i (read_number 16 4 u16_max true) s with
          | Some (g, rest) =>
              let '(gs, quad, rest) := read_groups n (i + 1) limit rest in
              (g :: gs, quad, rest)
          | None => ([], false, s)
          end
      end
  end.

Definition groups_val (gs : list Z) : Z := fold_left (fun acc g => acc * 65536 + g) gs 0.

Definition read_ipv6_addr (s : list Z) : option (Ipv6Addr * list Z) :=
  let '(head, quad, s) := read_groups 8 0 8 s in
  if zlen head =? 8 then Some (groups_val head, s)
  else if quad then None
  else s ← read_given_char 58 s; s ← read_given_char 58 s;
       let limit := 8 - (zlen head + 1) in
       let '(tail, _, s) := read_groups (Z.to_nat limit) 0 limit s in
       Some (groups_val (head ++ replicate (Z.to_nat (8 - zlen head - zlen tail)) 0 ++ tail), s).

Definition parse_v6 (s : list Z) : option Ipv6Addr :=
  match read_ipv6_addr s with Some (a, []) => Some a | _ => None end.

Definition parse_ip (s : list Z) : option IpAddr :=
  match read_ipv4_addr s with
  | Some (a, rest) => match rest with [] => Some (V4 a) | _ => None end
  | None => match read_ipv6_addr s with Some (a, []) => Some (V6 a) | _ => None end
  end.

(** [write!(f, {}.{}.{}.{})] *)
Definition show_v4 (a : Ipv4Addr) : list Z :=
  match v4_octets a with
  | [a; b; c; d] => show_u8 a ++ [46] ++ show_u8 b ++ [46] ++ show_u8 c ++ [46] ++ show_u8 d
  | _ => []
  end.

(** ASCII text of a Rocq string. *)
Definition ascii_bytes (s : string) : list Z :=
  map (fun c => Z.of_N (Ascii.N_of_ascii c)) (list_ascii_of_string s).

Example parse_v6_mapped : parse_v6 (ascii_bytes "::ffff:198.18.0.1") = Some 281474004811777.
Proof. vm_compute. reflexivity. Qed.
Example parse_v6_prefix : parse_v6 (ascii_bytes "fdfe:dcba:9876::") = Some (0xfdfedcba9876 * 2 ^ 80).
Proof. vm_compute. reflexivity. Qed.
Example parse_v6_no_room : parse_v6 (ascii_bytes "1:2:3:4:5:6:7:8::") = None.
Proof. vm_compute. reflexivity. Qed.
Example parse_v4_leading_zero : parse_v4 (ascii_bytes "10.01.0.0") = None.
Proof. vm_compute. reflexivity. Qed.

(** ** Lemmas *)

Lemma trim_with_id pats fuel s :
  (forall p, In p pats -> strip_prefix p s = None) -> trim_with pats fuel s = s.
Proof.
  intros Hp. destruct fuel as [|fuel]; cbn [trim_with]; [done|].
  assert (list_find_map (fun p => strip_prefix p s) pats = None) as ->; [|done].
  induction pats as [|p pats IH]; cbn; [done|].
  rewrite Hp by (by left). apply IH. intros q Hq. apply Hp. by right.
Qed.

(** Printable ASCII has no white space in it. *)
Definition graphic (b : Z) : bool := (33 <=? b) && (b <=? 126).

Lemma trim_start_graphic b s : graphic b = true -> trim_start (b :: s) = b :: s.
Proof.
  unfold graphic. intros ?; bools. apply trim_with_id. intros p Hp. cbn in Hp.
  repeat destruct Hp as [<-|Hp]; [..|done]; cbn [strip_prefix]; by decide_ifs.
Qed.

Lemma trim_end_graphic s b : graphic b = true -> trim_end (s ++ [b]) = s ++ [b].
Proof.
  unfold graphic. intros ?; bools. unfold trim_end. rewrite trim_with_id.
  - apply rev_involutive.
  - intros p Hp. rewrite rev_app_distr. cbn in Hp |- *.
    repeat destruct Hp as [<-|Hp]; [..|done]; cbn [strip_prefix]; by decide_ifs.
Qed.

Lemma trim_graphic s : forallb graphic s = true -> trim s = s.
Proof.
  intros Hg. unfold trim. destruct s as [|b s]; [done|].
  rewrite trim_start_graphic; [|cbn in Hg; by bools].
  destruct (exists_last (l:=b :: s)) as (l & c & E); [done|]. rewrite E in *.
  apply trim_end_graphic. rewrite forallb_app in Hg. cbn in Hg. by bools.
Qed.

Lemma split_once_app c a b : ~ In c a -> split_once c (a ++ c :: b) = Some (a, b).
Proof.
  induction a as [|x a IH]; intros Hn; cbn; [by rewrite Z.eqb_refl|].
  rewrite (proj2 (Z.eqb_neq x c)); [|intros ->; apply Hn; by left].
  rewrite IH; [done|]. intros ?; apply Hn; by right.
Qed.

(** An octet in decimal reads back, whatever follows it that is no digit. *)
Definition no_digit (s : list Z) : Prop :=
  match s with c :: _ => is_ascii_digit c = false | [] => True end.

Lemma read_digits_stop s acc count :
  no_digit s -> read_digits 10 3 s acc count = Some (acc, count, s).
Proof.
  destruct s as [|c s]; cbn; [done|]. intros Hc. unfold to_digit. rewrite Hc.
  destruct (_ && _)%bool eqn:E1; bools; [decide_ifs; done|].
  destruct ((65 <=? c) && _)%bool eqn:E2; bools; decide_ifs; done.
Qed.

Lemma read_digits_app ds s acc count :
  forallb is_ascii_digit ds = true -> count + zlen ds <= 3 -> no_digit s ->
  read_digits 10 3 (ds ++ s) acc count =
  Some (fold_left (fun v b => v * 10 + (b - 48)) ds acc, count + zlen ds, s).
Proof.
  intros Hd Hl Hs. revert acc count Hd Hl. induction ds as [|d ds IH]; intros acc count Hd Hl.
  { rewrite zlen_nil, Z.add_0_r. by apply read_digits_stop. }
  cbn [forallb] in Hd. rewrite zlen_cons in *. len_facts. bools.
  assert (to_digit 10 d = Some (d - 48)) as E.
  { unfold to_digit. replace (is_ascii_digit d) with true by done. unfold is_ascii_digit in *. bools.
    by decide_ifs. }
  cbn [app read_digits fold_left]. rewrite E. decide_ifs. rewrite IH by (done || lia).
  by rewrite Z.add_assoc.
Qed.

Definition show_u8_check (n : Z) : bool :=
  let ds := show_u8 n in
  forallb is_ascii_digit ds && (1 <=? zlen ds) && (zlen ds <=? 3) &&
  (fold_left (fun v b => v * 10 + (b - 48)) ds 0 =? n) &&
  match ds with 48 :: _ => zlen ds =? 1 | _ => true end.

Lemma show_u8_ok n : is_byte n -> show_u8_check n = true.
Proof. revert n. apply byte_forall. vm_compute. reflexivity. Qed.

Lemma read_show_u8 n s :
  is_byte n -> no_digit s ->
  read_number 10 3 u8_max false (show_u8 n ++ s) = Some (n, s).
Proof.
  intros Hn Hs. pose proof (show_u8_ok n Hn) as Hc. unfold show_u8_check in Hc. bools.
  unfold read_number. rewrite read_digits_app, Z.add_0_l by (done || lia).
  replace (fold_left _ (show_u8 n) 0) with n by done.
  unfold is_byte, u8_max in *. decide_ifs. destruct (1 <? zlen (show_u8 n)) eqn:E; bools.
  - destruct (show_u8 n) as [|c ds]; [done|]. cbn [app].
    destruct (decide (c = 48)) as [->|Hc]; [bools; lia|].
    assert ((match c with 48 => true | _ => false end) = false) as -> by (repeat case_match; done).
    cbn [andb orb]. by decide_ifs.
  - rewrite andb_false_r. cbn [orb]. by decide_ifs.
Qed.

Lemma read_show_v4 a s :
  0 <= a <= u32_max -> no_digit s -> read_ipv4_addr (show_v4 a ++ s) = Some (a, s).
Proof.
  intros Ha Hs. unfold show_v4, v4_octets.
  pose proof (be_val_be_bytes_small 4 a) as Hv. pose proof (be_bytes_bytes 4 a) as Hb.
  destruct (be_bytes 4 a) as [|o0 [|o1 [|o2 [|o3 [|? ?]]]]] eqn:E; try (by cbn in E).
  rewrite !List.Forall_cons_iff in Hb. destruct Hb as (? & ? & ? & ? & _).
  unfold read_ipv4_addr, read_separator. rewrite <- !app_assoc.
  do 4 (cbn -[read_number show_u8 be_val]; rewrite read_show_u8 by done).
  cbn -[be_val].
  unfold u32_max in Ha. rewrite Hv by lia. done.
Qed.

Lemma show_u8_graphic n : is_byte n -> forallb (fun b => graphic b && negb (b =? 47)) (show_u8 n) = true.
Proof. revert n. apply byte_forall. vm_compute. reflexivity. Qed.

Lemma show_v4_text a :
  zlen (show_v4 a) <= 15 /\ forallb (fun b => graphic b && negb (b =? 47)) (show_v4 a) = true.
Proof.
  unfold show_v4, v4_octets. pose proof (be_bytes_bytes 4 a) as Hb.
  destruct (be_bytes 4 a) as [|o0 [|o1 [|o2 [|o3 [|? ?]]]]] eqn:E; try (by cbn in E).
  rewrite !List.Forall_cons_iff in Hb. destruct Hb as (H0 & H1 & H2 & H3 & _).
  rewrite !forallb_app, !show_u8_graphic by done. split; [|done].
  apply show_u8_ok in H0, H1, H2, H3. unfold show_u8_check in *. bools. lens.
Qed.

Lemma parse_show_v4 a : 0 <= a <= u32_max -> parse_v4 (show_v4 a) = Some a.
Proof.
  intros Ha. unfold parse_v4. destruct (show_v4_text a) as [Hl _]. decide_ifs.
  rewrite <- (app_nil_r (show_v4 a)), read_show_v4 by done. done.
Qed.

Lemma parse_ip_show_v4 a : 0 <= a <= u32_max -> parse_ip (show_v4 a) = Some (V4 a).
Proof.
  intros Ha. unfold parse_ip. rewrite <- (app_nil_r (show_v4 a)), read_show_v4 by done. done.
Qed.

Lemma parse_show_u8 n : is_byte n -> parse_u8 (show_u8 n) = Some n.
Proof.
  intros Hn. pose proof (show_u8_ok n Hn) as Hc. unfold show_u8_check in Hc. bools.
  assert (decimal (show_u8 n) = Some n) as Hd.
  { unfold decimal. decide_ifs. replace (forallb _ _) with true by done. cbn. by f_equal. }
  unfold parse_u8. destruct (show_u8 n) as [|c ds] eqn:E; [done|].
  assert (is_ascii_digit c = true) by (cbn [forallb] in *; by bools).
  assert ((match c with 43 => ds | _ => c :: ds end) = c :: ds) as ->.
  { unfold is_ascii_digit in *. bools. destruct (decide (c = 43)) as [->|]; [lia|].
    by repeat case_match. }
  rewrite Hd. unfold is_byte, u8_max in *. by decide_ifs.
Qed.

(** The parsers return addresses of their family's width. *)
Lemma to_digit_range radix c d : to_digit radix c = Some d -> 0 <= d < radix.
Proof.
  unfold to_digit, is_ascii_digit. destruct (_ <? radix) eqn:E; [|done]. intros [= <-]. bools.
  split; [|done]. repeat case_match; bools; lia.
Qed.

Lemma read_digits_nonneg radix max s acc count v n rest :
  0 <= acc -> read_digits radix max s acc count = Some (v, n, rest) -> 0 <= v.
Proof.
  revert acc count. induction s as [|c s IH]; cbn [read_digits]; intros acc count Ha.
  - intros [= ? ? ?]. lia.
  - destruct (to_digit radix c) as [d|] eqn:Ed; [|intros [= ? ? ?]; lia].
    apply to_digit_range in Ed. destruct (max <? count + 1); [done|]. apply IH.
    apply Z.add_nonneg_nonneg; [apply Z.mul_nonneg_nonneg|]; lia.
Qed.

Lemma read_number_range radix max bound zp s v rest :
  read_number radix max bound zp s = Some (v, rest) -> 0 <= v <= bound.
Proof.
  unfold read_number. destruct (read_digits _ _ _ _ _) as [[[v' n] r]|] eqn:E; [|done].
  destruct (_ || _)%bool eqn:E2; [done|]. intros [= -> ->]. bools. split; [|done].
  by eapply read_digits_nonneg, E.
Qed.

Lemma read_separator_Some {A} sep i (f : list Z -> option (A * list Z)) s r :
  read_separator sep i f s = Some r -> exists s', f s' = Some r.
Proof.
  unfold read_separator. destruct (0 <? i); [|by eauto].
  destruct (read_given_char sep s); cbn; [by eauto|done].
Qed.

Lemma read_ipv4_range s a rest : read_ipv4_addr s = Some (a, rest) -> 0 <= a <= u32_max.
Proof.
  unfold read_ipv4_addr. cbn zeta. intros H.
  apply bind_Some in H as ([o0 r0] & (s0 & E0%read_number_range)%read_separator_Some & H).
  apply bind_Some in H as ([o1 r1] & (s1 & E1%read_number_range)%read_separator_Some & H).
  apply bind_Some in H as ([o2 r2] & (s2 & E2%read_number_range)%read_separator_Some & H).
  apply bind_Some in H as ([o3 r3] & (s3 & E3%read_number_range)%read_separator_Some & H).
  injection H as <- <-. change u8_max with 255 in *.
  assert (bytes [o0; o1; o2; o3]) as Hb by (repeat constructor; unfold is_byte in *; lia).
  apply be_val_bound in Hb. unfold u32_max, zlen in *. cbn [length] in Hb. lia.
Qed.

Lemma parse_v4_range s a : parse_v4 s = Some a -> 0 <= a <= u32_max.
Proof.
  unfold parse_v4. destruct (_ <? _); [done|].
  destruct (read_ipv4_addr s) as [[v rest]|] eqn:E; [|done].
  destruct rest; [|done]. intros [= <-]. eauto using read_ipv4_range.
Qed.

Lemma read_groups_range n i limit s gs quad rest :
  Z.of_nat n = limit - i ->
  read_groups n i limit s = (gs, quad, rest) -> zlen gs <= Z.of_nat n /\ Forall is_u16 gs.
Proof.
  revert i s gs quad rest. induction n as [|n IH]; intros i s gs quad rest Hn.
  { cbn. intros [= <- <- <-]. by split. }
  cbn [read_groups]. destruct (if i <? limit - 1 then _ else _) as [[v4 r4]|] eqn:Eq.
  - destruct (i <? limit - 1) eqn:El; [|done]. bools.
    apply read_separator_Some in Eq as (s' & E%read_ipv4_range). intros [= <- <- <-].
    rewrite !zlen_cons, zlen_nil. split; [lia|]. unfold u32_max in E.
    repeat constructor; unfold is_u16.
    + apply Z.div_pos; lia.
    + apply Z.div_lt_upper_bound; lia.
    + apply Z.mod_pos_bound; lia.
    + apply Z.mod_pos_bound; lia.
  - clear Eq. destruct (read_separator _ _ _ s) as [[g r]|] eqn:Eg.
    + apply read_separator_Some in Eg as (s' & E%read_number_range).
      destruct (read_groups n (i + 1) limit r) as [[gs' q'] r'] eqn:Er.
      intros [= <- <- <-]. apply IH in Er as [? ?]; [|lia]. rewrite zlen_cons.
      split; [lia|]. constructor; [|done]. unfold is_u16, u16_max in *. lia.
    + intros [= <- <- <-]. rewrite zlen_nil. split; [lia|done].
Qed.

Lemma groups_val_range gs : Forall is_u16 gs -> 0 <= groups_val gs < 65536 ^ zlen gs.
Proof.
  intros Hg. unfold groups_val. induction gs as [|g gs IH] using rev_ind; [done|].
  rewrite List.Forall_app in Hg. destruct Hg as [Hg Hx]. rewrite List.Forall_cons_iff in Hx. destruct Hx as [Hx _].
  rewrite fold_left_app. cbn [fold_left]. replace (zlen (gs ++ [g])) with (zlen gs + 1) by lens.
  specialize (IH Hg). len_facts. rewrite Z.pow_add_r by lia. unfold is_u16 in Hx. nia.
Qed.

Lemma parse_v6_range s a : parse_v6 s = Some a -> 0 <= a <= u128_max.
Proof.
  unfold parse_v6, read_ipv6_addr. intros H.
  destruct (read_groups 8 0 8 s) as [[head quad] r] eqn:Eh.
  apply read_groups_range in Eh as [Hl Hh]; [|done]. len_facts.
  destruct (zlen head =? 8) eqn:E8; bools.
  - destruct r; [|done]. injection H as <-. apply groups_val_range in Hh.
    rewrite E8 in Hh. unfold u128_max. lia.
  - destruct quad; [done|].
    destruct (read_given_char 58 r) as [r1|]; cbn [mbind option_bind] in H; [|done].
    destruct (read_given_char 58 r1) as [r2|]; cbn [mbind option_bind] in H; [|done].
    destruct (read_groups _ 0 _ r2) as [[tail q2] r3] eqn:Et.
    apply read_groups_range in Et as [Hl2 Ht]; [|lia].
    destruct r3; [|done]. injection H as <-. len_facts.
    set (gs := head ++ _ ++ tail).
    assert (Forall is_u16 gs) as Hgs.
    { unfold gs. apply List.Forall_app; split; [done|]. apply List.Forall_app; split; [|done].
      apply List.Forall_forall. intros x Hx. apply list_elem_of_In, elem_of_replicate in Hx as [-> _]. unfold is_u16. lia. }
    assert (zlen gs = 8) as Hlen.
    { unfold gs. rewrite !zlen_app, zlen_replicate. lia. }
    apply groups_val_range in Hgs. rewrite Hlen in Hgs. unfold u128_max. lia.
Qed.

Lemma digits_nonneg l acc :
  0 <= acc -> forallb is_ascii_digit l = true ->
  0 <= fold_left (fun v b => v * 10 + (b - 48)) l acc.
Proof.
  revert acc. induction l as [|x l IH]; cbn; [done|]. intros acc Ha Hd.
  unfold is_ascii_digit in Hd at 1. bools. apply IH; [lia|done].
Qed.

Lemma parse_u8_range s v : parse_u8 s = Some v -> is_byte v.
Proof.
  unfold parse_u8, decimal. intros H. destruct (_ || _)%bool eqn:Eo; [done|]. bools.
  destruct (_ <=? u8_max) eqn:El; [|done]. injection H as <-. bools.
  unfold is_byte, u8_max in *. split; [|lia]. by apply digits_nonneg.
Qed.
