(* ===== verification/Cidr.v ===== *)
(** * CIDR blocks ([src/cidr.rs])

    Blocks of both families, their masks and their text form.  The two
    families differ only in the width, so the arithmetic is proved once for a
    width [w] ([block_*]) and used for both. *)
From S2P Require Import Prelude Wire Prng Name Addr.

Definition mask_v4 (prefix : Z) : Z :=
  if prefix =? 0 then 0
  else if 32 <=? prefix then u32_max
  else wrap 32 (Z.shiftl u32_max (32 - prefix)).

Definition mask_v6 (prefix : Z) : Z :=
  if prefix =? 0 then 0
  else if 128 <=? prefix then u128_max
  else wrap 128 (Z.shiftl u128_max (128 - prefix)).

Definition split_prefix (s : list Z) (full : Z) : option (list Z * Z) :=
  match split_once 47 s with
  | Some (addr, p) =>
      p ← parse_u8 (trim p);
      if full <? p then None else Some (trim addr, p)
  | None => Some (trim s, full)
  end.

Record Ipv4Cidr := mkIpv4Cidr { base4 : Z; prefix4 : Z }.
Record Ipv6Cidr := mkIpv6Cidr { base6 : Z; prefix6 : Z }.
Inductive IpCidr := CidrV4 (c : Ipv4Cidr) | CidrV6 (c : Ipv6Cidr).

#[global] Instance Ipv4Cidr_eq_dec : EqDecision Ipv4Cidr.
Proof. solve_decision. Defined.
#[global] Instance Ipv6Cidr_eq_dec : EqDecision Ipv6Cidr.
Proof. solve_decision. Defined.
#[global] Instance IpCidr_eq_dec : EqDecision IpCidr.
Proof. solve_decision. Defined.

Definition cidr4_new (addr : Ipv4Addr) (prefix : Z) : option Ipv4Cidr :=
  if 32 <? prefix then None else Some (mkIpv4Cidr (Z.land addr (mask_v4 prefix)) prefix).
Definition cidr6_new (addr : Ipv6Addr) (prefix : Z) : option Ipv6Cidr :=
  if 128 <? prefix then None else Some (mkIpv6Cidr (Z.land addr (mask_v6 prefix)) prefix).

Definition cidr4_parse (s : list Z) : option Ipv4Cidr :=
  '(addr, prefix) ← split_prefix s 32; addr ← parse_v4 addr; cidr4_new addr prefix.
Definition cidr6_parse (s : list Z) : option Ipv6Cidr :=
  '(addr, prefix) ← split_prefix s 128; addr ← parse_v6 addr; cidr6_new addr prefix.

Definition cidr4_contains (c : Ipv4Cidr) (ip : Ipv4Addr) : bool :=
  Z.land ip (mask_v4 (prefix4 c)) =? base4 c.
Definition cidr6_contains (c : Ipv6Cidr) (ip : Ipv6Addr) : bool :=
  Z.land ip (mask_v6 (prefix6 c)) =? base6 c.

Definition cidr4_network (c : Ipv4Cidr) : Ipv4Addr := base4 c.
Definition cidr6_network (c : Ipv6Cidr) : Ipv6Addr := base6 c.

(** [!mask] at the address's width. *)
Definition cidr4_broadcast (c : Ipv4Cidr) : Ipv4Addr :=
  Z.lor (base4 c) (Z.lxor u32_max (mask_v4 (prefix4 c))).
Definition cidr6_broadcast (c : Ipv6Cidr) : Ipv6Addr :=
  Z.lor (base6 c) (Z.lxor u128_max (mask_v6 (prefix6 c))).

Definition cidr4_len (c : Ipv4Cidr) : Z := Z.shiftl 1 (32 - prefix4 c).

Definition cidr4_fmt (c : Ipv4Cidr) : list Z :=
  show_v4 (cidr4_network c) ++ [47] ++ show_u8 (prefix4 c).

Definition cidr_parse (s : list Z) : option IpCidr :=
  match list.head (split_on 47 s) with
  | Some addr =>
      match parse_ip (trim addr) with
      | Some (V4 _) => CidrV4 <$> cidr4_parse s
      | Some (V6 _) => CidrV6 <$> cidr6_parse s
      | None => None
      end
  | None => None
  end.

Definition cidr_contains (c : IpCidr) (ip : IpAddr) : bool :=
  match c, ip with
  | CidrV4 c, V4 a => cidr4_contains c a
  | CidrV6 c, V6 a => cidr6_contains c a
  | _, _ => false
  end.

Definition cidr_prefix (c : IpCidr) : Z :=
  match c with CidrV4 c => prefix4 c | CidrV6 c => prefix6 c end.

(** ** Specification: a block is an aligned interval of [2 ^ h] addresses *)

Definition block_first (h a : Z) : Z := a - a mod 2 ^ h.

Definition cidr4_ok (c : Ipv4Cidr) : Prop :=
  0 <= prefix4 c <= 32 /\ 0 <= base4 c <= u32_max /\ base4 c mod 2 ^ (32 - prefix4 c) = 0.
Definition cidr6_ok (c : Ipv6Cidr) : Prop :=
  0 <= prefix6 c <= 128 /\ 0 <= base6 c <= u128_max /\ base6 c mod 2 ^ (128 - prefix6 c) = 0.
Definition cidr_ok (c : IpCidr) : Prop :=
  match c with CidrV4 c => cidr4_ok c | CidrV6 c => cidr6_ok c end.

(** ** Lemmas on masks, for any width *)

Section block.
Context (w p : Z) (Hp : 0 <= p <= w).

Definition high_mask : Z := (2 ^ p - 1) * 2 ^ (w - p).

Lemma high_mask_bits i : 0 <= i -> Z.testbit high_mask i = (w - p <=? i) && (i <? w).
Proof.
  intros Hi. unfold high_mask. rewrite <- Z.shiftl_mul_pow2 by lia.
  rewrite Z.shiftl_spec by done. replace (2 ^ p - 1) with (Z.ones p) by (rewrite Z.ones_equiv; lia).
  destruct (Z.le_gt_cases (w - p) i).
  - rewrite Z.testbit_ones_nonneg by lia. decide_ifs.
    destruct (i <? w) eqn:E; bools; decide_ifs; done.
  - rewrite Z.testbit_neg_r by lia. by decide_ifs.
Qed.

Lemma land_high_mask a : 0 <= a < 2 ^ w -> Z.land a high_mask = block_first (w - p) a.
Proof.
  intros Ha. unfold block_first.
  replace (a - a mod 2 ^ (w - p)) with (Z.shiftl (Z.shiftr a (w - p)) (w - p)).
  2: { rewrite Z.shiftl_mul_pow2, Z.shiftr_div_pow2 by lia.
       pose proof (Z.div_mod a (2 ^ (w - p))). lia. }
  apply Z.bits_inj'. intros i Hi.
  rewrite Z.land_spec, high_mask_bits, Z.shiftl_spec by done.
  destruct (Z.le_gt_cases (w - p) i).
  - rewrite Z.shiftr_spec by lia. replace (i - (w - p) + (w - p)) with i by lia.
    decide_ifs. destruct (i <? w) eqn:E; bools; [by rewrite andb_true_r|].
    rewrite andb_false_r. symmetry. destruct (decide (a = 0)) as [->|]; [apply Z.bits_0|].
    apply Z.bits_above_log2; [lia|]. apply Z.log2_lt_pow2; [lia|].
    eapply Z.lt_le_trans; [apply Ha|]. by apply Z.pow_le_mono_r; lia.
  - rewrite (Z.testbit_neg_r _ (i - _)) by lia. decide_ifs. apply andb_false_r.
Qed.

Lemma lor_low_mask b :
  0 <= b -> b mod 2 ^ (w - p) = 0 ->
  Z.lor b (Z.lxor (2 ^ w - 1) high_mask) = b + 2 ^ (w - p) - 1.
Proof.
  intros Hb Hm. assert (Z.lxor (2 ^ w - 1) high_mask = Z.ones (w - p)) as ->.
  { apply Z.bits_inj'. intros i Hi. replace (2 ^ w - 1) with (Z.ones w) by (rewrite Z.ones_equiv; lia).
    rewrite Z.lxor_spec, high_mask_bits, !Z.testbit_ones_nonneg by lia.
    destruct (i <? w) eqn:E1, (w - p <=? i) eqn:E2; bools; try lia; decide_ifs; done. }
  rewrite <- Z.lxor_lor, <- Z.add_nocarry_lxor.
  - rewrite Z.ones_equiv. lia.
  - rewrite Z.land_ones by lia. done.
  - rewrite Z.land_ones by lia. done.
Qed.

Lemma block_first_ok a :
  0 <= a < 2 ^ w ->
  0 <= block_first (w - p) a < 2 ^ w /\ block_first (w - p) a mod 2 ^ (w - p) = 0 /\
  block_first (w - p) a <= a.
Proof.
  intros Ha. unfold block_first. pose proof (Z.pow_pos_nonneg 2 (w - p)).
  pose proof (Z.mod_pos_bound a (2 ^ (w - p))). pose proof (Z.div_mod a (2 ^ (w - p))).
  pose proof (Z.mod_le a (2 ^ (w - p))).
  split; [lia|]. split; [|lia].
  replace (a - a mod 2 ^ (w - p)) with (a / 2 ^ (w - p) * 2 ^ (w - p)) by lia.
  apply Z.mod_mul. lia.
Qed.

(** Membership by mask is membership in the interval. *)
Lemma block_first_iff b a :
  0 <= a -> b mod 2 ^ (w - p) = 0 ->
  block_first (w - p) a = b <-> b <= a <= b + 2 ^ (w - p) - 1.
Proof.
  intros Ha Hb. unfold block_first. set (m := 2 ^ (w - p)) in *.
  assert (0 < m) by (apply Z.pow_pos_nonneg; lia).
  pose proof (Z.mod_pos_bound a m). pose proof (Z.div_mod a m). pose proof (Z.div_mod b m).
  split; [lia|]. intros Hi. assert (a / m = b / m); [|nia].
  symmetry. apply Z.div_unique with (r := a - b); lia.
Qed.
End block.

Lemma shiftl_wrap w p : 0 <= p <= w -> wrap w (Z.shiftl (2 ^ w - 1) (w - p)) = high_mask w p.
Proof.
  intros Hp. unfold wrap, high_mask. rewrite Z.shiftl_mul_pow2 by lia.
  assert (2 ^ w = 2 ^ p * 2 ^ (w - p)) as Hw by (rewrite <- Z.pow_add_r by lia; f_equal; lia).
  pose proof (Z.pow_pos_nonneg 2 p). pose proof (Z.pow_pos_nonneg 2 (w - p)).
  symmetry. apply Z.mod_unique with (q := 2 ^ (w - p) - 1); [left; nia|]. rewrite Hw. nia.
Qed.

Lemma mask_v4_high p : 0 <= p <= 32 -> mask_v4 p = high_mask 32 p.
Proof.
  intros Hp. unfold mask_v4. destruct (p =? 0) eqn:E0; bools; [by subst|].
  destruct (32 <=? p) eqn:E; bools; [|by apply (shiftl_wrap 32)].
  by replace p with 32 by lia.
Qed.

Lemma mask_v6_high p : 0 <= p <= 128 -> mask_v6 p = high_mask 128 p.
Proof.
  intros Hp. unfold mask_v6. destruct (p =? 0) eqn:E0; bools; [by subst|].
  destruct (128 <=? p) eqn:E; bools; [|by apply (shiftl_wrap 128)].
  by replace p with 128 by lia.
Qed.

Lemma cidr4_new_Some a p c :
  0 <= a <= u32_max -> 0 <= p -> cidr4_new a p = Some c ->
  cidr4_ok c /\ prefix4 c = p /\ base4 c = block_first (32 - p) a.
Proof.
  unfold cidr4_new, u32_max. intros Ha Hp. destruct (_ <? _) eqn:E; [done|]. bools. intros [= <-].
  unfold cidr4_ok, u32_max. cbn [base4 prefix4].
  rewrite mask_v4_high, land_high_mask by lia.
  destruct (block_first_ok 32 p ltac:(lia) a) as (? & ? & ?); [lia|].
  repeat split; try done; lia.
Qed.

Lemma cidr6_new_Some a p c :
  0 <= a <= u128_max -> 0 <= p -> cidr6_new a p = Some c ->
  cidr6_ok c /\ prefix6 c = p /\ base6 c = block_first (128 - p) a.
Proof.
  unfold cidr6_new, u128_max. intros Ha Hp. destruct (_ <? _) eqn:E; [done|]. bools. intros [= <-].
  unfold cidr6_ok, u128_max. cbn [base6 prefix6].
  rewrite mask_v6_high, land_high_mask by lia.
  destruct (block_first_ok 128 p ltac:(lia) a) as (? & ? & ?); [lia|].
  repeat split; (done || lia).
Qed.

Lemma cidr4_broadcast_eq c :
  cidr4_ok c -> cidr4_broadcast c = base4 c + 2 ^ (32 - prefix4 c) - 1.
Proof.
  intros (Hp & Hb & Hm). unfold cidr4_broadcast. rewrite mask_v4_high by lia.
  apply (lor_low_mask 32); (done || lia).
Qed.
Lemma cidr6_broadcast_eq c :
  cidr6_ok c -> cidr6_broadcast c = base6 c + 2 ^ (128 - prefix6 c) - 1.
Proof.
  intros (Hp & Hb & Hm). unfold cidr6_broadcast. rewrite mask_v6_high by lia.
  apply (lor_low_mask 128); (done || lia).
Qed.

(** An aligned block does not cross the end of the address space. *)
Lemma aligned_fits w p b :
  0 <= p <= w -> 0 <= b < 2 ^ w -> b mod 2 ^ (w - p) = 0 -> b + 2 ^ (w - p) - 1 < 2 ^ w.
Proof.
  intros Hp Hb Hm. pose proof (Z.pow_pos_nonneg 2 (w - p)). pose proof (Z.pow_pos_nonneg 2 p).
  assert (2 ^ w = 2 ^ p * 2 ^ (w - p)) as Hw by (rewrite <- Z.pow_add_r by lia; f_equal; lia).
  pose proof (Z.div_mod b (2 ^ (w - p))). set (q := b / 2 ^ (w - p)) in *.
  assert (q < 2 ^ p) by nia. assert (2 ^ (w - p) * (q + 1) <= 2 ^ (w - p) * 2 ^ p) by nia. lia.
Qed.

Lemma cidr4_broadcast_bound c :
  cidr4_ok c -> base4 c <= cidr4_broadcast c <= u32_max.
Proof.
  intros Hc. rewrite cidr4_broadcast_eq by done. destruct Hc as (? & ? & ?). unfold u32_max in *.
  pose proof (aligned_fits 32 (prefix4 c) (base4 c)). pose proof (Z.pow_pos_nonneg 2 (32 - prefix4 c)).
  lia.
Qed.
Lemma cidr6_broadcast_bound c :
  cidr6_ok c -> base6 c <= cidr6_broadcast c <= u128_max.
Proof.
  intros Hc. rewrite cidr6_broadcast_eq by done. destruct Hc as (? & ? & ?). unfold u128_max in *.
  pose proof (aligned_fits 128 (prefix6 c) (base6 c)). pose proof (Z.pow_pos_nonneg 2 (128 - prefix6 c)).
  lia.
Qed.

Lemma cidr4_contains_iff c ip :
  cidr4_ok c -> 0 <= ip <= u32_max ->
  cidr4_contains c ip = true <-> cidr4_network c <= ip <= cidr4_broadcast c.
Proof.
  intros Hc Hi. rewrite cidr4_broadcast_eq by done. destruct Hc as (? & ? & ?).
  unfold u32_max, cidr4_contains, cidr4_network in *. rewrite Z.eqb_eq, mask_v4_high, land_high_mask by lia.
  apply (block_first_iff 32); (done || lia).
Qed.
Lemma cidr6_contains_iff c ip :
  cidr6_ok c -> 0 <= ip <= u128_max ->
  cidr6_contains c ip = true <-> cidr6_network c <= ip <= cidr6_broadcast c.
Proof.
  intros Hc Hi. rewrite cidr6_broadcast_eq by done. destruct Hc as (? & ? & ?).
  unfold u128_max, cidr6_contains, cidr6_network in *. rewrite Z.eqb_eq, mask_v6_high, land_high_mask by lia.
  apply (block_first_iff 128); (done || lia).
Qed.

Lemma split_prefix_range s full addr p :
  0 <= full -> split_prefix s full = Some (addr, p) -> 0 <= p <= full.
Proof.
  unfold split_prefix. intros Hf. destruct (split_once 47 s) as [[a b]|].
  - intros (q & Hq & H)%bind_Some. destruct (full <? q) eqn:E; [done|]. simplify_eq. bools.
    split; [|done]. apply parse_u8_range in Hq. unfold is_byte in Hq. lia.
  - intros [= <- <-]. lia.
Qed.

Lemma cidr4_parse_ok s c : cidr4_parse s = Some c -> cidr4_ok c.
Proof.
  unfold cidr4_parse. intros ([addr p] & Hs%split_prefix_range & (a & Ha%parse_v4_range & H)%bind_Some)%bind_Some;
    [|done]. eapply cidr4_new_Some, H; lia.
Qed.
Lemma cidr6_parse_ok s c : cidr6_parse s = Some c -> cidr6_ok c.
Proof.
  unfold cidr6_parse. intros ([addr p] & Hs%split_prefix_range & (a & Ha%parse_v6_range & H)%bind_Some)%bind_Some;
    [|done]. eapply cidr6_new_Some, H; lia.
Qed.
Lemma cidr_parse_ok s c : cidr_parse s = Some c -> cidr_ok c.
Proof.
  unfold cidr_parse. destruct (list.head _); [|done]. destruct (parse_ip _) as [[?|?]|]; [..|done].
  - destruct (cidr4_parse s) eqn:E; cbn; [|done]. intros [= <-]. by eapply cidr4_parse_ok.
  - destruct (cidr6_parse s) eqn:E; cbn; [|done]. intros [= <-]. by eapply cidr6_parse_ok.
Qed.

Lemma cidr_contains_family c ip :
  cidr_contains c ip = true ->
  match c, ip with CidrV4 _, V4 _ | CidrV6 _, V6 _ => True | _, _ => False end.
Proof. by destruct c, ip. Qed.

(** A graphic text without a slash survives the split and the trims. *)
Definition addr_text (s : list Z) : Prop :=
  forallb (fun b => graphic b && negb (b =? 47)) s = true.

Lemma addr_text_graphic s : addr_text s -> forallb graphic s = true /\ ~ In 47 s.
Proof.
  unfold addr_text. rewrite !forallb_forall. intros Hs. split.
  - intros x Hx%Hs. by bools.
  - intros Hx%Hs. done.
Qed.

Lemma split_prefix_fmt a p :
  addr_text a -> 0 <= p <= 128 -> forall full, p <= full ->
  split_prefix (a ++ [47] ++ show_u8 p) full = Some (a, p).
Proof.
  intros [Hg Hn]%addr_text_graphic Hp full Hf. unfold split_prefix. cbn [app].
  rewrite split_once_app by done.
  assert (is_byte p) as Hb by (unfold is_byte; lia).
  destruct (addr_text_graphic (show_u8 p) (show_u8_graphic p Hb)) as [Hgp _].
  rewrite !trim_graphic, parse_show_u8 by done. cbn [mbind option_bind]. by decide_ifs.
Qed.

Lemma head_split_app c a b : ~ In c a -> list.head (split_on c (a ++ c :: b)) = Some a.
Proof.
  induction a as [|x a IH]; intros Hn; cbn; [by rewrite Z.eqb_refl|].
  rewrite (proj2 (Z.eqb_neq x c)); [|intros ->; apply Hn; by left].
  destruct (split_on c (a ++ c :: b)); cbn in *; [|].
  - by discriminate IH; intros ?; apply Hn; right.
  - assert (l = a) as ->; [|done]. injection IH; [done|]. intros ?; apply Hn; by right.
Qed.

Lemma cidr_ext4 c : cidr4_ok c -> cidr4_new (base4 c) (prefix4 c) = Some c.
Proof.
  intros (Hp & Hb & Hm). destruct c as [b p]. cbn [base4 prefix4] in *.
  unfold cidr4_new, u32_max in *. decide_ifs.
  rewrite mask_v4_high, land_high_mask by lia. unfold block_first. rewrite Hm. do 2 f_equal. lia.
Qed.

(** a block made from an address contains it, and it contains exactly the
    addresses of its own family from its network to its broadcast address;
    an IPv4 block counts them. A prefix longer than the address is refused. *)
Theorem cidr_new_interval :
  (forall a p, 0 <= a <= u32_max -> 0 <= p ->
     match cidr4_new a p with
     | None => 32 < p
     | Some c =>
         p <= 32 /\ prefix4 c = p /\ cidr_contains (CidrV4 c) (V4 a) = true /\
         cidr4_len c = cidr4_broadcast c - cidr4_network c + 1 /\
         forall ip, ip_ok ip ->
           cidr_contains (CidrV4 c) ip = true <->
           exists b, ip = V4 b /\ cidr4_network c <= b <= cidr4_broadcast c
     end) /\
  (forall a p, 0 <= a <= u128_max -> 0 <= p ->
     match cidr6_new a p with
     | None => 128 < p
     | Some c =>
         p <= 128 /\ prefix6 c = p /\ cidr_contains (CidrV6 c) (V6 a) = true /\
         forall ip, ip_ok ip ->
           cidr_contains (CidrV6 c) ip = true <->
           exists b, ip = V6 b /\ cidr6_network c <= b <= cidr6_broadcast c
     end).
Proof.
  split; intros a p Ha Hp.
  - destruct (cidr4_new a p) as [c|] eqn:E.
    + apply cidr4_new_Some in E as (Hc & <- & Hb); [|done..]. pose proof Hc as (Hp2 & _).
      split; [lia|]. split; [done|]. split.
      { apply cidr4_contains_iff; [done..|]. rewrite cidr4_broadcast_eq by done. unfold cidr4_network.
        unfold u32_max in Ha. apply (block_first_iff 32 (prefix4 c)); [lia|lia| |done]. by destruct Hc as (_ & _ & ?). }
      split.
      { rewrite cidr4_broadcast_eq by done. unfold cidr4_len, cidr4_network. rewrite Z.shiftl_1_l. lia. }
      intros [b|b] Hi; cbn [cidr_contains ip_ok] in *.
      * rewrite cidr4_contains_iff by done. split; [by exists b|by intros (? & [= ->] & ?)].
      * split; [done|]. by intros (? & ? & _).
    + unfold cidr4_new in E. destruct (_ <? _) eqn:El; [|done]. by bools.
  - destruct (cidr6_new a p) as [c|] eqn:E.
    + apply cidr6_new_Some in E as (Hc & <- & Hb); [|done..]. pose proof Hc as (Hp2 & _).
      split; [lia|]. split; [done|]. split.
      { apply cidr6_contains_iff; [done..|]. rewrite cidr6_broadcast_eq by done. unfold cidr6_network.
        unfold u128_max in Ha. apply (block_first_iff 128 (prefix6 c)); [lia|lia| |done]. by destruct Hc as (_ & _ & ?). }
      intros [b|b] Hi; cbn [cidr_contains ip_ok] in *.
      * split; [done|]. by intros (? & ? & _).
      * rewrite cidr6_contains_iff by done. split; [by exists b|by intros (? & [= ->] & ?)].
    + unfold cidr6_new in E. destruct (_ <? _) eqn:El; [|done]. by bools.
Qed.

Lemma cidr_new_interval_witness :
  let c := mkIpv4Cidr 0xC6120000 16 in
  cidr4_new 0xC6120105 16 = Some c /\ cidr_contains (CidrV4 c) (V4 0xC6120105) = true.
Proof.
  cbn zeta. assert (cidr4_new 0xC6120105 16 = Some (mkIpv4Cidr 0xC6120000 16)) as E by (vm_compute; reflexivity).
  split; [exact E|].
  pose proof (proj1 cidr_new_interval 0xC6120105 16 ltac:(unfold u32_max; lia) ltac:(lia)) as H.
  rewrite E in H. exact (proj1 (proj2 (proj2 H))).
Defined.

(** an IPv4 block prints as text that parses back to the same block, both
    as an IPv4 block and as a block of unknown family. *)
Theorem cidr4_fmt_round_trip c :
  cidr4_ok c ->
  cidr4_parse (cidr4_fmt c) = Some c /\ cidr_parse (cidr4_fmt c) = Some (CidrV4 c).
Proof.
  intros Hc. pose proof Hc as (Hp & Hb & _). unfold cidr4_fmt, cidr4_network.
  destruct (show_v4_text (base4 c)) as [_ Ht].
  assert (cidr4_parse (show_v4 (base4 c) ++ [47] ++ show_u8 (prefix4 c)) = Some c) as Hparse.
  { unfold cidr4_parse. rewrite split_prefix_fmt by (done || lia). cbn [mbind option_bind].
    rewrite parse_show_v4 by done. cbn [mbind option_bind]. by apply cidr_ext4. }
  split; [done|]. unfold cidr_parse. cbn [app].
  destruct (addr_text_graphic _ Ht) as [Hg Hn].
  rewrite head_split_app, trim_graphic, parse_ip_show_v4 by done.
  cbn [app] in Hparse. by rewrite Hparse.
Qed.

Lemma cidr4_fmt_round_trip_witness :
  let c := mkIpv4Cidr 0xC6120000 16 in
  cidr4_fmt c = ascii_bytes "198.18.0.0/16" /\ cidr4_parse (cidr4_fmt c) = Some c.
Proof.
  cbn zeta. split; [vm_compute; reflexivity|].
  apply cidr4_fmt_round_trip. repeat split; vm_compute; discriminate || reflexivity.
Defined.
