(* ===== verification/Pattern.v ===== *)
(** * Clash-style domain patterns ([src/pattern.rs])

    The parser and the matcher every configuration surface shares.  Error
    messages are kept without the texts they interpolate. *)
From S2P Require Import Prelude Wire Prng Name Addr.

(** A pattern label; [None] is a [*]. *)
Record WildcardPattern := mkWildcard {
  w_labels : list (option (list Z));
  leading_wildcard : bool }.

Inductive DomainPattern :=
| PAny
| PExact (n : Name)
| PSubtree (n : Name)
| PWildcard (w : WildcardPattern).

#[global] Instance WildcardPattern_eq_dec : EqDecision WildcardPattern.
Proof. solve_decision. Defined.
#[global] Instance DomainPattern_eq_dec : EqDecision DomainPattern.
Proof. solve_decision. Defined.

(** ** Matching *)

Definition wildcard_label_count (w : WildcardPattern) : Z :=
  zlen (w_labels w) + (if leading_wildcard w then 1 else 0).

Definition label_matches (lp : list Z * option (list Z)) : bool :=
  match lp.2 with None => true | Some lit => bool_decide (lit = lp.1) end.

Definition wildcard_matches (w : WildcardPattern) (name : Name) : bool :=
  let ls := labels name in
  let all candidate := forallb label_matches (combine candidate (w_labels w)) in
  if leading_wildcard w then
    let skip := zlen ls - zlen (w_labels w) in
    if skip <? 0 then false
    else all (match get_from ls skip with Some c => c | None => [] end)
  else if zlen ls =? zlen (w_labels w) then all ls else false.

Definition pattern_matches (p : DomainPattern) (name : Name) : bool :=
  match p with
  | PAny => true
  | PExact n => bool_decide (name = n)
  | PSubtree n => is_subdomain_of name n
  | PWildcard w => wildcard_matches w name
  end.

Definition pattern_suffix (p : DomainPattern) : option Name :=
  match p with PAny | PWildcard _ => None | PExact n | PSubtree n => Some n end.

Definition is_wildcard (p : DomainPattern) : bool :=
  match p with PSubtree _ | PWildcard _ => true | _ => false end.

Definition pattern_label_count (p : DomainPattern) : Z :=
  match p with
  | PAny => 0
  | PExact n | PSubtree n => label_count n
  | PWildcard w => wildcard_label_count w
  end.

Definition is_exact (p : DomainPattern) : bool :=
  match p with PExact _ => true | _ => false end.

(** ** Parsing *)

Definition is_ascii_whitespace (b : Z) : bool :=
  (b =? 32) || (b =? 9) || (b =? 10) || (b =? 12) || (b =? 13).

Definition bad_pattern : Error := config "bad domain pattern".

(** The leading marker: [*.], [+.] or [.]. *)
Definition strip_marker (raw : list Z) : list Z * bool :=
  match strip_prefix [42; 46] raw with
  | Some r => (r, true)
  | None =>
      match strip_prefix [43; 46] raw with
      | Some r => (r, true)
      | None =>
          match strip_prefix [46] raw with
          | Some r => (r, true)
          | None => (raw, false)
          end
      end
  end.

Fixpoint wildcard_labels (parts : list (list Z)) : result Error (list (option (list Z))) :=
  match parts with
  | [] => Ok []
  | part :: parts =>
      if bool_decide (part = [42]) then rest ← wildcard_labels parts; Ok (None :: rest)
      else one ← map_err (fun _ => bad_pattern) (from_ascii part);
           l ← ok_or (list.head (labels one)) bad_pattern;
           rest ← wildcard_labels parts; Ok (Some l :: rest)
  end.

Definition parse_suffix (suffix : list Z) (leading : bool) : result Error DomainPattern :=
  let suffix := trim_end_matches 46 suffix in
  _ ← reject_if (zlen suffix =? 0) (config "domain pattern has an empty suffix");
  let parts := split_on 46 suffix in
  _ ← reject_if (existsb (fun p => zlen p =? 0) parts) (config "domain pattern has an empty label");
  if negb (existsb (fun p => bool_decide (p = [42])) parts) then
    name ← map_err (fun _ => bad_pattern) (from_ascii suffix);
    _ ← reject_if (is_root name) (config "domain pattern resolves to the root");
    Ok (if leading then PSubtree name else PExact name)
  else
    ls ← wildcard_labels parts;
    Ok (PWildcard (mkWildcard ls leading)).

Definition pattern_parse (s : list Z) : result Error DomainPattern :=
  let raw := trim s in
  if zlen raw =? 0 then Err (config "empty domain pattern")
  else if bool_decide (raw = [42]) then Ok PAny
  else
    _ ← reject_if (existsb is_ascii_whitespace raw) (config "domain pattern contains whitespace");
    _ ← reject_if (existsb (Z.eqb 92) raw) (config "escapes are not supported in patterns");
    let '(suffix, leading) := strip_marker raw in
    parse_suffix suffix leading.

(** The first bad entry is the error. *)
Fixpoint parse_all (items : list (list Z)) : result Error (list DomainPattern) :=
  match items with
  | [] => Ok []
  | s :: items =>
      p ← map_err (fun e => config (err_msg e)) (pattern_parse s);
      rest ← parse_all items; Ok (p :: rest)
  end.

(** ** Specification *)

(** Label-wise matching of a tail, a [None] standing for any one label. *)
Definition tail_matches (tail : list (list Z)) (pats : list (option (list Z))) : Prop :=
  Forall2 (fun l p => match p with None => True | Some lit => lit = l end) tail pats.

Definition pattern_ok (p : DomainPattern) : Prop :=
  match p with
  | PAny => True
  | PExact n | PSubtree n =>
      exists ls, ls <> [] /\ n = of_labels ls /\ Forall label_ok ls /\ Forall lower_ok ls
  | PWildcard w =>
      In None (w_labels w) /\
      forall l, In (Some l) (w_labels w) -> label_ok l /\ lower_ok l
  end.

(** ** Lemmas *)

Lemma label_matches_tail tail pats :
  zlen tail = zlen pats ->
  forallb label_matches (combine tail pats) = true <-> tail_matches tail pats.
Proof.
  revert pats. induction tail as [|l tail IH]; intros [|p pats] Hl.
  - split; [constructor|done].
  - rewrite zlen_cons, zlen_nil in Hl. len_facts. lia.
  - rewrite zlen_cons, zlen_nil in Hl. len_facts. lia.
  - rewrite !zlen_cons in Hl. cbn [combine forallb]. rewrite andb_true_iff, IH by lia.
    unfold label_matches at 1. cbn [fst snd]. unfold tail_matches.
    split.
    + intros [Hp Ht]. constructor; [|done]. destruct p; [|done]. by apply bool_decide_eq_true in Hp.
    + intros Hf. inversion Hf as [|???? Hp Ht]; subst. split; [|done].
      destruct p; [|done]. by apply bool_decide_eq_true.
Qed.

Lemma wildcard_matches_iff w ls :
  Forall label_ok ls ->
  wildcard_matches w (of_labels ls) = true <->
  exists pre tail, ls = pre ++ tail /\ tail_matches tail (w_labels w) /\
    (leading_wildcard w = false -> pre = []).
Proof.
  intros Hok. unfold wildcard_matches. rewrite labels_of_labels by done. cbn zeta.
  assert (forall tail, tail_matches tail (w_labels w) -> zlen tail = zlen (w_labels w)) as Hlen.
  { intros tail Ht%Forall2_length. unfold zlen. by rewrite Ht. }
  destruct (leading_wildcard w).
  - destruct (_ <? 0) eqn:Es; bools.
    + split; [done|]. intros (pre & tail & -> & Ht%Hlen & _). rewrite zlen_app in Es. len_facts. lia.
    + unfold get_from. destruct (get_range ls _ _) as [tail|] eqn:Er.
      2: { apply get_range_None in Er. len_facts. lia. }
      apply get_range_split in Er as (pre & post & -> & Hp & Hz).
      rewrite !zlen_app in *. len_facts. assert (post = []) as -> by (apply zlen_0; lia).
      rewrite app_nil_r in *. rewrite zlen_nil in *.
      rewrite label_matches_tail by lia. split.
      * intros Ht. by exists pre, tail.
      * intros (pre' & tail' & E & Ht & _).
        pose proof (Hlen _ Ht) as Hl'. apply app_inj_2 in E as [-> ->]; [done|].
        unfold zlen in *. lia.
  - destruct (zlen ls =? zlen (w_labels w)) eqn:El; bools.
    + rewrite label_matches_tail by done. split.
      * intros Ht. by exists [], ls.
      * intros (pre & tail & -> & Ht & Hpre). by rewrite Hpre in *.
    + split; [done|]. intros (pre & tail & -> & Ht%Hlen & Hpre). by rewrite Hpre in *.
Qed.

Lemma strip_prefix_Some p s r : strip_prefix p s = Some r -> s = p ++ r.
Proof.
  revert s. induction p as [|x p IH]; intros s; cbn; [by intros [= ->]|].
  destruct s as [|y s]; [done|]. destruct (x =? y) eqn:E; [|done]. bools. subst.
  by intros ->%IH.
Qed.

Lemma trim_with_bytes (P : Z -> Prop) pats fuel s : Forall P s -> Forall P (trim_with pats fuel s).
Proof.
  revert s. induction fuel as [|fuel IH]; intros s Hs; cbn; [done|].
  destruct (list_find_map _ pats) as [rest|] eqn:E; [|done]. apply IH. clear IH.
  induction pats as [|p pats IHp]; cbn in E; [done|].
  destruct (strip_prefix p s) as [r|] eqn:Ep; [|auto].
  injection E as ->. apply strip_prefix_Some in Ep as ->. rewrite List.Forall_app in Hs. apply Hs.
Qed.

Lemma trim_bytes s : bytes s -> bytes (trim s).
Proof.
  intros Hs. unfold trim, trim_end, trim_start. apply List.Forall_rev, trim_with_bytes, List.Forall_rev.
  by apply trim_with_bytes.
Qed.

Lemma strip_leading_bytes c s : bytes s -> bytes (strip_leading c s).
Proof. induction 1 as [|x s Hx Hs IH]; cbn; [done|]. destruct (x =? c); [done|]. by constructor. Qed.

Lemma split_on_bytes c s : bytes s -> Forall bytes (split_on c s).
Proof.
  induction 1 as [|x s Hx Hs IH]; cbn; [by repeat constructor|].
  destruct (x =? c); [by constructor|]. destruct (split_on c s) as [|part parts].
  - constructor; [by constructor|done].
  - inversion IH as [|?? H1 H2]; subst. constructor; [by constructor|done].
Qed.

Lemma wildcard_labels_ok parts ls :
  Forall bytes parts -> wildcard_labels parts = Ok ls ->
  (existsb (fun p => bool_decide (p = [42])) parts = true -> In None ls) /\
  forall l, In (Some l) ls -> label_ok l /\ lower_ok l.
Proof.
  intros Hp. revert ls. induction Hp as [|part parts Hb Hp IH]; intros ls; cbn.
  { intros [= <-]. done. }
  case_bool_decide as Ep.
  - intros (rest & Hr & [= <-])%bind_Ok. destruct (IH _ Hr) as [_ Hok]. split; [by left|].
    intros l [?|?]; [done|auto].
  - intros (one & Ho & H)%bind_Ok. apply bind_Ok in H as (l & Hl & (rest & Hr & [= <-])%bind_Ok).
    destruct (IH _ Hr) as [Hn Hok]. split; [right; auto|].
    intros l' [[= ->]|?]; [|auto]. unfold map_err in Ho. destruct (from_ascii part) as [n|] eqn:Ef; [|done].
    injection Ho as ->. apply from_ascii_labels in Ef as (ns & -> & Hlk & Hlow & _); [|done].
    apply ok_or_Ok in Hl. rewrite labels_of_labels in Hl by done.
    destruct ns as [|n ns]; [done|]. injection Hl as ->.
    inversion Hlk; inversion Hlow; subst. done.
Qed.

Lemma parse_suffix_ok s leading p :
  bytes s -> parse_suffix s leading = Ok p ->
  pattern_ok p /\
  match p with
  | PAny => False | PExact _ => leading = false | PSubtree _ => leading = true
  | PWildcard w => leading_wildcard w = leading
  end.
Proof.
  intros Hs. unfold parse_suffix. cbn zeta.
  set (suffix := trim_end_matches 46 s).
  assert (bytes suffix) as Hb.
  { unfold suffix, trim_end_matches. by apply List.Forall_rev, strip_leading_bytes, List.Forall_rev. }
  intros (? & E1 & H)%bind_Ok. apply bind_Ok in H as (? & E2 & H).
  destruct (negb _) eqn:Ew.
  - apply bind_Ok in H as (n & Hn & H). apply bind_Ok in H as (? & Er & [= <-]).
    unfold map_err in Hn. destruct (from_ascii suffix) as [n'|] eqn:Ef; [|done]. injection Hn as ->.
    apply from_ascii_labels in Ef as (ls & -> & Hok & Hlow & _); [|done].
    unfold reject_if in Er. rewrite is_root_of_labels in Er by done. case_bool_decide; [done|].
    destruct leading; cbn; eauto 10.
  - apply bind_Ok in H as (ls & Hl & [= <-]). apply negb_false_iff in Ew. cbn.
    destruct (wildcard_labels_ok _ _ (split_on_bytes 46 _ Hb) Hl) as [Hn Hok]. auto.
Qed.

Lemma strip_marker_bytes raw : bytes raw -> bytes (strip_marker raw).1.
Proof.
  intros Hb. unfold strip_marker.
  repeat (case_match; [match goal with E : strip_prefix _ _ = Some _ |- _ =>
    apply strip_prefix_Some in E; subst end; rewrite List.Forall_app in Hb; apply Hb|]).
  done.
Qed.

Lemma pattern_parse_cases s p :
  pattern_parse s = Ok p ->
  (trim s = [42] /\ p = PAny) \/
  (trim s <> [42] /\ parse_suffix (strip_marker (trim s)).1 (strip_marker (trim s)).2 = Ok p).
Proof.
  unfold pattern_parse. destruct (_ =? 0); [done|]. case_bool_decide as Ea.
  { intros [= <-]. by left. }
  intros (? & _ & H)%bind_Ok. apply bind_Ok in H as (? & _ & H).
  destruct (strip_marker (trim s)) as [suffix leading]. by right.
Qed.

Lemma pattern_parse_ok s p : bytes s -> pattern_parse s = Ok p -> pattern_ok p.
Proof.
  intros Hs H. destruct (pattern_parse_cases _ _ H) as [[_ ->]|[_ Hp]]; [done|].
  eapply parse_suffix_ok, Hp. by apply strip_marker_bytes, trim_bytes.
Qed.

Lemma parse_all_ok items ps :
  Forall bytes items -> parse_all items = Ok ps -> Forall pattern_ok ps.
Proof.
  intros Hi. revert ps. induction Hi as [|s items Hs Hi IH]; intros ps; cbn.
  { by intros [= <-]. }
  intros (p & Hp & (rest & Hr & [= <-])%bind_Ok)%bind_Ok.
  constructor; [|auto]. unfold map_err in Hp. destruct (pattern_parse s) eqn:E; [|done].
  injection Hp as ->. by eapply pattern_parse_ok.
Qed.

(** A marker in front of a graphic text is exactly what [strip_marker] takes. *)
Lemma pattern_parse_marked m d :
  (m = [42; 46] \/ m = [43; 46] \/ m = [46]) -> forallb graphic d = true ->
  pattern_parse (m ++ d) =
  (_ ← reject_if (existsb (Z.eqb 92) d) (config "escapes are not supported in patterns");
   parse_suffix d true).
Proof.
  intros Hm Hd. assert (forallb graphic (m ++ d) = true) as Hg.
  { rewrite forallb_app, Hd. by destruct Hm as [->|[->| ->]]. }
  assert (existsb is_ascii_whitespace (m ++ d) = false) as Hw.
  { apply not_true_iff_false. intros (x & Hx & Hwx)%existsb_exists.
    rewrite forallb_forall in Hg. apply Hg in Hx. unfold graphic, is_ascii_whitespace in *.
    bools. rewrite !orb_true_iff, !Z.eqb_eq in Hwx. lia. }
  assert (existsb (Z.eqb 92) (m ++ d) = existsb (Z.eqb 92) d) as He.
  { rewrite existsb_app. by destruct Hm as [->|[->| ->]]. }
  assert (strip_marker (m ++ d) = (d, true)) as Hs.
  { by destruct Hm as [->|[->| ->]]. }
  unfold pattern_parse. rewrite trim_graphic by done. cbn zeta. rewrite Hw, He, Hs. cbn [reject_if].
  destruct (zlen (m ++ d) =? 0) eqn:E0.
  { bools. destruct Hm as [->|[->| ->]]; lens. }
  rewrite bool_decide_false; [done|]. by destruct Hm as [->|[->| ->]].
Qed.

(** ** Properties *)

(** what a pattern matches, in labels: [*] every name; an exact pattern
    that name only; a subtree pattern the name and every name below it, and
    nothing else as long as no label contains an octet that is the length of a
    pattern label; an embedded-wildcard pattern the names whose labels match one by one,
    after any number of labels if it began with a marker and none
    otherwise. *)
Theorem pattern_matches_labels p ls :
  Forall label_ok ls -> pattern_ok p ->
  match p with
  | PAny => pattern_matches p (of_labels ls) = true
  | PExact n => pattern_matches p (of_labels ls) = true <-> n = of_labels ls
  | PSubtree n =>
      ((exists pre, ls = pre ++ labels n) -> pattern_matches p (of_labels ls) = true) /\
      (Forall (fun a => Forall (fun l => ~ In (zlen l) a) (labels n)) ls ->
       pattern_matches p (of_labels ls) = true -> exists pre, ls = pre ++ labels n)
  | PWildcard w =>
      pattern_matches p (of_labels ls) = true <->
      exists pre tail, ls = pre ++ tail /\ tail_matches tail (w_labels w) /\
        (leading_wildcard w = false -> pre = [])
  end.
Proof.
  intros Hok Hp. destruct p as [|n|n|w]; cbn [pattern_matches].
  - done.
  - rewrite bool_decide_eq_true. by split.
  - destruct Hp as (ns & Hne & -> & Hn & _). rewrite labels_of_labels by done.
    unfold is_subdomain_of, of_labels. cbn [as_bytes]. rewrite ends_with_iff. split.
    + intros [pre ->]. exists (enc_labels pre). by rewrite enc_labels_app, app_assoc.
    + intros Hno [x Hx]. rewrite app_assoc in Hx. apply app_inj_tail in Hx as [Hx _].
      destruct ns as [|l ns]; [done|]. eapply enc_suffix_aligned; [|exact Hx|done..].
      eapply List.Forall_impl; [|exact Hno]. intros a Ha. by inversion Ha.
  - by apply wildcard_matches_iff.
Qed.

Lemma pattern_matches_labels_witness :
  let p := PWildcard (mkWildcard [Some [116]; None; Some [99]] false) in
  pattern_ok p /\
  pattern_matches p (of_labels [[116]; [120; 121]; [99]]) = true /\
  pattern_matches p (of_labels [[97]; [116]; [120]; [99]]) = false /\
  exists pre tail, [[116]; [120; 121]; [99]] = pre ++ tail /\
    tail_matches tail [Some [116]; None; Some [99]] /\ (false = false -> pre = []).
Proof.
  cbn zeta.
  assert (pattern_ok (PWildcard (mkWildcard [Some [116]; None; Some [99]] false))) as Hok.
  { split; [by right; left|]. intros l [[= <-]|[?|[[= <-]|[]]]]; [|done|]; repeat constructor; done. }
  split; [exact Hok|]. split; [reflexivity|]. split; [reflexivity|].
  apply (pattern_matches_labels _ [[116]; [120; 121]; [99]]) in Hok;
    [|repeat constructor; done].
  apply Hok. reflexivity.
Defined.

(** every pattern the parser accepts can match a name: a plain pattern
    holds a non-root name with well-formed lower-case labels, an
    embedded-wildcard pattern holds at least one [*] and well-formed literals;
    only the text [*] gives the catch-all. *)
Theorem pattern_parse_sound s p :
  bytes s -> pattern_parse s = Ok p ->
  pattern_ok p /\ (p = PAny <-> trim s = [42]).
Proof.
  intros Hs H. split; [by eapply pattern_parse_ok|].
  destruct (pattern_parse_cases _ _ H) as [[Ht ->]|[Ht Hp]]; [done|].
  split; [|done]. intros ->.
  apply parse_suffix_ok in Hp as [_ Hf]; [done|]. by apply strip_marker_bytes, trim_bytes.
Qed.

Lemma pattern_parse_sound_witness :
  exists p, pattern_parse (ascii_bytes " *.stun.*.* ") = Ok p /\
    (p = PAny <-> trim (ascii_bytes " *.stun.*.* ") = [42]).
Proof.
  exists (PWildcard (mkWildcard [Some (ascii_bytes "stun"); None; None] true)).
  assert (pattern_parse (ascii_bytes " *.stun.*.* ")
    = Ok (PWildcard (mkWildcard [Some (ascii_bytes "stun"); None; None] true))) as E
    by (vm_compute; reflexivity).
  split; [exact E|]. apply (pattern_parse_sound (ascii_bytes " *.stun.*.* ")); [|exact E].
  repeat constructor; vm_compute; discriminate.
Defined.

(** the three markers mean the same: [*.d], [+.d] and [.d] parse to the
    same pattern (or the same error), which matches below [d] and is never an
    exact pattern. *)
Theorem pattern_spellings d :
  forallb graphic d = true ->
  pattern_parse ([42; 46] ++ d) = pattern_parse ([46] ++ d) /\
  pattern_parse ([43; 46] ++ d) = pattern_parse ([46] ++ d) /\
  (forall p, bytes d -> pattern_parse ([46] ++ d) = Ok p ->
     is_wildcard p = true /\ is_exact p = false).
Proof.
  intros Hd. rewrite !pattern_parse_marked by auto. split; [done|]. split; [done|].
  intros p Hb (? & _ & H)%bind_Ok. apply parse_suffix_ok in H as [_ H]; [|done]. by destruct p.
Qed.

Lemma pattern_spellings_witness :
  pattern_parse (ascii_bytes "*.example.com") = pattern_parse (ascii_bytes ".example.com") /\
  pattern_parse (ascii_bytes ".example.com")
    = Ok (PSubtree (of_labels [ascii_bytes "example"; ascii_bytes "com"])).
Proof.
  split; [|vm_compute; reflexivity].
  apply (pattern_spellings (ascii_bytes "example.com")). vm_compute. reflexivity.
Defined.
