(* ===== verification/FakeIp.v ===== *)
(** * Fake-IP allocation ([src/fakeip.rs])

    [Space]: one family's allocation space, an address-keyed map and its
    reverse index; [FakeIpPool]: a space per configured family behind the name
    filter.  Operations that can fail and change state return both the result
    and the state. *)
From S2P Require Import Prelude Wire Prng Name BTree Bounded Time Addr Cidr Pattern.

Definition DEFAULT_FAKE_IP_RANGE : list Z := ascii_bytes "198.18.0.0/16".
Definition DEFAULT_FAKE_IP_RANGE6 : list Z := ascii_bytes "fdfe:dcba:9876::/48".
Definition DEFAULT_FAKE_IP_ANSWER_TTL : Z := 1.
Definition DEFAULT_FAKE_IP_TTL_SECS : Z := 3600.
Definition DEFAULT_FAKE_IP_FILTER : list (list Z) := map ascii_bytes
  ["*.lan"; "*.local"; "*.localhost"; "*.localdomain"; "localhost"; "*.home.arpa"; "*.invalid";
   "*.test"; "+.msftconnecttest.com"; "+.msftncsi.com"; "+.connectivitycheck.gstatic.com";
   "+.connectivitycheck.android.com"; "+.captive.apple.com"; "time.*.com"; "time.*.gov";
   "time.*.edu.cn"; "time.*.apple.com"; "time.windows.com"; "time.nist.gov"; "*.pool.ntp.org";
   "stun.*.*"; "*.stun.*.*"; "*.srv.nintendo.net"; "*.stun.playstation.net"]%string.
Definition DEFAULT_FAKE_IP_MAX_ENTRIES : Z := 16384.
Definition EVICT_STRIDE : Z := 8.
Definition MAX_TTL_SECS : Z := 7 * 24 * 3600.

Inductive Allocation := Address (ip : IpAddr) | Filtered.
Inductive Family := FamV4 | FamV6.

#[global] Instance Allocation_eq_dec : EqDecision Allocation.
Proof. solve_decision. Defined.
#[global] Instance Family_eq_dec : EqDecision Family.
Proof. solve_decision. Defined.

Definition family_bits (f : Family) : Z := match f with FamV4 => 32 | FamV6 => 128 end.
(** [key as u32] keeps the low bits. *)
Definition family_addr (f : Family) (key : Z) : IpAddr :=
  match f with FamV4 => V4 (wrap 32 key) | FamV6 => V6 key end.
Definition family_key (f : Family) (ip : IpAddr) : option Z :=
  match f, ip with
  | FamV4, V4 a => Some a
  | FamV6, V6 a => Some a
  | _, _ => None
  end.

Record Entry := mkEntry { e_name : Name; created : Z; last_access : Z }.

(** ** Settings *)

Record FakeIpSettings := mkSettings {
  range : Ipv4Cidr;
  range6 : option Ipv6Cidr;
  st_filter : list DomainPattern;
  ttl_secs : Z;
  st_max_entries : Z;
  answer_ttl : Z }.

Definition settings_parse (range : list Z) (range6 : option (list Z))
    (filter : option (list (list Z))) (ttl_secs max_entries : Z) : result Error FakeIpSettings :=
  range ← ok_or (cidr4_parse range) (config "invalid fake-ip range");
  _ ← reject_if (cidr4_len range <? 2) (config "fake-ip range has no usable addresses");
  range6 ← match range6 with
           | None => Ok None
           | Some s =>
               c ← ok_or (cidr6_parse s) (config "invalid fake-ip range6");
               _ ← reject_if (cidr6_network c =? cidr6_broadcast c)
                     (config "fake-ip range6 has no usable addresses");
               Ok (Some c)
           end;
  _ ← reject_if (max_entries =? 0) (config "fake-ip maxEntries must be at least 1 (0 would disable fake-ip silently)");
  _ ← reject_if (ttl_secs =? 0) (config "fake-ip ttl must be at least 1 second (0 would expire every mapping immediately, so no client could ever use one)");
  filter ← match filter with
           | None => parse_all DEFAULT_FAKE_IP_FILTER
           | Some l => parse_all l
           end;
  Ok (mkSettings range range6 filter ttl_secs max_entries DEFAULT_FAKE_IP_ANSWER_TTL).

Definition with_answer_ttl (s : FakeIpSettings) (ttl : Z) : FakeIpSettings :=
  mkSettings (range s) (range6 s) (st_filter s) (ttl_secs s) (st_max_entries s) (Z.max ttl 1).

Definition settings_synthesizes (s : FakeIpSettings) (f : Family) : bool :=
  match f with FamV4 => true | FamV6 => bool_decide (is_Some (range6 s)) end.

Definition with_defaults : result Error FakeIpSettings :=
  settings_parse DEFAULT_FAKE_IP_RANGE None None DEFAULT_FAKE_IP_TTL_SECS DEFAULT_FAKE_IP_MAX_ENTRIES.

(** ** One family's space *)

Record Space := mkSpace {
  family : Family;
  first : Z;
  last : Z;
  next : Z;
  sp_ttl : Z;
  by_key : list (Z * Entry);
  by_name : list (Name * Z);
  max_entries : Z;
  evicted : Z }.

Definition set_next (s : Space) (n : Z) : Space :=
  mkSpace (family s) (first s) (last s) n (sp_ttl s) (by_key s) (by_name s) (max_entries s) (evicted s).
Definition set_maps (s : Space) (bk : list (Z * Entry)) (bn : list (Name * Z)) : Space :=
  mkSpace (family s) (first s) (last s) (next s) (sp_ttl s) bk bn (max_entries s) (evicted s).
Definition set_evicted (s : Space) (n : Z) : Space :=
  mkSpace (family s) (first s) (last s) (next s) (sp_ttl s) (by_key s) (by_name s) (max_entries s) n.

Definition space_new (f : Family) (first last max_entries ttl : Z) : Space :=
  mkSpace f first last first ttl [] [] (Z.max max_entries 1) 0.

Definition space_v4 (r : Ipv4Cidr) (max_entries ttl : Z) : Space :=
  space_new FamV4 (cidr4_network r + 1) (cidr4_broadcast r) max_entries ttl.
Definition space_v6 (r : Ipv6Cidr) (max_entries ttl : Z) : Space :=
  space_new FamV6 (cidr6_network r + 1) (cidr6_broadcast r) max_entries ttl.

(** Unsigned [saturating_sub]; [usize::try_from(n).unwrap_or(usize::MAX)]. *)
Definition usat_sub (a b : Z) : Z := Z.max 0 (a - b).
Definition capacity (s : Space) : Z :=
  let n := usat_sub (last s) (first s) + 1 in
  if n <=? usize_max then n else usize_max.

Definition cap (s : Space) : Z := Z.min (max_entries s) (capacity s).
Definition space_len (s : Space) : Z := zlen (by_key s).
Definition covers (s : Space) (key : Z) : bool :=
  (usat_sub (first s) 1 <=? key) && (key <=? last s).

Definition rebuild_name_index (s : Space) : Space :=
  set_maps s (by_key s)
    (fold_left (fun bn ke => bt_insert bn (e_name ke.2) ke.1) (by_key s) []).

Definition reclaim (s : Space) (now : Z) : Space :=
  let cutoff := ts_saturating_sub now (sp_ttl s) in
  let '(freed, bk) := evict_for_capacity last_access (by_key s) cutoff EVICT_STRIDE in
  let s := set_maps s bk (by_name s) in
  if 0 <? freed then rebuild_name_index (set_evicted s (wrap 64 (evicted s + freed))) else s.

(** The cursor: the candidate, and the space with the cursor moved on. *)
Definition space_advance (s : Space) : Z * Space :=
  let cur := if (next s <? first s) || (last s <? next s) then first s else next s in
  (cur, set_next s (if last s <=? cur then first s else cur + 1)).

Fixpoint take_key_loop (limit : nat) (s : Space) : option Z * Space :=
  match limit with
  | O => (None, s)
  | S limit =>
      let '(c, s) := space_advance s in
      if bt_contains_key (by_key s) c then take_key_loop limit s else (Some c, s)
  end.

Definition take_key (s : Space) : option Z * Space :=
  take_key_loop (Z.to_nat (zlen (by_key s) + 1)) s.

(** [get_mut(&key)] and a store to [last_access]. *)
Definition touch (bk : list (Z * Entry)) (key now : Z) : list (Z * Entry) :=
  match bt_get bk key with
  | Some e => bt_insert bk key (mkEntry (e_name e) (created e) now)
  | None => bk
  end.

Definition space_allocate (s : Space) (name : Name) (now : Z) : result Error IpAddr * Space :=
  match bt_get (by_name s) name with
  | Some key => (Ok (family_addr (family s) key), set_maps s (touch (by_key s) key now) (by_name s))
  | None =>
      let s := if cap s <=? zlen (by_key s) then reclaim s now else s in
      let '(key, s) := take_key s in
      match key with
      | None => (Err (internal "fake-ip space reported room but had no free key"), s)
      | Some key =>
          (Ok (family_addr (family s) key),
           set_maps s (bt_insert (by_key s) key (mkEntry name now now))
             (bt_insert (by_name s) name key))
      end
  end.

Definition space_lookup (s : Space) (key now : Z) : option Name * Space :=
  match bt_get (by_key s) key with
  | None => (None, s)
  | Some e => (Some (e_name e), set_maps s (touch (by_key s) key now) (by_name s))
  end.

Definition space_peek (s : Space) (key : Z) : option Name := e_name <$> bt_get (by_key s) key.

Definition space_restore (s : Space) (name : Name) (key now : Z) : bool * Space :=
  if negb (covers s key) || (key <? first s) then (false, s)
  else if match bt_get (by_key s) key with
          | Some e => negb (bool_decide (e_name e = name)) | None => false end then (false, s)
  else if match bt_get (by_name s) name with
          | Some mapped => negb (mapped =? key) | None => false end then (false, s)
  else (true, set_maps s (bt_insert (by_key s) key (mkEntry name now now))
                         (bt_insert (by_name s) name key)).

Definition space_cleanup_expired (s : Space) (now : Z) : Z * Space :=
  let cutoff := ts_saturating_sub now (sp_ttl s) in
  let before := zlen (by_key s) in
  let s := set_maps s (bt_retain (fun _ e => cutoff <=? last_access e) (by_key s)) (by_name s) in
  let s := if negb (zlen (by_key s) =? before) then rebuild_name_index s else s in
  (before - zlen (by_key s), s).

Definition space_release (s : Space) (name : Name) : option Z * Space :=
  match bt_get (by_name s) name with
  | None => (None, s)
  | Some key => (Some key, set_maps s (bt_remove (by_key s) key) (bt_remove (by_name s) name))
  end.

Definition space_clear (s : Space) : Space := set_maps s [] [].

(** ** The pool *)

Record FakeIpPool := mkPool {
  v4_net : Ipv4Cidr;
  v6_net : option Ipv6Cidr;
  v4 : Space;
  v6 : option Space;
  filter : list DomainPattern;
  filtered_hits : Z }.

Definition ttl_nanos (secs : Z) : Z := clamp_i128 (Z.min secs MAX_TTL_SECS * 1000000000).

Definition pool_new (range : Ipv4Cidr) (range6 : option Ipv6Cidr) (filter : list DomainPattern)
    (ttl_secs max_entries : Z) : FakeIpPool :=
  let ttl := ttl_nanos ttl_secs in
  mkPool range range6 (space_v4 range max_entries ttl)
    ((fun r => space_v6 r max_entries ttl) <$> range6) filter 0.

Definition settings_build (s : FakeIpSettings) : FakeIpPool :=
  pool_new (range s) (range6 s) (st_filter s) (ttl_secs s) (st_max_entries s).

Definition from_config (range : list Z) (range6 : option (list Z)) (filter : option (list (list Z)))
    (ttl_secs max_entries : Z) : result Error FakeIpPool :=
  s ← settings_parse range range6 filter ttl_secs max_entries; Ok (settings_build s).

Definition space (p : FakeIpPool) (f : Family) : option Space :=
  match f with FamV4 => Some (v4 p) | FamV6 => v6 p end.

(** A store through [space_mut]. *)
Definition set_space (p : FakeIpPool) (f : Family) (s : Space) : FakeIpPool :=
  match f with
  | FamV4 => mkPool (v4_net p) (v6_net p) s (v6 p) (filter p) (filtered_hits p)
  | FamV6 => mkPool (v4_net p) (v6_net p) (v4 p) (Some s) (filter p) (filtered_hits p)
  end.

Definition synthesizes (p : FakeIpPool) (f : Family) : bool := bool_decide (is_Some (space p f)).
Definition pool_capacity (p : FakeIpPool) (f : Family) : Z :=
  match space p f with Some s => capacity s | None => 0 end.
Definition pool_max_entries (p : FakeIpPool) (f : Family) : Z :=
  match space p f with Some s => cap s | None => 0 end.
Definition len_for (p : FakeIpPool) (f : Family) : Z :=
  match space p f with Some s => space_len s | None => 0 end.
Definition pool_len (p : FakeIpPool) : Z :=
  space_len (v4 p) + match v6 p with Some s => space_len s | None => 0 end.
Definition pool_evicted (p : FakeIpPool) : Z :=
  wrap 64 (evicted (v4 p) + match v6 p with Some s => evicted s | None => 0 end).

Definition is_filtered (p : FakeIpPool) (name : Name) : bool :=
  existsb (fun pat => pattern_matches pat name) (filter p).

Definition pool_contains (p : FakeIpPool) (ip : IpAddr) : bool :=
  match family_key FamV4 ip, family_key FamV6 ip with
  | Some k, _ => covers (v4 p) k
  | _, Some k => match v6 p with Some s => covers s k | None => false end
  | _, _ => false
  end.

Definition pool_allocate (p : FakeIpPool) (name : Name) (f : Family) (now : Z)
    : result Error Allocation * FakeIpPool :=
  if is_filtered p name then
    (Ok Filtered, mkPool (v4_net p) (v6_net p) (v4 p) (v6 p) (filter p) (wrap 64 (filtered_hits p + 1)))
  else match space p f with
       | Some s =>
           let '(r, s) := space_allocate s name now in (Address <$> r, set_space p f s)
       | None => (Err (internal "no fake-ip space is configured for the family"), p)
       end.

Definition pool_lookup (p : FakeIpPool) (ip : IpAddr) (now : Z) : option Name * FakeIpPool :=
  match family_key FamV4 ip, family_key FamV6 ip with
  | Some k, _ => let '(r, s) := space_lookup (v4 p) k now in (r, set_space p FamV4 s)
  | _, Some k =>
      match v6 p with
      | Some s => let '(r, s) := space_lookup s k now in (r, set_space p FamV6 s)
      | None => (None, p)
      end
  | _, _ => (None, p)
  end.

Definition pool_peek (p : FakeIpPool) (ip : IpAddr) : option Name :=
  match family_key FamV4 ip, family_key FamV6 ip with
  | Some k, _ => space_peek (v4 p) k
  | _, Some k => match v6 p with Some s => space_peek s k | None => None end
  | _, _ => None
  end.

Definition pool_restore (p : FakeIpPool) (name : Name) (ip : IpAddr) (now : Z) : bool * FakeIpPool :=
  match family_key FamV4 ip, family_key FamV6 ip with
  | Some k, _ => let '(r, s) := space_restore (v4 p) name k now in (r, set_space p FamV4 s)
  | _, Some k =>
      match v6 p with
      | Some s => let '(r, s) := space_restore s name k now in (r, set_space p FamV6 s)
      | None => (false, p)
      end
  | _, _ => (false, p)
  end.

Definition space_mappings (f : Family) (s : Space) : list (Name * IpAddr) :=
  map (fun ke => (e_name ke.2, family_addr f ke.1)) (by_key s).
Definition pool_iter (p : FakeIpPool) : list (Name * IpAddr) :=
  space_mappings FamV4 (v4 p) ++
  match v6 p with Some s => space_mappings FamV6 s | None => [] end.

Definition pool_cleanup_expired (p : FakeIpPool) (now : Z) : Z * FakeIpPool :=
  let '(dropped, s4) := space_cleanup_expired (v4 p) now in
  let p := set_space p FamV4 s4 in
  match v6 p with
  | Some s => let '(n, s) := space_cleanup_expired s now in (dropped + n, set_space p FamV6 s)
  | None => (dropped, p)
  end.

Definition pool_release (p : FakeIpPool) (name : Name) (f : Family) : option IpAddr * FakeIpPool :=
  match space p f with
  | None => (None, p)
  | Some s => let '(key, s) := space_release s name in (family_addr f <$> key, set_space p f s)
  end.

Definition pool_clear (p : FakeIpPool) : FakeIpPool :=
  let p := set_space p FamV4 (space_clear (v4 p)) in
  match v6 p with Some s => set_space p FamV6 (space_clear s) | None => p end.

Example default_filter_parses : is_ok with_defaults = true.
Proof. vm_compute. reflexivity. Qed.

(** ** Invariant *)

Definition family_max (f : Family) : Z := match f with FamV4 => u32_max | FamV6 => u128_max end.

(** The reverse index is the inverse of the address map, and every key is an
    address of the range other than its first. *)
Record space_ok (s : Space) : Prop := {
  ok_by_key : bt_sorted (by_key s);
  ok_by_name : bt_sorted (by_name s);
  ok_inverse n k : bt_get (by_name s) n = Some k <->
    exists e, bt_get (by_key s) k = Some e /\ e_name e = n;
  ok_keys k e : bt_get (by_key s) k = Some e -> first s <= k <= last s;
  ok_range : 1 <= first s <= last s /\ last s <= family_max (family s);
  ok_max_entries : 1 <= max_entries s }.

(** The parts of a space no operation changes. *)
Definition same_config (s s' : Space) : Prop :=
  family s' = family s /\ first s' = first s /\ last s' = last s /\ sp_ttl s' = sp_ttl s /\
  max_entries s' = max_entries s.

#[global] Instance same_config_preorder : PreOrder same_config.
Proof. split; [done|]. unfold same_config. intros ???; intuition congruence. Qed.

Definition space_size (s : Space) : Z := last s - first s + 1.

(** ** Lemmas: counting keys *)

Lemma zlen_NoDup_range (l : list Z) a b :
  List.NoDup l -> (forall k, In k l -> a <= k <= b) -> a <= b + 1 -> zlen l <= b - a + 1.
Proof.
  intros Hn Hr Hab.
  assert (length l <= length (seqZ a (b - a + 1)))%nat as Hl.
  { apply NoDup_incl_length; [done|]. intros k Hk%Hr.
    apply list_elem_of_In, elem_of_seqZ. lia. }
  rewrite length_seqZ in Hl. unfold zlen. lia.
Qed.

Lemma keys_In {V} (m : list (Z * V)) k : In k m.*1 <-> exists e, In (k, e) m.
Proof.
  split.
  - intros ([k' e] & <- & Hin)%in_map_iff. by exists e.
  - intros [e Hin]. apply in_map_iff. by exists (k, e).
Qed.

Section space_lemmas.
Context (s : Space) (Hok : space_ok s).

Lemma space_len_bound : zlen (by_key s) <= space_size s.
Proof.
  destruct Hok as [Hs _ _ Hk Hr _]. unfold space_size.
  replace (zlen (by_key s)) with (zlen (by_key s).*1) by apply zlen_fmap.
  apply zlen_NoDup_range; [by apply bt_sorted_NoDup| |lia].
  intros k (e & Hin)%keys_In. eapply Hk. by apply bt_In_get.
Qed.

Lemma cap_bounds : 1 <= cap s <= space_size s.
Proof.
  destruct Hok as [_ _ _ _ Hr Hm]. unfold cap, capacity, usat_sub, space_size.
  cbn zeta. destruct (_ <=? usize_max) eqn:E; bools; unfold usize_max in *; lia.
Qed.

Lemma by_name_by_key n k : bt_get (by_name s) n = Some k -> is_Some (bt_get (by_key s) k).
Proof. intros (e & -> & _)%(ok_inverse s Hok). done. Qed.

Lemma by_name_inj n1 n2 k :
  bt_get (by_name s) n1 = Some k -> bt_get (by_name s) n2 = Some k -> n1 = n2.
Proof.
  intros (e1 & H1 & <-)%(ok_inverse s Hok) (e2 & H2 & <-)%(ok_inverse s Hok). congruence.
Qed.

Lemma by_key_name_inj k1 k2 e1 e2 :
  bt_get (by_key s) k1 = Some e1 -> bt_get (by_key s) k2 = Some e2 ->
  e_name e1 = e_name e2 -> k1 = k2.
Proof.
  intros H1 H2 E.
  assert (bt_get (by_name s) (e_name e1) = Some k1) as Hn1 by (apply ok_inverse; eauto).
  assert (bt_get (by_name s) (e_name e1) = Some k2) as Hn2 by (apply ok_inverse; eauto).
  congruence.
Qed.
End space_lemmas.

(** ** Lemmas: the reverse index *)

Definition index_step (bn : list (Name * Z)) (ke : Z * Entry) : list (Name * Z) :=
  bt_insert bn (e_name ke.2) ke.1.

Lemma index_sorted l bn : bt_sorted bn -> bt_sorted (fold_left index_step l bn).
Proof. revert bn. induction l; cbn; [done|]. intros. by apply IHl, bt_insert_sorted. Qed.

Definition names_unique (l : list (Z * Entry)) : Prop :=
  forall k1 e1 k2 e2, In (k1, e1) l -> In (k2, e2) l -> e_name e1 = e_name e2 -> k1 = k2.

Lemma index_get l bn n k :
  names_unique l ->
  bt_get (fold_left index_step l bn) n = Some k <->
  (exists e, In (k, e) l /\ e_name e = n) \/
  ((forall k' e, In (k', e) l -> e_name e <> n) /\ bt_get bn n = Some k).
Proof.
  induction l as [|[k0 e0] l IH] using rev_ind; intros Hu.
  { split; [by right|]. by intros [(? & [] & _)|[_ ?]]. }
  assert (names_unique l) as Hul.
  { intros k1 e1 k2 e2 H1 H2. apply (Hu k1 e1 k2 e2); apply in_or_app; by left. }
  assert (In (k0, e0) (l ++ [(k0, e0)])) as Hin0 by (apply in_or_app; right; by left).
  rewrite fold_left_app. cbn [fold_left]. unfold index_step at 1. cbn [fst snd].
  rewrite bt_get_insert. destruct (decide (n = e_name e0)) as [->|Hne].
  - split.
    + intros [= ->]. left. by exists e0.
    + intros [(e & Hin & He)|[Hno _]]; [|by destruct (Hno k0 e0)].
      f_equal. by eapply Hu.
  - rewrite IH by done. split.
    + intros [(e & Hin & <-)|[Hno Hg]]; [left; exists e; auto using in_or_app|right].
      split; [|done]. intros k' e [Hin|[[= <- <-]|[]]]%in_app_or; [eauto|congruence].
    + intros [(e & [Hin|[[= <- <-]|[]]]%in_app_or & He)|[Hno Hg]]; [eauto|congruence|right].
      split; [|done]. eauto using in_or_app.
Qed.

(** After a sweep that only dropped entries, the rebuilt index is right. *)
Lemma rebuild_ok s bk bn :
  space_ok s -> bt_sorted bk ->
  (forall k e, bt_get bk k = Some e -> bt_get (by_key s) k = Some e) ->
  space_ok (rebuild_name_index (set_maps s bk bn)).
Proof.
  intros Hok Hs Hsub. pose proof Hok as [_ _ _ Hk Hr Hm].
  assert (names_unique bk) as Hu.
  { intros k1 e1 k2 e2 H1%(bt_In_get bk); [|done]. intros H2%(bt_In_get bk); [|done].
    eapply by_key_name_inj; eauto. }
  constructor; cbn; [done| | |eauto|done|done].
  - by apply (index_sorted bk []); constructor.
  - intros n k. rewrite (index_get bk [] n k Hu). split.
    + intros [(e & Hin & He)|[_ [=]]]. exists e. by rewrite <- bt_In_get.
    + intros (e & Hg & He). left. exists e. by rewrite bt_In_get.
Qed.

Lemma set_maps_ok s bk bn :
  space_ok s -> bt_sorted bk -> bt_sorted bn ->
  (forall n k, bt_get bn n = Some k <-> exists e, bt_get bk k = Some e /\ e_name e = n) ->
  (forall k e, bt_get bk k = Some e -> first s <= k <= last s) ->
  space_ok (set_maps s bk bn).
Proof. intros Hok ????. destruct Hok. by constructor. Qed.

Lemma set_next_ok s n : space_ok s -> space_ok (set_next s n).
Proof. intros []. by constructor. Qed.
Lemma set_evicted_ok s n : space_ok s -> space_ok (set_evicted s n).
Proof. intros []. by constructor. Qed.

(** Reclaiming a non-empty space frees at least one key and keeps the rest. *)
Lemma reclaim_spec s now :
  space_ok s -> by_key s <> [] ->
  space_ok (reclaim s now) /\ same_config s (reclaim s now) /\
  zlen (by_key (reclaim s now)) < zlen (by_key s) /\
  (forall n k, bt_get (by_name (reclaim s now)) n = Some k -> bt_get (by_name s) n = Some k).
Proof.
  intros Hok Hne. pose proof Hok as [Hs _ _ _ _ _]. unfold reclaim. cbn zeta.
  set (cutoff := ts_saturating_sub now (sp_ttl s)).
  pose proof (evict_shrinks last_access _ cutoff EVICT_STRIDE Hs Hne) as Hlt.
  pose proof (evict_sorted last_access _ cutoff EVICT_STRIDE Hs) as Hso.
  pose proof (fun kv => evict_incl last_access _ cutoff EVICT_STRIDE kv Hs) as Hin.
  destruct (evict_for_capacity _ _ _ _) as [freed bk] eqn:E. cbn [snd] in *.
  destruct (evict_cases last_access _ _ _ _ _ Hs Hne E) as [Hfreed _].
  destruct (0 <? freed) eqn:Ef; bools; [|lia].
  assert (space_ok (rebuild_name_index (set_evicted (set_maps s bk (by_name s)) (wrap 64 (evicted s + freed)))))
    as Hok'.
  { apply (rebuild_ok (set_evicted s (wrap 64 (evicted s + freed))) bk (by_name s)); [by apply set_evicted_ok|done|].
    intros k e Hg%bt_get_In. cbn. apply bt_In_get; [done|]. by apply Hin. }
  split; [exact Hok'|]. split; [done|]. split; [done|].
  intros n k (e & Hg & He)%(ok_inverse _ Hok'). apply (ok_inverse s Hok). exists e. split; [|done].
  cbn in Hg. apply bt_In_get; [done|]. by apply Hin, bt_get_In.
Qed.

(** ** Lemmas: the cursor and the free key *)

(** The [j]-th candidate from the cursor, cyclically. *)
Definition candidate (s : Space) (j : Z) : Z :=
  first s + ((space_advance s).1 - first s + j) mod space_size s.

Section cursor.
Context (s : Space) (Hr : first s <= last s).

Lemma advance_range : first s <= (space_advance s).1 <= last s.
Proof. unfold space_advance. cbn. destruct (_ || _)%bool eqn:E; [lia|]. bools. lia. Qed.

Lemma candidate_0 : candidate s 0 = (space_advance s).1.
Proof.
  pose proof advance_range. unfold candidate, space_size. rewrite Z.mod_small; lia.
Qed.

Lemma candidate_range j : first s <= candidate s j <= last s.
Proof.
  unfold candidate, space_size.
  pose proof (Z.mod_pos_bound ((space_advance s).1 - first s + j) (last s - first s + 1)). lia.
Qed.

Lemma candidate_next j : candidate (space_advance s).2 j = candidate s (j + 1).
Proof.
  pose proof advance_range as Hc. unfold candidate, space_size.
  set (c := (space_advance s).1) in *. set (N := last s - first s + 1). assert (0 < N) by (unfold N; lia).
  assert (first (space_advance s).2 = first s /\ last (space_advance s).2 = last s /\
          (space_advance (space_advance s).2).1 = if last s <=? c then first s else c + 1)
    as (-> & -> & ->).
  { split; [done|]. split; [done|]. unfold space_advance at 1. cbn [fst first last next set_next snd].
    fold c. unfold space_advance, c in *. cbn in *. destruct (last s <=? _) eqn:E; bools; by decide_ifs. }
  fold N. f_equal. destruct (last s <=? c) eqn:E; bools.
  - assert (c = last s) as -> by lia.
    replace (last s - first s + (j + 1)) with (first s - first s + j + 1 * N) by (unfold N; lia).
    by rewrite Z.mod_add by lia.
  - f_equal. lia.
Qed.

Lemma candidate_inj i j :
  0 <= i < space_size s -> 0 <= j < space_size s -> candidate s i = candidate s j -> i = j.
Proof.
  unfold candidate. set (N := space_size s). set (c := (space_advance s).1 - first s).
  intros Hi Hj E. assert ((c + i) mod N = (c + j) mod N) as Em by lia.
  pose proof (Z.div_mod (c + i) N). pose proof (Z.div_mod (c + j) N).
  set (qi := (c + i) / N) in *. set (qj := (c + j) / N) in *.
  assert (i - j = N * (qi - qj)) as Hd by lia. assert (qi - qj = 0) as Hq by nia. rewrite Hq in Hd. lia.
Qed.
End cursor.

Lemma take_key_loop_spec limit s :
  first s <= last s ->
  match take_key_loop limit s with
  | (Some c, s') => bt_get (by_key s) c = None /\ first s <= c <= last s /\
                    exists n, s' = set_next s n
  | (None, s') => forall j, 0 <= j < Z.of_nat limit -> is_Some (bt_get (by_key s) (candidate s j))
  end.
Proof.
  revert s. induction limit as [|limit IH]; intros s Hr; cbn [take_key_loop]; [lia|].
  pose proof (advance_range s Hr) as Hc. pose proof (candidate_0 s Hr) as H0.
  pose proof (candidate_next s Hr) as Hn.
  destruct (space_advance s) as [c s1] eqn:Ea. cbn [fst snd] in *.
  assert (exists n, s1 = set_next s n) as [n ->].
  { unfold space_advance in Ea. injection Ea as _ <-. eauto. }
  cbn [by_key set_next]. unfold bt_contains_key. destruct (bt_get (by_key s) c) as [e|] eqn:Eg.
  - specialize (IH (set_next s n) Hr). destruct (take_key_loop limit (set_next s n)) as [[c'|] s'].
    + destruct IH as (? & ? & n' & ->). split; [done|]. split; [done|]. by exists n'.
    + intros j Hj. destruct (decide (j = 0)) as [->|]; [rewrite H0; by rewrite Eg|].
      replace j with ((j - 1) + 1) by lia. rewrite <- Hn. apply IH. lia.
  - split; [done|]. split; [done|]. by exists n.
Qed.

(** The pigeonhole: [len + 1] distinct candidates cannot all be occupied. *)
Lemma take_key_spec s :
  space_ok s -> zlen (by_key s) < space_size s ->
  exists c n, take_key s = (Some c, set_next s n) /\
    bt_get (by_key s) c = None /\ first s <= c <= last s.
Proof.
  intros Hok Hlt. pose proof (ok_range s Hok) as Hr. unfold take_key.
  pose proof (take_key_loop_spec (Z.to_nat (zlen (by_key s) + 1)) s) as Ht.
  destruct (take_key_loop _ s) as [[c|] s'].
  - destruct Ht as (? & ? & n & ->); [lia|]. by exists c, n.
  - exfalso. specialize (Ht ltac:(lia)).
    assert (length (candidate s <$> seqZ 0 (zlen (by_key s) + 1)) <= length (by_key s).*1)%nat as Hl.
    { apply NoDup_incl_length.
      - apply Finite.Injective_map_NoDup_in; [|apply NoDup_ListNoDup, NoDup_seqZ].
        intros i j Hi%list_elem_of_In%elem_of_seqZ Hj%list_elem_of_In%elem_of_seqZ.
        apply candidate_inj; lia.
      - intros k (j & <- & Hj%list_elem_of_In%elem_of_seqZ)%in_map_iff.
        destruct (Ht j) as [e He]; [len_facts; lia|]. apply keys_In. exists e. by apply bt_get_In. }
    rewrite !length_fmap, length_seqZ in Hl. unfold zlen in Hl. lia.
Qed.

(** ** Lemmas: the operations on a space *)

Lemma same_config_cap s s' : same_config s s' -> cap s' = cap s /\ space_size s' = space_size s.
Proof. unfold cap, capacity, space_size. by intros (_ & -> & -> & _ & ->). Qed.

Lemma touch_spec bk key now :
  bt_sorted bk ->
  bt_sorted (touch bk key now) /\ zlen (touch bk key now) = zlen bk /\
  forall k, e_name <$> bt_get (touch bk key now) k = e_name <$> bt_get bk k.
Proof.
  intros Hs. unfold touch. destruct (bt_get bk key) as [e|] eqn:E; [|done].
  split; [by apply bt_insert_sorted|]. split.
  - rewrite zlen_bt_insert by done. unfold bt_contains_key. by rewrite E.
  - intros k. rewrite bt_get_insert. destruct (decide (k = key)) as [->|]; [by rewrite E|done].
Qed.

Lemma touch_ok s key now : space_ok s -> space_ok (set_maps s (touch (by_key s) key now) (by_name s)).
Proof.
  intros Hok. pose proof Hok as [Hs Hbn Hinv Hk _ _].
  destruct (touch_spec (by_key s) key now Hs) as (Hs' & _ & Hget).
  assert (forall k e, bt_get (touch (by_key s) key now) k = Some e ->
    exists e', bt_get (by_key s) k = Some e' /\ e_name e' = e_name e) as Hback.
  { intros k e He. specialize (Hget k). rewrite He in Hget. cbn in Hget.
    destruct (bt_get (by_key s) k) as [e'|]; cbn in Hget; [|done]. injection Hget as Hget. by exists e'. }
  apply set_maps_ok; [done..| |].
  - intros n k. rewrite Hinv. split.
    + intros (e & He & <-). specialize (Hget k). rewrite He in Hget. cbn in Hget.
      destruct (bt_get (touch _ _ _) k) as [e'|]; cbn in Hget; [|done]. injection Hget as Hget. by exists e'.
    + intros (e & (e' & He' & Hn)%Hback & <-). by exists e'.
  - intros k e (e' & He' & _)%Hback. eauto.
Qed.

(** Adding a binding between a free (or matching) key and name. *)
Lemma bind_ok s name key e :
  space_ok s -> first s <= key <= last s -> e_name e = name ->
  (forall e', bt_get (by_key s) key = Some e' -> e_name e' = name) ->
  (forall k, bt_get (by_name s) name = Some k -> k = key) ->
  space_ok (set_maps s (bt_insert (by_key s) key e) (bt_insert (by_name s) name key)).
Proof.
  intros Hok Hr Hn Hfree Hfree2. pose proof Hok as [Hs Hbn Hinv Hk _ _].
  apply set_maps_ok; [done|by apply bt_insert_sorted..| |].
  - intros n k. rewrite bt_get_insert. setoid_rewrite bt_get_insert.
    destruct (decide (n = name)) as [->|Hne].
    + split.
      * intros [= <-]. exists e. by rewrite decide_True.
      * intros (e' & He' & Hen). destruct (decide (k = key)) as [->|]; [done|].
        f_equal. symmetry. apply Hfree2, Hinv. by exists e'.
    + rewrite Hinv. split; intros (e' & He' & Hen); exists e'; (split; [|done]).
      * destruct (decide (k = key)) as [->|]; [|done]. apply Hfree in He'. congruence.
      * destruct (decide (k = key)) as [->|]; [|done]. congruence.
  - intros k e'. rewrite bt_get_insert. destruct (decide (k = key)) as [->|]; [done|]. apply Hk.
Qed.

Definition made_room (s : Space) (now : Z) : Space :=
  if cap s <=? zlen (by_key s) then reclaim s now else s.

Lemma made_room_spec s now :
  space_ok s ->
  let s1 := made_room s now in
  space_ok s1 /\ same_config s s1 /\ zlen (by_key s1) < space_size s /\
  (zlen (by_key s) <= cap s -> zlen (by_key s1) < cap s) /\
  (forall n k, bt_get (by_name s1) n = Some k -> bt_get (by_name s) n = Some k).
Proof.
  intros Hok. cbn zeta. unfold made_room. pose proof (cap_bounds s Hok). pose proof (space_len_bound s Hok).
  destruct (_ <=? _) eqn:E; bools.
  - destruct (reclaim_spec s now Hok) as (? & ? & ? & ?).
    { intros Hn. rewrite Hn, zlen_nil in *. lia. }
    conjs; try done; lia.
  - conjs; try done; lia.
Qed.

Lemma space_allocate_spec s name now :
  space_ok s ->
  exists key s', space_allocate s name now = (Ok (family_addr (family s) key), s') /\
    space_ok s' /\ same_config s s' /\
    bt_get (by_name s') name = Some key /\
    (forall k, bt_get (by_name s) name = Some k -> k = key /\ by_name s' = by_name s) /\
    (forall n k, n <> name -> bt_get (by_name s') n = Some k -> bt_get (by_name s) n = Some k) /\
    (zlen (by_key s) <= cap s -> zlen (by_key s') <= cap s').
Proof.
  intros Hok. unfold space_allocate. destruct (bt_get (by_name s) name) as [key|] eqn:En.
  { eexists key, _. split; [done|]. split; [by apply touch_ok|]. split; [done|].
    split; [done|]. split; [by intros k [= ->]|]. split; [done|].
    cbn [by_key set_maps]. destruct (touch_spec (by_key s) key now (ok_by_key s Hok)) as (_ & -> & _). done. }
  change (if cap s <=? zlen (by_key s) then reclaim s now else s) with (made_room s now).
  destruct (made_room_spec s now Hok) as (Hok1 & Hc1 & Hlt & Hcap & Hback).
  set (s1 := made_room s now) in *.
  destruct (same_config_cap s s1 Hc1) as [Ecap Esize].
  destruct (take_key_spec s1 Hok1) as (c & nx & -> & Hfree & Hrange); [lia|].
  pose proof Hc1 as (Efam & Efirst & Elast & _ & _).
  eexists c, _. split; [by cbn; rewrite Efam|].
  assert (bt_get (by_name s1) name = None) as Hnone.
  { destruct (bt_get (by_name s1) name) eqn:E; [|done]. by rewrite (Hback _ _ E) in En. }
  assert (space_ok (set_maps s1 (bt_insert (by_key s1) c (mkEntry name now now))
                              (bt_insert (by_name s1) name c))) as Hok2.
  { apply bind_ok; [done..|by rewrite Hfree|by rewrite Hnone]. }
  split; [by apply (set_next_ok _ nx) in Hok2|]. split; [exact Hc1|].
  cbn [by_name by_key set_maps set_next].
  split; [by rewrite bt_get_insert, decide_True|]. split; [done|]. split.
  - intros n k Hne. rewrite bt_get_insert, decide_False by done. apply Hback.
  - intros Hle. rewrite zlen_bt_insert by apply Hok1. unfold bt_contains_key. rewrite Hfree.
    change (cap (set_maps _ _ _)) with (cap s1). specialize (Hcap Hle). lia.
Qed.

Lemma space_lookup_spec s key now :
  space_ok s ->
  (space_lookup s key now).1 = space_peek s key /\
  space_ok (space_lookup s key now).2 /\ same_config s (space_lookup s key now).2 /\
  by_name (space_lookup s key now).2 = by_name s /\
  zlen (by_key (space_lookup s key now).2) = zlen (by_key s).
Proof.
  intros Hok. unfold space_lookup, space_peek. destruct (bt_get (by_key s) key) eqn:E; cbn [fst snd]; [|done].
  split; [done|]. split; [by apply touch_ok|]. split; [done|]. split; [done|].
  cbn [by_key set_maps]. by destruct (touch_spec (by_key s) key now (ok_by_key s Hok)) as (_ & -> & _).
Qed.

(** What is peeked is what the reverse index says. *)
Lemma space_peek_iff s key n :
  space_ok s -> space_peek s key = Some n <-> bt_get (by_name s) n = Some key.
Proof.
  intros Hok. rewrite ok_inverse by done. unfold space_peek.
  destruct (bt_get (by_key s) key) as [e|] eqn:E; cbn; split.
  - intros [= <-]. by exists e.
  - by intros (e' & [= <-] & <-).
  - done.
  - by intros (e' & ? & _).
Qed.

Lemma space_restore_spec s name key now :
  space_ok s ->
  let '(ok, s') := space_restore s name key now in
  space_ok s' /\ same_config s s' /\
  (ok = true <-> first s <= key <= last s /\
     (forall n, bt_get (by_name s) n = Some key -> n = name) /\
     (forall k, bt_get (by_name s) name = Some k -> k = key)) /\
  (ok = false -> s' = s) /\
  (ok = true -> forall n, bt_get (by_name s') n = if decide (n = name) then Some key else bt_get (by_name s) n).
Proof.
  intros Hok. unfold space_restore. pose proof (ok_range s Hok) as Hr.
  destruct (negb (covers s key) || (key <? first s)) eqn:Ec.
  { conjs; try done; split; try done. intros ((H1 & H2) & _). unfold covers, usat_sub in Ec.
    apply orb_prop in Ec as [Ec|Ec]; bools; [|lia].
    apply andb_false_iff in Ec as [Ec|Ec]; bools; lia. }
  unfold covers, usat_sub in Ec. bools.
  destruct (match bt_get (by_key s) key with Some _ => _ | None => _ end) eqn:E1.
  { conjs; try done; split; try done. intros (_ & Hx & _).
    destruct (bt_get (by_key s) key) as [e|] eqn:Ek; [|done]. bools. apply bool_decide_eq_false in E1.
    destruct E1. apply Hx, ok_inverse; [done|]. by exists e. }
  destruct (match bt_get (by_name s) name with Some _ => _ | None => _ end) eqn:E2.
  { conjs; try done; split; try done. intros (_ & _ & Hx).
    destruct (bt_get (by_name s) name) as [k|] eqn:En; [|done]. bools. by destruct E2; apply Hx. }
  assert (forall e', bt_get (by_key s) key = Some e' -> e_name e' = name) as Hfree.
  { intros e' He. rewrite He in E1. bools. by apply bool_decide_eq_true in E1. }
  assert (forall k, bt_get (by_name s) name = Some k -> k = key) as Hfree2.
  { intros k Hk. rewrite Hk in E2. by bools. }
  assert (space_ok (set_maps s (bt_insert (by_key s) key (mkEntry name now now))
                             (bt_insert (by_name s) name key))) as Hok2.
  { apply bind_ok; [done|lia|done..]. }
  split; [done|]. split; [done|]. split; [|split; [done|]].
  - split; [|done]. intros _. split; [lia|]. split; [|done].
    intros n (e & He & <-)%(ok_inverse s Hok). by apply Hfree.
  - intros _ n. cbn. apply bt_get_insert.
Qed.

Lemma space_release_spec s name :
  space_ok s ->
  let '(key, s') := space_release s name in
  space_ok s' /\ same_config s s' /\ key = bt_get (by_name s) name /\
  zlen (by_key s') <= zlen (by_key s) /\
  forall n, bt_get (by_name s') n = if decide (n = name) then None else bt_get (by_name s) n.
Proof.
  intros Hok. pose proof Hok as [Hs Hbn Hinv Hk _ _]. unfold space_release.
  destruct (bt_get (by_name s) name) as [key|] eqn:En.
  2: { split; [done|]. split; [done|]. split; [done|]. split; [lia|]. intros n.
       destruct (decide (n = name)) as [->|]; done. }
  assert (forall n, bt_get (bt_remove (by_name s) name) n =
                    if decide (n = name) then None else bt_get (by_name s) n) as Hget.
  { intros n. by apply bt_get_remove. }
  split; [|split; [done|split; [done|split; [apply zlen_filter_le|exact Hget]]]].
  apply set_maps_ok; [done|by apply filter_sorted..| |].
  - intros n k. rewrite Hget. setoid_rewrite (bt_get_remove (by_key s) key); [|done].
    destruct (decide (n = name)) as [->|Hne].
    + split; [done|]. intros (e & He & Hn). destruct (decide (k = key)) as [|Hkk]; [done|].
      destruct Hkk. assert (bt_get (by_name s) name = Some k) by (apply Hinv; by exists e). congruence.
    + rewrite Hinv. split; intros (e & He & Hn); exists e; (split; [|done]).
      * rewrite decide_False; [done|]. intros ->.
        assert (bt_get (by_name s) n = Some key) as Hn2 by (apply Hinv; by exists e).
        by rewrite (by_name_inj s Hok n name key) in Hne.
      * by destruct (decide (k = key)).
  - intros k e. rewrite (bt_get_remove (by_key s) key) by done.
    destruct (decide (k = key)); [done|]. apply Hk.
Qed.

Lemma space_cleanup_spec s now :
  space_ok s ->
  let '(dropped, s') := space_cleanup_expired s now in
  let cutoff := ts_saturating_sub now (sp_ttl s) in
  space_ok s' /\ same_config s s' /\ dropped = zlen (by_key s) - zlen (by_key s') /\ 0 <= dropped /\
  forall k, bt_get (by_key s') k =
    match bt_get (by_key s) k with
    | Some e => if cutoff <=? last_access e then Some e else None | None => None end.
Proof.
  intros Hok. pose proof Hok as [Hs _ _ _ _ _]. unfold space_cleanup_expired. cbn zeta.
  set (cutoff := ts_saturating_sub now (sp_ttl s)).
  set (bk := bt_retain (fun _ e => cutoff <=? last_access e) (by_key s)).
  assert (bt_sorted bk) as Hsb by (by apply filter_sorted).
  assert (forall k, bt_get bk k = match bt_get (by_key s) k with
    | Some e => if cutoff <=? last_access e then Some e else None | None => None end) as Hget.
  { intros k. by apply (bt_get_retain (fun _ e => cutoff <=? last_access e)). }
  assert (zlen bk <= zlen (by_key s)) by apply zlen_filter_le.
  destruct (negb _) eqn:E; cbn [by_key set_maps rebuild_name_index] in *.
  - split; [|split; [done|split; [done|split; [lia|exact Hget]]]]. apply rebuild_ok; [done..|]. intros k e. rewrite Hget.
    destruct (bt_get (by_key s) k); [|done]. destruct (_ <=? _); [|done]. done.
  - bools. assert (bk = by_key s) as Hbk by (apply filter_zlen_eq, E).
    split; [|split; [done|split; [done|split; [lia|exact Hget]]]].
    rewrite Hbk. destruct Hok; by constructor.
Qed.

(** ** The pool: well-formedness and reachable states *)

Definition space_is (f : Family) (s : Space) (a b : Z) : Prop :=
  space_ok s /\ family s = f /\ first s = a /\ last s = b.

Definition pool_ok (p : FakeIpPool) : Prop :=
  cidr4_ok (v4_net p) /\
  space_is FamV4 (v4 p) (cidr4_network (v4_net p) + 1) (cidr4_broadcast (v4_net p)) /\
  match v6_net p, v6 p with
  | Some r, Some s => cidr6_ok r /\ space_is FamV6 s (cidr6_network r + 1) (cidr6_broadcast r)
  | None, None => True
  | _, _ => False
  end.

(** One call of the pool's interface that changes it. *)
Inductive pool_step (p : FakeIpPool) : FakeIpPool -> Prop :=
| StepAllocate name f now : pool_step p (pool_allocate p name f now).2
| StepLookup ip now : ip_ok ip -> pool_step p (pool_lookup p ip now).2
| StepCleanup now : pool_step p (pool_cleanup_expired p now).2
| StepRelease name f : pool_step p (pool_release p name f).2
| StepClear : pool_step p (pool_clear p).

(** [restores] tells whether snapshots may be loaded. *)
Inductive reachable (restores : bool) : FakeIpPool -> Prop :=
| ReachConfig range range6 filter ttl_secs max_entries p :
    0 <= max_entries ->
    from_config range range6 filter ttl_secs max_entries = Ok p -> reachable restores p
| ReachStep p p' : reachable restores p -> pool_step p p' -> reachable restores p'
| ReachRestore p name ip now :
    restores = true -> ip_ok ip -> reachable restores p ->
    reachable restores (pool_restore p name ip now).2.

(** The address of a key, and the mapping the pool holds. *)
Definition addr_of (f : Family) (k : Z) : IpAddr := match f with FamV4 => V4 k | FamV6 => V6 k end.

Definition mapped (p : FakeIpPool) (f : Family) (n : Name) : option Z :=
  match space p f with Some s => bt_get (by_name s) n | None => None end.

(** ** Lemmas on the pool *)

Lemma space_new_ok f a b m ttl :
  1 <= a <= b -> b <= family_max f -> 0 <= m -> space_is f (space_new f a b m ttl) a b.
Proof.
  intros. split; [|done]. constructor; cbn; try done; try lia.
  - constructor.
  - constructor.
  - intros n k. split; [done|]. by intros (? & ? & _).
Qed.

Lemma settings_parse_ranges range range6 filter ttl m s :
  settings_parse range range6 filter ttl m = Ok s ->
  cidr4_ok (FakeIp.range s) /\ 2 <= cidr4_len (FakeIp.range s) /\
  match FakeIp.range6 s with
  | Some r => cidr6_ok r /\ cidr6_network r < cidr6_broadcast r | None => True end.
Proof.
  unfold settings_parse. intros (r & Hr%ok_or_Ok%cidr4_parse_ok & H)%bind_Ok.
  apply bind_Ok in H as (? & E1 & H). unfold reject_if in E1. destruct (_ <? 2) eqn:El; [done|]. bools.
  apply bind_Ok in H as (r6 & Hr6 & H).
  apply bind_Ok in H as (? & _ & H). apply bind_Ok in H as (? & _ & H).
  apply bind_Ok in H as (? & _ & [= <-]). cbn. split; [done|]. split; [lia|].
  destruct range6 as [t|]; [|by injection Hr6 as <-].
  apply bind_Ok in Hr6 as (c & Hc%ok_or_Ok%cidr6_parse_ok & H).
  apply bind_Ok in H as (? & E2 & [= <-]). unfold reject_if in E2.
  destruct (_ =? _) eqn:Ee; [done|]. bools. split; [done|].
  pose proof (cidr6_broadcast_bound c Hc). unfold cidr6_network in *. lia.
Qed.

Lemma pool_new_ok range range6 filter ttl m :
  cidr4_ok range -> 2 <= cidr4_len range -> 0 <= m ->
  match range6 with Some r => cidr6_ok r /\ cidr6_network r < cidr6_broadcast r | None => True end ->
  pool_ok (pool_new range range6 filter ttl m).
Proof.
  intros H4 Hl Hm H6. unfold pool_new, pool_ok. cbn [v4_net v6_net v4 v6].
  split; [done|]. split.
  - pose proof (cidr4_broadcast_bound _ H4) as Hb. rewrite cidr4_broadcast_eq in Hb |- * by done.
    unfold cidr4_len, cidr4_network in *. rewrite Z.shiftl_1_l in Hl. destruct H4 as (? & ? & ?).
    unfold space_v4, cidr4_network. rewrite cidr4_broadcast_eq by done.
    apply space_new_ok; cbn [family_max]; lia.
  - destruct range6 as [r|]; cbn; [|done]. destruct H6 as [H6 Hlt]. split; [done|].
    pose proof (cidr6_broadcast_bound _ H6) as Hb. destruct H6 as (? & ? & ?).
    unfold cidr6_network in *. apply space_new_ok; cbn [family_max]; unfold cidr6_network; lia.
Qed.

Lemma from_config_ok range range6 filter ttl m p :
  0 <= m -> from_config range range6 filter ttl m = Ok p -> pool_ok p.
Proof.
  intros Hm (s & Hs & [= <-])%bind_Ok.
  assert (st_max_entries s = m) as Em.
  { unfold settings_parse in Hs. by results. }
  apply settings_parse_ranges in Hs as (H4 & Hl & H6). apply pool_new_ok; (done || lia).
Qed.

(** Replacing a space by one with the same configuration. *)
Lemma space_is_same f s s' a b :
  space_is f s a b -> space_ok s' -> same_config s s' -> space_is f s' a b.
Proof. unfold space_is. intros (_ & <- & <- & <-) Hok (-> & -> & -> & _). done. Qed.

Lemma set_space_ok p f s s' :
  pool_ok p -> space p f = Some s -> space_ok s' -> same_config s s' -> pool_ok (set_space p f s').
Proof.
  intros (H4 & Hs4 & H6) Hsp Hok Hc. destruct f; cbn in *.
  - injection Hsp as <-. split; [done|]. split; [|done]. by eapply space_is_same.
  - split; [done|]. split; [done|]. cbn. destruct (v6_net p) as [r|]; destruct (v6 p) as [s6|]; try done.
    injection Hsp as ->. destruct H6 as [? ?]. split; [done|]. by eapply space_is_same.
Qed.

Lemma space_set_space p f s f' :
  is_Some (space p f) -> space (set_space p f s) f' = if decide (f' = f) then Some s else space p f'.
Proof. destruct f, f'; done. Qed.

Lemma pool_space p f s :
  pool_ok p -> space p f = Some s ->
  space_ok s /\ family s = f /\ last s <= family_max f /\ 1 <= first s <= last s.
Proof.
  intros (_ & (H4 & Hf4 & _) & H6) Hs. destruct f; cbn in Hs.
  - injection Hs as <-. pose proof (ok_range _ H4) as Hr. rewrite Hf4 in Hr. split; [done|]. by split; [|lia].
  - destruct (v6_net p); destruct (v6 p); try done. injection Hs as ->.
    destruct H6 as (_ & Hok & Hf & _). pose proof (ok_range _ Hok) as Hr. rewrite Hf in Hr.
    split; [done|]. by split; [|lia].
Qed.

Lemma family_addr_of f k : 0 <= k <= family_max f -> family_addr f k = addr_of f k.
Proof.
  destruct f; cbn; [|done]. intros Hk. f_equal. apply Z.mod_small. unfold u32_max in Hk. lia.
Qed.

(** Peeking and looking up, per family. *)
Lemma pool_peek_of p f k :
  pool_peek p (addr_of f k) = match space p f with Some s => space_peek s k | None => None end.
Proof. by destruct f. Qed.

Lemma pool_lookup_of p f k now :
  pool_lookup p (addr_of f k) now =
  match space p f with
  | Some s => ((space_lookup s k now).1, set_space p f (space_lookup s k now).2)
  | None => (None, p)
  end.
Proof.
  destruct f; cbn; [by destruct (space_lookup _ _ _)|]. destruct (v6 p) as [s|]; [|done].
  by destruct (space_lookup _ _ _).
Qed.

Lemma pool_restore_of p f n k now :
  pool_restore p n (addr_of f k) now =
  match space p f with
  | Some s => ((space_restore s n k now).1, set_space p f (space_restore s n k now).2)
  | None => (false, p)
  end.
Proof.
  destruct f; cbn; [by destruct (space_restore _ _ _ _)|]. destruct (v6 p) as [s|]; [|done].
  by destruct (space_restore _ _ _ _).
Qed.

Lemma ip_addr_of ip : exists f k, ip = addr_of f k.
Proof. destruct ip as [a|a]; [by exists FamV4, a|by exists FamV6, a]. Qed.

Lemma pool_peek_mapped p f k n :
  pool_ok p -> pool_peek p (addr_of f k) = Some n <-> mapped p f n = Some k.
Proof.
  intros Hok. rewrite pool_peek_of. unfold mapped.
  destruct (space p f) as [s|] eqn:Es; [|done].
  apply space_peek_iff. by eapply pool_space.
Qed.

Lemma mapped_set_space p f s f' n :
  is_Some (space p f) ->
  mapped (set_space p f s) f' n = if decide (f' = f) then bt_get (by_name s) n else mapped p f' n.
Proof.
  intros Hs. unfold mapped. rewrite space_set_space by done. by destruct (decide (f' = f)).
Qed.

(** *** Every operation keeps the pool well formed. *)

Lemma pool_allocate_ok p name f now : pool_ok p -> pool_ok (pool_allocate p name f now).2.
Proof.
  intros Hok. unfold pool_allocate. destruct (is_filtered p name); [done|].
  destruct (space p f) as [s|] eqn:Es; [|done].
  pose proof (pool_space p f s Hok Es) as (Hs & _).
  destruct (space_allocate_spec s name now Hs) as (k & s' & -> & ? & ? & _). by eapply set_space_ok.
Qed.

Lemma pool_lookup_ok p ip now : pool_ok p -> pool_ok (pool_lookup p ip now).2.
Proof.
  intros Hok. destruct (ip_addr_of ip) as (f & k & ->). rewrite pool_lookup_of.
  destruct (space p f) as [s|] eqn:Es; [|done]. cbn [snd].
  pose proof (pool_space p f s Hok Es) as (Hs & _).
  destruct (space_lookup_spec s k now Hs) as (_ & ? & ? & _). by eapply set_space_ok.
Qed.

Lemma pool_restore_ok p n ip now : pool_ok p -> pool_ok (pool_restore p n ip now).2.
Proof.
  intros Hok. destruct (ip_addr_of ip) as (f & k & ->). rewrite pool_restore_of.
  destruct (space p f) as [s|] eqn:Es; [|done]. cbn [snd].
  pose proof (pool_space p f s Hok Es) as (Hs & _).
  pose proof (space_restore_spec s n k now Hs) as Hr.
  destruct (space_restore s n k now) as [ok s']. destruct Hr as (? & ? & _). by eapply set_space_ok.
Qed.

Lemma pool_release_ok p n f : pool_ok p -> pool_ok (pool_release p n f).2.
Proof.
  intros Hok. unfold pool_release. destruct (space p f) as [s|] eqn:Es; [|done].
  pose proof (pool_space p f s Hok Es) as (Hs & _).
  pose proof (space_release_spec s n Hs) as Hr.
  destruct (space_release s n) as [k s']. destruct Hr as (? & ? & _). by eapply set_space_ok.
Qed.

(** The two operations that go over both families. *)
Lemma both_spaces_ok p s4 (g : Space -> Space) :
  pool_ok p -> space_ok s4 -> same_config (v4 p) s4 ->
  (forall s, space_ok s -> space_ok (g s) /\ same_config s (g s)) ->
  pool_ok (match v6 p with
           | Some s => set_space (set_space p FamV4 s4) FamV6 (g s)
           | None => set_space p FamV4 s4 end).
Proof.
  intros Hok Hs4 Hc4 Hg.
  assert (pool_ok (set_space p FamV4 s4)) as Hok1 by (by eapply set_space_ok).
  destruct (v6 p) as [s|] eqn:E6; [|done].
  destruct (pool_space (set_space p FamV4 s4) FamV6 s Hok1 E6) as (Hs & _).
  destruct (Hg s Hs). by eapply set_space_ok.
Qed.

Lemma space_clear_ok s : space_ok s -> space_ok (space_clear s) /\ same_config s (space_clear s).
Proof.
  intros Hok. split; [|done]. apply set_maps_ok; [done|constructor..| |done].
  intros n k. split; [done|]. by intros (? & ? & _).
Qed.

Lemma pool_cleanup_ok p now : pool_ok p -> pool_ok (pool_cleanup_expired p now).2.
Proof.
  intros Hok. unfold pool_cleanup_expired.
  pose proof (pool_space p FamV4 (v4 p) Hok eq_refl) as (Hs & _).
  pose proof (space_cleanup_spec (v4 p) now Hs) as H4.
  destruct (space_cleanup_expired (v4 p) now) as [n s4]. destruct H4 as (Hs4 & Hc4 & _).
  assert (forall s, space_ok s ->
    space_ok (space_cleanup_expired s now).2 /\ same_config s (space_cleanup_expired s now).2) as Hg.
  { intros s' Hs'. pose proof (space_cleanup_spec s' now Hs') as H'.
    destruct (space_cleanup_expired s' now) as [? ?]. destruct H' as (? & ? & _). done. }
  pose proof (both_spaces_ok p s4 (fun s => (space_cleanup_expired s now).2) Hok Hs4 Hc4 Hg) as Hb.
  revert Hb. cbn [v6 set_space]. destruct (v6 p) as [s|]; cbn [snd]; [|done].
  by destruct (space_cleanup_expired s now).
Qed.

Lemma pool_clear_ok p : pool_ok p -> pool_ok (pool_clear p).
Proof.
  intros Hok. pose proof (pool_space p FamV4 (v4 p) Hok eq_refl) as (Hs & _).
  destruct (space_clear_ok _ Hs). by apply (both_spaces_ok p _ space_clear); [..|apply space_clear_ok].
Qed.

Lemma pool_step_ok p p' : pool_ok p -> pool_step p p' -> pool_ok p'.
Proof.
  intros Hok []; auto using pool_allocate_ok, pool_lookup_ok, pool_cleanup_ok, pool_release_ok,
    pool_clear_ok.
Qed.

Lemma reachable_ok r p : reachable r p -> pool_ok p.
Proof.
  induction 1; eauto using from_config_ok, pool_step_ok, pool_restore_ok.
Qed.

(** ** Lemmas for the properties *)

(** [k] is an address of family [f]'s range other than its first. *)
Definition in_range (p : FakeIpPool) (f : Family) (k : Z) : Prop :=
  match f with
  | FamV4 => cidr4_contains (v4_net p) k = true /\ k <> cidr4_network (v4_net p)
  | FamV6 => exists r, v6_net p = Some r /\ cidr6_contains r k = true /\ k <> cidr6_network r
  end.

Lemma mapped_bounds p f n k s :
  pool_ok p -> space p f = Some s -> mapped p f n = Some k -> first s <= k <= last s.
Proof.
  intros Hok Es. unfold mapped. rewrite Es. intros Hm. destruct (pool_space p f s Hok Es) as (Hs & _).
  apply (ok_inverse s Hs) in Hm as (e & He & _). by eapply ok_keys.
Qed.

Lemma mapped_Some_space p f n k : mapped p f n = Some k -> exists s, space p f = Some s.
Proof. unfold mapped. destruct (space p f); [by eauto|done]. Qed.

Lemma mapped_range p f n k :
  pool_ok p -> mapped p f n = Some k -> in_range p f k /\ 0 <= k <= family_max f.
Proof.
  intros Hok Hm. destruct (mapped_Some_space _ _ _ _ Hm) as [s Es].
  pose proof (mapped_bounds _ _ _ _ _ Hok Es Hm) as Hb.
  destruct (pool_space p f s Hok Es) as (Hs & _ & Hl & Hr). split; [|lia].
  assert (0 <= k <= family_max f) as Hw by lia.
  destruct Hok as (H4 & (_ & _ & Hf4 & Hl4) & H6). destruct f; cbn in *.
  - injection Es as <-. rewrite Hf4, Hl4 in Hb. split; [|lia].
    apply cidr4_contains_iff; [done|..]; lia.
  - destruct (v6_net p) as [r|]; destruct (v6 p) as [s6|]; try done. injection Es as ->.
    destruct H6 as (H6 & _ & _ & Hf6 & Hl6). rewrite Hf6, Hl6 in Hb. exists r. split; [done|].
    split; [|lia]. apply cidr6_contains_iff; [done|..]; lia.
Qed.

Lemma in_range_contains p f k n :
  pool_ok p -> mapped p f n = Some k -> pool_contains p (addr_of f k) = true.
Proof.
  intros Hok Hm. destruct (mapped_Some_space _ _ _ _ Hm) as [s Es].
  pose proof (mapped_bounds _ _ _ _ _ Hok Es Hm) as Hb.
  assert (covers s k = true) as Hc.
  { unfold covers, usat_sub. apply andb_true_iff. rewrite !Z.leb_le.
    destruct (pool_space p f s Hok Es) as (_ & _ & _ & ?). lia. }
  destruct f; cbn in *; [by injection Es as ->|by rewrite Es].
Qed.

Lemma mapped_inj p f n1 n2 k :
  pool_ok p -> mapped p f n1 = Some k -> mapped p f n2 = Some k -> n1 = n2.
Proof.
  unfold mapped. intros Hok. destruct (space p f) as [s|] eqn:Es; [|done].
  destruct (pool_space p f s Hok Es) as (Hs & _). by apply by_name_inj.
Qed.

(** ** Properties *)


Definition name_of (s : string) : Name := of_labels (split_on 46 (ascii_bytes s)).

Definition demo_pool : FakeIpPool :=
  pool_new (mkIpv4Cidr 0xC6120000 30) (Some (mkIpv6Cidr (0xfdfedcba9876 * 2 ^ 80) 48)) [] 3600 2.

Lemma demo_reachable r : reachable r demo_pool.
Proof.
  apply (ReachConfig r (ascii_bytes "198.18.0.0/30") (Some (ascii_bytes "fdfe:dcba:9876::/48"))
    (Some []) 3600 2); [done|]. vm_compute. reflexivity.
Qed.

Definition demo_pool2 : FakeIpPool := (pool_allocate demo_pool (name_of "a.com") FamV4 0).2.

Lemma demo_reachable2 : reachable true demo_pool2.
Proof. eapply ReachStep; [apply demo_reachable|]. apply StepAllocate. Qed.


Lemma pool_allocate_spec p name f now :
  pool_ok p -> is_Some (space p f) ->
  let '(r, p') := pool_allocate p name f now in
  (forall k n, n <> name -> pool_peek p' (addr_of f k) = Some n -> pool_peek p (addr_of f k) = Some n) /\
  (forall g ip, g <> f -> (exists k, ip = addr_of g k) -> pool_peek p' ip = pool_peek p ip) /\
  if is_filtered p name then
    r = Ok Filtered /\ forall ip, pool_peek p' ip = pool_peek p ip
  else
    exists k, r = Ok (Address (addr_of f k)) /\ pool_peek p' (addr_of f k) = Some name /\
      (forall later, (pool_lookup p' (addr_of f k) later).1 = Some name) /\
      (forall k0, pool_peek p (addr_of f k0) = Some name ->
         k0 = k /\ forall ip, pool_peek p' ip = pool_peek p ip).
Proof.
  intros Hok [s Es]. pose proof (pool_allocate_ok p name f now Hok) as Hok'.
  unfold pool_allocate in *. destruct (is_filtered p name); [by destruct p|]. rewrite Es in *.
  destruct (pool_space p f s Hok Es) as (Hs & Hf & Hl & Hr).
  destruct (space_allocate_spec s name now Hs) as (k & s' & E & Hs' & Hc & Hk & Hsame & Hoth & _).
  rewrite E in *. cbn [snd] in Hok'. assert (is_Some (space p f)) as Hsome by (rewrite Es; done).
  assert (forall g n, mapped (set_space p f s') g n =
                      if decide (g = f) then bt_get (by_name s') n else mapped p g n) as Hm.
  { intros. by apply mapped_set_space. }
  split; [|split].
  - intros k' n Hne. rewrite !pool_peek_mapped, Hm, decide_True by done.
    unfold mapped. rewrite Es. by apply Hoth.
  - intros g ip Hne [k' ->]. rewrite !pool_peek_of, space_set_space, decide_False by done. done.
  - exists k. assert (mapped (set_space p f s') f name = Some k) as Hmk.
    { by rewrite Hm, decide_True. }
    pose proof (proj2 (mapped_range _ _ _ _ Hok' Hmk)) as Hrange.
    assert (pool_peek (set_space p f s') (addr_of f k) = Some name) as Hpeek.
    { by apply pool_peek_mapped. }
    split; [by cbn; rewrite Hf, family_addr_of|]. split; [done|]. split.
    + intros later. rewrite pool_lookup_of. rewrite pool_peek_of in Hpeek.
      rewrite space_set_space, decide_True in * by done. cbn [fst].
      by destruct (space_lookup_spec s' k later Hs') as (-> & _).
    + intros k0. rewrite pool_peek_mapped by done. unfold mapped at 1. rewrite Es.
      intros [-> Hbn]%Hsame. split; [done|]. intros ip. destruct (ip_addr_of ip) as (g & k' & ->).
      apply option_eq. intros n. rewrite !pool_peek_mapped, Hm by done.
      destruct (decide (g = f)) as [->|]; [|done]. unfold mapped. by rewrite Es, Hbn.
Qed.

(** allocating a name in a configured family never fails in a reachable
    pool: an excluded name is reported as filtered and nothing is mapped; any
    other name gets an address that reverses to it, the address it already had
    if it had one (and then no mapping changes), and otherwise no other name
    is renumbered, though some may be recycled. *)
Theorem fakeip_allocate_total p name f now :
  reachable true p -> is_Some (space p f) ->
  let '(r, p') := pool_allocate p name f now in
  (forall k n, n <> name -> pool_peek p' (addr_of f k) = Some n -> pool_peek p (addr_of f k) = Some n) /\
  (forall g ip, g <> f -> (exists k, ip = addr_of g k) -> pool_peek p' ip = pool_peek p ip) /\
  if is_filtered p name then
    r = Ok Filtered /\ forall ip, pool_peek p' ip = pool_peek p ip
  else
    exists k, r = Ok (Address (addr_of f k)) /\ pool_peek p' (addr_of f k) = Some name /\
      (forall later, (pool_lookup p' (addr_of f k) later).1 = Some name) /\
      (forall k0, pool_peek p (addr_of f k0) = Some name ->
         k0 = k /\ forall ip, pool_peek p' ip = pool_peek p ip).
Proof. intros Hok%reachable_ok. by apply pool_allocate_spec. Qed.

Lemma fakeip_allocate_total_witness :
  (pool_allocate demo_pool2 (name_of "b.com") FamV4 7).1 = Ok (Address (V4 0xC6120002)) /\
  exists k, (pool_allocate demo_pool2 (name_of "b.com") FamV4 7).1 = Ok (Address (addr_of FamV4 k)).
Proof.
  split; [vm_compute; reflexivity|].
  assert (is_Some (space demo_pool2 FamV4)) as Hsp by (eexists; reflexivity).
  pose proof (fakeip_allocate_total demo_pool2 (name_of "b.com") FamV4 7 demo_reachable2 Hsp) as H.
  destruct (pool_allocate demo_pool2 (name_of "b.com") FamV4 7) as [r p'].
  destruct H as (_ & _ & H). change (is_filtered demo_pool2 (name_of "b.com")) with false in H.
  destruct H as (k & -> & _). exists k. reflexivity.
Defined.

(** ** Lemmas: the cap and the sweep *)

Definition within_cap (p : FakeIpPool) : Prop := forall f, len_for p f <= pool_max_entries p f.

Lemma within_cap_set p f s s' :
  pool_ok p -> space p f = Some s -> same_config s s' ->
  (zlen (by_key s) <= cap s -> zlen (by_key s') <= cap s') -> within_cap p -> within_cap (set_space p f s').
Proof.
  intros Hok Es Hc Hle Hw g. specialize (Hw g). unfold len_for, pool_max_entries, space_len in *.
  rewrite space_set_space by (by rewrite Es). destruct (decide (g = f)) as [->|]; [|done].
  rewrite Es in Hw. by apply Hle.
Qed.

Lemma within_cap_shrink p f s s' :
  pool_ok p -> space p f = Some s -> same_config s s' ->
  zlen (by_key s') <= zlen (by_key s) -> within_cap p -> within_cap (set_space p f s').
Proof.
  intros Hok Es Hc Hle. apply (within_cap_set p f s s'); [done..|].
  destruct (same_config_cap s s' Hc) as [-> _]. lia.
Qed.

Lemma pool_new_within_cap range range6 filter ttl m :
  pool_ok (pool_new range range6 filter ttl m) -> within_cap (pool_new range range6 filter ttl m).
Proof.
  intros Hok f. unfold len_for, pool_max_entries, space_len.
  destruct (space (pool_new range range6 filter ttl m) f) as [s|] eqn:Es; [|done].
  destruct (pool_space _ f s Hok Es) as (Hs & _). pose proof (cap_bounds s Hs).
  assert (by_key s = []) as ->.
  { destruct f; cbn in Es; [by injection Es as <-|]. destruct range6; cbn in Es; [by injection Es as <-|done]. }
  rewrite zlen_nil. lia.
Qed.

Lemma cleanup_shrink s now :
  space_ok s ->
  same_config s (space_cleanup_expired s now).2 /\
  zlen (by_key (space_cleanup_expired s now).2) <= zlen (by_key s).
Proof.
  intros Hs. pose proof (space_cleanup_spec s now Hs) as H.
  destruct (space_cleanup_expired s now) as [n s']. destruct H as (_ & ? & ? & ? & _). split; [done|]. cbn. lia.
Qed.

Lemma pool_step_within_cap p p' : pool_ok p -> pool_step p p' -> within_cap p -> within_cap p'.
Proof.
  intros Hok Hstep Hw. destruct Hstep as [name f now|ip now|now|name f|].
  - unfold pool_allocate. destruct (is_filtered p name); [done|].
    destruct (space p f) as [s|] eqn:Es; [|done]. destruct (pool_space p f s Hok Es) as (Hs & _).
    destruct (space_allocate_spec s name now Hs) as (k & s' & -> & _ & ? & _ & _ & _ & ?).
    by eapply within_cap_set.
  - destruct (ip_addr_of ip) as (f & k & ->). rewrite pool_lookup_of.
    destruct (space p f) as [s|] eqn:Es; [|done]. destruct (pool_space p f s Hok Es) as (Hs & _).
    destruct (space_lookup_spec s k now Hs) as (_ & _ & ? & _ & Hl).
    eapply within_cap_shrink; eauto. by rewrite Hl.
  - pose proof (pool_space p FamV4 (v4 p) Hok eq_refl) as (H4 & _).
    destruct (cleanup_shrink (v4 p) now H4) as [Hc4 Hl4].
    pose proof (pool_cleanup_ok p now Hok) as Hok'. unfold pool_cleanup_expired in *.
    pose proof (space_cleanup_spec (v4 p) now H4) as Hs4.
    destruct (space_cleanup_expired (v4 p) now) as [n s4]. cbn [snd] in *.
    assert (pool_ok (set_space p FamV4 s4)) as Hok4 by (by eapply set_space_ok; [..|apply Hs4|]).
    assert (within_cap (set_space p FamV4 s4)) as Hw4 by (by eapply within_cap_shrink).
    destruct (v6 (set_space p FamV4 s4)) as [s|] eqn:E6; [|exact Hw4].
    destruct (pool_space _ FamV6 s Hok4 E6) as (Hs & _).
    destruct (cleanup_shrink s now Hs) as [Hc6 Hl6].
    destruct (space_cleanup_expired s now) as [n6 s6]. cbn [snd] in *.
    by eapply (within_cap_shrink (set_space p FamV4 s4) FamV6 s).
  - unfold pool_release. destruct (space p f) as [s|] eqn:Es; [|done].
    destruct (pool_space p f s Hok Es) as (Hs & _). pose proof (space_release_spec s name Hs) as H.
    destruct (space_release s name) as [k s']. destruct H as (_ & ? & _ & ? & _). by eapply within_cap_shrink.
  - intros f. unfold pool_clear, len_for, pool_max_entries, space_len. cbn [v6 set_space].
    destruct (pool_space p FamV4 (v4 p) Hok eq_refl) as (H4 & _). pose proof (cap_bounds _ H4).
    destruct (v6 p) as [s6|] eqn:E6; destruct f; cbn; rewrite ?E6, ?zlen_nil.
    + change (cap (space_clear (v4 p))) with (cap (v4 p)). lia.
    + destruct (pool_space p FamV6 s6 Hok E6) as (H6 & _). pose proof (cap_bounds _ H6).
      change (cap (space_clear s6)) with (cap s6). lia.
    + change (cap (space_clear (v4 p))) with (cap (v4 p)). lia.
    + done.
Qed.

(** while no snapshot entry is restored, each family holds at most its
    cap, the configured maximum or the size of the range, whatever the traffic;
    restoring entries is not counted against the cap, so a snapshot can put
    more mappings in the pool than it allows. *)
Theorem fakeip_cap :
  (forall p f, reachable false p -> len_for p f <= pool_max_entries p f) /\
  (exists p, reachable true p /\ pool_max_entries p FamV4 < len_for p FamV4).
Proof.
  split.
  - intros p f Hp. enough (pool_ok p /\ within_cap p) as [_ Hw] by apply Hw.
    induction Hp as [range range6 filter ttl m p Hm H|p p' _ [Hok Hw] Hs|p name ip now [=]].
    + pose proof (from_config_ok _ _ _ _ _ _ Hm H) as Hok. split; [done|].
      apply bind_Ok in H as (s & _ & [= <-]). by apply pool_new_within_cap.
    + split; [by eapply pool_step_ok|by eapply pool_step_within_cap].
  - exists (fold_left (fun p na => (pool_restore p na.1 na.2 0).2)
      [(name_of "a", V4 0xC6120001); (name_of "b", V4 0xC6120002); (name_of "c", V4 0xC6120003)] demo_pool).
    split; [|vm_compute; reflexivity]. cbn [fold_left fst snd].
    repeat (apply ReachRestore; [done|split; vm_compute; discriminate|]). apply demo_reachable.
Qed.

(** an expiry sweep drops exactly the mappings not used within the TTL,
    counts them, and leaves every other mapping alone. *)
Theorem fakeip_cleanup_exact p now f s :
  reachable true p -> space p f = Some s ->
  let '(dropped, p') := pool_cleanup_expired p now in
  dropped = pool_len p - pool_len p' /\
  forall k n, pool_peek p' (addr_of f k) = Some n <->
    exists e, bt_get (by_key s) k = Some e /\ e_name e = n /\
      ts_saturating_sub now (sp_ttl s) <= last_access e.
Proof.
  intros Hok%reachable_ok Es. unfold pool_cleanup_expired.
  assert (forall s k n, space_ok s ->
    space_peek (space_cleanup_expired s now).2 k = Some n <->
    exists e, bt_get (by_key s) k = Some e /\ e_name e = n /\
      ts_saturating_sub now (sp_ttl s) <= last_access e) as Hpeek.
  { clear. intros s k n Hs. pose proof (space_cleanup_spec s now Hs) as H.
    destruct (space_cleanup_expired s now) as [d s']. cbn zeta in H. destruct H as (_ & _ & _ & _ & Hg).
    unfold space_peek. cbn [snd]. rewrite Hg. destruct (bt_get (by_key s) k) as [e|]; cbn.
    - destruct (_ <=? _) eqn:E; bools; cbn; split.
      + intros [= <-]. eauto.
      + by intros (? & [= <-] & <- & _).
      + done.
      + intros (? & [= <-] & _ & ?). lia.
    - split; [done|]. by intros (? & ? & _). }
  pose proof (pool_space p FamV4 (v4 p) Hok eq_refl) as (H4 & _).
  pose proof (space_cleanup_spec (v4 p) now H4) as Hc4. pose proof (Hpeek (v4 p)) as Hp4.
  destruct (space_cleanup_expired (v4 p) now) as [n4 s4]. destruct Hc4 as (_ & _ & Hd4 & _ & _).
  unfold pool_len, space_len. cbn [v6 set_space v4 snd] in *.
  destruct (v6 p) as [s6|] eqn:E6; cbn [v6 set_space v4].
  - assert (space_ok s6) as H6 by (by apply (pool_space p FamV6 s6 Hok E6)).
    pose proof (space_cleanup_spec s6 now H6) as Hc6. pose proof (Hpeek s6) as Hp6.
    destruct (space_cleanup_expired s6 now) as [n6 s6']. destruct Hc6 as (_ & _ & Hd6 & _ & _).
    cbn [v6 set_space v4 snd] in *. split; [lia|]. intros k n. rewrite pool_peek_of.
    destruct f; cbn in *; [injection Es as <-; by apply Hp4|].
    rewrite E6 in Es. injection Es as ->. by apply Hp6.
  - split; [lia|]. intros k n. rewrite pool_peek_of.
    destruct f; cbn in *; [injection Es as <-; by apply Hp4|]. by rewrite E6 in Es.
Qed.

Lemma fakeip_cleanup_exact_witness :
  (pool_cleanup_expired demo_pool2 (3601 * 10 ^ 9)).1 = 1 /\
  1 = pool_len demo_pool2 - pool_len (pool_cleanup_expired demo_pool2 (3601 * 10 ^ 9)).2.
Proof.
  assert ((pool_cleanup_expired demo_pool2 (3601 * 10 ^ 9)).1 = 1) as E by (vm_compute; reflexivity).
  split; [exact E|]. rewrite <- E at 1.
  pose proof (fakeip_cleanup_exact demo_pool2 (3601 * 10 ^ 9) FamV4 (v4 demo_pool2) demo_reachable2 eq_refl) as H.
  destruct (pool_cleanup_expired demo_pool2 (3601 * 10 ^ 9)) as [d p']. apply H.
Defined.

(** ** Lemmas: loading a snapshot *)

Definition space_restore_all (t : Space) (l : list (Z * Entry)) (now : Z) : Space :=
  fold_left (fun t ke => (space_restore t (e_name ke.2) ke.1 now).2) l t.

Definition keys_unique (l : list (Z * Entry)) : Prop :=
  forall k e1 e2, In (k, e1) l -> In (k, e2) l -> e_name e1 = e_name e2.

Lemma space_restore_all_spec l t now :
  space_ok t -> names_unique l -> keys_unique l ->
  (forall k e, In (k, e) l -> first t <= k <= last t /\
     (forall n, bt_get (by_name t) n = Some k -> n = e_name e) /\
     (forall k', bt_get (by_name t) (e_name e) = Some k' -> k' = k)) ->
  space_ok (space_restore_all t l now) /\ same_config t (space_restore_all t l now) /\
  forall n k, bt_get (by_name (space_restore_all t l now)) n = Some k <->
    bt_get (by_name t) n = Some k \/ exists e, In (k, e) l /\ e_name e = n.
Proof.
  revert t. induction l as [|[k0 e0] l IH]; intros t Hok Hn Hk Hl.
  { split; [done|]. split; [done|]. intros n k. split; [by left|]. by intros [?|(? & [] & _)]. }
  unfold space_restore_all. cbn [fold_left fst snd].
  fold (space_restore_all (space_restore t (e_name e0) k0 now).2 l now).
  pose proof (space_restore_spec t (e_name e0) k0 now Hok) as Hr.
  destruct (space_restore t (e_name e0) k0 now) as [ok t1]. cbn [snd].
  destruct Hr as (Hok1 & Hc1 & Hiff & _ & Hget).
  assert (ok = true) as -> by (apply Hiff, Hl; by left). specialize (Hget eq_refl).
  destruct (IH t1) as (Hok' & Hc' & Hg'); [done|..].
  - intros k1 e1 k2 e2 H1 H2. apply (Hn k1 e1 k2 e2); by right.
  - intros k e1 e2 H1 H2. apply (Hk k e1 e2); by right.
  - intros k e Hin. destruct Hc1 as (_ & -> & -> & _).
    destruct (Hl k e) as (Hr & Hk1 & Hk2); [by right|]. split; [done|]. split.
    + intros n. rewrite Hget. destruct (decide (n = e_name e0)) as [->|]; [|apply Hk1].
      intros [= ->]. symmetry. apply (Hk k e e0); [by right|by left].
    + intros k'. rewrite Hget. destruct (decide (e_name e = e_name e0)) as [E|]; [|apply Hk2].
      intros [= <-]. apply (Hn k0 e0 k e); [by left|by right|done].
  - split; [done|]. split; [by etrans|]. intros n k. rewrite Hg', Hget. split.
    + intros [Hd|(e & Hin & <-)]; [|right; exists e; split; [by right|done]].
      destruct (decide (n = e_name e0)) as [->|]; [|by left].
      injection Hd as ->. right. exists e0. split; [by left|done].
    + intros [Hd|(e & [[= -> ->]|Hin] & <-)].
      * left. destruct (decide (n = e_name e0)) as [->|]; [|done].
        destruct (Hl k0 e0) as (_ & _ & Hk2); [by left|]. by rewrite (Hk2 _ Hd).
      * left. by rewrite decide_True.
      * right. by exists e.
Qed.

(** Reloading a whole snapshot of a pool. *)
Definition restore_all (p : FakeIpPool) (l : list (Name * IpAddr)) (now : Z) : FakeIpPool :=
  fold_left (fun p na => (pool_restore p na.1 na.2 now).2) l p.

Lemma restore_all_space p f t l now :
  space p f = Some t -> (forall k e, In (k, e) l -> 0 <= k <= family_max f) ->
  restore_all p (map (fun ke => (e_name ke.2, family_addr f ke.1)) l) now =
  set_space p f (space_restore_all t l now).
Proof.
  revert p t. induction l as [|[k e] l IH]; intros p t Es Hl; cbn.
  - destruct p, f; cbn in Es |- *; [by injection Es as <-|by rewrite Es].
  - rewrite family_addr_of by (eapply Hl; by left). rewrite pool_restore_of, Es. cbn [snd].
    unfold restore_all in IH. rewrite (IH _ (space_restore t (e_name e) k now).2).
    + by destruct f.
    + rewrite space_set_space by (by rewrite Es). by rewrite decide_True.
    + intros k' e' ?. eapply Hl. by right.
Qed.

(** A space with nothing mapped takes the mappings of any space with the same
    range. *)
Lemma space_restore_all_same s t now :
  space_ok s -> space_ok t -> first t = first s -> last t = last s -> by_name t = [] ->
  space_ok (space_restore_all t (by_key s) now) /\
  forall n, bt_get (by_name (space_restore_all t (by_key s) now)) n = bt_get (by_name s) n.
Proof.
  intros Hs Ht Hf Hl Hempty. pose proof (ok_by_key s Hs) as Hsort.
  destruct (space_restore_all_spec (by_key s) t now Ht) as (Hok & _ & Hg).
  - intros k1 e1 k2 e2 H1%(bt_In_get _ _ _ Hsort) H2%(bt_In_get _ _ _ Hsort). exact (by_key_name_inj s Hs _ _ _ _ H1 H2).
  - intros k e1 e2 H1%(bt_In_get _ _ _ Hsort) H2%(bt_In_get _ _ _ Hsort). congruence.
  - intros k e Hin%(bt_In_get _ _ _ Hsort). rewrite Hempty, Hf, Hl. split; [by eapply ok_keys|done].
  - split; [done|]. intros n. apply option_eq. intros k. rewrite Hg, Hempty, (ok_inverse s Hs). cbn.
    split.
    + intros [?|(e & Hin & He)]; [done|]. exists e. by rewrite <- bt_In_get.
    + intros (e & Hin & He). right. exists e. by rewrite bt_In_get.
Qed.

(** restarting does not renumber: the snapshot of a reachable pool, loaded
    into a fresh pool with the same ranges, gives every address back to the
    same name and every name the same address, whatever the new pool's filter,
    TTL and cap. *)
Theorem fakeip_snapshot_round_trip p filter ttl m now :
  reachable true p -> 0 <= m ->
  let q := restore_all (pool_new (v4_net p) (v6_net p) filter ttl m) (pool_iter p) now in
  forall ip, pool_peek q ip = pool_peek p ip.
Proof.
  intros Hok%reachable_ok Hm. cbn zeta. set (q0 := pool_new (v4_net p) (v6_net p) filter ttl m).
  pose proof Hok as (H4 & (Hs4 & _ & Hf4 & Hl4) & H6).
  assert (pool_ok q0) as Hq0.
  { apply pool_new_ok; [done| |done|].
    - pose proof (ok_range _ Hs4). rewrite Hf4, Hl4 in *. rewrite cidr4_broadcast_eq in * by done.
      unfold cidr4_len, cidr4_network in *. rewrite Z.shiftl_1_l. lia.
    - destruct (v6_net p) as [r|]; [|done]. destruct (v6 p) as [s6|]; [|done].
      destruct H6 as (H6 & Hs6 & _ & Hf6 & Hl6). pose proof (ok_range _ Hs6). split; [done|]. lia. }
  assert (forall f s, space p f = Some s -> exists t, space q0 f = Some t /\
            first t = first s /\ last t = last s /\ by_name t = []) as Hfresh.
  { intros f s Es. destruct f; cbn in *.
    - injection Es as <-. eexists. split; [done|]. by rewrite Hf4, Hl4.
    - rewrite Es in H6. destruct (v6_net p) as [r|]; [|done].
      destruct H6 as (_ & _ & _ & Hf6 & Hl6). eexists. split; [done|]. by rewrite Hf6, Hl6. }
  assert (forall f s, space p f = Some s -> forall k e, In (k, e) (by_key s) -> 0 <= k <= family_max f) as Hkeys.
  { intros f s Es k e Hin. destruct (pool_space p f s Hok Es) as (Hs & _ & Hl & Hr).
    apply bt_In_get in Hin; [|apply Hs]. apply (ok_keys s Hs) in Hin. lia. }
  unfold restore_all, pool_iter. rewrite fold_left_app. fold (restore_all q0 (space_mappings FamV4 (v4 p)) now).
  destruct (Hfresh FamV4 (v4 p) eq_refl) as (t4 & Et4 & Hft4 & Hlt4 & Hbt4).
  unfold space_mappings. rewrite (restore_all_space q0 FamV4 t4) by eauto.
  destruct (space_restore_all_same (v4 p) t4 now Hs4) as [Hok4 Hg4]; [by eapply pool_space|done..|].
  set (s4 := space_restore_all t4 (by_key (v4 p)) now) in *.
  intros ip. destruct (ip_addr_of ip) as (f & k & ->).
  assert (forall s', space_ok s' -> forall s, space_ok s ->
    (forall n, bt_get (by_name s') n = bt_get (by_name s) n) -> space_peek s' k = space_peek s k) as Hpeek.
  { intros s' Hs' s Hs Hg. apply option_eq. intros n. by rewrite !space_peek_iff, Hg. }
  destruct (v6 p) as [s6|] eqn:E6.
  - destruct (Hfresh FamV6 s6 E6) as (t6 & Et6 & Hft6 & Hlt6 & Hbt6).
    fold (restore_all (set_space q0 FamV4 s4) (map (fun ke => (e_name ke.2, family_addr FamV6 ke.1)) (by_key s6)) now).
    rewrite (restore_all_space _ FamV6 t6) by (done || eauto).
    destruct (pool_space p FamV6 s6 Hok E6) as (Hs6 & _).
    destruct (space_restore_all_same s6 t6 now Hs6) as [Hok6 Hg6]; [by eapply (pool_space q0 FamV6)|done..|].
    rewrite !pool_peek_of. destruct f; cbn; [by apply Hpeek|]. rewrite E6. by apply Hpeek.
  - cbn [fold_left]. rewrite !pool_peek_of. destruct f; cbn; [by apply Hpeek|]. rewrite E6.
    destruct (v6_net p); done.
Qed.

Lemma fakeip_snapshot_round_trip_witness :
  pool_iter demo_pool2 = [(name_of "a.com", V4 0xC6120001)] /\
  pool_peek (restore_all (pool_new (v4_net demo_pool2) (v6_net demo_pool2) [] 60 1) (pool_iter demo_pool2) 99)
    (V4 0xC6120001) = pool_peek demo_pool2 (V4 0xC6120001).
Proof.
  split; [vm_compute; reflexivity|].
  exact (fakeip_snapshot_round_trip demo_pool2 [] 60 1 99 demo_reachable2 ltac:(lia) (V4 0xC6120001)).
Defined.
