(* ===== verification/Routing.v ===== *)
(** * Upstream routing ([src/routing.rs])

    [nameserver-policy] picks the group that answers a name, most specific
    rule first; [fallback-filter] recognises poisoned answers. *)
From Stdlib Require Import Sorted Permutation.
From S2P Require Import Prelude Wire Prng Name BTree Sort Addr Cidr Pattern.

(** The first match of a sorted list is a greatest match. *)
Lemma find_sorted {A} (ge : A -> A -> bool) (f : A -> bool) l x :
  (forall a, ge a a = true) -> StronglySorted (fun a b => ge a b = true) l ->
  List.find f l = Some x ->
  In x l /\ f x = true /\ forall y, In y l -> f y = true -> ge x y = true.
Proof.
  intros Hrefl Hs. induction Hs as [|y l Hs IH Hy]; cbn; [done|].
  destruct (f y) eqn:E.
  - intros [= ->]. split; [by left|]. split; [done|]. intros z [->|Hz] _; [done|].
    rewrite List.Forall_forall in Hy. auto.
  - intros (Hin & Hf & Hmax)%IH. split; [by right|]. split; [done|].
    intros z [->|Hz] Hfz; [congruence|auto].
Qed.

(** ** [nameserver-policy] *)

Definition DEFAULT_BOGUS_CIDRS : list (list Z) := map ascii_bytes
  ["0.0.0.0/8"; "127.0.0.0/8"; "240.0.0.0/4"; "::/128"; "::1/128"; "100::/64"]%string.

Abbreviation GroupId := Z (only parsing).

Inductive Route := Group (g : GroupId) | Default.

Record NameserverPolicy := mkPolicy { rules : list (DomainPattern * GroupId) }.

(** Lexicographic on (labels, exactness). *)
Definition specificity (p : DomainPattern) : Z * Z :=
  (pattern_label_count p, if is_exact p then 1 else 0).

Definition specificity_ge (p q : DomainPattern) : bool :=
  let a := specificity p in let b := specificity q in
  (b.1 <? a.1) || ((b.1 =? a.1) && (b.2 <=? a.2)).

Definition shadows : Error :=
  config "nameserver-policy entry * would shadow every other rule; set the default nameservers instead".

Fixpoint parse_rules (l : list (list Z * GroupId)) : result Error (list (DomainPattern * GroupId)) :=
  match l with
  | [] => Ok []
  | (pattern, group) :: l =>
      p ← map_err (fun e => config (err_msg e)) (pattern_parse pattern);
      _ ← reject_if (match p with PAny => true | _ => false end) shadows;
      rest ← parse_rules l;
      Ok ((p, group) :: rest)
  end.

Definition rule_ge (a b : DomainPattern * GroupId) : bool := specificity_ge a.1 b.1.

Definition policy_new (l : list (list Z * GroupId)) : result Error NameserverPolicy :=
  parsed ← parse_rules l; Ok (mkPolicy (stable_sort rule_ge parsed)).

Fixpoint route_in (rules : list (DomainPattern * GroupId)) (name : Name) : Route :=
  match rules with
  | [] => Default
  | (pattern, group) :: rules =>
      if pattern_matches pattern name then Group group else route_in rules name
  end.

Definition route (p : NameserverPolicy) (name : Name) : Route := route_in (rules p) name.

(** ** [fallback-filter] *)

Record FallbackFilter := mkFallback { domain : list DomainPattern; ipcidr : list IpCidr }.

Definition default_blocks : list IpCidr := omap cidr_parse DEFAULT_BOGUS_CIDRS.
Definition fallback_default : FallbackFilter := mkFallback [] default_blocks.

Fixpoint parse_blocks (l : list (list Z)) : result Error (list IpCidr) :=
  match l with
  | [] => Ok []
  | s :: l =>
      c ← ok_or (cidr_parse s) (config "fallback-filter.ipcidr entry is not a CIDR");
      rest ← parse_blocks l; Ok (c :: rest)
  end.

Definition geoip_error : Error :=
  config "fallback-filter.geoip requires a country-to-CIDR database, which this build does not embed; set `geoip` to false and use `ipcidr` (the ranges that count as pollution) and `domain` (names that always use the fallback servers) instead".

Definition fallback_new (domain : list (list Z)) (ipcidr : option (list (list Z))) (geoip : bool)
    : result Error FallbackFilter :=
  _ ← reject_if geoip geoip_error;
  domain ← parse_all domain;
  blocks ← match ipcidr with None => Ok default_blocks | Some l => parse_blocks l end;
  Ok (mkFallback domain blocks).

Definition forces_fallback (f : FallbackFilter) (name : Name) : bool :=
  existsb (fun p => pattern_matches p name) (domain f).

Definition looks_poisoned (f : FallbackFilter) (addrs : list IpAddr) : option IpAddr :=
  List.find (fun a => existsb (fun b => cidr_contains b a) (ipcidr f)) addrs.

(** ** Lemmas *)

Lemma specificity_ge_iff p q :
  specificity_ge p q = true <->
  (specificity q).1 < (specificity p).1 \/
  ((specificity q).1 = (specificity p).1 /\ (specificity q).2 <= (specificity p).2).
Proof.
  unfold specificity_ge. cbn zeta. by rewrite orb_true_iff, andb_true_iff, Z.ltb_lt, Z.eqb_eq, Z.leb_le.
Qed.

Lemma rule_ge_total a b : rule_ge a b = true \/ rule_ge b a = true.
Proof. unfold rule_ge. rewrite !specificity_ge_iff. lia. Qed.
Lemma rule_ge_trans a b c : rule_ge a b = true -> rule_ge b c = true -> rule_ge a c = true.
Proof. unfold rule_ge. rewrite !specificity_ge_iff. lia. Qed.
Lemma rule_ge_refl a : rule_ge a a = true.
Proof. destruct (rule_ge_total a a); done. Qed.

Lemma route_in_find l name :
  route_in l name =
  match List.find (fun r : DomainPattern * GroupId => pattern_matches r.1 name) l with
  | Some (_, g) => Group g | None => Default end.
Proof.
  induction l as [|[p g] l IH]; cbn; [done|]. by destruct (pattern_matches p name).
Qed.

Lemma policy_new_rules l p :
  policy_new l = Ok p ->
  exists parsed, parse_rules l = Ok parsed /\ Permutation (rules p) parsed /\
    StronglySorted (fun a b => rule_ge a b = true) (rules p).
Proof.
  intros (parsed & Hp & [= <-])%bind_Ok. exists parsed. split; [done|]. split.
  - apply stable_sort_perm.
  - apply stable_sort_sorted; [apply rule_ge_total|apply rule_ge_trans].
Qed.

(** ** Properties *)

(** a name goes to the default group exactly when no rule matches it, and
    otherwise to the group of a matching rule no other matching rule is more
    specific than (more labels, then exactness).  Between equally specific
    rules the order of the configuration decides. *)
Theorem route_most_specific :
  (forall l p parsed name,
    policy_new l = Ok p -> parse_rules l = Ok parsed ->
    (route p name = Default <-> forall r, In r parsed -> pattern_matches r.1 name = false) /\
    (forall g, route p name = Group g ->
       exists pat, In (pat, g) parsed /\ pattern_matches pat name = true /\
         forall r, In r parsed -> pattern_matches r.1 name = true -> specificity_ge pat r.1 = true)) /\
  (exists l1 l2 p1 p2 name g1 g2,
    Permutation l1 l2 /\ policy_new l1 = Ok p1 /\ policy_new l2 = Ok p2 /\
    route p1 name = Group g1 /\ route p2 name = Group g2 /\ g1 <> g2).
Proof.
  split.
  - intros l p parsed name Hp Hl.
    destruct (policy_new_rules l p Hp) as (parsed' & Hl' & Hperm & Hs).
    rewrite Hl in Hl'. injection Hl' as <-.
    assert (forall r, In r (rules p) <-> In r parsed) as Hin.
    { intros r. split; apply Permutation_in; [done|by symmetry]. }
    unfold route. rewrite route_in_find. destruct (List.find _ (rules p)) as [[pat g']|] eqn:Ef.
    + pose proof Ef as Ef2. apply (find_sorted rule_ge _ _ _ rule_ge_refl Hs) in Ef2 as (Hi & Hm & Hmax).
      apply Hin in Hi. split.
      * split; [done|]. intros Hno. apply Hno in Hi. cbn in *. congruence.
      * intros g [= <-]. exists pat. split; [done|]. split; [done|].
        intros r Hr%Hin Hrm. by apply (Hmax r).
    + split; [|done]. split; [|done]. intros _ r Hr%Hin. by apply (find_none _ _ Ef r).
  - exists [(ascii_bytes "time.*.com", 1); (ascii_bytes "+.time.apple.com", 2)],
           [(ascii_bytes "+.time.apple.com", 2); (ascii_bytes "time.*.com", 1)].
    eexists _, _, (of_labels [ascii_bytes "time"; ascii_bytes "apple"; ascii_bytes "com"]), 1, 2.
    split; [apply perm_swap|]. split; [vm_compute; reflexivity|]. split; [vm_compute; reflexivity|].
    split; [vm_compute; reflexivity|]. split; [vm_compute; reflexivity|]. done.
Qed.

(** The default blocks, as intervals. *)
Definition bogus (ip : IpAddr) : Prop :=
  match ip with
  | V4 a => a <= 0x00ffffff \/ 0x7f000000 <= a <= 0x7fffffff \/ 0xf0000000 <= a
  | V6 a => a <= 1 \/ 0x0100 * 2 ^ 112 <= a <= 0x0100 * 2 ^ 112 + 2 ^ 64 - 1
  end.

Lemma default_blocks_parse :
  default_blocks =
  [CidrV4 (mkIpv4Cidr 0 8); CidrV4 (mkIpv4Cidr 0x7f000000 8); CidrV4 (mkIpv4Cidr 0xf0000000 4);
   CidrV6 (mkIpv6Cidr 0 128); CidrV6 (mkIpv6Cidr 1 128); CidrV6 (mkIpv6Cidr (0x0100 * 2 ^ 112) 64)].
Proof. vm_compute. reflexivity. Qed.

Lemma cidr_contains_v4 b p a :
  cidr4_ok (mkIpv4Cidr b p) -> 0 <= a <= u32_max ->
  cidr_contains (CidrV4 (mkIpv4Cidr b p)) (V4 a) = true <-> b <= a <= b + 2 ^ (32 - p) - 1.
Proof. intros Hc Ha. cbn [cidr_contains]. rewrite cidr4_contains_iff, cidr4_broadcast_eq by done. done. Qed.
Lemma cidr_contains_v6 b p a :
  cidr6_ok (mkIpv6Cidr b p) -> 0 <= a <= u128_max ->
  cidr_contains (CidrV6 (mkIpv6Cidr b p)) (V6 a) = true <-> b <= a <= b + 2 ^ (128 - p) - 1.
Proof. intros Hc Ha. cbn [cidr_contains]. rewrite cidr6_contains_iff, cidr6_broadcast_eq by done. done. Qed.

(** with no [ipcidr] configured, whether by an absent filter or an absent
    field, an answer is poisoned exactly when it carries an address of the
    blocks no public answer may have (all six parse), and the address reported
    is the first such; a [geoip] filter is refused. *)
Theorem default_filter_poison dom fb addrs :
  fallback_new dom None false = Ok fb -> Forall ip_ok addrs ->
  fallback_new dom None true = Err geoip_error /\
  looks_poisoned fb addrs = looks_poisoned fallback_default addrs /\
  match looks_poisoned fb addrs with
  | Some ip => exists pre post, addrs = pre ++ ip :: post /\ bogus ip /\ Forall (fun a => ~ bogus a) pre
  | None => Forall (fun a => ~ bogus a) addrs
  end.
Proof.
  intros (? & _ & H)%bind_Ok Hok. apply bind_Ok in H as (d & _ & (b & [= <-] & [= <-])%bind_Ok).
  split; [done|]. split; [done|]. unfold looks_poisoned. cbn [ipcidr].
  assert (forall ip, ip_ok ip ->
    existsb (fun b => cidr_contains b ip) default_blocks = true <-> bogus ip) as Hb.
  { rewrite default_blocks_parse. intros [a|a] Ha; cbn [ip_ok existsb bogus] in *;
      rewrite !orb_true_iff.
    - rewrite !cidr_contains_v4 by (done || (repeat split; vm_compute; done)).
      cbn [cidr_contains]. unfold u32_max in Ha. lia.
    - rewrite !cidr_contains_v6 by (done || (repeat split; vm_compute; done)).
      cbn [cidr_contains]. unfold u128_max in Ha. lia. }
  induction Hok as [|a addrs Ha Hok IH]; cbn [List.find]; [constructor|].
  destruct (existsb _ default_blocks) eqn:E.
  - exists [], addrs. split; [done|]. split; [by apply Hb|constructor].
  - assert (~ bogus a) by (rewrite <- Hb by done; by rewrite E).
    destruct (List.find _ addrs) as [ip|].
    + destruct IH as (pre & post & -> & ? & ?). exists (a :: pre), post. split; [done|]. split; [done|].
      by constructor.
    + by constructor.
Qed.

Lemma default_filter_poison_witness :
  let fb := mkFallback [] default_blocks in
  fallback_new [] None false = Ok fb /\
  looks_poisoned fb [V4 0x01010101; V4 0x7f000001] = Some (V4 0x7f000001) /\
  fallback_new [] None true = Err geoip_error.
Proof.
  cbn zeta. split; [vm_compute; reflexivity|]. split; [vm_compute; reflexivity|].
  apply (default_filter_poison [] (mkFallback [] default_blocks) []); [vm_compute; reflexivity|constructor].
Defined.

Lemma route_most_specific_witness :
  exists p, policy_new [(ascii_bytes "+.example.com", 1); (ascii_bytes "+.node.example.com", 2)] = Ok p /\
    route p (of_labels [ascii_bytes "a"; ascii_bytes "node"; ascii_bytes "example"; ascii_bytes "com"]) = Group 2 /\
    (route p (of_labels [ascii_bytes "org"]) = Default <->
     forall r, In r [(PSubtree (of_labels [ascii_bytes "example"; ascii_bytes "com"]), 1);
                     (PSubtree (of_labels [ascii_bytes "node"; ascii_bytes "example"; ascii_bytes "com"]), 2)] ->
       pattern_matches r.1 (of_labels [ascii_bytes "org"]) = false).
Proof.
  eexists. split; [vm_compute; reflexivity|]. split; [vm_compute; reflexivity|].
  eapply (proj1 route_most_specific
    [(ascii_bytes "+.example.com", 1); (ascii_bytes "+.node.example.com", 2)]); vm_compute; reflexivity.
Defined.
