(* ===== verification/Hosts.v ===== *)
(** * Static answers ([src/hosts.rs])

    The [hosts] table: exact pins in an ordered map, pattern pins in a list
    kept most specific first.  Its specification is the list of pins in
    insertion order ([pinned], [pin_spec]). *)
From Stdlib Require Import Sorted Permutation.
From stdpp Require Import gmap.
From S2P Require Import Prelude Wire Prng Name Compress Qtype Bitmap RData Rr BTree Sort Addr Cidr Pattern Routing.

Definition DEFAULT_HOSTS_TTL : Z := 60.

Record HostsTable := mkHosts {
  h_ttl : Z;
  exact : list (Name * list IpAddr);
  wildcard : list (DomainPattern * list IpAddr) }.

Definition hosts_new (ttl : Z) : HostsTable := mkHosts ttl [] [].
Definition hosts_default : HostsTable := hosts_new DEFAULT_HOSTS_TTL.

Definition hosts_len (t : HostsTable) : Z := zlen (exact t) + zlen (wildcard t).
Definition hosts_is_empty (t : HostsTable) : bool :=
  (zlen (exact t) =? 0) && (zlen (wildcard t) =? 0).

(** [for a in addrs { if !slot.contains(a) { slot.push(a) } }] *)
Definition push_missing (slot addrs : list IpAddr) : list IpAddr :=
  fold_left (fun slot a => if bool_decide (a ∈ slot) then slot else slot ++ [a]) addrs slot.

(** [iter_mut().find(..)] and the pushes into the slot found. *)
Fixpoint update_slot (l : list (DomainPattern * list IpAddr)) (p : DomainPattern) (addrs : list IpAddr)
    : option (list (DomainPattern * list IpAddr)) :=
  match l with
  | [] => None
  | (q, slot) :: l =>
      if decide (q = p) then Some ((q, push_missing slot addrs) :: l)
      else cons (q, slot) <$> update_slot l p addrs
  end.

Definition entry_ge (a b : DomainPattern * list IpAddr) : bool :=
  pattern_label_count b.1 <=? pattern_label_count a.1.

Definition catch_all_error : Error :=
  config "a * entry in `hosts` would answer every name from the static table; list the domains you meant instead".

Definition hosts_insert (t : HostsTable) (pattern : list Z) (addrs : list IpAddr)
    : result Error HostsTable :=
  parsed ← pattern_parse pattern;
  match parsed with
  | PAny => Err catch_all_error
  | PExact name =>
      let slot := match bt_get (exact t) name with Some s => s | None => [] end in
      Ok (mkHosts (h_ttl t) (bt_insert (exact t) name (push_missing slot addrs)) (wildcard t))
  | p =>
      let w := match update_slot (wildcard t) p addrs with
               | Some w => w
               | None => wildcard t ++ [(p, push_missing [] addrs)]
               end in
      Ok (mkHosts (h_ttl t) (exact t) (stable_sort entry_ge w))
  end.

Fixpoint parse_addrs (l : list (list Z)) : result Error (list IpAddr) :=
  match l with
  | [] => Ok []
  | v :: l =>
      ip ← ok_or (parse_ip (trim v)) (config "hosts entry is not an IP address");
      rest ← parse_addrs l; Ok (ip :: rest)
  end.

Definition insert_from_config (t : HostsTable) (pattern : list Z) (values : list (list Z))
    : result Error HostsTable :=
  _ ← reject_if (zlen values =? 0) (config "hosts entry has no addresses");
  addrs ← parse_addrs values;
  hosts_insert t pattern addrs.

Fixpoint lookup_wildcard (l : list (DomainPattern * list IpAddr)) (name : Name) : option (list IpAddr) :=
  match l with
  | [] => None
  | (p, addrs) :: l => if pattern_matches p name then Some addrs else lookup_wildcard l name
  end.

Definition hosts_lookup (t : HostsTable) (name : Name) : option (list IpAddr) :=
  match bt_get (exact t) name with
  | Some v => Some v
  | None => lookup_wildcard (wildcard t) name
  end.

Definition hosts_contains (t : HostsTable) (name : Name) : bool :=
  bool_decide (is_Some (hosts_lookup t name)).

(** One address of the answer; other families are skipped. *)
Definition host_rdata (rr_type : RrType) (ip : IpAddr) : option RData :=
  match ip with
  | V4 a => if rr_type =? RrTypes.A then Some (RD_A (v4_octets a)) else None
  | V6 a => if rr_type =? RrTypes.AAAA then Some (RD_Aaaa (v6_octets a)) else None
  end.

Definition hosts_answer (t : HostsTable) (name : Name) (rr_type : RrType) : option (list Rr) :=
  if negb ((rr_type =? RrTypes.A) || (rr_type =? RrTypes.AAAA)) then None
  else
    match hosts_lookup t name with
    | None => None
    | Some addrs =>
        Some (omap (fun ip => (fun rd => mkRecord name rr_type RrClasses.IN_ (h_ttl t) rd)
                                <$> host_rdata rr_type ip) addrs)
    end.

(** ** Specification: the pins, in the order they were configured *)

Definition pins := list (DomainPattern * list IpAddr).

(** All the addresses pinned for a pattern, without repetitions. *)
Definition pinned (ps : pins) (p : DomainPattern) : list IpAddr :=
  fold_left (fun slot pa => if decide (pa.1 = p) then push_missing slot pa.2 else slot) ps [].

Definition has_pin (ps : pins) (p : DomainPattern) : Prop := In p (map fst ps).

(** Inserting texts one after the other; the pins are the parsed texts. *)
Inductive configured : HostsTable -> pins -> Prop :=
| ConfNew ttl : configured (hosts_new ttl) []
| ConfInsert t ps text p addrs t' :
    configured t ps -> pattern_parse text = Ok p -> hosts_insert t text addrs = Ok t' ->
    configured t' (ps ++ [(p, addrs)]).

(** ** Lemmas *)

Lemma pinned_snoc ps p addrs q :
  pinned (ps ++ [(p, addrs)]) q =
  if decide (p = q) then push_missing (pinned ps q) addrs else pinned ps q.
Proof. unfold pinned. by rewrite fold_left_app. Qed.

Lemma has_pin_snoc ps p addrs q : has_pin (ps ++ [(p, addrs)]) q <-> has_pin ps q \/ p = q.
Proof. unfold has_pin. rewrite map_app, in_app_iff. cbn. tauto. Qed.

Lemma pinned_absent ps p : ~ has_pin ps p -> pinned ps p = [].
Proof.
  intros Hn. unfold pinned. induction ps as [|[q a] ps IH] using rev_ind; [done|].
  rewrite has_pin_snoc in Hn. rewrite fold_left_app. cbn. rewrite IH by tauto.
  rewrite decide_False by tauto. done.
Qed.

Definition wild (p : DomainPattern) : Prop :=
  match p with PSubtree _ | PWildcard _ => True | _ => False end.

(** The table holds the pins. *)
Record holds (t : HostsTable) (ps : pins) : Prop := {
  holds_sorted : bt_sorted (exact t);
  holds_exact n : bt_get (exact t) n = Some (pinned ps (PExact n)) /\ has_pin ps (PExact n) \/
                  bt_get (exact t) n = None /\ ~ has_pin ps (PExact n);
  holds_wild p a : In (p, a) (wildcard t) <-> wild p /\ has_pin ps p /\ a = pinned ps p;
  holds_nodup : List.NoDup (map fst (wildcard t));
  holds_order : StronglySorted (fun a b => entry_ge a b = true) (wildcard t) }.

Lemma entry_ge_total a b : entry_ge a b = true \/ entry_ge b a = true.
Proof. unfold entry_ge. rewrite !Z.leb_le. lia. Qed.
Lemma entry_ge_trans a b c : entry_ge a b = true -> entry_ge b c = true -> entry_ge a c = true.
Proof. unfold entry_ge. rewrite !Z.leb_le. lia. Qed.
Lemma entry_ge_refl a : entry_ge a a = true.
Proof. unfold entry_ge. rewrite Z.leb_le. lia. Qed.

(** Updating a slot when every entry of the pattern has the same addresses. *)
Lemma update_slot_None l p addrs :
  update_slot l p addrs = None <-> forall a, ~ In (p, a) l.
Proof.
  induction l as [|[q slot] l IH]; cbn [update_slot].
  { split; [by intros _ a []|done]. }
  destruct (decide (q = p)) as [->|Hne].
  - split; [done|]. intros H. destruct (H slot). by left.
  - destruct (update_slot l p addrs) as [w|]; cbn.
    + split; [done|]. intros H. assert (forall a, ~ In (p, a) l) as Hl by (intros a Ha; apply (H a); by right).
      by apply IH in Hl.
    + split; [|done]. intros _ a [[= <- _]|Hin]; [done|]. by apply (proj1 IH eq_refl a).
Qed.

Lemma update_slot_Some l p addrs w old :
  update_slot l p addrs = Some w -> List.NoDup (map fst l) -> In (p, old) l ->
  map fst w = map fst l /\
  forall q a, In (q, a) w <-> (q <> p /\ In (q, a) l) \/ (q = p /\ a = push_missing old addrs).
Proof.
  revert w. induction l as [|[r slot] l IH]; intros w; cbn [update_slot]; [done|].
  cbn [map fst]. intros H Hnd Hold. inversion Hnd as [|?? Hnot Hnd']; subst.
  destruct (decide (r = p)) as [->|Hne].
  - injection H as <-. split; [done|].
    assert (slot = old) as ->.
    { destruct Hold as [[= ->]|Hin]; [done|]. destruct Hnot. apply in_map_iff. by exists (p, old). }
    intros q a. cbn [In]. split.
    + intros [[= <- <-]|Hin]; [by right|]. left. split; [|by right]. intros ->.
      destruct Hnot. apply in_map_iff. by exists (p, a).
    + intros [[Hq [[= -> ->]|Hin]]|[-> ->]]; [done|by right|by left].
  - destruct (update_slot l p addrs) as [w'|]; cbn in H; [|done]. injection H as <-.
    destruct Hold as [[= -> _]|Hold]; [done|].
    destruct (IH w' eq_refl Hnd' Hold) as [Hmap Hw]. split; [cbn; by f_equal|].
    intros q a. cbn [In]. rewrite Hw. split.
    + intros [[= <- <-]|[[? ?]|[? ?]]]; [left; split; [done|by left]|left; split; [done|by right]|by right].
    + intros [[Hq [[= -> ->]|Hin]]|[-> ->]]; [by left|right; by left|right; by right].
Qed.

Lemma holds_insert_exact t ps n addrs :
  holds t ps ->
  holds (mkHosts (h_ttl t)
           (bt_insert (exact t) n
              (push_missing (match bt_get (exact t) n with Some s => s | None => [] end) addrs))
           (wildcard t)) (ps ++ [(PExact n, addrs)]).
Proof.
  intros [Hs He Hw Hnd Ho]. constructor; cbn [exact wildcard]; try done.
  - by apply bt_insert_sorted.
  - intros m. rewrite bt_get_insert, pinned_snoc, has_pin_snoc. destruct (decide (m = n)) as [->|Hne].
    + left. rewrite decide_True by done. split; [|by right]. f_equal. f_equal.
      destruct (He n) as [[-> _]|[-> Hn]]; [done|]. by rewrite pinned_absent.
    + rewrite decide_False by congruence.
      destruct (He m) as [[-> ?]|[-> ?]]; [left|right]; (split; [done|]); [by left|].
      intros [?|[= ?]]; congruence.
  - intros p a. rewrite Hw, has_pin_snoc, pinned_snoc.
    destruct (decide (PExact n = p)) as [<-|Hne]; [cbn; tauto|]. tauto.
Qed.

Lemma NoDup_snoc {A} (l : list A) x : List.NoDup l -> ~ In x l -> List.NoDup (l ++ [x]).
Proof.
  intros Hl Hx. eapply Permutation_NoDup; [apply Permutation_cons_append|]. by constructor.
Qed.

Lemma holds_insert_wild t ps p addrs :
  wild p -> holds t ps ->
  holds (mkHosts (h_ttl t) (exact t)
           (stable_sort entry_ge (match update_slot (wildcard t) p addrs with
                                  | Some w => w | None => wildcard t ++ [(p, push_missing [] addrs)] end)))
    (ps ++ [(p, addrs)]).
Proof.
  intros Hp [Hs He Hw Hnd Ho]. set (w := match update_slot _ _ _ with Some _ => _ | None => _ end).
  assert (List.NoDup (map fst w) /\
          forall q a, In (q, a) w <-> wild q /\ has_pin (ps ++ [(p, addrs)]) q /\
                                      a = pinned (ps ++ [(p, addrs)]) q) as [Hndw Hwi].
  { setoid_rewrite has_pin_snoc. setoid_rewrite pinned_snoc. subst w.
    destruct (update_slot (wildcard t) p addrs) as [w|] eqn:E.
    - assert (In (p, pinned ps p) (wildcard t)) as Hold.
      { destruct (decide (p ∈ map fst ps)) as [Hin|Hni].
        - apply Hw. split; [done|]. split; [|done]. by apply list_elem_of_In.
        - assert (update_slot (wildcard t) p addrs = None) as En.
          { apply update_slot_None. intros a (_ & Hin & _)%Hw. by apply Hni, list_elem_of_In. }
          by rewrite En in E. }
      destruct (update_slot_Some _ _ _ _ _ E Hnd Hold) as [-> Hupd]. split; [done|].
      intros q a. rewrite Hupd, Hw. destruct (decide (p = q)) as [<-|Hne].
      + split; [intros [[? ?]|[_ ->]]; [done|tauto]|]. intros (_ & _ & ->). by right.
      + split; [intros [[? ?]|[-> _]]; [tauto|done]|].
        intros (? & [?|?] & ->); [|done]. left. split; [by intros ->|done].
    - pose proof (proj1 (update_slot_None _ _ _) E) as Hno.
      assert (~ has_pin ps p) as Habs.
      { intros Hin. by apply (Hno (pinned ps p)), Hw. }
      split.
      + rewrite map_app. apply NoDup_snoc; [done|]. intros ([q a] & Eq & Hin)%in_map_iff. cbn in Eq. subst q. by apply (Hno a).
      + intros q a. rewrite in_app_iff, Hw. cbn [In]. destruct (decide (p = q)) as [<-|Hne].
        * rewrite pinned_absent by done. split; [intros [?|[[= ->]|[]]]; tauto|].
          intros (_ & _ & ->). right. by left.
        * split; [intros [?|[[= ? ?]|[]]]; [tauto|done]|]. intros (? & [?|?] & ?); [by left|done]. }
  pose proof (stable_sort_perm entry_ge w) as Hperm.
  constructor; cbn [exact wildcard].
  - done.
  - intros n. rewrite pinned_snoc, has_pin_snoc. rewrite decide_False by (intros ->; done).
    destruct (He n) as [[-> ?]|[-> ?]]; [left; tauto|right]. split; [done|].
    intros [?| ->]; done.
  - intros q a. rewrite <- Hwi. split; apply Permutation_in; [done|by symmetry].
  - eapply Permutation_NoDup; [|exact Hndw]. apply Permutation_map. by symmetry.
  - apply stable_sort_sorted; [apply entry_ge_total|apply entry_ge_trans].
Qed.

Lemma configured_holds t ps : configured t ps -> holds t ps.
Proof.
  induction 1 as [ttl|t ps text p addrs t' _ IH Hp Hi].
  - constructor; cbn.
    + constructor.
    + intros n. right. split; [done|]. by intros [].
    + intros p a. split; [done|]. by intros (_ & [] & _).
    + constructor.
    + constructor.
  - unfold hosts_insert in Hi. rewrite Hp in Hi. cbn [mbind result_bind] in Hi.
    destruct p as [|n|n|w]; [done| | |]; injection Hi as <-.
    + by apply holds_insert_exact.
    + by apply holds_insert_wild.
    + by apply holds_insert_wild.
Qed.

Lemma configured_ttl t ps : configured t ps -> forall q a, In (q, a) ps -> q <> PAny.
Proof.
  induction 1 as [ttl|t ps text p addrs t' _ IH Hp Hi]; [done|].
  intros q a [Hin|[[= <- <-]|[]]]%in_app_or; [by eapply IH|]. intros ->.
  unfold hosts_insert in Hi. by rewrite Hp in Hi.
Qed.

Lemma lookup_wildcard_find l n :
  lookup_wildcard l n =
  match List.find (fun e : DomainPattern * list IpAddr => pattern_matches e.1 n) l with
  | Some (_, a) => Some a | None => None end.
Proof. induction l as [|[p a] l IH]; cbn; [done|]. by destruct (pattern_matches p n). Qed.

(** ** Properties *)

(** a configured table answers with the pins: the addresses pinned to
    exactly this name if any were; otherwise those of a pinned pattern that
    matches the name and has at least as many labels as any other that does;
    and it owns no other name.  Repeated pins of a key accumulate, without
    duplicates. *)
Theorem hosts_lookup_pins t ps n :
  configured t ps ->
  match hosts_lookup t n with
  | Some addrs =>
      exists p, has_pin ps p /\ pattern_matches p n = true /\ addrs = pinned ps p /\
        (p = PExact n \/
         ~ has_pin ps (PExact n) /\
         forall q, has_pin ps q -> pattern_matches q n = true ->
           pattern_label_count q <= pattern_label_count p)
  | None => forall q, has_pin ps q -> pattern_matches q n = false
  end.
Proof.
  intros Hc. pose proof (configured_ttl t ps Hc) as Hany.
  destruct (configured_holds t ps Hc) as [Hs He Hw Hnd Ho]. unfold hosts_lookup.
  destruct (He n) as [[-> Hin]|[-> Hno]].
  { exists (PExact n). split; [done|]. split; [by apply bool_decide_eq_true|]. split; [done|by left]. }
  assert (forall q, has_pin ps q -> pattern_matches q n = true -> In (q, pinned ps q) (wildcard t)) as Hq.
  { intros q Hq Hm. apply Hw. split; [|done]. destruct q as [|m|m|w]; try done.
    - apply in_map_iff in Hq as ([q a] & Eq & Hin). cbn in Eq. subst. by apply Hany in Hin.
    - cbn in Hm. apply bool_decide_eq_true in Hm as ->. done. }
  rewrite lookup_wildcard_find. destruct (List.find _ _) as [[p a]|] eqn:Ef.
  - apply (find_sorted entry_ge) in Ef as (Hin & Hm & Hmax); [|apply entry_ge_refl|done].
    apply Hw in Hin as (_ & Hp & ->). exists p. split; [done|]. split; [done|]. split; [done|]. right.
    split; [done|]. intros q Hpq Hmq. pose proof (Hmax _ (Hq q Hpq Hmq) Hmq) as Hge.
    unfold entry_ge in Hge. by bools.
  - intros q Hpq. apply not_true_iff_false. intros Hmq.
    pose proof (find_none _ _ Ef _ (Hq q Hpq Hmq)) as Hf. cbn in Hf. congruence.
Qed.

Definition demo_hosts : result Error HostsTable :=
  t ← hosts_insert (hosts_new 60) (ascii_bytes "+.example.com") [V4 1];
  t ← hosts_insert t (ascii_bytes "a.example.com") [V4 2; V6 3];
  hosts_insert t (ascii_bytes ".example.com") [V4 1; V4 4].

Definition demo_pins : pins :=
  [(PSubtree (of_labels [ascii_bytes "example"; ascii_bytes "com"]), [V4 1]);
   (PExact (of_labels [ascii_bytes "a"; ascii_bytes "example"; ascii_bytes "com"]), [V4 2; V6 3]);
   (PSubtree (of_labels [ascii_bytes "example"; ascii_bytes "com"]), [V4 1; V4 4])].

Lemma demo_configured t : demo_hosts = Ok t -> configured t demo_pins.
Proof.
  unfold demo_hosts. intros (t1 & H1 & (t2 & H2 & H3)%bind_Ok)%bind_Ok.
  apply (ConfInsert t2 (take 2 demo_pins) (ascii_bytes ".example.com")); [|by vm_compute|done].
  apply (ConfInsert t1 (take 1 demo_pins) (ascii_bytes "a.example.com")); [|by vm_compute|done].
  apply (ConfInsert (hosts_new 60) [] (ascii_bytes "+.example.com")); [|by vm_compute|done].
  constructor.
Qed.

Lemma hosts_lookup_pins_witness :
  exists t, demo_hosts = Ok t /\
    hosts_lookup t (of_labels [ascii_bytes "b"; ascii_bytes "example"; ascii_bytes "com"]) = Some [V4 1; V4 4] /\
    exists p, has_pin demo_pins p /\ [V4 1; V4 4] = pinned demo_pins p.
Proof.
  eexists. split; [vm_compute; reflexivity|]. split; [vm_compute; reflexivity|].
  pose proof (hosts_lookup_pins _ demo_pins
    (of_labels [ascii_bytes "b"; ascii_bytes "example"; ascii_bytes "com"])
    (demo_configured _ eq_refl)) as H.
  destruct H as (p & Hp & _ & Ha & _). exists p. exact (conj Hp Ha).
Defined.

(** the table manages addresses only: a query for another type is passed
    on; for [A] and [AAAA] a pinned name is answered with one record per
    pinned address of the family, in order, under the queried name and the
    table's TTL, and with no record at all (not with the other family, and not
    by the network) when none is of the family. *)
Theorem hosts_answer_spec t n ty :
  match hosts_answer t n ty with
  | None => (ty <> RrTypes.A /\ ty <> RrTypes.AAAA) \/ hosts_lookup t n = None
  | Some recs =>
      (ty = RrTypes.A \/ ty = RrTypes.AAAA) /\
      exists addrs, hosts_lookup t n = Some addrs /\
        rdata <$> recs = omap (fun ip => match ip with
          | V4 a => if decide (ty = RrTypes.A) then Some (RD_A (v4_octets a)) else None
          | V6 a => if decide (ty = RrTypes.AAAA) then Some (RD_Aaaa (v6_octets a)) else None end) addrs /\
        Forall (fun r => name r = n /\ rr_type r = ty /\ class r = RrClasses.IN_ /\ ttl r = h_ttl t) recs
  end.
Proof.
  unfold hosts_answer. destruct ((ty =? RrTypes.A) || (ty =? RrTypes.AAAA)) eqn:Et; cbn [negb].
  2: { left. by bools. }
  apply orb_prop in Et. rewrite !Z.eqb_eq in Et.
  destruct (hosts_lookup t n) as [addrs|]; [|by right].
  split; [done|]. exists addrs. split; [done|].
  assert (forall ip, host_rdata ty ip = match ip with
          | V4 a => if decide (ty = RrTypes.A) then Some (RD_A (v4_octets a)) else None
          | V6 a => if decide (ty = RrTypes.AAAA) then Some (RD_Aaaa (v6_octets a)) else None end) as Hh.
  { intros [a|a]; unfold host_rdata.
    - destruct (decide (ty = RrTypes.A)) as [->|]; [done|]. by decide_ifs.
    - destruct (decide (ty = RrTypes.AAAA)) as [->|]; [done|]. by decide_ifs. }
  induction addrs as [|ip addrs [IH1 IH2]]; cbn [omap list_omap]; [by split|].
  rewrite !Hh. destruct (match ip with V4 _ => _ | V6 _ => _ end); cbn; [|by split].
  split; [f_equal; exact IH1|]. constructor; [done|exact IH2].
Qed.
