(* ===== verification/Float64.v ===== *)
(** * [f64]

    Double-precision numbers by the Standard Library's executable
    specification of IEEE 754 (round to nearest even), with the conversions
    and the [min] and [max] of the Rust standard library. *)
From Stdlib Require Export SpecFloat.
From S2P Require Import Prelude.

Abbreviation f64 := spec_float (only parsing).

Definition f64_add (a b : f64) : f64 := SFadd 53 1024 a b.
Definition f64_sub (a b : f64) : f64 := SFsub 53 1024 a b.
Definition f64_mul (a b : f64) : f64 := SFmul 53 1024 a b.
Definition f64_div (a b : f64) : f64 := SFdiv 53 1024 a b.
Definition f64_lt (a b : f64) : bool := SFltb a b.
Definition f64_le (a b : f64) : bool := SFleb a b.
(** [z as f64] *)
Definition f64_of (z : Z) : f64 := binary_normalize 53 1024 z 0 false.

Definition is_nan (a : f64) : bool := match a with S754_nan => true | _ => false end.

(** A NaN argument gives the other one. *)
Definition f64_min (a b : f64) : f64 :=
  if is_nan a then b else if is_nan b then a else if f64_lt b a then b else a.
Definition f64_max (a b : f64) : f64 :=
  if is_nan a then b else if is_nan b then a else if f64_lt a b then b else a.

Example f64_tenths : f64_add (f64_div (f64_of 1) (f64_of 10)) (f64_div (f64_of 2) (f64_of 10))
  = S754_finite false 5404319552844596 (-54).
Proof. vm_compute. reflexivity. Qed.

Lemma f64_compare_refl a : is_nan a = false -> SFcompare a a = Some Eq.
Proof.
  destruct a as [s|s| |s m e]; try done; destruct s; cbn; try done;
    rewrite Z.compare_refl, Pos.compare_cont_refl; done.
Qed.

Lemma f64_le_refl a : is_nan a = false -> f64_le a a = true.
Proof. intros H. unfold f64_le, SFleb. by rewrite f64_compare_refl. Qed.

(** [clamp]: NaN stays NaN. *)
Definition f64_clamp (x lo hi : f64) : f64 :=
  if f64_lt x lo then lo else if f64_lt hi x then hi else x.

(** [x as u64]: towards zero, saturating, NaN to zero. *)
Definition f64_to_u64 (x : f64) : Z :=
  match x with
  | S754_finite false m e => Z.min (Z.shiftl (Zpos m) e) (2 ^ 64 - 1)
  | S754_infinity false => 2 ^ 64 - 1
  | _ => 0
  end.

Example f64_to_u64_1 : f64_to_u64 (f64_mul (f64_div (f64_of 1) (f64_of 2)) (f64_of 7)) = 3.
Proof. vm_compute. reflexivity. Qed.
