(* ===== verification/Budget.v ===== *)
(** * The resolution budget ([src/budget.rs])

    The counters of one resolution and the referral admission gate. *)
From S2P Require Import Prelude Float64.

Record FetchLimits := mkLimits {
  max_delegation_depth : Z;
  max_ns_names : Z;
  max_glue_addresses : Z;
  max_ns_address_lookups : Z;
  max_subqueries : Z;
  max_bytes : Z;
  min_glue_fraction : f64;
  small_referral_ns : Z }.

Definition limits_default : FetchLimits :=
  mkLimits 32 13 64 32 96 (Z.shiftl 1 20) (f64_div (f64_of 1) (f64_of 2)) 2.
Definition limits_none : FetchLimits := mkLimits 0 0 0 0 0 0 (f64_of 1) 0.

Inductive Exhausted :=
| Depth | NsNames | GlueAddresses | NsAddressLookups | Subqueries | Bytes.

Inductive ReferralRejected := TooManyNs | InsufficientGlue.

Inductive ReferralAdmission :=
| Accept (ns_names glue_addresses address_lookups : Z)
| Reject (r : ReferralRejected).

#[global] Instance Exhausted_eq_dec : EqDecision Exhausted.
Proof. solve_decision. Defined.
#[global] Instance ReferralRejected_eq_dec : EqDecision ReferralRejected.
Proof. solve_decision. Defined.
#[global] Instance ReferralAdmission_eq_dec : EqDecision ReferralAdmission.
Proof. solve_decision. Defined.

Record Work := mkWork {
  delegations : Z;
  referrals : Z;
  referrals_refused : Z;
  ns_names : Z;
  glue_addresses : Z;
  ns_address_lookups : Z;
  subqueries : Z;
  bytes_ : Z }.

Definition work_zero : Work := mkWork 0 0 0 0 0 0 0 0.

Definition ns_amplification (w : Work) : f64 :=
  if referrals w =? 0 then f64_of 0
  else f64_div (f64_of (ns_address_lookups w)) (f64_of (referrals w)).

Record FetchBudget := mkBudget { limits : FetchLimits; work : Work }.

Definition budget_new (l : FetchLimits) : FetchBudget := mkBudget l work_zero.

Definition is_enabled (b : FetchBudget) : bool := 0 <? max_subqueries (limits b).

(** Every charge returns its result and the budget after it. *)
Definition spend_delegation (b : FetchBudget) : result Exhausted Z * FetchBudget :=
  let w := work b in
  if max_delegation_depth (limits b) <=? delegations w then (Err Depth, b)
  else let n := delegations w + 1 in
       (Ok n, mkBudget (limits b) (mkWork n (referrals w) (referrals_refused w) (ns_names w)
                (glue_addresses w) (ns_address_lookups w) (subqueries w) (bytes_ w))).

Definition spend_subquery (b : FetchBudget) : result Exhausted unit * FetchBudget :=
  let w := work b in
  if max_subqueries (limits b) <=? subqueries w then (Err Subqueries, b)
  else (Ok tt, mkBudget (limits b) (mkWork (delegations w) (referrals w) (referrals_refused w)
          (ns_names w) (glue_addresses w) (ns_address_lookups w) (subqueries w + 1) (bytes_ w))).

Definition spend_ns_address_lookup (b : FetchBudget) (n : Z) : result Exhausted unit * FetchBudget :=
  let w := work b in
  if max_ns_address_lookups (limits b) <? sat_add 32 (ns_address_lookups w) n then (Err NsAddressLookups, b)
  else (Ok tt, mkBudget (limits b) (mkWork (delegations w) (referrals w) (referrals_refused w)
          (ns_names w) (glue_addresses w) (wrap 32 (ns_address_lookups w + n)) (subqueries w) (bytes_ w))).

Definition spend_bytes (b : FetchBudget) (n : Z) : result Exhausted unit * FetchBudget :=
  let w := work b in
  if max_bytes (limits b) <? sat_add 64 (bytes_ w) n then (Err Bytes, b)
  else (Ok tt, mkBudget (limits b) (mkWork (delegations w) (referrals w) (referrals_refused w)
          (ns_names w) (glue_addresses w) (ns_address_lookups w) (subqueries w) (wrap 64 (bytes_ w + n)))).

Definition count_referral (w : Work) : Work :=
  mkWork (delegations w) (wrap 32 (referrals w + 1)) (referrals_refused w) (ns_names w)
    (glue_addresses w) (ns_address_lookups w) (subqueries w) (bytes_ w).
Definition count_refused (w : Work) : Work :=
  mkWork (delegations w) (referrals w) (wrap 32 (referrals_refused w + 1)) (ns_names w)
    (glue_addresses w) (ns_address_lookups w) (subqueries w) (bytes_ w).
Definition count_accepted (w : Work) (ns glue : Z) : Work :=
  mkWork (delegations w) (referrals w) (referrals_refused w) (wrap 32 (ns_names w + ns))
    (wrap 32 (glue_addresses w + glue)) (ns_address_lookups w) (subqueries w) (bytes_ w).

Definition glue_slack : f64 := f64_div (f64_of 1) (f64_of 1000000000).

Definition admit_referral (b : FetchBudget) (ns_count glue_count ns_with_glue : Z)
    : ReferralAdmission * FetchBudget :=
  let w := count_referral (work b) in
  let lim := limits b in
  if max_ns_names lim <? ns_count then
    (Reject TooManyNs, mkBudget lim (count_refused w))
  else
    let unresolved := Z.max 0 (ns_count - Z.min ns_with_glue ns_count) in
    let insufficient :=
      if (small_referral_ns lim <? ns_count) && f64_lt (f64_of 0) (min_glue_fraction lim) then
        let covered := ns_count - unresolved in
        let fraction := f64_div (f64_of covered) (f64_of ns_count) in
        f64_lt (f64_add fraction glue_slack) (min_glue_fraction lim)
      else false in
    if insufficient then (Reject InsufficientGlue, mkBudget lim (count_refused w))
    else
      let glue := Z.min glue_count (max_glue_addresses lim) in
      let address_lookups := Z.min unresolved (max_ns_address_lookups lim) in
      (Accept ns_count glue address_lookups, mkBudget lim (count_accepted w ns_count glue)).

(** ** Runs *)

Inductive charge :=
| ChDelegation | ChSubquery | ChLookup (n : Z) | ChBytes (n : Z) | ChReferral (ns glue with_glue : Z).

(** What one call does: whether it was granted, and the budget after it. *)
Definition charge_step (b : FetchBudget) (c : charge) : bool * FetchBudget :=
  match c with
  | ChDelegation => let '(r, b) := spend_delegation b in (is_ok r, b)
  | ChSubquery => let '(r, b) := spend_subquery b in (is_ok r, b)
  | ChLookup n => let '(r, b) := spend_ns_address_lookup b n in (is_ok r, b)
  | ChBytes n => let '(r, b) := spend_bytes b n in (is_ok r, b)
  | ChReferral ns glue wg =>
      let '(a, b) := admit_referral b ns glue wg in
      (match a with Accept _ _ _ => true | Reject _ => false end, b)
  end.

(** The granted charges, in order, and the final budget. *)
Fixpoint run (b : FetchBudget) (cs : list charge) : list charge * FetchBudget :=
  match cs with
  | [] => ([], b)
  | c :: cs =>
      let '(ok, b) := charge_step b c in
      let '(granted, b) := run b cs in
      (if ok then c :: granted else granted, b)
  end.

(** ** Specification: the totals of the granted charges *)

Definition charge_ok (c : charge) : Prop :=
  match c with
  | ChLookup n => is_u32 n
  | ChBytes n => 0 <= n <= u64_max
  | ChReferral ns glue wg => is_u32 ns /\ is_u32 glue /\ is_u32 wg
  | _ => True
  end.

(** The limits of the right width; the two that are checked by a saturating
    addition are not the largest value (see [budget_overflow]). *)
Definition limits_ok (l : FetchLimits) : Prop :=
  is_u32 (max_delegation_depth l) /\ is_u32 (max_ns_names l) /\ is_u32 (max_glue_addresses l) /\
  0 <= max_ns_address_lookups l < u32_max /\ is_u32 (max_subqueries l) /\ 0 <= max_bytes l < u64_max.

Definition total (f : charge -> Z) (cs : list charge) : Z := fold_right (fun c acc => f c + acc) 0 cs.
Definition delegation_cost (c : charge) : Z := match c with ChDelegation => 1 | _ => 0 end.
Definition subquery_cost (c : charge) : Z := match c with ChSubquery => 1 | _ => 0 end.
Definition lookup_cost (c : charge) : Z := match c with ChLookup n => n | _ => 0 end.
Definition byte_cost (c : charge) : Z := match c with ChBytes n => n | _ => 0 end.

Record budget_ok (b : FetchBudget) : Prop := {
  bo_delegations : 0 <= delegations (work b) <= max_delegation_depth (limits b);
  bo_subqueries : 0 <= subqueries (work b) <= max_subqueries (limits b);
  bo_lookups : 0 <= ns_address_lookups (work b) <= max_ns_address_lookups (limits b);
  bo_bytes : 0 <= bytes_ (work b) <= max_bytes (limits b) }.

(** One call moves each counter by exactly what it granted, and refuses only
    what does not fit. *)
Definition step_exact (b : FetchBudget) (c : charge) (ok : bool) (b' : FetchBudget) : Prop :=
  let d f := if ok then f c else 0 in
  limits b' = limits b /\
  delegations (work b') = delegations (work b) + d delegation_cost /\
  subqueries (work b') = subqueries (work b) + d subquery_cost /\
  ns_address_lookups (work b') = ns_address_lookups (work b) + d lookup_cost /\
  bytes_ (work b') = bytes_ (work b) + d byte_cost.

Lemma charge_step_exact b c :
  limits_ok (limits b) -> budget_ok b -> charge_ok c ->
  let '(ok, b') := charge_step b c in
  budget_ok b' /\ step_exact b c ok b' /\
  match c with
  | ChDelegation => ok = true <-> delegations (work b) + 1 <= max_delegation_depth (limits b)
  | ChSubquery => ok = true <-> subqueries (work b) + 1 <= max_subqueries (limits b)
  | ChLookup n => ok = true <-> ns_address_lookups (work b) + n <= max_ns_address_lookups (limits b)
  | ChBytes n => ok = true <-> bytes_ (work b) + n <= max_bytes (limits b)
  | ChReferral _ _ _ => True
  end.
Proof.
  intros (L1 & L2 & L3 & L4 & L5 & L6) [B1 B2 B3 B4] Hc. unfold is_u32, u32_max, u64_max in *.
  destruct c as [| |n|n|ns glue wg]; cbn [charge_step charge_ok] in *.
  - unfold spend_delegation. destruct (_ <=? _) eqn:E; bools; cbn; unfold step_exact; cbn;
      conjs; try done; try (split; [done|]); try lia; constructor; cbn; lia.
  - unfold spend_subquery. destruct (_ <=? _) eqn:E; bools; cbn; unfold step_exact; cbn;
      conjs; try done; try (split; [done|]); try lia; constructor; cbn; lia.
  - unfold spend_ns_address_lookup, sat_add. unfold is_u32 in Hc.
    destruct (_ <? _) eqn:E; bools; cbn; unfold step_exact, wrap; cbn; rewrite ?Z.mod_small by lia;
      conjs; try done; try (split; [done|]); try lia; constructor; cbn; rewrite ?Z.mod_small by lia; lia.
  - unfold spend_bytes, sat_add.
    destruct (_ <? _) eqn:E; bools; cbn; unfold step_exact, wrap; cbn; rewrite ?Z.mod_small by lia;
      conjs; try done; try (split; [done|]); try lia; constructor; cbn; rewrite ?Z.mod_small by lia; lia.
  - unfold admit_referral. cbn zeta. destruct (max_ns_names (limits b) <? ns);
      [|match goal with |- context [if ?c then (Reject _, _) else _] => destruct c end];
      cbn; unfold step_exact; cbn; conjs; try done; try lia; constructor; cbn; lia.
Qed.

Lemma run_exact b cs :
  limits_ok (limits b) -> budget_ok b -> Forall charge_ok cs ->
  let '(granted, b') := run b cs in
  budget_ok b' /\ limits b' = limits b /\
  delegations (work b') = delegations (work b) + total delegation_cost granted /\
  subqueries (work b') = subqueries (work b) + total subquery_cost granted /\
  ns_address_lookups (work b') = ns_address_lookups (work b) + total lookup_cost granted /\
  bytes_ (work b') = bytes_ (work b) + total byte_cost granted.
Proof.
  intros Hl Hb Hcs. revert b Hl Hb. induction Hcs as [|c cs Hc Hcs IH]; intros b Hl Hb; cbn [run].
  { cbn. conjs; try done; lia. }
  pose proof (charge_step_exact b c Hl Hb Hc) as Hs. destruct (charge_step b c) as [ok b1].
  destruct Hs as (Hb1 & (El & Hd & Hq & Hn & Hy) & _).
  specialize (IH b1). rewrite El in IH. specialize (IH Hl Hb1). destruct (run b1 cs) as [granted b'].
  destruct IH as (Hb' & El' & Hd' & Hq' & Hn' & Hy'). rewrite Hd', Hq', Hn', Hy', El'.
  split; [done|]. split; [done|]. destruct ok; cbn [total fold_right] in *; cbn beta iota zeta in Hd, Hq, Hn, Hy; unfold total in *; conjs; lia.
Qed.

Lemma budget_new_ok l : limits_ok l -> budget_ok (budget_new l).
Proof. unfold limits_ok, is_u32. intros (? & ? & ? & ? & ? & ?). constructor; cbn; lia. Qed.

(** The gate's float comparison at the default limits, by cases. *)
Definition default_gate (ns covered : Z) : bool :=
  f64_lt (f64_add (f64_div (f64_of covered) (f64_of ns)) glue_slack) (min_glue_fraction limits_default).

Lemma default_gate_half ns covered :
  1 <= ns <= 13 -> 0 <= covered <= ns -> default_gate ns covered = (2 * covered <? ns).
Proof.
  intros Hn Hc.
  assert (forallb (fun n => forallb (fun c => Bool.eqb (default_gate n c) (2 * c <? n)) (seqZ 0 14))
            (seqZ 1 13) = true) as H by (vm_compute; reflexivity).
  rewrite forallb_forall in H. specialize (H ns ltac:(apply list_elem_of_In, elem_of_seqZ; lia)).
  rewrite forallb_forall in H. specialize (H covered ltac:(apply list_elem_of_In, elem_of_seqZ; lia)).
  by apply Bool.eqb_prop in H.
Qed.

(** ** Properties *)

(** a resolution never does more work than its limits: over any sequence
    of charges the counters equal the totals of the charges that were granted
    and stay within the limits, so the granted work is bounded whatever the
    zone data; the next charge is granted exactly when it fits; and a budget
    with no limits configured grants nothing. *)
Theorem budget_bounds_work l cs :
  limits_ok l -> Forall charge_ok cs ->
  let '(granted, b) := run (budget_new l) cs in
  (total delegation_cost granted = delegations (work b) /\ delegations (work b) <= max_delegation_depth l) /\
  (total subquery_cost granted = subqueries (work b) /\ subqueries (work b) <= max_subqueries l) /\
  (total lookup_cost granted = ns_address_lookups (work b) /\ ns_address_lookups (work b) <= max_ns_address_lookups l) /\
  (total byte_cost granted = bytes_ (work b) /\ bytes_ (work b) <= max_bytes l) /\
  (forall n, is_u32 n ->
     ((charge_step b ChSubquery).1 = true <-> subqueries (work b) + 1 <= max_subqueries l) /\
     ((charge_step b ChDelegation).1 = true <-> delegations (work b) + 1 <= max_delegation_depth l) /\
     ((charge_step b (ChLookup n)).1 = true <-> ns_address_lookups (work b) + n <= max_ns_address_lookups l)) /\
  (l = limits_none -> total subquery_cost granted = 0 /\ is_enabled b = false).
Proof.
  intros Hl Hcs. pose proof (run_exact (budget_new l) cs Hl (budget_new_ok l Hl) Hcs) as H.
  destruct (run (budget_new l) cs) as [granted b].
  destruct H as (Hb & El & Hd & Hq & Hn & Hy). cbn in Hd, Hq, Hn, Hy, El. pose proof Hb as [B1 B2 B3 B4].
  rewrite El in B1, B2, B3, B4. split; [lia|]. split; [lia|]. split; [lia|]. split; [lia|]. split.
  - intros n Hn32. rewrite <- El in Hl.
    pose proof (charge_step_exact b ChSubquery Hl Hb I) as S1.
    pose proof (charge_step_exact b ChDelegation Hl Hb I) as S2.
    pose proof (charge_step_exact b (ChLookup n) Hl Hb Hn32) as S3.
    destruct (charge_step b ChSubquery), (charge_step b ChDelegation), (charge_step b (ChLookup n)).
    cbn [fst]. rewrite El in S1, S2, S3. tauto.
  - intros ->. unfold is_enabled. rewrite El. cbn [limits_none max_subqueries] in B2. split; [lia|done].
Qed.

Lemma budget_bounds_work_witness :
  (run (budget_new limits_default) (repeat (ChLookup 20) 3)).1 = [ChLookup 20] /\
  total lookup_cost [ChLookup 20] <= 32.
Proof.
  assert ((run (budget_new limits_default) (repeat (ChLookup 20) 3)).1 = [ChLookup 20]) as E
    by (vm_compute; reflexivity).
  split; [exact E|].
  assert (limits_ok limits_default) as Hl
    by (repeat split; vm_compute; discriminate || reflexivity).
  assert (Forall charge_ok (repeat (ChLookup 20) 3)) as Hc
    by (repeat constructor; unfold charge_ok, is_u32; lia).
  pose proof (budget_bounds_work limits_default (repeat (ChLookup 20) 3) Hl Hc) as H.
  destruct (run (budget_new limits_default) (repeat (ChLookup 20) 3)) as [granted b].
  cbn [fst] in E. subst granted. destruct H as (_ & _ & (E3 & L3) & _). rewrite E3. exact L3.
Defined.

(** the referral gate at the default limits: a referral is accepted exactly
    when it names at most 13 servers and either at most 2 or at least half of
    them come with an address; an accepted one is granted at most 64 glue
    addresses and at most one lookup per unglued server, and acceptance charges
    no lookup by itself. *)
Theorem referral_gate_default b ns glue with_glue :
  limits b = limits_default -> is_u32 ns -> is_u32 glue -> is_u32 with_glue ->
  let '(a, b') := admit_referral b ns glue with_glue in
  let covered := Z.min with_glue ns in
  ns_address_lookups (work b') = ns_address_lookups (work b) /\
  referrals (work b') = wrap 32 (referrals (work b) + 1) /\
  match a with
  | Accept n g l => (ns <= 2 \/ ns <= 13 /\ ns <= 2 * covered) /\ n = ns /\
                    g = Z.min glue 64 /\ l = ns - covered
  | Reject TooManyNs => 13 < ns
  | Reject InsufficientGlue => 2 < ns <= 13 /\ 2 * covered < ns
  end.
Proof.
  unfold is_u32. intros Hl Hns Hg Hw. unfold admit_referral. rewrite Hl. cbn zeta.
  cbn [max_ns_names small_referral_ns limits_default max_glue_addresses max_ns_address_lookups].
  destruct (13 <? ns) eqn:E13; bools; [cbn; conjs; done|].
  replace (Z.max 0 (ns - Z.min with_glue ns)) with (ns - Z.min with_glue ns) by lia.
  replace (ns - (ns - Z.min with_glue ns)) with (Z.min with_glue ns) by lia.
  change (f64_lt (f64_of 0) (min_glue_fraction (mkLimits _ _ _ _ _ _ _ _))) with true.
  rewrite andb_true_r. destruct (2 <? ns) eqn:E2; bools.
  - change (f64_lt (f64_add (f64_div (f64_of (Z.min with_glue ns)) (f64_of ns)) glue_slack) _)
      with (default_gate ns (Z.min with_glue ns)).
    rewrite default_gate_half by lia. destruct (_ <? ns) eqn:Eh; bools; cbn; conjs; try done; lia.
  - cbn. conjs; try done; lia.
Qed.

Lemma referral_gate_default_witness :
  admit_referral (budget_new limits_default) 13 0 0 =
    (Reject InsufficientGlue, mkBudget limits_default (mkWork 0 1 1 0 0 0 0 0)) /\
  (2 < 13 <= 13 /\ 2 * Z.min 0 13 < 13).
Proof.
  split; [vm_compute; reflexivity|].
  pose proof (referral_gate_default (budget_new limits_default) 13 0 0 eq_refl ltac:(unfold is_u32; lia)
    ltac:(unfold is_u32; lia) ltac:(unfold is_u32; lia)) as H.
  assert (admit_referral (budget_new limits_default) 13 0 0 =
    (Reject InsufficientGlue, mkBudget limits_default (mkWork 0 1 1 0 0 0 0 0))) as E by (vm_compute; reflexivity).
  rewrite E in H. exact (proj2 (proj2 H)).
Defined.

(** at the largest limit the saturating check cannot refuse, and the
    addition that follows it wraps: the counter of lookups of a resolution with
    [u32::MAX] lookups allowed goes back to a small value. *)
Theorem budget_overflow :
  let l := mkLimits 32 13 64 u32_max 96 (Z.shiftl 1 20) (f64_of 0) 2 in
  (run (budget_new l) [ChLookup u32_max; ChLookup 5]).1 = [ChLookup u32_max; ChLookup 5] /\
  ns_address_lookups (work (run (budget_new l) [ChLookup u32_max; ChLookup 5]).2) = 4.
Proof. split; vm_compute; reflexivity. Qed.
