(* ===== verification/Policy.v ===== *)
(** * Query policy and rate limiting ([src/policy.rs])

    Token buckets (in double precision, as the code has them), the bounded
    table of them, name blocking and the validation of client queries. *)
From stdpp Require Import gmap.
From S2P Require Import Prelude Wire Prng Name Compress Qtype Edns Bitmap RData Rr Message BTree Bounded Time Addr Float64.

Definition BUCKET_RETENTION_SECS : Z := 60.
Definition EVICT_STRIDE : Z := 8.

(** ** Token buckets *)

Record TokenBucket := mkBucket {
  tb_capacity : f64;
  tokens : f64;
  tb_refill_per_sec : f64;
  last_refill : Z }.

Definition bucket_new (capacity refill_per_sec : f64) (now : Z) : TokenBucket :=
  mkBucket (f64_max capacity (f64_of 1)) (f64_max capacity (f64_of 1))
    (f64_max refill_per_sec (f64_of 0)) now.

Definition refill (b : TokenBucket) (now : Z) : TokenBucket :=
  if last_refill b <? now then
    let dt := f64_div (f64_of (signed 128 (now - last_refill b))) (f64_of 1000000000) in
    mkBucket (tb_capacity b)
      (f64_min (f64_add (tokens b) (f64_mul dt (tb_refill_per_sec b))) (tb_capacity b))
      (tb_refill_per_sec b) now
  else b.

Definition bucket_take (b : TokenBucket) (n : f64) (now : Z) : bool * TokenBucket :=
  let b := refill b now in
  if f64_le n (tokens b) then
    (true, mkBucket (tb_capacity b) (f64_sub (tokens b) n) (tb_refill_per_sec b) (last_refill b))
  else (false, b).

Definition level (b : TokenBucket) (now : Z) : f64 := tokens (refill b now).

(** ** The limiter *)

Record RateLimiter := mkLimiter {
  buckets : list (Z * TokenBucket);
  rl_capacity : f64;
  rl_refill_per_sec : f64;
  max_buckets : Z }.

Definition limiter_new (capacity refill_per_sec : f64) (max_buckets : Z) : RateLimiter :=
  mkLimiter [] (f64_max capacity (f64_of 1)) (f64_max refill_per_sec (f64_of 0)) (Z.max max_buckets 1).

Definition set_buckets (l : RateLimiter) (m : list (Z * TokenBucket)) : RateLimiter :=
  mkLimiter m (rl_capacity l) (rl_refill_per_sec l) (max_buckets l).

Definition allow (l : RateLimiter) (key now : Z) : bool * RateLimiter :=
  let m :=
    if bt_contains_key (buckets l) key then buckets l
    else
      let m := if max_buckets l <=? zlen (buckets l)
               then (evict_for_capacity last_refill (buckets l)
                       (ts_saturating_sub now (BUCKET_RETENTION_SECS * 1000000000)) EVICT_STRIDE).2
               else buckets l in
      bt_insert m key (bucket_new (rl_capacity l) (rl_refill_per_sec l) now) in
  match bt_get m key with
  | Some b => let '(ok, b) := bucket_take b (f64_of 1) now in (ok, set_buckets l (bt_insert m key b))
  | None => (false, set_buckets l m)
  end.

Definition limiter_len (l : RateLimiter) : Z := zlen (buckets l).

Definition hash_ip (ip : IpAddr) : Z :=
  match ip with V4 v => fnv1a64 (v4_octets v) | V6 v => fnv1a64 (v6_octets v) end.

(** ** Filtering and validation *)

Record BlockRule := mkBlock { suffix : Name; exact : bool }.
Definition block_subtree (n : Name) : BlockRule := mkBlock n false.
Definition block_exact (n : Name) : BlockRule := mkBlock n true.

Record PolicyConfig := mkPolicyConfig {
  block : list BlockRule;
  max_qname_labels : Z;
  enforce_single_question : bool;
  enforce_query_opcode : bool }.

Definition policy_default : PolicyConfig := mkPolicyConfig [] 127 true true.

Definition is_blocked (c : PolicyConfig) (n : Name) : bool :=
  existsb (fun r => if exact r then bool_decide (suffix r = n) else is_subdomain_of n (suffix r)) (block c).

Definition client_allowed (l : RateLimiter) (ip : IpAddr) (now : Z) : bool * RateLimiter :=
  allow l (hash_ip ip) now.

Definition policy_error (msg : string) : Error := mkError Policy msg.

Definition validate_query (c : PolicyConfig) (m : Message) : result Error unit :=
  _ ← reject_if (enforce_query_opcode c && negb (opcode (flags m) =? Opcodes.QUERY))
        (policy_error "only QUERY opcode is supported");
  _ ← reject_if (enforce_single_question c && negb (zlen (questions m) =? 1))
        (policy_error "exactly one question required");
  match question m with
  | Some q =>
      _ ← reject_if (max_qname_labels c <? label_count (qname q))
            (policy_error "query name has too many labels");
      reject_if ((qtype q =? RrTypes.AXFR) || (qtype q =? RrTypes.IXFR))
        (policy_error "zone transfers are not served")
  | None => Ok tt
  end.

(** ** Lemmas *)

Lemma f64_one : f64_of 1 = S754_finite false 4503599627370496 (-52).
Proof. vm_compute. reflexivity. Qed.

(** [max(1.0)] is at least 1, whatever the other number (a NaN included). *)
Lemma f64_max_one c : f64_le (f64_of 1) (f64_max c (f64_of 1)) = true.
Proof.
  rewrite f64_one. unfold f64_max. destruct (is_nan c) eqn:En; [vm_compute; reflexivity|].
  cbn [is_nan]. destruct (f64_lt c _) eqn:El; [vm_compute; reflexivity|].
  revert El. unfold f64_lt, f64_le, SFltb, SFleb.
  destruct c as [s|s| |s m e]; [by destruct s..|done|]. destruct s; [done|]. cbn [SFcompare].
  rewrite (Z.compare_antisym e (-52)). destruct (e ?= -52) eqn:E; cbn [CompOpp]; try done.
  generalize 4503599627370496%positive as k. intros k.
  pose proof (Pos.compare_antisym m k) as Ha. unfold Pos.compare in Ha. rewrite Ha.
  by destruct (Pos.compare_cont Eq m k).
Qed.

(** A new bucket has not been refilled and holds its burst. *)
Lemma bucket_new_take c r now : (bucket_take (bucket_new c r now) (f64_of 1) now).1 = true.
Proof.
  unfold bucket_take, refill, bucket_new. cbn [last_refill]. rewrite Z.ltb_irrefl. cbn [tokens].
  by rewrite f64_max_one.
Qed.

Record limiter_ok (l : RateLimiter) : Prop := {
  lo_sorted : bt_sorted (buckets l);
  lo_len : zlen (buckets l) <= max_buckets l;
  lo_max : 1 <= max_buckets l }.

Lemma limiter_new_ok c r m : limiter_ok (limiter_new c r m).
Proof. constructor; cbn; [constructor| |]; rewrite ?zlen_nil; lia. Qed.

(** The table [allow] works on: there is room for the caller. *)
Definition with_room (l : RateLimiter) (now : Z) : list (Z * TokenBucket) :=
  if max_buckets l <=? zlen (buckets l)
  then (evict_for_capacity last_refill (buckets l)
          (ts_saturating_sub now (BUCKET_RETENTION_SECS * 1000000000)) EVICT_STRIDE).2
  else buckets l.

Lemma with_room_ok l now :
  limiter_ok l -> bt_sorted (with_room l now) /\ zlen (with_room l now) < max_buckets l /\
  forall kv, In kv (with_room l now) -> In kv (buckets l).
Proof.
  intros [Hs Hl Hm]. unfold with_room. destruct (_ <=? _) eqn:E; bools; [|done].
  split; [by apply evict_sorted|]. split; [|intros kv; by apply evict_incl].
  eapply Z.lt_le_trans; [|exact Hl]. apply evict_shrinks; [done|].
  intros Hn. rewrite Hn, zlen_nil in *. lia.
Qed.

Lemma allow_ok l key now :
  limiter_ok l ->
  limiter_ok (allow l key now).2 /\ max_buckets (allow l key now).2 = max_buckets l /\
  rl_capacity (allow l key now).2 = rl_capacity l /\
  (bt_contains_key (buckets l) key = false -> (allow l key now).1 = true) /\
  (bt_contains_key (buckets l) key = true ->
     (forall k, k <> key -> bt_get (buckets (allow l key now).2) k = bt_get (buckets l) k) /\
     exists b, bt_get (buckets l) key = Some b /\ (allow l key now).1 = (bucket_take b (f64_of 1) now).1 /\
       bt_get (buckets (allow l key now).2) key = Some (bucket_take b (f64_of 1) now).2).
Proof.
  intros Hok. pose proof Hok as [Hs Hl Hm].
  pose proof (with_room_ok l now Hok) as (Hs' & Hl' & Hin).
  unfold allow. fold (with_room l now). cbn zeta. destruct (bt_contains_key (buckets l) key) eqn:Ec.
  - pose proof Ec as Ec'. unfold bt_contains_key in Ec. destruct (bt_get (buckets l) key) as [b|] eqn:Eg; [|done].
    destruct (bucket_take b (f64_of 1) now) as [ok b'] eqn:Et. cbn [fst snd set_buckets buckets max_buckets rl_capacity].
    split; [|split; [done|split; [done|split; [done|]]]].
    + constructor; cbn; [by apply bt_insert_sorted| |done].
      rewrite zlen_bt_insert, Ec' by done. done.
    + intros _. split; [intros k Hk; rewrite bt_get_insert; by rewrite decide_False|].
      exists b. split; [done|]. split; [by rewrite Et|]. by rewrite bt_get_insert, decide_True, Et.
  - set (b := bucket_new (rl_capacity l) (rl_refill_per_sec l) now).
    rewrite bt_get_insert, decide_True by done.
    pose proof (bucket_new_take (rl_capacity l) (rl_refill_per_sec l) now) as Ht. fold b in Ht.
    destruct (bucket_take b (f64_of 1) now) as [ok b']. cbn [fst snd set_buckets buckets max_buckets rl_capacity] in *.
    split; [|done]. assert (bt_get (with_room l now) key = None) as Hnone.
    { destruct (bt_get (with_room l now) key) as [v|] eqn:Ev; [|done].
      apply bt_get_In, Hin, bt_In_get in Ev; [|done]. unfold bt_contains_key in Ec. by rewrite Ev in Ec. }
    constructor; cbn; [by apply bt_insert_sorted, bt_insert_sorted| |done].
    rewrite zlen_bt_insert by (by apply bt_insert_sorted). unfold bt_contains_key at 1.
    rewrite bt_get_insert, decide_True, zlen_bt_insert by done. unfold bt_contains_key.
    rewrite Hnone. lia.
Qed.

(** Requests served one after the other: caller and time. *)
Fixpoint serve (l : RateLimiter) (reqs : list (Z * Z)) : list bool * RateLimiter :=
  match reqs with
  | [] => ([], l)
  | (key, now) :: reqs =>
      let '(ok, l) := allow l key now in
      let '(oks, l) := serve l reqs in (ok :: oks, l)
  end.

Lemma serve_ok l reqs :
  limiter_ok l -> limiter_ok (serve l reqs).2 /\ max_buckets (serve l reqs).2 = max_buckets l.
Proof.
  revert l. induction reqs as [|[key now] reqs IH]; intros l Hok; cbn [serve]; [done|].
  pose proof (allow_ok l key now Hok) as (Hok' & Hm & _).
  destruct (allow l key now) as [ok l']. cbn [snd] in *.
  destruct (IH l' Hok') as [Ho Hmm]. destruct (serve l' reqs). cbn in *. by rewrite Hmm, Hm.
Qed.

(** ** Properties *)

(** whatever the traffic, the bucket table never outgrows its bound, every
    caller that has no bucket is served, and serving a caller that has one
    charges that bucket alone. *)
Theorem limiter_bounded c r m reqs key now :
  let l := (serve (limiter_new c r m) reqs).2 in
  limiter_len l <= Z.max m 1 /\
  (bt_contains_key (buckets l) key = false -> (allow l key now).1 = true) /\
  (bt_contains_key (buckets l) key = true ->
     (forall k, k <> key -> bt_get (buckets (allow l key now).2) k = bt_get (buckets l) k) /\
     exists b, bt_get (buckets l) key = Some b /\ (allow l key now).1 = (bucket_take b (f64_of 1) now).1 /\
       bt_get (buckets (allow l key now).2) key = Some (bucket_take b (f64_of 1) now).2).
Proof.
  cbn zeta. destruct (serve_ok _ reqs (limiter_new_ok c r m)) as [Hok Hm].
  split.
  - unfold limiter_len. pose proof (lo_len _ Hok) as Hl. rewrite Hm in Hl. exact Hl.
  - pose proof (allow_ok _ key now Hok) as (_ & _ & _ & H1 & H2). done.
Qed.

(** dropping an idle bucket is not always free: with a burst of 100 and one
    token a second, a client that spent its burst and comes back 61 seconds
    later has 61 requests left to make if its bucket was kept, and a full burst
    of 100 if another client made the table drop it. *)
Theorem idle_eviction_refunds_burst :
  let s := 1000000000 in
  let burst (key t n : Z) := repeat (key, t) (Z.to_nat n) in
  let served l reqs := zlen (List.filter (fun ok : bool => ok) (serve l reqs).1) in
  let spent m := (serve (limiter_new (f64_of 100) (f64_of 1) m) (burst 1 0 100)).2 in
  let other l := (allow l 2 (61 * s)).2 in
  served (spent 2) (burst 1 0 1) = 0 /\
  served (other (spent 2)) (burst 1 (61 * s) 150) = 61 /\
  served (other (spent 1)) (burst 1 (61 * s) 150) = 100.
Proof. vm_compute. repeat split. Qed.

(** a client query passes validation exactly when its opcode and question
    count are the ones enforced and its first question, if any, has an allowed
    number of labels and asks for no zone transfer; every refusal is a policy
    error. *)
Theorem validate_query_spec c m :
  (validate_query c m = Ok tt <->
    (enforce_query_opcode c = true -> opcode (flags m) = Opcodes.QUERY) /\
    (enforce_single_question c = true -> zlen (questions m) = 1) /\
    forall q, question m = Some q ->
      label_count (qname q) <= max_qname_labels c /\
      qtype q <> RrTypes.AXFR /\ qtype q <> RrTypes.IXFR) /\
  (forall e, validate_query c m = Err e -> err_kind e = Policy).
Proof.
  unfold validate_query, reject_if.
  destruct (enforce_query_opcode c && _)%bool eqn:E1; cbn [mbind result_bind].
  { split; [|by intros e [= <-]]. split; [done|]. intros (H & _). exfalso.
    apply andb_prop in E1 as [Ht E1]. bools. by apply E1, H. }
  destruct (enforce_single_question c && _)%bool eqn:E2; cbn [mbind result_bind].
  { split; [|by intros e [= <-]]. split; [done|]. intros (_ & H & _). exfalso.
    apply andb_prop in E2 as [Ht E2]. bools. by apply E2, H. }
  assert (enforce_query_opcode c = true -> opcode (flags m) = Opcodes.QUERY) as H1.
  { intros Heq. rewrite Heq in E1. cbn in E1. by bools. }
  assert (enforce_single_question c = true -> zlen (questions m) = 1) as H2.
  { intros Heq. rewrite Heq in E2. cbn in E2. by bools. }
  destruct (question m) as [q|]; [|split; [split; [|done]; intros _; by conjs|done]].
  destruct (_ <? _) eqn:E3; cbn [mbind result_bind]; bools.
  { split; [|by intros e [= <-]]. split; [done|]. intros (_ & _ & H). specialize (H q eq_refl). lia. }
  destruct (_ || _)%bool eqn:E4.
  { split; [|by intros e [= <-]]. split; [done|]. intros (_ & _ & H). destruct (H q eq_refl) as (_ & Ha & Hi).
    apply orb_prop in E4 as [E4|E4]; bools; done. }
  bools. split; [|done]. split; [|done]. intros _. split; [done|]. split; [done|].
  intros q' [= <-]. done.
Qed.
