(* ===== verification/Rsa.v ===== *)
(** * RSA PKCS#1 v1.5 verification ([src/dnssec/rsa.rs])

    The whole module: the RFC 3110 key parser, the limb arithmetic (a number is
    its little-endian list of 32-bit limbs), the bitwise long division, the
    square-and-multiply exponentiation, and the structural check of the encoded
    message.  [limbs_val] and [be_val] give the numbers the lists stand for. *)
From S2P Require Import Prelude.

(** ** Keys *)

Definition DIGEST_INFO_SHA256 : list Z :=
  [48; 49; 48; 13; 6; 9; 96; 134; 72; 1; 101; 3; 4; 2; 1; 5; 0; 4; 32].

Definition exp_field (public_key : list Z) : option (Z * Z) :=
  match public_key with
  | [] => None
  | n :: _ =>
      if n =? 0 then
        match get public_key 1, get public_key 2 with
        | Some hi, Some lo => Some (be_val [hi; lo], 3)
        | _, _ => None
        end
      else Some (n, 1)
  end.

Definition parse_dnskey_rsa (public_key : list Z) : option (list Z * list Z) :=
  match exp_field public_key with
  | None => None
  | Some (exp_len, exp_off) =>
      if exp_len =? 0 then None else
      match checked_add exp_off exp_len with
      | None => None
      | Some exp_end =>
          if exp_end + 1 >? zlen public_key then None else
          match get_range public_key exp_off exp_end, get_from public_key exp_end with
          | Some exponent, Some modulus =>
              if zlen modulus <? 3 then None else Some (modulus, exponent)
          | _, _ => None
          end
      end
  end.

(** ** Limbs *)

(** [bytes.rchunks(4)], on the reversed bytes. *)
Fixpoint rchunks4 (rev_bytes : list Z) : list (list Z) :=
  match rev_bytes with
  | [] => []
  | a :: b :: c :: d :: r => [d; c; b; a] :: rchunks4 r
  | r => [reverse r]
  end.

Definition limb_of (group : list Z) : Z :=
  fold_left (fun v b => Z.lor (wrap 32 (Z.shiftl v 8)) b) group 0.

(** The loop of [trim], on the reversed limbs. *)
Fixpoint trim_rev (l : list Z) : list Z :=
  match l with
  | x :: ((_ :: _) as t) => if x =? 0 then trim_rev t else l
  | _ => l
  end.
Definition trim (limbs : list Z) : list Z := reverse (trim_rev (reverse limbs)).

Fixpoint trim_len_from (a : list Z) (n : nat) : nat :=
  match n with
  | S ((S _) as m) => if bool_decide (a !! m = Some 0) then trim_len_from a m else n
  | _ => n
  end.
Definition trim_len (a : list Z) : nat := trim_len_from a (length a).

Definition to_limbs_be (bytes : list Z) : list Z :=
  let limbs := trim (map limb_of (rchunks4 (reverse bytes))) in
  match limbs with [] => [0] | _ => limbs end.

Fixpoint skip_zeros (l : list Z) : list Z :=
  match l with x :: t => if x =? 0 then skip_zeros t else l | [] => [] end.

(** Without leading zeros, but with at least one byte: the tail of both
    [to_be_bytes] and [trim_leading_zeros]. *)
Definition trim_leading_zeros (bytes : list Z) : list Z :=
  match skip_zeros bytes with [] => [0] | l => l end.

Definition to_be_bytes (limbs : list Z) : list Z :=
  trim_leading_zeros (concat (map (be_bytes 4) (reverse limbs))).

Fixpoint cmp_pairs (a b : list Z) : comparison :=
  match a, b with
  | x :: a, y :: b => match x ?= y with Eq => cmp_pairs a b | o => o end
  | _, _ => Eq
  end.

Definition cmp_limbs (a b : list Z) : comparison :=
  let la := trim_len a in
  let lb := trim_len b in
  if (la =? lb)%nat
  then cmp_pairs (reverse (take la a)) (reverse (take lb b))
  else (la ?= lb)%nat.

Definition bit_at (limbs : list Z) (index : nat) : bool :=
  match limbs !! (index / 32)%nat with
  | Some limb => Z.land (Z.shiftr limb (Z.of_nat (index mod 32)%nat)) 1 =? 1
  | None => false
  end.

(** One row of the schoolbook product: the limbs of [b] into the slots. *)
Fixpoint mul_row (slots bs : list Z) (av carry : Z) : list Z * Z :=
  match slots, bs with
  | slot :: slots, bv :: bs =>
      let cur := wrap 64 (slot + av * bv + carry) in
      let '(r, c) := mul_row slots bs av (Z.shiftr cur 32) in
      (wrap 32 cur :: r, c)
  | _, _ => (slots, carry)
  end.

Fixpoint carry_row (slots : list Z) (carry : Z) : list Z :=
  match slots with
  | slot :: t =>
      if carry =? 0 then slots else
      let cur := wrap 64 (slot + carry) in
      wrap 32 cur :: carry_row t (Z.shiftr cur 32)
  | [] => []
  end.

Fixpoint mul_rows (i : nat) (avs bs out : list Z) : list Z :=
  match avs with
  | [] => out
  | av :: avs =>
      let '(row, carry) := mul_row (drop i out) bs av 0 in
      let out := take i out ++ row in
      let out := take (i + length bs) out ++ carry_row (drop (i + length bs) out) carry in
      mul_rows (S i) avs bs out
  end.

Definition mul_limbs (a b : list Z) : list Z :=
  let la := trim_len a in
  let lb := trim_len b in
  trim (mul_rows 0 (take la a) (take lb b) (replicate (la + lb) 0)).

(** [for (slot, &v) in slots.iter_mut().zip(vs) { f }]. *)
Fixpoint zip_update (f : Z -> Z -> Z) (slots vs : list Z) : list Z :=
  match slots, vs with
  | s :: slots, v :: vs => f s v :: zip_update f slots vs
  | _, _ => slots
  end.
Definition update_from (n : nat) (f : Z -> Z -> Z) (slots vs : list Z) : list Z :=
  take n slots ++ zip_update f (drop n slots) vs.

Definition shl_limbs (a : list Z) (bits : Z) : list Z :=
  if bits =? 0 then a else
  let word := Z.to_nat (bits / 32) in
  let bit := bits mod 32 in
  let out := replicate (length a + word + 1) 0 in
  trim (if bit =? 0 then update_from word (fun _ v => v) out a
        else
          let out := update_from word
            (fun slot v => Z.lor slot (wrap 32 (Z.shiftl v bit))) out a in
          update_from (word + 1) (fun slot v => Z.lor slot (Z.shiftr v (32 - bit))) out a).

Fixpoint sub_rows (a b : list Z) (borrow : Z) : list Z * Z :=
  match a with
  | [] => ([], borrow)
  | slot :: a =>
      let bv := default 0 (head b) in
      let res := wrap 64 (slot - (bv + borrow)) in
      let underflow := if slot <? bv + borrow then 1 else 0 in
      let '(r, c) := sub_rows a (tail b) underflow in
      (wrap 32 res :: r, c)
  end.
Definition sub_limbs_in_place (a b : list Z) : list Z * Z :=
  let '(r, borrow) := sub_rows a b 0 in (trim r, borrow).

Definition leading_zeros (w : Z) : nat :=
  if w =? 0 then 32%nat else Z.to_nat (31 - Z.log2 w).

Definition set_low (acc : list Z) : list Z :=
  match acc with low :: t => Z.lor low 1 :: t | [] => [] end.

Definition mod_step (r m : list Z) (bit : nat) (acc : list Z) : list Z :=
  let acc := shl_limbs acc 1 in
  let acc := if bit_at r bit then set_low acc else acc in
  match cmp_limbs acc m with
  | Lt => acc
  | _ => fst (sub_limbs_in_place acc m)
  end.

(** [for bit in (0..n).rev()]. *)
Fixpoint mod_loop (r m : list Z) (n : nat) (acc : list Z) : list Z :=
  match n with
  | O => acc
  | S bit => mod_loop r m bit (mod_step r m bit acc)
  end.

Definition mod_rem (a m : list Z) : list Z :=
  let a_len := trim_len a in
  let m_len := trim_len m in
  if (a_len =? 0)%nat || (m_len =? 0)%nat || forallb (Z.eqb 0) (take m_len m)
  then [0]
  else
    let r := take a_len a in
    let lead := match list.last r with Some w => leading_zeros w | None => 32%nat end in
    trim (mod_loop r m (a_len * 32 - lead) [0]).

(** ** Exponentiation and verification *)

Definition pow_step (m base : list Z) (b : Z) (bit : nat) (result : list Z) : list Z :=
  let result := mod_rem (mul_limbs result result) m in
  if Z.land (Z.shiftr b (Z.of_nat bit)) 1 =? 1
  then mod_rem (mul_limbs result base) m else result.

(** [for bit in (0..n).rev()]. *)
Fixpoint pow_byte (m base : list Z) (b : Z) (n : nat) (result : list Z) : list Z :=
  match n with
  | O => result
  | S bit => pow_byte m base b bit (pow_step m base b bit result)
  end.

Definition mod_pow (base_be exp_be m_be : list Z) : list Z :=
  let m := to_limbs_be m_be in
  let base := mod_rem (to_limbs_be base_be) m in
  to_be_bytes (fold_left (fun result b => pow_byte m base b 8 result) exp_be [1]).

(** The run of [0xff] octets at the front: [while em.get(i) == Some(&0xff)]. *)
Fixpoint ff_run (l : list Z) : nat :=
  match l with x :: t => if x =? 255 then S (ff_run t) else O | [] => O end.

(** What follows the separator: the digest info, then the digest. *)
Definition body_ok (digest body : list Z) : bool :=
  if negb (zlen body =? zlen DIGEST_INFO_SHA256 + 32) then false else
  match get_range body 0 (zlen DIGEST_INFO_SHA256),
        get_from body (zlen DIGEST_INFO_SHA256) with
  | Some di, Some dg => bool_decide (di = DIGEST_INFO_SHA256) && bool_decide (dg = digest)
  | _, _ => false
  end.

Definition em_ok (digest em : list Z) : bool :=
  if (zlen em <? 11) || negb (bool_decide (head em = Some 0))
     || negb (bool_decide (get em 1 = Some 1)) then false else
  let i := 2 + Z.of_nat (ff_run (drop 2 em)) in
  if (i <? 2 + 8) || negb (bool_decide (get em i = Some 0)) then false else
  match get_from em (i + 1) with
  | None => false
  | Some body => body_ok digest body
  end.

Definition verify_em (em_be : list Z) (modulus_len : nat) (digest : list Z) : bool :=
  if (modulus_len <? length em_be)%nat then false
  else em_ok digest (replicate (modulus_len - length em_be) 0 ++ em_be).

Definition verify_pkcs1v15_sha256 (dnskey_public_key digest signature : list Z) : bool :=
  match parse_dnskey_rsa dnskey_public_key with
  | None => false
  | Some (modulus, exponent) =>
      let trimmed := trim_leading_zeros modulus in
      let em_be := mod_pow signature exponent trimmed in
      verify_em em_be (length trimmed) digest
  end.

Definition constant_time_eq (a b : list Z) : bool :=
  if negb (zlen a =? zlen b) then false
  else fold_left (fun diff '(x, y) => Z.lor diff (Z.lxor x y)) (zip a b) 0 =? 0.

Example mod_pow_1 : mod_pow [4] [13] [1; 241] = [1; 189].
Proof. vm_compute. reflexivity. Qed.
Example mod_rem_1 : mod_rem [5; 7; 9] [0; 3] = [5; 1].
Proof. vm_compute. reflexivity. Qed.
Example shl_1 : shl_limbs [4294967295; 1] 33 = [0; 4294967294; 3].
Proof. vm_compute. reflexivity. Qed.

(** ** Values *)

Fixpoint limbs_val (l : list Z) : Z :=
  match l with
  | [] => 0
  | x :: l => x + 2 ^ 32 * limbs_val l
  end.

Abbreviation limbs := (Forall is_u32).

(** [2 ^ (32 * n)] *)
Definition radix (n : nat) : Z := 2 ^ (32 * Z.of_nat n).

Lemma radix_S n : radix (S n) = 2 ^ 32 * radix n.
Proof. unfold radix. rewrite Nat2Z.inj_succ, <- Z.pow_add_r by lia. f_equal. lia. Qed.
Lemma radix_add n m : radix (n + m) = radix n * radix m.
Proof. unfold radix. rewrite <- Z.pow_add_r by lia. f_equal. lia. Qed.
Lemma radix_pos n : 0 < radix n.
Proof. unfold radix. apply Z.pow_pos_nonneg; lia. Qed.
Lemma radix_0 : radix 0 = 1.
Proof. done. Qed.
Lemma radix_mono n m : (n <= m)%nat -> radix n <= radix m.
Proof. intros. apply Z.pow_le_mono_r; lia. Qed.

Lemma limbs_val_app a b : limbs_val (a ++ b) = limbs_val a + radix (length a) * limbs_val b.
Proof.
  induction a as [|x a IH]; [cbn [app limbs_val length]; rewrite radix_0; lia|].
  cbn [app limbs_val length]. rewrite IH, radix_S. ring.
Qed.

Lemma limbs_val_bound l : limbs l -> 0 <= limbs_val l < radix (length l).
Proof.
  induction 1 as [|x l Hx Hl IH]; [done|].
  cbn [limbs_val length]. rewrite radix_S. unfold is_u32 in Hx. nia.
Qed.

Lemma limbs_val_zeros n : limbs_val (replicate n 0) = 0.
Proof. induction n; cbn; [done|]. rewrite IHn. done. Qed.

Lemma limbs_zeros n : limbs (replicate n 0).
Proof. apply Forall_replicate. unfold is_u32. lia. Qed.

(** A limb list splits at an index. *)
Lemma limbs_val_take_drop n l :
  (n <= length l)%nat -> limbs_val l = limbs_val (take n l) + radix n * limbs_val (drop n l).
Proof.
  intros. rewrite <- (take_drop n l) at 1. rewrite limbs_val_app, length_take.
  do 2 f_equal. f_equal. lia.
Qed.

Lemma wrap32_u32 z : is_u32 (wrap 32 z).
Proof. unfold is_u32, wrap. pose proof (Z.mod_pos_bound z (2 ^ 32)). lia. Qed.
#[export] Hint Resolve wrap32_u32 limbs_zeros : rx.

(** ** Trimming *)

Lemma trim_rev_cons2 x y l :
  trim_rev (x :: y :: l) = if x =? 0 then trim_rev (y :: l) else x :: y :: l.
Proof. done. Qed.

Lemma trim_rev_val l : limbs_val (reverse (trim_rev l)) = limbs_val (reverse l).
Proof.
  induction l as [|x [|y l] IH]; [done|done|]. rewrite trim_rev_cons2.
  destruct (x =? 0) eqn:E; [|done]. bools; subst. rewrite IH.
  rewrite (reverse_cons _ 0), limbs_val_app. cbn. lia.
Qed.

Lemma trim_val l : limbs_val (trim l) = limbs_val l.
Proof. unfold trim. rewrite trim_rev_val. by rewrite reverse_involutive. Qed.

Lemma trim_rev_suffix l : exists zs, l = zs ++ trim_rev l.
Proof.
  induction l as [|x [|y l] IH]; [by exists []|by exists []|]. rewrite trim_rev_cons2.
  destruct (x =? 0); [|by exists []]. destruct IH as [zs IH].
  exists (x :: zs). cbn [app]. by f_equal.
Qed.

Lemma trim_limbs l : limbs l -> limbs (trim l).
Proof.
  intros H. unfold trim. apply Forall_reverse.
  destruct (trim_rev_suffix (reverse l)) as [zs E].
  rewrite <- Forall_reverse, E, List.Forall_app in H. tauto.
Qed.

Lemma trim_nonempty l : l <> [] -> trim l <> [].
Proof.
  intros Hl E. apply (f_equal reverse) in E. unfold trim in E.
  rewrite reverse_involutive in E.
  assert (reverse l <> []) as Hr.
  { intros H. apply Hl. apply (f_equal reverse) in H. by rewrite reverse_involutive in H. }
  clear Hl. revert Hr E. generalize (reverse l). clear.
  induction l as [|x [|y l] IH]; [done|done|]. intros _. rewrite trim_rev_cons2.
  destruct (x =? 0); [by apply IH|done].
Qed.
#[export] Hint Resolve trim_limbs trim_nonempty : rx.

Lemma trim_len_from_SS a m :
  trim_len_from a (S (S m))
  = if bool_decide (a !! S m = Some 0) then trim_len_from a (S m) else S (S m).
Proof. done. Qed.

Lemma trim_len_from_spec a n :
  (n <= length a)%nat ->
  (trim_len_from a n <= n)%nat /\ (0 < n -> 0 < trim_len_from a n)%nat /\
  limbs_val (take (trim_len_from a n) a) = limbs_val (take n a) /\
  ((1 < trim_len_from a n)%nat -> a !! pred (trim_len_from a n) <> Some 0).
Proof.
  induction n as [|[|m] IH]; intros Hn.
  - cbn. conjs; lia.
  - cbn. conjs; lia.
  - rewrite trim_len_from_SS. case_bool_decide as E.
    + destruct IH as (A & B & C & D); [lia|]. split; [lia|]. split; [lia|]. split; [|done].
      rewrite C. rewrite (take_S_r _ (S m) 0) by done.
      rewrite limbs_val_app. cbn. lia.
    + split; [lia|]. split; [lia|done].
Qed.

Lemma trim_len_spec a :
  (trim_len a <= length a)%nat /\ (a <> [] -> (0 < trim_len a)%nat) /\
  limbs_val (take (trim_len a) a) = limbs_val a /\
  ((1 < trim_len a)%nat -> a !! pred (trim_len a) <> Some 0).
Proof.
  unfold trim_len. destruct (trim_len_from_spec a (length a)) as (A & B & C & D); [lia|].
  split; [lia|]. split.
  - intros. apply B. destruct a; [done|]. cbn. lia.
  - rewrite C, firstn_all. done.
Qed.

(** The significand's top limb bounds the value from below. *)
Lemma trim_len_lower a :
  limbs a -> (1 < trim_len a)%nat -> radix (pred (trim_len a)) <= limbs_val a.
Proof.
  intros Ha Hn. destruct (trim_len_spec a) as (A & _ & C & D). specialize (D Hn).
  rewrite <- C. destruct (lookup_lt_is_Some_2 a (pred (trim_len a))) as [x Hx]; [lia|].
  replace (trim_len a) with (S (pred (trim_len a))) at 2 by lia.
  rewrite (take_S_r _ _ x) by done. rewrite limbs_val_app, length_take.
  replace (pred (trim_len a) `min` length a)%nat with (pred (trim_len a)) by lia.
  assert (x <> 0) by congruence.
  pose proof (Forall_lookup_1 _ _ _ _ Ha Hx) as Hr. unfold is_u32 in Hr.
  pose proof (limbs_val_bound (take (pred (trim_len a)) a) (Forall_take _ _ _ Ha)).
  pose proof (radix_pos (pred (trim_len a))). cbn [limbs_val]. nia.
Qed.

Lemma trim_len_upper a : limbs a -> 0 <= limbs_val a < radix (trim_len a).
Proof.
  intros Ha. destruct (trim_len_spec a) as (A & _ & C & _). rewrite <- C.
  pose proof (limbs_val_bound (take (trim_len a) a) (Forall_take _ _ _ Ha)) as B.
  rewrite length_take in B. by replace (trim_len a `min` length a)%nat with (trim_len a) in B by lia.
Qed.

(** ** Comparison *)

Lemma cmp_pairs_spec a b :
  length a = length b -> limbs a -> limbs b ->
  cmp_pairs a b = (limbs_val (reverse a) ?= limbs_val (reverse b)).
Proof.
  revert b; induction a as [|x a IH]; intros [|y b] Hlen Ha Hb; try done.
  injection Hlen as Hlen. apply Forall_cons_1 in Ha as [Hx Ha], Hb as [Hy Hb].
  cbn [cmp_pairs]. rewrite !reverse_cons, !limbs_val_app, !length_reverse, <- Hlen.
  rewrite (IH b) by done. cbn [limbs_val]. rewrite Z.mul_0_r, !Z.add_0_r.
  pose proof (limbs_val_bound (reverse a) ltac:(by apply Forall_reverse)) as Ba.
  pose proof (limbs_val_bound (reverse b) ltac:(by apply Forall_reverse)) as Bb.
  rewrite length_reverse in Ba, Bb. rewrite <- Hlen in Bb.
  pose proof (radix_pos (length a)).
  destruct (Z.compare_spec x y) as [->|E|E].
  - symmetry. destruct (Z.compare_spec (limbs_val (reverse a)) (limbs_val (reverse b)));
      [apply Z.compare_eq_iff|apply Z.compare_lt_iff|apply Z.compare_gt_iff]; lia.
  - symmetry. apply Z.compare_lt_iff. nia.
  - symmetry. apply Z.compare_gt_iff. nia.
Qed.

Lemma cmp_limbs_spec a b :
  a <> [] -> b <> [] -> limbs a -> limbs b ->
  cmp_limbs a b = (limbs_val a ?= limbs_val b).
Proof.
  intros Hna Hnb Ha Hb. unfold cmp_limbs.
  destruct (trim_len_spec a) as (A1 & A2 & A3 & _), (trim_len_spec b) as (B1 & B2 & B3 & _).
  specialize (A2 Hna). specialize (B2 Hnb).
  pose proof (trim_len_upper a Ha). pose proof (trim_len_upper b Hb).
  destruct (Nat.eqb_spec (trim_len a) (trim_len b)) as [E|E].
  - rewrite cmp_pairs_spec, !reverse_involutive, A3, B3; [done| | |].
    + rewrite !length_reverse, !length_take. lia.
    + by apply Forall_reverse, Forall_take.
    + by apply Forall_reverse, Forall_take.
  - destruct (Nat.compare_spec (trim_len a) (trim_len b)) as [|L|L]; [done| |].
    + pose proof (trim_len_lower b Hb ltac:(lia)).
      pose proof (radix_mono (trim_len a) (pred (trim_len b)) ltac:(lia)).
      symmetry. apply Z.compare_lt_iff. lia.
    + pose proof (trim_len_lower a Ha ltac:(lia)).
      pose proof (radix_mono (trim_len b) (pred (trim_len a)) ltac:(lia)).
      symmetry. apply Z.compare_gt_iff. lia.
Qed.

(** ** Multiplication *)

Lemma shiftr32 z : Z.shiftr z 32 = z / 2 ^ 32.
Proof. by rewrite Z.shiftr_div_pow2. Qed.

(** A 64-bit accumulator splits into a limb and a carry. *)
Lemma limb_carry cur :
  0 <= cur < 2 ^ 64 ->
  is_u32 (Z.shiftr cur 32) /\ wrap 32 cur + 2 ^ 32 * Z.shiftr cur 32 = cur.
Proof.
  intros. rewrite shiftr32. unfold is_u32, wrap. split.
  - split; [apply Z.div_pos; lia|apply Z.div_lt_upper_bound; lia].
  - pose proof (Z.div_mod cur (2 ^ 32)). lia.
Qed.

Lemma mul_row_spec slots bs av carry :
  limbs slots -> limbs bs -> is_u32 av -> is_u32 carry -> (length bs <= length slots)%nat ->
  let '(r, c) := mul_row slots bs av carry in
  length r = length slots /\ limbs r /\ is_u32 c /\
  drop (length bs) r = drop (length bs) slots /\
  limbs_val (take (length bs) r) + radix (length bs) * c
  = limbs_val (take (length bs) slots) + av * limbs_val bs + carry.
Proof.
  revert bs carry; induction slots as [|s slots IH]; intros [|b bs] carry Hs Hb Hav Hc Hlen;
    cbn [length] in Hlen; try lia.
  - cbn. conjs; try done. rewrite radix_0. lia.
  - cbn [mul_row length take drop limbs_val]. rewrite radix_0. conjs; try done. lia.
  - apply Forall_cons_1 in Hs as [Hs0 Hs], Hb as [Hb0 Hb].
    cbn [mul_row].
    assert (0 <= s + av * b + carry < 2 ^ 64) as Hcur by (unfold is_u32 in *; nia).
    rewrite !(Z.mod_small _ (2 ^ 64) : _ -> wrap 64 _ = _) by done.
    destruct (limb_carry _ Hcur) as [Hc' E].
    specialize (IH bs (Z.shiftr (s + av * b + carry) 32) Hs Hb Hav Hc' ltac:(lia)).
    destruct (mul_row slots bs av _) as [r c]. destruct IH as (L & Hr & Hcc & D & V).
    cbn [length take drop limbs_val]. rewrite radix_S. conjs; [lia|constructor; [apply wrap32_u32|done]|done|done|nia].
Qed.

Lemma carry_row_spec slots carry :
  limbs slots -> is_u32 carry ->
  length (carry_row slots carry) = length slots /\ limbs (carry_row slots carry) /\
  exists lost, 0 <= lost /\
    limbs_val (carry_row slots carry) + radix (length slots) * lost = limbs_val slots + carry.
Proof.
  revert carry; induction slots as [|s slots IH]; intros carry Hs Hc.
  - conjs; [done|done|]. exists carry. cbn [carry_row limbs_val length]. rewrite radix_0.
    unfold is_u32 in Hc. lia.
  - apply Forall_cons_1 in Hs as [Hs0 Hs]. cbn [carry_row].
    destruct (carry =? 0) eqn:E; bools.
    + conjs; [done|by constructor|]. exists 0. lia.
    + assert (0 <= s + carry < 2 ^ 64) as Hcur by (unfold is_u32 in *; lia).
      rewrite !(Z.mod_small _ (2 ^ 64) : _ -> wrap 64 _ = _) by done.
      destruct (limb_carry _ Hcur) as [Hc' Ev].
      destruct (IH _ Hs Hc') as (L & Hr & lost & Hlost & V).
      cbn [length limbs_val]. rewrite radix_S. conjs; [lia|constructor; [apply wrap32_u32|done]|].
      exists lost. split; [done|]. nia.
Qed.

(** One row of the product, carries included. *)
Lemma mul_step_spec i av bs out :
  limbs out -> limbs bs -> is_u32 av -> (i + length bs <= length out)%nat ->
  let '(row, carry) := mul_row (drop i out) bs av 0 in
  let out1 := take i out ++ row in
  let out2 := take (i + length bs) out1 ++ carry_row (drop (i + length bs) out1) carry in
  length out2 = length out /\ limbs out2 /\
  exists lost, 0 <= lost /\
    limbs_val out2 + radix (length out) * lost = limbs_val out + radix i * (av * limbs_val bs).
Proof.
  intros Ho Hb Hav Hlen.
  pose proof (mul_row_spec (drop i out) bs av 0) as R.
  destruct (mul_row (drop i out) bs av 0) as [row carry]. cbn zeta.
  destruct R as (L & Hr & Hc & D & V);
    [by apply Forall_drop|done|done|unfold is_u32; lia|rewrite length_drop; lia|].
  rewrite length_drop in L.
  assert (length (take i out) = i) as Li by (rewrite length_take; lia).
  rewrite take_app_ge, drop_app_ge, Li by lia.
  replace (i + length bs - i)%nat with (length bs) by lia.
  destruct (carry_row_spec (drop (length bs) row) carry) as (L2 & H2 & lost & Hlost & V2);
    [by apply Forall_drop|done|]. rewrite length_drop, L in L2.
  conjs.
  - rewrite !length_app, L2, Li, length_take, L. lia.
  - rewrite !List.Forall_app. conjs; [by apply Forall_take|by apply Forall_take|done].
  - exists lost. split; [done|].
    rewrite <- app_assoc, !limbs_val_app, Li, length_take, L.
    replace (length bs `min` (length out - i))%nat with (length bs) by lia.
    rewrite length_drop, L in V2. rewrite D in V2 at 2.
    rewrite (limbs_val_take_drop i out) by lia.
    rewrite (limbs_val_take_drop (length bs) (drop i out)) by (rewrite length_drop; lia).
    replace (length out) with (i + (length bs + (length out - i - length bs)))%nat at 1 by lia.
    rewrite !radix_add. nia.
Qed.

Lemma mul_rows_spec i avs bs out :
  limbs out -> limbs avs -> limbs bs -> (i + length avs + length bs = length out)%nat ->
  limbs_val out + radix i * (limbs_val avs * limbs_val bs) < radix (length out) ->
  length (mul_rows i avs bs out) = length out /\ limbs (mul_rows i avs bs out) /\
  limbs_val (mul_rows i avs bs out) = limbs_val out + radix i * (limbs_val avs * limbs_val bs).
Proof.
  revert i out; induction avs as [|av avs IH]; intros i out Ho Ha Hb Hlen Hlt.
  - cbn [mul_rows limbs_val]. conjs; [done|done|]. lia.
  - apply Forall_cons_1 in Ha as [Hav Ha]. cbn [length] in Hlen.
    pose proof (mul_step_spec i av bs out Ho Hb Hav ltac:(lia)) as St.
    cbn [mul_rows]. destruct (mul_row (drop i out) bs av 0) as [row carry].
    cbn zeta in St |- *. set (out2 := take (i + length bs) _ ++ _) in *.
    destruct St as (L & Ho2 & lost & Hlost & V).
    pose proof (limbs_val_bound _ Ho2) as B2. rewrite L in B2.
    pose proof (limbs_val_bound _ Ha) as Ba. pose proof (limbs_val_bound _ Hb) as Bb.
    pose proof (radix_pos i). cbn [limbs_val] in Hlt. unfold is_u32 in Hav.
    assert (0 <= radix i * (2 ^ 32 * limbs_val avs * limbs_val bs)) by (repeat apply Z.mul_nonneg_nonneg; lia).
    assert (lost = 0) as -> by nia.
    destruct (IH (S i) out2) as (L3 & H3 & V3); [done|done|done|lia|rewrite L, radix_S; nia|].
    conjs; [lia|done|]. rewrite V3, radix_S. cbn [limbs_val]. nia.
Qed.

Lemma mul_limbs_spec a b :
  a <> [] -> limbs a -> limbs b ->
  limbs (mul_limbs a b) /\ mul_limbs a b <> [] /\
  limbs_val (mul_limbs a b) = limbs_val a * limbs_val b.
Proof.
  intros Hna Ha Hb. unfold mul_limbs.
  destruct (trim_len_spec a) as (A1 & A2 & A3 & _), (trim_len_spec b) as (B1 & _ & B3 & _).
  pose proof (trim_len_upper a Ha). pose proof (trim_len_upper b Hb).
  destruct (mul_rows_spec 0 (take (trim_len a) a) (take (trim_len b) b)
              (replicate (trim_len a + trim_len b) 0)) as (L & Hl & V).
  - apply limbs_zeros.
  - by apply Forall_take.
  - by apply Forall_take.
  - rewrite !length_take, length_replicate. lia.
  - rewrite limbs_val_zeros, length_replicate, radix_add, radix_0, A3, B3. nia.
  - rewrite limbs_val_zeros, radix_0, A3, B3 in V. conjs.
    + by apply trim_limbs.
    + apply trim_nonempty. rewrite length_replicate in L. specialize (A2 Hna).
      destruct (mul_rows _ _ _ _); [cbn in L; lia|done].
    + rewrite trim_val, V. lia.
Qed.

(** ** Shifts *)

Lemma zip_update_app f s1 s2 vs :
  length s1 = length vs -> zip_update f (s1 ++ s2) vs = zip_with f s1 vs ++ s2.
Proof.
  revert vs; induction s1 as [|x s1 IH]; intros [|v vs] H; try done.
  - by destruct s2.
  - cbn. rewrite IH; [done|]. by injection H.
Qed.

Lemma update_zeros word n f (a : list Z) :
  update_from word f (replicate (length a + word + n) 0) a
  = replicate word 0 ++ map (f 0) a ++ replicate n 0.
Proof.
  unfold update_from. replace (length a + word + n)%nat with (word + (length a + n))%nat by lia.
  rewrite replicate_add.
  rewrite take_app_length' by (by rewrite length_replicate).
  rewrite drop_app_length' by (by rewrite length_replicate).
  rewrite replicate_add, zip_update_app by (by rewrite length_replicate).
  do 2 f_equal. induction a as [|v a IH]; [done|]. cbn. by f_equal.
Qed.

Section shift.
Context (bit : Z) (Hbit : 0 < bit < 32).
Let low v := wrap 32 (Z.shiftl v bit).
Let high v := Z.shiftr v (32 - bit).

Local Lemma low_high v : is_u32 v ->
  low v + 2 ^ 32 * high v = v * 2 ^ bit /\ 0 <= high v < 2 ^ bit.
Proof.
  intros Hv. unfold low, high, wrap. rewrite Z.shiftl_mul_pow2, Z.shiftr_div_pow2 by lia.
  assert (2 ^ 32 = 2 ^ bit * 2 ^ (32 - bit)) as E by (rewrite <- Z.pow_add_r by lia; f_equal; lia).
  pose proof (Z.pow_pos_nonneg 2 bit ltac:(lia) ltac:(lia)).
  pose proof (Z.pow_pos_nonneg 2 (32 - bit) ltac:(lia) ltac:(lia)).
  assert (v * 2 ^ bit / 2 ^ 32 = v / 2 ^ (32 - bit)) as D.
  { rewrite E, (Z.mul_comm (2 ^ bit)). apply Z.div_mul_cancel_r; lia. }
  split.
  - rewrite <- D. pose proof (Z.div_mod (v * 2 ^ bit) (2 ^ 32)). lia.
  - unfold is_u32 in Hv. split; [apply Z.div_pos; lia|].
    apply Z.div_lt_upper_bound; lia.
Qed.

Local Lemma low_multiple w : exists q, low w = Z.shiftl q bit /\ 0 <= q < 2 ^ (32 - bit).
Proof.
  exists (w mod 2 ^ (32 - bit)). unfold low, wrap. rewrite !Z.shiftl_mul_pow2 by lia.
  split; [|apply Z.mod_pos_bound, Z.pow_pos_nonneg; lia].
  replace (2 ^ 32) with (2 ^ (32 - bit) * 2 ^ bit)
    by (rewrite <- Z.pow_add_r by lia; f_equal; lia).
  rewrite Z.mul_mod_distr_r; [done| |]; apply Z.pow_nonzero; lia.
Qed.

(** The two halves occupy disjoint bits, so or-ing them adds them. *)
Local Lemma lor_low_high w v :
  is_u32 v -> Z.lor (low w) (high v) = low w + high v /\ is_u32 (low w + high v).
Proof.
  intros Hv. destruct (low_high v Hv) as [_ Hh], (low_multiple w) as (q & -> & Hq).
  rewrite lor_shiftl_low, Z.shiftl_mul_pow2 by lia. split; [done|].
  assert (2 ^ 32 = 2 ^ (32 - bit) * 2 ^ bit) as E
    by (rewrite <- Z.pow_add_r by lia; f_equal; lia).
  unfold is_u32. change 4294967296 with (2 ^ 32). rewrite E. nia.
Qed.

Local Lemma shift_tail t v : is_u32 v -> limbs t ->
  limbs_val (zip_update (fun s v => Z.lor s (high v)) (map low t ++ [0]) (v :: t))
  = high v + 2 ^ bit * limbs_val t /\
  limbs (zip_update (fun s v => Z.lor s (high v)) (map low t ++ [0]) (v :: t)).
Proof.
  revert v; induction t as [|w t IH]; intros v Hv Ht; cbn [map app zip_update limbs_val].
  - rewrite Z.lor_0_l. split; [lia|]. repeat constructor; destruct (low_high v Hv) as [_ H].
    + lia.
    + pose proof (Z.pow_lt_mono_r 2 bit 32). unfold is_u32. lia.
  - apply Forall_cons_1 in Ht as [Hw Ht]. destruct (IH w Hw Ht) as [V L].
    destruct (lor_low_high w v Hv) as [E R], (low_high w Hw) as [Ew _].
    rewrite V, E. split; [lia|by constructor].
Qed.
End shift.

Lemma shl_pass_spec word (bit : Z) a :
  0 < bit < 32 -> limbs a -> a <> [] ->
  let out := update_from word (fun slot v => Z.lor slot (wrap 32 (Z.shiftl v bit)))
               (replicate (length a + word + 1) 0) a in
  let r := update_from (word + 1) (fun slot v => Z.lor slot (Z.shiftr v (32 - bit))) out a in
  limbs r /\ limbs_val r = radix word * (2 ^ bit * limbs_val a) /\ r <> [].
Proof.
  intros Hbit Ha Hne. destruct a as [|v t]; [done|]. cbn zeta. rewrite update_zeros.
  cbn [replicate app]. unfold update_from.
  rewrite (map_ext (fun x => Z.lor 0 (wrap 32 (Z.shiftl x bit))) (fun x => wrap 32 (Z.shiftl x bit)))
    by (intros; apply Z.lor_0_l).
  cbn [map app].
  rewrite take_app_ge, drop_app_ge by (rewrite length_replicate; lia).
  rewrite length_replicate. replace (word + 1 - word)%nat with 1%nat by lia.
  cbn [take drop]. rewrite take_0, drop_0. apply Forall_cons_1 in Ha as [Hv Ht].
  destruct (shift_tail bit Hbit t v Hv Ht) as [V L].
  destruct (low_high bit Hbit v Hv) as [E _]. conjs.
  - rewrite !List.Forall_app. conjs; [apply limbs_zeros|repeat constructor; apply wrap32_u32|done].
  - rewrite !limbs_val_app, limbs_val_zeros, V, length_app, !length_replicate, radix_add.
    cbn [limbs_val length]. change (radix 1) with (2 ^ 32). nia.
  - by destruct word.
Qed.

Lemma shl_limbs_spec a bits :
  0 <= bits -> limbs a -> a <> [] ->
  limbs (shl_limbs a bits) /\ shl_limbs a bits <> [] /\
  limbs_val (shl_limbs a bits) = 2 ^ bits * limbs_val a.
Proof.
  intros Hb Ha Hne. unfold shl_limbs.
  destruct (bits =? 0) eqn:E; bools.
  { subst. conjs; [done|done|]. lia. }
  assert (2 ^ bits = radix (Z.to_nat (bits / 32)) * 2 ^ (bits mod 32)) as ->.
  { unfold radix. rewrite Z2Nat.id by (apply Z.div_pos; lia).
    pose proof (Z.mod_pos_bound bits 32). pose proof (Z.div_pos bits 32).
    rewrite <- Z.pow_add_r by lia. f_equal. pose proof (Z.div_mod bits 32). lia. }
  destruct (bits mod 32 =? 0) eqn:E2; bools.
  - rewrite E2, update_zeros, map_id. conjs.
    + apply trim_limbs. rewrite !List.Forall_app. auto using limbs_zeros.
    + apply trim_nonempty. intros H%app_eq_nil. destruct H as [_ [H _]%app_eq_nil]. done.
    + rewrite trim_val, !limbs_val_app, !limbs_val_zeros, length_replicate. lia.
  - destruct (shl_pass_spec (Z.to_nat (bits / 32)) (bits mod 32) a) as (L & V & N); [|done|done|].
    { pose proof (Z.mod_pos_bound bits 32). lia. }
    conjs; [by apply trim_limbs|by apply trim_nonempty|]. rewrite trim_val, V. ring.
Qed.

(** ** Subtraction *)

Lemma sub_rows_spec a b borrow :
  limbs a -> limbs b -> 0 <= borrow <= 1 ->
  let '(r, c) := sub_rows a b borrow in
  length r = length a /\ limbs r /\ 0 <= c <= 1 /\
  limbs_val r + limbs_val (take (length a) b) + borrow = limbs_val a + radix (length a) * c.
Proof.
  revert b borrow; induction a as [|s a IH]; intros b borrow Ha Hb Hw.
  - cbn [sub_rows length]. rewrite take_0, radix_0. cbn [limbs_val].
    conjs; [done|done|lia|lia|lia].
  - apply Forall_cons_1 in Ha as [Hs Ha]. cbn [sub_rows].
    set (bv := default 0 (list.head b)).
    assert (is_u32 bv) as Hbv.
    { destruct b; cbn; [unfold is_u32; lia|]. by apply Forall_cons_1 in Hb as [? _]. }
    assert (limbs (list.tail b)) as Ht by (destruct b; [done|by apply Forall_cons_1 in Hb as [_ ?]]).
    set (u := if s <? bv + borrow then 1 else 0).
    assert (0 <= u <= 1) as Hu by (unfold u; destruct (_ <? _); lia).
    specialize (IH _ u Ha Ht Hu). destruct (sub_rows a (list.tail b) u) as [r c].
    destruct IH as (L & Hr & Hc & V). cbn [length limbs_val]. rewrite radix_S.
    assert (limbs_val (take (S (length a)) b) = bv + 2 ^ 32 * limbs_val (take (length a) (list.tail b))) as ->.
    { destruct b; cbn; [by rewrite take_nil|done]. }
    assert (wrap 32 (wrap 64 (s - (bv + borrow))) = s - (bv + borrow) + 2 ^ 32 * u) as ->.
    { unfold u, is_u32, wrap in *. destruct (s <? bv + borrow) eqn:E; bools.
      - rewrite <- (Z.mod_add (s - _) 1 (2 ^ 64)), (Z.mod_small _ (2 ^ 64)) by lia.
        replace (s - (bv + borrow) + 1 * 2 ^ 64)
          with (s - (bv + borrow) + 2 ^ 32 * 1 + (2 ^ 32 - 1) * 2 ^ 32) by lia.
        rewrite Z.mod_add by done. rewrite Z.mod_small; lia.
      - rewrite (Z.mod_small _ (2 ^ 64)) by lia. rewrite Z.mod_small; lia. }
    conjs; [lia| |lia|lia|].
    + constructor; [|done]. unfold is_u32, u in *. destruct (s <? bv + borrow) eqn:E; bools; lia.
    + lia.
Qed.

Lemma sub_limbs_spec a b :
  a <> [] -> limbs a -> limbs b -> limbs_val b <= limbs_val a ->
  let '(r, borrow) := sub_limbs_in_place a b in
  limbs r /\ r <> [] /\ borrow = 0 /\ limbs_val r = limbs_val a - limbs_val b.
Proof.
  intros Hne Ha Hb Hle. unfold sub_limbs_in_place.
  pose proof (sub_rows_spec a b 0 Ha Hb ltac:(lia)) as S.
  destruct (sub_rows a b 0) as [r c]. destruct S as (L & Hr & Hc & V).
  pose proof (limbs_val_bound a Ha) as Ba. pose proof (limbs_val_bound r Hr) as Br.
  rewrite L in Br. pose proof (radix_pos (length a)).
  assert (limbs_val (take (length a) b) = limbs_val b) as Et.
  { destruct (Nat.le_gt_cases (length b) (length a)); [by rewrite firstn_all2|].
    rewrite (limbs_val_take_drop (length a) b) in Hle |- * by lia.
    pose proof (limbs_val_bound (take (length a) b) (Forall_take _ _ _ Hb)).
    pose proof (limbs_val_bound (drop (length a) b) (Forall_drop _ _ _ Hb)).
    assert (limbs_val (drop (length a) b) = 0) by nia. lia. }
  assert (c = 0) as -> by nia.
  conjs; [by apply trim_limbs| |done|rewrite trim_val; lia].
  apply trim_nonempty. destruct r; [by destruct a|done].
Qed.

(** ** Remainder *)

(** [(x >> n) & 1 == 1] *)
Lemma bit_test x n : 0 <= n -> (Z.land (Z.shiftr x n) 1 =? 1) = Z.testbit x n.
Proof.
  intros Hn. change 1 with (2 ^ 0) at 1. rewrite land_pow2, Z.shiftr_spec, Z.add_0_l by lia.
  by destruct (Z.testbit x n).
Qed.

Lemma bit_at_spec r i : limbs r -> bit_at r i = Z.testbit (limbs_val r) (Z.of_nat i).
Proof.
  intros Hr. unfold bit_at.
  assert (exists k j, i = k * 32 + j /\ j < 32 /\ i / 32 = k /\ i mod 32 = j)%nat
    as (k & j & -> & Hj & -> & ->).
  { exists (i / 32)%nat, (i mod 32)%nat. pose proof (Nat.div_mod_eq i 32).
    pose proof (Nat.mod_upper_bound i 32). lia. }
  rewrite testbit_div by lia.
  replace (2 ^ Z.of_nat (k * 32 + j)) with (radix k * 2 ^ Z.of_nat j)
    by (unfold radix; rewrite <- Z.pow_add_r by lia; f_equal; lia).
  pose proof (radix_pos k). pose proof (Z.pow_pos_nonneg 2 (Z.of_nat j)).
  rewrite <- Z.div_div by lia.
  destruct (r !! k) as [x|] eqn:E.
  - pose proof (lookup_lt_Some _ _ _ E) as L.
    rewrite (limbs_val_take_drop k r), (drop_S r x k) by (done || lia).
    pose proof (limbs_val_bound (take k r) (Forall_take _ _ _ Hr)) as B.
    rewrite length_take in B. replace (k `min` length r)%nat with k in B by lia.
    rewrite (Z.mul_comm (radix k)), Z.div_add, (Z.div_small (limbs_val _) (radix k)) by lia.
    cbn [limbs_val]. rewrite Z.add_0_l.
    replace (2 ^ 32) with (2 * 2 ^ (31 - Z.of_nat j) * 2 ^ Z.of_nat j)
      by (rewrite <- (Z.pow_1_r 2) at 1; rewrite <- !Z.pow_add_r by lia; f_equal; lia).
    rewrite (Z.mul_comm (_ * _ * _)), Z.mul_assoc, Z.div_add by lia.
    rewrite (Z.mul_comm 2), Z.mul_assoc, Z.mod_add by lia.
    by rewrite bit_test, testbit_div by lia.
  - apply lookup_ge_None in E. pose proof (limbs_val_bound r Hr) as B.
    pose proof (radix_mono (length r) k E).
    rewrite (Z.div_small (limbs_val r)), Z.div_0_l by lia. done.
Qed.

Lemma set_low_spec acc : limbs acc -> acc <> [] -> Z.testbit (limbs_val acc) 0 = false ->
  limbs (set_low acc) /\ set_low acc <> [] /\ limbs_val (set_low acc) = limbs_val acc + 1.
Proof.
  intros H Hne Hb. destruct acc as [|low t]; [done|]. cbn [set_low].
  apply Forall_cons_1 in H as [Hl Ht].
  assert (Z.testbit low 0 = false) as Hb0.
  { rewrite testbit_div in Hb |- * by lia. cbn [limbs_val] in Hb.
    rewrite Z.div_1_r in *. replace (2 ^ 32) with (2 ^ 31 * 2) in Hb by done.
    rewrite <- Z.mul_assoc, (Z.mul_comm 2), Z.mul_assoc, Z.mod_add in Hb by lia. done. }
  assert (Z.lor low 1 = low + 1) as E.
  { rewrite testbit_div in Hb0 by lia. rewrite Z.div_1_r in Hb0. bools.
    rewrite (Z.div_mod low 2) at 1 by lia.
    pose proof (Z.mod_pos_bound low 2). replace (low mod 2) with 0 by lia.
    rewrite Z.add_0_r, Z.mul_comm. change 2 with (2 ^ 1) at 2. rewrite <- Z.shiftl_mul_pow2 by lia.
    rewrite lor_shiftl_low by lia. pose proof (Z.div_mod low 2). lia. }
  conjs; [|done|cbn [limbs_val]; lia]. constructor; [|done].
  rewrite E. rewrite testbit_div in Hb0 by lia. rewrite Z.div_1_r in Hb0. bools.
  unfold is_u32 in *. pose proof (Z.mod_pos_bound low 2). pose proof (Z.div_mod low 2). lia.
Qed.

Section remainder.
Context (r m : list Z) (Hr : limbs r) (Hm : limbs m) (HM : 0 < limbs_val m).

Local Lemma m_nonempty : m <> [].
Proof. clear - HM. intros ->. cbn in HM. lia. Qed.

Local Lemma mod_step_spec bit acc :
  limbs acc -> acc <> [] -> limbs_val acc < limbs_val m ->
  limbs (mod_step r m bit acc) /\ mod_step r m bit acc <> [] /\
  limbs_val (mod_step r m bit acc)
  = (2 * limbs_val acc + Z.b2z (Z.testbit (limbs_val r) (Z.of_nat bit))) mod limbs_val m.
Proof.
  intros Ha Hne Hlt. unfold mod_step. rewrite bit_at_spec by done.
  destruct (shl_limbs_spec acc 1 ltac:(lia) Ha Hne) as (Ls & Ns & Vs).
  set (acc1 := if Z.testbit _ _ then _ else _).
  assert (limbs acc1 /\ acc1 <> [] /\
          limbs_val acc1 = 2 * limbs_val acc + Z.b2z (Z.testbit (limbs_val r) (Z.of_nat bit)))
    as (L1 & N1 & V1).
  { unfold acc1. destruct (Z.testbit (limbs_val r) _); cbn [Z.b2z]; [|conjs; [done|done|lia]].
    destruct (set_low_spec (shl_limbs acc 1)) as (L & N & V); [done|done| |conjs; [done|done|lia]].
    rewrite Vs, Z.testbit_even_0. done. }
  rewrite <- V1. clearbody acc1.
  pose proof (limbs_val_bound _ Ha) as Ba.
  assert (0 <= limbs_val acc1 < 2 * limbs_val m).
  { rewrite V1. destruct (Z.testbit _ _); cbn [Z.b2z]; lia. }
  rewrite cmp_limbs_spec by (done || apply m_nonempty).
  pose proof (sub_limbs_spec acc1 m N1 L1 Hm) as S.
  destruct (Z.compare_spec (limbs_val acc1) (limbs_val m)) as [E|E|E].
  - destruct (sub_limbs_in_place acc1 m) as [s w]. destruct S as (L & N & _ & V); [lia|].
    cbn [fst]. conjs; [done|done|]. rewrite V, E, Z.mod_same by lia. lia.
  - conjs; [done|done|]. rewrite Z.mod_small by lia. done.
  - destruct (sub_limbs_in_place acc1 m) as [s w]. destruct S as (L & N & _ & V); [lia|].
    cbn [fst]. conjs; [done|done|]. rewrite V.
    apply (Z.mod_unique _ _ 1); lia.
Qed.

Local Lemma mod_loop_spec n acc :
  limbs acc -> acc <> [] -> limbs_val acc = (limbs_val r / 2 ^ Z.of_nat n) mod limbs_val m ->
  limbs (mod_loop r m n acc) /\ mod_loop r m n acc <> [] /\
  limbs_val (mod_loop r m n acc) = limbs_val r mod limbs_val m.
Proof.
  revert acc; induction n as [|n IH]; intros acc Ha Hne V; cbn [mod_loop].
  - rewrite Z.pow_0_r, Z.div_1_r in V. done.
  - pose proof (Z.mod_pos_bound (limbs_val r / 2 ^ Z.of_nat (S n)) (limbs_val m) HM).
    destruct (mod_step_spec n acc Ha Hne ltac:(lia)) as (L1 & N1 & V1).
    apply IH; [done|done|]. rewrite V1, V.
    rewrite <- Z.add_mod_idemp_l, Z.mul_mod_idemp_r, Z.add_mod_idemp_l by lia. f_equal.
    pose proof (Z.pow_pos_nonneg 2 (Z.of_nat n)).
    replace (Z.of_nat (S n)) with (Z.of_nat n + 1) by lia.
    rewrite Z.pow_add_r, Z.pow_1_r, <- Z.div_div by lia.
    rewrite Z.testbit_spec' by lia.
    pose proof (Z.div_mod (limbs_val r / 2 ^ Z.of_nat n) 2). lia.
Qed.
End remainder.

Lemma leading_zeros_spec w : is_u32 w ->
  (leading_zeros w <= 32)%nat /\ w < 2 ^ (32 - Z.of_nat (leading_zeros w)).
Proof.
  intros Hw. unfold leading_zeros, is_u32 in *. destruct (w =? 0) eqn:E; bools; [subst; done|].
  destruct (Z.log2_spec w ltac:(lia)) as [_ U]. pose proof (Z.log2_nonneg w).
  assert (Z.log2 w < 32) by (apply Z.log2_lt_pow2; lia).
  split; [lia|]. rewrite Z2Nat.id by lia. by replace (32 - (31 - Z.log2 w)) with (Z.succ (Z.log2 w)) by lia.
Qed.

Lemma all_zero_iff l : limbs l -> forallb (Z.eqb 0) l = true <-> limbs_val l = 0.
Proof.
  induction 1 as [|x l Hx Hl IH]; [done|]. cbn [forallb limbs_val].
  pose proof (limbs_val_bound l Hl). unfold is_u32 in Hx.
  rewrite andb_true_iff, Z.eqb_eq, IH. lia.
Qed.

(** The remainder, a degenerate modulus included. *)
Lemma mod_rem_spec a m : limbs a -> limbs m ->
  limbs (mod_rem a m) /\ mod_rem a m <> [] /\
  limbs_val (mod_rem a m) = if limbs_val m =? 0 then 0 else limbs_val a mod limbs_val m.
Proof.
  intros Ha Hm. unfold mod_rem.
  destruct (trim_len_spec a) as (A1 & A2 & A3 & _), (trim_len_spec m) as (M1 & M2 & M3 & _).
  assert (limbs [0]) as L0 by (repeat constructor; unfold is_u32; lia).
  destruct (_ || _ || _)%bool eqn:E.
  - conjs; [done|done|]. destruct (limbs_val m =? 0) eqn:E0; [done|]. bools.
    rewrite !orb_true_iff in E. destruct E as [[E|E]|E].
    + apply Nat.eqb_eq in E. rewrite <- A3, E, take_0. cbn. by rewrite Z.mod_0_l.
    + apply Nat.eqb_eq in E. rewrite <- M3, E, take_0 in E0. done.
    + rewrite all_zero_iff, M3 in E by (by apply Forall_take). lia.
  - apply orb_false_elim in E as [[Ea _]%orb_false_elim E].
    apply Nat.eqb_neq in Ea. apply not_true_iff_false in E.
    rewrite all_zero_iff, M3 in E by (by apply Forall_take).
    pose proof (limbs_val_bound m Hm).
    destruct (limbs_val m =? 0) eqn:E0; bools; [lia|].
    set (r := take (trim_len a) a) in *.
    assert (limbs r) as Hr by (by apply Forall_take).
    assert (length r = trim_len a) as Lr by (unfold r; rewrite length_take; lia).
    destruct (mod_loop_spec r m Hr Hm ltac:(lia)
      (trim_len a * 32 - match list.last r with Some w => leading_zeros w | None => 32 end)%nat [0])
      as (L & N & V); [done|done| |].
    + rewrite Z.div_small; [by rewrite Z.mod_0_l by lia|].
      destruct r as [|w r' _] using rev_ind; [cbn in Lr; lia|].
      rewrite last_snoc. rewrite List.Forall_app, List.Forall_cons_iff in Hr.
      destruct Hr as (Hr' & Hw & _). destruct (leading_zeros_spec w Hw) as [Hl Hlt].
      rewrite length_app in Lr. cbn [length] in Lr.
      pose proof (limbs_val_bound r' Hr'). rewrite limbs_val_app. cbn [limbs_val].
      replace (2 ^ Z.of_nat (trim_len a * 32 - leading_zeros w))
        with (radix (length r') * 2 ^ (32 - Z.of_nat (leading_zeros w)))
        by (unfold radix; rewrite <- Z.pow_add_r by lia; f_equal; lia).
      unfold is_u32 in Hw. nia.
    + conjs; [by apply trim_limbs|by apply trim_nonempty|]. by rewrite trim_val, V, A3.
Qed.

(** ** Bytes and limbs *)

Lemma limb_of_spec g : bytes g -> (length g <= 4)%nat -> limb_of g = be_val g.
Proof.
  induction g as [|b g IH] using rev_ind; intros Hg Hlen; [done|].
  rewrite List.Forall_app, List.Forall_cons_iff in Hg. destruct Hg as (Hg & Hb & _).
  rewrite length_app in Hlen. cbn in Hlen.
  unfold limb_of. rewrite fold_left_app. cbn [fold_left]. fold (limb_of g).
  rewrite IH, be_val_snoc by (done || lia). pose proof (be_val_bound g Hg) as B.
  assert (256 ^ zlen g <= 256 ^ 3) by (apply Z.pow_le_mono_r; unfold zlen; lia).
  unfold wrap. rewrite Z.mod_small by (rewrite Z.shiftl_mul_pow2 by lia; lia).
  by rewrite lor_shiftl_low.
Qed.

Lemma be_val_u32 g : bytes g -> (length g <= 4)%nat -> is_u32 (be_val g).
Proof.
  intros Hg Hl. pose proof (be_val_bound g Hg) as B.
  assert (256 ^ zlen g <= 256 ^ 4) by (apply Z.pow_le_mono_r; unfold zlen; lia).
  unfold is_u32. lia.
Qed.

Lemma rchunks4_spec l : bytes l ->
  limbs (map limb_of (rchunks4 l)) /\
  limbs_val (map limb_of (rchunks4 l)) = be_val (reverse l).
Proof.
  induction l as [l IH] using (induction_ltof1 _ (@length Z)). intros Hl.
  assert (forall g, bytes g -> (length g <= 4)%nat -> limb_of (reverse g) = be_val (reverse g)
            /\ is_u32 (be_val (reverse g))) as G.
  { intros g Hg Hle. rewrite limb_of_spec.
    - split; [done|]. apply be_val_u32; [by apply Forall_reverse|by rewrite length_reverse].
    - by apply Forall_reverse.
    - by rewrite length_reverse. }
  destruct l as [|a [|b [|c [|d l]]]]; [done| | | |].
  1-3: cbn [rchunks4 map limbs_val]; destruct (G _ Hl) as [-> B]; [cbn; lia|];
    split; [by repeat constructor; apply B|lia].
  change (rchunks4 (a :: b :: c :: d :: l)) with (reverse [a; b; c; d] :: rchunks4 l).
  cbn [map limbs_val]. rewrite !List.Forall_cons_iff in Hl. destruct Hl as (Ha & Hb & Hc & Hd & Hl).
  destruct (G [a; b; c; d]) as [-> B]; [by do 4 (constructor; [done|])|cbn; lia|].
  destruct (IH l) as [L V]; [unfold ltof; cbn; lia|done|]. split; [by constructor|].
  rewrite V. change (a :: b :: c :: d :: l) with ([a; b; c; d] ++ l).
  rewrite reverse_app, be_val_app, zlen_reverse. cbn [zlen]. change (256 ^ zlen [a; b; c; d]) with (2 ^ 32). lia.
Qed.

Lemma to_limbs_be_spec l : bytes l ->
  limbs (to_limbs_be l) /\ to_limbs_be l <> [] /\ limbs_val (to_limbs_be l) = be_val l.
Proof.
  intros Hl. unfold to_limbs_be.
  destruct (rchunks4_spec (reverse l)) as [L V]; [by apply Forall_reverse|].
  rewrite reverse_involutive in V. pose proof (trim_limbs _ L) as Lt.
  rewrite <- trim_val in V. destruct (trim _) as [|x t] eqn:E.
  - conjs; [repeat constructor; unfold is_u32; lia|done|]. cbn in *. lia.
  - done.
Qed.

Lemma skip_zeros_spec l : exists n, l = replicate n 0 ++ skip_zeros l /\
  list.head (skip_zeros l) <> Some 0.
Proof.
  induction l as [|x l IH]; [by exists 0%nat|]. cbn [skip_zeros].
  destruct (x =? 0) eqn:E; bools.
  - destruct IH as (n & IH & H). subst. exists (S n). cbn. by rewrite IH at 1.
  - exists 0%nat. split; [done|]. cbn. congruence.
Qed.

Lemma be_val_zeros n l : be_val (replicate n 0 ++ l) = be_val l.
Proof. induction n; cbn [replicate app]; [done|]. rewrite be_val_cons. lia. Qed.

Lemma trim_leading_zeros_spec l : bytes l ->
  bytes (trim_leading_zeros l) /\ trim_leading_zeros l <> [] /\
  be_val (trim_leading_zeros l) = be_val l /\
  (trim_leading_zeros l = [0] \/ list.head (trim_leading_zeros l) <> Some 0).
Proof.
  intros Hl. destruct (skip_zeros_spec l) as (n & E & H). unfold trim_leading_zeros.
  assert (be_val (skip_zeros l) = be_val l) as V by (rewrite E at 2; by rewrite be_val_zeros).
  assert (bytes (skip_zeros l)) as B by (rewrite E, List.Forall_app in Hl; tauto).
  destruct (skip_zeros l) as [|x t]; [|auto].
  conjs; [repeat constructor; unfold is_byte; lia|done|done|by left].
Qed.

Lemma to_be_bytes_spec l : limbs l ->
  bytes (to_be_bytes l) /\ be_val (to_be_bytes l) = limbs_val l /\
  (to_be_bytes l = [0] \/ list.head (to_be_bytes l) <> Some 0).
Proof.
  intros Hl. unfold to_be_bytes.
  assert (bytes (concat (map (be_bytes 4) (reverse l))) /\
          be_val (concat (map (be_bytes 4) (reverse l))) = limbs_val l) as [B V].
  { induction Hl as [|x l Hx Hl [IHb IHv]]; [done|].
    rewrite reverse_cons, map_app, concat_app. cbn [map concat]. rewrite app_nil_r. split.
    - rewrite List.Forall_app. split; [done|apply be_bytes_bytes].
    - rewrite be_val_app, IHv, zlen_be_bytes, be_val_be_bytes_small by (unfold is_u32 in Hx; lia).
      cbn [limbs_val]. change (256 ^ Z.of_nat 4) with (2 ^ 32). lia. }
  destruct (trim_leading_zeros_spec _ B) as (B' & _ & V' & H). conjs; [done|lia|done].
Qed.

(** ** Exponentiation *)

Section exponentiation.
Context (m base : list Z) (Hm : limbs m) (Hb : limbs base) (HM : 0 < limbs_val m).
Context (g : Z) (Hg : limbs_val base = g mod limbs_val m).
Let M := limbs_val m.

(** [result] stands for [g ^ k] modulo [M]. *)
Definition represents (result : list Z) (k : Z) : Prop :=
  limbs result /\ result <> [] /\ limbs_val result mod M = g ^ k mod M.

Local Lemma mod_rem_pos a : limbs a ->
  limbs (mod_rem a m) /\ mod_rem a m <> [] /\ limbs_val (mod_rem a m) = limbs_val a mod M.
Proof.
  intros Ha. destruct (mod_rem_spec a m Ha Hm) as (L & N & V).
  rewrite (proj2 (Z.eqb_neq _ _)) in V by (fold M; lia). done.
Qed.

Local Lemma pow_step_spec b bit result k :
  0 <= k -> represents result k ->
  represents (pow_step m base b bit result)
    (2 * k + Z.b2z (Z.testbit b (Z.of_nat bit))) /\
  limbs_val (pow_step m base b bit result) < M.
Proof.
  intros Hk (L & N & V). unfold pow_step. rewrite bit_test by lia.
  destruct (mul_limbs_spec result result N L L) as (L1 & N1 & V1).
  destruct (mod_rem_pos _ L1) as (L2 & N2 & V2).
  assert (limbs_val (mod_rem (mul_limbs result result) m) = g ^ (2 * k) mod M) as V2'.
  { rewrite V2, V1, Z.mul_mod, V, <- Z.mul_mod by (unfold M; lia).
    rewrite <- Z.pow_add_r by lia. do 2 f_equal. lia. }
  destruct (Z.testbit b (Z.of_nat bit)); cbn [Z.b2z].
  - destruct (mul_limbs_spec _ base N2 L2 Hb) as (L3 & N3 & V3).
    destruct (mod_rem_pos _ L3) as (L4 & N4 & V4).
    split; [split; [done|split; [done|]]|].
    + rewrite V4, Z.mod_mod, V3, V2', Hg by (unfold M; lia). fold M.
      rewrite <- Z.mul_mod, Z.pow_add_r, Z.pow_1_r by (unfold M in *; lia). done.
    + rewrite V4. apply Z.mod_pos_bound. done.
  - rewrite Z.add_0_r. split; [split; [done|split; [done|]]|].
    + rewrite V2'. apply Z.mod_mod. unfold M. lia.
    + rewrite V2. apply Z.mod_pos_bound. done.
Qed.

Local Lemma pow_byte_spec b n result k :
  0 <= k -> represents result k ->
  represents (pow_byte m base b n result) (k * 2 ^ Z.of_nat n + b mod 2 ^ Z.of_nat n) /\
  ((0 < n)%nat -> limbs_val (pow_byte m base b n result) < M).
Proof.
  revert result k; induction n as [|n IH]; intros result k Hk R; cbn [pow_byte].
  - rewrite Z.pow_0_r, Z.mod_1_r, Z.mul_1_r, Z.add_0_r. split; [done|lia].
  - destruct (pow_step_spec b n result k Hk R) as [R1 B1].
    assert (0 <= 2 * k + Z.b2z (Z.testbit b (Z.of_nat n))) as Hk' by (destruct (Z.testbit _ _); cbn; lia).
    destruct (IH _ _ Hk' R1) as [R2 B2]. split.
    + replace (k * 2 ^ Z.of_nat (S n) + b mod 2 ^ Z.of_nat (S n)) with
        ((2 * k + Z.b2z (Z.testbit b (Z.of_nat n))) * 2 ^ Z.of_nat n + b mod 2 ^ Z.of_nat n); [done|].
      rewrite Nat2Z.inj_succ, Z.pow_succ_r, (Z.mul_comm 2 (2 ^ _)), Z.rem_mul_r by lia.
      rewrite Z.testbit_spec' by lia. ring.
    + intros _. destruct n; [done|]. apply B2. lia.
Qed.

Local Lemma pow_bytes_spec exp result k :
  0 <= k -> represents result k -> bytes exp ->
  let r := fold_left (fun result b => pow_byte m base b 8 result) exp result in
  represents r (fold_left (fun acc b => acc * 256 + b) exp k) /\
  (exp <> [] -> limbs_val r < M).
Proof.
  intros Hk R He. revert result k Hk R; induction He as [|b exp Hb' He IH]; intros; [done|].
  cbn [fold_left]. destruct (pow_byte_spec b 8 result k Hk R) as [R1 B1].
  change (2 ^ Z.of_nat 8) with 256 in R1. unfold is_byte in Hb'.
  rewrite Z.mod_small in R1 by lia.
  destruct (IH _ (k * 256 + b) ltac:(lia) R1) as [R2 B2]. split; [done|]. intros _.
  destruct exp; [apply B1; lia|by apply B2].
Qed.
End exponentiation.

Lemma mod_pow_spec base_be exp_be m_be :
  bytes base_be -> bytes exp_be -> bytes m_be -> exp_be <> [] -> 0 < be_val m_be ->
  bytes (mod_pow base_be exp_be m_be) /\
  be_val (mod_pow base_be exp_be m_be) = be_val base_be ^ be_val exp_be mod be_val m_be /\
  (mod_pow base_be exp_be m_be = [0] \/ list.head (mod_pow base_be exp_be m_be) <> Some 0).
Proof.
  intros Hb He Hm Hne HM. unfold mod_pow.
  destruct (to_limbs_be_spec m_be Hm) as (Lm & _ & Vm).
  destruct (to_limbs_be_spec base_be Hb) as (Lb & _ & Vb).
  destruct (mod_rem_spec _ _ Lb Lm) as (L & _ & V).
  rewrite Vm, Vb, (proj2 (Z.eqb_neq _ _)) in V by lia.
  rewrite <- Vm in V, HM.
  destruct (pow_bytes_spec _ _ Lm L HM (be_val base_be) V exp_be [1] 0) as [(Lr & _ & Vr) Br];
    [done| |done|].
  { split; [repeat constructor; unfold is_u32; lia|]. split; [done|]. by rewrite Z.pow_0_r. }
  specialize (Br Hne). destruct (to_be_bytes_spec _ Lr) as (B & Vt & H). conjs; [done| |done].
  fold (be_val exp_be) in Vr. rewrite Vt, <- Vm, <- Vr. symmetry. apply Z.mod_small.
  split; [|done]. by apply limbs_val_bound.
Qed.

(** ** The encoded message *)

(** EMSA-PKCS1-v1_5 for SHA-256 in [k] octets (RFC 8017, section 9.2). *)
Definition emsa_sha256 (k : nat) (digest : list Z) : list Z :=
  0 :: 1 :: replicate (k - 54) 255 ++ 0 :: DIGEST_INFO_SHA256 ++ digest.

Lemma get_from_app {A} (pre : list A) (x : A) post :
  get_from (pre ++ x :: post) (zlen pre + 1) = Some post.
Proof.
  apply get_range_split. exists (pre ++ [x]), []. rewrite app_nil_r, <- app_assoc.
  rewrite !zlen_app, !zlen_cons, zlen_nil. split; [done|]. split; lia.
Qed.

Lemma ff_run_spec l : exists t, l = replicate (ff_run l) 255 ++ t /\ list.head t <> Some 255.
Proof.
  induction l as [|x l IH]; [by exists []|]. cbn [ff_run].
  destruct (x =? 255) eqn:E; bools.
  - destruct IH as (t & IH & H). exists t. subst. cbn. by rewrite IH at 1.
  - exists (x :: l). split; [done|]. cbn. congruence.
Qed.

Lemma ff_run_app n t : list.head t <> Some 255 -> ff_run (replicate n 255 ++ t) = n.
Proof.
  intros H. induction n as [|n IH]; cbn; [|by f_equal].
  destruct t as [|x t]; [done|]. cbn in *. destruct (x =? 255) eqn:E; bools; congruence.
Qed.

Lemma body_ok_spec digest body :
  length digest = 32%nat -> body_ok digest body = true <-> body = DIGEST_INFO_SHA256 ++ digest.
Proof.
  intros Hd. unfold body_ok. change (zlen DIGEST_INFO_SHA256) with 19. split.
  - destruct (zlen body =? 19 + 32) eqn:E; cbn [negb]; [|done]. bools.
    destruct (get_range body 0 19) as [di|] eqn:E1; [|done].
    destruct (get_from body 19) as [dg|] eqn:E2; [|done].
    intros [->%bool_decide_eq_true ->%bool_decide_eq_true]%andb_prop.
    apply get_range_split in E1 as (pre & post & -> & Hp & _). apply zlen_0 in Hp as ->.
    cbn [app]. f_equal. apply get_range_split in E2 as (pre & post' & E2 & Hp & Hl).
    assert (post' = []) as ->.
    { apply zlen_0. apply (f_equal zlen) in E2. rewrite !zlen_app in *. lia. }
    rewrite app_nil_r in E2. change ([] ++ ?x) with x in E2.
    apply app_inj_1 in E2; [tauto|]. unfold zlen in Hp. change (length DIGEST_INFO_SHA256) with 19%nat. lia.
  - intros ->. assert (zlen digest = 32) by (unfold zlen; lia).
    rewrite zlen_app. change (zlen DIGEST_INFO_SHA256) with 19. decide_ifs.
    rewrite (get_range_middle [] DIGEST_INFO_SHA256 digest) by done.
    replace (get_from (DIGEST_INFO_SHA256 ++ digest) 19) with (Some digest);
      [by rewrite !bool_decide_eq_true_2|].
    symmetry. apply get_range_split. exists DIGEST_INFO_SHA256, [].
    rewrite app_nil_r, zlen_app. done.
Qed.

Lemma em_ok_spec digest em :
  length digest = 32%nat ->
  em_ok digest em = true <-> (62 <= length em)%nat /\ em = emsa_sha256 (length em) digest.
Proof.
  intros Hd. unfold em_ok. split.
  - destruct (_ || _ || _)%bool eqn:E; [done|]. apply orb_false_elim in E as [[_ E0]%orb_false_elim E1].
    apply negb_false_iff, bool_decide_eq_true in E0, E1.
    destruct em as [|x [|y t]]; [done|done|].
    injection E0 as ->. change (get (0 :: y :: t) 1) with (Some y) in E1. injection E1 as ->.
    cbn zeta. change (drop 2 (0 :: 1 :: t)) with t.
    destruct (ff_run_spec t) as (t' & Et & Ht). set (p := ff_run t) in *. clearbody p. subst t.
    destruct (_ || _)%bool eqn:E2; [done|]. apply orb_false_elim in E2 as [Hp H1].
    apply Z.ltb_ge in Hp. apply negb_false_iff, bool_decide_eq_true in H1.
    set (pre := 0 :: 1 :: replicate p 255) in *.
    change (0 :: 1 :: replicate p 255 ++ t') with (pre ++ t') in *.
    assert (zlen pre = 2 + Z.of_nat p) as Lp
      by (unfold pre; rewrite !zlen_cons, zlen_replicate; lia).
    rewrite <- Lp in H1 |- *. rewrite <- (Z.add_0_r (zlen pre)), get_app_r in H1 by lia.
    destruct t' as [|z body]; [done|]. cbn in H1. injection H1 as ->.
    rewrite get_from_app, body_ok_spec by done. intros ->. unfold emsa_sha256, zlen in *.
    rewrite !length_app. cbn [length]. rewrite !length_app, Hd.
    change (length DIGEST_INFO_SHA256) with 19%nat.
    split; [lia|]. by replace (length pre + S (19 + 32) - 54)%nat with p by lia.
  - intros [Hl ->]. revert Hl. generalize (length em) as k. intros k Hk. unfold emsa_sha256.
    set (em' := 0 :: 1 :: _). assert (zlen em' = Z.of_nat k) as Lk.
    { unfold em'. rewrite !zlen_cons, zlen_app, zlen_replicate, zlen_cons, zlen_app.
      change (zlen DIGEST_INFO_SHA256) with 19. unfold zlen. lia. }
    change (drop 2 em') with (replicate (k - 54) 255 ++ 0 :: DIGEST_INFO_SHA256 ++ digest).
    rewrite ff_run_app by done. cbn zeta.
    change (get em' 1) with (Some 1). change (list.head em') with (Some 0).
    rewrite !bool_decide_eq_true_2 by done. decide_ifs.
    set (pre := 0 :: 1 :: replicate (k - 54) 255).
    assert (zlen pre = 2 + Z.of_nat (k - 54)) as Lp
      by (unfold pre; rewrite !zlen_cons, zlen_replicate; lia).
    rewrite <- Lp. change em' with (pre ++ 0 :: DIGEST_INFO_SHA256 ++ digest).
    rewrite get_middle, bool_decide_eq_true_2 by done. cbn [negb orb].
    rewrite get_from_app.
    by rewrite body_ok_spec.
Qed.

(** ** Keys *)

Lemma exp_field_spec key n off :
  bytes key -> exp_field key = Some (n, off) <->
  exists prefix rest, key = prefix ++ rest /\ off = zlen prefix /\
    ((prefix = [n] /\ 0 < n) \/ exists hi lo, prefix = [0; hi; lo] /\ n = be_val [hi; lo]).
Proof.
  intros Hk. unfold exp_field. split.
  - destruct key as [|x t]; [done|]. apply Forall_cons_1 in Hk as [Hx _]. unfold is_byte in Hx.
    destruct (x =? 0) eqn:E; bools.
    + subst. destruct t as [|hi [|lo t]]; [done|done|].
      change (get (0 :: hi :: lo :: t) 1) with (Some hi).
      change (get (0 :: hi :: lo :: t) 2) with (Some lo). intros [= <- <-].
      exists [0; hi; lo], t. split; [done|]. split; [done|]. right. by exists hi, lo.
    + intros [= -> <-]. exists [n], t. split; [done|]. split; [done|]. left. split; [done|lia].
  - intros (prefix & rest & -> & -> & [[-> Hn]|(hi & lo & -> & ->)]); cbn [app].
    + by decide_ifs.
    + done.
Qed.

(** The RFC 3110 key parser accepts exactly a length field (one octet, or
    zero and two octets), a non-empty exponent of that length and a modulus of
    at least three octets, and returns those two fields. *)
Theorem parse_dnskey_rsa_exact key m e :
  bytes key -> zlen key <= 65536 ->
  parse_dnskey_rsa key = Some (m, e) <->
  exists prefix, key = prefix ++ e ++ m /\ 0 < zlen e /\ 3 <= zlen m /\
    (prefix = [zlen e] \/ exists hi lo, prefix = [0; hi; lo] /\ zlen e = be_val [hi; lo]).
Proof.
  intros Hk Hlen. unfold parse_dnskey_rsa. split.
  - destruct (exp_field key) as [[n off]|] eqn:E; [|done].
    apply exp_field_spec in E as (prefix & rest & -> & -> & Hp); [|done].
    destruct (n =? 0) eqn:En; [done|]. unfold checked_add.
    destruct (_ <=? usize_max); [|done].
    destruct (_ >? _) eqn:Eg; [done|].
    destruct (get_range _ _ _) as [e'|] eqn:E1; [|done].
    destruct (get_from _ _) as [m'|] eqn:E2; [|done].
    destruct (zlen m' <? 3) eqn:E3; [done|]. intros [= -> ->]. bools.
    apply get_range_split in E1 as (pre & post & E1 & Hpre & Hn).
    apply app_inj_1 in E1 as [-> ->]; [|unfold zlen in Hpre; lia].
    assert (n = zlen e) as -> by lia.
    apply get_range_split in E2 as (pre' & post' & E2 & Hpre' & Hl).
    rewrite app_assoc in E2. assert (post' = []) as ->.
    { apply zlen_0. apply (f_equal zlen) in E2. rewrite !zlen_app in *. lia. }
    rewrite app_nil_r in E2.
    apply app_inj_1 in E2 as [<- <-]; [|rewrite <- zlen_app in Hpre'; unfold zlen in Hpre'; lia].
    exists pre. split; [done|]. pose proof (zlen_nonneg e). split; [lia|]. split; [lia|].
    destruct Hp as [[-> _]|Hp]; auto.
  - intros (prefix & -> & He & Hm & Hp).
    assert (exp_field (prefix ++ e ++ m) = Some (zlen e, zlen prefix)) as ->.
    { apply exp_field_spec; [done|]. exists prefix, (e ++ m). split; [done|]. split; [done|].
      destruct Hp as [->|Hp]; auto. }
    pose proof (zlen_nonneg prefix). rewrite !zlen_app in Hlen.
    decide_ifs. unfold checked_add, usize_max. decide_ifs.
    rewrite Z.gtb_ltb, !zlen_app. decide_ifs.
    rewrite (get_range_middle prefix e m) by done.
    replace (get_from (prefix ++ e ++ m) (zlen prefix + zlen e)) with (Some m).
    { by decide_ifs. }
    symmetry. apply get_range_split. exists (prefix ++ e), [].
    rewrite app_nil_r, <- app_assoc, !zlen_app. split; [done|]. split; lia.
Qed.

Lemma parse_dnskey_rsa_exact_witness :
  bytes [1; 3; 10; 11; 12] /\ zlen [1; 3; 10; 11; 12] <= 65536 /\
  parse_dnskey_rsa [1; 3; 10; 11; 12] = Some ([10; 11; 12], [3]).
Proof.
  assert (bytes [1; 3; 10; 11; 12]) as B by (repeat constructor; unfold is_byte; lia).
  split; [exact B|]. split; [done|].
  apply (parse_dnskey_rsa_exact [1; 3; 10; 11; 12] [10; 11; 12] [3] B); [done|].
  exists [1]. split; [done|]. split; [done|]. split; [done|]. by left.
Defined.

(** ** Verification *)

(** A canonical encoding of a number below [256 ^ k] has at most [k] octets. *)
Lemma canonical_length l k :
  bytes l -> l = [0] \/ list.head l <> Some 0 -> (1 <= k)%nat ->
  be_val l < 256 ^ Z.of_nat k -> (length l <= k)%nat.
Proof.
  intros Hb [->|Hh] Hk Hlt; [done|]. destruct l as [|x l]; [cbn; lia|].
  apply Forall_cons_1 in Hb as [Hx Hb]. rewrite be_val_cons in Hlt.
  pose proof (be_val_bound l Hb). cbn in Hh. unfold is_byte in Hx.
  assert (1 <= x) by (destruct (Z.eq_dec x 0); [congruence|lia]).
  destruct (Nat.le_gt_cases (length (x :: l)) k) as [|G]; [done|]. cbn [length] in G.
  assert (256 ^ Z.of_nat k <= 256 ^ zlen l) by (apply Z.pow_le_mono_r; unfold zlen; lia). nia.
Qed.

Lemma be_val_inj l1 l2 : bytes l1 -> bytes l2 -> length l1 = length l2 ->
  be_val l1 = be_val l2 -> l1 = l2.
Proof.
  intros H1 H2 L V. rewrite <- (be_bytes_be_val l1), <- (be_bytes_be_val l2) by done.
  by rewrite L, V.
Qed.

Lemma emsa_bytes k digest : bytes digest -> bytes (emsa_sha256 k digest).
Proof.
  intros Hd. unfold emsa_sha256. rewrite !List.Forall_cons_iff, List.Forall_app, List.Forall_cons_iff, List.Forall_app.
  conjs; try (unfold is_byte; lia); [|repeat constructor; unfold is_byte; lia|done].
  apply Forall_replicate. unfold is_byte; lia.
Qed.

Lemma emsa_length k digest :
  (62 <= k)%nat -> length digest = 32%nat -> length (emsa_sha256 k digest) = k.
Proof.
  intros. unfold emsa_sha256. cbn [length]. rewrite length_app, length_replicate. cbn [length].
  rewrite length_app. change (length DIGEST_INFO_SHA256) with 19%nat. lia.
Qed.

Lemma verify_em_spec em k digest :
  length digest = 32%nat ->
  verify_em em k digest = true <->
  (62 <= k)%nat /\ (length em <= k)%nat /\
  replicate (k - length em) 0 ++ em = emsa_sha256 k digest.
Proof.
  intros Hd. unfold verify_em. destruct (Nat.ltb_spec k (length em)); [split; [done|lia]|].
  rewrite em_ok_spec, length_app, length_replicate by done.
  replace (k - length em + length em)%nat with k by lia. tauto.
Qed.

(** C38: an RSA/SHA-256 signature verifies exactly when the key parses, its
    modulus [n] is at least 62 octets long without leading zeros, and the
    signature raised to the exponent modulo [n] is the number the PKCS#1 v1.5
    encoding of the digest stands for.  The limb arithmetic (products, shifts,
    borrows, long division, square-and-multiply) computes that power exactly. *)
Theorem verify_pkcs1v15_sha256_correct key digest signature :
  bytes key -> bytes digest -> bytes signature -> length digest = 32%nat ->
  zlen key <= 65536 ->
  verify_pkcs1v15_sha256 key digest signature = true <->
  exists m e, parse_dnskey_rsa key = Some (m, e) /\
    (62 <= length (trim_leading_zeros m))%nat /\
    be_val signature ^ be_val e mod be_val m
    = be_val (emsa_sha256 (length (trim_leading_zeros m)) digest).
Proof.
  intros Hk Hd Hs Hl Hlen. unfold verify_pkcs1v15_sha256.
  destruct (parse_dnskey_rsa key) as [[m e]|] eqn:E;
    [|split; [done|intros (? & ? & ? & _); done]].
  pose proof E as P. apply parse_dnskey_rsa_exact in P as (pre & -> & He & Hm & _); [|done|done].
  rewrite !List.Forall_app in Hk. destruct Hk as (_ & Be & Bm).
  destruct (trim_leading_zeros_spec m Bm) as (Bt & Nt & Vt & Ht).
  set (n := trim_leading_zeros m) in *. rewrite verify_em_spec by done.
  assert ((62 <= length n)%nat -> 0 < be_val n) as Hpos.
  { intros L. destruct Ht as [->|Hh]; [cbn in L; lia|]. destruct n as [|x n']; [done|].
    apply Forall_cons_1 in Bt as [Bx Bn]. rewrite be_val_cons.
    pose proof (be_val_bound n' Bn). cbn in Hh. unfold is_byte in Bx.
    assert (1 <= x) by (destruct (Z.eq_dec x 0); [congruence|lia]).
    pose proof (Z.pow_pos_nonneg 256 (zlen n')). pose proof (zlen_nonneg n'). nia. }
  assert (e <> []) as Ne by (intros ->; done).
  split.
  - intros (L & Lem & Em). exists m, e. fold n. split; [done|]. split; [done|].
    destruct (mod_pow_spec signature e n) as (_ & V & _); [done|done|done|done|by apply Hpos|].
    rewrite <- Em, be_val_zeros, V, Vt. done.
  - intros (m' & e' & [= <- <-] & L & V). fold n in L, V. split; [done|].
    destruct (mod_pow_spec signature e n) as (B & V' & C); [done|done|done|done|by apply Hpos|].
    assert (length (mod_pow signature e n) <= length n)%nat as Lem.
    { apply canonical_length; [done|done|lia|]. rewrite V'.
      pose proof (Z.mod_pos_bound (be_val signature ^ be_val e) (be_val n) (Hpos L)).
      pose proof (be_val_bound n Bt). unfold zlen in *. lia. }
    split; [done|]. apply be_val_inj.
    + rewrite List.Forall_app. split; [|done]. apply Forall_replicate. unfold is_byte; lia.
    + by apply emsa_bytes.
    + rewrite emsa_length, length_app, length_replicate by done. lia.
    + by rewrite be_val_zeros, V', Vt.
Qed.

Lemma xor_fold_zero a b d : bytes a -> bytes b -> 0 <= d -> length a = length b ->
  fold_left (fun diff '(x, y) => Z.lor diff (Z.lxor x y)) (zip a b) d = 0 <-> d = 0 /\ a = b.
Proof.
  intros Ha. revert b d. induction Ha as [|x a Hx Ha IH]; intros b d Hb Hd L.
  - destruct b; [|done]. cbn. tauto.
  - destruct Hb as [|y b Hy Hb]; [done|]. injection L as L.
    change (zip (x :: a) (y :: b)) with ((x, y) :: zip a b). cbn [fold_left]. unfold is_byte in *.
    rewrite IH by (done || (apply Z.lor_nonneg; split; [done|apply Z.lxor_nonneg; lia])).
    rewrite Z.lor_eq_0_iff, Z.lxor_eq_0_iff. split; [intros [[-> ->] ->]; done|by intros [-> [= -> ->]]].
Qed.

Lemma constant_time_eq_spec a b :
  bytes a -> bytes b -> constant_time_eq a b = true <-> a = b.
Proof.
  intros Ha Hb. unfold constant_time_eq. destruct (zlen a =? zlen b) eqn:E; cbn [negb]; bools.
  - rewrite Z.eqb_eq, xor_fold_zero by (done || (unfold zlen in E; lia)). tauto.
  - split; [done|]. intros ->. done.
Qed.

Definition sample_key : list Z := [1; 1] ++ replicate 62 255.
Definition sample_digest : list Z := replicate 32 7.

Lemma verify_pkcs1v15_sha256_correct_witness :
  bytes sample_key /\ bytes sample_digest /\
  verify_pkcs1v15_sha256 sample_key sample_digest (emsa_sha256 62 sample_digest) = true.
Proof.
  assert (bytes sample_digest) as Bd by (apply Forall_replicate; unfold is_byte; lia).
  assert (bytes sample_key) as Bk.
  { constructor; [unfold is_byte; lia|]. constructor; [unfold is_byte; lia|].
    apply Forall_replicate; unfold is_byte; lia. }
  split; [exact Bk|]. split; [exact Bd|].
  apply (verify_pkcs1v15_sha256_correct sample_key sample_digest _ Bk Bd);
    [by apply emsa_bytes|done|done|].
  exists (replicate 62 255), [1]. split; [reflexivity|]. split; [vm_compute; lia|].
  vm_compute. reflexivity.
Defined.

(** A cube root of the encoded message verifies under exponent 3 only if its
    cube is the encoding: here it is not. *)
Example verify_rejects :
  verify_pkcs1v15_sha256 ([1; 3] ++ replicate 62 255) sample_digest
    (emsa_sha256 62 sample_digest) = false.
Proof. vm_compute. reflexivity. Qed.
