(* ===== verification/RrSet.v ===== *)
(** * Record sets ([src/rrset.rs])

    The unit of caching: the records of one type at one owner, with their
    effective TTL and their content fingerprint. *)
From Stdlib Require Import Sorted Permutation.
From stdpp Require Import gmap.
From S2P Require Import Prelude Wire Prng Name Compress Qtype Bitmap RData Rr BTree Sort Time.

Record RrSet := mkRrSet {
  rs_name : Name;
  rs_type : RrType;
  rs_class : RrClass;
  records : list Rr;
  rrsigs : list Rr;
  rs_ttl : Z;
  rs_validated : bool }.

Definition rrset_new (name : Name) (rr_type : RrType) (class : RrClass) (ttl : Z) : RrSet :=
  mkRrSet name rr_type class [] [] ttl false.

Definition add_record (s : RrSet) (rec : Rr) : RrSet :=
  mkRrSet (rs_name s) (rs_type s) (rs_class s) (records s ++ [rec]) (rrsigs s)
    (Z.min (rs_ttl s) (ttl rec)) (rs_validated s).

Definition add_rrsig (s : RrSet) (rec : Rr) : RrSet :=
  mkRrSet (rs_name s) (rs_type s) (rs_class s) (records s) (rrsigs s ++ [rec])
    (rs_ttl s) (rs_validated s).

Definition rrset_len (s : RrSet) : Z := zlen (records s).
Definition rrset_is_empty (s : RrSet) : bool := rrset_len s =? 0.

(** The record as serialised, with the TTL zeroed. *)
Definition record_wire_without_ttl (r : Rr) : list Z :=
  let v := write_wire (name r) [] in
  let v := v ++ be_bytes 2 (rr_type r) in
  let v := v ++ be_bytes 2 (class r) in
  let v := v ++ [0; 0; 0; 0] in
  let rd := fst (rdata_to_wire (rdata r) [] None) in
  let v := v ++ be_bytes 2 (wrap 16 (zlen rd)) in
  v ++ rd.

Definition fingerprint (s : RrSet) : Z :=
  fold_left fnv1a_combine (sort_octets (map record_wire_without_ttl (records s))) 0xcbf29ce484222325.

Definition same_data (self other : RrSet) : bool :=
  if negb (rrset_len self =? rrset_len other) then false
  else fingerprint self =? fingerprint other.

Definition expires_at (s : RrSet) (now : Ts) : Ts := ts_saturating_add now (rs_ttl s * 1000000000).

Definition cname_target (s : RrSet) : option Name :=
  list_find_map (fun r => match rdata r with RD_Cname n => Some n | _ => None end) (records s).
Definition dname_target (s : RrSet) : option Name :=
  list_find_map (fun r => match rdata r with RD_Dname n => Some n | _ => None end) (records s).
Definition ns_names (s : RrSet) : list Name :=
  omap (fun r => match rdata r with RD_Ns n => Some n | _ => None end) (records s).

(** The loop of [from_records]: the minimum TTL, the data, the signatures. *)
Fixpoint split_records (recs : list Rr) (ttl_ : Z) (data sigs : list Rr) : Z * list Rr * list Rr :=
  match recs with
  | [] => (ttl_, data, sigs)
  | rec :: recs =>
      let ttl_ := Z.min ttl_ (ttl rec) in
      if rr_type rec =? RrTypes.RRSIG then split_records recs ttl_ data (sigs ++ [rec])
      else split_records recs ttl_ (data ++ [rec]) sigs
  end.

Definition not_exactly_one : Error := wire "RRset has more than one record".

Definition from_records (recs : list Rr) (max_ttl_cap : Z) : result Error RrSet :=
  match recs with
  | [] => Err (internal "empty RRset construction")
  | first :: _ =>
      let '(t, data, sigs) := split_records recs u32_max [] [] in
      let t := if t =? u32_max then 0 else t in
      if ((rr_type first =? RrTypes.CNAME) || (rr_type first =? RrTypes.DNAME)) && (1 <? zlen data)
      then Err not_exactly_one
      else Ok (mkRrSet (name first) (rr_type first) (class first) data sigs
                 (Z.min t max_ttl_cap) false)
  end.

Definition estimated_bytes (s : RrSet) : Z :=
  let cost n r := n + (wire_len (name r) + 40 + rdata_wire_len (rdata r)) in
  fold_left cost (rrsigs s) (fold_left cost (records s) (wire_len (rs_name s) + 24)).

(** ** Lemmas *)

Definition zero_ttl (r : Rr) : Rr := mkRecord (name r) (rr_type r) (class r) 0 (rdata r).

(** Without a compressor the data is appended as it is. *)
Lemma rdata_to_wire_plain d out :
  rdata_to_wire d out None = (out ++ fst (rdata_to_wire d [] None), None).
Proof.
  destruct d; cbn [rdata_to_wire put_name fst]; unfold write_wire;
    try (by rewrite plain_to_wire_app); by rewrite <- ?app_assoc, ?app_nil_l.
Qed.

(** The fingerprint's image of a record is its serialisation with TTL zero. *)
Lemma record_wire_without_ttl_to_wire r :
  rdata_wire_len (rdata r) <= u16_max ->
  record_to_wire (zero_ttl r) [] None = Ok (record_wire_without_ttl r, None).
Proof.
  intros Hl. unfold record_to_wire, zero_ttl. cbn [name rr_type class ttl rdata put_name].
  rewrite rdata_to_wire_plain. unfold rdata_wire_len in Hl.
  set (rd := fst (rdata_to_wire (rdata r) [] None)) in *.
  set (head := (((write_wire (name r) [] ++ be_bytes 2 (rr_type r)) ++ be_bytes 2 (class r))
                ++ be_bytes 4 0)).
  replace (zlen ((head ++ [0; 0]) ++ rd) - zlen head - 2) with (zlen rd) by lens.
  rewrite reject_false by (by apply Z.ltb_ge). cbn [mbind result_bind].
  rewrite <- app_assoc, patch_u16_middle. cbn [mbind result_bind].
  unfold record_wire_without_ttl. fold rd. change [0; 0; 0; 0] with (be_bytes 4 0). fold head.
  by rewrite app_assoc.
Qed.

(** The image determines the record, its TTL apart. *)
Lemma record_wire_without_ttl_inj r1 r2 :
  record_ok r1 -> record_ok r2 ->
  rdata_wire_len (rdata r1) <= u16_max -> rdata_wire_len (rdata r2) <= u16_max ->
  record_wire_without_ttl r1 = record_wire_without_ttl r2 -> zero_ttl r1 = zero_ttl r2.
Proof.
  intros H1 H2 L1 L2 E.
  assert (forall r, record_ok r -> rdata_wire_len (rdata r) <= u16_max ->
            record_parse (record_wire_without_ttl r) 0
            = Ok (zero_ttl r, zlen (record_wire_without_ttl r))) as P.
  { intros r Hr Hl.
    assert (record_ok (zero_ttl r)) as H0.
    { destruct Hr as (? & ? & ? & _ & ?). unfold record_ok, zero_ttl. cbn. conjs; try tauto; unfold is_u32; lia. }
    destruct (record_to_wire_written _ [] None _ _ H0 I (record_wire_without_ttl_to_wire r Hl))
      as (w & E' & Hb & _ & _ & Hp).
    specialize (Hp []). rewrite app_nil_r in Hp. apply Hp. split; [by rewrite E'|].
    unfold record_wire_without_ttl. destruct Hr as ((ls & (_ & _ & Hn & _) & E2) & _).
    unfold rdata_wire_len, u16_max, usize_max, write_wire in *. rewrite E2. unfold of_labels. cbn [as_bytes].
    autorewrite with rxlen. change (zlen [0; 0; 0; 0]) with 4. unfold MAX_NAME_LEN in *. lia. }
  pose proof (P r1 H1 L1) as P1. pose proof (P r2 H2 L2) as P2. rewrite E, P2 in P1. congruence.
Qed.

Lemma split_records_spec recs t data sigs :
  split_records recs t data sigs =
  (fold_left (fun t r => Z.min t (ttl r)) recs t,
   data ++ List.filter (fun r => negb (rr_type r =? RrTypes.RRSIG)) recs,
   sigs ++ List.filter (fun r => rr_type r =? RrTypes.RRSIG) recs).
Proof.
  revert t data sigs; induction recs as [|r recs IH]; intros; cbn [split_records fold_left List.filter].
  - by rewrite !app_nil_r.
  - destruct (rr_type r =? RrTypes.RRSIG); rewrite IH, <- app_assoc; done.
Qed.

Lemma min_ttl_spec recs t :
  let m := fold_left (fun t r => Z.min t (ttl r)) recs t in
  m <= t /\ Forall (fun r => m <= ttl r) recs /\ (m = t \/ Exists (fun r => m = ttl r) recs).
Proof.
  revert t; induction recs as [|r recs IH]; intros t; cbn zeta; cbn [fold_left].
  - split; [lia|]. split; [done|by left].
  - destruct (IH (Z.min t (ttl r))) as (A & B & C). split; [lia|]. split.
    + constructor; [lia|done].
    + destruct C as [C|C]; [|right; by right].
      destruct (Z.le_gt_cases t (ttl r)); [left; lia|right; left; lia].
Qed.

(** ** Properties *)

(** change detection sees the data and nothing else.  Two sets whose data
    records are the same up to order and TTL have the same data, whatever
    their signatures, effective TTL and validation; and the image that is
    hashed loses nothing but the TTL: equal images come from equal records. *)
Theorem same_data_ignores_order_and_ttl s1 s2 :
  Permutation (map zero_ttl (records s1)) (map zero_ttl (records s2)) ->
  same_data s1 s2 = true /\ fingerprint s1 = fingerprint s2 /\
  (forall r1 r2, In r1 (records s1) -> In r2 (records s2) -> record_ok r1 -> record_ok r2 ->
     rdata_wire_len (rdata r1) <= u16_max -> rdata_wire_len (rdata r2) <= u16_max ->
     (record_wire_without_ttl r1 = record_wire_without_ttl r2 <-> zero_ttl r1 = zero_ttl r2)).
Proof.
  intros P.
  assert (forall r1 r2, zero_ttl r1 = zero_ttl r2 ->
            record_wire_without_ttl r1 = record_wire_without_ttl r2) as W.
  { intros [n t c x d] [n' t' c' x' d'] [= -> -> -> ->]. done. }
  assert (fingerprint s1 = fingerprint s2) as F.
  { unfold fingerprint. f_equal. apply sort_octets_unique.
    assert (forall l, map record_wire_without_ttl l = map record_wire_without_ttl (map zero_ttl l)) as M.
    { intros l. rewrite map_map. apply map_ext. intros r. by apply W. }
    rewrite (M (records s1)), (M (records s2)). by apply Permutation_map. }
  split; [|split; [done|]].
  - unfold same_data, rrset_len. apply Permutation_length in P. rewrite !length_map in P.
    unfold zlen. rewrite P, Z.eqb_refl. cbn [negb]. by rewrite F, Z.eqb_refl.
  - intros r1 r2 _ _ ? ? ? ?. split; [by apply record_wire_without_ttl_inj|apply W].
Qed.

(** a set is built from any non-empty list of records unless it is a CNAME
    or DNAME set with more than one record: the data are the records that are
    not signatures, in order, the signatures the others; the TTL is at most
    every record's and the cap, and is one of them, except that a set whose
    records all have the largest TTL gets TTL 0. *)
Theorem from_records_spec recs cap :
  Forall (fun r => ttl r <= u32_max) recs -> 0 <= cap ->
  let data := List.filter (fun r => negb (rr_type r =? RrTypes.RRSIG)) recs in
  let sigs := List.filter (fun r => rr_type r =? RrTypes.RRSIG) recs in
  match from_records recs cap with
  | Ok s =>
      records s = data /\ rrsigs s = sigs /\ rs_validated s = false /\
      rs_ttl s <= cap /\ Forall (fun r => rs_ttl s <= ttl r) recs /\
      (rs_ttl s = cap \/ Exists (fun r => rs_ttl s = ttl r) recs \/
       rs_ttl s = 0 /\ Forall (fun r => ttl r = u32_max) recs) /\
      exists first, head recs = Some first /\ rs_name s = name first /\
        rs_type s = rr_type first /\ rs_class s = class first /\
        (rs_type s = RrTypes.CNAME \/ rs_type s = RrTypes.DNAME -> zlen (records s) <= 1)
  | Err e =>
      recs = [] /\ e = internal "empty RRset construction" \/
      exists first, head recs = Some first /\ e = not_exactly_one /\ 1 < zlen data /\
        (rr_type first = RrTypes.CNAME \/ rr_type first = RrTypes.DNAME)
  end.
Proof.
  intros Hu Hcap. unfold from_records. destruct recs as [|first recs]; [by left|].
  rewrite split_records_spec. cbn [app]. cbn zeta.
  destruct (min_ttl_spec (first :: recs) u32_max) as (A & B & C). cbn zeta in A, B, C.
  set (m := fold_left _ _ u32_max) in *. clearbody m.
  destruct (_ && _)%bool eqn:E.
  - right. exists first. apply andb_prop in E as [E1 E2].
    rewrite orb_true_iff, !Z.eqb_eq in E1. bools. done.
  - cbn [records rrsigs rs_validated rs_ttl rs_name rs_type rs_class].
    conjs; try done; try lia.
    + eapply List.Forall_impl; [|exact B]. intros r Hr. cbn beta in *.
      destruct (m =? u32_max) eqn:Em; bools; [|lia].
      unfold u32_max in *. lia.
    + destruct (m =? u32_max) eqn:Em; bools.
      * destruct (Z.le_gt_cases cap 0); [left; lia|]. right; right. split; [lia|].
        rewrite List.Forall_forall in Hu, B |- *. intros r Hr.
        specialize (Hu r Hr). specialize (B r Hr). cbn beta in *. lia.
      * destruct C as [C|C]; [done|]. destruct (Z.le_gt_cases cap m); [left; lia|].
        right; left. eapply List.Exists_impl; [|exact C]. cbn beta. lia.
    + exists first. conjs; try done. intros H.
      assert ((rr_type first =? RrTypes.CNAME) || (rr_type first =? RrTypes.DNAME) = true)%bool as H'
        by (rewrite orb_true_iff, !Z.eqb_eq; done).
      rewrite H' in E. cbn [andb] in E. bools. done.
Qed.

Definition sample_a (d ttl : Z) : Rr := mkRecord (of_labels [[97]]) RrTypes.A 1 ttl (RD_A [192; 0; 2; d]).

Lemma same_data_ignores_order_and_ttl_witness :
  let s1 := mkRrSet (of_labels [[97]]) RrTypes.A 1 [sample_a 1 60; sample_a 2 60] [] 60 false in
  let s2 := mkRrSet (of_labels [[97]]) RrTypes.A 1 [sample_a 2 30; sample_a 1 60] [] 30 true in
  same_data s1 s2 = true /\ fingerprint s1 = fingerprint s2.
Proof.
  intros s1 s2.
  destruct (same_data_ignores_order_and_ttl s1 s2) as (H1 & H2 & _); [apply perm_swap|].
  split; [exact H1|exact H2].
Defined.

Lemma from_records_spec_witness :
  match from_records [sample_a 1 60; sample_a 2 30] 20 with
  | Ok s => records s = [sample_a 1 60; sample_a 2 30] /\ rs_ttl s = 20
  | Err _ => False
  end.
Proof.
  assert (H : Forall (fun r => ttl r <= u32_max) [sample_a 1 60; sample_a 2 30])
    by (repeat constructor; cbn; unfold u32_max; lia).
  pose proof (from_records_spec [sample_a 1 60; sample_a 2 30] 20 H) as P.
  assert (H0 : 0 <= 20) by lia. specialize (P H0).
  split; [apply P|reflexivity].
Defined.
