(* ===== verification/Tier.v ===== *)
(** * A capacity-bounded cache tier ([TierMap] of [src/cache/mod.rs])

    The entries by key, and a second index by [(score rank, key)] through which
    the lowest-scored entry is found and removed.  The tier is generic in the
    entry: [key_of] and [rank] are the fields the code reads. *)
From stdpp Require Import gmap.
From S2P Require Import Prelude Wire Prng Name BTree.

Section tier.
Context {K E : Type} `{EqDecision K, KeyOrder K}.
Context (key_of : E -> K) (rank : E -> Z).

Record TierMap := mkTier {
  tm_map : list (K * E);
  tm_rank : list ((Z * K) * unit);
  capacity : Z }.

Definition tier_new (capacity : Z) : TierMap := mkTier [] [] capacity.
Definition tier_len (t : TierMap) : Z := zlen (tm_map t).
Definition tier_get (t : TierMap) (key : K) : option E := bt_get (tm_map t) key.
Definition tier_values (t : TierMap) : list E := map snd (tm_map t).

(** What a caller does through [get_mut]. *)
Definition tier_update (t : TierMap) (key : K) (f : E -> E) : TierMap :=
  match bt_get (tm_map t) key with
  | Some e => mkTier (bt_insert (tm_map t) key (f e)) (tm_rank t) (capacity t)
  | None => t
  end.

Definition tier_remove (t : TierMap) (key : K) : option E * TierMap :=
  match bt_get (tm_map t) key with
  | None => (None, t)
  | Some entry =>
      (Some entry, mkTier (bt_remove (tm_map t) key) (bt_remove (tm_rank t) (rank entry, key))
                     (capacity t))
  end.

(** [while let Some(((rank, key), _)) = self.rank.pop_first()]. *)
Fixpoint pop_loop (index : list ((Z * K) * unit)) (m : list (K * E)) (cap : Z)
    : option E * TierMap :=
  match index with
  | [] => (None, mkTier m [] cap)
  | ((_, key), _) :: index =>
      match bt_get m key with
      | Some entry => (Some entry, mkTier (bt_remove m key) index cap)
      | None => pop_loop index m cap
      end
  end.

Definition pop_lowest (t : TierMap) : option E * TierMap :=
  pop_loop (tm_rank t) (tm_map t) (capacity t).

Definition tier_insert (t : TierMap) (entry : E) : option E * TierMap :=
  let '(victim, t) :=
    if (0 <? capacity t) && negb (bt_contains_key (tm_map t) (key_of entry))
       && (capacity t <=? zlen (tm_map t))
    then pop_lowest t else (None, t) in
  let key := key_of entry in
  let '(m, index) :=
    match bt_get (tm_map t) key with
    | Some old => (bt_remove (tm_map t) key, bt_remove (tm_rank t) (rank old, key))
    | None => (tm_map t, tm_rank t)
    end in
  let index := bt_insert index (rank entry, key) tt in
  (victim, mkTier (bt_insert m key entry) index (capacity t)).

Definition tier_retain (keep : K -> E -> bool) (t : TierMap) : TierMap :=
  let dead := map fst (List.filter (fun kv => negb (keep kv.1 kv.2)) (tm_map t)) in
  fold_left (fun t key => snd (tier_remove t key)) dead t.

(** ** The invariant: both indexes hold the same entries *)

Definition tier_ok (t : TierMap) : Prop :=
  bt_sorted (tm_map t) /\ bt_sorted (tm_rank t) /\
  (forall k e, bt_get (tm_map t) k = Some e -> key_of e = k) /\
  (forall r k u, bt_get (tm_rank t) (r, k) = Some u <->
     exists e, bt_get (tm_map t) k = Some e /\ rank e = r).
End tier.
#[global] Arguments TierMap : clear implicits.

Section tier_lemmas.
Context {K E : Type} `{EqDecision K, KeyOrderLaws K}.
Context (key_of : E -> K) (rank : E -> Z).
Implicit Types (t : TierMap K E) (k : K) (e : E).
Local Abbreviation tier_ok := (tier_ok key_of rank).
Local Abbreviation tier_remove := (tier_remove rank).
Local Abbreviation tier_insert := (tier_insert key_of rank).

Lemma tier_ok_new cap : tier_ok (tier_new cap).
Proof. split; [constructor|]. split; [constructor|]. split; [done|]. intros r k u. split; [done|]. by intros (? & ? & _). Qed.

Lemma tier_get_key t k e : tier_ok t -> tier_get t k = Some e -> key_of e = k.
Proof. intros (_ & _ & Hk & _). apply Hk. Qed.

(** A row of the score index taken out together with its entry. *)
Lemma tier_ok_drop t k e :
  tier_ok t -> tier_get t k = Some e ->
  tier_ok (mkTier (bt_remove (tm_map t) k) (bt_remove (tm_rank t) (rank e, k)) (capacity t)).
Proof.
  intros (Sm & Sr & Hk & Hr) He. unfold tier_get in He. red. conjs; cbn [tm_map tm_rank].
  - by apply filter_sorted.
  - by apply filter_sorted.
  - intros k' e'. rewrite bt_get_remove by done. destruct (decide _); [done|]. apply Hk.
  - intros r k' u. rewrite bt_get_remove by done. rewrite bt_get_remove by done. split.
    + destruct (decide _) as [|Hne]; [done|]. intros (e' & He' & <-)%Hr. exists e'.
      rewrite decide_False; [done|]. intros ->. apply Hne. congruence.
    + intros (e' & He' & <-). destruct (decide (k' = k)) as [|Hne]; [done|].
      rewrite decide_False by congruence. apply Hr. by exists e'.
Qed.

Lemma tier_remove_spec t k :
  tier_ok t ->
  fst (tier_remove t k) = tier_get t k /\ tier_ok (snd (tier_remove t k)) /\
  capacity (snd (tier_remove t k)) = capacity t /\
  (forall k', tier_get (snd (tier_remove t k)) k' = if decide (k' = k) then None else tier_get t k') /\
  tier_len (snd (tier_remove t k)) = match tier_get t k with Some _ => tier_len t - 1 | None => tier_len t end.
Proof.
  intros Ht. unfold Tier.tier_remove, tier_get. destruct (bt_get (tm_map t) k) as [e|] eqn:Eg;
    cbn [fst snd].
  - conjs; [done|by apply tier_ok_drop|done| |].
    + intros k'. cbn [tm_map]. apply bt_get_remove. apply Ht.
    + unfold tier_len. cbn [tm_map]. rewrite zlen_bt_remove; [done|apply Ht|].
      unfold bt_contains_key. by rewrite Eg.
  - conjs; [done|done|done| |done]. intros k'. destruct (decide (k' = k)) as [->|]; done.
Qed.

(** Under the invariant the first row of the index is live, so a single step
    suffices, and it is the lowest. *)
Lemma pop_lowest_spec t :
  tier_ok t ->
  match pop_lowest t with
  | (None, t') => tm_map t = [] /\ t' = t
  | (Some e, t') =>
      tier_get t (key_of e) = Some e /\ tier_ok t' /\ capacity t' = capacity t /\
      (forall k, tier_get t' k = if decide (k = key_of e) then None else tier_get t k) /\
      tier_len t' = tier_len t - 1 /\
      (forall k e', tier_get t k = Some e' -> klt (rank e', k) (rank e, key_of e) = false)
  end.
Proof.
  intros Ht. pose proof Ht as (Sm & Sr & Hk & Hr). unfold pop_lowest.
  destruct t as [m index cap]. cbn [tm_map tm_rank capacity] in *.
  destruct index as [|[[r k] []] index]; cbn [pop_loop].
  - split; [|done]. destruct m as [|[k e] m]; [done|]. exfalso.
    assert (bt_get ([] : list ((Z * K) * unit)) (rank e, k) = Some tt) as X; [|done].
    apply Hr. exists e. split; [|done]. cbn. by rewrite decide_True.
  - destruct (Hr r k tt) as [Hin _]. destruct Hin as (e & He & <-); [cbn; by rewrite decide_True|].
    rewrite He. pose proof (Hk _ _ He) as Hke. subst k.
    apply bt_sorted_cons in Sr as [Fr Sr].
    assert (bt_remove (((rank e, key_of e), tt) :: index) (rank e, key_of e) = index) as Ei.
    { unfold bt_remove. cbn [List.filter fst]. rewrite bool_decide_true by done. cbn [negb].
      apply bt_remove_absent. apply (bt_get_above _ _ (rank e, key_of e)); [done|].
      by rewrite klt_irrefl. }
    pose proof (tier_ok_drop _ _ _ Ht He) as Hd. cbn [tm_map tm_rank capacity] in Hd.
    rewrite Ei in Hd. conjs; [done|done|done| | |].
    + intros k. by apply bt_get_remove.
    + unfold tier_len. cbn [tm_map]. apply zlen_bt_remove; [done|].
      unfold bt_contains_key. by rewrite He.
    + intros k e' He'. unfold tier_get in He'. cbn [tm_map] in He'.
      destruct (Hr (rank e') k tt) as [_ Hrow]. specialize (Hrow (ex_intro _ e' (conj He' eq_refl))).
      cbn [bt_get] in Hrow. destruct (decide _) as [[= -> ->]|]; [by rewrite klt_irrefl|].
      apply bt_get_In in Hrow. rewrite List.Forall_forall in Fr. specialize (Fr _ Hrow).
      cbn [fst] in Fr. destruct (klt (rank e', k) _) eqn:Ek; [|done].
      pose proof (klt_trans _ _ _ Fr Ek) as X. by rewrite klt_irrefl in X.
Qed.

(** Storing an entry in a tier with room for it. *)
Lemma tier_store_ok t entry :
  tier_ok t ->
  let key := key_of entry in
  let '(m, index) :=
    match bt_get (tm_map t) key with
    | Some old => (bt_remove (tm_map t) key, bt_remove (tm_rank t) (rank old, key))
    | None => (tm_map t, tm_rank t)
    end in
  let t' := mkTier (bt_insert m key entry) (bt_insert index (rank entry, key) tt) (capacity t) in
  tier_ok t' /\
  (forall k, tier_get t' k = if decide (k = key) then Some entry else tier_get t k) /\
  tier_len t' = if bt_contains_key (tm_map t) key then tier_len t else tier_len t + 1.
Proof.
  intros Ht key. set (t0 := snd (tier_remove t key)).
  destruct (tier_remove_spec t key Ht) as (_ & Hz & _ & G0 & L0). fold t0 in Hz, G0, L0.
  assert (match bt_get (tm_map t) key with
          | Some old => (bt_remove (tm_map t) key, bt_remove (tm_rank t) (rank old, key))
          | None => (tm_map t, tm_rank t)
          end = (tm_map t0, tm_rank t0)) as ->.
  { unfold t0, Tier.tier_remove. by destruct (bt_get (tm_map t) key). }
  clearbody t0. destruct Hz as (Sm & Sr & Hk & Hr).
  pose proof (G0 key) as Gk. rewrite decide_True in Gk by done. unfold tier_get in *.
  split; [red|]; conjs; cbn [tm_map tm_rank].
  - by apply bt_insert_sorted.
  - by apply bt_insert_sorted.
  - intros k e. rewrite bt_get_insert. destruct (decide (k = key)) as [->|]; [by intros [= <-]|apply Hk].
  - intros r k u. rewrite !bt_get_insert. split.
    + destruct (decide _) as [[= -> ->]|].
      * intros _. exists entry. by rewrite decide_True.
      * intros (e & He & <-)%Hr. exists e. destruct (decide (k = key)) as [->|]; [congruence|done].
    + intros (e & He & <-). destruct u. destruct (decide (k = key)) as [->|].
      * injection He as <-. by rewrite decide_True.
      * rewrite decide_False by congruence. apply Hr. by exists e.
  - intros k. rewrite bt_get_insert. destruct (decide (k = key)); [done|].
    rewrite G0, decide_False by done. done.
  - unfold tier_len in *. cbn [tm_map]. rewrite zlen_bt_insert by done.
    unfold bt_contains_key in *. rewrite Gk. destruct (bt_get (tm_map t) key); lia.
Qed.

(** Insertion: the new entry is there, every other entry keeps its place but
    for at most one victim, the lowest of a full tier, and the tier stays
    within its capacity unless that is zero. *)
Lemma tier_insert_spec t entry :
  tier_ok t ->
  let '(victim, t') := tier_insert t entry in
  tier_ok t' /\ capacity t' = capacity t /\
  tier_get t' (key_of entry) = Some entry /\
  (forall v, victim = Some v ->
     tier_get t (key_of v) = Some v /\ key_of v <> key_of entry /\
     (forall k e, tier_get t k = Some e -> klt (rank e, k) (rank v, key_of v) = false)) /\
  (forall k, k <> key_of entry ->
     tier_get t' k = match victim with
                     | Some v => if decide (k = key_of v) then None else tier_get t k
                     | None => tier_get t k
                     end) /\
  (0 < capacity t -> tier_len t <= capacity t -> tier_len t' <= capacity t) /\
  (victim = None -> tier_get t (key_of entry) = None -> 0 < capacity t ->
     tier_len t < capacity t \/ tm_map t = []).
Proof.
  intros Ht. unfold Tier.tier_insert.
  set (full := (_ && _ && _)%bool).
  pose proof (tier_store_ok t entry Ht) as S0.
  destruct full eqn:Ef.
  - pose proof (pop_lowest_spec t Ht) as P. subst full.
    apply andb_prop in Ef as [[Hc Hn]%andb_prop Hl]. bools.
    destruct (pop_lowest t) as [[v|] t1].
    + destruct P as (Gv & H1 & C1 & G1 & L1 & Low).
      pose proof (tier_store_ok t1 entry H1) as S1. cbn zeta in S1 |- *.
      assert (key_of v <> key_of entry) as Hne.
      { intros E1. unfold bt_contains_key, tier_get in *. rewrite <- E1, Gv in Hn. done. }
      destruct (match bt_get (tm_map t1) (key_of entry) with Some _ => _ | None => _ end) as [m index].
      destruct S1 as (Ok1 & G & L). rewrite C1 in *.
      conjs; [done|done| | | | |done].
      * rewrite G, decide_True by done. done.
      * intros v' [= <-]. done.
      * intros k Hk. rewrite G, decide_False, G1 by done. done.
      * intros _ Hle. rewrite L. unfold bt_contains_key, tier_get in *.
        pose proof (G1 (key_of entry)) as G2. rewrite decide_False in G2 by congruence.
        rewrite G2. destruct (bt_get (tm_map t) (key_of entry)); [done|]. lia.
    + destruct P as [Em ->]. cbn zeta in S0 |- *.
      destruct (match bt_get (tm_map t) (key_of entry) with Some _ => _ | None => _ end) as [m index].
      destruct S0 as (Ok1 & G & L). conjs; [done|done| |done| | |by right].
      * rewrite G, decide_True by done. done.
      * intros k Hk. by rewrite G, decide_False.
      * intros. rewrite L. unfold tier_len in *. rewrite Em in *. cbn. unfold zlen; cbn. lia.
  - cbn zeta in S0 |- *.
    destruct (match bt_get (tm_map t) (key_of entry) with Some _ => _ | None => _ end) as [m index].
    destruct S0 as (Ok1 & G & L). conjs; [done|done| |done| | |].
    + rewrite G, decide_True by done. done.
    + intros k Hk. by rewrite G, decide_False.
    + intros Hc Hle. rewrite L. subst full. unfold tier_len in *.
      destruct (bt_contains_key (tm_map t) (key_of entry)); [done|].
      cbn [negb] in Ef. rewrite andb_true_r in Ef.
      rewrite (proj2 (Z.ltb_lt _ _) Hc) in Ef. cbn [andb] in Ef. bools. lia.
    + intros _ Hn Hc. left. subst full. unfold tier_get, bt_contains_key, tier_len in *.
      rewrite Hn in Ef. cbn [negb] in Ef. rewrite andb_true_r, (proj2 (Z.ltb_lt _ _) Hc) in Ef.
      cbn [andb] in Ef. bools. lia.
Qed.

Lemma tier_remove_all t keys :
  tier_ok t ->
  let t' := fold_left (fun t key => snd (tier_remove t key)) keys t in
  tier_ok t' /\ capacity t' = capacity t /\ tier_len t' <= tier_len t /\
  (forall k, tier_get t' k = if bool_decide (k ∈ keys) then None else tier_get t k).
Proof.
  revert t; induction keys as [|x keys IH]; intros t Ht; cbn [fold_left].
  - conjs; [done|done|lia|done].
  - destruct (tier_remove_spec t x Ht) as (_ & H1 & C1 & G1 & L1).
    destruct (IH _ H1) as (H2 & C2 & L2 & G2). conjs; [done|congruence| |].
    + destruct (tier_get t x); lia.
    + intros k. rewrite G2, G1. destruct (decide (k = x)) as [->|Hne].
      * rewrite (bool_decide_true (x ∈ x :: keys)) by (rewrite list_elem_of_In; by left).
        by case_bool_decide.
      * rewrite (bool_decide_ext (k ∈ x :: keys) (k ∈ keys)); [done|].
        rewrite !list_elem_of_In. cbn [In]. split; [intros [->|]; done|by right].
Qed.

Lemma tier_retain_spec keep t :
  tier_ok t ->
  tier_ok (tier_retain rank keep t) /\ capacity (tier_retain rank keep t) = capacity t /\
  tier_len (tier_retain rank keep t) <= tier_len t /\
  (forall k, tier_get (tier_retain rank keep t) k =
     match tier_get t k with Some e => if keep k e then Some e else None | None => None end).
Proof.
  intros Ht. unfold tier_retain.
  set (dead := map fst (List.filter (fun kv => negb (keep kv.1 kv.2)) (tm_map t))).
  destruct (tier_remove_all t dead Ht) as (H1 & C1 & L1 & G1). conjs; [done|done|done|].
  intros k. rewrite G1. case_bool_decide as E1.
  - unfold dead in E1. rewrite list_elem_of_In, in_map_iff in E1.
    destruct E1 as ([k' e] & <- & [Hin Hk]%filter_In). cbn [fst snd] in *.
    apply bt_In_get in Hin; [|apply Ht]. unfold tier_get. rewrite Hin.
    apply negb_true_iff in Hk. by rewrite Hk.
  - destruct (tier_get t k) as [e|] eqn:Eg; [|done]. destruct (keep k e) eqn:Ek; [done|].
    destruct E1. unfold dead. rewrite list_elem_of_In, in_map_iff. exists (k, e). split; [done|].
    apply filter_In. cbn [fst snd]. rewrite Ek. split; [by apply bt_get_In|done].
Qed.

(** Updates that keep the key and the score keep the index right. *)
Lemma tier_update_spec t k f :
  tier_ok t -> (forall e, key_of (f e) = key_of e) -> (forall e, rank (f e) = rank e) ->
  tier_ok (tier_update t k f) /\ capacity (tier_update t k f) = capacity t /\
  tier_len (tier_update t k f) = tier_len t /\
  (forall k', tier_get (tier_update t k f) k' =
     if decide (k' = k) then f <$> tier_get t k else tier_get t k').
Proof.
  intros Ht Hfk Hfr. pose proof Ht as (Sm & Sr & Hk & Hr).
  unfold tier_update, tier_get. destruct (bt_get (tm_map t) k) as [e|] eqn:Eg.
  - conjs; cbn [tm_map capacity].
    + red. conjs; cbn [tm_map tm_rank].
      * by apply bt_insert_sorted.
      * done.
      * intros k' e'. rewrite bt_get_insert. destruct (decide (k' = k)) as [->|]; [|apply Hk].
        intros [= <-]. rewrite Hfk. by apply Hk.
      * intros r k' u. rewrite Hr, bt_get_insert. destruct (decide (k' = k)) as [->|]; [|done].
        split; intros (e' & Ge & <-).
        -- exists (f e). split; [done|]. rewrite Eg in Ge. injection Ge as <-. apply Hfr.
        -- injection Ge as <-. exists e. split; [done|]. by rewrite Hfr.
    + done.
    + unfold tier_len. cbn [tm_map]. rewrite zlen_bt_insert by done.
      unfold bt_contains_key. by rewrite Eg.
    + intros k'. by rewrite bt_get_insert.
  - conjs; [done|done|done|]. intros k'. destruct (decide (k' = k)) as [->|]; [by rewrite Eg|done].
Qed.

(** Membership in the value list is lookup. *)
Lemma tier_values_spec t e : tier_ok t -> In e (tier_values t) <-> tier_get t (key_of e) = Some e.
Proof.
  intros (Sm & _ & Hk & _). unfold tier_values, tier_get. rewrite in_map_iff. split.
  - intros ([k e'] & <- & Hin). cbn [snd] in *. apply bt_In_get in Hin; [|done].
    by rewrite (Hk _ _ Hin).
  - intros Hg. exists (key_of e, e). split; [done|]. by apply bt_get_In.
Qed.
End tier_lemmas.
