(* ===== verification/CacheKey.v ===== *)
(** * Cache keys and client-subnet partitions ([src/cache/mod.rs], lines 96-260)

    A cached answer lives in one partition: the global one, or the client
    network it was computed for.  [covers] says in terms of address bits when
    a partition may serve a requester; [walk_keys] is the order in which the
    lookups try the partitions. *)
From stdpp Require Import gmap.
From S2P Require Import Prelude Wire Prng Name Qtype Edns BTree.

Definition truncate_to (addr : list Z) (bits : Z) : list Z :=
  let len := div_ceil bits 8 in
  let out := zip_copy (replicate (Z.to_nat len) 0) addr in
  let rem := bits mod 8 in
  if negb (rem =? 0) then and_last (mask_byte rem) out else out.

Record EcsKey := mkEcsKey { ek_family : Z; ek_prefix : Z; ek_addr : list Z }.

#[global] Instance EcsKey_eq_dec : EqDecision EcsKey.
Proof. solve_decision. Defined.

Definition from_ecs (e : Ecs) : option EcsKey :=
  if (family e =? 0) || (source_prefix e =? 0) then None
  else Some (mkEcsKey (family e) (source_prefix e) (truncate_to (address e) (source_prefix e))).

Definition with_scope (self : EcsKey) (scope : Z) : option EcsKey :=
  let scope := Z.min scope (ek_prefix self) in
  if scope =? 0 then None
  else Some (mkEcsKey (ek_family self) scope (truncate_to (ek_addr self) scope)).

Definition effective_scope (self : EcsKey) (response_scope : Z) : Z :=
  Z.min response_scope (ek_prefix self).

Definition answer_partition (query_ecs : option EcsKey) (response_scope : option Z) : option EcsKey :=
  match query_ecs with
  | None => None
  | Some e => with_scope e (effective_scope e (default 0 response_scope))
  end.

Record CacheKey := mkCacheKey {
  ck_name : Name;
  ck_type : RrType;
  ck_class : RrClass;
  ck_ecs : option EcsKey }.

#[global] Instance CacheKey_eq_dec : EqDecision CacheKey.
Proof. solve_decision. Defined.

Definition plain (name : Name) (rr_type : RrType) (class : RrClass) : CacheKey :=
  mkCacheKey name rr_type class None.
Definition with_type (k : CacheKey) (rr_type : RrType) : CacheKey :=
  mkCacheKey (ck_name k) rr_type (ck_class k) (ck_ecs k).
Definition with_ecs (k : CacheKey) (ecs : option EcsKey) : CacheKey :=
  mkCacheKey (ck_name k) (ck_type k) (ck_class k) ecs.
Definition is_ecs (k : CacheKey) : bool := match ck_ecs k with Some _ => true | None => false end.

(** The derived orders: fields in declaration order. *)
Definition ecs_tuple (e : EcsKey) : Z * (Z * list Z) := (ek_family e, (ek_prefix e, ek_addr e)).
#[global] Instance EcsKey_order : KeyOrder EcsKey := fun a b => klt (ecs_tuple a) (ecs_tuple b).
Definition key_tuple (k : CacheKey) : Name * (Z * (Z * option EcsKey)) :=
  (ck_name k, (ck_type k, (ck_class k, ck_ecs k))).
#[global] Instance CacheKey_order : KeyOrder CacheKey := fun a b => klt (key_tuple a) (key_tuple b).

#[global] Instance EcsKey_order_laws : KeyOrderLaws EcsKey.
Proof. apply (order_by_laws ecs_tuple). intros [? ? ?] [? ? ?] [= -> -> ->]. done. Qed.
#[global] Instance CacheKey_order_laws : KeyOrderLaws CacheKey.
Proof. apply (order_by_laws key_tuple). intros [? ? ? ?] [? ? ? ?] [= -> -> -> ->]. done. Qed.

(** The keys a walk tries after its own: the scopes [n], [n - 1], ..., [1], then
    the global partition ([while scope > 1 { scope -= 1; ... }]). *)
Fixpoint broader_keys (n : nat) (ecs : EcsKey) (key : CacheKey) : list CacheKey :=
  match n with
  | O => [with_ecs key None]
  | S m =>
      match with_scope ecs (Z.of_nat n) with
      | None => [with_ecs key None]
      | Some broader => with_ecs key (Some broader) :: broader_keys m ecs key
      end
  end.

Definition walk_keys (key : CacheKey) : list CacheKey :=
  key :: match ck_ecs key with
         | None => []
         | Some ecs => broader_keys (Z.to_nat (ek_prefix ecs) - 1) ecs key
         end.

(** ** Address bits *)

Definition addr_bit (a : list Z) (i : nat) : bool :=
  Z.testbit (nth (i / 8) a 0) (Z.of_nat (7 - i mod 8)).

(** A stored or requested network: its length is that of its prefix, its bits
    beyond the prefix are zero. *)
Definition ecs_key_ok (e : EcsKey) : Prop :=
  1 <= ek_prefix e <= 255 /\ bytes (ek_addr e) /\
  length (ek_addr e) = Z.to_nat (div_ceil (ek_prefix e) 8) /\
  (forall i, Z.to_nat (ek_prefix e) <= i -> addr_bit (ek_addr e) i = false)%nat.

(** [wide] contains every client of [narrow]. *)
Definition covers (wide narrow : EcsKey) : Prop :=
  ek_family wide = ek_family narrow /\ ek_prefix wide <= ek_prefix narrow /\
  (forall i, i < Z.to_nat (ek_prefix wide) -> addr_bit (ek_addr wide) i = addr_bit (ek_addr narrow) i)%nat.

Lemma addr_bit_ext a b :
  bytes a -> bytes b -> length a = length b -> (forall i, addr_bit a i = addr_bit b i) -> a = b.
Proof.
  intros Ha Hb L E. apply (nth_ext _ _ 0 0); [done|]. intros n Hn.
  apply Z.bits_inj'. intros m Hm.
  pose proof (List.Forall_nth is_byte a) as Fa. pose proof (List.Forall_nth is_byte b) as Fb.
  assert (is_byte (nth n a 0)) as Ba by (apply Fa; done).
  assert (is_byte (nth n b 0)) as Bb by (apply Fb; [done|lia]). unfold is_byte in *.
  destruct (Z.lt_ge_cases m 8) as [Hm8|Hm8].
  - specialize (E (n * 8 + (7 - Z.to_nat m))%nat). unfold addr_bit in E.
    rewrite Nat.div_add_l, Nat.div_small, Nat.add_0_r in E by lia.
    rewrite (Nat.add_comm (n * 8)), Nat.Div0.mod_add, Nat.mod_small in E by lia.
    replace (Z.of_nat (7 - (7 - Z.to_nat m))) with m in E by lia. done.
  - assert (forall z, 0 <= z < 256 -> Z.testbit z m = false) as T.
    { intros z Hz. destruct (Z.eq_dec z 0) as [->|]; [apply Z.bits_0|].
      apply Z.bits_above_log2; [lia|]. apply Z.lt_le_trans with 8; [|done].
      apply Z.log2_lt_pow2; lia. }
    by rewrite !T.
Qed.

Lemma nth_zip_copy n a k :
  nth k (zip_copy (replicate n 0) a) 0 = if (k <? n)%nat then nth k a 0 else 0.
Proof.
  revert a k; induction n as [|n IH]; intros a k; cbn [replicate zip_copy].
  - destruct a; by destruct k.
  - destruct a as [|x a].
    + assert (forall m k, nth k (replicate m 0) 0 = 0) as R.
      { induction m as [|m IHm]; intros [|k']; cbn; auto. }
      change (0 :: replicate n 0) with (replicate (S n) 0). rewrite R.
      destruct (_ <? _)%nat; [by destruct k|done].
    + destruct k; cbn [nth]; [done|]. rewrite IH. done.
Qed.

Lemma nth_and_last m l k : l <> [] ->
  nth k (and_last m l) 0 = if (k =? length l - 1)%nat then Z.land (nth k l 0) m else nth k l 0.
Proof.
  intros Hl. destruct l as [|x l _] using rev_ind; [done|].
  rewrite and_last_app, length_app. cbn [length].
  replace (length l + 1 - 1)%nat with (length l) by lia.
  destruct (Nat.eqb_spec k (length l)) as [->|].
  - by rewrite !nth_middle.
  - destruct (Nat.lt_ge_cases k (length l)).
    + by rewrite !app_nth1.
    + rewrite !nth_overflow; [done|rewrite length_app; cbn; lia..].
Qed.

Lemma mask_byte_bit r j : 0 < r < 8 -> (j < 8)%nat ->
  Z.testbit (mask_byte r) (Z.of_nat (7 - j)) = (Z.of_nat j <? r).
Proof.
  intros Hr Hj. unfold mask_byte, wrap. rewrite Z.mod_pow2_bits_low by lia.
  rewrite Z.shiftl_spec by lia. destruct (Z.ltb_spec (Z.of_nat j) r).
  - replace 255 with (Z.ones 8) by done. apply Z.ones_spec_low. lia.
  - apply Z.testbit_neg_r. lia.
Qed.

Lemma div_ceil_8_nat b : 0 <= b ->
  Z.to_nat (div_ceil b 8) = if b mod 8 =? 0 then Z.to_nat (b / 8) else S (Z.to_nat (b / 8)).
Proof.
  intros Hb. unfold div_ceil. pose proof (Z.div_mod b 8). pose proof (Z.mod_pos_bound b 8).
  pose proof (Z.div_pos b 8).
  destruct (b mod 8 =? 0) eqn:E; bools.
  - f_equal. symmetry. apply (Z.div_unique _ _ _ 7); lia.
  - rewrite <- Z2Nat.inj_succ by lia. f_equal. symmetry.
    apply (Z.div_unique _ _ _ (b mod 8 - 1)); lia.
Qed.

Lemma length_truncate_to a b : length (truncate_to a b) = Z.to_nat (div_ceil b 8).
Proof.
  unfold truncate_to. destruct (negb _).
  - set (l := zip_copy _ a). assert (length l = Z.to_nat (div_ceil b 8)) as L
      by (unfold l; by rewrite length_zip_copy, length_replicate).
    rewrite <- L. destruct l as [|x l _] using rev_ind; [done|].
    by rewrite and_last_app, !length_app.
  - by rewrite length_zip_copy, length_replicate.
Qed.

Lemma bytes_truncate_to a b : bytes a -> bytes (truncate_to a b).
Proof.
  intros Ha. unfold truncate_to.
  assert (bytes (zip_copy (replicate (Z.to_nat (div_ceil b 8)) 0) a)) as Hz.
  { apply bytes_zip_copy; [|done]. apply Forall_replicate. unfold is_byte; lia. }
  destruct (negb _); [|done]. revert Hz. generalize (zip_copy (replicate (Z.to_nat (div_ceil b 8)) 0) a).
  intros l Hl. destruct l as [|x l _] using rev_ind; [done|].
  rewrite and_last_app. rewrite List.Forall_app, List.Forall_cons_iff in Hl |- *.
  destruct Hl as (Hl & Hx & _). split; [done|]. split; [|done]. apply land_byte; [done|].
  unfold mask_byte, wrap. apply Z.mod_pos_bound. lia.
Qed.

(** Truncation keeps the first [b] bits and clears the others. *)
Lemma truncate_to_bit a b i : 0 <= b ->
  addr_bit (truncate_to a b) i = (i <? Z.to_nat b)%nat && addr_bit a i.
Proof.
  intros Hb. unfold addr_bit, truncate_to. rewrite div_ceil_8_nat by done.
  set (k := (i / 8)%nat). set (j := (i mod 8)%nat).
  assert (i = 8 * k + j /\ j < 8)%nat as [Hi Hj].
  { unfold k, j. pose proof (Nat.div_mod_eq i 8). pose proof (Nat.mod_upper_bound i 8). lia. }
  clearbody k j. pose proof (Z.div_mod b 8) as Hd. pose proof (Z.mod_pos_bound b 8) as Hm.
  pose proof (Z.div_pos b 8). destruct (b mod 8 =? 0) eqn:E; cbn [negb]; bools.
  - rewrite nth_zip_copy.
    destruct (Nat.ltb_spec k (Z.to_nat (b / 8))), (Nat.ltb_spec i (Z.to_nat b)); try lia; [done|].
    by rewrite Z.bits_0.
  - rewrite nth_and_last.
    2: { intros H0. apply (f_equal length) in H0.
         by rewrite length_zip_copy, length_replicate in H0. }
    rewrite length_zip_copy, length_replicate, nth_zip_copy.
    replace (S (Z.to_nat (b / 8)) - 1)%nat with (Z.to_nat (b / 8)) by lia.
    destruct (Nat.eqb_spec k (Z.to_nat (b / 8))) as [Hk|Hk].
    + rewrite (proj2 (Nat.ltb_lt k _)) by lia. rewrite Z.land_spec, mask_byte_bit by lia.
      rewrite andb_comm. f_equal.
      destruct (Z.ltb_spec (Z.of_nat j) (b mod 8)), (Nat.ltb_spec i (Z.to_nat b)); lia.
    + destruct (Nat.ltb_spec k (S (Z.to_nat (b / 8)))), (Nat.ltb_spec i (Z.to_nat b)); try lia;
        [done|by rewrite Z.bits_0].
Qed.

Lemma from_ecs_ok e k : ecs_ok e -> from_ecs e = Some k -> ecs_key_ok k.
Proof.
  intros (max & Hmax & Hp & _ & Hl & Hb & _). unfold from_ecs.
  destruct (_ || _)%bool eqn:E; [done|]. bools. intros [= <-].
  red. cbn [ek_prefix ek_addr ek_family]. conjs; [lia|lia|by apply bytes_truncate_to|apply length_truncate_to|].
  intros i Hi. rewrite truncate_to_bit by lia. destruct (Nat.ltb_spec i (Z.to_nat (source_prefix e))); [lia|done].
Qed.

(** Scoping a requester's network. *)
Lemma with_scope_spec e s : ecs_key_ok e -> 1 <= s <= ek_prefix e ->
  exists k, with_scope e s = Some k /\ ecs_key_ok k /\ ek_prefix k = s /\ covers k e.
Proof.
  intros (Hp & Hb & Hl & Hz) Hs. unfold with_scope. rewrite Z.min_l by lia.
  rewrite (proj2 (Z.eqb_neq s 0)) by lia. eexists; split; [done|].
  unfold ecs_key_ok, covers. cbn [ek_prefix ek_addr ek_family].
  conjs; [lia|lia|by apply bytes_truncate_to|apply length_truncate_to| |done|done|lia|].
  - intros i Hi. rewrite truncate_to_bit by lia. by destruct (Nat.ltb_spec i (Z.to_nat s)); [lia|].
  - intros i Hi. rewrite truncate_to_bit by lia. by destruct (Nat.ltb_spec i (Z.to_nat s)); [|lia].
Qed.

(** A network is determined by its prefix and its bits. *)
Lemma covers_unique a b e : ecs_key_ok a -> ecs_key_ok b -> ek_prefix a = ek_prefix b ->
  covers a e -> covers b e -> a = b.
Proof.
  intros (Pa & Ba & La & Za) (Pb & Bb & Lb & Zb) E (Fa & _ & Ca) (Fb & _ & Cb).
  destruct a as [fa pa aa], b as [fb pb ab]. cbn in *. subst pb. f_equal; [congruence|].
  apply addr_bit_ext; [done|done|congruence|]. intros i.
  destruct (Nat.lt_ge_cases i (Z.to_nat pa)); [by rewrite Ca, Cb|by rewrite Za, Zb].
Qed.

Lemma broader_keys_In n ecs key k : ecs_key_ok ecs -> Z.of_nat n <= ek_prefix ecs ->
  In k (broader_keys n ecs key) <->
  k = with_ecs key None \/
  exists e, k = with_ecs key (Some e) /\ ecs_key_ok e /\ ek_prefix e <= Z.of_nat n /\ covers e ecs.
Proof.
  intros Hok. induction n as [|n IH]; intros Hn; cbn [broader_keys].
  - cbn [In]. split; [intros [<-|[]]; by left|].
    intros [->|(e & _ & (He & _) & ? & _)]; [by left|lia].
  - destruct (with_scope_spec ecs (Z.of_nat (S n)) Hok) as (b & -> & Bok & Bp & Bc); [lia|].
    cbn [In]. rewrite IH by lia. split.
    + intros [<-|[->|(e & -> & ? & ? & ?)]]; [right|by left|right]; eexists; split; try done.
      * conjs; [done|lia|done].
      * conjs; [done|lia|done].
    + intros [->|(e & -> & Eok & Ep & Ec)]; [by right; left|].
      destruct (Z.eq_dec (ek_prefix e) (Z.of_nat (S n))) as [Heq|].
      * left. do 2 f_equal. apply (covers_unique _ _ ecs); [done|done|lia|done|done].
      * right; right. exists e. conjs; [done|done|lia|done].
Qed.

Lemma covers_refl e : covers e e.
Proof. split; [done|]. split; [lia|done]. Qed.

(** ** Properties *)

(** [stored] may be served to [requester]. *)
Definition readable (stored requester : option EcsKey) : Prop :=
  match stored, requester with
  | None, _ => True
  | Some s, Some r => covers s r
  | Some _, None => False
  end.

Definition scope_of (k : CacheKey) : Z :=
  match ck_ecs k with Some e => ek_prefix e | None => 0 end.

Definition key_ok (k : CacheKey) : Prop := forall e, ck_ecs k = Some e -> ecs_key_ok e.

Lemma broader_keys_sorted n ecs key : ecs_key_ok ecs -> Z.of_nat n <= ek_prefix ecs ->
  Sorted.StronglySorted (fun a b => scope_of b < scope_of a) (broader_keys n ecs key).
Proof.
  intros Hok. induction n as [|n IH]; intros Hn; cbn [broader_keys]; [by repeat constructor|].
  destruct (with_scope_spec ecs (Z.of_nat (S n)) Hok) as (b & -> & _ & Bp & _); [lia|].
  constructor; [apply IH; lia|]. rewrite List.Forall_forall. intros k Hk.
  apply broader_keys_In in Hk as [->|(e & -> & _ & ? & _)]; [..|done|lia];
    unfold scope_of; cbn [with_ecs ck_ecs]; lia.
Qed.

Lemma walk_keys_In key k : key_ok key -> key_ok k ->
  In k (walk_keys key) <->
  ck_name k = ck_name key /\ ck_type k = ck_type key /\ ck_class k = ck_class key /\
  readable (ck_ecs k) (ck_ecs key).
Proof.
  intros Hkey Hk. unfold walk_keys. cbn [In]. destruct key as [n t c e], k as [n' t' c' e'].
  cbn [ck_name ck_type ck_class ck_ecs] in *. destruct e as [e|]; cbn [readable].
  - pose proof (Hkey e eq_refl) as Hok. pose proof Hok as (Hp & _).
    rewrite broader_keys_In by (done || lia). unfold with_ecs. cbn [ck_name ck_type ck_class]. split.
    + intros [[= <- <- <- <-]|[[= -> -> -> ->]|(e2 & [= -> -> -> ->] & _ & _ & ?)]];
        conjs; try done; apply covers_refl.
    + intros (-> & -> & -> & Hr). destruct e' as [e'|]; [|by right; left].
      pose proof (Hk e' eq_refl) as Hok'. cbn in Hr. pose proof Hr as (_ & Hle & _).
      destruct (Z.eq_dec (ek_prefix e') (ek_prefix e)) as [Heq|].
      * left. do 2 f_equal. apply (covers_unique _ _ e); [done|done|done|apply covers_refl|done].
      * right; right. exists e'. conjs; [done|done|lia|done].
  - split.
    + intros [[= <- <- <- <-]|[]]. done.
    + intros (-> & -> & -> & Hr). destruct e' as [e'|]; [done|by left].
Qed.

(** C37: a lookup tries exactly the partitions its requester may read, from the
    narrowest to the global one: a client that sent no subnet reads global data
    only, and a partition is read exactly when its network contains the
    client's.  Whatever scope a server declares, the partition its answer is
    stored under is one the requester reads again; it is global when the scope
    is zero or absent, and never narrower than what the client sent. *)
Theorem ecs_partitions_exact key :
  key_ok key ->
  (forall k, key_ok k ->
     (In k (walk_keys key) <->
      ck_name k = ck_name key /\ ck_type k = ck_type key /\ ck_class k = ck_class key /\
      readable (ck_ecs k) (ck_ecs key))) /\
  Sorted.StronglySorted (fun a b => scope_of b < scope_of a) (walk_keys key) /\
  (forall scope, (forall s, scope = Some s -> 0 <= s <= 255) ->
     let p := answer_partition (ck_ecs key) scope in
     In (with_ecs key p) (walk_keys key) /\
     scope_of (with_ecs key p) = Z.min (default 0 scope) (scope_of key)).
Proof.
  intros Hkey. split; [intros; by apply walk_keys_In|]. split.
  - unfold walk_keys. destruct key as [n t c [e|]]; cbn [ck_ecs] in *; [|by repeat constructor].
    pose proof (Hkey e eq_refl) as Hok. pose proof Hok as (Hp & _).
    constructor; [apply broader_keys_sorted; [done|lia]|].
    rewrite List.Forall_forall. intros k Hk.
    apply broader_keys_In in Hk as [->|(e' & -> & _ & ? & _)]; [..|done|lia];
      unfold scope_of; cbn [with_ecs ck_ecs]; lia.
  - intros scope Hs. cbn zeta. destruct key as [n t c [e|]]; cbn [ck_ecs answer_partition] in *.
    2: { split; [by left|]. unfold scope_of; cbn [with_ecs ck_ecs].
         assert (0 <= default 0 scope) by (destruct scope as [s|]; cbn; [apply Hs; done|lia]). lia. }
    pose proof (Hkey e eq_refl) as Hok. pose proof Hok as (Hp & _). unfold effective_scope.
    assert (0 <= default 0 scope <= 255) as Hd by (destruct scope as [s|]; cbn; [by apply Hs|lia]).
    set (d := default 0 scope) in *. clearbody d.
    destruct (Z.eq_dec d 0) as [->|Hne].
    + assert (with_scope e (Z.min 0 (ek_prefix e)) = None) as ->.
      { unfold with_scope. replace (Z.min (Z.min 0 (ek_prefix e)) (ek_prefix e)) with 0 by lia. done. }
      unfold scope_of; cbn [with_ecs ck_ecs]. split; [|lia].
      apply walk_keys_In; [done|done|]. done.
    + destruct (with_scope_spec e (Z.min d (ek_prefix e)) Hok) as (k & -> & Kok & Kp & Kc); [lia|].
      unfold scope_of; cbn [with_ecs ck_ecs]. split; [|lia].
      apply walk_keys_In; [done|by intros ? [= <-]|]. done.
Qed.

Lemma ecs_partitions_exact_witness :
  let key := mkCacheKey root RrTypes.A 1 (Some (mkEcsKey 1 12 [10; 16])) in
  let stored := mkCacheKey root RrTypes.A 1 (Some (mkEcsKey 1 9 [10; 0])) in
  In stored (walk_keys key) /\
  In (with_ecs key (answer_partition (ck_ecs key) (Some 24))) (walk_keys key).
Proof.
  intros key stored.
  assert (key_ok key) as Hk.
  { intros e [= <-]. unfold ecs_key_ok. cbn [ek_prefix ek_addr].
    split; [lia|]. split; [repeat constructor; unfold is_byte; lia|]. split; [reflexivity|].
    intros i Hi. pose proof (truncate_to_bit [10; 16] 12 i ltac:(lia)) as T.
    change (truncate_to [10; 16] 12) with [10; 16] in T. rewrite T.
    by rewrite (proj2 (Nat.ltb_ge i (Z.to_nat 12)) Hi). }
  destruct (ecs_partitions_exact key Hk) as (_ & _ & H2).
  split; [vm_compute; tauto|]. apply H2. intros s [= <-]. lia.
Defined.
