(* ===== verification/Cache.v ===== *)
(** * The tiered semantic cache ([src/cache/mod.rs], [src/cache/score.rs])

    Three score-ranked tiers, the NXDOMAIN store, the lookup over client-subnet
    partitions, insertion, demotion, stale parking and the sweep.  The refresh
    model of an entry is an interface ([StabilityOps]): the cache only creates
    it, feeds it observations and reads its durability.  Scores are computed in
    binary64. *)
From stdpp Require Import gmap.
From S2P Require Import Prelude Wire Prng Name Compress Qtype Edns Bitmap RData Rr BTree Bounded Sort Time Float64 RrSet Tier CacheKey.

(** What the cache asks of [StabilityModel] ([src/stability.rs]). *)
Class StabilityOps (S : Type) := {
  with_config : Z -> Ts -> S;
  observe_weighted : S -> Z -> bool -> Ts -> f64 -> S;
  observe : S -> Z -> bool -> Ts -> S;
  record_failure : S -> Ts -> S;
  durability_score : S -> f64 }.

Definition NX_EVICT_STRIDE : Z := 8.
Definition UNVERIFIED_OBSERVATION_TRUST : f64 := f64_div (f64_of 5) (f64_of 10).

(** ** The admission score ([src/cache/score.rs]) *)

Definition LOCALITY_WINDOW_SECS : f64 := f64_of 300.
Definition TTL_REF_SECS : f64 := f64_of 3600.
Definition COST_REF_MS : f64 := f64_of 500.
Definition MEM_REF_BYTES : f64 := f64_of 4096.

Record ScoreWeights := mkWeights {
  w_popularity : f64; w_locality : f64; w_durability : f64;
  w_ttl : f64; w_cost : f64; w_memory : f64 }.

Definition pct (n : Z) : f64 := f64_div (f64_of n) (f64_of 100).
Definition default_weights : ScoreWeights :=
  mkWeights (pct 30) (pct 18) (pct 20) (pct 16) (pct 11) (pct 5).

Record ScoreInputs := mkInputs { si_popularity : f64; est_cost_ms : f64 }.
Definition default_inputs : ScoreInputs := mkInputs (pct 50) (f64_of 50).

Definition unit_clamp (x : f64) : f64 := f64_clamp x (f64_of 0) (f64_of 1).

Definition memory_term (n : Z) : f64 := unit_clamp (f64_div (f64_of n) MEM_REF_BYTES).

Definition score_of {S} `{StabilityOps S} (w : ScoreWeights) (ttl_secs : Z) (now last_served : Ts)
    (stability : S) (inputs : ScoreInputs) (entry_bytes : Z) : f64 :=
  let age_secs := f64_div (f64_of (ts_saturating_sub now last_served)) (f64_of 1000000000) in
  let locality :=
    f64_max (f64_sub (f64_of 1) (f64_min (f64_div age_secs LOCALITY_WINDOW_SECS) (f64_of 1))) (f64_of 0) in
  let pop := unit_clamp (si_popularity inputs) in
  let durable := unit_clamp (durability_score stability) in
  let ttl := unit_clamp (f64_div (f64_of ttl_secs) TTL_REF_SECS) in
  let cost := unit_clamp (f64_div (est_cost_ms inputs) COST_REF_MS) in
  let raw := f64_mul (w_popularity w) pop in
  let raw := f64_add raw (f64_mul (w_locality w) locality) in
  let raw := f64_add raw (f64_mul (w_durability w) durable) in
  let raw := f64_add raw (f64_mul (w_ttl w) ttl) in
  let raw := f64_add raw (f64_mul (w_cost w) cost) in
  let raw := f64_sub raw (f64_mul (w_memory w) (memory_term entry_bytes)) in
  unit_clamp raw.

Definition rank_of (score : f64) : Z := f64_to_u64 (f64_mul (unit_clamp score) (f64_of u32_max)).

(** ** Entries *)

Inductive Tier := Hot | Warm | Cold.
#[global] Instance Tier_eq_dec : EqDecision Tier.
Proof. solve_decision. Defined.

Inductive EntryKind :=
| Positive (rrset : RrSet)
| Negative (rcode : Rcode) (soa : option Rr) (ttl_secs : Z).

Record CacheEntry (S : Type) := mkEntry {
  ce_key : CacheKey;
  ce_kind : EntryKind;
  ce_inserted : Ts;
  ce_expires : Ts;
  ce_served : Z;
  ce_last_served : Ts;
  ce_stability : S;
  ce_validated : bool;
  ce_score : f64;
  ce_tier : Tier;
  ce_refreshing : bool;
  ce_cost_ms : f64 }.
Arguments mkEntry {S}.
Arguments ce_key {S}.
Arguments ce_kind {S}.
Arguments ce_inserted {S}.
Arguments ce_expires {S}.
Arguments ce_served {S}.
Arguments ce_last_served {S}.
Arguments ce_stability {S}.
Arguments ce_validated {S}.
Arguments ce_score {S}.
Arguments ce_tier {S}.
Arguments ce_refreshing {S}.
Arguments ce_cost_ms {S}.

Record NegativeEntry := mkNeg {
  ne_expires : Ts; ne_rcode : Rcode; ne_soa : option Rr; ne_inserted : Ts; ne_served : Z }.

(** The fields the modelled operations read; those of the refresh scheduler and
    of the refresh model's own configuration are left out. *)
Record CacheConfig := mkCacheConfig {
  hot_capacity : Z; warm_capacity : Z; cold_capacity : Z; nx_capacity : Z;
  stale_window_secs : Z; negative_ttl_cap : Z; max_ttl_cap : Z;
  hot_admit_score : f64; warm_admit_score : f64; min_admit_score : f64;
  weights : ScoreWeights }.

Definition default_cache_config : CacheConfig :=
  mkCacheConfig 2048 131072 32768 65536 86400 300 (7 * 86400) (pct 72) (pct 35) (pct 15)
    default_weights.

Record CacheStats := mkStats {
  hits : Z; misses : Z; stale_served : Z; inserts : Z; evictions : Z }.

Section entry.
Context {S : Type}.
Implicit Types (e : CacheEntry S).

(** The assignments the operations make. *)
Definition set_served e (now : Ts) : CacheEntry S :=
  mkEntry (ce_key e) (ce_kind e) (ce_inserted e) (ce_expires e) (ce_served e + 1) now
    (ce_stability e) (ce_validated e) (ce_score e) (ce_tier e) (ce_refreshing e) (ce_cost_ms e).
Definition set_score e (s : f64) : CacheEntry S :=
  mkEntry (ce_key e) (ce_kind e) (ce_inserted e) (ce_expires e) (ce_served e) (ce_last_served e)
    (ce_stability e) (ce_validated e) s (ce_tier e) (ce_refreshing e) (ce_cost_ms e).
Definition set_tier e (t : Tier) : CacheEntry S :=
  mkEntry (ce_key e) (ce_kind e) (ce_inserted e) (ce_expires e) (ce_served e) (ce_last_served e)
    (ce_stability e) (ce_validated e) (ce_score e) t (ce_refreshing e) (ce_cost_ms e).
Definition set_refreshing e (b : bool) : CacheEntry S :=
  mkEntry (ce_key e) (ce_kind e) (ce_inserted e) (ce_expires e) (ce_served e) (ce_last_served e)
    (ce_stability e) (ce_validated e) (ce_score e) (ce_tier e) b (ce_cost_ms e).
Definition set_stability e (s : S) : CacheEntry S :=
  mkEntry (ce_key e) (ce_kind e) (ce_inserted e) (ce_expires e) (ce_served e) (ce_last_served e)
    s (ce_validated e) (ce_score e) (ce_tier e) (ce_refreshing e) (ce_cost_ms e).
(** A rewrite of the data of an entry. *)
Definition set_data e (kind : EntryKind) (now expires : Ts) (stab : S) (validated : bool) : CacheEntry S :=
  mkEntry (ce_key e) kind now expires (ce_served e) (ce_last_served e)
    stab validated (ce_score e) (ce_tier e) false (ce_cost_ms e).

Definition entry_ttl_secs e : Z :=
  match ce_kind e with Positive s => rs_ttl s | Negative _ _ t => t end.
Definition entry_rrset e : option RrSet :=
  match ce_kind e with Positive s => Some s | Negative _ _ _ => None end.

Definition remaining_ttl e (now : Ts) : Z :=
  if ce_expires e <=? now then 0
  else wrap 32 (Z.min (Z.quot (signed 128 (ce_expires e - now)) 1000000000) u32_max).

Definition is_fresh e (now : Ts) : bool := now <? ce_expires e.

Definition is_stale_servable e (now : Ts) (window : Z) : bool :=
  let end_ := ts_saturating_add (ce_expires e) (window * 1000000000) in
  (ce_expires e <=? now) && (now <? end_).

Definition entry_bytes e : Z :=
  match ce_kind e with
  | Positive s => estimated_bytes s
  | Negative _ soa _ =>
      wire_len (ck_name (ce_key e)) + 64
      + match soa with Some r => rdata_wire_len (rdata r) + 40 | None => 0 end
  end.
End entry.

Inductive LookupOutcome (S : Type) :=
| Fresh (e : CacheEntry S)
| Stale (e : CacheEntry S)
| CnameHit (target : Name) (ttl_secs : Z) (expires : Ts) (validated : bool)
| NxDomainHit (expires : Ts) (soa : option Rr)
| Miss.
Arguments Fresh {S}.
Arguments Stale {S}.
Arguments CnameHit {S}.
Arguments NxDomainHit {S}.
Arguments Miss {S}.

Definition is_hit {S} (o : LookupOutcome S) : bool := match o with Miss => false | _ => true end.

(** ** The cache *)

Section cache.
Context {S : Type} `{StabilityOps S}.
Abbreviation Entry := (CacheEntry S).
Abbreviation TM := (TierMap CacheKey Entry).

Definition entry_rank (e : Entry) : Z := rank_of (ce_score e).

Record SemanticCache := mkCache {
  config : CacheConfig;
  hot : TM; warm : TM; cold : TM;
  nx : list (Name * NegativeEntry);
  stats : CacheStats }.
Implicit Types (c : SemanticCache) (key : CacheKey) (now : Ts).

Definition cache_new (cfg : CacheConfig) : SemanticCache :=
  mkCache cfg (tier_new (hot_capacity cfg)) (tier_new (warm_capacity cfg))
    (tier_new (cold_capacity cfg)) [] (mkStats 0 0 0 0 0).

Definition tier_map c (t : Tier) : TM := match t with Hot => hot c | Warm => warm c | Cold => cold c end.
Definition set_tier_map c (t : Tier) (m : TM) : SemanticCache :=
  match t with
  | Hot => mkCache (config c) m (warm c) (cold c) (nx c) (stats c)
  | Warm => mkCache (config c) (hot c) m (cold c) (nx c) (stats c)
  | Cold => mkCache (config c) (hot c) (warm c) m (nx c) (stats c)
  end.
Definition set_stats c (s : CacheStats) : SemanticCache :=
  mkCache (config c) (hot c) (warm c) (cold c) (nx c) s.
Definition set_nx c (m : list (Name * NegativeEntry)) : SemanticCache :=
  mkCache (config c) (hot c) (warm c) (cold c) m (stats c).

Definition add_hit (s : CacheStats) : CacheStats :=
  mkStats (hits s + 1) (misses s) (stale_served s) (inserts s) (evictions s).
Definition add_miss (s : CacheStats) : CacheStats :=
  mkStats (hits s) (misses s + 1) (stale_served s) (inserts s) (evictions s).
Definition add_stale (s : CacheStats) : CacheStats :=
  mkStats (hits s) (misses s) (stale_served s + 1) (inserts s) (evictions s).
Definition add_insert (s : CacheStats) : CacheStats :=
  mkStats (hits s) (misses s) (stale_served s) (inserts s + 1) (evictions s).
Definition add_eviction (s : CacheStats) : CacheStats :=
  mkStats (hits s) (misses s) (stale_served s) (inserts s) (evictions s + 1).

(** Removing a key from a tier. *)
Definition cache_remove c (t : Tier) key : option Entry * SemanticCache :=
  let '(e, m) := tier_remove entry_rank (tier_map c t) key in (e, set_tier_map c t m).

Definition cache_insert_tier c (t : Tier) (e : Entry) : option Entry * SemanticCache :=
  let '(v, m) := tier_insert ce_key entry_rank (tier_map c t) e in (v, set_tier_map c t m).

Definition score_entry c (e : Entry) now (inputs : ScoreInputs) : f64 :=
  score_of (weights (config c)) (entry_ttl_secs e) now (ce_last_served e) (ce_stability e) inputs
    (entry_bytes e).

Definition next_tier (t : Tier) : option Tier :=
  match t with Hot => Some Warm | Warm => Some Cold | Cold => None end.

Definition tier_for c (score : f64) : option Tier :=
  let cfg := config c in
  let tier :=
    if f64_le (hot_admit_score cfg) score then Some Hot
    else if f64_le (warm_admit_score cfg) score then Some Warm
    else if f64_le (min_admit_score cfg) score then Some Cold
    else None in
  match tier with
  | None => None
  | Some tier =>
      if capacity (tier_map c tier) =? 0 then
        match next_tier tier with
        | Some t => if 0 <? capacity (tier_map c t) then Some t else None
        | None => None
        end
      else Some tier
  end.

Definition spill c (victim : Entry) (from : Tier) : SemanticCache :=
  let c := set_stats c (add_eviction (stats c)) in
  match next_tier from with
  | None => c
  | Some next =>
      if capacity (tier_map c next) =? 0 then c
      else snd (cache_insert_tier c next (set_tier victim next))
  end.

Definition place c (e : Entry) : SemanticCache :=
  match tier_for c (ce_score e) with
  | None => c
  | Some tier =>
      match cache_insert_tier c tier (set_tier e tier) with
      | (Some victim, c) => spill c victim tier
      | (None, c) => c
      end
  end.

Definition park c (e : Entry) : SemanticCache :=
  snd (cache_insert_tier c Cold (set_tier e Cold)).

(** [lookup_exact]: the loop over the tiers. *)
Fixpoint exact_loop (tiers : list Tier) c key now : option (LookupOutcome S) * SemanticCache :=
  match tiers with
  | [] => (None, c)
  | tier :: tiers =>
      match cache_remove c tier key with
      | (None, c) => exact_loop tiers c key now
      | (Some entry, c) =>
          let entry := set_served entry now in
          if is_fresh entry now then
            let c := set_stats c (add_hit (stats c)) in
            let entry := set_score entry (score_entry c entry now default_inputs) in
            (Some (Fresh entry), place c entry)
          else if is_stale_servable entry now (stale_window_secs (config c)) then
            let c := set_stats c (add_stale (add_hit (stats c))) in
            (Some (Stale entry), park c (set_tier entry Cold))
          else exact_loop tiers (set_stats c (add_miss (stats c))) key now
      end
  end.
Definition lookup_exact c key now := exact_loop [Hot; Warm; Cold] c key now.

(** [lookup_cname]: the loop over the tiers. *)
Fixpoint cname_loop (tiers : list Tier) c key now : option (LookupOutcome S) * SemanticCache :=
  match tiers with
  | [] => (None, c)
  | tier :: tiers =>
      match cache_remove c tier key with
      | (None, c) => cname_loop tiers c key now
      | (Some entry, c) =>
          match (match ce_kind entry with Positive s => cname_target s | Negative _ _ _ => None end) with
          | None => cname_loop tiers (place c entry) key now
          | Some target =>
              if negb (is_fresh entry now) then
                let c := if is_stale_servable entry now (stale_window_secs (config c))
                         then park c (set_tier entry Cold) else c in
                cname_loop tiers c key now
              else
                let c := set_stats c (add_hit (stats c)) in
                let entry := set_served entry now in
                let entry := set_score entry (score_entry c entry now default_inputs) in
                (Some (CnameHit target (entry_ttl_secs entry) (ce_expires entry) (ce_validated entry)),
                 place c entry)
          end
      end
  end.
Definition lookup_cname c key now := cname_loop [Hot; Warm; Cold] c key now.

(** [walk_partitions]: the first key of the walk that answers. *)
Fixpoint try_keys {T} (f : SemanticCache -> CacheKey -> option T * SemanticCache)
    (keys : list CacheKey) c : option T * SemanticCache :=
  match keys with
  | [] => (None, c)
  | k :: keys =>
      match f c k with
      | (Some hit, c) => (Some hit, c)
      | (None, c) => try_keys f keys c
      end
  end.
Definition walk_partitions {T} (f : SemanticCache -> CacheKey -> option T * SemanticCache) key c :=
  try_keys f (walk_keys key) c.

Definition lookup_nx c key now : LookupOutcome S * SemanticCache :=
  match bt_get (nx c) (ck_name key) with
  | Some neg =>
      if now <? ne_expires neg
      then (NxDomainHit (ne_expires neg) (ne_soa neg), set_stats c (add_hit (stats c)))
      else (Miss, set_stats c (add_miss (stats c)))
  | None => (Miss, set_stats c (add_miss (stats c)))
  end.

Definition lookup c key now : LookupOutcome S * SemanticCache :=
  match walk_partitions (fun c k => lookup_exact c k now) key c with
  | (Some outcome, c) => (outcome, c)
  | (None, c) =>
      if negb (ck_type key =? RrTypes.CNAME) && negb (ck_type key =? RrTypes.ANY) then
        match walk_partitions (fun c k => lookup_cname c k now) (with_type key RrTypes.CNAME) c with
        | (Some outcome, c) => (outcome, c)
        | (None, c) => lookup_nx c key now
        end
      else lookup_nx c key now
  end.

Definition take_entry_any c key : option Entry * SemanticCache :=
  match cache_remove c Hot key with
  | (Some e, c) => (Some e, c)
  | (None, c) =>
      match cache_remove c Warm key with
      | (Some e, c) => (Some e, c)
      | (None, c) => cache_remove c Cold key
      end
  end.

Definition cap_ttl (s : RrSet) (cap : Z) : RrSet :=
  mkRrSet (rs_name s) (rs_type s) (rs_class s) (records s) (rrsigs s) (Z.min (rs_ttl s) cap)
    (rs_validated s).

Definition insert_positive c key (rrset : RrSet) now (inputs : ScoreInputs) (validated : bool)
    : SemanticCache :=
  let rrset := cap_ttl rrset (max_ttl_cap (config c)) in
  let expires := ts_saturating_add now (rs_ttl rrset * 1000000000) in
  let trust := if validated then f64_of 1 else UNVERIFIED_OBSERVATION_TRUST in
  match take_entry_any c key with
  | (Some entry, c) =>
      let changed := match ce_kind entry with
                     | Positive old => negb (same_data old rrset) | Negative _ _ _ => true end in
      let stab := observe_weighted (ce_stability entry) (rs_ttl rrset) changed now trust in
      let entry := set_data entry (Positive rrset) now expires stab
                     (validated || (negb changed && ce_validated entry)) in
      let entry := set_score entry (score_entry c entry now inputs) in
      place c entry
  | (None, c) =>
      let entry_ttl := rs_ttl rrset in
      let entry := mkEntry key (Positive rrset) now expires 0 now (with_config entry_ttl now)
                     validated (f64_of 0) Warm false (est_cost_ms inputs) in
      let entry := set_stability entry
                     (observe_weighted (ce_stability entry) entry_ttl false now trust) in
      let entry := set_score entry (score_entry c entry now inputs) in
      let c := set_stats c (add_insert (stats c)) in
      place c entry
  end.

Definition insert_negative c key (rcode : Rcode) (soa : option Rr) (authoritative_ttl : Z) now
    (inputs : ScoreInputs) : SemanticCache :=
  let ttl := Z.min authoritative_ttl (negative_ttl_cap (config c)) in
  let expires := ts_saturating_add now (ttl * 1000000000) in
  match take_entry_any c key with
  | (Some entry, c) =>
      let stab := observe (ce_stability entry) ttl true now in
      let entry := set_data entry (Negative rcode soa ttl) now expires stab (ce_validated entry) in
      let entry := set_score entry (score_entry c entry now inputs) in
      place c entry
  | (None, c) =>
      let entry := mkEntry key (Negative rcode soa ttl) now expires 0 now (with_config ttl now)
                     false (f64_of 0) Warm false (est_cost_ms inputs) in
      let entry := set_score entry (score_entry c entry now inputs) in
      let c := set_stats c (add_insert (stats c)) in
      place c entry
  end.

Definition restore_entry c (e : Entry) now : SemanticCache :=
  if ce_expires e <=? now then park c e else place c e.

Definition insert_nxdomain c (name : Name) (rcode : Rcode) (soa : option Rr)
    (authoritative_ttl : Z) now : SemanticCache :=
  let ttl := Z.min authoritative_ttl (negative_ttl_cap (config c)) in
  let expires := ts_saturating_add now (ttl * 1000000000) in
  match bt_get (nx c) name with
  | Some e =>
      set_nx c (bt_insert (nx c) name
        (mkNeg (Z.max (ne_expires e) expires) (ne_rcode e)
           (match soa with Some s => Some s | None => ne_soa e end) now (ne_served e)))
  | None =>
      let m := if nx_capacity (config c) <=? zlen (nx c)
               then snd (evict_for_capacity ne_expires (nx c) now NX_EVICT_STRIDE) else nx c in
      set_nx c (bt_insert m name (mkNeg expires rcode soa now 0))
  end.

Definition rescore c key (inputs : ScoreInputs) now : SemanticCache :=
  match take_entry_any c key with
  | (None, c) => c
  | (Some entry, c) => place c (set_score entry (score_entry c entry now inputs))
  end.

Definition sweep c now : SemanticCache :=
  let stale_window := stale_window_secs (config c) * 1000000000 in
  let keep (_ : CacheKey) (e : Entry) := now <=? ts_saturating_add (ce_expires e) stale_window in
  mkCache (config c) (tier_retain entry_rank keep (hot c)) (tier_retain entry_rank keep (warm c))
    (tier_retain entry_rank keep (cold c))
    (bt_retain (fun _ e => now <? ne_expires e) (nx c)) (stats c).

(** The first tier holding the key: [hot.get_mut(..).or_else(..)]. *)
Definition tier_holding c key : option Tier :=
  match tier_get (hot c) key with
  | Some _ => Some Hot
  | None => match tier_get (warm c) key with
            | Some _ => Some Warm
            | None => match tier_get (cold c) key with Some _ => Some Cold | None => None end
            end
  end.

Definition update_entry c key (f : Entry -> Entry) : SemanticCache :=
  match tier_holding c key with
  | Some t => set_tier_map c t (tier_update (tier_map c t) key f)
  | None => c
  end.

Definition record_refresh_failure c key now : SemanticCache :=
  update_entry c key (fun e => set_refreshing (set_stability e (record_failure (ce_stability e) now)) false).

Definition clear_refreshing c key : SemanticCache := update_entry c key (fun e => set_refreshing e false).

Definition mark_refreshing c key : bool * SemanticCache :=
  match tier_holding c key with
  | None => (false, c)
  | Some t =>
      match tier_get (tier_map c t) key with
      | None => (false, c)
      | Some e =>
          if ce_refreshing e then (false, c)
          else (true, update_entry c key (fun e => set_refreshing e true))
      end
  end.

Definition cache_len c : Z := tier_len (hot c) + tier_len (warm c) + tier_len (cold c) + zlen (nx c).
Definition cache_is_empty c : bool := cache_len c =? 0.
Definition iter_entries c : list Entry :=
  tier_values (hot c) ++ tier_values (warm c) ++ tier_values (cold c).
End cache.
#[global] Arguments SemanticCache : clear implicits.

(** ** The invariant *)

Definition cfg_capacity (cfg : CacheConfig) (t : Tier) : Z :=
  match t with Hot => hot_capacity cfg | Warm => warm_capacity cfg | Cold => cold_capacity cfg end.

Section invariant.
Context {S : Type} `{StabilityOps S}.
Abbreviation Entry := (CacheEntry S).
Abbreviation tier_ok := (Tier.tier_ok ce_key (@entry_rank S)).
Implicit Types (c : SemanticCache S) (key : CacheKey) (now : Ts) (e : CacheEntry S) (t : Tier).

Definition holds c t key : option Entry := tier_get (tier_map c t) key.

(** A tier within its capacity; a disabled hot or warm tier is empty.  Nothing
    bounds a disabled cold tier. *)
Definition tier_fits (t : Tier) (m : TierMap CacheKey Entry) : Prop :=
  (0 < capacity m -> tier_len m <= capacity m) /\
  (t <> Cold -> capacity m = 0 -> tier_len m = 0).

Definition tier_inv c t : Prop :=
  tier_ok (tier_map c t) /\ capacity (tier_map c t) = cfg_capacity (config c) t /\
  tier_fits t (tier_map c t).

Record cache_ok c : Prop := {
  ok_tiers : forall t, tier_inv c t;
  ok_cfg : forall t, 0 <= cfg_capacity (config c) t;
  ok_unique : forall key t1 t2 e1 e2,
    holds c t1 key = Some e1 -> holds c t2 key = Some e2 -> t1 = t2;
  ok_nx_sorted : bt_sorted (nx c);
  ok_nx_bound : zlen (nx c) <= Z.max 1 (nx_capacity (config c)) }.

(** The entry of a key, wherever it is, and what of it does not depend on
    where. *)
Definition find c key : option Entry :=
  match holds c Hot key with
  | Some e => Some e
  | None => match holds c Warm key with Some e => Some e | None => holds c Cold key end
  end.
Definition erase e : Entry := set_tier e Hot.
Definition view c key : option Entry := erase <$> find c key.

Definition absent c key : Prop := forall t, holds c t key = None.

Lemma find_Some c key e : cache_ok c -> find c key = Some e <-> exists t, holds c t key = Some e.
Proof.
  intros Hc. unfold find. pose proof (ok_unique c Hc key) as U. split.
  - destruct (holds c Hot key) eqn:E1; [intros [= <-]; by exists Hot|].
    destruct (holds c Warm key) eqn:E2; [intros [= <-]; by exists Warm|]. intros E3; by exists Cold.
  - intros [t Ht].
    assert (forall t', t' <> t -> holds c t' key = None) as N.
    { intros t' Hne. destruct (holds c t' key) as [e'|] eqn:E; [|done].
      by destruct Hne; apply (U t' t e' e). }
    destruct t; rewrite ?Ht; rewrite ?(N Hot), ?(N Warm) by done; done.
Qed.

Lemma find_None c key : find c key = None <-> absent c key.
Proof.
  unfold find, absent. split.
  - destruct (holds c Hot key) eqn:E1; [done|]. destruct (holds c Warm key) eqn:E2; [done|].
    intros E3 []; done.
  - intros A. by rewrite !A.
Qed.

Lemma tier_map_set c t m t' :
  tier_map (set_tier_map c t m) t' = if decide (t' = t) then m else tier_map c t'.
Proof. destruct t, t'; done. Qed.

Lemma tier_map_stats c s t : tier_map (set_stats c s) t = tier_map c t.
Proof. by destruct t. Qed.

Lemma config_set c t m : config (set_tier_map c t m) = config c.
Proof. by destruct t. Qed.
Lemma nx_set c t m : nx (set_tier_map c t m) = nx c.
Proof. by destruct t. Qed.

Lemma holds_set c t m t' key :
  holds (set_tier_map c t m) t' key = if decide (t' = t) then tier_get m key else holds c t' key.
Proof. unfold holds. rewrite tier_map_set. by destruct (decide _). Qed.

Lemma cache_ok_stats c s : cache_ok c -> cache_ok (set_stats c s).
Proof.
  intros [Ht Hg Hu Hs Hb]. constructor; [|done| |done|done].
  - intros t. unfold tier_inv. rewrite tier_map_stats. apply Ht.
  - intros key t1 t2 e1 e2. unfold holds. rewrite !tier_map_stats. apply Hu.
Qed.

(** Replacing one tier. *)
Lemma cache_ok_set c t m :
  cache_ok c -> tier_ok m -> capacity m = cfg_capacity (config c) t -> tier_fits t m ->
  (forall key e t' e', tier_get m key = Some e -> t' <> t -> holds c t' key = Some e' -> False) ->
  cache_ok (set_tier_map c t m).
Proof.
  intros [Ht Hg Hu Hs Hb] Hm Hcap Hf Hx. constructor; rewrite ?config_set, ?nx_set; try done.
  - intros t'. unfold tier_inv. rewrite tier_map_set, config_set.
    destruct (decide (t' = t)) as [->|]; [done|apply Ht].
  - intros key t1 t2 e1 e2. rewrite !holds_set.
    destruct (decide (t1 = t)) as [->|N1], (decide (t2 = t)) as [->|N2]; intros H1 H2;
      [done|exfalso; eauto|exfalso; eauto|eauto].
Qed.

Lemma cache_remove_spec c t key :
  cache_ok c ->
  let '(o, c') := cache_remove c t key in
  o = holds c t key /\ cache_ok c' /\ config c' = config c /\ nx c' = nx c /\ stats c' = stats c /\
  (forall t' key', holds c' t' key' =
     if decide (t' = t /\ key' = key) then None else holds c t' key').
Proof.
  intros Hc. pose proof (ok_tiers c Hc t) as (Ht & Hcap & Hfit).
  unfold cache_remove. destruct (tier_remove_spec ce_key entry_rank (tier_map c t) key Ht)
    as (Ho & Hok & C1 & G & L).
  destruct (tier_remove entry_rank (tier_map c t) key) as [o m]. cbn [fst snd] in *.
  conjs; [done| |by rewrite config_set|by rewrite nx_set|by destruct t|].
  - apply cache_ok_set; [done|done|congruence| |].
    + destruct Hfit as [F1 F2]. unfold tier_fits. rewrite C1.
      pose proof (zlen_nonneg (tm_map m)) as P. fold (tier_len m) in P.
      split; [intros Hp; specialize (F1 Hp)|intros Hne Hz; specialize (F2 Hne Hz)];
        destruct (tier_get _ _); lia.
    + intros key' e t' e' He Hne He'. rewrite G in He. destruct (decide (key' = key)); [done|].
      apply Hne. symmetry. by apply (ok_unique c Hc key' t t' e e').
  - intros t' key'. rewrite holds_set. destruct (decide (t' = t)) as [->|].
    + rewrite G. unfold holds. destruct (decide (key' = key)); [by rewrite decide_True|].
      by rewrite decide_False by tauto.
    + by rewrite decide_False by tauto.
Qed.

(** Inserting an entry whose key is in no other tier. *)
Lemma cache_insert_tier_spec c t e :
  cache_ok c -> (forall t', t' <> t -> holds c t' (ce_key e) = None) ->
  (t = Cold \/ 0 < capacity (tier_map c t)) ->
  let '(v, c') := cache_insert_tier c t e in
  cache_ok c' /\ config c' = config c /\ nx c' = nx c /\
  holds c' t (ce_key e) = Some e /\
  (forall x, v = Some x -> holds c t (ce_key x) = Some x /\ ce_key x <> ce_key e /\
     holds c' t (ce_key x) = None) /\
  (forall t' key, (t' <> t \/ key <> ce_key e) ->
     (forall x, v = Some x -> t' <> t \/ key <> ce_key x) -> holds c' t' key = holds c t' key).
Proof.
  intros Hc Habs Hcap0. pose proof (ok_tiers c Hc t) as (Ht & Hcap & Hfit).
  unfold cache_insert_tier. pose proof (tier_insert_spec ce_key entry_rank (tier_map c t) e Ht) as I.
  destruct (tier_insert ce_key entry_rank (tier_map c t) e) as [v m].
  destruct I as (Hok & C1 & Ge & Gv & Go & Hl & _).
  conjs; [|by rewrite config_set|by rewrite nx_set| | |].
  - apply cache_ok_set; [done|done|congruence| |].
    + split; [rewrite C1; intros; apply Hl; [done|by apply Hfit]|].
      intros Hne. rewrite C1. destruct Hcap0 as [->|]; [done|lia].
    + intros key e1 t' e' He1 Hne He'. destruct (decide (key = ce_key e)) as [->|Hk].
      { rewrite Habs in He' by done. done. }
      rewrite Go in He1 by done. apply Hne. symmetry.
      destruct v as [x|].
      * destruct (decide (key = ce_key x)); [done|]. by apply (ok_unique c Hc key t t' e1 e').
      * by apply (ok_unique c Hc key t t' e1 e').
  - rewrite holds_set, decide_True by done. done.
  - intros x ->. destruct (Gv x eq_refl) as (Gx & Nx & _). conjs; [done|done|].
    rewrite holds_set, decide_True, Go, decide_True by done. done.
  - intros t' key Hne Hx. rewrite holds_set. destruct (decide (t' = t)) as [->|]; [|done].
    rewrite Go by tauto. destruct v as [x|]; [|done].
    destruct (Hx x eq_refl) as [?|?]; [done|]. by rewrite decide_False.
Qed.
End invariant.

(** ** Placement *)

Section placement.
Context {S : Type} `{StabilityOps S}.
Implicit Types (c : SemanticCache S) (key : CacheKey) (now : Ts) (e : CacheEntry S) (t : Tier).

Lemma view_Some c key x : cache_ok c ->
  view c key = Some x <-> exists t e, holds c t key = Some e /\ erase e = x.
Proof.
  intros Hc. unfold view. rewrite fmap_Some. split.
  - intros (e & (t & He)%find_Some & ->); [|done]. by exists t, e.
  - intros (t & e & He & <-). exists e. split; [|done]. apply find_Some; [done|by exists t].
Qed.

Lemma view_None c key : view c key = None <-> absent c key.
Proof. unfold view. rewrite fmap_None. apply find_None. Qed.

Lemma view_same c c' key :
  (forall t, holds c' t key = holds c t key) -> view c' key = view c key.
Proof. intros E. unfold view, find. by rewrite !E. Qed.

Lemma view_stats c s key : view (set_stats c s) key = view c key.
Proof. apply view_same. intros t. unfold holds. by rewrite tier_map_stats. Qed.

Lemma tier_for_Some c s t : cache_ok c -> tier_for c s = Some t -> 0 < capacity (tier_map c t).
Proof.
  intros Hc. unfold tier_for.
  assert (forall t, 0 <= capacity (tier_map c t)) as P.
  { intros t'. destruct (ok_tiers c Hc t') as (_ & -> & _). apply (ok_cfg c Hc). }
  destruct (if f64_le (hot_admit_score _) _ then _ else _) as [t'|]; [|done].
  destruct (capacity (tier_map c t') =? 0) eqn:E; bools.
  - destruct (next_tier t') as [t2|]; [|done]. destruct (0 <? _) eqn:E2; [|done].
    intros [= <-]. by bools.
  - intros [= <-]. specialize (P t'). lia.
Qed.

(** After at most one key is lost, the view is unchanged but at [key]. *)
Definition view_changed c c' key (o : option (CacheEntry S)) : Prop :=
  view c' key = o /\
  exists lost : option CacheKey, forall k, k <> key ->
    view c' k = if decide (lost = Some k) then None else view c k.

Lemma spill_spec c v t :
  cache_ok c -> absent c (ce_key v) ->
  let c' := spill c v t in
  cache_ok c' /\ config c' = config c /\ nx c' = nx c /\
  (forall t' key, t' = t -> holds c' t' key = holds c t' key) /\
  exists lost : option CacheKey,
    (forall k, lost = Some k -> holds c t k = None) /\
    forall k, view c' k = if decide (lost = Some k) then None
                          else if decide (k = ce_key v) then Some (erase v) else view c k.
Proof.
  intros Hc Ha. cbn zeta. unfold spill. set (c1 := set_stats c _).
  assert (cache_ok c1) as Hc1 by (by apply cache_ok_stats).
  assert (forall t' k, holds c1 t' k = holds c t' k) as E1.
  { intros. unfold holds, c1. by rewrite tier_map_stats. }
  assert (cache_ok c1 /\ config c1 = config c /\ nx c1 = nx c /\
    (forall t' key, t' = t -> holds c1 t' key = holds c t' key) /\
    exists lost : option CacheKey, (forall k, lost = Some k -> holds c t k = None) /\
      forall k, view c1 k = if decide (lost = Some k) then None
                            else if decide (k = ce_key v) then Some (erase v) else view c k) as Drop.
  { conjs; [done|done|done|by intros|]. exists (Some (ce_key v)). split.
    - intros k [= <-]. apply Ha.
    - intros k. rewrite (view_same c) by done. destruct (decide (Some _ = Some k)) as [[= <-]|Hne].
      + by apply view_None.
      + by rewrite decide_False by congruence. }
  destruct (next_tier t) as [nt|] eqn:En; [|done].
  destruct (capacity (tier_map c1 nt) =? 0) eqn:E0; [done|]. bools. clear Drop.
  assert (nt <> t) as Hnt by (by destruct t, nt).
  assert (nt = Cold \/ 0 < capacity (tier_map c1 nt)) as Hcap.
  { right. destruct (ok_tiers c1 Hc1 nt) as (_ & Ec & _). pose proof (ok_cfg c1 Hc1 nt). lia. }
  pose proof (cache_insert_tier_spec c1 nt (set_tier v nt) Hc1
    (fun t' _ => eq_trans (E1 t' (ce_key v)) (Ha t')) Hcap) as I.
  destruct (cache_insert_tier c1 nt (set_tier v nt)) as [w c2]. cbn [snd].
  destruct I as (Hc2 & Cf & Nx & Hv & Hw & Ho). cbn [ce_key set_tier] in *.
  conjs; [done|done|done|intros t' key ->; rewrite Ho; [apply E1|by left|by left]|].
  exists (ce_key <$> w). split.
  { intros k Hk. destruct w as [x|]; [|done]. injection Hk as <-.
    destruct (Hw x eq_refl) as (Hx & _). rewrite E1 in Hx.
    destruct (holds c t (ce_key x)) as [y|] eqn:Ey; [|done].
    destruct Hnt. by apply (ok_unique c Hc (ce_key x) nt t x y). }
  intros k. destruct (decide (k = ce_key v)) as [->|Hkv].
  - rewrite decide_False.
    + apply view_Some; [done|]. by exists nt, (set_tier v nt).
    + destruct w as [x|]; cbn; [|done]. intros [= E]. by destruct (Hw x eq_refl) as (_ & ? & _).
  - destruct (decide _) as [El|El].
    + destruct w as [x|]; cbn in El; [|done]. injection El as <-.
      destruct (Hw x eq_refl) as (Hx & _ & Hn). apply view_None. intros t'.
      destruct (decide (t' = nt)) as [->|]; [done|].
      rewrite Ho; [|by left|intros y [= <-]; by left].
      destruct (holds c1 t' (ce_key x)) as [y|] eqn:Ey; [|done].
      exfalso. assert (t' = nt); [|done]. by apply (ok_unique c1 Hc1 (ce_key x) t' nt y x).
    + rewrite <- (view_same c c1) by done. apply view_same. intros t'. apply Ho; [by right|].
      intros x ->. right. cbn in El. congruence.
Qed.

Lemma view_changed_stats c c' s key o :
  view_changed c c' key o -> view_changed (set_stats c s) c' key o.
Proof.
  intros (V & lost & L). split; [done|]. exists lost. intros k Hk. rewrite view_stats. by apply L.
Qed.

Lemma place_spec c e :
  cache_ok c -> absent c (ce_key e) ->
  let c' := place c e in
  cache_ok c' /\ config c' = config c /\ nx c' = nx c /\
  view_changed c c' (ce_key e)
    (match tier_for c (ce_score e) with Some _ => Some (erase e) | None => None end).
Proof.
  intros Hc Ha. cbn zeta. unfold place. destruct (tier_for c (ce_score e)) as [t|] eqn:Et.
  2: { conjs; [done|done|done|]. split; [by apply view_None|]. exists None.
       intros k _. by rewrite decide_False. }
  pose proof (tier_for_Some c _ t Hc Et) as Hcap.
  pose proof (cache_insert_tier_spec c t (set_tier e t) Hc (fun t' _ => Ha t') (or_intror Hcap)) as I.
  destruct (cache_insert_tier c t (set_tier e t)) as [[v|] c1];
    destruct I as (Hc1 & Cf & Nx & He & Hv & Ho); cbn [ce_key set_tier] in *.
  - destruct (Hv v eq_refl) as (Hvt & Hne & Hv1).
    assert (absent c1 (ce_key v)) as Av.
    { intros t'. destruct (decide (t' = t)) as [->|]; [done|].
      rewrite Ho; [|by left|intros x [= <-]; by left].
      destruct (holds c t' (ce_key v)) as [y|] eqn:Ey; [|done].
      exfalso. assert (t' = t); [|done]. by apply (ok_unique c Hc (ce_key v) t' t y v). }
    destruct (spill_spec c1 v t Hc1 Av) as (Hc2 & Cf2 & Nx2 & Hsame & lost & Hlost & V2).
    conjs; [done|congruence|congruence|]. split.
    + apply view_Some; [done|]. exists t, (set_tier e t). by rewrite Hsame.
    + exists lost. intros k Hk. rewrite V2. destruct (decide (lost = Some k)); [done|].
      destruct (decide (k = ce_key v)) as [->|].
      * symmetry. apply view_Some; [done|]. by exists t, v.
      * apply view_same. intros t'. apply Ho; [by right|]. intros x [= <-]. by right.
  - conjs; [done|done|done|]. split.
    + apply view_Some; [done|]. by exists t, (set_tier e t).
    + exists None. intros k Hk. rewrite decide_False by done. apply view_same.
      intros t'. apply Ho; [by right|done].
Qed.

Lemma park_spec c e :
  cache_ok c -> absent c (ce_key e) ->
  let c' := park c e in
  cache_ok c' /\ config c' = config c /\ nx c' = nx c /\
  view_changed c c' (ce_key e) (Some (erase e)).
Proof.
  intros Hc Ha. cbn zeta. unfold park.
  pose proof (cache_insert_tier_spec c Cold (set_tier e Cold) Hc (fun t' _ => Ha t') (or_introl eq_refl)) as I.
  destruct (cache_insert_tier c Cold (set_tier e Cold)) as [v c1]. cbn [snd].
  destruct I as (Hc1 & Cf & Nx & He & Hv & Ho); cbn [ce_key set_tier] in *.
  conjs; [done|done|done|]. split.
  - apply view_Some; [done|]. by exists Cold, (set_tier e Cold).
  - exists (ce_key <$> v). intros k Hk. destruct (decide _) as [El|El].
    + destruct v as [x|]; cbn in El; [|done]. injection El as <-.
      destruct (Hv x eq_refl) as (Hx & _ & Hx1). apply view_None. intros t'.
      destruct (decide (t' = Cold)) as [->|]; [done|].
      rewrite Ho; [|by left|intros y [= <-]; by left].
      destruct (holds c t' (ce_key x)) as [y|] eqn:Ey; [|done].
      exfalso. assert (t' = Cold); [|done]. by apply (ok_unique c Hc (ce_key x) t' Cold y x).
    + apply view_same. intros t'. apply Ho; [by right|]. intros x ->. right. cbn in El. congruence.
Qed.
End placement.

(** ** Lookup *)

Section lookup.
Context {S : Type} `{StabilityOps S}.
Implicit Types (c : SemanticCache S) (key : CacheKey) (now : Ts) (e : CacheEntry S) (t : Tier).

(** What an entry answers under its own key. *)
Definition entry_answer c e now : option (LookupOutcome S) :=
  let e' := set_served e now in
  if is_fresh e now then Some (Fresh (set_score e' (score_entry c e' now default_inputs)))
  else if is_stale_servable e now (stale_window_secs (config c)) then Some (Stale e')
  else None.

Definition exact_answer c key now : option (LookupOutcome S) :=
  match find c key with Some e => entry_answer c e now | None => None end.

(** The target of a live CNAME entry. *)
Definition live_cname e now : option Name :=
  if is_fresh e now
  then match ce_kind e with Positive s => cname_target s | Negative _ _ _ => None end
  else None.

Lemma live_cname_erase e now : live_cname (erase e) now = live_cname e now.
Proof. done. Qed.

Lemma score_entry_config c c' e now i :
  config c' = config c -> score_entry c' e now i = score_entry c e now i.
Proof. unfold score_entry. by intros ->. Qed.

Lemma holds_key c t key e : cache_ok c -> holds c t key = Some e -> ce_key e = key.
Proof. intros Hc. destruct (ok_tiers c Hc t) as (Ht & _). by apply tier_get_key with entry_rank. Qed.

(** Taking an entry out of its tier leaves its key absent. *)
Lemma removed_absent c c' t key e :
  cache_ok c -> holds c t key = Some e ->
  (forall t' key', holds c' t' key' = if decide (t' = t /\ key' = key) then None else holds c t' key') ->
  absent c' key /\ (forall k, k <> key -> find c' k = find c k) /\
  (forall k, k <> key -> view c' k = view c k).
Proof.
  intros Hc He G.
  assert (forall k, k <> key -> forall t', holds c' t' k = holds c t' k) as Hk.
  { intros k Hk t'. rewrite G, decide_False by tauto. done. }
  conjs.
  - intros t'. rewrite G. destruct (decide _) as [|Hn]; [done|].
    destruct (holds c t' key) as [e'|] eqn:E; [|done].
    exfalso. apply Hn. split; [|done]. by apply (ok_unique c Hc key t' t e' e).
  - intros k Hne. unfold find. by rewrite !(Hk k Hne).
  - intros k Hne. apply view_same. by apply Hk.
Qed.

Lemma removed_none c c' t key :
  holds c t key = None ->
  (forall t' key', holds c' t' key' = if decide (t' = t /\ key' = key) then None else holds c t' key') ->
  forall t' k, holds c' t' k = holds c t' k.
Proof. intros Hn G t' k. rewrite G. by destruct (decide _) as [[-> ->]|]. Qed.

Lemma view_changed_trans c c1 c' key o :
  (forall k, k <> key -> view c1 k = view c k) -> view_changed c1 c' key o -> view_changed c c' key o.
Proof.
  intros E (V & lost & L). split; [done|]. exists lost. intros k Hk. by rewrite L, E.
Qed.

Lemma exact_loop_spec tiers c key now :
  cache_ok c -> (forall t, ~ In t tiers -> holds c t key = None) ->
  let '(o, c') := exact_loop tiers c key now in
  o = exact_answer c key now /\
  cache_ok c' /\ config c' = config c /\ nx c' = nx c /\
  (exists v, view_changed c c' key v) /\
  (o = None -> absent c' key /\ forall k, k <> key -> find c' k = find c k).
Proof.
  revert c; induction tiers as [|t tiers IH]; intros c Hc Hout; cbn [exact_loop].
  - assert (absent c key) as Ha by (intros t; apply Hout; auto).
    unfold exact_answer. rewrite (proj2 (find_None c key)) by done. conjs; try done.
    exists None. split; [by apply view_None|]. exists None. intros k _. by rewrite decide_False.
  - pose proof (cache_remove_spec c t key Hc) as R.
    destruct (cache_remove c t key) as [o c1]. destruct R as (-> & Hc1 & Cf & Nx & St & G).
    destruct (holds c t key) as [e|] eqn:Et.
    + destruct (removed_absent c c1 t key e Hc Et G) as (Ha & Hf & Hv).
      pose proof (holds_key c t key e Hc Et) as Hke.
      assert (find c key = Some e) as Hfind by (apply find_Some; [done|by exists t]).
      unfold exact_answer. rewrite Hfind. unfold entry_answer.
      change (is_fresh (set_served e now) now) with (is_fresh e now).
      change (is_stale_servable (set_served e now) now (stale_window_secs (config c1)))
        with (is_stale_servable e now (stale_window_secs (config c1))). rewrite Cf.
      destruct (is_fresh e now).
      * set (c2 := set_stats c1 _). set (e' := set_score _ _).
        assert (cache_ok c2) as Hc2 by (by apply cache_ok_stats).
        assert (absent c2 (ce_key e')) as Ha2.
        { intros t'. unfold holds, c2. rewrite tier_map_stats. cbn. rewrite Hke. apply Ha. }
        destruct (place_spec c2 e' Hc2 Ha2) as (Hok & Cf2 & Nx2 & V).
        conjs; [|done|by rewrite Cf2|by rewrite Nx2| |done].
        -- unfold e'. do 3 f_equal. by apply score_entry_config.
        -- eexists. apply (view_changed_trans c c2).
           { intros k Hk. unfold c2. rewrite view_stats. by apply Hv. }
           change (ce_key e') with (ce_key e) in V. rewrite Hke in V. exact V.
      * destruct (is_stale_servable e now (stale_window_secs (config c))) eqn:Es.
        -- set (c2 := set_stats c1 _).
           assert (cache_ok c2) as Hc2 by (by apply cache_ok_stats).
           set (e' := set_tier (set_served e now) Cold).
           assert (absent c2 (ce_key e')) as Ha2.
           { intros t'. unfold holds, c2. rewrite tier_map_stats. cbn. rewrite Hke. apply Ha. }
           destruct (park_spec c2 e' Hc2 Ha2) as (Hok & Cf2 & Nx2 & V).
           conjs; [done|done|by rewrite Cf2|by rewrite Nx2| |done].
           eexists. apply (view_changed_trans c c2).
           { intros k Hk. unfold c2. rewrite view_stats. by apply Hv. }
           change (ce_key e') with (ce_key e) in V. rewrite Hke in V. exact V.
        -- set (c2 := set_stats c1 _).
           assert (cache_ok c2) as Hc2 by (by apply cache_ok_stats).
           assert (forall t' k, holds c2 t' k = holds c1 t' k) as E2.
           { intros. unfold holds, c2. by rewrite tier_map_stats. }
           specialize (IH c2 Hc2 (fun t' _ => eq_trans (E2 t' key) (Ha t'))).
           destruct (exact_loop tiers c2 key now) as [o c'].
           destruct IH as (-> & Hok & Cf2 & Nx2 & (v & V) & Hno).
           assert (exact_answer c2 key now = None) as En.
           { unfold exact_answer. rewrite (proj2 (find_None c2 key)); [done|]. intros t'. by rewrite E2. }
           rewrite En in *. destruct (Hno eq_refl) as [Ha' Hf'].
           conjs; [done|done|by rewrite Cf2|by rewrite Nx2| |].
           ++ exists v. apply (view_changed_trans c c2); [|done].
              intros k Hk. unfold c2. rewrite view_stats. by apply Hv.
           ++ intros _. split; [done|]. intros k Hk. rewrite Hf' by done. unfold find.
              rewrite !E2. by apply Hf.
    + pose proof (removed_none c c1 t key Et G) as E1.
      specialize (IH c1 Hc1). destruct (exact_loop tiers c1 key now) as [o c'].
      destruct IH as (-> & Hok & Cf2 & Nx2 & (v & V) & Hno).
      { intros t' Hin. rewrite E1. destruct (decide (t' = t)) as [->|]; [done|].
        apply Hout. intros [->|]; done. }
      assert (exact_answer c1 key now = exact_answer c key now) as Ex.
      { unfold exact_answer, find. rewrite !E1. unfold entry_answer, score_entry. by rewrite Cf. }
      rewrite Ex in *.
      conjs; [done|done|by rewrite Cf2|by rewrite Nx2| |].
      * exists v. apply (view_changed_trans c c1); [|done]. intros k _. by apply view_same.
      * intros Ho. destruct (Hno Ho) as [Ha' Hf']. split; [done|]. intros k Hk.
        rewrite Hf' by done. unfold find. by rewrite !E1.
Qed.

Lemma lookup_exact_spec c key now :
  cache_ok c ->
  let '(o, c') := lookup_exact c key now in
  o = exact_answer c key now /\
  cache_ok c' /\ config c' = config c /\ nx c' = nx c /\
  (exists v, view_changed c c' key v) /\
  (o = None -> absent c' key /\ forall k, k <> key -> find c' k = find c k).
Proof.
  intros Hc. apply exact_loop_spec; [done|]. intros [] Hn; destruct Hn; cbn; auto.
Qed.

(** The walk answers from the first partition that can. *)
Lemma try_exact_spec keys c now :
  cache_ok c ->
  let '(o, c') := try_keys (fun c k => lookup_exact c k now) keys c in
  o = list_find_map (fun k => exact_answer c k now) keys /\
  cache_ok c' /\ config c' = config c /\ nx c' = nx c /\
  (o = None -> forall k x, view c' k = Some x -> view c k = Some x).
Proof.
  revert c; induction keys as [|k keys IH]; intros c Hc; cbn [try_keys list_find_map]; [done|].
  pose proof (lookup_exact_spec c k now Hc) as L.
  destruct (lookup_exact c k now) as [o c1]. destruct L as (-> & Hc1 & Cf & Nx & (v & V) & Hno).
  destruct (exact_answer c k now) as [ans|] eqn:E0; [done|]. destruct (Hno eq_refl) as [Ha Hf].
  specialize (IH c1 Hc1). destruct (try_keys _ keys c1) as [o c'].
  destruct IH as (-> & Hok & Cf2 & Nx2 & Hv).
  assert (forall k', exact_answer c1 k' now = exact_answer c k' now) as E.
  { intros k'. destruct (decide (k' = k)) as [->|Hne].
    - rewrite E0. unfold exact_answer. by rewrite (proj2 (find_None c1 k)).
    - unfold exact_answer. rewrite Hf by done. unfold entry_answer, score_entry. by rewrite Cf. }
  conjs; [|done|congruence|congruence|].
  - clear - E. induction keys as [|k' keys IH]; cbn; [done|]. by rewrite E, IH.
  - intros Ho k' x Hx. apply (Hv Ho) in Hx. destruct V as (V & lost & L).
    destruct (decide (k' = k)) as [->|Hne].
    + rewrite (proj2 (view_None c1 k)) in Hx by done. done.
    + rewrite L in Hx by done. by destruct (decide _).
Qed.

(** A key without a live CNAME gives no redirect, whatever the loop moves. *)
Lemma cname_loop_none tiers c key now :
  cache_ok c -> (forall e, find c key = Some e -> live_cname e now = None) ->
  let '(o, c') := cname_loop tiers c key now in
  o = None /\ cache_ok c' /\ config c' = config c /\ nx c' = nx c /\
  (forall k x, view c' k = Some x -> view c k = Some x).
Proof.
  revert c; induction tiers as [|t tiers IH]; intros c Hc Hno; cbn [cname_loop]; [done|].
  pose proof (cache_remove_spec c t key Hc) as R.
  destruct (cache_remove c t key) as [o c1]. destruct R as (-> & Hc1 & Cf & Nx & St & G).
  destruct (holds c t key) as [e|] eqn:Et.
  - destruct (removed_absent c c1 t key e Hc Et G) as (Ha & Hf & Hv).
    pose proof (holds_key c t key e Hc Et) as Hke.
    assert (find c key = Some e) as Hfind by (apply find_Some; [done|by exists t]).
    pose proof (Hno e Hfind) as Hlive.
    assert (view c key = Some (erase e)) as Hview by (unfold view; by rewrite Hfind).
    assert (forall c2, cache_ok c2 /\ config c2 = config c1 /\ nx c2 = nx c1 /\
              (exists v, view_changed c1 c2 key v /\ (forall x, v = Some x -> x = erase e)) ->
            let '(o, c') := cname_loop tiers c2 key now in
            o = None /\ cache_ok c' /\ config c' = config c /\ nx c' = nx c /\
            (forall k x, view c' k = Some x -> view c k = Some x)) as Go.
    { intros c2 (H2 & Cf2 & Nx2 & v & (V & lost & L) & Hx). specialize (IH c2 H2).
      assert (forall k x, view c2 k = Some x -> view c k = Some x) as Sub.
      { intros k x Hk. destruct (decide (k = key)) as [->|Hne].
        - rewrite V in Hk. rewrite Hview. f_equal. symmetry. by apply Hx.
        - rewrite L in Hk by done. destruct (decide _); [done|]. by rewrite <- Hv. }
      destruct (cname_loop tiers c2 key now) as [o c'].
      destruct IH as (-> & Hok & Cf3 & Nx3 & Sub2).
      { intros e2 He2. rewrite <- live_cname_erase.
        assert (view c2 key = Some (erase e2)) as Ve by (unfold view; by rewrite He2).
        apply Sub in Ve. rewrite Hview in Ve. apply (inj Some) in Ve. rewrite <- Ve. done. }
      conjs; [done|done|congruence|congruence|]. intros k x Hk. by apply Sub, Sub2. }
    assert (absent c1 (ce_key e)) as Hae by (by rewrite Hke).
    destruct (match ce_kind e with Positive s => cname_target s | _ => None end) as [target|] eqn:Etg.
    + assert (is_fresh e now = false) as Hfr.
      { unfold live_cname in Hlive. rewrite Etg in Hlive. by destruct (is_fresh e now). }
      rewrite Hfr. cbn [negb]. apply Go. destruct (is_stale_servable e now _).
      * destruct (park_spec c1 (set_tier e Cold) Hc1 Hae) as (Hok & Cf2 & Nx2 & V).
        change (ce_key (set_tier e Cold)) with (ce_key e) in V. rewrite Hke in V.
        conjs; [done|done|done|]. eexists; split; [exact V|]. by intros x [= <-].
      * conjs; [done|done|done|]. exists None. split; [|done].
        split; [by apply view_None|]. exists None. intros k _. by rewrite decide_False.
    + apply Go. destruct (place_spec c1 e Hc1 Hae) as (Hok & Cf2 & Nx2 & V). rewrite Hke in V.
      conjs; [done|done|done|]. eexists; split; [exact V|].
      intros x. destruct (tier_for _ _); [by intros [= <-]|done].
  - pose proof (removed_none c c1 t key Et G) as E1. specialize (IH c1 Hc1).
    destruct (cname_loop tiers c1 key now) as [o c']. destruct IH as (-> & Hok & Cf2 & Nx2 & Sub).
    { intros e He. apply Hno. unfold find in *. by rewrite !E1 in He. }
    conjs; [done|done|congruence|congruence|]. intros k x Hk. apply Sub in Hk.
    by rewrite (view_same c c1) in Hk.
Qed.

Definition cname_outcome e (target : Name) : LookupOutcome S :=
  CnameHit target (entry_ttl_secs e) (ce_expires e) (ce_validated e).

Definition cname_answer c key now : option (LookupOutcome S) :=
  match find c key with
  | Some e => cname_outcome e <$> live_cname e now
  | None => None
  end.

Lemma cname_loop_spec tiers c key now :
  cache_ok c -> (forall t, ~ In t tiers -> holds c t key = None) ->
  let '(o, c') := cname_loop tiers c key now in
  o = cname_answer c key now /\ cache_ok c' /\ config c' = config c /\ nx c' = nx c /\
  (o = None -> forall k x, view c' k = Some x -> view c k = Some x).
Proof.
  intros Hc Hout. destruct (cname_answer c key now) as [ans|] eqn:Ea.
  2: { pose proof (cname_loop_none tiers c key now Hc) as N.
       destruct (cname_loop tiers c key now) as [o c']. destruct N as (-> & ? & ? & ? & ?); [|done].
       intros e He. unfold cname_answer in Ea. rewrite He in Ea. by destruct (live_cname e now). }
  revert c Hc Hout Ea; induction tiers as [|t tiers IH]; intros c Hc Hout Ea; cbn [cname_loop].
  { unfold cname_answer in Ea. rewrite (proj2 (find_None c key)) in Ea; [done|].
    intros t. apply Hout; auto. }
  pose proof (cache_remove_spec c t key Hc) as R.
  destruct (cache_remove c t key) as [o c1]. destruct R as (-> & Hc1 & Cf & Nx & St & G).
  destruct (holds c t key) as [e|] eqn:Et.
  - destruct (removed_absent c c1 t key e Hc Et G) as (Ha & Hf & Hv).
    pose proof (holds_key c t key e Hc Et) as Hke.
    unfold cname_answer in Ea. rewrite (proj2 (find_Some c key e Hc)) in Ea by (by exists t).
    unfold live_cname in Ea. destruct (is_fresh e now) eqn:Hfr; [|done].
    destruct (match ce_kind e with Positive s => cname_target s | _ => None end) as [target|]; [|done].
    cbn [negb]. set (c2 := set_stats c1 _). set (e' := set_score _ _).
    assert (cache_ok c2) as Hc2 by (by apply cache_ok_stats).
    assert (absent c2 (ce_key e')) as Ha2.
    { intros t'. unfold holds, c2. rewrite tier_map_stats. cbn. rewrite Hke. apply Ha. }
    destruct (place_spec c2 e' Hc2 Ha2) as (Hok & Cf2 & Nx2 & V).
    conjs; [by injection Ea as <-|done|by rewrite Cf2|by rewrite Nx2|done].
  - pose proof (removed_none c c1 t key Et G) as E1. specialize (IH c1 Hc1).
    destruct (cname_loop tiers c1 key now) as [o c']. destruct IH as (-> & Hok & Cf2 & Nx2 & Sub).
    + intros t' Hin. rewrite E1. destruct (decide (t' = t)) as [->|]; [done|].
      apply Hout. intros [->|]; done.
    + unfold cname_answer, find in *. by rewrite !E1.
    + conjs; [done|done|congruence|congruence|done].
Qed.

Lemma try_cname_spec keys c now :
  cache_ok c ->
  let '(o, c') := try_keys (fun c k => lookup_cname c k now) keys c in
  cache_ok c' /\ config c' = config c /\ nx c' = nx c /\
  (forall ans, o = Some ans -> exists k e target,
     In k keys /\ view c k = Some e /\ live_cname e now = Some target /\ ans = cname_outcome e target).
Proof.
  revert c; induction keys as [|k keys IH]; intros c Hc; cbn [try_keys]; [done|].
  pose proof (cname_loop_spec [Hot; Warm; Cold] c k now Hc) as L. unfold lookup_cname at 1.
  destruct (cname_loop _ c k now) as [o c1].
  destruct L as (-> & Hc1 & Cf & Nx & Sub). { intros [] Hn; destruct Hn; cbn; auto. }
  destruct (cname_answer c k now) as [ans|] eqn:Ea.
  - conjs; [done|done|done|]. intros a [= <-]. unfold cname_answer in Ea.
    destruct (find c k) as [e|] eqn:Ef; [|done].
    destruct (live_cname e now) as [target|] eqn:El; [|done]. injection Ea as <-.
    exists k, (erase e), target. conjs; [by left| |by rewrite live_cname_erase|done].
    unfold view. by rewrite Ef.
  - specialize (IH c1 Hc1). destruct (try_keys _ keys c1) as [o c'].
    destruct IH as (Hok & Cf2 & Nx2 & Hx). conjs; [done|congruence|congruence|].
    intros a Ho. destruct (Hx a Ho) as (k' & e & target & Hin & Hv & Hl & Ha).
    exists k', e, target. conjs; [by right|by apply Sub|done|done].
Qed.
End lookup.

(** ** The operations on the view *)

Section operations.
Context {S : Type} `{StabilityOps S}.
Implicit Types (c : SemanticCache S) (key : CacheKey) (now : Ts) (e : CacheEntry S) (t : Tier).

Lemma lookup_nx_spec c key now :
  let '(o, c') := lookup_nx c key now in
  (cache_ok c -> cache_ok c') /\ config c' = config c /\ nx c' = nx c /\
  match bt_get (nx c) (ck_name key) with
  | Some neg => o = if now <? ne_expires neg then NxDomainHit (ne_expires neg) (ne_soa neg) else Miss
  | None => o = Miss
  end.
Proof.
  unfold lookup_nx. destruct (bt_get (nx c) (ck_name key)) as [neg|];
    [destruct (now <? ne_expires neg)|]; conjs; try done; apply cache_ok_stats.
Qed.

Lemma lookup_ok c key now :
  cache_ok c ->
  let c' := snd (lookup c key now) in cache_ok c' /\ config c' = config c /\ nx c' = nx c.
Proof.
  intros Hc. cbn zeta. unfold lookup, walk_partitions.
  pose proof (try_exact_spec (walk_keys key) c now Hc) as X.
  destruct (try_keys _ (walk_keys key) c) as [[o|] c1]; destruct X as (_ & Hc1 & Cf & Nx & _); [done|].
  assert (let c' := snd (lookup_nx c1 key now) in cache_ok c' /\ config c' = config c /\ nx c' = nx c) as Last.
  { pose proof (lookup_nx_spec c1 key now) as N. cbn zeta. destruct (lookup_nx c1 key now) as [o c'].
    cbn [snd]. destruct N as (A & B & C & _). conjs; [auto|congruence|congruence]. }
  destruct (_ && _)%bool; [|done].
  pose proof (try_cname_spec (walk_keys (with_type key RrTypes.CNAME)) c1 now Hc1) as Y.
  destruct (try_keys _ _ c1) as [[o|] c2]; destruct Y as (Hc2 & Cf2 & Nx2 & _); cbn [snd];
    [conjs; [done|congruence|congruence]|].
  pose proof (lookup_nx_spec c2 key now) as N. destruct (lookup_nx c2 key now) as [o c'].
  cbn [snd]. destruct N as (A & B & C & _). conjs; [auto|congruence|congruence].
Qed.

Lemma take_entry_any_spec c key :
  cache_ok c ->
  let '(o, c') := take_entry_any c key in
  o = find c key /\ cache_ok c' /\ config c' = config c /\ nx c' = nx c /\ absent c' key /\
  (forall e, o = Some e -> ce_key e = key) /\
  (forall k, k <> key -> view c' k = view c k).
Proof.
  intros Hc. unfold take_entry_any.
  assert (forall t c1, cache_ok c1 -> config c1 = config c -> nx c1 = nx c ->
            (forall t' k, holds c1 t' k = holds c t' k) ->
            forall e, holds c t key = Some e ->
            let '(o, c') := cache_remove c1 t key in
            o = Some e /\ cache_ok c' /\ config c' = config c /\ nx c' = nx c /\ absent c' key /\
            (forall e0, o = Some e0 -> ce_key e0 = key) /\ forall k, k <> key -> view c' k = view c k) as Hit.
  { intros t c1 H1 Cf Nx E e He. pose proof (cache_remove_spec c1 t key H1) as R.
    destruct (cache_remove c1 t key) as [o c']. destruct R as (-> & Hc' & Cf' & Nx' & _ & G).
    rewrite E, He. pose proof He as He1. rewrite <- E in He1.
    destruct (removed_absent c1 c' t key e H1 He1 G) as (Ha & _ & Hv).
    conjs; [done|done|congruence|congruence|done| |].
    - intros e0 [= <-]. by apply (holds_key c t).
    - intros k Hk. rewrite Hv by done. by apply view_same. }
  unfold find.
  pose proof (cache_remove_spec c Hot key Hc) as R1.
  destruct (holds c Hot key) as [e1|] eqn:E1.
  { specialize (Hit Hot c Hc eq_refl eq_refl (fun _ _ => eq_refl) e1 E1).
    destruct (cache_remove c Hot key) as [o c1]. destruct R1 as (-> & _). done. }
  destruct (cache_remove c Hot key) as [o1 c1]. destruct R1 as (-> & Hc1 & Cf1 & Nx1 & _ & G1).
  pose proof (removed_none c c1 Hot key E1 G1) as S1.
  pose proof (cache_remove_spec c1 Warm key Hc1) as R2.
  destruct (holds c Warm key) as [e2|] eqn:E2.
  { specialize (Hit Warm c1 Hc1 Cf1 Nx1 S1 e2 E2).
    destruct (cache_remove c1 Warm key) as [o c2]. destruct Hit as (-> & Rest). done. }
  destruct (cache_remove c1 Warm key) as [o2 c2]. destruct R2 as (-> & Hc2 & Cf2 & Nx2 & _ & G2).
  pose proof (removed_none c1 c2 Warm key ltac:(by rewrite S1) G2) as S2. rewrite S1, E2.
  assert (forall t' k, holds c2 t' k = holds c t' k) as S3 by (intros; by rewrite S2).
  destruct (holds c Cold key) as [e3|] eqn:E3.
  { specialize (Hit Cold c2 Hc2 ltac:(congruence) ltac:(congruence) S3 e3 E3).
    destruct (cache_remove c2 Cold key) as [o c3]. destruct Hit as (-> & Rest). done. }
  pose proof (cache_remove_spec c2 Cold key Hc2) as R3.
  destruct (cache_remove c2 Cold key) as [o3 c3]. destruct R3 as (-> & Hc3 & Cf3 & Nx3 & _ & G3).
  pose proof (removed_none c2 c3 Cold key ltac:(by rewrite S3) G3) as S4.
  rewrite S3, E3. conjs; [done|done|congruence|congruence| |done|].
  - intros []; rewrite S4, S3; done.
  - intros k _. apply view_same. intros t. by rewrite S4.
Qed.

(** Taking an entry out and placing a rewritten one. *)
Lemma replace_spec c c1 key e' :
  cache_ok c1 -> absent c1 key -> ce_key e' = key -> config c1 = config c -> nx c1 = nx c ->
  (forall k, k <> key -> view c1 k = view c k) ->
  let c' := place c1 e' in
  cache_ok c' /\ config c' = config c /\ nx c' = nx c /\
  exists o, view_changed c c' key o /\ (o = None \/ o = Some (erase e')) /\
    (tier_for c1 (ce_score e') <> None -> o = Some (erase e')).
Proof.
  intros Hc1 Ha Hk Cf Nx Hv. cbn zeta.
  destruct (place_spec c1 e' Hc1) as (Hok & Cf2 & Nx2 & V); [by rewrite Hk|]. rewrite Hk in V.
  conjs; [done|congruence|congruence|]. eexists. split; [by eapply view_changed_trans|].
  destruct (tier_for c1 (ce_score e')); split; auto; by destruct 1.
Qed.

(** The entry an insertion writes. *)
Definition positive_entry c key rrset now (validated : bool) (x : CacheEntry S) : Prop :=
  ce_key x = key /\ ce_kind x = Positive (cap_ttl rrset (max_ttl_cap (config c))) /\
  ce_inserted x = now /\
  ce_expires x = ts_saturating_add now (Z.min (rs_ttl rrset) (max_ttl_cap (config c)) * 1000000000) /\
  ce_refreshing x = false /\
  ce_validated x = (validated ||
    match find c key with
    | Some old => match ce_kind old with
                  | Positive s => same_data s (cap_ttl rrset (max_ttl_cap (config c))) && ce_validated old
                  | Negative _ _ _ => false
                  end
    | None => false
    end).

Lemma insert_positive_spec c key rrset now inputs validated :
  cache_ok c ->
  let c' := insert_positive c key rrset now inputs validated in
  cache_ok c' /\ config c' = config c /\ nx c' = nx c /\
  exists o, view_changed c c' key o /\ forall x, o = Some x -> positive_entry c key rrset now validated x.
Proof.
  intros Hc. cbn zeta. unfold insert_positive.
  pose proof (take_entry_any_spec c key Hc) as T.
  destruct (take_entry_any c key) as [[e|] c1]; destruct T as (Hf & Hc1 & Cf & Nx & Ha & Hk & Hv).
  - set (e' := set_score _ _).
    destruct (replace_spec c c1 key e' Hc1 Ha (Hk e eq_refl) Cf Nx Hv) as (Hok & Cf2 & Nx2 & o & V & Ho & _).
    conjs; [done|done|done|]. exists o. split; [done|]. intros x ->.
    destruct Ho as [|[= ->]]; [done|]. unfold positive_entry. rewrite <- Hf.
    cbn [ce_key ce_kind ce_inserted ce_expires ce_refreshing ce_validated erase set_tier e' set_score set_data].
    conjs; [by apply Hk|done|done|done|done|]. f_equal. destruct (ce_kind e); [|done].
    by rewrite negb_involutive.
  - set (e' := set_score _ _). set (c2 := set_stats c1 _).
    destruct (replace_spec c c2 key e') as (Hok & Cf2 & Nx2 & o & V & Ho & _).
    + by apply cache_ok_stats.
    + intros t. unfold holds, c2. rewrite tier_map_stats. apply Ha.
    + done.
    + done.
    + done.
    + intros k Hne. unfold c2. rewrite view_stats. by apply Hv.
    + conjs; [done|done|done|]. exists o. split; [done|]. intros x ->.
      destruct Ho as [|[= ->]]; [done|]. unfold positive_entry. rewrite <- Hf.
      cbn [ce_key ce_kind ce_inserted ce_expires ce_refreshing ce_validated erase set_tier e'
           set_score set_stability]. conjs; try done. by rewrite orb_false_r.
Qed.

(** The entry a negative insertion writes: its [validated] mark is that of the
    entry it replaces. *)
Definition negative_entry c key rcode soa ttl now (x : CacheEntry S) : Prop :=
  let ttl := Z.min ttl (negative_ttl_cap (config c)) in
  ce_key x = key /\ ce_kind x = Negative rcode soa ttl /\ ce_inserted x = now /\
  ce_expires x = ts_saturating_add now (ttl * 1000000000) /\ ce_refreshing x = false /\
  ce_validated x = match find c key with Some old => ce_validated old | None => false end.

Lemma insert_negative_spec c key rcode soa ttl now inputs :
  cache_ok c ->
  let c' := insert_negative c key rcode soa ttl now inputs in
  cache_ok c' /\ config c' = config c /\ nx c' = nx c /\
  exists o, view_changed c c' key o /\ forall x, o = Some x -> negative_entry c key rcode soa ttl now x.
Proof.
  intros Hc. cbn zeta. unfold insert_negative.
  pose proof (take_entry_any_spec c key Hc) as T.
  destruct (take_entry_any c key) as [[e|] c1]; destruct T as (Hf & Hc1 & Cf & Nx & Ha & Hk & Hv).
  - set (e' := set_score _ _).
    destruct (replace_spec c c1 key e' Hc1 Ha (Hk e eq_refl) Cf Nx Hv) as (Hok & Cf2 & Nx2 & o & V & Ho & _).
    conjs; [done|done|done|]. exists o. split; [done|]. intros x ->.
    destruct Ho as [|[= ->]]; [done|]. unfold negative_entry. rewrite <- Hf.
    cbn [ce_key ce_kind ce_inserted ce_expires ce_refreshing ce_validated erase set_tier e' set_score set_data].
    cbn zeta. conjs; try done. by apply Hk.
  - set (e' := set_score _ _). set (c2 := set_stats c1 _).
    destruct (replace_spec c c2 key e') as (Hok & Cf2 & Nx2 & o & V & Ho & _).
    + by apply cache_ok_stats.
    + intros t. unfold holds, c2. rewrite tier_map_stats. apply Ha.
    + done.
    + done.
    + done.
    + intros k Hne. unfold c2. rewrite view_stats. by apply Hv.
    + conjs; [done|done|done|]. exists o. split; [done|]. intros x ->.
      destruct Ho as [|[= ->]]; [done|]. unfold negative_entry. rewrite <- Hf. done.
Qed.

Lemma rescore_ok c key inputs now :
  cache_ok c ->
  let c' := rescore c key inputs now in cache_ok c' /\ config c' = config c /\ nx c' = nx c.
Proof.
  intros Hc. cbn zeta. unfold rescore. pose proof (take_entry_any_spec c key Hc) as T.
  destruct (take_entry_any c key) as [[e|] c1]; destruct T as (Hf & Hc1 & Cf & Nx & Ha & Hk & Hv); [|done].
  destruct (replace_spec c c1 key (set_score e (score_entry c1 e now inputs)) Hc1 Ha (Hk e eq_refl) Cf Nx Hv)
    as (Hok & Cf2 & Nx2 & _). done.
Qed.

Lemma restore_entry_ok c e now :
  cache_ok c -> absent c (ce_key e) ->
  let c' := restore_entry c e now in cache_ok c' /\ config c' = config c /\ nx c' = nx c.
Proof.
  intros Hc Ha. cbn zeta. unfold restore_entry. destruct (_ <=? _).
  - destruct (park_spec c e Hc Ha) as (? & ? & ? & _). done.
  - destruct (place_spec c e Hc Ha) as (? & ? & ? & _). done.
Qed.

Lemma update_entry_spec c key f :
  cache_ok c -> (forall e, ce_key (f e) = ce_key e) -> (forall e, ce_score (f e) = ce_score e) ->
  let c' := update_entry c key f in
  cache_ok c' /\ config c' = config c /\ nx c' = nx c /\
  (forall k, find c' k = if decide (k = key) then f <$> find c key else find c k).
Proof.
  intros Hc Hfk Hfs. cbn zeta. unfold update_entry.
  assert (forall e, entry_rank (f e) = entry_rank e) as Hr by (intros; unfold entry_rank; by rewrite Hfs).
  assert (forall t e, holds c t key = Some e ->
            let c' := set_tier_map c t (tier_update (tier_map c t) key f) in
            cache_ok c' /\ config c' = config c /\ nx c' = nx c /\
            (forall k, find c' k = if decide (k = key) then f <$> find c key else find c k)) as Upd.
  { intros t e He. cbn zeta. destruct (ok_tiers c Hc t) as (Ht & Hcap & Hfit).
    destruct (tier_update_spec ce_key entry_rank (tier_map c t) key f Ht Hfk Hr) as (Hok & C1 & L1 & G1).
    assert (cache_ok (set_tier_map c t (tier_update (tier_map c t) key f))) as Hc'.
    { apply cache_ok_set; [done|done|congruence| |].
      - unfold tier_fits in *. by rewrite C1, L1.
      - intros k e1 t' e' He1 Hne He'. rewrite G1 in He1. apply Hne. symmetry.
        destruct (decide (k = key)) as [->|].
        + by apply (ok_unique c Hc key t t' e e').
        + by apply (ok_unique c Hc k t t' e1 e'). }
    conjs; [done|by rewrite config_set|by rewrite nx_set|].
    intros k. apply option_eq. intros x. rewrite find_Some by done.
    destruct (decide (k = key)) as [->|Hne].
    - rewrite (proj2 (find_Some c key e Hc)) by (by exists t). cbn [fmap option_fmap option_map].
      assert (tier_get (tier_map c t) key = Some e) as Eg by exact He. split.
      + intros [t' Hx]. rewrite holds_set in Hx. destruct (decide (t' = t)) as [->|Hnt].
        * rewrite G1, decide_True, Eg in Hx by done. done.
        * exfalso. apply Hnt. by apply (ok_unique c Hc key t' t x e).
      + intros [= <-]. exists t. rewrite holds_set, decide_True, G1, decide_True, Eg by done. done.
    - rewrite find_Some by done. split; intros [t' Hx]; exists t'; rewrite holds_set in *;
        destruct (decide (t' = t)) as [->|]; try done; rewrite G1, decide_False in * by done; done. }
  unfold tier_holding. change (tier_get (hot c) key) with (holds c Hot key).
  change (tier_get (warm c) key) with (holds c Warm key).
  change (tier_get (cold c) key) with (holds c Cold key).
  destruct (holds c Hot key) as [e1|] eqn:E1; [by apply (Upd Hot e1)|].
  destruct (holds c Warm key) as [e2|] eqn:E2; [by apply (Upd Warm e2)|].
  destruct (holds c Cold key) as [e3|] eqn:E3; [by apply (Upd Cold e3)|].
  conjs; [done|done|done|]. intros k. destruct (decide (k = key)) as [->|]; [|done].
  rewrite (proj2 (find_None c key)); [done|]. by intros [].
Qed.
End operations.

(** ** Reachable caches *)

Section reachable.
Context {S : Type} `{StabilityOps S}.
Implicit Types (c : SemanticCache S) (key : CacheKey) (now : Ts) (e : CacheEntry S) (t : Tier).

Lemma sweep_spec c now :
  cache_ok c ->
  cache_ok (sweep c now) /\ config (sweep c now) = config c /\
  (forall k, find (sweep c now) k =
     match find c k with
     | Some e => if now <=? ts_saturating_add (ce_expires e) (stale_window_secs (config c) * 1000000000)
                 then Some e else None
     | None => None
     end) /\
  (forall n, bt_get (nx (sweep c now)) n =
     match bt_get (nx c) n with
     | Some e => if now <? ne_expires e then Some e else None
     | None => None
     end).
Proof.
  intros Hc. set (keep := fun (_ : CacheKey) (e : CacheEntry S) =>
    now <=? ts_saturating_add (ce_expires e) (stale_window_secs (config c) * 1000000000)).
  assert (forall t, tier_map (sweep c now) t = tier_retain entry_rank keep (tier_map c t)) as T by (by intros []).
  assert (forall t k, holds (sweep c now) t k =
            match holds c t k with Some e => if keep k e then Some e else None | None => None end) as Hh.
  { intros t k. destruct (ok_tiers c Hc t) as (Ht & _). unfold holds. rewrite T.
    destruct (tier_retain_spec ce_key entry_rank keep (tier_map c t) Ht) as (_ & _ & _ & G). apply G. }
  assert (cache_ok (sweep c now)) as Hok.
  { constructor.
    - intros t. destruct (ok_tiers c Hc t) as (Ht & Hcap & F1 & F2). unfold tier_inv, tier_fits. rewrite T.
      destruct (tier_retain_spec ce_key entry_rank keep (tier_map c t) Ht) as (Hok & C1 & L1 & _).
      pose proof (zlen_nonneg (tm_map (tier_retain entry_rank keep (tier_map c t)))) as P.
      fold (tier_len (tier_retain entry_rank keep (tier_map c t))) in P.
      conjs; [done|by rewrite C1| |]; rewrite C1.
      + intros Hp. specialize (F1 Hp). lia.
      + intros Hne Hz. specialize (F2 Hne Hz). lia.
    - apply (ok_cfg c Hc).
    - intros k t1 t2 e1 e2. rewrite !Hh. intros H1 H2.
      destruct (holds c t1 k) eqn:E1, (holds c t2 k) eqn:E2; try done.
      by apply (ok_unique c Hc k t1 t2 c0 c1).
    - apply filter_sorted, (ok_nx_sorted c Hc).
    - cbn [sweep nx config]. pose proof (ok_nx_bound c Hc).
      pose proof (zlen_filter_le (fun kv : Name * NegativeEntry => now <? ne_expires kv.2) (nx c)).
      unfold bt_retain. lia. }
  conjs; [done|done| |].
  - intros k. apply option_eq. intros x. rewrite find_Some by done. split.
    + intros [t Hx]. rewrite Hh in Hx. destruct (holds c t k) as [e|] eqn:Ee; [|done].
      rewrite (proj2 (find_Some c k e Hc)) by (by exists t). unfold keep in Hx. done.
    + destruct (find c k) as [e|] eqn:Ef; [|done]. apply find_Some in Ef as [t Ht]; [|done].
      intros Hx. exists t. rewrite Hh, Ht. unfold keep. done.
  - intros n. cbn [sweep nx]. apply bt_get_retain, (ok_nx_sorted c Hc).
Qed.

Lemma insert_nxdomain_ok c name rcode soa ttl now :
  cache_ok c ->
  let c' := insert_nxdomain c name rcode soa ttl now in
  cache_ok c' /\ config c' = config c /\ (forall k, find c' k = find c k) /\
  exists neg, bt_get (nx c') name = Some neg /\
    ts_saturating_add now (Z.min ttl (negative_ttl_cap (config c)) * 1000000000) <= ne_expires neg.
Proof.
  intros Hc. cbn zeta. destruct Hc as [Ht Hg Hu Hs Hb] eqn:Ec. clear Ec.
  assert (forall m, bt_sorted m -> zlen m <= Z.max 1 (nx_capacity (config c)) ->
            cache_ok (set_nx c m)) as Ok.
  { intros m Sm Lm. constructor; [|done| |done|done].
    - intros t. specialize (Ht t). by destruct t.
    - intros k t1 t2 e1 e2. specialize (Hu k t1 t2 e1 e2). by destruct t1, t2. }
  unfold insert_nxdomain. destruct (bt_get (nx c) name) as [old|] eqn:E.
  - conjs; [|done|done|].
    + apply Ok; [by apply bt_insert_sorted|]. rewrite zlen_bt_insert by done.
      unfold bt_contains_key. by rewrite E.
    + eexists. cbn [set_nx nx]. rewrite bt_get_insert, decide_True by done. split; [done|].
      cbn [ne_expires]. lia.
  - set (m := if nx_capacity (config c) <=? zlen (nx c) then _ else nx c).
    assert (bt_sorted m /\ zlen m + 1 <= Z.max 1 (nx_capacity (config c))) as [Sm Lm].
    { unfold m. destruct (_ <=? _) eqn:El; bools; [|split; [done|lia]].
      split; [by apply evict_sorted|]. destruct (decide (nx c = [])) as [En|Hne].
      - rewrite En. change (evict_for_capacity ne_expires [] now NX_EVICT_STRIDE).2
          with (@nil (Name * NegativeEntry)). rewrite zlen_nil. lia.
      - pose proof (evict_shrinks ne_expires (nx c) now NX_EVICT_STRIDE Hs Hne). lia. }
    conjs; [|done|done|].
    + apply Ok; [by apply bt_insert_sorted|]. rewrite zlen_bt_insert by done.
      destruct (bt_contains_key m name); lia.
    + eexists. cbn [set_nx nx]. rewrite bt_get_insert, decide_True by done. split; [done|].
      cbn [ne_expires]. lia.
Qed.

(** The public operations; a restored entry is one the cache does not hold. *)
Inductive cache_step c : SemanticCache S -> Prop :=
| step_lookup key now : cache_step c (snd (lookup c key now))
| step_positive key rrset now inputs validated :
    cache_step c (insert_positive c key rrset now inputs validated)
| step_negative key rcode soa ttl now inputs :
    cache_step c (insert_negative c key rcode soa ttl now inputs)
| step_nxdomain name rcode soa ttl now : cache_step c (insert_nxdomain c name rcode soa ttl now)
| step_restore e now : absent c (ce_key e) -> cache_step c (restore_entry c e now)
| step_rescore key inputs now : cache_step c (rescore c key inputs now)
| step_sweep now : cache_step c (sweep c now)
| step_failure key now : cache_step c (record_refresh_failure c key now)
| step_clear key : cache_step c (clear_refreshing c key)
| step_mark key : cache_step c (snd (mark_refreshing c key)).

Inductive cache_reachable (cfg : CacheConfig) : SemanticCache S -> Prop :=
| reach_new : cache_reachable cfg (cache_new cfg)
| reach_step c c' : cache_reachable cfg c -> cache_step c c' -> cache_reachable cfg c'.

Lemma mark_refreshing_ok c key :
  cache_ok c -> cache_ok (snd (mark_refreshing c key)) /\ config (snd (mark_refreshing c key)) = config c.
Proof.
  intros Hc. unfold mark_refreshing. destruct (tier_holding c key); [|done].
  destruct (tier_get _ key) as [e|]; [|done]. destruct (ce_refreshing e); [done|]. cbn [snd].
  destruct (update_entry_spec c key (fun e => set_refreshing e true) Hc) as (? & ? & _); done.
Qed.

Lemma cache_step_ok c c' : cache_ok c -> cache_step c c' -> cache_ok c' /\ config c' = config c.
Proof.
  intros Hc [].
  - by destruct (lookup_ok c key now Hc) as (? & ? & _).
  - by destruct (insert_positive_spec c key rrset now inputs validated Hc) as (? & ? & _).
  - by destruct (insert_negative_spec c key rcode soa ttl now inputs Hc) as (? & ? & _).
  - by destruct (insert_nxdomain_ok c name rcode soa ttl now Hc) as (? & ? & _).
  - by destruct (restore_entry_ok c e now Hc) as (? & ? & _).
  - by destruct (rescore_ok c key inputs now Hc) as (? & ? & _).
  - by destruct (sweep_spec c now Hc) as (? & ? & _).
  - by destruct (update_entry_spec c key (fun e =>
      set_refreshing (set_stability e (record_failure (ce_stability e) now)) false) Hc) as (? & ? & _).
  - by destruct (update_entry_spec c key (fun e => set_refreshing e false) Hc) as (? & ? & _).
  - by apply mark_refreshing_ok.
Qed.

Definition cfg_ok (cfg : CacheConfig) : Prop := forall t, 0 <= cfg_capacity cfg t.

Lemma cache_new_ok cfg : cfg_ok cfg -> cache_ok (cache_new (S := S) cfg).
Proof.
  intros Hg. constructor; cbn [cache_new config nx]; [|done| |constructor|unfold zlen; cbn; lia].
  - intros t. destruct t; (split; [apply tier_ok_new|]; split; [done|]);
      unfold tier_fits, tier_len, zlen; cbn; lia.
  - intros k t1 t2 e1 e2. by destruct t1.
Qed.

Lemma cache_reachable_ok cfg c : cfg_ok cfg -> cache_reachable cfg c -> cache_ok c /\ config c = cfg.
Proof.
  intros Hg. induction 1 as [|c c' _ [IH Ecfg] Hs]; [split; [by apply cache_new_ok|done]|].
  destruct (cache_step_ok c c' IH Hs). split; [done|congruence].
Qed.

Lemma park_disabled_cold c e :
  cache_ok c -> absent c (ce_key e) -> cold_capacity (config c) = 0 ->
  tier_len (cold (park c e)) = tier_len (cold c) + 1.
Proof.
  intros Hc Ha Hz. destruct (ok_tiers c Hc Cold) as (Ht & Hcap & _). cbn [tier_map cfg_capacity] in *.
  pose proof (tier_store_ok ce_key entry_rank (cold c) (set_tier e Cold) Ht) as St.
  unfold park, cache_insert_tier, tier_insert. cbn [tier_map]. rewrite Hcap, Hz.
  cbn [Z.ltb Z.compare andb]. cbn zeta in St.
  destruct (match bt_get (tm_map (cold c)) (ce_key (set_tier e Cold)) with Some _ => _ | None => _ end) as [m index].
  cbn [snd set_tier_map cold]. destruct St as (_ & _ & L). unfold tier_len in *.
  cbn [tm_map] in *. rewrite L.
  unfold bt_contains_key. pose proof (Ha Cold) as Hn. unfold holds, tier_get in Hn. cbn in Hn |- *.
  by rewrite Hn.
Qed.
End reachable.

(** ** Properties *)

Section properties.
Context {S : Type} `{StabilityOps S}.
Implicit Types (c : SemanticCache S) (key : CacheKey) (now : Ts) (e : CacheEntry S) (t : Tier).




(** marking a cached key for refresh succeeds once and is refused while the
    refresh is in flight; a failure or a withdrawal always ends it, so that the
    key can be marked again; a key that is not cached is never marked. *)
Theorem refresh_mark_cycle c key now :
  cache_ok c ->
  let mark c := fst (mark_refreshing c key) in
  let marked := snd (mark_refreshing c key) in
  (mark c = true <-> exists e, find c key = Some e /\ ce_refreshing e = false) /\
  mark marked = false /\
  (find c key <> None ->
     mark (record_refresh_failure marked key now) = true /\
     mark (clear_refreshing marked key) = true).
Proof.
  intros Hc. cbn zeta.
  assert (forall c, cache_ok c ->
    fst (mark_refreshing c key) = match find c key with Some e => negb (ce_refreshing e) | None => false end /\
    find (snd (mark_refreshing c key)) key = (fun e => set_refreshing e true) <$> find c key) as M.
  { intros c0 H0. unfold mark_refreshing.
    destruct (update_entry_spec c0 key (fun e => set_refreshing e true) H0) as (_ & _ & _ & F); [done|done|].
    specialize (F key). rewrite decide_True in F by done.
    assert (match tier_holding c0 key with
            | Some t => tier_get (tier_map c0 t) key = find c0 key /\ find c0 key <> None
            | None => find c0 key = None
            end) as T.
    { unfold tier_holding, find, holds. cbn [tier_map].
      destruct (tier_get (hot c0) key) eqn:E1; [by cbn; rewrite E1|].
      destruct (tier_get (warm c0) key) eqn:E2; [by cbn; rewrite E2|].
      destruct (tier_get (cold c0) key) eqn:E3; [by cbn; rewrite E3|done]. }
    destruct (tier_holding c0 key) as [t|].
    - destruct T as [-> Hne]. destruct (find c0 key) as [e|] eqn:Ef; [|done].
      destruct (ce_refreshing e) eqn:Er; cbn [fst snd negb]; [|done].
      rewrite Ef. split; [done|]. cbn. f_equal. destruct e; cbn in *. by subst.
    - cbn [fst snd]. by rewrite T. }
  destruct (M c Hc) as [M1 M2]. destruct (mark_refreshing_ok c key Hc) as [Hm _].
  destruct (M _ Hm) as [M3 _]. conjs.
  - rewrite M1. destruct (find c key) as [e|]; [|split; [done|intros (? & ? & _); done]].
    rewrite negb_true_iff. split; [by exists e|]. by intros (? & [= <-] & ?).
  - rewrite M3, M2. by destruct (find c key).
  - intros Hne. destruct (find c key) as [e|]; [|done]. cbn [fmap option_fmap option_map] in M2.
    assert (forall f, (forall e : CacheEntry S, ce_key (f e) = ce_key e) ->
              (forall e, ce_score (f e) = ce_score e) -> (forall e, ce_refreshing (f e) = false) ->
              fst (mark_refreshing (update_entry (snd (mark_refreshing c key)) key f) key) = true) as U.
    { intros f F1 F2 F3. destruct (update_entry_spec _ key f Hm F1 F2) as (Ho & _ & _ & Fu).
      destruct (M _ Ho) as [-> _]. rewrite Fu, decide_True, M2 by done. cbn. by rewrite F3. }
    split; by apply U.
Qed.
End properties.

(** ** Witnesses: a cache with a trivial refresh model *)

#[local] Instance flat_stability : StabilityOps unit := {
  with_config _ _ := tt;
  observe_weighted _ _ _ _ _ := tt;
  observe _ _ _ _ := tt;
  record_failure _ _ := tt;
  durability_score _ := pct 50 }.

Definition sample_key : CacheKey := plain (of_labels [[97]]) RrTypes.A 1.
Definition sample_set : RrSet :=
  mkRrSet (of_labels [[97]]) RrTypes.A 1 [sample_a 1 60] [] 60 false.
Definition sample_cache : SemanticCache unit :=
  insert_positive (cache_new default_cache_config) sample_key sample_set 1000 default_inputs true.

Lemma default_cfg_ok : cfg_ok default_cache_config.
Proof. intros []; cbn; lia. Qed.

Lemma sample_cache_ok : cache_ok sample_cache.
Proof. by apply insert_positive_spec, cache_new_ok, default_cfg_ok. Qed.




Lemma refresh_mark_cycle_witness :
  fst (mark_refreshing sample_cache sample_key) = true /\
  fst (mark_refreshing (snd (mark_refreshing sample_cache sample_key)) sample_key) = false.
Proof.
  destruct (refresh_mark_cycle sample_cache sample_key 0 sample_cache_ok) as (_ & H2 & _).
  split; [vm_compute; reflexivity|exact H2].
Defined.

(** An unauthenticated denial over a validated set reads as validated. *)
Example negative_inherits_validated :
  ce_validated <$> find (insert_negative sample_cache sample_key 0 None 300 2000 default_inputs) sample_key
  = Some true.
Proof. vm_compute. reflexivity. Qed.
