(* ===== verification/Alias.v ===== *)
(** * Alias dependencies ([src/alias.rs])

    The graph of which cached key is servable only while another is fresh, kept
    in both directions, with its edge cap, its bounded closure and its age
    pruning.  It is generic in the key; the program uses [CacheKey]. *)
From stdpp Require Import gmap.
From S2P Require Import Prelude Wire Prng Name BTree Time CacheKey.

Record AliasConfig := mkAliasConfig { max_edges : Z; prune_age_secs : Z }.
Definition default_alias_config : AliasConfig := mkAliasConfig 100000 3600.

Section alias.
Context {K : Type} `{EqDecision K, KeyOrder K}.

(** [BTreeSet<K>] *)
Abbreviation KeySet := (list (K * unit)).

Record AliasGraph := mkAlias {
  ag_config : AliasConfig;
  fwd : list (K * KeySet);
  rev : list (K * KeySet);
  seen : list (K * Ts);
  edges : Z }.

Definition alias_new (config : AliasConfig) : AliasGraph := mkAlias config [] [] [] 0.

Definition set_of (m : list (K * KeySet)) (k : K) : KeySet := default [] (bt_get m k).

(** [m.entry(k).or_default().insert(x)] *)
Definition add_to (m : list (K * KeySet)) (k x : K) : list (K * KeySet) :=
  bt_insert m k (bt_insert (set_of m k) x tt).

Definition link (g : AliasGraph) (alias target : K) (now : Ts) : AliasGraph :=
  let seen_ := bt_insert (bt_insert (seen g) alias now) target now in
  let g := mkAlias (ag_config g) (fwd g) (rev g) seen_ (edges g) in
  if bt_contains_key (set_of (fwd g) alias) target then g else
  if max_edges (ag_config g) <=? edges g then g else
  mkAlias (ag_config g) (add_to (fwd g) alias target) (add_to (rev g) target alias)
    (seen g) (edges g + 1).

Definition dependents (g : AliasGraph) (key : K) : list K := (set_of (rev g) key).*1.
Definition depends_on (g : AliasGraph) (key : K) : list K := (set_of (fwd g) key).*1.

(** The inner loop of [closure]: new keys are marked and queued. *)
Fixpoint enqueue (nexts : list K) (marked : KeySet) (queue : list K) : KeySet * list K :=
  match nexts with
  | [] => (marked, queue)
  | next :: nexts =>
      if bt_contains_key marked next then enqueue nexts marked queue
      else enqueue nexts (bt_insert marked next tt) (queue ++ [next])
  end.

Fixpoint closure_loop (fuel : nat) (g : AliasGraph) (max : Z) (marked : KeySet) (queue : list K)
    : option KeySet :=
  match fuel with
  | O => None
  | S fuel =>
      match queue with
      | [] => Some marked
      | cur :: queue =>
          if max <=? zlen marked then Some marked else
          let '(marked, queue) := enqueue (depends_on g cur) marked queue in
          closure_loop fuel g max marked queue
      end
  end.

(** Every key that is ever queued is a target, or the start. *)
Definition closure_fuel (g : AliasGraph) : nat := length (flat_map (fun kv => kv.2) (fwd g)) + 2.

Definition closure (g : AliasGraph) (key : K) (max : Z) : option (list K) :=
  (fun marked : KeySet => marked.*1) <$> closure_loop (closure_fuel g) g max [(key, tt)] [key].

Definition total (m : list (K * KeySet)) : Z := fold_right (fun kv n => zlen kv.2 + n) 0 m.

Definition prune_map (dead : K -> bool) (m : list (K * KeySet)) : list (K * KeySet) :=
  let m := map (fun kv => (kv.1, if dead kv.1 then kv.2 else bt_retain (fun d _ => negb (dead d)) kv.2)) m in
  bt_retain (fun k v => negb (dead k) && negb (zlen v =? 0)) m.

Definition prune (g : AliasGraph) (now : Ts) (min_age_secs : Z) : AliasGraph :=
  let age := if min_age_secs =? 0 then prune_age_secs (ag_config g) else min_age_secs in
  let cutoff := ts_saturating_sub now (age * 1000000000) in
  let dead := map fst (List.filter (fun kt => kt.2 <? cutoff) (seen g)) in
  if (length dead =? 0)%nat then g else
  let seen_ := fold_left bt_remove dead (seen g) in
  let is_dead k := bool_decide (k ∈ dead) in
  let fwd_ := prune_map is_dead (fwd g) in
  mkAlias (ag_config g) fwd_ (prune_map is_dead (rev g)) seen_ (total fwd_).

Definition edge_count (g : AliasGraph) : Z := edges g.

(** [fwd.keys().chain(rev.keys()).collect::<BTreeSet<_>>().len()] *)
Definition key_count (g : AliasGraph) : Z :=
  zlen (fold_left (fun s k => bt_insert s k tt) ((fwd g).*1 ++ (rev g).*1) ([] : KeySet)).
End alias.
#[global] Arguments AliasGraph : clear implicits.

(** ** The invariant *)

Section invariant.
Context {K : Type} `{EqDecision K, KeyOrderLaws K}.
Implicit Types (g : AliasGraph K) (a b k : K).
Abbreviation KeySet := (list (K * unit)).

Definition has (m : list (K * KeySet)) a b : bool := bt_contains_key (set_of m a) b.
Definition edge g a b : Prop := has (fwd g) a b = true.

Definition adj_ok (m : list (K * KeySet)) : Prop :=
  bt_sorted m /\ forall k s, bt_get m k = Some s -> bt_sorted s /\ s <> [].

Record graph_ok g : Prop := {
  go_fwd : adj_ok (fwd g);
  go_rev : adj_ok (rev g);
  go_seen : bt_sorted (seen g);
  go_converse : forall a b, has (fwd g) a b = has (rev g) b a;
  go_edges : edges g = total (fwd g);
  go_cap : edges g <= Z.max 0 (max_edges (ag_config g));
  go_endpoints : forall a b, edge g a b ->
    bt_contains_key (seen g) a = true /\ bt_contains_key (seen g) b = true }.

Lemma contains_In {V} (m : list (K * V)) k : bt_contains_key m k = true <-> In k m.*1.
Proof.
  unfold bt_contains_key. destruct (bt_get m k) as [v|] eqn:E; split; try done.
  - intros _. apply bt_get_In in E. apply in_map_iff. by exists (k, v).
  - by apply bt_get_None in E.
Qed.

Lemma contains_insert {V} (m : list (K * V)) k v k' :
  bt_contains_key (bt_insert m k v) k' = bool_decide (k' = k) || bt_contains_key m k'.
Proof. unfold bt_contains_key. rewrite bt_get_insert. by destruct (decide (k' = k)); case_bool_decide. Qed.

Lemma set_of_sorted m k : adj_ok m -> bt_sorted (set_of m k).
Proof.
  intros [_ Hm]. unfold set_of. destruct (bt_get m k) eqn:E; [by apply (Hm k)|constructor].
Qed.

Lemma add_to_ok m k x : adj_ok m -> adj_ok (add_to m k x).
Proof.
  intros Hm. pose proof (set_of_sorted m k Hm) as Hs. destruct Hm as [Sm Hm]. split.
  - by apply bt_insert_sorted.
  - intros k' s. unfold add_to. rewrite bt_get_insert. destruct (decide (k' = k)); [|apply Hm].
    intros [= <-]. split; [by apply bt_insert_sorted|].
    intros E. assert (bt_contains_key (bt_insert (set_of m k) x tt) x = true) as C.
    { rewrite contains_insert. by rewrite bool_decide_true. }
    by rewrite E in C.
Qed.

Lemma has_add_to m k x a b :
  has (add_to m k x) a b = bool_decide (a = k /\ b = x) || has m a b.
Proof.
  unfold has, add_to, set_of at 1. rewrite bt_get_insert. destruct (decide (a = k)) as [->|Hne].
  - cbn [from_option id]. rewrite contains_insert. f_equal. apply bool_decide_ext. tauto.
  - rewrite bool_decide_false by tauto. done.
Qed.

Lemma total_insert (m : list (K * KeySet)) k v : bt_sorted m ->
  total (bt_insert m k v) = total m - zlen (set_of m k) + zlen v.
Proof.
  unfold set_of. induction m as [|[k' v'] m IH]; cbn [bt_insert bt_get total fold_right snd].
  - intros _. unfold zlen at 2; cbn; lia.
  - intros [HF Hs]%bt_sorted_cons. destruct (decide (k = k')) as [->|Hne].
    + cbn [total fold_right snd from_option id]. lia.
    + destruct (klt k k') eqn:El; cbn [total fold_right snd].
      * rewrite (bt_get_above m k k'); [cbn [from_option id]; change (zlen (@nil (K * unit))) with 0; lia|done|].
        intros E'. pose proof (klt_trans _ _ _ El E') as X. by rewrite klt_irrefl in X.
      * fold (total (bt_insert m k v)) (total m). rewrite IH by done. lia.
Qed.

Lemma total_add_to m k x : adj_ok m -> has m k x = false -> total (add_to m k x) = total m + 1.
Proof.
  intros Hm Hx. unfold add_to. rewrite total_insert by apply Hm.
  rewrite zlen_bt_insert by (by apply set_of_sorted). unfold has in Hx. rewrite Hx. lia.
Qed.

Lemma link_ok g a b now : graph_ok g -> graph_ok (link g a b now).
Proof.
  intros [Hf Hr Hs Hc He Hcap Hend]. unfold link. cbn [fwd ag_config edges rev seen].
  set (seen_ := bt_insert (bt_insert (seen g) a now) b now).
  assert (bt_sorted seen_) as Hs' by (by apply bt_insert_sorted, bt_insert_sorted).
  assert (forall k, bt_contains_key seen_ k = bool_decide (k = b) || bool_decide (k = a) || bt_contains_key (seen g) k)
    as Hin by (intros; unfold seen_; rewrite !contains_insert; by rewrite orb_assoc).
  assert (graph_ok (mkAlias (ag_config g) (fwd g) (rev g) seen_ (edges g))) as Ok0.
  { constructor; cbn [fwd ag_config edges rev seen]; try done.
    intros x y E. destruct (Hend x y E) as [E1 E2]. rewrite !Hin, E1, E2. by rewrite !orb_true_r. }
  destruct (bt_contains_key (set_of (fwd g) a) b) eqn:Eh; [done|].
  destruct (max_edges (ag_config g) <=? edges g) eqn:Em; [done|]. bools.
  fold (has (fwd g) a b) in Eh.
  constructor; cbn [fwd ag_config edges rev seen]; try done.
  - by apply add_to_ok.
  - by apply add_to_ok.
  - intros x y. rewrite !has_add_to, Hc. f_equal. apply bool_decide_ext. tauto.
  - rewrite total_add_to by done. lia.
  - lia.
  - intros x y. unfold edge. cbn [fwd]. rewrite has_add_to, orb_true_iff, bool_decide_eq_true.
    intros [[-> ->]|E].
    + rewrite !Hin, (bool_decide_true (a = a)), (bool_decide_true (b = b)) by done. by rewrite orb_true_r.
    + destruct (Hend x y E) as [E1 E2]. rewrite !Hin, E1, E2. by rewrite !orb_true_r.
Qed.

Lemma bt_get_map_values {V W} (f : K -> V -> W) (m : list (K * V)) k :
  bt_get (map (fun kv => (kv.1, f kv.1 kv.2)) m) k = f k <$> bt_get m k.
Proof.
  induction m as [|[k' v] m IH]; cbn; [done|]. destruct (decide (k = k')) as [->|]; [done|exact IH].
Qed.

Lemma map_values_sorted {V W} (f : K -> V -> W) (m : list (K * V)) :
  bt_sorted m -> bt_sorted (map (fun kv => (kv.1, f kv.1 kv.2)) m).
Proof.
  induction m as [|[k v] m IH]; cbn; [constructor|]. intros [HF Hs]%bt_sorted_cons.
  apply bt_sorted_cons. split; [|auto]. apply List.Forall_map. exact HF.
Qed.

Lemma prune_map_get dead m k : adj_ok m ->
  set_of (prune_map dead m) k =
  if dead k then [] else bt_retain (fun d _ => negb (dead d)) (set_of m k).
Proof.
  intros [Sm Hm]. unfold set_of, prune_map.
  set (m' := map _ m). assert (bt_sorted m') as Sm'.
  { unfold m'. apply (map_values_sorted (fun k v => if dead k then v else bt_retain (fun d _ => negb (dead d)) v)). done. }
  rewrite bt_get_retain by done. unfold m'.
  rewrite (bt_get_map_values (fun k v => if dead k then v else bt_retain (fun d _ => negb (dead d)) v)).
  destruct (bt_get m k) as [s|]; cbn [fmap option_fmap option_map from_option id]; [|by destruct (dead k)].
  destruct (dead k); cbn [negb andb]; [done|].
  destruct (zlen (bt_retain _ s) =? 0) eqn:El; bools; cbn [negb]; [|done].
  by rewrite (zlen_0 _ El).
Qed.

Lemma prune_map_ok dead m : adj_ok m -> adj_ok (prune_map dead m).
Proof.
  intros Hm. pose proof Hm as [Sm Hms]. split.
  - apply filter_sorted.
    by apply (map_values_sorted (fun k v => if dead k then v else bt_retain (fun d _ => negb (dead d)) v)).
  - intros k s Hk. pose proof (prune_map_get dead m k Hm) as G. unfold set_of at 1 in G.
    rewrite Hk in G. cbn [from_option id] in G. unfold prune_map in Hk.
    rewrite bt_get_retain in Hk.
    2: { by apply (map_values_sorted (fun k v => if dead k then v else bt_retain (fun d _ => negb (dead d)) v)). }
    destruct (bt_get (map _ m) k) as [s'|]; [|done].
    destruct (negb (dead k) && negb (zlen s' =? 0)) eqn:E; [|done]. injection Hk as ->. bools.
    split; [|intros ->; done]. subst s. destruct (dead k); [constructor|].
    by apply filter_sorted, set_of_sorted.
Qed.

Lemma has_prune_map dead m a b : adj_ok m ->
  has (prune_map dead m) a b = negb (dead a) && negb (dead b) && has m a b.
Proof.
  intros Hm. unfold has. rewrite prune_map_get by done. destruct (dead a); cbn [negb andb]; [done|].
  unfold bt_contains_key. rewrite bt_get_retain by (by apply set_of_sorted).
  destruct (bt_get (set_of m a) b); [|by rewrite andb_false_r]. by destruct (dead b).
Qed.

Lemma prune_map_cons dead k v (m : list (K * KeySet)) :
  prune_map dead ((k, v) :: m) =
  let v' := if dead k then v else bt_retain (fun d _ => negb (dead d)) v in
  if negb (dead k) && negb (zlen v' =? 0) then (k, v') :: prune_map dead m else prune_map dead m.
Proof. reflexivity. Qed.

Lemma total_cons k v (m : list (K * KeySet)) : total ((k, v) :: m) = zlen v + total m.
Proof. done. Qed.

Lemma total_prune_le dead (m : list (K * KeySet)) : total (prune_map dead m) <= total m.
Proof.
  induction m as [|[k v] m IH]; [done|]. rewrite prune_map_cons. cbv zeta. rewrite total_cons.
  pose proof (zlen_nonneg v).
  destruct (dead k); cbn [negb andb]; [lia|].
  pose proof (zlen_filter_le (fun kv : K * unit => negb (dead kv.1)) v). unfold bt_retain.
  destruct (negb _); [rewrite total_cons|]; lia.
Qed.

Lemma fold_remove_sorted {V} (dead : list K) (m : list (K * V)) :
  bt_sorted m -> bt_sorted (fold_left bt_remove dead m).
Proof. revert m. induction dead as [|k dead IH]; cbn; [done|]. intros. by apply IH, filter_sorted. Qed.

Lemma fold_remove_get {V} (dead : list K) (m : list (K * V)) k : bt_sorted m ->
  bt_get (fold_left bt_remove dead m) k = if bool_decide (k ∈ dead) then None else bt_get m k.
Proof.
  revert m. induction dead as [|d dead IH]; cbn [fold_left]; intros m Hs; [done|].
  rewrite IH by (by apply filter_sorted). rewrite bt_get_remove by done.
  destruct (decide (k = d)) as [->|Hne].
  - rewrite (bool_decide_true (d ∈ d :: dead)) by (constructor). by case_bool_decide.
  - rewrite (bool_decide_ext (k ∈ d :: dead) (k ∈ dead)) by (rewrite elem_of_cons; tauto). done.
Qed.

(** The cutoff a sweep uses and the keys it drops. *)
Definition prune_cutoff g (now : Ts) (min_age_secs : Z) : Ts :=
  let age := if min_age_secs =? 0 then prune_age_secs (ag_config g) else min_age_secs in
  ts_saturating_sub now (age * 1000000000).

Definition stale_key g (cutoff : Ts) k : bool :=
  match bt_get (seen g) k with Some t => t <? cutoff | None => false end.

Lemma dead_keys g cutoff k : bt_sorted (seen g) ->
  k ∈ map fst (List.filter (fun kt => kt.2 <? cutoff) (seen g)) <-> stale_key g cutoff k = true.
Proof.
  intros Hs. unfold stale_key. rewrite list_elem_of_In, in_map_iff. split.
  - intros ([k' t] & <- & [Hin Ht]%filter_In). apply (bt_In_get _ _ _ Hs) in Hin. cbn in *. by rewrite Hin.
  - destruct (bt_get (seen g) k) as [t|] eqn:E; [|done]. intros Ht. exists (k, t). split; [done|].
    apply filter_In. split; [by apply bt_get_In|done].
Qed.
Lemma prune_endpoint g cutoff (dead : list K) a b :
  graph_ok g -> (forall k, bool_decide (k ∈ dead) = stale_key g cutoff k) ->
  has (prune_map (fun k => bool_decide (k ∈ dead)) (fwd g)) a b =
  negb (stale_key g cutoff a) && negb (stale_key g cutoff b) && has (fwd g) a b.
Proof. intros Ok Hd. rewrite has_prune_map by apply Ok. by rewrite !Hd. Qed.

(** What a sweep does to a well-formed graph: the keys last seen before the
    cutoff go, with every edge that touches one. *)
Lemma prune_spec g now age : graph_ok g ->
  graph_ok (prune g now age) /\ ag_config (prune g now age) = ag_config g /\
  (forall k, bt_get (seen (prune g now age)) k =
     if stale_key g (prune_cutoff g now age) k then None else bt_get (seen g) k) /\
  (forall a b, has (fwd (prune g now age)) a b =
     negb (stale_key g (prune_cutoff g now age) a) && negb (stale_key g (prune_cutoff g now age) b)
     && has (fwd g) a b).
Proof.
  intros Ok. unfold prune. fold (prune_cutoff g now age). set (cutoff := prune_cutoff g now age).
  set (dead := map fst _).
  assert (forall k, bool_decide (k ∈ dead) = stale_key g cutoff k) as Hd.
  { intros k. apply eq_true_iff_eq. rewrite bool_decide_eq_true. apply dead_keys, Ok. }
  destruct (length dead =? 0)%nat eqn:El.
  - apply Nat.eqb_eq, nil_length_inv in El.
    assert (forall k, stale_key g cutoff k = false) as Hn by (intros; rewrite <- Hd, El; done).
    split; [done|]. split; [done|]. split; intros; rewrite !Hn; done.
  - cbn [ag_config seen fwd]. pose proof Ok as [Hf Hr Hs Hc He Hcap Hend].
    assert (forall k, bt_get (fold_left bt_remove dead (seen g)) k =
      if stale_key g cutoff k then None else bt_get (seen g) k) as Hseen.
    { intros k. rewrite fold_remove_get by done. by rewrite Hd. }
    split; [|split; [done|split; [done|intros a b; by apply (prune_endpoint g cutoff dead)]]].
    constructor; cbn [ag_config seen fwd rev edges].
    + by apply prune_map_ok.
    + by apply prune_map_ok.
    + by apply fold_remove_sorted.
    + intros a b. rewrite !has_prune_map, Hc by done. by rewrite (andb_comm (negb _)).
    + done.
    + pose proof (total_prune_le (fun k => bool_decide (k ∈ dead)) (fwd g)). lia.
    + intros a b. unfold edge. cbn [fwd]. rewrite (prune_endpoint g cutoff dead) by done.
      rewrite !andb_true_iff, !negb_true_iff. intros [[Ha Hb] E]. destruct (Hend a b E) as [Ea Eb].
      unfold bt_contains_key in *. rewrite !Hseen, Ha, Hb. done.
Qed.

(** ** Reachable graphs *)

Inductive alias_step (g : AliasGraph K) : AliasGraph K -> Prop :=
  | step_link a b now : alias_step g (link g a b now)
  | step_prune now age : alias_step g (prune g now age).

Definition alias_reachable (config : AliasConfig) : AliasGraph K -> Prop :=
  rtc alias_step (alias_new config).

Lemma alias_new_ok config : graph_ok (alias_new config).
Proof.
  assert (adj_ok ([] : list (K * KeySet))) as A by (split; [constructor|done]).
  constructor; cbn; try done; try lia. constructor.
Qed.

Lemma alias_step_ok g g' : alias_step g g' -> graph_ok g -> graph_ok g' /\ ag_config g' = ag_config g.
Proof.
  intros [a b now|now age] Ok.
  - split; [by apply link_ok|]. unfold link. cbn [fwd ag_config edges]. by repeat case_match.
  - by destruct (prune_spec g now age Ok) as (? & ? & _).
Qed.

Lemma alias_reachable_ok config g : alias_reachable config g -> graph_ok g /\ ag_config g = config.
Proof.
  unfold alias_reachable. intros R. remember (alias_new config) as g0 eqn:E0.
  assert (graph_ok g0 /\ ag_config g0 = config) as I by (subst; split; [apply alias_new_ok|done]).
  clear E0. induction R as [|x y z S R IH]; [done|]. apply IH.
  destruct I as [Ok C]. destruct (alias_step_ok _ _ S Ok) as [Ok' C']. split; [done|congruence].
Qed.

Lemma link_edges g a b now x y :
  has (fwd (link g a b now)) x y =
  has (fwd g) x y || (bool_decide (x = a /\ y = b) && (edges g <? max_edges (ag_config g))).
Proof.
  unfold link. cbn [fwd ag_config edges]. fold (has (fwd g) a b).
  destruct (has (fwd g) a b) eqn:Eh; cbn [fwd].
  - case_bool_decide as D; [destruct D as [-> ->]; by rewrite Eh|by rewrite orb_false_r].
  - rewrite Z.ltb_antisym. destruct (max_edges (ag_config g) <=? edges g) eqn:Em; cbn [fwd negb].
    + by rewrite andb_false_r, orb_false_r.
    + rewrite has_add_to, andb_true_r. apply orb_comm.
Qed.

Lemma depends_on_edge g a b : In b (depends_on g a) <-> edge g a b.
Proof. unfold depends_on, edge, has. by rewrite contains_In. Qed.
Lemma dependents_has g a b : In a (dependents g b) <-> has (rev g) b a = true.
Proof. unfold dependents, has. by rewrite contains_In. Qed.

(** ** The closure *)

(** The targets of [T] the walk has not marked yet. *)
Definition unmarked (T : list K) (marked : KeySet) : nat :=
  length (List.filter (fun k => negb (bt_contains_key marked k)) T).

Lemma filter_insert_le (T : list K) (marked : KeySet) k :
  (unmarked T (bt_insert marked k tt) <= unmarked T marked)%nat.
Proof.
  unfold unmarked. induction T as [|t T IH]; cbn [List.filter]; [done|].
  rewrite contains_insert. destruct (bool_decide (t = k)), (bt_contains_key marked t); cbn; lia.
Qed.

Lemma unmarked_insert T marked k : In k T -> bt_contains_key marked k = false ->
  (1 + unmarked T (bt_insert marked k tt) <= unmarked T marked)%nat.
Proof.
  intros Hin Hk. unfold unmarked. induction T as [|t T IH]; [done|]. cbn [List.filter].
  rewrite contains_insert. destruct (decide (t = k)) as [->|Hne].
  - rewrite bool_decide_true, Hk by done. cbn. pose proof (filter_insert_le T marked k) as L.
    unfold unmarked in L. lia.
  - destruct Hin as [->|Hin]; [done|]. specialize (IH Hin). rewrite bool_decide_false by done. cbn [orb].
    destruct (bt_contains_key marked t); cbn [negb length]; lia.
Qed.

(** One round of marking: exactly the new keys are marked and queued. *)
Lemma enqueue_spec T nexts marked queue : bt_sorted marked ->
  let '(marked', queue') := enqueue nexts marked queue in
  bt_sorted marked' /\
  (forall k, bt_contains_key marked' k = true <-> bt_contains_key marked k = true \/ In k nexts) /\
  (forall k, In k queue' <-> In k queue \/ (bt_contains_key marked k = false /\ In k nexts)) /\
  zlen marked <= zlen marked' <= zlen marked + zlen nexts /\
  (incl nexts T -> (length queue' + unmarked T marked' <= length queue + unmarked T marked)%nat).
Proof.
  revert marked queue. induction nexts as [|n nexts IH]; cbn [enqueue]; intros marked queue Hs.
  - split; [done|]. split; [cbn; tauto|]. split; [cbn; tauto|].
    split; [pose proof (zlen_nonneg (@nil K)); lia|done].
  - rewrite zlen_cons. destruct (bt_contains_key marked n) eqn:En.
    + specialize (IH marked queue Hs). destruct (enqueue _ _ _) as [m' q'].
      destruct IH as (S' & M & Q & L & F). split; [done|].
      split; [intros k; rewrite M; cbn; intuition congruence|].
      split; [intros k; rewrite Q; cbn; intuition congruence|].
      split; [lia|]. intros I. apply F. by intros k Hk; apply I; right.
    + specialize (IH (bt_insert marked n tt) (queue ++ [n]) (bt_insert_sorted _ _ _ Hs)).
      destruct (enqueue _ _ _) as [m' q']. destruct IH as (S' & M & Q & L & F).
      rewrite zlen_bt_insert in L by done. rewrite En in L. split; [done|].
      split.
      { intros k. rewrite M, contains_insert, orb_true_iff, bool_decide_eq_true. cbn. intuition congruence. }
      split.
      { intros k. rewrite Q, contains_insert, in_app_iff, orb_false_iff, bool_decide_eq_false. cbn.
        destruct (decide (k = n)) as [->|]; [rewrite En; tauto|]. intuition congruence. }
      split; [lia|]. intros I.
      assert (incl nexts T) as I' by (intros k Hk; apply I; by right).
      specialize (F I'). rewrite length_app in F. cbn [length] in F.
      pose proof (unmarked_insert T marked n (I n (or_introl eq_refl)) En). lia.
Qed.

Definition targets g : list K := map fst (flat_map (fun kv => kv.2) (fwd g)).

Lemma depends_on_targets g k : incl (depends_on g k) (targets g).
Proof.
  intros x. unfold depends_on, set_of. destruct (bt_get (fwd g) k) as [s|] eqn:E; [|done].
  intros Hx. apply bt_get_In in E. unfold targets. apply in_map_iff in Hx as (xu & <- & Hx).
  apply in_map, in_flat_map. by exists (k, s).
Qed.

(** What the walk from [start] keeps true: the marked keys are reachable, and
    each has its targets marked unless it is still queued. *)
Definition walk_inv g start max d (marked : KeySet) (queue : list K) : Prop :=
  bt_sorted marked /\ bt_contains_key marked start = true /\
  zlen marked <= Z.max 1 (max - 1 + d) /\
  (forall k, In k queue -> bt_contains_key marked k = true) /\
  (forall k, bt_contains_key marked k = true -> rtc (edge g) start k) /\
  (forall a b, bt_contains_key marked a = true -> edge g a b -> In a queue \/ bt_contains_key marked b = true).

Lemma walk_step g start max d marked cur queue :
  (forall k, zlen (depends_on g k) <= d) -> zlen marked < max ->
  walk_inv g start max d marked (cur :: queue) ->
  let '(marked', queue') := enqueue (depends_on g cur) marked queue in
  walk_inv g start max d marked' queue'.
Proof.
  intros Hd Hm (Hs & Hst & Hl & Hq & Hr & Hc).
  pose proof (enqueue_spec (targets g) (depends_on g cur) marked queue Hs) as E.
  destruct (enqueue _ _ _) as [m' q']. destruct E as (S' & M & Q & L & _).
  split; [done|]. split; [apply M; by left|]. split; [pose proof (Hd cur); lia|].
  split; [|split].
  - intros k [Hk|[_ Hk]]%Q; apply M; [left; apply Hq; by right|by right].
  - intros k [Hk|Hk]%M; [by apply Hr|]. apply depends_on_edge in Hk.
    eapply rtc_r; [|exact Hk]. apply Hr, Hq. by left.
  - intros a b [Ha|Ha]%M E.
    + destruct (Hc a b Ha E) as [[<-|Ha']|Hb].
      * right. apply M. right. by apply depends_on_edge.
      * left. apply Q. by left.
      * right. apply M. by left.
    + destruct (bt_contains_key marked a) eqn:Ea; [|left; apply Q; by right].
      destruct (Hc a b Ea E) as [[<-|Ha']|Hb].
      * right. apply M. right. by apply depends_on_edge.
      * left. apply Q. by left.
      * right. apply M. by left.
Qed.

Lemma closure_loop_spec g start max d fuel marked queue :
  (forall k, zlen (depends_on g k) <= d) ->
  walk_inv g start max d marked queue ->
  (length queue + unmarked (targets g) marked < fuel)%nat ->
  exists marked' queue', closure_loop fuel g max marked queue = Some marked' /\
    walk_inv g start max d marked' queue' /\ (queue' = [] \/ max <= zlen marked').
Proof.
  intros Hd. revert marked queue. induction fuel as [|fuel IH]; intros marked queue I Hf; [lia|].
  cbn [closure_loop]. destruct queue as [|cur queue].
  - exists marked, []. split; [done|]. by split; [|left].
  - destruct (max <=? zlen marked) eqn:Em; bools.
    + exists marked, (cur :: queue). split; [done|]. by split; [|right].
    + pose proof (walk_step g start max d marked cur queue Hd Em I) as W.
      pose proof (enqueue_spec (targets g) (depends_on g cur) marked queue) as E.
      destruct (enqueue _ _ _) as [m' q']. apply IH; [done|].
      destruct E as (_ & _ & _ & _ & F); [apply I|].
      specialize (F (depends_on_targets g cur)). cbn [length] in Hf. lia.
Qed.

Lemma walk_complete g start max d marked k :
  walk_inv g start max d marked [] -> bt_contains_key marked k = true <-> rtc (edge g) start k.
Proof.
  intros (_ & Hst & _ & _ & Hr & Hc). split; [apply Hr|]. revert k.
  refine (rtc_ind_r _ start Hst _). intros y z _ E IH.
  by destruct (Hc y z IH E).
Qed.
End invariant.

(** ** The properties *)

Section properties.
Context {K : Type} `{EqDecision K, KeyOrderLaws K}.
Implicit Types (g : AliasGraph K) (a b k : K).

(** In every graph built by links and sweeps the two directions of the relation
    are converse, the edge counter is the number of edges and stays within the
    cap, both ends of an edge have been seen, and a link adds exactly its edge,
    when there is room for it. *)
Theorem alias_graph_ok config g : alias_reachable config g ->
  (forall a b, In b (depends_on g a) <-> In a (dependents g b)) /\
  edge_count g = total (fwd g) /\ edge_count g <= Z.max 0 (max_edges config) /\
  (forall a b, In b (depends_on g a) ->
     bt_contains_key (seen g) a = true /\ bt_contains_key (seen g) b = true) /\
  (forall a b now x y, In y (depends_on (link g a b now) x) <->
     In y (depends_on g x) \/ (x = a /\ y = b /\ edge_count g < max_edges config)) /\
  (forall a b now k, bt_get (seen (link g a b now)) k =
     if decide (k = a \/ k = b) then Some now else bt_get (seen g) k).
Proof.
  intros R. destruct (alias_reachable_ok config g R) as [Ok <-].
  split; [|split; [apply Ok|split; [apply Ok|split; [|split]]]].
  - intros a b. rewrite depends_on_edge, dependents_has. unfold edge. by rewrite (go_converse g Ok).
  - intros a b. rewrite depends_on_edge. apply Ok.
  - intros a b now x y. rewrite !depends_on_edge. unfold edge, edge_count.
    rewrite link_edges, orb_true_iff, andb_true_iff, bool_decide_eq_true, Z.ltb_lt. tauto.
  - intros a b now k. unfold link. cbn [fwd ag_config edges].
    assert (forall g' : AliasGraph K, seen g' = bt_insert (bt_insert (seen g) a now) b now ->
      bt_get (seen g') k = if decide (k = a \/ k = b) then Some now else bt_get (seen g) k) as X.
    { intros g' ->. rewrite !bt_get_insert. by repeat case_decide; try tauto. }
    by repeat case_match; apply X.
Qed.

(** C40: Walking the dependencies of a key always ends within the fuel; the keys it
    returns are in order, all reachable, and contain the start. Fewer than the
    bound are exactly the reachable keys, and the bound is exceeded by less than
    one round of dependencies. *)
Theorem closure_spec g key max d :
  (forall k, zlen (depends_on g k) <= d) ->
  exists keys, closure g key max = Some keys /\
    Sorted.StronglySorted (fun a b => klt a b = true) keys /\ In key keys /\
    (forall k, In k keys -> rtc (edge g) key k) /\
    (zlen keys < max -> forall k, In k keys <-> rtc (edge g) key k) /\
    zlen keys <= Z.max 1 (max - 1 + d).
Proof.
  intros Hd. unfold closure.
  assert (walk_inv g key max d [(key, tt)] [key]) as I.
  { assert (forall k, bt_contains_key [(key, tt)] k = true <-> k = key) as C.
    { intros k. rewrite contains_In. cbn. intuition congruence. }
    split; [repeat constructor|]. split; [by apply C|].
    split; [change (zlen [(key, tt)]) with 1; lia|]. split; [|split].
    - intros k [<-|[]]. by apply C.
    - intros k ->%C. done.
    - intros a b ->%C _. left. by left. }
  destruct (closure_loop_spec g key max d (closure_fuel g) [(key, tt)] [key] Hd I) as (m & q & E & W & Fin).
  { unfold closure_fuel, unmarked, targets. cbn [length].
    pose proof (List.filter_length_le (fun k => negb (bt_contains_key [(key, tt)] k))
      (map fst (flat_map (fun kv => kv.2) (fwd g)))) as L. rewrite length_map in L. lia. }
  rewrite E. exists m.*1. split; [done|].
  assert (zlen m.*1 = zlen m) as Ez by (unfold zlen; by rewrite length_fmap).
  assert (forall k, In k m.*1 <-> bt_contains_key m k = true) as C by (intros; by rewrite contains_In).
  pose proof W as (Hs & Hst & Hl & _ & Hr & _).
  split; [|split; [by apply C|split; [intros k Hk%C; by apply Hr|split; [|lia]]]].
  - clear -Hs. induction Hs as [|x l Hs IH HF]; cbn; constructor; [done|]. by apply List.Forall_map.
  - intros Hlt k. destruct Fin as [->|?]; [|lia]. rewrite C. by eapply walk_complete.
Qed.

(** A sweep keeps exactly the edges whose two ends were both seen since the
    cutoff, in both directions, and recounts them. *)
Theorem prune_exact config g now min_age_secs : alias_reachable config g ->
  let g' := prune g now min_age_secs in
  let cutoff := ts_saturating_sub now
    ((if min_age_secs =? 0 then prune_age_secs config else min_age_secs) * 1000000000) in
  (forall k t, bt_get (seen g') k = Some t <-> bt_get (seen g) k = Some t /\ cutoff <= t) /\
  (forall a b, In b (depends_on g' a) <-> In b (depends_on g a) /\
     (exists t, bt_get (seen g) a = Some t /\ cutoff <= t) /\
     exists t, bt_get (seen g) b = Some t /\ cutoff <= t) /\
  (forall a b, In b (depends_on g' a) <-> In a (dependents g' b)) /\
  edge_count g' = total (fwd g').
Proof.
  intros R. destruct (alias_reachable_ok config g R) as [Ok <-]. cbv zeta.
  fold (prune_cutoff g now min_age_secs).
  destruct (prune_spec g now min_age_secs Ok) as (Ok' & _ & Hseen & Hfwd).
  assert (forall k, bt_contains_key (seen g) k = true -> stale_key g (prune_cutoff g now min_age_secs) k = false <->
    exists t, bt_get (seen g) k = Some t /\ prune_cutoff g now min_age_secs <= t) as St.
  { intros k. unfold bt_contains_key, stale_key. destruct (bt_get (seen g) k) as [t|]; [|done].
    rewrite Z.ltb_ge. intros _. split; [by exists t|]. by intros (? & [= ->] & ?). }
  split; [|split; [|split; [|apply Ok']]].
  - intros k t. rewrite Hseen. unfold stale_key. destruct (bt_get (seen g) k) as [t'|]; [|intuition congruence].
    destruct (t' <? prune_cutoff g now min_age_secs) eqn:E; bools; split; try done.
    + intros [[= ->] ?]. lia.
    + by intros [= ->].
    + by intros [? _].
  - intros a b. rewrite !depends_on_edge. unfold edge. rewrite Hfwd, !andb_true_iff, !negb_true_iff.
    split.
    + intros [[Ha Hb] E]. destruct (go_endpoints g Ok a b E) as [Ea Eb].
      by rewrite <- !St.
    + intros [E [Ha Hb]]. destruct (go_endpoints g Ok a b E) as [Ea Eb].
      by rewrite !St.
  - intros a b. rewrite depends_on_edge, dependents_has. unfold edge. by rewrite (go_converse _ Ok').
Qed.
End properties.

(** ** A three-key chain *)

Definition sample_alias_graph : AliasGraph Z :=
  link (link (link (alias_new (mkAliasConfig 8 60)) 1 2 0) 2 3 100000000000) 3 4 100000000000.

Lemma sample_alias_reachable : alias_reachable (mkAliasConfig 8 60) sample_alias_graph.
Proof. do 3 (eapply rtc_r; [|apply step_link]). apply rtc_refl. Qed.

Lemma alias_graph_ok_witness : In 2 (depends_on sample_alias_graph 1) /\ In 1 (dependents sample_alias_graph 2).
Proof.
  assert (D : In 2 (depends_on sample_alias_graph 1)) by (vm_compute; auto).
  split; [exact D|].
  exact (proj1 (proj1 (alias_graph_ok _ _ sample_alias_reachable) 1 2) D).
Defined.

Lemma closure_spec_witness : exists keys, closure sample_alias_graph 1 8 = Some keys /\ zlen keys <= 8.
Proof.
  destruct (closure_spec sample_alias_graph 1 8 1) as (keys & E & _ & _ & _ & _ & L).
  - intros k. unfold depends_on, set_of. change (fwd sample_alias_graph) with [(1, [(2, tt)]); (2, [(3, tt)]); (3, [(4, tt)])].
    cbn [bt_get]. repeat case_decide; vm_compute; discriminate.
  - exists keys. split; [exact E|]. exact L.
Defined.

Lemma prune_exact_witness :
  ~ In 2 (depends_on (prune sample_alias_graph 120000000000 0) 1) /\
  In 4 (depends_on (prune sample_alias_graph 120000000000 0) 3).
Proof.
  destruct (prune_exact _ _ 120000000000 0 sample_alias_reachable) as (_ & E & _).
  split.
  - intros X. apply E in X as (_ & (t & Ht & L) & _). vm_compute in Ht. injection Ht as <-. by vm_compute in L.
  - apply E. split; [vm_compute; auto|].
    split; exists 100000000000; split; vm_compute; congruence.
Defined.

(** The bound on a walk is tested before a key is expanded, not while its
    targets are added. *)
Example closure_exceeds_bound :
  closure (link (link (link (alias_new default_alias_config) 1 2 0) 1 3 0) 1 4 0) 1 2 = Some [1; 2; 3; 4].
Proof. vm_compute. reflexivity. Qed.
