(* ===== verification/Query.v ===== *)
(** * Query identity ([src/query.rs])

    The key a query is coalesced and cached under, and the test that a response
    belongs to a query. *)
From stdpp Require Import gmap.
From S2P Require Import Prelude Wire Prng Name Compress Qtype Edns Bitmap RData Rr Message BTree CacheKey.

Record QueryKey := mkQueryKey {
  qk_name : Name;
  qk_type : RrType;
  qk_class : RrClass;
  qk_ecs : option EcsKey;
  want_dnssec : bool;
  qk_cd : bool }.

#[global] Instance QueryKey_eq_dec : EqDecision QueryKey.
Proof. solve_decision. Defined.

Definition from_message (msg : Message) : option QueryKey :=
  q ← question msg;
  let ecs := e ← edns msg; c ← ecs e; from_ecs c in
  Some (mkQueryKey (qname q) (qtype q) (qclass q) ecs
          (match edns msg with Some e => dnssec_ok e | None => false end) (cd (flags msg))).

Definition cache_key (k : QueryKey) : CacheKey :=
  mkCacheKey (qk_name k) (qk_type k) (qk_class k) (qk_ecs k).

Definition ecs_option (key : QueryKey) : option Ecs :=
  ecs ← qk_ecs key;
  Some (mkEcs (ek_family ecs) (ek_prefix ecs) 0 (ek_addr ecs)).

Definition response_matches_query (query response : Message) : bool :=
  if negb (id query =? id response) then false else
  match question query, question response with
  | Some qq, Some rq =>
      if negb (qtype rq =? qtype qq) || negb (qclass rq =? qclass qq) then false else
      if bool_decide (as_bytes (qname rq) = as_bytes (qname qq)) then true else
      bool_decide (canonical (qname rq) = canonical (qname qq))
  | _, _ => false
  end.

(** ** Properties *)

(** The case-exact comparison never decides: a response matches exactly when the
    identifiers, the types, the classes and the case-folded names agree. *)
Lemma response_matches_iff query response :
  response_matches_query query response = true <->
  id query = id response /\
  exists qq rq, question query = Some qq /\ question response = Some rq /\
    qtype rq = qtype qq /\ qclass rq = qclass qq /\ canonical (qname rq) = canonical (qname qq).
Proof.
  unfold response_matches_query. destruct (id query =? id response) eqn:Ei; bools; cbn [negb].
  2: { split; [done|]. by intros [? _]. }
  destruct (question query) as [qq|]; [|split; [done|by intros (_ & ? & ? & ? & _)]].
  destruct (question response) as [rq|]; [|split; [done|by intros (_ & ? & ? & _ & ? & _)]].
  destruct (negb (qtype rq =? qtype qq) || negb (qclass rq =? qclass qq)) eqn:Et.
  - split; [done|]. intros (_ & ? & ? & [= <-] & [= <-] & E1 & E2 & _).
    apply orb_true_iff in Et as [Et|Et]; apply negb_true_iff, Z.eqb_neq in Et; done.
  - apply orb_false_iff in Et as [E1 E2]. rewrite negb_false_iff, Z.eqb_eq in E1, E2.
    case_bool_decide as Eb.
    + split; [intros _|done]. split; [done|]. exists qq, rq. conjs; try done. unfold canonical. by rewrite Eb.
    + rewrite bool_decide_eq_true. split.
      * intros Ec. split; [done|]. by exists qq, rq.
      * by intros (_ & ? & ? & [= <-] & [= <-] & _ & _ & Ec).
Qed.

(** ** The subnet sent upstream *)

Lemma mask_byte_full k x : 0 <= k < 8 -> is_byte x ->
  Z.land x (not8 (mask_byte k)) = 0 -> Z.land x (mask_byte k) = x.
Proof.
  intros Hk Hx E.
  assert (In k (seqZ 0 8)) as Hin by (apply list_elem_of_In, elem_of_seqZ; lia).
  assert (Z.lor (mask_byte k) (not8 (mask_byte k)) = 255) as L.
  { revert k Hk E Hin. assert (forall k, In k (seqZ 0 8) ->
      Z.lor (mask_byte k) (not8 (mask_byte k)) = 255) as F by (apply List.Forall_forall; by repeat constructor).
    auto. }
  rewrite <- (Z.lor_0_r (Z.land x (mask_byte k))), <- E, <- Z.land_lor_distr_r, L.
  change 255 with (Z.ones 8). rewrite Z.land_ones by lia. apply Z.mod_small. exact Hx.
Qed.

Lemma zip_copy_full a : zip_copy (replicate (length a) 0) a = a.
Proof. induction a as [|x a IH]; cbn; [done|]. by rewrite IH. Qed.

Lemma truncate_canonical e : ecs_ok e -> truncate_to (address e) (source_prefix e) = address e.
Proof.
  intros (max & Hmax & Hp & _ & Hl & Hb & Hc). unfold truncate_to.
  rewrite <- Hl. unfold zlen. rewrite Nat2Z.id, zip_copy_full.
  destruct (source_prefix e mod 8 =? 0) eqn:Em; bools; cbn [negb]; [done|].
  destruct (address e) as [|x front _] eqn:Ea using rev_ind; [done|].
  rewrite and_last_app. f_equal. unfold canonical_last in Hc. rewrite list_last_app in Hc.
  apply Forall_app in Hb as [_ Hx]. apply bytes_cons in Hx as [Hx _].
  f_equal. apply mask_byte_full; [apply Z.mod_pos_bound; lia|done|]. by destruct Hc.
Qed.

(** The client subnet of a query, as the wire parser leaves it, is forwarded
    unchanged but for a zero scope, and is the partition the answer is looked up
    in; an option that withholds the subnet is not forwarded and reads the
    global partition. *)
Theorem ecs_forwarded msg k e :
  from_message msg = Some k -> (ed ← edns msg; ecs ed) = Some e -> ecs_ok e ->
  if ecs_is_none e then ecs_option k = None /\ ck_ecs (cache_key k) = None
  else ecs_option k = Some (mkEcs (family e) (source_prefix e) 0 (address e)) /\
       ck_ecs (cache_key k) = from_ecs e /\
       (o ← ecs_option k; from_ecs o) = from_ecs e.
Proof.
  unfold from_message. intros Hk He Hok.
  destruct (question msg) as [q|]; [|done]. cbn [mbind option_bind] in Hk. apply (inj Some) in Hk as <-.
  destruct (edns msg) as [ed|]; [|done]. cbn [mbind option_bind] in *. rewrite He.
  unfold ecs_option, cache_key. cbn [qk_ecs ck_ecs mbind option_bind].
  unfold from_ecs, ecs_is_none. rewrite truncate_canonical by done.
  destruct (_ || _) eqn:E; [done|]. cbn [mbind option_bind ek_family ek_prefix ek_addr family source_prefix address].
  split; [done|]. split; [done|]. rewrite E. f_equal. f_equal.
  pose proof (truncate_canonical e Hok) as T. exact T.
Qed.

Lemma ecs_forwarded_witness :
  let e := mkEcs 1 20 0 [10; 1; 16] in
  let m := mkMessage 1 default_flags [mkQuestion (of_labels [[97]]) 1 1] [] [] []
             (Some (mkEdns 1232 0 0 true [OptEcs e])) in
  exists k, from_message m = Some k /\ ecs_option k = Some e.
Proof.
  intros e m. eexists. split; [reflexivity|].
  apply (ecs_forwarded m _ e); [reflexivity|reflexivity|].
  exists 32. split; [left; split; reflexivity|]. cbn.
  split; [lia|]. split; [lia|]. split; [reflexivity|].
  split; [repeat constructor; unfold is_byte; lia|]. right. reflexivity.
Defined.
