(* ===== verification/Engine.v ===== *)
(** * Resolution steps ([src/engine.rs])

    The pure part of iterative resolution: building the outgoing query with its
    EDNS record and randomised case, classifying a response, the bailiwick test
    and DNAME synthesis. *)
From stdpp Require Import gmap.
From S2P Require Import Prelude Wire Prng Name Compress Qtype Edns Bitmap RData Rr Message BTree CacheKey Query.

Record EdnsSpec := mkEdnsSpec {
  es_udp_size : Z;
  es_dnssec_ok : bool;
  es_ecs : option Ecs;
  es_client_cookie : option (list Z) }.

Definition to_edns (s : EdnsSpec) : Edns :=
  let e := edns_new (Z.max (es_udp_size s) 512) in
  let os := match es_ecs s with Some ecs => [OptEcs ecs] | None => [] end in
  let os := os ++ match es_client_cookie s with Some c => [OptCookie c []] | None => [] end in
  mkEdns (udp_payload_size e) (ext_rcode e) (version e) (es_dnssec_ok s) (options e ++ os).

Record OutQuery := mkOutQuery { oq_bytes : list Z; oq_qname : Name; oq_id : Z }.

Definition build_query {R} `{RandomSource R} (id : Z) (qname : Name) (qtype : RrType) (rd : bool)
    (edns : option EdnsSpec) (use_0x20 : bool) (rng : R) : OutQuery * R :=
  let '(wire_name, rng) :=
    if use_0x20 && is_0x20_eligible qname then randomized_case qname rng else (qname, rng) in
  let m := mkMessage id (with_rd default_flags rd) [mkQuestion wire_name qtype RrClasses.IN_] [] [] []
             (to_edns <$> edns) in
  (mkOutQuery (match to_bytes m with Ok b => b | Err _ => [] end) wire_name id, rng).

Inductive ResponseKind :=
| RkAnswer (records rrsigs : list Rr)
| RkCname (record : Rr) (rrsigs : list Rr)
| RkDname (record : Rr)
| RkNegative (rcode : Rcode) (soa : option Rr)
| RkReferral (zone : Name) (ns glue : list Rr)
| RkEmpty.

(** The four locals of the loop over the answer section. *)
Record Scan := mkScan {
  sc_rrsigs : list Rr; sc_data : list Rr; sc_cname : option Rr; sc_dname : option Rr }.

Definition first_some (o : option Rr) (r : Rr) : option Rr :=
  match o with None => Some r | Some _ => o end.

Definition scan_record (qname : Name) (qtype : RrType) (s : Scan) (rec : Rr) : Scan :=
  if rr_type rec =? RrTypes.RRSIG then
    mkScan (sc_rrsigs s ++ [rec]) (sc_data s) (sc_cname s) (sc_dname s)
  else
    let s :=
      if bool_decide (name rec = qname) then
        if rr_type rec =? qtype then mkScan (sc_rrsigs s) (sc_data s ++ [rec]) (sc_cname s) (sc_dname s)
        else if rr_type rec =? RrTypes.CNAME
        then mkScan (sc_rrsigs s) (sc_data s) (first_some (sc_cname s) rec) (sc_dname s)
        else s
      else s in
    if (rr_type rec =? RrTypes.DNAME) && is_strict_subdomain_of qname (name rec)
    then mkScan (sc_rrsigs s) (sc_data s) (sc_cname s) (first_some (sc_dname s) rec)
    else s.

Definition scan_answers (qname : Name) (qtype : RrType) (answers : list Rr) : Scan :=
  fold_left (scan_record qname qtype) answers (mkScan [] [] None None).

Definition is_glue (r : Rr) : bool := (rr_type r =? RrTypes.A) || (rr_type r =? RrTypes.AAAA).

(** The loop over the authority section stops at the first delegation. *)
Fixpoint find_referral (recs : list Rr) (msg : Message) (zone : Name) : option (Name * list Rr * list Rr) :=
  match recs with
  | [] => None
  | rec :: recs =>
      if (rr_type rec =? RrTypes.NS) && is_strict_subdomain_of (name rec) zone then
        let zone := name rec in
        let ns := List.filter (fun r => (rr_type r =? RrTypes.NS) && bool_decide (name r = zone))
                    (authorities msg) in
        Some (zone, ns, List.filter is_glue (additionals msg))
      else find_referral recs msg zone
  end.

Definition classify_response (msg : Message) (qname : Name) (qtype : RrType) (zone : Name) : ResponseKind :=
  if rcode msg =? 3 then RkNegative Rcodes.NXDOMAIN (authority_soa msg) else
  let s := scan_answers qname qtype (answers msg) in
  match sc_data s with
  | _ :: _ => RkAnswer (sc_data s) (sc_rrsigs s)
  | [] =>
      match sc_cname s with
      | Some c => RkCname c (sc_rrsigs s)
      | None =>
          match sc_dname s with
          | Some d => RkDname d
          | None =>
              match authority_soa msg with
              | Some soa => RkNegative Rcodes.NOERROR (Some soa)
              | None =>
                  match find_referral (authorities msg) msg zone with
                  | Some (zone, ns, glue) => RkReferral zone ns glue
                  | None => RkEmpty
                  end
              end
          end
      end
  end.

Definition in_bailiwick (owner zone : Name) : bool := is_subdomain_of owner zone.

Definition synthesize_dname_cname (qname dname_owner dname_target : Name) : option Name :=
  if negb (is_strict_subdomain_of qname dname_owner) then None else
  let q_labels := labels qname in
  let keep := Z.max 0 (zlen q_labels - label_count dname_owner) in
  let out := fold_left push_label (take (Z.to_nat keep) q_labels) [] in
  let out := fold_left push_label (labels dname_target) out in
  match from_wire (out ++ [0]) 0 with Ok (n, _) => Some n | Err _ => None end.

Definition make_cname_record (name target : Name) (ttl : Z) : Rr :=
  mkRecord name RrTypes.CNAME RrClasses.IN_ ttl (RD_Cname target).

(** A referral, then an answer below it. *)
Example classify_sample :
  let com := of_labels [[99]] in let n := of_labels [[97]; [99]] in
  classify_response (mkMessage 1 default_flags [] [] [mkRecord com RrTypes.NS 1 60 (RD_Ns n)] [] None)
    n RrTypes.A root = RkReferral com [mkRecord com RrTypes.NS 1 60 (RD_Ns n)] [].
Proof. vm_compute. reflexivity. Qed.

Example synthesize_sample :
  synthesize_dname_cname (of_labels [[119]; [97]; [99]]) (of_labels [[97]; [99]]) (of_labels [[98]]) =
  Some (of_labels [[119]; [98]]).
Proof. vm_compute. reflexivity. Qed.

(** ** Classification *)

Definition is_sig (r : Rr) : bool := rr_type r =? RrTypes.RRSIG.
Definition is_data (qname : Name) (qtype : RrType) (r : Rr) : bool :=
  negb (is_sig r) && bool_decide (name r = qname) && (rr_type r =? qtype).
Definition is_alias (qname : Name) (qtype : RrType) (r : Rr) : bool :=
  bool_decide (name r = qname) && (rr_type r =? RrTypes.CNAME) && negb (qtype =? RrTypes.CNAME).
Definition is_redirect (qname : Name) (r : Rr) : bool :=
  (rr_type r =? RrTypes.DNAME) && is_strict_subdomain_of qname (name r).
Definition is_delegation (zone : Name) (r : Rr) : bool :=
  (rr_type r =? RrTypes.NS) && is_strict_subdomain_of (name r) zone.

Definition or_find (o : option Rr) (f : Rr -> bool) (l : list Rr) : option Rr :=
  match o with Some _ => o | None => List.find f l end.

Lemma scan_record_eq qname qtype sg d c n r :
  scan_record qname qtype (mkScan sg d c n) r =
  mkScan (if is_sig r then sg ++ [r] else sg) (if is_data qname qtype r then d ++ [r] else d)
    (if is_alias qname qtype r then first_some c r else c)
    (if is_redirect qname r then first_some n r else n).
Proof.
  unfold scan_record, is_data, is_alias, is_redirect, is_sig. cbn [sc_rrsigs sc_data sc_cname sc_dname].
  destruct (rr_type r =? RrTypes.RRSIG) eqn:Es; cbn [negb andb]; bools.
  - rewrite Es. cbn [RrTypes.CNAME RrTypes.DNAME RrTypes.RRSIG Z.eqb Pos.eqb andb]. by rewrite andb_false_r.
  - destruct (bool_decide (name r = qname)); cbn [andb]; [|by destruct (_ && _)].
    destruct (rr_type r =? qtype) eqn:Et; cbn [andb]; bools.
    + rewrite Et, andb_negb_r. by destruct (_ && _).
    + destruct (rr_type r =? RrTypes.CNAME) eqn:Ec; cbn [andb]; bools; [|by destruct (_ && _)].
      rewrite Ec in *. rewrite (proj2 (Z.eqb_neq qtype _)) by congruence. done.
Qed.

Lemma or_find_cons o f r l :
  or_find o f (r :: l) = or_find (if f r then first_some o r else o) f l.
Proof. destruct o; cbn; by destruct (f r). Qed.

(** One pass collects the signatures, the data, the first alias and the first
    redirection. *)
Lemma scan_spec qname qtype recs sg d c n :
  fold_left (scan_record qname qtype) recs (mkScan sg d c n) =
  mkScan (sg ++ List.filter is_sig recs) (d ++ List.filter (is_data qname qtype) recs)
    (or_find c (is_alias qname qtype) recs) (or_find n (is_redirect qname) recs).
Proof.
  revert sg d c n. induction recs as [|r recs IH]; intros sg d c n; cbn [fold_left].
  - cbn [List.filter]. rewrite !app_nil_r. by destruct c, n.
  - rewrite scan_record_eq, IH, !or_find_cons. cbn [List.filter].
    f_equal; case_match; by rewrite <- ?app_assoc.
Qed.

Lemma find_referral_spec recs msg zone :
  find_referral recs msg zone =
  (fun r => (name r, List.filter (fun r' => (rr_type r' =? RrTypes.NS) && bool_decide (name r' = name r))
               (authorities msg), List.filter is_glue (additionals msg)))
    <$> List.find (is_delegation zone) recs.
Proof.
  induction recs as [|r recs IH]; cbn [find_referral List.find]; [done|].
  unfold is_delegation at 1. destruct (_ && _); [done|exact IH].
Qed.

Lemma strict_subdomain_longer a b : is_strict_subdomain_of a b = true -> wire_len b < wire_len a.
Proof.
  unfold is_strict_subdomain_of, is_subdomain_of, wire_len. rewrite andb_true_iff.
  intros [Hne Hs]. apply negb_true_iff, bool_decide_eq_false in Hne.
  apply ends_with_iff in Hs as [pre E]. rewrite E, zlen_app.
  destruct pre as [|x pre]; [|rewrite zlen_cons; pose proof (zlen_nonneg pre); lia].
  destruct a, b. cbn in *. congruence.
Qed.

Definition no_data (msg : Message) (qname : Name) (qtype : RrType) : Prop :=
  forall r, In r (answers msg) -> is_data qname qtype r = false.
Definition no_alias (msg : Message) (qname : Name) (qtype : RrType) : Prop :=
  forall r, In r (answers msg) -> is_alias qname qtype r = false.
Definition no_redirect (msg : Message) (qname : Name) : Prop :=
  forall r, In r (answers msg) -> is_redirect qname r = false.


(** ** Redirection *)

(** A DNAME rewrites the name's labels above the owner's onto the target's, and
    fails exactly when the result is too long for a name. *)
Theorem synthesize_dname_spec ls owner target :
  wf_labels ls -> wf_labels owner -> wf_labels target ->
  let q := of_labels ls in
  let front := take (length ls - length owner) ls in
  synthesize_dname_cname q (of_labels owner) (of_labels target) =
  if is_strict_subdomain_of q (of_labels owner) &&
     (zlen (enc_labels (front ++ target)) + 1 <=? MAX_NAME_LEN) && (zlen (front ++ target) <? MAX_LABELS)
  then Some (of_labels (front ++ target)) else None.
Proof.
  intros (Hok & Hlow & Ht & Hn) (Hoko & _) (Hokt & Hlowt & Htt & _). cbv zeta. unfold synthesize_dname_cname, label_count.
  destruct (is_strict_subdomain_of _ _) eqn:E; cbn [negb andb]; [|done].
  rewrite !labels_of_labels by done.
  replace (Z.to_nat (Z.max 0 (zlen ls - zlen owner))) with (length ls - length owner)%nat by (unfold zlen; lia).
  set (front := take _ ls).
  assert (Forall label_ok (front ++ target)) as Hf by (apply Forall_app; split; [by apply Forall_take|done]).
  assert (Forall lower_ok (front ++ target)) as Hfl by (apply Forall_app; split; [by apply Forall_take|done]).
  rewrite <- fold_left_app, fold_push_label by done. cbn [app].
  assert (zlen (enc_labels (front ++ target)) <= 2 * MAX_NAME_LEN) as Hz.
  { pose proof (f_equal (fun l => zlen (enc_labels l)) (take_drop (length ls - length owner) ls)) as TD.
    fold front in TD. cbn beta in TD. rewrite enc_labels_app, zlen_app in TD |- *.
    pose proof (zlen_nonneg (enc_labels (drop (length ls - length owner) ls))). lia. }
  assert (buf_ok (enc_labels (front ++ target) ++ [0])) as Hb.
  { split; [apply Forall_app; split; [by apply enc_labels_bytes|by repeat constructor]|].
    unfold MAX_NAME_LEN, usize_max in *. lens. }
  pose proof (Decodes_enc (front ++ target) [] [] Hf Hfl) as D. cbn [app] in D. change (zlen []) with 0 in D.
  destruct (_ && _) eqn:Efit.
  - bools. assert (from_wire (enc_labels (front ++ target) ++ [0]) 0 =
      Ok (of_labels (front ++ target), zlen (enc_labels (front ++ target)) + 1)) as ->; [|done].
    apply from_wire_iff; [done|]. exists (front ++ target), 0%nat. by repeat split.
  - destruct (from_wire _ _) as [[n e]|] eqn:Ew; [|done].
    apply from_wire_iff in Ew as (ls' & h & D' & _ & (_ & _ & L1 & L2) & _); [|done].
    destruct (Decodes_det _ _ _ _ _ D _ _ _ D') as (-> & _ & _).
    apply andb_false_iff in Efit as [F|F]; bools; lia.
Qed.

Lemma synthesize_dname_spec_witness :
  synthesize_dname_cname (of_labels [[119]; [97]; [99]]) (of_labels [[97]; [99]]) (of_labels [[98]]) =
  Some (of_labels [[119]; [98]]).
Proof.
  pose proof (synthesize_dname_spec [[119]; [97]; [99]] [[97]; [99]] [[98]]) as S.
  cbv zeta in S. rewrite S; [reflexivity|..]; repeat split; repeat constructor; done.
Defined.

(** ** Outgoing queries *)

Definition spec_ok (s : EdnsSpec) : Prop :=
  is_u16 (es_udp_size s) /\
  (forall e, es_ecs s = Some e -> ecs_ok e) /\
  (forall c, es_client_cookie s = Some c -> zlen c = 8 /\ bytes c).

Lemma ecs_wire_bounds e : ecs_ok e -> zlen (ecs_to_wire e) <= 20 /\ bytes (ecs_to_wire e).
Proof.
  intros (max & Hmax & Hp & Hs & Hl & Hb & _). unfold ecs_to_wire. split.
  - rewrite !zlen_app, Hl. change (zlen [source_prefix e]) with 1. change (zlen [scope_prefix e]) with 1.
    rewrite zlen_be_bytes. unfold div_ceil.
    assert ((source_prefix e + 8 - 1) / 8 < 17); [apply Z.div_lt_upper_bound; lia|lia].
  - repeat (apply Forall_app; split); auto with rx; repeat constructor; unfold is_byte; lia.
Qed.

Lemma to_edns_ok s : spec_ok s ->
  opt_record_ok (to_edns s) /\ zlen (options_wire (to_edns s)) <= 64 /\ normal_edns (to_edns s) = to_edns s.
Proof.
  intros (Hu & He & Hc).
  assert (forall o, In o (options (to_edns s)) -> opt_ok o /\ zlen (option_wire o) <= 24 /\ normal o = o) as H.
  { intros o. unfold to_edns. cbn [options edns_new app]. rewrite in_app_iff.
    assert (forall d c, zlen d <= 20 -> zlen (be_bytes 2 c ++ be_bytes 2 (wrap 16 (zlen d)) ++ d) <= 24) as W
      by (intros; lens).
    intros [Ho|Ho].
    - destruct (es_ecs s) as [e|]; [|done]. destruct Ho as [<-|[]].
      destruct (ecs_wire_bounds e (He e eq_refl)) as [Hl Hb].
      split; [|split; [by apply W|done]]. split; [cbn [option_data]; unfold u16_max; lia|]. split; [done|].
      by apply He.
    - destruct (es_client_cookie s) as [c|]; [|done]. destruct Ho as [<-|[]].
      destruct (Hc c eq_refl) as [Hl Hb]. cbn [option_data] in *.
      split; [|split; [apply W; cbn [option_data]; rewrite app_nil_r; lia|done]].
      split; [cbn [option_data]; rewrite app_nil_r; unfold u16_max; lia|].
      split; [cbn [option_data]; by rewrite app_nil_r|done]. }
  assert (zlen (options_wire (to_edns s)) <= 64) as Hl.
  { assert (length (options (to_edns s)) <= 2)%nat as L2
      by (unfold to_edns; cbn; rewrite length_app; destruct (es_ecs s), (es_client_cookie s); cbn; lia).
    unfold options_wire. destruct (options (to_edns s)) as [|o1 [|o2 [|]]]; cbn [length] in L2; try lia; cbn [flat_map].
    - done.
    - destruct (H o1 ltac:(by left)) as (_ & ? & _). rewrite app_nil_r. lia.
    - destruct (H o1 ltac:(by left)) as (_ & ? & _). destruct (H o2 ltac:(by right; left)) as (_ & ? & _).
      rewrite app_nil_r, zlen_app. lia. }
  split; [|split; [done|]].
  - split; [|unfold u16_max; lia]. split; [|split; [|split]].
    + unfold to_edns, is_u16 in *. cbn. lia.
    + done.
    + done.
    + rewrite List.Forall_forall. intros o Ho. by apply H.
  - unfold normal_edns. assert (normal <$> options (to_edns s) = options (to_edns s)) as ->; [|done].
    transitivity (map (fun o => o) (options (to_edns s))); [|apply map_id].
    apply map_ext_in. intros o Ho. by apply H.
Qed.

(** A message with one question and no records is written without compression. *)
Definition opt_wire (e : Edns) : list Z :=
  [0] ++ be_bytes 2 RrTypes.OPT ++ be_bytes 2 (udp_payload_size e) ++ be_bytes 4 (ttl_field e)
    ++ be_bytes 2 (wrap 16 (zlen (options_wire e))) ++ options_wire e.

Lemma query_bytes i f q e :
  let m := mkMessage i f [q] [] [] [] e in
  to_bytes m = Ok (header m ++ as_bytes (qname q) ++ be_bytes 2 (qtype q) ++ be_bytes 2 (qclass q)
                   ++ match e with Some e => opt_wire e | None => [] end).
Proof.
  intros m. rewrite to_bytes_body. unfold body, m at 1. cbn [questions answers authorities additionals edns].
  cbn [questions_to_wire]. unfold question_to_wire. cbn [fst snd put_name]. unfold write.
  rewrite find_hit_empty. unfold write_wire. change (answers m) with (@nil Rr). change (authorities m) with (@nil Rr).
  change (additionals m) with (@nil Rr). change (edns m) with e. cbn [records_to_wire mbind result_bind].
  destruct e as [e|].
  - unfold edns_to_wire. cbn [put_name]. unfold write. change (suffixes root) with (@nil (Name * Z)).
    cbn [find_hit fst]. unfold write_wire, opt_wire.
    change (as_bytes root) with [0]. by rewrite <- !app_assoc.
  - by rewrite <- !app_assoc, app_nil_r.
Qed.

(** The message [build_query] sends is one that is read back. *)
Lemma query_message_ok i wn qname qtype cls rd edns :
  is_u16 i -> wf_name qname -> canonical wn = qname -> is_u16 qtype -> is_u16 cls -> (forall s, edns = Some s -> spec_ok s) ->
  let m := mkMessage i (with_rd default_flags rd) [mkQuestion wn qtype cls] [] [] [] (to_edns <$> edns) in
  message_ok m /\
  normal_message m = mkMessage i (with_rd default_flags rd) [mkQuestion qname qtype cls] [] [] [] (to_edns <$> edns) /\
  match to_edns <$> edns with Some e => zlen (options_wire e) <= 64 | None => True end.
Proof.
  intros Hi Hn Hc Ht Hcl He m.
  assert (match to_edns <$> edns with Some e => opt_record_ok e | None => True end /\
    match to_edns <$> edns with Some e => zlen (options_wire e) <= 64 | None => True end /\
    normal_edns <$> (to_edns <$> edns) = to_edns <$> edns) as (Ho & Hl & Hno).
  { destruct edns as [s|]; [|done]. cbn. destruct (to_edns_ok s (He s eq_refl)) as (? & ? & ->). done. }
  split; [|split; [|done]].
  - unfold m. split; [done|]. split; [split; cbn; destruct rd; cbv; done|].
    cbn [questions answers authorities additionals Message.edns].
    split. { constructor; [|constructor]. split; [cbn; by rewrite Hc|]. by split. }
    conjs; try constructor; try done. by destruct (to_edns <$> edns).
  - unfold normal_message, m. cbn [id flags questions answers authorities additionals Message.edns].
    rewrite Hno. cbn [fmap list_fmap]. unfold normal_question. cbn [Message.qname Message.qtype qclass].
    by rewrite Hc.
Qed.

(** Whatever the random source answers, the outgoing query is one the parser
    reads back, with the question in lower case, the requested flags and the
    EDNS options asked for; the case sent is that of the name reported. A
    response is matched against the query as it parses, so its question may be
    in any case: the randomised case is not compared. *)
Theorem build_query_spec {R} `{RandomSource R} i qname qtype rd edns use_0x20 (rng : R) :
  is_u16 i -> wf_name qname -> is_u16 qtype -> (forall s, edns = Some s -> spec_ok s) ->
  let out := (build_query i qname qtype rd edns use_0x20 rng).1 in
  let sent := mkMessage i (with_rd default_flags rd) [mkQuestion qname qtype RrClasses.IN_] [] [] []
                (to_edns <$> edns) in
  message_parse (oq_bytes out) = Ok sent /\ oq_id out = i /\ canonical (oq_qname out) = qname /\
  get_range (oq_bytes out) 12 (12 + wire_len qname) = Some (as_bytes (oq_qname out)) /\
  forall response, response_matches_query sent response = true <->
    id response = i /\ exists rq, question response = Some rq /\
      Message.qtype rq = qtype /\ qclass rq = RrClasses.IN_ /\ canonical (Message.qname rq) = qname.
Proof.
  intros Hi Hn Ht He. unfold build_query.
  destruct (if use_0x20 && is_0x20_eligible qname then _ else _) as [wn rng'] eqn:Ew.
  cbn zeta. cbn [fst oq_bytes oq_id oq_qname].
  assert (canonical wn = qname /\ wire_len wn = wire_len qname) as [Hc Hlen].
  { destruct (use_0x20 && is_0x20_eligible qname).
    - pose proof Hn as (ls & Hls & Eq). pose proof (randomized_case_same_name ls rng Hls) as RC.
      rewrite <- Eq, Ew in RC. cbn [fst] in RC. cbv zeta in RC. tauto.
    - injection Ew as <- <-. split; [by apply canonical_wf|done]. }
  set (m := mkMessage i (with_rd default_flags rd) [mkQuestion wn qtype RrClasses.IN_] [] [] [] (to_edns <$> edns)).
  destruct (query_message_ok i wn qname qtype RrClasses.IN_ rd edns Hi Hn Hc Ht ltac:(done) He) as (Hm & En & Hl). fold m in Hm, En.
  pose proof (query_bytes i (with_rd default_flags rd) (mkQuestion wn qtype RrClasses.IN_) (to_edns <$> edns)) as B.
  cbv zeta in B. fold m in B. cbn [Message.qname Message.qtype qclass] in B. rewrite B.
  split; [|split; [done|split; [done|split]]].
  - rewrite <- En. apply to_bytes_reparses; [done|done|]. pose proof Hn as (ls & (_ & _ & Hz & _) & ->). rewrite wire_len_of_labels in Hlen.
    unfold wire_len in Hlen. rewrite !zlen_app, zlen_header, Hlen.
    clear B En. revert Hl. destruct (to_edns <$> edns) as [e|]; cbv beta iota; intros Hl; unfold opt_wire;
      rewrite ?zlen_app, !zlen_be_bytes; change (zlen [0]) with 1; change (zlen (@nil Z)) with 0;
      unfold MAX_NAME_LEN, usize_max in *; lia.
  - apply get_range_middle; rewrite zlen_header; [done|]. unfold wire_len in *. lia.
  - intros response. rewrite response_matches_iff. cbn [Message.id question questions list.head].
    split.
    + intros (<- & qq & rq & [= <-] & Hr & H1 & H2 & H3). split; [done|]. exists rq.
      cbn [Message.qname Message.qtype qclass] in *. rewrite (canonical_wf qname Hn) in H3. done.
    + intros (<- & rq & Hr & H1 & H2 & H3). split; [done|].
      eexists _, rq. split; [reflexivity|]. cbn [Message.qname Message.qtype qclass].
      rewrite (canonical_wf qname Hn). done.
Qed.

Lemma build_query_spec_witness :
  let n := of_labels [[119; 119; 119]; [99]] in
  let out := (build_query 7 n 1 false (Some (mkEdnsSpec 1232 true None None)) true (mkSplitMix64 7)).1 in
  oq_qname out = MkName [3; 119; 87; 87; 1; 99; 0] /\
  exists m, message_parse (oq_bytes out) = Ok m /\
    response_matches_query m (mkMessage 7 default_flags [mkQuestion n 1 1] [] [] [] None) = true.
Proof.
  intros n out. split; [vm_compute; reflexivity|].
  destruct (build_query_spec 7 n 1 false (Some (mkEdnsSpec 1232 true None None)) true (mkSplitMix64 7))
    as (P & _ & _ & _ & M).
  - unfold is_u16. lia.
  - exists [[119; 119; 119]; [99]]. split; [|reflexivity]. repeat split; repeat constructor; done.
  - unfold is_u16. lia.
  - intros s [= <-]. split; [unfold is_u16; cbn; lia|]. split; cbn; discriminate.
  - eexists. split; [exact P|]. apply M. split; [reflexivity|]. eexists. repeat split.
Defined.
