(* ===== verification/Dnssec.v ===== *)
(** * DNSSEC validation ([src/dnssec/mod.rs])

    Key tags, DS matching, the signed data of an RRSIG, the verification of one
    signature, of a record set, of a section and of a whole answer, and the
    states they are reported as.  SHA-256 is third-party code and a parameter;
    so is [resolve], the answers the resolver returns to the validator's own
    DNSKEY and DS queries, which depend on the network. *)
From Stdlib Require Import Sorted Permutation.
From stdpp Require Import gmap.
From S2P Require Import Prelude Wire Prng Name Compress Qtype Edns Bitmap RData Rr Message BTree Sort Time Rsa.

Inductive Verdict := Secure | Insecure | Bogus | Indeterminate.
#[global] Instance Verdict_eq_dec : EqDecision Verdict.
Proof. solve_decision. Defined.

Inductive ValidationState := StIndeterminate | StInsecure | CryptoVerified | ChainAnchored.
#[global] Instance ValidationState_eq_dec : EqDecision ValidationState.
Proof. solve_decision. Defined.

Definition state_permits_ad (s : ValidationState) : bool :=
  match s with ChainAnchored => true | _ => false end.

Definition is_signature_verified (s : ValidationState) : bool :=
  match s with CryptoVerified | ChainAnchored => true | _ => false end.

Definition state_as_str (s : ValidationState) : string :=
  match s with
  | StIndeterminate => "indeterminate" | StInsecure => "insecure"
  | CryptoVerified => "crypto-verified" | ChainAnchored => "chain-anchored"
  end.

(** [TrustLevel] of [src/risk.rs]. *)
Inductive TrustLevel := TlChainAnchored | TlCryptoVerified | TlUnverified | TlIndeterminate.

Definition trust_level (s : ValidationState) : TrustLevel :=
  match s with
  | ChainAnchored => TlChainAnchored
  | CryptoVerified => TlCryptoVerified
  | StInsecure => TlUnverified
  | StIndeterminate => TlIndeterminate
  end.

Definition verdict_state (v : Verdict) (anchored : bool) : ValidationState :=
  match v with
  | Secure => if anchored then ChainAnchored else CryptoVerified
  | Insecure => StInsecure
  | Indeterminate => StIndeterminate
  | Bogus => StIndeterminate
  end.

Record Verification := mkVerification {
  v_verdict : Verdict;
  v_state : ValidationState;
  answer_groups : Z;
  answer_groups_authenticated : Z;
  authority_authenticated : option bool }.

Definition verification_empty : Verification := mkVerification Insecure StInsecure 0 0 None.

Definition permits_authentic_data (v : Verification) : bool :=
  state_permits_ad (v_state v) && (0 <? answer_groups v)
  && (answer_groups v =? answer_groups_authenticated v)
  && match authority_authenticated v with Some b => b | None => true end.

(** ** Key tags *)

(** The loop over the octets: odd positions are low octets. *)
Fixpoint tag_loop (i : Z) (rdata : list Z) (ac : Z) : Z :=
  match rdata with
  | [] => ac
  | b :: rdata =>
      tag_loop (i + 1) rdata
        (wrap 32 (if Z.land i 1 =? 1 then ac + b else ac + wrap 32 (Z.shiftl b 8)))
  end.

Definition dnskey_rdata (flags protocol algorithm : Z) (public_key : list Z) : list Z :=
  be_bytes 2 flags ++ [protocol] ++ [algorithm] ++ public_key.

Definition key_tag (flags protocol algorithm : Z) (public_key : list Z) : Z :=
  let ac := tag_loop 0 (dnskey_rdata flags protocol algorithm public_key) 0 in
  let ac := wrap 32 (ac + Z.land (Z.shiftr ac 16) 0xffff) in
  Z.land ac 0xffff.

(** ** The signed data *)

Definition rrsig_rdata_without_signature (sig : RData) : option (list Z) :=
  match sig with
  | RD_Rrsig type_covered algorithm labels original_ttl expiration inception key_tag signer _ =>
      let out := be_bytes 2 type_covered ++ [algorithm] ++ [labels] ++ be_bytes 4 original_ttl
        ++ be_bytes 4 expiration ++ be_bytes 4 inception ++ be_bytes 2 key_tag in
      Some (write_wire signer out)
  | _ => None
  end.

Definition canonical_item (original_ttl : Z) (r : Rr) : list Z :=
  let item := write_wire (name r) [] in
  let item := item ++ be_bytes 2 (rr_type r) in
  let item := item ++ be_bytes 2 (class r) in
  let item := item ++ be_bytes 4 original_ttl in
  let rd := fst (rdata_to_wire (rdata r) [] None) in
  item ++ be_bytes 2 (wrap 16 (zlen rd)) ++ rd.

Definition canonical_rrset (records : list Rr) (original_ttl : Z) : list Z :=
  concat (sort_octets (map (canonical_item original_ttl) records)).

Definition rrsigs_for (rrsigs : list Rr) (rr_type : RrType) : list Rr :=
  List.filter (fun r => match rdata r with
                        | RD_Rrsig type_covered _ _ _ _ _ _ _ _ => type_covered =? rr_type
                        | _ => false end) rrsigs.

Definition rrsig_signer (rrsig : Rr) : option Name :=
  match rdata rrsig with RD_Rrsig _ _ _ _ _ _ _ signer _ => Some signer | _ => None end.

Definition deprecated_alg : Error := internal "deprecated DNSSEC algorithm".
Definition unsupported_alg : Error := internal "unsupported DNSSEC algorithm".

Definition deprecated_algorithms : list Z :=
  [Algorithms.RSAMD5; Algorithms.RSASHA1; Algorithms.RSASHA1NSEC3SHA1; Algorithms.DSA].

Section validation.
Context (sha256 : list Z -> list Z).

Definition dnskey_matches_ds (dnskey ds : Rr) : bool :=
  match rdata dnskey, rdata ds with
  | RD_Dnskey flags proto alg key, RD_Ds ds_key_tag ds_alg ds_digest_type ds_digest =>
      if negb (alg =? ds_alg) then false else
      if negb (key_tag flags proto alg key =? ds_key_tag) then false else
      let digest_input := write_wire (name dnskey) [] ++ be_bytes 2 flags ++ [proto] ++ [alg] ++ key in
      if ds_digest_type =? Digests.SHA256 then bool_decide (sha256 digest_input = ds_digest) else false
  | _, _ => false
  end.

(** The error of [Result<bool, &str>] is its text. *)
Definition verify_rrsig (dnskey rrsig : Rr) (records : list Rr) (now_secs : Z) : result Error bool :=
  match rdata rrsig with
  | RD_Rrsig _ algorithm labels original_ttl expiration inception sig_key_tag _ signature =>
      match rdata dnskey with
      | RD_Dnskey flags _ key_alg public_key =>
          if negb (algorithm =? key_alg) then Ok false else
          if (now_secs <? inception) || (expiration <? now_secs) then Ok false else
          if negb (labels =? wrap 8 (label_count (name rrsig))) then Ok false else
          if negb (key_tag flags 3 key_alg public_key =? sig_key_tag) then Ok false else
          if algorithm =? Algorithms.RSASHA256 then
            rrsig_rdata ← ok_or (rrsig_rdata_without_signature (rdata rrsig)) (internal "rrsig");
            let signed_data := rrsig_rdata ++ canonical_rrset records original_ttl in
            Ok (verify_pkcs1v15_sha256 public_key (sha256 signed_data) signature)
          else if existsb (Z.eqb algorithm) deprecated_algorithms then Err deprecated_alg
          else Err unsupported_alg
      | _ => Err (internal "dnskey rdata")
      end
  | _ => Err (internal "rrsig rdata")
  end.

(** The two nested loops of [validate_rrset]: [inl] returns at once. *)
Fixpoint try_keys (keys : list Rr) (rrsig : Rr) (records : list Rr) (now_secs : Z) (attempted : bool)
    : unit + bool :=
  match keys with
  | [] => inr attempted
  | key :: keys =>
      match verify_rrsig key rrsig records now_secs with
      | Ok true => inl tt
      | Ok false => try_keys keys rrsig records now_secs true
      | Err _ => try_keys keys rrsig records now_secs attempted
      end
  end.

Fixpoint try_sigs (rrsigs keys records : list Rr) (now_secs : Z) (attempted : bool) : unit + bool :=
  match rrsigs with
  | [] => inr attempted
  | rrsig :: rrsigs =>
      match rdata rrsig with
      | RD_Rrsig _ _ _ _ _ _ _ _ _ =>
          match try_keys keys rrsig records now_secs attempted with
          | inl tt => inl tt
          | inr attempted => try_sigs rrsigs keys records now_secs attempted
          end
      | _ => try_sigs rrsigs keys records now_secs attempted
      end
  end.

Definition validate_rrset (records rrsigs dnskey_records : list Rr) (now_secs : Z) : Verdict :=
  match records with
  | [] => Indeterminate
  | _ =>
      match rrsigs with
      | [] => match dnskey_records with [] => Insecure | _ => Bogus end
      | _ =>
          match try_sigs rrsigs dnskey_records records now_secs false with
          | inl tt => Secure
          | inr true => Bogus
          | inr false => Indeterminate
          end
      end
  end.

(** [true] when some signature verifies with this key. *)
Definition verify_rrset_quietly (records rrsigs : list Rr) (key : Rr) (now_secs : Z) : bool :=
  existsb (fun rrsig => bool_decide (verify_rrsig key rrsig records now_secs = Ok true)) rrsigs.

Section resolution.
(** The answer section the resolver returns for a name and a type. *)
Context (resolve : Name -> RrType -> result Error (list Rr)).

Definition key_is_anchored (signer : Name) (key : Rr) : bool :=
  match resolve signer RrTypes.DS with
  | Ok answers =>
      existsb (dnskey_matches_ds key)
        (List.filter (fun r => (rr_type r =? RrTypes.DS) && bool_decide (name r = signer)) answers)
  | Err _ => false
  end.

Definition signer_keys (signer : Name) (answers : list Rr) : list Rr :=
  List.filter (fun r => (rr_type r =? RrTypes.DNSKEY) && bool_decide (name r = signer)) answers.

Definition validate_group (records rrsigs : list Rr) (now_secs : Z) : Verdict :=
  match rrsigs with
  | [] => Indeterminate
  | first :: _ =>
      match rrsig_signer first with
      | None => Indeterminate
      | Some signer =>
          match resolve signer RrTypes.DNSKEY with
          | Err _ => Indeterminate
          | Ok answers =>
              match signer_keys signer answers with
              | [] => Indeterminate
              | keys =>
                  if existsb (fun key => verify_rrset_quietly records rrsigs key now_secs
                                         && key_is_anchored signer key) keys
                  then Secure
                  else validate_rrset records rrsigs keys now_secs
              end
          end
      end
  end.

Definition group_records (records : list Rr) : list ((Name * RrType) * list Rr) :=
  fold_left (fun groups r =>
    let k := (name r, rr_type r) in
    bt_insert groups k (default [] (bt_get groups k) ++ [r])) records [].

(** The signatures that are taken to cover a group. *)
Definition covering (rrsigs : list Rr) (owner : Name) (rr_type : RrType) : list Rr :=
  List.filter (fun s => bool_decide (rrsig_signer s = Some owner) || bool_decide (name s = owner))
    (rrsigs_for rrsigs rr_type).

Record Tally := mkTally { signed_groups : Z; authenticated : Z; all_secure : bool; worst : Verdict }.

Definition tally_group (rrsigs : list Rr) (now_secs : Z) (t : Tally) (g : (Name * RrType) * list Rr) : Tally :=
  let '((owner, rr_type), group) := g in
  match covering rrsigs owner rr_type with
  | [] => mkTally (signed_groups t) (authenticated t) false (worst t)
  | covered =>
      let signed := signed_groups t + 1 in
      match validate_group group covered now_secs with
      | Secure => mkTally signed (authenticated t + 1) (all_secure t) (worst t)
      | Bogus => mkTally signed (authenticated t) false Bogus
      | Indeterminate =>
          mkTally signed (authenticated t) false
            (if decide (worst t = Insecure) then Indeterminate else worst t)
      | Insecure => mkTally signed (authenticated t) false (worst t)
      end
  end.

Definition verify_section (records rrsigs : list Rr) (now_secs : Z) : Verdict * Z * Z :=
  match group_records records with
  | [] => (Insecure, 0, 0)
  | groups =>
      let t := fold_left (tally_group rrsigs now_secs) groups (mkTally 0 0 true Insecure) in
      let verdict :=
        if (0 <? signed_groups t) && all_secure t then Secure
        else if decide (worst t = Bogus) then Bogus
        else if signed_groups t =? 0 then Insecure
        else worst t in
      (verdict, signed_groups t, authenticated t)
  end.

Definition authority_relevant (r : Rr) : bool :=
  existsb (Z.eqb (rr_type r)) [RrTypes.SOA; RrTypes.NSEC; RrTypes.NSEC3; RrTypes.NS].

Definition is_rrsig (r : Rr) : bool := rr_type r =? RrTypes.RRSIG.

(** [(resolver.now() / 1_000_000_000) as u32] *)
Definition secs_of (now : Ts) : Z := wrap 32 (Z.quot now 1000000000).

Definition verify_chain (now : Ts) (answers rrsigs authorities : list Rr) (anchored : bool) : Verification :=
  let now_secs := secs_of now in
  let '(verdict, total, authenticated) := verify_section answers rrsigs now_secs in
  let authority :=
    match authorities with
    | [] => None
    | _ =>
        match List.filter authority_relevant authorities with
        | [] => None
        | relevant =>
            let '(_, at_, aa) := verify_section relevant (List.filter is_rrsig authorities) now_secs in
            Some ((0 <? at_) && (at_ =? aa))
        end
    end in
  mkVerification verdict (verdict_state verdict anchored) total authenticated authority.

Definition preempted : Verification := mkVerification Indeterminate StIndeterminate 0 0 None.

(** The validation slot is a process-wide flag: [busy] before and after. *)
Definition with_guard (busy : bool) (run : Verification) : Verification * bool :=
  if busy then (preempted, true) else (run, false).

Definition validate_resolution_detailed (busy : bool) (now : Ts) (answers rrsigs authorities : list Rr)
    (anchored : bool) : Verification * bool :=
  match answers with
  | [] => (verification_empty, busy)
  | _ => with_guard busy (verify_chain now answers rrsigs authorities anchored)
  end.

Definition validate_message_detailed (busy : bool) (now : Ts) (resp : Message) (anchored : bool)
    : Verification * bool :=
  match answers resp with
  | [] => (verification_empty, busy)
  | _ =>
      let data := List.filter (fun r => negb (is_rrsig r)) (answers resp) in
      let sigs := List.filter is_rrsig (answers resp) in
      let auth := List.filter (fun r => negb (is_rrsig r)) (authorities resp) in
      with_guard busy (verify_chain now data sigs auth anchored)
  end.

Definition validate_resolution (busy : bool) (now : Ts) (answers rrsigs authorities : list Rr) : Verdict * bool :=
  let '(v, busy) := validate_resolution_detailed busy now answers rrsigs authorities false in (v_verdict v, busy).

Definition validate_message (busy : bool) (now : Ts) (resp : Message) : Verdict * bool :=
  let '(v, busy) := validate_message_detailed busy now resp false in (v_verdict v, busy).
End resolution.
End validation.

(** ** Key tags *)

(** The sum of the 16-bit words of [rdata], starting at position [i]. *)
Fixpoint word_sum (i : Z) (rdata : list Z) : Z :=
  match rdata with
  | [] => 0
  | b :: rdata => (if Z.odd i then b else b * 256) + word_sum (i + 1) rdata
  end.

Lemma word_sum_bound i rdata : bytes rdata -> 0 <= word_sum i rdata <= zlen rdata * (255 * 256).
Proof.
  intros H. revert i. induction H as [|b l Hb _ IH]; intros i; cbn [word_sum]; [done|].
  rewrite zlen_cons. specialize (IH (i + 1)). unfold is_byte in Hb. destruct (Z.odd i); lia.
Qed.

Lemma land_1_odd i : (Z.land i 1 =? 1) = Z.odd i.
Proof.
  change 1 with (Z.ones 1) at 1. rewrite Z.land_ones, Zmod_odd by lia. by destruct (Z.odd i).
Qed.

Lemma tag_loop_sum i rdata ac :
  bytes rdata -> 0 <= ac -> ac + zlen rdata * (255 * 256) < 2 ^ 32 ->
  tag_loop i rdata ac = ac + word_sum i rdata.
Proof.
  intros H. revert i ac. induction H as [|b l Hb Hl IH]; intros i ac Ha Hs; cbn [tag_loop word_sum]; [lia|].
  rewrite zlen_cons in Hs. pose proof (zlen_nonneg l). unfold is_byte in Hb.
  rewrite land_1_odd, Z.shiftl_mul_pow2 by lia. unfold wrap. change (2 ^ 8) with 256.
  rewrite (Z.mod_small (b * 256)) by lia.
  destruct (Z.odd i); rewrite Z.mod_small by lia; rewrite IH by lia; lia.
Qed.

(** A key tag is the folded sum of the key record's 16-bit words; the 32-bit
    accumulator of the loop does not overflow on any record that fits the wire. *)
Theorem key_tag_spec flags protocol algorithm key :
  is_u16 flags -> is_byte protocol -> is_byte algorithm -> bytes key -> zlen key + 4 <= u16_max ->
  let s := word_sum 0 (dnskey_rdata flags protocol algorithm key) in
  s < 2 ^ 32 /\ tag_loop 0 (dnskey_rdata flags protocol algorithm key) 0 = s /\
  key_tag flags protocol algorithm key = (s + s / 65536) mod 65536.
Proof.
  intros Hf Hp Ha Hk Hl s.
  assert (bytes (dnskey_rdata flags protocol algorithm key)) as Hb.
  { unfold dnskey_rdata. repeat (apply Forall_app; split); auto with rx; by repeat constructor. }
  assert (zlen (dnskey_rdata flags protocol algorithm key) = 4 + zlen key) as Hz.
  { unfold dnskey_rdata. rewrite !zlen_app, zlen_be_bytes. change (zlen [protocol]) with 1.
    change (zlen [algorithm]) with 1. lia. }
  pose proof (word_sum_bound 0 _ Hb) as B. fold s in B. rewrite Hz in B. unfold u16_max in Hl.
  assert (tag_loop 0 (dnskey_rdata flags protocol algorithm key) 0 = s) as E.
  { rewrite tag_loop_sum; [lia|done|lia|]. rewrite Hz. lia. }
  split; [lia|]. split; [done|]. unfold key_tag. rewrite E.
  change 0xffff with (Z.ones 16). rewrite !Z.land_ones, Z.shiftr_div_pow2 by lia. unfold wrap.
  change (2 ^ 16) with 65536.
  assert (0 <= s / 65536 < 65536) as D by (split; [apply Z.div_pos; lia|apply Z.div_lt_upper_bound; lia]).
  rewrite (Z.mod_small (s / 65536)) by lia. rewrite (Z.mod_small (s + _)) by lia. done.
Qed.

(** ** Verdicts over one record set *)

Section verdicts.
Context (sha256 : list Z -> list Z).
Abbreviation verify := (verify_rrsig sha256).

Lemma verify_needs_rrsig key sig recs now b : verify key sig recs now = Ok b ->
  match rdata sig with RD_Rrsig _ _ _ _ _ _ _ _ _ => True | _ => False end.
Proof. unfold verify_rrsig. by destruct (rdata sig). Qed.

Lemma try_keys_spec keys sig recs now att :
  match try_keys sha256 keys sig recs now att with
  | inl _ => exists key, In key keys /\ verify key sig recs now = Ok true
  | inr att' => (forall key, In key keys -> verify key sig recs now <> Ok true) /\
      (att' = true <-> att = true \/ exists key, In key keys /\ verify key sig recs now = Ok false)
  end.
Proof.
  revert att. induction keys as [|k keys IH]; intros att; cbn [try_keys].
  { split; [by intros ? []|]. split; [by left|]. by intros [?|(? & [] & _)]. }
  destruct (verify k sig recs now) as [[]|e] eqn:E.
  - exists k. by split; [left|].
  - specialize (IH true). destruct (try_keys _ keys _ _ _ _) as [|att'].
    + destruct IH as (key & ? & ?). exists key. by split; [right|].
    + destruct IH as [N A]. split; [intros key [<-|]; [congruence|by apply N]|].
      rewrite A. split; [|by left]. intros _. right. exists k. by split; [left|].
  - specialize (IH att). destruct (try_keys _ keys _ _ _ _) as [|att'].
    + destruct IH as (key & ? & ?). exists key. by split; [right|].
    + destruct IH as [N A]. split; [intros key [<-|]; [congruence|by apply N]|].
      rewrite A. split; (intros [?|(key & Hin & Hk)]; [by left|right]).
      * exists key. by split; [right|].
      * destruct Hin as [<-|Hin]; [congruence|]. by exists key.
Qed.

Lemma try_sigs_spec sigs keys recs now att :
  match try_sigs sha256 sigs keys recs now att with
  | inl _ => exists sig key, In sig sigs /\ In key keys /\ verify key sig recs now = Ok true
  | inr att' => (forall sig key, In sig sigs -> In key keys -> verify key sig recs now <> Ok true) /\
      (att' = true <-> att = true \/
         exists sig key, In sig sigs /\ In key keys /\ verify key sig recs now = Ok false)
  end.
Proof.
  revert att. induction sigs as [|s sigs IH]; intros att; cbn [try_sigs].
  { split; [by intros ? ? []|]. split; [by left|]. by intros [?|(? & ? & [] & _)]. }
  assert (forall att1, (forall key, In key keys -> verify key s recs now <> Ok true) ->
    (att1 = true <-> att = true \/ exists key, In key keys /\ verify key s recs now = Ok false) ->
    match try_sigs sha256 sigs keys recs now att1 with
    | inl _ => exists sig key, In sig (s :: sigs) /\ In key keys /\ verify key sig recs now = Ok true
    | inr att' => (forall sig key, In sig (s :: sigs) -> In key keys -> verify key sig recs now <> Ok true) /\
        (att' = true <-> att = true \/
           exists sig key, In sig (s :: sigs) /\ In key keys /\ verify key sig recs now = Ok false)
    end) as Step.
  { intros att1 N1 A1. specialize (IH att1). destruct (try_sigs _ sigs _ _ _ _) as [|att'].
    - destruct IH as (sig & key & ? & ? & ?). exists sig, key. by split; [right|].
    - destruct IH as [N A]. split; [intros sig key [<-|Hs]; [by apply N1|by apply N]|].
      rewrite A, A1. split.
      + intros [[?|(key & ? & ?)]|(sig & key & ? & ? & ?)]; [by left|right..].
        * exists s, key. by split; [left|].
        * exists sig, key. by split; [right|].
      + intros [?|(sig & key & [<-|Hs] & ? & ?)]; [by left; left|left; right; by exists key|].
        right. by exists sig, key. }
  destruct (rdata s) eqn:Ed; try (apply Step;
    [intros key _ Hk; by apply verify_needs_rrsig in Hk; rewrite Ed in Hk
    |split; [by left|intros [?|(key & _ & Hk)]; [done|]]; by apply verify_needs_rrsig in Hk; rewrite Ed in Hk]).
  pose proof (try_keys_spec keys s recs now att) as K.
  destruct (try_keys _ keys _ _ _ _) as [[]|att1].
  - destruct K as (key & ? & ?). exists s, key. by split; [left|].
  - destruct K as [N1 A1]. by apply Step.
Qed.

(** Some supported signature verifies, respectively some supported signature
    was tried and did not. *)
Definition accepted (recs sigs keys : list Rr) (now : Z) : Prop :=
  exists sig key, In sig sigs /\ In key keys /\ verify key sig recs now = Ok true.
Definition tried (recs sigs keys : list Rr) (now : Z) : Prop :=
  exists sig key, In sig sigs /\ In key keys /\ verify key sig recs now = Ok false.

Lemma try_sigs_verdict recs sigs keys now :
  match try_sigs sha256 sigs keys recs now false with
  | inl _ => accepted recs sigs keys now
  | inr att => ~ accepted recs sigs keys now /\ (att = true <-> tried recs sigs keys now)
  end.
Proof.
  pose proof (try_sigs_spec sigs keys recs now false) as S.
  destruct (try_sigs _ _ _ _ _ _) as [|att]; [done|]. destruct S as [N A].
  split; [intros (sig & key & ? & ? & ?); by eapply N|].
  rewrite A. unfold tried. split; [by intros [?|?]|by right].
Qed.

Lemma validate_rrset_secure recs sigs keys now : recs <> [] ->
  validate_rrset sha256 recs sigs keys now = Secure <-> accepted recs sigs keys now.
Proof.
  intros Hr. unfold validate_rrset. destruct recs as [|r recs]; [done|]. destruct sigs as [|s sigs].
  { destruct keys; (split; [done|]; by intros (? & ? & [] & _)). }
  pose proof (try_sigs_verdict (r :: recs) (s :: sigs) keys now) as T.
  destruct (try_sigs _ _ _ _ _ _) as [[]|[]]; [done|by destruct T..].
Qed.


Lemma quietly_accepted recs sigs key now :
  verify_rrset_quietly sha256 recs sigs key now = true <-> accepted recs sigs [key] now.
Proof.
  unfold verify_rrset_quietly, accepted. rewrite existsb_exists. split.
  - intros (sig & Hs & E%bool_decide_eq_true). exists sig, key. by split; [|split; [left|]].
  - intros (sig & k & Hs & [<-|[]] & E). exists sig. split; [done|]. by apply bool_decide_eq_true.
Qed.

(** The anchored keys only shorten the search. *)
Lemma validate_group_keys resolve recs sigs now : recs <> [] ->
  validate_group sha256 resolve recs sigs now =
  match sigs with
  | [] => Indeterminate
  | first :: _ =>
      match rrsig_signer first with
      | None => Indeterminate
      | Some signer =>
          match resolve signer RrTypes.DNSKEY with
          | Err _ => Indeterminate
          | Ok answers =>
              match signer_keys signer answers with
              | [] => Indeterminate
              | keys => validate_rrset sha256 recs sigs keys now
              end
          end
      end
  end.
Proof.
  intros Hr. unfold validate_group. destruct sigs as [|first sigs']; [done|].
  destruct (rrsig_signer first) as [signer|]; [|done]. destruct (resolve signer RrTypes.DNSKEY) as [answers|]; [|done].
  destruct (signer_keys signer answers) as [|k keys] eqn:Ek; [done|]. rewrite <- Ek.
  destruct (existsb _ _) eqn:Ex; [|by rewrite Ek]. rewrite Ek. symmetry. apply validate_rrset_secure; [done|].
  apply existsb_exists in Ex as (key & Hin & [Q _]%andb_true_iff). rewrite Ek in Hin.
  apply quietly_accepted in Q as (sig & k' & Hs & [<-|[]] & V). by exists sig, key.
Qed.

(** The delegation does not take part in the verdict: a group is secure exactly
    when some key found at its first signature's signer accepts some signature,
    whether or not the parent's DS records match that key, and whatever zone
    the signer is. *)
Theorem validate_group_ignores_ds resolve recs sigs now :
  recs <> [] ->
  (validate_group sha256 resolve recs sigs now = Secure <->
   exists first signer answers, list.head sigs = Some first /\ rrsig_signer first = Some signer /\
     resolve signer RrTypes.DNSKEY = Ok answers /\
     accepted recs sigs (signer_keys signer answers) now) /\
  (forall resolve', (forall n, resolve' n RrTypes.DNSKEY = resolve n RrTypes.DNSKEY) ->
     validate_group sha256 resolve' recs sigs now = validate_group sha256 resolve recs sigs now).
Proof.
  intros Hr. split.
  2: { intros res' H. rewrite !validate_group_keys by done. destruct sigs as [|first sigs']; [done|].
       destruct (rrsig_signer first); [|done]. by rewrite H. }
  rewrite validate_group_keys by done. destruct sigs as [|first sigs'].
  { split; [done|]. by intros (? & ? & ? & [=] & _). }
  cbn [list.head]. destruct (rrsig_signer first) as [signer|] eqn:Es.
  2: { split; [done|]. intros (? & ? & ? & [= <-] & E & _). congruence. }
  destruct (resolve signer RrTypes.DNSKEY) as [answers|e] eqn:Er.
  2: { split; [done|]. intros (? & ? & ? & [= <-] & E & E' & _). congruence. }
  transitivity (accepted recs (first :: sigs') (signer_keys signer answers) now).
  - destruct (signer_keys signer answers) as [|k keys]; [|by apply validate_rrset_secure].
    split; [done|]. by intros (? & ? & _ & [] & _).
  - split; [by intros ?; exists first, signer, answers|].
    intros (? & ? & ? & [= <-] & E & E' & A). congruence.
Qed.
End verdicts.

(** ** Sections and whole answers *)

Section sections.
Context (sha256 : list Z -> list Z) (resolve : Name -> RrType -> result Error (list Rr)).

(** The records of one owner and type, in their order. *)
Definition group_of (records : list Rr) (k : Name * RrType) : list Rr :=
  List.filter (fun r => bool_decide ((name r, rr_type r) = k)) records.

Lemma group_records_get records k :
  bt_get (group_records records) k =
    match group_of records k with [] => None | g => Some g end /\ bt_sorted (group_records records).
Proof.
  unfold group_records, group_of.
  enough (forall (groups : list ((Name * RrType) * list Rr)) recs, bt_sorted groups ->
    bt_sorted (fold_left (fun groups r => bt_insert groups (name r, rr_type r)
        (default [] (bt_get groups (name r, rr_type r)) ++ [r])) recs groups) /\
    bt_get (fold_left (fun groups r => bt_insert groups (name r, rr_type r)
        (default [] (bt_get groups (name r, rr_type r)) ++ [r])) recs groups) k =
    match List.filter (fun r => bool_decide ((name r, rr_type r) = k)) recs with
    | [] => bt_get groups k
    | g => Some (default [] (bt_get groups k) ++ g)
    end) as H.
  { destruct (H [] records ltac:(constructor)) as [S E]. rewrite E. split; [|exact S].
    by destruct (List.filter _ _). }
  intros groups recs. revert groups. induction recs as [|r recs IH]; intros groups Hs; cbn [fold_left List.filter]; [done|].
  set (g1 := bt_insert groups _ _). assert (bt_sorted g1) as Hs1 by (by apply bt_insert_sorted).
  destruct (IH g1 Hs1) as [S E]. split; [exact S|]. rewrite E. unfold g1. rewrite bt_get_insert.
  destruct (decide (k = (name r, rr_type r))) as [->|Hne].
  - rewrite (bool_decide_true (_ = _)) by done.
    destruct (List.filter _ recs); cbn [from_option Datatypes.id]; by rewrite <- ?app_assoc.
  - by rewrite (bool_decide_false (_ = k)) by congruence.
Qed.

Lemma group_records_In records k g :
  In (k, g) (group_records records) <-> g = group_of records k /\ g <> [].
Proof.
  destruct (group_records_get records k) as [E S]. rewrite (bt_In_get _ _ _ S), E.
  destruct (group_of records k); split; [done|by intros [-> ?]|by intros [= <-]|by intros [-> _]].
Qed.

(** What one group contributes: [None] when nothing covers it. *)
Definition group_verdict (rrsigs : list Rr) (now_secs : Z) (g : (Name * RrType) * list Rr) : option Verdict :=
  match covering rrsigs g.1.1 g.1.2 with
  | [] => None
  | covered => Some (validate_group sha256 resolve g.2 covered now_secs)
  end.

Definition count_if {A} (f : A -> bool) (l : list A) : Z := zlen (List.filter f l).

Lemma count_if_cons {A} (f : A -> bool) x l : count_if f (x :: l) = (if f x then 1 else 0) + count_if f l.
Proof. unfold count_if. cbn [List.filter]. destruct (f x); rewrite ?zlen_cons; lia. Qed.

Definition is_some_verdict (o : option Verdict) : bool := match o with Some _ => true | None => false end.

Lemma tally_spec rrsigs now groups n a sec w :
  let gv := group_verdict rrsigs now in
  w <> Secure ->
  let t := fold_left (tally_group sha256 resolve rrsigs now) groups (mkTally n a sec w) in
  signed_groups t = n + count_if (fun g => is_some_verdict (gv g)) groups /\
  authenticated t = a + count_if (fun g => bool_decide (gv g = Some Secure)) groups /\
  all_secure t = sec && forallb (fun g => bool_decide (gv g = Some Secure)) groups /\
  worst t <> Secure /\
  (worst t = Bogus <-> w = Bogus \/ exists g, In g groups /\ gv g = Some Bogus).
Proof.
  cbv zeta. revert n a sec w. induction groups as [|g groups IH]; intros n a sec w Hw; cbn [fold_left].
  { unfold count_if; cbn. rewrite !Z.add_0_r, andb_true_r. conjs; try done. split; [by left|].
    by intros [?|(? & [] & _)]. }
  rewrite !count_if_cons. cbn [forallb].
  assert (exists n1 a1 sec1 w1, tally_group sha256 resolve rrsigs now (mkTally n a sec w) g = mkTally n1 a1 sec1 w1 /\
    n1 = n + (if is_some_verdict (group_verdict rrsigs now g) then 1 else 0) /\
    a1 = a + (if bool_decide (group_verdict rrsigs now g = Some Secure) then 1 else 0) /\
    sec1 = sec && bool_decide (group_verdict rrsigs now g = Some Secure) /\ w1 <> Secure /\
    (w1 = Bogus <-> w = Bogus \/ group_verdict rrsigs now g = Some Bogus)) as
    (n1 & a1 & sec1 & w1 & -> & -> & -> & -> & Hw1 & Hb1).
  { destruct g as [[owner t] group]. unfold tally_group, group_verdict. cbn [fst snd].
    destruct (covering rrsigs owner t) as [|c cs].
    - eexists _, _, _, _. split; [reflexivity|]. cbn [is_some_verdict signed_groups authenticated worst all_secure].
      rewrite bool_decide_false by done. rewrite andb_false_r. conjs; try done; try lia. intuition congruence.
    - destruct (validate_group _ _ _ _ _); eexists _, _, _, _; (split; [reflexivity|]);
        cbn [is_some_verdict signed_groups authenticated worst all_secure];
        try (rewrite bool_decide_true by done); try (rewrite bool_decide_false by done);
        rewrite ?andb_true_r, ?andb_false_r; conjs; try done; try lia;
        try (case_decide); try done; intuition congruence. }
  destruct (IH (n + (if is_some_verdict (group_verdict rrsigs now g) then 1 else 0))
    (a + (if bool_decide (group_verdict rrsigs now g = Some Secure) then 1 else 0))
    (sec && bool_decide (group_verdict rrsigs now g = Some Secure)) w1 Hw1) as (-> & -> & -> & Hwt & Hb).
  conjs; try lia; try done.
  - by rewrite andb_assoc.
  - rewrite Hb, Hb1. split.
    + intros [[?|?]|(g' & ? & ?)]; [by left|right; by exists g; split; [left|]|right; by exists g'; split; [right|]].
    + intros [?|(g' & [<-|?] & ?)]; [by left; left|by left; right|right; by exists g'].
Qed.

Lemma count_if_nonneg {A} (f : A -> bool) l : 0 <= count_if f l.
Proof. apply zlen_nonneg. Qed.

Lemma count_if_pos {A} (f : A -> bool) l : 0 < count_if f l <-> exists x, In x l /\ f x = true.
Proof.
  induction l as [|x l IH].
  - split; [done|]. by intros (? & [] & _).
  - rewrite count_if_cons. pose proof (count_if_nonneg f l). destruct (f x) eqn:E.
    + split; [|lia]. intros _. exists x. by split; [left|].
    + rewrite Z.add_0_l, IH. split; intros (y & Hin & Hy); exists y; (split; [|done]); [by right|].
      destruct Hin as [<-|]; [congruence|done].
Qed.

Lemma count_if_le {A} (f g : A -> bool) l : (forall x, f x = true -> g x = true) ->
  count_if f l <= count_if g l /\
  (count_if g l = count_if f l <-> forall x, In x l -> g x = true -> f x = true).
Proof.
  intros Hfg. induction l as [|x l [Hle IH]]; [by split; [|split; [intros _ ? []|]]|].
  rewrite !count_if_cons. specialize (Hfg x). destruct (f x) eqn:Ef.
  - rewrite Hfg by done. split; [lia|]. split.
    + intros E y [<-|Hy]; [done|]. apply IH; [lia|done].
    + intros H. rewrite (proj2 IH); [done|]. intros y Hy. apply H. by right.
  - destruct (g x) eqn:Eg.
    + split; [lia|]. split; [lia|]. intros H. specialize (H x (or_introl eq_refl) Eg). congruence.
    + split; [lia|]. split.
      * intros E y [<-|Hy]; [congruence|]. apply IH; [lia|done].
      * intros H. rewrite (proj2 IH); [done|]. intros y Hy. apply H. by right.
Qed.

Lemma group_records_nil records : group_records records = [] <-> records = [].
Proof.
  split; [|by intros ->]. intros E. destruct records as [|r records]; [done|]. exfalso.
  destruct (group_records_get (r :: records) (name r, rr_type r)) as [G _]. rewrite E in G. cbn [bt_get] in G.
  destruct (group_of (r :: records) (name r, rr_type r)) as [|x g] eqn:Eg; [|done].
  unfold group_of in Eg. cbn [List.filter] in Eg. by rewrite bool_decide_true in Eg.
Qed.

(** The verdict of a record's own group. *)
Definition record_verdict (records rrsigs : list Rr) (now_secs : Z) (r : Rr) : option Verdict :=
  group_verdict rrsigs now_secs ((name r, rr_type r), group_of records (name r, rr_type r)).

Lemma groups_of_records records (P : (Name * RrType) * list Rr -> Prop) :
  (forall g, In g (group_records records) -> P g) <->
  (forall r, In r records -> P ((name r, rr_type r), group_of records (name r, rr_type r))).
Proof.
  split.
  - intros H r Hr. apply H. apply group_records_In. split; [done|]. intros E.
    assert (In r (group_of records (name r, rr_type r))) as X; [|by rewrite E in X].
    apply filter_In. split; [done|]. by rewrite bool_decide_true.
  - intros H [k g] Hg. apply group_records_In in Hg as [-> Hne].
    destruct (group_of records k) as [|r rs] eqn:E; [done|].
    assert (In r (group_of records k)) as X by (rewrite E; by left).
    unfold group_of in X. apply filter_In in X as [Hr Hk%bool_decide_eq_true]. rewrite <- E, <- Hk. by apply H.
Qed.

Lemma verify_section_spec records rrsigs now :
  let gv := group_verdict rrsigs now in
  let '(v, n, a) := verify_section sha256 resolve records rrsigs now in
  n = count_if (fun g => is_some_verdict (gv g)) (group_records records) /\
  a = count_if (fun g => bool_decide (gv g = Some Secure)) (group_records records) /\
  (v = Secure <-> records <> [] /\ forall r, In r records -> record_verdict records rrsigs now r = Some Secure).
Proof.
  cbv zeta. unfold verify_section. destruct (group_records records) as [|g0 gs] eqn:Eg.
  { apply group_records_nil in Eg. conjs; try done. split; [done|by intros [? _]]. }
  assert (records <> []) as Hne by (intros E%group_records_nil; congruence).
  rewrite <- Eg.
  pose proof (tally_spec rrsigs now (group_records records) 0 0 true Insecure ltac:(done)) as T. cbv zeta in T.
  destruct T as (Tn & Ta & Ts & Tw & _). rewrite Tn, Ta, Ts, !Z.add_0_l, andb_true_l.
  split; [done|]. split; [done|].
  assert (forallb (fun g => bool_decide (group_verdict rrsigs now g = Some Secure)) (group_records records) = true <->
    forall r, In r records -> record_verdict records rrsigs now r = Some Secure) as F.
  { rewrite forallb_forall, groups_of_records. unfold record_verdict.
    split; intros H r Hr; specialize (H r Hr); by apply bool_decide_eq_true in H || apply bool_decide_eq_true. }
  split.
  - intros V. split; [done|]. apply F.
    destruct (forallb _ _); [done|]. rewrite andb_false_r in V.
    destruct (decide (worst _ = Bogus)); [done|]. destruct (_ =? 0); [done|]. done.
  - intros [_ A]. rewrite (proj2 F A), andb_true_r.
    assert (0 < count_if (fun g => is_some_verdict (group_verdict rrsigs now g)) (group_records records)) as P.
    { apply count_if_pos. exists g0. split; [rewrite Eg; by left|].
      assert (In g0 (group_records records)) as Hg by (rewrite Eg; by left).
      pose proof (proj2 (groups_of_records records (fun g => group_verdict rrsigs now g = Some Secure))) as W.
      by rewrite (W A g0 Hg). }
    by rewrite (proj2 (Z.ltb_lt _ _) P).
Qed.

Lemma secure_groups_le records rrsigs now :
  let gv := group_verdict rrsigs now in
  let n := count_if (fun g => is_some_verdict (gv g)) (group_records records) in
  let a := count_if (fun g => bool_decide (gv g = Some Secure)) (group_records records) in
  a <= n /\ (n = a <-> forall g, In g (group_records records) -> gv g = None \/ gv g = Some Secure).
Proof.
  cbv zeta. destruct (count_if_le (fun g => bool_decide (group_verdict rrsigs now g = Some Secure))
    (fun g => is_some_verdict (group_verdict rrsigs now g)) (group_records records)
    ltac:(intros x; cbv beta; by intros ->%bool_decide_eq_true)) as [L E].
  split; [done|]. rewrite E. split; intros H g Hg.
  - specialize (H g Hg). destruct (group_verdict rrsigs now g) as [v|]; [right|by left].
    specialize (H eq_refl). by apply bool_decide_eq_true in H.
  - destruct (H g Hg) as [->| ->]; [done|]. intros _. by apply bool_decide_eq_true.
Qed.

Lemma record_group records r : In r records ->
  In ((name r, rr_type r), group_of records (name r, rr_type r)) (group_records records).
Proof. exact (proj1 (groups_of_records records (fun g => In g (group_records records))) ltac:(done) r). Qed.

(** The authority section authenticates: some group is signed, and every signed
    one is secure. *)
Lemma authority_section_ok records rrsigs now :
  let '(_, n, a) := verify_section sha256 resolve records rrsigs now in
  (0 <? n) && (n =? a) = true <->
  (exists r, In r records /\ record_verdict records rrsigs now r <> None) /\
  (forall r, In r records -> record_verdict records rrsigs now r = None \/
                             record_verdict records rrsigs now r = Some Secure).
Proof.
  pose proof (verify_section_spec records rrsigs now) as B. cbv zeta in B.
  destruct (verify_section _ _ records rrsigs now) as [[v n] a]. destruct B as (-> & -> & _).
  rewrite andb_true_iff, Z.ltb_lt, Z.eqb_eq, count_if_pos. rewrite (proj2 (secure_groups_le records rrsigs now)).
  rewrite (groups_of_records records (fun g => group_verdict rrsigs now g = None \/ group_verdict rrsigs now g = Some Secure)).
  assert (forall g, is_some_verdict (group_verdict rrsigs now g) = true <-> group_verdict rrsigs now g <> None) as S
    by (intros g; destruct (group_verdict _ _ _); cbn; split; done).
  apply and_iff_compat_r. split.
  - intros ([k g] & Hg & Hs). apply group_records_In in Hg as [-> Hne].
    destruct (group_of records k) as [|r rs2] eqn:E; [done|].
    assert (In r (group_of records k)) as X by (rewrite E; by left).
    unfold group_of in X. apply filter_In in X as [Hr Hk%bool_decide_eq_true].
    exists r. split; [done|]. unfold record_verdict. rewrite Hk, E. by apply S.
  - intros (r & Hr & Hs). eexists. split; [by apply record_group|]. by apply S.
Qed.

(** C20: When the authenticated-data bit may be set, exactly. Every answer group must
    be signed and secure, and an anchor must be configured; of the authority
    section only the groups that carry a signature are asked for: an unsigned
    SOA, NSEC or NS group beside a signed one does not prevent the bit. *)
Theorem ad_bit_exact now answers rrsigs authorities anchored :
  let secs := secs_of now in
  let relevant := List.filter authority_relevant authorities in
  let sigs := List.filter is_rrsig authorities in
  permits_authentic_data (verify_chain sha256 resolve now answers rrsigs authorities anchored) = true <->
  anchored = true /\ answers <> [] /\
  (forall r, In r answers -> record_verdict answers rrsigs secs r = Some Secure) /\
  (relevant = [] \/
   (exists r, In r relevant /\ record_verdict relevant sigs secs r <> None) /\
   (forall r, In r relevant -> record_verdict relevant sigs secs r = None \/
                              record_verdict relevant sigs secs r = Some Secure)).
Proof.
  intros secs relevant sigs. unfold verify_chain. fold secs relevant sigs.
  pose proof (verify_section_spec answers rrsigs secs) as A. cbv zeta in A.
  destruct (verify_section _ _ answers rrsigs secs) as [[v n] a]. destruct A as (-> & -> & HV).
  unfold permits_authentic_data. cbn [v_state answer_groups answer_groups_authenticated authority_authenticated].
  rewrite !andb_true_iff, Z.ltb_lt, Z.eqb_eq.
  assert (state_permits_ad (verdict_state v anchored) = true <-> v = Secure /\ anchored = true) as HS.
  { destruct v, anchored; cbn; split; try done; by intros [? ?]. }
  set (auth := match authorities with [] => None | _ => _ end).
  assert (match auth with Some b => b | None => true end = true <->
    relevant = [] \/ (exists r, In r relevant /\ record_verdict relevant sigs secs r <> None) /\
      (forall r, In r relevant -> record_verdict relevant sigs secs r = None \/
                                 record_verdict relevant sigs secs r = Some Secure)) as HA.
  { unfold auth. destruct authorities as [|r0 rs]; [by split; [left|]|].
    destruct relevant as [|r1 rs1] eqn:Er; [by split; [left|]|]. fold sigs.
    pose proof (authority_section_ok (r1 :: rs1) sigs secs) as B.
    destruct (verify_section _ _ (r1 :: rs1) sigs secs) as [[v' n'] a'].
    rewrite B. split; [by right|]. by intros [?|?]. }
  rewrite HS, HA, HV. split; [tauto|]. intros (-> & Hne & Hall & Hau). split; [|done]. split; [split; [done|]|].
  - destruct (secure_groups_le answers rrsigs secs) as [L _].
    eapply Z.lt_le_trans; [|exact L]. destruct answers as [|r rs]; [done|]. apply count_if_pos.
    eexists. split; [apply record_group; by left|]. apply bool_decide_eq_true. by apply Hall; left.
  - apply secure_groups_le. intros g Hg. right.
    exact (proj2 (groups_of_records answers (fun g => group_verdict rrsigs secs g = Some Secure)) Hall g Hg).
Qed.
End sections.

(** A forwarded message's authority signatures are dropped before they are
    looked for, so its authority section never authenticates: the bit is never
    set on a message whose authority holds SOA, NSEC, NSEC3 or NS records. The
    validation slot is left as it was found. *)
Theorem message_authority_never_authentic sha256 resolve busy now resp anchored :
  let '(v, busy') := validate_message_detailed sha256 resolve busy now resp anchored in
  busy' = busy /\ authority_authenticated v <> Some true /\
  (existsb authority_relevant (authorities resp) = true -> permits_authentic_data v = false).
Proof.
  unfold validate_message_detailed. destruct (answers resp) as [|r0 rs] eqn:Ea; [done|].
  unfold with_guard. destruct busy; [done|]. split; [done|].
  set (auth := List.filter (fun r => negb (is_rrsig r)) (authorities resp)).
  set (data := List.filter _ _). set (sg := List.filter is_rrsig _).
  assert (List.filter is_rrsig auth = []) as Es.
  { apply filter_nil_all. intros r [_ Hr]%filter_In. by apply negb_true_iff. }
  unfold verify_chain.
  assert (forall recs now_secs, exists v, verify_section sha256 resolve recs [] now_secs = (v, 0, 0)) as Sec.
  { intros recs now_secs. pose proof (verify_section_spec sha256 resolve recs [] now_secs) as V. cbv zeta in V.
    destruct (verify_section _ _ _ _ _) as [[v n] a]. destruct V as (-> & -> & _). exists v.
    assert (forall f : (Name * RrType) * list Rr -> bool, (forall g, f g = false) ->
      count_if f (group_records recs) = 0) as Z0.
    { intros f Hf. unfold count_if. by rewrite (proj2 (filter_nil_all _ _)). }
    rewrite !Z0; [done|..]; intros g; unfold group_verdict, covering; done. }
  destruct (verify_section _ _ data sg _) as [[v n] a].
  assert (existsb authority_relevant (authorities resp) = true -> List.filter authority_relevant auth <> []) as Hne.
  { intros (r & Hr & Hrel)%existsb_exists E.
    pose proof (proj1 (filter_nil_all _ _) E r) as F. rewrite F in Hrel; [done|].
    apply filter_In. split; [done|]. unfold authority_relevant, is_rrsig in *.
    apply existsb_exists in Hrel as (t & Ht & ->%Z.eqb_eq). by repeat destruct Ht as [<-|Ht]. }
  destruct auth as [|x auth'] eqn:Eauth.
  { split; [done|]. intros H%Hne. done. }
  rewrite Es. destruct (List.filter authority_relevant (x :: auth')) as [|y relevant].
  - split; [done|]. intros H%Hne. done.
  - destruct (Sec (y :: relevant) (secs_of now)) as [v' ->]. cbn [authority_authenticated]. split; [done|].
    intros _. unfold permits_authentic_data. cbn [authority_authenticated Z.ltb Z.compare andb].
    by rewrite andb_false_r.
Qed.

(** ** The signed form of a record set *)

(** RFC 4034 orders a set by the data alone. *)
Definition rdata_octets (r : Rr) : list Z := fst (rdata_to_wire (rdata r) [] None).
Definition rfc_ge (r1 r2 : Rr) : bool := list_le (rdata_octets r1) (rdata_octets r2).

Lemma list_le_app_same p a b : list_le (p ++ a) (p ++ b) = list_le a b.
Proof.
  unfold list_le. f_equal. induction p as [|x p IH]; [done|]. cbn [app list_lt].
  rewrite Z.ltb_irrefl, Z.eqb_refl. exact IH.
Qed.

Lemma map_sort_insert {A B} (f : A -> B) (le1 : A -> A -> bool) (le2 : B -> B -> bool) x l :
  (forall y, In y l -> le2 (f x) (f y) = le1 x y) ->
  map f (sort_insert le1 x l) = sort_insert le2 (f x) (map f l).
Proof.
  induction l as [|y l IH]; intros H; [done|]. cbn [sort_insert map].
  rewrite (H y (or_introl eq_refl)). destruct (le1 x y); [done|]. cbn [map]. f_equal. apply IH.
  intros z Hz. apply H. by right.
Qed.

Lemma map_stable_sort {A B} (f : A -> B) (le1 : A -> A -> bool) (le2 : B -> B -> bool) l :
  (forall x y, In x l -> In y l -> le2 (f x) (f y) = le1 x y) ->
  map f (stable_sort le1 l) = stable_sort le2 (map f l).
Proof.
  induction l as [|x l IH]; intros H; [done|]. cbn [stable_sort map].
  rewrite (map_sort_insert f le1 le2).
  - f_equal. apply IH. intros; apply H; by right.
  - intros y Hy. apply H; [by left|]. right.
    eapply Permutation_in; [|exact Hy]. apply stable_sort_perm.
Qed.

(** The signed octets do not depend on the order in which the records arrived,
    and are those of the records in the order of their data when the data have
    the same length. The two-octet length comes before the data in the sort
    key, so records with data of different lengths are ordered by length first. *)
Theorem canonical_rrset_order records1 records2 ttl0 :
  (Permutation records1 records2 -> canonical_rrset records1 ttl0 = canonical_rrset records2 ttl0) /\
  ((exists n t c l, forall r, In r records1 ->
      name r = n /\ rr_type r = t /\ class r = c /\ zlen (rdata_octets r) = l) ->
   canonical_rrset records1 ttl0 = concat (map (canonical_item ttl0) (stable_sort rfc_ge records1))).
Proof.
  split.
  - intros P. unfold canonical_rrset. f_equal. apply sort_octets_unique. by apply Permutation_map.
  - intros (n & t & c & l & H). unfold canonical_rrset, sort_octets. f_equal. symmetry.
    apply map_stable_sort. intros r1 r2 (E1 & E2 & E3 & E4)%H (F1 & F2 & F3 & F4)%H.
    unfold canonical_item, rfc_ge. fold (rdata_octets r1) (rdata_octets r2).
    rewrite E1, E2, E3, E4, F1, F2, F3, F4. by rewrite list_le_app_same, list_le_app_same.
Qed.

(** ** Concrete chains *)

Definition sample_sha (_ : list Z) : list Z := sample_digest.
Definition sample_zone : Name := of_labels [[99]].
Definition sample_owner : Name := of_labels [[97]; [99]].
Definition sample_dnskey (n : Name) : Rr :=
  mkRecord n RrTypes.DNSKEY 1 60 (RD_Dnskey 257 3 Algorithms.RSASHA256 sample_key).
Definition sample_rrsig (owner signer : Name) (t : RrType) : Rr :=
  mkRecord owner RrTypes.RRSIG 1 60
    (RD_Rrsig t Algorithms.RSASHA256 (label_count owner) 60 2000 1000
       (key_tag 257 3 Algorithms.RSASHA256 sample_key) signer (emsa_sha256 62 sample_digest)).
Definition sample_a : Rr := mkRecord sample_owner RrTypes.A 1 60 (RD_A [10; 0; 0; 1]).
(** A resolver that finds the key, and no DS record at all. *)
Definition sample_resolve (n : Name) (t : RrType) : result Error (list Rr) :=
  if t =? RrTypes.DNSKEY then Ok [sample_dnskey n] else Ok [].

Lemma key_tag_spec_witness :
  key_tag 257 3 8 [1; 2; 3] = (word_sum 0 (dnskey_rdata 257 3 8 [1; 2; 3]) +
    word_sum 0 (dnskey_rdata 257 3 8 [1; 2; 3]) / 65536) mod 65536.
Proof.
  apply key_tag_spec; [unfold is_u16; lia|unfold is_byte; lia|unfold is_byte; lia| |vm_compute; discriminate].
  repeat constructor; unfold is_byte; lia.
Defined.

(** No DS record exists, the signer is an unrelated zone, and the answer is
    secure. *)
Lemma validate_group_ignores_ds_witness :
  let evil := of_labels [[120]] in
  key_is_anchored sample_sha sample_resolve evil (sample_dnskey evil) = false /\
  validate_group sample_sha sample_resolve [sample_a] [sample_rrsig sample_owner evil RrTypes.A] 1500 = Secure.
Proof.
  intros evil. split; [reflexivity|].
  apply (proj1 (validate_group_ignores_ds sample_sha sample_resolve [sample_a]
    [sample_rrsig sample_owner evil RrTypes.A] 1500 ltac:(discriminate))).
  exists (sample_rrsig sample_owner evil RrTypes.A), evil, [sample_dnskey evil].
  split; [reflexivity|]. split; [reflexivity|]. split; [reflexivity|].
  exists (sample_rrsig sample_owner evil RrTypes.A), (sample_dnskey evil).
  split; [by left|]. split; [by left|]. vm_compute. reflexivity.
Defined.

(** A signed name server set beside an unsigned SOA: the bit may be set. *)
Example unsigned_soa_passes :
  let ns := mkRecord sample_zone RrTypes.NS 1 60 (RD_Ns sample_owner) in
  let soa := mkRecord sample_zone RrTypes.SOA 1 60 (RD_Soa sample_owner sample_owner 1 2 3 4 5) in
  permits_authentic_data (verify_chain sample_sha sample_resolve 1500000000000
    [sample_a] [sample_rrsig sample_owner sample_zone RrTypes.A]
    [ns; soa; sample_rrsig sample_zone sample_zone RrTypes.NS] true) = true.
Proof. vm_compute. reflexivity. Qed.

(** Two MX records whose data differ in length: the signed order is not that of
    their data. *)
Example canonical_order_by_length :
  let mx p l := mkRecord sample_owner RrTypes.MX 1 60 (RD_Mx p (of_labels [l])) in
  let r1 := mx 1 [97; 97; 97] in let r2 := mx 2 [98] in
  canonical_rrset [r1; r2] 60 = canonical_item 60 r2 ++ canonical_item 60 r1 /\
  concat (map (canonical_item 60) (stable_sort rfc_ge [r1; r2])) =
    canonical_item 60 r1 ++ canonical_item 60 r2.
Proof. vm_compute. by split. Qed.
