(* ===== verification/QuicRx.v ===== *)
(** * Reassembly and acknowledgements ([src/transports/doq/quic.rs])

    The CRYPTO stream of one packet-number space: fragments in any order, parked
    beyond a gap, drained when the gap fills, consumed a handshake message at a
    time; and the ACK ranges, built and read back.  Offsets come from QUIC
    variable-length integers, which are below 2^62, so that no sum of an offset
    and a length overflows. *)
From Stdlib Require Import Sorted.
From S2P Require Import Prelude Wire Prng Name BTree.

Definition MAX_CHUNK : Z := 1100.
Definition MAX_CRYPTO_BUFFER : Z := 64 * 1024.
Definition MAX_RESPONSE_BUFFER : Z := Z.shiftl 1 20.

Definition checked_sub (a b : Z) : option Z := if b <=? a then Some (a - b) else None.

(** [slice.get(a..).unwrap_or_default()] *)
Definition from_or_empty (l : list Z) (a : Z) : list Z :=
  match get_from l a with Some s => s | None => [] end.

(** ** [CryptoRx] *)

Record CryptoRx := mkCryptoRx {
  rx_buf : list Z;
  rx_start : Z;
  rx_pending : list (Z * list Z) }.

Definition crypto_rx_new : CryptoRx := mkCryptoRx [] 0 [].

Definition buffered (rx : CryptoRx) : Z :=
  zlen (rx_buf rx) + fold_right (fun p n => zlen p.2 + n) 0 (rx_pending rx).

Definition contiguous_end (rx : CryptoRx) : Z := rx_start rx + zlen (rx_buf rx).

(** One round of [drain_pending]'s loop; [None] is its [break]. *)
Definition drain_step (rx : CryptoRx) : option CryptoRx :=
  let contiguous_end := contiguous_end rx in
  match List.find (fun p => p.1 <=? contiguous_end) (rx_pending rx) with
  | None => None
  | Some (off, chunk) =>
      let end_ := off + zlen chunk in
      let buf :=
        if contiguous_end <? end_
        then rx_buf rx ++ from_or_empty chunk (Z.max 0 (contiguous_end - off))
        else rx_buf rx in
      Some (mkCryptoRx buf (rx_start rx) (bt_remove (rx_pending rx) off))
  end.

Fixpoint drain_loop (fuel : nat) (rx : CryptoRx) : option CryptoRx :=
  match fuel with
  | O => None
  | S fuel => match drain_step rx with None => Some rx | Some rx => drain_loop fuel rx end
  end.

(** Each round removes a parked fragment. *)
Definition drain_pending (rx : CryptoRx) : option CryptoRx :=
  drain_loop (S (length (rx_pending rx))) rx.

Definition crypto_overflow : Error := transport "doq CRYPTO buffer overflow".
Definition out_of_fuel : Error := internal "out of fuel".

Definition rx_insert (rx : CryptoRx) (offset : Z) (data : list Z) : result Error CryptoRx :=
  if MAX_CRYPTO_BUFFER <? buffered rx + zlen data then Err crypto_overflow else
  let end_ := offset + zlen data in
  let contiguous_end := contiguous_end rx in
  if end_ <=? rx_start rx then Ok rx else
  if contiguous_end <? offset then
    Ok (mkCryptoRx (rx_buf rx) (rx_start rx)
          (if bt_contains_key (rx_pending rx) offset then rx_pending rx
           else bt_insert (rx_pending rx) offset data))
  else
    let data := if offset <? rx_start rx then from_or_empty data (rx_start rx - offset) else data in
    let present := Z.max 0 (contiguous_end - Z.max offset (rx_start rx)) in
    let buf := if present <? zlen data then rx_buf rx ++ from_or_empty data present else rx_buf rx in
    ok_or (drain_pending (mkCryptoRx buf (rx_start rx) (rx_pending rx))) out_of_fuel.

Definition pop_message (rx : CryptoRx) : option (list Z * CryptoRx) :=
  if zlen (rx_buf rx) <? 4 then None else
  match u32_at (rx_buf rx) 0 with
  | Err _ => None
  | Ok header =>
      let len := Z.land header 0x00ffffff in
      if zlen (rx_buf rx) <? 4 + len then None else
      let take_ := Z.min (4 + len) (zlen (rx_buf rx)) in
      let msg := match get_range (rx_buf rx) 0 take_ with Some s => s | None => [] end in
      rx ← drain_pending (mkCryptoRx (drop (Z.to_nat take_) (rx_buf rx)) (rx_start rx + take_) (rx_pending rx));
      Some (msg, rx)
  end.

(** [while let Some(msg) = pop_message()], the messages in order. *)
Fixpoint pop_all (fuel : nat) (rx : CryptoRx) : list (list Z) * CryptoRx :=
  match fuel with
  | O => ([], rx)
  | S fuel =>
      match pop_message rx with
      | None => ([], rx)
      | Some (msg, rx) => let '(msgs, rx) := pop_all fuel rx in (msg :: msgs, rx)
      end
  end.

(** [on_crypto] up to the handshake: store the fragment, take the messages. *)
Definition crypto_data (rx : CryptoRx) (offset : Z) (data : list Z) : result Error (list (list Z) * CryptoRx) :=
  rx ← rx_insert rx offset data;
  Ok (pop_all (S (Z.to_nat (buffered rx))) rx).

(** ** Acknowledgements *)

(** The descending runs of consecutive numbers, as [(low, len)]. *)
Fixpoint extend_run (largest len : Z) (rest : list Z) : Z * list Z :=
  match rest with
  | next :: rest' =>
      if decide (checked_sub largest len = Some next) then extend_run largest (len + 1) rest' else (len, rest)
  | [] => (len, [])
  end.

Fixpoint ack_runs (fuel : nat) (descending : list Z) : list (Z * Z) :=
  match fuel, descending with
  | S fuel, largest :: rest =>
      let '(len, rest) := extend_run largest 1 rest in
      (largest - (len - 1), len) :: ack_runs fuel rest
  | _, _ => []
  end.

Fixpoint ack_gaps (prev_low : Z) (runs : list (Z * Z)) : list (Z * Z) :=
  match runs with
  | [] => []
  | (low, len) :: runs =>
      let run_largest := low + (len - 1) in
      (Z.max 0 (prev_low - (run_largest + 2)), len - 1) :: ack_gaps low runs
  end.

(** The largest number acknowledged and the ranges of the ACK frame; the argument
    is the ordered set of numbers received. *)
Definition build_ack_frame (pns : list Z) : Z * list (Z * Z) :=
  match ack_runs (length pns) (rev pns) with
  | [] => (0, [(0, 0)])
  | (top_low, top_len) :: runs => (top_low + (top_len - 1), (0, top_len - 1) :: ack_gaps top_low runs)
  end.

(** The intervals [low..=largest] that [on_ack] reads from an ACK frame. *)
Fixpoint acked_intervals (first : bool) (largest_acked prev_low : Z) (ranges : list (Z * Z)) : list (Z * Z) :=
  match ranges with
  | [] => []
  | (gap, range_len) :: ranges =>
      let largest := if first then largest_acked else Z.max 0 (prev_low - (gap + 2)) in
      let low := Z.max 0 (largest - range_len) in
      (low, largest) :: acked_intervals false largest_acked low ranges
  end.

Definition is_acked (largest_acked : Z) (ranges : list (Z * Z)) (pn : Z) : bool :=
  existsb (fun i => (i.1 <=? pn) && (pn <=? i.2))
    (acked_intervals true largest_acked (Z.min (largest_acked + 1) u64_max) ranges).

Definition reassembly_end (offset data_len cap : Z) : option Z :=
  end_ ← checked_add offset data_len;
  if end_ <=? cap then Some end_ else None.

(** ** Reassembly is of the stream *)

Section stream.
(** The octets the peer put on the stream. *)
Context (stream : list Z).

Definition piece (off : Z) (d : list Z) : Prop := get_range stream off (off + zlen d) = Some d.

(** The unread octets and the parked fragments are the stream's. *)
Definition rx_sound (rx : CryptoRx) : Prop :=
  piece (rx_start rx) (rx_buf rx) /\ bt_sorted (rx_pending rx) /\
  Forall (fun p => piece p.1 p.2) (rx_pending rx).

(** Nothing parked touches the unread octets. *)
Definition rx_ok (rx : CryptoRx) : Prop :=
  rx_sound rx /\ Forall (fun p => contiguous_end rx < p.1) (rx_pending rx).

Lemma piece_bounds off d : piece off d -> 0 <= off /\ off + zlen d <= zlen stream.
Proof. intros H%get_range_len. lia. Qed.

Lemma piece_drop off d k : piece off d -> 0 <= k <= zlen d -> piece (off + k) (drop (Z.to_nat k) d).
Proof.
  unfold piece. intros (pre & post & E & Hp & _)%get_range_split Hk. apply get_range_split.
  exists (pre ++ take (Z.to_nat k) d), post. rewrite <- app_assoc, (app_assoc (take _ d)), take_drop.
  split; [done|]. rewrite zlen_app, zlen_take, zlen_drop by lia. lia.
Qed.

Lemma piece_join off d1 d2 : piece off d1 -> piece (off + zlen d1) d2 -> piece off (d1 ++ d2).
Proof.
  unfold piece. rewrite !get_range_split. intros (pre & post & E & Hp & _) (pre2 & post2 & E2 & Hp2 & _).
  exists pre, post2. split; [|split; [done|by rewrite zlen_app; lia]].
  rewrite E in E2 |- *. assert (pre2 = pre ++ d1) as ->.
  { rewrite app_assoc in E2. apply (f_equal (take (length pre2))) in E2 as Et.
    rewrite take_app_length in Et. rewrite <- Et.
    replace (length pre2) with (length (pre ++ d1)); [by rewrite take_app_length|].
    rewrite length_app. unfold zlen in *. lia. }
  rewrite E2. by rewrite <- !app_assoc.
Qed.

Lemma from_or_empty_drop d k : 0 <= k <= zlen d -> from_or_empty d k = drop (Z.to_nat k) d.
Proof.
  intros Hk. unfold from_or_empty, get_from, get_range.
  rewrite (proj2 (Z.leb_le 0 k)), (proj2 (Z.leb_le k (zlen d))), Z.leb_refl by lia. cbn [andb].
  rewrite firstn_all2; [done|]. rewrite length_skipn. unfold zlen in *. lia.
Qed.

(** Appending what a fragment adds behind the unread octets. *)
Lemma piece_extend start buf off d :
  piece start buf -> piece off d -> off <= start + zlen buf < off + zlen d ->
  let k := start + zlen buf - off in
  piece start (buf ++ drop (Z.to_nat k) d) /\ start + zlen (buf ++ drop (Z.to_nat k) d) = off + zlen d.
Proof.
  intros H1 H2 Hk k. split.
  - apply piece_join; [done|]. pose proof (piece_drop off d k H2) as P.
    replace (off + k) with (start + zlen buf) in P by (unfold k; lia). apply P. unfold k. lia.
  - rewrite zlen_app, zlen_drop by (unfold k; lia). unfold k. lia.
Qed.

(** ** Draining *)

Definition parked (rx : CryptoRx) : Z := fold_right (fun p n => zlen p.2 + n) 0 (rx_pending rx).

Lemma bt_remove_parked (m : list (Z * list Z)) off chunk : bt_sorted m -> In (off, chunk) m ->
  fold_right (fun p n => zlen p.2 + n) 0 (bt_remove m off) + zlen chunk =
  fold_right (fun p n => zlen p.2 + n) 0 m.
Proof.
  induction m as [|[k v] m IH]; intros Hs Hin; [done|]. apply bt_sorted_cons in Hs as [HF Hs].
  unfold bt_remove. cbn [List.filter fst].
  destruct Hin as [[= -> ->]|Hin].
  - rewrite bool_decide_true by done. cbn [negb].
    change (List.filter _ m) with (bt_remove m off). rewrite bt_remove_absent; [cbn; lia|].
    apply bt_get_None. intros Hi. apply in_map_iff in Hi as ([k' v'] & E & Hi). cbn in E. subst k'.
    rewrite List.Forall_forall in HF. specialize (HF _ Hi). cbn in HF. by rewrite klt_irrefl in HF.
  - rewrite List.Forall_forall in HF. specialize (HF _ Hin). cbn in HF. apply klt_ne in HF.
    rewrite bool_decide_false by done. cbn [negb fold_right snd]. unfold bt_remove in IH. specialize (IH Hs Hin). lia.
Qed.

(** What draining does to a state: it only moves parked octets next to the unread
    ones, in place. *)
Definition drained_from (rx rx' : CryptoRx) : Prop :=
  rx_sound rx' /\ rx_start rx' = rx_start rx /\ contiguous_end rx <= contiguous_end rx' /\
  buffered rx' <= buffered rx /\ incl (rx_pending rx') (rx_pending rx) /\
  (forall p, In p (rx_pending rx) -> In p (rx_pending rx') \/ p.1 + zlen p.2 <= contiguous_end rx').

Lemma drained_refl rx : rx_sound rx -> drained_from rx rx.
Proof. intros H. split; [done|]. split; [done|]. split; [lia|]. split; [lia|]. split; [apply incl_refl|]. auto. Qed.

Lemma drained_trans rx1 rx2 rx3 : drained_from rx1 rx2 -> drained_from rx2 rx3 -> drained_from rx1 rx3.
Proof.
  intros (_ & E1 & C1 & B1 & I1 & P1) (S2 & E2 & C2 & B2 & I2 & P2).
  split; [done|]. split; [congruence|]. split; [lia|]. split; [lia|].
  split; [intros x Hx; auto|]. intros p Hp. destruct (P1 p Hp) as [H|H]; [by apply P2|right; lia].
Qed.

Lemma drain_step_spec rx : rx_sound rx ->
  match drain_step rx with
  | None => Forall (fun p => contiguous_end rx < p.1) (rx_pending rx)
  | Some rx' => drained_from rx rx' /\ (length (rx_pending rx') < length (rx_pending rx))%nat
  end.
Proof.
  intros (Hb & Hs & Hp). unfold drain_step.
  destruct (List.find _ (rx_pending rx)) as [[off chunk]|] eqn:Ef.
  2: { rewrite List.Forall_forall. intros p Hin. pose proof (List.find_none _ _ Ef p Hin) as X. cbn in X. lia. }
  apply List.find_some in Ef as [Hin Hoff]. cbn [fst] in Hoff. bools.
  pose proof (proj1 (List.Forall_forall _ _) Hp _ Hin) as Hc. cbn [fst snd] in Hc.
  set (rx' := mkCryptoRx _ _ _).
  assert (bt_get (rx_pending rx) off = Some chunk) as Hget by (by apply bt_In_get).
  assert (length (bt_remove (rx_pending rx) off) < length (rx_pending rx))%nat as Hlen.
  { pose proof (zlen_bt_remove (rx_pending rx) off Hs) as Z. unfold bt_contains_key in Z. rewrite Hget in Z.
    unfold zlen in Z. destruct (rx_pending rx); [done|]. cbn [length] in *. lia. }
  pose proof (bt_remove_parked (rx_pending rx) off chunk Hs Hin) as Hpk.
  assert (forall p, In p (rx_pending rx) -> In p (bt_remove (rx_pending rx) off) \/ p = (off, chunk)) as Hcase.
  { intros [k v] Hk. destruct (decide (k = off)) as [->|Hne].
    - right. apply (bt_In_get _ _ _ Hs) in Hk. congruence.
    - left. apply filter_In. split; [done|]. cbn. by rewrite bool_decide_false. }
  split; [|exact Hlen]. unfold contiguous_end in Hoff.
  destruct (contiguous_end rx <? off + zlen chunk) eqn:E; bools; unfold contiguous_end in E.
  - destruct (piece_extend (rx_start rx) (rx_buf rx) off chunk Hb Hc ltac:(lia)) as [Pe Ze]. cbv zeta in Pe, Ze.
    assert (rx' = mkCryptoRx (rx_buf rx ++ drop (Z.to_nat (rx_start rx + zlen (rx_buf rx) - off)) chunk) (rx_start rx)
      (bt_remove (rx_pending rx) off)) as ->.
    { unfold rx'. f_equal. f_equal. unfold contiguous_end. rewrite from_or_empty_drop by lia. f_equal. lia. }
    split; [|split; [done|split; [|split; [|split]]]].
    + split; [exact Pe|]. cbn [rx_pending]. split; [by apply filter_sorted|].
      rewrite List.Forall_forall in Hp |- *. intros p [Hq _]%filter_In. by apply Hp.
    + unfold contiguous_end. cbn [rx_start rx_buf]. lia.
    + unfold buffered. cbn [rx_buf rx_pending]. rewrite zlen_app, zlen_drop by lia. lia.
    + cbn [rx_pending]. by intros p [Hq _]%filter_In.
    + intros p Hq. cbn [rx_pending]. destruct (Hcase p Hq) as [?| ->]; [by left|right].
      unfold contiguous_end. cbn [rx_start rx_buf fst snd]. lia.
  - unfold rx'. split; [|split; [done|split; [unfold contiguous_end; cbn [rx_start rx_buf]; lia|split; [|split]]]].
    + split; [done|]. cbn [rx_pending]. split; [by apply filter_sorted|].
      rewrite List.Forall_forall in Hp |- *. intros p [Hq _]%filter_In. by apply Hp.
    + unfold buffered. cbn [rx_buf rx_pending]. pose proof (zlen_nonneg chunk). lia.
    + cbn [rx_pending]. by intros p [Hq _]%filter_In.
    + intros p Hq. cbn [rx_pending]. destruct (Hcase p Hq) as [?| ->]; [by left|right]. cbn [fst snd].
      unfold contiguous_end. cbn [rx_start rx_buf]. lia.
Qed.

Lemma drain_loop_spec fuel rx : rx_sound rx -> (length (rx_pending rx) < fuel)%nat ->
  exists rx', drain_loop fuel rx = Some rx' /\ drained_from rx rx' /\ rx_ok rx'.
Proof.
  revert rx. induction fuel as [|fuel IH]; intros rx Hs Hf; [lia|]. cbn [drain_loop].
  pose proof (drain_step_spec rx Hs) as D. destruct (drain_step rx) as [rx1|].
  - destruct D as [D L]. destruct (IH rx1) as (rx' & E & D' & Ok); [apply D|lia|].
    exists rx'. split; [done|]. split; [by eapply drained_trans|done].
  - exists rx. split; [done|]. split; [by apply drained_refl|by split].
Qed.

Lemma drain_pending_spec rx : rx_sound rx ->
  exists rx', drain_pending rx = Some rx' /\ drained_from rx rx' /\ rx_ok rx'.
Proof. intros Hs. apply drain_loop_spec; [done|lia]. Qed.

(** ** Inserting and popping *)

(** A fragment of the stream is always taken, unless the buffer is full; the
    state stays the stream's, and a fragment that reaches the unread octets
    leaves no gap before its end. *)
Lemma rx_insert_spec rx off d : rx_ok rx -> piece off d ->
  if MAX_CRYPTO_BUFFER <? buffered rx + zlen d then rx_insert rx off d = Err crypto_overflow
  else exists rx', rx_insert rx off d = Ok rx' /\ rx_ok rx' /\ rx_start rx' = rx_start rx /\
    contiguous_end rx <= contiguous_end rx' /\ buffered rx' <= buffered rx + zlen d /\
    (forall p, In p (rx_pending rx) -> In p (rx_pending rx') \/ p.1 + zlen p.2 <= contiguous_end rx') /\
    (off <= contiguous_end rx -> off + zlen d <= contiguous_end rx').
Proof.
  intros [(Hb & Hs & Hp) Hpark] Hd. unfold rx_insert.
  destruct (MAX_CRYPTO_BUFFER <? buffered rx + zlen d) eqn:Em; [done|].
  pose proof (zlen_nonneg d) as Hz. pose proof (zlen_nonneg (rx_buf rx)) as Hzb.
  assert (rx_ok rx) as Ok by (by split; [split|]).
  destruct (off + zlen d <=? rx_start rx) eqn:E1; bools.
  { exists rx. split; [done|]. split; [done|]. split; [done|]. split; [lia|]. split; [lia|].
    split; [by left|]. unfold contiguous_end. lia. }
  destruct (contiguous_end rx <? off) eqn:E2; bools.
  { eexists. split; [reflexivity|]. destruct (bt_contains_key (rx_pending rx) off) eqn:Ec.
    - replace (mkCryptoRx (rx_buf rx) (rx_start rx) (rx_pending rx)) with rx by (by destruct rx).
      split; [done|]. split; [done|]. split; [lia|]. split; [lia|]. split; [by left|lia].
    - cbn [rx_start rx_pending]. change (contiguous_end (mkCryptoRx (rx_buf rx) (rx_start rx)
        (bt_insert (rx_pending rx) off d))) with (contiguous_end rx).
      assert (forall p, In p (bt_insert (rx_pending rx) off d) -> p = (off, d) \/ In p (rx_pending rx)) as Hin.
      { intros [k v] Hk. apply (bt_In_get _ _ _ (bt_insert_sorted _ _ _ Hs)) in Hk.
        rewrite bt_get_insert in Hk. destruct (decide (k = off)) as [->|]; [left; congruence|right].
        by apply bt_In_get. }
      split; [split; [split; [done|split]|]|split; [done|split; [lia|split; [|split; [|lia]]]]].
      + by apply bt_insert_sorted.
      + rewrite List.Forall_forall in Hp |- *. intros p [->|Hq]%Hin; [done|by apply Hp].
      + change (contiguous_end (mkCryptoRx (rx_buf rx) (rx_start rx) (bt_insert (rx_pending rx) off d)))
          with (contiguous_end rx). cbn [rx_pending].
        rewrite List.Forall_forall in Hpark |- *. intros p [->|Hq]%Hin; [done|by apply Hpark].
      + unfold buffered. cbn [rx_buf rx_pending].
        pose proof (bt_remove_parked (bt_insert (rx_pending rx) off d) off d (bt_insert_sorted _ _ _ Hs)) as R.
        assert (bt_remove (bt_insert (rx_pending rx) off d) off = rx_pending rx) as Er.
        { apply bt_ext; [by apply filter_sorted, bt_insert_sorted|done|]. intros k.
          rewrite bt_get_remove, bt_get_insert by (by apply bt_insert_sorted). destruct (decide (k = off)) as [->|]; [|done].
          unfold bt_contains_key in Ec. by destruct (bt_get _ off). }
        rewrite Er in R. enough (In (off, d) (bt_insert (rx_pending rx) off d)) by (specialize (R H); lia).
        apply bt_In_get; [by apply bt_insert_sorted|]. rewrite bt_get_insert. by rewrite decide_True.
      + intros [k v] Hk. left. apply bt_In_get; [by apply bt_insert_sorted|]. rewrite bt_get_insert.
        apply (bt_In_get _ _ _ Hs) in Hk. rewrite decide_False; [done|]. intros ->.
        unfold bt_contains_key in Ec. by rewrite Hk in Ec. }
  set (data := if off <? rx_start rx then _ else d). set (off' := Z.max off (rx_start rx)).
  assert (piece off' data /\ off' + zlen data = off + zlen d) as [Hd' Hlen].
  { unfold data, off'. destruct (off <? rx_start rx) eqn:E3; bools.
    - rewrite from_or_empty_drop by lia. pose proof (piece_drop off d (rx_start rx - off) Hd ltac:(lia)) as P.
      rewrite zlen_drop by lia. replace (off + (rx_start rx - off)) with (Z.max off (rx_start rx)) in P by lia.
      split; [exact P|lia].
    - rewrite Z.max_l by lia. by split. }
  assert (off' <= contiguous_end rx) as Ho by (unfold off', contiguous_end in *; lia).
  replace (Z.max 0 (contiguous_end rx - off')) with (contiguous_end rx - off') by lia.
  set (buf := if contiguous_end rx - off' <? zlen data then _ else rx_buf rx).
  assert (piece (rx_start rx) buf /\ rx_start rx + zlen buf = Z.max (contiguous_end rx) (off + zlen d)) as [Hb' Hz'].
  { unfold buf. destruct (contiguous_end rx - off' <? zlen data) eqn:E4; bools; unfold contiguous_end in *.
    - rewrite from_or_empty_drop by lia.
      destruct (piece_extend (rx_start rx) (rx_buf rx) off' data Hb Hd' ltac:(lia)) as [P Z]. cbv zeta in P, Z.
      split; [exact P|lia].
    - split; [done|lia]. }
  clearbody data off' buf.
  destruct (drain_pending_spec (mkCryptoRx buf (rx_start rx) (rx_pending rx))) as (rx' & E & (S' & Est & Hce & Hbuf & _ & Hin) & Ok').
  { by split; [|split]. }
  rewrite E. exists rx'. cbn [ok_or]. unfold contiguous_end in Hce at 1. cbn [rx_start rx_buf rx_pending] in *.
  split; [done|]. split; [done|]. split; [done|]. split; [unfold contiguous_end in *; lia|].
  split; [|split; [exact Hin|unfold contiguous_end in *; lia]].
  etrans; [exact Hbuf|]. unfold buffered, contiguous_end in *. cbn [rx_buf rx_pending]. lia.
Qed.

(** A popped message is the next handshake message of the stream: a type octet, a
    24-bit length and as many octets. *)
Lemma pop_message_spec rx : rx_ok rx -> bytes (rx_buf rx) ->
  match pop_message rx with
  | None => zlen (rx_buf rx) < 4 \/
      exists t b2 b1 b0 rest, rx_buf rx = t :: b2 :: b1 :: b0 :: rest /\
        zlen rest < b2 * 65536 + b1 * 256 + b0
  | Some (msg, rx') => rx_ok rx' /\ piece (rx_start rx) msg /\
      rx_start rx' = rx_start rx + zlen msg /\ contiguous_end rx <= contiguous_end rx' /\
      buffered rx' < buffered rx /\
      exists t b2 b1 b0 body, msg = t :: b2 :: b1 :: b0 :: body /\ zlen body = b2 * 65536 + b1 * 256 + b0
  end.
Proof.
  intros [(Hb & Hs & Hp) Hpark] Hby. unfold pop_message. destruct (zlen (rx_buf rx) <? 4) eqn:E4; bools; [by left|].
  destruct (rx_buf rx) as [|t [|b2 [|b1 [|b0 rest]]]] eqn:Eb;
    try (exfalso; rewrite ?zlen_cons in E4; change (zlen (@nil Z)) with 0 in E4; lia).
  rewrite !List.Forall_cons_iff in Hby. destruct Hby as (Bt & B2 & B1 & B0 & Br). unfold is_byte in *.
  assert (zlen (t :: b2 :: b1 :: b0 :: rest) = 4 + zlen rest) as Hz by (rewrite !zlen_cons; lia).
  pose proof (zlen_nonneg rest) as Hr.
  assert (u32_at (t :: b2 :: b1 :: b0 :: rest) 0 = Ok (be_val [t; b2; b1; b0])) as ->.
  { unfold u32_at, array_at, slice_at. cbn [checked_add]. change (checked_add 0 4) with (Some 4).
    cbn [ok_or mbind result_bind].
    assert (get_range (t :: b2 :: b1 :: b0 :: rest) 0 4 = Some [t; b2; b1; b0]) as ->; [|done].
    by apply (get_range_middle [] [t; b2; b1; b0] rest). }
  assert (Z.land (be_val [t; b2; b1; b0]) 0x00ffffff = b2 * 65536 + b1 * 256 + b0) as ->.
  { change 0x00ffffff with (Z.ones 24). rewrite Z.land_ones by lia. unfold be_val. cbn [fold_left].
    replace ((((0 * 256 + t) * 256 + b2) * 256 + b1) * 256 + b0)
      with (b2 * 65536 + b1 * 256 + b0 + t * 2 ^ 24) by lia.
    rewrite Z_mod_plus_full. apply Z.mod_small. lia. }
  set (len := b2 * 65536 + b1 * 256 + b0). rewrite Hz.
  destruct (4 + zlen rest <? 4 + len) eqn:E5; bools.
  { right. exists t, b2, b1, b0, rest. split; [done|]. unfold len in E5. lia. }
  replace (Z.min (4 + len) (4 + zlen rest)) with (4 + len) by lia.
  assert (0 <= len) as Hlen by (unfold len; lia).
  assert (get_range (t :: b2 :: b1 :: b0 :: rest) 0 (4 + len) =
    Some (t :: b2 :: b1 :: b0 :: take (Z.to_nat len) rest)) as Hg.
  { apply (get_range_split _ 0 (4 + len)). exists [], (drop (Z.to_nat len) rest). split; [|split; [done|]].
    - cbn [app]. by rewrite take_drop.
    - rewrite !zlen_cons, zlen_take by lia. lia. }
  rewrite Hg. set (msg := t :: b2 :: b1 :: b0 :: take (Z.to_nat len) rest).
  assert (zlen msg = 4 + len) as Hm by (unfold msg; rewrite !zlen_cons, zlen_take by lia; lia).
  assert (rx_buf rx = msg ++ drop (Z.to_nat len) rest) as Esplit
    by (unfold msg; cbn [app]; by rewrite take_drop).
  assert (drop (Z.to_nat (4 + len)) (t :: b2 :: b1 :: b0 :: rest) = drop (Z.to_nat len) rest) as ->.
  { replace (Z.to_nat (4 + len)) with (S (S (S (S (Z.to_nat len))))) by lia. done. }
  assert (piece (rx_start rx) msg /\ piece (rx_start rx + (4 + len)) (drop (Z.to_nat len) rest)) as [Pm Pd].
  { rewrite <- Hm. rewrite <- Eb in Hb. rewrite Esplit in Hb. unfold piece in Hb |- *.
    apply get_range_split in Hb as (pre & post & E & Hp0 & _). split; apply get_range_split.
    - exists pre, (drop (Z.to_nat len) rest ++ post). rewrite <- app_assoc in E. by repeat split.
    - exists (pre ++ msg), post. rewrite <- !app_assoc in *. split; [done|]. rewrite zlen_app. split; lia. }
  destruct (drain_pending_spec (mkCryptoRx (drop (Z.to_nat len) rest) (rx_start rx + (4 + len)) (rx_pending rx)))
    as (rx' & E & (S' & Est & Hce & Hbuf & _ & _) & Ok').
  { by split; [|split]. }
  rewrite E. cbn [mbind option_bind]. cbn [rx_start] in Est.
  split; [done|]. split; [done|]. split; [lia|].
  unfold contiguous_end in Hce at 1. cbn [rx_start rx_buf] in Hce. rewrite zlen_drop in Hce by lia.
  split; [unfold contiguous_end at 1; rewrite Eb, Hz; lia|]. split.
  - unfold buffered in *. cbn [rx_buf rx_pending] in Hbuf. rewrite zlen_drop in Hbuf by lia. rewrite Eb, Hz. lia.
  - exists t, b2, b1, b0, (take (Z.to_nat len) rest). split; [done|]. rewrite zlen_take by lia. done.
Qed.

(** ** A whole delivery *)

(** A whole handshake message, and the beginning of one. *)
Definition handshake_message (msg : list Z) : Prop :=
  exists t b2 b1 b0 body, msg = t :: b2 :: b1 :: b0 :: body /\ zlen body = b2 * 65536 + b1 * 256 + b0.
Definition incomplete (buf : list Z) : Prop :=
  zlen buf < 4 \/ exists t b2 b1 b0 rest, buf = t :: b2 :: b1 :: b0 :: rest /\
    zlen rest < b2 * 65536 + b1 * 256 + b0.

Lemma piece_bytes off d : bytes stream -> piece off d -> bytes d.
Proof. intros Hb. by apply get_range_Forall. Qed.

Lemma fold_parked_nonneg (m : list (Z * list Z)) : 0 <= fold_right (fun p n => zlen p.2 + n) 0 m.
Proof. induction m as [|[k v] m IH]; cbn [fold_right snd]; [lia|]. pose proof (zlen_nonneg v). lia. Qed.

Lemma buffered_nonneg rx : 0 <= buffered rx.
Proof. unfold buffered. pose proof (zlen_nonneg (rx_buf rx)). pose proof (fold_parked_nonneg (rx_pending rx)). lia. Qed.

Lemma pop_all_spec fuel rx : bytes stream -> rx_ok rx -> (Z.to_nat (buffered rx) < fuel)%nat ->
  let '(msgs, rx') := pop_all fuel rx in
  rx_ok rx' /\ incomplete (rx_buf rx') /\ Forall handshake_message msgs /\
  piece (rx_start rx) (concat msgs) /\ rx_start rx' = rx_start rx + zlen (concat msgs) /\
  contiguous_end rx <= contiguous_end rx' /\ buffered rx' <= buffered rx.
Proof.
  intros Hby. revert rx. induction fuel as [|fuel IH]; intros rx Hok Hf; [lia|]. cbn [pop_all].
  pose proof Hok as [(Hb & _ & _) _].
  pose proof (pop_message_spec rx Hok (piece_bytes _ _ Hby Hb)) as P.
  destruct (pop_message rx) as [[msg rx1]|].
  - destruct P as (Ok1 & Pm & Es & Ce & Bf & Hm).
    pose proof (buffered_nonneg rx1) as Hnn.
    specialize (IH rx1 Ok1 ltac:(lia)). destruct (pop_all fuel rx1) as [msgs rx'].
    destruct IH as (Ok' & Inc & Fa & Pc & Es' & Ce' & Bf'). cbn [concat]. rewrite zlen_app.
    split; [done|]. split; [done|]. split; [by constructor|].
    split; [apply piece_join; [done|]; by rewrite <- Es|]. split; [lia|]. split; lia.
  - split; [done|]. split; [exact P|]. split; [constructor|]. cbn [concat].
    split; [|split; [change (zlen (@nil Z)) with 0; lia|lia]].
    unfold piece. change (zlen (@nil Z)) with 0. rewrite Z.add_0_r. apply piece_bounds in Hb.
    pose proof (zlen_nonneg (rx_buf rx)). apply get_range_empty. lia.
Qed.
End stream.

(** Fragments as they arrive, with the messages handed to the handshake. *)
Fixpoint deliver (rx : CryptoRx) (frags : list (Z * list Z)) : result Error (list (list Z) * CryptoRx) :=
  match frags with
  | [] => Ok ([], rx)
  | (off, d) :: frags =>
      '(msgs, rx) ← crypto_data rx off d;
      '(more, rx) ← deliver rx frags;
      Ok (msgs ++ more, rx)
  end.

Lemma crypto_data_spec stream rx off d : bytes stream -> rx_ok stream rx -> piece stream off d ->
  match crypto_data rx off d with
  | Err e => e = crypto_overflow /\ MAX_CRYPTO_BUFFER < buffered rx + zlen d
  | Ok (msgs, rx') => rx_ok stream rx' /\ incomplete (rx_buf rx') /\ Forall handshake_message msgs /\
      piece stream (rx_start rx) (concat msgs) /\ rx_start rx' = rx_start rx + zlen (concat msgs) /\
      contiguous_end rx <= contiguous_end rx' /\ buffered rx' <= MAX_CRYPTO_BUFFER /\
      (off <= contiguous_end rx -> off + zlen d <= contiguous_end rx')
  end.
Proof.
  intros Hby Hok Hd. unfold crypto_data. pose proof (rx_insert_spec stream rx off d Hok Hd) as I.
  destruct (MAX_CRYPTO_BUFFER <? buffered rx + zlen d) eqn:Em; bools.
  - rewrite I. by split.
  - destruct I as (rx1 & -> & Ok1 & Es1 & Ce1 & Bf1 & _ & Cov). cbn [mbind result_bind].
    pose proof (pop_all_spec stream (S (Z.to_nat (buffered rx1))) rx1 Hby Ok1 ltac:(lia)) as P.
    destruct (pop_all _ rx1) as [msgs rx']. destruct P as (Ok' & Inc & Fa & Pc & Es' & Ce' & Bf').
    rewrite Es1 in *. conjs; try done; try lia.
Qed.

Lemma rx_ok_new stream : rx_ok stream crypto_rx_new.
Proof.
  split; [|constructor]. split; [|split; constructor].
  change (get_range stream 0 0 = Some []). apply get_range_empty. pose proof (zlen_nonneg stream). lia.
Qed.



(** ** The ACK round trip *)

Abbreviation descending := (Sorted.StronglySorted (fun a b : Z => b < a)).

Lemma extend_run_spec largest len rest :
  1 <= len -> descending rest -> Forall (fun x => 0 <= x <= largest - len) rest ->
  let '(len', rest') := extend_run largest len rest in
  len <= len' /\ descending rest' /\ Forall (fun x => 0 <= x <= largest - len' - 1) rest' /\
  (length rest' <= length rest)%nat /\ (len < len' -> 0 <= largest - (len' - 1)) /\
  (forall x, In x rest <-> In x rest' \/ largest - len' < x <= largest - len).
Proof.
  revert len. induction rest as [|n rest IH]; intros len Hl Hd Hb; cbn [extend_run].
  - split; [lia|]. split; [constructor|]. split; [constructor|]. split; [done|]. split; [lia|].
    intros x. split; [by intros []|intros [[]|?]; lia].
  - inversion Hd as [|? ? Hd' Hn]; subst. apply List.Forall_cons_iff in Hb as [Hn0 Hb].
    unfold checked_sub. destruct (len <=? largest) eqn:E; bools; [|lia].
    destruct (decide (Some (largest - len) = Some n)) as [[= <-]|Hne].
    + rewrite List.Forall_forall in Hn.
      assert (Forall (fun x => 0 <= x <= largest - (len + 1)) rest) as Hb'.
      { rewrite List.Forall_forall in Hb |- *. intros x Hx. specialize (Hn x Hx). specialize (Hb x Hx). cbn in Hn. lia. }
      specialize (IH (len + 1) ltac:(lia) Hd' Hb'). destruct (extend_run _ _ _) as [len' rest'].
      destruct IH as (L & D & F & Le & Nn & I). split; [lia|]. split; [done|]. split; [done|].
      split; [cbn; lia|]. split; [intros _; destruct (Z.eq_dec (len + 1) len') as [<-|]; [lia|apply Nn; lia]|].
      intros x. cbn [In]. rewrite I. split; [intros [<-|[?|?]]; [right; lia|by left|right; lia]|].
      intros [?|?]; [by right; left|]. destruct (Z.eq_dec x (largest - len)); [by left|right; right; lia].
    + split; [lia|]. split; [done|]. split; [|split; [done|split; [lia|]]].
      * rewrite List.Forall_forall in Hn, Hb. constructor.
        -- assert (n <> largest - len) by congruence. lia.
        -- rewrite List.Forall_forall. intros x Hx. specialize (Hn x Hx). specialize (Hb x Hx). cbn in Hn.
           assert (n <> largest - len) by congruence. lia.
      * intros x. split; [by left|intros [?|?]; [done|lia]].
Qed.

(** Runs below [top], each separated from the one above by at least one number. *)
Inductive runs_ok : Z -> list (Z * Z) -> Prop :=
  | runs_nil top : runs_ok top []
  | runs_cons top low len runs :
      0 <= low -> 1 <= len -> low + len <= top -> runs_ok (low - 1) runs -> runs_ok top ((low, len) :: runs).

Definition in_runs (pn : Z) (runs : list (Z * Z)) : Prop :=
  exists low len, In (low, len) runs /\ low <= pn < low + len.

Lemma ack_runs_spec fuel l top :
  (length l <= fuel)%nat -> descending l -> Forall (fun x => 0 <= x < top) l ->
  runs_ok top (ack_runs fuel l) /\ (forall x, In x l <-> in_runs x (ack_runs fuel l)) /\
  (l <> [] -> ack_runs fuel l <> []).
Proof.
  revert l top. induction fuel as [|fuel IH]; intros l top Hf Hd Hb.
  { destruct l; [|cbn in Hf; lia]. split; [constructor|]. split; [|done].
    intros x. split; [by intros []|by intros (? & ? & [] & _)]. }
  destruct l as [|n l].
  { split; [constructor|]. split; [|done]. intros x. split; [by intros []|by intros (? & ? & [] & _)]. }
  cbn [ack_runs]. inversion Hd as [|? ? Hd' Hn]; subst. apply List.Forall_cons_iff in Hb as [Hn0 Hb].
  assert (Forall (fun x => 0 <= x <= n - 1) l) as Hb'.
  { rewrite List.Forall_forall in Hn, Hb |- *. intros x Hx. specialize (Hn x Hx). specialize (Hb x Hx). cbn in Hn. lia. }
  pose proof (extend_run_spec n 1 l ltac:(lia) Hd' Hb') as X. destruct (extend_run n 1 l) as [len rest].
  destruct X as (L & D & F & Le & Nn & I). cbn in Hf.
  destruct (IH rest (n - (len - 1) - 1) ltac:(lia) D) as (R & C & _).
  { eapply List.Forall_impl; [|exact F]. cbn. intros. lia. }
  split; [|split; [|done]].
  - constructor; [destruct (Z.eq_dec len 1) as [->|]; [lia|apply Nn; lia]|lia|lia|exact R].
  - intros x. cbn [In]. rewrite I, C. unfold in_runs. cbn [In]. split.
    + intros [<-|[(lo & le & Hin & Hx)|Hx]].
      * exists (n - (len - 1)), len. split; [by left|lia].
      * exists lo, le. split; [by right|done].
      * exists (n - (len - 1)), len. split; [by left|lia].
    + intros (lo & le & [[= <- <-]|Hin] & Hx).
      * destruct (Z.eq_dec x n); [by left|right; right; lia].
      * right; left. by exists lo, le.
Qed.

Lemma acked_gaps prev_low runs la : runs_ok (prev_low - 1) runs ->
  acked_intervals false la prev_low (ack_gaps prev_low runs) = map (fun r => (r.1, r.1 + (r.2 - 1))) runs.
Proof.
  remember (prev_low - 1) as top eqn:Et. intros R. revert prev_low Et.
  induction R as [|top low len runs Hlow Hlen Htop R IH]; intros prev_low ->; [done|].
  cbn [ack_gaps acked_intervals map fst snd].
  replace (Z.max 0 (prev_low - (Z.max 0 (prev_low - (low + (len - 1) + 2)) + 2))) with (low + (len - 1)) by lia.
  replace (Z.max 0 (low + (len - 1) - (len - 1))) with low by lia. f_equal. by apply IH.
Qed.

(** An ACK frame built from a set of packet numbers acknowledges exactly that
    set, the largest first. Asked to acknowledge nothing, it acknowledges packet
    zero. *)
Theorem ack_frame_round_trip pns :
  Sorted.StronglySorted Z.lt pns -> Forall (fun pn => 0 <= pn < u64_max) pns ->
  let '(largest, ranges) := build_ack_frame pns in
  (pns <> [] -> list.last pns = Some largest /\ forall pn, is_acked largest ranges pn = true <-> In pn pns) /\
  (pns = [] -> is_acked largest ranges 0 = true).
Proof.
  intros Hs Hb. unfold build_ack_frame.
  assert (descending (rev pns)) as Hd.
  { clear Hb. induction Hs as [|x l Hs IH HF]; cbn [rev]; [constructor|].
    assert (forall l1, descending l1 -> Forall (fun y => x < y) l1 -> descending (l1 ++ [x])) as Snoc.
    { induction 1 as [|y l1 D1 IH1 F1]; intros Hx; cbn; [by repeat constructor|].
      apply List.Forall_cons_iff in Hx as [Hx Hx']. constructor; [by apply IH1|].
      apply List.Forall_app. split; [done|]. by repeat constructor. }
    apply Snoc; [exact IH|]. by apply Forall_rev. }
  assert (Forall (fun x => 0 <= x < u64_max) (rev pns)) as Hbr by (by apply Forall_rev).
  destruct (ack_runs_spec (length pns) (rev pns) u64_max ltac:(by rewrite length_rev) Hd Hbr) as (R & C & Ne).
  destruct (ack_runs (length pns) (rev pns)) as [|[low len] runs] eqn:Er.
  { split; [|by vm_compute]. intros Hne. exfalso. apply Ne; [|done]. intros E. apply Hne.
    by rewrite <- (rev_involutive pns), E. }
  split; [|intros ->; done]. intros Hne. inversion R as [|? ? ? ? Hlow Hlen Htop R']; subst.
  assert (forall pn, is_acked (low + (len - 1)) ((0, len - 1) :: ack_gaps low runs) pn = true <-> In pn pns) as Acked.
  { intros pn. unfold is_acked. cbn [acked_intervals].
    replace (Z.max 0 (low + (len - 1) - (len - 1))) with low by lia. rewrite acked_gaps by done.
    change ((low, low + (len - 1)) :: map (fun r : Z * Z => (r.1, r.1 + (r.2 - 1))) runs)
      with (map (fun r : Z * Z => (r.1, r.1 + (r.2 - 1))) ((low, len) :: runs)).
    rewrite in_rev, C, existsb_exists. unfold in_runs. split.
    - intros (i & Hi & Hx). apply in_map_iff in Hi as ([lo le] & <- & Hi). cbn in Hx. exists lo, le. split; [done|lia].
    - intros (lo & le & Hi & Hx). exists (lo, lo + (le - 1)). split; [|cbn; lia].
      apply in_map_iff. by exists (lo, le). }
  split; [|exact Acked].
  assert (In (low + (len - 1)) pns) as Hin by (rewrite in_rev, C; exists low, len; split; [by left|lia]).
  assert (forall x, In x pns -> x <= low + (len - 1)) as Hmax.
  { intros x Hx. rewrite in_rev, C in Hx. destruct Hx as (lo & le & [[= <- <-]|Hi] & Hx); [lia|].
    assert (forall top rs, runs_ok top rs -> In (lo, le) rs -> lo + le <= top) as B.
    { intros top rs Rr. induction Rr as [|top lo' le' rs ? ? ? Rr IHr]; intros Hi'; [done|].
      destruct Hi' as [[= -> ->]|Hi']; [lia|]. specialize (IHr Hi'). lia. }
    specialize (B _ _ R' Hi). lia. }
  clear -Hs Hin Hmax. induction Hs as [|x l Hs IH HF]; [done|]. destruct l as [|y l].
  - destruct Hin as [->|[]]. done.
  - change (list.last (x :: y :: l)) with (list.last (y :: l)). apply IH.
    + destruct Hin as [->|Hin]; [|done]. rewrite List.Forall_forall in HF. exfalso.
      specialize (HF y (or_introl eq_refl)). specialize (Hmax y (or_intror (or_introl eq_refl))). lia.
    + intros z Hz. apply Hmax. by right.
Qed.

Lemma ack_frame_round_trip_witness :
  let '(largest, ranges) := build_ack_frame [1; 2; 5; 9; 10] in
  largest = 10 /\ ranges = [(0, 1); (2, 0); (1, 1)] /\ is_acked largest ranges 5 = true.
Proof.
  pose proof (ack_frame_round_trip [1; 2; 5; 9; 10]) as A.
  assert (E : build_ack_frame [1; 2; 5; 9; 10] = (10, [(0, 1); (2, 0); (1, 1)])) by (vm_compute; reflexivity).
  rewrite E in *. split; [reflexivity|]. split; [reflexivity|].
  apply A; [repeat constructor|repeat constructor; vm_compute; congruence|discriminate|cbn; tauto].
Defined.
