(* ===== verification/QuicConn.v ===== *)
(** * The QUIC client connection ([src/transports/doq/quic.rs])

    What a connection keeps besides its keys, and its handlers: sending and
    acknowledging packets, the response stream, flow control in both directions,
    the query sender and the retransmission timer.  Sealing a packet and giving
    it to the socket is [transmit], a parameter that can fail; the TLS handshake
    behind CRYPTO frames is [handle_crypto].  A frame has the fields this code
    reads or writes.  Times and durations are nanoseconds. *)
From S2P Require Import Prelude Wire Prng Name BTree QuicRx.

Definition PTO_FLOOR_MS : Z := 50.
Definition MAX_PTO_COUNT : Z := 10.
Definition millis (n : Z) : Z := n * 1000000.
Definition INITIAL_PTO : Z := millis 500.
Definition MAX_ACK_DELAY : Z := millis 25.

Inductive Space := SpInitial | SpHandshake | SpApplication.
#[global] Instance Space_eq_dec : EqDecision Space.
Proof. solve_decision. Defined.

Record PerSpace (T : Type) := mkPerSpace { initial : T; handshake : T; application : T }.
Arguments mkPerSpace {T} initial handshake application.
Arguments initial {T} p.
Arguments handshake {T} p.
Arguments application {T} p.

Definition at_space {T} (p : PerSpace T) (s : Space) : T :=
  match s with SpInitial => initial p | SpHandshake => handshake p | SpApplication => application p end.

(** [*p.at_mut(s) = v] *)
Definition set_at {T} (p : PerSpace T) (s : Space) (v : T) : PerSpace T :=
  match s with
  | SpInitial => mkPerSpace v (handshake p) (application p)
  | SpHandshake => mkPerSpace (initial p) v (application p)
  | SpApplication => mkPerSpace (initial p) (handshake p) v
  end.

Inductive Frame :=
| FPadding
| FPing
| FAck (largest_acked ack_delay : Z) (ranges : list (Z * Z))
| FCrypto (offset : Z) (data : list Z)
| FStream (stream_id : Z) (offset : option Z) (data : list Z) (fin : bool)
| FMaxData (max : Z)
| FMaxStreamData (stream_id max : Z)
| FMaxStreams (unidirectional : bool) (max : Z)
| FConnectionClose (error_code : Z)
| FPathChallenge (tag : list Z)
| FPathResponse (tag : list Z)
| FNewConnectionId (sequence : Z)
| FRetireConnectionId (sequence : Z)
| FResetStream (stream_id app_error_code : Z)
| FStopSending (stream_id : Z)
| FIgnored.

Record SentPacket := mkSent { sp_space : Space; sp_pn : Z; sp_sent : Z; sp_frames : list Frame }.
Record QuerySend := mkQuerySend { qs_data : list Z; qs_offset : Z; qs_conn_used : Z; qs_fin_sent : bool }.
Record QueryRecv := mkQueryRecv { qr_buf : list Z; qr_fin : bool }.
Definition query_complete (q : QueryRecv) : bool := qr_fin q.

Record Conn := mkConn {
  next_pn : PerSpace Z;
  pending_acks : PerSpace (list Z);
  handshake_confirmed : bool;
  stream_id : Z;
  query_tx : option QuerySend;
  query_rx : QueryRecv;
  opened_bidi : Z;
  peer_max_data : Z;
  peer_max_stream_data : Z;
  peer_max_streams_bidi : Z;
  peer_max_streams_uni : Z;
  our_max_data : Z;
  our_max_stream_data_bidi_local : Z;
  our_max_stream_data_uni : Z;
  our_max_streams_uni : Z;
  conn_rx_consumed : Z;
  server_uni_opened : Z;
  uni_consumed : list (Z * Z);
  sent : list SentPacket;
  srtt : option Z;
  rttvar : Z;
  pto_count : Z;
  close_sent : bool;
  closed : option Error }.

(** ** Field updates *)

Definition set_next_pn (c : Conn) (v : PerSpace Z) : Conn :=
  mkConn v (pending_acks c) (handshake_confirmed c) (stream_id c) (query_tx c) (query_rx c)
    (opened_bidi c) (peer_max_data c) (peer_max_stream_data c) (peer_max_streams_bidi c)
    (peer_max_streams_uni c) (our_max_data c) (our_max_stream_data_bidi_local c)
    (our_max_stream_data_uni c) (our_max_streams_uni c) (conn_rx_consumed c)
    (server_uni_opened c) (uni_consumed c) (sent c) (srtt c) (rttvar c) (pto_count c)
    (close_sent c) (closed c).
Definition set_pending_acks (c : Conn) (v : PerSpace (list Z)) : Conn :=
  mkConn (next_pn c) v (handshake_confirmed c) (stream_id c) (query_tx c) (query_rx c)
    (opened_bidi c) (peer_max_data c) (peer_max_stream_data c) (peer_max_streams_bidi c)
    (peer_max_streams_uni c) (our_max_data c) (our_max_stream_data_bidi_local c)
    (our_max_stream_data_uni c) (our_max_streams_uni c) (conn_rx_consumed c)
    (server_uni_opened c) (uni_consumed c) (sent c) (srtt c) (rttvar c) (pto_count c)
    (close_sent c) (closed c).
Definition set_stream_id (c : Conn) (v : Z) : Conn :=
  mkConn (next_pn c) (pending_acks c) (handshake_confirmed c) v (query_tx c) (query_rx c)
    (opened_bidi c) (peer_max_data c) (peer_max_stream_data c) (peer_max_streams_bidi c)
    (peer_max_streams_uni c) (our_max_data c) (our_max_stream_data_bidi_local c)
    (our_max_stream_data_uni c) (our_max_streams_uni c) (conn_rx_consumed c)
    (server_uni_opened c) (uni_consumed c) (sent c) (srtt c) (rttvar c) (pto_count c)
    (close_sent c) (closed c).
Definition set_query_tx (c : Conn) (v : option QuerySend) : Conn :=
  mkConn (next_pn c) (pending_acks c) (handshake_confirmed c) (stream_id c) v (query_rx c)
    (opened_bidi c) (peer_max_data c) (peer_max_stream_data c) (peer_max_streams_bidi c)
    (peer_max_streams_uni c) (our_max_data c) (our_max_stream_data_bidi_local c)
    (our_max_stream_data_uni c) (our_max_streams_uni c) (conn_rx_consumed c)
    (server_uni_opened c) (uni_consumed c) (sent c) (srtt c) (rttvar c) (pto_count c)
    (close_sent c) (closed c).
Definition set_query_rx (c : Conn) (v : QueryRecv) : Conn :=
  mkConn (next_pn c) (pending_acks c) (handshake_confirmed c) (stream_id c) (query_tx c) v
    (opened_bidi c) (peer_max_data c) (peer_max_stream_data c) (peer_max_streams_bidi c)
    (peer_max_streams_uni c) (our_max_data c) (our_max_stream_data_bidi_local c)
    (our_max_stream_data_uni c) (our_max_streams_uni c) (conn_rx_consumed c)
    (server_uni_opened c) (uni_consumed c) (sent c) (srtt c) (rttvar c) (pto_count c)
    (close_sent c) (closed c).
Definition set_opened_bidi (c : Conn) (v : Z) : Conn :=
  mkConn (next_pn c) (pending_acks c) (handshake_confirmed c) (stream_id c) (query_tx c)
    (query_rx c) v (peer_max_data c) (peer_max_stream_data c) (peer_max_streams_bidi c)
    (peer_max_streams_uni c) (our_max_data c) (our_max_stream_data_bidi_local c)
    (our_max_stream_data_uni c) (our_max_streams_uni c) (conn_rx_consumed c)
    (server_uni_opened c) (uni_consumed c) (sent c) (srtt c) (rttvar c) (pto_count c)
    (close_sent c) (closed c).
Definition set_peer_max_data (c : Conn) (v : Z) : Conn :=
  mkConn (next_pn c) (pending_acks c) (handshake_confirmed c) (stream_id c) (query_tx c)
    (query_rx c) (opened_bidi c) v (peer_max_stream_data c) (peer_max_streams_bidi c)
    (peer_max_streams_uni c) (our_max_data c) (our_max_stream_data_bidi_local c)
    (our_max_stream_data_uni c) (our_max_streams_uni c) (conn_rx_consumed c)
    (server_uni_opened c) (uni_consumed c) (sent c) (srtt c) (rttvar c) (pto_count c)
    (close_sent c) (closed c).
Definition set_peer_max_stream_data (c : Conn) (v : Z) : Conn :=
  mkConn (next_pn c) (pending_acks c) (handshake_confirmed c) (stream_id c) (query_tx c)
    (query_rx c) (opened_bidi c) (peer_max_data c) v (peer_max_streams_bidi c)
    (peer_max_streams_uni c) (our_max_data c) (our_max_stream_data_bidi_local c)
    (our_max_stream_data_uni c) (our_max_streams_uni c) (conn_rx_consumed c)
    (server_uni_opened c) (uni_consumed c) (sent c) (srtt c) (rttvar c) (pto_count c)
    (close_sent c) (closed c).
Definition set_peer_max_streams_bidi (c : Conn) (v : Z) : Conn :=
  mkConn (next_pn c) (pending_acks c) (handshake_confirmed c) (stream_id c) (query_tx c)
    (query_rx c) (opened_bidi c) (peer_max_data c) (peer_max_stream_data c) v
    (peer_max_streams_uni c) (our_max_data c) (our_max_stream_data_bidi_local c)
    (our_max_stream_data_uni c) (our_max_streams_uni c) (conn_rx_consumed c)
    (server_uni_opened c) (uni_consumed c) (sent c) (srtt c) (rttvar c) (pto_count c)
    (close_sent c) (closed c).
Definition set_peer_max_streams_uni (c : Conn) (v : Z) : Conn :=
  mkConn (next_pn c) (pending_acks c) (handshake_confirmed c) (stream_id c) (query_tx c)
    (query_rx c) (opened_bidi c) (peer_max_data c) (peer_max_stream_data c)
    (peer_max_streams_bidi c) v (our_max_data c) (our_max_stream_data_bidi_local c)
    (our_max_stream_data_uni c) (our_max_streams_uni c) (conn_rx_consumed c)
    (server_uni_opened c) (uni_consumed c) (sent c) (srtt c) (rttvar c) (pto_count c)
    (close_sent c) (closed c).
Definition set_our_max_data (c : Conn) (v : Z) : Conn :=
  mkConn (next_pn c) (pending_acks c) (handshake_confirmed c) (stream_id c) (query_tx c)
    (query_rx c) (opened_bidi c) (peer_max_data c) (peer_max_stream_data c)
    (peer_max_streams_bidi c) (peer_max_streams_uni c) v (our_max_stream_data_bidi_local c)
    (our_max_stream_data_uni c) (our_max_streams_uni c) (conn_rx_consumed c)
    (server_uni_opened c) (uni_consumed c) (sent c) (srtt c) (rttvar c) (pto_count c)
    (close_sent c) (closed c).
Definition set_our_max_stream_data_bidi_local (c : Conn) (v : Z) : Conn :=
  mkConn (next_pn c) (pending_acks c) (handshake_confirmed c) (stream_id c) (query_tx c)
    (query_rx c) (opened_bidi c) (peer_max_data c) (peer_max_stream_data c)
    (peer_max_streams_bidi c) (peer_max_streams_uni c) (our_max_data c) v
    (our_max_stream_data_uni c) (our_max_streams_uni c) (conn_rx_consumed c)
    (server_uni_opened c) (uni_consumed c) (sent c) (srtt c) (rttvar c) (pto_count c)
    (close_sent c) (closed c).
Definition set_our_max_stream_data_uni (c : Conn) (v : Z) : Conn :=
  mkConn (next_pn c) (pending_acks c) (handshake_confirmed c) (stream_id c) (query_tx c)
    (query_rx c) (opened_bidi c) (peer_max_data c) (peer_max_stream_data c)
    (peer_max_streams_bidi c) (peer_max_streams_uni c) (our_max_data c)
    (our_max_stream_data_bidi_local c) v (our_max_streams_uni c) (conn_rx_consumed c)
    (server_uni_opened c) (uni_consumed c) (sent c) (srtt c) (rttvar c) (pto_count c)
    (close_sent c) (closed c).
Definition set_our_max_streams_uni (c : Conn) (v : Z) : Conn :=
  mkConn (next_pn c) (pending_acks c) (handshake_confirmed c) (stream_id c) (query_tx c)
    (query_rx c) (opened_bidi c) (peer_max_data c) (peer_max_stream_data c)
    (peer_max_streams_bidi c) (peer_max_streams_uni c) (our_max_data c)
    (our_max_stream_data_bidi_local c) (our_max_stream_data_uni c) v (conn_rx_consumed c)
    (server_uni_opened c) (uni_consumed c) (sent c) (srtt c) (rttvar c) (pto_count c)
    (close_sent c) (closed c).
Definition set_conn_rx_consumed (c : Conn) (v : Z) : Conn :=
  mkConn (next_pn c) (pending_acks c) (handshake_confirmed c) (stream_id c) (query_tx c)
    (query_rx c) (opened_bidi c) (peer_max_data c) (peer_max_stream_data c)
    (peer_max_streams_bidi c) (peer_max_streams_uni c) (our_max_data c)
    (our_max_stream_data_bidi_local c) (our_max_stream_data_uni c) (our_max_streams_uni c) v
    (server_uni_opened c) (uni_consumed c) (sent c) (srtt c) (rttvar c) (pto_count c)
    (close_sent c) (closed c).
Definition set_server_uni_opened (c : Conn) (v : Z) : Conn :=
  mkConn (next_pn c) (pending_acks c) (handshake_confirmed c) (stream_id c) (query_tx c)
    (query_rx c) (opened_bidi c) (peer_max_data c) (peer_max_stream_data c)
    (peer_max_streams_bidi c) (peer_max_streams_uni c) (our_max_data c)
    (our_max_stream_data_bidi_local c) (our_max_stream_data_uni c) (our_max_streams_uni c)
    (conn_rx_consumed c) v (uni_consumed c) (sent c) (srtt c) (rttvar c) (pto_count c)
    (close_sent c) (closed c).
Definition set_uni_consumed (c : Conn) (v : list (Z * Z)) : Conn :=
  mkConn (next_pn c) (pending_acks c) (handshake_confirmed c) (stream_id c) (query_tx c)
    (query_rx c) (opened_bidi c) (peer_max_data c) (peer_max_stream_data c)
    (peer_max_streams_bidi c) (peer_max_streams_uni c) (our_max_data c)
    (our_max_stream_data_bidi_local c) (our_max_stream_data_uni c) (our_max_streams_uni c)
    (conn_rx_consumed c) (server_uni_opened c) v (sent c) (srtt c) (rttvar c) (pto_count c)
    (close_sent c) (closed c).
Definition set_sent (c : Conn) (v : list SentPacket) : Conn :=
  mkConn (next_pn c) (pending_acks c) (handshake_confirmed c) (stream_id c) (query_tx c)
    (query_rx c) (opened_bidi c) (peer_max_data c) (peer_max_stream_data c)
    (peer_max_streams_bidi c) (peer_max_streams_uni c) (our_max_data c)
    (our_max_stream_data_bidi_local c) (our_max_stream_data_uni c) (our_max_streams_uni c)
    (conn_rx_consumed c) (server_uni_opened c) (uni_consumed c) v (srtt c) (rttvar c)
    (pto_count c) (close_sent c) (closed c).
Definition set_srtt (c : Conn) (v : option Z) : Conn :=
  mkConn (next_pn c) (pending_acks c) (handshake_confirmed c) (stream_id c) (query_tx c)
    (query_rx c) (opened_bidi c) (peer_max_data c) (peer_max_stream_data c)
    (peer_max_streams_bidi c) (peer_max_streams_uni c) (our_max_data c)
    (our_max_stream_data_bidi_local c) (our_max_stream_data_uni c) (our_max_streams_uni c)
    (conn_rx_consumed c) (server_uni_opened c) (uni_consumed c) (sent c) v (rttvar c)
    (pto_count c) (close_sent c) (closed c).
Definition set_rttvar (c : Conn) (v : Z) : Conn :=
  mkConn (next_pn c) (pending_acks c) (handshake_confirmed c) (stream_id c) (query_tx c)
    (query_rx c) (opened_bidi c) (peer_max_data c) (peer_max_stream_data c)
    (peer_max_streams_bidi c) (peer_max_streams_uni c) (our_max_data c)
    (our_max_stream_data_bidi_local c) (our_max_stream_data_uni c) (our_max_streams_uni c)
    (conn_rx_consumed c) (server_uni_opened c) (uni_consumed c) (sent c) (srtt c) v
    (pto_count c) (close_sent c) (closed c).
Definition set_pto_count (c : Conn) (v : Z) : Conn :=
  mkConn (next_pn c) (pending_acks c) (handshake_confirmed c) (stream_id c) (query_tx c)
    (query_rx c) (opened_bidi c) (peer_max_data c) (peer_max_stream_data c)
    (peer_max_streams_bidi c) (peer_max_streams_uni c) (our_max_data c)
    (our_max_stream_data_bidi_local c) (our_max_stream_data_uni c) (our_max_streams_uni c)
    (conn_rx_consumed c) (server_uni_opened c) (uni_consumed c) (sent c) (srtt c) (rttvar c)
    v (close_sent c) (closed c).
Definition set_closed (c : Conn) (v : option Error) : Conn :=
  mkConn (next_pn c) (pending_acks c) (handshake_confirmed c) (stream_id c) (query_tx c)
    (query_rx c) (opened_bidi c) (peer_max_data c) (peer_max_stream_data c)
    (peer_max_streams_bidi c) (peer_max_streams_uni c) (our_max_data c)
    (our_max_stream_data_bidi_local c) (our_max_stream_data_uni c) (our_max_streams_uni c)
    (conn_rx_consumed c) (server_uni_opened c) (uni_consumed c) (sent c) (srtt c) (rttvar c)
    (pto_count c) (close_sent c) v.
Definition set_close_sent (c : Conn) (v : bool) : Conn :=
  mkConn (next_pn c) (pending_acks c) (handshake_confirmed c) (stream_id c) (query_tx c) (query_rx c)
    (opened_bidi c) (peer_max_data c) (peer_max_stream_data c) (peer_max_streams_bidi c)
    (peer_max_streams_uni c) (our_max_data c) (our_max_stream_data_bidi_local c)
    (our_max_stream_data_uni c) (our_max_streams_uni c) (conn_rx_consumed c) (server_uni_opened c)
    (uni_consumed c) (sent c) (srtt c) (rttvar c) (pto_count c) v (closed c).

(** ** Handlers: a result and the state they leave, also when they fail *)

Definition M (A : Type) : Type := Conn -> result Error A * Conn.

#[global] Instance M_ret : MRet M := fun _ a c => (Ok a, c).
#[global] Instance M_bind : MBind M := fun _ _ f m c =>
  match m c with (Ok a, c) => f a c | (Err e, c) => (Err e, c) end.

Definition get_conn : M Conn := fun c => (Ok c, c).
Definition modify (f : Conn -> Conn) : M unit := fun c => (Ok tt, f c).
Definition fail {A} (e : Error) : M A := fun c => (Err e, c).
(** [self.closed = Some(err.clone()); return Err(err)] *)
Definition close_with {A} (e : Error) : M A := fun c => (Err e, set_closed c (Some e)).

Section connection.
(** Sealing a packet and giving it to the socket; the TLS handshake behind a
    CRYPTO frame; the transport library's stream identifiers. *)
Context (transmit : Conn -> Space -> list Frame -> bool -> result Error unit).
Context (handle_crypto : Space -> Z -> list Z -> M unit).
Context (client_bidi server_uni : Z) (stream_type stream_index : Z -> Z) (make_stream_id : Z -> Z -> Z).
(** [Instant::now()] during the handler. *)
Context (now : Z).

Definition send_packet (space : Space) (frames : list Frame) (pad_initial : bool) : M unit := fun c =>
  let pn := at_space (next_pn c) space in
  match transmit c space frames pad_initial with
  | Err e => (Err e, c)
  | Ok _ =>
      let c := set_next_pn c (set_at (next_pn c) space (wrap 64 (pn + 1))) in
      (Ok tt, match frames with
              | [] => c
              | _ => set_sent c (sent c ++ [mkSent space pn now frames])
              end)
  end.

(** A failed acknowledgement is dropped. *)
Definition flush_acks_space (space : Space) (c : Conn) : Conn :=
  match at_space (pending_acks c) space with
  | [] => c
  | pns =>
      let c := set_pending_acks c (set_at (pending_acks c) space []) in
      if bool_decide (space = SpInitial) && handshake_confirmed c then c else
      let '(largest, ranges) := build_ack_frame pns in
      let pad := bool_decide (space = SpInitial) && negb (handshake_confirmed c) in
      snd (send_packet space [FAck largest 0 ranges] pad c)
  end.

Definition flush_acks (c : Conn) : Conn :=
  flush_acks_space SpApplication (flush_acks_space SpHandshake (flush_acks_space SpInitial c)).

(** [Duration] arithmetic in nanoseconds. *)
Definition update_rtt (c : Conn) (sample : Z) : Conn :=
  match srtt c with
  | None => set_rttvar (set_srtt c (Some sample)) (sample / 2)
  | Some s =>
      let delta := if sample <? s then s - sample else sample - s in
      let c := set_rttvar c (rttvar c * 3 / 4 + delta / 4) in
      set_srtt c (Some (s * 7 / 8 + sample / 8))
  end.

Definition on_ack (space : Space) (largest_acked ack_delay : Z) (ranges : list (Z * Z)) : M unit := fun c =>
  let acked p := bool_decide (sp_space p = space) && is_acked largest_acked ranges (sp_pn p) in
  let rtt_sample := (fun p => Z.max 0 (now - sp_sent p)) <$> List.find acked (sent c) in
  let c := set_sent c (List.filter (fun p => negb (acked p)) (sent c)) in
  match rtt_sample with
  | None => (Ok tt, c)
  | Some sample =>
      let ack_delay := millis (Z.min (ack_delay * 8) u64_max / 1000) in
      let sample := Z.max 0 (sample - Z.min ack_delay sample) in
      (Ok tt, set_pto_count (update_rtt c sample) 0)
  end.

Definition maybe_replenish_windows : M unit :=
  c ← get_conn;
  (if our_max_stream_data_bidi_local c <? zlen (qr_buf (query_rx c)) * 2 then
     let new_limit := Z.min (our_max_stream_data_bidi_local c * 2) u64_max in
     send_packet SpApplication [FMaxStreamData (stream_id c) new_limit] false ≫= fun _ =>
     modify (fun c => set_our_max_stream_data_bidi_local c new_limit)
   else mret tt) ≫= fun _ =>
  c ← get_conn;
  if our_max_data c <? conn_rx_consumed c * 2 then
    let new_limit := Z.min (our_max_data c * 2) u64_max in
    send_packet SpApplication [FMaxData new_limit] false ≫= fun _ =>
    modify (fun c => set_our_max_data c new_limit)
  else mret tt.

Definition maybe_replenish_uni (id : Z) : M unit :=
  c ← get_conn;
  let consumed := default 0 (bt_get (uni_consumed c) id) in
  (if our_max_stream_data_uni c <? consumed * 2 then
     let new_limit := Z.min (our_max_stream_data_uni c * 2) u64_max in
     send_packet SpApplication [FMaxStreamData id new_limit] false ≫= fun _ =>
     modify (fun c => set_our_max_stream_data_uni c new_limit)
   else mret tt) ≫= fun _ =>
  c ← get_conn;
  if our_max_streams_uni c <? server_uni_opened c * 2 then
    let new_limit := Z.min (our_max_streams_uni c * 2) u64_max in
    send_packet SpApplication [FMaxStreams true new_limit] false ≫= fun _ =>
    modify (fun c => set_our_max_streams_uni c new_limit)
  else mret tt.

Definition response_too_long : Error := transport "doq response exceeds buffer limit".

(** The reassembly of the response: the new buffer, or [None] beyond the cap. *)
Definition place_response (buf : list Z) (offset : Z) (data : list Z) : option (list Z) :=
  let expected := zlen buf in
  if expected <? offset then
    end_ ← reassembly_end offset (zlen data) MAX_RESPONSE_BUFFER;
    let at_ := end_ - zlen data in
    Some (take (Z.to_nat at_) (buf ++ replicate (Z.to_nat (end_ - expected)) 0) ++ data)
  else Some (buf ++ from_or_empty data (expected - offset)).

Definition on_stream (id offset : Z) (data : list Z) (fin : bool) : M unit :=
  c ← get_conn;
  let stype := stream_type id in
  if stype =? server_uni then
    modify (fun c =>
      let c := set_server_uni_opened c (Z.max (server_uni_opened c) (stream_index id + 1)) in
      let consumed := default 0 (bt_get (uni_consumed c) id) in
      set_uni_consumed c (bt_insert (uni_consumed c) id (Z.max consumed (offset + zlen data)))) ≫= fun _ =>
    maybe_replenish_uni id
  else if negb (stype =? client_bidi) || negb (id =? stream_id c) then
    send_packet SpApplication [FResetStream id 5] false
  else
    match place_response (qr_buf (query_rx c)) offset data with
    | None => close_with response_too_long
    | Some buf =>
        modify (fun c => set_query_rx c (mkQueryRecv buf (qr_fin (query_rx c) || fin))) ≫= fun _ =>
        if MAX_RESPONSE_BUFFER <? zlen buf then close_with response_too_long else
        modify (fun c => set_conn_rx_consumed c (Z.max (conn_rx_consumed c) (zlen buf))) ≫= fun _ =>
        maybe_replenish_windows
    end.

Definition closed_by_server : Error := transport "doq server closed connection".
Definition stream_reset : Error := transport "doq server reset the query stream".

(** One frame of [process_plaintext], and whether it asks for an ACK. *)
Definition on_frame (space : Space) (f : Frame) : M bool :=
  match f with
  | FPadding => mret false
  | FPing => mret true
  | FAck largest ack_delay ranges => on_ack space largest ack_delay ranges ≫= fun _ => mret false
  | FCrypto offset data => handle_crypto space offset data ≫= fun _ => mret true
  | FStream id offset data fin => on_stream id (default 0 offset) data fin ≫= fun _ => mret true
  | FMaxData max =>
      modify (fun c => set_peer_max_data c (Z.max (peer_max_data c) max)) ≫= fun _ => mret false
  | FMaxStreamData id max =>
      modify (fun c => if id =? stream_id c
                       then set_peer_max_stream_data c (Z.max (peer_max_stream_data c) max) else c)
        ≫= fun _ => mret false
  | FMaxStreams unidirectional max =>
      modify (fun c => if (unidirectional : bool)
                       then set_peer_max_streams_uni c (Z.max (peer_max_streams_uni c) max)
                       else set_peer_max_streams_bidi c (Z.max (peer_max_streams_bidi c) max))
        ≫= fun _ => mret false
  | FConnectionClose _ => close_with closed_by_server
  | FPathChallenge tag => send_packet SpApplication [FPathResponse tag] false ≫= fun _ => mret false
  | FNewConnectionId sequence =>
      (if 0 <? sequence then send_packet SpApplication [FRetireConnectionId sequence] false else mret tt)
        ≫= fun _ => mret false
  | FResetStream id _ | FStopSending id =>
      c ← get_conn;
      if (id =? stream_id c) && negb (query_complete (query_rx c)) then close_with stream_reset else mret false
  | FPathResponse _ | FRetireConnectionId _ | FIgnored => mret false
  end.

Fixpoint on_frames (space : Space) (frames : list Frame) (ack_eliciting : bool) : M bool :=
  match frames with
  | [] => mret ack_eliciting
  | f :: frames => on_frame space f ≫= fun b => on_frames space frames (ack_eliciting || b)
  end.

(** The frames decoded from one packet; [BTreeSet::insert] keeps the numbers in
    order. *)
Fixpoint set_insert (l : list Z) (x : Z) : list Z :=
  match l with
  | [] => [x]
  | y :: l' => if x <? y then x :: l else if x =? y then l else y :: set_insert l' x
  end.

Definition process_plaintext (space : Space) (pn : Z) (frames : list Frame) : M unit :=
  on_frames space frames false ≫= fun ack_eliciting =>
  if (ack_eliciting : bool) then
    modify (fun c => set_pending_acks c
              (set_at (pending_acks c) space (set_insert (at_space (pending_acks c) space) pn)))
  else mret tt.

(** ** Sending a query *)

(** The loop of [flush_query_send]: chunks of the rest of the query until the
    allowance is covered. *)
Fixpoint chunk_loop (fuel : nat) (data : list Z) (offset sent_ allow remaining : Z)
    : result Error (list (Z * list Z * bool) * Z) :=
  match fuel with
  | O => Err out_of_fuel
  | S fuel =>
      if allow <=? sent_ then Ok ([], sent_) else
      rest ← ok_or (get_from data (offset + sent_)) (internal "doq query chunk starts past the end");
      let take_ := Z.min (zlen rest) MAX_CHUNK in
      if take_ =? 0 then Err (internal "doq query send made no progress") else
      let fin := remaining <=? sent_ + take_ in
      let chunk := (offset + sent_, capped rest MAX_CHUNK, fin) in
      let sent_ := sent_ + take_ in
      if fin then Ok ([chunk], sent_) else
      '(chunks, sent_) ← chunk_loop fuel data offset sent_ allow remaining;
      Ok (chunk :: chunks, sent_)
  end.

Definition query_allow (c : Conn) (q : QuerySend) : Z :=
  let conn_allow := Z.max 0 (peer_max_data c - qs_conn_used q) in
  let stream_allow := Z.max 0 (peer_max_stream_data c - qs_offset q) in
  let remaining := Z.max 0 (zlen (qs_data q) - qs_offset q) in
  Z.min (Z.min conn_allow stream_allow) remaining.

Definition last_fin (chunks : list (Z * list Z * bool)) : bool :=
  match list.last chunks with Some (_, _, fin) => fin | None => false end.

Fixpoint send_chunks (id : Z) (chunks : list (Z * list Z * bool)) : M unit :=
  match chunks with
  | [] => mret tt
  | (off, data, fin) :: chunks =>
      send_packet SpApplication [FStream id (Some off) data fin] false ≫= fun _ => send_chunks id chunks
  end.

Definition flush_query_send : M unit := fun c =>
  match query_tx c with
  | None => (Ok tt, c)
  | Some q =>
      if qs_fin_sent q then (Ok tt, c) else
      let allow := query_allow c q in
      if allow =? 0 then (Ok tt, c) else
      let remaining := Z.max 0 (zlen (qs_data q) - qs_offset q) in
      match chunk_loop (S (Z.to_nat allow)) (qs_data q) (qs_offset q) 0 allow remaining with
      | Err e => (Err e, c)
      | Ok (chunks, n) =>
          let q := mkQuerySend (qs_data q) (qs_offset q + n) (qs_conn_used q + n)
                     (qs_fin_sent q || last_fin chunks) in
          send_chunks (stream_id c) chunks (set_query_tx c (Some q))
      end
  end.

Definition not_confirmed : Error := transport "doq query before handshake confirmed".
Definition stream_limit : Error := transport "server's bidirectional stream limit reached (MAX_STREAMS)".

(** [exchange_query] up to its event loop. *)
Definition open_query (query : list Z) : M unit :=
  c ← get_conn;
  if negb (handshake_confirmed c) then fail not_confirmed else
  match closed c with
  | Some err => fail err
  | None =>
      if peer_max_streams_bidi c <=? opened_bidi c then fail stream_limit else
      modify (fun c =>
        let c := set_stream_id c (make_stream_id client_bidi (opened_bidi c)) in
        let c := set_opened_bidi c (opened_bidi c + 1) in
        let c := set_query_tx c (Some (mkQuerySend query 0 0 false)) in
        set_query_rx c (mkQueryRecv [] false)) ≫= fun _ =>
      flush_query_send
  end.

(** ... and after it, once the response is complete. *)
Definition query_result (c : Conn) : result Error (list Z) :=
  if MAX_RESPONSE_BUFFER <? zlen (qr_buf (query_rx c)) then Err response_too_long
  else Ok (qr_buf (query_rx c)).

Definition is_open (c : Conn) : bool :=
  match closed c with None => negb (close_sent c) | Some _ => false end.

Definition close (c : Conn) : Conn :=
  if close_sent c || match closed c with Some _ => true | None => false end then c else
  set_close_sent (snd (send_packet SpApplication [FConnectionClose 0] false c)) true.

(** ** Loss recovery *)

Definition pto_timeout (c : Conn) : Z :=
  let base := match srtt c with
              | Some s => s + Z.max (rttvar c) (millis 1) + MAX_ACK_DELAY
              | None => INITIAL_PTO end in
  Z.max base (millis PTO_FLOOR_MS) * Z.min (2 ^ pto_count c) u32_max.

Definition too_many_ptos : Error := mkError Timeout "doq too many PTOs".

Fixpoint resend (packets : list SentPacket) : M unit :=
  match packets with
  | [] => mret tt
  | p :: packets => send_packet (sp_space p) (sp_frames p) false ≫= fun _ => resend packets
  end.

Definition last_sent (c : Conn) : Z := fold_right (fun p m => Z.max (sp_sent p) m) 0 (sent c).

Definition run_pto : M unit :=
  c ← get_conn;
  match sent c with
  | [] => mret tt
  | _ =>
      if MAX_PTO_COUNT <=? pto_count c then close_with too_many_ptos else
      if now <? last_sent c + pto_timeout c then mret tt else
      modify (fun c => set_sent (set_pto_count c (pto_count c + 1)) []) ≫= fun _ => resend (sent c)
  end.
End connection.

(** ** The response stream *)

Lemma replicate_get_zero n i : 0 <= i < Z.of_nat n -> get (replicate n 0) i = Some 0.
Proof.
  intros Hi. unfold get. rewrite (proj2 (Z.leb_le 0 i)) by lia. apply lookup_replicate. split; [done|lia].
Qed.

Lemma place_response_gap buf off d buf' :
  zlen buf < off -> place_response buf off d = Some buf' ->
  buf' = buf ++ replicate (Z.to_nat (off - zlen buf)) 0 ++ d /\ zlen buf' <= MAX_RESPONSE_BUFFER.
Proof.
  intros Hg. unfold place_response. rewrite (proj2 (Z.ltb_lt _ _)) by done.
  pose proof (zlen_nonneg buf) as Hb. pose proof (zlen_nonneg d) as Hd.
  unfold reassembly_end, checked_add. destruct (_ <=? usize_max) eqn:E; bools; [|done].
  cbn [mbind option_bind]. destruct (_ <=? MAX_RESPONSE_BUFFER) eqn:E2; bools; [|done].
  cbn [mbind option_bind]. intros [= <-].
  replace (off + zlen d - zlen d) with off by lia.
  replace (Z.to_nat (off + zlen d - zlen buf)) with (Z.to_nat (off - zlen buf) + length d)%nat
    by (unfold zlen in *; lia).
  rewrite replicate_add, app_assoc.
  rewrite take_app_length' by (rewrite length_app, length_replicate; unfold zlen in *; lia).
  rewrite <- app_assoc. split; [done|]. rewrite !zlen_app, zlen_replicate. lia.
Qed.

Lemma place_response_in_order buf off d buf' :
  0 <= off <= zlen buf -> place_response buf off d = Some buf' ->
  buf' = buf ++ drop (Z.to_nat (zlen buf - off)) d.
Proof.
  intros Hg. unfold place_response. rewrite (proj2 (Z.ltb_ge _ _)) by lia. intros [= <-]. f_equal.
  destruct (Z.le_gt_cases (zlen buf - off) (zlen d)).
  - apply from_or_empty_drop. lia.
  - unfold from_or_empty, get_from.
    assert (get_range d (zlen buf - off) (zlen d) = None) as -> by (apply get_range_None; lia).
    symmetry. apply drop_ge. unfold zlen in *. lia.
Qed.

(** How the response is put together. Delivered in order, overlapping or repeated
    as it may be, it is the peer's stream. A frame that arrives early is placed
    behind a gap of zeros, and no later frame changes an octet already there: the
    missing octets, when they come, are taken for duplicates, and the response
    is complete as soon as the final frame has been seen. *)
Theorem response_reassembly stream buf off d buf' :
  0 <= off -> piece stream off d -> place_response buf off d = Some buf' ->
  (exists w, buf' = buf ++ w) /\
  (off <= zlen buf -> get_range stream 0 (zlen buf) = Some buf ->
     get_range stream 0 (zlen buf') = Some buf' /\ zlen buf' = Z.max (zlen buf) (off + zlen d)) /\
  (zlen buf < off ->
     (forall i, zlen buf <= i < off -> get buf' i = Some 0) /\
     (forall i b, zlen buf <= i < off -> get stream i = Some b -> b <> 0 ->
        forall frames buf'', fold_left (fun b '(o, d) => b ≫= fun b => place_response b o d) frames (Some buf') = Some buf'' ->
        get_range stream 0 (zlen buf'') <> Some buf'')).
Proof.
  intros Ho Hd Hp.
  assert (forall b o d b', place_response b o d = Some b' -> exists w, b' = b ++ w) as Grow.
  { intros b o d0 b' E. destruct (Z.lt_ge_cases (zlen b) o) as [Hlt|Hge].
    - apply place_response_gap in E as [-> _]; eauto.
    - unfold place_response in E. rewrite (proj2 (Z.ltb_ge _ _)) in E by lia. injection E as <-. eauto. }
  split; [by eapply Grow|]. split.
  - intros Hle Hpre. pose proof (place_response_in_order buf off d buf' ltac:(lia) Hp) as ->.
    destruct (Z.le_gt_cases (off + zlen d) (zlen buf)) as [Hdup|Hnew].
    + rewrite (drop_ge d) by (unfold zlen in *; lia). rewrite app_nil_r. split; [done|lia].
    + pose proof (piece_extend stream 0 buf off d) as X. cbv zeta in X. rewrite !Z.add_0_l in X.
      destruct X as [P Z]; [exact Hpre|done|lia|]. rewrite Z. split; [|lia].
      unfold piece in P. by rewrite Z.add_0_l, Z in P.
  - intros Hlt. pose proof (place_response_gap buf off d buf' Hlt Hp) as [-> _].
    assert (forall i, zlen buf <= i < off ->
      get (buf ++ replicate (Z.to_nat (off - zlen buf)) 0 ++ d) i = Some 0) as Hz.
    { intros i Hi. replace i with (zlen buf + (i - zlen buf)) by lia. rewrite get_app_r by lia.
      apply get_app_l, replicate_get_zero. lia. }
    split; [exact Hz|]. intros i b Hi Hs Hb frames buf'' Hf Hpre.
    assert (forall frames b0 b1, fold_left (fun b '(o, d) => b ≫= fun b => place_response b o d) frames (Some b0) = Some b1 ->
      exists w, b1 = b0 ++ w) as Growing.
    { clear -Grow. induction frames as [|[o d] frames IH]; intros b0 b1; cbn [fold_left].
      - intros [= <-]. exists []. by rewrite app_nil_r.
      - cbn [mbind option_bind]. destruct (place_response b0 o d) as [b2|] eqn:E.
        + intros H%IH. apply Grow in E as [w1 ->]. destruct H as [w2 ->]. rewrite <- app_assoc. eauto.
        + intros H. exfalso. clear -H. induction frames as [|[o' d'] frames IH]; [done|]. by apply IH. }
    destruct (Growing _ _ _ Hf) as [w ->].
    pose proof (get_app_l _ w i 0 (Hz i Hi)) as G0.
    apply get_range_split in Hpre as (pre & post & E & Hpz & _). apply zlen_0 in Hpz as ->. cbn [app] in E.
    pose proof (get_app_l _ post i 0 G0) as G1. rewrite <- E in G1. congruence.
Qed.

Lemma response_reassembly_witness :
  let stream := [0; 2; 7; 9] in
  place_response [] 2 [7; 9] = Some [0; 0; 7; 9] /\ place_response [0; 0; 7; 9] 0 [0; 2] = Some [0; 0; 7; 9] /\
  get_range stream 0 4 <> Some [0; 0; 7; 9].
Proof.
  intros stream. assert (E : place_response [] 2 [7; 9] = Some [0; 0; 7; 9]) by (vm_compute; reflexivity).
  split; [exact E|]. split; [vm_compute; reflexivity|].
  destruct (response_reassembly stream [] 2 [7; 9] [0; 0; 7; 9] ltac:(lia) ltac:(reflexivity) E) as (_ & _ & G).
  destruct (G ltac:(vm_compute; reflexivity)) as [_ N].
  exact (N 1 2 ltac:(vm_compute; split; [discriminate | reflexivity]) eq_refl ltac:(discriminate) [(0, [0; 2])] [0; 0; 7; 9] ltac:(vm_compute; reflexivity)).
Defined.

(** ** Sending the query *)

(** Non-empty chunks of at most [MAX_CHUNK] octets that follow each other from
    [o]; the one that reaches [last], and no other, carries the FIN bit. *)
Fixpoint consecutive (last o : Z) (chunks : list (Z * list Z * bool)) : Prop :=
  match chunks with
  | [] => True
  | (off, d, fin) :: chunks =>
      off = o /\ 0 < zlen d <= MAX_CHUNK /\ fin = bool_decide (o + zlen d = last) /\
      consecutive last (o + zlen d) chunks
  end.

Definition payload (chunks : list (Z * list Z * bool)) : list Z := concat (map (fun c => c.1.2) chunks).

Lemma get_from_some (l : list Z) a : 0 <= a <= zlen l -> get_from l a = Some (drop (Z.to_nat a) l).
Proof.
  intros H. unfold get_from, get_range. decide_ifs. f_equal. apply take_ge. rewrite length_drop. unfold zlen in *. lia.
Qed.

Lemma capped_chunk (l : list Z) k : 0 <= k -> capped l k = take (Z.to_nat k) l.
Proof.
  intros Hk. unfold capped. destruct (Z.le_gt_cases k (zlen l)).
  - unfold get_range. decide_ifs. by rewrite Z.sub_0_r.
  - assert (get_range l 0 k = None) as -> by (apply get_range_None; lia).
    symmetry. apply take_ge. unfold zlen in *; lia.
Qed.

Lemma last_fin_cons c chunks : chunks <> [] -> last_fin (c :: chunks) = last_fin chunks.
Proof. destruct chunks; done. Qed.

Lemma chunk_loop_spec data offset allow fuel sent_ :
  0 <= offset -> 0 <= sent_ <= zlen data - offset -> allow <= zlen data - offset ->
  (Z.to_nat (allow - sent_) < fuel)%nat ->
  exists chunks n, chunk_loop fuel data offset sent_ allow (zlen data - offset) = Ok (chunks, n) /\
    consecutive (zlen data) (offset + sent_) chunks /\
    piece data (offset + sent_) (payload chunks) /\ zlen (payload chunks) = n - sent_ /\
    Z.of_nat (length chunks) <= Z.max 0 (allow - sent_) /\
    (allow <= sent_ -> chunks = [] /\ n = sent_) /\
    (sent_ < allow -> chunks <> [] /\ allow <= n < allow + MAX_CHUNK /\ n <= zlen data - offset /\
       last_fin chunks = bool_decide (offset + n = zlen data)).
Proof.
  intros Ho. revert sent_. induction fuel as [|fuel IH]; intros sent_ Hs Ha Hf; [lia|]. cbn [chunk_loop].
  destruct (allow <=? sent_) eqn:E; bools.
  { exists [], sent_. split_and!; try done; try lia; [|by rewrite Z.sub_diag|cbn; lia].
    unfold piece. change (payload []) with (@nil Z). change (zlen (@nil Z)) with 0.
    rewrite Z.add_0_r. apply get_range_empty. lia. }
  rewrite get_from_some by lia. cbn [ok_or mbind result_bind].
  set (rest := drop (Z.to_nat (offset + sent_)) data).
  assert (zlen rest = zlen data - offset - sent_) as Hr
    by (unfold rest, zlen in *; rewrite length_drop; lia).
  assert (MAX_CHUNK = 1100) as HM by done.
  set (t := Z.min (zlen rest) MAX_CHUNK). rewrite (proj2 (Z.eqb_neq _ _)) by lia.
  assert (capped rest MAX_CHUNK = take (Z.to_nat t) rest) as Hc.
  { rewrite capped_chunk by lia. unfold t. destruct (Z.le_ge_cases (zlen rest) MAX_CHUNK).
    - rewrite Z.min_l by lia. rewrite !take_ge; [done| |]; unfold zlen in *; lia.
    - by rewrite Z.min_r by lia. }
  assert (zlen (take (Z.to_nat t) rest) = t) as Ht by (unfold zlen in *; rewrite length_take; lia).
  assert (piece data (offset + sent_) (take (Z.to_nat t) rest)) as Hg.
  { unfold piece, get_range. rewrite Ht. decide_ifs. unfold rest. do 2 f_equal. lia. }
  rewrite Hc. destruct (zlen data - offset <=? sent_ + t) eqn:Efin; bools.
  - eexists [_], _. split; [done|]. cbn [consecutive payload map concat fst snd last_fin list.last length].
    rewrite Ht, app_nil_r. split_and!; try done; try lia.
    + rewrite bool_decide_eq_true_2 by lia. done.
    + intros _. split_and!; try done; try lia. by rewrite bool_decide_eq_true_2 by lia.
  - destruct (IH (sent_ + t) ltac:(lia) ltac:(lia) ltac:(lia)) as (chunks & n & E2 & C & G & GL & L & Z0 & Z1).
    rewrite E2. cbn [mbind result_bind]. eexists (_ :: chunks), n. split; [done|].
    cbn [consecutive]. rewrite Ht. split_and!; try done; try lia.
    + rewrite bool_decide_eq_false_2 by lia. done.
    + by rewrite <- Z.add_assoc.
    + unfold payload. cbn [map concat fst snd]. apply piece_join; [done|]. rewrite Ht, <- Z.add_assoc. exact G.
    + unfold payload in *. cbn [map concat fst snd]. rewrite zlen_app. lia.
    + cbn [length]. lia.
    + intros _. split; [done|]. destruct (Z.le_gt_cases allow (sent_ + t)) as [Hle|Hgt].
      * destruct (Z0 Hle) as [-> ->]. split_and!; try lia. cbn. rewrite bool_decide_eq_false_2 by lia. done.
      * destruct (Z1 ltac:(lia)) as (N & B1 & B2 & F). rewrite last_fin_cons by done. split_and!; try done; lia.
Qed.

(** What one call of [flush_query_send] does: nothing while the peer allows
    nothing; otherwise it sends the next [n] octets of the query, in order and
    without gaps, the FIN bit on the chunk that ends it and on no other. [n]
    covers the allowance, and exceeds it by less than one chunk: the last chunk
    is not cut to what the peer still allows. *)
Theorem flush_query_spec transmit now c q :
  query_tx c = Some q -> qs_fin_sent q = false -> 0 <= qs_offset q <= zlen (qs_data q) ->
  let o := qs_offset q in
  let allow := query_allow c q in
  (allow <= 0 -> flush_query_send transmit now c = (Ok tt, c)) /\
  (0 < allow -> exists chunks n,
     flush_query_send transmit now c =
       send_chunks transmit now (stream_id c) chunks
         (set_query_tx c (Some (mkQuerySend (qs_data q) (o + n) (qs_conn_used q + n)
                                  (bool_decide (o + n = zlen (qs_data q)))))) /\
     consecutive (zlen (qs_data q)) o chunks /\
     get_range (qs_data q) o (o + n) = Some (payload chunks) /\
     allow <= n < allow + MAX_CHUNK).
Proof.
  intros Hq Hf Ho o allow. unfold flush_query_send. rewrite Hq, Hf. fold allow.
  assert (0 <= allow <= zlen (qs_data q) - o) as Ha by (unfold allow, query_allow, o; lia).
  split; intros Hp.
  - by rewrite (proj2 (Z.eqb_eq _ _)) by lia.
  - rewrite (proj2 (Z.eqb_neq _ _)) by lia. rewrite Z.max_r by lia. fold o.
    destruct (chunk_loop_spec (qs_data q) o allow (S (Z.to_nat allow)) 0 ltac:(lia) ltac:(lia)
      ltac:(lia) ltac:(lia)) as (chunks & n & E & C & G & L & _ & _ & R).
    rewrite E. destruct (R Hp) as (_ & Hn & Hle & F). cbn [orb]. rewrite F. rewrite Z.add_0_r in *.
    exists chunks, n. split_and!; try done; try lia. unfold piece in G. rewrite L in G. by rewrite Z.sub_0_r in G.
Qed.

(** The connection before a handshake: the sender's state only. *)
Definition fresh_conn (q : QuerySend) (max_data max_stream_data : Z) : Conn :=
  mkConn (mkPerSpace 0 0 0) (mkPerSpace [] [] []) true 0 (Some q) (mkQueryRecv [] false) 1
    max_data max_stream_data 1 0 1048576 65536 65536 3 0 0 [] [] None 0 0 false None.

Lemma flush_query_spec_witness :
  let q := mkQuerySend (replicate 2000 7) 0 0 false in
  let c := fresh_conn q 1200 65536 in
  query_allow c q = 1200 /\
  (exists chunks n, consecutive 2000 0 chunks /\ 1200 <= n < 1200 + MAX_CHUNK /\
     get_range (qs_data q) 0 n = Some (payload chunks)).
Proof.
  intros q c. split; [vm_compute; reflexivity|].
  destruct (flush_query_spec (fun _ _ _ _ => Ok tt) 0 c q eq_refl eq_refl
    ltac:(vm_compute; split; discriminate)) as [_ S].
  destruct (S ltac:(vm_compute; reflexivity)) as (chunks & n & _ & C & G & B). exists chunks, n.
  split; [exact C|]. split; [exact B|exact G].
Defined.

(** The peer allows 10 octets; the whole query of 100 goes out. *)
Example allowance_exceeded :
  let q := mkQuerySend (replicate 100 7) 0 0 false in
  let c := fresh_conn q 10 65536 in
  query_allow c q = 10 /\
  map sp_frames (sent (snd (flush_query_send (fun _ _ _ _ => Ok tt) 0 c))) =
    [[FStream 0 (Some 0) (replicate 100 7) true]].
Proof. split; vm_compute; reflexivity. Qed.

(** ** Packet numbers *)

(** The numbers of the unacknowledged packets of a space. *)
Definition pns (space : Space) (l : list SentPacket) : list Z :=
  sp_pn <$> filter (fun p => sp_space p = space) l.

(** Unacknowledged packets have numbers of their own, below the next one. *)
Definition numbered (c : Conn) : Prop := forall space,
  0 <= at_space (next_pn c) space /\ NoDup (pns space (sent c)) /\
  Forall (fun pn => 0 <= pn < at_space (next_pn c) space) (pns space (sent c)).

(** The handler takes at most [n] fresh packet numbers of each space, and
    keeps [numbered], while the numbers do not reach 2^64. *)
Definition advances (n : Z) {A} (m : M A) : Prop := forall c,
  numbered c -> (forall space, at_space (next_pn c) space + n < 2 ^ 64) ->
  numbered (snd (m c)) /\
  forall space, at_space (next_pn c) space <= at_space (next_pn (snd (m c))) space <= at_space (next_pn c) space + n.

Lemma advances_weaken n k {A} (m : M A) : n <= k -> advances n m -> advances k m.
Proof.
  intros Hn Hm c Hc Hb. destruct (Hm c Hc) as [H1 H2].
  - intros sp. specialize (Hb sp). lia.
  - split; [done|]. intros sp. specialize (H2 sp). lia.
Qed.

Lemma advances_bind n k {A B} (m : M A) (f : A -> M B) :
  0 <= k -> advances n m -> (forall a, advances k (f a)) -> advances (n + k) (m ≫= f).
Proof.
  intros Hk Hm Hf c Hc Hb. destruct (Hm c Hc) as [H1 H2].
  { intros sp. specialize (Hb sp). lia. }
  unfold mbind, M_bind. destruct (m c) as [[a|e] c1] eqn:E; cbn [fst snd] in *.
  - destruct (Hf a c1 H1) as [H3 H4].
    { intros sp. specialize (H2 sp). specialize (Hb sp). lia. }
    split; [done|]. intros sp. specialize (H2 sp). specialize (H4 sp). lia.
  - split; [done|]. intros sp. specialize (H2 sp). lia.
Qed.

Lemma filter_sublist {A} (P : A -> Prop) `{forall x, Decision (P x)} (l1 l2 : list A) :
  l1 `sublist_of` l2 -> filter P l1 `sublist_of` filter P l2.
Proof.
  induction 1 as [|x l1 l2 _ IH|x l1 l2 _ IH]; [done| |].
  - rewrite !filter_cons. case_decide; [by constructor|done].
  - rewrite filter_cons. case_decide; [by constructor|done].
Qed.

(** A handler that leaves the numbers alone and at most forgets packets. *)
Lemma advances_keep n {A} (m : M A) : 0 <= n ->
  (forall c, next_pn (snd (m c)) = next_pn c /\ sent (snd (m c)) `sublist_of` sent c) -> advances n m.
Proof.
  intros Hn Hm c Hc Hb. destruct (Hm c) as [E S]. split.
  - intros sp. rewrite E. destruct (Hc sp) as (H1 & H2 & H3).
    assert (pns sp (sent (snd (m c))) `sublist_of` pns sp (sent c)) as Hsub
      by (by apply fmap_sublist, filter_sublist).
    split_and!; [done|by eapply sublist_NoDup|]. rewrite Forall_forall in H3 |- *. intros x Hx. apply H3.
    apply list_elem_of_In in Hx. apply list_elem_of_In. by eapply elem_of_sublist.
  - intros sp. rewrite E. lia.
Qed.

Lemma at_set_at {T} (p : PerSpace T) s v s' :
  at_space (set_at p s v) s' = if decide (s = s') then v else at_space p s'.
Proof. by destruct s, s'. Qed.

Section numbering.
Context (transmit : Conn -> Space -> list Frame -> bool -> result Error unit).
Context (handle_crypto : Space -> Z -> list Z -> M unit).
Context (client_bidi server_uni : Z) (stream_type stream_index : Z -> Z) (make_stream_id : Z -> Z -> Z).
Context (now : Z).

Lemma send_packet_advances space frames pad : advances 1 (send_packet transmit now space frames pad).
Proof.
  intros c Hc Hb. unfold send_packet. destruct (transmit c space frames pad); cbn [snd].
  2: { split; [done|]. intros sp. lia. }
  assert (wrap 64 (at_space (next_pn c) space + 1) = at_space (next_pn c) space + 1) as Hw.
  { unfold wrap. apply Z.mod_small. specialize (Hb space). destruct (Hc space). lia. }
  rewrite Hw. set (c1 := set_next_pn c _).
  assert (forall l, (l = sent c \/ l = sent c ++ [mkSent space (at_space (next_pn c) space) now frames]) ->
    numbered (set_sent c1 l)) as Hn.
  { intros l Hl sp. unfold c1. cbn [next_pn sent set_sent set_next_pn]. rewrite at_set_at.
    destruct (Hc sp) as (H1 & H2 & H3).
    assert (Forall (fun pn => 0 <= pn < at_space (next_pn c) sp + 1) (pns sp (sent c))) as H3'
      by (eapply List.Forall_impl; [|exact H3]; cbv beta; intros; lia).
    destruct Hl as [-> | ->].
    - case_decide; subst; split_and!; try done; lia.
    - unfold pns. rewrite list.filter_app, fmap_app, filter_cons. cbn [sp_space].
      destruct (decide (space = sp)) as [<-|Hne]; cbn [filter list_filter fmap list_fmap sp_pn].
      + split_and!; [lia| |].
        * apply list.NoDup_app. split_and!; [done| |apply NoDup_singleton]. intros x Hx Hx2.
          apply list_elem_of_singleton in Hx2 as ->. rewrite List.Forall_forall in H3.
          apply list_elem_of_In in Hx. specialize (H3 _ Hx). lia.
        * apply Forall_app. split; [done|]. constructor; [lia|done].
      + rewrite app_nil_r. by split_and!. }
  split.
  - destruct frames; [apply (Hn (sent c)); by left|]. apply Hn. by right.
  - intros sp. destruct frames; unfold c1; cbn [next_pn set_sent set_next_pn]; rewrite at_set_at;
      case_decide; subst; lia.
Qed.

Lemma advances_get n {A} (f : Conn -> M A) : (forall c, advances n (f c)) -> advances n (get_conn ≫= f).
Proof. intros Hf c. exact (Hf c c). Qed.

(** Handlers that only write other fields. *)
Ltac keep := apply advances_keep; [lia | intros ?; cbn; done].
(** [m ≫= f] with [n] packets for [m]. *)
Ltac bind n := match goal with |- advances ?k _ =>
  apply (advances_weaken (n + (k - n)) k); [lia|]; apply advances_bind; [lia| |intros ?] end.

Lemma maybe_replenish_windows_advances : advances 2 (maybe_replenish_windows transmit now).
Proof.
  apply advances_get. intros c. bind 1.
  - case_match; [|keep]. bind 1; [apply send_packet_advances|keep].
  - apply advances_get. intros c'. case_match; [|keep]. bind 1; [apply send_packet_advances|keep].
Qed.

Lemma maybe_replenish_uni_advances id : advances 2 (maybe_replenish_uni transmit now id).
Proof.
  apply advances_get. intros c. bind 1.
  - case_match; [|keep]. bind 1; [apply send_packet_advances|keep].
  - apply advances_get. intros c'. case_match; [|keep]. bind 1; [apply send_packet_advances|keep].
Qed.

Lemma on_stream_advances id off d fin :
  advances 2 (on_stream transmit client_bidi server_uni stream_type stream_index now id off d fin).
Proof.
  apply advances_get. intros c. cbv zeta. case_match.
  - bind 0; [keep|apply maybe_replenish_uni_advances].
  - case_match; [apply (advances_weaken 1); [lia|apply send_packet_advances]|].
    case_match; [|keep]. bind 0; [keep|]. case_match; [keep|]. bind 0; [keep|]. apply maybe_replenish_windows_advances.
Qed.

Lemma on_ack_advances space largest delay ranges : advances 0 (on_ack now space largest delay ranges).
Proof.
  apply advances_keep; [lia|]. intros c. unfold on_ack. cbn [snd].
  assert (forall (P : SentPacket -> bool) l, List.filter P l `sublist_of` l) as Hf.
  { intros P l. induction l as [|x l IH]; cbn; [done|]. destruct (P x); by constructor. }
  case_match; cbn [snd]; [|split; [done|apply Hf]].
  unfold update_rtt. case_match; cbn; (split; [done|apply Hf]).
Qed.

Context (K : Z) (K_bound : 2 <= K).
(** The packets the TLS handshake sends for one CRYPTO frame. *)
Context (crypto_advances : forall space off d, advances K (handle_crypto space off d)).

Lemma on_frame_advances space f :
  advances K (on_frame transmit handle_crypto client_bidi server_uni stream_type stream_index now space f).
Proof.
  destruct f; cbn [on_frame]; try keep.
  - bind 0; [apply on_ack_advances|keep].
  - bind K; [apply crypto_advances|keep].
  - bind 2; [apply on_stream_advances|keep].
  - bind 0; [|keep]. apply advances_keep; [lia|]. intros c. cbn. by case_match.
  - bind 0; [|keep]. apply advances_keep; [lia|]. intros c. cbn. by case_match.
  - bind 1; [apply send_packet_advances|keep].
  - bind 1; [|keep]. case_match; [apply send_packet_advances|keep].
  - apply advances_get. intros c. case_match; keep.
  - apply advances_get. intros c. case_match; keep.
Qed.

Lemma process_plaintext_advances space pn frames :
  advances (K * zlen frames) (process_plaintext transmit handle_crypto client_bidi server_uni stream_type
    stream_index now space pn frames).
Proof.
  unfold process_plaintext. pose proof (zlen_nonneg frames). bind (K * zlen frames); [|case_match; keep].
  generalize false. clear H. induction frames as [|f frames IH]; intros b.
  { change (zlen (@nil Frame)) with 0. rewrite Z.mul_0_r. keep. }
  cbn [on_frames]. pose proof (Z.mul_nonneg_nonneg K _ ltac:(lia) (zlen_nonneg frames)). rewrite zlen_cons. bind K; [apply on_frame_advances|].
  eapply advances_weaken; [|apply IH]. lia.
Qed.

Lemma flush_acks_advances : advances 3 (fun c => (Ok tt, flush_acks transmit now c)).
Proof.
  assert (forall sp, advances 1 (fun c => (Ok tt, flush_acks_space transmit now sp c))) as H1.
  { intros sp c Hc Hb. cbn [snd]. unfold flush_acks_space.
    case_match; [split; [done|]; intros s; lia|]. set (c1 := set_pending_acks c _).
    case_match; [split; [exact Hc|]; intros s; cbn; lia|]. case_match.
    apply (send_packet_advances sp _ _ c1); [exact Hc|exact Hb]. }
  pose proof (advances_bind 1 1 _ (fun _ => _) ltac:(lia) (H1 SpInitial) (fun _ => H1 SpHandshake)) as H2.
  pose proof (advances_bind 2 1 _ (fun _ => _) ltac:(lia) H2 (fun _ => H1 SpApplication)) as H3. exact H3.
Qed.

Lemma send_chunks_advances id chunks : advances (zlen chunks) (send_chunks transmit now id chunks).
Proof.
  induction chunks as [|[[off d] fin] chunks IH].
  { change (zlen (@nil (Z * list Z * bool))) with 0. keep. }
  cbn [send_chunks]. pose proof (zlen_nonneg chunks).
  rewrite zlen_cons. bind 1; [apply send_packet_advances|]. eapply advances_weaken; [|exact IH]. lia.
Qed.

Lemma chunk_loop_length fuel data off s allow rem chunks n :
  chunk_loop fuel data off s allow rem = Ok (chunks, n) -> zlen chunks <= Z.of_nat fuel.
Proof.
  revert s chunks n. induction fuel as [|fuel IH]; intros s chunks n; [done|]. cbn [chunk_loop].
  case_match; [intros [= <- <-]; unfold zlen; cbn [length]; lia|]. destruct (get_from _ _); cbn [ok_or mbind result_bind]; [|done].
  case_match; [done|]. case_match; [intros [= <- <-]; unfold zlen; cbn [length]; lia|].
  destruct (chunk_loop fuel _ _ _ _ _) as [[cs m]|] eqn:E; cbn [mbind result_bind]; [|done].
  intros [= <- <-]. apply IH in E. rewrite zlen_cons. lia.
Qed.

(** An upper bound on the chunks of one [flush_query_send]. *)
Definition query_sends (c : Conn) : Z :=
  match query_tx c with Some q => 1 + Z.max 0 (query_allow c q) | None => 0 end.

Lemma flush_query_advances c :
  numbered c -> (forall space, at_space (next_pn c) space + query_sends c < 2 ^ 64) ->
  let c' := snd (flush_query_send transmit now c) in
  numbered c' /\
  forall space, at_space (next_pn c) space <= at_space (next_pn c') space <= at_space (next_pn c) space + query_sends c.
Proof.
  intros Hc Hb. unfold flush_query_send, query_sends in *. cbv zeta.
  destruct (query_tx c) as [q|] eqn:Eq; [|split; [done|]; intros s; cbn [snd]; lia].
  case_match; [split; [done|]; intros s; cbn [snd]; lia|].
  case_match; [split; [done|]; intros s; cbn [snd]; lia|].
  destruct (chunk_loop _ _ _ _ _ _) as [[chunks n]|] eqn:E; [|split; [done|]; intros s; cbn [snd]; lia].
  apply chunk_loop_length in E.
  match goal with |- context [send_chunks _ _ _ _ ?c1] => destruct (send_chunks_advances (stream_id c) chunks c1) as [N B] end.
  - exact Hc.
  - intros s. specialize (Hb s). cbn. lia.
  - split; [exact N|]. intros s. specialize (B s). cbn in B |- *. lia.
Qed.

Lemma resend_advances l : advances (zlen l) (resend transmit now l).
Proof.
  induction l as [|p l IH].
  { change (zlen (@nil SentPacket)) with 0. keep. }
  cbn [resend]. pose proof (zlen_nonneg l). rewrite zlen_cons. bind 1; [apply send_packet_advances|].
  eapply advances_weaken; [|exact IH]. lia.
Qed.

(** What [advances n m] says of one state. *)
Definition moved (n : Z) (c c' : Conn) : Prop := numbered c -> (forall space, at_space (next_pn c) space + n < 2 ^ 64) ->
  numbered c' /\ forall space, at_space (next_pn c) space <= at_space (next_pn c') space <= at_space (next_pn c) space + n.

Lemma moved_same n c c' : 0 <= n -> next_pn c' = next_pn c -> sent c' = sent c -> moved n c c'.
Proof.
  intros Hn E1 E2 Hc Hb. unfold numbered. rewrite E1, E2. split; [exact Hc|]. intros s. lia.
Qed.

Lemma run_pto_moved c : moved (zlen (sent c)) c (snd (run_pto transmit now c)).
Proof.
  pose proof (zlen_nonneg (sent c)) as Hz.
  assert (forall c', next_pn c' = next_pn c -> sent c' = sent c -> moved (zlen (sent c)) c c') as Hid
    by (intros; by apply moved_same).
  unfold run_pto, get_conn, mbind, M_bind, mret, M_ret, close_with, modify.
  destruct (sent c) as [|p l] eqn:E; [by apply Hid|]. do 2 (case_match; [by apply Hid|]). intros Hc Hb.
  rewrite <- E in Hb |- *. apply (resend_advances (sent c) (set_sent (set_pto_count c (pto_count c + 1)) [])); [|exact Hb].
  intros s. destruct (Hc s) as [H2 _]. split; [exact H2|]. cbn. split; constructor.
Qed.

Lemma open_query_moved query c :
  moved (1 + zlen query) c (snd (open_query transmit client_bidi make_stream_id now query c)).
Proof.
  pose proof (zlen_nonneg query).
  unfold open_query, get_conn, mbind, M_bind, fail, modify.
  case_match; [apply moved_same; [lia|done..]|]. case_match; [apply moved_same; [lia|done..]|].
  case_match; [apply moved_same; [lia|done..]|]. intros Hc Hb.
  match goal with |- context [flush_query_send _ _ ?c1] => destruct (flush_query_advances c1) as [N B]; [exact Hc| |] end;
    unfold query_sends, query_allow in *; cbn in *.
  - intros s. specialize (Hb s). lia.
  - split; [exact N|]. intros s. specialize (B s). lia.
Qed.

Lemma close_moved c : moved 1 c (close transmit now c).
Proof.
  unfold close. case_match; [apply moved_same; [lia|done..]|]. intros Hc Hb.
  apply (send_packet_advances SpApplication [FConnectionClose 0] false c Hc Hb).
Qed.

(** A run of the connection's handlers, in any order, at the instant [now], with a
    bound on the packets they send. *)
Inductive conn_run (c : Conn) : Z -> Conn -> Prop :=
| run_start : conn_run c 0 c
| run_packet n c1 space pn frames : conn_run c n c1 ->
    conn_run c (n + K * zlen frames)
      (snd (process_plaintext transmit handle_crypto client_bidi server_uni stream_type stream_index now space pn frames c1))
| run_acks n c1 : conn_run c n c1 -> conn_run c (n + 3) (flush_acks transmit now c1)
| run_timer n c1 : conn_run c n c1 -> conn_run c (n + zlen (sent c1)) (snd (run_pto transmit now c1))
| run_query n c1 : conn_run c n c1 -> conn_run c (n + query_sends c1) (snd (flush_query_send transmit now c1))
| run_open n c1 query : conn_run c n c1 ->
    conn_run c (n + (1 + zlen query)) (snd (open_query transmit client_bidi make_stream_id now query c1))
| run_close n c1 : conn_run c n c1 -> conn_run c (n + 1) (close transmit now c1).

Lemma moved_step n k c c1 c2 : 0 <= k -> moved n c c1 -> moved k c1 c2 -> moved (n + k) c c2.
Proof.
  intros Hk M1 M2 Hc Hb. destruct M1 as [N1 B1]; [done|intros s; specialize (Hb s); lia|].
  destruct M2 as [N2 B2]; [done|intros s; specialize (Hb s); specialize (B1 s); lia|].
  split; [done|]. intros s. specialize (B1 s). specialize (B2 s). lia.
Qed.

End numbering.

Definition idle_conn : Conn :=
  set_query_tx (fresh_conn (mkQuerySend [] 0 0 false) 1048576 65536) None.


(** The packet that carries only an acknowledgement is kept for retransmission,
    and the timer sends it again. *)
Example ack_only_packet_retransmitted :
  let transmit := fun _ _ _ _ => Ok tt in
  let c := flush_acks transmit 5 (set_pending_acks idle_conn (mkPerSpace [] [] [9])) in
  map sp_frames (sent c) = [[FAck 9 0 [(0, 0)]]] /\
  map (fun p => (sp_pn p, sp_frames p)) (sent (snd (run_pto transmit (millis 2000) c))) = [(1, [FAck 9 0 [(0, 0)]])].
Proof. split; vm_compute; reflexivity. Qed.
