(* ===== verification/Front.v ===== *)
(** * The client side of the resolver ([src/resolver.rs])

    A resolution and the message made of it, reverse names, the answers that come
    from configuration instead of the network ([hosts] pins and synthetic
    addresses), and the handling of a client's message.  Resolving for real is a
    parameter. *)
From S2P Require Import Prelude Wire Prng Name Compress Qtype Edns Bitmap RData Rr Message BTree Addr CacheKey Query Hosts Policy FakeIp.

(** ** Resolutions *)

Record Resolution := mkResolution {
  res_name : Name;
  res_type : RrType;
  res_class : RrClass;
  res_rcode : Rcode;
  res_answers : list Rr;
  res_authorities : list Rr;
  res_rrsigs : list Rr;
  res_validated : bool;
  res_ttl : Z;
  from_cache : bool;
  res_stale : bool;
  ecs_scope : option Z;
  served_at : Z }.

(** [Resolution { ttl, answers, ..empty_answer(key, ...) }] *)
Definition local_resolution (key : QueryKey) (ttl now : Z) (answers : list Rr) : Resolution :=
  mkResolution (qk_name key) (qk_type key) (qk_class key) Rcodes.NOERROR answers [] [] false ttl
    false false None now.

Definition empty_answer (key : QueryKey) (ttl now : Z) : Resolution := local_resolution key ttl now [].

(** ** Reverse names *)

Definition eq_ignore_case (a b : list Z) : bool := bool_decide (to_lower <$> a = to_lower <$> b).

Definition label_is (ls : list (list Z)) (i : Z) (text : string) : bool :=
  match get ls i with Some l => eq_ignore_case l (ascii_bytes text) | None => false end.

(** A label that is not UTF-8 is not a number either. *)
Definition octet_label (l : list Z) : option Z :=
  if (zlen l =? 0) || (3 <? zlen l) || ((1 <? zlen l) && bool_decide (list.head l = Some 48)) then None
  else parse_u8 l.

Fixpoint octet_labels (ls : list (list Z)) : option (list Z) :=
  match ls with
  | [] => Some []
  | l :: ls => o ← octet_label l; os ← octet_labels ls; Some (o :: os)
  end.

(** The labels fill the four octets from the end. *)
Definition parse_in_addr_arpa (n : Name) : option Z :=
  let ls := labels n in
  if negb (zlen ls =? 6) then None else
  if negb (label_is ls 4 "in-addr") || negb (label_is ls 5 "arpa") then None else
  os ← octet_labels (take 4 ls);
  Some (be_val (rev os)).

(** The loop over the nibble labels; [nibble] is [31 - i]. *)
Fixpoint nibble_loop (nibble : Z) (ls : list (list Z)) (octets : list Z) : option (list Z) :=
  match ls with
  | [] => Some octets
  | l :: ls =>
      if negb (zlen l =? 1) then None else
      c ← list.head l;
      digit ← to_digit 16 c;
      slot ← get octets (nibble / 2);
      let v := Z.lor slot (wrap 8 (Z.shiftl digit (4 * (1 - nibble mod 2)))) in
      nibble_loop (nibble - 1) ls (<[Z.to_nat (nibble / 2) := v]> octets)
  end.

Definition parse_ip6_arpa (n : Name) : option Z :=
  let ls := labels n in
  if negb (zlen ls =? 34) then None else
  if negb (label_is ls 32 "ip6") || negb (label_is ls 33 "arpa") then None else
  be_val <$> nibble_loop 31 (take 32 ls) (replicate 16 0).

(** ** Answers from configuration *)

Record DnsPolicy := mkDnsPolicy { dp_hosts : HostsTable; dp_fake_ip : option FakeIpSettings }.

(** The type and data of the record for an address. *)
Definition address_rdata (ip : IpAddr) : RData :=
  match ip with V4 a => RD_A (v4_octets a) | V6 a => RD_Aaaa (v6_octets a) end.

Definition reverse_address (n : Name) : option IpAddr :=
  match parse_in_addr_arpa n with
  | Some a => Some (V4 a)
  | None => V6 <$> parse_ip6_arpa n
  end.

(** The answer and the pool it leaves. *)
Definition local_answer (dns : DnsPolicy) (pool : option FakeIpPool) (key : QueryKey) (now : Z)
    : option Resolution * option FakeIpPool :=
  if negb (qk_class key =? RrClasses.IN_) then (None, pool) else
  match hosts_answer (dp_hosts dns) (qk_name key) (qk_type key) with
  | Some records => (Some (local_resolution key (h_ttl (dp_hosts dns)) now records), pool)
  | None =>
  match dp_fake_ip dns with
  | None => (None, pool)
  | Some settings =>
  let ttl := answer_ttl settings in
  if qk_type key =? RrTypes.PTR then
    match reverse_address (qk_name key), pool with
    | Some ip, Some p =>
        let '(owner, p) := pool_lookup p ip now in
        ((fun owner => local_resolution key ttl now
            [mkRecord (qk_name key) RrTypes.PTR RrClasses.IN_ ttl (RD_Ptr owner)]) <$> owner, Some p)
    | _, _ => (None, pool)
    end
  else
    let family := if qk_type key =? RrTypes.A then Some FamV4
                  else if qk_type key =? RrTypes.AAAA then Some FamV6 else None in
    match family with
    | None => (None, pool)
    | Some family =>
        if negb (settings_synthesizes settings family) then (Some (empty_answer key ttl now), pool) else
        match pool with
        | None => (None, None)
        | Some p =>
            let '(r, p) := pool_allocate p (qk_name key) family now in
            (match r with
             | Ok (Address ip) =>
                 Some (local_resolution key ttl now
                   [mkRecord (qk_name key) (qk_type key) RrClasses.IN_ ttl (address_rdata ip)])
             | Ok Filtered | Err _ => None
             end, Some p)
        end
    end
  end
  end.

(** ** Client messages *)

Definition client_key (query : Message) (q : Question) : QueryKey :=
  mkQueryKey (qname q) (qtype q) (qclass q) (e ← edns query; c ← ecs e; from_ecs c)
    (match edns query with Some e => dnssec_ok e | None => false end) (cd (flags query)).

Definition with_ttl (ttl : Z) (r : Rr) : Rr := mkRecord (name r) (rr_type r) (class r) ttl (rdata r).

Definition build_response (anchored : bool) (query : Message) (res : Resolution) : Message :=
  let want_dnssec := match edns query with Some e => dnssec_ok e | None => false end in
  let f := mkFlags true (opcode default_flags) (aa default_flags) (tc default_flags) (rd (flags query)) true
             (res_validated res && anchored && (want_dnssec || ad (flags query))) (cd (flags query))
             (res_rcode res) in
  let cap := with_ttl (res_ttl res) in
  mkMessage (id query) f (questions query)
    (map cap (res_answers res) ++ if want_dnssec then map cap (res_rrsigs res) else [])
    (map cap (res_authorities res)) []
    ((fun e => mkEdns (Z.max (udp_payload_size e) 512) 0 0 (dnssec_ok e) []) <$> edns query).

Definition error_rcode (e : Error) : Rcode :=
  match err_kind e with
  | NxDomain => Rcodes.NXDOMAIN
  | NoData => Rcodes.NOERROR
  | Servfail | NoUpstream => Rcodes.SERVFAIL
  | Policy => Rcodes.REFUSED
  | RateLimited => Rcodes.REFUSED
  | _ => Rcodes.SERVFAIL
  end.

(** What a client's message can change: the synthetic addresses and the rate
    limiter. *)
Record FrontState := mkFront { fs_pool : option FakeIpPool; fs_limiter : RateLimiter }.

Definition blocked_by_policy : Error := policy_error "name blocked by policy".

Section front.
Context (policy : PolicyConfig) (dns : DnsPolicy) (anchored : bool).
(** The resolution of a key that is neither blocked nor answered locally. *)
Context (resolve : QueryKey -> result Error Resolution).

Definition resolve_key (pool : option FakeIpPool) (key : QueryKey) (now : Z)
    : result Error Resolution * option FakeIpPool :=
  if is_blocked policy (qk_name key) then (Err blocked_by_policy, pool) else
  match local_answer dns pool key now with
  | (Some res, pool) => (Ok res, pool)
  | (None, pool) => (resolve key, pool)
  end.

Definition handle_query (s : FrontState) (query : Message) (client_ip : option IpAddr) (now : Z)
    : Message * FrontState :=
  match validate_query policy query with
  | Err _ => (error_response query Rcodes.FORMERR, s)
  | Ok _ =>
      let '(allowed, limiter) :=
        match client_ip with
        | Some ip => client_allowed (fs_limiter s) ip now
        | None => (true, fs_limiter s)
        end in
      let s := mkFront (fs_pool s) limiter in
      if negb allowed then (error_response query Rcodes.REFUSED, s) else
      match question query with
      | None => (error_response query Rcodes.FORMERR, s)
      | Some q =>
          let '(r, pool) := resolve_key (fs_pool s) (client_key query q) now in
          let s := mkFront pool limiter in
          match r with
          | Ok res => (build_response anchored query res, s)
          | Err e => (error_response query (error_rcode e), s)
          end
      end
  end.
End front.

(** ** Reverse names: specification *)

Definition hex_digit (d : Z) : Z := if d <? 10 then 48 + d else 87 + d.

(** [in-addr.arpa] and [ip6.arpa] names of an address (RFC 1035, RFC 3596). *)
Definition arpa4 (a : Z) : list (list Z) :=
  map show_u8 (rev (v4_octets a)) ++ [ascii_bytes "in-addr"; ascii_bytes "arpa"].
Definition arpa6 (a : Z) : list (list Z) :=
  flat_map (fun o => [[hex_digit (o mod 16)]; [hex_digit (o / 16)]]) (rev (v6_octets a))
  ++ [ascii_bytes "ip6"; ascii_bytes "arpa"].
Definition arpa (ip : IpAddr) : list (list Z) := match ip with V4 a => arpa4 a | V6 a => arpa6 a end.

Lemma octet_label_show v : is_byte v -> octet_label (show_u8 v) = Some v.
Proof.
  intros Hv. apply (bool_decide_eq_true (octet_label (show_u8 v) = Some v)). revert v Hv.
  apply (byte_forall (fun v => bool_decide (octet_label (show_u8 v) = Some v))). vm_compute. reflexivity.
Qed.

(** The labels accepted are the octets' texts, and those with a sign. *)
Lemma octet_label_sound l v : octet_label l = Some v -> list.head l <> Some 43 -> l = show_u8 v /\ is_byte v.
Proof.
  unfold octet_label. destruct (_ || _ || _) eqn:E; [done|]. apply orb_false_iff in E as [E E3].
  apply orb_false_iff in E as [E1 E2]. bools. intros Hp Hh. pose proof (parse_u8_range _ _ Hp) as Hv.
  split; [|done]. unfold parse_u8 in Hp.
  assert (match l with 43 :: s' => s' | _ => l end = l) as El.
  { destruct l as [|c s]; [done|]. cbn [list.head] in Hh. destruct (decide (c = 43)) as [->|]; [done|]. by repeat case_match. }
  rewrite El in Hp. destruct (decimal l) as [w|] eqn:Ed; [|done].
  destruct (w <=? u8_max); [|done]. injection Hp as ->. unfold decimal in Ed.
  destruct ((zlen l =? 0) || negb (forallb is_ascii_digit l)) eqn:E4; [done|].
  apply orb_false_iff in E4 as [_ E4]. apply negb_false_iff in E4. injection Ed as Ed.
  destruct l as [|a [|b [|c [|d l]]]]; try (by unfold zlen in *; cbn in *; lia).
  all: cbn [forallb fold_left] in E4, Ed; unfold is_ascii_digit in E4; bools; subst v; unfold show_u8.
  - rewrite (proj2 (Z.ltb_lt _ _)) by lia. f_equal. lia.
  - assert (a <> 48).
    { intros ->. change (1 <? zlen [48; b]) with true in E3. cbn [list.head] in E3. by rewrite bool_decide_true in E3. }
    rewrite (proj2 (Z.ltb_ge _ _)), (proj2 (Z.ltb_lt _ 100)) by lia.
    f_equal; [|f_equal]; Z.to_euclidean_division_equations; lia.
  - assert (a <> 48).
    { intros ->. change (1 <? zlen [48; b; c]) with true in E3. cbn [list.head] in E3. by rewrite bool_decide_true in E3. }
    rewrite (proj2 (Z.ltb_ge _ _)), (proj2 (Z.ltb_ge _ 100)) by lia.
    f_equal; [|f_equal; [|f_equal]]; Z.to_euclidean_division_equations; lia.
Qed.

Lemma octet_labels_show os : bytes os -> octet_labels (map show_u8 os) = Some os.
Proof.
  induction 1 as [|o os Ho _ IH]; [done|]. cbn [map octet_labels]. rewrite octet_label_show by done.
  cbn [mbind option_bind]. by rewrite IH.
Qed.

Lemma octet_labels_sound ls os : octet_labels ls = Some os -> Forall (fun l => list.head l <> Some 43) ls ->
  ls = map show_u8 os /\ bytes os.
Proof.
  revert os. induction ls as [|l ls IH]; intros os; [intros [= <-] _; by split; [|constructor]|].
  cbn [octet_labels]. destruct (octet_label l) as [o|] eqn:E; [|done]. cbn [mbind option_bind].
  destruct (octet_labels ls) as [os'|]; [|done]. cbn [mbind option_bind]. intros [= <-] Hf.
  apply List.Forall_cons_iff in Hf as [Hh Hf].
  destruct (IH os' eq_refl Hf) as [-> Hb]. destruct (octet_label_sound l o E Hh) as [-> Ho].
  by split; [|constructor].
Qed.

Lemma label_is_middle pre l post i text :
  zlen pre = i -> to_lower <$> l = l -> to_lower <$> ascii_bytes text = ascii_bytes text ->
  label_is (pre ++ l :: post) i text = bool_decide (l = ascii_bytes text).
Proof.
  intros Hi Hl Ht. unfold label_is. rewrite <- Hi, get_middle. unfold eq_ignore_case. by rewrite Hl, Ht.
Qed.

Lemma in_addr_arpa_iff ls a :
  Forall label_ok ls -> Forall lower_ok ls -> Forall (fun l => list.head l <> Some 43) ls ->
  parse_in_addr_arpa (of_labels ls) = Some a <-> 0 <= a <= u32_max /\ ls = arpa4 a.
Proof.
  intros Hok Hlow Hplus. unfold parse_in_addr_arpa. rewrite labels_of_labels by done. split.
  - destruct (zlen ls =? 6) eqn:El; [|done]. bools. cbn [negb].
    do 6 (destruct ls as [|? ls]; [by unfold zlen in El; cbn in El; lia|]).
    destruct ls; [|unfold zlen in El; cbn in El; lia].
    destruct (negb _ || negb _) eqn:E; [done|]. apply orb_false_iff in E as [E4 E5].
    apply negb_false_iff in E4, E5. apply bool_decide_eq_true in E4, E5. unfold get, zlen in *.
    rewrite !List.Forall_cons_iff in Hlow. destruct Hlow as (_ & _ & _ & _ & L4 & L5 & _).
    rewrite L4 in E4. rewrite L5 in E5. cbn in E4, E5. subst. cbn [take].
    destruct (octet_labels _) as [os|] eqn:Eo; [|done]. cbn [mbind option_bind]. intros [= <-].
    apply octet_labels_sound in Eo as [Eo Hb].
    2: { rewrite !List.Forall_cons_iff in Hplus. repeat constructor; tauto. }
    assert (length os = 4%nat) as Hlen by (apply (f_equal length) in Eo; rewrite length_map in Eo; done).
    assert (bytes (rev os)) as Hr by (by apply List.Forall_rev).
    pose proof (be_val_bound _ Hr) as B. unfold zlen in B. rewrite length_rev, Hlen in B.
    split; [unfold u32_max; lia|]. unfold arpa4, v4_octets. rewrite <- Hlen at 1.
    rewrite <- (length_rev os), be_bytes_be_val, rev_involutive, <- Eo by done. done.
  - intros [Ha ->]. unfold arpa4. unfold v4_octets.
    pose proof (be_bytes_bytes 4 a) as Hb. pose proof (be_val_be_bytes_small 4 a ltac:(unfold u32_max in Ha; cbn; lia)) as Hv.
    pose proof (zlen_be_bytes 4 a) as Hz. destruct (be_bytes 4 a) as [|o0 [|o1 [|o2 [|o3 []]]]];
      try (by unfold zlen in Hz; cbn in Hz; lia).
    pose proof (octet_labels_show [o3; o2; o1; o0]
      (List.Forall_rev Hb)) as Ho.
    cbn [map] in Ho. cbn [rev app map take]. rewrite Ho.
    change (zlen _ =? 6) with true. change (label_is _ 4 _) with true. change (label_is _ 5 _) with true.
    cbn [mbind option_bind rev app]. by rewrite Hv.
Qed.

(** *** Nibbles *)

Definition nibbles (o : Z) : list (list Z) := [[hex_digit (o mod 16)]; [hex_digit (o / 16)]].

Lemma to_digit_hex d : 0 <= d < 16 -> to_digit 16 (hex_digit d) = Some d.
Proof. intros H. assert (In d (seqZ 0 16)) as Hin by (apply list_elem_of_In, elem_of_seqZ; lia).
  cbn in Hin. repeat destruct Hin as [<-|Hin]; done. Qed.

Lemma hex_to_digit c d : to_lower c = c -> to_digit 16 c = Some d -> c = hex_digit d /\ 0 <= d < 16.
Proof.
  intros Hl Hd. pose proof (to_digit_range _ _ _ Hd) as R. split; [|done]. revert Hl Hd.
  unfold to_lower, to_digit, hex_digit, is_ascii_digit.
  intros Hl Hd. revert Hl. destruct ((65 <=? c) && (c <=? 90)) eqn:Eu; [intros; lia|intros _].
  destruct ((48 <=? c) && (c <=? 57)) eqn:E1.
  { apply andb_true_iff in E1 as [? ?]. bools. destruct (c - 48 <? 16); [|done]. injection Hd as <-. decide_ifs. lia. }
  destruct ((97 <=? c) && (c <=? 102)) eqn:E2.
  { apply andb_true_iff in E2 as [? ?]. bools. destruct (c - 87 <? 16); [|done]. injection Hd as <-. decide_ifs. lia. }
  destruct ((65 <=? c) && (c <=? 70)) eqn:E3; [|done].
  apply andb_true_iff in E3 as [? ?]. bools. apply andb_false_iff in Eu as [?|?]; bools; lia.
Qed.

Lemma nibble_step n x tail c digit rest :
  to_digit 16 c = Some digit -> forall nibble, nibble / 2 = Z.of_nat n ->
  nibble_loop nibble ([c] :: rest) (replicate n 0 ++ x :: tail) =
  nibble_loop (nibble - 1) rest
    (replicate n 0 ++ Z.lor x (wrap 8 (Z.shiftl digit (4 * (1 - nibble mod 2)))) :: tail).
Proof.
  intros Hd nibble Hn. cbn [nibble_loop list.head]. change (zlen [c] =? 1) with true. cbn [negb mbind option_bind].
  rewrite Hd. cbn [mbind option_bind]. rewrite Hn.
  assert (zlen (replicate n 0) = Z.of_nat n) as Hz by (unfold zlen; by rewrite length_replicate).
  pose proof (get_middle (replicate n 0) x tail) as G. rewrite Hz in G. rewrite G. cbn [mbind option_bind].
  rewrite Nat2Z.id. f_equal. rewrite insert_app_r_alt by (rewrite length_replicate; lia).
  by rewrite length_replicate, Nat.sub_diag.
Qed.

Lemma byte_of_nibbles o : is_byte o ->
  Z.lor (Z.lor 0 (wrap 8 (Z.shiftl (o mod 16) 0))) (wrap 8 (Z.shiftl (o / 16) 4)) = o.
Proof.
  intros Ho. apply Z.eqb_eq. revert o Ho.
  apply (byte_forall (fun o => Z.lor (Z.lor 0 (wrap 8 (Z.shiftl (o mod 16) 0))) (wrap 8 (Z.shiftl (o / 16) 4)) =? o)).
  vm_compute. reflexivity.
Qed.

Lemma nibble_loop_spec os tail : bytes os ->
  nibble_loop (2 * zlen os - 1) (flat_map nibbles (rev os)) (replicate (length os) 0 ++ tail) = Some (os ++ tail).
Proof.
  revert tail. induction os as [|o os IH] using rev_ind; intros tail Hb; [done|].
  apply List.Forall_app in Hb as [Hb Ho]. apply List.Forall_cons_iff in Ho as [Ho _].
  rewrite rev_app_distr. cbn [rev app flat_map nibbles]. rewrite length_app, Nat.add_comm. cbn [length Nat.add].
  rewrite replicate_S_end, <- !app_assoc. cbn [app].
  rewrite zlen_app. change (zlen [o]) with 1. pose proof (byte_of_nibbles o Ho) as Hn. unfold is_byte in Ho.
  assert (2 * (zlen os + 1) - 1 = 2 * zlen os + 1) as -> by lia.
  rewrite (nibble_step _ _ _ _ (o mod 16)); [|apply to_digit_hex, Z.mod_pos_bound; lia|].
  2: { unfold zlen. rewrite Z.mul_comm, Z.div_add_l by lia. change (1 / 2) with 0. lia. }
  rewrite (nibble_step _ _ _ _ (o / 16)).
  2: { apply to_digit_hex. split; [by apply Z.div_pos; lia|]. apply Z.div_lt_upper_bound; lia. }
  2: { rewrite Z.add_simpl_r. unfold zlen. rewrite Z.mul_comm, Z.div_mul; lia. }
  rewrite Z.add_simpl_r. rewrite (Z.mul_comm 2), Z.add_comm, Z_mod_plus_full, Z.mod_mul by lia.
  change (4 * (1 - 1 mod 2)) with 0. change (4 * (1 - 0)) with 4. rewrite Hn, Z.mul_comm. by apply IH.
Qed.

Lemma nibble_loop_digits nibble ls octets r : Forall lower_ok ls -> nibble_loop nibble ls octets = Some r ->
  exists ds, ls = map (fun d => [hex_digit d]) ds /\ Forall (fun d => 0 <= d < 16) ds.
Proof.
  intros Hl. revert nibble octets. induction Hl as [|l ls Hl _ IH]; intros nibble octets; [by exists []|].
  cbn [nibble_loop]. destruct (zlen l =? 1) eqn:E; [|done]. bools. cbn [negb].
  destruct l as [|c [|]]; try (by unfold zlen in E; cbn in E; lia). cbn [list.head mbind option_bind].
  destruct (to_digit 16 c) as [d|] eqn:Ed; [|done]. cbn [mbind option_bind].
  destruct (get octets _); [|done]. cbn [mbind option_bind].
  intros (ds & -> & Hds)%IH. unfold lower_ok in Hl. cbn in Hl. injection Hl as Hl.
  destruct (hex_to_digit c d Hl Ed) as [-> Hd]. exists (d :: ds). by split; [|constructor].
Qed.

Lemma nibbles_pairs m ds : length ds = (2 * m)%nat -> Forall (fun d => 0 <= d < 16) ds ->
  exists os, length os = m /\ bytes os /\ map (fun d => [hex_digit d]) ds = flat_map nibbles os.
Proof.
  revert ds. induction m as [|m IH]; intros ds Hlen Hd.
  { destruct ds; [|done]. exists []. split; [done|]. by split; [constructor|]. }
  destruct ds as [|lo [|hi ds]]; [done|cbn in Hlen; lia|]. rewrite !List.Forall_cons_iff in Hd.
  destruct Hd as (Hlo & Hhi & Hd). destruct (IH ds ltac:(cbn in Hlen; lia) Hd) as (os & Hm & Hb & E).
  exists (lo + 16 * hi :: os). split; [cbn; lia|]. split; [constructor; [unfold is_byte; lia|done]|].
  cbn [map flat_map nibbles app]. rewrite E.
  assert ((lo + 16 * hi) mod 16 = lo) as -> by (rewrite Z.mul_comm, Z_mod_plus_full; by apply Z.mod_small).
  assert ((lo + 16 * hi) / 16 = hi) as ->; [|done].
  rewrite Z.mul_comm, Z.div_add by lia. rewrite Z.div_small by lia. lia.
Qed.

Lemma length_nibbles os : length (flat_map nibbles os) = (2 * length os)%nat.
Proof. induction os as [|o os IH]; [done|]. cbn [flat_map nibbles app length]. lia. Qed.

Lemma ip6_arpa_sound ls a : Forall label_ok ls -> Forall lower_ok ls ->
  parse_ip6_arpa (of_labels ls) = Some a -> 0 <= a <= u128_max /\ ls = arpa6 a.
Proof.
  intros Hok Hlow. unfold parse_ip6_arpa. rewrite labels_of_labels by done.
  destruct (zlen ls =? 34) eqn:El; [|done]. bools. cbn [negb].
  destruct (negb _ || negb _) eqn:E; [done|]. apply orb_false_iff in E as [E4 E5].
  apply negb_false_iff in E4, E5.
  assert (length (drop 32 ls) = 2%nat) as Hd by (rewrite length_drop; unfold zlen in El; lia).
  rewrite <- (take_drop 32 ls) in E4, E5, Hlow |- *. remember (take 32 ls) as front eqn:Ef.
  assert (length front = 32%nat) as Hf by (subst; rewrite length_take; unfold zlen in El; lia).
  destruct (drop 32 ls) as [|l4 [|l5 []]]; try done. clear Ef.
  apply List.Forall_app in Hlow as [Hfl Hlow]. rewrite !List.Forall_cons_iff in Hlow. destruct Hlow as (L4 & L5 & _).
  assert (zlen front = 32) as Hz by (unfold zlen; lia).
  rewrite (label_is_middle front l4 [l5]) in E4 by done.
  assert (zlen (front ++ [l4]) = 33) as Hz5 by (rewrite zlen_app, Hz; done).
  pose proof (label_is_middle (front ++ [l4]) l5 [] 33 "arpa" Hz5 L5 eq_refl) as L. rewrite <- app_assoc in L.
  cbn [app] in L. rewrite L in E5. apply bool_decide_eq_true in E4, E5.
  rewrite (take_app_length' front) by lia.
  destruct (nibble_loop _ _ _) as [r|] eqn:En; [|done]. cbn [fmap option_fmap option_map].
  destruct (nibble_loop_digits _ _ _ _ Hfl En) as (ds & -> & Hds). rewrite length_map in Hf.
  destruct (nibbles_pairs 16 ds Hf Hds) as (os & Hm & Hb & Eo). rewrite Eo in *.
  assert (bytes (rev os)) as Hr by (by apply List.Forall_rev).
  pose proof (nibble_loop_spec (rev os) [] Hr) as S. rewrite rev_involutive, length_rev, Hm, !app_nil_r in S.
  unfold zlen in S. rewrite length_rev, Hm in S. change (2 * Z.of_nat 16 - 1) with 31 in S. rewrite S in En.
  injection En as <-. intros [= <-].
  pose proof (be_val_bound _ Hr) as B. unfold zlen in B. rewrite length_rev, Hm in B.
  split; [unfold u128_max; cbn in B; lia|]. unfold arpa6, v6_octets. rewrite <- Hm at 1.
  rewrite <- (length_rev os), be_bytes_be_val, rev_involutive by done. by rewrite E4, E5.
Qed.

Lemma ip6_arpa_complete a : 0 <= a <= u128_max -> Forall label_ok (arpa6 a) ->
  parse_ip6_arpa (of_labels (arpa6 a)) = Some a.
Proof.
  intros Ha Hok. unfold parse_ip6_arpa. rewrite labels_of_labels by done.
  unfold arpa6, v6_octets. change (fun o => [[hex_digit (o mod 16)]; [hex_digit (o / 16)]]) with nibbles.
  pose proof (be_bytes_bytes 16 a) as Hb. pose proof (zlen_be_bytes 16 a) as Hz.
  set (os := be_bytes 16 a) in *. assert (length os = 16%nat) as Hlen by (unfold zlen in Hz; lia).
  assert (zlen (flat_map nibbles (rev os)) = 32) as Hz2
    by (unfold zlen; rewrite length_nibbles, length_rev, Hlen; done).
  rewrite zlen_app, Hz2. change (32 + zlen [ascii_bytes "ip6"; ascii_bytes "arpa"] =? 34) with true. cbn [negb].
  rewrite (label_is_middle _ (ascii_bytes "ip6") [ascii_bytes "arpa"]) by done.
  assert (zlen (flat_map nibbles (rev os) ++ [ascii_bytes "ip6"]) = 33) as Hz3 by (rewrite zlen_app, Hz2; done).
  pose proof (label_is_middle _ (ascii_bytes "arpa") [] 33 "arpa" Hz3 eq_refl eq_refl) as L.
  rewrite <- app_assoc in L. cbn [app] in L. rewrite L. rewrite !bool_decide_eq_true_2 by done. cbn [negb orb].
  rewrite take_app_length' by (unfold zlen in Hz2; lia).
  pose proof (nibble_loop_spec os [] Hb) as S. rewrite Hlen, !app_nil_r, Hz in S.
  change (2 * Z.of_nat 16 - 1) with 31 in S. rewrite S. cbn [fmap option_fmap option_map]. f_equal.
  unfold os. apply be_val_be_bytes_small. unfold u128_max in Ha. cbn. lia.
Qed.

(** Reverse names, exactly: of the names whose labels carry no sign, those read as
    the reverse name of an address are the address's own reverse name. *)
Theorem reverse_address_exact ls ip :
  wf_labels ls -> Forall (fun l => list.head l <> Some 43) ls ->
  reverse_address (of_labels ls) = Some ip <-> ip_ok ip /\ ls = arpa ip.
Proof.
  intros (Hok & Hlow & _) Hplus. unfold reverse_address.
  destruct (parse_in_addr_arpa (of_labels ls)) as [a|] eqn:E4.
  - apply in_addr_arpa_iff in E4 as [Ha E]; try done. split; [intros [= <-]; by split|].
    intros [Hip E2]. destruct ip as [a'|a']; cbn [arpa ip_ok] in *.
    + assert (parse_in_addr_arpa (of_labels ls) = Some a') as P by (by apply in_addr_arpa_iff).
      assert (parse_in_addr_arpa (of_labels ls) = Some a) as P' by (by apply in_addr_arpa_iff). congruence.
    + rewrite E in E2. apply (f_equal length) in E2. unfold arpa4, arpa6, v4_octets, v6_octets in E2.
      rewrite !length_app, length_map, length_rev in E2. fold (nibbles) in E2.
      change (fun o => [[hex_digit (o mod 16)]; [hex_digit (o / 16)]]) with nibbles in E2.
      rewrite length_nibbles, length_rev in E2. pose proof (zlen_be_bytes 4 a). pose proof (zlen_be_bytes 16 a').
      unfold zlen in *. cbn [length] in E2. lia.
  - split.
    + destruct (parse_ip6_arpa (of_labels ls)) as [a|] eqn:E6; [|done]. intros [= <-]. by apply ip6_arpa_sound.
    + intros [Hip E]. destruct ip as [a|a]; cbn [arpa ip_ok] in *.
      * assert (parse_in_addr_arpa (of_labels ls) = Some a) by (by apply in_addr_arpa_iff). congruence.
      * subst ls. by rewrite ip6_arpa_complete.
Qed.

(** A signed octet is read as the number. *)
Example signed_octet_accepted :
  parse_in_addr_arpa (of_labels [[43; 52]; [51]; [50]; [49]; ascii_bytes "in-addr"; ascii_bytes "arpa"]) =
  Some 0x01020304.
Proof. vm_compute. reflexivity. Qed.

Lemma reverse_address_exact_witness :
  reverse_address (of_labels (arpa (V4 0xC6120001))) = Some (V4 0xC6120001).
Proof.
  assert (wf_labels (arpa (V4 0xC6120001))) as Hw.
  { split; [|split; [|split; vm_compute; done]]; repeat constructor; vm_compute; done. }
  apply (reverse_address_exact (arpa (V4 0xC6120001)) (V4 0xC6120001) Hw).
  - repeat constructor; vm_compute; discriminate.
  - split; [vm_compute; split; discriminate|reflexivity].
Defined.

(** ** Synthetic addresses *)

(** The key of a query for a type at a name of class IN. *)
Definition asks (key : QueryKey) (n : Name) (t : RrType) : Prop :=
  qk_name key = n /\ qk_type key = t /\ qk_class key = RrClasses.IN_.

Definition family_type (f : Family) : RrType := match f with FamV4 => RrTypes.A | FamV6 => RrTypes.AAAA end.

Lemma hosts_answer_ptr t n : hosts_answer t n RrTypes.PTR = None.
Proof. done. Qed.

Lemma local_answer_fake dns settings p key n f now :
  asks key n (family_type f) -> hosts_answer (dp_hosts dns) n (family_type f) = None ->
  dp_fake_ip dns = Some settings -> settings_synthesizes settings f = true ->
  local_answer dns (Some p) key now =
  let '(r, p') := pool_allocate p n f now in
  (match r with
   | Ok (Address ip) => Some (local_resolution key (answer_ttl settings) now
       [mkRecord n (family_type f) RrClasses.IN_ (answer_ttl settings) (address_rdata ip)])
   | _ => None end, Some p').
Proof.
  intros (E1 & E2 & E3) Hh Hf Hs. unfold local_answer. rewrite E1, E2, E3, Hh, Hf. cbn [negb].
  assert ((family_type f =? RrTypes.PTR) = false) as -> by (by destruct f).
  assert ((if family_type f =? RrTypes.A then Some FamV4 else if family_type f =? RrTypes.AAAA then Some FamV6 else None)
    = Some f) as -> by (by destruct f).
  rewrite Hs. cbn [negb]. destruct (pool_allocate p n f now) as [[[ip|]|e] p']; done.
Qed.

Lemma local_answer_ptr dns settings p key n ip now :
  asks key n RrTypes.PTR -> dp_fake_ip dns = Some settings -> reverse_address n = Some ip ->
  local_answer dns (Some p) key now =
  let '(owner, p') := pool_lookup p ip now in
  ((fun owner => local_resolution key (answer_ttl settings) now
      [mkRecord n RrTypes.PTR RrClasses.IN_ (answer_ttl settings) (RD_Ptr owner)]) <$> owner, Some p').
Proof.
  intros (E1 & E2 & E3) Hf Hr. unfold local_answer. rewrite E1, E2, E3, hosts_answer_ptr, Hf, Hr. done.
Qed.

Definition plain_label (l : list Z) : bool :=
  (1 <=? zlen l) && (zlen l <=? 63) && forallb (fun b => (0 <=? b) && (b <? 256)) l
  && bool_decide (to_lower <$> l = l) && negb (bool_decide (list.head l = Some 43)).

Lemma plain_label_ok l : plain_label l = true -> label_ok l /\ lower_ok l /\ list.head l <> Some 43.
Proof.
  unfold plain_label. rewrite !andb_true_iff, negb_true_iff, bool_decide_eq_true, bool_decide_eq_false.
  intros ((((H1 & H2) & H3) & H4) & H5). bools. split; [|done]. split; [lia|].
  rewrite forallb_forall in H3. apply List.Forall_forall. intros b Hb. specialize (H3 b Hb).
  apply andb_true_iff in H3 as [? ?]. bools. unfold is_byte. lia.
Qed.

Lemma arpa_labels ip : Forall (fun l => plain_label l = true) (arpa ip).
Proof.
  destruct ip as [a|a]; cbn [arpa]; unfold arpa4, arpa6, v4_octets, v6_octets; apply List.Forall_app;
    (split; [|repeat constructor]).
  - apply List.Forall_map, List.Forall_rev. eapply List.Forall_impl; [|apply be_bytes_bytes].
    intros o Ho. revert o Ho. apply (byte_forall (fun o => plain_label (show_u8 o))). vm_compute. reflexivity.
  - apply List.Forall_flat_map, List.Forall_rev. eapply List.Forall_impl; [|apply be_bytes_bytes].
    intros o Ho.
    assert (plain_label [hex_digit (o mod 16)] && plain_label [hex_digit (o / 16)] = true) as [? ?]%andb_true_iff
      by (revert o Ho; apply (byte_forall (fun o => plain_label [hex_digit (o mod 16)] && plain_label [hex_digit (o / 16)]));
          vm_compute; reflexivity).
    by repeat constructor.
Qed.

Lemma reverse_address_arpa ip : ip_ok ip -> reverse_address (of_labels (arpa ip)) = Some ip.
Proof.
  intros Hip. pose proof (arpa_labels ip) as H.
  assert (Forall label_ok (arpa ip) /\ Forall lower_ok (arpa ip) /\ Forall (fun l => list.head l <> Some 43) (arpa ip))
    as (H1 & H2 & H3) by (split; [|split]; (eapply List.Forall_impl; [|exact H]); intros l Hl; apply (plain_label_ok l Hl)).
  unfold reverse_address. destruct ip as [a|a]; cbn [arpa ip_ok] in *.
  - by rewrite (proj2 (in_addr_arpa_iff (arpa4 a) a H1 H2 H3)).
  - destruct (parse_in_addr_arpa (of_labels (arpa6 a))) as [a'|] eqn:E4; [|by rewrite ip6_arpa_complete].
    apply in_addr_arpa_iff in E4 as [_ E]; [|done..]. exfalso.
    apply (f_equal length) in E. unfold arpa4, arpa6, v4_octets, v6_octets in E.
    rewrite !length_app, length_map, length_rev in E.
    change (fun o => [[hex_digit (o mod 16)]; [hex_digit (o / 16)]]) with nibbles in E.
    rewrite length_nibbles, length_rev in E. pose proof (zlen_be_bytes 4 a'). pose proof (zlen_be_bytes 16 a).
    unfold zlen in *. cbn [length] in E. lia.
Qed.

(** In fake-IP mode no address query for a name reaches the network, unless the
    name is excluded by the filter: a family without a range is answered with no
    data; a family with one with a single record of the family's type, and the
    reverse query for the address in it is answered with the name, whatever the
    time. *)
Theorem fake_ip_no_escape dns settings p key n f now :
  pool_ok p -> v6_net p = range6 settings ->
  asks key n (family_type f) -> hosts_answer (dp_hosts dns) n (family_type f) = None ->
  dp_fake_ip dns = Some settings ->
  match local_answer dns (Some p) key now with
  | (None, _) => is_filtered p n = true /\ settings_synthesizes settings f = true
  | (Some res, pool') =>
      res_rcode res = Rcodes.NOERROR /\ res_ttl res = answer_ttl settings /\
      if settings_synthesizes settings f then
        exists ip p', pool' = Some p' /\ pool_ok p' /\
          res_answers res = [mkRecord n (family_type f) RrClasses.IN_ (answer_ttl settings) (address_rdata ip)] /\
          (exists k, ip = addr_of f k) /\
          forall key' later, asks key' (of_labels (arpa ip)) RrTypes.PTR ->
            fst (local_answer dns (Some p') key' later) =
            Some (local_resolution key' (answer_ttl settings) later
              [mkRecord (of_labels (arpa ip)) RrTypes.PTR RrClasses.IN_ (answer_ttl settings) (RD_Ptr n)])
      else res_answers res = [] /\ pool' = Some p
  end.
Proof.
  intros Hok Hnet Hask Hh Hf. destruct (settings_synthesizes settings f) eqn:Es.
  - rewrite (local_answer_fake dns settings p key n f now) by done.
    assert (is_Some (space p f)) as Hsp.
    { destruct f; [by eexists|]. cbn in Es |- *. destruct Hok as (_ & _ & H6). rewrite Hnet in H6.
      destruct (range6 settings); [|done]. destruct (v6 p); [by eexists|done]. }
    pose proof (pool_allocate_spec p n f now Hok Hsp) as A. pose proof (pool_allocate_ok p n f now Hok) as Hok'.
    destruct (pool_allocate p n f now) as [r p']. destruct A as (_ & _ & A). cbn [snd] in Hok'.
    destruct (is_filtered p n) eqn:Ef; [by destruct A as [-> _]|].
    destruct A as (k & -> & Hpeek & Hlook & _). split; [done|]. split; [done|].
    exists (addr_of f k), p'. split; [done|]. split; [done|]. split; [done|]. split; [by exists k|].
    intros key' later Hask'.
    assert (ip_ok (addr_of f k)) as Hip.
    { apply pool_peek_mapped in Hpeek; [|done]. apply (mapped_range _ _ _ _ Hok') in Hpeek as [_ B].
      by destruct f. }
    rewrite (local_answer_ptr dns settings p' key' _ (addr_of f k) later Hask' Hf) by (by apply reverse_address_arpa).
    pose proof (Hlook later) as L. destruct (pool_lookup p' (addr_of f k) later) as [o p'']. cbn [fst] in L. by rewrite L.
  - destruct Hask as (E1 & E2 & E3). unfold local_answer. rewrite E1, E2, E3, Hh, Hf. cbn [negb].
    assert ((family_type f =? RrTypes.PTR) = false) as -> by (by destruct f).
    assert ((if family_type f =? RrTypes.A then Some FamV4 else if family_type f =? RrTypes.AAAA then Some FamV6 else None)
      = Some f) as -> by (by destruct f).
    rewrite Es. done.
Qed.

Definition demo_settings : FakeIpSettings :=
  mkSettings (v4_net demo_pool) (v6_net demo_pool) [] 3600 2 60.
Definition demo_dns : DnsPolicy := mkDnsPolicy hosts_default (Some demo_settings).

Lemma fake_ip_no_escape_witness :
  let n := of_labels [[97]; [99]] in
  let key := mkQueryKey n RrTypes.AAAA RrClasses.IN_ None false false in
  is_filtered demo_pool n = false /\
  exists res p' ip, local_answer demo_dns (Some demo_pool) key 5 = (Some res, Some p') /\
    fst (local_answer demo_dns (Some p') (mkQueryKey (of_labels (arpa ip)) RrTypes.PTR RrClasses.IN_ None false false) 9)
      <> None.
Proof.
  intros n key. split; [vm_compute; reflexivity|].
  pose proof (fake_ip_no_escape demo_dns demo_settings demo_pool key n FamV6 5
    (reachable_ok _ _ (demo_reachable false)) eq_refl (conj eq_refl (conj eq_refl eq_refl)) eq_refl eq_refl) as H.
  destruct (local_answer demo_dns (Some demo_pool) key 5) as [[res|] pool'].
  - destruct H as (_ & _ & ip & p' & -> & _ & _ & _ & R). exists res, p', ip. split; [reflexivity|].
    rewrite (R (mkQueryKey (of_labels (arpa ip)) RrTypes.PTR RrClasses.IN_ None false false) 9
      (conj eq_refl (conj eq_refl eq_refl))). discriminate.
  - destruct H as [H _]. vm_compute in H. discriminate.
Defined.

(** ** Responses *)

(** The message was answered by resolving its question. *)
Definition resolved policy dns resolve (s : FrontState) (query : Message) (now : Z) (res : Resolution) : Prop :=
  exists q, question query = Some q /\
    (resolve_key policy dns resolve (fs_pool s) (client_key query q) now).1 = Ok res.

Definition wants_dnssec (query : Message) : bool :=
  match edns query with Some e => dnssec_ok e | None => false end.

(** The outcomes of a message, with the pool each leaves. *)
Lemma handle_query_cases policy dns anchored resolve s query ip now :
  let '(m, s') := handle_query policy dns anchored resolve s query ip now in
  (exists e, m = error_response query e /\ fs_pool s' = fs_pool s /\ (e = Rcodes.FORMERR \/ e = Rcodes.REFUSED)
     /\ (is_ok (validate_query policy query) = true -> e = Rcodes.REFUSED \/ question query = None)) \/
  (is_ok (validate_query policy query) = true /\ exists q, question query = Some q /\
     let '(r, p) := resolve_key policy dns resolve (fs_pool s) (client_key query q) now in
     fs_pool s' = p /\
     m = match r with Ok res => build_response anchored query res | Err e => error_response query (error_rcode e) end).
Proof.
  unfold handle_query. destruct (validate_query policy query) as [[]|e].
  2: { left. exists Rcodes.FORMERR. split; [done|]. split; [done|]. split; [by left|done]. }
  destruct (match ip with Some ip => client_allowed (fs_limiter s) ip now | None => (true, fs_limiter s) end)
    as [allowed limiter]. destruct allowed; cbn [negb].
  2: { left. exists Rcodes.REFUSED. split; [done|]. split; [done|]. split; [by right|by left]. }
  cbn [fs_pool]. destruct (question query) as [q|].
  2: { left. exists Rcodes.FORMERR. split; [done|]. split; [done|]. split; [by left|by right]. }
  destruct (resolve_key policy dns resolve (fs_pool s) (client_key query q) now) as [r p] eqn:Er.
  destruct r; right; (split; [done|]); exists q; rewrite Er; done.
Qed.

