(* ===== verification/Inflight.v ===== *)
(** * Coalescing of identical resolutions ([src/resolver.rs])

    One thread resolves a key and the others wait for its result.  The slots are
    shared cells ([Arc<Slot>]), so the model has a store of them; an owner, alive
    until it has published or been dropped, is keyed by its slot.  Threads
    interleave at the locks: storing the result, raising [done] and leaving the
    table are separate steps of an owner. *)
From stdpp Require Import gmap relations.
From S2P Require Import Prelude BTree.

Section inflight.
Context {K R : Type} `{EqDecision K, KeyOrder K}.

Record Slot := mkSlot { sl_result : option R; sl_done : bool }.
Definition slot_new : Slot := mkSlot None false.

(** How far an owner is: still resolving; its result stored; [done] raised. *)
Inductive Phase := Resolving | Stored | Releasing.

Record State := mkState {
  store : gmap nat Slot;
  owners : gmap nat (K * Phase);
  table : list (K * nat);
  max : Z;
  next : nat }.

(** [Inflight::new] *)
Definition inflight_new (m : Z) : State := mkState ∅ ∅ [] (Z.max m 1) 0.

Inductive Claim := Owner (slot : nat) | Waiter (slot : nat).

Definition is_done (s : State) (i : nat) : bool :=
  match store s !! i with Some sl => sl_done sl | None => false end.

Definition claim (s : State) (key : K) : Claim * State :=
  let waiting := match bt_get (table s) key with Some i => if is_done s i then None else Some i | None => None end in
  match waiting with
  | Some i => (Waiter i, s)
  | None =>
      let t := match bt_get (table s) key with Some _ => bt_remove (table s) key | None => table s end in
      let t := if max s <=? zlen t then tail t else t in
      let i := next s in
      (Owner i, mkState (<[i := slot_new]> (store s)) (<[i := (key, Resolving)]> (owners s))
                  (bt_insert t key i) (max s) (S i))
  end.

(** [Slot::publish], the part under the slot's lock: the first result wins. *)
Definition publish_result (sl : Slot) (r : R) : Slot :=
  match sl_result sl with None => mkSlot (Some r) (sl_done sl) | Some _ => sl end.

(** [Slot::read]: [None] while the caller is blocked. *)
Definition read (s : State) (i : nat) : option R := sl ← store s !! i; sl_result sl.

(** The steps of a live owner. It publishes a result of its own, or, dropped
    without one, the error [aborted]: either way some [r]. The table lock is
    only tried on the way out; an owner that finds it busy leaves its entry. *)
Inductive owner_step (s : State) : State -> Prop :=
| StepStore i key sl r :
    owners s !! i = Some (key, Resolving) -> store s !! i = Some sl ->
    owner_step s (mkState (<[i := publish_result sl r]> (store s)) (<[i := (key, Stored)]> (owners s))
                    (table s) (max s) (next s))
| StepDone i key sl :
    owners s !! i = Some (key, Stored) -> store s !! i = Some sl ->
    owner_step s (mkState (<[i := mkSlot (sl_result sl) true]> (store s)) (<[i := (key, Releasing)]> (owners s))
                    (table s) (max s) (next s))
| StepRelease i key :
    owners s !! i = Some (key, Releasing) ->
    owner_step s (mkState (store s) (delete i (owners s)) (bt_remove (table s) key) (max s) (next s))
| StepBusy i key :
    owners s !! i = Some (key, Releasing) ->
    owner_step s (mkState (store s) (delete i (owners s)) (table s) (max s) (next s)).

Inductive step (s : State) : State -> Prop :=
| StepClaim key : step s (claim s key).2
| StepOwner s' : owner_step s s' -> step s s'.

Definition reachable (m : Z) (s : State) : Prop := rtc step (inflight_new m) s.
End inflight.
Arguments Slot : clear implicits.
Arguments State : clear implicits.

(** ** Invariant *)

Section invariant.
Context {K R : Type} `{EqDecision K, KeyOrderLaws K}.
Implicit Types (s : State K R).

(** The slot an owner in a phase leaves. *)
Definition phase_slot (p : option Phase) (sl : Slot R) : Prop :=
  match p with
  | Some Resolving => sl = slot_new
  | Some Stored => is_Some (sl_result sl) /\ sl_done sl = false
  | Some Releasing | None => is_Some (sl_result sl) /\ sl_done sl = true
  end.

Record inflight_ok s : Prop := {
  io_max : 1 <= max s;
  io_sorted : bt_sorted (table s);
  io_len : zlen (table s) <= max s;
  io_fresh : forall i, (next s <= i)%nat -> store s !! i = None;
  io_table : forall k i, In (k, i) (table s) -> is_Some (store s !! i);
  io_keys : forall k i k' p, In (k, i) (table s) -> owners s !! i = Some (k', p) -> k' = k;
  io_owners : forall i kp, owners s !! i = Some kp -> is_Some (store s !! i);
  io_slots : forall i sl, store s !! i = Some sl -> phase_slot (snd <$> owners s !! i) sl }.

Lemma inflight_new_ok m : inflight_ok (inflight_new m).
Proof. constructor; cbn; try done; try lia. constructor. unfold zlen. cbn. lia. Qed.

Lemma zlen_tail {A} (l : list A) : zlen (tail l) <= zlen l /\ (1 <= zlen l -> zlen (tail l) <= zlen l - 1).
Proof. destruct l as [|x l]; cbn [tail]; [by split|]. rewrite zlen_cons. split; intros; lia. Qed.

Lemma tail_In {A} (x : A) (l : list A) : In x (tail l) -> In x l.
Proof. destruct l; [done|]. by right. Qed.

Lemma tail_sorted (t : list (K * nat)) : bt_sorted t -> bt_sorted (tail t).
Proof. destruct t as [|[k i] t]; [done|]. intros Hs. by apply bt_sorted_cons in Hs as [_ Ht]. Qed.

Lemma claim_ok s key : inflight_ok s -> inflight_ok (claim s key).2.
Proof.
  intros Ok. unfold claim. destruct (match bt_get (table s) key with Some _ => _ | None => _ end); [exact Ok|].
  destruct Ok as [Om Os Ol Of Ot Ok Oo Osl].
  set (t := match bt_get (table s) key with Some _ => bt_remove (table s) key | None => table s end).
  assert (bt_sorted t /\ zlen t <= max s /\ forall x, In x t -> In x (table s)) as (St & Lt & It).
  { unfold t. destruct (bt_get (table s) key) eqn:E; [|by repeat split]. split; [by apply filter_sorted|].
    split; [pose proof (zlen_filter_le (fun kv => negb (bool_decide (kv.1 = key))) (table s)); unfold bt_remove; lia|].
    intros x Hx. unfold bt_remove in Hx. apply filter_In in Hx as [Hx _]. done. }
  assert (bt_get t key = None) as Hk.
  { unfold t. destruct (bt_get (table s) key) eqn:E; [|done]. rewrite bt_get_remove by done. by rewrite decide_True. }
  set (t' := if max s <=? zlen t then tail t else t).
  assert (bt_sorted t' /\ zlen t' <= max s - 1 /\ forall x, In x t' -> In x t) as (St' & Lt' & It').
  { unfold t'. destruct (max s <=? zlen t) eqn:E; bools; [|repeat split; [done|lia|done]].
    split; [by apply tail_sorted|]. split; [pose proof (zlen_tail t) as [_ Hz]; lia|]. intros x Hx. by apply (tail_In x t). }
  constructor; cbn.
  - done.
  - by apply bt_insert_sorted.
  - rewrite zlen_bt_insert by done. destruct (bt_contains_key _ _); lia.
  - intros i Hi. rewrite lookup_insert_ne by lia. apply Of. lia.
  - intros k i Hin. assert (Forall (fun ki : K * nat => is_Some (<[next s := slot_new]> (store s) !! ki.2)) (bt_insert t' key (next s))) as HF.
    { apply bt_insert_Forall; [|cbn; by rewrite lookup_insert_eq].
      apply List.Forall_forall. intros [k' i'] Hx%It'%It%Ot. cbn. apply lookup_insert_is_Some'. by right. }
    rewrite List.Forall_forall in HF. exact (HF _ Hin).
  - intros k i k' p Hin.
    assert (Forall (fun ki : K * nat => forall k' p, <[next s := (key, Resolving)]> (owners s) !! ki.2 = Some (k', p) -> k' = ki.1)
      (bt_insert t' key (next s))) as HF.
    { apply bt_insert_Forall; [|cbn; intros ? ?; rewrite lookup_insert_eq; by intros [= <- _]].
      apply List.Forall_forall. intros [k0 i0] Hx%It'%It k1 p1. cbn. pose proof (Ot _ _ Hx) as [sl Hsl].
      rewrite lookup_insert_ne; [by eapply Ok|]. intros <-. by rewrite Of in Hsl. }
    rewrite List.Forall_forall in HF. exact (HF _ Hin k' p).
  - intros i kp. rewrite lookup_insert_Some, lookup_insert_is_Some'. intros [[<- _]|[_ Hi]]; [by left|right; eauto].
  - intros i sl. rewrite lookup_insert_Some. intros [[<- <-]|[Hne Hi]].
    + by rewrite lookup_insert_eq.
    + rewrite lookup_insert_ne by done. by apply Osl.
Qed.

Lemma owner_step_ok s s' : inflight_ok s -> owner_step s s' -> inflight_ok s'.
Proof.
  intros [Om Os Ol Of Ot Ok Oo Osl] Hst. destruct Hst as [i key sl r Hi Hs|i key sl Hi Hs|i key Hi|i key Hi].
  - pose proof (Osl i sl Hs) as P. rewrite Hi in P. cbn in P. subst sl.
    constructor; cbn; try done.
    + intros j Hj. rewrite lookup_insert_ne; [by apply Of|]. intros <-. rewrite Of in Hs by done. done.
    + intros k j Hin. apply lookup_insert_is_Some'. right. by eapply Ot.
    + intros k j k' p Hin. rewrite lookup_insert_Some. intros [[<- [= <- _]]|[_ Hj]]; by eapply Ok.
    + intros j kp. rewrite lookup_insert_Some, lookup_insert_is_Some'. intros [[<- _]|[_ Hj]]; [by left|right; eauto].
    + intros j sl. rewrite lookup_insert_Some. intros [[<- <-]|[Hne Hj]].
      * by rewrite lookup_insert_eq.
      * rewrite lookup_insert_ne by done. by apply Osl.
  - pose proof (Osl i sl Hs) as P. rewrite Hi in P. cbn in P. destruct P as [P _].
    constructor; cbn; try done.
    + intros j Hj. rewrite lookup_insert_ne; [by apply Of|]. intros <-. rewrite Of in Hs by done. done.
    + intros k j Hin. apply lookup_insert_is_Some'. right. by eapply Ot.
    + intros k j k' p Hin. rewrite lookup_insert_Some. intros [[<- [= <- _]]|[_ Hj]]; by eapply Ok.
    + intros j kp. rewrite lookup_insert_Some, lookup_insert_is_Some'. intros [[<- _]|[_ Hj]]; [by left|right; eauto].
    + intros j sl'. rewrite lookup_insert_Some. intros [[<- <-]|[Hne Hj]].
      * by rewrite lookup_insert_eq.
      * rewrite lookup_insert_ne by done. by apply Osl.
  - constructor; cbn; try done.
    + by apply filter_sorted.
    + pose proof (zlen_filter_le (fun kv => negb (bool_decide (kv.1 = key))) (table s)). unfold bt_remove. lia.
    + intros k j Hin. unfold bt_remove in Hin. apply filter_In in Hin as [Hin _]. by eapply Ot.
    + intros k j k' p Hin. unfold bt_remove in Hin. apply filter_In in Hin as [Hin _].
      rewrite lookup_delete_Some. intros [_ Hj]. by eapply Ok.
    + intros j kp. rewrite lookup_delete_Some. intros [_ Hj]. eauto.
    + intros j sl Hj. destruct (decide (i = j)) as [<-|Hne].
      * rewrite lookup_delete_eq. pose proof (Osl i sl Hj) as P. by rewrite Hi in P.
      * rewrite lookup_delete_ne by done. by apply Osl.
  - constructor; cbn; try done.
    + intros k j k' p Hin. rewrite lookup_delete_Some. intros [_ Hj]. by eapply Ok.
    + intros j kp. rewrite lookup_delete_Some. intros [_ Hj]. eauto.
    + intros j sl Hj. destruct (decide (i = j)) as [<-|Hne].
      * rewrite lookup_delete_eq. pose proof (Osl i sl Hj) as P. by rewrite Hi in P.
      * rewrite lookup_delete_ne by done. by apply Osl.
Qed.

Lemma step_ok s s' : inflight_ok s -> step s s' -> inflight_ok s'.
Proof. intros Hok [key|s1 Hs]; [by apply claim_ok|by eapply owner_step_ok]. Qed.

Lemma steps_ok s s' : inflight_ok s -> rtc step s s' -> inflight_ok s'.
Proof. intros Hok Hr. revert Hok. induction Hr as [|s s1 s2 Hs _ IH]; [done|]. intros Hok. by eapply IH, step_ok. Qed.

Lemma max_constant s s' : rtc step s s' -> max s' = max s.
Proof.
  induction 1 as [|s1 s2 s3 Hs _ IH]; [done|]. rewrite IH. destruct Hs as [key|s2 []]; try done.
  unfold claim. by destruct (match bt_get (table s1) key with Some _ => _ | None => _ end).
Qed.

(** *** The work left to the owners *)

Definition phase_work (p : Phase) : nat := match p with Resolving => 3 | Stored => 2 | Releasing => 1 end.
Definition work_left (m : gmap nat (K * Phase)) : nat := map_fold (fun _ kp n => phase_work kp.2 + n)%nat 0%nat m.

Lemma work_left_delete m i kp : m !! i = Some kp -> work_left m = (phase_work kp.2 + work_left (delete i m))%nat.
Proof. intros Hi. unfold work_left. by rewrite (map_fold_delete_L _ _ i kp) by (intros; lia || done). Qed.

Lemma work_left_insert m i kp : work_left (<[i := kp]> m) = (phase_work kp.2 + work_left (delete i m))%nat.
Proof.
  rewrite (work_left_delete _ i kp) by apply lookup_insert_eq. by rewrite delete_insert_eq.
Qed.

Lemma owner_step_work s s' : owner_step s s' -> work_left (owners s) = S (work_left (owners s')).
Proof.
  intros [i key sl r Hi _|i key sl Hi _|i key Hi|i key Hi]; cbn [owners];
    rewrite (work_left_delete _ i _ Hi), ?work_left_insert; done.
Qed.

Lemma owner_steps_work n s s' : nsteps owner_step n s s' -> work_left (owners s) = (n + work_left (owners s'))%nat.
Proof. induction 1 as [|n s1 s2 s3 Hs _ IH]; [done|]. rewrite (owner_step_work _ _ Hs), IH. done. Qed.

Lemma owner_progress s (r : R) : inflight_ok s -> owners s <> ∅ -> exists s', owner_step s s'.
Proof.
  intros [Om Os Ol Of Ot Ok Oo Osl] (i & [key p] & Hi)%map_choose.
  destruct (Oo i _ Hi) as [sl Hsl]. destruct p.
  - eexists. by apply (StepStore s i key sl r).
  - eexists. by eapply StepDone.
  - eexists. by eapply StepBusy.
Qed.

Lemma owners_finish (r : R) s : inflight_ok s -> exists s', rtc owner_step s s' /\ owners s' = ∅.
Proof.
  remember (work_left (owners s)) as n eqn:En. revert s En. induction n as [|n IH]; intros s En Ok;
    (destruct (decide (owners s = ∅)) as [E|E]; [by exists s|]);
    destruct (owner_progress s r Ok E) as [s1 Hs]; apply owner_step_work in Hs as Hw; [lia|].
  destruct (IH s1) as (s' & Hr & He); [lia|by eapply owner_step_ok|]. exists s'. split; [by eapply rtc_l|done].
Qed.

Lemma owner_steps_step s s' : rtc owner_step s s' -> rtc step s s'.
Proof. induction 1 as [|s1 s2 s3 Hs _ IH]; [done|]. eapply rtc_l; [by apply StepOwner|exact IH]. Qed.

(** *** Results stay *)

Lemma read_claim s key i r : inflight_ok s -> read s i = Some r -> read (claim s key).2 i = Some r.
Proof.
  intros Ok. unfold claim. destruct (match bt_get (table s) key with Some _ => _ | None => _ end); [done|].
  unfold read. cbn [snd store]. destruct (decide (i = next s)) as [->|Hne].
  - by rewrite (io_fresh s Ok).
  - by rewrite lookup_insert_ne.
Qed.

Lemma read_owner_step s s' i r : inflight_ok s -> owner_step s s' -> read s i = Some r -> read s' i = Some r.
Proof.
  intros Ok [j key sl r' Hj Hs|j key sl Hj Hs|j key Hj|j key Hj]; unfold read; cbn [store]; try done;
    (destruct (decide (i = j)) as [->|Hne]; [|by rewrite lookup_insert_ne]); rewrite lookup_insert_eq, Hs; cbn; [|done].
  pose proof (io_slots s Ok j sl Hs) as P. rewrite Hj in P. cbn in P. by subst sl.
Qed.

Lemma read_steps s s' i r : inflight_ok s -> rtc step s s' -> read s i = Some r -> read s' i = Some r.
Proof.
  intros Ok Hr. revert Ok. induction Hr as [|s1 s2 s3 Hs _ IH]; [done|]. intros Ok Hi.
  apply IH; [by eapply step_ok|]. destruct Hs as [key|s2 Hs]; [by apply read_claim|by eapply read_owner_step].
Qed.
End invariant.

(** ** Properties *)

Section properties.
Context {K R : Type} `{EqDecision K, KeyOrderLaws K}.
Implicit Types (s : State K R).

(** C35: Coalescing, in every reachable state. The table never holds more than its
    bound; a claim either joins an unfinished resolution of the same key, with a
    live owner, or becomes the owner of a fresh slot entered under its key; and
    a result, once there, never changes. *)
Theorem coalescing_sound m s key :
  reachable m s ->
  zlen (table s) <= Z.max m 1 /\
  match claim s key with
  | (Waiter i, s') => s' = s /\ is_done s i = false /\ exists p, owners s !! i = Some (key, p) /\ p <> Releasing
  | (Owner i, s') => owners s !! i = None /\ owners s' !! i = Some (key, Resolving) /\ read s' i = None /\
      bt_get (table s') key = Some i /\ zlen (table s') <= Z.max m 1
  end /\
  (forall i r s', read s i = Some r -> rtc step s s' -> read s' i = Some r).
Proof.
  intros Hr. pose proof (steps_ok _ s (inflight_new_ok m) Hr) as Ok. pose proof (max_constant _ s Hr) as Em.
  cbn in Em. rewrite <- Em. split; [by apply io_len|]. split.
  2: { intros i r s' Hi Hs. by eapply read_steps. }
  pose proof (claim_ok s key Ok) as Ok'. revert Ok'. unfold claim.
  destruct (match bt_get (table s) key with Some _ => _ | None => _ end) as [i|] eqn:E.
  - intros _. split; [done|]. destruct (bt_get (table s) key) as [j|] eqn:Et; [|done].
    destruct (is_done s j) eqn:Ed; [done|]. injection E as ->. split; [done|].
    apply bt_get_In in Et. destruct (io_table s Ok _ _ Et) as [sl Hsl].
    pose proof (io_slots s Ok i sl Hsl) as P. unfold is_done in Ed. rewrite Hsl in Ed.
    destruct (owners s !! i) as [[k p]|] eqn:Eo; [|cbn in P; destruct P; congruence].
    pose proof (io_keys s Ok _ _ _ _ Et Eo) as ->. exists p. split; [done|]. intros ->. cbn in P. destruct P. congruence.
  - cbn [snd]. intros Ok'. cbn [owners table read]. rewrite !lookup_insert_eq, bt_get_insert, decide_True by done.
    split; [|split; [done|split; [|split; [done|]]]].
    + destruct (owners s !! next s) eqn:Eo; [|done]. destruct (io_owners s Ok _ _ Eo) as [sl Hsl].
      by rewrite (io_fresh s Ok) in Hsl.
    + unfold read. cbn. by rewrite lookup_insert_eq.
    + exact (io_len _ Ok').
Qed.

End properties.

(** ** Concrete runs *)

(** The owner of slot 0 has raised [done] but not left the table; a second claim
    of the same key has replaced its entry. *)
Definition replaced : State Z Z :=
  (claim (mkState {[0%nat := mkSlot (Some 42) true]} {[0%nat := (7, Releasing)]} [(7, 0%nat)] 8 1) 7).2.

Lemma replaced_reachable : reachable 8 replaced.
Proof.
  unfold reachable, replaced. eapply rtc_r; [|apply StepClaim].
  eapply rtc_l; [apply (StepClaim _ 7)|].
  eapply rtc_l; [apply StepOwner, (StepStore _ 0%nat 7 slot_new 42); reflexivity|].
  eapply rtc_l; [apply StepOwner, (StepDone _ 0%nat 7 (mkSlot (Some 42) false)); reflexivity|].
  cbn. rewrite !insert_insert_eq. done.
Qed.

(** The first owner then leaves and takes the entry of the second with it: a
    third claim resolves the key again beside the second. *)
Example coalescing_race : exists s : State Z Z, reachable 8 s /\
  owners s !! 1%nat = Some (7, Resolving) /\ owners s !! 2%nat = Some (7, Resolving).
Proof.
  exists (claim (mkState (store replaced) (delete 0%nat (owners replaced)) (bt_remove (table replaced) 7) 8 2) 7).2.
  split; [|by split; vm_compute].
  eapply rtc_r; [eapply rtc_r; [exact replaced_reachable|]|apply StepClaim].
  apply StepOwner, (StepRelease replaced 0%nat 7). vm_compute. reflexivity.
Qed.

Lemma coalescing_sound_witness :
  let '(c, s') := claim replaced 7 in c = Waiter 1 /\ s' = replaced.
Proof.
  destruct (coalescing_sound 8 replaced 7 replaced_reachable) as (_ & C & _). revert C.
  assert (fst (claim replaced 7) = Waiter 1) as E by (vm_compute; reflexivity).
  destruct (claim replaced 7) as [c s']. cbn in E. subst c. intros (E & _). split; [reflexivity|exact E].
Defined.

