(* ===== verification/Float.v ===== *)
(** * Float helpers ([src/float.rs])

    Absolute value, rounding, [exp], [ln], [sqrt] and [ceil] over the binary64
    encoding.  The encoding of a NaN carries no payload. *)
From S2P Require Import Prelude Wire Prng Name BTree Float64.

(** ** Encoding *)

Definition f64_bits (s : bool) (field frac : Z) : Z := (if s then 2 ^ 63 else 0) + field * 2 ^ 52 + frac.

(** [f64::to_bits] *)
Definition to_bits (x : f64) : Z :=
  match x with
  | S754_zero s => f64_bits s 0 0
  | S754_infinity s => f64_bits s 2047 0
  | S754_nan => f64_bits false 2047 (2 ^ 51)
  | S754_finite s m e =>
      if Zpos m <? 2 ^ 52 then f64_bits s 0 (Zpos m) else f64_bits s (e + 1075) (Zpos m - 2 ^ 52)
  end.

Definition signed_zpos (s : bool) (m e : Z) : f64 :=
  match m with Zpos p => S754_finite s p e | _ => S754_zero s end.

(** [f64::from_bits] *)
Definition from_bits (b : Z) : f64 :=
  let s := 2 ^ 63 <=? b in
  let field := (b / 2 ^ 52) mod 2 ^ 11 in
  let frac := b mod 2 ^ 52 in
  if field =? 2047 then (if frac =? 0 then S754_infinity s else S754_nan)
  else if field =? 0 then signed_zpos s frac (- 1074)
  else signed_zpos s (2 ^ 52 + frac) (field - 1075).

(** [core::f64::consts] *)
Definition LOG2_E : f64 := from_bits 0x3FF71547652B82FE.
Definition LN_2 : f64 := from_bits 0x3FE62E42FEFA39EF.
Definition SQRT_2 : f64 := from_bits 0x3FF6A09E667F3BCD.

(** A decimal literal; exact when the digits and the power of ten fit 53 bits. *)
Definition dec (digits : Z) (places : Z) : f64 := f64_div (f64_of digits) (f64_of (10 ^ places)).

Definition is_finite (x : f64) : bool :=
  match x with S754_zero _ | S754_finite _ _ _ => true | _ => false end.

(** ** The helpers *)

Definition fabs (x : f64) : f64 := from_bits (Z.land (to_bits x) 0x7fffffffffffffff).

Definition round (y : f64) : f64 :=
  let bits := to_bits y in
  let biased := Z.land (Z.shiftr bits 52) 0x7ff in
  let exp := biased - 1023 in
  if 52 <=? exp then y else
  let sign := Z.shiftr bits 63 in
  if exp <? 0 then
    let abs := Z.land bits 0x7fffffffffffffff in
    if 0x3fe0000000000000 <=? abs then (if sign =? 1 then f64_of (- 1) else f64_of 1)
    else if sign =? 1 then S754_zero true else f64_of 0
  else
    let frac_bits := 52 - exp in
    let frac_mask := Z.shiftl 1 frac_bits - 1 in
    let frac := Z.land bits frac_mask in
    let half := Z.shiftl 1 (frac_bits - 1) in
    if half <=? frac then from_bits (Z.ldiff bits frac_mask + Z.shiftl 1 frac_bits)
    else from_bits (Z.ldiff bits frac_mask).

(** [x as i64] of an integral value. *)
Definition f64_to_i64 (x : f64) : Z :=
  match x with
  | S754_finite s m e =>
      let v := Z.shiftl (Zpos m) e in
      Z.max (- 2 ^ 63) (Z.min (2 ^ 63 - 1) (if s then - v else v))
  | S754_infinity s => if s then - 2 ^ 63 else 2 ^ 63 - 1
  | _ => 0
  end.

(** One round of the Taylor loop: [term] and the partial sum. *)
Definition taylor_step (t : f64) (pt : f64 * f64) (i : f64) : f64 * f64 :=
  let term := f64_mul pt.2 (f64_div t i) in (f64_add pt.1 term, term).

(** The counters the loops of [exp] and [ln] run through. *)
Definition exp_counters : list f64 := map f64_of (seqZ 1 13).
Definition ln_counters : list f64 := map f64_of (reverse (seqZ 1 11)).

Definition exp (x : f64) : f64 :=
  if is_nan x then x else
  if f64_lt (dec 709782712893384 12) x then S754_infinity false else
  if f64_lt x (SFopp (dec 7451332191019412 13)) then f64_of 0 else
  let n := round (f64_mul x LOG2_E) in
  let ln2_hi := from_bits (Z.land (to_bits LN_2) 0xffffffff00000000) in
  let ln2_lo := f64_sub LN_2 ln2_hi in
  let t := f64_sub (f64_sub x (f64_mul n ln2_hi)) (f64_mul n ln2_lo) in
  let p := (fold_left (taylor_step t) exp_counters (f64_of 1, f64_of 1)).1 in
  from_bits (wrap 64 (to_bits p + wrap 64 (Z.shiftl (f64_to_i64 n) 52))).

Definition exp_nonpos (x : f64) : f64 := if f64_le x (SFopp (f64_of 745)) then f64_of 0 else exp x.

(** One round of the Horner loop. *)
Definition horner_step (t2 s k : f64) : f64 :=
  f64_add (f64_mul s t2) (f64_div (f64_of 1) (f64_sub (f64_mul (f64_of 2) k) (f64_of 1))).

Definition ln (x : f64) : f64 :=
  if is_nan x || f64_lt x (f64_of 0) then S754_nan else
  if SFeqb x (f64_of 0) then S754_infinity true else
  if SFeqb x (S754_infinity false) then S754_infinity false else
  let bits := to_bits x in
  let e := Z.land (Z.shiftr bits 52) 0x7ff - 1023 in
  let m := from_bits (Z.lor (Z.land bits 0x000fffffffffffff) 0x3ff0000000000000) in
  let '(m, e) := if f64_lt SQRT_2 m then (f64_mul m (dec 5 1), e + 1) else (m, e) in
  let t := f64_div (f64_sub m (f64_of 1)) (f64_add m (f64_of 1)) in
  let t2 := f64_mul t t in
  let s := fold_left (horner_step t2) ln_counters (f64_of 0) in
  let ln_m := f64_mul (f64_mul (f64_of 2) t) s in
  f64_add (f64_mul (f64_of e) LN_2) ln_m.

Definition is_positive (v : f64) : bool := f64_lt (f64_of 0) v && is_finite v.

Definition log2 (x : f64) : f64 := f64_div (ln x) LN_2.

Definition newton_step (x guess : f64) : f64 := f64_mul (dec 5 1) (f64_add guess (f64_div x guess)).

Definition sqrt (x : f64) : f64 :=
  if is_nan x || f64_lt x (f64_of 0) then S754_nan else
  if SFeqb x (f64_of 0) || SFeqb x (S754_infinity false) then x else
  let guess := from_bits (wrap 64 (Z.shiftr (to_bits x) 1 + Z.shiftl 1023 51)) in
  Nat.iter 5 (newton_step x) guess.

Definition ceil (x : f64) : f64 :=
  if negb (is_finite x) then x else
  let r := round x in
  if f64_le x r then r else f64_add r (f64_of 1).

(** ** Order *)

(** The order of the numbers as a lexicographic key; NaN last. *)
Definition f64_key (x : f64) : Z * (Z * Z) :=
  match x with
  | S754_infinity true => (- 2, (0, 0))
  | S754_finite true m e => (- 1, (- e, - Zpos m))
  | S754_zero _ => (0, (0, 0))
  | S754_finite false m e => (1, (e, Zpos m))
  | S754_infinity false => (2, (0, 0))
  | S754_nan => (3, (0, 0))
  end.

Lemma klt_key (a b : Z * (Z * Z)) :
  klt a b = (a.1 <? b.1) || (a.1 =? b.1) && ((a.2.1 <? b.2.1) || (a.2.1 =? b.2.1) && (a.2.2 <? b.2.2)).
Proof.
  assert (forall x y : Z, bool_decide (x = y) = (x =? y)) as E
    by (intros x y; case_bool_decide; symmetry; [by apply Z.eqb_eq|by apply Z.eqb_neq]).
  unfold klt, pair_order, klt, pair_order, klt, Z_order. by rewrite !E.
Qed.

Lemma f64_compare_key x y : is_nan x = false -> is_nan y = false ->
  SFcompare x y = Some (if klt (f64_key x) (f64_key y) then Lt else if klt (f64_key y) (f64_key x) then Gt else Eq).
Proof.
  intros Hx Hy. rewrite !klt_key.
  destruct x as [sx|sx| |sx mx ex]; [..|done|]; destruct y as [sy|sy| |sy my ey]; [..|done|]; try done;
    try (by destruct sx); try (by destruct sy); try (by destruct sx, sy).
  destruct sx, sy; cbn [SFcompare f64_key fst snd]; try done;
    rewrite !(proj2 (Z.eqb_eq _ _) eq_refl), !Z.ltb_irrefl; cbn [orb andb];
    destruct (Z.compare_spec ex ey) as [->|He|He]; change (Pos.compare_cont Eq mx my) with (Pos.compare mx my);
    destruct (Pos.compare_spec mx my) as [->|Hm|Hm]; cbn [CompOpp];
    decide_ifs; done.
Qed.

(** [partial_cmp] of numbers that are not NaN is the order of the keys. *)
Lemma f64_lt_key x y : is_nan x = false -> is_nan y = false -> f64_lt x y = klt (f64_key x) (f64_key y).
Proof. intros Hx Hy. unfold f64_lt, SFltb. rewrite f64_compare_key by done. by repeat case_match. Qed.

(** ** Values *)

(** ** The encoding *)

(** Numbers in the form the operations leave them in. *)
Definition canonical_f64 (x : f64) : Prop :=
  match x with
  | S754_finite s m e =>
      (2 ^ 52 <= Zpos m < 2 ^ 53 /\ - 1074 <= e <= 971) \/ (Zpos m < 2 ^ 52 /\ e = - 1074)
  | _ => True
  end.

Lemma f64_bits_fields s field frac : 0 <= field < 2 ^ 11 -> 0 <= frac < 2 ^ 52 ->
  (2 ^ 63 <=? f64_bits s field frac) = s /\
  (f64_bits s field frac / 2 ^ 52) mod 2 ^ 11 = field /\ f64_bits s field frac mod 2 ^ 52 = frac.
Proof.
  intros Hf Hr. unfold f64_bits.
  assert ((if s then 2 ^ 63 else 0) + field * 2 ^ 52 + frac =
          ((if s then 2 ^ 11 else 0) + field) * 2 ^ 52 + frac) as -> by (destruct s; lia).
  rewrite Z.div_add_l, Z.div_small, Z.add_0_r by lia.
  rewrite (Z.add_comm _ frac), Z.mod_add, (Z.mod_small frac) by lia.
  split; [|split; [|done]].
  - destruct s; [apply Z.leb_le|apply Z.leb_gt]; lia.
  - destruct s; [|by rewrite Z.add_0_l, Z.mod_small].
    rewrite <- (Z.mul_1_l (2 ^ 11)) at 1. rewrite Z.add_comm, Z.mod_add, Z.mod_small; lia.
Qed.

(** Every number but NaN is recovered from its encoding. *)
Lemma from_to_bits x : canonical_f64 x -> from_bits (to_bits x) = x.
Proof.
  intros Hc. unfold from_bits. destruct x as [s|s| |s m e]; cbn [to_bits].
  - destruct (f64_bits_fields s 0 0) as (-> & -> & ->); [lia..|]. done.
  - destruct (f64_bits_fields s 2047 0) as (-> & -> & ->); [lia..|]. done.
  - destruct (f64_bits_fields false 2047 (2 ^ 51)) as (-> & -> & ->); [lia..|]. done.
  - cbn [canonical_f64] in Hc. destruct (Zpos m <? 2 ^ 52) eqn:Em; bools.
    + assert (e = - 1074) as -> by (destruct Hc; lia).
      destruct (f64_bits_fields s 0 (Zpos m)) as (-> & -> & ->); [lia..|]. done.
    + destruct Hc as [[Hm He]|]; [|lia].
      destruct (f64_bits_fields s (e + 1075) (Zpos m - 2 ^ 52)) as (-> & -> & ->); [lia..|].
      rewrite (proj2 (Z.eqb_neq _ 2047)), (proj2 (Z.eqb_neq _ 0)) by lia.
      replace (2 ^ 52 + (Zpos m - 2 ^ 52)) with (Zpos m) by lia. cbn [signed_zpos]. f_equal. lia.
Qed.

(** ** Values *)

Example exp_one : to_bits (exp (f64_of 1)) = 0x4005BF0A8B145768.
Proof. vm_compute. reflexivity. Qed.

Example ln_two : ln (f64_of 2) = LN_2.
Proof. vm_compute. reflexivity. Qed.

(** Below the normal range the exponent field underflows into the sign: the result
    is a large negative number. *)
Example exp_underflow : exp (f64_of (- 720)) = S754_finite true 5391359589104890 957.
Proof. vm_compute. reflexivity. Qed.

(** The logarithm of a subnormal number misses its leading zeros: of the least
    number, about -709 in place of -744. *)
Example ln_subnormal : f64_lt (f64_of (- 710)) (ln (from_bits 1)) = true.
Proof. vm_compute. reflexivity. Qed.

(** Five Newton steps are not enough either for the root of the least number:
    the result is above [2 ^ -520], the root is [2 ^ -537]. *)
Example sqrt_subnormal : f64_lt (S754_finite false (2 ^ 52) (- 572)) (sqrt (from_bits 1)) = true.
Proof. vm_compute. reflexivity. Qed.
