(* ===== verification/FloatOrder.v ===== *)
(** * Order and rounding in binary64

    What bounds on binary64 computations rest on.  A number is read as the integer
    multiple of the least positive number that it is ([uval]); every operation is the
    exact result, a fraction of such integers, rounded by one monotone function
    ([rnd]) that keeps representable values.  So the operations are monotone, and a
    bound on a result is the result at the bounds of its arguments. *)
From S2P Require Import Prelude BTree Float64 Float.

(** ** Rounding a fraction to an integer *)

Definition loc_of (r d : Z) : location := if r =? 0 then loc_Exact else loc_Inexact (2 * r ?= d).

(** The nearest integer to [n / d], the even one of two. *)
Definition rne (n d : Z) : Z := round_nearest_even (n / d) (loc_of (n mod d) d).

Definition shr_rec (n d : Z) : shr_record := shr_record_of_loc (n / d) (loc_of (n mod d) d).

Lemma loc_of_shr_rec n d : loc_of_shr_record (shr_rec n d) = loc_of (n mod d) d.
Proof. unfold shr_rec, loc_of. destruct (_ =? _); [done|]. by destruct (_ ?= _). Qed.

Lemma shr_m_rec n d : shr_m (shr_rec n d) = n / d.
Proof. unfold shr_rec, loc_of. destruct (_ =? _); [done|]. by destruct (_ ?= _). Qed.

Lemma shr_1_rec n d : 0 <= n -> 0 < d -> shr_1 (shr_rec n d) = shr_rec n (2 * d).
Proof.
  intros Hn Hd. pose proof (Z.div_mod n d ltac:(lia)) as E. pose proof (Z.mod_pos_bound n d Hd) as B.
  pose proof (Z.div_pos n d Hn Hd) as Q. unfold shr_rec.
  set (q := n / d) in *. set (r := n mod d) in *. clearbody q r. subst n.
  assert (exists q' b, 0 <= q' /\ q = 2 * q' + Z.b2z b /\ shr_1 (shr_record_of_loc q (loc_of r d)) =
    {| shr_m := q'; shr_r := b; shr_s := negb (r =? 0) |}) as (q' & b & Hq' & -> & ->).
  { destruct q as [|[p|p|]|]; [exists 0, false|exists (Zpos p), true|exists (Zpos p), false|exists 0, true|lia];
      (split; [lia|]; split; [done|]); unfold loc_of; destruct (r =? 0); try done; by destruct (_ ?= _). }
  assert (d * (2 * q' + Z.b2z b) + r = (2 * d) * q' + (d * Z.b2z b + r)) as -> by lia.
  assert (0 <= d * Z.b2z b + r < 2 * d) as B2 by (destruct b; cbn [Z.b2z]; lia).
  rewrite (Z.mul_comm (2 * d)), Z.div_add_l, Z.div_small, Z.add_0_r by lia.
  rewrite Z.add_comm, Z.mod_add, Z.mod_small by lia. unfold loc_of.
  destruct b; cbn [Z.b2z]; [rewrite Z.mul_1_r|rewrite Z.mul_0_r, Z.add_0_l].
  - rewrite (proj2 (Z.eqb_neq (d + r) 0)) by lia.
    destruct (Z.compare_spec (2 * (d + r)) (2 * d)) as [H|H|H]; cbn [shr_record_of_loc]; f_equal; try lia;
      destruct (Z.eqb_spec r 0); cbn; try done; lia.
  - destruct (Z.eqb_spec r 0) as [->|H]; [done|].
    destruct (Z.compare_spec (2 * r) (2 * d)); cbn [shr_record_of_loc]; try lia. done.
Qed.

Lemma iter_shr_rec p n d : 0 <= n -> 0 < d -> iter_pos shr_1 p (shr_rec n d) = shr_rec n (d * 2 ^ Zpos p).
Proof.
  intros Hn. revert d. induction p as [p IH|p IH|]; intros d Hd; cbn [iter_pos].
  - rewrite shr_1_rec, !IH by (try apply Z.mul_pos_pos; lia). f_equal.
    replace (Zpos p~1) with (1 + (Zpos p + Zpos p)) by lia. rewrite !Z.pow_add_r by lia. lia.
  - rewrite !IH by (try apply Z.mul_pos_pos; lia). f_equal.
    replace (Zpos p~0) with (Zpos p + Zpos p) by lia. rewrite Z.pow_add_r by lia. lia.
  - rewrite shr_1_rec by done. f_equal. lia.
Qed.

Lemma shr_rec_shr n d e k : 0 <= n -> 0 < d -> 0 <= k -> shr (shr_rec n d) e k = (shr_rec n (d * 2 ^ k), e + k).
Proof.
  intros Hn Hd Hk. destruct k as [|p|p]; [|by cbn [shr]; rewrite iter_shr_rec|lia].
  cbn [shr]. by rewrite Z.pow_0_r, Z.mul_1_r, Z.add_0_r.
Qed.

Lemma rne_bounds n d : 0 < d -> n / d <= rne n d <= n / d + 1.
Proof. intros Hd. unfold rne, loc_of. destruct (_ =? _); cbn; [lia|]. destruct (_ ?= _); repeat case_match; lia. Qed.

Lemma rne_mono n1 d1 n2 d2 : 0 < d1 -> 0 < d2 -> n1 * d2 <= n2 * d1 -> rne n1 d1 <= rne n2 d2.
Proof.
  intros H1 H2 H. pose proof (rne_bounds n1 d1 H1). pose proof (rne_bounds n2 d2 H2).
  pose proof (Z.div_mod n1 d1 ltac:(lia)). pose proof (Z.mod_pos_bound n1 d1 H1).
  pose proof (Z.div_mod n2 d2 ltac:(lia)). pose proof (Z.mod_pos_bound n2 d2 H2).
  unfold rne in *. set (q1 := n1 / d1) in *. set (r1 := n1 mod d1) in *. set (q2 := n2 / d2) in *. set (r2 := n2 mod d2) in *.
  clearbody q1 r1 q2 r2. subst n1 n2.
  assert (q1 <= q2) as Hq.
  { apply Z.nlt_ge. intros L. assert (d1 * d2 * (q2 + 1) <= d1 * d2 * q1) by (apply Z.mul_le_mono_nonneg_l; nia). nia. }
  destruct (Z.eq_dec q1 q2) as [->|]; [|lia].
  assert (r1 * d2 <= r2 * d1) as Hr by lia. unfold loc_of.
  destruct (Z.eqb_spec r1 0); [cbn [round_nearest_even]; unfold loc_of in *; lia|].
  destruct (Z.compare_spec (2 * r1) d1) as [E1|E1|E1]; cbn [round_nearest_even]; [|unfold loc_of in *; lia|];
    (destruct (Z.eqb_spec r2 0); [nia|]); (destruct (Z.compare_spec (2 * r2) d2) as [E2|E2|E2]; cbn [round_nearest_even];
     [|nia|]); repeat case_match; try lia; nia.
Qed.

Lemma rne_scale c n d : 0 < c -> 0 < d -> rne (c * n) (c * d) = rne n d.
Proof. intros Hc Hd. apply Z.le_antisymm; apply rne_mono; nia. Qed.

Lemma rne_exact k d : 0 < d -> rne (k * d) d = k.
Proof. intros Hd. unfold rne. by rewrite Z.div_mul, Z.mod_mul by lia. Qed.

(** ** Digits *)

Definition digits (n : Z) : Z := if n =? 0 then 0 else Z.log2 n + 1.

Lemma digits2_log p : Zpos (digits2_pos p) = Z.log2 (Zpos p) + 1.
Proof.
  induction p as [p IH|p IH|]; [| |done]; cbn [digits2_pos]; rewrite Pos2Z.inj_succ, IH.
  - rewrite (Pos2Z.inj_xI p), Z.log2_succ_double; lia.
  - rewrite (Pos2Z.inj_xO p), Z.log2_double; lia.
Qed.

Lemma Zdigits2_digits n : 0 <= n -> Zdigits2 n = digits n.
Proof. intros H. destruct n as [|p|p]; [done| |lia]. cbn [Zdigits2]. rewrite digits2_log. done. Qed.

Lemma digits_ge0 n : 0 <= digits n.
Proof. unfold digits. pose proof (Z.log2_nonneg n). destruct (_ =? _); lia. Qed.

Lemma digits_spec n : 0 < n -> 2 ^ (digits n - 1) <= n < 2 ^ digits n.
Proof.
  intros H. unfold digits. rewrite (proj2 (Z.eqb_neq n 0)) by lia. pose proof (Z.log2_spec n H).
  replace (Z.log2 n + 1 - 1) with (Z.log2 n) by lia. by rewrite Z.add_1_r.
Qed.

Lemma digits_lt n : 0 <= n -> n < 2 ^ digits n.
Proof. intros H. destruct (Z.eq_dec n 0) as [->|]; [done|]. apply digits_spec. lia. Qed.

Lemma digits_le n k : 0 <= n -> 0 <= k -> n < 2 ^ k -> digits n <= k.
Proof.
  intros Hn Hk H. destruct (Z.eq_dec n 0) as [->|]; [done|]. pose proof (digits_spec n ltac:(lia)).
  apply Z.nlt_ge. intros L. assert (2 ^ k <= 2 ^ (digits n - 1)) by (apply Z.pow_le_mono_r; lia). lia.
Qed.

Lemma digits_ge n k : 0 <= k -> 2 ^ k <= n -> k < digits n.
Proof.
  intros Hk H. pose proof (Z.pow_pos_nonneg 2 k ltac:(lia) Hk). pose proof (digits_spec n ltac:(lia)).
  apply Z.nle_gt. intros L. assert (2 ^ digits n <= 2 ^ k) by (apply Z.pow_le_mono_r; lia). lia.
Qed.

Lemma digits_mono a b : 0 <= a <= b -> digits a <= digits b.
Proof. intros H. apply digits_le; [lia|apply digits_ge0|]. pose proof (digits_lt b ltac:(lia)). lia. Qed.

(** Scaling a fraction by a power of two moves the digits of its integer part. *)
Lemma digits_scale_up n d k : 0 < n / d -> 0 <= n -> 0 < d -> 0 <= k ->
  digits (n * 2 ^ k / d) = digits (n / d) + k.
Proof.
  intros Hq Hn Hd Hk. set (q := n / d) in *. pose proof (digits_spec q Hq) as [L U].
  pose proof (Z.mul_div_le n d Hd) as M1. fold q in M1. pose proof (Z.mul_succ_div_gt n d Hd) as M2. fold q in M2.
  pose proof (Z.pow_pos_nonneg 2 k ltac:(lia) Hk) as P. pose proof (digits_ge0 q) as Dn.
  assert (1 <= digits q) by (pose proof (digits_ge q 0 ltac:(lia) ltac:(lia)); lia).
  apply Z.le_antisymm.
  - apply digits_le; [apply Z.div_pos; nia|lia|]. apply Z.div_lt_upper_bound; [done|].
    rewrite Z.pow_add_r by lia. assert (n < d * 2 ^ digits q) by nia. rewrite Z.mul_assoc. by apply Z.mul_lt_mono_pos_r.
  - enough (digits q - 1 + k < digits (n * 2 ^ k / d)) by lia. apply digits_ge; [lia|].
    apply Z.div_le_lower_bound; [done|]. rewrite Z.pow_add_r by lia. assert (d * 2 ^ (digits q - 1) <= n) by nia.
    rewrite Z.mul_assoc. by apply Z.mul_le_mono_pos_r.
Qed.

Lemma digits_scale_down n d k : 0 <= n -> 0 < d -> 0 <= k ->
  digits (n / (d * 2 ^ k)) = Z.max 0 (digits (n / d) - k).
Proof.
  intros Hn Hd Hk. pose proof (Z.pow_pos_nonneg 2 k ltac:(lia) Hk) as P.
  rewrite <- Z.div_div by lia. set (q := n / d). pose proof (Z.div_pos n d Hn Hd) as Hq. fold q in Hq.
  destruct (Z.eq_dec (q / 2 ^ k) 0) as [E|E].
  - rewrite E. change (digits 0) with 0. apply Z.div_small_iff in E; [|lia].
    assert (digits q <= k) by (apply digits_le; lia). lia.
  - pose proof (Z.div_pos q (2 ^ k) Hq P). assert (2 ^ k <= q) as Hge by (apply Z.nlt_ge; intros L; apply E, Z.div_small; lia).
    pose proof (digits_ge q k Hk Hge). pose proof (digits_spec q ltac:(lia)) as [L U]. rewrite Z.max_r by lia.
    apply Z.le_antisymm.
    + apply digits_le; [lia|lia|]. apply Z.div_lt_upper_bound; [done|]. rewrite <- Z.pow_add_r by lia.
      replace (k + (digits q - k)) with (digits q) by lia. done.
    + enough (digits q - k - 1 < digits (q / 2 ^ k)) by lia. apply digits_ge; [lia|].
      apply Z.div_le_lower_bound; [done|]. rewrite <- Z.pow_add_r by lia.
      replace (k + (digits q - k - 1)) with (digits q - 1) by lia. done.
Qed.

(** ** Rounding a fraction to 53 significant digits *)

(** The exponent of the last digit kept. *)
Definition last_digit (n d : Z) : Z := Z.max 0 (digits (n / d) - 53).

Definition rnd (n d : Z) : Z := rne n (d * 2 ^ last_digit n d) * 2 ^ last_digit n d.

Lemma rnd_mantissa n d : 0 <= n -> 0 < d ->
  0 <= rne n (d * 2 ^ last_digit n d) <= 2 ^ 53 /\
  (0 < last_digit n d -> 2 ^ 52 <= rne n (d * 2 ^ last_digit n d)).
Proof.
  intros Hn Hd. set (k := last_digit n d). assert (0 <= k) as Hk by (unfold k, last_digit; lia).
  pose proof (Z.pow_pos_nonneg 2 k ltac:(lia) Hk) as P.
  pose proof (digits_scale_down n d k Hn Hd Hk) as S.
  assert (0 <= n / (d * 2 ^ k)) as Q by (apply Z.div_pos; nia).
  pose proof (rne_bounds n (d * 2 ^ k) ltac:(nia)) as B. set (q := n / (d * 2 ^ k)) in *.
  assert (digits q <= 53) by (unfold k, last_digit in *; lia).
  assert (q < 2 ^ 53) by (eapply Z.lt_le_trans; [by apply digits_lt|]; apply Z.pow_le_mono_r; lia).
  split; [lia|]. intros Hk0. assert (digits q = 53) as E by (unfold k, last_digit in *; lia).
  assert (0 < q) as Hq by (destruct (Z.eq_dec q 0) as [E0|]; [rewrite E0 in E; discriminate E|lia]).
  pose proof (digits_spec q Hq) as [L _]. rewrite E in L. change (53 - 1) with 52 in L. lia.
Qed.

Lemma rnd_nonneg n d : 0 <= n -> 0 < d -> 0 <= rnd n d.
Proof.
  intros Hn Hd. unfold rnd. apply Z.mul_nonneg_nonneg; [by apply rnd_mantissa|].
  apply Z.pow_nonneg. lia.
Qed.

Lemma div_mono n1 d1 n2 d2 : 0 <= n1 -> 0 < d1 -> 0 < d2 -> n1 * d2 <= n2 * d1 -> n1 / d1 <= n2 / d2.
Proof.
  intros Hn H1 H2 H. apply Z.div_le_lower_bound; [done|]. pose proof (Z.mul_div_le n1 d1 H1). nia.
Qed.

Lemma rnd_mono n1 d1 n2 d2 : 0 <= n1 -> 0 <= n2 -> 0 < d1 -> 0 < d2 -> n1 * d2 <= n2 * d1 -> rnd n1 d1 <= rnd n2 d2.
Proof.
  intros Hn1 Hn2 H1 H2 H. unfold rnd.
  destruct (rnd_mantissa n1 d1 Hn1 H1) as [[_ U1] _]. destruct (rnd_mantissa n2 d2 Hn2 H2) as [_ L2].
  assert (last_digit n1 d1 <= last_digit n2 d2) as L.
  { unfold last_digit. pose proof (digits_mono (n1 / d1) (n2 / d2)
      (conj (Z.div_pos _ _ Hn1 H1) (div_mono _ _ _ _ Hn1 H1 H2 H))). lia. }
  set (k1 := last_digit n1 d1) in *. set (k2 := last_digit n2 d2) in *.
  assert (0 <= k1) as K1 by (unfold k1, last_digit; lia).
  pose proof (Z.pow_pos_nonneg 2 k1 ltac:(lia) K1) as P1.
  destruct (Z.eq_dec k1 k2) as [E|E].
  - rewrite <- E in *. apply Z.mul_le_mono_nonneg_r; [lia|]. apply rne_mono; nia.
  - specialize (L2 ltac:(lia)). assert (2 * 2 ^ k1 <= 2 ^ k2) as P2.
    { rewrite <- Z.pow_succ_r by lia. apply Z.pow_le_mono_r; lia. }
    change (2 ^ 53) with (2 ^ 52 * 2) in U1. nia.
Qed.

Lemma rnd_scale c n d : 0 < c -> 0 <= n -> 0 < d -> rnd (c * n) (c * d) = rnd n d.
Proof. intros Hc Hn Hd. apply Z.le_antisymm; apply rnd_mono; nia. Qed.

(** What has at most 53 significant digits is kept. *)
Lemma rnd_exact m k : 0 <= m < 2 ^ 53 -> 0 <= k -> rnd (m * 2 ^ k) 1 = m * 2 ^ k.
Proof.
  intros Hm Hk. unfold rnd, last_digit. rewrite Z.div_1_r, Z.mul_1_l. set (j := Z.max 0 (digits (m * 2 ^ k) - 53)).
  assert (j <= k) as Hj.
  { destruct (Z.eq_dec m 0) as [->|Hm0]; [unfold j; rewrite Z.mul_0_l; change (digits 0) with 0; lia|].
    pose proof (digits_scale_up m 1 k) as D. rewrite !Z.div_1_r in D. unfold j. rewrite D by lia.
    pose proof (digits_le m 53 ltac:(lia) ltac:(lia) ltac:(lia)). lia. }
  assert (0 <= j) as J0 by (unfold j; lia). clearbody j.
  replace k with (k - j + j) by lia. rewrite Z.pow_add_r by lia. rewrite Z.mul_assoc, rne_exact; [done|].
  by apply Z.pow_pos_nonneg.
Qed.

(** ** Values *)

(** The value of an infinity, in multiples of the least positive number. *)
Definition BIG : Z := 2 ^ 2098.
Lemma BIG_pos : 0 < BIG.
Proof. by vm_compute. Qed.

Definition sgn (s : bool) : Z := if s then - 1 else 1.

Definition uval (x : f64) : Z :=
  match x with
  | S754_finite s m e => sgn s * (Zpos m * 2 ^ (e + 1074))
  | S754_infinity s => sgn s * BIG
  | _ => 0
  end.

(** The nearest number to [n / d] units with a sign. *)
Definition nearest (s : bool) (n d : Z) : Z := sgn s * Z.min BIG (rnd n d).

Lemma mantissa_lt_BIG m e : 0 <= m < 2 ^ 53 -> - 1074 <= e <= 971 -> m * 2 ^ (e + 1074) < BIG.
Proof.
  intros Hm He. assert (BIG = 2 ^ 53 * 2 ^ 2045) as -> by exact (Z.pow_add_r 2 53 2045 ltac:(lia) ltac:(lia)).
  assert (2 ^ (e + 1074) <= 2 ^ 2045) by (apply Z.pow_le_mono_r; lia).
  pose proof (Z.pow_pos_nonneg 2 (e + 1074) ltac:(lia) ltac:(lia)).
  apply Z.lt_le_trans with (2 ^ 53 * 2 ^ (e + 1074)); [apply Z.mul_lt_mono_pos_r; lia|].
  apply Z.mul_le_mono_nonneg_l; lia.
Qed.

Lemma mantissa_ge_BIG m e : 2 ^ 52 <= m -> 972 <= e -> BIG <= m * 2 ^ (e + 1074).
Proof.
  intros Hm He. assert (BIG = 2 ^ 52 * 2 ^ 2046) as -> by exact (Z.pow_add_r 2 52 2046 ltac:(lia) ltac:(lia)).
  assert (2 ^ 2046 <= 2 ^ (e + 1074)) by (apply Z.pow_le_mono_r; lia).
  pose proof (Z.pow_pos_nonneg 2 2046 ltac:(lia) ltac:(lia)).
  apply Z.mul_le_mono_nonneg; lia.
Qed.

#[global] Opaque BIG.

(** The end of every operation: the mantissa and exponent chosen. *)
Definition pack (s : bool) (m e : Z) : f64 :=
  match m with
  | Z0 => S754_zero s
  | Zpos p => if e <=? 971 then S754_finite s p e else S754_infinity s
  | Zneg _ => S754_nan
  end.

Lemma pack_ok s m e : 0 <= m < 2 ^ 53 -> - 1074 <= e -> (- 1074 < e -> 2 ^ 52 <= m) ->
  canonical_f64 (pack s m e) /\ is_nan (pack s m e) = false /\
  uval (pack s m e) = sgn s * Z.min BIG (m * 2 ^ (e + 1074)).
Proof.
  intros Hm He Hn. pose proof BIG_pos. destruct m as [|p|p]; [|cbn [pack]|lia].
  { cbn [pack canonical_f64 is_nan uval]. rewrite Z.mul_0_l, Z.min_r by lia. destruct s; done. }
  destruct (e <=? 971) eqn:E; bools; cbn [canonical_f64 is_nan uval]; (split; [|split; [done|]]).
  - destruct (Z.eq_dec e (- 1074)) as [->|]; [|left; lia]. destruct (Z.lt_ge_cases (Zpos p) (2 ^ 52)); [right|left]; lia.
  - rewrite Z.min_r; [done|]. apply Z.lt_le_incl, mantissa_lt_BIG; lia.
  - done.
  - rewrite Z.min_l; [done|]. apply mantissa_ge_BIG; lia.
Qed.

Lemma fexp_eq x : fexp 53 1024 x = Z.max (x - 53) (- 1074).
Proof. reflexivity. Qed.

Lemma round_aux_pack s n d e : 0 <= n -> 0 < d -> e <= fexp 53 1024 (digits (n / d) + e) ->
  let e' := fexp 53 1024 (digits (n / d) + e) in
  let m := rne n (d * 2 ^ (e' - e)) in
  binary_round_aux 53 1024 s (n / d) e (loc_of (n mod d) d) =
  if m =? 2 ^ 53 then pack s (2 ^ 52) (e' + 1) else pack s m e'.
Proof.
  intros Hn Hd He e' m. assert (0 <= n / d) as Hq by (by apply Z.div_pos).
  assert (0 < 2 ^ (e' - e)) as P by (apply Z.pow_pos_nonneg; lia).
  assert (0 <= m <= 2 ^ 53) as Hm.
  { pose proof (rne_bounds n (d * 2 ^ (e' - e)) ltac:(nia)) as B. fold m in B.
    rewrite <- Z.div_div in B by lia. pose proof (Z.div_pos _ _ Hq P).
    enough (n / d / 2 ^ (e' - e) < 2 ^ 53) by lia. apply Z.div_lt_upper_bound; [done|]. rewrite <- Z.pow_add_r by lia.
    eapply Z.lt_le_trans; [by apply digits_lt|]. apply Z.pow_le_mono_r; [lia|]. unfold e'. rewrite fexp_eq. lia. }
  unfold binary_round_aux, shr_fexp at 1. fold (shr_rec n d). rewrite Zdigits2_digits by done. fold e'.
  rewrite shr_rec_shr by lia. rewrite shr_m_rec, loc_of_shr_rec.
  change (round_nearest_even _ _) with m. replace (e + (e' - e)) with e' by lia.
  unfold shr_fexp. rewrite Zdigits2_digits by lia.
  assert (- 1074 <= e') as He' by (unfold e'; rewrite fexp_eq; lia).
  replace (shr_record_of_loc m loc_Exact) with (shr_rec m 1) by (unfold shr_rec; by rewrite Z.div_1_r, Z.mod_1_r).
  destruct (Z.eqb_spec m (2 ^ 53)) as [->|Hne].
  - change (digits (2 ^ 53)) with 54. replace (fexp 53 1024 (54 + e') - e') with 1 by (rewrite fexp_eq; lia).
    rewrite shr_rec_shr by lia. rewrite shr_m_rec. reflexivity.
  - assert (digits m <= 53) by (apply digits_le; lia).
    destruct (fexp 53 1024 (digits m + e') - e') as [|p|p] eqn:Ek; cbn [shr];
      [|exfalso; rewrite fexp_eq in Ek; lia|]; rewrite shr_m_rec, Z.div_1_r; reflexivity.
Qed.

(** Every operation ends in this rounding; [n / d * 2 ^ e] is the exact result. *)
Lemma round_aux_spec s n d e a b : 0 <= n -> 0 < d -> 0 < n / d \/ e <= - 1074 -> e <= fexp 53 1024 (digits (n / d) + e) ->
  0 <= a -> 0 <= b -> a - b = e + 1074 ->
  let r := binary_round_aux 53 1024 s (n / d) e (loc_of (n mod d) d) in
  canonical_f64 r /\ is_nan r = false /\ uval r = nearest s (n * 2 ^ a) (d * 2 ^ b).
Proof.
  intros Hn Hd Hq He Ha Hb Hab r. unfold r. rewrite round_aux_pack by done. clear r.
  set (e' := fexp 53 1024 (digits (n / d) + e)) in *.
  pose proof (Z.pow_pos_nonneg 2 a ltac:(lia) Ha) as Pa. pose proof (Z.pow_pos_nonneg 2 b ltac:(lia) Hb) as Pb.
  assert (last_digit (n * 2 ^ a) (d * 2 ^ b) = e' + 1074) as L.
  { unfold last_digit. rewrite digits_scale_down by nia. destruct (Z.lt_ge_cases 0 (n / d)).
    - rewrite digits_scale_up by nia. unfold e'. rewrite fexp_eq. lia.
    - pose proof (Z.div_pos n d Hn Hd). assert (n / d = 0) as Eq by lia. unfold e'. rewrite Eq, fexp_eq.
      change (digits 0) with 0. enough (digits (n * 2 ^ a / d) <= a) by lia. apply digits_le; [apply Z.div_pos; nia|done|].
      apply Z.div_small_iff in Eq; [|lia]. apply Z.div_lt_upper_bound; [done|]. apply Z.mul_lt_mono_pos_r; lia. }
  assert (- 1074 <= e') as He' by (unfold e'; rewrite fexp_eq; lia).
  destruct (rnd_mantissa (n * 2 ^ a) (d * 2 ^ b)) as [M1 M2]; [nia|nia|].
  unfold nearest, rnd in *. rewrite L in *.
  assert (rne (n * 2 ^ a) (d * 2 ^ b * 2 ^ (e' + 1074)) = rne n (d * 2 ^ (e' - e))) as R.
  { replace (d * 2 ^ b * 2 ^ (e' + 1074)) with (2 ^ a * (d * 2 ^ (e' - e))).
    - rewrite Z.mul_comm, rne_scale; [done|done|]. apply Z.mul_pos_pos; [done|]. apply Z.pow_pos_nonneg; lia.
    - replace a with (b + e + 1074) by lia. rewrite <- Z.mul_assoc, <- Z.pow_add_r by lia.
      rewrite (Z.mul_comm (2 ^ _)), <- Z.mul_assoc, <- Z.pow_add_r by lia. f_equal. f_equal. lia. }
  rewrite R in *. set (m := rne n (d * 2 ^ (e' - e))) in *.
  destruct (Z.eqb_spec m (2 ^ 53)) as [Em|Hne].
  - destruct (pack_ok s (2 ^ 52) (e' + 1)) as (C & N & V); [lia|lia|lia|]. split; [done|]. split; [done|]. rewrite V, Em.
    do 2 f_equal. replace (e' + 1 + 1074) with (1 + (e' + 1074)) by lia. rewrite Z.pow_add_r by lia. lia.
  - apply pack_ok; [lia|lia|]. intros. apply M2. lia.
Qed.

(** ** The operations, exactly *)

(** A signed result in units, rounded. *)
Definition nearestS (n d : Z) : Z := if n <? 0 then nearest true (- n) d else nearest false n d.

Lemma rnd_1_small n : 0 <= n < 2 ^ 53 -> rnd n 1 = n.
Proof. intros H. pose proof (rnd_exact n 0 H ltac:(lia)) as E. by rewrite Z.pow_0_r, Z.mul_1_r in E. Qed.

Lemma nearestS_mono n1 d1 n2 d2 : 0 < d1 -> 0 < d2 -> n1 * d2 <= n2 * d1 -> nearestS n1 d1 <= nearestS n2 d2.
Proof.
  intros H1 H2 H. pose proof BIG_pos. unfold nearestS, nearest, sgn.
  destruct (Z.ltb_spec n1 0), (Z.ltb_spec n2 0).
  - pose proof (rnd_mono (- n2) d2 (- n1) d1 ltac:(lia) ltac:(lia) H2 H1 ltac:(lia)). lia.
  - pose proof (rnd_nonneg (- n1) d1 ltac:(lia) H1). pose proof (rnd_nonneg n2 d2 ltac:(lia) H2). lia.
  - nia.
  - pose proof (rnd_mono n1 d1 n2 d2 ltac:(lia) ltac:(lia) H1 H2 H). lia.
Qed.

(** Values that numbers have are kept. *)
Lemma nearestS_uval x : canonical_f64 x -> is_finite x = true -> nearestS (uval x) 1 = uval x.
Proof.
  intros Hc Hf. destruct x as [s|s| |s m e]; try done.
  assert (Zpos m < 2 ^ 53 /\ - 1074 <= e <= 971) as [Hm He] by (cbn [canonical_f64] in Hc; lia).
  pose proof (mantissa_lt_BIG (Zpos m) e ltac:(lia) He) as B. pose proof (rnd_exact (Zpos m) (e + 1074) ltac:(lia) ltac:(lia)) as E.
  assert (0 < Zpos m * 2 ^ (e + 1074)) as P by (apply Z.mul_pos_pos; [lia|apply Z.pow_pos_nonneg; lia]).
  unfold nearestS, nearest. cbn [uval]. set (v := Zpos m * 2 ^ (e + 1074)) in *. clearbody v.
  destruct s; cbn [sgn].
  - rewrite (proj2 (Z.ltb_lt _ _)) by lia. replace (- (-1 * v)) with v by lia. rewrite E. lia.
  - rewrite (proj2 (Z.ltb_ge _ _)) by lia. replace (1 * v) with v by lia. rewrite E. lia.
Qed.

Lemma iter_xO p k : Zpos (Pos.iter xO p k) = Zpos p * 2 ^ Zpos k.
Proof.
  induction k as [|k IH] using Pos.peano_ind; [change (Pos.iter xO p 1) with (xO p); lia|].
  rewrite Pos.iter_succ, Pos2Z.inj_succ, Z.pow_succ_r, (Pos2Z.inj_xO (Pos.iter _ _ _)), IH by lia. lia.
Qed.

Lemma normalize_spec m e z : - 1074 <= e ->
  let r := binary_normalize 53 1024 m e z in
  canonical_f64 r /\ is_nan r = false /\ uval r = nearestS (m * 2 ^ (e + 1074)) 1.
Proof.
  intros He. pose proof (Z.pow_pos_nonneg 2 (e + 1074) ltac:(lia) ltac:(lia)) as P.
  assert (forall s p, let r := binary_round 53 1024 s p e in
    canonical_f64 r /\ is_nan r = false /\ uval r = nearest s (Zpos p * 2 ^ (e + 1074)) 1) as R.
  { intros s p. unfold binary_round. set (e1 := fexp 53 1024 (Zpos (digits2_pos p) + e)).
    assert (exists mz ez, shl_align p e e1 = (mz, ez) /\ - 1074 <= ez /\ Zpos mz * 2 ^ (ez + 1074) = Zpos p * 2 ^ (e + 1074) /\
      ez <= fexp 53 1024 (digits (Zpos mz) + ez)) as (mz & ez & -> & Hz & E & F).
    { unfold shl_align. change (digits ?x) with (digits x).
      assert (forall q, Zpos (digits2_pos q) = digits (Zpos q)) as D by (intros q; apply digits2_log).
      destruct (e1 - e) as [|k|k] eqn:Ek.
      - exists p, e. split; [done|]. split; [done|]. split; [done|]. rewrite <- D. fold e1. lia.
      - exists p, e. split; [done|]. split; [done|]. split; [done|]. rewrite <- D. fold e1. lia.
      - assert (- 1074 <= e1) by (unfold e1; rewrite fexp_eq; lia).
        assert (Zpos (Pos.iter xO p k) = Zpos p * 2 ^ Zpos k) as Ep.
        { apply iter_xO. }
        exists (Pos.iter xO p k), e1. split; [done|]. split; [done|]. rewrite Ep. split.
        + rewrite <- Z.mul_assoc, <- Z.pow_add_r by lia. do 2 f_equal. lia.
        + pose proof (digits_scale_up (Zpos p) 1 (Zpos k)) as S. rewrite !Z.div_1_r in S. rewrite S by lia.
          rewrite <- D. unfold e1. rewrite !fexp_eq. unfold e1 in Ek. rewrite fexp_eq in Ek. lia. }
    pose proof (round_aux_spec s (Zpos mz) 1 ez (ez + 1074) 0) as A. rewrite Z.div_1_r, Z.mod_1_r in A.
    change (loc_of 0 1) with loc_Exact in A. rewrite E in A. apply A; lia. }
  destruct m as [|p|p]; cbn [binary_normalize].
  - rewrite Z.mul_0_l. split; [done|]. split; [done|]. unfold nearestS, nearest. by rewrite rnd_1_small.
  - unfold nearestS. rewrite (proj2 (Z.ltb_ge _ 0)) by lia. apply R.
  - unfold nearestS. rewrite (proj2 (Z.ltb_lt _ 0)) by lia. replace (- (Zneg p * _)) with (Zpos p * 2 ^ (e + 1074)) by lia. apply R.
Qed.

Lemma f64_of_spec z : canonical_f64 (f64_of z) /\ is_nan (f64_of z) = false /\ uval (f64_of z) = nearestS (z * 2 ^ 1074) 1.
Proof. apply (normalize_spec z 0 false). lia. Qed.

Lemma align_spec m e ez : ez <= e -> Zpos (fst (shl_align m e ez)) = Zpos m * 2 ^ (e - ez).
Proof.
  intros H. unfold shl_align. destruct (ez - e) as [|k|k] eqn:E; cbn [fst]; [|lia|].
  - replace (e - ez) with 0 by lia. lia.
  - rewrite iter_xO. do 2 f_equal. lia.
Qed.

Lemma cond_Zopp_sgn s m : cond_Zopp s m = sgn s * m.
Proof. destruct s; unfold cond_Zopp, sgn; lia. Qed.

(** Sums. *)
Lemma f64_add_spec x y : canonical_f64 x -> canonical_f64 y -> is_finite x = true -> is_finite y = true ->
  canonical_f64 (f64_add x y) /\ is_nan (f64_add x y) = false /\ uval (f64_add x y) = nearestS (uval x + uval y) 1.
Proof.
  intros Cx Cy Fx Fy. pose proof (nearestS_uval x Cx Fx) as Ex. pose proof (nearestS_uval y Cy Fy) as Ey.
  destruct x as [sx|sx| |sx mx ex]; try done; destruct y as [sy|sy| |sy my ey]; try done.
  - split; [by destruct sx, sy|]. split; by destruct sx, sy.
  - split; [exact Cx|]. split; [done|]. change (uval (S754_zero sy)) with 0. rewrite Z.add_0_r. exact (eq_sym Ex).
  - cbn [canonical_f64] in Cx, Cy. unfold f64_add, SFadd. set (ez := Z.min ex ey).
    rewrite !cond_Zopp_sgn, !align_spec by lia.
    destruct (normalize_spec (sgn sx * (Zpos mx * 2 ^ (ex - ez)) + sgn sy * (Zpos my * 2 ^ (ey - ez))) ez false ltac:(lia))
      as (C & N & V). split; [done|]. split; [done|]. rewrite V. f_equal. cbn [uval].
    rewrite Z.mul_add_distr_r, <- !Z.mul_assoc, <- !Z.pow_add_r by lia. do 4 f_equal; lia.
Qed.

Lemma f64_sub_add x y : is_nan y = false -> f64_sub x y = f64_add x (SFopp y).
Proof.
  intros Hy. destruct x as [sx|sx| |sx mx ex], y as [sy|sy| |sy my ey]; try done; try (by destruct sx, sy).
Qed.

Lemma uval_opp x : uval (SFopp x) = - uval x.
Proof. destruct x as [s|s| |s m e]; try done; destruct s; cbn [SFopp negb uval sgn]; lia. Qed.

Lemma canonical_opp x : canonical_f64 x -> canonical_f64 (SFopp x).
Proof. by destruct x. Qed.

Lemma rnd_eq n1 d1 n2 d2 : 0 <= n1 -> 0 <= n2 -> 0 < d1 -> 0 < d2 -> n1 * d2 = n2 * d1 -> rnd n1 d1 = rnd n2 d2.
Proof. intros. apply Z.le_antisymm; apply rnd_mono; lia. Qed.

Lemma nearest_S s n d : 0 <= n -> 0 < d -> nearest s n d = nearestS (sgn s * n) d.
Proof.
  intros Hn Hd. unfold nearestS. pose proof BIG_pos. destruct s; cbn [sgn].
  - destruct (Z.ltb_spec (-1 * n) 0); [f_equal; lia|]. assert (n = 0) as -> by lia. unfold nearest.
    replace (rnd 0 d) with 0; [done|]. rewrite (rnd_eq 0 d 0 1), rnd_1_small by lia. done.
  - rewrite (proj2 (Z.ltb_ge _ _)) by lia. f_equal. lia.
Qed.

Lemma nearestS_0 d : 0 < d -> nearestS 0 d = 0.
Proof.
  intros H. pose proof BIG_pos. unfold nearestS, nearest. change (0 <? 0) with false. cbn [sgn].
  rewrite (rnd_eq 0 d 0 1) by lia. rewrite rnd_1_small by lia. lia.
Qed.

(** Products. *)
Lemma f64_mul_spec x y : canonical_f64 x -> canonical_f64 y -> is_finite x = true -> is_finite y = true ->
  canonical_f64 (f64_mul x y) /\ is_nan (f64_mul x y) = false /\
  uval (f64_mul x y) = nearestS (uval x * uval y) (2 ^ 1074).
Proof.
  intros Cx Cy Fx Fy. assert (0 < 2 ^ 1074) as P by (by apply Z.pow_pos_nonneg).
  pose proof (nearestS_0 _ P) as Z0.
  destruct x as [sx|sx| |sx mx ex]; try done; destruct y as [sy|sy| |sy my ey]; try done;
    try (by (split; [done|]; split; [done|]; cbn [uval]; rewrite ?Z.mul_0_r, ?Z.mul_0_l)).
  cbn [canonical_f64] in Cx, Cy. unfold f64_mul, SFmul.
  pose proof (round_aux_spec (xorb sx sy) (Zpos (mx * my)) 1 (ex + ey) (ex + 1074 + (ey + 1074)) 1074) as A.
  rewrite Z.div_1_r, Z.mod_1_r in A. change (loc_of 0 1) with loc_Exact in A.
  assert (ex + ey <= fexp 53 1024 (digits (Zpos (mx * my)) + (ex + ey))) as F.
  { rewrite fexp_eq. pose proof (Z.le_max_l (digits (Zpos (mx * my)) + (ex + ey) - 53) (- 1074)).
    destruct (Z.lt_ge_cases (- 1074) (ex + ey)); [|lia].
    enough (52 < digits (Zpos (mx * my))) by lia. apply digits_ge; [lia|]. rewrite Pos2Z.inj_mul.
    destruct Cx as [Cx|Cx]; [nia|]. destruct Cy as [Cy|Cy]; [nia|]. lia. }
  destruct A as (C & N & V); [lia|lia|lia|done|lia|lia|lia|].
  split; [done|]. split; [done|]. rewrite V. rewrite nearest_S by (try apply Z.mul_nonneg_nonneg; lia || apply Z.pow_nonneg; lia).
  rewrite Z.mul_1_l. f_equal. cbn [uval]. rewrite Z.pow_add_r, Pos2Z.inj_mul by lia.
  destruct sx, sy; cbn [xorb sgn]; lia.
Qed.

Lemma new_location_loc d r : 0 < d -> 0 <= r -> new_location d r = loc_of r d.
Proof.
  intros Hd Hr. unfold new_location, new_location_even, new_location_odd, loc_of.
  destruct (Z.even d) eqn:Ev; [done|]. destruct (r =? 0); [done|]. f_equal.
  assert (2 * r <> d) as Hne by (intros <-; by rewrite Z.even_mul in Ev).
  destruct (Z.compare_spec (2 * r + 1) d), (Z.compare_spec (2 * r) d); try lia; done.
Qed.

(** Quotients by a positive number. *)
Lemma f64_div_spec x my ey : canonical_f64 x -> canonical_f64 (S754_finite false my ey) -> is_finite x = true ->
  let y := S754_finite false my ey in
  canonical_f64 (f64_div x y) /\ is_nan (f64_div x y) = false /\
  uval (f64_div x y) = nearestS (uval x * 2 ^ 1074) (uval y).
Proof.
  intros Cx Cy Fx y. assert (0 < 2 ^ 1074) as P by (by apply Z.pow_pos_nonneg).
  assert (0 < uval y) as Uy.
  { cbn [canonical_f64] in Cy. unfold y. cbn [uval sgn]. rewrite Z.mul_1_l. apply Z.mul_pos_pos; [lia|]. apply Z.pow_pos_nonneg; lia. }
  destruct x as [sx|sx| |sx mx ex]; try done; try (split; [done|]; split; [done|]; by apply eq_sym, nearestS_0).
  cbn [canonical_f64] in Cx, Cy. unfold f64_div, y, SFdiv, SFdiv_core_binary.
  change (Zdigits2 (Zpos mx)) with (Zpos (digits2_pos mx)). change (Zdigits2 (Zpos my)) with (Zpos (digits2_pos my)).
  rewrite !digits2_log. set (d1 := Z.log2 (Zpos mx) + 1). set (d2 := Z.log2 (Zpos my) + 1).
  set (e' := Z.min (fexp 53 1024 (d1 + ex - (d2 + ey))) (ex - ey)). set (s := ex - ey - e').
  pose proof (digits_spec (Zpos mx) ltac:(lia)) as [Lx _]. change (digits (Zpos mx)) with d1 in Lx.
  pose proof (digits_spec (Zpos my) ltac:(lia)) as [_ Gy]. change (digits (Zpos my)) with d2 in Gy.
  assert (d1 <= 53) as D1 by (apply (digits_le (Zpos mx)); lia).
  assert (1 <= d2) as D2 by (unfold d2; pose proof (Z.log2_nonneg (Zpos my)); lia).
  assert (1 <= d1) as D3 by (unfold d1; pose proof (Z.log2_nonneg (Zpos mx)); lia).
  assert (0 <= s) as Hs by (unfold s, e'; lia).
  replace (match s with Z0 => Zpos mx | Zpos _ => Z.shiftl (Zpos mx) s | Zneg _ => 0 end) with (Zpos mx * 2 ^ s)
    by (destruct s; [lia|by rewrite Z.shiftl_mul_pow2|lia]).
  pose proof (Z.pow_pos_nonneg 2 s ltac:(lia) Hs) as Ps. set (n := Zpos mx * 2 ^ s).
  assert (Z.div_eucl n (Zpos my) = (n / Zpos my, n mod Zpos my)) as ->
    by (unfold Z.div, Z.modulo; by destruct (Z.div_eucl _ _)).
  pose proof (Z.mod_pos_bound n (Zpos my) ltac:(lia)) as Hr. rewrite new_location_loc by lia.
  assert (e' <= - 1074 \/ e' = d1 + ex - (d2 + ey) - 53 /\ 2 ^ 52 <= n / Zpos my) as Q.
  { destruct (Z.lt_ge_cases (- 1074) e'); [right|by left].
    assert (e' = d1 + ex - (d2 + ey) - 53) as E by (unfold e' in *; rewrite fexp_eq in *; lia). split; [done|].
    assert (s = 53 + d2 - d1) as Es by (unfold s; lia). apply Z.div_le_lower_bound; [lia|]. unfold n.
    apply Z.le_trans with (2 ^ d2 * 2 ^ 52); [apply Z.mul_le_mono_nonneg_r; lia|].
    rewrite <- Z.pow_add_r by lia. replace (d2 + 52) with (d1 - 1 + s) by lia. rewrite Z.pow_add_r by lia.
    apply Z.mul_le_mono_nonneg_r; lia. }
  pose proof (Z.div_pos n (Zpos my) ltac:(unfold n; lia) ltac:(lia)) as Hq.
  destruct (round_aux_spec (xorb sx false) n (Zpos my) e' (Z.max 0 (e' + 1074)) (Z.max 0 (- 1074 - e'))) as (C & N & V);
    [unfold n; lia|lia|destruct Q as [?|[? ?]]; lia| |lia|lia|lia|].
  { rewrite fexp_eq. destruct Q as [?|[_ Q]]; [lia|]. pose proof (digits_ge (n / Zpos my) 52 ltac:(lia) Q). lia. }
  split; [done|]. split; [done|]. rewrite V. clear V C N.
  set (a := Z.max 0 (e' + 1074)). set (b := Z.max 0 (- 1074 - e')).
  pose proof (Z.pow_pos_nonneg 2 a ltac:(lia) ltac:(lia)) as Pa. pose proof (Z.pow_pos_nonneg 2 b ltac:(lia) ltac:(lia)) as Pb.
  pose proof (Z.pow_pos_nonneg 2 (ex + 1074) ltac:(lia) ltac:(lia)) as Pex.
  pose proof (Z.pow_pos_nonneg 2 (ey + 1074) ltac:(lia) ltac:(lia)) as Pey.
  cbn [uval]. rewrite xorb_false_r, <- Z.mul_assoc, <- nearest_S by (cbn [sgn]; nia). unfold nearest. do 2 f_equal.
  apply rnd_eq; [unfold n; nia|nia|nia|cbn [sgn]; nia|]. cbn [sgn]. rewrite Z.mul_1_l. unfold n.
  transitivity (Zpos mx * Zpos my * (2 ^ s * 2 ^ a * 2 ^ (ey + 1074))); [lia|].
  transitivity (Zpos mx * Zpos my * (2 ^ (ex + 1074) * 2 ^ 1074 * 2 ^ b)); [|lia]. f_equal.
  rewrite <- !Z.pow_add_r by lia. f_equal. unfold s, a, b. lia.
Qed.

(** ** The order of values *)

Definition num (x : f64) : Prop := canonical_f64 x /\ is_nan x = false.

Lemma mantissa_order m1 e1 m2 e2 : canonical_f64 (S754_finite false m1 e1) -> canonical_f64 (S754_finite false m2 e2) ->
  e1 < e2 -> Zpos m1 * 2 ^ (e1 + 1074) < Zpos m2 * 2 ^ (e2 + 1074).
Proof.
  cbn [canonical_f64]. intros C1 C2 L. pose proof (Z.pow_pos_nonneg 2 (e1 + 1074) ltac:(lia) ltac:(lia)).
  assert (2 * 2 ^ (e1 + 1074) <= 2 ^ (e2 + 1074)) by (rewrite <- Z.pow_succ_r by lia; apply Z.pow_le_mono_r; lia). nia.
Qed.

Lemma uval_pos_compare m1 e1 m2 e2 : canonical_f64 (S754_finite false m1 e1) -> canonical_f64 (S754_finite false m2 e2) ->
  match e1 ?= e2 with Lt => Lt | Gt => Gt | Eq => Pos.compare m1 m2 end =
  (Zpos m1 * 2 ^ (e1 + 1074) ?= Zpos m2 * 2 ^ (e2 + 1074)).
Proof.
  intros C1 C2. destruct (Z.compare_spec e1 e2) as [->|L|L]; symmetry.
  - pose proof (Z.pow_pos_nonneg 2 (e2 + 1074) ltac:(lia) ltac:(cbn [canonical_f64] in C2; lia)).
    change (Pos.compare m1 m2) with (Zpos m1 ?= Zpos m2). destruct (Z.compare_spec (Zpos m1) (Zpos m2)) as [->|?|?];
      [apply Z.compare_refl|apply Z.compare_lt_iff|apply Z.compare_gt_iff]; apply Z.mul_lt_mono_pos_r; done.
  - apply Z.compare_lt_iff. by apply mantissa_order.
  - apply Z.compare_gt_iff. by apply mantissa_order.
Qed.

Lemma finite_lt_BIG s m e : canonical_f64 (S754_finite s m e) -> 0 < Zpos m * 2 ^ (e + 1074) < BIG.
Proof.
  cbn [canonical_f64]. intros C. split; [|apply mantissa_lt_BIG; lia].
  apply Z.mul_pos_pos; [lia|]. apply Z.pow_pos_nonneg; lia.
Qed.

Lemma uval_compare x y : num x -> num y -> SFcompare x y = Some (uval x ?= uval y).
Proof.
  intros [Cx Nx] [Cy Ny]. pose proof BIG_pos.
  destruct x as [sx|sx| |sx mx ex]; [| |done|]; destruct y as [sy|sy| |sy my ey]; try done;
    repeat match goal with C : canonical_f64 (S754_finite ?s ?m ?e) |- _ =>
      lazymatch goal with B : 0 < Zpos m * 2 ^ (e + 1074) < BIG |- _ => fail | _ => pose proof (finite_lt_BIG s m e C) end end;
    try (repeat match goal with s : bool |- _ => destruct s end; cbn [SFcompare uval sgn]; f_equal; symmetry;
         first [apply Z.compare_eq_iff; lia|apply Z.compare_lt_iff; lia|apply Z.compare_gt_iff; lia]).
  pose proof (uval_pos_compare mx ex my ey Cx Cy) as E. destruct sx, sy; cbn [SFcompare uval sgn]; f_equal.
  - replace (-1 * (Zpos mx * 2 ^ (ex + 1074))) with (- (Zpos mx * 2 ^ (ex + 1074))) by lia.
    replace (-1 * (Zpos my * 2 ^ (ey + 1074))) with (- (Zpos my * 2 ^ (ey + 1074))) by lia.
    rewrite Z.compare_opp, (Z.compare_antisym (Zpos mx * _)), <- E. destruct (ex ?= ey); [|done..].
    reflexivity.
  - symmetry. apply Z.compare_lt_iff. lia.
  - symmetry. apply Z.compare_gt_iff. lia.
  - rewrite !Z.mul_1_l. exact E.
Qed.

Lemma f64_le_uval x y : num x -> num y -> f64_le x y = true <-> uval x <= uval y.
Proof.
  intros Hx Hy. unfold f64_le, SFleb. rewrite uval_compare by done.
  destruct (Z.compare_spec (uval x) (uval y)); split; (done || lia).
Qed.

Lemma f64_lt_uval x y : num x -> num y -> f64_lt x y = true <-> uval x < uval y.
Proof.
  intros Hx Hy. unfold f64_lt, SFltb. rewrite uval_compare by done.
  destruct (Z.compare_spec (uval x) (uval y)); split; (done || lia).
Qed.

(** ** Intervals *)

(** [x] is a number between [lo] and [hi]. *)
Definition within (lo hi x : f64) : Prop := num x /\ f64_le lo x = true /\ f64_le x hi = true.

Definition is_num (x : f64) : bool :=
  match x with
  | S754_nan => false
  | S754_finite _ m e =>
      ((2 ^ 52 <=? Zpos m) && (Zpos m <? 2 ^ 53) && (- 1074 <=? e) && (e <=? 971)) || ((Zpos m <? 2 ^ 52) && (e =? - 1074))
  | _ => true
  end.

Lemma is_num_num x : is_num x = true -> num x.
Proof.
  destruct x as [s|s| |s m e]; [done..|]. cbn [is_num]. unfold num. cbn [canonical_f64 is_nan].
  intros H. split; [|done]. apply orb_true_iff in H as [H|H]; bools; [left|right]; lia.
Qed.

Lemma le_not_nan x y : f64_le x y = true -> is_nan x = false /\ is_nan y = false.
Proof. destruct x, y; done. Qed.

Lemma f64_le_trans x y z : num x -> num y -> num z -> f64_le x y = true -> f64_le y z = true -> f64_le x z = true.
Proof. intros Hx Hy Hz. rewrite !f64_le_uval by done. lia. Qed.

Lemma f64_le_total x y : num x -> num y -> f64_le x y = true \/ f64_le y x = true.
Proof. intros Hx Hy. rewrite !f64_le_uval by done. lia. Qed.

Lemma f64_lt_le x y : num x -> num y -> f64_lt x y = negb (f64_le y x).
Proof.
  intros Hx Hy. apply eq_true_iff_eq. rewrite negb_true_iff, f64_lt_uval by done.
  pose proof (f64_le_uval y x Hy Hx). destruct (f64_le y x); split; (done || lia).
Qed.

Lemma within_num lo hi x : within lo hi x -> num x.
Proof. by intros [? _]. Qed.

Lemma within_self x : is_num x = true -> within x x x.
Proof. intros H%is_num_num. split; [done|]. rewrite f64_le_uval by done. split; lia. Qed.

Lemma within_weaken lo hi lo' hi' x : within lo hi x ->
  is_num lo && is_num hi && is_num lo' && is_num hi' && f64_le lo' lo && f64_le hi hi' = true -> within lo' hi' x.
Proof.
  intros (N & L & H) C. bools. repeat match goal with C : is_num _ = true |- _ => apply is_num_num in C end.
  split; [done|]. split; [by apply (f64_le_trans _ lo)|by apply (f64_le_trans _ hi)].
Qed.

Lemma within_finite lo hi x : within lo hi x -> is_num lo && is_num hi && is_finite lo && is_finite hi = true ->
  is_finite x = true.
Proof. intros (N & L & H) C. bools. destruct x as [s|s| |s m e]; try done. by destruct s, lo, hi. Qed.

Definition finite_num (x : f64) : bool := is_num x && is_finite x.

Lemma finite_num_split x : finite_num x = true -> canonical_f64 x /\ is_finite x = true /\ num x.
Proof. intros H. unfold finite_num in H. bools. pose proof (is_num_num x ltac:(done)) as N. destruct N. done. Qed.

Lemma finite_within lo hi x : within lo hi x -> finite_num lo && finite_num hi = true -> canonical_f64 x /\ is_finite x = true.
Proof.
  intros W C. split; [apply W|]. apply (within_finite lo hi); [done|]. unfold finite_num in C. bools.
  repeat (apply andb_true_intro; split); done.
Qed.

(** Arguments between bounds give results between the results at the bounds. *)
Lemma within_add l1 h1 l2 h2 x y : within l1 h1 x -> within l2 h2 y ->
  finite_num l1 && finite_num h1 && finite_num l2 && finite_num h2 = true ->
  within (f64_add l1 l2) (f64_add h1 h2) (f64_add x y).
Proof.
  intros Wx Wy C. bools.
  destruct (finite_within _ _ _ Wx ltac:(by rewrite !andb_true_iff)) as [Cx Fx].
  destruct (finite_within _ _ _ Wy ltac:(by rewrite !andb_true_iff)) as [Cy Fy].
  destruct (finite_num_split l1) as (Cl1 & Fl1 & Nl1); [done|]. destruct (finite_num_split h1) as (Ch1 & Fh1 & Nh1); [done|].
  destruct (finite_num_split l2) as (Cl2 & Fl2 & Nl2); [done|]. destruct (finite_num_split h2) as (Ch2 & Fh2 & Nh2); [done|].
  destruct Wx as (Nx & Lx & Hx). destruct Wy as (Ny & Ly & Hy).
  rewrite !f64_le_uval in Lx, Hx, Ly, Hy by done.
  destruct (f64_add_spec x y) as (C1 & N1 & V1); [done..|].
  destruct (f64_add_spec l1 l2) as (C2 & N2 & V2); [done..|]. destruct (f64_add_spec h1 h2) as (C3 & N3 & V3); [done..|].
  split; [done|]. rewrite !f64_le_uval by done. rewrite V1, V2, V3. split; apply nearestS_mono; lia.
Qed.

Lemma within_opp lo hi x : within lo hi x -> is_num lo && is_num hi = true -> within (SFopp hi) (SFopp lo) (SFopp x).
Proof.
  intros (N & L & H) C. bools. assert (forall y, num y -> num (SFopp y)) as O
    by (intros y [? ?]; split; [by apply canonical_opp|by destruct y]).
  repeat match goal with C : is_num _ = true |- _ => apply is_num_num in C end.
  split; [by apply O|]. rewrite !f64_le_uval in * by auto. rewrite !uval_opp. lia.
Qed.

Lemma within_sub l1 h1 l2 h2 x y : within l1 h1 x -> within l2 h2 y ->
  finite_num l1 && finite_num h1 && finite_num l2 && finite_num h2 = true ->
  within (f64_sub l1 h2) (f64_sub h1 l2) (f64_sub x y).
Proof.
  intros Wx Wy C. assert (forall z, finite_num z = true -> finite_num (SFopp z) = true /\ is_nan z = false) as O by (by intros []).
  bools. rewrite (f64_sub_add x y (proj2 (within_num _ _ _ Wy))), (f64_sub_add l1 h2), (f64_sub_add h1 l2) by (by apply O).
  apply within_add; [done| |].
  - apply within_opp; [done|]. unfold finite_num in *. bools. by rewrite andb_true_iff.
  - rewrite !andb_true_iff. repeat split; try done; by apply O.
Qed.

Definition nonneg (x : f64) : bool := f64_le (f64_of 0) x.

Lemma nonneg_uval x : num x -> nonneg x = true <-> 0 <= uval x.
Proof. intros H. unfold nonneg. rewrite f64_le_uval by done. done. Qed.

Lemma within_mul l1 h1 l2 h2 x y : within l1 h1 x -> within l2 h2 y ->
  finite_num l1 && finite_num h1 && finite_num l2 && finite_num h2 && nonneg l1 && nonneg l2 = true ->
  within (f64_mul l1 l2) (f64_mul h1 h2) (f64_mul x y).
Proof.
  intros Wx Wy C. bools.
  destruct (finite_within _ _ _ Wx ltac:(by rewrite !andb_true_iff)) as [Cx Fx].
  destruct (finite_within _ _ _ Wy ltac:(by rewrite !andb_true_iff)) as [Cy Fy].
  destruct (finite_num_split l1) as (Cl1 & Fl1 & Nl1); [done|]. destruct (finite_num_split h1) as (Ch1 & Fh1 & Nh1); [done|].
  destruct (finite_num_split l2) as (Cl2 & Fl2 & Nl2); [done|]. destruct (finite_num_split h2) as (Ch2 & Fh2 & Nh2); [done|].
  destruct Wx as (Nx & Lx & Hx). destruct Wy as (Ny & Ly & Hy).
  rewrite !f64_le_uval in Lx, Hx, Ly, Hy by done. rewrite !nonneg_uval in * by done.
  destruct (f64_mul_spec x y) as (C1 & N1 & V1); [done..|].
  destruct (f64_mul_spec l1 l2) as (C2 & N2 & V2); [done..|]. destruct (f64_mul_spec h1 h2) as (C3 & N3 & V3); [done..|].
  pose proof (Z.pow_pos_nonneg 2 1074 ltac:(lia) ltac:(lia)) as P.
  split; [done|]. rewrite !f64_le_uval by done. rewrite V1, V2, V3.
  split; apply nearestS_mono; try done; apply Z.mul_le_mono_nonneg_r; try lia; apply Z.mul_le_mono_nonneg; lia.
Qed.

(** Division by a positive constant. *)
Lemma within_div lo hi x y : within lo hi x -> finite_num lo && finite_num hi && finite_num y && f64_lt (f64_of 0) y = true ->
  within (f64_div lo y) (f64_div hi y) (f64_div x y).
Proof.
  intros W C. bools. destruct (finite_within _ _ _ W ltac:(by rewrite !andb_true_iff)) as [Cx Fx].
  destruct (finite_num_split lo) as (Cl & Fl & Nl); [done|]. destruct (finite_num_split hi) as (Ch & Fh & Nh); [done|].
  destruct (finite_num_split y) as (Cy & Fy & Ny); [done|]. destruct W as (Nx & Lx & Hx). rewrite !f64_le_uval in Lx, Hx by done.
  destruct y as [s|s| |[] my ey]; try done.
  destruct (f64_div_spec x my ey) as (C1 & N1 & V1); [done..|]. destruct (f64_div_spec lo my ey) as (C2 & N2 & V2); [done..|].
  destruct (f64_div_spec hi my ey) as (C3 & N3 & V3); [done..|].
  pose proof (finite_lt_BIG false my ey Cy) as P. pose proof (Z.pow_pos_nonneg 2 1074 ltac:(lia) ltac:(lia)).
  cbn [uval sgn] in V1, V2, V3. rewrite Z.mul_1_l in V1, V2, V3.
  split; [done|]. rewrite !f64_le_uval by done. rewrite V1, V2, V3.
  split; apply nearestS_mono; try lia; apply Z.mul_le_mono_nonneg_r; try lia; apply Z.mul_le_mono_nonneg_r; lia.
Qed.

Lemma f64_min_cases x y : num x -> num y -> f64_min x y = x /\ f64_le x y = true \/ f64_min x y = y /\ f64_le y x = true.
Proof.
  intros Hx Hy. unfold f64_min. rewrite (proj2 Hx), (proj2 Hy), f64_lt_le by done.
  destruct (f64_le x y) eqn:E; cbn [negb]; [by left|]. right. split; [done|].
  destruct (f64_le_total x y Hx Hy); congruence.
Qed.

Lemma f64_max_cases x y : num x -> num y -> f64_max x y = x /\ f64_le y x = true \/ f64_max x y = y /\ f64_le x y = true.
Proof.
  intros Hx Hy. unfold f64_max. rewrite (proj2 Hx), (proj2 Hy), f64_lt_le by done.
  destruct (f64_le y x) eqn:E; cbn [negb]; [by left|]. right. split; [done|].
  destruct (f64_le_total x y Hx Hy); congruence.
Qed.

(** [min] and [max] against one argument bound the result on one side. *)
Lemma uval_min x y : num x -> num y -> num (f64_min x y) /\ uval (f64_min x y) = Z.min (uval x) (uval y).
Proof.
  intros Hx Hy. destruct (f64_min_cases x y Hx Hy) as [[-> L]|[-> L]]; rewrite f64_le_uval in L by done; (split; [done|lia]).
Qed.

Lemma uval_max x y : num x -> num y -> num (f64_max x y) /\ uval (f64_max x y) = Z.max (uval x) (uval y).
Proof.
  intros Hx Hy. destruct (f64_max_cases x y Hx Hy) as [[-> L]|[-> L]]; rewrite f64_le_uval in L by done; (split; [done|lia]).
Qed.

Lemma clamp_within x lo hi : num x -> num lo -> num hi -> f64_le lo hi = true -> within lo hi (f64_clamp x lo hi).
Proof.
  intros Hx Hl Hh L. unfold f64_clamp. rewrite !f64_lt_le by done.
  destruct (f64_le lo x) eqn:E1; cbn [negb]; [|split; [done|]; rewrite f64_le_uval; [split; [lia|done]|done..]].
  destruct (f64_le x hi) eqn:E2; cbn [negb]; [done|]. split; [done|]. rewrite !f64_le_uval in * by done. lia.
Qed.

Lemma clamp_id x lo hi : within lo hi x -> num lo -> num hi -> f64_clamp x lo hi = x.
Proof. intros (N & L & H) Hl Hh. unfold f64_clamp. by rewrite !f64_lt_le, L, H by done. Qed.

(** Adding what is not negative does not lower a number, and subtracting it does not raise one. *)
Lemma f64_le_add x y : num x -> num y -> is_finite x = true -> is_finite y = true -> nonneg y = true ->
  num (f64_add x y) /\ f64_le x (f64_add x y) = true.
Proof.
  intros Hx Hy Fx Fy P. destruct (f64_add_spec x y) as (C & N & V); [apply Hx|apply Hy|done..|].
  split; [done|]. rewrite f64_le_uval by done. rewrite nonneg_uval in P by done.
  rewrite V, <- (nearestS_uval x) at 1 by (apply Hx || done). apply nearestS_mono; lia.
Qed.

Lemma f64_sub_le x y : num x -> num y -> is_finite x = true -> is_finite y = true -> nonneg y = true ->
  num (f64_sub x y) /\ f64_le (f64_sub x y) x = true.
Proof.
  intros Hx Hy Fx Fy P. rewrite f64_sub_add by apply Hy.
  destruct (f64_add_spec x (SFopp y)) as (C & N & V); [apply Hx|apply canonical_opp, Hy|done|by destruct y|].
  split; [done|]. rewrite f64_le_uval by done. rewrite nonneg_uval in P by done.
  rewrite V, uval_opp. rewrite <- (nearestS_uval x) at 2 by (apply Hx || done). apply nearestS_mono; lia.
Qed.

(** Scaling a non-negative number by at most one does not raise it. *)
Lemma f64_mul_le x y : num x -> is_finite x = true -> nonneg x = true -> within (f64_of 0) (f64_of 1) y ->
  num (f64_mul x y) /\ f64_le (f64_mul x y) x = true /\ nonneg (f64_mul x y) = true.
Proof.
  intros Hx Fx P W. destruct (finite_within _ _ _ W eq_refl) as [Cy Fy]. destruct W as (Ny & L & H).
  destruct (f64_mul_spec x y) as (C & N & V); [apply Hx|done..|]. assert (num (f64_mul x y)) as Nr by done.
  assert (num (f64_of 0) /\ num (f64_of 1)) as [N0 N1] by (split; by apply is_num_num).
  rewrite f64_le_uval in L, H by done. rewrite nonneg_uval in * by done. split; [done|].
  pose proof (Z.pow_pos_nonneg 2 1074 ltac:(lia) ltac:(lia)) as P2.
  change (uval (f64_of 0)) with 0 in L. assert (uval (f64_of 1) = 2 ^ 1074) as E by (vm_compute; reflexivity). rewrite E in H.
  rewrite f64_le_uval by done. rewrite V. split.
  - rewrite <- (nearestS_uval x) at 2 by (apply Hx || done). apply nearestS_mono; [done|lia|].
    rewrite Z.mul_1_r. apply Z.mul_le_mono_nonneg_l; lia.
  - rewrite <- (nearestS_0 1) by lia. apply nearestS_mono; [lia|done|]. rewrite Z.mul_0_l, Z.mul_1_r. apply Z.mul_nonneg_nonneg; lia.
Qed.

(** Integers up to [2 ^ 53] are themselves. *)
Lemma f64_of_mono a b : a <= b -> num (f64_of a) /\ num (f64_of b) /\ f64_le (f64_of a) (f64_of b) = true.
Proof.
  intros H. destruct (f64_of_spec a) as (C1 & N1 & V1). destruct (f64_of_spec b) as (C2 & N2 & V2).
  split; [done|]. split; [done|]. rewrite f64_le_uval by done. rewrite V1, V2. apply nearestS_mono; [lia..|].
  rewrite !Z.mul_1_r. apply Z.mul_le_mono_nonneg_r; [|done]. by apply Z.pow_nonneg.
Qed.

(** ** Non-negative numbers, infinity included *)

Definition nn (x : f64) : Prop := num x /\ nonneg x = true.

Lemma nn_infinity : nn (S754_infinity false).
Proof. done. Qed.

Lemma nn_zero : nn (f64_of 0).
Proof. done. Qed.

Lemma nn_const x : is_num x && nonneg x = true -> nn x.
Proof. intros C. bools. split; [by apply is_num_num|done]. Qed.

Lemma nn_infinite x : nn x -> is_finite x = false -> x = S754_infinity false.
Proof. intros [_ P] F. by destruct x as [s|[]| |s m e]. Qed.

Lemma le_infinity x : num x -> f64_le x (S754_infinity false) = true.
Proof. intros [_ N]. by destruct x as [s|[]| |[] m e]. Qed.

Lemma nn_add x y : nn x -> nn y -> nn (f64_add x y) /\ f64_le x (f64_add x y) = true.
Proof.
  intros [Nx Px] [Ny Py]. destruct (is_finite x) eqn:Fx; [destruct (is_finite y) eqn:Fy|].
  - destruct (f64_le_add x y) as [N L]; [done..|]. split; [|done]. split; [done|].
    by apply (f64_le_trans _ x); [apply nn_zero| | | |].
  - rewrite (nn_infinite y) by done. assert (f64_add x (S754_infinity false) = S754_infinity false) as ->
      by (by destruct x as [s|[]| |s m e]). split; [done|by apply le_infinity].
  - rewrite (nn_infinite x) by done. by destruct y as [s|[]| |[] m e].
Qed.

Lemma nn_mul x y : nn x -> num y -> is_finite y = true -> f64_lt (f64_of 0) y = true -> nn (f64_mul x y).
Proof.
  intros [Nx Px] Ny Fy P. destruct (is_finite x) eqn:Fx.
  - destruct (f64_mul_spec x y) as (C & N & V); [apply Nx|apply Ny|done..|]. split; [done|].
    rewrite nonneg_uval by done. rewrite nonneg_uval in Px by done. rewrite f64_lt_uval in P by (done || apply nn_zero).
    change (uval (f64_of 0)) with 0 in P. pose proof (Z.pow_pos_nonneg 2 1074 ltac:(lia) ltac:(lia)).
    rewrite V, <- (nearestS_0 1) by lia. apply nearestS_mono; [lia|done|]. nia.
  - rewrite (nn_infinite x) by done. by destruct y as [s|[]| |[] m e].
Qed.

Lemma nn_div x y : nn x -> is_finite x = true -> num y -> is_positive y = true -> nn (f64_div x y).
Proof.
  intros [Nx Px] Fx Ny P. unfold is_positive in P. bools. destruct y as [s|[]| |[] m e]; try done.
  destruct (f64_div_spec x m e) as (C & N & V); [apply Nx|apply Ny|done|]. split; [done|].
  rewrite nonneg_uval by done. rewrite nonneg_uval in Px by done. pose proof (finite_lt_BIG false m e (proj1 Ny)).
  pose proof (Z.pow_pos_nonneg 2 1074 ltac:(lia) ltac:(lia)). cbn [uval sgn] in V.
  rewrite V, <- (nearestS_0 1) by lia. apply nearestS_mono; [lia|lia|]. nia.
Qed.

Lemma nn_double x : nn x -> nn (f64_mul x (f64_of 2)) /\ f64_le x (f64_mul x (f64_of 2)) = true.
Proof.
  intros Nx. assert (num (f64_of 2)) as N2 by (by apply is_num_num). split; [by apply nn_mul|].
  destruct Nx as [Nx Px]. destruct (is_finite x) eqn:Fx; [|by rewrite (nn_infinite x)].
  destruct (f64_mul_spec x (f64_of 2)) as (C & N & V); [apply Nx|apply N2|done..|].
  rewrite f64_le_uval by done. rewrite nonneg_uval in Px by done. rewrite V.
  assert (uval (f64_of 2) = 2 * 2 ^ 1074) as -> by (vm_compute; reflexivity).
  pose proof (Z.pow_pos_nonneg 2 1074 ltac:(lia) ltac:(lia)).
  rewrite <- (nearestS_uval x) at 1 by (apply Nx || done). apply nearestS_mono; [lia|done|]. nia.
Qed.

Lemma f64_mul_comm x y : f64_mul x y = f64_mul y x.
Proof.
  unfold f64_mul. destruct x as [sx|sx| |sx mx ex], y as [sy|sy| |sy my ey]; cbn [SFmul]; try done; try (by rewrite xorb_comm).
  by rewrite xorb_comm, Pos.mul_comm, Z.add_comm.
Qed.

(** ** Further closure *)

Lemma f64_of_within a lo hi : lo <= a <= hi -> within (f64_of lo) (f64_of hi) (f64_of a).
Proof.
  intros H. destruct (f64_of_mono lo a) as (_ & _ & L); [lia|]. destruct (f64_of_mono a hi) as (N & _ & U); [lia|]. done.
Qed.

Lemma uval_one : uval (f64_of 1) = 2 ^ 1074.
Proof. vm_compute. reflexivity. Qed.

(** Small integers are exact. *)
Lemma uval_f64_of z : 0 <= z < 2 ^ 53 -> uval (f64_of z) = z * 2 ^ 1074.
Proof.
  intros H. destruct (f64_of_spec z) as (_ & _ & ->). unfold nearestS, nearest.
  pose proof (Z.pow_pos_nonneg 2 1074 ltac:(lia) ltac:(lia)) as P.
  rewrite (proj2 (Z.ltb_ge _ 0)), rnd_exact by nia. cbn [sgn]. rewrite Z.min_r; [lia|].
  pose proof (mantissa_lt_BIG z 0 H ltac:(lia)). lia.
Qed.

Lemma to_u64_floor x : nn x -> is_finite x = true -> 0 <= f64_to_u64 x /\ f64_to_u64 x * 2 ^ 1074 <= uval x.
Proof.
  intros [Nx Px] Fx. pose proof (Z.pow_pos_nonneg 2 1074 ltac:(lia) ltac:(lia)) as P.
  rewrite nonneg_uval in Px by done. destruct x as [s|s| |[] m e]; try done.
  destruct Nx as [C _]. cbn [canonical_f64] in C. cbn [f64_to_u64 uval sgn]. rewrite Z.mul_1_l.
  assert (0 <= Z.shiftl (Zpos m) e) by (apply Z.shiftl_nonneg; lia). split; [lia|].
  apply Z.le_trans with (Z.shiftl (Zpos m) e * 2 ^ 1074); [apply Z.mul_le_mono_nonneg_r; lia|].
  destruct (Z.lt_ge_cases e 0) as [He|He].
  - rewrite Z.shiftl_div_pow2 by lia. replace 1074 with (- e + (e + 1074)) at 1 by lia.
    rewrite Z.pow_add_r, Z.mul_assoc by lia. apply Z.mul_le_mono_nonneg_r; [apply Z.pow_nonneg; lia|].
    rewrite Z.mul_comm. apply Z.mul_div_le. apply Z.pow_pos_nonneg; lia.
  - rewrite Z.shiftl_mul_pow2, <- Z.mul_assoc, <- Z.pow_add_r by lia. lia.
Qed.

Lemma to_u64_le x : nn x -> is_finite x = true -> nn (f64_of (f64_to_u64 x)) /\ f64_le (f64_of (f64_to_u64 x)) x = true.
Proof.
  intros Nx Fx. destruct (to_u64_floor x Nx Fx) as [H0 H]. destruct Nx as [Nx Px].
  pose proof (Z.pow_pos_nonneg 2 1074 ltac:(lia) ltac:(lia)) as P.
  destruct (f64_of_spec (f64_to_u64 x)) as (C & N & V). split.
  - split; [done|]. rewrite nonneg_uval by done. rewrite V, <- (nearestS_0 1) by lia. apply nearestS_mono; nia.
  - rewrite f64_le_uval by done. rewrite V, <- (nearestS_uval x) by (apply Nx || done). apply nearestS_mono; lia.
Qed.

Lemma nn_sub x y : nn x -> nn y -> is_finite y = true -> f64_le y x = true -> nn (f64_sub x y) /\ f64_le (f64_sub x y) x = true.
Proof.
  intros [Nx Px] [Ny Py] Fy L. destruct (is_finite x) eqn:Fx.
  - destruct (f64_sub_le x y) as [N U]; [done..|]. split; [|done]. split; [done|].
    rewrite f64_sub_add in * by apply Ny.
    destruct (f64_add_spec x (SFopp y)) as (C & _ & V); [apply Nx|apply canonical_opp, Ny|done|by destruct y|].
    rewrite nonneg_uval by done. rewrite f64_le_uval in L by done.
    rewrite V, uval_opp, <- (nearestS_0 1) by lia. apply nearestS_mono; lia.
  - rewrite (nn_infinite x) by done. by destruct y as [s|[]| |[] m e].
Qed.

Lemma nn_max_0 x : num x -> nn (f64_max x (f64_of 0)).
Proof.
  intros N. destruct (uval_max x (f64_of 0) N (proj1 nn_zero)) as [Nm V]. split; [done|].
  rewrite nonneg_uval by done. rewrite V. change (uval (f64_of 0)) with 0. lia.
Qed.

Lemma nn_finite_le x y : nn x -> num y -> f64_le x y = true -> is_finite y = true -> is_finite x = true.
Proof. intros [N P] Ny L F. destruct x as [s|[]| |s m e]; try done. by destruct y as [s|[]| |[] m e]. Qed.

(** Products of non-negative numbers by positive finite ones are monotone. *)
Lemma nn_mul_mono x x' y y' : nn x -> nn x' -> num y -> num y' -> is_finite y = true -> is_finite y' = true ->
  f64_lt (f64_of 0) y = true -> f64_le x x' = true -> f64_le y y' = true ->
  f64_le (f64_mul x y) (f64_mul x' y') = true.
Proof.
  intros Nx Nx' Ny Ny' Fy Fy' Py Lx Ly.
  assert (f64_lt (f64_of 0) y' = true) as Py'.
  { rewrite f64_lt_uval in * by (done || apply nn_zero). rewrite f64_le_uval in Ly by done. lia. }
  pose proof (nn_mul x y Nx Ny Fy Py) as [N _]. pose proof (nn_mul x' y' Nx' Ny' Fy' Py') as [N' _].
  destruct (is_finite x') eqn:Fx'.
  - assert (is_finite x = true) as Fx by (eapply nn_finite_le; [done|apply Nx'|done|done]).
    destruct (f64_mul_spec x y) as (_ & _ & V); [apply Nx|apply Ny|done..|].
    destruct (f64_mul_spec x' y') as (_ & _ & V'); [apply Nx'|apply Ny'|done..|].
    rewrite f64_le_uval by done. rewrite V, V'.
    rewrite f64_le_uval in Lx by (apply Nx || apply Nx'). rewrite f64_le_uval in Ly by done.
    rewrite f64_lt_uval in Py by (done || apply nn_zero). change (uval (f64_of 0)) with 0 in Py.
    destruct Nx as [Nx Px]. rewrite nonneg_uval in Px by done.
    pose proof (Z.pow_pos_nonneg 2 1074 ltac:(lia) ltac:(lia)) as P.
    apply nearestS_mono; [done|done|]. apply Z.mul_le_mono_nonneg_r; [lia|]. apply Z.mul_le_mono_nonneg; lia.
  - rewrite (nn_infinite x' Nx' Fx') in *. assert (f64_mul (S754_infinity false) y' = S754_infinity false) as ->
      by (by destruct y' as [s|[]| |[] m e]). by apply le_infinity.
Qed.

(** Any argument is clamped to the unit interval, unless it is no number. *)
Lemma clamp_unit_cases x : is_nan (f64_clamp x (f64_of 0) (f64_of 1)) = true \/
  f64_le (f64_of 0) (f64_clamp x (f64_of 0) (f64_of 1)) = true /\ f64_le (f64_clamp x (f64_of 0) (f64_of 1)) (f64_of 1) = true.
Proof.
  unfold f64_clamp. replace (f64_of 0) with (S754_zero false) by (vm_compute; reflexivity).
  replace (f64_of 1) with (S754_finite false 4503599627370496 (- 52)) by (vm_compute; reflexivity).
  destruct x as [s|s| |[] m e]; [right; split; reflexivity|right; destruct s; split; reflexivity|left; reflexivity| |].
  { right. split; reflexivity. }
  right. change (f64_lt (S754_finite false m e) (S754_zero false)) with false. cbn iota.
  destruct (f64_lt (S754_finite false _ _) _) eqn:E; [split; reflexivity|]. split; [reflexivity|].
  unfold f64_lt, f64_le, SFltb, SFleb, SFcompare in *. rewrite (Z.compare_antisym (- 52) e).
  destruct (- 52 ?= e); cbn [CompOpp]; [|discriminate|reflexivity].
  pose proof (Pos.compare_cont_antisym 4503599627370496 m Eq) as A. cbn [CompOpp] in A. rewrite <- A. revert E.
  by destruct (Pos.compare_cont Eq 4503599627370496 m).
Qed.

(** Dividing by at least one. *)
Lemma f64_div_le x y : canonical_f64 x -> is_finite x = true -> 0 <= uval x -> num y -> is_finite y = true -> uval (f64_of 1) <= uval y ->
  num (f64_div x y) /\ 0 <= uval (f64_div x y) <= uval x.
Proof.
  intros Cx Fx Px Ny Fy Ly. rewrite uval_one in Ly. pose proof (Z.pow_pos_nonneg 2 1074 ltac:(lia) ltac:(lia)) as P.
  destruct y as [s|s| |[] my ey]; try done.
  { cbn [uval sgn] in Ly. pose proof (finite_lt_BIG true my ey (proj1 Ny)). lia. }
  destruct (f64_div_spec x my ey Cx (proj1 Ny) Fx) as (C & N & V). split; [done|]. rewrite V. split.
  - rewrite <- (nearestS_0 1) by lia. apply nearestS_mono; nia.
  - rewrite <- (nearestS_uval x) at 2 by done. apply nearestS_mono; nia.
Qed.

Lemma f64_div_opp x y : is_nan y = false -> is_nan (f64_div x (SFopp y)) = false -> f64_div x y = SFopp (f64_div x (SFopp y)).
Proof.
  intros Hy. destruct x as [sx|sx| |sx mx ex], y as [sy|sy| |sy my ey]; try done; unfold f64_div, SFdiv; cbn [SFopp];
    try (by destruct sx, sy).
  destruct (SFdiv_core_binary _ _ _ _ _ _) as [[mz ez] lz]. unfold binary_round_aux.
  destruct (shr_fexp _ _ _ _ _) as [mrs e]. destruct (shr_fexp _ _ _ _ _) as [mrs' e'].
  intros _. destruct (shr_m mrs'); [by destruct sx, sy| |done]. destruct (e' <=? _); by destruct sx, sy.
Qed.

(** Scaling by a non-negative constant, of either sign. *)
Lemma within_scale lo hi x c : within lo hi x -> finite_num lo && finite_num hi && finite_num c && nonneg c = true ->
  within (f64_mul lo c) (f64_mul hi c) (f64_mul x c).
Proof.
  intros W C. bools. destruct (finite_within _ _ x W ltac:(by rewrite !andb_true_iff)) as [Cx Fx].
  destruct (finite_num_split lo) as (Cl & Fl & Nl); [done|]. destruct (finite_num_split hi) as (Ch & Fh & Nh); [done|].
  destruct (finite_num_split c) as (Cc & Fc & Nc); [done|]. destruct W as (Nx & Lx & Hx). rewrite !f64_le_uval in Lx, Hx by done.
  rewrite nonneg_uval in * by done.
  destruct (f64_mul_spec x c) as (C1 & N1 & V1); [done..|]. destruct (f64_mul_spec lo c) as (C2 & N2 & V2); [done..|].
  destruct (f64_mul_spec hi c) as (C3 & N3 & V3); [done..|]. pose proof (Z.pow_pos_nonneg 2 1074 ltac:(lia) ltac:(lia)) as P.
  split; [done|]. rewrite !f64_le_uval by done. rewrite V1, V2, V3. split; apply nearestS_mono; nia.
Qed.

(** Whatever the bits, what is read from them is in the form of a binary64. *)
Lemma from_bits_canonical b : canonical_f64 (from_bits b).
Proof.
  unfold from_bits. pose proof (Z.mod_pos_bound (b / 2 ^ 52) (2 ^ 11) ltac:(lia)) as Hf.
  pose proof (Z.mod_pos_bound b (2 ^ 52) ltac:(lia)) as Hm.
  set (field := _ mod 2 ^ 11) in *. set (frac := b mod 2 ^ 52) in *. clearbody field frac.
  destruct (field =? 2047) eqn:E1; bools; [by destruct (frac =? 0)|]. destruct (field =? 0) eqn:E2; bools.
  - destruct frac as [|m|m]; cbn [signed_zpos canonical_f64]; [done|lia|lia].
  - destruct (2 ^ 52 + frac) as [|m|m] eqn:E; cbn [signed_zpos canonical_f64]; lia.
Qed.

Lemma exp_nonpos_canonical x : canonical_f64 x -> canonical_f64 (exp_nonpos x).
Proof.
  intros C. unfold exp_nonpos, exp. destruct (f64_le _ _); [apply (is_num_num (f64_of 0) eq_refl)|].
  destruct (is_nan x); [done|]. destruct (f64_lt (dec _ _) x); [done|].
  destruct (f64_lt x _); [apply (is_num_num (f64_of 0) eq_refl)|apply from_bits_canonical].
Qed.

Lemma clamp_canonical x lo hi : canonical_f64 x -> canonical_f64 lo -> canonical_f64 hi -> canonical_f64 (f64_clamp x lo hi).
Proof. intros. unfold f64_clamp. by destruct (f64_lt x lo), (f64_lt hi x). Qed.
