(* ===== verification/Rendezvous.v ===== *)
(** * Rendezvous selection ([src/rendezvous.rs])

    A keyed lottery over weighted candidates: every candidate gets a score from
    the key, the subject and its own identifier, and the least score wins.  The
    theorems say that the choice is a function of the set of candidates and that
    removing candidates never changes the order of the others. *)
From Stdlib Require Import Sorted Permutation.
From S2P Require Import Prelude Wire Prng Name BTree Sort Addr Float64 Float.

Definition DOMAIN_TAG : list Z := ascii_bytes "recursex:rdv".
Definition TWO64 : f64 := f64_of (2 ^ 64).
Definition INELIGIBLE : f64 := S754_infinity false.

Record RendezvousKey := mkRdvKey { rk0 : Z; rk1 : Z }.

(** The first eight octets of the hash, as a fraction. *)
Definition uniform (k : RendezvousKey) (subject : list Z) (candidate : Z) : f64 :=
  let buf := DOMAIN_TAG ++ subject ++ le_bytes 8 candidate in
  let lo := le_val (take 8 (siphash24_128 (rk0 k) (rk1 k) buf)) in
  f64_min (f64_div (f64_add (f64_of lo) (f64_of 1)) TWO64) (f64_of 1).

Definition score (k : RendezvousKey) (subject : list Z) (candidate : Z) (weight : f64) : f64 :=
  if negb (is_positive weight) then INELIGIBLE else
  f64_div (SFopp (ln (uniform k subject candidate))) weight.

(** The loop of [select_weighted]. *)
Fixpoint select_loop (k : RendezvousKey) (subject : list Z) (candidates : list (Z * f64))
    (best : option (f64 * Z)) : option (f64 * Z) :=
  match candidates with
  | [] => best
  | (id, w) :: candidates =>
      let s := score k subject id w in
      let take := match best with
                  | None => true
                  | Some (bs, bid) => f64_lt s bs || (SFeqb s bs && (id <? bid))
                  end in
      select_loop k subject candidates (if take then Some (s, id) else best)
  end.

Definition select_weighted (k : RendezvousKey) (subject : list Z) (candidates : list (Z * f64)) : option Z :=
  match select_loop k subject candidates None with
  | Some (s, id) => if is_finite s then Some id else None
  | None => None
  end.

Definition select (k : RendezvousKey) (subject : list Z) (candidates : list Z) : option Z :=
  select_weighted k subject (map (fun c => (c, f64_of 1)) candidates).

(** [a] does not sort after [b]: [partial_cmp] with a NaN equal to everything,
    then the identifiers. *)
Definition score_le (a b : f64 * Z) : bool :=
  match SFcompare a.1 b.1 with
  | Some Lt => true
  | Some Gt => false
  | Some Eq | None => a.2 <=? b.2
  end.

Definition scored (k : RendezvousKey) (subject : list Z) (item : Z * f64) : f64 * Z :=
  (score k subject item.1 item.2, item.1).

Definition rank (k : RendezvousKey) (subject : list Z) (items : list (Z * f64)) : list nat :=
  map snd (stable_sort (fun a b => score_le a.1 b.1)
             (zip (map (scored k subject) items) (seq 0 (length items)))).

(** ** The cost band *)

Record CostBand := mkBand { percent : f64; absolute_ms : f64 }.
Definition default_band : CostBand := mkBand (f64_of 10) (f64_of 2).

Definition band_limit (b : CostBand) (min_cost : f64) : f64 :=
  if negb (is_finite min_cost) || f64_lt min_cost (f64_of 0) then S754_infinity false else
  let relative := if is_finite (percent b) && f64_lt (f64_of 0) (percent b)
                  then f64_div (f64_mul min_cost (percent b)) (f64_of 100) else f64_of 0 in
  let absolute := if is_finite (absolute_ms b) && f64_lt (f64_of 0) (absolute_ms b)
                  then absolute_ms b else f64_of 0 in
  f64_add min_cost (f64_max relative absolute).

(** [min_by partial_cmp]: the first of the least. *)
Definition min_cost_of (costs : list f64) : option f64 :=
  match costs with
  | [] => None
  | c :: costs => Some (fold_left (fun m x => if f64_lt x m then x else m) costs c)
  end.

Definition admits_more_than_one (b : CostBand) (costs : list f64) : bool :=
  match min_cost_of (List.filter is_finite costs) with
  | None => false
  | Some min =>
      1 <? zlen (List.filter (fun c => is_finite c && f64_le c (band_limit b min)) costs)
  end.

(** ** Samples *)

Example rank_sample :
  rank (mkRdvKey 1 2) [119] [(10, f64_of 1); (20, f64_of 1); (30, f64_of 0); (40, f64_of 1)] = [3; 1; 0; 2]%nat.
Proof. vm_compute. reflexivity. Qed.

(** ** Properties *)

(** The candidates, best first. *)
Definition ranked (k : RendezvousKey) (subject : list Z) (items : list (Z * f64)) : list (Z * f64) :=
  omap (fun i => items !! i) (rank k subject items).

Definition best_first k subject (a b : Z * f64) : bool := score_le (scored k subject a) (scored k subject b).

Lemma rank_perm k subject items : Permutation (rank k subject items) (seq 0 (length items)).
Proof.
  unfold rank. rewrite stable_sort_perm. change (map snd) with (fmap (M := list) (@snd (f64 * Z) nat)).
  by rewrite snd_zip by (rewrite length_map, length_seq; lia).
Qed.

Lemma rank_ranked k subject items : ranked k subject items = stable_sort (best_first k subject) items.
Proof.
  unfold ranked, rank. set (n := length items).
  set (L := zip items (seq 0 n)).
  assert (zip (map (scored k subject) items) (seq 0 n) = map (fun p => (scored k subject p.1, p.2)) L) as ->.
  { unfold L. generalize (seq 0 n). induction items as [|x l IH]; intros [|i js]; cbn; try done. by rewrite IH. }
  rewrite <- (stable_sort_map (fun p => (scored k subject p.1, p.2)) (fun a b => score_le a.1 b.1) L), map_map.
  cbn [fst snd].
  assert (map fst L = items) as EL.
  { change (fmap (M := list) (@fst (Z * f64) nat) L = items). unfold L. by rewrite fst_zip by (rewrite length_seq; lia). }
  transitivity (stable_sort (best_first k subject) (map fst L)); [|by rewrite EL].
  rewrite <- (stable_sort_map fst (best_first k subject) L).
  assert (forall p, In p (stable_sort (fun a b => best_first k subject a.1 b.1) L) -> items !! p.2 = Some p.1) as Hl.
  { intros [x i] Hp. apply (Permutation_in _ (stable_sort_perm _ _)) in Hp. cbn [fst snd].
    apply list_elem_of_In, list_elem_of_lookup in Hp as [j Hj]. unfold L in Hj.
    apply lookup_zip_with_Some in Hj as (x' & i' & [= -> ->] & Hx & Hi). apply lookup_seq in Hi as [-> _]. done. }
  unfold best_first in *. induction (stable_sort _ L) as [|p s IH]; cbn [map omap list_omap]; [done|].
  rewrite (Hl p) by (by left). f_equal. apply IH. intros q Hq. apply Hl. by right.
Qed.

Definition score_key (a : f64 * Z) : (Z * (Z * Z)) * Z := (f64_key a.1, a.2).
Definition no_nan k subject (items : list (Z * f64)) : Prop :=
  Forall (fun x => is_nan (scored k subject x).1 = false) items.

Lemma no_nan_check k subject items :
  forallb (fun x => negb (is_nan (scored k subject x).1)) items = true -> no_nan k subject items.
Proof. unfold no_nan. rewrite forallb_forall, List.Forall_forall. intros H x Hx. apply negb_true_iff, H, Hx. Qed.

Lemma f64_eq_key x y : is_nan x = false -> is_nan y = false ->
  SFeqb x y = bool_decide (f64_key x = f64_key y).
Proof.
  intros Hx Hy. unfold SFeqb. rewrite f64_compare_key by done.
  destruct (klt (f64_key x) (f64_key y)) eqn:E1; [by rewrite bool_decide_eq_false_2 by (by apply klt_ne)|].
  destruct (klt (f64_key y) (f64_key x)) eqn:E2.
  - rewrite bool_decide_eq_false_2; [done|]. intros E. by apply klt_ne in E2.
  - by rewrite bool_decide_eq_true_2 by (by apply klt_total).
Qed.

Lemma score_lt_key a b : is_nan a.1 = false -> is_nan b.1 = false ->
  f64_lt a.1 b.1 || (SFeqb a.1 b.1 && (a.2 <? b.2)) = klt (score_key a) (score_key b).
Proof. intros Ha Hb. by rewrite f64_lt_key, f64_eq_key. Qed.

Lemma score_le_key a b : is_nan a.1 = false -> is_nan b.1 = false ->
  score_le a b = kle (score_key a) (score_key b).
Proof.
  intros Ha Hb. unfold kle. rewrite <- score_lt_key, f64_lt_key, f64_eq_key by done. unfold score_le.
  rewrite f64_compare_key by done.
  destruct (klt (f64_key a.1) (f64_key b.1)) eqn:E1.
  - rewrite bool_decide_eq_false_2 by (intros E; by apply klt_ne in E1).
    destruct (klt (f64_key b.1) (f64_key a.1)) eqn:E2; [|done].
    pose proof (klt_trans _ _ _ E1 E2) as E. by rewrite klt_irrefl in E.
  - destruct (klt (f64_key b.1) (f64_key a.1)) eqn:E2; [done|].
    rewrite bool_decide_eq_true_2 by (by apply klt_total). cbn [orb andb]. by rewrite Z.ltb_antisym, negb_involutive.
Qed.

Lemma ranked_key k subject items : no_nan k subject items ->
  ranked k subject items =
  stable_sort (fun a b => kle (score_key (scored k subject a)) (score_key (scored k subject b))) items.
Proof.
  intros Hn. rewrite rank_ranked. apply stable_sort_ext. intros x y Hx Hy.
  unfold no_nan in Hn. rewrite List.Forall_forall in Hn. apply score_le_key; auto.
Qed.

(** The loop of [select_weighted] ends at a least score. *)
Lemma select_loop_least k subject items b : no_nan k subject items -> is_nan b.1 = false ->
  exists r, select_loop k subject items (Some b) = Some r /\
    (r = b \/ In r (map (scored k subject) items)) /\
    forall x, x = b \/ In x (map (scored k subject) items) -> kle (score_key r) (score_key x) = true.
Proof.
  revert b. induction items as [|[id w] items IH]; intros b Hn Hb.
  - exists b. split; [done|]. split; [by left|]. intros x [->|[]]. by destruct (kle_total (score_key b) (score_key b)).
  - apply Forall_cons_1 in Hn as [Hs Hn]. cbn [select_loop map].
    change (score k subject id w) with (scored k subject (id, w)).1. cbn [scored fst snd] in Hs |- *.
    set (a := (score k subject id w, id)). destruct b as [bs bid].
    change (score k subject id w) with a.1. change id with a.2 at 1.
    pose proof (score_lt_key a (bs, bid) Hs Hb) as Et. cbn [fst snd] in Et. rewrite Et.
    destruct (klt (score_key a) (score_key (bs, bid))) eqn:El.
    + destruct (IH a Hn Hs) as (r & E & Hr & Hmin). exists r. split; [exact E|].
      split; [destruct Hr as [->|]; right; [by left|by right]|].
      assert (kle (score_key r) (score_key a) = true) as Ha by (apply Hmin; by left).
      intros x [->|[<-|Hx]]; [|done|apply Hmin; by right].
      eapply kle_trans; [exact Ha|]. destruct (kle_total (score_key a) (score_key (bs, bid))) as [|E']; [done|].
      unfold kle in E'. by rewrite El in E'.
    + destruct (IH (bs, bid) Hn Hb) as (r & E & Hr & Hmin). exists r. split; [exact E|].
      split; [destruct Hr as [->|]; [by left|right; by right]|].
      assert (kle (score_key r) (score_key (bs, bid)) = true) as Ha by (apply Hmin; by left).
      intros x [->|[<-|Hx]]; [done| |apply Hmin; by right].
      eapply kle_trans; [exact Ha|]. change (kle (score_key (bs, bid)) (score_key a) = true). unfold kle. by rewrite El.
Qed.

Lemma f64_key_finite x y : f64_key x = f64_key y -> is_finite x = is_finite y.
Proof. destruct x as [[]|[]| |[] ? ?], y as [[]|[]| |[] ? ?]; cbn; intros E; try done; injection E; intros; lia. Qed.

Lemma ranked_order_independent k subject items items' :
  no_nan k subject items -> Permutation items items' -> List.NoDup (map fst items) ->
  ranked k subject items' = ranked k subject items.
Proof.
  intros Hn P Nd. assert (no_nan k subject items') as Hn' by (unfold no_nan in *; by rewrite <- P).
  rewrite !ranked_key by done. set (ge a b := kle (score_key (scored k subject a)) (score_key (scored k subject b))).
  apply (sorted_perm_eq ge); [|apply stable_sort_sorted..|].
  2-5: by (intros x y; exact (kle_total _ _)) || (intros x y z; exact (kle_trans _ _ _)).
  - intros x y Hx Hy E1 E2. pose proof (kle_antisym _ _ E1 E2) as E. injection E as _ E.
    apply (Permutation_in _ (stable_sort_perm _ _)) in Hx, Hy. rewrite <- P in Hx, Hy.
    apply list_elem_of_In in Hx, Hy. apply NoDup_ListNoDup in Nd.
    apply list_elem_of_lookup in Hx as [i Hi], Hy as [j Hj].
    assert (i = j) as ->.
    { apply (NoDup_lookup (map fst items) i j y.1); [done|..]; by rewrite list_lookup_fmap, ?Hi, ?Hj; cbn; congruence. }
    congruence.
  - by rewrite !stable_sort_perm.
Qed.

(** The lottery, for scores that are numbers.  Removing candidates leaves the
    others in their order, so it moves no subject that had not chosen one of
    those removed; the order does not depend on the order the candidates came
    in; the winner is the first of the ranking, if any is eligible. *)
Theorem rendezvous_contract k subject items keep :
  no_nan k subject items ->
  ranked k subject (List.filter keep items) = List.filter keep (ranked k subject items) /\
  Permutation (rank k subject items) (seq 0 (length items)) /\
  (forall items', Permutation items items' -> List.NoDup (map fst items) ->
     ranked k subject items' = ranked k subject items) /\
  select_weighted k subject items =
    match ranked k subject items with
    | [] => None
    | best :: _ => if is_finite (scored k subject best).1 then Some best.1 else None
    end.
Proof.
  intros Hn. set (ge a b := kle (score_key (scored k subject a)) (score_key (scored k subject b))).
  assert (forall x y : Z * f64, ge x y = true \/ ge y x = true) as Tot by (intros x y; exact (kle_total _ _)).
  assert (forall x y z : Z * f64, ge x y = true -> ge y z = true -> ge x z = true) as Tr by (intros x y z; exact (kle_trans _ _ _)).
  assert (forall l : list (Z * f64), incl l items -> no_nan k subject l) as Sub.
  { intros l Hl. unfold no_nan in *. rewrite List.Forall_forall in *. auto. }
  split; [|split; [apply rank_perm|split]].
  - rewrite !ranked_key by (try done; apply Sub; intros x Hx; by apply filter_In in Hx as [? _]). symmetry.
    by apply stable_sort_filter.
  - intros items' P Nd. by apply ranked_order_independent.
  - unfold select_weighted. destruct items as [|x items]; [done|].
    apply Forall_cons_1 in Hn as Hn'. destruct Hn' as [Hx Hn']. destruct x as [id w]. cbn [select_loop].
    destruct (select_loop_least k subject items (score k subject id w, id) Hn' Hx) as (r & -> & Hr & Hmin).
    rewrite ranked_key by done. pose proof (stable_sort_sorted ge Tot Tr ((id, w) :: items)) as Hs.
    pose proof (stable_sort_perm ge ((id, w) :: items)) as P. fold ge.
    destruct (stable_sort ge ((id, w) :: items)) as [|best rest]; [by apply Permutation_nil_cons in P|].
    apply StronglySorted_inv in Hs as [_ Hb]. rewrite List.Forall_forall in Hb.
    assert (exists it, In it ((id, w) :: items) /\ r = scored k subject it) as (it & Hit & ->).
    { destruct Hr as [->|Hr]; [exists (id, w); split; [by left|done]|].
      apply in_map_iff in Hr as (it & <- & Hit). exists it. split; [by right|done]. }
    assert (kle (score_key (scored k subject it)) (score_key (scored k subject best)) = true) as E1.
    { apply Hmin. assert (In best ((id, w) :: items)) as [<-|Hi] by (rewrite <- P; by left); [by left|].
      right. by apply in_map. }
    assert (ge best it = true) as E2.
    { assert (In it (best :: rest)) as [->|Hi] by (by rewrite P); [|by apply Hb].
      by destruct (Tot it it). }
    pose proof (kle_antisym _ _ E1 E2) as E. unfold score_key in E. injection E as Ek Ei.
    unfold scored. cbn [fst snd]. by rewrite (f64_key_finite _ _ Ek), Ei.
Qed.

Lemma rendezvous_contract_witness :
  let k := mkRdvKey 1 2 in
  let items := [(10, f64_of 1); (20, f64_of 1); (40, f64_of 1)] in
  map fst (ranked k [119] items) = [40; 20; 10] /\
  map fst (ranked k [119] (List.filter (fun x => negb (x.1 =? 20)) items)) = [40; 10] /\
  select_weighted k [119] items = Some 40.
Proof.
  intros k items.
  assert (no_nan k [119] items) as Hn by (apply no_nan_check; vm_compute; reflexivity).
  destruct (rendezvous_contract k [119] items (fun x => negb (x.1 =? 20)) Hn) as (-> & _ & _ & ->).
  repeat split; vm_compute; reflexivity.
Defined.
