(* ===== verification/Upstream.v ===== *)
(** * Choosing an upstream server ([src/upstream.rs])

    The statistics of a path, the bounded table of them, the expected cost of a
    resolution over a path, and the ranking of candidate servers: by cost, with
    the near-equal ones at the front permuted by the rendezvous lottery. *)
From Stdlib Require Import Sorted Permutation.
From S2P Require Import Prelude Wire Prng Name BTree Bounded Sort Time Addr Float64 Float Rendezvous.

Definition ASSUMED_RTT_MS : f64 := f64_of 40.
Definition PATH_RETENTION_SECS : Z := 3600.
Definition EVICT_STRIDE : Z := 8.

(** ** Endpoints *)

Inductive Proto := Udp | Tcp | Tls | DoH | DoH3 | DoQ.
#[global] Instance Proto_eq_dec : EqDecision Proto.
Proof. solve_decision. Defined.

(** [proto as u8] *)
Definition proto_u8 (p : Proto) : Z :=
  match p with Udp => 0 | Tcp => 1 | Tls => 2 | DoH => 3 | DoH3 => 4 | DoQ => 5 end.

Definition is_encrypted (p : Proto) : bool :=
  match p with Tls | DoH | DoH3 | DoQ => true | Udp | Tcp => false end.

Definition setup_rtts (p : Proto) : f64 :=
  match p with
  | Udp => f64_of 0
  | DoQ | Tcp | DoH3 => f64_of 1
  | Tls | DoH => f64_of 2
  end.

Definition proto_str (p : Proto) : string :=
  match p with
  | Udp => "udp" | Tcp => "tcp" | Tls => "dot" | DoH => "doh" | DoH3 => "doh3" | DoQ => "doq"
  end.

Record Endpoint := mkEndpoint { ep_ip : IpAddr; ep_port : Z; ep_proto : Proto }.
#[global] Instance Endpoint_eq_dec : EqDecision Endpoint.
Proof. solve_decision. Defined.

Definition endpoint_udp (ip : IpAddr) : Endpoint := mkEndpoint ip 53 Udp.

(** The derived order: address (version 4 first), port, transport. *)
Definition endpoint_tuple (e : Endpoint) : Z * (Z * (Z * Z)) :=
  (match ep_ip e with V4 _ => 0 | V6 _ => 1 end,
   (match ep_ip e with V4 a => a | V6 a => a end, (ep_port e, proto_u8 (ep_proto e)))).
#[global] Instance Endpoint_order : KeyOrder Endpoint := fun a b => klt (endpoint_tuple a) (endpoint_tuple b).
#[global] Instance Endpoint_order_laws : KeyOrderLaws Endpoint.
Proof.
  apply (order_by_laws endpoint_tuple). intros [[?|?] ? p] [[?|?] ? p'] [=]; subst; f_equal; by destruct p, p'.
Qed.

Definition affinity_id (e : Endpoint) : Z :=
  siphash24 0x9e3779b97f4a7c15 0xbf58476d1ce4e5b9
    (proto_u8 (ep_proto e) :: be_bytes 2 (ep_port e) ++
       match ep_ip e with V4 a => v4_octets a | V6 a => v6_octets a end).

(** ** Path models *)

Record PathModel := mkPath {
  pm_endpoint : Endpoint;
  successes : Z;
  failures : Z;
  timeouts : Z;
  servfails : Z;
  rtt_ewma_ms : f64;
  rtt_var_ms : f64;
  loss_rate : f64;
  last_seen : Ts;
  conn_cost_ms : f64 }.

Definition path_new (e : Endpoint) (rtt_ms : f64) : PathModel :=
  mkPath e 0 0 0 0 rtt_ms (f64_of 0) (f64_of 0) 0 (f64_mul (setup_rtts (ep_proto e)) rtt_ms).

(** A counter's [+= 1]. *)
Definition incr (n : Z) : Z := wrap 64 (n + 1).

Definition path_success (p : PathModel) (rtt_ms : f64) (now : Ts) : PathModel :=
  let var := f64_add (f64_mul (rtt_var_ms p) (dec 8 1))
               (f64_mul (fabs (f64_sub rtt_ms (rtt_ewma_ms p))) (dec 2 1)) in
  let ewma := f64_add (f64_mul (rtt_ewma_ms p) (dec 8 1)) (f64_mul rtt_ms (dec 2 1)) in
  mkPath (pm_endpoint p) (incr (successes p)) (failures p) (timeouts p) (servfails p) ewma var
    (f64_mul (loss_rate p) (dec 95 2)) now (f64_mul (setup_rtts (ep_proto (pm_endpoint p))) ewma).

Definition path_timeout (p : PathModel) (now : Ts) : PathModel :=
  mkPath (pm_endpoint p) (successes p) (incr (failures p)) (incr (timeouts p)) (servfails p)
    (rtt_ewma_ms p) (rtt_var_ms p)
    (f64_min (f64_add (f64_mul (loss_rate p) (dec 8 1)) (dec 2 1)) (f64_of 1)) now (conn_cost_ms p).

Definition path_servfail (p : PathModel) (now : Ts) : PathModel :=
  mkPath (pm_endpoint p) (successes p) (incr (failures p)) (timeouts p) (incr (servfails p))
    (rtt_ewma_ms p) (rtt_var_ms p) (loss_rate p) now (conn_cost_ms p).

Definition servfail_rate (p : PathModel) : f64 :=
  let n := wrap 64 (successes p + servfails p) in
  if n =? 0 then f64_of 0 else f64_div (f64_of (servfails p)) (f64_of n).

Definition rto_ms (p : PathModel) : f64 :=
  f64_max (f64_add (rtt_ewma_ms p) (f64_mul (f64_of 4) (rtt_var_ms p))) (f64_of 25).

Definition expected_cost_ms (p : PathModel) (retransmit_budget : Z) : f64 :=
  let rto := rto_ms p in
  let loss := f64_clamp (loss_rate p) (f64_of 0) (dec 95 2) in
  let retrans_penalty :=
    if f64_le (f64_of 1) loss then f64_mul rto (f64_of retransmit_budget)
    else f64_mul (f64_div loss (f64_sub (f64_of 1) loss)) rto in
  let fail := f64_min (servfail_rate p) (dec 9 1) in
  let failure_penalty := f64_mul (f64_mul fail rto) (dec 15 1) in
  f64_add (f64_add (f64_add (rtt_ewma_ms p) (conn_cost_ms p)) retrans_penalty) failure_penalty.

Definition is_known (p : PathModel) : bool := 0 <? wrap 64 (successes p + failures p).

(** ** The selector *)

Record UpstreamSelector := mkSelector { paths : list (Endpoint * PathModel); max_paths : Z }.

Definition selector_new (max_paths : Z) : UpstreamSelector := mkSelector [] (Z.max max_paths 1).
Definition selector_default : UpstreamSelector := selector_new 4096.

(** [path_mut], and what its caller does to the model. *)
Definition update_path (s : UpstreamSelector) (ep : Endpoint) (rtt_ms : f64) (now : Ts)
    (f : PathModel -> PathModel) : UpstreamSelector :=
  let m :=
    if bt_contains_key (paths s) ep then paths s else
    let m := if max_paths s <=? zlen (paths s)
             then (evict_for_capacity last_seen (paths s)
                     (ts_saturating_sub now (PATH_RETENTION_SECS * 1000000000)) EVICT_STRIDE).2
             else paths s in
    bt_insert m ep (path_new ep rtt_ms) in
  match bt_get m ep with
  | Some p => mkSelector (bt_insert m ep (f p)) (max_paths s)
  | None => mkSelector m (max_paths s)
  end.

Definition record_success (s : UpstreamSelector) (ep : Endpoint) (rtt_ms : f64) (now : Ts) : UpstreamSelector :=
  update_path s ep rtt_ms now (fun p => path_success p rtt_ms now).
Definition record_timeout (s : UpstreamSelector) (ep : Endpoint) (now : Ts) : UpstreamSelector :=
  update_path s ep ASSUMED_RTT_MS now (fun p => path_timeout p now).
Definition record_servfail (s : UpstreamSelector) (ep : Endpoint) (now : Ts) : UpstreamSelector :=
  update_path s ep ASSUMED_RTT_MS now (fun p => path_servfail p now).

Definition path (s : UpstreamSelector) (ep : Endpoint) : option PathModel := bt_get (paths s) ep.
Definition selector_len (s : UpstreamSelector) : Z := zlen (paths s).
Definition selector_is_empty (s : UpstreamSelector) : bool := selector_len s =? 0.

(** ** Ranking *)

Definition assumed_cost (ep : Endpoint) : f64 :=
  f64_add ASSUMED_RTT_MS (f64_mul (setup_rtts (ep_proto ep)) ASSUMED_RTT_MS).

Definition cost_of (s : UpstreamSelector) (budget : Z) (ep : Endpoint) : f64 :=
  match bt_get (paths s) ep with Some p => expected_cost_ms p budget | None => assumed_cost ep end.

(** [a] does not sort after [b]. *)
Definition cost_le (a b : Endpoint * f64) : bool :=
  match SFcompare a.2 b.2 with Some Gt => false | _ => true end.

Definition sort_by_cost (s : UpstreamSelector) (candidates : list Endpoint) (budget : Z) : list (Endpoint * f64) :=
  stable_sort cost_le (map (fun ep => (ep, cost_of s budget ep)) candidates).

Definition best (s : UpstreamSelector) (candidates : list Endpoint) (budget : Z) : option Endpoint :=
  fst <$> list.head (sort_by_cost s candidates budget).

(** [take_while(...).count()] *)
Fixpoint count_while {A} (f : A -> bool) (l : list A) : nat :=
  match l with [] => 0 | x :: l => if f x then S (count_while f l) else 0 end.

(** [sort_unstable(); dedup(); len()] *)
Fixpoint dedup_sorted (l : list Z) : list Z :=
  match l with
  | [] => []
  | x :: l => match l with y :: _ => if x =? y then dedup_sorted l else x :: dedup_sorted l | [] => [x] end
  end.
Definition distinct_count (ids : list Z) : Z := zlen (dedup_sorted (stable_sort Z.leb ids)).

(** How many of the cheapest are in the band, when there is a cheapest. *)
Definition in_band_count (band : CostBand) (ranked : list (Endpoint * f64)) : nat :=
  match ranked with
  | [] => 0
  | (_, min_cost) :: _ => count_while (fun r => f64_le r.2 (band_limit band min_cost)) ranked
  end.

Definition affinity_weight (min_cost cost : f64) : f64 :=
  if f64_lt (f64_of 0) cost && f64_lt (f64_of 0) min_cost
  then f64_clamp (f64_div min_cost cost) (dec 1 3) (f64_of 1) else f64_of 1.

Definition rank_with_affinity (s : UpstreamSelector) (candidates : list Endpoint) (budget : Z)
    (band : CostBand) (affinity : RendezvousKey) (subject : list Z) : list (Endpoint * f64) :=
  let ranked := sort_by_cost s candidates budget in
  if zlen ranked <? 2 then ranked else
  match ranked with
  | [] => ranked
  | (_, min_cost) :: _ =>
      let in_band := in_band_count band ranked in
      if (in_band <? 2)%nat then ranked else
      let head := take in_band ranked in
      let items := map (fun r => (affinity_id r.1, affinity_weight min_cost r.2)) head in
      if negb (distinct_count (map fst items) =? zlen items) then ranked else
      omap (fun idx => head !! idx) (rank affinity subject items) ++ drop in_band ranked
  end.

Definition affinity_applies (s : UpstreamSelector) (candidates : list Endpoint) (budget : Z)
    (band : CostBand) : bool :=
  let ranked := sort_by_cost s candidates budget in
  if zlen ranked <? 2 then false else
  let in_band := in_band_count band ranked in
  if (in_band <? 2)%nat then false else
  distinct_count (map (fun r => affinity_id r.1) (take in_band ranked)) =? Z.of_nat in_band.

(** ** Samples *)

Definition sample_server (n : Z) : Endpoint := endpoint_udp (V4 (0xC0000200 + n)).

Example timeout_demotes :
  map (fun r => r.1) (sort_by_cost (record_timeout selector_default (sample_server 1) 5)
    [sample_server 1; sample_server 2] 2) = [sample_server 2; sample_server 1].
Proof. vm_compute. reflexivity. Qed.

(** ** The table *)

Record selector_ok (s : UpstreamSelector) : Prop := {
  so_sorted : bt_sorted (paths s);
  so_bound : zlen (paths s) <= max_paths s;
  so_max : 1 <= max_paths s;
  so_paths : forall ep p, path s ep = Some p ->
    pm_endpoint p = ep /\ failures p = wrap 64 (timeouts p + servfails p) }.

Lemma selector_new_ok n : selector_ok (selector_new n).
Proof. constructor; cbn; [constructor|change (zlen (@nil (Endpoint * PathModel))) with 0; lia|lia|done]. Qed.

(** The model an observation of [ep] starts from. *)
Definition observed (s : UpstreamSelector) (ep : Endpoint) (rtt_ms : f64) : PathModel :=
  default (path_new ep rtt_ms) (path s ep).

Lemma update_path_spec s ep rtt now f : selector_ok s ->
  let s' := update_path s ep rtt now f in
  bt_sorted (paths s') /\ zlen (paths s') <= max_paths s /\ max_paths s' = max_paths s /\
  path s' ep = Some (f (observed s ep rtt)) /\
  (forall ep' p, ep' <> ep -> path s' ep' = Some p -> path s ep' = Some p) /\
  (is_Some (path s ep) \/ zlen (paths s) < max_paths s ->
     forall ep', ep' <> ep -> path s' ep' = path s ep').
Proof.
  intros [Hs Hb Hm Hp] s'. unfold s', update_path, observed, path in *. clear s'.
  destruct (bt_contains_key (paths s) ep) eqn:Ec.
  - unfold bt_contains_key in Ec. destruct (bt_get (paths s) ep) as [p|] eqn:Eg; [|done]. cbn [paths max_paths default].
    split; [by apply bt_insert_sorted|]. split; [rewrite zlen_bt_insert by done; unfold bt_contains_key; by rewrite Eg|].
    split; [done|]. split; [by rewrite bt_get_insert, decide_True|].
    split; intros; rewrite ?bt_get_insert, ?decide_False in *; done.
  - assert (bt_get (paths s) ep = None) as Eg by (unfold bt_contains_key in Ec; by destruct (bt_get _ _)). rewrite Eg.
    set (m := if max_paths s <=? zlen (paths s) then _ else _).
    assert (bt_sorted m /\ zlen m < max_paths s /\ (forall kv, In kv m -> In kv (paths s)) /\
      (zlen (paths s) < max_paths s -> m = paths s)) as (Ms & Ml & Mi & Me).
    { unfold m. destruct (max_paths s <=? zlen (paths s)) eqn:E; bools; [|done].
      assert (paths s <> []) as Hne by (intros E'; rewrite E', zlen_nil in E; lia).
      split; [by apply evict_sorted|]. split; [|split; [intros kv; by apply evict_incl|lia]].
      eapply Z.lt_le_trans; [by apply evict_shrinks|done]. }
    assert (bt_get m ep = None) as Em.
    { destruct (bt_get m ep) as [p|] eqn:E; [|done]. apply bt_get_In, Mi in E. apply bt_In_get in E; [congruence|done]. }
    rewrite bt_get_insert, decide_True by done. cbn [paths max_paths default].
    split; [by repeat apply bt_insert_sorted|]. split.
    { rewrite !zlen_bt_insert by (try apply bt_insert_sorted; done). unfold bt_contains_key.
      rewrite bt_get_insert, decide_True, Em by done. lia. }
    split; [done|]. split; [by rewrite bt_get_insert, decide_True|]. split.
    + intros ep' p Hne. rewrite !bt_get_insert, !decide_False by done. intros E%bt_get_In%Mi. by apply bt_In_get.
    + intros [[? ?]|Hlt] ep' Hne; [done|]. rewrite !bt_get_insert, !decide_False by done. by rewrite Me.
Qed.

(** What the resolver tells the selector. *)
Inductive observation :=
| ObsSuccess (ep : Endpoint) (rtt_ms : f64) (now : Ts)
| ObsTimeout (ep : Endpoint) (now : Ts)
| ObsServfail (ep : Endpoint) (now : Ts).

Definition observe_path (s : UpstreamSelector) (o : observation) : UpstreamSelector :=
  match o with
  | ObsSuccess ep rtt now => record_success s ep rtt now
  | ObsTimeout ep now => record_timeout s ep now
  | ObsServfail ep now => record_servfail s ep now
  end.

Definition obs_endpoint (o : observation) : Endpoint :=
  match o with ObsSuccess ep _ _ | ObsTimeout ep _ | ObsServfail ep _ => ep end.

Lemma incr_wrap a b : incr (wrap 64 (a + b)) = wrap 64 (a + b + 1) /\ wrap 64 (incr a + b) = wrap 64 (a + b + 1)
  /\ wrap 64 (a + incr b) = wrap 64 (a + b + 1).
Proof.
  unfold incr, wrap. rewrite Zplus_mod_idemp_l. split; [done|].
  rewrite Zplus_mod_idemp_l, Zplus_mod_idemp_r. split; f_equal; lia.
Qed.

Lemma observe_path_ok s o : selector_ok s -> selector_ok (observe_path s o).
Proof.
  intros Ok. assert (forall ep rtt now f,
    (forall p, pm_endpoint p = ep -> failures p = wrap 64 (timeouts p + servfails p) ->
       pm_endpoint (f p) = ep /\ failures (f p) = wrap 64 (timeouts (f p) + servfails (f p))) ->
    selector_ok (update_path s ep rtt now f)) as U.
  { intros ep rtt now f Hf. destruct (update_path_spec s ep rtt now f Ok) as (A & B & C & D & E & _).
    constructor; [done|by rewrite C|rewrite C; apply Ok|]. intros ep' p Hp.
    destruct (decide (ep' = ep)) as [->|Hne].
    - rewrite D in Hp. injection Hp as <-. unfold observed.
      destruct (path s ep) as [q|] eqn:Eq; cbn [default]; [|by apply Hf].
      destruct (so_paths s Ok ep q Eq). by apply Hf.
    - apply (so_paths s Ok). by apply E. }
  destruct o as [ep rtt now|ep now|ep now]; apply U; intros p <- Hf; (split; [done|]);
    cbn [failures timeouts servfails path_success path_timeout path_servfail]; [done|..];
    rewrite Hf; destruct (incr_wrap (timeouts p) (servfails p)) as (-> & E2 & E3); by rewrite ?E2, ?E3.
Qed.

Lemma observe_all_ok n os : selector_ok (fold_left observe_path os (selector_new n)).
Proof.
  assert (forall s, selector_ok s -> selector_ok (fold_left observe_path os s)) as F.
  { induction os as [|o os IH]; intros s Ok; [done|]. apply IH. by apply observe_path_ok. }
  apply F, selector_new_ok.
Qed.

(** ** Properties *)

(** Paths, after any sequence of observations.  The table stays within its bound;
    an observation of a server is always recorded, a first one from the prior, and
    touches the other models only when it has to make room; a server's first
    timeout alone ranks it behind every unmeasured server of its transport. *)
Theorem observation_recorded n os o :
  let s := fold_left observe_path os (selector_new n) in
  let s' := observe_path s o in
  let ep := obs_endpoint o in
  zlen (paths s') <= Z.max n 1 /\
  (forall e p, path s' e = Some p -> pm_endpoint p = e /\ failures p = wrap 64 (timeouts p + servfails p)) /\
  path s' ep = Some match o with
                    | ObsSuccess _ rtt now => path_success (observed s ep rtt) rtt now
                    | ObsTimeout _ now => path_timeout (observed s ep ASSUMED_RTT_MS) now
                    | ObsServfail _ now => path_servfail (observed s ep ASSUMED_RTT_MS) now
                    end /\
  (forall e, e <> ep -> path s' e = path s e \/ (path s' e = None /\ path s ep = None /\ Z.max n 1 <= zlen (paths s))) /\
  (forall now budget, o = ObsTimeout ep now -> path s ep = None ->
     f64_lt (assumed_cost ep) (cost_of s' budget ep) = true).
Proof.
  intros s s' ep. pose proof (observe_all_ok n os) as Ok. fold s in Ok.
  pose proof (observe_path_ok s o Ok) as Ok'. fold s' in Ok'.
  assert (forall l s0, max_paths (fold_left observe_path l s0) = max_paths s0) as Mx.
  { intros l. induction l as [|x l IH]; intros s0; cbn [fold_left]; [done|]. rewrite IH.
    destruct x; cbn; unfold record_success, record_timeout, record_servfail, update_path; by destruct (bt_get _ _). }
  assert (max_paths s = Z.max n 1) as Ms by (apply Mx).
  assert (exists rtt now f, s' = update_path s ep rtt now f /\ f (observed s ep rtt) =
    match o with
    | ObsSuccess _ rtt now => path_success (observed s ep rtt) rtt now
    | ObsTimeout _ now => path_timeout (observed s ep ASSUMED_RTT_MS) now
    | ObsServfail _ now => path_servfail (observed s ep ASSUMED_RTT_MS) now
    end) as (rtt & now & f & Es & Ef) by (unfold s', ep; destruct o; by repeat eexists).
  destruct (update_path_spec s ep rtt now f Ok) as (A & B & C & D & E & F). rewrite <- Es in *.
  split; [by rewrite <- Ms|]. split; [intros; by apply (so_paths s' Ok')|]. split; [by rewrite D, Ef|]. split.
  - intros e He. destruct (path s ep) as [q|] eqn:Eq; [left; apply F; [left; by eexists|done]|].
    destruct (Z.lt_ge_cases (zlen (paths s)) (max_paths s)) as [Hl|Hl]; [left; apply F; [by right|done]|].
    destruct (path s' e) as [p|] eqn:Ep; [left; symmetry; by apply E|right]. split; [done|]. split; [done|lia].
  - intros now' budget Eo Hn. unfold cost_of. unfold path in D. rewrite D, Ef. unfold observed. rewrite Hn. cbn [default].
    clearbody ep. rewrite Eo. clear. destruct ep as [ip port p]. destruct p; vm_compute; reflexivity.
Qed.

(** Two servers, one of which timed out. *)
Lemma observation_recorded_witness :
  let o := ObsTimeout (sample_server 1) 5 in
  let s := fold_left observe_path [ObsSuccess (sample_server 2) (f64_of 12) 4] (selector_new 1) in
  path s (sample_server 1) = None /\
  f64_lt (assumed_cost (sample_server 1)) (cost_of (observe_path s o) 2 (sample_server 1)) = true.
Proof.
  intros o s. split; [vm_compute; reflexivity|].
  destruct (observation_recorded 1 [ObsSuccess (sample_server 2) (f64_of 12) 4] o) as (_ & _ & _ & _ & C).
  apply (C 5 2); [reflexivity|vm_compute; reflexivity].
Defined.

(** A measured server faster than the prior is preferred to an unmeasured one. *)
Example fast_path_first :
  best (record_success selector_default (sample_server 1) (f64_of 12) 5) [sample_server 2; sample_server 1] 2 =
  Some (sample_server 1).
Proof. vm_compute. reflexivity. Qed.

(** ** The ranking *)

Lemma dedup_sorted_spec l : Sorted.StronglySorted (fun a b => Z.leb a b = true) l ->
  zlen (dedup_sorted l) <= zlen l /\ (zlen (dedup_sorted l) = zlen l <-> List.NoDup l).
Proof.
  induction 1 as [|x l Hs IH Hx]; [split; [done|]; split; [intros _; constructor|done]|].
  cbn [dedup_sorted]. destruct IH as [IHl IHn]. destruct l as [|y l].
  { split; [done|]. split; [intros _; repeat constructor; by intros []|done]. }
  destruct (x =? y) eqn:E; bools; rewrite ?zlen_cons in *.
  - split; [lia|]. split; [lia|]. subst. intros Hn. apply NoDup_cons_iff in Hn as [Hn _]. by destruct Hn; left.
  - split; [lia|]. rewrite NoDup_cons_iff. split.
    + intros El. split; [|apply IHn; lia]. intros Hin. rewrite List.Forall_forall in Hx.
      assert (x <= y) by (apply Z.leb_le, Hx; by left).
      destruct Hin as [->|Hin]; [done|]. apply Sorted.StronglySorted_inv in Hs as [_ Hy].
      rewrite List.Forall_forall in Hy. apply Hy, Z.leb_le in Hin. lia.
    + intros [_ Hn]. apply IHn in Hn. lia.
Qed.

Lemma distinct_count_spec ids : distinct_count ids = zlen ids <-> List.NoDup ids.
Proof.
  unfold distinct_count. pose proof (stable_sort_perm Z.leb ids) as P.
  assert (zlen (stable_sort Z.leb ids) = zlen ids) as <- by (unfold zlen; by rewrite (Permutation_length P)).
  assert (List.NoDup (stable_sort Z.leb ids) <-> List.NoDup ids) as <-.
  { split; intros H; eapply Permutation_NoDup; [|exact H| |exact H]; [done|by symmetry]. }
  apply dedup_sorted_spec, stable_sort_sorted; intros; rewrite ?Z.leb_le in *; lia.
Qed.

(** What permutes the head of the ranking. *)
Definition lottery_items (band : CostBand) (ranked : list (Endpoint * f64)) : list (Z * f64) :=
  match ranked with
  | [] => []
  | (_, min_cost) :: _ =>
      map (fun r => (affinity_id r.1, affinity_weight min_cost r.2)) (take (in_band_count band ranked) ranked)
  end.

Lemma rank_cases s candidates budget band affinity subject :
  let ranked := sort_by_cost s candidates budget in
  let n := in_band_count band ranked in
  rank_with_affinity s candidates budget band affinity subject =
  if affinity_applies s candidates budget band
  then omap (fun i => take n ranked !! i) (rank affinity subject (lottery_items band ranked)) ++ drop n ranked
  else ranked.
Proof.
  intros ranked n. unfold rank_with_affinity, affinity_applies, lottery_items. fold ranked.
  destruct (zlen ranked <? 2); [done|]. destruct ranked as [|[e c] l] eqn:Er; [done|]. fold n.
  destruct (n <? 2)%nat; [done|]. rewrite map_map. cbn [fst].
  assert (zlen (map (fun r => (affinity_id r.1, affinity_weight c r.2)) (take n ((e, c) :: l))) = Z.of_nat n) as ->.
  { unfold zlen. rewrite length_map, length_take. f_equal.
    assert (n <= length ((e, c) :: l))%nat; [|lia]. unfold n, in_band_count.
    generalize ((e, c) :: l). intros q. induction q as [|x q IH]; cbn [count_while length]; [lia|]. case_match; lia. }
  by destruct (_ =? _).
Qed.

Lemma omap_lookup_perm {A} (l : list A) js :
  Permutation js (seq 0 (length l)) -> Permutation (omap (fun i => l !! i) js) l.
Proof.
  intros P. rewrite P. clear P. assert (forall pre, omap (fun i => (pre ++ l) !! i) (seq (length pre) (length l)) = l) as F.
  { induction l as [|x l IH]; intros pre; cbn [length seq omap list_omap]; [done|].
    rewrite list_lookup_middle by done. f_equal.
    specialize (IH (pre ++ [x])). rewrite length_app, <- app_assoc in IH. cbn [length app] in IH.
    by rewrite Nat.add_1_r in IH. }
  specialize (F []). cbn [length app] in F. by rewrite F.
Qed.

Lemma count_while_le {A} (f : A -> bool) l : (count_while f l <= length l)%nat.
Proof. induction l as [|x l IH]; cbn; [done|]. case_match; lia. Qed.

Lemma take_count_while {A} (f : A -> bool) l : Forall (fun x => f x = true) (take (count_while f l) l).
Proof. induction l as [|x l IH]; cbn; [done|]. destruct (f x) eqn:E; cbn; by constructor. Qed.

(** Where passing the test goes down the order, the first that pass are all that do. *)
Lemma take_while_filter {A} (le : A -> A -> bool) (f : A -> bool) l :
  Sorted.StronglySorted (fun a b => le a b = true) l ->
  (forall a b, In a l -> In b l -> le a b = true -> f b = true -> f a = true) ->
  take (count_while f l) l = List.filter f l.
Proof.
  induction 1 as [|x l Hs IH Hx]; intros Hf; [done|]. cbn [count_while List.filter].
  destruct (f x) eqn:E; cbn [take].
  - f_equal. apply IH. intros a b ? ?. apply Hf; by right.
  - symmetry. assert (forall q, (forall y, In y q -> f y = false) -> List.filter f q = []) as F.
    { clear. intros q. induction q as [|y q IH]; intros H; cbn; [done|]. rewrite H by (by left). apply IH. intros; apply H; by right. }
    apply F. intros y Hy. destruct (f y) eqn:Ey; [|done]. rewrite List.Forall_forall in Hx.
    rewrite <- E. symmetry. apply (Hf x y); [by left|by right|by apply Hx|done].
Qed.

(** ** Costs that are numbers *)

Definition cost_ok (c : f64) : Prop := is_nan c = false /\ c <> S754_zero true.

Lemma f64_key_inj x y : cost_ok x -> cost_ok y -> f64_key x = f64_key y -> x = y.
Proof.
  intros [Hx Hx'] [Hy Hy']. destruct x as [[]|[]| |[] ? ?], y as [[]|[]| |[] ? ?]; cbn; intros E; try done; injection E; intros; f_equal; lia.
Qed.

Lemma cost_le_key a b : is_nan a.2 = false -> is_nan b.2 = false -> cost_le a b = kle (f64_key a.2) (f64_key b.2).
Proof.
  intros Ha Hb. unfold cost_le, kle. rewrite f64_compare_key by done.
  destruct (klt (f64_key a.2) (f64_key b.2)) eqn:E1.
  - destruct (klt (f64_key b.2) (f64_key a.2)) eqn:E2; [|done].
    pose proof (klt_trans _ _ _ E1 E2) as E. by rewrite klt_irrefl in E.
  - by destruct (klt (f64_key b.2) (f64_key a.2)).
Qed.

Lemma f64_le_mono x y z : is_nan x = false -> is_nan y = false ->
  kle (f64_key x) (f64_key y) = true -> f64_le y z = true -> f64_le x z = true.
Proof.
  intros Hx Hy Hxy. unfold f64_le, SFleb. destruct (is_nan z) eqn:Hz; [destruct z; try done; by destruct y|].
  rewrite !f64_compare_key by done. intros Hyz.
  assert (kle (f64_key y) (f64_key z) = true) as K.
  { unfold kle. destruct (klt (f64_key z) (f64_key y)) eqn:E; [|done].
    destruct (klt (f64_key y) (f64_key z)) eqn:E'; [|done]. pose proof (klt_trans _ _ _ E E') as K. by rewrite klt_irrefl in K. }
  pose proof (kle_trans _ _ _ Hxy K) as L. unfold kle in L. rewrite negb_true_iff in L. rewrite L.
  by destruct (klt (f64_key x) (f64_key z)).
Qed.

Section costs.
Context (s : UpstreamSelector) (budget : Z) (band : CostBand).

Definition costs_ok (candidates : list Endpoint) : Prop := Forall (fun ep => cost_ok (cost_of s budget ep)) candidates.
Definition by_key (a b : Endpoint * f64) : bool := kle (f64_key a.2) (f64_key b.2).

Lemma sort_by_cost_perm candidates :
  Permutation (sort_by_cost s candidates budget) (map (fun ep => (ep, cost_of s budget ep)) candidates).
Proof. apply stable_sort_perm. Qed.

Lemma sort_by_cost_In candidates r : In r (sort_by_cost s candidates budget) ->
  In r.1 candidates /\ r.2 = cost_of s budget r.1.
Proof.
  intros Hr. apply (Permutation_in _ (sort_by_cost_perm candidates)) in Hr.
  apply in_map_iff in Hr as (ep & <- & Hep). done.
Qed.

Lemma sort_by_cost_ok candidates r : costs_ok candidates -> In r (sort_by_cost s candidates budget) -> cost_ok r.2.
Proof.
  intros Hc Hr. apply sort_by_cost_In in Hr as [Hin ->]. unfold costs_ok in Hc. rewrite List.Forall_forall in Hc. auto.
Qed.

Lemma sort_by_cost_sorted candidates : costs_ok candidates ->
  Sorted.StronglySorted (fun a b => by_key a b = true) (sort_by_cost s candidates budget).
Proof.
  intros Hc. unfold sort_by_cost. rewrite (stable_sort_ext cost_le by_key).
  - apply stable_sort_sorted; [intros x y; exact (kle_total _ _)|intros x y z; exact (kle_trans _ _ _)].
  - unfold costs_ok in Hc. rewrite List.Forall_forall in Hc.
    intros x y Hx Hy. apply in_map_iff in Hx as (a & <- & Ha), Hy as (b & <- & Hb). by apply cost_le_key; apply Hc.
Qed.
End costs.

Section ranking.
Context (s : UpstreamSelector) (budget : Z) (band : CostBand).

(** The candidates of the band, and only they, are up front. *)
Definition in_band_of (ranked : list (Endpoint * f64)) : list (Endpoint * f64) :=
  match ranked with
  | [] => []
  | (_, min_cost) :: _ => List.filter (fun r => f64_le r.2 (band_limit band min_cost)) ranked
  end.

Lemma take_in_band candidates : costs_ok s budget candidates ->
  let ranked := sort_by_cost s candidates budget in
  take (in_band_count band ranked) ranked = in_band_of ranked.
Proof.
  intros Hc ranked. pose proof (sort_by_cost_sorted s budget candidates Hc) as Hs. fold ranked in Hs.
  assert (forall r, In r ranked -> is_nan r.2 = false) as Hn
    by (intros r Hr; by apply (sort_by_cost_ok s budget candidates)).
  unfold in_band_count, in_band_of. destruct ranked as [|[e c] l]; [done|].
  apply (take_while_filter by_key); [done|]. intros a b Ha Hb Hle Hlim. eapply f64_le_mono; [..|exact Hlim]; auto.
Qed.

(** The band does not depend on the order of the candidates. *)
Lemma in_band_perm candidates candidates' : costs_ok s budget candidates -> Permutation candidates' candidates ->
  let ranked := sort_by_cost s candidates budget in
  let ranked' := sort_by_cost s candidates' budget in
  Permutation (in_band_of ranked') (in_band_of ranked) /\
  in_band_count band ranked' = in_band_count band ranked /\ (snd <$> list.head ranked') = (snd <$> list.head ranked).
Proof.
  intros Hc P ranked ranked'.
  assert (costs_ok s budget candidates') as Hc' by (unfold costs_ok in *; by rewrite P).
  assert (Permutation ranked' ranked) as Pr by (unfold ranked, ranked'; by rewrite !sort_by_cost_perm, P).
  pose proof (sort_by_cost_sorted s budget candidates Hc) as Hs. fold ranked in Hs.
  pose proof (sort_by_cost_sorted s budget candidates' Hc') as Hs'. fold ranked' in Hs'.
  pose proof (sort_by_cost_ok s budget candidates) as Ho. fold ranked in Ho.
  pose proof (take_in_band candidates Hc) as T. pose proof (take_in_band candidates' Hc') as T'. cbn zeta in T, T'.
  fold ranked in T. fold ranked' in T'.
  assert ((snd <$> list.head ranked') = (snd <$> list.head ranked)) as Eh.
  { destruct ranked as [|[e c] l], ranked' as [|[e' c'] l']; try done;
      [by apply Permutation_sym, Permutation_nil_cons in Pr|by apply Permutation_nil_cons in Pr|]. cbn. f_equal.
    assert (forall q x y, Sorted.StronglySorted (fun a b => by_key a b = true) (x :: q) -> In y (x :: q) -> by_key x y = true) as Least.
    { intros q x y Hq [->|Hy]; [by destruct (kle_total (f64_key y.2) (f64_key y.2))|].
      apply Sorted.StronglySorted_inv in Hq as [_ Hx]. rewrite List.Forall_forall in Hx. auto. }
    apply f64_key_inj; [apply (Ho (e', c') Hc)|apply (Ho (e, c) Hc); by left|].
    { apply (Permutation_in _ Pr). by left. }
    apply kle_antisym.
    - apply (Least l' (e', c') (e, c)); [done|]. apply (Permutation_in _ (Permutation_sym Pr)). by left.
    - apply (Least l (e, c) (e', c')); [done|]. apply (Permutation_in _ Pr). by left. }
  assert (Permutation (in_band_of ranked') (in_band_of ranked)) as Pb.
  { unfold in_band_of. destruct ranked as [|[e c] l], ranked' as [|[e' c'] l']; try done.
    cbn in Eh. injection Eh as ->. by apply filter_perm. }
  split; [done|]. split; [|done].
  rewrite <- T, <- T' in Pb. apply Permutation_length in Pb. rewrite !length_take in Pb.
  assert (in_band_count band ranked <= length ranked)%nat by (unfold in_band_count; destruct ranked as [|[]]; [done|apply count_while_le]).
  assert (in_band_count band ranked' <= length ranked')%nat by (unfold in_band_count; destruct ranked' as [|[]]; [done|apply count_while_le]).
  lia.
Qed.
End ranking.

Lemma map_omap_lookup {A B} (g : A -> B) (l : list A) js :
  map g (omap (fun i => l !! i) js) = omap (fun i => map g l !! i) js.
Proof.
  induction js as [|i js IH]; cbn [omap list_omap map]; [done|]. fold (omap (M := list) (A := nat) (B := A)).
  rewrite list_lookup_fmap. destruct (l !! i); cbn [map fmap option_fmap option_map]; [by f_equal|done].
Qed.

Lemma map_inj_on {A B} (g : A -> B) (H l l' : list A) :
  List.NoDup (map g H) -> incl l H -> incl l' H -> map g l = map g l' -> l = l'.
Proof.
  intros Hn. revert l'. induction l as [|x l IH]; intros [|y l'] Hl Hl' E; try done. cbn in E. injection E as E1 E2.
  f_equal.
  - assert (In x H) as Hx by (apply Hl; by left). assert (In y H) as Hy by (apply Hl'; by left).
    apply list_elem_of_In in Hx, Hy. apply list_elem_of_lookup in Hx as [i Hi], Hy as [j Hj]. apply NoDup_ListNoDup in Hn.
    assert (i = j) as -> by (apply (NoDup_lookup (map g H) i j (g y)); [done|rewrite list_lookup_fmap, Hi; cbn; by rewrite E1|by rewrite list_lookup_fmap, Hj]).
    congruence.
  - apply IH; [intros a Ha; apply Hl; by right|intros a Ha; apply Hl'; by right|done].
Qed.

Section contract.
Context (s : UpstreamSelector) (budget : Z) (band : CostBand) (affinity : RendezvousKey) (subject : list Z).

Lemma affinity_applies_true candidates : affinity_applies s candidates budget band = true ->
  let ranked := sort_by_cost s candidates budget in
  List.NoDup (map fst (lottery_items band ranked)).
Proof.
  intros Ha ranked. unfold affinity_applies in Ha. fold ranked in Ha. unfold lottery_items.
  destruct (zlen ranked <? 2); [done|]. destruct ranked as [|[e c] l] eqn:Er; [done|].
  destruct (_ <? 2)%nat; [done|]. apply Z.eqb_eq in Ha. rewrite map_map. cbn [fst].
  apply distinct_count_spec. rewrite Ha. unfold zlen. rewrite length_map, length_take. f_equal.
  pose proof (count_while_le (fun r : Endpoint * f64 => f64_le r.2 (band_limit band c)) ((e, c) :: l)).
  unfold in_band_count. lia.
Qed.

Lemma affinity_applies_perm candidates candidates' : costs_ok s budget candidates -> Permutation candidates' candidates ->
  affinity_applies s candidates' budget band = affinity_applies s candidates budget band.
Proof.
  intros Hc P. destruct (in_band_perm s budget band _ _ Hc P) as (Pb & En & _).
  assert (costs_ok s budget candidates') as Hc' by (unfold costs_ok in *; by rewrite P).
  rewrite <- (take_in_band s budget band candidates Hc), <- (take_in_band s budget band candidates' Hc') in Pb.
  unfold affinity_applies. rewrite En.
  assert (zlen (sort_by_cost s candidates' budget) = zlen (sort_by_cost s candidates budget)) as ->.
  { unfold zlen. f_equal. apply Permutation_length. by rewrite !sort_by_cost_perm, P. }
  destruct (_ <? 2); [done|]. destruct (_ <? 2)%nat; [done|]. rewrite En in Pb.
  f_equal. unfold distinct_count. f_equal. f_equal.
  apply stable_sort_unique; [intros; rewrite ?Z.leb_le; lia..|]. by rewrite Pb.
Qed.

(** The head of the ranking when the lottery runs. *)
Definition lottery_head candidates : list (Endpoint * f64) :=
  let ranked := sort_by_cost s candidates budget in
  omap (fun i => take (in_band_count band ranked) ranked !! i) (rank affinity subject (lottery_items band ranked)).

Lemma in_band_count_le q : (in_band_count band q <= length q)%nat.
Proof. unfold in_band_count. destruct q as [|[e c] q]; [done|apply count_while_le]. Qed.

Lemma lottery_head_spec candidates :
  let ranked := sort_by_cost s candidates budget in
  let n := in_band_count band ranked in
  Permutation (lottery_head candidates) (take n ranked) /\ length (lottery_head candidates) = n /\
  (forall e c l, ranked = (e, c) :: l ->
     map (fun r => (affinity_id r.1, affinity_weight c r.2)) (lottery_head candidates) =
     Rendezvous.ranked affinity subject (lottery_items band ranked)).
Proof.
  intros ranked n.
  assert (Permutation (lottery_head candidates) (take n ranked)) as P.
  { apply omap_lookup_perm. unfold lottery_items. fold ranked. destruct ranked as [|[e c] l]; [done|].
    pose proof (rank_perm affinity subject (map (fun r => (affinity_id r.1, affinity_weight c r.2)) (take n ((e, c) :: l)))) as P.
    by rewrite length_map in P. }
  split; [done|]. split.
  - apply Permutation_length in P. rewrite P, length_take. pose proof (in_band_count_le ranked). unfold n. lia.
  - intros e c l E. unfold lottery_head, Rendezvous.ranked. fold ranked n. rewrite map_omap_lookup.
    unfold lottery_items. destruct ranked as [|[e0 c0] l0]; [done|]. injection E as -> -> ->. done.
Qed.

Lemma lottery_head_reproducible candidates candidates' :
  costs_ok s budget candidates -> Permutation candidates' candidates ->
  affinity_applies s candidates budget band = true ->
  no_nan affinity subject (lottery_items band (sort_by_cost s candidates budget)) ->
  lottery_head candidates' = lottery_head candidates.
Proof.
  intros Hc P Ha Hn. assert (costs_ok s budget candidates') as Hc' by (unfold costs_ok in *; by rewrite P).
  destruct (in_band_perm s budget band _ _ Hc P) as (Pb & En & Eh).
  rewrite <- (take_in_band s budget band candidates Hc), <- (take_in_band s budget band candidates' Hc') in Pb.
  pose proof (affinity_applies_true candidates Ha) as Nd.
  destruct (lottery_head_spec candidates) as (P1 & _ & M1). destruct (lottery_head_spec candidates') as (P2 & _ & M2).
  unfold affinity_applies in Ha. cbn zeta in *. unfold lottery_items in *.
  destruct (sort_by_cost s candidates budget) as [|[e c] l]; [done|]. clear Ha.
  destruct (sort_by_cost s candidates' budget) as [|[e' c'] l']; [done|]. cbn in Eh. injection Eh as ->.
  specialize (M1 _ _ _ eq_refl). specialize (M2 _ _ _ eq_refl).
  set (H := take (in_band_count band ((e, c) :: l)) ((e, c) :: l)) in *. rewrite map_map in Nd. cbn [fst] in Nd.
  apply (map_inj_on (fun r => affinity_id r.1) H); [done|intros x Hx|intros x Hx|].
  { by apply (Permutation_in _ Pb), (Permutation_in _ P2). }
  { by apply (Permutation_in _ P1). }
  assert (forall L : list (Endpoint * f64), map (fun r => affinity_id r.1) L =
    map fst (map (fun r => (affinity_id r.1, affinity_weight c r.2)) L)) as Ef by (intros L; by rewrite map_map).
  rewrite !Ef, M1, M2. f_equal. apply ranked_order_independent; [done|by rewrite Pb|].
  by rewrite map_map.
Qed.

Lemma sort_by_cost_candidates candidates : Permutation (map fst (sort_by_cost s candidates budget)) candidates.
Proof. rewrite sort_by_cost_perm, map_map. cbn [fst]. by rewrite map_id. Qed.

Lemma rank_candidates candidates :
  Permutation (map fst (rank_with_affinity s candidates budget band affinity subject)) candidates.
Proof.
  rewrite rank_cases. destruct (lottery_head_spec candidates) as (Ph & _). cbn zeta in Ph. unfold lottery_head in Ph.
  destruct (affinity_applies s candidates budget band); [|apply sort_by_cost_candidates].
  rewrite map_app. transitivity (map fst (take (in_band_count band (sort_by_cost s candidates budget)) (sort_by_cost s candidates budget))
    ++ map fst (drop (in_band_count band (sort_by_cost s candidates budget)) (sort_by_cost s candidates budget))).
  - apply Permutation_app_tail, Permutation_map, Ph.
  - rewrite <- map_app, take_drop. apply sort_by_cost_candidates.
Qed.

(** Servers in the order they are asked.  The ranking is a permutation of the
    candidates, nobody is dropped or invented.  Beyond the band it is the cost
    order; within it, the lottery's, which is the same for every enumeration of
    the same candidates. *)
Theorem server_ranking_contract candidates :
  let r := rank_with_affinity s candidates budget band affinity subject in
  let ranked := sort_by_cost s candidates budget in
  let n := in_band_count band ranked in
  Permutation (map fst r) candidates /\ drop n r = drop n ranked /\
  (affinity_applies s candidates budget band = false -> r = ranked) /\
  (costs_ok s budget candidates ->
     Sorted.StronglySorted (fun a b => by_key a b = true) ranked /\
     Permutation (take n r) (in_band_of band ranked) /\
     (affinity_applies s candidates budget band = true -> no_nan affinity subject (lottery_items band ranked) ->
        forall candidates', Permutation candidates' candidates ->
          take n (rank_with_affinity s candidates' budget band affinity subject) = take n r)).
Proof.
  intros r ranked n. unfold r. pose proof (rank_cases s candidates budget band affinity subject) as R. cbn zeta in R.
  destruct (lottery_head_spec candidates) as (Ph & Lh & _). cbn zeta in Ph, Lh. fold ranked n in Ph, Lh.
  unfold lottery_head in *. fold ranked n in R, Ph, Lh.
  split; [apply rank_candidates|].
  destruct (affinity_applies s candidates budget band) eqn:Ha; rewrite R.
  - rewrite drop_app_length' by done. split; [done|].
    split; [done|]. intros Hc. split; [by apply sort_by_cost_sorted|]. rewrite take_app_length' by done. split.
    { rewrite Ph. unfold n, ranked. by rewrite take_in_band. }
    intros _ Hn candidates' P. rewrite rank_cases, (affinity_applies_perm candidates candidates' Hc P), Ha.
    pose proof (lottery_head_reproducible candidates candidates' Hc P Ha Hn) as E. unfold lottery_head in E.
    fold ranked n in E. rewrite E, take_app_length'; done.
  - split; [done|]. split; [done|]. intros Hc. split; [by apply sort_by_cost_sorted|].
    split; [unfold n, ranked; by rewrite take_in_band|done].
Qed.
End contract.

Lemma server_ranking_contract_witness :
  let s := record_success selector_default (sample_server 3) (f64_of 90) 5 in
  let cs := [sample_server 3; sample_server 2; sample_server 1] in
  let key := mkRdvKey 7 9 in
  affinity_applies s cs 2 default_band = true /\
  map fst (rank_with_affinity s cs 2 default_band key [119]) = [sample_server 1; sample_server 2; sample_server 3] /\
  take 2 (rank_with_affinity s (reverse cs) 2 default_band key [119]) =
    take 2 (rank_with_affinity s cs 2 default_band key [119]).
Proof.
  intros s cs key. split; [vm_compute; reflexivity|]. split; [vm_compute; reflexivity|].
  destruct (server_ranking_contract s 2 default_band key [119] cs) as (_ & _ & _ & C).
  destruct C as (_ & _ & C).
  - repeat constructor; vm_compute; discriminate.
  - apply C; [vm_compute; reflexivity|apply no_nan_check; vm_compute; reflexivity|].
    apply reverse_Permutation.
Defined.
