(* ===== verification/Servers.v ===== *)
(** * Asking the servers of a zone ([src/resolver.rs], [query_servers])

    The world a resolution runs in, the computations on it, and the loop that
    sends a query to the ranked servers of a zone until one gives a usable
    response.  The network and the clocks are the interface [NetworkOps], the
    popularity estimator the interface [EstimatorOps]. *)
From stdpp Require Import gmap.
From S2P Require Import Prelude Wire Prng Name Compress Qtype Edns Bitmap RData Rr Message BTree Time Addr Float64 Float Budget Rendezvous Upstream CacheKey Cache Alias Query Engine.

(** What a resolution sees of the outside: the monotonic clock (nanoseconds), the
    wall clock, and an exchange with a server within some milliseconds. *)
Class NetworkOps (N : Type) := {
  instant : N -> Z * N;
  clock_now : N -> Ts * N;
  exchange : N -> Endpoint -> list Z -> Z -> result Error (list Z) * N }.

(** What it asks of [QueryEstimator] ([src/estimator.rs]). *)
Class EstimatorOps (Q : Type) := {
  observe_upstream : Q -> Name -> f64 -> Q;
  observe_failure : Q -> Name -> Q;
  score_inputs : Q -> Name -> Ts -> ScoreInputs }.

(** ** Configuration *)

Record EngineConfig := mkEngineConfig {
  root_servers : list (IpAddr * Z);
  timeout_ms : Z;
  query_budget_ms : Z;
  auth_port : Z;
  max_attempts_per_server : Z;
  qname_minimization : bool;
  use_0x20 : bool;
  max_cname_depth : Z;
  max_referrals : Z;
  edns_udp_size : Z;
  cfg_dnssec : bool;
  dnssec_anchored : bool;
  fetch_limits : FetchLimits;
  tcp_fallback : bool;
  retransmit_budget : Z;
  max_ns_depth : Z;
  max_servers_tried : Z;
  affinity_band : CostBand;
  max_total_attempts : Z }.

Definition default_engine_config : EngineConfig :=
  mkEngineConfig [] 1500 20000 53 2 true true 8 32 1232 false false limits_default true 2 6 6
    default_band 10.

(** ** Deadlines *)

(** [Deadline { at }] *)
Definition deadline_after (now ms : Z) : Z := now + ms * 1000000.

Definition attempt_timeout_ms (at_ now configured : Z) : option Z :=
  let left_ := Z.max 0 (at_ - now) in
  if left_ =? 0 then None else
  let ms := Z.min (left_ / 1000000) u64_max in
  Some (Z.max (Z.min ms configured) 1).

(** ** Computations *)

(** A value, an error, or the fuel of a loop spent. *)
Inductive Outcome (A : Type) := Done (a : A) | Failed (e : Error) | OutOfFuel.
Arguments Done {A}.
Arguments Failed {A}.
Arguments OutOfFuel {A}.

(** One exchange, as sent. *)
Record Sent := mkSent { sent_to : Endpoint; sent_bytes : list Z }.

Section servers.
Context {S Q R N : Type}.

(** The state behind the locks, the budget of the resolution, and, for the
    statements, the exchanges made so far, the last first. *)
Record World := mkWorld {
  w_cache : SemanticCache S;
  w_aliases : AliasGraph CacheKey;
  w_selector : UpstreamSelector;
  w_est : Q;
  w_rng : R;
  w_net : N;
  w_budget : FetchBudget;
  w_log : list Sent }.

Definition set_cache (c : SemanticCache S) (w : World) : World :=
  mkWorld c (w_aliases w) (w_selector w) (w_est w) (w_rng w) (w_net w) (w_budget w) (w_log w).
Definition set_aliases (g : AliasGraph CacheKey) (w : World) : World :=
  mkWorld (w_cache w) g (w_selector w) (w_est w) (w_rng w) (w_net w) (w_budget w) (w_log w).
Definition set_selector (s : UpstreamSelector) (w : World) : World :=
  mkWorld (w_cache w) (w_aliases w) s (w_est w) (w_rng w) (w_net w) (w_budget w) (w_log w).
Definition set_est (q : Q) (w : World) : World :=
  mkWorld (w_cache w) (w_aliases w) (w_selector w) q (w_rng w) (w_net w) (w_budget w) (w_log w).
Definition set_rng (r : R) (w : World) : World :=
  mkWorld (w_cache w) (w_aliases w) (w_selector w) (w_est w) r (w_net w) (w_budget w) (w_log w).
Definition set_net (n : N) (w : World) : World :=
  mkWorld (w_cache w) (w_aliases w) (w_selector w) (w_est w) (w_rng w) n (w_budget w) (w_log w).
Definition set_budget (b : FetchBudget) (w : World) : World :=
  mkWorld (w_cache w) (w_aliases w) (w_selector w) (w_est w) (w_rng w) (w_net w) b (w_log w).
Definition add_sent (x : Sent) (w : World) : World :=
  mkWorld (w_cache w) (w_aliases w) (w_selector w) (w_est w) (w_rng w) (w_net w) (w_budget w) (x :: w_log w).

Definition M (A : Type) : Type := World -> Outcome A * World.

#[global] Instance M_ret : MRet M := fun A a w => (Done a, w).
#[global] Instance M_bind : MBind M := fun A B f m w =>
  match m w with
  | (Done a, w) => f a w
  | (Failed e, w) => (Failed e, w)
  | (OutOfFuel, w) => (OutOfFuel, w)
  end.

Definition fail {A} (e : Error) : M A := fun w => (Failed e, w).
Definition gets {A} (f : World -> A) : M A := fun w => (Done (f w), w).
Definition modify (f : World -> World) : M unit := fun w => (Done tt, f w).
(** The outcome of a computation, an error included: [if let Ok(..) = ..]. *)
Definition catch {A} (m : M A) : M (result Error A) := fun w =>
  match m w with
  | (Done a, w) => (Done (Ok a), w)
  | (Failed e, w) => (Done (Err e), w)
  | (OutOfFuel, w) => (OutOfFuel, w)
  end.
Definition of_result {A} (r : result Error A) : M A :=
  match r with Ok a => mret a | Err e => fail e end.

(** A charge to the budget; refused, the resolution ends with [e]. *)
Definition charge {A} (f : FetchBudget -> result Exhausted A * FetchBudget) (e : Error) : M A := fun w =>
  let '(r, b) := f (w_budget w) in
  match r with Ok a => (Done a, set_budget b w) | Err _ => (Failed e, set_budget b w) end.

Definition with_rng {A} (f : R -> A * R) : M A := fun w =>
  let '(a, r) := f (w_rng w) in (Done a, set_rng r w).

Context `{NetworkOps N, RandomSource R, EstimatorOps Q}.

Definition now_instant : M Z := fun w => let '(t, n) := instant (w_net w) in (Done t, set_net n w).
Definition now_wall : M Ts := fun w => let '(t, n) := clock_now (w_net w) in (Done t, set_net n w).
Definition send (ep : Endpoint) (bytes : list Z) (ms : Z) : M (result Error (list Z)) := fun w =>
  let '(r, n) := exchange (w_net w) ep bytes ms in (Done r, add_sent (mkSent ep bytes) (set_net n w)).

Definition expired (deadline : Z) : M bool := t ← now_instant; mret (deadline <=? t).

(** [self.inner.shared.selector.lock()] and what is recorded in it. *)
Definition note_success (ep : Endpoint) (rtt_ms : Z) (now : Ts) : M unit :=
  modify (fun w => set_selector (record_success (w_selector w) ep (f64_of rtt_ms) now) w).
Definition note_timeout (ep : Endpoint) (now : Ts) : M unit :=
  modify (fun w => set_selector (record_timeout (w_selector w) ep now) w).
Definition note_servfail (ep : Endpoint) (now : Ts) : M unit :=
  modify (fun w => set_selector (record_servfail (w_selector w) ep now) w).
Definition note_failure (qname : Name) : M unit :=
  modify (fun w => set_est (observe_failure (w_est w) qname) w).

(** ** The query loop *)

Definition affinity_subject (qname : Name) (qtype : RrType) : list Z :=
  as_bytes qname ++ be_bytes 2 qtype.

Definition budget_subqueries : Error := mkError NoUpstream "resolution budget exhausted (sub-queries)".
Definition budget_bytes : Error := mkError NoUpstream "resolution budget exhausted (bytes)".
Definition empty_message : Error := mkError Servfail "upstream answered with an empty message".
(** The text names the code. *)
Definition upstream_answered : Error := mkError Servfail "upstream answered".

Definition is_empty_noerror (msg : Message) : bool :=
  (flags_rcode (flags msg) =? Rcodes.NOERROR) && (zlen (answers msg) =? 0) && (zlen (authorities msg) =? 0)
  && (zlen (additionals msg) =? 0).

Definition is_refusal (msg : Message) : bool :=
  let rc := flags_rcode (flags msg) in
  (rc =? Rcodes.SERVFAIL) || (rc =? Rcodes.REFUSED) || (rc =? Rcodes.NOTIMP) || (rc =? Rcodes.FORMERR).

(** How one pass of the attempt loop ends: [return], [continue] or [break]. *)
Inductive Attempt := Answered (m : Message) (rtt_ms : Z) | Again (last_err : option Error) | Break.

Section query.
Context (cfg : EngineConfig) (affinity : RendezvousKey).
Context (qname : Name) (qtype : RrType) (key : QueryKey) (deadline : Z) (skip_empty : bool) (now : Ts).

Definition query_spec : EdnsSpec :=
  mkEdnsSpec (edns_udp_size cfg) (cfg_dnssec cfg || want_dnssec key) (ecs_option key) None.

Definition build_out : M OutQuery :=
  id ← with_rng next_u32;
  with_rng (build_query (Z.land id 0xffff) qname qtype false (Some query_spec) (use_0x20 cfg)).

(** The retry over TCP; nothing of it is charged to the budget. *)
Definition retry_tcp (ep : Endpoint) (bytes : list Z) (ms : Z) (query_msg : Message) : M (option (Endpoint * Message)) :=
  let tcp_ep := mkEndpoint (ep_ip ep) (ep_port ep) Tcp in
  r ← send tcp_ep bytes ms;
  mret (match r with
        | Ok b => match message_parse b with
                  | Ok m => if response_matches_query query_msg m then Some (tcp_ep, m) else None
                  | Err _ => None
                  end
        | Err _ => None
        end).

(** What is done with a response that belongs to the query. *)
Definition judge (ep : Endpoint) (msg : Message) (rtt_ms : Z) : M Attempt :=
  if skip_empty && is_empty_noerror msg then
    _ ← note_servfail ep now; mret (Again (Some empty_message))
  else if is_refusal msg then
    _ ← note_servfail ep now; _ ← note_failure qname; mret (Again (Some upstream_answered))
  else
    _ ← note_success ep rtt_ms now; mret (Answered msg rtt_ms).

Definition handle_response (ep : Endpoint) (bytes : list Z) (ms : Z) (last_err : option Error)
    (resp : list Z) (rtt_ms : Z) : M Attempt :=
  match message_parse resp with
  | Err e => mret (Again (Some e))
  | Ok msg =>
      let query_msg := match message_parse bytes with Ok m => m | Err _ => message_new 0 end in
      if negb (response_matches_query query_msg msg) then mret (Again last_err) else
      tcp ← (if is_truncated msg && tcp_fallback cfg then retry_tcp ep bytes ms query_msg else mret None);
      match tcp with
      | Some (tcp_ep, m) => _ ← note_success tcp_ep rtt_ms now; mret (Answered m rtt_ms)
      | None => judge ep msg rtt_ms
      end
  end.

Definition attempt (ep : Endpoint) (last_err : option Error) : M Attempt :=
  _ ← charge spend_subquery budget_subqueries;
  q ← build_out;
  t ← now_instant;
  match attempt_timeout_ms deadline t (timeout_ms cfg) with
  | None => mret Break
  | Some ms =>
      t0 ← now_instant;
      r ← send ep (oq_bytes q) ms;
      match r with
      | Err e => _ ← note_timeout ep now; mret (Again (Some e))
      | Ok resp =>
          t1 ← now_instant;
          let rtt_ms := wrap 64 (Z.max 0 (t1 - t0) / 1000000) in
          _ ← charge (fun b => spend_bytes b (zlen (oq_bytes q) + zlen resp)) budget_bytes;
          handle_response ep (oq_bytes q) ms last_err resp rtt_ms
      end
  end.

(** [while attempts < max_attempts_per_server]; [n] attempts of it are left. *)
Fixpoint attempts_loop (n : nat) (ep : Endpoint) (total : Z) (last_err : option Error)
    : M (option (Message * Z) * Z * option Error) :=
  match n with
  | 0%nat => mret (None, total, last_err)
  | Datatypes.S n =>
      if max_total_attempts cfg <=? total then mret (None, total, last_err) else
      a ← attempt ep last_err;
      match a with
      | Answered m rtt => mret (Some (m, rtt), total + 1, last_err)
      | Again last_err => attempts_loop n ep (total + 1) last_err
      | Break => mret (None, total + 1, last_err)
      end
  end.

Definition no_answer : Error := mkError Timeout "no upstream answered".

(** [for (endpoint, _) in ranked.into_iter().take(max_servers)] *)
Fixpoint servers_loop (eps : list Endpoint) (total : Z) (last_err : option Error) : M (Message * Z) :=
  match eps with
  | [] => fail (default no_answer last_err)
  | ep :: eps =>
      late ← expired deadline;
      if late : bool then fail (default no_answer last_err) else
      r ← attempts_loop (Z.to_nat (max_attempts_per_server cfg)) ep total last_err;
      match r with
      | (Some answer, _, _) => mret answer
      | (None, total, last_err) => servers_loop eps total last_err
      end
  end.
End query.

Definition no_servers : Error := mkError NoUpstream "no servers to query".

Definition query_servers (cfg : EngineConfig) (affinity : RendezvousKey) (servers : list Endpoint)
    (qname : Name) (qtype : RrType) (key : QueryKey) (deadline : Z) (skip_empty : bool) : M (Message * Z) :=
  if zlen servers =? 0 then fail no_servers else
  now ← now_wall;
  ranked ← gets (fun w => rank_with_affinity (w_selector w) servers (retransmit_budget cfg)
                            (affinity_band cfg) affinity (affinity_subject qname qtype));
  let max_servers := Z.min (zlen servers) (Z.max (max_servers_tried cfg) 1) in
  servers_loop cfg qname qtype key deadline skip_empty now
    (map fst (take (Z.to_nat max_servers) ranked)) 0 None.
End servers.
#[global] Arguments World : clear implicits.
#[global] Arguments M : clear implicits.

(** ** What a computation may cost *)

Section cost.
Context {S Q R N : Type}.
Abbreviation World := (World S Q R N).
Abbreviation M := (M S Q R N).
Implicit Types w : World.

Definition spent w : Z := subqueries (work (w_budget w)).
Definition allowance w : Z := max_subqueries (limits (w_budget w)).

(** From [w] to [w'] the budget granted [p] subqueries and the exchanges [new],
    all of them permitted by [P], were made. *)
Record delta (P : Sent -> Prop) w w' (p : Z) (new : list Sent) : Prop := {
  d_limits : limits (w_budget w') = limits (w_budget w);
  d_spent : spent w' = spent w + p;
  d_p : 0 <= p;
  d_granted : p = 0 \/ spent w' <= allowance w;
  d_log : w_log w' = new ++ w_log w;
  d_permitted : Forall P new }.

Lemma delta_refl P w w' : w_budget w' = w_budget w -> w_log w' = w_log w -> delta P w w' 0 [].
Proof. intros E1 E2. unfold spent. constructor; unfold spent; rewrite ?E1; try done; [lia|by left]. Qed.

Lemma delta_trans P w1 w2 w3 p1 p2 n1 n2 :
  delta P w1 w2 p1 n1 -> delta P w2 w3 p2 n2 -> delta P w1 w3 (p1 + p2) (n2 ++ n1).
Proof.
  intros [L1 S1 P1 G1 E1 F1] [L2 S2 P2 G2 E2 F2]. unfold allowance in *. rewrite L1 in G2. constructor.
  - congruence.
  - lia.
  - lia.
  - destruct G2 as [->|G2]; [|right; done]. destruct G1 as [->|G1]; [by left|]. right. unfold allowance. lia.
  - by rewrite E2, E1, app_assoc.
  - apply Forall_app; by split.
Qed.

(** [m] never runs out of fuel and makes at most two exchanges per subquery
    granted, and [c] more. *)
Definition uses {A} (P : Sent -> Prop) (c : Z) (m : M A) : Prop := forall w,
  (m w).1 <> OutOfFuel /\ exists p new, delta P w (m w).2 p new /\ zlen new <= 2 * p + c.

Lemma uses_weaken {A} P c c' (m : M A) : uses P c m -> c <= c' -> uses P c' m.
Proof. intros H Hc w. destruct (H w) as (F & p & new & D & L). split; [done|]. exists p, new. split; [done|lia]. Qed.

Lemma uses_bind {A B} P c1 c2 (m : M A) (f : A -> M B) :
  0 <= c2 -> uses P c1 m -> (forall a, uses P c2 (f a)) -> uses P (c1 + c2) (m ≫= f).
Proof.
  intros Hc Hm Hf w. destruct (Hm w) as (F & p & new & D & L). unfold mbind, M_bind.
  destruct (m w) as [[a|e|] w1]; cbn [fst snd] in *.
  - destruct (Hf a w1) as (F' & p' & new' & D' & L'). split; [done|]. exists (p + p'), (new' ++ new).
    split; [by eapply delta_trans|lens].
  - split; [done|]. exists p, new. split; [done|lia].
  - done.
Qed.

Lemma uses_bind0 {A B} P (m : M A) (f : A -> M B) :
  uses P 0 m -> (forall a, uses P 0 (f a)) -> uses P 0 (m ≫= f).
Proof. intros Hm Hf. apply (uses_bind P 0 0); [done|exact Hm|exact Hf]. Qed.

(** A computation that touches neither the budget nor the log. *)
Lemma uses_quiet {A} P (m : M A) :
  (forall w, (m w).1 <> OutOfFuel /\ w_budget (m w).2 = w_budget w /\ w_log (m w).2 = w_log w) -> uses P 0 m.
Proof.
  intros H w. destruct (H w) as (F & E1 & E2). split; [done|]. exists 0, []. split; [by apply delta_refl|done].
Qed.

Lemma uses_ret {A} P (a : A) : uses P 0 (mret a).
Proof. by apply uses_quiet. Qed.
Lemma uses_fail {A} P e : uses P 0 (fail (A := A) e : M A).
Proof. by apply uses_quiet. Qed.
Lemma uses_gets {A} P (f : World -> A) : uses P 0 (gets f).
Proof. by apply uses_quiet. Qed.
Lemma uses_of_result {A} P (r : result Error A) : uses P 0 (of_result r : M A).
Proof. destruct r; [apply uses_ret|apply uses_fail]. Qed.
Lemma uses_modify P (f : World -> World) :
  (forall w, w_budget (f w) = w_budget w /\ w_log (f w) = w_log w) -> uses P 0 (modify f).
Proof. intros H. apply uses_quiet. intros w. split; [done|apply H]. Qed.
Lemma uses_with_rng {A} P (f : R -> A * R) : uses P 0 (with_rng f : M A).
Proof. apply uses_quiet. intros w. unfold with_rng. by destruct (f (w_rng w)). Qed.

Lemma uses_catch {A} P c (m : M A) : uses P c m -> uses P c (catch m).
Proof. intros H w. destruct (H w) as (F & D). unfold catch. by destruct (m w) as [[a|e|] w1]. Qed.

(** Charges other than for a subquery. *)
Lemma uses_charge {A} P (f : FetchBudget -> result Exhausted A * FetchBudget) e :
  (forall b, limits (f b).2 = limits b /\ subqueries (work (f b).2) = subqueries (work b)) ->
  uses P 0 (charge f e : M A).
Proof.
  intros Hf w. unfold charge. specialize (Hf (w_budget w)). destruct (f (w_budget w)) as [r b]. destruct Hf as [E1 E2].
  cbn [snd] in E1, E2. assert (delta P w (set_budget b w) 0 []) as D.
  { constructor; unfold spent; cbn; [done|lia|done|by left|done|constructor]. }
  destruct r; (split; [done|]); exists 0, []; by split.
Qed.


(** The charge for a subquery pays for two exchanges. *)
Lemma uses_subquery {B} P e (f : unit -> M B) :
  (forall a, uses P 2 (f a)) -> uses P 0 (charge spend_subquery e ≫= f).
Proof.
  intros Hf w. unfold mbind, M_bind, charge, spend_subquery.
  destruct (max_subqueries (limits (w_budget w)) <=? subqueries (work (w_budget w))) eqn:E; bools.
  - split; [done|]. exists 0, []. split; [|done]. by apply delta_refl; destruct w.
  - set (w1 := set_budget _ w). destruct (Hf tt w1) as (F & p & new & D & L). split; [done|].
    exists (1 + p), (new ++ []). rewrite app_nil_r. split; [|lia].
    rewrite <- (app_nil_r new). eapply delta_trans; [|exact D].
    constructor; unfold w1, spent, allowance; cbn; [done|lia|done|right; lia|done|constructor].
Qed.
End cost.

Create HintDb uses.
#[export] Hint Resolve uses_ret uses_fail uses_gets uses_of_result uses_with_rng uses_bind0 uses_catch : uses.

(** ** Queries *)

Section queries.
Context {S Q R N : Type} `{NetworkOps N, RandomSource R, EstimatorOps Q}.
Abbreviation World := (World S Q R N).
Abbreviation M := (M S Q R N).
Implicit Types w : World.

Lemma uses_now_instant P : uses P 0 (now_instant : M Z).
Proof. apply uses_quiet. intros w. unfold now_instant. by destruct (instant (w_net w)). Qed.
Lemma uses_now_wall P : uses P 0 (now_wall : M Ts).
Proof. apply uses_quiet. intros w. unfold now_wall. by destruct (clock_now (w_net w)). Qed.
Lemma uses_expired P d : uses P 0 (expired d : M bool).
Proof. apply uses_bind0; [apply uses_now_instant|intros t; apply uses_ret]. Qed.
Lemma uses_note_success P ep rtt now : uses P 0 (note_success ep rtt now : M unit).
Proof. by apply uses_modify. Qed.
Lemma uses_note_timeout P ep now : uses P 0 (note_timeout ep now : M unit).
Proof. by apply uses_modify. Qed.
Lemma uses_note_servfail P ep now : uses P 0 (note_servfail ep now : M unit).
Proof. by apply uses_modify. Qed.
Lemma uses_note_failure P n : uses P 0 (note_failure n : M unit).
Proof. by apply uses_modify. Qed.
Lemma uses_spend_bytes P n e : uses P 0 (charge (fun b => spend_bytes b n) e : M unit).
Proof. apply uses_charge. intros b. unfold spend_bytes. by destruct (_ <? _). Qed.
#[local] Hint Resolve uses_now_instant uses_now_wall uses_expired uses_note_success uses_note_timeout
  uses_note_servfail uses_note_failure uses_spend_bytes : uses.

Lemma uses_send (P : Sent -> Prop) ep b ms : P (mkSent ep b) -> uses P 1 (send ep b ms : M _).
Proof.
  intros HP w. unfold send. destruct (exchange (w_net w) ep b ms) as [r n]. split; [done|].
  exists 0, [mkSent ep b]. split; [|by cbn]. constructor; unfold spent; cbn; [done|lia|done|by left|done|by repeat constructor].
Qed.

Lemma list_take_In {A} n (l : list A) x : In x (take n l) -> In x l.
Proof. intros Hx. rewrite <- (take_drop n l). apply in_or_app. by left. Qed.

(** The exchanges with a server: over its own transport, or the retry over TCP. *)
Definition sent_to_server (servers : list Endpoint) (x : Sent) : Prop :=
  exists ep, In ep servers /\ (sent_to x = ep \/ sent_to x = mkEndpoint (ep_ip ep) (ep_port ep) Tcp).

Section query.
Context (cfg : EngineConfig) (affinity : RendezvousKey).
Context (qname : Name) (qtype : RrType) (key : QueryKey) (deadline : Z) (skip_empty : bool) (now : Ts).
Context (servers : list Endpoint).
Abbreviation P := (sent_to_server servers).

Lemma uses_judge ep msg rtt : uses P 0 (judge qname skip_empty now ep msg rtt : M Attempt).
Proof. unfold judge. repeat case_match; eauto with uses. Qed.

Lemma uses_handle_response ep b ms le resp rtt : In ep servers ->
  uses P 1 (handle_response cfg qname skip_empty now ep b ms le resp rtt : M Attempt).
Proof.
  intros Hep. unfold handle_response. destruct (message_parse resp) as [msg|]; [|eapply uses_weaken; eauto with uses; lia].
  cbn zeta. destruct (negb _); [eapply uses_weaken; eauto with uses; lia|].
  apply (uses_bind P 1 0); [lia| |].
  - destruct (is_truncated msg && tcp_fallback cfg); [|eapply uses_weaken; eauto with uses; lia].
    unfold retry_tcp. apply (uses_bind P 1 0); [lia| |intros; apply uses_ret].
    apply uses_send. exists ep. split; [done|by right].
  - intros [[tcp_ep m]|]; [|apply uses_judge]. eauto with uses.
Qed.

Lemma uses_attempt ep le : In ep servers ->
  uses P 0 (attempt cfg qname qtype key deadline skip_empty now ep le : M Attempt).
Proof.
  intros Hep. unfold attempt. apply uses_subquery. intros [].
  apply (uses_bind P 0 2); [lia|unfold build_out; eauto with uses|]. intros q.
  apply (uses_bind P 0 2); [lia|eauto with uses|]. intros t.
  destruct (attempt_timeout_ms deadline t (timeout_ms cfg)) as [ms|]; [|eapply uses_weaken; eauto with uses; lia].
  apply (uses_bind P 0 2); [lia|eauto with uses|]. intros t0.
  apply (uses_bind P 1 1); [lia|apply uses_send; exists ep; split; [done|by left]|]. intros [resp|e].
  - apply (uses_bind P 0 1); [lia|eauto with uses|]. intros t1.
    apply (uses_bind P 0 1); [lia|eauto with uses|]. intros []. by apply uses_handle_response.
  - eapply uses_weaken; [eauto with uses|lia].
Qed.

Lemma uses_attempts_loop n ep total le : In ep servers ->
  uses P 0 (attempts_loop cfg qname qtype key deadline skip_empty now n ep total le : M _).
Proof.
  intros Hep. revert total le. induction n as [|n IH]; intros total le; cbn [attempts_loop]; [apply uses_ret|].
  destruct (max_total_attempts cfg <=? total); [apply uses_ret|].
  apply uses_bind0; [by apply uses_attempt|]. intros [m rtt|le'|]; eauto with uses.
Qed.

Lemma uses_servers_loop eps total le : incl eps servers ->
  uses P 0 (servers_loop cfg qname qtype key deadline skip_empty now eps total le : M _).
Proof.
  revert total le. induction eps as [|ep eps IH]; intros total le Hin; cbn [servers_loop]; [apply uses_fail|].
  apply uses_bind0; [apply uses_expired|]. intros late. destruct late; [apply uses_fail|].
  apply uses_bind0; [apply uses_attempts_loop, Hin; by left|].
  intros [[[answer|] total'] le']; [apply uses_ret|]. apply IH. intros x Hx. apply Hin. by right.
Qed.
End query.

Lemma ranked_incl (sel : UpstreamSelector) n servers budget band affinity subject :
  incl (map fst (take n (rank_with_affinity sel servers budget band affinity subject))) servers.
Proof.
  intros ep Hep. eapply Permutation_in; [apply (rank_candidates sel budget band affinity subject)|].
  apply in_map_iff in Hep as (x & <- & Hx). apply in_map. eapply (list_take_In _ _ _ Hx).
Qed.

Lemma uses_query_servers cfg affinity servers qname qtype key deadline skip_empty :
  uses (sent_to_server servers) 0
    (query_servers cfg affinity servers qname qtype key deadline skip_empty : M _).
Proof.
  unfold query_servers. destruct (zlen servers =? 0); [apply uses_fail|].
  apply uses_bind0; [apply uses_now_wall|]. intros now w.
  apply uses_servers_loop, ranked_incl.
Qed.

(** ** The answer *)

(** The message belongs to a query that was sent; unless it came over TCP, it is
    no refusal, and, where that is asked for, not an empty message either. *)
Definition answers_query (skip_empty : bool) (new : list Sent) (m : Message) : Prop :=
  exists x q, In x new /\ message_parse (sent_bytes x) = Ok q /\ response_matches_query q m = true /\
    (ep_proto (sent_to x) = Tcp \/ (is_refusal m = false /\ (skip_empty = true -> is_empty_noerror m = false))).

Lemma answers_query_app skip_empty n1 n2 m : answers_query skip_empty n1 m -> answers_query skip_empty (n2 ++ n1) m.
Proof. intros (x & q & Hx & Hq). exists x, q. split; [apply in_or_app; by right|done]. Qed.

Section answer.
Context (cfg : EngineConfig) (affinity : RendezvousKey).
Context (qname : Name) (qtype : RrType) (key : QueryKey) (deadline : Z) (skip_empty : bool) (now : Ts).
Context (servers : list Endpoint).
Abbreviation P := (sent_to_server servers).

Lemma judge_answered ep msg rtt w m r w' :
  judge qname skip_empty now ep msg rtt w = (Done (Answered m r), w') ->
  m = msg /\ is_refusal m = false /\ (skip_empty = true -> is_empty_noerror m = false) /\ w_log w' = w_log w.
Proof.
  unfold judge. destruct (skip_empty && is_empty_noerror msg) eqn:E1; [done|].
  destruct (is_refusal msg) eqn:E2; [done|]. intros [= <- <- <-]. split; [done|]. split; [done|]. split; [|done].
  intros ->. by rewrite andb_true_l in E1.
Qed.

Lemma handle_response_answered ep b ms le resp rtt w m r w' :
  handle_response cfg qname skip_empty now ep b ms le resp rtt w = (Done (Answered m r), w') ->
  exists q, message_parse b = Ok q /\ response_matches_query q m = true /\
    (w_log w' = mkSent (mkEndpoint (ep_ip ep) (ep_port ep) Tcp) b :: w_log w \/
     (is_refusal m = false /\ (skip_empty = true -> is_empty_noerror m = false))).
Proof.
  unfold handle_response. destruct (message_parse resp) as [msg|]; [|done]. cbn zeta.
  set (q := match message_parse b with Ok m => m | Err _ => message_new 0 end).
  assert (forall m, response_matches_query q m = true -> message_parse b = Ok q) as Hq.
  { intros m0. unfold q. destruct (message_parse b) as [q0|]; [done|]. unfold response_matches_query. cbn.
    by destruct (negb _). }
  destruct (negb (response_matches_query q msg)) eqn:Em; [done|]. apply negb_false_iff in Em.
  destruct (is_truncated msg && tcp_fallback cfg).
  2: { intros (-> & A & B & _)%judge_answered. exists q. eauto 6. }
  unfold retry_tcp, mbind, M_bind, send.
  destruct (exchange (w_net w) _ b ms) as [[b2|e] n] eqn:Ex; cbn.
  2: { intros (-> & A & B & _)%judge_answered. exists q. eauto 6. }
  destruct (message_parse b2) as [m2|]; [destruct (response_matches_query q m2) eqn:E2|].
  2-3: (intros (-> & A & B & _)%judge_answered; exists q; eauto 6).
  intros [= <- <- <-]. exists q. split; [by eapply Hq|]. split; [done|]. by left.
Qed.

(** What an answer from a computation that started in [w] comes with. *)
Definition answered w (m : Message) w' : Prop :=
  exists p new, delta P w w' p new /\ 1 <= p /\ zlen new <= 2 * p /\ answers_query skip_empty new m.

Lemma answered_after w w1 m w' p new :
  delta P w w1 p new -> zlen new <= 2 * p -> answered w1 m w' -> answered w m w'.
Proof.
  intros D L (p' & new' & D' & L1 & L2 & A). exists (p + p'), (new' ++ new). split; [by eapply delta_trans|].
  pose proof (d_p _ _ _ _ _ D). split; [lia|]. split; [lens|]. destruct A as (x & q & Hx & Hq).
  exists x, q. split; [apply in_or_app; by left|done].
Qed.

Lemma bind_done {A B} (m : M A) (f : A -> M B) w b w' :
  (m ≫= f) w = (Done b, w') -> exists a w1, m w = (Done a, w1) /\ f a w1 = (Done b, w').
Proof. unfold mbind, M_bind. destruct (m w) as [[a|e|] w1]; [|done|done]. eauto. Qed.

(** The steps of an attempt up to its response. *)
Lemma attempt_response ep le w m r w' :
  attempt cfg qname qtype key deadline skip_empty now ep le w = (Done (Answered m r), w') -> In ep servers ->
  exists b ms resp rtt w1, delta P w w1 1 [mkSent ep b] /\
    handle_response cfg qname skip_empty now ep b ms le resp rtt w1 = (Done (Answered m r), w').
Proof.
  intros E Hep.
  unfold attempt in E. apply bind_done in E as ([] & w1 & E1 & E).
  unfold charge, spend_subquery in E1. destruct (_ <=? _) eqn:Es; bools; [done|]. injection E1 as <-.
  apply bind_done in E as (q & w2 & E2 & E). unfold build_out in E2. apply bind_done in E2 as (id & w3 & E3 & E2).
  unfold with_rng in E3. destruct (next_u32 _) as [id' r1]. injection E3 as <- <-.
  unfold with_rng in E2. destruct (build_query _ _ _ _ _ _ _) as [q' r2]. injection E2 as <- <-.
  apply bind_done in E as (t & w4 & E4 & E). unfold now_instant in E4. destruct (instant _) as [t' n1].
  injection E4 as <- <-. destruct (attempt_timeout_ms _ _ _) as [ms|]; [|done].
  apply bind_done in E as (t0 & w5 & E5 & E). unfold now_instant in E5. destruct (instant _) as [t0' n2].
  injection E5 as <- <-. apply bind_done in E as (o & w6 & E6 & E). unfold send in E6.
  destruct (exchange _ _ _ _) as [o' n3]. injection E6 as <- <-. destruct o' as [resp|e]; [|done].
  apply bind_done in E as (t1 & w7 & E7 & E). unfold now_instant in E7. destruct (instant _) as [t1' n4].
  injection E7 as <- <-. apply bind_done in E as ([] & w8 & E8 & E).
  unfold charge, spend_bytes in E8. destruct (_ <? _) eqn:Eb; [done|]. injection E8 as <-.
  eexists _, _, _, _, _. split; [|exact E]. constructor; unfold spent, allowance; cbn; [done|lia|done|right; lia|done|].
  repeat constructor. exists ep. split; [done|by left].
Qed.

Lemma attempt_answered ep le w m r w' :
  attempt cfg qname qtype key deadline skip_empty now ep le w = (Done (Answered m r), w') -> In ep servers ->
  answered w m w'.
Proof.
  intros E Hep. destruct (attempt_response ep le w m r w' E Hep) as (b & ms & resp & rtt & w1 & D & Eh).
  destruct (uses_handle_response cfg qname skip_empty now servers ep b ms le resp rtt Hep w1) as (_ & p & new & D' & L).
  rewrite Eh in D'. cbn [snd] in D'. apply handle_response_answered in Eh as (q & Eq & Em & Hx).
  exists (1 + p), (new ++ [mkSent ep b]). split; [by eapply delta_trans|]. pose proof (d_p _ _ _ _ _ D').
  split; [lia|]. split; [lens|]. destruct Hx as [Hx|Hx].
  - rewrite (d_log _ _ _ _ _ D') in Hx. change (mkSent (mkEndpoint (ep_ip ep) (ep_port ep) Tcp) b :: w_log w1)
      with ([mkSent (mkEndpoint (ep_ip ep) (ep_port ep) Tcp) b] ++ w_log w1) in Hx.
    apply app_inv_tail in Hx as ->. eexists _, q. split; [by left|]. split; [exact Eq|]. split; [done|by left].
  - exists (mkSent ep b), q. split; [apply in_or_app; right; by left|]. split; [done|]. split; [done|by right].
Qed.

Lemma attempts_loop_answered n ep total le w m r t' le' w' :
  attempts_loop cfg qname qtype key deadline skip_empty now n ep total le w = (Done (Some (m, r), t', le'), w') ->
  In ep servers -> answered w m w'.
Proof.
  intros E Hep. revert total le w E. induction n as [|n IH]; intros total le w E; cbn [attempts_loop] in E; [done|].
  destruct (_ <=? total); [done|]. apply bind_done in E as (a & w1 & E1 & E).
  destruct a as [m1 r1|le1|]; [|apply IH in E|done].
  - injection E as <- <- <- <- <-. by eapply attempt_answered.
  - destruct (uses_attempt cfg qname qtype key deadline skip_empty now servers ep le Hep w) as (_ & p & new & D & L).
    rewrite E1 in D. cbn [snd] in D. eapply answered_after; [exact D|lia|done].
Qed.

Lemma servers_loop_answered eps total le w m r w' :
  servers_loop cfg qname qtype key deadline skip_empty now eps total le w = (Done (m, r), w') ->
  incl eps servers -> answered w m w'.
Proof.
  revert total le w. induction eps as [|ep eps IH]; intros total le w E Hin; cbn [servers_loop] in E; [done|].
  apply bind_done in E as (late & w1 & E1 & E). destruct late; [done|].
  apply bind_done in E as ([[o total'] le'] & w2 & E2 & E).
  destruct (uses_expired P deadline w) as (_ & p1 & n1 & D1 & L1).
  rewrite E1 in D1. cbn [snd] in D1. assert (In ep servers) as Hep by (apply Hin; by left).
  eapply answered_after; [exact D1|lia|]. destruct o as [[m1 r1]|].
  - injection E as <- <- <-. by eapply attempts_loop_answered.
  - destruct (uses_attempts_loop cfg qname qtype key deadline skip_empty now servers
      (Z.to_nat (max_attempts_per_server cfg)) ep total le Hep w1) as (_ & p2 & n2 & D2 & L2).
    rewrite E2 in D2. cbn [snd] in D2. eapply answered_after; [exact D2|lia|].
    eapply IH; [exact E|]. intros x Hx. apply Hin. by right.
Qed.
End answer.

(** A query's answer costs at least one subquery. *)
Lemma query_servers_answered cfg affinity servers qname qtype key deadline skip_empty w m r w' :
  query_servers cfg affinity servers qname qtype key deadline skip_empty w = (Done (m, r), w') ->
  answered skip_empty servers w m w'.
Proof.
  unfold query_servers. destruct (zlen servers =? 0); [done|]. intros E.
  apply bind_done in E as (now & w1 & E1 & E).
  destruct (uses_now_wall (sent_to_server servers) w) as (_ & p1 & n1 & D1 & L1).
  rewrite E1 in D1. cbn [snd] in D1. eapply answered_after; [exact D1|lia|].
  apply bind_done in E as (ranked & w2 & [= <- <-] & E).
  eapply servers_loop_answered; [exact E|apply ranked_incl].
Qed.

(** ** How many attempts *)

(** [m] is granted at most [k] subqueries. *)
Definition grants {A} (k : Z) (m : M A) : Prop := forall w, spent (m w).2 <= spent w + k.

Lemma grants_bind {A B} k1 k2 (m : M A) (f : A -> M B) :
  0 <= k2 -> grants k1 m -> (forall a, grants k2 (f a)) -> grants (k1 + k2) (m ≫= f).
Proof.
  intros Hk Hm Hf w. specialize (Hm w). unfold mbind, M_bind. destruct (m w) as [[a|e|] w1]; cbn [snd] in *; [|lia..].
  specialize (Hf a w1). lia.
Qed.

Lemma grants_bind0 {A B} (m : M A) (f : A -> M B) :
  grants 0 m -> (forall a, grants 0 (f a)) -> grants 0 (m ≫= f).
Proof. intros Hm Hf. by apply (grants_bind 0 0). Qed.

Lemma grants_quiet {A} (m : M A) : (forall w, spent (m w).2 = spent w) -> grants 0 m.
Proof. intros Hm w. rewrite Hm. lia. Qed.

Lemma grants_send ep b ms : grants 0 (send ep b ms : M _).
Proof. apply grants_quiet. intros w. unfold send. by destruct (exchange _ _ _ _). Qed.
Lemma grants_instant : grants 0 (now_instant : M Z).
Proof. apply grants_quiet. intros w. unfold now_instant. by destruct (instant _). Qed.
Lemma grants_with_rng {A} (f : R -> A * R) : grants 0 (with_rng f : M A).
Proof. apply grants_quiet. intros w. unfold with_rng. by destruct (f _). Qed.

Section attempts.
Context (cfg : EngineConfig).
Context (qname : Name) (qtype : RrType) (key : QueryKey) (deadline : Z) (skip_empty : bool) (now : Ts).

Lemma grants_handle_response ep b ms le resp rtt :
  grants 0 (handle_response cfg qname skip_empty now ep b ms le resp rtt : M Attempt).
Proof.
  unfold handle_response. destruct (message_parse resp) as [msg|]; [|by apply grants_quiet]. cbn zeta.
  destruct (negb _); [by apply grants_quiet|]. apply grants_bind0.
  - destruct (is_truncated msg && tcp_fallback cfg); [|by apply grants_quiet].
    apply grants_bind0; [apply grants_send|intros; by apply grants_quiet].
  - intros [[tcp_ep m]|]; [by apply grants_quiet|]. unfold judge. repeat case_match; by apply grants_quiet.
Qed.

Lemma grants_attempt ep le : grants 1 (attempt cfg qname qtype key deadline skip_empty now ep le : M Attempt).
Proof.
  unfold attempt. apply (grants_bind 1 0); [lia| |intros []].
  { intros w. unfold charge, spend_subquery. destruct (_ <=? _); unfold spent; cbn; lia. }
  apply grants_bind0; [apply grants_bind0; intros; apply grants_with_rng|intros q].
  apply grants_bind0; [apply grants_instant|intros t].
  destruct (attempt_timeout_ms deadline t (timeout_ms cfg)); [|by apply grants_quiet].
  apply grants_bind0; [apply grants_instant|intros t0]. apply grants_bind0; [apply grants_send|].
  intros [resp|e]; [|by apply grants_quiet]. apply grants_bind0; [apply grants_instant|intros t1].
  apply grants_bind0; [|intros; apply grants_handle_response].
  apply grants_quiet. intros w. unfold charge, spend_bytes. by destruct (_ <? _).
Qed.

(** Each attempt is counted, and the count stops at the limit. *)
Lemma attempts_loop_total n ep total le w o total' le' w' :
  attempts_loop cfg qname qtype key deadline skip_empty now n ep total le w = (o, w') ->
  spent w' - spent w <= Z.max 0 (max_total_attempts cfg - total) /\
  (o = Done (None, total', le') -> spent w' - spent w <= total' - total /\ total <= total').
Proof.
  revert total le w. induction n as [|n IH]; intros total le w E; cbn [attempts_loop] in E.
  { injection E as <- <-. split; [lia|]. intros [= -> ->]. lia. }
  destruct (max_total_attempts cfg <=? total) eqn:Em; bools.
  { injection E as <- <-. split; [lia|]. intros [= -> ->]. lia. }
  pose proof (grants_attempt ep le w) as G. unfold mbind, M_bind in E.
  destruct (attempt _ _ _ _ _ _ _ ep le w) as [[a|e|] w1]; cbn [snd] in G.
  2-3: (injection E as <- <-; split; [lia|done]).
  destruct a as [m1 r1|le1|].
  - injection E as <- <-. split; [lia|done].
  - apply IH in E as [E1 E2]. split; [lia|]. intros Eo. specialize (E2 Eo). lia.
  - injection E as <- <-. split; [lia|]. intros [= <- <-]. lia.
Qed.

Lemma servers_loop_total eps total le w :
  spent (servers_loop cfg qname qtype key deadline skip_empty now eps total le w : _ * World).2 <=
  spent w + Z.max 0 (max_total_attempts cfg - total).
Proof.
  revert total le w. induction eps as [|ep eps IH]; intros total le w; cbn [servers_loop]; [cbn; lia|].
  unfold mbind at 1, M_bind at 1.
  assert (grants 0 (expired deadline : M bool)) as G0
    by (apply grants_bind0; [apply grants_instant|intros; by apply grants_quiet]).
  specialize (G0 w). destruct (expired deadline w) as [[late|e|] w1]; cbn [snd] in *; [|lia..].
  destruct late; [cbn; lia|]. unfold mbind, M_bind.
  destruct (attempts_loop _ _ _ _ _ _ _ _ ep total le w1) as [o w2] eqn:E.
  destruct o as [[[o total'] le']|e|]; cbn [snd].
  - apply (attempts_loop_total _ _ _ _ _ _ total' le') in E as [E1 E2]. destruct o; [cbn; lia|].
    specialize (E2 eq_refl). specialize (IH total' le' w2). lia.
  - apply (attempts_loop_total _ _ _ _ _ _ 0 None) in E as [E1 _]. lia.
  - apply (attempts_loop_total _ _ _ _ _ _ 0 None) in E as [E1 _]. lia.
Qed.
End attempts.

(** C16: Asking a zone's servers, whatever the network does. The question goes to the
    given servers only, over their transport or over TCP, in at most
    [max_total_attempts] attempts of at most two exchanges each, every attempt
    charged to the budget, whose limits stand. A message is returned only if it
    answers a query that was sent, and, unless it came by the TCP retry, only if it
    is no refusal and, where that matters, not empty. *)
Theorem query_servers_contract cfg affinity servers qname qtype key deadline skip_empty w :
  let '(o, w') := query_servers cfg affinity servers qname qtype key deadline skip_empty w in
  o <> OutOfFuel /\
  exists p new, delta (sent_to_server servers) w w' p new /\ zlen new <= 2 * p /\
    p <= Z.max 0 (max_total_attempts cfg) /\
    (forall m rtt, o = Done (m, rtt) -> 1 <= p /\ answers_query skip_empty new m).
Proof.
  pose proof (uses_query_servers cfg affinity servers qname qtype key deadline skip_empty w) as (F & p & new & D & L).
  assert (spent (query_servers cfg affinity servers qname qtype key deadline skip_empty w : _ * World).2 <=
    spent w + Z.max 0 (max_total_attempts cfg)) as T.
  { unfold query_servers. destruct (zlen servers =? 0); [cbn; lia|]. unfold mbind at 1, M_bind at 1, now_wall.
    destruct (clock_now (w_net w)) as [now n]. unfold mbind, M_bind, gets. cbn [snd].
    rewrite servers_loop_total. unfold spent. cbn. lia. }
  pose proof (query_servers_answered cfg affinity servers qname qtype key deadline skip_empty w) as A.
  destruct (query_servers _ _ _ _ _ _ _ _ w) as [o w']. cbn [fst snd] in *. split; [done|].
  exists p, new. split; [done|]. pose proof (d_spent _ _ _ _ _ D). split; [lia|]. split; [lia|].
  intros m rtt ->. destruct (A m rtt w' eq_refl) as (p2 & new2 & D2 & L1 & L2 & Ha).
  pose proof (d_spent _ _ _ _ _ D2). split; [lia|].
  pose proof (d_log _ _ _ _ _ D) as E1. rewrite (d_log _ _ _ _ _ D2) in E1. apply app_inv_tail in E1 as <-. done.
Qed.
End queries.
