(* ===== verification/Walk.v ===== *)
(** * The resolution walk ([src/resolver.rs])

    The iterative resolution from the root down, the lookup of the addresses of
    name servers, which starts walks of its own, and what is put in the cache.
    The recursion is on the nesting of those lookups, bounded by
    [max_ns_depth]; the loop of a walk gets as fuel the subqueries its budget has
    left, and one more round.  Forwarding, signature validation and the
    decision to serve stale data are parameters. *)
From stdpp Require Import gmap.
From S2P Require Import Prelude Wire Prng Name Compress Qtype Edns Bitmap RData Rr Message BTree Time Addr Float64 Float Hosts Budget Rendezvous Upstream RrSet Tier CacheKey Cache Alias Query Engine Cidr Pattern Routing FakeIp Front Servers.

(** ** Helpers *)

(** The name of the last [keep] labels of [qname]. *)
Definition last_labels (qname : Name) (keep : Z) : Name :=
  let skip := label_count qname - keep in
  let out := fold_left push_label (drop (Z.to_nat skip) (labels qname)) [] in
  match from_wire (out ++ [0]) 0 with Ok (n, _) => n | Err _ => qname end.

Definition minimized_name (qname zone : Name) : Name :=
  if label_count qname <=? label_count zone then qname else last_labels qname (label_count zone + 1).

Definition deepen_minimized (qname current : Name) : Name :=
  if label_count qname <=? label_count current then qname else last_labels qname (label_count current + 1).

Definition negative_ttl (soa : Rr) : Z :=
  Z.min (ttl soa) (match rdata soa with RD_Soa _ _ _ _ _ _ minimum => minimum | _ => 0 end).

(** The endpoints in order, each once: [retain] with the set of those seen. *)
Fixpoint dedup_loop (eps seen : list Endpoint) : list Endpoint :=
  match eps with
  | [] => []
  | ep :: eps =>
      if bool_decide (ep ∈ seen) then dedup_loop eps seen else ep :: dedup_loop eps (ep :: seen)
  end.
Definition dedup_endpoints (eps : list Endpoint) : list Endpoint := dedup_loop eps [].

(** ** Root servers ([src/engine.rs]) *)

Definition ROOT_SERVER_V4 : list string :=
  ["198.41.0.4"; "170.247.170.2"; "192.33.4.12"; "199.7.91.13"; "192.203.230.10"; "192.5.5.241";
   "192.112.36.4"; "198.97.190.53"; "192.36.148.17"; "192.58.128.30"; "193.0.14.129"; "199.7.83.42";
   "202.12.27.33"].
Definition ROOT_SERVER_V6 : list string :=
  ["2001:503:ba3e::2:30"; "2801:1b8:10::b"; "2001:500:2::c"; "2001:500:2d::d"; "2001:500:a8::e";
   "2001:500:2f::f"; "2001:500:12::d0d"; "2001:500:1::53"; "2001:7fe::53"; "2001:503:c27::2:30";
   "2001:7fd::1"; "2001:500:9f::42"; "2001:dc3::35"].

Definition iana_root_endpoints : list Endpoint :=
  omap (fun s => (fun ip => mkEndpoint ip 53 Udp) <$> parse_ip (ascii_bytes s)) (ROOT_SERVER_V4 ++ ROOT_SERVER_V6).

Definition root_endpoints (cfg : EngineConfig) : list Endpoint :=
  match root_servers cfg with
  | [] => iana_root_endpoints
  | l => map (fun sa => mkEndpoint sa.1 sa.2 Udp) l
  end.

Example root_count : zlen iana_root_endpoints = 26.
Proof. vm_compute. reflexivity. Qed.

(** ** Configuration and parameters *)

Inductive CachePolicy := Reuse | FreshOnly | Bypass.
#[global] Instance CachePolicy_eq_dec : EqDecision CachePolicy.
Proof. solve_decision. Defined.

(** The address of an [A] or [AAAA] record. *)
Definition rdata_ip (rd : RData) : option IpAddr :=
  match rd with
  | RD_A o => Some (V4 (be_val o))
  | RD_Aaaa o => Some (V6 (be_val o))
  | _ => None
  end.

Definition answer_addresses (res : Resolution) : list IpAddr :=
  omap (fun r => rdata_ip (rdata r)) (res_answers res).

(** The locals of the loop of [iterative_resolve]. *)
Record Walk := mkWalk {
  wk_name : Name;
  wk_answers : list Rr;
  wk_rrsigs : list Rr;
  wk_authorities : list Rr;
  wk_rcode : Rcode;
  wk_ttl : Z;
  wk_zone : Name;
  wk_servers : list Endpoint;
  wk_depth : Z;
  wk_referrals : Z;
  wk_cached_rrsigs : list Rr;
  wk_minimized : option Name;
  wk_scope : option Z }.

Definition set_minimized (m : option Name) (k : Walk) : Walk :=
  mkWalk (wk_name k) (wk_answers k) (wk_rrsigs k) (wk_authorities k) (wk_rcode k) (wk_ttl k) (wk_zone k)
    (wk_servers k) (wk_depth k) (wk_referrals k) (wk_cached_rrsigs k) m (wk_scope k).
Definition set_scope (s : option Z) (k : Walk) : Walk :=
  mkWalk (wk_name k) (wk_answers k) (wk_rrsigs k) (wk_authorities k) (wk_rcode k) (wk_ttl k) (wk_zone k)
    (wk_servers k) (wk_depth k) (wk_referrals k) (wk_cached_rrsigs k) (wk_minimized k) s.
(** Records and signatures added to the answer. *)
Definition add_answers (recs sigs cached : list Rr) (t : Z) (k : Walk) : Walk :=
  mkWalk (wk_name k) (wk_answers k ++ recs) (wk_rrsigs k ++ sigs) (wk_authorities k) (wk_rcode k)
    (Z.min (wk_ttl k) t) (wk_zone k) (wk_servers k) (wk_depth k) (wk_referrals k)
    (wk_cached_rrsigs k ++ cached) (wk_minimized k) (wk_scope k).
(** A negative answer. *)
Definition set_negative (r : Rcode) (soa : option Rr) (k : Walk) : Walk :=
  mkWalk (wk_name k) (wk_answers k) (wk_rrsigs k)
    (wk_authorities k ++ match soa with Some s => [s] | None => [] end) r
    (match soa with Some s => Z.min (wk_ttl k) (negative_ttl s) | None => wk_ttl k end) (wk_zone k)
    (wk_servers k) (wk_depth k) (wk_referrals k) (wk_cached_rrsigs k) (wk_minimized k) (wk_scope k).
Definition set_zone (zone : Name) (servers : list Endpoint) (k : Walk) : Walk :=
  mkWalk (wk_name k) (wk_answers k) (wk_rrsigs k) (wk_authorities k) (wk_rcode k) (wk_ttl k) zone
    servers (wk_depth k) (wk_referrals k) (wk_cached_rrsigs k) None (wk_scope k).
Definition next_referral (k : Walk) : Walk :=
  mkWalk (wk_name k) (wk_answers k) (wk_rrsigs k) (wk_authorities k) (wk_rcode k) (wk_ttl k) (wk_zone k)
    (wk_servers k) (wk_depth k) (wk_referrals k + 1) (wk_cached_rrsigs k) (wk_minimized k) (wk_scope k).

(** The groups of upstream servers; [Fw] is a forwarder ([src/forward.rs]). *)
Record UpstreamGroups (Fw : Type) := mkGroups {
  g_default : list Fw; g_fallback : list Fw; g_extra : list (list Fw) }.
Arguments mkGroups {Fw}.
Arguments g_default {Fw}.
Arguments g_fallback {Fw}.
Arguments g_extra {Fw}.

Definition groups_get {Fw} (g : UpstreamGroups Fw) (id : Z) : option (list Fw) :=
  if id =? 0 then Some (g_default g)
  else if id =? 1 then Some (g_fallback g)
  else get (g_extra g) (id - 2).

Definition has_fallback {Fw} (g : UpstreamGroups Fw) : bool := negb (zlen (g_fallback g) =? 0).
Definition groups_is_empty {Fw} (g : UpstreamGroups Fw) : bool :=
  (zlen (g_default g) =? 0) && (zlen (g_fallback g) =? 0) && forallb (fun l => zlen l =? 0) (g_extra g).
Definition groups_all {Fw} (g : UpstreamGroups Fw) : list Fw := g_default g ++ g_fallback g ++ concat (g_extra g).

(** Errors; the texts of the code name the values. *)
Definition budget_ms_exhausted : Error := mkError Timeout "query budget exhausted during resolution".
Definition cname_loop : Error := internal "CNAME/DNAME loop during resolution".
Definition referral_loop : Error := internal "referral loop during resolution".
Definition out_of_bailiwick : Error := transport "answer out of bailiwick".
Definition not_cname : Error := internal "classify said CNAME but it is not".
Definition not_dname : Error := internal "classify said DNAME but it is not".
Definition bad_dname : Error := wire "bad DNAME synthesis".
Definition referral_not_below : Error := transport "referral not below the zone".
Definition unusable_delegation : Error := transport "refused an unusable delegation".
Definition delegation_depth : Error := mkError NoUpstream "resolution budget exhausted (delegation depth)".
Definition no_usable_servers : Error := mkError NoUpstream "no usable servers for zone".
Definition empty_response : Error := transport "empty response from upstream".
Definition no_group : Error := mkError NoUpstream "no upstream group is responsible".

(** ** The walk *)

Section walk.
Context {S Q R N Fw : Type} `{StabilityOps S, NetworkOps N, RandomSource R, EstimatorOps Q}.
Abbreviation World := (World S Q R N).
Abbreviation M := (M S Q R N).

(** A part of the resolver run beside this resolution: whatever it does, it has a
    budget of its own, and its exchanges are not this resolution's. *)
Definition detached {A} (f : World -> A * World) : M A := fun w =>
  let '(a, w') := f w in
  (Done a, mkWorld (w_cache w') (w_aliases w') (w_selector w') (w_est w') (w_rng w') (w_net w')
             (w_budget w) (w_log w)).

Definition with_cache {A} (f : SemanticCache S -> A * SemanticCache S) : M A := fun w =>
  let '(a, c) := f (w_cache w) in (Done a, set_cache c w).
Definition edit_cache (f : SemanticCache S -> SemanticCache S) : M unit :=
  modify (fun w => set_cache (f (w_cache w)) w).
Definition inputs_for (n : Name) (now : Ts) : M ScoreInputs := gets (fun w => score_inputs (w_est w) n now).

Definition link_alias (n target : Name) (rr_type : RrType) (class : RrClass) (now : Ts) : M unit :=
  modify (fun w => set_aliases (link (w_aliases w) (plain n RrTypes.CNAME class) (plain target rr_type class) now) w).

Section iterate.
Context (cfg : EngineConfig) (affinity : RendezvousKey) (cap : Z).
(** The query, the deadline and the time of the walk. *)
Context (key : QueryKey) (deadline : Z) (now : Ts).
(** [resolve_ns_addresses] at the walk's nesting. *)
Context (resolve_ns : list Name -> M (list Endpoint)).

(** The partition an answer belongs to. *)
Definition partition (k : Walk) : option EcsKey := answer_partition (qk_ecs key) (wk_scope k).

Definition check_limits (k : Walk) : M unit :=
  late ← expired deadline;
  if late : bool then fail budget_ms_exhausted
  else if max_cname_depth cfg <? wk_depth k then fail cname_loop
  else if max_referrals cfg <? wk_referrals k then fail referral_loop
  else mret tt.

(** The cache check while chasing an alias: the fresh record set, if any. *)
Definition cached_target (k : Walk) : M (option RrSet) :=
  if wk_depth k <=? 0 then mret None else
  o ← with_cache (fun c => lookup c (mkCacheKey (wk_name k) (qk_type key) (qk_class key) (partition k)) now);
  mret (match o with
        | Fresh entry => match ce_kind entry with Positive rrset => Some rrset | Negative _ _ _ => None end
        | _ => None
        end).

Definition query_name (k : Walk) : Name :=
  match wk_minimized k with
  | Some q => q
  | None => if qname_minimization cfg then minimized_name (wk_name k) (wk_zone k) else wk_name k
  end.

Definition scope_of_response (resp : Message) : option Z :=
  e ← edns resp; c ← ecs e; Some (scope_prefix c).

Definition answer_arm (recs sigs : list Rr) (k : Walk) : M (Walk + Walk) :=
  let keep := List.filter (fun r => in_bailiwick (name r) (wk_zone k)) recs in
  if zlen keep =? 0 then fail out_of_bailiwick else
  mret (inr (add_answers keep sigs [] (fold_left (fun t r => Z.min t (ttl r)) keep u32_max) k)).

(** The walk turned to an alias's target. *)
Definition follow (target : Name) (k : Walk) : Walk :=
  let restart := negb (is_subdomain_of target (wk_zone k)) || bool_decide (wk_zone k = root) in
  mkWalk target (wk_answers k) (wk_rrsigs k) (wk_authorities k) (wk_rcode k) (wk_ttl k)
    (if restart then root else wk_zone k) (if restart then root_endpoints cfg else wk_servers k)
    (wk_depth k + 1) (wk_referrals k) (wk_cached_rrsigs k) None (wk_scope k).

Definition cname_arm (rec : Rr) (sigs : list Rr) (k : Walk) : M (Walk + Walk) :=
  match rdata rec with
  | RD_Cname target =>
      let k := add_answers [rec] sigs [] (ttl rec) k in
      let set := add_record (rrset_new (name rec) RrTypes.CNAME (qk_class key) (ttl rec)) rec in
      let ck := mkCacheKey (wk_name k) RrTypes.CNAME (qk_class key) (partition k) in
      inputs ← inputs_for (wk_name k) now;
      _ ← edit_cache (fun c => insert_positive c ck set now inputs false);
      _ ← link_alias (wk_name k) target (qk_type key) (qk_class key) now;
      mret (inl (follow target k))
  | _ => fail not_cname
  end.

Definition dname_arm (rec : Rr) (k : Walk) : M (Walk + Walk) :=
  match rdata rec with
  | RD_Dname target =>
      match synthesize_dname_cname (wk_name k) (name rec) target with
      | None => fail bad_dname
      | Some synthesized =>
          let cname := make_cname_record (wk_name k) synthesized (ttl rec) in
          mret (inl (follow synthesized (add_answers [cname] [] [] (ttl rec) k)))
      end
  | _ => fail not_dname
  end.

Definition negative_arm (qn : Name) (r : Rcode) (soa : option Rr) (k : Walk) : M (Walk + Walk) :=
  let soa_ttl := match soa with Some s => negative_ttl s | None => 0 end in
  if is_nxdomain r then
    _ ← match partition k with
        | None => edit_cache (fun c => insert_nxdomain c qn r soa soa_ttl now)
        | Some e =>
            inputs ← inputs_for qn now;
            edit_cache (fun c => insert_negative c (mkCacheKey qn (qk_type key) (qk_class key) (Some e)) r soa
                                   soa_ttl now inputs)
        end;
    mret (inr (set_negative r soa k))
  else
    inputs ← inputs_for qn now;
    _ ← edit_cache (fun c => insert_negative c (mkCacheKey qn (qk_type key) (qk_class key) (partition k)) r soa
                               soa_ttl now inputs);
    if negb (bool_decide (qn = wk_name k))
    then mret (inl (set_minimized (Some (deepen_minimized (wk_name k) qn)) k))
    else mret (inr (set_negative r soa k)).

(** The cached part of a referral: its NS set and the glue below the new zone. *)
Definition cache_referral (new_zone : Name) (ns_set : RrSet) (glue : list Rr) : M unit :=
  inputs ← inputs_for new_zone now;
  edit_cache (fun c =>
    let c := insert_positive c (plain new_zone RrTypes.NS (qk_class key)) ns_set now inputs false in
    fold_left (fun c g =>
      if negb (in_bailiwick (name g) new_zone) then c else
      match from_records [g] cap with
      | Ok set => insert_positive c (plain (name g) (rr_type g) (qk_class key)) set now inputs false
      | Err _ => c
      end) glue c).

Definition glue_endpoints (names : list Name) (zone : Name) (glue : list Rr) : list Endpoint :=
  omap (fun g =>
    if negb (bool_decide (name g ∈ names)) && negb (in_bailiwick (name g) zone) then None
    else (fun ip => mkEndpoint ip (auth_port cfg) Udp) <$> rdata_ip (rdata g)) glue.

Definition referral_arm (new_zone : Name) (ns glue : list Rr) (k : Walk) : M (Walk + Walk) :=
  let k := next_referral k in
  if negb (is_strict_subdomain_of new_zone (wk_zone k)) then fail referral_not_below else
  let names := omap (fun n => match rdata n with RD_Ns x => Some x | _ => None end) ns in
  ns_set ← of_result (map_err (fun e => internal (err_msg e)) (from_records ns cap));
  _ ← cache_referral new_zone ns_set glue;
  let ns_with_glue := zlen (List.filter (fun n => existsb (fun g => bool_decide (name g = n)) glue) names) in
  a ← (fun w => let '(a, b) := admit_referral (w_budget w) (zlen names) (zlen glue) ns_with_glue in
                (Done a, set_budget b w)) : M ReferralAdmission;
  match a with
  | Reject _ => fail unusable_delegation
  | Accept _ _ _ =>
      _ ← charge spend_delegation delegation_depth;
      let glued := glue_endpoints names new_zone glue in
      endpoints ← (match glued with [] => resolve_ns names | _ => mret glued end);
      let endpoints := dedup_endpoints endpoints in
      if zlen endpoints =? 0 then fail no_usable_servers else
      mret (inl (set_zone new_zone endpoints k))
  end.

Definition empty_arm (qn : Name) (k : Walk) : M (Walk + Walk) :=
  if negb (bool_decide (qn = wk_name k))
  then mret (inl (set_minimized (Some (deepen_minimized (wk_name k) qn)) k))
  else fail empty_response.

Definition dispatch (qn : Name) (resp : Message) (k : Walk) : M (Walk + Walk) :=
  match classify_response resp (wk_name k) (qk_type key) (wk_zone k) with
  | RkAnswer recs sigs => answer_arm recs sigs k
  | RkCname rec sigs => cname_arm rec sigs k
  | RkDname rec => dname_arm rec k
  | RkNegative r soa => negative_arm qn r soa k
  | RkReferral zone ns glue => referral_arm zone ns glue k
  | RkEmpty => empty_arm qn k
  end.

(** One round of the loop: [inl] goes on, [inr] breaks. *)
Definition walk_step (k : Walk) : M (Walk + Walk) :=
  _ ← check_limits k;
  cached ← cached_target k;
  match cached with
  | Some rrset => mret (inr (add_answers (records rrset) [] (rrsigs rrset) (rs_ttl rrset) k))
  | None =>
      let qn := query_name k in
      let k := set_minimized None k in
      r ← query_servers cfg affinity (wk_servers k) qn (qk_type key) key deadline (bool_decide (qn = wk_name k));
      _ ← modify (fun w => set_est (observe_upstream (w_est w) (wk_zone k) (f64_of r.2)) w);
      dispatch qn r.1 (set_scope (scope_of_response r.1) k)
  end.

Fixpoint walk_loop (fuel : nat) (k : Walk) : M Walk :=
  match fuel with
  | 0%nat => fun w => (OutOfFuel, w)
  | Datatypes.S fuel =>
      r ← walk_step k;
      match r with inl k => walk_loop fuel k | inr k => mret k end
  end.

Definition walk_start : Walk :=
  mkWalk (qk_name key) [] [] [] Rcodes.NOERROR u32_max root (root_endpoints cfg) 0 0 [] None None.

Definition walk_result (k : Walk) : Resolution :=
  mkResolution (qk_name key) (qk_type key) (qk_class key) (wk_rcode k) (wk_answers k) (wk_authorities k)
    (wk_rrsigs k ++ wk_cached_rrsigs k) false (if wk_ttl k =? u32_max then 0 else wk_ttl k) false false
    (wk_scope k) now.
End iterate.

(** The rounds a walk can make: one per subquery left, and a last one. *)
Definition walk_fuel (w : World) : nat :=
  Datatypes.S (Z.to_nat (max_subqueries (limits (w_budget w)) - subqueries (work (w_budget w)))).

Definition iterative_resolve (cfg : EngineConfig) (affinity : RendezvousKey) (cap : Z) (key : QueryKey)
    (deadline : Z) (resolve_ns : list Name -> M (list Endpoint)) : M Resolution :=
  now ← now_wall;
  fuel ← gets walk_fuel;
  k ← walk_loop cfg affinity cap key deadline now resolve_ns fuel (walk_start cfg key);
  mret (walk_result key now k).
End walk.

(** ** Filling the cache *)

Section cache.
Context {S : Type} `{StabilityOps S}.

(** [groups.entry(..).or_default().push(..)] *)
Definition group_push (g : list ((Name * Z) * list Rr)) (r : Rr) : list ((Name * Z) * list Rr) :=
  let k := (name r, rr_type r) in bt_insert g k (default [] (bt_get g k) ++ [r]).

Definition covered_by (t : RrType) (sig : Rr) : bool :=
  match rdata sig with RD_Rrsig covered _ _ _ _ _ _ _ _ => covered =? t | _ => false end.

Definition set_validated (v : bool) (s : RrSet) : RrSet :=
  mkRrSet (rs_name s) (rs_type s) (rs_class s) (records s) (rrsigs s) (rs_ttl s) v.

(** The insertion of one group. *)
Definition cache_group (cap : Z) (key : QueryKey) (res : Resolution) (now : Ts) (inputs : ScoreInputs)
    (c : SemanticCache S) (g : (Name * Z) * list Rr) : SemanticCache S :=
  if g.1.2 =? RrTypes.RRSIG then c else
  match from_records g.2 cap with
  | Err _ => c
  | Ok set =>
      let set := set_validated (res_validated res) set in
      let set := fold_left (fun s sig => if covered_by g.1.2 sig then add_rrsig s sig else s) (res_rrsigs res) set in
      let ck := mkCacheKey g.1.1 g.1.2 (qk_class key) (answer_partition (qk_ecs key) (ecs_scope res)) in
      insert_positive c ck set now inputs (res_validated res)
  end.

Definition soa_of (res : Resolution) : option Rr :=
  List.find (fun r => rr_type r =? RrTypes.SOA) (res_authorities res).

Definition cache_resolution (cap : Z) (key : QueryKey) (res : Resolution) (now : Ts) (inputs : ScoreInputs)
    (c : SemanticCache S) : SemanticCache S :=
  let groups := fold_left group_push (res_answers res) [] in
  let c := fold_left (cache_group cap key res now inputs) groups c in
  let partition := answer_partition (qk_ecs key) (ecs_scope res) in
  let soa := soa_of res in
  let soa_ttl := match soa with Some s => negative_ttl s | None => 0 end in
  if is_nxdomain (res_rcode res) then
    match partition with
    | None => insert_nxdomain c (res_name res) (res_rcode res) soa soa_ttl now
    | Some e =>
        insert_negative c (mkCacheKey (res_name res) (res_type res) (res_class res) (Some e)) (res_rcode res) soa
          soa_ttl now inputs
    end
  else if zlen (res_answers res) =? 0 then
    insert_negative c (mkCacheKey (res_name res) (res_type res) (res_class res) partition) (res_rcode res) soa
      soa_ttl now inputs
  else c.
End cache.

(** ** Resolving *)

(** What stands before iteration: the groups of upstream servers and what picks
    one of them. *)
Record ForwardPolicy (Fw : Type) := mkForward {
  fp_policy : NameserverPolicy; fp_fallback : FallbackFilter; fp_groups : UpstreamGroups Fw }.
Arguments mkForward {Fw}.
Arguments fp_policy {Fw}.
Arguments fp_fallback {Fw}.
Arguments fp_groups {Fw}.

Definition forward_route {Fw} (p : ForwardPolicy Fw) (n : Name) : option (list Fw) :=
  let groups := fp_groups p in
  if forces_fallback (fp_fallback p) n && has_fallback groups then Some (g_fallback groups) else
  let ruled := match route (fp_policy p) n with Group id => groups_get groups id | Default => None end in
  match ruled with
  | Some ((_ :: _) as g) => Some g
  | _ => match g_default groups with [] => None | g => Some g end
  end.

Section resolve.
Context {S Q R N Fw : Type} `{StabilityOps S, NetworkOps N, RandomSource R, EstimatorOps Q}.
Abbreviation World := (World S Q R N).
Abbreviation M := (M S Q R N).
Context (cfg : EngineConfig) (affinity : RendezvousKey) (cap stale_serve_ttl : Z) (hosts : HostsTable).
Context (fwd : ForwardPolicy Fw).
(** One exchange with a group of forwarders ([forward_once]). *)
Context (forward_once : QueryKey -> list Fw -> World -> result Error Resolution * World).
(** Whether the signatures of a resolution verify ([validate_resolution_detailed],
    whose lookups go through the resolver's public entry). *)
Context (validate : Resolution -> World -> bool * World).
(** Whether an answer built on stale entries may be served, given the entries it
    rests on, each with its depth and whether it is stale (the planner and the risk
    ledger; [Planner.v] gives it). *)
Context (serve_stale : QueryKey -> list (CacheEntry S * Z * bool) -> bool -> Ts -> World -> bool * World).
(** The start of a background refresh of a key and its dependents. *)
Context (refresh_with_dependents : CacheKey -> World -> World).

Definition forward_resolve (key : QueryKey) : M Resolution :=
  let groups := fp_groups fwd in
  let forced := forces_fallback (fp_fallback fwd) (qk_name key) && has_fallback groups in
  match forward_route fwd (qk_name key) with
  | None => fail no_group
  | Some primary =>
      r ← detached (forward_once key primary);
      res ← of_result r;
      if negb forced && has_fallback groups
         && match looks_poisoned (fp_fallback fwd) (answer_addresses res) with Some _ => true | None => false end
      then
        r2 ← detached (forward_once key (g_fallback groups));
        mret (match r2 with Ok fallback => fallback | Err _ => res end)
      else mret res
  end.

(** *** From the cache *)

(** The locals of the loop of [resolve_from_cache]. *)
Record Hit := mkHit {
  h_name : Name;
  h_answers : list Rr;
  h_rrsigs : list Rr;
  h_authorities : list Rr;
  h_rcode : Rcode;
  h_validated : bool;
  h_ttl : Z;
  h_stale : bool;
  h_refresh : list CacheKey;
  h_deps : list (CacheEntry S * Z * bool) }.

(** What every entry on the way leaves in the locals. *)
Definition note_entry (e : CacheEntry S) (stale : bool) (depth t : Z) (h : Hit) : Hit :=
  mkHit (h_name h) (h_answers h) (h_rrsigs h) (h_authorities h) (h_rcode h) (h_validated h && ce_validated e)
    (Z.min (h_ttl h) t) (h_stale h) (h_refresh h) (h_deps h ++ [(e, depth, stale)]).
Definition note_stale (e : CacheEntry S) (h : Hit) : Hit :=
  mkHit (h_name h) (h_answers h) (h_rrsigs h) (h_authorities h) (h_rcode h) (h_validated h) (h_ttl h) true
    (h_refresh h ++ [ce_key e]) (h_deps h).
Definition add_hit_records (recs sigs : list Rr) (h : Hit) : Hit :=
  mkHit (h_name h) (h_answers h ++ recs) (h_rrsigs h ++ sigs) (h_authorities h) (h_rcode h) (h_validated h)
    (h_ttl h) (h_stale h) (h_refresh h) (h_deps h).
Definition hit_target (target : Name) (h : Hit) : Hit :=
  mkHit target (h_answers h) (h_rrsigs h) (h_authorities h) (h_rcode h) (h_validated h) (h_ttl h) (h_stale h)
    (h_refresh h) (h_deps h).
Definition hit_negative (r : Rcode) (soa : option Rr) (h : Hit) : Hit :=
  mkHit (h_name h) (h_answers h) (h_rrsigs h)
    (h_authorities h ++ match soa with Some s => [s] | None => [] end) r (h_validated h) (h_ttl h) (h_stale h)
    (h_refresh h) (h_deps h).
(** One round: the answer is complete, the chain goes on, or the cache cannot
    answer. *)
Inductive HitStep := HitDone (h : Hit) | HitNext (h : Hit) | HitMiss.

(** The data of an entry; the signatures of a stale alias are left out. *)
Definition hit_entry (key : QueryKey) (now : Ts) (e : CacheEntry S) (stale : bool) (h : Hit) : M HitStep :=
  match ce_kind e with
  | Positive rrset =>
      if (rs_type rrset =? RrTypes.CNAME) && negb (qk_type key =? RrTypes.CNAME) then
        match cname_target rrset, list.head (records rrset) with
        | Some target, Some rec =>
            _ ← link_alias (h_name h) target (qk_type key) (qk_class key) now;
            mret (HitNext (hit_target target (add_hit_records [rec] (if stale then [] else rrsigs rrset) h)))
        | _, _ => mret HitMiss
        end
      else mret (HitDone (add_hit_records (records rrset) (rrsigs rrset) h))
  | Negative r soa _ => mret (HitDone (hit_negative r soa h))
  end.

Definition hit_step (key : QueryKey) (policy : CachePolicy) (now : Ts) (depth : Z) (h : Hit) : M HitStep :=
  let current := mkQueryKey (h_name h) (qk_type key) (qk_class key) (qk_ecs key) (want_dnssec key) (qk_cd key) in
  o ← with_cache (fun c => lookup c (cache_key current) now);
  match o with
  | Fresh e => hit_entry key now e false (note_entry e false depth (Z.max (remaining_ttl e now) 1) h)
  | Stale e =>
      if negb (bool_decide (policy = Reuse)) then mret HitMiss else
      hit_entry key now e true (note_stale e (note_entry e true depth (Z.max stale_serve_ttl 1) h))
  | CnameHit target ttl_secs _ _ =>
      o2 ← with_cache (fun c => lookup c (plain (h_name h) RrTypes.CNAME (qk_class key)) now);
      match o2 with
      | Fresh e =>
          let h := note_entry e false depth (Z.max ttl_secs 1) h in
          let h := match ce_kind e with
                   | Positive rrset => match list.head (records rrset) with
                                       | Some rec => add_hit_records [rec] (rrsigs rrset) h
                                       | None => h
                                       end
                   | Negative _ _ _ => h
                   end in
          _ ← link_alias (h_name h) target (qk_type key) (qk_class key) now;
          mret (HitNext (hit_target target h))
      | _ => mret HitMiss
      end
  | NxDomainHit _ soa => mret (HitDone (hit_negative Rcodes.NXDOMAIN soa h))
  | Miss => mret HitMiss
  end.

(** [n] rounds are left before the depth limit ends the walk. *)
Fixpoint hit_loop (n : nat) (key : QueryKey) (policy : CachePolicy) (now : Ts) (depth : Z) (h : Hit) : M (option Hit) :=
  match n with
  | 0%nat => mret None
  | Datatypes.S n =>
      r ← hit_step key policy now depth h;
      match r with
      | HitDone h => mret (Some h)
      | HitNext h => hit_loop n key policy now (depth + 1) h
      | HitMiss => mret None
      end
  end.

Definition hit_resolution (key : QueryKey) (now : Ts) (h : Hit) : Resolution :=
  mkResolution (qk_name key) (qk_type key) (qk_class key) (h_rcode h) (h_answers h) (h_authorities h) (h_rrsigs h)
    (h_validated h) (if h_ttl h =? u32_max then 0 else h_ttl h) true (h_stale h) None now.

Definition resolve_from_cache (key : QueryKey) (now : Ts) (policy : CachePolicy) : M (option Resolution) :=
  o ← hit_loop (Z.to_nat (max_cname_depth cfg + 1)) key policy now 0
        (mkHit (qk_name key) [] [] [] Rcodes.NOERROR true u32_max false [] []);
  match o with
  | None => mret None
  | Some h =>
      if h_stale h then
        ok ← detached (serve_stale key (h_deps h) (h_validated h) now);
        if ok : bool then
          _ ← detached (fun w => (tt, fold_left (fun w k => refresh_with_dependents k w) (h_refresh h) w));
          mret (Some (hit_resolution key now h))
        else mret None
      else mret (Some (hit_resolution key now h))
  end.

(** *** The recursion *)

Definition with_served (now : Ts) (r : Resolution) : Resolution :=
  mkResolution (res_name r) (res_type r) (res_class r) (res_rcode r) (res_answers r) (res_authorities r)
    (res_rrsigs r) (res_validated r) (res_ttl r) (from_cache r) (res_stale r) (ecs_scope r) now.
Definition with_validated (v : bool) (r : Resolution) : Resolution :=
  mkResolution (res_name r) (res_type r) (res_class r) (res_rcode r) (res_answers r) (res_authorities r)
    (res_rrsigs r) v (res_ttl r) (from_cache r) (res_stale r) (ecs_scope r) (served_at r).

(** [resolve_inner] with the name-server lookup of its nesting. *)
Definition resolve_with (resolve_ns : list Name -> M (list Endpoint)) (key : QueryKey) (deadline : Z)
    (policy : CachePolicy) : M Resolution :=
  now ← now_wall;
  cached ← (if bool_decide (policy = Bypass) then mret None else resolve_from_cache key now policy);
  match cached with
  | Some res => mret res
  | None =>
      res ← (match forward_route fwd (qk_name key) with
             | Some _ => forward_resolve key
             | None => iterative_resolve cfg affinity cap key deadline resolve_ns
             end);
      let res := with_served now res in
      res ← (if cfg_dnssec cfg && negb (qk_cd key) && negb (zlen (res_answers res) =? 0)
             then v ← detached (validate res); mret (with_validated v res)
             else mret res);
      inputs ← inputs_for (res_name res) now;
      _ ← edit_cache (cache_resolution cap key res now inputs);
      mret res
  end.

Definition host_key (n : Name) (t : RrType) : QueryKey := mkQueryKey n t RrClasses.IN_ None false false.

(** The addresses pinned for a host. *)
Definition pinned_addresses (n : Name) : list IpAddr :=
  flat_map (fun t => match hosts_answer hosts n t with
                     | Some recs => omap (fun r => rdata_ip (rdata r)) recs
                     | None => []
                     end) [RrTypes.A; RrTypes.AAAA].

(** The loop over the two address types. *)
Fixpoint host_loop (resolve : QueryKey -> M Resolution) (n : Name) (types : list RrType) : M (list IpAddr) :=
  match types with
  | [] => mret []
  | t :: types =>
      r ← catch (resolve (host_key n t));
      let out := match r with Ok res => answer_addresses res | Err _ => [] end in
      match out with [] => host_loop resolve n types | _ => mret out end
  end.

Definition resolve_host_with (resolve : QueryKey -> M Resolution) (n : Name) : M (option (list IpAddr)) :=
  if hosts_contains hosts n then
    mret (match pinned_addresses n with [] => None | out => Some out end)
  else
    out ← host_loop resolve n [RrTypes.A; RrTypes.AAAA];
    mret (match out with [] => None | _ => Some out end).

(** The loop over the name servers. *)
Fixpoint ns_loop (resolve : QueryKey -> M Resolution) (deadline : Z) (names : list Name) (endpoints : list Endpoint)
    : M (list Endpoint) :=
  match names with
  | [] => mret endpoints
  | n :: names =>
      late ← expired deadline;
      if late : bool then mret endpoints else
      ok ← catch (charge (fun b => spend_ns_address_lookup b 1) no_usable_servers);
      match ok with
      | Err _ => mret endpoints
      | Ok _ =>
          ips ← resolve_host_with resolve n;
          let endpoints := endpoints ++ map (fun ip => mkEndpoint ip (auth_port cfg) Udp) (default [] ips) in
          if 16 <=? zlen endpoints then mret endpoints else ns_loop resolve deadline names endpoints
      end
  end.

(** [levels] is how much deeper name-server lookups may nest:
    [max_ns_depth - ns_depth]. *)
Fixpoint resolve_ns_addresses (levels : nat) (deadline : Z) (names : list Name) : M (list Endpoint) :=
  match levels with
  | 0%nat => mret []
  | Datatypes.S levels =>
      ns_loop (fun key => resolve_with (resolve_ns_addresses levels deadline) key deadline FreshOnly) deadline names []
  end.

Definition resolve_inner (ns_depth : Z) (key : QueryKey) (deadline : Z) (policy : CachePolicy) : M Resolution :=
  resolve_with (resolve_ns_addresses (Z.to_nat (max_ns_depth cfg - ns_depth)) deadline) key deadline policy.

(** [resolve_host_addresses], for callers outside a walk. *)
Definition resolve_host_addresses (ns_depth : Z) (n : Name) (deadline : Z) : M (option (list IpAddr)) :=
  resolve_host_with (fun key => resolve_inner ns_depth key deadline FreshOnly) n.
End resolve.

(** ** Query-name minimisation *)

(** The last [n] labels: all of them when there are no more. *)
Definition suffix (n : nat) (ls : list (list Z)) : list (list Z) := drop (length ls - n) ls.

Lemma suffix_wf n ls : wf_labels ls -> wf_labels (suffix n ls).
Proof.
  unfold suffix. generalize (length ls - n)%nat as m. intros m (Hok & Hlow & Hlen & Hn).
  rewrite <- (take_drop m ls) in Hok, Hlow, Hlen, Hn. rewrite enc_labels_app in Hlen.
  apply Forall_app in Hok as [_ ?]. apply Forall_app in Hlow as [_ ?].
  unfold zlen in *. rewrite length_app in Hlen, Hn.
  split; [done|]. split; [done|]. unfold zlen in *; split; lia.
Qed.

Lemma last_labels_suffix n ls : wf_labels ls -> (n <= length ls)%nat ->
  last_labels (of_labels ls) (Z.of_nat n) = of_labels (suffix n ls).
Proof.
  intros W Hn. destruct (suffix_wf n ls W) as (Sok & Slow & Slen & Sn). destruct W as (Hok & _ & _ & _).
  unfold last_labels, label_count. rewrite labels_of_labels by done. cbn zeta.
  replace (Z.to_nat (zlen ls - Z.of_nat n)) with (length ls - n)%nat by (unfold zlen; lia).
  fold (suffix n ls). rewrite fold_push_label by done. cbn [app].
  change (enc_labels (suffix n ls) ++ [0]) with (as_bytes (of_labels (suffix n ls))).
  by rewrite (proj2 (from_wire_of_labels (suffix n ls) Sok Slow ltac:(lia)) (conj Slen Sn)).
Qed.

Lemma one_label_more n ls : wf_labels ls ->
  (if zlen ls <=? Z.of_nat n then of_labels ls else last_labels (of_labels ls) (Z.of_nat n + 1))
  = of_labels (suffix (S n) ls).
Proof.
  intros W. destruct (zlen ls <=? Z.of_nat n) eqn:E.
  - unfold suffix. replace (length ls - S n)%nat with 0%nat by (unfold zlen in E; lia). done.
  - replace (Z.of_nat n + 1) with (Z.of_nat (S n)) by lia. apply last_labels_suffix; [done|]. unfold zlen in E. lia.
Qed.

Lemma suffix_length n ls : length (suffix n ls) = Nat.min n (length ls).
Proof. unfold suffix. rewrite length_drop. lia. Qed.

Lemma suffix_min n ls : suffix (S (Nat.min n (length ls))) ls = suffix (S n) ls.
Proof. unfold suffix. f_equal. lia. Qed.

Lemma deepen_suffix n ls : wf_labels ls ->
  deepen_minimized (of_labels ls) (of_labels (suffix n ls)) = of_labels (suffix (S n) ls).
Proof.
  intros W. pose proof (proj1 W) as L. pose proof (proj1 (suffix_wf n ls W)) as Ls.
  rewrite <- (suffix_min n), <- suffix_length. remember (suffix n ls) as s eqn:E. clear E.
  unfold deepen_minimized, label_count. rewrite (labels_of_labels ls L), (labels_of_labels s Ls).
  apply (one_label_more _ _ W).
Qed.

(** C32: What a zone's servers learn of the query name: its last labels, one more than
    the zone has, and after [n] answers without data [n] labels more; the whole
    name once there are no more, after which deepening changes nothing. *)
Theorem minimisation_exact ls zs n :
  wf_labels ls -> wf_labels zs ->
  Nat.iter n (deepen_minimized (of_labels ls)) (minimized_name (of_labels ls) (of_labels zs))
  = of_labels (suffix (S (length zs) + n) ls).
Proof.
  intros W Wz. pose proof (proj1 W) as L. pose proof (proj1 Wz) as Lz. induction n as [|n IH].
  - change (Nat.iter 0 ?f ?x) with x. unfold minimized_name, label_count.
    rewrite (labels_of_labels ls L), (labels_of_labels zs Lz), Nat.add_0_r. apply (one_label_more _ _ W).
  - replace (S (length zs) + S n)%nat with (S (S (length zs) + n)) by lia.
    change (Nat.iter (S n) ?f ?x) with (f (Nat.iter n f x)). rewrite IH. apply deepen_suffix, W.
Qed.

Lemma minimisation_exact_witness :
  let ls := [[119]; [101]; [99]] in
  map (fun n => Nat.iter n (deepen_minimized (of_labels ls)) (minimized_name (of_labels ls) (of_labels [[99]]))) [0%nat; 1%nat; 2%nat]
  = [of_labels [[101]; [99]]; of_labels ls; of_labels ls].
Proof.
  intros ls. assert (wf_labels ls) as W by (repeat split; repeat constructor; done).
  assert (wf_labels [[99]]) as Wz by (repeat split; repeat constructor; done).
  cbn [map]. rewrite !(minimisation_exact ls [[99]] _ W Wz). reflexivity.
Defined.

(** ** Termination and the work of a resolution *)

Section work.
Context {S Q R N Fw : Type} `{StabilityOps S, NetworkOps N, RandomSource R, EstimatorOps Q}.
Abbreviation World := (World S Q R N).
Abbreviation M := (M S Q R N).
Abbreviation anyone := (fun _ : Sent => True).

Lemma uses_anyone {A} P c (m : M A) : uses P c m -> uses anyone c m.
Proof.
  intros H3 w. destruct (H3 w) as (F & p & new & [] & L). split; [done|]. exists p, new. split; [|done].
  constructor; try done. apply List.Forall_forall. done.
Qed.

Lemma uses_with_cache {A} P (f : SemanticCache S -> A * SemanticCache S) : uses P 0 (with_cache f : M A).
Proof. apply uses_quiet. intros w. unfold with_cache. by destruct (f (w_cache w)). Qed.
Lemma uses_edit_cache P f : uses P 0 (edit_cache f : M unit).
Proof. by apply uses_modify. Qed.
Lemma uses_inputs_for P n now : uses P 0 (inputs_for n now : M ScoreInputs).
Proof. apply uses_gets. Qed.
Lemma uses_link_alias P n t ty c now : uses P 0 (link_alias n t ty c now : M unit).
Proof. by apply uses_modify. Qed.
Lemma uses_detached {A} P (f : World -> A * World) : uses P 0 (detached f).
Proof. apply uses_quiet. intros w. unfold detached. by destruct (f w). Qed.
Lemma uses_spend_delegation P e : uses P 0 (charge spend_delegation e : M Z).
Proof. apply uses_charge. intros b. unfold spend_delegation. by destruct (_ <=? _). Qed.
Lemma uses_spend_lookup P n e : uses P 0 (charge (fun b => spend_ns_address_lookup b n) e : M unit).
Proof. apply uses_charge. intros b. unfold spend_ns_address_lookup. by destruct (_ <? _). Qed.
Lemma uses_admit P ns glue wg : uses P 0 ((fun w => let '(a, b) := admit_referral (w_budget w) ns glue wg in
  (Done a, set_budget b w)) : M ReferralAdmission).
Proof.
  assert (forall b, limits (admit_referral b ns glue wg).2 = limits b /\
    subqueries (work (admit_referral b ns glue wg).2) = subqueries (work b)) as E
    by (intros b; unfold admit_referral; by repeat case_match).
  intros w. specialize (E (w_budget w)). destruct (admit_referral (w_budget w) ns glue wg) as [a b].
  destruct E as [E1 E2]. cbn [snd] in *. split; [done|]. exists 0, []. split; [|done].
  constructor; unfold spent; cbn; [done|lia|done|by left|done|constructor].
Qed.
#[local] Hint Resolve uses_with_cache uses_edit_cache uses_inputs_for uses_link_alias uses_detached
  uses_spend_delegation uses_spend_lookup uses_admit uses_now_wall uses_expired : uses.

Ltac use_binds := repeat first [ progress eauto 2 with uses | apply uses_bind0; [|intros] | case_match ].

Section iterate.
Context (cfg : EngineConfig) (affinity : RendezvousKey) (cap : Z).
Context (key : QueryKey) (deadline : Z) (now : Ts).
Context (resolve_ns : list Name -> M (list Endpoint)).
Context (Hns : forall names, uses anyone 0 (resolve_ns names)).

Lemma uses_check_limits k : uses anyone 0 (check_limits cfg deadline k : M unit).
Proof. unfold check_limits. use_binds. Qed.

Lemma uses_cached_target k : uses anyone 0 (cached_target key now k : M _).
Proof. unfold cached_target. use_binds. Qed.

Lemma uses_referral_arm zone ns glue k :
  uses anyone 0 (referral_arm cfg cap key now resolve_ns zone ns glue k : M _).
Proof.
  unfold referral_arm. cbn zeta. destruct (negb _); [apply uses_fail|].
  apply uses_bind0; [apply uses_of_result|intros ns_set].
  apply uses_bind0; [unfold cache_referral; use_binds|intros _].
  apply uses_bind0; [apply uses_admit|intros [? ? ?|?]]; [|apply uses_fail].
  apply uses_bind0; [apply uses_spend_delegation|intros _]. apply uses_bind0.
  - destruct (glue_endpoints _ _ _ _); [apply Hns|apply uses_ret].
  - intros eps. destruct (_ =? 0); [apply uses_fail|apply uses_ret].
Qed.

Lemma uses_dispatch qn resp k : uses anyone 0 (dispatch cfg cap key now resolve_ns qn resp k : M _).
Proof.
  unfold dispatch. destruct (classify_response _ _ _ _) as [recs sigs|rec sigs|rec|r soa|zone ns glue|].
  - unfold answer_arm. use_binds.
  - unfold cname_arm. use_binds.
  - unfold dname_arm. use_binds.
  - unfold negative_arm. use_binds.
  - apply uses_referral_arm.
  - unfold empty_arm. use_binds.
Qed.

Lemma uses_walk_step k : uses anyone 0 (walk_step cfg affinity cap key deadline now resolve_ns k : M _).
Proof.
  unfold walk_step. apply uses_bind0; [apply uses_check_limits|intros _].
  apply uses_bind0; [apply uses_cached_target|intros [rrset|]]; [apply uses_ret|]. cbn zeta.
  apply uses_bind0; [eapply uses_anyone, uses_query_servers|intros r].
  apply uses_bind0; [by apply uses_modify|intros _]. apply uses_dispatch.
Qed.

Lemma uses_spent {A} c (m : M A) w o w' : uses anyone c m -> m w = (o, w') ->
  limits (w_budget w') = limits (w_budget w) /\ spent w <= spent w' /\ (spent w' = spent w \/ spent w' <= allowance w).
Proof.
  intros Hm E. destruct (Hm w) as (_ & p & new & [L Sp Hp G _ _] & _). rewrite E in *. cbn [snd] in *.
  split; [done|]. split; [lia|]. destruct G as [->|G]; [left; lia|by right].
Qed.

(** A round that goes on was paid for by a subquery. *)
Lemma walk_step_spends k w k' w' :
  walk_step cfg affinity cap key deadline now resolve_ns k w = (Done (inl k'), w') ->
  spent w < spent w' /\ spent w' <= allowance w /\ limits (w_budget w') = limits (w_budget w).
Proof.
  unfold walk_step. intros E. apply bind_done in E as ([] & w1 & E1 & E).
  apply (uses_spent 0) in E1 as (L1 & S1 & G1); [|apply uses_check_limits].
  apply bind_done in E as (cached & w2 & E2 & E).
  apply (uses_spent 0) in E2 as (L2 & S2 & G2); [|apply uses_cached_target].
  destruct cached as [rrset|]; [done|]. cbn zeta in E. apply bind_done in E as ([m rtt] & w3 & E3 & E).
  apply query_servers_answered in E3 as (p & new & [L3 S3 _ G3 _ _] & Hp & _).
  apply bind_done in E as (u & w4 & [= <- <-] & E).
  apply (uses_spent 0) in E as (L4 & S4 & G4); [|apply uses_dispatch].
  change (spent (set_est _ w3)) with (spent w3) in *. change (allowance (set_est _ w3)) with (allowance w3) in *.
  change (w_budget (set_est _ w3)) with (w_budget w3) in *.
  unfold allowance in *. rewrite L3, L2, L1 in *. split; [lia|]. split; [|congruence]. lia.
Qed.

Lemma walk_loop_uses fuel k w : Z.max 0 (allowance w - spent w) < Z.of_nat fuel ->
  let m := walk_loop cfg affinity cap key deadline now resolve_ns fuel k in
  (m w).1 <> OutOfFuel /\ exists p new, delta anyone w (m w).2 p new /\ zlen new <= 2 * p.
Proof.
  cbn zeta. revert k w. induction fuel as [|fuel IH]; intros k w Hf; [lia|]. cbn [walk_loop]. unfold mbind, M_bind.
  pose proof (walk_step_spends k w) as Sp. destruct (uses_walk_step k w) as (F & p & new & D & L).
  destruct (walk_step _ _ _ _ _ _ _ k w) as [[[k'|k']|e|] w1]; cbn [fst snd] in *; try done.
  - destruct (Sp k' w1 eq_refl) as (S1 & S2 & S3).
    destruct (IH k' w1) as (F' & p' & new' & D' & L'); [unfold allowance in *; rewrite S3; lia|].
    split; [done|]. exists (p + p'), (new' ++ new). split; [by eapply delta_trans|lens].
  - split; [done|]. exists p, new. split; [done|lia].
  - split; [done|]. exists p, new. split; [done|lia].
Qed.

End iterate.

(** The fuel of a walk is enough. *)
Lemma uses_iterative_resolve cfg affinity cap key deadline (resolve_ns : list Name -> M (list Endpoint)) :
  (forall names, uses anyone 0 (resolve_ns names)) ->
  uses anyone 0 (iterative_resolve cfg affinity cap key deadline resolve_ns : M _).
Proof.
  intros Hns. unfold iterative_resolve. apply uses_bind0; [apply uses_now_wall|]. intros now w.
  unfold mbind at 1, M_bind at 1, gets. cbn [fst snd].
  destruct (walk_loop_uses cfg affinity cap key deadline now resolve_ns Hns (walk_fuel w) (walk_start cfg key) w)
    as (F & p & new & D & L); [unfold walk_fuel, allowance, spent; lia|].
  unfold mbind, M_bind. destruct (walk_loop _ _ _ _ _ _ _ _ _ w) as [[k|e|] w1]; cbn [fst snd] in *; try done;
    (split; [done|]); exists p, new; (split; [done|lia]).
Qed.

Section resolve.
Context (cfg : EngineConfig) (affinity : RendezvousKey) (cap stale_serve_ttl : Z) (hosts : HostsTable).
Context (fwd : ForwardPolicy Fw).
Context (forward_once : QueryKey -> list Fw -> World -> result Error Resolution * World).
Context (validate : Resolution -> World -> bool * World).
Context (serve_stale : QueryKey -> list (CacheEntry S * Z * bool) -> bool -> Ts -> World -> bool * World).
Context (refresh : CacheKey -> World -> World).
Abbreviation resolve_with := (resolve_with cfg affinity cap stale_serve_ttl fwd forward_once validate serve_stale refresh).
Abbreviation resolve_ns_addresses :=
  (resolve_ns_addresses cfg affinity cap stale_serve_ttl hosts fwd forward_once validate serve_stale refresh).

Lemma uses_hit_loop n key policy now depth h :
  uses anyone 0 (hit_loop stale_serve_ttl n key policy now depth h : M _).
Proof.
  revert depth h. induction n as [|n IH]; intros depth h; cbn [hit_loop]; [apply uses_ret|].
  apply uses_bind0; [unfold hit_step, hit_entry; use_binds|]. intros []; eauto with uses.
Qed.

Lemma uses_resolve_from_cache key now policy :
  uses anyone 0 (resolve_from_cache cfg stale_serve_ttl serve_stale refresh key now policy : M _).
Proof.
  unfold resolve_from_cache. apply uses_bind0; [apply uses_hit_loop|]. intros [h|]; [|apply uses_ret]. use_binds.
Qed.

Lemma uses_resolve_with (resolve_ns : list Name -> M (list Endpoint)) key deadline policy :
  (forall names, uses anyone 0 (resolve_ns names)) -> uses anyone 0 (resolve_with resolve_ns key deadline policy : M _).
Proof.
  intros Hns. unfold Walk.resolve_with. apply uses_bind0; [apply uses_now_wall|]. intros now.
  apply uses_bind0; [destruct (bool_decide _); [apply uses_ret|apply uses_resolve_from_cache]|].
  intros [res|]; [apply uses_ret|]. apply uses_bind0.
  - destruct (forward_route fwd (qk_name key)); [unfold forward_resolve; use_binds|by apply uses_iterative_resolve].
  - intros res. cbn zeta. use_binds.
Qed.

Lemma uses_ns_loop (resolve : QueryKey -> M Resolution) deadline names eps :
  (forall key, uses anyone 0 (resolve key)) -> uses anyone 0 (ns_loop cfg hosts resolve deadline names eps : M _).
Proof.
  intros Hr. revert eps. induction names as [|n names IH]; intros eps; cbn [ns_loop]; [apply uses_ret|].
  apply uses_bind0; [apply uses_expired|]. intros late. destruct late; [apply uses_ret|].
  apply uses_bind0; [apply uses_catch, uses_spend_lookup|]. intros [|]; [|apply uses_ret].
  apply uses_bind0; [|intros ips; cbn zeta; case_match; eauto with uses].
  unfold resolve_host_with. destruct (hosts_contains hosts n); [apply uses_ret|].
  apply uses_bind0; [|intros; apply uses_ret]. generalize [RrTypes.A; RrTypes.AAAA].
  intros ts. induction ts as [|t ts IHt]; cbn [host_loop]; [apply uses_ret|].
  apply uses_bind0; [by apply uses_catch|]. intros r. cbn zeta. case_match; eauto with uses.
Qed.

Lemma uses_resolve_ns levels deadline names : uses anyone 0 (resolve_ns_addresses levels deadline names : M _).
Proof.
  revert names. induction levels as [|levels IH]; intros names; cbn; [apply uses_ret|].
  apply uses_ns_loop. intros key. by apply uses_resolve_with.
Qed.

End resolve.
End work.

(** ** What a walk answers *)

(** Alias records leading from a name to another. *)
Inductive alias_chain : Name -> list Rr -> Name -> Prop :=
| chain_nil n : alias_chain n [] n
| chain_cons r t rs m : rr_type r = RrTypes.CNAME -> rdata r = RD_Cname t -> alias_chain t rs m ->
    alias_chain (name r) (r :: rs) m.

Lemma alias_chain_snoc a rs r t : alias_chain a rs (name r) -> rr_type r = RrTypes.CNAME -> rdata r = RD_Cname t ->
  alias_chain a (rs ++ [r]) t.
Proof.
  intros Hc Ht Hr. remember (name r) as b eqn:Eb. induction Hc as [n|r' t' rs m Ht' Hr' Hc IH]; cbn.
  - rewrite Eb. eapply chain_cons; [done|exact Hr|constructor].
  - eapply chain_cons; [done|exact Hr'|auto].
Qed.

Lemma classify_alias msg n t zone rec sigs : classify_response msg n t zone = RkCname rec sigs ->
  name rec = n /\ rr_type rec = RrTypes.CNAME.
Proof.
  unfold classify_response, scan_answers. rewrite scan_spec. cbn [sc_data sc_cname sc_dname sc_rrsigs app or_find].
  destruct (rcode msg =? 3); [done|]. destruct (List.filter (is_data n t) (answers msg)); [|done].
  destruct (List.find (is_alias n t) (answers msg)) as [c|] eqn:E; [|by repeat case_match]. intros [= <- <-].
  apply List.find_some in E as [_ E]. unfold is_alias in E. bools. by rewrite bool_decide_eq_true in *.
Qed.

Lemma classify_answer msg n t zone recs sigs : classify_response msg n t zone = RkAnswer recs sigs ->
  Forall (fun r => name r = n /\ rr_type r = t) recs.
Proof.
  unfold classify_response, scan_answers. rewrite scan_spec. cbn [sc_data sc_cname sc_dname sc_rrsigs app or_find].
  destruct (rcode msg =? 3); [done|]. destruct (List.filter (is_data n t) (answers msg)) as [|r rs] eqn:E; [by repeat case_match|].
  intros [= <- <-]. rewrite <- E. apply List.Forall_forall. intros x Hx. apply filter_In in Hx as [_ Hx].
  unfold is_data in Hx. bools. by rewrite bool_decide_eq_true in *.
Qed.

Section answers.
Context {S Q R N Fw : Type} `{StabilityOps S, NetworkOps N, RandomSource R, EstimatorOps Q}.
Abbreviation World := (World S Q R N).
Abbreviation M := (M S Q R N).
Context (cfg : EngineConfig) (affinity : RendezvousKey) (cap : Z).
Context (key : QueryKey) (deadline : Z) (now : Ts).
Context (resolve_ns : list Name -> M (list Endpoint)).

(** Between rounds the answers are the aliases followed so far. *)
Record walk_ok (k : Walk) : Prop := {
  ko_chain : alias_chain (qk_name key) (wk_answers k) (wk_name k);
  ko_depth : zlen (wk_answers k) = wk_depth k;
  ko_ttl : Forall (fun r => wk_ttl k <= ttl r) (wk_answers k);
  ko_max : wk_ttl k <= u32_max;
  ko_rcode : wk_rcode k = Rcodes.NOERROR }.

(** The data that ends the chain: of the queried type at the last name, or what
    the cache held fresh for it. *)
Definition chain_data (chain data : list Rr) (final : Name) (t : Z) : Prop :=
  Forall (fun r => name r = final /\ rr_type r = qk_type key /\ t <= ttl r) data \/
  (1 <= zlen chain /\ exists (c c' : SemanticCache S) partition e rs,
     lookup c (mkCacheKey final (qk_type key) (qk_class key) partition) now = (Fresh e, c') /\
     ce_kind e = Positive rs /\ data = records rs /\ t <= rs_ttl rs).

Definition walk_done (k : Walk) : Prop := exists chain data final,
  wk_answers k = chain ++ data /\ alias_chain (qk_name key) chain final /\
  zlen chain <= max_cname_depth cfg /\ Forall (fun r => wk_ttl k <= ttl r) chain /\
  chain_data chain data final (wk_ttl k) /\ (data <> [] -> wk_rcode k = Rcodes.NOERROR) /\ wk_ttl k <= u32_max.

Lemma walk_ok_minimized m k : walk_ok k -> walk_ok (set_minimized m k).
Proof. by intros []. Qed.
Lemma walk_ok_scope s k : walk_ok k -> walk_ok (set_scope s k).
Proof. by intros []. Qed.

Lemma walk_ok_negative r soa k : walk_ok k -> wk_depth k <= max_cname_depth cfg -> walk_done (set_negative r soa k).
Proof.
  intros [C D T X E] Hd. assert (wk_ttl (set_negative r soa k) <= wk_ttl k) as Ht by (destruct soa; cbn; lia).
  exists (wk_answers k), [], (wk_name k). rewrite app_nil_r. split; [done|]. split; [done|]. split; [lia|].
  split; [eapply List.Forall_impl; [|exact T]; cbn beta; intros; lia|]. split; [by left|]. split; [done|lia].
Qed.

(** An alias record put at the end. *)
Lemma walk_ok_follow rec sigs target k : walk_ok k -> name rec = wk_name k -> rr_type rec = RrTypes.CNAME ->
  rdata rec = RD_Cname target -> walk_ok (follow cfg target (add_answers [rec] sigs [] (ttl rec) k)).
Proof.
  intros [C D T X E] Hn Ht Hr. constructor; cbn [follow add_answers wk_answers wk_name wk_depth wk_ttl wk_rcode].
  - apply alias_chain_snoc; [by rewrite Hn|done|done].
  - lens.
  - apply Forall_app. split; [eapply List.Forall_impl; [|exact T]; cbn; intros; lia|repeat constructor; lia].
  - lia.
  - done.
Qed.

Lemma fold_min_ttl recs t : let m := fold_left (fun t r => Z.min t (ttl r)) recs t in
  m <= t /\ Forall (fun r => m <= ttl r) recs.
Proof.
  cbn zeta. revert t. induction recs as [|r recs IH]; intros t; cbn [fold_left]; [split; [lia|constructor]|].
  destruct (IH (Z.min t (ttl r))) as [L F]. split; [lia|]. constructor; [lia|done].
Qed.

Lemma dispatch_ok qn resp k w r w' : walk_ok k -> wk_depth k <= max_cname_depth cfg ->
  dispatch cfg cap key now resolve_ns qn resp k w = (Done r, w') ->
  match r with inl k' => walk_ok k' | inr k' => walk_done k' end.
Proof.
  intros Ok Hd. unfold dispatch. destruct (classify_response resp _ _ _) as [recs sigs|rec sigs|rec|rc soa|zone ns glue|] eqn:Ec.
  - unfold answer_arm. set (keep := List.filter _ recs). destruct (zlen keep =? 0); [done|]. intros [= <- <-].
    apply classify_answer in Ec. destruct Ok as [C D T X E]. destruct (fold_min_ttl keep u32_max) as [L F].
    exists (wk_answers k), keep, (wk_name k). cbn [add_answers wk_answers wk_ttl wk_rcode]. split; [done|].
    split; [done|]. split; [lia|]. split; [eapply List.Forall_impl; [|exact T]; cbn; intros; lia|].
    split; [|split; [done|lia]]. left. apply List.Forall_forall. intros x Hx.
    rewrite List.Forall_forall in F, Ec. pose proof (F x Hx). apply filter_In in Hx as [Hx _].
    destruct (Ec x Hx). split; [done|]. split; [done|lia].
  - apply classify_alias in Ec as [En Et]. unfold cname_arm. destruct (rdata rec) eqn:Er; try done. intros E.
    repeat (apply bind_done in E as (? & ? & _ & E)). injection E as <- <-. by apply walk_ok_follow.
  - unfold dname_arm. destruct (rdata rec); try done. destruct (synthesize_dname_cname _ _ _) as [syn|]; [|done].
    intros [= <- <-]. by apply (walk_ok_follow (make_cname_record (wk_name k) syn (ttl rec)) []).
  - unfold negative_arm. destruct (is_nxdomain rc); intros E;
      repeat (apply bind_done in E as (? & ? & _ & E)); [injection E as <- <-; by apply walk_ok_negative|].
    destruct (negb _); injection E as <- <-; [by apply walk_ok_minimized|by apply walk_ok_negative].
  - unfold referral_arm. cbn zeta. destruct (negb _); [done|]. intros E. apply bind_done in E as (? & ? & _ & E).
    apply bind_done in E as (? & ? & _ & E). apply bind_done in E as (a & ? & _ & E). destruct a; [|done].
    apply bind_done in E as (? & ? & _ & E). apply bind_done in E as (? & ? & _ & E). destruct (_ =? 0); [done|].
    injection E as <- <-. by destruct Ok.
  - unfold empty_arm. destruct (negb _); [|done]. intros [= <- <-]. by apply walk_ok_minimized.
Qed.

Lemma walk_step_ok k w r w' : walk_ok k ->
  walk_step cfg affinity cap key deadline now resolve_ns k w = (Done r, w') ->
  match r with inl k' => walk_ok k' | inr k' => walk_done k' end.
Proof.
  intros Ok E. unfold walk_step in E. apply bind_done in E as ([] & w1 & E1 & E).
  assert (wk_depth k <= max_cname_depth cfg) as Hd.
  { unfold check_limits in E1. apply bind_done in E1 as (late & ? & _ & E1). destruct late; [done|].
    destruct (_ <? wk_depth k) eqn:Ed; [done|]. by bools. }
  apply bind_done in E as (cached & w2 & E2 & E). destruct cached as [rs|].
  - injection E as <- <-. unfold cached_target in E2. destruct (wk_depth k <=? 0) eqn:Ez; [done|]. bools.
    apply bind_done in E2 as (o & ? & El & E2). unfold with_cache in El.
    destruct (lookup (w_cache w1) _ now) as [o' c'] eqn:Elk. injection El as <- <-.
    destruct o' as [e|?|? ? ? ?|? ?|]; try done. destruct (ce_kind e) as [rrset|] eqn:Ek; [|done]. injection E2 as <- <-.
    destruct Ok as [C D T X E]. exists (wk_answers k), (records rrset), (wk_name k).
    cbn [add_answers wk_answers wk_ttl wk_rcode]. split; [done|]. split; [done|]. split; [lia|].
    split; [eapply List.Forall_impl; [|exact T]; cbn beta; intros; lia|]. split; [|split; [done|lia]].
    right. split; [lia|]. eexists _, _, _, e, rrset. split; [exact Elk|]. split; [done|]. split; [done|lia].
  - cbn zeta in E. apply bind_done in E as ([m rtt] & w3 & _ & E). apply bind_done in E as (? & ? & _ & E).
    eapply dispatch_ok; [..|exact E]; [by apply walk_ok_scope, walk_ok_minimized|done].
Qed.

Lemma walk_loop_done fuel k w k' w' : walk_ok k ->
  walk_loop cfg affinity cap key deadline now resolve_ns fuel k w = (Done k', w') -> walk_done k'.
Proof.
  revert k w. induction fuel as [|fuel IH]; intros k w Ok E; cbn [walk_loop] in E; [done|].
  apply bind_done in E as (r & w1 & E1 & E). apply walk_step_ok in E1; [|done].
  destruct r; [by eapply IH|]. by injection E as <- <-.
Qed.
End answers.

Section answer_theorem.
Context {S Q R N : Type} `{StabilityOps S, NetworkOps N, RandomSource R, EstimatorOps Q}.

End answer_theorem.

(** ** A small network *)

Section demo.
(** What a server says to a question: the answer, authority and additional sections
    and the response code, or nothing. *)
Context (serve : Endpoint -> Question -> option (Rcode * bool * (list Rr * list Rr * list Rr))).

(** A millisecond passes with every look at the clock. *)
Definition demo_net : NetworkOps Z := {|
  instant t := (t, t + 1000000);
  clock_now t := (1700000000000000000 + t, t);
  exchange t ep b _ :=
    (match message_parse b with
     | Ok q =>
         match question q with
         | Some qu =>
             match serve ep qu with
             | Some (rc, tc, (an, ns, ar)) =>
                 to_bytes (mkMessage (id q) (mkFlags true 0 true tc false false false false rc) (questions q) an ns ar None)
             | None => Err (io "timed out")
             end
         | None => Err (io "no question")
         end
     | Err e => Err e
     end, t) |}.
End demo.

Definition demo_estimator : EstimatorOps unit := {|
  observe_upstream q _ _ := q; observe_failure q _ := q; score_inputs _ _ _ := default_inputs |}.

Definition demo_cfg : EngineConfig :=
  mkEngineConfig [(V4 1, 53)] 1500 20000 53 2 true true 8 32 1232 false false limits_default true 2 6 6 default_band 10.

Definition demo_world : World unit unit SplitMix64 Z :=
  mkWorld (cache_new default_cache_config) (alias_new default_alias_config) selector_default tt (mkSplitMix64 7) 0
    (budget_new limits_default) [].

(** A root that delegates [c.] to a server at address 2, with an alias [a.c] of
    [b.c] there. *)
Definition c_name : Name := of_labels [[99]].
Definition a_c : Name := of_labels [[97]; [99]].
Definition b_c : Name := of_labels [[98]; [99]].
Definition ns_c : Name := of_labels [[110]; [99]].
Definition demo_serve (ep : Endpoint) (q : Question) : option (Rcode * bool * (list Rr * list Rr * list Rr)) :=
  if bool_decide (ep_ip ep = V4 1) then
    Some (Rcodes.NOERROR, false, ([], [mkRecord c_name RrTypes.NS 1 3600 (RD_Ns ns_c)],
      [mkRecord ns_c RrTypes.A 1 3600 (RD_A [0; 0; 0; 2])]))
  else if bool_decide (canonical (qname q) = a_c) then
    Some (Rcodes.NOERROR, false, ([mkRecord a_c RrTypes.CNAME 1 60 (RD_Cname b_c)], [], []))
  else Some (Rcodes.NOERROR, false, ([mkRecord b_c RrTypes.A 1 300 (RD_A [192; 0; 2; 1])], [], [])).

Definition demo_key : QueryKey := mkQueryKey a_c RrTypes.A 1 None false false.

#[local] Existing Instances flat_stability demo_estimator.
#[local] Definition no_ns (_ : list Name) : M unit unit SplitMix64 Z (list Endpoint) := mret [].


(** *** Faults *)

(** A truncated answer over UDP, then a refusal over TCP. *)
Definition refusing_serve (ep : Endpoint) (q : Question) : option (Rcode * bool * (list Rr * list Rr * list Rr)) :=
  if bool_decide (ep_proto ep = Tcp) then Some (Rcodes.SERVFAIL, false, ([], [], []))
  else Some (Rcodes.NOERROR, true, ([], [], [])).

(** The refusal is passed on as the answer, and no other server is asked. *)
Example tcp_refusal_returned :
  let net := demo_net refusing_serve in
  let '(o, w) := query_servers (S := unit) (N := Z) demo_cfg (mkRdvKey 1 2) [sample_server 1; sample_server 2]
                   a_c RrTypes.A demo_key 20000000000 true demo_world in
  match o with Done (m, _) => is_refusal m | _ => false end = true /\ zlen (w_log w) = 2.
Proof. vm_compute. split; reflexivity. Qed.

(** An answer from the store of names that do not exist is reported validated,
    though nothing about it was ever checked: with an anchor configured a client
    that asks gets the authenticated-data bit. *)
Definition denied_world : World unit unit SplitMix64 Z :=
  set_cache (insert_nxdomain (w_cache demo_world) a_c Rcodes.NXDOMAIN None 300 1700000000000000000) demo_world.

Example denied_name_reported_validated :
  let '(o, _) := resolve_from_cache (S := unit) (R := SplitMix64) (N := Z) demo_cfg 30
                   (fun _ _ _ _ w => (false, w)) (fun _ w => w) demo_key 1700000001000000000 Reuse denied_world in
  match o with
  | Done (Some res) =>
      let query := mkMessage 1 (mkFlags false 0 false false true false true false 0)
                     [mkQuestion a_c RrTypes.A 1] [] [] [] None in
      (res_rcode res, res_validated res, ad (flags (build_response true query res)))
  | _ => (0, false, false)
  end = (Rcodes.NXDOMAIN, true, true).
Proof. vm_compute. reflexivity. Qed.

(** The target of an alias does not exist: the nonexistence is entered under the
    alias's own name.  Once the alias has expired every type at that name is
    denied, and nothing is known of the target, which is what does not exist. *)
Example alias_denied :
  let res := mkResolution a_c RrTypes.A 1 Rcodes.NXDOMAIN
               [mkRecord a_c RrTypes.CNAME 1 60 (RD_Cname b_c)]
               [mkRecord c_name RrTypes.SOA 1 300 (RD_Soa ns_c ns_c 1 2 3 4 300)] [] false 60 false false None 0 in
  let c := cache_resolution 86400 demo_key res 1700000000000000000 default_inputs (w_cache demo_world) in
  let at_61s := 1700000000000000000 + 61 * 1000000000 in
  match fst (lookup c (plain a_c RrTypes.TXT 1) at_61s) with NxDomainHit _ _ => true | _ => false end = true /\
  fst (lookup c (plain b_c RrTypes.TXT 1) at_61s) = Miss.
Proof. vm_compute. split; reflexivity. Qed.
