(* ===== verification/Hazard.v ===== *)
(** * The observable-change model ([src/hazard.rs], [src/stability.rs])

    A posterior over the rate at which a record set changes, kept as a fixed number
    of scalars, with an upper credibility bound on the rate and the conservative
    probability that the data is still correct.  [StabilityModel] is the model one
    cache entry holds; it implements the interface of the cache. *)
From S2P Require Import Prelude Time BTree Float64 Float FloatOrder Cache.

Definition DEFAULT_FORGETTING_SECS : f64 := f64_of 86400.
Definition DEFAULT_CONFIDENCE : f64 := dec 95 2.
Definition DEFAULT_PRIOR_SHAPE : f64 := f64_of 1.
Definition DEFAULT_MIN_INTERVAL_SECS : f64 := f64_of 15.
Definition DEFAULT_MAX_INTERVAL_SECS : f64 := f64_mul (f64_of 6) (f64_of 3600).

(** ** Configuration *)

Record HazardConfig := mkHazardConfig {
  prior_shape : f64;
  confidence : f64;
  forgetting_secs : f64;
  min_interval_secs : f64;
  max_interval_secs : f64;
  target_freshness : f64 }.

Definition default_hazard_config : HazardConfig :=
  mkHazardConfig DEFAULT_PRIOR_SHAPE DEFAULT_CONFIDENCE DEFAULT_FORGETTING_SECS DEFAULT_MIN_INTERVAL_SECS
    DEFAULT_MAX_INTERVAL_SECS (dec 9 1).

(** [1 - places] of a small decimal. *)
Definition one_minus (x : f64) : f64 := f64_sub (f64_of 1) x.

Definition tail_probability (c : HazardConfig) : f64 :=
  let delta := one_minus (confidence c) in
  if is_nan delta then dec 5 2 else f64_clamp delta (dec 1 12) (one_minus (dec 1 12)).

Definition with_confidence (c : HazardConfig) (x : f64) : HazardConfig :=
  mkHazardConfig (prior_shape c) (if is_nan x then confidence c else x) (forgetting_secs c)
    (min_interval_secs c) (max_interval_secs c) (target_freshness c).

(** A field, or its default when it is not a finite number. *)
Definition finite_or (v fallback : f64) : f64 := if is_finite v then v else fallback.

Definition sanitised (c : HazardConfig) : HazardConfig :=
  let d := default_hazard_config in
  let min := f64_clamp (finite_or (min_interval_secs c) (min_interval_secs d)) (dec 1 3) (f64_of 86400) in
  let max := f64_max (finite_or (max_interval_secs c) (max_interval_secs d)) min in
  mkHazardConfig
    (f64_clamp (finite_or (prior_shape c) (prior_shape d)) (dec 1 6) (f64_of 1000000))
    (f64_clamp (finite_or (confidence c) (confidence d)) (dec 1 9) (one_minus (dec 1 9)))
    (f64_clamp (finite_or (forgetting_secs c) (forgetting_secs d)) (f64_of 1) (f64_of 1000000000))
    min max
    (f64_clamp (finite_or (target_freshness c) (target_freshness d)) (dec 1 6) (one_minus (dec 1 9))).

(** ** The credibility bound *)

(** The logarithm of the tail bound at [x], over [delta]. *)
Definition tail_exponent (alpha beta ln_delta x : f64) : f64 :=
  f64_sub
    (f64_add (f64_sub alpha (f64_mul beta x)) (f64_mul alpha (ln (f64_div (f64_mul beta x) alpha))))
    ln_delta.

(** The doubling loop; [n] rounds are left before it gives up. *)
Fixpoint grow (g : f64 -> f64) (n : nat) (hi : f64) : option f64 :=
  match n with
  | 0%nat => None
  | S n =>
      if f64_lt (f64_of 0) (g hi) then
        let hi := f64_mul hi (f64_of 2) in
        if (n =? 0)%nat || negb (is_finite hi) then None else grow g n hi
      else Some hi
  end.

Fixpoint bisect (g : f64 -> f64) (n : nat) (lo hi : f64) : f64 :=
  match n with
  | 0%nat => hi
  | S n =>
      let mid := f64_mul (dec 5 1) (f64_add lo hi) in
      if f64_le mid lo || f64_le hi mid then hi
      else if f64_lt (f64_of 0) (g mid) then bisect g n mid hi else bisect g n lo mid
  end.

Definition INFINITY : f64 := S754_infinity false.

Definition gamma_upper_bound (alpha beta delta : f64) : f64 :=
  if negb (is_positive alpha) || negb (is_positive beta) then INFINITY else
  let mean := f64_div alpha beta in
  if negb (is_positive delta) then INFINITY else
  if f64_le (f64_of 1) delta then mean else
  let g := tail_exponent alpha beta (ln delta) in
  match grow g 65 (f64_mul mean (f64_of 2)) with
  | None => INFINITY
  | Some hi => bisect g 96 mean hi
  end.

(** ** The model *)

Record HazardModel := mkHazard {
  hz_config : HazardConfig;
  alpha_ev : f64;
  beta_ev : f64;
  prior_ttl_secs : f64;
  evidence_secs : f64;
  lifetime_exposure_secs : f64;
  observations : Z;
  changes : Z;
  hz_failures : Z;
  consecutive_failures : Z;
  ttl_ewma : f64;
  ttl_volatility : f64;
  last_observation : Ts;
  last_change : Ts }.

Definition hazard_new (config : HazardConfig) (ttl_secs : Z) (now : Ts) : HazardModel :=
  let t := f64_of (Z.max ttl_secs 1) in
  let zero := f64_of 0 in
  mkHazard config zero zero t zero zero 0 0 0 0 t zero now now.

Definition set_config (config : HazardConfig) (m : HazardModel) : HazardModel :=
  mkHazard config (alpha_ev m) (beta_ev m) (prior_ttl_secs m) (evidence_secs m) (lifetime_exposure_secs m)
    (observations m) (changes m) (hz_failures m) (consecutive_failures m) (ttl_ewma m) (ttl_volatility m)
    (last_observation m) (last_change m).

Definition model_prior_shape (m : HazardModel) : f64 := f64_max (prior_shape (hz_config m)) (dec 1 9).

Definition posterior (m : HazardModel) : f64 * f64 :=
  let a0 := model_prior_shape m in
  (f64_add a0 (alpha_ev m), f64_add (f64_mul a0 (prior_ttl_secs m)) (beta_ev m)).

Definition hazard_mean (m : HazardModel) : f64 :=
  let '(alpha, beta) := posterior m in
  if f64_lt (f64_of 0) beta then f64_div alpha beta else INFINITY.

Definition hazard_upper_bound (m : HazardModel) : f64 :=
  let '(alpha, beta) := posterior m in gamma_upper_bound alpha beta (tail_probability (hz_config m)).

Definition freshness_lcb (m : HazardModel) (delta_secs : f64) : f64 :=
  if f64_le delta_secs (f64_of 0) then f64_of 1 else
  let lambda := hazard_upper_bound m in
  if negb (is_finite lambda) then f64_of 0 else
  f64_clamp (exp_nonpos (f64_mul (SFopp lambda) delta_secs)) (f64_of 0) (f64_of 1).

Definition freshness_predictive (m : HazardModel) (delta_secs : f64) : f64 :=
  if f64_le delta_secs (f64_of 0) then f64_of 1 else
  let '(alpha, beta) := posterior m in
  if negb (is_positive beta) then f64_of 0 else
  let ratio := f64_div beta (f64_add beta delta_secs) in
  if f64_le ratio (f64_of 0) then f64_of 0 else
  f64_clamp (exp (f64_mul alpha (ln ratio))) (f64_of 0) (f64_of 1).

Definition has_evidence (m : HazardModel) (secs : f64) : bool := f64_le secs (evidence_secs m).
Definition counts (m : HazardModel) : Z * Z * Z := (observations m, changes m, hz_failures m).

Definition forgetting_factor (m : HazardModel) (h : f64) : f64 :=
  let tau := forgetting_secs (hz_config m) in
  if negb (is_positive tau) || negb (is_finite h) then f64_of 1 else exp (f64_div (SFopp h) tau).

(** [now.saturating_sub(then) as f64 / 1e9] *)
Definition secs_between (now then_ : Ts) : f64 := f64_div (f64_of (ts_saturating_sub now then_)) (f64_of 1000000000).

Definition decay_to (m : HazardModel) (now : Ts) : HazardModel :=
  let elapsed := secs_between now (last_observation m) in
  if f64_le elapsed (f64_of 0) then m else
  let gamma := forgetting_factor m elapsed in
  mkHazard (hz_config m) (f64_mul (alpha_ev m) gamma) (f64_mul (beta_ev m) gamma) (prior_ttl_secs m)
    (f64_mul (evidence_secs m) gamma) (lifetime_exposure_secs m) (observations m) (changes m) (hz_failures m)
    (consecutive_failures m) (ttl_ewma m) (ttl_volatility m) now (last_change m).

Definition hazard_observe_failure (m : HazardModel) (now : Ts) : HazardModel :=
  let m := decay_to m now in
  mkHazard (hz_config m) (alpha_ev m) (beta_ev m) (prior_ttl_secs m) (evidence_secs m) (lifetime_exposure_secs m)
    (observations m) (changes m) (sat_add 64 (hz_failures m) 1) (sat_add 64 (consecutive_failures m) 1)
    (ttl_ewma m) (ttl_volatility m) (last_observation m) (last_change m).

Definition hazard_observe (m : HazardModel) (interval_secs : f64) (changed : bool) (ttl_secs : Z) (now : Ts)
    (trust : f64) : HazardModel :=
  let h := if is_finite interval_secs && f64_lt (f64_of 0) interval_secs then interval_secs else f64_of 0 in
  let w := if is_nan trust then f64_of 0 else f64_clamp trust (f64_of 0) (f64_of 1) in
  let gamma := forgetting_factor m h in
  let t := f64_of (Z.max ttl_secs 1) in
  let '(ewma, volatility, prior) :=
    if observations m =? 0 then (t, f64_of 0, t)
    else
      let v := f64_add (f64_mul (ttl_volatility m) (dec 8 1)) (f64_mul (fabs (f64_sub t (ttl_ewma m))) (dec 2 1)) in
      let e := f64_add (f64_mul (ttl_ewma m) (dec 8 1)) (f64_mul t (dec 2 1)) in
      (e, v, f64_max e (f64_of 1)) in
  let y := if changed then f64_of 1 else f64_of 0 in
  let alpha := f64_add (f64_mul (alpha_ev m) gamma) (f64_mul w y) in
  let beta := f64_add (f64_mul (beta_ev m) gamma) (f64_mul w h) in
  mkHazard (hz_config m) alpha beta prior (f64_max beta (f64_of 0))
    (f64_add (lifetime_exposure_secs m) (f64_mul w h)) (sat_add 64 (observations m) 1)
    (if changed then sat_add 64 (changes m) 1 else changes m) (hz_failures m) 0 ewma volatility now
    (if changed then now else last_change m).

Definition hazard_next_interval_secs (m : HazardModel) : f64 :=
  let cfg := hz_config m in
  let min := f64_max (min_interval_secs cfg) (dec 1 3) in
  let max := f64_max (max_interval_secs cfg) min in
  let target := f64_clamp (target_freshness cfg) (dec 1 6) (one_minus (dec 1 9)) in
  let lambda := hazard_upper_bound m in
  if negb (is_finite lambda) || f64_le lambda (f64_of 0) then min else
  let h := f64_div (SFopp (ln target)) lambda in
  if is_nan h then min else f64_clamp h min max.

(** ** Snapshots *)

Record HazardState := mkHazardState {
  hs_prior_ttl_secs : f64;
  hs_alpha_ev : f64;
  hs_beta_ev : f64;
  hs_evidence_secs : f64;
  hs_lifetime_exposure_secs : f64;
  hs_observations : Z;
  hs_changes : Z;
  hs_failures : Z;
  hs_consecutive_failures : Z;
  hs_ttl_ewma : f64;
  hs_ttl_volatility : f64;
  hs_last_observation : Ts;
  hs_last_change : Ts }.

Definition hazard_state (m : HazardModel) : HazardState :=
  mkHazardState (prior_ttl_secs m) (alpha_ev m) (beta_ev m) (evidence_secs m) (lifetime_exposure_secs m)
    (observations m) (changes m) (hz_failures m) (consecutive_failures m) (ttl_ewma m) (ttl_volatility m)
    (last_observation m) (last_change m).

Definition DEFAULT_PRIOR_TTL_SECS_FALLBACK : f64 := f64_of 300.

(** A stored number that is finite and at least [least], or a replacement. *)
Definition at_least (least v fallback : f64) : f64 := if is_finite v && f64_le least v then v else fallback.

Definition hazard_from_state (config : HazardConfig) (s : HazardState) : HazardModel :=
  let zero := f64_of 0 in
  let prior := at_least (f64_of 1) (hs_prior_ttl_secs s) DEFAULT_PRIOR_TTL_SECS_FALLBACK in
  let beta := at_least zero (hs_beta_ev s) zero in
  mkHazard (sanitised config) (at_least zero (hs_alpha_ev s) zero) beta prior
    (at_least zero (hs_evidence_secs s) beta) (at_least zero (hs_lifetime_exposure_secs s) zero)
    (hs_observations s) (hs_changes s) (hs_failures s) (hs_consecutive_failures s)
    (at_least (f64_of 1) (hs_ttl_ewma s) prior) (at_least zero (hs_ttl_volatility s) zero)
    (hs_last_observation s) (hs_last_change s).

(** ** One entry's model *)

Definition DEFAULT_PRIOR_TTL_SECS : Z := 300.

Record StabilityModel := mkStability { hazard : HazardModel }.

Definition stability_new (now : Ts) : StabilityModel :=
  mkStability (hazard_new default_hazard_config DEFAULT_PRIOR_TTL_SECS now).
Definition stability_with_config (config : HazardConfig) (ttl_secs : Z) (now : Ts) : StabilityModel :=
  mkStability (hazard_new config ttl_secs now).
Definition stability_from_state (config : HazardConfig) (s : HazardState) : StabilityModel :=
  mkStability (hazard_from_state config s).
Definition stability_state (m : StabilityModel) : HazardState := hazard_state (hazard m).

Definition stability_observe_weighted (m : StabilityModel) (ttl_secs : Z) (changed : bool) (now : Ts) (trust : f64)
    : StabilityModel :=
  mkStability (hazard_observe (hazard m) (secs_between now (last_observation (hazard m))) changed ttl_secs now trust).
Definition stability_observe (m : StabilityModel) (ttl_secs : Z) (changed : bool) (now : Ts) : StabilityModel :=
  stability_observe_weighted m ttl_secs changed now (f64_of 1).
Definition stability_record_failure (m : StabilityModel) (now : Ts) : StabilityModel :=
  mkStability (hazard_observe_failure (hazard m) now).

Definition is_mature (m : StabilityModel) : bool :=
  has_evidence (hazard m) (f64_mul (f64_of 2) (f64_max (ttl_ewma (hazard m)) (f64_of 1))).

Definition DURABILITY_HORIZON_SECS : f64 := f64_of 60.
Definition stability_durability_score (m : StabilityModel) : f64 := freshness_predictive (hazard m) DURABILITY_HORIZON_SECS.

(** What the cache asks of an entry's model, for the configuration it creates them with. *)
Definition stability_ops (config : HazardConfig) : StabilityOps StabilityModel := {|
  with_config := stability_with_config config;
  observe_weighted := stability_observe_weighted;
  observe := stability_observe;
  record_failure := stability_record_failure;
  durability_score := stability_durability_score |}.

(** ** Samples *)

Definition watched (n : nat) : HazardModel :=
  Nat.iter n (fun m => hazard_observe m (f64_of 3600) false 300 (last_observation m + 3600000000000) (f64_of 1))
    (hazard_new default_hazard_config 300 0).

(** Without evidence nothing is promised; after a day of unchanged samples a
    minute's staleness is. *)
Example fresh_after_a_day :
  f64_lt (freshness_lcb (watched 0) (f64_of 300)) (dec 1 1) = true /\
  f64_lt (dec 99 2) (freshness_lcb (watched 24) (f64_of 60)) = true.
Proof. vm_compute. split; reflexivity. Qed.

(** An exposure of 720 forgetting times: the factor is a huge negative number, and
    the evidence goes below zero. *)
Example forgetting_below_zero :
  let m := hazard_observe (watched 1) (f64_of (720 * 86400)) false 300 (721 * 86400 * 1000000000) (f64_of 1) in
  f64_lt (beta_ev m) (f64_of 0) = true /\ freshness_lcb m (f64_of 1) = f64_of 0.
Proof. vm_compute. split; reflexivity. Qed.

(** A failure moves the time of the last observation, so the next success counts
    the exposure from the failure only. *)
Example failure_shortens_exposure :
  let m := stability_new 0 in
  let ok := stability_observe m 300 false 7200000000000 in
  let late := stability_observe (stability_record_failure m 7199000000000) 300 false 7200000000000 in
  lifetime_exposure_secs (hazard ok) = f64_of 7200 /\ lifetime_exposure_secs (hazard late) = f64_of 1.
Proof. vm_compute. split; reflexivity. Qed.

(** ** Lemmas: the bound *)

Definition admits (g : f64 -> f64) (x : f64) : Prop := f64_lt (f64_of 0) (g x) = false.

Lemma grow_spec g mean n hi hi' : nn mean -> nn hi -> f64_le mean hi = true -> grow g n hi = Some hi' ->
  nn hi' /\ f64_le mean hi' = true /\ admits g hi'.
Proof.
  intros Nm. revert hi. induction n as [|n IH]; intros hi Nh L; cbn [grow]; [done|].
  destruct (f64_lt (f64_of 0) (g hi)) eqn:E; [|by intros [= <-]].
  destruct (_ || _); [done|]. destruct (nn_double hi Nh) as [N2 L2]. apply IH; [done|].
  eapply f64_le_trans; [apply Nm|apply Nh|apply N2|done|done].
Qed.

Lemma bisect_spec g mean n lo hi : nn mean -> nn lo -> nn hi -> f64_le mean lo = true -> f64_le mean hi = true ->
  admits g hi -> let r := bisect g n lo hi in nn r /\ f64_le mean r = true /\ admits g r.
Proof.
  intros Nm. revert lo hi. induction n as [|n IH]; intros lo hi Nl Nh Ll Lh A; cbn [bisect]; [done|].
  set (mid := f64_mul (dec 5 1) (f64_add lo hi)).
  destruct (f64_le mid lo) eqn:E1; [done|]. destruct (f64_le hi mid) eqn:E2; [done|]. cbn [orb].
  assert (nn mid) as Nmid.
  { destruct (nn_add lo hi Nl Nh) as [Ns _]. unfold mid. rewrite f64_mul_comm. apply nn_mul; [done|by apply is_num_num|done..]. }
  assert (f64_le mean mid = true) as Lm.
  { destruct (f64_le_total lo mid) as [L|L]; [apply Nl|apply Nmid| |congruence].
    eapply f64_le_trans; [apply Nm|apply Nl|apply Nmid|done|done]. }
  destruct (f64_lt (f64_of 0) (g mid)) eqn:E; by apply IH.
Qed.


(** ** Lemmas: configurations and snapshots *)

Definition cfg_canonical (c : HazardConfig) : Prop :=
  canonical_f64 (prior_shape c) /\ canonical_f64 (confidence c) /\ canonical_f64 (forgetting_secs c) /\
  canonical_f64 (min_interval_secs c) /\ canonical_f64 (max_interval_secs c) /\ canonical_f64 (target_freshness c).

(** A usable configuration. *)
Record cfg_sane (c : HazardConfig) : Prop := {
  cs_shape : within (dec 1 6) (f64_of 1000000) (prior_shape c);
  cs_confidence : within (dec 1 9) (one_minus (dec 1 9)) (confidence c);
  cs_forgetting : within (f64_of 1) (f64_of 1000000000) (forgetting_secs c);
  cs_min : within (dec 1 3) (f64_of 86400) (min_interval_secs c);
  cs_max : num (max_interval_secs c) /\ is_finite (max_interval_secs c) = true /\
           f64_le (min_interval_secs c) (max_interval_secs c) = true;
  cs_target : within (dec 1 6) (one_minus (dec 1 9)) (target_freshness c) }.

Lemma finite_or_num v d : canonical_f64 v -> finite_num d = true -> num (finite_or v d) /\ is_finite (finite_or v d) = true.
Proof.
  intros C D. destruct (finite_num_split d D) as (Cd & Fd & Nd). unfold finite_or.
  destruct (is_finite v) eqn:F; [|done]. split; [|done]. split; [done|by destruct v].
Qed.

Lemma finite_or_id v d : is_finite v = true -> finite_or v d = v.
Proof. unfold finite_or. by intros ->. Qed.

Lemma clamp_finite_or v d lo hi : canonical_f64 v -> finite_num d && is_num lo && is_num hi && f64_le lo hi = true ->
  within lo hi (f64_clamp (finite_or v d) lo hi).
Proof. intros C H. bools. apply clamp_within; [by apply finite_or_num| | |done]; by apply is_num_num. Qed.

Lemma clamp_finite_or_id v d lo hi : within lo hi v -> finite_num lo && finite_num hi = true ->
  f64_clamp (finite_or v d) lo hi = v.
Proof.
  intros W H. destruct (finite_within _ _ _ W H) as [_ F]. rewrite finite_or_id by done. bools.
  apply clamp_id; [done| |]; by apply finite_num_split.
Qed.

Lemma max_id x y : num x -> num y -> f64_le y x = true -> f64_max x y = x.
Proof. intros Hx Hy L. unfold f64_max. by rewrite (proj2 Hx), (proj2 Hy), f64_lt_le, L by done. Qed.

Lemma sanitised_sane c : cfg_canonical c -> cfg_sane (sanitised c).
Proof.
  intros (C1 & C2 & C3 & C4 & C5 & C6).
  assert (within (dec 1 3) (f64_of 86400) (min_interval_secs (sanitised c))) as W
    by (by apply clamp_finite_or).
  constructor; cbn [sanitised prior_shape confidence forgetting_secs min_interval_secs max_interval_secs target_freshness];
    try (by apply clamp_finite_or).
  destruct (finite_or_num (max_interval_secs c) DEFAULT_MAX_INTERVAL_SECS C5 eq_refl) as [Nm Fm].
  cbn [sanitised min_interval_secs] in W. destruct (finite_within _ _ _ W eq_refl) as [_ Fw].
  set (mn := f64_clamp _ _ _) in *. change (max_interval_secs default_hazard_config) with DEFAULT_MAX_INTERVAL_SECS.
  set (mx := finite_or (max_interval_secs c) _) in *.
  destruct (f64_max_cases mx mn Nm (within_num _ _ _ W)) as [[-> L]|[-> L]]; [done|].
  split; [apply W|]. split; [done|]. rewrite f64_le_uval by apply W. lia.
Qed.

Lemma sanitised_id c : cfg_sane c -> sanitised c = c.
Proof.
  intros [H1 H2 H3 H4 (Nm & Fm & Lm) H6]. unfold sanitised.
  rewrite !clamp_finite_or_id by done. rewrite finite_or_id by done.
  rewrite max_id by (done || apply H4). by destruct c.
Qed.

(** The numbers a model keeps, as a restored one has them. *)
Record model_sane (m : HazardModel) : Prop := {
  ms_config : cfg_sane (hz_config m);
  ms_alpha : is_finite (alpha_ev m) && nonneg (alpha_ev m) = true;
  ms_beta : is_finite (beta_ev m) && nonneg (beta_ev m) = true;
  ms_evidence : is_finite (evidence_secs m) && nonneg (evidence_secs m) = true;
  ms_lifetime : is_finite (lifetime_exposure_secs m) && nonneg (lifetime_exposure_secs m) = true;
  ms_prior : is_finite (prior_ttl_secs m) && f64_le (f64_of 1) (prior_ttl_secs m) = true;
  ms_ewma : is_finite (ttl_ewma m) && f64_le (f64_of 1) (ttl_ewma m) = true;
  ms_volatility : is_finite (ttl_volatility m) && nonneg (ttl_volatility m) = true }.

Lemma at_least_ok least v d : is_finite d && f64_le least d = true ->
  is_finite (at_least least v d) && f64_le least (at_least least v d) = true.
Proof. intros H. unfold at_least. by destruct (is_finite v && f64_le least v) eqn:E. Qed.

Lemma at_least_id least v d : is_finite v && f64_le least v = true -> at_least least v d = v.
Proof. unfold at_least. by intros ->. Qed.

(** Restoring from a snapshot.  Whatever was stored, the restored model is usable:
    its configuration is in range and its numbers are finite and not negative, so a
    corrupt record cannot buy confidence.  A usable model is restored exactly, and
    bringing a configuration into range twice changes nothing more. *)
Theorem hazard_restore config s : cfg_canonical config ->
  model_sane (hazard_from_state config s) /\
  (forall m, model_sane m -> hazard_from_state (hz_config m) (hazard_state m) = m) /\
  sanitised (sanitised config) = sanitised config.
Proof.
  intros C. pose proof (sanitised_sane config C) as S. split; [|split; [|by apply sanitised_id]].
  - constructor; cbn [hazard_from_state hz_config alpha_ev beta_ev evidence_secs lifetime_exposure_secs prior_ttl_secs
      ttl_ewma ttl_volatility]; [done|..]; unfold nonneg; repeat apply at_least_ok; done.
  - intros m [Hc Ha Hb He Hl Hp Hw Hv]. unfold hazard_from_state, hazard_state.
    cbn [hs_prior_ttl_secs hs_alpha_ev hs_beta_ev hs_evidence_secs hs_lifetime_exposure_secs hs_observations hs_changes
      hs_failures hs_consecutive_failures hs_ttl_ewma hs_ttl_volatility hs_last_observation hs_last_change].
    rewrite sanitised_id by done. rewrite !at_least_id by done. by destruct m.
Qed.


(** A record in which every number is spoilt. *)
Definition spoilt : HazardState :=
  mkHazardState S754_nan S754_nan (SFopp INFINITY) S754_nan INFINITY 3 2 1 0 S754_nan S754_nan 5 4.
Definition spoilt_config : HazardConfig := mkHazardConfig S754_nan INFINITY (f64_of 0) S754_nan (f64_of 0) INFINITY.

Lemma hazard_restore_witness :
  model_sane (hazard_from_state spoilt_config spoilt) /\
  f64_le (f64_of 1) (forgetting_secs (sanitised spoilt_config)) = true.
Proof.
  assert (cfg_canonical spoilt_config) as C by (vm_compute; repeat split).
  destruct (hazard_restore spoilt_config spoilt C) as (S & _ & _). split; [exact S|]. vm_compute. reflexivity.
Defined.
