(* ===== verification/Risk.v ===== *)
(** * Risk of stale answers ([src/risk.rs])

    How bad a wrong answer is, how well its authenticity was established, the
    ex-ante risk of serving it, and the two buckets that bound the total: the ledger
    of risk and the budget of refreshes. *)
From S2P Require Import Prelude Qtype Time BTree Float64 Float FloatOrder Dnssec Hazard.

(** ** Consequence and trust *)

Inductive Consequence := Low | Medium | High | Critical | Absolute.
#[global] Instance Consequence_eq_dec : EqDecision Consequence.
Proof. solve_decision. Defined.

Definition consequence_rank (c : Consequence) : Z :=
  match c with Low => 0 | Medium => 1 | High => 2 | Critical => 3 | Absolute => 4 end.

(** [max] of the derived order. *)
Definition consequence_max (a b : Consequence) : Consequence :=
  if consequence_rank b <? consequence_rank a then a else b.

Definition is_security_type (t : RrType) : bool :=
  (t =? RrTypes.DS) || (t =? RrTypes.DNSKEY) || (t =? RrTypes.RRSIG) || (t =? RrTypes.NSEC) || (t =? RrTypes.NSEC3).

Definition classify (rr_type : RrType) (is_delegation_data : bool) : Consequence :=
  if is_delegation_data then (if is_security_type rr_type then Absolute else Critical)
  else if is_security_type rr_type then Absolute
  else if rr_type =? RrTypes.NS then Critical
  else if (rr_type =? RrTypes.MX) || (rr_type =? RrTypes.SRV) || (rr_type =? RrTypes.TLSA) || (rr_type =? RrTypes.CAA)
          || (rr_type =? RrTypes.SVCB) || (rr_type =? RrTypes.HTTPS) then High
  else if (rr_type =? RrTypes.CNAME) || (rr_type =? RrTypes.DNAME) then Medium
  else Low.

Definition coefficient (c : Consequence) : f64 :=
  match c with
  | Low => f64_of 1 | Medium => f64_of 5 | High => f64_of 25 | Critical => f64_of 100 | Absolute => INFINITY
  end.

Definition allows_stale (c : Consequence) : bool := match c with Absolute => false | _ => true end.

Definition stale_horizon_secs (c : Consequence) : Z :=
  match c with Low => 86400 | Medium => 3600 | High => 300 | Critical => 30 | Absolute => 0 end.

Definition consequence_str (c : Consequence) : string :=
  match c with
  | Low => "low" | Medium => "medium" | High => "high" | Critical => "critical" | Absolute => "absolute"
  end.

Definition penalty (t : TrustLevel) : f64 :=
  match t with
  | TlChainAnchored => f64_of 1 | TlCryptoVerified => f64_of 2 | TlUnverified => f64_of 5 | TlIndeterminate => f64_of 10
  end.

Definition trust_permits_authentic_data (t : TrustLevel) : bool :=
  match t with TlChainAnchored => true | _ => false end.

Definition trust_str (t : TrustLevel) : string :=
  match t with
  | TlChainAnchored => "chain-anchored" | TlCryptoVerified => "crypto-verified"
  | TlUnverified => "unverified" | TlIndeterminate => "indeterminate"
  end.

Inductive Refusal :=
| ClassForbidsStale | HorizonExceeded | FreshnessTooLow | RiskBudgetExhausted | NotWorthIt | RefreshBudgetExhausted.

Definition refusal_str (r : Refusal) : string :=
  match r with
  | ClassForbidsStale => "class-forbids-stale" | HorizonExceeded => "horizon-exceeded"
  | FreshnessTooLow => "freshness-too-low" | RiskBudgetExhausted => "risk-budget-exhausted"
  | NotWorthIt => "not-worth-it" | RefreshBudgetExhausted => "refresh-budget-exhausted"
  end.

(** ** The assessment *)

Record Assessment := mkAssessment {
  as_value_ms : f64;
  as_consequence : Consequence;
  as_freshness_lcb : f64;
  as_risk : f64;
  as_allowed : bool;
  as_refusal : option Refusal }.

Definition assessment_none : Assessment :=
  mkAssessment (f64_of 0) Low (f64_of 1) (f64_of 0) false (Some NotWorthIt).

Record RiskConfig := mkRiskConfig {
  base_min_freshness : f64;
  value_floor_ms : f64;
  budget_per_sec : f64;
  budget_capacity : f64;
  refresh_per_sec : f64;
  refresh_capacity : f64 }.

Definition default_risk_config : RiskConfig :=
  mkRiskConfig (dec 95 2) (f64_of 20) (f64_of 40) (f64_of 2400) (f64_of 50) (f64_of 512).

Definition min_freshness (cfg : RiskConfig) (c : Consequence) : f64 :=
  let k := coefficient c in
  if negb (is_finite k) then f64_of 1 else
  let base := f64_clamp (base_min_freshness cfg) (f64_of 0) (f64_of 1) in
  let slack := f64_sub (f64_of 1) base in
  f64_clamp (f64_sub (f64_of 1) (f64_div slack k)) (f64_of 0) (f64_of 1).

(** [staleness_secs > consequence.stale_horizon_secs() as f64] *)
Definition past_horizon (c : Consequence) (staleness_secs : f64) : bool :=
  f64_lt (f64_of (stale_horizon_secs c)) staleness_secs.

Definition risk_of (cfg : RiskConfig) (value_ms : f64) (c : Consequence) (trust : TrustLevel)
    (freshness_lcb staleness_secs : f64) : f64 :=
  if negb (allows_stale c) then INFINITY else
  if past_horizon c staleness_secs then INFINITY else
  let v := if is_finite value_ms then f64_max value_ms (value_floor_ms cfg) else value_floor_ms cfg in
  let p := if is_nan freshness_lcb then f64_of 0 else f64_clamp freshness_lcb (f64_of 0) (f64_of 1) in
  f64_mul (f64_mul (f64_mul v (f64_sub (f64_of 1) p)) (coefficient c)) (penalty trust).

Definition assess (cfg : RiskConfig) (value_ms : f64) (c : Consequence) (trust : TrustLevel)
    (freshness_lcb staleness_secs : f64) : Assessment :=
  let risk := risk_of cfg value_ms c trust freshness_lcb staleness_secs in
  let refusal :=
    if negb (allows_stale c) then Some ClassForbidsStale
    else if past_horizon c staleness_secs then Some HorizonExceeded
    else if f64_lt freshness_lcb (min_freshness cfg c) then Some FreshnessTooLow
    else if negb (is_finite risk) then Some NotWorthIt
    else None in
  mkAssessment (f64_max value_ms (value_floor_ms cfg)) c freshness_lcb
    (if is_finite risk then risk else f64_of 0) (match refusal with None => true | Some _ => false end) refusal.

(** ** The ledger of risk *)

Record RiskLedger := mkLedger {
  rl_config : RiskConfig;
  debt : f64;
  rl_last_update : Ts;
  charged_total : f64;
  admitted : Z;
  refused : Z }.

Definition ledger_new (cfg : RiskConfig) (now : Ts) : RiskLedger := mkLedger cfg (f64_of 0) now (f64_of 0) 0 0.
Definition ledger_set_config (cfg : RiskConfig) (l : RiskLedger) : RiskLedger :=
  mkLedger cfg (debt l) (rl_last_update l) (charged_total l) (admitted l) (refused l).

Definition drain (l : RiskLedger) (now : Ts) : RiskLedger :=
  let dt := secs_between now (rl_last_update l) in
  if f64_le dt (f64_of 0) then l else
  mkLedger (rl_config l) (f64_max (f64_sub (debt l) (f64_mul (budget_per_sec (rl_config l)) dt)) (f64_of 0)) now
    (charged_total l) (admitted l) (refused l).

Definition refuse (l : RiskLedger) : RiskLedger :=
  mkLedger (rl_config l) (debt l) (rl_last_update l) (charged_total l) (admitted l) (sat_add 64 (refused l) 1).

Definition try_charge (l : RiskLedger) (risk : f64) (now : Ts) : bool * RiskLedger :=
  let l := drain l now in
  if negb (is_finite risk) || f64_lt risk (f64_of 0) then (false, refuse l)
  else if f64_lt (budget_capacity (rl_config l)) (f64_add (debt l) risk) then (false, refuse l)
  else (true, mkLedger (rl_config l) (f64_add (debt l) risk) (rl_last_update l) (f64_add (charged_total l) risk)
                (sat_add 64 (admitted l) 1) (refused l)).

(** ** The refresh budget *)

Record RefreshBudget := mkRefresh {
  rb_per_sec : f64;
  rb_capacity : f64;
  rb_tokens : f64;
  rb_last_update : Ts;
  rb_granted : Z;
  rb_denied : Z }.

Definition refresh_new (per_sec capacity : f64) (now : Ts) : RefreshBudget :=
  let capacity := f64_max capacity (f64_of 0) in
  mkRefresh (f64_max per_sec (f64_of 0)) capacity capacity now 0 0.
Definition refresh_from_config (cfg : RiskConfig) (now : Ts) : RefreshBudget :=
  refresh_new (refresh_per_sec cfg) (refresh_capacity cfg) now.

Definition refresh_take (b : RefreshBudget) (want : Z) (now : Ts) : Z * RefreshBudget :=
  let dt := secs_between now (rb_last_update b) in
  let '(tokens, last) :=
    if f64_lt (f64_of 0) dt
    then (f64_min (f64_add (rb_tokens b) (f64_mul (rb_per_sec b) dt)) (rb_capacity b), now)
    else (rb_tokens b, rb_last_update b) in
  let allowed :=
    if f64_le (rb_capacity b) (f64_of 0) then 0
    else f64_to_u64 (f64_min (f64_max tokens (f64_of 0)) (f64_of want)) in
  (allowed, mkRefresh (rb_per_sec b) (rb_capacity b) (f64_sub tokens (f64_of allowed)) last
     (sat_add 64 (rb_granted b) allowed)
     (if (allowed =? 0) && (0 <? want) then sat_add 64 (rb_denied b) 1 else rb_denied b)).

(** ** Lemmas *)

Lemma ts_sub_range a b : - 2 ^ 127 <= ts_saturating_sub a b <= 2 ^ 127 - 1.
Proof. unfold ts_saturating_sub, clamp_i128, i128_min, i128_max. lia. Qed.

Lemma secs_between_num a b : num (secs_between a b) /\ is_finite (secs_between a b) = true.
Proof.
  unfold secs_between. pose proof (f64_of_within _ _ _ (ts_sub_range a b)) as W.
  pose proof (within_div _ _ _ (f64_of 1000000000) W ltac:(vm_compute; reflexivity)) as D.
  split; [apply D|]. eapply within_finite; [exact D|]. vm_compute. reflexivity.
Qed.

Lemma not_le_lt x y : num x -> num y -> f64_le x y = false -> f64_lt y x = true.
Proof. intros Nx Ny E. by rewrite f64_lt_le, E. Qed.

Lemma not_lt_le x y : num x -> num y -> f64_lt x y = false -> f64_le y x = true.
Proof. intros Nx Ny E. rewrite f64_lt_le in E by done. by apply negb_false_iff in E. Qed.

Lemma nums_check (reqs : list (f64 * Ts)) : forallb (fun r => is_num r.1) reqs = true -> Forall (fun r => num r.1) reqs.
Proof. intros H. apply List.Forall_forall. intros x Hx. apply is_num_num. by apply (proj1 (forallb_forall _ _) H). Qed.

Record ledger_config_ok (cfg : RiskConfig) : Prop := {
  lc_rate : nn (budget_per_sec cfg) /\ is_finite (budget_per_sec cfg) = true;
  lc_capacity : nn (budget_capacity cfg) /\ is_finite (budget_capacity cfg) = true }.

Definition ledger_ok (l : RiskLedger) : Prop := nn (debt l) /\ f64_le (debt l) (budget_capacity (rl_config l)) = true.

Lemma drain_ok l now : ledger_config_ok (rl_config l) -> ledger_ok l ->
  ledger_ok (drain l now) /\ rl_config (drain l now) = rl_config l /\ f64_le (debt (drain l now)) (debt l) = true.
Proof.
  intros [[Nr Fr] [Nc Fc]] [Nd Ld]. unfold drain. destruct (secs_between_num now (rl_last_update l)) as [Nt Ft].
  assert (f64_le (debt l) (debt l) = true) as R by (rewrite f64_le_uval by apply Nd; lia).
  destruct (f64_le _ (f64_of 0)) eqn:Et; [done|].
  pose proof (not_le_lt _ _ Nt (proj1 nn_zero) Et) as Pt.
  pose proof (nn_mul _ _ Nr Nt Ft Pt) as Ny. set (y := f64_mul _ _) in *.
  assert (is_finite (debt l) = true) as Fd by (by eapply nn_finite_le; [|apply Nc|apply Ld|]).
  assert (nn (f64_max (f64_sub (debt l) y) (f64_of 0)) /\ f64_le (f64_max (f64_sub (debt l) y) (f64_of 0)) (debt l) = true) as [Nm Lm].
  { destruct (is_finite y) eqn:Fy.
    - destruct (f64_sub_le (debt l) y) as [Ns Ls]; [apply Nd|apply Ny|done|done|apply Ny|].
      split; [by apply nn_max_0|]. destruct (uval_max _ _ Ns (proj1 nn_zero)) as [Nm V].
      rewrite f64_le_uval in * by (done || apply Nd). rewrite V. destruct Nd as [Nd Pd]. rewrite nonneg_uval in Pd by done.
      change (uval (f64_of 0)) with 0. lia.
    - rewrite (nn_infinite y) by done. assert (f64_sub (debt l) (S754_infinity false) = S754_infinity true) as ->
        by (by destruct (debt l) as [s|s| |s m e]).
      split; [done|]. apply Nd. }
  unfold ledger_ok. cbn [debt rl_config]. split; [|done]. split; [done|].
  eapply f64_le_trans; [apply Nm|apply Nd|apply Nc|done|done].
Qed.

Lemma try_charge_ok l risk now : ledger_config_ok (rl_config l) -> ledger_ok l -> num risk ->
  ledger_ok (try_charge l risk now).2 /\ rl_config (try_charge l risk now).2 = rl_config l.
Proof.
  intros C O N. destruct (drain_ok l now C O) as ((Nd & Ld) & E & _). unfold try_charge.
  destruct (negb (is_finite risk) || f64_lt risk (f64_of 0)) eqn:E1; [done|]. apply orb_false_iff in E1 as [F L].
  apply not_lt_le in L; [|done|done]. destruct (nn_add (debt (drain l now)) risk Nd (conj N L)) as [Na _].
  destruct (f64_lt _ _) eqn:E2; [done|]. cbn [snd rl_config]. split; [|done].
  unfold ledger_ok. cbn [debt rl_config]. split; [done|]. apply not_lt_le in E2; [done|rewrite E; apply C|apply Na].
Qed.

Lemma fold_ledger_ok reqs l : ledger_config_ok (rl_config l) -> ledger_ok l -> Forall (fun r => num r.1) reqs ->
  let l' := fold_left (fun l (r : f64 * Ts) => (try_charge l r.1 r.2).2) reqs l in
  ledger_ok l' /\ rl_config l' = rl_config l.
Proof.
  intros C O H. revert l C O. induction H as [|r reqs Hr H IH]; intros l C O; [done|]. cbn [fold_left].
  destruct (try_charge_ok l r.1 r.2 C O Hr) as [O' E]. destruct (IH (try_charge l r.1 r.2).2) as [? E2]; [by rewrite E|done|].
  by rewrite E2, E.
Qed.

(** C11: The ledger of risk, after any sequence of requests at any times.  The debt is a
    number between zero and the capacity; time only lowers it; a request is granted
    exactly when its risk is finite, not negative, and fits beside the debt that is
    left, and only a granted request adds to the debt. *)
Theorem ledger_bounded cfg t0 reqs risk now : ledger_config_ok cfg ->
  Forall (fun r => num r.1) reqs -> num risk ->
  let l := fold_left (fun l (r : f64 * Ts) => (try_charge l r.1 r.2).2) reqs (ledger_new cfg t0) in
  let '(granted, l') := try_charge l risk now in
  within (f64_of 0) (budget_capacity cfg) (debt l) /\
  within (f64_of 0) (budget_capacity cfg) (debt l') /\
  f64_le (debt (drain l now)) (debt l) = true /\
  (granted = true <-> is_finite risk = true /\ f64_le (f64_of 0) risk = true /\
     f64_le (f64_add (debt (drain l now)) risk) (budget_capacity cfg) = true) /\
  debt l' = if granted then f64_add (debt (drain l now)) risk else debt (drain l now).
Proof.
  intros C H N l. assert (ledger_ok (ledger_new cfg t0)) as O0.
  { split; [apply nn_zero|]. destruct C as [_ [[_ P] _]]. exact P. }
  destruct (fold_ledger_ok reqs (ledger_new cfg t0) C O0 H) as [O E]. fold l in O, E. cbn [ledger_new rl_config] in E.
  clearbody l. clear O0.
  assert (ledger_config_ok (rl_config l)) as C' by (by rewrite E).
  destruct (drain_ok l now C' O) as ((Nd & Ld) & Ed & Dd). destruct (try_charge_ok l risk now C' O N) as [[Na La] Ea].
  destruct O as [Ol Or]. rewrite E in *. rewrite Ed in *. assert (forall x, nn x -> f64_le x (budget_capacity cfg) = true -> within (f64_of 0) (budget_capacity cfg) x)
    as W by (intros x [? ?] ?; done).
  unfold try_charge in *. destruct (negb (is_finite risk) || f64_lt risk (f64_of 0)) eqn:E1.
  - cbn [snd refuse debt rl_config] in *. split; [by apply W|]. split; [by apply W|]. split; [done|]. split; [|done].
    split; [done|]. intros (F & L & _). rewrite F, f64_lt_le, L in E1 by done. done.
  - apply orb_false_iff in E1 as [F L]. apply negb_false_iff in F. apply not_lt_le in L; [|done|done].
    destruct (nn_add (debt (drain l now)) risk Nd (conj N L)) as [Ns _].
    rewrite Ed in *.
    destruct (f64_lt (budget_capacity cfg) (f64_add (debt (drain l now)) risk)) eqn:E2; cbn [snd refuse debt rl_config] in *;
      (split; [by apply W|]; split; [by apply W|]; split; [done|]; split; [|done]; split; try done).
    intros (_ & _ & L2). rewrite f64_lt_le, L2 in E2 by (apply C || apply Ns). done.
Qed.

Lemma ledger_bounded_witness :
  let l := fold_left (fun l (r : f64 * Ts) => (try_charge l r.1 r.2).2)
             [(f64_of 2000, 0); (f64_of 500, 0); (INFINITY, 0); (f64_of 390, 5000000000)] (ledger_new default_risk_config 0) in
  within (f64_of 0) (f64_of 2400) (debt l) /\ debt l = f64_of 2190.
Proof.
  intros l.
  assert (ledger_config_ok default_risk_config) as C by (constructor; (split; [by apply nn_const|done])).
  pose proof (ledger_bounded default_risk_config 0 [(f64_of 2000, 0); (f64_of 500, 0); (INFINITY, 0); (f64_of 390, 5000000000)]
    (f64_of 1) 0 C ltac:(by apply nums_check) ltac:(by apply is_num_num)) as H. fold l in H. cbv zeta in H.
  destruct (try_charge l (f64_of 1) 0). split; [apply H|]. vm_compute. reflexivity.
Defined.

(** ** The refresh budget *)

Definition refresh_ok (b : RefreshBudget) : Prop :=
  nn (rb_per_sec b) /\ nn (rb_capacity b) /\ is_finite (rb_capacity b) = true /\
  within (f64_of 0) (rb_capacity b) (rb_tokens b).

Lemma within_zero_nn hi x : within (f64_of 0) hi x <-> nn x /\ f64_le x hi = true.
Proof. unfold within, nn, nonneg. tauto. Qed.

Lemma min_within_zero x cap : nn x -> nn cap -> within (f64_of 0) cap (f64_min x cap).
Proof.
  intros [Nx Px] [Nc Pc]. apply within_zero_nn. destruct (uval_min x cap Nx Nc) as [N V].
  rewrite nonneg_uval in * by done. unfold nn. rewrite nonneg_uval, f64_le_uval by done. rewrite V.
  split; [split; [done|]|]; lia.
Qed.

Lemma refresh_take_ok b want now : refresh_ok b -> 0 <= want ->
  let '(allowed, b') := refresh_take b want now in
  refresh_ok b' /\ rb_capacity b' = rb_capacity b /\ 0 <= allowed /\ (want < 2 ^ 53 -> allowed <= want) /\
  (allowed = 0 -> f64_le (rb_tokens b) (rb_tokens b') = true).
Proof.
  intros (Nr & Nc & Fc & W) Hw. unfold refresh_take. destruct (secs_between_num now (rb_last_update b)) as [Nt Ft].
  set (refill := if f64_lt (f64_of 0) (secs_between now (rb_last_update b)) then _ else _).
  assert (within (f64_of 0) (rb_capacity b) refill.1 /\ f64_le (rb_tokens b) refill.1 = true) as [Wr Lr].
  { apply within_zero_nn in W as [Nk Lk]. unfold refill. destruct (f64_lt (f64_of 0) _) eqn:Et; cbn [fst].
    - destruct (nn_add (rb_tokens b) _ Nk (nn_mul _ _ Nr Nt Ft Et)) as [Na La]. split; [by apply min_within_zero|].
      destruct (uval_min _ _ (proj1 Na) (proj1 Nc)) as [Nm V]. rewrite f64_le_uval in * by (apply Nk || apply Na || apply Nc || done). lia.
    - split; [by apply within_zero_nn|]. rewrite f64_le_uval by apply Nk. lia. }
  destruct refill as [tokens last]. cbn [fst] in *. apply within_zero_nn in Wr as [Nk Lk].
  set (allowed := if f64_le (rb_capacity b) (f64_of 0) then 0 else _).
  assert (0 <= allowed /\ nn (f64_of allowed) /\ is_finite (f64_of allowed) = true /\ f64_le (f64_of allowed) tokens = true /\
    (want < 2 ^ 53 -> allowed <= want)) as (A0 & Na & Fa & La & Lw).
  { unfold allowed. destruct (f64_le (rb_capacity b) _); [split; [lia|]; split; [done|]; split; [done|]; split; [apply Nk|lia]|].
    rewrite (max_id tokens (f64_of 0)) by (done || apply Nk). set (x := f64_min tokens (f64_of want)).
    assert (nn (f64_of want)) as Nw by (destruct (f64_of_mono 0 want Hw) as (_ & Nw & P); done).
    pose proof (min_within_zero _ _ Nk Nw) as Wx. fold x in Wx. apply within_zero_nn in Wx as [Nx Lx].
    destruct (uval_min tokens (f64_of want) (proj1 Nk) (proj1 Nw)) as [_ V]. fold x in V.
    assert (f64_le x tokens = true) as Lxt by (rewrite f64_le_uval by (apply Nx || apply Nk); lia).
    assert (is_finite x = true) as Fx by (eapply nn_finite_le; [done|apply Nk|done|]; by eapply nn_finite_le; [|apply Nc|apply Lk|]).
    destruct (to_u64_floor x Nx Fx) as [U0 U]. destruct (to_u64_le x Nx Fx) as [Nu Lu].
    split; [done|]. split; [done|]. split; [eapply nn_finite_le; [done|apply Nx|done|done]|].
    split; [by eapply f64_le_trans; [apply Nu|apply Nx|apply Nk|..]|].
    intros Hlt. rewrite (uval_f64_of want) in V by lia. pose proof (Z.pow_pos_nonneg 2 1074 ltac:(lia) ltac:(lia)). nia. }
  destruct (nn_sub tokens (f64_of allowed) Nk Na Fa La) as [Ns Ls]. clearbody allowed. unfold refresh_ok. cbn [rb_per_sec rb_capacity rb_tokens].
  split; [split; [done|]; split; [done|]; split; [done|]; apply within_zero_nn; split; [done|];
    by eapply f64_le_trans; [apply Ns|apply Nk|apply Nc|..]|].
  split; [done|]. split; [done|]. split; [done|]. intros ->.
  destruct Nk as [Nk Pk]. destruct tokens as [s|[]| |s m e]; try done; by destruct s.
Qed.

Lemma refresh_new_ok per_sec capacity now : num per_sec -> num capacity -> is_finite capacity = true ->
  refresh_ok (refresh_new per_sec capacity now) /\ is_finite (rb_capacity (refresh_new per_sec capacity now)) = true.
Proof.
  intros Np Nc Fc. pose proof (nn_max_0 capacity Nc) as Nm. unfold refresh_ok, refresh_new. cbn [rb_per_sec rb_capacity rb_tokens].
  assert (is_finite (f64_max capacity (f64_of 0)) = true) as F
    by (destruct (f64_max_cases capacity (f64_of 0) Nc (proj1 nn_zero)) as [[-> _]|[-> _]]; done).
  split; [|done]. split; [by apply nn_max_0|]. split; [done|]. split; [done|]. apply within_zero_nn. split; [done|].
  rewrite f64_le_uval by apply Nm. lia.
Qed.

(** The refresh budget, after any sequence of requests at any times: it holds
    between zero and its capacity, a request is granted no more than it asks for, a
    grant of nothing costs nothing, and a budget of no capacity grants nothing. *)
Theorem refresh_bounded per_sec capacity t0 reqs want now :
  num per_sec -> num capacity -> is_finite capacity = true -> Forall (fun r => 0 <= r.1) reqs -> 0 <= want < 2 ^ 53 ->
  let b := fold_left (fun b (r : Z * Ts) => (refresh_take b r.1 r.2).2) reqs (refresh_new per_sec capacity t0) in
  let '(allowed, b') := refresh_take b want now in
  within (f64_of 0) (f64_max capacity (f64_of 0)) (rb_tokens b) /\
  within (f64_of 0) (f64_max capacity (f64_of 0)) (rb_tokens b') /\
  0 <= allowed <= want /\
  (allowed = 0 -> f64_le (rb_tokens b) (rb_tokens b') = true) /\
  (f64_le capacity (f64_of 0) = true -> allowed = 0).
Proof.
  intros Np Nc Fc H Hw b. destruct (refresh_new_ok per_sec capacity t0 Np Nc Fc) as [O0 _].
  assert (forall b0, refresh_ok b0 -> refresh_ok (fold_left (fun b (r : Z * Ts) => (refresh_take b r.1 r.2).2) reqs b0) /\
    rb_capacity (fold_left (fun b (r : Z * Ts) => (refresh_take b r.1 r.2).2) reqs b0) = rb_capacity b0) as F.
  { clear - H. induction H as [|r reqs Hr H IH]; intros b0 O; [done|]. cbn [fold_left].
    pose proof (refresh_take_ok b0 r.1 r.2 O Hr) as T. destruct (refresh_take b0 r.1 r.2) as [al b1]. cbn [snd].
    destruct T as (O1 & E1 & _). destruct (IH b1 O1) as [? E2]. by rewrite E2, E1. }
  destruct (F _ O0) as [O E]. fold b in O, E. change (rb_capacity (refresh_new _ _ _)) with (f64_max capacity (f64_of 0)) in E.
  clearbody b. pose proof (refresh_take_ok b want now O ltac:(lia)) as T.
  assert (f64_le capacity (f64_of 0) = true -> f64_le (rb_capacity b) (f64_of 0) = true) as Z0.
  { intros L. destruct (uval_max capacity (f64_of 0) Nc (proj1 nn_zero)) as [Nm V]. rewrite E.
    rewrite f64_le_uval in * by (done || apply nn_zero). change (uval (f64_of 0)) with 0 in *. lia. }
  assert (f64_le (rb_capacity b) (f64_of 0) = true -> (refresh_take b want now).1 = 0) as Z1
    by (intros L; unfold refresh_take; destruct (if f64_lt _ _ then _ else _) as [? ?]; cbn [fst]; by rewrite L).
  destruct (refresh_take b want now) as [allowed b']. destruct T as (O1 & E1 & A0 & Aw & Al). cbn [fst] in Z1.
  destruct O as (_ & _ & _ & W). destruct O1 as (_ & _ & _ & W1). rewrite E1, E in W1. rewrite E in W.
  split; [done|]. split; [done|]. split; [lia|]. split; [done|]. auto.
Qed.

Lemma refresh_bounded_witness :
  let b := fold_left (fun b (r : Z * Ts) => (refresh_take b r.1 r.2).2) [(500, 0); (64, 0)]
             (refresh_new (f64_of 50) (f64_of 512) 0) in
  let '(allowed, b') := refresh_take b 64 1000000000 in
  within (f64_of 0) (f64_of 512) (rb_tokens b') /\ allowed = 50 /\ rb_tokens b = f64_of 0.
Proof.
  intros b. pose proof (refresh_bounded (f64_of 50) (f64_of 512) 0 [(500, 0); (64, 0)] 64 1000000000
    ltac:(by apply is_num_num) ltac:(by apply is_num_num) eq_refl ltac:(repeat constructor; done) ltac:(lia)) as H.
  fold b in H. cbv zeta in H.
  assert ((refresh_take b 64 1000000000).1 = 50 /\ rb_tokens b = f64_of 0) as [A B] by (vm_compute; split; reflexivity).
  destruct (refresh_take b 64 1000000000) as [allowed b']. destruct H as (_ & W & _). split; [exact W|]. split; [exact A|exact B].
Defined.

(** ** Classes *)

Lemma div_antimono x my ey my' ey' : nn x -> is_finite x = true ->
  canonical_f64 (S754_finite false my ey) -> canonical_f64 (S754_finite false my' ey') ->
  f64_le (S754_finite false my ey) (S754_finite false my' ey') = true ->
  f64_le (f64_div x (S754_finite false my' ey')) (f64_div x (S754_finite false my ey)) = true.
Proof.
  intros [Nx Px] Fx C C' L. destruct (f64_div_spec x my ey) as (C1 & N1 & V1); [apply Nx|done..|].
  destruct (f64_div_spec x my' ey') as (C2 & N2 & V2); [apply Nx|done..|].
  rewrite f64_le_uval in * by done. rewrite nonneg_uval in Px by done.
  pose proof (finite_lt_BIG _ _ _ C). pose proof (finite_lt_BIG _ _ _ C').
  pose proof (Z.pow_pos_nonneg 2 1074 ltac:(lia) ltac:(lia)). cbn [uval sgn] in *. rewrite Z.mul_1_l in *.
  rewrite V1, V2. apply nearestS_mono; [lia..|]. apply Z.mul_le_mono_nonneg_l; [nia|lia].
Qed.

Lemma one_within x : within (f64_of 0) (f64_of 1) x -> within (f64_of 0) (f64_of 1) (f64_sub (f64_of 1) x).
Proof.
  intros W. pose proof (within_sub (f64_of 1) (f64_of 1) _ _ _ _ (within_self (f64_of 1) eq_refl) W eq_refl) as S.
  apply (within_weaken _ _ _ _ _ S). vm_compute. reflexivity.
Qed.

Lemma within_zero_one x : within (f64_of 0) (f64_of 1) x -> nn x /\ is_finite x = true.
Proof. intros W. split; [by apply within_zero_nn in W as [? _]|]. by eapply within_finite. Qed.

(** What is left of the slack for a class. *)
Definition slack_of (cfg : RiskConfig) (c : Consequence) : f64 :=
  f64_div (f64_sub (f64_of 1) (f64_clamp (base_min_freshness cfg) (f64_of 0) (f64_of 1))) (coefficient c).

Lemma base_slack cfg : num (base_min_freshness cfg) ->
  within (f64_of 0) (f64_of 1) (f64_sub (f64_of 1) (f64_clamp (base_min_freshness cfg) (f64_of 0) (f64_of 1))).
Proof. intros N. apply one_within. apply clamp_within; [done|by apply is_num_num..|done]. Qed.

Lemma slack_of_within cfg c : num (base_min_freshness cfg) -> allows_stale c = true ->
  within (f64_of 0) (f64_of 1) (slack_of cfg c).
Proof.
  intros N A. pose proof (base_slack cfg N) as W. unfold slack_of. set (s := f64_sub _ _) in *. clearbody s.
  destruct c; try done; cbn [coefficient];
    match goal with |- within _ _ (f64_div _ ?k) => pose proof (within_div _ _ _ k W eq_refl) as D end;
    (apply (within_weaken _ _ _ _ _ D); vm_compute; reflexivity).
Qed.

Lemma min_freshness_eq cfg c : num (base_min_freshness cfg) ->
  min_freshness cfg c = if allows_stale c then f64_sub (f64_of 1) (slack_of cfg c) else f64_of 1.
Proof.
  intros N. unfold min_freshness. destruct (allows_stale c) eqn:A; [|by destruct c].
  assert (is_finite (coefficient c) = true) as -> by (by destruct c). cbn [negb].
  apply clamp_id; [|by apply is_num_num..]. by apply one_within, slack_of_within.
Qed.

Lemma slack_antimono cfg c c' : num (base_min_freshness cfg) -> allows_stale c = true ->
  consequence_rank c' <= consequence_rank c -> f64_le (slack_of cfg c) (slack_of cfg c') = true.
Proof.
  intros N A L. destruct (within_zero_one _ (base_slack cfg N)) as [Ns Fs]. unfold slack_of. set (s := f64_sub _ _) in *. clearbody s.
  assert (allows_stale c' = true) as A' by (destruct c, c'; done || (cbn in L; lia)).
  assert (forall k, allows_stale k = true -> exists m e, coefficient k = S754_finite false m e /\ canonical_f64 (S754_finite false m e)) as K
    by (intros []; try done; intros _; do 2 eexists; (split; [vm_compute; reflexivity|vm_compute; left; split; split; congruence])).
  destruct (K c A) as (m & e & E & C), (K c' A') as (m' & e' & E' & C'). rewrite E, E'. apply div_antimono; try done.
  rewrite <- E, <- E'. destruct c, c'; try done; cbn in L; lia.
Qed.

Lemma sub_antimono x y y' : num x -> is_finite x = true -> num y -> num y' -> is_finite y = true -> is_finite y' = true ->
  f64_le y y' = true -> num (f64_sub x y) /\ num (f64_sub x y') /\ f64_le (f64_sub x y') (f64_sub x y) = true.
Proof.
  intros Nx Fx Ny Ny' Fy Fy' L. rewrite !f64_sub_add by (apply Ny || apply Ny').
  destruct (f64_add_spec x (SFopp y)) as (C & N & V); [apply Nx|apply canonical_opp, Ny|done|by destruct y|].
  destruct (f64_add_spec x (SFopp y')) as (C' & N' & V'); [apply Nx|apply canonical_opp, Ny'|done|by destruct y'|].
  split; [done|]. split; [done|]. rewrite f64_le_uval in * by done. rewrite V, V', !uval_opp. apply nearestS_mono; lia.
Qed.

(** The floor of a class lies in [0, 1] and does not fall with the severity. *)
Lemma min_freshness_mono cfg c c' : num (base_min_freshness cfg) -> consequence_rank c' <= consequence_rank c ->
  within (f64_of 0) (f64_of 1) (min_freshness cfg c) /\ f64_le (min_freshness cfg c') (min_freshness cfg c) = true.
Proof.
  intros N L. assert (forall k, within (f64_of 0) (f64_of 1) (min_freshness cfg k)) as W.
  { intros k. rewrite min_freshness_eq by done. destruct (allows_stale k) eqn:A; [by apply one_within, slack_of_within|].
    split; [by apply is_num_num|done]. }
  split; [done|]. destruct (allows_stale c) eqn:A.
  - assert (allows_stale c' = true) as A' by (destruct c, c'; done || (cbn in L; lia)).
    rewrite !min_freshness_eq, A, A' by done. pose proof (slack_antimono cfg c c' N A L) as S.
    destruct (within_zero_one _ (slack_of_within cfg c N A)) as [[Na _] Fa].
    destruct (within_zero_one _ (slack_of_within cfg c' N A')) as [[Nb _] Fb].
    apply sub_antimono; [by apply is_num_num|done..].
  - rewrite (min_freshness_eq cfg c), A by done. apply W.
Qed.

Lemma risk_of_mono cfg v c c' trust p s : nn (value_floor_ms cfg) -> is_finite (value_floor_ms cfg) = true ->
  canonical_f64 v -> canonical_f64 p -> allows_stale c = true -> consequence_rank c' <= consequence_rank c ->
  past_horizon c s = false -> past_horizon c' s = false ->
  nn (risk_of cfg v c trust p s) /\ nn (risk_of cfg v c' trust p s) /\
  f64_le (risk_of cfg v c' trust p s) (risk_of cfg v c trust p s) = true.
Proof.
  intros Nf Ff Cv Cp A L H H'. assert (allows_stale c' = true) as A' by (destruct c, c'; done || (cbn in L; lia)).
  unfold risk_of. rewrite A, A', H, H'. cbn [negb].
  set (v0 := if is_finite v then _ else _). set (p0 := if is_nan p then _ else _).
  assert (nn v0) as Nv.
  { unfold v0. destruct (is_finite v) eqn:Fv; [|done]. assert (num v) as N by (split; [done|by destruct v]).
    destruct Nf as [Nf Pf]. destruct (uval_max v (value_floor_ms cfg) N Nf) as [Nm V]. split; [done|].
    rewrite nonneg_uval in * by done. lia. }
  assert (within (f64_of 0) (f64_of 1) p0) as Wp.
  { unfold p0. destruct (is_nan p) eqn:Np; [split; [by apply is_num_num|done]|]. apply clamp_within; [done|by apply is_num_num..|done]. }
  destruct (within_zero_one _ (one_within _ Wp)) as [Nq Fq]. set (q := f64_sub _ _) in *.
  assert (nn (f64_mul v0 q)) as Na.
  { assert (is_finite v0 = true) as Fv.
    { unfold v0. destruct (is_finite v) eqn:Fv; [|done]. assert (num v) as N by (split; [done|by destruct v]).
      by destruct (f64_max_cases v (value_floor_ms cfg) N (proj1 Nf)) as [[-> _]|[-> _]]. }
    destruct (f64_mul_le v0 q) as (? & _ & ?); [apply Nv|done|apply Nv|by apply one_within|done]. }
  set (a := f64_mul v0 q) in *. clearbody a.
  assert (forall k, allows_stale k = true -> num (coefficient k) /\ is_finite (coefficient k) = true /\ f64_lt (f64_of 0) (coefficient k) = true) as K
    by (intros []; try done; intros _; (split; [by apply is_num_num|done])).
  assert (num (penalty trust) /\ is_finite (penalty trust) = true /\ f64_lt (f64_of 0) (penalty trust) = true) as (Np & Fp & Pp)
    by (destruct trust; (split; [by apply is_num_num|done])).
  destruct (K c A) as (Nk & Fk & Pk), (K c' A') as (Nk' & Fk' & Pk').
  pose proof (nn_mul a _ Na Nk Fk Pk) as N1. pose proof (nn_mul a _ Na Nk' Fk' Pk') as N2.
  split; [by apply nn_mul|]. split; [by apply nn_mul|].
  assert (f64_le (penalty trust) (penalty trust) = true) as Rp by (rewrite f64_le_uval by done; lia).
  assert (f64_le a a = true) as Ra by (rewrite f64_le_uval by apply Na; lia).
  apply nn_mul_mono; try done. apply nn_mul_mono; try done.
  destruct c, c'; try done; cbn in L; lia.
Qed.

Lemma past_horizon_mono c c' s : num s -> consequence_rank c' <= consequence_rank c -> past_horizon c s = false ->
  past_horizon c' s = false /\ f64_le s (f64_of (stale_horizon_secs c)) = true.
Proof.
  intros N L H. unfold past_horizon in *. assert (stale_horizon_secs c <= stale_horizon_secs c') as Lh by (destruct c, c'; cbn in *; lia).
  destruct (f64_of_mono _ _ Lh) as (N1 & N2 & Lf). pose proof (not_lt_le _ _ N1 N H) as L1. split; [|done].
  rewrite f64_lt_le by done. apply negb_false_iff. by apply (f64_le_trans _ (f64_of (stale_horizon_secs c))).
Qed.

(** What is admitted to be served stale.  The class permits it, the staleness is
    within the class's horizon, the freshness is at least the class's floor, and the
    risk to be charged is a finite number that is not negative.  And severity only
    tightens: a less severe class is admitted on the same evidence, at no more risk. *)
Theorem assess_admits_safely cfg v c trust p s :
  num (base_min_freshness cfg) -> nn (value_floor_ms cfg) -> is_finite (value_floor_ms cfg) = true ->
  canonical_f64 v -> num p -> num s ->
  as_allowed (assess cfg v c trust p s) = true ->
  allows_stale c = true /\ f64_le s (f64_of (stale_horizon_secs c)) = true /\
  f64_le (min_freshness cfg c) p = true /\
  nn (as_risk (assess cfg v c trust p s)) /\ is_finite (as_risk (assess cfg v c trust p s)) = true /\
  as_risk (assess cfg v c trust p s) = risk_of cfg v c trust p s /\
  (forall c', consequence_rank c' <= consequence_rank c ->
     as_allowed (assess cfg v c' trust p s) = true /\
     f64_le (as_risk (assess cfg v c' trust p s)) (as_risk (assess cfg v c trust p s)) = true).
Proof.
  intros Nb Nf Ff Cv Np Ns. unfold assess. cbn [as_allowed as_risk].
  destruct (allows_stale c) eqn:A; [|done]. destruct (past_horizon c s) eqn:H; [done|].
  destruct (f64_lt p (min_freshness cfg c)) eqn:E; [done|].
  destruct (is_finite (risk_of cfg v c trust p s)) eqn:F; [|done]. cbn [negb]. intros _.
  destruct (min_freshness_mono cfg c c Nb ltac:(lia)) as [Wm _].
  apply not_lt_le in E; [|done|apply Wm].
  destruct (past_horizon_mono c c s Ns ltac:(lia) H) as [_ Lh].
  destruct (risk_of_mono cfg v c c trust p s Nf Ff Cv (proj1 Np) A ltac:(lia) H H) as (Nr & _ & _).
  do 6 (split; [done|]). intros c' L. assert (allows_stale c' = true) as -> by (destruct c, c'; done || (cbn in L; lia)).
  destruct (past_horizon_mono c c' s Ns L H) as [H' _]. rewrite H'. cbn [negb].
  destruct (min_freshness_mono cfg c c' Nb L) as [_ Lm]. destruct (min_freshness_mono cfg c' c' Nb ltac:(lia)) as [Wm' _].
  assert (f64_lt p (min_freshness cfg c') = false) as ->
    by (rewrite f64_lt_le by (done || apply Wm'); apply negb_false_iff; eapply f64_le_trans; [apply Wm'|apply Wm|apply Np|done|done]).
  destruct (risk_of_mono cfg v c c' trust p s Nf Ff Cv (proj1 Np) A L H H') as (_ & Nr' & Lr).
  assert (is_finite (risk_of cfg v c' trust p s) = true) as F' by (by eapply nn_finite_le; [|apply Nr|..]).
  by rewrite F'.
Qed.

Lemma assess_admits_safely_witness :
  let a := assess default_risk_config (f64_of 60) Medium TlUnverified (dec 995 3) (f64_of 30) in
  as_allowed a = true /\ as_allowed (assess default_risk_config (f64_of 60) Low TlUnverified (dec 995 3) (f64_of 30)) = true.
Proof.
  intros a. assert (as_allowed a = true) as H by (vm_compute; reflexivity). split; [exact H|].
  apply (assess_admits_safely default_risk_config (f64_of 60) Medium TlUnverified (dec 995 3) (f64_of 30));
    [by apply is_num_num|by apply nn_const|done|by apply is_num_num|by apply is_num_num|by apply is_num_num|exact H|done].
Defined.

(** A freshness that is not a number passes the floor of every class that may be
    served stale. *)
Example nan_freshness_admitted :
  as_allowed (assess default_risk_config (f64_of 20) Critical TlChainAnchored S754_nan (f64_of 0)) = true.
Proof. vm_compute. reflexivity. Qed.
