(* ===== verification/Provenance.v ===== *)
(** * Answer provenance ([src/provenance.rs])

    The cache entries one final answer rests on, with their conservative freshness,
    under a cap on how many are kept; the bound on the answer and what refreshing a
    dependency would gain. *)
From S2P Require Import Prelude Wire Prng Name Qtype BTree Sort Float64 Float FloatOrder CacheKey Hazard Risk.

Inductive DependencyRole := DrAnswer | DrCname | DrDname | DrDelegation | DrNsAddress | DrDnssecProof.
#[global] Instance DependencyRole_eq_dec : EqDecision DependencyRole.
Proof. solve_decision. Defined.

(** The derived order. *)
Definition role_rank (r : DependencyRole) : Z :=
  match r with DrAnswer => 0 | DrCname => 1 | DrDname => 2 | DrDelegation => 3 | DrNsAddress => 4 | DrDnssecProof => 5 end.

Definition role_consequence (r : DependencyRole) : Consequence :=
  match r with
  | DrAnswer => Low
  | DrCname | DrDname => Medium
  | DrDelegation | DrNsAddress => Critical
  | DrDnssecProof => Absolute
  end.

Definition role_permits_stale (r : DependencyRole) : bool := match r with DrDnssecProof => false | _ => true end.

Definition role_str (r : DependencyRole) : string :=
  match r with
  | DrAnswer => "answer" | DrCname => "cname" | DrDname => "dname" | DrDelegation => "delegation"
  | DrNsAddress => "ns-address" | DrDnssecProof => "dnssec-proof"
  end.

Record ProvenanceConfig := mkProvConfig { max_dependencies : Z }.
Definition default_provenance_config : ProvenanceConfig := mkProvConfig 16.

Record Dependency := mkDependency { dp_role : DependencyRole; dp_key : CacheKey; dp_hop : Z; dp_lcb : f64 }.

Definition dependency_new (role : DependencyRole) (key : CacheKey) (hop : Z) (freshness_lcb : f64) : Dependency :=
  mkDependency role key hop
    (if is_nan freshness_lcb then f64_of 0 else f64_clamp freshness_lcb (f64_of 0) (f64_of 1)).

Definition dep_permits_stale (d : Dependency) : bool := role_permits_stale (dp_role d).

Record Provenance := mkProvenance { pv_config : ProvenanceConfig; pv_deps : list Dependency; pv_residual : f64 }.

Definition provenance_new (cfg : ProvenanceConfig) : Provenance := mkProvenance cfg [] (f64_of 1).
Definition provenance_default : Provenance := provenance_new default_provenance_config.

(** [a] does not sort after [b]: freshness, role, key. *)
Definition dep_le (a b : Dependency) : bool :=
  match SFcompare (dp_lcb a) (dp_lcb b) with
  | Some Lt => true
  | Some Gt => false
  | Some Eq | None =>
      if role_rank (dp_role a) =? role_rank (dp_role b) then negb (klt (dp_key b) (dp_key a))
      else role_rank (dp_role a) <? role_rank (dp_role b)
  end.

Definition is_proof (d : Dependency) : bool := bool_decide (dp_role d = DrDnssecProof).

(** The loop over the sorted dependencies: those kept, and the residual. *)
Fixpoint keep_loop (room : Z) (deps : list Dependency) (others_kept : Z) (residual : f64) : list Dependency * f64 :=
  match deps with
  | [] => ([], residual)
  | d :: deps =>
      if is_proof d || (others_kept <? room) then
        let others_kept := if is_proof d then others_kept else others_kept + 1 in
        let '(kept, residual) := keep_loop room deps others_kept residual in (d :: kept, residual)
      else keep_loop room deps others_kept (f64_min residual (dp_lcb d))
  end.

Definition provenance_cap (cfg : ProvenanceConfig) : Z := Z.max (max_dependencies cfg) 1.

Definition from_dependencies (cfg : ProvenanceConfig) (deps : list Dependency) : Provenance :=
  let cap := provenance_cap cfg in
  if cap <? zlen deps then
    let deps := stable_sort dep_le deps in
    let proofs := zlen (List.filter is_proof deps) in
    let room := Z.max 0 (cap - proofs) in
    let '(kept, residual) := keep_loop room deps 0 (f64_of 1) in mkProvenance cfg kept residual
  else mkProvenance cfg deps (f64_of 1).

(** [max_by] on the freshness, the last of equal ones. *)
Fixpoint strongest (l : list (nat * Dependency)) (best : option (nat * Dependency)) : option (nat * Dependency) :=
  match l with
  | [] => best
  | x :: l =>
      strongest l
        (match best with
         | None => Some x
         | Some b => match SFcompare (dp_lcb b.2) (dp_lcb x.2) with Some Gt => Some b | _ => Some x end
         end)
  end.

Definition push (p : Provenance) (dep : Dependency) : Provenance :=
  let deps := pv_deps p ++ [dep] in
  if provenance_cap (pv_config p) <? zlen deps then
    match strongest (List.filter (fun x => negb (is_proof x.2)) (zip (seq 0 (length deps)) deps)) None with
    | Some (idx, dropped) => mkProvenance (pv_config p) (delete idx deps) (f64_min (pv_residual p) (dp_lcb dropped))
    | None => mkProvenance (pv_config p) deps (pv_residual p)
    end
  else mkProvenance (pv_config p) deps (pv_residual p).

Definition fold_min (l : list f64) (init : f64) : f64 := fold_left f64_min l init.

Definition bound (p : Provenance) : f64 := f64_min (fold_min (map dp_lcb (pv_deps p)) INFINITY) (pv_residual p).

Definition independent_bound (p : Provenance) : f64 :=
  match pv_deps p with
  | [] => f64_of 1
  | deps => f64_clamp (fold_left (fun q d => f64_mul q (dp_lcb d)) deps (f64_of 1)) (f64_of 0) (f64_of 1)
  end.

(** [min_by] on the freshness, the first of equal ones. *)
Fixpoint weakest (l : list Dependency) (best : option Dependency) : option Dependency :=
  match l with
  | [] => best
  | x :: l =>
      weakest l
        (match best with
         | None => Some x
         | Some b => match SFcompare (dp_lcb b) (dp_lcb x) with Some Gt => Some x | _ => Some b end
         end)
  end.
Definition bottleneck (p : Provenance) : option Dependency := weakest (pv_deps p) None.

Definition risk_reduction_at (p : Provenance) (index : nat) : f64 :=
  match pv_deps p !! index with
  | None => f64_of 0
  | Some _ =>
      let others := f64_min (f64_min (fold_min (map dp_lcb (delete index (pv_deps p))) INFINITY) (pv_residual p)) (f64_of 1) in
      f64_max (f64_sub others (bound p)) (f64_of 0)
  end.

(** The derived equality of dependencies. *)
Definition dependency_eq (a b : Dependency) : bool :=
  bool_decide (dp_role a = dp_role b) && bool_decide (dp_key a = dp_key b) && (dp_hop a =? dp_hop b) && SFeqb (dp_lcb a) (dp_lcb b).

Fixpoint position (d : Dependency) (l : list Dependency) : option nat :=
  match l with
  | [] => None
  | x :: l => if dependency_eq x d then Some 0%nat else option_map S (position d l)
  end.
Definition risk_reduction (p : Provenance) (d : Dependency) : f64 :=
  match position d (pv_deps p) with Some i => risk_reduction_at p i | None => f64_of 0 end.

Definition refresh_plan (p : Provenance) (max : Z) : list CacheKey :=
  map dp_key (take (Z.to_nat (Z.max max 1)) (stable_sort dep_le (pv_deps p))).

Definition permits_stale (p : Provenance) : bool := forallb dep_permits_stale (pv_deps p).

Definition worst_consequence (p : Provenance) : option Consequence :=
  match map (fun d => role_consequence (dp_role d)) (pv_deps p) with
  | [] => None
  | c :: cs => Some (fold_left consequence_max cs c)
  end.

Definition can_serve_stale (p : Provenance) (threshold : f64) : bool :=
  negb (zlen (pv_deps p) =? 0) && permits_stale p && f64_le threshold (bound p).

(** The owners of a chain of aliases: the query name, then each target but the last. *)
Definition chain_owner (qname : Name) (chain : list Name) (i : nat) : Name :=
  match i with 0%nat => qname | S i => default qname (chain !! i) end.

Definition from_alias_chain (cfg : ProvenanceConfig) (qname : Name) (qtype : RrType) (chain : list Name)
    (proof_freshness : option f64) (freshness_of : CacheKey -> f64) : Provenance :=
  let hops := map (fun i =>
    let key := plain (chain_owner qname chain i) RrTypes.CNAME RrClasses.IN_ in
    dependency_new DrCname key (Z.min (Z.of_nat i) 255) (freshness_of key)) (seq 0 (length chain)) in
  let answer_key := plain (default qname (list.last chain)) qtype RrClasses.IN_ in
  let hop := Z.min (zlen chain) 255 in
  let proof := match proof_freshness with Some pf => [dependency_new DrDnssecProof answer_key hop pf] | None => [] end in
  from_dependencies cfg (hops ++ [dependency_new DrAnswer answer_key hop (freshness_of answer_key)] ++ proof).

(** ** Lemmas: minima *)

Definition lcb_ok (d : Dependency) : Prop := within (f64_of 0) (f64_of 1) (dp_lcb d).

Lemma dependency_new_ok role key hop x : canonical_f64 x -> lcb_ok (dependency_new role key hop x).
Proof.
  intros C. unfold lcb_ok, dependency_new. cbn [dp_lcb]. destruct (is_nan x) eqn:N; [by apply (within_weaken _ _ _ _ _ (within_self (f64_of 0) eq_refl))|].
  apply clamp_within; [done|by apply is_num_num..|done].
Qed.

(** The least value of a list, at most [init]. *)
Definition minval (init : Z) (l : list Z) : Z := fold_right Z.min init l.

Lemma minval_perm init l l' : Permutation l l' -> minval init l = minval init l'.
Proof. induction 1; cbn [minval fold_right]; unfold minval in *; lia. Qed.

Lemma minval_app init l l' : minval init (l ++ l') = Z.min (minval init l) (minval init l').
Proof. unfold minval. induction l as [|x l IH]; cbn [app fold_right]; [|lia]. induction l' as [|y l' IH]; cbn [fold_right]; lia. Qed.

Lemma minval_le init l x : In x l -> minval init l <= x.
Proof. unfold minval. induction l as [|y l IH]; [done|]. cbn [fold_right]. intros [->|H]; [lia|]. specialize (IH H). lia. Qed.

Lemma minval_init init l : minval init l <= init.
Proof. unfold minval. induction l as [|y l IH]; cbn [fold_right]; lia. Qed.

Lemma minval_attained init l : minval init l = init \/ In (minval init l) l.
Proof.
  unfold minval. induction l as [|y l IH]; cbn [fold_right]; [by left|].
  destruct (Z.min_spec y (fold_right Z.min init l)) as [[_ ->]|[_ ->]]; [right; by left|].
  destruct IH as [IH|IH]; [by left|right; by right].
Qed.

Lemma fold_min_spec l init : Forall num l -> num init ->
  num (fold_min l init) /\ uval (fold_min l init) = minval (uval init) (map uval l).
Proof.
  unfold fold_min. intros H. revert init. induction H as [|x l Hx H IH]; intros init Hi; [done|]. cbn [fold_left map].
  destruct (uval_min init x Hi Hx) as [Nm V]. destruct (IH _ Nm) as [N E]. split; [done|]. rewrite E, V.
  unfold minval. cbn [fold_right]. clear. induction (map uval l) as [|y l' IHl]; cbn [fold_right]; lia.
Qed.

Definition values (ds : list Dependency) : list Z := map (fun d => uval (dp_lcb d)) ds.
Abbreviation ONE := (uval (f64_of 1)).

Lemma lcb_num ds : Forall lcb_ok ds -> Forall num (map dp_lcb ds).
Proof. intros H. apply Forall_fmap. eapply List.Forall_impl; [|exact H]. intros d Hd. apply Hd. Qed.

Lemma lcb_uval d : lcb_ok d -> 0 <= uval (dp_lcb d) <= ONE.
Proof. intros (N & L & H). rewrite f64_le_uval in L, H by (done || by apply is_num_num). change (uval (f64_of 0)) with 0 in L. lia. Qed.

Lemma ONE_BIG : ONE <= uval INFINITY.
Proof. apply f64_le_uval; [by apply is_num_num..|done]. Qed.

(** ** What the cap leaves *)

(** [p] holds [ds] but for dependencies that are no proofs, whose freshness the
    residual carries. *)
Definition capped (p : Provenance) (ds : list Dependency) : Prop :=
  exists dropped, Permutation (pv_deps p ++ dropped) ds /\ Forall (fun d => is_proof d = false) dropped /\
    num (pv_residual p) /\ uval (pv_residual p) = minval ONE (values dropped).

Lemma bound_capped p ds : capped p ds -> Forall lcb_ok ds ->
  num (bound p) /\ uval (bound p) = minval ONE (values ds).
Proof.
  intros (dropped & P & _ & Nr & Vr) H.
  assert (Forall lcb_ok (pv_deps p ++ dropped)) as H2 by (eapply Permutation_Forall; [symmetry; exact P|done]).
  apply Forall_app in H2 as [Hd Hx].
  destruct (fold_min_spec (map dp_lcb (pv_deps p)) INFINITY (lcb_num _ Hd) ltac:(by apply is_num_num)) as [Nf Vf].
  destruct (uval_min _ _ Nf Nr) as [Nm Vm]. split; [done|]. unfold bound. rewrite Vm, Vf, Vr.
  rewrite <- (minval_perm ONE (values (pv_deps p ++ dropped)) (values ds)) by (by apply Permutation_map).
  unfold values. rewrite map_app, minval_app, map_map. pose proof ONE_BIG.
  pose proof (minval_init ONE (map (fun d => uval (dp_lcb d)) dropped)).
  unfold minval in *. set (r := fold_right Z.min ONE (map _ dropped)) in *. clearbody r.
  induction (map (fun d => uval (dp_lcb d)) (pv_deps p)) as [|x l IH]; cbn [fold_right]; lia.
Qed.

Lemma permits_capped p ds : capped p ds -> permits_stale p = forallb dep_permits_stale ds.
Proof.
  intros (dropped & P & Hp & _). unfold permits_stale.
  assert (forallb dep_permits_stale dropped = true) as E.
  { apply forallb_forall. intros d Hd. rewrite List.Forall_forall in Hp. specialize (Hp d Hd).
    unfold is_proof in Hp. unfold dep_permits_stale. by destruct (dp_role d). }
  rewrite <- (andb_true_r (forallb _ (pv_deps p))), <- E, <- forallb_app.
  clear -P. induction P as [|d l l' P IH|d e l|l l' l'' P1 IH1 P2 IH2]; cbn [forallb]; try congruence.
  by rewrite !andb_assoc, (andb_comm (dep_permits_stale e)).
Qed.

Lemma strongest_In l best x : strongest l best = Some x -> In x l \/ best = Some x.
Proof.
  revert best. induction l as [|y l IH]; intros best H; cbn [strongest] in H; [by right|].
  destruct (IH _ H) as [?|E]; [left; by right|]. destruct best as [b|]; [|injection E as ->; left; by left].
  destruct (SFcompare _ _) as [[]|]; injection E as ->; ((left; by left) || by right).
Qed.

Lemma strongest_Some l b : exists x, strongest l (Some b) = Some x.
Proof.
  revert b. induction l as [|y l IH]; intros b; cbn [strongest]; [by eexists|]. destruct (SFcompare _ _) as [[]|]; apply IH.
Qed.

Lemma strongest_None l : strongest l None = None -> l = [].
Proof. destruct l as [|x l]; [done|]. cbn [strongest]. destruct (strongest_Some l x) as [y ->]. done. Qed.

Lemma In_zip_seq {A} (l : list A) n i x : In (i, x) (zip (seq n (length l)) l) -> l !! (i - n)%nat = Some x /\ (n <= i)%nat.
Proof.
  revert n. induction l as [|y l IH]; intros n H; [done|]. cbn [length seq zip zip_with] in H. destruct H as [[= -> ->]|H].
  - rewrite Nat.sub_diag. split; [done|lia].
  - apply IH in H as [H ?]. split; [|lia]. replace (i - n)%nat with (S (i - S n)) by lia. done.
Qed.

Lemma push_capped p d ds : capped p ds -> lcb_ok d -> Forall lcb_ok ds -> capped (push p d) (ds ++ [d]).
Proof.
  intros (dropped & P & Hp & Nr & Vr) Hd H. unfold push. set (deps := pv_deps p ++ [d]).
  assert (Permutation (deps ++ dropped) (ds ++ [d])) as P2.
  { unfold deps. transitivity ((pv_deps p ++ dropped) ++ [d]); [|by apply Permutation_app_tail].
    rewrite <- !app_assoc. apply Permutation_app_head, Permutation_app_comm. }
  destruct (_ <? _); [|by exists dropped].
  destruct (strongest _ _) as [[i x]|] eqn:E; [|by exists dropped].
  apply strongest_In in E as [E|]; [|done]. apply filter_In in E as [E Ex]. apply negb_true_iff in Ex. cbn [snd] in Ex.
  apply In_zip_seq in E as [E _]. rewrite Nat.sub_0_r in E. exists (x :: dropped). cbn [pv_deps pv_residual].
  assert (Permutation deps (x :: delete i deps)) as P3 by (by apply delete_Permutation).
  assert (lcb_ok x) as Ox.
  { assert (Forall lcb_ok (deps ++ dropped)) as Hall by (eapply Permutation_Forall; [symmetry; exact P2|apply Forall_app; split; [done|by constructor]]).
    apply Forall_app in Hall as [Hall _]. rewrite List.Forall_forall in Hall. apply Hall, list_elem_of_In. by apply (list_elem_of_lookup_2 _ i). }
  split; [|split; [by constructor|]].
  - transitivity (deps ++ dropped); [|done]. transitivity ((x :: delete i deps) ++ dropped); [|by apply Permutation_app_tail; symmetry].
    cbn [app]. symmetry. apply Permutation_middle.
  - destruct (uval_min (pv_residual p) (dp_lcb x) Nr ltac:(apply Ox)) as [Nm Vm]. split; [done|]. rewrite Vm, Vr.
    unfold values, minval. cbn [map fold_right]. lia.
Qed.

Lemma push_all_capped p ds rest : capped p ds -> Forall lcb_ok ds -> Forall lcb_ok rest -> capped (fold_left push rest p) (ds ++ rest).
Proof.
  revert p ds. induction rest as [|d rest IH]; intros p ds C H R; [by rewrite app_nil_r|].
  inversion R as [|? ? Hd R']; subst. cbn [fold_left]. replace (ds ++ d :: rest) with ((ds ++ [d]) ++ rest) by (by rewrite <- app_assoc).
  apply IH; [by apply push_capped|apply Forall_app; split; [done|by constructor]|done].
Qed.

Lemma new_capped cfg : capped (provenance_new cfg) [].
Proof. exists []. split; [done|]. split; [done|]. split; [by apply is_num_num|done]. Qed.

Lemma keep_loop_spec room deps n residual kept r : Forall lcb_ok deps -> num residual ->
  keep_loop room deps n residual = (kept, r) ->
  exists dropped, Permutation (kept ++ dropped) deps /\ Forall (fun d => is_proof d = false) dropped /\ num r /\
    uval r = minval (uval residual) (values dropped).
Proof.
  intros H. revert n residual kept r. induction H as [|d deps Hd H IH]; intros n residual kept r N E.
  { injection E as <- <-. by exists []. }
  cbn [keep_loop] in E. destruct (is_proof d || _) eqn:B.
  - destruct (keep_loop _ _ _ _) as [kept' r'] eqn:K. injection E as <- <-. destruct (IH _ _ _ _ N K) as (dr & P & F & Nr & V).
    exists dr. split; [by constructor|]. done.
  - apply orb_false_iff in B as [B _]. destruct (uval_min residual (dp_lcb d) N ltac:(apply Hd)) as [Nm Vm].
    destruct (IH _ _ _ _ Nm E) as (dr & P & F & Nr & V). exists (d :: dr). split; [|split; [by constructor|split; [done|]]].
    + transitivity (d :: kept ++ dr); [symmetry; apply Permutation_middle|by constructor].
    + rewrite V, Vm. unfold values, minval. cbn [map fold_right]. clear. induction (map _ dr) as [|y l' IHl]; cbn [fold_right]; lia.
Qed.

Lemma from_dependencies_capped cfg ds : Forall lcb_ok ds -> capped (from_dependencies cfg ds) ds.
Proof.
  intros H. unfold from_dependencies. destruct (_ <? _); [|exists []; rewrite app_nil_r; split; [done|]; split; [done|]; split; [by apply is_num_num|done]].
  destruct (keep_loop _ _ _ _) as [kept r] eqn:K.
  assert (Permutation (stable_sort dep_le ds) ds) as P by apply stable_sort_perm.
  apply keep_loop_spec in K as (dr & P2 & F & N & V); [|eapply Permutation_Forall; [symmetry; exact P|done]|by apply is_num_num].
  exists dr. cbn [pv_deps pv_residual]. split; [by transitivity (stable_sort dep_le ds)|done].
Qed.

(** ** What the cap keeps *)

Lemma keep_loop_length room deps n residual : 0 <= n <= Z.max 0 room ->
  zlen (fst (keep_loop room deps n residual)) <= zlen (List.filter is_proof deps) + Z.max 0 room - n.
Proof.
  revert n residual. induction deps as [|d deps IH]; intros n residual H; cbn [keep_loop List.filter]; [unfold zlen; cbn; lia|].
  destruct (is_proof d) eqn:P; cbn [orb].
  - specialize (IH n residual H). destruct (keep_loop _ _ _ _) as [k r]. cbn [fst] in *. unfold zlen in *. cbn [length]. lia.
  - destruct (n <? room) eqn:L; [|by apply IH]. assert (0 <= n + 1 <= Z.max 0 room) as H2 by lia. specialize (IH (n + 1) residual H2).
    destruct (keep_loop _ _ _ _) as [k r]. cbn [fst] in *. unfold zlen in *. cbn [length]. lia.
Qed.

Lemma zlen_perm {A} (l l' : list A) : Permutation l l' -> zlen l = zlen l'.
Proof. intros P. unfold zlen. by rewrite (Permutation_length P). Qed.

Lemma from_dependencies_length cfg ds :
  zlen (pv_deps (from_dependencies cfg ds)) <= Z.max (provenance_cap cfg) (zlen (List.filter is_proof ds)).
Proof.
  unfold from_dependencies. destruct (_ <? _) eqn:L; [|cbn [pv_deps]; lia].
  rewrite (zlen_perm (List.filter is_proof (stable_sort dep_le ds)) (List.filter is_proof ds)) by (apply filter_perm, stable_sort_perm).
  set (room := Z.max 0 _). pose proof (keep_loop_length room (stable_sort dep_le ds) 0 (f64_of 1) ltac:(lia)) as H.
  rewrite (zlen_perm (List.filter is_proof (stable_sort dep_le ds)) (List.filter is_proof ds)) in H by (apply filter_perm, stable_sort_perm).
  destruct (keep_loop _ _ _ _) as [k r]. cbn [fst pv_deps] in *. lia.
Qed.

Lemma zip_seq_snd {A} (l : list A) n : map snd (zip (seq n (length l)) l) = l.
Proof. revert n. induction l as [|x l IH]; intros n; cbn [length seq zip zip_with map]; [done|]. cbn [snd]. f_equal. apply IH. Qed.

Lemma push_length p d :
  zlen (pv_deps p) <= Z.max (provenance_cap (pv_config p)) (zlen (List.filter is_proof (pv_deps p))) ->
  zlen (pv_deps (push p d)) <=
    Z.max (provenance_cap (pv_config (push p d))) (zlen (List.filter is_proof (pv_deps (push p d)))).
Proof.
  intros H. unfold push. set (deps := pv_deps p ++ [d]).
  assert (zlen deps = zlen (pv_deps p) + 1) as L by (unfold deps; rewrite zlen_app; done).
  destruct (_ <? _) eqn:C; [|cbn [pv_deps pv_config]; lia].
  destruct (strongest _ _) as [[i x]|] eqn:E; cbn [pv_deps pv_config].
  - apply strongest_In in E as [E|]; [|done]. apply filter_In in E as [E Ex]. apply negb_true_iff in Ex. cbn [snd] in Ex.
    apply In_zip_seq in E as [E _]. rewrite Nat.sub_0_r in E.
    assert (Permutation deps (x :: delete i deps)) as P by (by apply delete_Permutation).
    assert (zlen (delete i deps) = zlen (pv_deps p)) as -> by (apply zlen_perm in P; unfold zlen in *; cbn [length] in P; lia).
    pose proof (zlen_perm _ _ (filter_perm is_proof _ _ P)) as F. cbn [List.filter] in F. rewrite Ex in F. rewrite <- F.
    unfold deps. rewrite List.filter_app, zlen_app. unfold zlen in *. lia.
  - apply strongest_None in E. assert (List.filter is_proof deps = deps) as ->; [|lia].
    assert (forall y, In y deps -> is_proof y = true) as A.
    { intros y Hy. rewrite <- (zip_seq_snd deps 0) in Hy. apply in_map_iff in Hy as (z & <- & Hz).
      destruct (is_proof z.2) eqn:Z; [done|]. exfalso.
      assert (In z []) as []. rewrite <- E. apply filter_In. by rewrite Z. }
    clearbody deps. clear -A. induction deps as [|y l IH]; [done|]. cbn [List.filter]. rewrite (A y) by (by left). f_equal.
    apply IH. intros z Hz. apply A. by right.
Qed.

Lemma num_unit x : num x -> 0 <= uval x <= ONE -> within (f64_of 0) (f64_of 1) x.
Proof. intros N V. split; [done|]. split; (apply f64_le_uval; [(done || by apply is_num_num)..|]); [change (uval (f64_of 0)) with 0|]; lia. Qed.

Lemma values_range ds : Forall lcb_ok ds -> 0 <= minval ONE (values ds) <= ONE.
Proof.
  intros H. split; [|apply minval_init]. destruct (minval_attained ONE (values ds)) as [->|E]; [done|].
  apply in_map_iff in E as (d & <- & Hd). rewrite List.Forall_forall in H. by apply lcb_uval, H.
Qed.

Definition few_others (p : Provenance) : Prop :=
  zlen (pv_deps p) <= Z.max (provenance_cap (pv_config p)) (zlen (List.filter is_proof (pv_deps p))).

Lemma push_all_length rest p : few_others p -> few_others (fold_left push rest p).
Proof. revert p. induction rest as [|d rest IH]; [done|]. intros p H. cbn [fold_left]. by apply IH, push_length. Qed.

Lemma capped_proofs p ds : capped p ds -> zlen (List.filter is_proof (pv_deps p)) = zlen (List.filter is_proof ds).
Proof.
  intros (dr & P & F & _). rewrite <- (zlen_perm _ _ (filter_perm is_proof _ _ P)), List.filter_app.
  assert (List.filter is_proof dr = []) as ->; [|by rewrite app_nil_r].
  clear -F. induction F as [|d l Hd F IH]; [done|]. cbn [List.filter]. by rewrite Hd.
Qed.

Lemma from_dependencies_kept cfg ds : Forall lcb_ok ds -> few_others (from_dependencies cfg ds).
Proof.
  intros H. unfold few_others. rewrite (capped_proofs _ ds) by (by apply from_dependencies_capped).
  replace (pv_config (from_dependencies cfg ds)) with cfg; [apply from_dependencies_length|].
  unfold from_dependencies. destruct (_ <? _); [|done]. by destruct (keep_loop _ _ _ _).
Qed.

(** What the bound promises: no dependency ever pushed is fresher than it says, and it
    is no smaller than it must be; the proofs are all kept, so whether the answer may be
    stale at all is decided on the whole set. *)

(** a provenance built from any list of dependencies under any cap, and then pushed
    to any number of times, reports a bound that is at most the freshness of every
    dependency given and at most one, and that is either one or the freshness of one of
    them: trimming changes nothing. Whether stale service is permitted is answered as on
    the whole list, every DNSSEC proof is kept, and what is kept exceeds the cap only
    when proofs alone do. *)
Theorem provenance_bound_exact cfg ds rest : Forall lcb_ok ds -> Forall lcb_ok rest ->
  let p := fold_left push rest (from_dependencies cfg ds) in
  let all := ds ++ rest in
  (forall d, In d all -> f64_le (bound p) (dp_lcb d) = true) /\ f64_le (bound p) (f64_of 1) = true /\
  (f64_le (f64_of 1) (bound p) = true \/ exists d, In d all /\ f64_le (dp_lcb d) (bound p) = true) /\
  permits_stale p = forallb dep_permits_stale all /\
  (forall d, In d (pv_deps p) -> In d all) /\
  (forall d, In d all -> dp_role d = DrDnssecProof -> In d (pv_deps p)) /\
  zlen (pv_deps p) <= Z.max (provenance_cap (pv_config p)) (zlen (List.filter is_proof (pv_deps p))).
Proof.
  intros H R p all. assert (Forall lcb_ok all) as A by (by apply Forall_app).
  assert (capped p all) as C by (apply push_all_capped; [by apply from_dependencies_capped|done..]).
  destruct (bound_capped p all C A) as [Nb Vb]. pose proof (proj1 (List.Forall_forall _ _) A) as A'.
  assert (num (f64_of 1)) as N1 by (by apply is_num_num). destruct C as (dr & P & F & _).
  assert (forall d, In d (pv_deps p) -> In d all) as Hin.
  { intros d Hd. eapply Permutation_in; [exact P|]. apply in_app_iff. by left. }
  split; [|split; [|split; [|split; [|split; [done|split]]]]].
  - intros d Hd. apply f64_le_uval; [done|by apply (A' d Hd)|]. rewrite Vb. by apply minval_le, (in_map (fun d => uval (dp_lcb d))).
  - apply f64_le_uval; [done..|]. rewrite Vb. apply minval_init.
  - destruct (minval_attained ONE (values all)) as [E|E]; [left; apply f64_le_uval; [done..|]; lia|right].
    apply in_map_iff in E as (d & E & Hd). exists d. split; [done|]. apply f64_le_uval; [by apply (A' d Hd)|done|]. lia.
  - apply permits_capped. apply push_all_capped; [by apply from_dependencies_capped|done..].
  - intros d Hd Hr. apply (Permutation_in d (Permutation_sym P)), in_app_iff in Hd as [|Hd]; [done|].
    rewrite List.Forall_forall in F. specialize (F d Hd). unfold is_proof in F. by rewrite Hr in F.
  - apply push_all_length. apply from_dependencies_kept, H.
Qed.

(** [p] after the retained dependency at [index] was refreshed. *)
Definition refreshed (p : Provenance) (index : nat) : Provenance :=
  mkProvenance (pv_config p)
    (match pv_deps p !! index with
     | Some d => <[index := mkDependency (dp_role d) (dp_key d) (dp_hop d) (f64_of 1)]> (pv_deps p)
     | None => pv_deps p
     end) (pv_residual p).

Lemma minval_min a b l : minval (Z.min a b) l = Z.min (minval a l) b.
Proof. unfold minval. induction l as [|y l IH]; cbn [fold_right]; [done|lia]. Qed.

Lemma bound_value p : Forall lcb_ok (pv_deps p) -> num (pv_residual p) ->
  num (bound p) /\ uval (bound p) = Z.min (minval (uval INFINITY) (values (pv_deps p))) (uval (pv_residual p)).
Proof.
  intros H N. destruct (fold_min_spec _ INFINITY (lcb_num _ H) ltac:(by apply is_num_num)) as [Nf Vf].
  destruct (uval_min _ _ Nf N) as [Nm Vm]. split; [done|]. unfold bound, values. by rewrite Vm, Vf, map_map.
Qed.

Lemma nearestS_sign n : 0 <= n -> 0 <= nearestS n 1 /\ (nearestS n 1 = 0 <-> n = 0).
Proof.
  intros H. pose proof (nearestS_mono 0 1 n 1 ltac:(lia) ltac:(lia) ltac:(lia)) as M. rewrite nearestS_0 in M by lia.
  split; [done|]. split; [|intros ->; by apply nearestS_0]. intros E. destruct (Z.eq_dec n 0) as [|D]; [done|].
  pose proof (nearestS_mono 1 1 n 1 ltac:(lia) ltac:(lia) ltac:(lia)) as M1. change (nearestS 1 1) with 1 in M1. lia.
Qed.

Lemma values_delete ds i d : ds !! i = Some d -> forall init,
  minval init (values ds) = Z.min (uval (dp_lcb d)) (minval init (values (delete i ds))).
Proof.
  intros E init. rewrite (minval_perm init (values ds) (values (d :: delete i ds))); [done|].
  by apply Permutation_map, delete_Permutation.
Qed.

Lemma delete_insert_same {A} (l : list A) i x : delete i (<[i := x]> l) = delete i l.
Proof. revert i. induction l as [|y l IH]; intros [|i]; cbn; try done. f_equal. apply IH. Qed.

Lemma others_value p i : Forall lcb_ok (pv_deps p) -> num (pv_residual p) ->
  let o := f64_min (f64_min (fold_min (map dp_lcb (delete i (pv_deps p))) INFINITY) (pv_residual p)) (f64_of 1) in
  num o /\ uval o = Z.min (Z.min (minval (uval INFINITY) (values (delete i (pv_deps p)))) (uval (pv_residual p))) ONE.
Proof.
  intros H N o. assert (Forall lcb_ok (delete i (pv_deps p))) as Hd.
  { apply List.Forall_forall. rewrite List.Forall_forall in H. intros x Hx. apply H.
    apply list_elem_of_In. apply list_elem_of_In in Hx. by apply (list_elem_of_delete_inv _ i). }
  destruct (fold_min_spec _ INFINITY (lcb_num _ Hd) ltac:(by apply is_num_num)) as [Nf Vf].
  destruct (uval_min _ _ Nf N) as [Nm Vm]. destruct (uval_min _ (f64_of 1) Nm ltac:(by apply is_num_num)) as [No Vo].
  split; [done|]. unfold o, values. by rewrite Vo, Vm, Vf, map_map.
Qed.

Lemma minval_nonneg init ds : 0 <= init -> Forall lcb_ok ds -> 0 <= minval init (values ds).
Proof.
  intros Hi H. destruct (minval_attained init (values ds)) as [->|E]; [done|]. apply in_map_iff in E as (d & <- & Hd).
  rewrite List.Forall_forall in H. by apply lcb_uval, H.
Qed.

Lemma Forall_delete_ok ds i : Forall lcb_ok ds -> Forall lcb_ok (delete i ds).
Proof.
  intros H. apply List.Forall_forall. rewrite List.Forall_forall in H. intros x Hx. apply H, list_elem_of_In.
  apply list_elem_of_In in Hx. by apply (list_elem_of_delete_inv _ i).
Qed.

Lemma sub_unit a b : num a -> num b -> 0 <= uval b <= uval a -> uval a <= ONE ->
  num (f64_max (f64_sub a b) (f64_of 0)) /\ uval (f64_max (f64_sub a b) (f64_of 0)) = nearestS (uval a - uval b) 1.
Proof.
  intros Na Nb H Ha. destruct (finite_within _ _ a (num_unit a Na ltac:(lia)) eq_refl) as [Ca Fa].
  destruct (finite_within _ _ b (num_unit b Nb ltac:(lia)) eq_refl) as [Cb Fb].
  rewrite f64_sub_add by (by destruct Nb). 
  destruct (f64_add_spec a (SFopp b) Ca (canonical_opp _ Cb) Fa ltac:(by destruct b)) as (C & Nn & V).
  destruct (uval_max (f64_add a (SFopp b)) (f64_of 0) (conj C Nn) ltac:(by apply is_num_num)) as [N E].
  split; [done|]. rewrite E, V, uval_opp. change (uval (f64_of 0)) with 0.
  replace (uval a + - uval b) with (uval a - uval b) by lia. pose proof (nearestS_sign (uval a - uval b) ltac:(lia)). lia.
Qed.

(** The three minima a refresh compares. *)
Lemma refresh_values p i d : Forall lcb_ok (pv_deps p) -> within (f64_of 0) (f64_of 1) (pv_residual p) ->
  pv_deps p !! i = Some d -> exists m, 0 <= m /\
    (num (bound p) /\ uval (bound p) = Z.min (Z.min (uval (dp_lcb d)) m) (uval (pv_residual p))) /\
    (num (bound (refreshed p i)) /\ uval (bound (refreshed p i)) = Z.min (Z.min ONE m) (uval (pv_residual p))) /\
    m = minval (uval INFINITY) (values (delete i (pv_deps p))).
Proof.
  intros H Wr E. exists (minval (uval INFINITY) (values (delete i (pv_deps p)))).
  pose proof ONE_BIG. pose proof (within_num _ _ _ Wr) as Nr.
  split; [apply minval_nonneg; [by apply (f64_le_uval (f64_of 0) INFINITY); [apply is_num_num..|]|by apply Forall_delete_ok]|]. split; [|split; [|done]].
  - rewrite <- values_delete by done. by apply bound_value.
  - unfold refreshed. rewrite E. set (d' := mkDependency _ _ _ _).
    assert (<[i := d']> (pv_deps p) !! i = Some d') as E' by (apply list_lookup_insert_eq; by eapply lookup_lt_Some).
    destruct (bound_value (mkProvenance (pv_config p) (<[i := d']> (pv_deps p)) (pv_residual p))) as [N V]; cbn [pv_deps pv_residual] in *.
    { apply Forall_insert; [done|]. by apply (within_weaken _ _ _ _ _ (within_self (f64_of 1) eq_refl)). }
    { done. }
    split; [done|]. rewrite V, (values_delete _ _ _ E'), delete_insert_same. done.
Qed.

Lemma others_le p i j e : j <> i -> pv_deps p !! j = Some e ->
  minval (uval INFINITY) (values (delete i (pv_deps p))) <= uval (dp_lcb e).
Proof.
  intros Hj E. apply minval_le. apply (in_map (fun d => uval (dp_lcb d))), list_elem_of_In.
  destruct (decide (j < i)%nat) as [L|L].
  - apply (list_elem_of_lookup_2 _ j). by rewrite list_lookup_delete_lt.
  - apply (list_elem_of_lookup_2 _ (j - 1)). rewrite list_lookup_delete_ge by lia. by replace (S (j - 1)) with j by lia.
Qed.

(** what a refresh would buy is the correctly rounded increase of the bound when
    the dependency's freshness becomes one, never negative, and zero exactly when the
    bound does not move; a dependency that is not the weakest, or that sits under the
    floor the discarded ones left, buys nothing. *)
Theorem refresh_gain_exact p i d : Forall lcb_ok (pv_deps p) -> within (f64_of 0) (f64_of 1) (pv_residual p) ->
  pv_deps p !! i = Some d ->
  let gain := risk_reduction_at p i in
  uval gain = nearestS (uval (bound (refreshed p i)) - uval (bound p)) 1 /\
  f64_le (f64_of 0) gain = true /\ f64_le (bound p) (bound (refreshed p i)) = true /\
  (f64_le gain (f64_of 0) = true <-> f64_le (bound (refreshed p i)) (bound p) = true) /\
  ((exists j e, j <> i /\ pv_deps p !! j = Some e /\ f64_le (dp_lcb e) (dp_lcb d) = true) \/
   f64_le (pv_residual p) (dp_lcb d) = true -> f64_le gain (f64_of 0) = true).
Proof.
  intros H Wr E gain. destruct (refresh_values p i d H Wr E) as (m & Hm & [Nb Vb] & [Nr Vr] & Em).
  pose proof (within_num _ _ _ Wr) as N. pose proof (proj1 (List.Forall_forall _ _) H) as A.
  assert (lcb_ok d) as Od by (apply A, list_elem_of_In; by eapply list_elem_of_lookup_2).
  pose proof (lcb_uval d Od) as Rd. assert (0 <= uval (pv_residual p) <= ONE) as Rr.
  { destruct Wr as (_ & L & U). rewrite f64_le_uval in L, U by (done || by apply is_num_num). exact (conj L U). }
  destruct (others_value p i H N) as [No Vo]. rewrite <- Em in Vo.
  destruct (sub_unit _ _ No Nb ltac:(lia) ltac:(lia)) as [Ng Vg].
  assert (gain = f64_max (f64_sub _ (bound p)) (f64_of 0)) as Eg by (unfold gain, risk_reduction_at; rewrite E; reflexivity).
  rewrite <- Eg in Ng, Vg. rewrite Vo in Vg.
  replace (Z.min (Z.min m (uval (pv_residual p))) ONE) with (uval (bound (refreshed p i))) in Vg by lia.
  pose proof (nearestS_sign (uval (bound (refreshed p i)) - uval (bound p)) ltac:(lia)) as [S0 S1].
  assert (num (f64_of 0)) as N0 by (by apply is_num_num).
  assert (f64_le gain (f64_of 0) = true <-> uval (bound (refreshed p i)) = uval (bound p)) as Z.
  { rewrite f64_le_uval by done. change (uval (f64_of 0)) with 0. lia. }
  split; [done|]. split; [apply f64_le_uval; [done..|]; change (uval (f64_of 0)) with 0; lia|].
  split; [apply f64_le_uval; [done..|]; lia|]. split; [rewrite Z, f64_le_uval by done; lia|].
  intros C. apply Z. destruct C as [(j & e & Hj & Ej & L)|L].
  - assert (lcb_ok e) as Oe by (apply A, list_elem_of_In; by eapply list_elem_of_lookup_2).
    apply f64_le_uval in L; [|apply Oe|apply Od]. pose proof (others_le p i j e Hj Ej) as M. rewrite <- Em in M. lia.
  - apply f64_le_uval in L; [|done|apply Od]. lia.
Qed.

(** ** At concrete sets *)

Definition dep_at (role : DependencyRole) (n : Z) (permille : Z) : Dependency :=
  dependency_new role (plain (MkName [n]) RrTypes.A RrClasses.IN_) 0 (f64_div (f64_of permille) (f64_of 1000)).

(** Two dependencies under a cap of one: the delegation goes, its freshness stays in the
    residual, its consequence does not. *)
Definition capped_pair : Provenance :=
  fold_left push [dep_at DrDelegation 97 900; dep_at DrAnswer 98 500] (from_dependencies (mkProvConfig 1) []).

Example capped_pair_bound :
  map dp_role (pv_deps capped_pair) = [DrAnswer] /\ bound capped_pair = f64_div (f64_of 500) (f64_of 1000) /\
  worst_consequence capped_pair = Some Low /\ role_consequence DrDelegation = Critical.
Proof. repeat split; vm_compute; reflexivity. Qed.

Lemma dep_at_ok role n k : is_num (f64_div (f64_of k) (f64_of 1000)) = true -> lcb_ok (dep_at role n k).
Proof. intros H. apply dependency_new_ok, is_num_num, H. Qed.

Lemma provenance_bound_exact_witness :
  f64_le (bound capped_pair) (dp_lcb (dep_at DrDelegation 97 900)) = true /\
  (exists d, In d [dep_at DrDelegation 97 900; dep_at DrAnswer 98 500] /\ f64_le (dp_lcb d) (bound capped_pair) = true) /\
  bound (fold_left push [dep_at DrAnswer 98 950] (from_dependencies (mkProvConfig 1) [dep_at DrDnssecProof 97 800; dep_at DrCname 97 850]))
    = f64_div (f64_of 800) (f64_of 1000).
Proof.
  assert (Forall lcb_ok [dep_at DrDelegation 97 900; dep_at DrAnswer 98 500]) as H
    by (repeat apply Forall_cons_2; [apply dep_at_ok; vm_compute; reflexivity..|constructor]).
  pose proof (provenance_bound_exact (mkProvConfig 1) [] _ (Forall_nil_2 lcb_ok) H) as (L & _ & [F|A] & _).
  { exfalso. revert F. vm_compute. discriminate. }
  split; [apply L; by left|]. split; [exact A|vm_compute; reflexivity].
Defined.

Definition weak_chain : Provenance :=
  fold_left push [dep_at DrCname 97 400; dep_at DrAnswer 98 900; dep_at DrAnswer 99 600] provenance_default.

Lemma refresh_gain_exact_witness :
  f64_le (risk_reduction_at weak_chain 1) (f64_of 0) = true /\ f64_le (risk_reduction_at weak_chain 0) (f64_of 0) = false /\
  option_map dp_role (bottleneck weak_chain) = Some DrCname /\
  uval (risk_reduction_at weak_chain 0) = nearestS (uval (bound (refreshed weak_chain 0)) - uval (bound weak_chain)) 1.
Proof.
  assert (Forall lcb_ok (pv_deps weak_chain)) as H
    by (replace (pv_deps weak_chain) with [dep_at DrCname 97 400; dep_at DrAnswer 98 900; dep_at DrAnswer 99 600] by reflexivity;
        repeat apply Forall_cons_2; [apply dep_at_ok; vm_compute; reflexivity..|constructor]).
  assert (within (f64_of 0) (f64_of 1) (pv_residual weak_chain)) as W by (by apply (within_weaken _ _ _ _ _ (within_self (f64_of 1) eq_refl))).
  split; [apply (refresh_gain_exact weak_chain 1 (dep_at DrAnswer 98 900) H W); [reflexivity|]|].
  { left. exists 0%nat, (dep_at DrCname 97 400). split; [done|]. split; [reflexivity|vm_compute; reflexivity]. }
  split; [vm_compute; reflexivity|]. split; [vm_compute; reflexivity|].
  apply (refresh_gain_exact weak_chain 0 (dep_at DrCname 97 400) H W). reflexivity.
Defined.
