(* ===== verification/Estimator.v ===== *)
(** * Query state estimator ([src/estimator.rs])

    Per zone (the last two labels of a name): query rate, time-of-day profile, failure
    rate and upstream cost, in a table that is swept when full.  The instance of the
    resolver's [EstimatorOps] is at the end of the model. *)
From stdpp Require Import gmap.
From S2P Require Import Prelude Wire Prng Name Bounded BTree Time Float64 Float FloatOrder Upstream CacheKey Cache Servers Hazard Risk.

Definition TOD_BUCKETS : Z := 96.
Definition BUCKET_SECS : Z := 900.
Definition NS_PER_DAY : Z := 86400 * 1000000000.
Definition RECENT_WINDOW_SECS : Z := 300 * 1000000000.
Definition RECENT_MAX : Z := 64.
Definition POPULARITY_REF_RATE : f64 := f64_of 10.
Definition DEFAULT_MAX_DOMAINS : Z := 100000.
Definition ZONE_RETENTION_SECS : Z := 30 * 60.
Definition ZONE_EVICT_STRIDE : Z := 8.
Definition BUCKET_NS : Z := BUCKET_SECS * 1000000000.

Record DomainStats := mkStats {
  ds_queries : Z;
  ds_first_seen : Ts;
  ds_last_seen : Ts;
  ds_ewma_rate : f64;
  ds_recent : list Ts;
  ds_tod : list Z;
  ds_failures : Z;
  ds_failure_rate : f64;
  ds_upstream_ewma_ms : f64;
  ds_upstream_samples : Z }.

(** [as u32] of a remainder that is negative before the epoch. *)
Definition tod_bucket (now : Ts) : Z :=
  let secs_of_day := wrap 32 (Z.rem (Z.quot now 1000000000) 86400) in
  Z.min (secs_of_day / BUCKET_SECS) (TOD_BUCKETS - 1).

Definition domain_stats_new (now : Ts) : DomainStats :=
  mkStats 1 now now (f64_of 0) [now] (<[Z.to_nat (tod_bucket now) := 1]> (replicate 96 0)) 0 (f64_of 0) (f64_of 0) 0.

(** [while recent.len() > RECENT_MAX { recent.pop_front() }] *)
Definition keep_recent (recent : list Ts) : list Ts := drop (length recent - Z.to_nat RECENT_MAX) recent.

Definition record_query (s : DomainStats) (now : Ts) : DomainStats :=
  let gap_ns := ts_saturating_sub now (ds_last_seen s) in
  let inst_rate := if gap_ns =? 0 then f64_of 0 else f64_div (f64_of 1000000000) (f64_of gap_ns) in
  let alpha_ := dec 1 1 in
  mkStats (incr (ds_queries s)) (ds_first_seen s) now
    (f64_add (f64_mul (ds_ewma_rate s) (f64_sub (f64_of 1) alpha_)) (f64_mul inst_rate alpha_))
    (keep_recent (ds_recent s ++ [now]))
    (alter (fun n => sat_add 32 n 1) (Z.to_nat (tod_bucket now)) (ds_tod s))
    (ds_failures s) (ds_failure_rate s) (ds_upstream_ewma_ms s) (ds_upstream_samples s).

Definition stats_failure (s : DomainStats) : DomainStats :=
  mkStats (ds_queries s) (ds_first_seen s) (ds_last_seen s) (ds_ewma_rate s) (ds_recent s) (ds_tod s)
    (incr (ds_failures s))
    (f64_add (f64_mul (ds_failure_rate s) (dec 9 1)) (f64_mul (f64_of 1) (dec 1 1)))
    (ds_upstream_ewma_ms s) (ds_upstream_samples s).

Definition stats_upstream (s : DomainStats) (rtt_ms : f64) : DomainStats :=
  let samples := incr (ds_upstream_samples s) in
  mkStats (ds_queries s) (ds_first_seen s) (ds_last_seen s) (ds_ewma_rate s) (ds_recent s) (ds_tod s)
    (ds_failures s) (ds_failure_rate s)
    (if samples =? 1 then rtt_ms
     else f64_add (f64_mul (ds_upstream_ewma_ms s) (dec 9 1)) (f64_mul rtt_ms (dec 1 1)))
    samples.

Definition window_rate (s : DomainStats) (now : Ts) : f64 :=
  let cutoff := ts_saturating_sub now RECENT_WINDOW_SECS in
  let count := f64_of (zlen (List.filter (fun t => cutoff <=? t) (ds_recent s))) in
  f64_div count (f64_div (f64_of RECENT_WINDOW_SECS) (f64_of 1000000000)).

(** The loop over the buckets from [pos] to [end_]; [guard] rounds are left.  The
    expected number of queries and where the loop stopped. *)
Fixpoint tod_loop (guard : nat) (tod : list Z) (end_ pos : Ts) (expected : f64) : f64 * Ts :=
  match guard with
  | 0%nat => (expected, pos)
  | S guard =>
      if pos <? end_ then
        let bucket := tod_bucket pos in
        let bucket_end := Z.quot pos BUCKET_NS * BUCKET_NS + BUCKET_NS in
        let seg_end := Z.min end_ bucket_end in
        let frac := f64_div (f64_of (seg_end - pos)) (f64_of BUCKET_NS) in
        let count := default 0 (tod !! Z.to_nat bucket) in
        tod_loop guard tod end_ seg_end (f64_add expected (f64_mul (f64_of count) frac))
      else (expected, pos)
  end.

Definition expected_tod_queries (s : DomainStats) (now : Ts) (horizon_secs : Z) : f64 :=
  let days := f64_of (Z.max (Z.quot (ts_saturating_sub now (ds_first_seen s)) NS_PER_DAY) 1) in
  let end_ := ts_saturating_add now (horizon_secs * 1000000000) in
  f64_div (tod_loop 512 (ds_tod s) end_ now (f64_of 0)).1 days.

Definition query_probability (s : DomainStats) (now : Ts) (horizon_secs : Z) : f64 :=
  let p_tod := f64_sub (f64_of 1) (exp_nonpos (SFopp (expected_tod_queries s now horizon_secs))) in
  let recent := ts_saturating_sub now (ds_last_seen s) <? RECENT_WINDOW_SECS in
  let p_recency :=
    if recent then f64_sub (f64_of 1) (exp_nonpos (f64_mul (SFopp (ds_ewma_rate s)) (f64_of horizon_secs)))
    else f64_of 0 in
  f64_clamp (f64_max p_tod p_recency) (f64_of 0) (f64_of 1).

Definition stats_popularity (s : DomainStats) (now : Ts) : f64 :=
  let rate := f64_max (ds_ewma_rate s) (window_rate s now) in
  f64_clamp (f64_div rate POPULARITY_REF_RATE) (f64_of 0) (f64_of 1).

Definition stats_est_cost_ms (s : DomainStats) : f64 :=
  if ds_upstream_samples s =? 0 then f64_of 50 else ds_upstream_ewma_ms s.

(** ** The table *)

Record QueryEstimator := mkEstimator { qe_domains : list (Name * DomainStats); qe_max_domains : Z }.

Definition estimator_new (max_domains : Z) : QueryEstimator := mkEstimator [] (Z.max max_domains 1).
Definition estimator_default : QueryEstimator := estimator_new DEFAULT_MAX_DOMAINS.

Definition observe_query (q : QueryEstimator) (name : Name) (now : Ts) : QueryEstimator :=
  let apex_ := apex name in
  match bt_get (qe_domains q) apex_ with
  | Some s => mkEstimator (bt_insert (qe_domains q) apex_ (record_query s now)) (qe_max_domains q)
  | None =>
      let domains :=
        if qe_max_domains q <=? zlen (qe_domains q) then
          (evict_for_capacity ds_last_seen (qe_domains q)
             (ts_saturating_sub now (ZONE_RETENTION_SECS * 1000000000)) ZONE_EVICT_STRIDE).2
        else qe_domains q in
      mkEstimator (bt_insert domains apex_ (domain_stats_new now)) (qe_max_domains q)
  end.

(** [get_mut] of the zone of a name. *)
Definition update_zone (f : DomainStats -> DomainStats) (q : QueryEstimator) (name : Name) : QueryEstimator :=
  match bt_get (qe_domains q) (apex name) with
  | Some s => mkEstimator (bt_insert (qe_domains q) (apex name) (f s)) (qe_max_domains q)
  | None => q
  end.

Definition estimator_failure (q : QueryEstimator) (name : Name) : QueryEstimator := update_zone stats_failure q name.
Definition estimator_upstream (q : QueryEstimator) (name : Name) (rtt_ms : f64) : QueryEstimator :=
  update_zone (fun s => stats_upstream s rtt_ms) q name.

Definition zone_stats (q : QueryEstimator) (name : Name) : option DomainStats := bt_get (qe_domains q) (apex name).

Definition probability (q : QueryEstimator) (name : Name) (now : Ts) (horizon_secs : Z) : f64 :=
  match zone_stats q name with Some s => query_probability s now horizon_secs | None => f64_of 0 end.
Definition popularity (q : QueryEstimator) (name : Name) (now : Ts) : f64 :=
  match zone_stats q name with Some s => stats_popularity s now | None => f64_of 0 end.
Definition estimator_cost_ms (q : QueryEstimator) (name : Name) : f64 :=
  match zone_stats q name with Some s => stats_est_cost_ms s | None => f64_of 50 end.
Definition estimator_score_inputs (q : QueryEstimator) (name : Name) (now : Ts) : ScoreInputs :=
  mkInputs (popularity q name now) (estimator_cost_ms q name).

#[export] Instance estimator_ops : EstimatorOps QueryEstimator := {|
  observe_upstream := estimator_upstream;
  observe_failure := estimator_failure;
  score_inputs := estimator_score_inputs |}.

(** ** At concrete zones *)

Definition zone_with (count : Z) (last : Ts) : DomainStats :=
  mkStats count 0 last (f64_of 0) [last] (<[0%nat := count]> (replicate 96 0)) 0 (f64_of 0) (f64_of 0) 0.

(** 709.6 queries expected within 90 seconds, none recent: [exp] of it is no number,
    and the probability of a query is zero; with 700 expected it is one. *)
Example demand_hole :
  is_nan (exp_nonpos (SFopp (expected_tod_queries (zone_with 7096 (- 300 * 1000000000)) 0 90))) = true /\
  query_probability (zone_with 7096 (- 300 * 1000000000)) 0 90 = f64_of 0 /\
  query_probability (zone_with 7000 (- 300 * 1000000000)) 0 90 = f64_of 1.
Proof. vm_compute. repeat split; reflexivity. Qed.

(** Sixty queries a second apart and one whose clock reads a nanosecond less than the
    one before: the rate is far below zero, and the probability of a query drops. *)
Example clock_step_back :
  let steady := fold_left record_query (map (fun i => i * 1000000000) (seqZ 1 60)) (domain_stats_new 0) in
  let back := record_query steady (ds_last_seen steady - 1) in
  f64_lt (dec 99 2) (query_probability steady 60000000000 60) = true /\
  f64_lt (ds_ewma_rate back) (f64_of (- 99000000)) = true /\
  f64_lt (query_probability back 60000000000 60) (dec 99 2) = true.
Proof. vm_compute. repeat split; reflexivity. Qed.

(** ** Lemmas: ranges *)

Definition RATE_MAX : f64 := f64_of 1000000000.

Lemma gap_inverse g : 0 < g -> within (f64_of 0) RATE_MAX (f64_div RATE_MAX (f64_of g)) \/ is_finite (f64_of g) = false.
Proof.
  intros H. destruct (is_finite (f64_of g)) eqn:F; [left|by right].
  destruct (f64_of_mono 1 g ltac:(lia)) as (N1 & Ng & L). rewrite f64_le_uval in L by done.
  destruct (f64_div_le RATE_MAX (f64_of g)) as (N & P & U); [apply f64_of_spec|done| |done|done|done|].
  - unfold RATE_MAX. rewrite uval_f64_of by lia. lia.
  - split; [done|]. rewrite !f64_le_uval by (done || by apply is_num_num). done.
Qed.

Lemma finite_i128 g : - 2 ^ 127 <= g <= 2 ^ 127 - 1 -> is_finite (f64_of g) = true.
Proof. intros H. eapply within_finite; [by apply f64_of_within|]. vm_compute. reflexivity. Qed.

(** A gap is at least a nanosecond, forwards or backwards. *)
Lemma inst_rate_within g : - 2 ^ 127 <= g <= 2 ^ 127 - 1 -> g <> 0 ->
  within (SFopp RATE_MAX) RATE_MAX (f64_div RATE_MAX (f64_of g)).
Proof.
  intros H H0. destruct (Z.lt_ge_cases 0 g) as [P|P].
  - destruct (gap_inverse g P) as [W|F]; [|by rewrite finite_i128 in F].
    by apply (within_weaken _ _ _ _ _ W).
  - assert (num (SFopp (f64_of g)) /\ is_finite (SFopp (f64_of g)) = true /\ uval (f64_of 1) <= uval (SFopp (f64_of g))) as (N & F & L).
    { destruct (f64_of_mono g (- 1) ltac:(lia)) as (Ng & N1 & L). rewrite f64_le_uval in L by done.
      split; [|split; [pose proof (finite_i128 g H); by destruct (f64_of g)|]].
      - split; [apply canonical_opp, Ng|]. destruct Ng as [_ Ng]. by destruct (f64_of g).
      - rewrite uval_opp. change (uval (f64_of (- 1))) with (- uval (f64_of 1)) in L. lia. }
    destruct (f64_div_le RATE_MAX (SFopp (f64_of g))) as (Nd & Pd & Ud); [apply f64_of_spec|done| |done|done|done|].
    { unfold RATE_MAX. rewrite uval_f64_of by lia. lia. }
    rewrite f64_div_opp; [|apply f64_of_spec|apply Nd].
    assert (within (f64_of 0) RATE_MAX (f64_div RATE_MAX (SFopp (f64_of g)))) as W.
    { split; [done|]. rewrite !f64_le_uval by (done || by apply is_num_num). done. }
    apply within_opp in W; [|done]. by apply (within_weaken _ _ _ _ _ W).
Qed.

Lemma ewma_rate_within r inst : within (SFopp RATE_MAX) RATE_MAX r -> within (SFopp RATE_MAX) RATE_MAX inst ->
  within (SFopp RATE_MAX) RATE_MAX
    (f64_add (f64_mul r (f64_sub (f64_of 1) (dec 1 1))) (f64_mul inst (dec 1 1))).
Proof.
  intros Wr Wi. pose proof (within_scale _ _ _ (f64_sub (f64_of 1) (dec 1 1)) Wr ltac:(vm_compute; reflexivity)) as W1.
  pose proof (within_scale _ _ _ (dec 1 1) Wi ltac:(vm_compute; reflexivity)) as W2.
  pose proof (within_add _ _ _ _ _ _ W1 W2 ltac:(vm_compute; reflexivity)) as W3.
  apply (within_weaken _ _ _ _ _ W3). vm_compute. reflexivity.
Qed.

(** Keeping nine tenths and adding a tenth stays between zero and a bound for which
    the two parts add up to no more. *)
Lemma nine_tenths_within cap x y : within (f64_of 0) cap x -> within (f64_of 0) cap y ->
  finite_num cap && nonneg cap = true ->
  finite_num (f64_mul cap (dec 9 1)) && finite_num (f64_mul cap (dec 1 1)) &&
    f64_le (f64_add (f64_mul cap (dec 9 1)) (f64_mul cap (dec 1 1))) cap &&
    is_num (f64_add (f64_mul cap (dec 9 1)) (f64_mul cap (dec 1 1))) = true ->
  within (f64_of 0) cap (f64_add (f64_mul x (dec 9 1)) (f64_mul y (dec 1 1))).
Proof.
  intros Wx Wy C1 C2. bools.
  assert (is_num cap = true) by (unfold finite_num in *; by bools).
  pose proof (within_scale _ _ _ (dec 9 1) Wx ltac:(by rewrite !andb_true_iff)) as W1.
  pose proof (within_scale _ _ _ (dec 1 1) Wy ltac:(by rewrite !andb_true_iff)) as W2.
  pose proof (within_add _ _ _ _ _ _ W1 W2 ltac:(by rewrite !andb_true_iff)) as W3.
  apply (within_weaken _ _ _ _ _ W3). by rewrite !andb_true_iff.
Qed.

(** ** The invariant *)

Definition RTT_MAX : f64 := f64_of 65536.

Record stats_ok (s : DomainStats) : Prop := {
  so_recent : 1 <= zlen (ds_recent s) <= RECENT_MAX;
  so_last : list.last (ds_recent s) = Some (ds_last_seen s);
  so_tod : zlen (ds_tod s) = TOD_BUCKETS /\ Forall (fun n => 0 <= n < 2 ^ 32) (ds_tod s);
  so_rate : within (SFopp RATE_MAX) RATE_MAX (ds_ewma_rate s);
  so_failures : within (f64_of 0) (f64_of 1) (ds_failure_rate s);
  so_cost : within (f64_of 0) RTT_MAX (ds_upstream_ewma_ms s) }.

Lemma zero_within cap : is_num cap && f64_le (f64_of 0) cap = true -> within (f64_of 0) cap (f64_of 0).
Proof. intros C. bools. apply (within_weaken _ _ _ _ _ (within_self (f64_of 0) eq_refl)). by rewrite !andb_true_iff. Qed.

Lemma domain_stats_new_ok now : stats_ok (domain_stats_new now).
Proof.
  constructor; cbn [domain_stats_new ds_recent ds_last_seen ds_tod ds_ewma_rate ds_failure_rate ds_upstream_ewma_ms].
  - unfold RECENT_MAX, zlen. cbn. lia.
  - done.
  - split; [unfold zlen; by rewrite length_insert|]. apply Forall_insert; [|lia]. apply Forall_replicate. lia.
  - apply (within_weaken _ _ _ _ _ (within_self (f64_of 0) eq_refl)). vm_compute. reflexivity.
  - by apply zero_within.
  - by apply zero_within.
Qed.

Lemma keep_recent_spec l t : l <> [] -> list.last l = Some t ->
  list.last (keep_recent l) = Some t /\ 1 <= zlen (keep_recent l) <= RECENT_MAX.
Proof.
  intros Hne Hl. unfold keep_recent, RECENT_MAX, zlen. assert (0 < length l)%nat by (destruct l; [done|cbn; lia]).
  rewrite length_drop. split; [|lia]. rewrite list.last_lookup, length_drop, lookup_drop.
  rewrite list.last_lookup in Hl. rewrite <- Hl. f_equal. lia.
Qed.

Lemma record_query_ok s now : stats_ok s -> stats_ok (record_query s now).
Proof.
  intros [R L [T1 T2] W F C]. constructor; cbn [record_query ds_recent ds_last_seen ds_tod ds_ewma_rate ds_failure_rate ds_upstream_ewma_ms]; try done.
  - apply (keep_recent_spec _ now); [by destruct (ds_recent s)|by rewrite list.last_snoc].
  - apply keep_recent_spec; [by destruct (ds_recent s)|by rewrite list.last_snoc].
  - split; [unfold zlen; by rewrite length_alter|]. apply Forall_alter; [done|].
    intros n Hn H. unfold sat_add. lia.
  - apply ewma_rate_within; [done|]. destruct (_ =? 0) eqn:E; bools.
    + apply (within_weaken _ _ _ _ _ (within_self (f64_of 0) eq_refl)). vm_compute. reflexivity.
    + apply inst_rate_within; [apply ts_sub_range|done].
Qed.

Lemma stats_failure_ok s : stats_ok s -> stats_ok (stats_failure s).
Proof.
  intros [R L T W F C]. constructor; cbn [stats_failure ds_recent ds_last_seen ds_tod ds_ewma_rate ds_failure_rate ds_upstream_ewma_ms]; try done.
  apply nine_tenths_within; [done| |vm_compute; reflexivity..]. apply (within_weaken _ _ _ _ _ (within_self (f64_of 1) eq_refl)). vm_compute. reflexivity.
Qed.

Lemma stats_upstream_ok s rtt : stats_ok s -> within (f64_of 0) RTT_MAX rtt -> stats_ok (stats_upstream s rtt).
Proof.
  intros [R L T W F C] Hr. constructor; cbn [stats_upstream ds_recent ds_last_seen ds_tod ds_ewma_rate ds_failure_rate ds_upstream_ewma_ms]; try done.
  destruct (_ =? 1); [done|]. apply nine_tenths_within; [done|done|vm_compute; reflexivity..].
Qed.

Record estimator_ok (q : QueryEstimator) : Prop := {
  eo_sorted : bt_sorted (qe_domains q);
  eo_room : 1 <= qe_max_domains q;
  eo_size : zlen (qe_domains q) <= qe_max_domains q;
  eo_stats : Forall (fun kv => stats_ok kv.2) (qe_domains q) }.

Lemma estimator_new_ok max : estimator_ok (estimator_new max).
Proof. constructor; cbn; [constructor|lia|unfold zlen; cbn; lia|constructor]. Qed.

Lemma zone_found q z s : estimator_ok q -> bt_get (qe_domains q) z = Some s -> stats_ok s.
Proof. intros O H%bt_get_In. apply eo_stats in O. rewrite List.Forall_forall in O. exact (O _ H). Qed.

Lemma update_zone_ok f q name : estimator_ok q -> (forall s, stats_ok s -> stats_ok (f s)) -> estimator_ok (update_zone f q name).
Proof.
  intros O Hf. unfold update_zone. destruct (bt_get _ _) as [s|] eqn:E; [|done].
  destruct O as [S R Z A]. constructor; cbn [qe_domains qe_max_domains].
  - by apply bt_insert_sorted.
  - done.
  - rewrite zlen_bt_insert by done. unfold bt_contains_key. rewrite E. lia.
  - apply bt_insert_Forall; [done|]. apply Hf. eapply (zone_found q); [by constructor|exact E].
Qed.

Lemma observe_query_ok q name now : estimator_ok q -> estimator_ok (observe_query q name now).
Proof.
  intros O. unfold observe_query. destruct (bt_get _ _) as [s|] eqn:E.
  { pose proof (update_zone_ok (fun s => record_query s now) q name O (fun s => record_query_ok s now)) as U.
    unfold update_zone in U. by rewrite E in U. }
  pose proof O as [S R Z A]. set (domains := if _ <=? _ then _ else _).
  assert (bt_sorted domains /\ zlen domains < qe_max_domains q /\ Forall (fun kv => stats_ok kv.2) domains) as (Sd & Zd & Ad).
  { unfold domains. destruct (_ <=? _) eqn:F; bools; [|split; [done|split; [lia|done]]].
    split; [by apply evict_sorted|]. split.
    - eapply Z.lt_le_trans; [apply evict_shrinks; [done|]|done]. intros N. rewrite N in F. unfold zlen in F. cbn in F. lia.
    - apply List.Forall_forall. intros kv H%evict_incl; [|done]. rewrite List.Forall_forall in A. by apply A. }
  constructor; cbn [qe_domains qe_max_domains].
  - by apply bt_insert_sorted.
  - done.
  - rewrite zlen_bt_insert by done. destruct (bt_contains_key _ _); lia.
  - apply bt_insert_Forall; [done|]. apply domain_stats_new_ok.
Qed.

(** What the resolver reports. *)
Inductive ZoneEvent := EvQuery (name : Name) (now : Ts) | EvFailure (name : Name) | EvUpstream (name : Name) (rtt_ms : f64).
Definition estimator_step (q : QueryEstimator) (e : ZoneEvent) : QueryEstimator :=
  match e with
  | EvQuery name now => observe_query q name now
  | EvFailure name => observe_failure q name
  | EvUpstream name rtt_ms => observe_upstream q name rtt_ms
  end.
Definition event_ok (e : ZoneEvent) : Prop :=
  match e with EvUpstream _ rtt_ms => within (f64_of 0) RTT_MAX rtt_ms | _ => True end.

Lemma run_ok evs q : estimator_ok q -> Forall event_ok evs -> estimator_ok (fold_left estimator_step evs q).
Proof.
  intros O H. revert q O. induction H as [|e evs He H IH]; intros q O; [done|]. cbn [fold_left]. apply IH.
  destruct e as [n t|n|n r]; [by apply observe_query_ok|apply update_zone_ok; [done|apply stats_failure_ok]|].
  apply update_zone_ok; [done|]. intros s Hs. by apply stats_upstream_ok.
Qed.

Lemma run_max evs q : qe_max_domains (fold_left estimator_step evs q) = qe_max_domains q.
Proof.
  revert q. induction evs as [|e evs IH]; intros q; [done|]. cbn [fold_left]. rewrite IH.
  destruct e as [n t|n|n r]; cbn [estimator_step observe_failure observe_upstream estimator_ops];
    unfold observe_query, estimator_failure, estimator_upstream, update_zone; by destruct (bt_get _ _).
Qed.

Lemma zlen_filter_bound {A} (f : A -> bool) l : 0 <= zlen (List.filter f l) <= zlen l.
Proof. split; [unfold zlen; lia|apply zlen_filter_le]. Qed.

Lemma stats_popularity_unit s now : stats_ok s -> within (f64_of 0) (f64_of 1) (stats_popularity s now).
Proof.
  intros [R _ _ W _ _]. unfold stats_popularity. set (w := window_rate s now).
  assert (within (f64_of 0) RATE_MAX w) as Ww.
  { unfold w, window_rate. pose proof (zlen_filter_bound (fun t => ts_saturating_sub now RECENT_WINDOW_SECS <=? t) (ds_recent s)) as B.
    pose proof (f64_of_within (zlen (List.filter (fun t => ts_saturating_sub now RECENT_WINDOW_SECS <=? t) (ds_recent s))) 0 64
      ltac:(unfold RECENT_MAX in R; lia)) as W1.
    pose proof (within_div _ _ _ (f64_div (f64_of RECENT_WINDOW_SECS) (f64_of 1000000000)) W1 ltac:(vm_compute; reflexivity)) as W2.
    apply (within_weaken _ _ _ _ _ W2). vm_compute. reflexivity. }
  assert (within (f64_of 0) RATE_MAX (f64_max (ds_ewma_rate s) w)) as Wm.
  { destruct (f64_max_cases (ds_ewma_rate s) w) as [[-> L]|[-> L]]; [apply W|apply Ww| |done].
    split; [apply W|]. split; [|apply W]. eapply f64_le_trans; [..|apply Ww|exact L]; [by apply is_num_num|apply Ww|apply W]. }
  pose proof (within_div _ _ _ POPULARITY_REF_RATE Wm ltac:(vm_compute; reflexivity)) as Wd.
  apply clamp_within; [apply Wd|by apply is_num_num..|done].
Qed.

(** ** The demand window *)

Lemma bucket_end_spec pos : 0 <= pos ->
  Z.quot pos BUCKET_NS * BUCKET_NS <= pos < Z.quot pos BUCKET_NS * BUCKET_NS + BUCKET_NS /\
  Z.quot pos BUCKET_NS = pos / BUCKET_NS.
Proof.
  intros H. assert (0 < BUCKET_NS) by (unfold BUCKET_NS, BUCKET_SECS; lia). rewrite Z.quot_div_nonneg by lia.
  pose proof (Z.mul_div_le pos BUCKET_NS ltac:(lia)). pose proof (Z.mul_succ_div_gt pos BUCKET_NS ltac:(lia)). lia.
Qed.

(** Every round but the last ends on the edge of a bucket. *)
Lemma tod_loop_end guard tod end_ pos x : 0 <= pos <= end_ -> end_ <= (pos / BUCKET_NS + Z.of_nat guard) * BUCKET_NS ->
  (tod_loop guard tod end_ pos x).2 = end_.
Proof.
  assert (0 < BUCKET_NS) as PB by (unfold BUCKET_NS, BUCKET_SECS; lia).
  revert pos x. induction guard as [|guard IH]; intros pos x H G; cbn [tod_loop snd].
  { pose proof (Z.mul_div_le pos BUCKET_NS PB). lia. }
  destruct (pos <? end_) eqn:E; bools; [|cbn [snd]; lia].
  destruct (bucket_end_spec pos ltac:(lia)) as [B Q]. set (be := Z.quot pos BUCKET_NS * BUCKET_NS + BUCKET_NS) in *.
  destruct (Z.le_gt_cases end_ be) as [L|L].
  - rewrite Z.min_l by done. destruct guard; cbn [tod_loop snd]; [done|]. by rewrite Z.ltb_irrefl.
  - rewrite Z.min_r by lia. apply IH; [lia|]. replace (be / BUCKET_NS) with (pos / BUCKET_NS + 1); [lia|].
    rewrite <- Q. unfold be. replace (Z.quot pos BUCKET_NS * BUCKET_NS + BUCKET_NS) with ((Z.quot pos BUCKET_NS + 1) * BUCKET_NS) by lia.
    by rewrite Z.div_mul by lia.
Qed.

Lemma frac_within d : 0 <= d <= BUCKET_NS -> within (f64_of 0) (f64_of 1) (f64_div (f64_of d) (f64_of BUCKET_NS)).
Proof.
  intros H. pose proof (within_div _ _ _ (f64_of BUCKET_NS) (f64_of_within _ _ _ H) ltac:(vm_compute; reflexivity)) as W.
  apply (within_weaken _ _ _ _ _ W). vm_compute. reflexivity.
Qed.

Definition demand_at_most (k : Z) (x : f64) : Prop := num x /\ is_finite x = true /\ 0 <= uval x <= k * 2 ^ 32 * 2 ^ 1074.

Lemma f64_of_num z : num (f64_of z).
Proof. by destruct (f64_of_spec z) as (? & ? & _). Qed.

Lemma demand_add k x count d : 0 <= k < 2 ^ 20 -> demand_at_most k x -> 0 <= count < 2 ^ 32 -> 0 <= d <= BUCKET_NS ->
  demand_at_most (k + 1) (f64_add x (f64_mul (f64_of count) (f64_div (f64_of d) (f64_of BUCKET_NS)))).
Proof.
  intros Hk (N & F & B) Hc Hd. pose proof (Z.pow_pos_nonneg 2 1074 ltac:(lia) ltac:(lia)) as P.
  assert (uval (f64_of count) = count * 2 ^ 1074) as Vc by (apply uval_f64_of; lia).
  pose proof (f64_of_num count) as Nc. assert (is_finite (f64_of count) = true) as Fc by (apply finite_i128; lia).
  destruct (f64_mul_le (f64_of count) _ Nc Fc ltac:(rewrite nonneg_uval by done; nia) (frac_within d Hd)) as (Nm & Lm & Pm).
  set (term := f64_mul _ _) in *. pose proof Lm as Fm. apply nn_finite_le in Fm; [|done|done|done].
  rewrite f64_le_uval, Vc in Lm by done. rewrite nonneg_uval in Pm by done.
  set (M := (k + 1) * 2 ^ 32). assert (0 <= M < 2 ^ 53) as HM by (unfold M; lia).
  destruct (f64_add_spec x term) as (Ca & Na & Va); [apply N|apply Nm|done..|].
  assert (uval (f64_of M) = M * 2 ^ 1074) as VM by (by apply uval_f64_of).
  assert (0 <= uval (f64_add x term) <= M * 2 ^ 1074) as R.
  { rewrite Va. split; [rewrite <- (nearestS_0 1) by lia; apply nearestS_mono; lia|].
    assert (is_finite (f64_of M) = true) as FM by (apply finite_i128; lia).
    rewrite <- VM, <- (nearestS_uval (f64_of M) (proj1 (f64_of_num M)) FM).
    apply nearestS_mono; [lia..|]. rewrite VM. unfold M. nia. }
  split; [done|]. split; [|exact R].
  apply (nn_finite_le _ (f64_of M)); [split; [done|]; rewrite nonneg_uval by done; lia|apply f64_of_num| |apply finite_i128; lia].
  apply f64_le_uval; [done|apply f64_of_num|]. rewrite VM. apply R.
Qed.

Lemma tod_loop_demand guard tod end_ pos x k : Forall (fun n => 0 <= n < 2 ^ 32) tod -> 0 <= pos -> 0 <= k ->
  k + Z.of_nat guard < 2 ^ 20 -> demand_at_most k x -> demand_at_most (k + Z.of_nat guard) (tod_loop guard tod end_ pos x).1.
Proof.
  intros HT. revert pos x k. induction guard as [|guard IH]; intros pos x k Hp Hk G D; cbn [tod_loop fst].
  { by rewrite Z.add_0_r. }
  pose proof (Z.pow_pos_nonneg 2 1074 ltac:(lia) ltac:(lia)) as P.
  destruct (pos <? end_) eqn:E; bools; [|cbn [fst]; destruct D as (N & F & B0 & B); split; [done|]; split; [done|]; split; [done|];
    eapply Z.le_trans; [exact B|]; repeat (apply Z.mul_le_mono_nonneg_r; [lia|]); lia].
  destruct (bucket_end_spec pos Hp) as [B _]. set (be := Z.quot pos BUCKET_NS * BUCKET_NS + BUCKET_NS) in *.
  replace (k + Z.of_nat (S guard)) with (k + 1 + Z.of_nat guard) by lia. apply IH; [lia..|].
  apply demand_add; [lia|done| |lia].
  destruct (tod !! _) as [n|] eqn:En; cbn [default]; [|lia]. rewrite List.Forall_forall in HT.
  apply HT, list_elem_of_In. by eapply list_elem_of_lookup_2.
Qed.

(** The demand forecast.  The loop over the buckets has enough rounds for every
    horizon up to 511 buckets: it stops at the end of the window, so the whole window is
    counted; and the forecast is a finite number from zero to what 512 full buckets can
    hold, whatever the horizon. *)
Theorem demand_window s now horizon : stats_ok s -> 0 <= now -> 0 <= horizon < 2 ^ 32 ->
  let end_ := ts_saturating_add now (horizon * 1000000000) in
  (now <= i128_max -> horizon <= 511 * BUCKET_SECS -> (tod_loop 512 (ds_tod s) end_ now (f64_of 0)).2 = end_) /\
  within (f64_of 0) (f64_of (512 * 2 ^ 32)) (expected_tod_queries s now horizon).
Proof.
  intros O Hn Hh end_. split.
  - intros Hb Hh2. assert (0 < BUCKET_NS) as PB by (unfold BUCKET_NS, BUCKET_SECS; lia).
    assert (now <= end_ <= now + horizon * 1000000000) as He.
    { unfold end_, ts_saturating_add, clamp_i128. unfold i128_min, i128_max in *. lia. }
    apply tod_loop_end; [lia|]. pose proof (Z.mul_succ_div_gt now BUCKET_NS PB). unfold BUCKET_NS, BUCKET_SECS in *. lia.
  - unfold expected_tod_queries. fold end_. set (days := Z.max _ 1).
    pose proof (tod_loop_demand 512 (ds_tod s) end_ now (f64_of 0) 0 (proj2 (so_tod s O)) Hn ltac:(lia) ltac:(lia)) as D.
    assert (demand_at_most 0 (f64_of 0)) as D0 by (split; [apply f64_of_num|split; [done|]]; change (uval (f64_of 0)) with 0; lia).
    specialize (D D0). set (e := (tod_loop _ _ _ _ _).1) in *. clearbody e. destruct D as (N & F & B).
    assert (1 <= days <= 2 ^ 127 - 1) as Hd.
    { unfold days, NS_PER_DAY. pose proof (ts_sub_range now (ds_first_seen s)) as R. set (d := ts_saturating_sub _ _) in *. clearbody d.
      split; [lia|]. apply Z.max_lub; [|lia]. pose proof (Z.quot_le_upper_bound d (86400 * 1000000000) (2 ^ 127 - 1)). lia. }
    destruct (f64_of_mono 1 days ltac:(lia)) as (N1 & Nd & Ld). rewrite f64_le_uval in Ld by done.
    destruct (f64_div_le e (f64_of days)) as (Nq & Pq & Uq); [apply N|done|lia|done|apply finite_i128; lia|done|].
    split; [done|]. rewrite !f64_le_uval by (done || apply f64_of_num). change (uval (f64_of 0)) with 0. split; [done|].
    rewrite (uval_f64_of (512 * 2 ^ 32)) by lia. lia.
Qed.

(** the estimator after any stream of queries, failures and upstream observations
    (with round trips up to 65536 ms).  The table is sorted and holds no more zones than
    it may; a zone keeps the last 1 to 64 query times, ending with the last one seen,
    and 96 counters of 32 bits; its failure rate is in the unit interval, its query
    rate is a number within 10^9 of zero, clock steps included, and its cost within
    the largest round trip.  For every name the popularity is in the unit interval,
    the cost within that bound, and the probability of a query in the unit interval
    unless it is no number. *)
Theorem estimator_bounded max evs name now horizon : Forall event_ok evs ->
  let q := fold_left estimator_step evs (estimator_new max) in
  bt_sorted (qe_domains q) /\ zlen (qe_domains q) <= Z.max max 1 /\
  (forall s, zone_stats q name = Some s -> stats_ok s) /\
  within (f64_of 0) (f64_of 1) (popularity q name now) /\
  within (f64_of 0) RTT_MAX (estimator_cost_ms q name) /\
  (is_nan (probability q name now horizon) = true \/
   f64_le (f64_of 0) (probability q name now horizon) = true /\ f64_le (probability q name now horizon) (f64_of 1) = true).
Proof.
  intros H q. pose proof (run_ok evs (estimator_new max) (estimator_new_ok max) H) as O. fold q in O.
  assert (qe_max_domains q = Z.max max 1) as M by (apply run_max).
  split; [apply O|]. split; [rewrite <- M; apply O|]. split; [intros s; by apply zone_found|].
  unfold popularity, estimator_cost_ms, probability. destruct (zone_stats q name) as [s|] eqn:E.
  - assert (stats_ok s) as Hs by (by eapply zone_found). split; [by apply stats_popularity_unit|]. split; [|apply clamp_unit_cases].
    unfold stats_est_cost_ms. destruct (_ =? 0); [|apply Hs].
    apply (within_weaken _ _ _ _ _ (within_self (f64_of 50) eq_refl)). vm_compute. reflexivity.
  - split; [by apply zero_within|]. split; [|right; split; reflexivity].
    apply (within_weaken _ _ _ _ _ (within_self (f64_of 50) eq_refl)). vm_compute. reflexivity.
Qed.

Lemma demand_window_witness :
  stats_ok (domain_stats_new 0) /\
  (let end_ := ts_saturating_add 0 (7200 * 1000000000) in
   (tod_loop 512 (ds_tod (domain_stats_new 0)) end_ 0 (f64_of 0)).2 = end_) /\
  expected_tod_queries (domain_stats_new 0) 0 7200 = f64_of 1.
Proof.
  split; [apply domain_stats_new_ok|]. split; [|vm_compute; reflexivity].
  pose proof (demand_window (domain_stats_new 0) 0 7200 (domain_stats_new_ok 0) ltac:(lia) ltac:(lia)) as [H _].
  apply H; [unfold i128_max; lia|unfold BUCKET_SECS; lia].
Defined.

(** Beyond 512 buckets the forecast is cut off: a query in every bucket of the last day,
    and a horizon of a year counts no more than one of 460800 seconds. *)
Example demand_cut_off :
  let s := mkStats 96 0 0 (f64_of 0) [0] (replicate 96 1) 0 (f64_of 0) (f64_of 0) 0 in
  expected_tod_queries s 0 (365 * 86400) = f64_of 512 /\ expected_tod_queries s 0 (365 * 86400) = expected_tod_queries s 0 460800.
Proof. vm_compute. split; reflexivity. Qed.

(** Two zones in a table for one. *)
Definition zone_a : Name := MkName [1; 97; 0].
Definition zone_b : Name := MkName [1; 98; 0].
Definition zone_events : list ZoneEvent :=
  [EvQuery zone_a 0; EvUpstream zone_a (f64_of 30); EvFailure zone_a; EvQuery zone_a 1000000000; EvQuery zone_b 2000000000;
   EvUpstream zone_b (f64_of 40); EvUpstream zone_b (f64_of 20)].

Lemma estimator_bounded_witness :
  let q := fold_left estimator_step zone_events (estimator_new 1) in
  zlen (qe_domains q) <= 1 /\ within (f64_of 0) RTT_MAX (estimator_cost_ms q zone_b) /\
  (qe_domains q).*1 = [zone_b] /\ f64_lt (f64_of 37) (estimator_cost_ms q zone_b) = true.
Proof.
  assert (Forall event_ok zone_events) as H.
  { repeat apply Forall_cons_2; try exact I; [..|constructor];
      match goal with |- event_ok (EvUpstream _ ?r) => apply (within_weaken _ _ _ _ _ (within_self r eq_refl)); vm_compute; reflexivity end. }
  pose proof (estimator_bounded 1 zone_events zone_b 2000000000 60 H) as (_ & L & _ & _ & C & _).
  split; [exact L|]. split; [exact C|]. split; [vm_compute; reflexivity|]. vm_compute. reflexivity.
Defined.
