(* ===== verification/Planner.v ===== *)
(** * Resolution planner ([src/planner.rs], and the stale decision of [src/resolver.rs])

    Whether an expired answer may be served: the evidence, the assessment of the whole
    answer's provenance, and the charge to the ledger of risk.  [serve_stale] is the
    stage of [resolve_from_cache] that [Walk.v] takes as an argument; the estimator and
    the ledger it reads and charges are the [Q] of the world. *)
From stdpp Require Import gmap.
From S2P Require Import Prelude Wire Prng Name Compress Qtype Edns Bitmap RData Rr Message BTree Time Addr Float64 Float FloatOrder Budget Rendezvous Upstream RrSet CacheKey Cache Alias Query Engine Dnssec Front Routing Hosts Servers Walk Hazard Risk Provenance Estimator.

Inductive Plan := ServeFresh | ServeStale (refresh_in_background : bool) | Resolve.
#[global] Instance Plan_eq_dec : EqDecision Plan.
Proof. solve_decision. Defined.

Abbreviation Entry := (CacheEntry StabilityModel).

(** ** The context of a stale decision *)

Record StaleContext := mkStaleContext {
  sc_consequence : Consequence;
  sc_trust : TrustLevel;
  sc_freshness_lcb : f64;
  sc_staleness_secs : f64;
  sc_value_ms : f64 }.

Definition from_entry (e : Entry) (now : Ts) (value_ms : f64) (trust : TrustLevel) : StaleContext :=
  let staleness := f64_max (secs_between now (ce_expires e)) (f64_of 0) in
  mkStaleContext (classify (ck_type (ce_key e)) false) trust (freshness_lcb (hazard (ce_stability e)) staleness)
    staleness value_ms.

Definition with_provenance (c : StaleContext) (p : Provenance) : StaleContext :=
  mkStaleContext
    (match worst_consequence p with Some worst => consequence_max (sc_consequence c) worst | None => sc_consequence c end)
    (sc_trust c) (bound p) (sc_staleness_secs c) (sc_value_ms c).

(** ** The planner *)

Record PlannerConfig := mkPlannerConfig {
  pc_hazard : HazardConfig;
  pc_risk : RiskConfig;
  min_evidence_secs : f64;
  prefetch_horizon_secs : Z;
  prefetch_min_probability : f64;
  prefetch_target_freshness : f64 }.

Definition default_planner_config : PlannerConfig :=
  mkPlannerConfig default_hazard_config default_risk_config (f64_of 300) 60 (dec 5 1) (dec 9 1).

Record PrefetchPolicy := mkPrefetch {
  pp_horizon_secs : Z; pp_target_freshness : f64; pp_min_probability : f64; pp_min_evidence_secs : f64 }.

Definition wants_refresh (p : PrefetchPolicy) (m : StabilityModel) (query_probability : f64) : bool :=
  if is_nan query_probability || f64_lt query_probability (pp_min_probability p) then false
  else if negb (has_evidence (hazard m) (pp_min_evidence_secs p)) then false
  else f64_lt (freshness_lcb (hazard m) (f64_of (pp_horizon_secs p))) (pp_target_freshness p).

Definition prefetch_policy (cfg : PlannerConfig) : PrefetchPolicy :=
  mkPrefetch (prefetch_horizon_secs cfg) (prefetch_target_freshness cfg) (prefetch_min_probability cfg) (min_evidence_secs cfg).

Definition assess_stale (cfg : PlannerConfig) (c : StaleContext) : Assessment :=
  assess (pc_risk cfg) (sc_value_ms c) (sc_consequence c) (sc_trust c) (sc_freshness_lcb c) (sc_staleness_secs c).

Definition plan (cfg : PlannerConfig) (outcome : LookupOutcome StabilityModel) (now : Ts) (ctx : option StaleContext)
    (ledger : RiskLedger) : Plan * RiskLedger :=
  match outcome with
  | Fresh _ => (ServeFresh, ledger)
  | Stale entry =>
      let ctx := default (from_entry entry now (f64_of 0) TlUnverified) ctx in
      if negb (has_evidence (hazard (ce_stability entry)) (min_evidence_secs cfg)) then (Resolve, ledger) else
      let a := assess_stale cfg ctx in
      if negb (as_allowed a) then (Resolve, ledger) else
      let '(granted, ledger) := try_charge ledger (as_risk a) now in
      if negb granted then (Resolve, ledger) else (ServeStale true, ledger)
  | _ => (Resolve, ledger)
  end.

Definition should_prefetch (cfg : PlannerConfig) (m : StabilityModel) (query_probability : f64) : bool :=
  wants_refresh (prefetch_policy cfg) m query_probability.
Definition refusal_of (cfg : PlannerConfig) (c : StaleContext) : option Refusal := as_refusal (assess_stale cfg c).
Definition delegation_consequence (t : RrType) : Consequence := classify t true.

(** ** The answer as a whole *)

Definition answer_consequence (e : Entry) : Consequence :=
  classify (match ce_kind e with Positive s => rs_type s | Negative _ _ _ => RrTypes.NS end) false.

(** [Resolver::trust_level], with the [dnssec] feature. *)
Definition resolver_trust_level (anchored validated : bool) : TrustLevel :=
  Dnssec.trust_level (if validated then (if anchored then ChainAnchored else CryptoVerified) else StInsecure).

Definition entry_role (e : Entry) : DependencyRole :=
  match ce_kind e with
  | Positive s =>
      if rs_type s =? RrTypes.CNAME then DrCname else if rs_type s =? RrTypes.DNAME then DrDname else DrAnswer
  | Negative _ _ _ => DrAnswer
  end.
Definition push_answer_dependency (p : Provenance) (e : Entry) (hop : Z) (lcb : f64) : Provenance :=
  push p (dependency_new (entry_role e) (ce_key e) (Z.min hop 255) lcb).

(** The locals the loop of [resolve_from_cache] keeps for the decision. *)
Record StaleLocals := mkLocals {
  sl_provenance : Provenance;
  sl_worst : Consequence;
  sl_max_staleness : f64;
  sl_entries : list Entry }.
Definition locals_start : StaleLocals := mkLocals provenance_default Low (f64_of 0) [].

(** What an entry on the way adds to them, at its depth, fresh or stale. *)
Definition note_dependency (anchored : bool) (now : Ts) (l : StaleLocals) (d : Entry * Z * bool) : StaleLocals :=
  let '(e, depth, stale) := d in
  let worst := consequence_max (sl_worst l) (answer_consequence e) in
  if stale then
    let ctx := from_entry e now (f64_of 0) (resolver_trust_level anchored (ce_validated e)) in
    mkLocals (push_answer_dependency (sl_provenance l) e depth (sc_freshness_lcb ctx)) worst
      (f64_max (sl_max_staleness l) (sc_staleness_secs ctx)) (sl_entries l ++ [e])
  else
    mkLocals (push_answer_dependency (sl_provenance l) e depth (f64_of 1)) worst (sl_max_staleness l) (sl_entries l).

Definition stale_locals (anchored : bool) (now : Ts) (deps : list (Entry * Z * bool)) : StaleLocals :=
  fold_left (note_dependency anchored now) deps locals_start.

Definition stale_context (anchored validated : bool) (value_ms : f64) (l : StaleLocals) : StaleContext :=
  mkStaleContext (sl_worst l) (resolver_trust_level anchored validated) (bound (sl_provenance l)) (sl_max_staleness l) value_ms.

(** The plan for an answer resting on stale entries. *)
Definition stale_plan (cfg : PlannerConfig) (anchored : bool) (qname : Name) (deps : list (Entry * Z * bool))
    (validated : bool) (now : Ts) (est : QueryEstimator) (ledger : RiskLedger) : Plan * RiskLedger :=
  let l := stale_locals anchored now deps in
  match sl_entries l with
  | [] => (Resolve, ledger)
  | representative :: _ =>
      let ctx := stale_context anchored validated (estimator_cost_ms est qname) l in
      let evidence := permits_stale (sl_provenance l) &&
        forallb (fun e => has_evidence (hazard (ce_stability e)) (min_evidence_secs cfg)) (sl_entries l) in
      if evidence then plan cfg (Stale representative) now (Some ctx) ledger else (Resolve, ledger)
  end.

(** ** In the resolver *)

(** The estimator and the ledger, each behind its lock. *)
#[export] Instance risked_ops : EstimatorOps (QueryEstimator * RiskLedger) := {|
  observe_upstream q n rtt := (estimator_upstream q.1 n rtt, q.2);
  observe_failure q n := (estimator_failure q.1 n, q.2);
  score_inputs q n now := estimator_score_inputs q.1 n now |}.

Definition serve_stale {R N : Type} (cfg : PlannerConfig) (anchored : bool) (key : QueryKey)
    (deps : list (Entry * Z * bool)) (validated : bool) (now : Ts)
    (w : World StabilityModel (QueryEstimator * RiskLedger) R N) : bool * World StabilityModel (QueryEstimator * RiskLedger) R N :=
  let '(p, ledger) := stale_plan cfg anchored (qk_name key) deps validated now (w_est w).1 (w_est w).2 in
  (negb (bool_decide (p = Resolve)), set_est ((w_est w).1, ledger) w).

(** ** Lemmas: the locals *)

Definition staleness_of (e : Entry) (now : Ts) : f64 := f64_max (secs_between now (ce_expires e)) (f64_of 0).

(** The dependency an entry is pushed as. *)
Definition dependency_of (now : Ts) (d : Entry * Z * bool) : Dependency :=
  let '(e, depth, stale) := d in
  dependency_new (entry_role e) (ce_key e) (Z.min depth 255)
    (if stale then freshness_lcb (hazard (ce_stability e)) (staleness_of e now) else f64_of 1).

Definition dep_class (d : Entry * Z * bool) : Consequence := answer_consequence d.1.1.
Definition stale_entries (deps : list (Entry * Z * bool)) : list Entry := map (fun d => d.1.1) (List.filter (fun d => d.2) deps).

Lemma stale_locals_spec anchored now deps l : fold_left (note_dependency anchored now) deps l =
  mkLocals (fold_left push (map (dependency_of now) deps) (sl_provenance l))
    (fold_left consequence_max (map dep_class deps) (sl_worst l))
    (fold_left f64_max (map (fun e => staleness_of e now) (stale_entries deps)) (sl_max_staleness l))
    (sl_entries l ++ stale_entries deps).
Proof.
  revert l. induction deps as [|[[e n] s] deps IH]; intros [p w m es]; [by rewrite app_nil_r|].
  cbn [fold_left map]. rewrite IH. unfold stale_entries. cbn [List.filter snd]. destruct s; cbn; [|done].
  by rewrite <- app_assoc.
Qed.

Lemma freshness_lcb_canonical m delta : canonical_f64 (freshness_lcb m delta).
Proof.
  unfold freshness_lcb. destruct (f64_le _ _); [apply f64_of_num|]. destruct (negb _); [apply f64_of_num|].
  apply clamp_canonical; [|apply f64_of_num..]. unfold exp_nonpos, exp.
  destruct (f64_le _ _); [apply f64_of_num|]. destruct (is_nan _) eqn:E; [by destruct (f64_mul _ _)|].
  destruct (f64_lt (dec _ _) _); [done|]. destruct (f64_lt _ _); [apply f64_of_num|apply from_bits_canonical].
Qed.

Lemma dependency_of_ok now d : lcb_ok (dependency_of now d).
Proof. destruct d as [[e n] s]. apply dependency_new_ok. destruct s; [apply freshness_lcb_canonical|apply f64_of_num]. Qed.

Lemma fresh_dependency now e n : uval (dp_lcb (dependency_of now (e, n, false))) = ONE.
Proof. done. Qed.

Lemma consequence_max_rank a b : consequence_rank (consequence_max a b) = Z.max (consequence_rank a) (consequence_rank b) /\
  (consequence_max a b = a \/ consequence_max a b = b).
Proof. unfold consequence_max. destruct (_ <? _) eqn:E; bools; (split; [lia|tauto]). Qed.

(** The worst class is one of those met, or the one it started from, and above all. *)
Lemma worst_spec cs c0 : let w := fold_left consequence_max cs c0 in
  (w = c0 \/ In w cs) /\ consequence_rank c0 <= consequence_rank w /\ (forall c, In c cs -> consequence_rank c <= consequence_rank w).
Proof.
  revert c0. induction cs as [|c cs IH]; intros c0; cbn [fold_left]; [split; [by left|split; [lia|done]]|].
  destruct (IH (consequence_max c0 c)) as (A & B & C). destruct (consequence_max_rank c0 c) as [R O].
  split; [|split; [lia|]].
  - destruct A as [->|A]; [|right; by right]. destruct O as [->| ->]; [by left|right; by left].
  - intros x [->|H]; [lia|by apply C].
Qed.

Lemma Low_least c : consequence_rank Low <= consequence_rank c.
Proof. by destruct c. Qed.

Lemma max_spec (ss : list f64) s0 : Forall num ss -> num s0 ->
  let m := fold_left f64_max ss s0 in
  num m /\ uval s0 <= uval m /\ (forall s, In s ss -> uval s <= uval m) /\ (m = s0 \/ In m ss).
Proof.
  intros H. revert s0. induction H as [|s ss Hs H IH]; intros s0 N0; cbn [fold_left]; [split; [done|]; split; [lia|]; split; [done|by left]|].
  destruct (uval_max s0 s N0 Hs) as [Nm V]. destruct (IH _ Nm) as (N & B & C & D). split; [done|]. split; [lia|]. split.
  - intros x [->|Hx]; [lia|by apply C].
  - destruct D as [->|D]; [|right; by right]. destruct (f64_max_cases s0 s N0 Hs) as [[-> _]|[-> _]]; [by left|right; by left].
Qed.

Lemma staleness_num e now : num (staleness_of e now) /\ 0 <= uval (staleness_of e now).
Proof.
  destruct (secs_between_num now (ce_expires e)) as [N _]. destruct (uval_max _ (f64_of 0) N (f64_of_num 0)) as [Nm V].
  split; [done|]. unfold staleness_of. rewrite V. change (uval (f64_of 0)) with 0. lia.
Qed.

Definition worst_of (deps : list (Entry * Z * bool)) : Consequence := fold_left consequence_max (map dep_class deps) Low.

Lemma worst_attained deps : deps <> [] -> exists d, In d deps /\ dep_class d = worst_of deps.
Proof.
  intros Hne. destruct (worst_spec (map dep_class deps) Low) as (A & _ & C). fold (worst_of deps) in *.
  destruct A as [A|A]; [|apply in_map_iff in A as (d & E & Hd); by exists d]. destruct deps as [|d deps]; [done|].
  exists d. split; [by left|]. specialize (C (dep_class d) ltac:(by left)). rewrite A in *. pose proof (Low_least (dep_class d)).
  destruct (dep_class d); done || (cbn in *; lia).
Qed.

Lemma worst_above deps d : In d deps -> consequence_rank (dep_class d) <= consequence_rank (worst_of deps).
Proof. intros H. apply worst_spec. by apply in_map. Qed.

Lemma horizon_mono c c' s : num s -> consequence_rank c' <= consequence_rank c ->
  f64_le s (f64_of (stale_horizon_secs c)) = true -> f64_le s (f64_of (stale_horizon_secs c')) = true.
Proof.
  intros N L H. assert (stale_horizon_secs c <= stale_horizon_secs c') as Lh by (destruct c, c'; cbn in *; lia).
  destruct (f64_of_mono _ _ Lh) as (N1 & N2 & Lf). by apply (f64_le_trans _ (f64_of (stale_horizon_secs c))).
Qed.

Lemma allows_stale_mono c c' : consequence_rank c' <= consequence_rank c -> allows_stale c = true -> allows_stale c' = true.
Proof. destruct c, c'; done || (cbn; lia). Qed.

(** The three tests of the assessment, for one class. *)
Definition class_admits (cfg : RiskConfig) (s b : f64) (c : Consequence) : Prop :=
  allows_stale c = true /\ f64_le s (f64_of (stale_horizon_secs c)) = true /\ f64_le (min_freshness cfg c) b = true.

Lemma worst_admits cfg s b deps : num (base_min_freshness cfg) -> num s -> num b -> deps <> [] ->
  class_admits cfg s b (worst_of deps) <-> forall d, In d deps -> class_admits cfg s b (dep_class d).
Proof.
  intros Nf Ns Nb Hne. split.
  - intros (A & H & F) d Hd. pose proof (worst_above deps d Hd) as L.
    destruct (min_freshness_mono cfg (worst_of deps) (dep_class d) Nf L) as [W M].
    destruct (min_freshness_mono cfg (dep_class d) (dep_class d) Nf ltac:(lia)) as [W' _].
    split; [by eapply allows_stale_mono|]. split; [by eapply horizon_mono|].
    by apply (f64_le_trans _ (min_freshness cfg (worst_of deps))); [apply W'|apply W| | |].
  - intros H. destruct (worst_attained deps Hne) as (d & Hd & <-). by apply H.
Qed.

(** The bound of the whole answer against a floor, and the longest staleness against a
    horizon, dependency by dependency. *)
Lemma bound_floor now deps f : within (f64_of 0) (f64_of 1) f ->
  let b := bound (fold_left push (map (dependency_of now) deps) provenance_default) in
  num b /\ (f64_le f b = true <-> forall d, In d deps -> f64_le f (dp_lcb (dependency_of now d)) = true).
Proof.
  intros W b. assert (Forall lcb_ok (map (dependency_of now) deps)) as H.
  { apply List.Forall_forall. intros x Hx. apply in_map_iff in Hx as (d & <- & _). apply dependency_of_ok. }
  pose proof (push_all_capped _ [] _ (new_capped default_provenance_config) (Forall_nil_2 _) H) as C.
  destruct (bound_capped _ _ C H) as [N V]. split; [done|]. destruct W as (Nf & _ & Hf).
  rewrite f64_le_uval in Hf by (done || apply f64_of_num). unfold b, provenance_default. rewrite f64_le_uval by done. rewrite V. cbn [app].
  split.
  - intros L d Hd. apply f64_le_uval; [done|apply dependency_of_ok|]. eapply Z.le_trans; [exact L|].
    apply minval_le, (in_map (fun d => uval (dp_lcb d))). by apply in_map.
  - intros L. destruct (minval_attained ONE (values (map (dependency_of now) deps))) as [->|E]; [done|].
    apply in_map_iff in E as (x & <- & Hx). apply in_map_iff in Hx as (d & <- & Hd).
    specialize (L d Hd). rewrite f64_le_uval in L; [done|done|apply dependency_of_ok].
Qed.

Lemma staleness_horizon now deps h : num h -> 0 <= uval h ->
  let s := fold_left f64_max (map (fun e => staleness_of e now) (stale_entries deps)) (f64_of 0) in
  num s /\ (f64_le s h = true <-> forall e n, In (e, n, true) deps -> f64_le (staleness_of e now) h = true).
Proof.
  intros Nh Ph s. destruct (max_spec (map (fun e => staleness_of e now) (stale_entries deps)) (f64_of 0)) as (N & B & C & D).
  { apply List.Forall_forall. intros x Hx. apply in_map_iff in Hx as (e & <- & _). apply staleness_num. }
  { apply f64_of_num. }
  fold s in N, B, C, D. split; [done|]. rewrite f64_le_uval by done. split.
  - intros L e n He. apply f64_le_uval; [apply staleness_num|done|]. eapply Z.le_trans; [|exact L]. apply C, in_map_iff.
    exists e. split; [done|]. apply in_map_iff. exists (e, n, true). split; [done|]. by apply filter_In.
  - intros L. destruct D as [->|D]; [done|]. apply in_map_iff in D as (e & <- & He).
    apply in_map_iff in He as ([[e' n] s'] & <- & He). apply filter_In in He as [He E]. cbn in E, L |- *. subst s'.
    specialize (L e' n He). rewrite f64_le_uval in L; [done|apply staleness_num|done].
Qed.

Lemma aliases_permit_stale now deps :
  permits_stale (fold_left push (map (dependency_of now) deps) provenance_default) = true.
Proof.
  assert (Forall lcb_ok (map (dependency_of now) deps)) as H.
  { apply List.Forall_forall. intros x Hx. apply in_map_iff in Hx as (d & <- & _). apply dependency_of_ok. }
  unfold provenance_default. rewrite (permits_capped _ _ (push_all_capped _ [] _ (new_capped default_provenance_config) (Forall_nil_2 _) H)).
  cbn [app]. apply forallb_forall. intros x Hx. apply in_map_iff in Hx as ([[e n] s] & <- & _).
  unfold dep_permits_stale, dependency_of. cbn [dependency_new dp_role]. unfold entry_role.
  destruct (ce_kind e); [|done]. by repeat case_match.
Qed.

Record risk_config_ok (cfg : RiskConfig) : Prop := {
  rc_floor : num (base_min_freshness cfg);
  rc_value : nn (value_floor_ms cfg) /\ is_finite (value_floor_ms cfg) = true }.

Section charge.
Context (cfg : PlannerConfig) (ctx : StaleContext) (ledger : RiskLedger) (now : Ts).
Context (HC : risk_config_ok (pc_risk cfg)) (LC : ledger_config_ok (rl_config ledger)) (LO : ledger_ok ledger).
Context (Cv : canonical_f64 (sc_value_ms ctx)) (Nb : num (sc_freshness_lcb ctx)) (Ns : num (sc_staleness_secs ctx)).

Definition risk_at : f64 :=
  risk_of (pc_risk cfg) (sc_value_ms ctx) (sc_consequence ctx) (sc_trust ctx) (sc_freshness_lcb ctx) (sc_staleness_secs ctx).
Abbreviation admitted_class :=
  (class_admits (pc_risk cfg) (sc_staleness_secs ctx) (sc_freshness_lcb ctx) (sc_consequence ctx)).
Abbreviation fits := (f64_le (f64_add (debt (drain ledger now)) risk_at) (budget_capacity (rl_config ledger))).

Lemma allowed_iff : as_allowed (assess_stale cfg ctx) = true <-> admitted_class /\ is_finite risk_at = true.
Proof.
  destruct (min_freshness_mono (pc_risk cfg) (sc_consequence ctx) (sc_consequence ctx) (rc_floor _ HC) ltac:(lia)) as [W _].
  unfold assess_stale, assess. cbn [as_allowed]. unfold class_admits, past_horizon.
  rewrite !f64_lt_le by (done || apply f64_of_num || apply W). fold risk_at.
  destruct (allows_stale (sc_consequence ctx)), (f64_le (sc_staleness_secs ctx) _), (f64_le (min_freshness _ _) _), (is_finite risk_at);
    cbn [negb]; split; (done || (intros []; done) || (intros [(? & ? & ?) ?]; done)).
Qed.

Lemma admitted_risk : admitted_class -> nn risk_at.
Proof.
  intros (Al & H & _). destruct (rc_value _ HC) as [Pv Fv].
  assert (past_horizon (sc_consequence ctx) (sc_staleness_secs ctx) = false) as Hp
    by (unfold past_horizon; rewrite f64_lt_le by (done || apply f64_of_num); by rewrite H).
  apply (risk_of_mono (pc_risk cfg) _ _ _ (sc_trust ctx) (sc_freshness_lcb ctx) (sc_staleness_secs ctx) Pv Fv Cv (proj1 Nb) Al (Z.le_refl _) Hp Hp).
Qed.

Lemma fits_finite : nn risk_at -> fits = true -> is_finite risk_at = true.
Proof.
  intros Nx L. destruct (is_finite risk_at) eqn:F; [done|]. rewrite (nn_infinite risk_at Nx F) in L.
  destruct (drain_ok ledger now LC LO) as (([Nd _] & _) & _). destruct LC as [_ [_ Fc]].
  destruct (budget_capacity (rl_config ledger)) as [s|s| |s m e]; try done;
    by destruct (debt (drain ledger now)) as [?|[]| |[]].
Qed.

Lemma try_charge_fits : admitted_class -> is_finite risk_at = true ->
  let r := try_charge ledger (as_risk (assess_stale cfg ctx)) now in
  r.1 = fits /\ debt r.2 = if fits then f64_add (debt (drain ledger now)) risk_at else debt (drain ledger now).
Proof.
  intros Hc F. destruct (admitted_risk Hc) as [Nr Pr]. destruct (drain_ok ledger now LC LO) as ((Nd & Ld) & Er & _).
  assert (as_risk (assess_stale cfg ctx) = risk_at) as -> by (unfold assess_stale, assess; cbn [as_risk]; fold risk_at; by rewrite F).
  unfold try_charge. rewrite F. cbn [negb orb].
  rewrite f64_lt_le by (done || apply f64_of_num). unfold nonneg in Pr. rewrite Pr. cbn [negb].
  rewrite Er, f64_lt_le; [|apply LC|by apply nn_add]. by destruct fits.
Qed.

(** The charge of an assessed context: what the assessment tests and what the ledger does. *)
Lemma charge_spec : let a := assess_stale cfg ctx in let r := try_charge ledger (as_risk a) now in
  (as_allowed a = true /\ r.1 = true <-> admitted_class /\ fits = true) /\
  (as_allowed a = true -> r.1 = true -> debt r.2 = f64_add (debt (drain ledger now)) risk_at) /\
  (as_allowed a = true -> r.1 = false -> debt r.2 = debt (drain ledger now)).
Proof.
  intros a r. split; [|split].
  - split.
    + intros [Ha Hr]. apply allowed_iff in Ha as [Hc F]. split; [done|]. by rewrite <- (proj1 (try_charge_fits Hc F)).
    + intros [Hc L]. assert (is_finite risk_at = true) as F by (apply fits_finite; [by apply admitted_risk|done]).
      split; [by apply allowed_iff|]. unfold r, a. by rewrite (proj1 (try_charge_fits Hc F)).
  - intros Ha Hr. apply allowed_iff in Ha as [Hc F]. destruct (try_charge_fits Hc F) as [E D]. fold a r in E, D.
    rewrite E in Hr. by rewrite Hr in D.
  - intros Ha Hr. apply allowed_iff in Ha as [Hc F]. destruct (try_charge_fits Hc F) as [E D]. fold a r in E, D.
    rewrite E in Hr. by rewrite Hr in D.
Qed.
End charge.

(** What an answer resting on [deps] must meet to be served stale: some entry is stale;
    every stale entry was watched long enough; and, whatever the class of any entry,
    no class forbids stale data, no stale entry is past that class's horizon, and the
    freshness of every entry is at least that class's floor. *)
Record servable (cfg : PlannerConfig) (now : Ts) (deps : list (Entry * Z * bool)) : Prop := {
  sv_stale : exists e n, In (e, n, true) deps;
  sv_evidence : forall e n, In (e, n, true) deps -> has_evidence (hazard (ce_stability e)) (min_evidence_secs cfg) = true;
  sv_class : forall d, In d deps -> allows_stale (dep_class d) = true;
  sv_horizon : forall d e n, In d deps -> In (e, n, true) deps ->
    f64_le (staleness_of e now) (f64_of (stale_horizon_secs (dep_class d))) = true;
  sv_fresh : forall d d', In d deps -> In d' deps ->
    f64_le (min_freshness (pc_risk cfg) (dep_class d)) (dp_lcb (dependency_of now d')) = true }.

Lemma stale_entries_In deps e : In e (stale_entries deps) <-> exists n, In (e, n, true) deps.
Proof.
  unfold stale_entries. rewrite in_map_iff. split.
  - intros ([[e' n] s] & <- & H). apply filter_In in H as [H E]. cbn in E. subst. by exists n.
  - intros [n H]. exists (e, n, true). split; [done|]. by apply filter_In.
Qed.

Lemma servable_iff cfg now deps : risk_config_ok (pc_risk cfg) ->
  let l := mkLocals (fold_left push (map (dependency_of now) deps) provenance_default) (worst_of deps)
             (fold_left f64_max (map (fun e => staleness_of e now) (stale_entries deps)) (f64_of 0)) (stale_entries deps) in
  num (bound (sl_provenance l)) /\ num (sl_max_staleness l) /\
  (servable cfg now deps <->
     sl_entries l <> [] /\ forallb (fun e => has_evidence (hazard (ce_stability e)) (min_evidence_secs cfg)) (sl_entries l) = true /\
     class_admits (pc_risk cfg) (sl_max_staleness l) (bound (sl_provenance l)) (sl_worst l)).
Proof.
  intros HC l. assert (forall h, num h -> 0 <= uval h -> _) as SH by exact (fun h => staleness_horizon now deps h).
  assert (forall c, within (f64_of 0) (f64_of 1) (min_freshness (pc_risk cfg) c)) as FW
    by (intros c; apply (min_freshness_mono _ c c (rc_floor _ HC) ltac:(lia))).
  assert (forall c, num (f64_of (stale_horizon_secs c)) /\ 0 <= uval (f64_of (stale_horizon_secs c))) as HW
    by (intros c; split; [apply f64_of_num|]; destruct c; vm_compute; discriminate).
  assert (num (bound (sl_provenance l))) as Nb by apply (bound_floor now deps _ (FW Low)).
  assert (num (sl_max_staleness l)) as Ns by apply (SH _ (proj1 (HW Low)) (proj2 (HW Low))).
  split; [done|]. split; [done|]. cbn [sl_entries sl_worst l].
  assert (sl_entries l <> [] <-> exists e n, In (e, n, true) deps) as E1.
  { cbn [sl_entries l]. split.
    - intros H. destruct (stale_entries deps) as [|e es] eqn:E; [done|]. exists e. apply stale_entries_In. rewrite E. by left.
    - intros (e & n & H) E. assert (In e (stale_entries deps)) as I by (apply stale_entries_In; by exists n). by rewrite E in I. }
  cbn [sl_entries l] in E1. rewrite E1, forallb_forall.
  assert (forall c, class_admits (pc_risk cfg) (sl_max_staleness l) (bound (sl_provenance l)) c <-> allows_stale c = true /\
    (forall e n, In (e, n, true) deps -> f64_le (staleness_of e now) (f64_of (stale_horizon_secs c)) = true) /\
    (forall d', In d' deps -> f64_le (min_freshness (pc_risk cfg) c) (dp_lcb (dependency_of now d')) = true)) as CA.
  { intros c. unfold class_admits. destruct (HW c) as [Nh Ph]. destruct (SH _ Nh Ph) as [_ S].
    destruct (bound_floor now deps _ (FW c)) as [_ B]. cbn [sl_max_staleness sl_provenance l] in *. tauto. }
  split.
  - intros [S V C H F]. split; [done|]. split; [intros e He; apply stale_entries_In in He as [n He]; by apply (V e n)|].
    apply worst_admits; [apply HC|done|done| |].
    + destruct S as (e & n & He). by destruct deps.
    + intros d Hd. apply CA. split; [by apply C|]. split; [intros e n He; by apply (H d e n)|]. intros d' Hd'. by apply F.
  - intros (S & V & A). assert (forall d, In d deps -> class_admits (pc_risk cfg) (sl_max_staleness l) (bound (sl_provenance l)) (dep_class d)) as A'
      by (apply worst_admits; [apply HC|done|done| |done]; destruct S as (e & n & He); by destruct deps).
    split; [done| | | |].
    + intros e n He. apply V, stale_entries_In. by exists n.
    + intros d Hd. apply (proj1 (CA _) (A' d Hd)).
    + intros d e n Hd He. destruct (proj1 (CA _) (A' d Hd)) as (_ & H & _). by apply (H e n).
    + intros d d' Hd Hd'. destruct (proj1 (CA _) (A' d Hd)) as (_ & _ & H). by apply H.
Qed.

Lemma estimator_cost_canonical est n : estimator_ok est -> canonical_f64 (estimator_cost_ms est n).
Proof.
  intros O. unfold estimator_cost_ms, zone_stats. destruct (bt_get _ _) as [s|] eqn:E; [|apply f64_of_num].
  unfold stats_est_cost_ms. destruct (_ =? 0); [apply f64_of_num|]. by apply (zone_found est _ s O) in E as [_ _ _ _ _ [[? _] _]].
Qed.

(** The risk of an answer resting on [deps]. *)
Definition answer_risk (cfg : PlannerConfig) (anchored : bool) (qname : Name) (deps : list (Entry * Z * bool))
    (validated : bool) (now : Ts) (est : QueryEstimator) : f64 :=
  risk_at cfg (stale_context anchored validated (estimator_cost_ms est qname) (stale_locals anchored now deps)).

Lemma stale_decision_exact_core cfg anchored qname deps validated now est ledger :
  risk_config_ok (pc_risk cfg) -> ledger_config_ok (rl_config ledger) -> ledger_ok ledger -> estimator_ok est ->
  let risk := answer_risk cfg anchored qname deps validated now est in
  let '(p, ledger') := stale_plan cfg anchored qname deps validated now est ledger in
  (p <> Resolve <-> servable cfg now deps /\
     f64_le (f64_add (debt (drain ledger now)) risk) (budget_capacity (rl_config ledger)) = true) /\
  (p <> Resolve -> p = ServeStale true /\ debt ledger' = f64_add (debt (drain ledger now)) risk) /\
  (p = Resolve -> debt ledger' = debt ledger \/ debt ledger' = debt (drain ledger now)).
Proof.
  intros HC LC LO EO. unfold answer_risk, stale_plan, stale_locals.
  destruct (servable_iff cfg now deps HC) as (Nb & Ns & SV). set (l := mkLocals _ _ _ _) in *.
  assert (fold_left (note_dependency anchored now) deps locals_start = l) as -> by (rewrite stale_locals_spec; reflexivity).
  set (ctx := stale_context _ _ _ _). assert (permits_stale (sl_provenance l) = true) as -> by apply aliases_permit_stale.
  destruct (charge_spec cfg ctx ledger now HC LC LO (estimator_cost_canonical est qname EO) Nb Ns) as (A & D & D').
  change (sl_entries l) with (stale_entries deps) in *.
  destruct (stale_entries deps) as [|r es] eqn:E; [split; [|split; [done|by left]]; split; [done|]; intros [S _]; by apply SV in S as [? _]|].
  cbn [andb]. destruct (forallb _ (r :: es)) eqn:F; cycle 1.
  { split; [|split; [done|by left]]. split; [done|]. intros [S _]. apply SV in S as (_ & S & _). done. }
  cbn [plan default]. assert (has_evidence (hazard (ce_stability r)) (min_evidence_secs cfg) = true) as ->
    by (cbn [forallb] in F; by apply andb_true_iff in F as [? _]). cbn [negb].
  assert (servable cfg now deps <-> class_admits (pc_risk cfg) (sc_staleness_secs ctx) (sc_freshness_lcb ctx) (sc_consequence ctx)) as SC
    by (rewrite SV; split; [by intros (_ & _ & ?)|done]).
  change (Datatypes.id ctx) with ctx. rewrite <- SC in A. clear SC SV. revert A D D'.
  destruct (as_allowed (assess_stale cfg ctx)) eqn:Al; cbn [negb].
  - destruct (try_charge ledger _ now) as [granted ledger']. cbn [fst snd]. intros A D D'. destruct granted; cbn [negb].
    + split; [split; [intros _; by apply A|done]|]. split; [|done]. intros _. split; [done|]. by apply D.
    + split; [split; [done|intros H; by apply A in H as [_ ?]]|]. split; [done|]. intros _. right. by apply D'.
  - intros A _ _. split; [split; [done|intros H; by apply A in H as [? _]]|]. split; [done|]. by left.
Qed.

(** ** The answer from the cache *)

Section answer.
Context {R N : Type} `{NetworkOps N, RandomSource R}.
Context (hcfg : HazardConfig).
#[local] Instance model_ops : StabilityOps StabilityModel := stability_ops hcfg.
Abbreviation Q := (QueryEstimator * RiskLedger)%type.
Abbreviation Wd := (World StabilityModel Q R N).
Context (ecfg : EngineConfig) (stale_serve_ttl : Z) (pcfg : PlannerConfig).
Context (refresh_with_dependents : CacheKey -> Wd -> Wd).
Context (key : QueryKey) (now : Ts) (policy : CachePolicy).

(** A lookup of the cache gave the entry. *)
Definition looked_up (d : Entry * Z * bool) : Prop :=
  exists (c c' : SemanticCache StabilityModel) k, lookup c k now = (if d.2 then Stale d.1.1 else Fresh d.1.1, c').

(** The locals of the loop against the entries it met. *)
Record hit_ok (h : Hit (S := StabilityModel)) : Prop := {
  ho_entries : Forall looked_up (h_deps h);
  ho_stale : h_stale h = existsb (fun d => d.2) (h_deps h);
  ho_ttl : h_stale h = true -> h_ttl h <= Z.max stale_serve_ttl 1;
  ho_policy : h_stale h = true -> policy = Reuse;
  ho_validated : h_validated h = forallb (fun d => ce_validated d.1.1) (h_deps h);
  ho_answers : Forall (fun r => exists d set, In d (h_deps h) /\ ce_kind d.1.1 = Positive set /\ In r (records set)) (h_answers h) }.

Lemma hit_ok_note h e stale depth t : hit_ok h -> looked_up (e, depth, stale) ->
  (stale = true -> t = Z.max stale_serve_ttl 1 /\ policy = Reuse) ->
  let h' := note_entry e stale depth t h in hit_ok (if stale then note_stale e h' else h').
Proof.
  intros [E S T P V A] L Hs h'. assert (h_deps (if stale then note_stale e h' else h') = h_deps h ++ [(e, depth, stale)]) as D
    by (by destruct stale).
  constructor; rewrite ?D.
  - apply Forall_app. split; [done|by constructor].
  - rewrite existsb_app, <- S. cbn [existsb snd]. destruct stale; cbn; [by rewrite orb_true_r|by rewrite !orb_false_r].
  - destruct stale; cbn; [destruct (Hs eq_refl) as [-> _]; lia|]. intros H2. specialize (T H2). lia.
  - destruct stale; cbn; [intros _; by apply Hs|done].
  - rewrite forallb_app, <- V. by destruct stale; cbn; rewrite andb_true_r.
  - assert (h_answers (if stale then note_stale e h' else h') = h_answers h) as -> by (by destruct stale).
    eapply List.Forall_impl; [|exact A]. intros r (d & set & I & K & M). exists d, set. split; [|done].
    apply in_app_iff. by left.
Qed.

Lemma hit_ok_records h recs sigs e n s set : hit_ok h -> In (e, n, s) (h_deps h) -> ce_kind e = Positive set ->
  (forall r, In r recs -> In r (records set)) -> hit_ok (add_hit_records recs sigs h).
Proof.
  intros [E S T P V A] I K M. constructor; try done. apply Forall_app. split; [done|].
  apply List.Forall_forall. intros r Hr. exists (e, n, s), set. split; [done|]. split; [done|]. by apply M.
Qed.

Lemma hit_ok_target t h : hit_ok h -> hit_ok (hit_target t h).
Proof. by intros []. Qed.
Lemma hit_ok_negative r soa h : hit_ok h -> hit_ok (hit_negative r soa h).
Proof. by intros []. Qed.

Definition step_hit_ok (s : HitStep (S := StabilityModel)) : Prop := match s with HitDone h | HitNext h => hit_ok h | HitMiss => True end.

Lemma head_In {A} (l : list A) x : list.head l = Some x -> forall r, In r [x] -> In r l.
Proof. destruct l; [done|]. cbn. intros [= ->] r [->|[]]. by left. Qed.

Lemma hit_entry_ok e s n h w r w' : hit_ok h -> In (e, n, s) (h_deps h) ->
  hit_entry (R := R) (N := N) (Q := Q) key now e s h w = (Done r, w') -> step_hit_ok r /\ w_est w' = w_est w.
Proof.
  intros O I. unfold hit_entry. destruct (ce_kind e) as [set|rc soa x] eqn:K.
  - destruct (_ && _).
    + destruct (cname_target set) as [t|], (list.head (records set)) as [rec|] eqn:Hd; intros E;
        [|injection E as <- <-; done..].
      apply bind_done in E as (u & w1 & E1 & E). injection E1 as <- <-. injection E as <- <-. split; [|done].
      apply hit_ok_target, (hit_ok_records _ _ _ e n s set); [done|done|done|by apply head_In].
    + intros E. injection E as <- <-. split; [|done]. by apply (hit_ok_records _ _ _ e n s set).
  - intros E. injection E as <- <-. split; [|done]. by apply hit_ok_negative.
Qed.

Lemma with_cache_done {A} (f : SemanticCache StabilityModel -> A * SemanticCache StabilityModel) (w w' : Wd) a :
  with_cache f w = (Done a, w') -> exists c', f (w_cache w) = (a, c') /\ w_est w' = w_est w.
Proof. unfold with_cache. destruct (f _) as [a' c']. intros E. injection E as <- <-. by exists c'. Qed.

Lemma hit_step_ok depth h w r w' : hit_ok h ->
  hit_step (R := R) (N := N) (Q := Q) stale_serve_ttl key policy now depth h w = (Done r, w') ->
  step_hit_ok r /\ w_est w' = w_est w.
Proof.
  intros O E. unfold hit_step in E. apply bind_done in E as (o & w1 & E1 & E).
  apply with_cache_done in E1 as (c' & L & <-). destruct o as [e|e|t ttl x v|x soa|].
  - apply (hit_entry_ok e false depth) in E; [done| |apply in_app_iff; right; by left].
    apply (hit_ok_note h e false depth _ O); [by exists (w_cache w), c', (cache_key (mkQueryKey (h_name h) (qk_type key) (qk_class key) (qk_ecs key) (want_dnssec key) (qk_cd key)))|done].
  - destruct (bool_decide (policy = Reuse)) eqn:P; cbn [negb] in E; [|by injection E as <- <-].
    apply bool_decide_eq_true in P.
    apply (hit_entry_ok e true depth) in E; [done| |apply in_app_iff; right; by left].
    apply (hit_ok_note h e true depth _ O); [by exists (w_cache w), c', (cache_key (mkQueryKey (h_name h) (qk_type key) (qk_class key) (qk_ecs key) (want_dnssec key) (qk_cd key)))|done].
  - apply bind_done in E as (o2 & w2 & E2 & E). apply with_cache_done in E2 as (c2 & L2 & <-).
    destruct o2 as [e|e|t2 ttl2 x2 v2|x2 soa2|]; try (by injection E as <- <-).
    apply bind_done in E as (u & w3 & E3 & E). injection E3 as <- <-. injection E as <- <-. split; [|done].
    apply hit_ok_target. assert (hit_ok (note_entry e false depth (Z.max ttl 1) h)) as O'.
    { apply (hit_ok_note h e false depth _ O); [|done]. by exists (w_cache w1), c2, (plain (h_name h) RrTypes.CNAME (qk_class key)). }
    destruct (ce_kind e) as [set|rc s x3] eqn:K; [|done]. destruct (list.head (records set)) as [rec|] eqn:Hd; [|done].
    apply (hit_ok_records _ _ _ e depth false set); [done|apply in_app_iff; right; by left|done|by apply head_In].
  - injection E as <- <-. split; [|done]. by apply hit_ok_negative.
  - by injection E as <- <-.
Qed.

Lemma hit_loop_ok n depth h w h' w' : hit_ok h ->
  hit_loop (R := R) (N := N) (Q := Q) stale_serve_ttl n key policy now depth h w = (Done (Some h'), w') ->
  hit_ok h' /\ w_est w' = w_est w.
Proof.
  revert depth h w. induction n as [|n IH]; intros depth h w O E; cbn [hit_loop] in E; [done|].
  apply bind_done in E as (r & w1 & E1 & E). apply (hit_step_ok depth h) in E1 as [O1 <-]; [|done].
  destruct r as [h1|h1|].
  - by injection E as <- <-.
  - by apply IH in E.
  - done.
Qed.

Lemma fold_refresh_est ks (w : Wd) : (forall k u, w_est (refresh_with_dependents k u) = w_est u) ->
  w_est (fold_left (fun w k => refresh_with_dependents k w) ks w) = w_est w.
Proof. intros HR. revert w. induction ks as [|k ks IH]; intros w; [done|]. cbn [fold_left]. by rewrite IH, HR. Qed.

End answer.

(** C10: the stale decision, as the resolver composes it from the provenance, the
    planner, the estimator and the ledger.  An answer resting on any entries is served
    stale exactly when it is [servable] and its risk fits in the ledger beside the debt
    time has not drained; it is then served with a refresh, and exactly its risk is
    added to the debt.  A refusal adds nothing to it. *)
Theorem stale_decision_exact cfg anchored qname deps validated now est ledger :
  risk_config_ok (pc_risk cfg) -> ledger_config_ok (rl_config ledger) -> ledger_ok ledger -> estimator_ok est ->
  let risk := answer_risk cfg anchored qname deps validated now est in
  let '(p, ledger') := stale_plan cfg anchored qname deps validated now est ledger in
  (p <> Resolve <-> servable cfg now deps /\
     f64_le (f64_add (debt (drain ledger now)) risk) (budget_capacity (rl_config ledger)) = true) /\
  (p <> Resolve -> p = ServeStale true /\ debt ledger' = f64_add (debt (drain ledger now)) risk) /\
  (p = Resolve -> debt ledger' = debt ledger \/ debt ledger' = debt (drain ledger now)).
Proof. apply stale_decision_exact_core. Qed.

(** ** At a concrete cache *)

#[local] Instance watched_ops : StabilityOps StabilityModel := stability_ops default_hazard_config.
#[local] Instance quiet_net : NetworkOps Z := demo_net (fun _ _ => None).
(** An address seen unchanged every hour for thirty hours, with a TTL of a minute, asked
    for ten seconds after it expired. *)
Definition watched_cache : SemanticCache StabilityModel :=
  fold_left (fun c i => insert_positive c sample_key sample_set (i * 3600000000000) default_inputs true) (seqZ 0 31)
    (cache_new default_cache_config).
Definition late : Ts := 30 * 3600000000000 + 70 * 1000000000.
Definition stale_world : World StabilityModel (QueryEstimator * RiskLedger) SplitMix64 Z :=
  mkWorld watched_cache (alias_new default_alias_config) selector_default
    (estimator_default, ledger_new default_risk_config 0) (mkSplitMix64 7) 0 (budget_new limits_default) [].
Definition stale_key : QueryKey := mkQueryKey (of_labels [[97]]) RrTypes.A 1 None false false.
Definition late_outcome : LookupOutcome StabilityModel := (lookup watched_cache (cache_key stale_key) late).1.
Definition deps_of (o : LookupOutcome StabilityModel) : list (Entry * Z * bool) :=
  match o with Stale e => [(e, 0, true)] | _ => [] end.
Definition late_deps : list (Entry * Z * bool) := deps_of late_outcome.

Lemma default_risk_ok : risk_config_ok default_risk_config.
Proof. constructor; [by apply is_num_num|split; [by apply nn_const|done]]. Qed.
Lemma default_ledger_ok : ledger_config_ok default_risk_config /\ ledger_ok (ledger_new default_risk_config 0).
Proof. split; [constructor; (split; [by apply nn_const|done])|split; [apply nn_zero|vm_compute; reflexivity]]. Qed.

Lemma stale_decision_exact_witness :
  let plan_at risk := stale_plan default_planner_config false (qk_name stale_key) late_deps false late estimator_default
                        (mkLedger default_risk_config (f64_of risk) late (f64_of 0) 0 0) in
  (plan_at 0).1 = ServeStale true /\ servable default_planner_config late late_deps /\ (plan_at 2400).1 = Resolve.
Proof.
  intros plan_at. assert ((plan_at 0).1 = ServeStale true /\ (plan_at 2400).1 = Resolve) as [P P2] by (vm_compute; split; reflexivity).
  split; [exact P|]. split; [|exact P2].
  assert (ledger_ok (mkLedger default_risk_config (f64_of 0) late (f64_of 0) 0 0)) as O by exact (proj2 default_ledger_ok).
  pose proof (stale_decision_exact default_planner_config false (qk_name stale_key) late_deps false late estimator_default
    (mkLedger default_risk_config (f64_of 0) late (f64_of 0) 0 0) default_risk_ok (proj1 default_ledger_ok) O (estimator_new_ok _)) as D.
  cbv zeta in D. change (stale_plan _ _ _ _ _ _ _ _) with (plan_at 0) in D. destruct (plan_at 0) as [p l]. cbn [fst] in P. subst p.
  destruct D as [D _]. apply D. discriminate.
Defined.

