(* ===== verification/Persist.v ===== *)
(** * Persistent cache tier ([src/cache/persist.rs])

    A cache as a snapshot and back: every entry as a record of plain values, records in
    their wire form, times in whole seconds.  The binary codec of a snapshot is
    third-party code and a parameter of [encode] and [load_from_limit]. *)
From stdpp Require Import gmap.
From S2P Require Import Prelude Wire Prng Name Compress Qtype Edns Bitmap RData Rr BTree Bounded Sort Time Float64 Float FloatOrder RrSet Tier CacheKey Cache Hazard.

Definition MAGIC : Z := 0x5258435e.
Definition VERSION : Z := 2.
Definition DEFAULT_FRAME_LIMIT : Z := 32 * 1024 * 1024.
Definition DEFAULT_COLLECTION_LIMIT : Z := 1000000.

(** ** The data of a frame *)

Record EcsDto := mkEcsDto { ed_family : Z; ed_prefix : Z; ed_addr : list Z }.

Record HazardConfigDto := mkHazardDto {
  hd_prior_shape : f64; hd_confidence : f64; hd_forgetting_secs : f64; hd_min_interval_secs : f64;
  hd_max_interval_secs : f64; hd_target_freshness : f64 }.

Record StabilityDto := mkStabilityDto {
  sd_prior_ttl_secs : f64; sd_alpha_ev : f64; sd_beta_ev : f64; sd_evidence_secs : f64; sd_lifetime_exposure_secs : f64;
  sd_observations : Z; sd_changes : Z; sd_failures : Z; sd_consecutive_failures : Z;
  sd_ttl_ewma : f64; sd_ttl_volatility : f64; sd_last_observation_unix : Z; sd_last_change_unix : Z;
  sd_hazard : HazardConfigDto }.

Inductive KindDto :=
| PositiveDto (records rrsigs : list (list Z))
| NegativeKindDto (rcode : Z) (soa : option (list Z)) (ttl_secs : Z).

Record EntryDto := mkEntryDto {
  dto_name : list Z; dto_type : Z; dto_class : Z; dto_ecs : option EcsDto; dto_tier : Z; dto_kind : KindDto;
  dto_inserted_unix : Z; dto_expires_unix : Z; dto_served : Z; dto_last_served_unix : Z; dto_stability : StabilityDto;
  dto_validated : bool; dto_score : f64; dto_cost_ms : option f64 }.

Record NegativeDto := mkNegativeDto {
  nd_name : list Z; nd_expires_unix : Z; nd_rcode : Z; nd_soa : option (list Z); nd_inserted_unix : Z; nd_served : Z }.

Record Snapshot := mkSnapshot {
  sn_magic : Z; sn_version : Z; sn_saved_at_unix : Z; sn_entries : list EntryDto; sn_negatives : list NegativeDto }.

(** ** Conversions *)

Definition record_wire (r : Rr) : option (list Z) :=
  match record_to_wire r [] None with Ok (out, _) => Some out | Err _ => None end.
Definition parse_record (w : list Z) : option Rr :=
  match record_parse w 0 with Ok (r, _) => Some r | Err _ => None end.

Definition ecs_to_dto (e : EcsKey) : EcsDto := mkEcsDto (ek_family e) (ek_prefix e) (ek_addr e).
Definition dto_to_ecs (d : EcsDto) : EcsKey := mkEcsKey (ed_family d) (ed_prefix d) (ed_addr d).

Definition ts_to_unix (ts : Ts) : Z := Z.max (- 2 ^ 63) (Z.min (2 ^ 63 - 1) (Z.quot ts 1000000000)).
Definition unix_to_ts (unix : Z) : Ts := unix * 1000000000.

Definition stability_to_dto (m : StabilityModel) : StabilityDto :=
  let s := stability_state m in
  let c := hz_config (hazard m) in
  mkStabilityDto (hs_prior_ttl_secs s) (hs_alpha_ev s) (hs_beta_ev s) (hs_evidence_secs s) (hs_lifetime_exposure_secs s)
    (hs_observations s) (hs_changes s) (hs_failures s) (hs_consecutive_failures s) (hs_ttl_ewma s) (hs_ttl_volatility s)
    (ts_to_unix (hs_last_observation s)) (ts_to_unix (hs_last_change s))
    (mkHazardDto (prior_shape c) (confidence c) (forgetting_secs c) (min_interval_secs c) (max_interval_secs c) (target_freshness c)).

Definition dto_to_stability (d : StabilityDto) : StabilityModel :=
  let h := sd_hazard d in
  let config := mkHazardConfig (hd_prior_shape h) (hd_confidence h) (hd_forgetting_secs h) (hd_min_interval_secs h)
                  (hd_max_interval_secs h) (hd_target_freshness h) in
  stability_from_state config
    (mkHazardState (sd_prior_ttl_secs d) (sd_alpha_ev d) (sd_beta_ev d) (sd_evidence_secs d) (sd_lifetime_exposure_secs d)
       (sd_observations d) (sd_changes d) (sd_failures d) (sd_consecutive_failures d) (sd_ttl_ewma d) (sd_ttl_volatility d)
       (unix_to_ts (sd_last_observation_unix d)) (unix_to_ts (sd_last_change_unix d))).

Definition tier_u8 (t : Tier) : Z := match t with Hot => 0 | Warm => 1 | Cold => 2 end.

(** [Option<Record>] to [Option<Vec<u8>>], as a failure when the record cannot be written. *)
Definition soa_wire (soa : option Rr) : option (option (list Z)) :=
  match soa with Some r => Some <$> record_wire r | None => Some None end.

Definition kind_to_dto (k : EntryKind) : option KindDto :=
  match k with
  | Positive rrset =>
      recs ← mapM record_wire (records rrset);
      sigs ← mapM record_wire (rrsigs rrset);
      Some (PositiveDto recs sigs)
  | Negative rcode soa ttl_secs =>
      soa ← soa_wire soa;
      Some (NegativeKindDto rcode soa ttl_secs)
  end.

Definition entry_to_dto (e : CacheEntry StabilityModel) (tier : Tier) : option EntryDto :=
  kind ← kind_to_dto (ce_kind e);
  Some (mkEntryDto (as_bytes (ck_name (ce_key e))) (ck_type (ce_key e)) (ck_class (ce_key e))
          (ecs_to_dto <$> ck_ecs (ce_key e)) (tier_u8 tier) kind (ts_to_unix (ce_inserted e)) (ts_to_unix (ce_expires e))
          (ce_served e) (ts_to_unix (ce_last_served e)) (stability_to_dto (ce_stability e)) (ce_validated e) (ce_score e)
          (Some (ce_cost_ms e))).

(** [filter_map(parse_record).map(|r| r.ttl).min().unwrap_or(0)] *)
Definition kind_ttl (k : KindDto) : Z :=
  match k with
  | PositiveDto recs _ =>
      match map ttl (omap parse_record recs) with [] => 0 | t :: ts => fold_left Z.min ts t end
  | NegativeKindDto _ _ ttl_secs => ttl_secs
  end.

Definition dto_to_kind (d : EntryDto) (key : CacheKey) : option EntryKind :=
  match dto_kind d with
  | PositiveDto recs sigs =>
      if (length recs =? 0)%nat then None else
      data ← mapM parse_record recs;
      sigs ← mapM parse_record sigs;
      Some (Positive (mkRrSet (ck_name key) (ck_type key) (ck_class key) data sigs (kind_ttl (dto_kind d)) (dto_validated d)))
  | NegativeKindDto rcode soa ttl_secs => Some (Negative rcode (soa ≫= parse_record) ttl_secs)
  end.

Definition dto_to_entry (d : EntryDto) (now : Ts) (stale_window_secs : Z) : option (CacheEntry StabilityModel) :=
  match from_wire (dto_name d) 0 with
  | Err _ => None
  | Ok (name, _) =>
      let expires := unix_to_ts (dto_expires_unix d) in
      let stale_end := ts_saturating_add expires (stale_window_secs * 1000000000) in
      if stale_end <=? now then None else
      let key := mkCacheKey name (dto_type d) (dto_class d) (dto_to_ecs <$> dto_ecs d) in
      kind ← dto_to_kind d key;
      let tier := if dto_tier d =? 0 then Hot else if dto_tier d =? 1 then Warm else Cold in
      let tier := if expires <=? now then Cold else tier in
      Some (mkEntry key kind (unix_to_ts (dto_inserted_unix d)) expires (dto_served d)
              (unix_to_ts (dto_last_served_unix d)) (dto_to_stability (dto_stability d)) (dto_validated d) (dto_score d)
              tier false (default COST_REF_MS (dto_cost_ms d)))
  end.

(** ** Snapshots *)

Definition tier_maps (c : SemanticCache StabilityModel) : list (Tier * list (CacheEntry StabilityModel)) :=
  [(Hot, tier_values (hot c)); (Warm, tier_values (warm c)); (Cold, tier_values (cold c))].

Definition negative_to_dto (kv : Name * NegativeEntry) : option NegativeDto :=
  let '(name, neg) := kv in
  soa ← soa_wire (ne_soa neg);
  Some (mkNegativeDto (as_bytes name) (ts_to_unix (ne_expires neg)) (ne_rcode neg) soa (ts_to_unix (ne_inserted neg)) (ne_served neg)).

Definition snapshot_new (c : SemanticCache StabilityModel) (now_unix : Z) : Snapshot :=
  mkSnapshot MAGIC VERSION now_unix
    (flat_map (fun tm => omap (fun e => entry_to_dto e tm.1) tm.2) (tier_maps c))
    (omap negative_to_dto (nx c)).

Definition restore_dto (now : Ts) (window : Z) (acc : SemanticCache StabilityModel * Z) (d : EntryDto)
    : SemanticCache StabilityModel * Z :=
  match dto_to_entry d now window with
  | Some e => (restore_entry acc.1 e now, acc.2 + 1)
  | None => acc
  end.

Definition restore_negative (now : Ts) (window : Z) (acc : SemanticCache StabilityModel * Z) (d : NegativeDto)
    : SemanticCache StabilityModel * Z :=
  match from_wire (nd_name d) 0 with
  | Err _ => acc
  | Ok (name, _) =>
      let expires := unix_to_ts (nd_expires_unix d) in
      if ts_saturating_add expires (window * 1000000000) <=? now then acc else
      let neg := mkNeg expires (nd_rcode d) (nd_soa d ≫= parse_record) (unix_to_ts (nd_inserted_unix d)) (nd_served d) in
      (set_nx acc.1 (bt_insert (nx acc.1) name neg), acc.2 + 1)
  end.

Definition add_inserts (n : Z) (s : CacheStats) : CacheStats :=
  mkStats (hits s) (misses s) (stale_served s) (inserts s + n) (evictions s).

Definition restore_into (s : Snapshot) (c : SemanticCache StabilityModel) (now : Ts) (window : Z)
    : Z * SemanticCache StabilityModel :=
  if negb (sn_magic s =? MAGIC) || negb (sn_version s =? VERSION) then (0, c) else
  let acc := fold_left (restore_dto now window) (sn_entries s) (c, 0) in
  let '(c, restored) := fold_left (restore_negative now window) (sn_negatives s) acc in
  (restored, set_stats c (add_inserts restored (stats c))).

Section codec.
(** [rustbinary]: a snapshot as bytes and back, under a limit on the frame and one on
    every collection. *)
Context (serialize : Z -> Z -> Snapshot -> result string (list Z)).
Context (deserialize : Z -> Z -> list Z -> result string Snapshot).

Definition encode (c : SemanticCache StabilityModel) (now_unix : Z) : result Error (list Z) :=
  map_err (fun e => internal ("cache encode: " ++ e)) (serialize DEFAULT_FRAME_LIMIT DEFAULT_COLLECTION_LIMIT (snapshot_new c now_unix)).

(** [file] is what the path holds: nothing, or what reading it gives. *)
Definition load_from_limit (c : SemanticCache StabilityModel) (path : string) (file : option (result string (list Z)))
    (now : Ts) (frame_limit : Z) : result Error Z * SemanticCache StabilityModel :=
  match file with
  | None => (Ok 0, c)
  | Some (Err e) => (Err (io ("cache persist read " ++ path ++ ": " ++ e)), c)
  | Some (Ok bytes) =>
      match deserialize frame_limit DEFAULT_COLLECTION_LIMIT bytes with
      | Err e => (Err (internal ("cache decode: " ++ e)), c)
      | Ok snap => let '(n, c') := restore_into snap c now (stale_window_secs (config c)) in (Ok n, c')
      end
  end.
Definition load_from (c : SemanticCache StabilityModel) (path : string) (file : option (result string (list Z))) (now : Ts) :=
  load_from_limit c path file now DEFAULT_FRAME_LIMIT.
End codec.

(** ** What comes back *)

(** A time as a frame keeps it. *)
Definition whole_secs (ts : Ts) : Ts := unix_to_ts (ts_to_unix ts).

Definition truncate_times (m : StabilityModel) : StabilityModel :=
  let h := hazard m in
  mkStability (mkHazard (hz_config h) (alpha_ev h) (beta_ev h) (prior_ttl_secs h) (evidence_secs h) (lifetime_exposure_secs h)
    (observations h) (changes h) (hz_failures h) (consecutive_failures h) (ttl_ewma h) (ttl_volatility h)
    (whole_secs (last_observation h)) (whole_secs (last_change h))).

Definition min_ttl (l : list Rr) : Z := match map ttl l with [] => 0 | t :: ts => fold_left Z.min ts t end.

Definition restored_kind (key : CacheKey) (validated : bool) (k : EntryKind) : EntryKind :=
  match k with
  | Positive s => Positive (mkRrSet (ck_name key) (ck_type key) (ck_class key) (records s) (rrsigs s) (min_ttl (records s)) validated)
  | Negative rcode soa ttl_secs => Negative rcode soa ttl_secs
  end.

Definition restored (e : CacheEntry StabilityModel) (tier : Tier) (now : Ts) : CacheEntry StabilityModel :=
  mkEntry (ce_key e) (restored_kind (ce_key e) (ce_validated e) (ce_kind e)) (whole_secs (ce_inserted e))
    (whole_secs (ce_expires e)) (ce_served e) (whole_secs (ce_last_served e)) (truncate_times (ce_stability e))
    (ce_validated e) (ce_score e) (if whole_secs (ce_expires e) <=? now then Cold else tier) false (ce_cost_ms e).

(** Out of its stale window. *)
Definition dead (expires now : Ts) (window : Z) : bool := ts_saturating_add expires (window * 1000000000) <=? now.

(** A record the wire form of which memory holds. *)
Definition storable (r : Rr) : Prop := record_ok r /\ forall w, record_wire r = Some w -> zlen w <= usize_max.

Definition kind_records (k : EntryKind) : list Rr :=
  match k with Positive s => records s ++ rrsigs s | Negative _ soa _ => option_list soa end.

Record entry_storable (e : CacheEntry StabilityModel) : Prop := {
  es_name : wf_name (ck_name (ce_key e));
  es_model : model_sane (hazard (ce_stability e));
  es_records : Forall storable (kind_records (ce_kind e));
  es_data : match ce_kind e with Positive s => records s <> [] | Negative _ _ _ => True end }.

(** ** Lemmas *)

Lemma whole_secs_spec ts : 0 <= ts -> ts < (2 ^ 63 - 1) * 1000000000 -> whole_secs ts <= ts < whole_secs ts + 1000000000.
Proof.
  intros H B. unfold whole_secs, unix_to_ts, ts_to_unix. rewrite Z.quot_div_nonneg by lia.
  assert (0 <= ts / 1000000000 < 2 ^ 63 - 1) by (split; [apply Z.div_pos; lia|apply Z.div_lt_upper_bound; lia]).
  rewrite Z.min_r, Z.max_r by lia. pose proof (Z.mul_div_le ts 1000000000 ltac:(lia)).
  pose proof (Z.mul_succ_div_gt ts 1000000000 ltac:(lia)). lia.
Qed.

Lemma name_round_trip n : wf_name n -> exists e, from_wire (as_bytes n) 0 = Ok (n, e).
Proof. intros (ls & (Hok & Hlow & Hl & Hc) & ->). eexists. apply from_wire_of_labels; [done|done|lia|done]. Qed.

Lemma record_wire_parse r w : storable r -> record_wire r = Some w -> parse_record w = Some r.
Proof.
  intros [Hr Hw] E. specialize (Hw w E). unfold record_wire in E. destruct (record_to_wire r [] None) as [[out c]|] eqn:T; [|done].
  injection E as ->. destruct (record_to_wire_written r [] None w c Hr I T) as (w' & -> & B & _ & _ & P). cbn [app] in *.
  unfold parse_record. specialize (P []). rewrite app_nil_r in P. change (zlen []) with 0 in P. rewrite P; [done|]. by split.
Qed.

Lemma records_round_trip rs ws : Forall storable rs -> mapM record_wire rs = Some ws -> mapM parse_record ws = Some rs /\ omap parse_record ws = rs.
Proof.
  intros H E. apply mapM_Some in E. induction E as [|r w rs ws E F IH]; [done|]. inversion H as [|? ? Hr H']; subst.
  destruct (IH H') as [IH1 IH2]. pose proof (record_wire_parse r w Hr E) as P. split.
  - apply mapM_Some. constructor; [done|]. by apply mapM_Some.
  - cbn. rewrite P. f_equal. exact IH2.
Qed.

Lemma cfg_sane_canonical c : cfg_sane c -> cfg_canonical c.
Proof. intros [H1 H2 H3 H4 (H5 & _) H6]. split; [apply H1|]. split; [apply H2|]. split; [apply H3|]. split; [apply H4|]. split; [apply H5|apply H6]. Qed.

Lemma stability_round_trip m : model_sane (hazard m) -> dto_to_stability (stability_to_dto m) = truncate_times m.
Proof.
  intros H. pose proof (cfg_sane_canonical _ (ms_config _ H)) as C.
  destruct (hazard_restore (hz_config (hazard m)) (hazard_state (hazard m)) C) as (_ & R & _).
  assert (model_sane (hazard (truncate_times m))) as H' by (destruct H; by constructor).
  specialize (R _ H'). transitivity (mkStability (hazard (truncate_times m))); [|by destruct (truncate_times m)].
  rewrite <- R. destruct m as [[[] ? ? ? ? ? ? ? ? ? ? ? ? ?]]. reflexivity.
Qed.

Lemma soa_round_trip soa w : Forall storable (option_list soa) -> soa_wire soa = Some w -> w ≫= parse_record = soa.
Proof.
  intros H E. destruct soa as [r|]; [|by injection E as <-]. cbn in E. destruct (record_wire r) as [b|] eqn:B; [|done].
  injection E as <-. inversion H; subst. cbn. by apply record_wire_parse.
Qed.

Lemma ecs_round_trip (o : option EcsKey) : dto_to_ecs <$> (ecs_to_dto <$> o) = o.
Proof. by destruct o as [[]|]. Qed.

Lemma kind_round_trip e k d : entry_storable e -> kind_to_dto (ce_kind e) = Some k -> dto_kind d = k -> dto_validated d = ce_validated e ->
  dto_to_kind d (ce_key e) = Some (restored_kind (ce_key e) (ce_validated e) (ce_kind e)).
Proof.
  intros [_ _ Hr Hd] K Dk Dv. unfold dto_to_kind. rewrite Dk, Dv. destruct (ce_kind e) as [s|rc soa t]; cbn [kind_to_dto] in K.
  - destruct (mapM record_wire (records s)) as [ws|] eqn:W; [|done]. destruct (mapM record_wire (rrsigs s)) as [vs|] eqn:V; [|done].
    injection K as <-. apply Forall_app in Hr as [Hr Hs]. destruct (records_round_trip _ _ Hr W) as [P O].
    destruct (records_round_trip _ _ Hs V) as [P2 _]. rewrite P, P2. cbn [mbind option_bind kind_ttl].
    rewrite O. fold (min_ttl (records s)). apply length_mapM in W. destruct ws as [|w ws]; [by destruct (records s)|done].
  - destruct (soa_wire soa) as [w|] eqn:W; [|done]. injection K as <-. by rewrite (soa_round_trip _ _ Hr W).
Qed.

(** One entry through the frame. *)
Lemma entry_dto_spec e tier d now window : entry_storable e -> entry_to_dto e tier = Some d ->
  dto_to_entry d now window = if dead (whole_secs (ce_expires e)) now window then None else Some (restored e tier now).
Proof.
  intros [Hn Hm Hr Hd] E. unfold entry_to_dto in E. destruct (kind_to_dto (ce_kind e)) as [k|] eqn:K; [|done].
  injection E as <-. unfold dto_to_entry. cbn [dto_name dto_expires_unix dto_type dto_class dto_ecs dto_tier dto_inserted_unix dto_served
    dto_last_served_unix dto_stability dto_validated dto_score dto_cost_ms].
  destruct (name_round_trip _ Hn) as [e1 ->]. fold (whole_secs (ce_expires e)). unfold dead. destruct (_ <=? now); [done|].
  rewrite ecs_round_trip, stability_round_trip by done.
  replace (mkCacheKey _ _ _ _) with (ce_key e) by (by destruct (ce_key e)).
  rewrite kind_round_trip with (k := k) by done. cbn [mbind option_bind default]. unfold restored. do 2 f_equal. by destruct tier.
Qed.

(** ** Restoring many *)

Definition restore_entries (now : Ts) (es : list (CacheEntry StabilityModel)) (c : SemanticCache StabilityModel) :=
  fold_left (fun (c : SemanticCache StabilityModel) e => restore_entry c e now) es c.

Lemma restore_dtos_fold now window ds c n :
  fold_left (restore_dto now window) ds (c, n) =
    (restore_entries now (omap (fun d => dto_to_entry d now window) ds) c,
     n + zlen (omap (fun d => dto_to_entry d now window) ds)).
Proof.
  revert c n. induction ds as [|d ds IH]; intros c n; [cbn; f_equal; unfold zlen; cbn; lia|].
  cbn [fold_left]. unfold restore_dto at 2. cbn [omap list_omap]. destruct (dto_to_entry d now window) as [e|]; cbn [fst snd].
  - rewrite IH. cbn [fold_left]. f_equal. rewrite zlen_cons. lia.
  - apply IH.
Qed.

(** Whether the admission scores of a configuration let an entry of this score in. *)
Definition admitted (cfg : CacheConfig) (score : f64) : bool :=
  match tier_for (cache_new (S := StabilityModel) cfg) score with Some _ => true | None => false end.

Lemma tier_for_admitted (c : SemanticCache StabilityModel) score : cache_ok c ->
  match tier_for c score with Some _ => true | None => false end = admitted (config c) score.
Proof.
  intros Hc. assert (forall t, capacity (tier_map c t) = capacity (tier_map (cache_new (S := StabilityModel) (config c)) t)) as E.
  { intros t. destruct (ok_tiers c Hc t) as (_ & -> & _). by destruct t. }
  unfold admitted, tier_for. cbn [config cache_new]. repeat (destruct (f64_le _ _)); try done; rewrite E; destruct (_ =? 0); try done;
    cbn [next_tier]; try done; rewrite E; by destruct (0 <? _).
Qed.

(** What a restored entry shows in a cache with room for it. *)
Definition shown (cfg : CacheConfig) (now : Ts) (e : CacheEntry StabilityModel) : option (CacheEntry StabilityModel) :=
  if (ce_expires e <=? now) || admitted cfg (ce_score e) then Some (erase e) else None.

Lemma restore_entry_view (c : SemanticCache StabilityModel) e now : cache_ok c -> absent c (ce_key e) ->
  let c' := restore_entry c e now in
  cache_ok c' /\ config c' = config c /\ nx c' = nx c /\
  forall k x, view c' k = Some x -> view c k = Some x \/ k = ce_key e /\ shown (config c) now e = Some x.
Proof.
  intros Hc Ha c'. assert (cache_ok c' /\ config c' = config c /\ nx c' = nx c /\ view_changed c c' (ce_key e) (shown (config c) now e))
    as (H1 & H2 & H3 & V & lost & L).
  { unfold c', restore_entry, shown. rewrite <- tier_for_admitted by done. destruct (_ <=? _); [by apply park_spec|].
    pose proof (place_spec c e Hc Ha) as P. by destruct (tier_for c (ce_score e)). }
  split; [done|]. split; [done|]. split; [done|]. intros k x Hx. destruct (decide (k = ce_key e)) as [->|Hne].
  - right. split; [done|]. congruence.
  - left. rewrite L in Hx by done. by destruct (decide _).
Qed.

Lemma restore_entries_view now es (c : SemanticCache StabilityModel) : cache_ok c -> NoDup (map ce_key es) -> (forall e, In e es -> absent c (ce_key e)) ->
  let c' := restore_entries now es c in
  cache_ok c' /\ config c' = config c /\ nx c' = nx c /\
  forall k x, view c' k = Some x -> view c k = Some x \/ exists e, In e es /\ k = ce_key e /\ shown (config c) now e = Some x.
Proof.
  revert c. induction es as [|e es IH]; intros c Hc Nd Ha; [split; [done|]; split; [done|]; split; [done|]; by left|].
  cbn [map] in Nd. inversion Nd as [|? ? Ni Nd']; subst. change (restore_entries now (e :: es) c) with (restore_entries now es (restore_entry c e now)).
  destruct (restore_entry_view c e now Hc (Ha e ltac:(by left))) as (H1 & H2 & H3 & H4).
  destruct (IH (restore_entry c e now) H1 Nd') as (G1 & G2 & G3 & G4).
  - intros e' He'. apply view_None. destruct (view _ (ce_key e')) as [x|] eqn:V; [|done]. exfalso.
    destruct (H4 _ _ V) as [V'|[E _]].
    + assert (view c (ce_key e') = None) as N by (apply view_None, Ha; by right). congruence.
    + apply Ni. rewrite <- E. apply list_elem_of_In. by apply (in_map ce_key).
  - split; [done|]. split; [congruence|]. split; [congruence|]. intros k x V.
    rewrite H2 in G4. destruct (G4 k x V) as [V'|(e' & He' & ?)]; [|right; exists e'; split; [by right|done]].
    destruct (H4 k x V') as [?|[-> ?]]; [by left|]. right. exists e. split; [by left|done].
Qed.

(** The name-error store, entry by entry. *)
Definition restored_negative (neg : NegativeEntry) : NegativeEntry :=
  mkNeg (whole_secs (ne_expires neg)) (ne_rcode neg) (ne_soa neg) (whole_secs (ne_inserted neg)) (ne_served neg).

Definition negative_kept (now : Ts) (window : Z) (neg : NegativeEntry) : option NegativeEntry :=
  match soa_wire (ne_soa neg) with
  | None => None
  | Some _ => if dead (whole_secs (ne_expires neg)) now window then None else Some (restored_negative neg)
  end.

Definition negative_storable (n : Name) (neg : NegativeEntry) : Prop :=
  wf_name n /\ Forall storable (option_list (ne_soa neg)).

Lemma restore_negative_step now window name neg c n : negative_storable name neg ->
  fold_left (restore_negative now window) (option_list (negative_to_dto (name, neg))) (c, n) =
    match negative_kept now window neg with
    | Some neg' => (set_nx c (bt_insert (nx c) name neg'), n + 1)
    | None => (c, n)
    end.
Proof.
  intros [Hn Hs]. unfold negative_to_dto, negative_kept. destruct (soa_wire (ne_soa neg)) as [w|] eqn:W; [|done].
  cbn [mbind option_bind]. set (d := mkNegativeDto _ _ _ _ _ _). change (option_list (Some d)) with [d]. cbn [fold_left].
  unfold restore_negative, d.
  cbn [nd_name nd_expires_unix nd_rcode nd_soa nd_inserted_unix nd_served fst snd].
  destruct (name_round_trip _ Hn) as [e ->]. rewrite (soa_round_trip _ _ Hs W). unfold dead. by destruct (_ <=? now).
Qed.

Lemma omap_cons_app {A B} (f : A -> option B) x l : omap f (x :: l) = option_list (f x) ++ omap f l.
Proof. cbn. by destruct (f x). Qed.

Lemma restore_negatives_spec now window l c n : NoDup (map fst l) -> Forall (fun kv => negative_storable kv.1 kv.2) l ->
  let r := fold_left (restore_negative now window) (omap negative_to_dto l) (c, n) in
  r.1 = set_nx c (nx r.1) /\
  (forall name, bt_get (nx r.1) name = match bt_get l name ≫= negative_kept now window with Some neg => Some neg | None => bt_get (nx c) name end) /\
  (bt_sorted (nx c) -> bt_sorted (nx r.1) /\ zlen (nx r.1) <= zlen (nx c) + zlen l).
Proof.
  revert c n. induction l as [|[name0 neg] l IH]; intros c n Nd H; cbn zeta.
  { split; [by destruct c|]. split; [done|]. intros S. split; [done|]. cbn. unfold zlen. cbn. lia. }
  cbn [map] in Nd. inversion Nd as [|? ? Ni Nd']; subst. inversion H as [|? ? Hs H']; subst. cbn [fst snd] in *.
  assert (bt_get l name0 = None) as Hnone by (apply bt_get_None; intros I; apply Ni; by apply list_elem_of_In).
  rewrite omap_cons_app, fold_left_app, restore_negative_step by done. rewrite zlen_cons.
  destruct (negative_kept now window neg) as [neg'|] eqn:K.
  - destruct (IH (set_nx c (bt_insert (nx c) name0 neg')) (n + 1) Nd' H') as (A & B & D). cbn [nx set_nx] in *.
    split; [rewrite A at 1; done|]. split.
    + intros name. rewrite B. cbn [bt_get]. rewrite bt_get_insert. destruct (decide (name = name0)) as [->|]; [|done].
      rewrite Hnone. cbn. by rewrite K.
    + intros S. destruct (D (bt_insert_sorted _ _ _ S)) as [D1 D2]. split; [done|].
      rewrite zlen_bt_insert in D2 by done. destruct (bt_contains_key _ _); lia.
  - destruct (IH c n Nd' H') as (A & B & D). split; [done|]. split.
    + intros name. rewrite B. cbn [bt_get]. destruct (decide (name = name0)) as [->|]; [|done]. rewrite Hnone. cbn. by rewrite K.
    + intros S. destruct (D S). split; [done|]. lia.
Qed.

(** ** Snapshots of a cache *)

(** Every entry with the tier it is in. *)
Definition placed (c : SemanticCache StabilityModel) : list (Tier * CacheEntry StabilityModel) :=
  flat_map (fun tm => map (fun e => (tm.1, e)) tm.2) (tier_maps c).

Lemma placed_holds c t e : cache_ok c -> In (t, e) (placed c) <-> holds c t (ce_key e) = Some e.
Proof.
  intros Hc. assert (forall t', In e (tier_values (tier_map c t')) <-> holds c t' (ce_key e) = Some e) as V
    by (intros t'; apply (tier_values_spec ce_key entry_rank), ok_tiers; done).
  unfold placed. rewrite in_flat_map. split.
  - intros ([t' es] & Ht & He). apply in_map_iff in He as (e' & E & He). cbn [fst snd] in *. injection E as -> ->.
    cbn in Ht. destruct Ht as [E|[E|[E|[]]]]; injection E as <- <-; by apply (V _).
  - intros H. exists (t, tier_values (tier_map c t)). split; [destruct t; cbn; tauto|]. apply in_map. by apply V.
Qed.

Lemma tier_keys (m : TierMap CacheKey (CacheEntry StabilityModel)) : Tier.tier_ok ce_key entry_rank m ->
  map ce_key (tier_values m) = map fst (tm_map m).
Proof.
  intros (S & _ & K & _). unfold tier_values. rewrite map_map. apply map_ext_in. intros [k e] I. cbn.
  apply (K k). by apply bt_In_get.
Qed.

Lemma placed_NoDup c : cache_ok c -> NoDup (map (fun p => ce_key p.2) (placed c)).
Proof.
  intros Hc. assert (map (fun p => ce_key p.2) (placed c) =
    map fst (tm_map (hot c)) ++ map fst (tm_map (warm c)) ++ map fst (tm_map (cold c))) as ->.
  { unfold placed, tier_maps. cbn [flat_map fst snd]. rewrite app_nil_r, !map_app, !map_map. cbn [snd].
    pose proof (tier_keys (hot c) (proj1 (ok_tiers c Hc Hot))) as <-. pose proof (tier_keys (warm c) (proj1 (ok_tiers c Hc Warm))) as <-.
    by pose proof (tier_keys (cold c) (proj1 (ok_tiers c Hc Cold))) as <-. }
  assert (forall t k, k ∈ map fst (tm_map (tier_map c t)) -> exists e, holds c t k = Some e) as G.
  { intros t k Hk. apply list_elem_of_In, in_map_iff in Hk as ([k' e] & <- & I). exists e. apply bt_In_get; [|done].
    apply (ok_tiers c Hc t). }
  assert (forall t1 t2 k, t1 <> t2 -> k ∈ map fst (tm_map (tier_map c t1)) -> k ∉ map fst (tm_map (tier_map c t2))) as D.
  { intros t1 t2 k Ht H1 H2. destruct (G _ _ H1) as [e1 E1], (G _ _ H2) as [e2 E2]. by apply Ht, (ok_unique c Hc k t1 t2 e1 e2). }
  assert (forall t, NoDup (map fst (tm_map (tier_map c t)))) as N.
  { intros t. apply NoDup_ListNoDup, bt_sorted_NoDup, (ok_tiers c Hc t). }
  apply list.NoDup_app. split; [apply (N Hot)|]. split.
  - intros k H. apply not_elem_of_app. split; [by apply (D Hot Warm)|by apply (D Hot Cold)].
  - apply list.NoDup_app. split; [apply (N Warm)|]. split; [|apply (N Cold)]. intros k H. by apply (D Warm Cold).
Qed.

(** An entry of a snapshot, restored. *)
Definition through (now : Ts) (window : Z) (p : Tier * CacheEntry StabilityModel) : option (CacheEntry StabilityModel) :=
  d ← entry_to_dto p.2 p.1; dto_to_entry d now window.

Lemma omap_through now window tms :
  omap (fun d => dto_to_entry d now window) (flat_map (fun tm : Tier * list (CacheEntry StabilityModel) => omap (fun e => entry_to_dto e tm.1) tm.2) tms) =
  omap (through now window) (flat_map (fun tm => map (fun e => (tm.1, e)) tm.2) tms).
Proof.
  induction tms as [|[t es] tms IH]; [done|]. cbn [flat_map fst snd]. rewrite !omap_app, IH. f_equal. clear.
  induction es as [|e es IH]; [done|]. cbn [map]. rewrite !omap_cons_app, omap_app, IH. unfold through at 2. cbn [fst snd].
  f_equal. destruct (entry_to_dto e t) as [d|]; [|done]. cbn. by destruct (dto_to_entry d now window).
Qed.

Lemma omap_keys (f : Tier * CacheEntry StabilityModel -> option (CacheEntry StabilityModel)) ps :
  (forall p e, In p ps -> f p = Some e -> ce_key e = ce_key p.2) ->
  NoDup (map (fun p => ce_key p.2) ps) -> NoDup (map ce_key (omap f ps)).
Proof.
  intros H N. induction ps as [|p ps IH]; [constructor|]. cbn [map] in N. inversion N as [|? ? Ni N']; subst.
  rewrite omap_cons_app. destruct (f p) as [e|] eqn:F; cbn [option_list app map]; [|apply IH; [|done]; intros; apply H; [by right|done]].
  constructor; [|apply IH; [|done]; intros; apply H; [by right|done]].
  rewrite (H p e) by (done || by left). intros I. apply Ni. apply list_elem_of_In, in_map_iff in I as (e' & E & I).
  apply list_elem_of_In, list_elem_of_omap in I as (p' & Ip & F'). apply list_elem_of_In in Ip.
  apply list_elem_of_In, in_map_iff. exists p'. split; [|done]. rewrite <- E. symmetry. by apply H; [right|].
Qed.

(** ** A cache with room for what comes back *)

(** [n] entries more fit in every tier. *)
Definition room (c : SemanticCache StabilityModel) (n : Z) : Prop :=
  forall t, capacity (tier_map c t) = 0 \/ tier_len (tier_map c t) + n <= capacity (tier_map c t).

Lemma tier_insert_room (m : TierMap CacheKey (CacheEntry StabilityModel)) e : Tier.tier_ok ce_key entry_rank m ->
  capacity m = 0 \/ tier_len m < capacity m ->
  exists m', tier_insert ce_key entry_rank m e = (None, m') /\ capacity m' = capacity m /\ tier_len m' <= tier_len m + 1.
Proof.
  intros Hm R. unfold tier_insert. unfold tier_len in R.
  replace ((0 <? capacity m) && negb (bt_contains_key (tm_map m) (ce_key e)) && (capacity m <=? zlen (tm_map m))) with false.
  2: { symmetry. destruct R as [->|R]; [done|]. rewrite (proj2 (Z.leb_gt _ _) R). apply andb_false_r. }
  pose proof (tier_store_ok ce_key entry_rank m e Hm) as S. cbn zeta in S.
  destruct (match bt_get (tm_map m) (ce_key e) with Some _ => _ | None => _ end) as [m1 ix]. destruct S as (_ & _ & L).
  eexists. split; [done|]. split; [done|]. rewrite L. destruct (bt_contains_key _ _); lia.
Qed.

Lemma insert_tier_room (c : SemanticCache StabilityModel) t e n : cache_ok c -> absent c (ce_key e) -> (t = Cold \/ 0 < capacity (tier_map c t)) -> 0 <= n -> room c (n + 1) ->
  exists c', cache_insert_tier c t e = (None, c') /\ room c' n /\ view c' (ce_key e) = Some (erase e) /\
    forall k, k <> ce_key e -> view c' k = view c k.
Proof.
  intros Hc Ha Ht Hn R. destruct (tier_insert_room (tier_map c t) e (proj1 (ok_tiers c Hc t)) ltac:(destruct (R t); [by left|right; lia]))
    as (m' & E & C & L).
  pose proof (cache_insert_tier_spec c t e Hc (fun t' _ => Ha t') Ht) as I. unfold cache_insert_tier in *. rewrite E in *.
  destruct I as (Hc' & _ & _ & He & _ & Ho). eexists. split; [done|]. split; [|split].
  - intros t'. rewrite tier_map_set. destruct (decide (t' = t)) as [->|]; [destruct (R t); [left|right]; lia|destruct (R t'); [by left|right; lia]].
  - apply view_Some; [done|]. eauto.
  - intros k Hk. apply view_same. intros t'. apply Ho; [by right|done].
Qed.

Lemma restore_entry_room (c : SemanticCache StabilityModel) e now n : cache_ok c -> absent c (ce_key e) -> 0 <= n -> room c (n + 1) ->
  let c' := restore_entry c e now in
  room c' n /\ view c' (ce_key e) = shown (config c) now e /\ forall k, k <> ce_key e -> view c' k = view c k.
Proof.
  intros Hc Ha Hn R. cbn zeta. unfold restore_entry, shown. destruct (ce_expires e <=? now); cbn [orb].
  - unfold park. destruct (insert_tier_room c Cold (set_tier e Cold) n Hc Ha ltac:(by left) Hn R) as (c' & -> & R' & V & O). done.
  - rewrite <- tier_for_admitted by done. unfold place. destruct (tier_for c (ce_score e)) as [t|] eqn:T.
    + pose proof (tier_for_Some c _ t Hc T) as P.
      by destruct (insert_tier_room c t (set_tier e t) n Hc Ha ltac:(by right) Hn R) as (c' & -> & R' & V & O).
    + split; [|split; [by apply view_None|done]]. intros t. destruct (R t); [by left|right; lia].
Qed.

Lemma restore_entries_room now es (c : SemanticCache StabilityModel) : cache_ok c -> NoDup (map ce_key es) -> (forall e, In e es -> absent c (ce_key e)) -> room c (zlen es) ->
  let c' := restore_entries now es c in
  (forall e, In e es -> view c' (ce_key e) = shown (config c) now e) /\
  forall k, ~ In k (map ce_key es) -> view c' k = view c k.
Proof.
  revert c. induction es as [|e es IH]; intros c Hc Nd Ha R; [done|]. cbn [map] in Nd. inversion Nd as [|? ? Ni Nd']; subst.
  rewrite zlen_cons in R. pose proof (zlen_nonneg es) as P.
  change (restore_entries now (e :: es) c) with (restore_entries now es (restore_entry c e now)).
  pose proof (Ha e ltac:(by left)) as Hae.
  destruct (restore_entry_room c e now (zlen es) Hc Hae P ltac:(by rewrite Z.add_comm)) as (R' & V & O).
  destruct (restore_entry_view c e now Hc Hae) as (Hc' & Cf & _).
  assert (forall e', In e' es -> ce_key e' <> ce_key e) as Ne.
  { intros e' He' E. apply Ni. rewrite <- E. apply list_elem_of_In. by apply (in_map ce_key). }
  destruct (IH (restore_entry c e now) Hc' Nd') as [G1 G2]; [|done|].
  - intros e' He'. apply view_None. rewrite O by by apply Ne. apply view_None, Ha. by right.
  - cbn zeta. split.
    + intros e' [<-|He']; [|rewrite <- Cf; by apply G1]. rewrite G2; [done|]. intros I. apply Ni. by apply list_elem_of_In.
    + intros k Hk. rewrite G2 by (intros I; apply Hk; by right). apply O. intros ->. apply Hk. by left.
Qed.

(** ** The round trip *)

(** What a snapshot and its restoration make of an entry: nothing when one of its
    records cannot be written, when it is out of its stale window or when the new
    configuration does not admit its score. *)
Definition returned (cfg : CacheConfig) (now : Ts) (window : Z) (e : CacheEntry StabilityModel) : option (CacheEntry StabilityModel) :=
  match kind_to_dto (ce_kind e) with
  | None => None
  | Some _ => if dead (whole_secs (ce_expires e)) now window then None else shown cfg now (restored e Hot now)
  end.

Lemma through_spec now window t e : entry_storable e ->
  through now window (t, e) =
    match kind_to_dto (ce_kind e) with
    | None => None
    | Some _ => if dead (whole_secs (ce_expires e)) now window then None else Some (restored e t now)
    end.
Proof.
  intros H. unfold through. cbn [fst snd]. destruct (entry_to_dto e t) as [d|] eqn:E; cbn [mbind option_bind].
  - rewrite (entry_dto_spec e t d now window H E). unfold entry_to_dto in E. by destruct (kind_to_dto (ce_kind e)).
  - unfold entry_to_dto in E. by destruct (kind_to_dto (ce_kind e)).
Qed.

Lemma through_shown cfg now window t e : entry_storable e ->
  through now window (t, e) ≫= shown cfg now = returned cfg now window e.
Proof.
  intros H. rewrite through_spec by done. unfold returned. destruct (kind_to_dto _); [|done]. by destruct (dead _ _ _).
Qed.

Lemma through_key now window t e e' : entry_storable e -> through now window (t, e) = Some e' -> ce_key e' = ce_key e.
Proof.
  intros H. rewrite through_spec by done. destruct (kind_to_dto _); [|done]. destruct (dead _ _ _); [done|]. by intros [= <-].
Qed.

Lemma zlen_placed c : zlen (placed c) = tier_len (hot c) + tier_len (warm c) + tier_len (cold c).
Proof.
  unfold placed, tier_maps, tier_len, tier_values, zlen. cbn [flat_map fst snd]. rewrite !length_app, !length_map. cbn. lia.
Qed.

Lemma zlen_omap {A B} (f : A -> option B) l : zlen (omap f l) <= zlen l.
Proof. induction l as [|x l IH]; [done|]. rewrite omap_cons_app, zlen_app, zlen_cons. destruct (f x); cbn [option_list]; unfold zlen in *; cbn; lia. Qed.

Section round_trip.
Context (c : SemanticCache StabilityModel) (cfg : CacheConfig) (now : Ts) (window : Z).
Context (Hc : cache_ok c) (Hcfg : cfg_ok cfg) (Hs : forall t k e, holds c t k = Some e -> entry_storable e).

Let es := omap (through now window) (placed c).

Lemma comes_from e' : In e' es -> exists t e, holds c t (ce_key e') = Some e /\ through now window (t, e) = Some e' /\ entry_storable e.
Proof.
  intros I. apply list_elem_of_In, list_elem_of_omap in I as ([t e] & I & T). apply list_elem_of_In, (placed_holds c t e Hc) in I.
  pose proof (Hs _ _ _ I) as St. exists t, e. by rewrite (through_key _ _ _ _ _ St T).
Qed.

Lemma returned_of e' x : In e' es -> shown cfg now e' = Some x -> find c (ce_key e') ≫= returned cfg now window = Some x.
Proof.
  intros I S. destruct (comes_from e' I) as (t & e & H & T & St). replace (find c (ce_key e')) with (Some e) by (symmetry; apply find_Some; eauto).
  cbn [mbind option_bind]. rewrite <- (through_shown cfg now window t e St), T. exact S.
Qed.

Lemma es_NoDup : NoDup (map ce_key es).
Proof.
  apply omap_keys; [|by apply placed_NoDup]. intros [t e] e' I T. apply (placed_holds c t e Hc) in I.
  by rewrite (through_key _ _ _ _ _ (Hs _ _ _ I) T).
Qed.

Lemma absent_new k : absent (cache_new (S := StabilityModel) cfg) k.
Proof. by intros []. Qed.

Lemma entries_returned : let c1 := restore_entries now es (cache_new cfg) in
  cache_ok c1 /\ config c1 = cfg /\ nx c1 = [] /\
  (forall k x, view c1 k = Some x -> find c k ≫= returned cfg now window = Some x) /\
  ((forall t, cfg_capacity cfg t = 0 \/ tier_len (hot c) + tier_len (warm c) + tier_len (cold c) <= cfg_capacity cfg t) ->
     forall k, view c1 k = find c k ≫= returned cfg now window).
Proof.
  pose proof (cache_new_ok (S := StabilityModel) cfg Hcfg) as H0. pose proof (fun e (_ : In e es) => absent_new (ce_key e)) as Ha.
  destruct (restore_entries_view now es _ H0 es_NoDup Ha) as (H1 & H2 & H3 & H4).
  assert (forall k, view (cache_new (S := StabilityModel) cfg) k = None) as V0 by (intros k; apply view_None, absent_new).
  split; [done|]. split; [done|]. split; [done|]. split.
  - intros k x V. destruct (H4 k x V) as [V'|(e & I & -> & S)]; [by rewrite V0 in V'|]. by apply returned_of.
  - intros R k. destruct (restore_entries_room now es _ H0 es_NoDup Ha) as [G1 G2].
    { intros t. pose proof (zlen_omap (through now window) (placed c)) as L. rewrite zlen_placed in L. fold es in L.
      replace (capacity (tier_map (cache_new cfg) t)) with (cfg_capacity cfg t) by (by destruct t).
      replace (tier_len (tier_map (cache_new cfg) t)) with 0 by (by destruct t). destruct (R t); [by left|right; lia]. }
    destruct (in_dec (fun a b => decide (a = b)) k (map ce_key es)) as [I|N].
    + apply in_map_iff in I as (e' & <- & I). rewrite (G1 e' I). destruct (comes_from e' I) as (t & e & H & T & St).
      replace (find c (ce_key e')) with (Some e) by (symmetry; apply find_Some; eauto).
      cbn [mbind option_bind]. by rewrite <- (through_shown cfg now window t e St), T.
    + rewrite (G2 k N), V0. destruct (find c k) as [e|] eqn:F; [|done]. apply find_Some in F as (t & F); [|done]. cbn [mbind option_bind].
      rewrite <- (through_shown cfg now window t e (Hs _ _ _ F)). destruct (through now window (t, e)) as [e'|] eqn:T; [|done].
      exfalso. apply N. pose proof (holds_key _ _ _ _ Hc F) as Ek. apply in_map_iff. exists e'.
      split; [rewrite <- Ek; by apply (through_key _ _ _ _ _ (Hs _ _ _ F) T)|]. apply list_elem_of_In, list_elem_of_omap. exists (t, e).
      split; [|done]. apply list_elem_of_In, placed_holds; [done|]. by rewrite Ek.
Qed.
End round_trip.

Lemma cache_ok_nx (c : SemanticCache StabilityModel) m : cache_ok c -> bt_sorted m -> zlen m <= Z.max 1 (nx_capacity (config c)) ->
  cache_ok (set_nx c m).
Proof.
  intros [Ht Hg Hu Hs Hb] Sm Lm. constructor; [|done| |done|done].
  - intros t. specialize (Ht t). by destruct t.
  - intros k t1 t2 e1 e2. specialize (Hu k t1 t2 e1 e2). by destruct t1, t2.
Qed.

(** C9: a snapshot of a cache whose entries can be written, restored into an empty cache under
    any configuration: the cache is well formed, every entry it shows is one the snapshot's cache
    held, with the same records, signatures, scores and evidence and its times cut to whole
    seconds, alive and admitted, and every such entry is shown when the tiers have room for all
    of them; and every name error comes back exactly, cut the same way, unless it is dead. *)
Theorem snapshot_round_trip c cfg now now_unix window :
  cache_ok c -> cfg_ok cfg -> zlen (nx c) <= Z.max 1 (nx_capacity cfg) ->
  (forall t k e, holds c t k = Some e -> entry_storable e) ->
  (forall name neg, bt_get (nx c) name = Some neg -> negative_storable name neg) ->
  let c' := snd (restore_into (snapshot_new c now_unix) (cache_new cfg) now window) in
  cache_ok c' /\ config c' = cfg /\
  (forall k x, view c' k = Some x -> find c k ≫= returned cfg now window = Some x) /\
  ((forall t, cfg_capacity cfg t = 0 \/ tier_len (hot c) + tier_len (warm c) + tier_len (cold c) <= cfg_capacity cfg t) ->
     forall k, view c' k = find c k ≫= returned cfg now window) /\
  (forall name, bt_get (nx c') name = bt_get (nx c) name ≫= negative_kept now window).
Proof.
  intros Hc Hcfg Hnx Hs Hneg. unfold restore_into. cbn [sn_magic sn_version sn_entries sn_negatives snapshot_new]. rewrite !Z.eqb_refl.
  cbn [negb orb]. rewrite restore_dtos_fold, omap_through. fold (placed c).
  destruct (entries_returned c cfg now window Hc Hcfg Hs) as (H1 & H2 & H3 & H4 & H5).
  set (c1 := restore_entries now (omap (through now window) (placed c)) (cache_new cfg)) in *.
  assert (NoDup (map fst (nx c))) as Nd by apply NoDup_ListNoDup, bt_sorted_NoDup, (ok_nx_sorted c Hc).
  assert (Forall (fun kv => negative_storable kv.1 kv.2) (nx c)) as Hall.
  { apply List.Forall_forall. intros [name neg] I. apply Hneg. apply bt_In_get; [apply (ok_nx_sorted c Hc)|done]. }
  destruct (restore_negatives_spec now window (nx c) c1 (0 + zlen (omap (through now window) (placed c))) Nd Hall) as (A & B & D).
  destruct (fold_left _ _ _) as [c2 n2]. cbn [fst snd] in *. rewrite H3 in *. destruct (D ltac:(constructor)) as [S L].
  assert (forall k, view (set_stats c2 (add_inserts n2 (stats c2))) k = view c1 k) as V by (intros k; rewrite view_stats, A; done).
  split; [apply cache_ok_stats|]. { rewrite A. apply cache_ok_nx; [done|done|]. rewrite H2. unfold zlen in *. cbn in L. lia. }
  split; [cbn; rewrite A; exact H2|]. split; [intros k x; rewrite V; apply H4|]. split; [intros R k; rewrite V; by apply H5|].
  intros name. cbn [nx set_stats]. rewrite B. cbn [bt_get]. by destruct (bt_get (nx c) name ≫= _).
Qed.

(** ** A cache of one address and one name error *)

Definition kept_entry : CacheEntry StabilityModel :=
  mkEntry sample_key (Positive (mkRrSet (of_labels [[97]]) RrTypes.A 1 [sample_a 1 60] [] 60 true)) 1000 60000001000 3 2000
    (stability_with_config default_hazard_config 60 1000) true (f64_of 1) Hot true COST_REF_MS.
Definition kept_negative : NegativeEntry := mkNeg 30000000500 3 None 1 0.
Definition kept_cache : SemanticCache StabilityModel :=
  set_nx (snd (cache_insert_tier (cache_new default_cache_config) Hot kept_entry)) [(of_labels [[98]], kept_negative)].

Lemma wf_letter b : is_byte b -> to_lower b = b -> wf_name (of_labels [[b]]).
Proof.
  intros Hb Hlow. exists [[b]]. split; [|done]. split; [constructor; [split; [done|by constructor; [|constructor]]|constructor]|].
  split; [constructor; [unfold lower_ok; cbn; by rewrite Hlow|constructor]|done].
Qed.

Lemma kept_storable : entry_storable kept_entry.
Proof.
  constructor.
  - by apply wf_letter.
  - constructor; try (vm_compute; reflexivity). pose proof (sanitised_sane default_hazard_config ltac:(repeat split; apply is_num_num; vm_compute; reflexivity)) as D.
    replace (sanitised default_hazard_config) with default_hazard_config in D by (vm_compute; reflexivity). exact D.
  - constructor; [|constructor]. split; [|intros w [= <-]; vm_compute; congruence].
    split; [by apply wf_letter|]. split; [done|]. split; [done|]. split; [done|].
    split; [|done]. split; [done|]. repeat (constructor; [done|]). constructor.
  - done.
Qed.

Lemma kept_cache_ok : cache_ok kept_cache /\ forall t k e, holds kept_cache t k = Some e -> e = kept_entry.
Proof.
  pose proof (cache_new_ok (S := StabilityModel) _ default_cfg_ok) as H0.
  pose proof (cache_insert_tier_spec (cache_new default_cache_config) Hot kept_entry H0 ltac:(by intros []) ltac:(by right)) as I.
  unfold kept_cache. destruct (cache_insert_tier _ Hot kept_entry) as [v c] eqn:E. cbn [snd].
  destruct I as (Hc & Cf & Nx & He & Hv & Ho). split.
  - apply cache_ok_nx; [done|apply bt_sorted_cons; split; constructor|]. rewrite Cf. vm_compute. congruence.
  - intros t k e. replace (holds (set_nx c _) t k) with (holds c t k) by (by destruct t).
    assert (forall x, v = Some x -> False) as Nv by (intros x Hx; by destruct (Hv x Hx)).
    destruct (decide (t = Hot /\ k = ce_key kept_entry)) as [[-> ->]|N]; [rewrite He; by intros [= <-]|].
    rewrite Ho; [by destruct t| |by intros x Hx; destruct (Nv x Hx)].
    destruct (decide (t = Hot)) as [->|]; [right; intros ->; by apply N|by left].
Qed.

Lemma snapshot_round_trip_witness :
  let c' := snd (restore_into (snapshot_new kept_cache 7) (cache_new default_cache_config) 2000000000 86400) in
  (ce_expires <$> view c' sample_key) = Some 60000000000 /\
  (ne_expires <$> bt_get (nx c') (of_labels [[98]])) = Some 30000000000.
Proof.
  cbn zeta. destruct kept_cache_ok as [Hc Hk].
  destruct (snapshot_round_trip kept_cache default_cache_config 2000000000 7 86400 Hc default_cfg_ok) as (_ & _ & _ & V & N).
  - vm_compute. congruence.
  - intros t k e H. rewrite (Hk t k e H). exact kept_storable.
  - intros name neg H. apply bt_get_In in H. destruct H as [[= <- <-]|[]]. split; [by apply wf_letter|constructor].
  - rewrite V, N; [|intros []; right; vm_compute; congruence]. split; vm_compute; reflexivity.
Defined.

(** A name-error store of one, given two. *)
Definition narrow_config : CacheConfig :=
  mkCacheConfig 2048 131072 32768 1 86400 300 (7 * 86400) (pct 72) (pct 35) (pct 15) default_weights.

Example restore_overfills :
  let d b := mkNegativeDto [1; b; 0] 30 3 None 0 0 in
  let c' := snd (restore_into (mkSnapshot MAGIC VERSION 7 [] [d 97; d 98]) (cache_new narrow_config) 2000000000 86400) in
  Z.max 1 (nx_capacity (config c')) < zlen (nx c').
Proof. vm_compute. reflexivity. Qed.

(** A file that cannot be read is an error, and one that is not there a cold start. *)
Example unreadable_file de c now :
  load_from de c "cache.bin" (Some (Err "denied"%string)) now = (Err (io "cache persist read cache.bin: denied"), c) /\
  load_from de c "cache.bin" None now = (Ok 0, c).
Proof. done. Qed.

(** A frame that names one key at two scores leaves it in two tiers. *)
Example restore_doubles :
  let e s t := set_score (set_tier kept_entry t) s in
  match entry_to_dto (e (f64_of 1) Hot) Hot, entry_to_dto (e (pct 20) Cold) Cold with
  | Some d1, Some d2 =>
      let c' := snd (restore_into (mkSnapshot MAGIC VERSION 7 [d1; d2] []) (cache_new default_cache_config) 2000000000 86400) in
      holds c' Hot sample_key <> None /\ holds c' Cold sample_key <> None
  | _, _ => False
  end.
Proof. vm_compute. split; congruence. Qed.
