(* ===== verification/Tls.v ===== *)
(** * The TLS 1.3 handshake of DNS over QUIC ([src/transports/doq/tls.rs])

    The client's side of the handshake: the messages it writes and parses, the key
    schedule, the checks on the server's certificate and on the two signatures of the
    transcript, and the state machine that puts them in order.  The cryptography, the
    certificate library and the variable-length integers of QUIC are third-party code:
    the class [TlsCrypto]. *)
From S2P Require Import Prelude Wire Addr QuicRx.

Module hstype.
Definition CLIENT_HELLO : Z := 1.
Definition SERVER_HELLO : Z := 2.
Definition ENCRYPTED_EXTENSIONS : Z := 8.
Definition CERTIFICATE : Z := 11.
Definition CERTIFICATE_VERIFY : Z := 15.
Definition FINISHED : Z := 20.
End hstype.

Module suite.
Definition AES_128_GCM_SHA256 : Z := 0x1301.
Definition AES_256_GCM_SHA384 : Z := 0x1302.
Definition CHACHA20_POLY1305_SHA256 : Z := 0x1303.
End suite.

Module sigscheme.
Definition RSA_PSS_PSS_SHA256 : Z := 0x0809.
Definition RSA_PSS_PSS_SHA384 : Z := 0x080a.
Definition RSA_PSS_RSAE_SHA256 : Z := 0x0804.
Definition RSA_PSS_RSAE_SHA384 : Z := 0x0805.
Definition RSA_PKCS1_SHA256 : Z := 0x0401.
Definition RSA_PKCS1_SHA384 : Z := 0x0501.
Definition ECDSA_SECP256R1_SHA256 : Z := 0x0403.
Definition ECDSA_SECP384R1_SHA384 : Z := 0x0503.
Definition ED25519 : Z := 0x0807.
End sigscheme.

Definition HRR_RANDOM : list Z :=
  [0xcf; 0x21; 0xad; 0x74; 0xe6; 0x86; 0x64; 0xb8; 0x24; 0x1a; 0x83; 0x76; 0x3c; 0x1f; 0x51; 0x70;
   0x2d; 0x7c; 0x1f; 0x0f; 0x1c; 0x7a; 0x05; 0x13; 0x05; 0x1f; 0x13; 0x91; 0xa0; 0x9c; 0x9e; 0x7e].
Definition CV_CONTEXT_PAD : nat := 64.

Inductive Hash := SHA256 | SHA384.
Inductive Curve := P256 | P384 | P521.
#[global] Instance Curve_eq_dec : EqDecision Curve.
Proof. solve_decision. Defined.

(** What the handshake asks of [courierust]. *)
Class TlsCrypto := {
  Cert : Type;
  RootStore : Type;
  varint_encode : Z -> list Z;
  varint_decode : list Z -> option (Z * Z);
  digest : Hash -> list Z -> list Z;
  hkdf_extract : Hash -> list Z -> list Z -> list Z;
  expand_label : Hash -> list Z -> list Z -> list Z -> Z -> list Z;
  hmac : Hash -> list Z -> list Z -> list Z;
  x25519 : list Z -> list Z -> list Z;
  parse_certificate : list Z -> result string Cert;
  spki_key : Cert -> list Z;
  ec_curve : Cert -> option Curve;
  validate_chain : RootStore -> list (list Z) -> Z -> result string unit;
  has_server_auth_eku : Cert -> bool;
  hostname_matches : string -> Cert -> bool;
  verify_pss : list Z * list Z -> Hash -> list Z -> Z -> list Z -> bool;
  verify_pkcs1v15 : list Z * list Z -> Hash -> list Z -> list Z -> bool;
  ecdsa_verify_der : Curve -> list Z -> list Z -> list Z -> list Z -> bool;
  ed25519_verify : list Z -> list Z -> list Z -> bool }.

(** ** Framing *)

Definition hash_len (s : Z) : Z := if s =? suite.AES_256_GCM_SHA384 then 48 else 32.
Definition new_digest (s : Z) : Hash := if s =? suite.AES_256_GCM_SHA384 then SHA384 else SHA256.

Definition hs_message (msg_type : Z) (body : list Z) : list Z :=
  msg_type :: drop 1 (be_bytes 4 (wrap 32 (zlen body))) ++ body.
Definition extension (ext_type : Z) (body : list Z) : list Z :=
  be_bytes 2 ext_type ++ be_bytes 2 (wrap 16 (zlen body)) ++ body.

Definition x25519_key_share (body : list Z) : option (list Z) :=
  match array_at 4 body 0 with
  | Ok head =>
      if bool_decide (head = [0x00; 0x1d; 0x00; 0x20]) then
        match array_at 32 body 4 with Ok k => Some k | Err _ => None end
      else None
  | Err _ => None
  end.

(** The header of a message: its type and its body. *)
Definition hs_header (msg : list Z) : result Error (Z * list Z) :=
  reject_if (zlen msg <? 4) (wire "TLS handshake message too short") ≫= fun _ =>
  msg_type ← byte_at msg 0;
  b1 ← byte_at msg 1; b2 ← byte_at msg 2; b3 ← byte_at msg 3;
  let len := be_val [0; b1; b2; b3] in
  reject_if (negb (4 + len =? zlen msg)) (wire "TLS handshake message length mismatch") ≫= fun _ =>
  body ← rest_at msg 4;
  Ok (msg_type, body).

(** ** Transport parameters *)

Record TransportParams := mkTP {
  tp_max_idle_timeout_ms : Z; tp_max_udp_payload_size : Z; tp_initial_max_data : Z;
  tp_initial_max_stream_data_bidi_local : Z; tp_initial_max_stream_data_bidi_remote : Z;
  tp_initial_max_stream_data_uni : Z; tp_initial_max_streams_bidi : Z; tp_initial_max_streams_uni : Z;
  tp_active_connection_id_limit : Z; tp_initial_source_connection_id : list Z;
  tp_retry_source_connection_id : option (list Z) }.

Definition client_defaults (scid : list Z) : TransportParams :=
  mkTP 30000 1350 (2 ^ 26) (2 ^ 20) (2 ^ 20) (2 ^ 20) 1024 16 2 scid None.

Record ServerTransportParams := mkSTP {
  initial_max_data : Z; initial_max_stream_data_bidi_local : Z; initial_max_streams_bidi : Z;
  initial_max_streams_uni : Z; original_destination_connection_id : option (list Z);
  initial_source_connection_id : option (list Z); retry_source_connection_id : option (list Z) }.
Definition default_server_params : ServerTransportParams := mkSTP 0 0 0 0 None None None.

Section transport_params.
Context {TC : TlsCrypto}.

Definition put_param (id : Z) (value : list Z) : list Z :=
  varint_encode id ++ varint_encode (zlen value) ++ value.

Definition params_encode (p : TransportParams) : list Z :=
  (if 0 <? tp_max_idle_timeout_ms p then put_param 0x01 (varint_encode (tp_max_idle_timeout_ms p)) else []) ++
  put_param 0x03 (varint_encode (tp_max_udp_payload_size p)) ++
  put_param 0x04 (varint_encode (tp_initial_max_data p)) ++
  put_param 0x05 (varint_encode (tp_initial_max_stream_data_bidi_local p)) ++
  put_param 0x06 (varint_encode (tp_initial_max_stream_data_bidi_remote p)) ++
  put_param 0x07 (varint_encode (tp_initial_max_stream_data_uni p)) ++
  put_param 0x08 (varint_encode (tp_initial_max_streams_bidi p)) ++
  put_param 0x09 (varint_encode (tp_initial_max_streams_uni p)) ++
  put_param 0x0e (varint_encode (tp_active_connection_id_limit p)) ++
  put_param 0x0f (tp_initial_source_connection_id p) ++
  match tp_retry_source_connection_id p with Some scid => put_param 0x10 scid | None => [] end.

Definition decode_param_u64 (value : list Z) : result Error Z :=
  '(v, used) ← ok_or (varint_decode value) (wire "QUIC transport parameter not a varint");
  if negb (used =? zlen value) then Err (wire "QUIC transport parameter has trailing bytes") else Ok v.

(** The match on a parameter's identifier. *)
Definition store_param (out : ServerTransportParams) (id : Z) (value : list Z) : result Error ServerTransportParams :=
  let '(mkSTP md msd sb su od isc rsc) := out in
  if id =? 0x04 then v ← decode_param_u64 value; Ok (mkSTP v msd sb su od isc rsc)
  else if id =? 0x05 then v ← decode_param_u64 value; Ok (mkSTP md v sb su od isc rsc)
  else if id =? 0x08 then v ← decode_param_u64 value; Ok (mkSTP md msd v su od isc rsc)
  else if id =? 0x09 then v ← decode_param_u64 value; Ok (mkSTP md msd sb v od isc rsc)
  else if id =? 0x00 then Ok (mkSTP md msd sb su (Some value) isc rsc)
  else if id =? 0x0f then Ok (mkSTP md msd sb su od (Some value) rsc)
  else if id =? 0x10 then Ok (mkSTP md msd sb su od isc (Some value))
  else Ok out.

Fixpoint params_loop (fuel : nat) (bs : list Z) (pos : Z) (out : ServerTransportParams) : result Error ServerTransportParams :=
  match fuel with
  | O => Err out_of_fuel
  | S fuel =>
      if zlen bs <=? pos then Ok out else
      rest ← rest_at bs pos;
      '(id, used) ← ok_or (varint_decode rest) (wire "QUIC transport parameter id malformed");
      let pos := pos + used in
      rest ← rest_at bs pos;
      '(len, used) ← ok_or (varint_decode rest) (wire "QUIC transport parameter length malformed");
      let pos := pos + used in
      value ← map_err (fun _ => wire "QUIC transport parameter truncated") (slice_at bs pos len);
      let pos := pos + len in
      out ← store_param out id value;
      params_loop fuel bs pos out
  end.
Definition decode_server_transport_params (bs : list Z) : result Error ServerTransportParams :=
  params_loop (S (length bs)) bs 0 default_server_params.
End transport_params.

(** ** The client's state *)

Section handshake.
Context {TC : TlsCrypto}.

Record ClientConfig := mkClientConfig {
  alpn : list Z; server_name : option string; hostname : option string; roots : RootStore; verify : bool;
  cfg_now : Z; transport_params : TransportParams }.

Record Completed := mkCompleted { client_finished : list Z; cp_suite : Z }.

Record ClientHandshake := mkHs {
  cfg : ClientConfig; random : list Z; ecdhe_secret : list Z; ecdhe_public : list Z;
  transcript_msgs : list (list Z); hs_suite : option Z; handshake_secret : option (list Z);
  c_hs : option (list Z); s_hs : option (list Z); c_ap : option (list Z); s_ap : option (list Z);
  server_params : option ServerTransportParams; saw_server_hello : bool; shared : list Z; next : Z;
  chain : list (list Z); done_ : bool }.
Implicit Types h : ClientHandshake.

(** The random values are arguments: the client random and the key pair. *)
Definition handshake_new (cfg : ClientConfig) (random secret public : list Z) : ClientHandshake :=
  mkHs cfg random secret public [] None None None None None None None false (replicate 32 0)
    hstype.ENCRYPTED_EXTENSIONS [] false.

Definition push_msg h (m : list Z) : ClientHandshake :=
  mkHs (cfg h) (random h) (ecdhe_secret h) (ecdhe_public h) (transcript_msgs h ++ [m]) (hs_suite h) (handshake_secret h)
    (c_hs h) (s_hs h) (c_ap h) (s_ap h) (server_params h) (saw_server_hello h) (shared h) (next h) (chain h) (done_ h).
Definition set_hello h (s : Z) (shared : list Z) : ClientHandshake :=
  mkHs (cfg h) (random h) (ecdhe_secret h) (ecdhe_public h) (transcript_msgs h) (Some s) (handshake_secret h)
    (c_hs h) (s_hs h) (c_ap h) (s_ap h) (server_params h) true shared (next h) (chain h) (done_ h).
Definition set_hs_secrets h (hs c s : list Z) : ClientHandshake :=
  mkHs (cfg h) (random h) (ecdhe_secret h) (ecdhe_public h) (transcript_msgs h) (hs_suite h) (Some hs)
    (Some c) (Some s) (c_ap h) (s_ap h) (server_params h) (saw_server_hello h) (shared h) (next h) (chain h) (done_ h).
Definition set_ap_secrets h (c s : list Z) : ClientHandshake :=
  mkHs (cfg h) (random h) (ecdhe_secret h) (ecdhe_public h) (transcript_msgs h) (hs_suite h) (handshake_secret h)
    (c_hs h) (s_hs h) (Some c) (Some s) (server_params h) (saw_server_hello h) (shared h) (next h) (chain h) (done_ h).
Definition set_server_params h (p : ServerTransportParams) : ClientHandshake :=
  mkHs (cfg h) (random h) (ecdhe_secret h) (ecdhe_public h) (transcript_msgs h) (hs_suite h) (handshake_secret h)
    (c_hs h) (s_hs h) (c_ap h) (s_ap h) (Some p) (saw_server_hello h) (shared h) (next h) (chain h) (done_ h).
Definition set_chain h (c : list (list Z)) : ClientHandshake :=
  mkHs (cfg h) (random h) (ecdhe_secret h) (ecdhe_public h) (transcript_msgs h) (hs_suite h) (handshake_secret h)
    (c_hs h) (s_hs h) (c_ap h) (s_ap h) (server_params h) (saw_server_hello h) (shared h) (next h) c (done_ h).
Definition set_next h (n : Z) : ClientHandshake :=
  mkHs (cfg h) (random h) (ecdhe_secret h) (ecdhe_public h) (transcript_msgs h) (hs_suite h) (handshake_secret h)
    (c_hs h) (s_hs h) (c_ap h) (s_ap h) (server_params h) (saw_server_hello h) (shared h) n (chain h) (done_ h).
Definition set_done h : ClientHandshake :=
  mkHs (cfg h) (random h) (ecdhe_secret h) (ecdhe_public h) (transcript_msgs h) (hs_suite h) (handshake_secret h)
    (c_hs h) (s_hs h) (c_ap h) (s_ap h) (server_params h) (saw_server_hello h) (shared h) (next h) (chain h) true.

(** ** The key schedule *)

Definition empty_hash (s : Z) : list Z := digest (new_digest s) [].
Definition derive_secret (s : Z) (secret : list Z) (label : string) (transcript_hash : list Z) : list Z :=
  expand_label (new_digest s) secret (ascii_bytes label) transcript_hash (hash_len s).
Definition transcript_hash h : list Z :=
  digest (new_digest (default suite.AES_128_GCM_SHA256 (hs_suite h))) (concat (transcript_msgs h)).

Definition derive_handshake_secrets h : result Error ClientHandshake :=
  match hs_suite h with
  | None => Err (wire "TLS handshake secrets requested before a cipher suite was negotiated")
  | Some s =>
      let zeros := replicate (Z.to_nat (hash_len s)) 0 in
      let early := hkdf_extract (new_digest s) zeros zeros in
      let derived := derive_secret s early "derived" (empty_hash s) in
      let handshake_secret := hkdf_extract (new_digest s) derived (shared h) in
      let ch_sh := transcript_hash h in
      Ok (set_hs_secrets h handshake_secret (derive_secret s handshake_secret "c hs traffic" ch_sh)
            (derive_secret s handshake_secret "s hs traffic" ch_sh))
  end.

Definition finished_mac (s : Z) (secret hash : list Z) : list Z :=
  hmac (new_digest s) (expand_label (new_digest s) secret (ascii_bytes "finished") [] (hash_len s)) hash.

Definition derive_application_secrets h : result Error (list Z * ClientHandshake) :=
  match hs_suite h with
  | None => Err (wire "application secrets requested before a cipher suite was negotiated")
  | Some s =>
      hs ← ok_or (handshake_secret h) (wire "application secrets before handshake secrets");
      let derived := derive_secret s hs "derived" (empty_hash s) in
      let master := hkdf_extract (new_digest s) derived (replicate (Z.to_nat (hash_len s)) 0) in
      let ch_to_sf := transcript_hash h in
      let c_ap := derive_secret s master "c ap traffic" ch_to_sf in
      let s_ap := derive_secret s master "s ap traffic" ch_to_sf in
      c ← ok_or (c_hs h) (wire "client handshake secret not derived");
      Ok (hs_message hstype.FINISHED (finished_mac s c ch_to_sf), set_ap_secrets h c_ap s_ap)
  end.

Definition verify_server_finished h (body hash_before_finished : list Z) : result Error unit :=
  match hs_suite h with
  | None => Err (wire "server Finished before a cipher suite was negotiated")
  | Some s =>
      reject_if (negb (zlen body =? hash_len s)) (wire "server Finished has the wrong length") ≫= fun _ =>
      secret ← ok_or (s_hs h) (wire "server Finished before handshake secrets");
      if bool_decide (finished_mac s secret hash_before_finished = body) then Ok tt
      else Err (mkError Dnssec "server Finished did not verify")
  end.

(** ** ClientHello *)

Definition supported_groups : list Z := [0x001d; 0x0017].
Definition signature_schemes : list Z := [0x0809; 0x080a; 0x0804; 0x0805; 0x0403; 0x0503; 0x0807; 0x0401; 0x0501].
(** A list of 16-bit values behind its length. *)
Definition u16_list (l : list Z) : list Z := be_bytes 2 (wrap 16 (zlen l * 2)) ++ concat (map (be_bytes 2) l).

Definition sni_extension (sni : string) : list Z :=
  let name := ascii_bytes sni in
  let server_name_list := [0] ++ be_bytes 2 (wrap 16 (zlen name)) ++ name in
  extension 0x0000 (be_bytes 2 (wrap 16 (zlen server_name_list)) ++ server_name_list).

Definition hello_extensions h : list Z :=
  match server_name (cfg h) with
  | Some sni => if String.eqb sni "" then [] else sni_extension sni
  | None => [] end ++
  extension 0x000a (u16_list supported_groups) ++
  extension 0x000d (u16_list signature_schemes) ++
  extension 0x002b [0x02; 0x03; 0x04] ++
  extension 0x0033 (be_bytes 2 0x0024 ++ be_bytes 2 0x001d ++ be_bytes 2 32 ++ ecdhe_public h) ++
  match alpn (cfg h) with
  | [] => []
  | a => extension 0x0010 (be_bytes 2 (wrap 16 (1 + wrap 16 (zlen a))) ++ [wrap 8 (zlen a)] ++ a)
  end ++
  extension 0x0039 (params_encode (transport_params (cfg h))).

Definition hello_body h : list Z :=
  [0x03; 0x03] ++ random h ++ [0] ++ [0x00; 0x06] ++
  be_bytes 2 suite.CHACHA20_POLY1305_SHA256 ++ be_bytes 2 suite.AES_128_GCM_SHA256 ++ be_bytes 2 suite.AES_256_GCM_SHA384 ++
  [0x01; 0x00] ++ be_bytes 2 (wrap 16 (zlen (hello_extensions h))) ++ hello_extensions h.

Definition client_hello h : list Z * ClientHandshake :=
  let msg := hs_message hstype.CLIENT_HELLO (hello_body h) in (msg, push_msg h msg).

(** ** ServerHello and EncryptedExtensions *)

(** The loop over the extensions of a ServerHello: the key share and whether TLS 1.3
    was selected. *)
Fixpoint hello_loop (fuel : nat) (body : list Z) (ep end_ : Z) (share : option (list Z)) (saw_versions : bool)
    : result Error (option (list Z) * bool) :=
  match fuel with
  | O => Err out_of_fuel
  | S fuel =>
      if end_ <? ep + 4 then Ok (share, saw_versions) else
      etype ← u16_at body ep;
      elen ← u16_at body (ep + 2);
      let ep := ep + 4 in
      ev ← map_err (fun _ => wire "ServerHello extension truncated") (slice_at body ep elen);
      let saw_versions :=
        if etype =? 0x002b then
          saw_versions || ((elen =? 2) && match array_at 2 ev 0 with Ok v => bool_decide (v = [0x03; 0x04]) | Err _ => false end)
        else saw_versions in
      let share := if etype =? 0x0033 then match x25519_key_share ev with Some k => Some k | None => share end else share in
      hello_loop fuel body (ep + elen) end_ share saw_versions
  end.

Definition known_suite (s : Z) : bool :=
  (s =? suite.AES_128_GCM_SHA256) || (s =? suite.AES_256_GCM_SHA384) || (s =? suite.CHACHA20_POLY1305_SHA256).

(** The fields before the extensions: the suite and where the extensions start and end. *)
Definition hello_fields (body : list Z) : result Error (Z * Z * Z) :=
  reject_if (zlen body <? 35) (wire "ServerHello too short") ≫= fun _ =>
  v0 ← byte_at body 0; v1 ← byte_at body 1;
  reject_if (negb (v0 =? 3) || negb (v1 =? 3)) (wire "ServerHello legacy version is not TLS 1.2") ≫= fun _ =>
  random ← slice_at body 2 32;
  reject_if (bool_decide (random = HRR_RANDOM))
    (wire "HelloRetryRequest received (server group mismatch; refusing to retry)") ≫= fun _ =>
  sid_len ← byte_at body 34;
  reject_if (negb (sid_len =? 0)) (wire "ServerHello legacy_session_id is not empty (QUIC forbids resumption)") ≫= fun _ =>
  let pos := 35 + sid_len in
  reject_if (zlen body <? pos + 3) (wire "ServerHello truncated") ≫= fun _ =>
  s ← u16_at body pos;
  let pos := pos + 2 in
  compression ← byte_at body pos;
  reject_if (negb (compression =? 0)) (wire "ServerHello compression method is not null") ≫= fun _ =>
  let pos := pos + 1 in
  reject_if (negb (known_suite s)) (wire "ServerHello selected an unsupported cipher suite") ≫= fun _ =>
  reject_if (zlen body <? pos + 2) (wire "ServerHello missing extensions") ≫= fun _ =>
  ext_total ← u16_at body pos;
  let pos := pos + 2 in
  reject_if (zlen body <? pos + ext_total) (wire "ServerHello extensions truncated") ≫= fun _ =>
  Ok (s, pos, pos + ext_total).

(** What the server chose: the suite and its key share. *)
Definition hello_choice (body : list Z) : result Error (Z * list Z) :=
  '(s, pos, end_) ← hello_fields body;
  '(share, saw_versions) ← hello_loop (S (length body)) body pos end_ None false;
  reject_if (negb saw_versions) (wire "ServerHello missing supported_versions") ≫= fun _ =>
  server_pub ← ok_or share (wire "ServerHello missing X25519 key share");
  Ok (s, server_pub).

Definition parse_server_hello h (body : list Z) : result Error ClientHandshake :=
  '(s, server_pub) ← hello_choice body;
  let shared := x25519 (ecdhe_secret h) server_pub in
  reject_if (forallb (fun b => b =? 0) shared) (wire "ServerHello produced an all-zero ECDHE secret") ≫= fun _ =>
  Ok (set_hello h s shared).

Fixpoint extensions_loop (fuel : nat) (body : list Z) (pos end_ : Z) (params : option ServerTransportParams)
    : result Error (option ServerTransportParams) :=
  match fuel with
  | O => Err out_of_fuel
  | S fuel =>
      if end_ <? pos + 4 then Ok params else
      etype ← u16_at body pos;
      elen ← u16_at body (pos + 2);
      let pos := pos + 4 in
      ext ← map_err (fun _ => wire "EncryptedExtensions extension truncated") (slice_at body pos elen);
      params ← (if etype =? 0x0039 then p ← decode_server_transport_params ext; Ok (Some p) else Ok params);
      extensions_loop fuel body (pos + elen) end_ params
  end.

Definition parse_encrypted_extensions (body : list Z) : result Error ServerTransportParams :=
  reject_if (zlen body <? 2) (wire "EncryptedExtensions truncated") ≫= fun _ =>
  ext_total ← u16_at body 0;
  reject_if (zlen body <? 2 + ext_total) (wire "EncryptedExtensions truncated") ≫= fun _ =>
  params ← extensions_loop (S (length body)) body 2 (2 + ext_total) None;
  ok_or params (wire "server omitted quic_transport_parameters").
End handshake.

(** ** Certificates *)

Definition read_der_tlv (data : list Z) : option (Z * list Z * Z) :=
  match data with
  | tag :: first_len :: rest =>
      '(len, body_at) ← (if Z.land first_len 0x80 =? 0 then Some (first_len, 0) else
                         let nbytes := Z.land first_len 0x7f in
                         if (nbytes =? 0) || (4 <? nbytes) then None else
                         lens ← get_range rest 0 nbytes;
                         Some (fold_left (fun len byte => Z.lor (wrap 64 (Z.shiftl len 8)) byte) lens 0, nbytes));
      from ← get_from rest body_at;
      value ← get_range from 0 len;
      Some (tag, value, 2 + body_at + len)
  | _ => None
  end.

Definition strip_int_leading_zero (v : list Z) : list Z :=
  match v with
  | 0 :: _ :: _ => tail v
  | _ => v
  end.

Definition parse_rsa_public_key (der : list Z) : option (list Z * list Z) :=
  '(tag, content, _) ← read_der_tlv der;
  if negb (tag =? 0x30) then None else
  '(tag_n, n_raw, n_used) ← read_der_tlv content;
  if negb (tag_n =? 0x02) then None else
  rest ← get_from content n_used;
  '(tag_e, e_raw, _) ← read_der_tlv rest;
  if negb (tag_e =? 0x02) then None else
  let n := strip_int_leading_zero n_raw in
  let e := strip_int_leading_zero e_raw in
  match n, e with
  | [], _ | _, [] => None
  | _, _ => Some (n, e)
  end.

(** The loop over the certificate entries of [list]. *)
Fixpoint certificates_loop (fuel : nat) (list_ : list Z) (pos : Z) (chain : list (list Z)) : result Error (list (list Z)) :=
  match fuel with
  | O => Err out_of_fuel
  | S fuel =>
      if zlen list_ <=? pos then Ok chain else
      cert_len ← map_err (fun _ => wire "Certificate entry length truncated") (u24_at list_ pos);
      let pos := pos + 3 in
      cert ← map_err (fun _ => wire "Certificate entry truncated") (slice_at list_ pos cert_len);
      let pos := pos + cert_len in
      ext_len ← map_err (fun _ => wire "Certificate entry extensions truncated") (u16_at list_ pos);
      _ ← map_err (fun _ => wire "Certificate entry extensions truncated") (slice_at list_ (pos + 2) ext_len);
      certificates_loop fuel list_ (pos + (2 + ext_len)) (chain ++ [cert])
  end.

Definition parse_certificate_list (body : list Z) : result Error (list (list Z)) :=
  ctx_len ← ok_or (get body 0) (wire "Certificate message empty");
  reject_if (negb (ctx_len =? 0)) (wire "Certificate carries a request context") ≫= fun _ =>
  list_len ← map_err (fun _ => wire "Certificate list length truncated") (u24_at body 1);
  list_ ← map_err (fun _ => wire "Certificate list truncated") (slice_at body 4 list_len);
  chain ← certificates_loop (S (length list_)) list_ 0 [];
  match chain with
  | [] => Err (wire "Certificate message has no certificates")
  | _ => Ok chain
  end.

Section certificates.
Context {TC : TlsCrypto}.
Implicit Types h : ClientHandshake.

Definition dnssec_error (msg : string) : Error := mkError Dnssec msg.

Definition validate_certificate h (leaf : Cert) : result Error unit :=
  if negb (verify (cfg h)) then Ok tt else
  map_err (fun e => dnssec_error ("certificate chain rejected: " ++ e)) (validate_chain (roots (cfg h)) (chain h) (cfg_now (cfg h))) ≫= fun _ =>
  if negb (has_server_auth_eku leaf) then Err (dnssec_error "leaf certificate lacks serverAuth EKU") else
  match hostname (cfg h) with
  | Some name =>
      if hostname_matches name leaf then Ok tt
      else Err (dnssec_error ("certificate does not match hostname " ++ name))
  | None => Ok tt
  end.

Definition leaf_rsa_key (leaf : Cert) : result Error (list Z * list Z) :=
  ok_or (parse_rsa_public_key (spki_key leaf)) (dnssec_error "leaf certificate is not a usable RSA key").

Definition curve_len (c : Curve) : Z := match c with P256 => 32 | P384 => 48 | P521 => 66 end.

Definition leaf_ec_point (leaf : Cert) (c : Curve) : result Error (list Z * list Z) :=
  let clen := curve_len c in
  if negb (bool_decide (ec_curve leaf = Some c)) then Err (dnssec_error "leaf certificate curve mismatch") else
  let key := spki_key leaf in
  if negb (zlen key =? 1 + 2 * clen) || negb match byte_at key 0 with Ok b => b =? 4 | Err _ => false end then
    Err (dnssec_error "leaf certificate key is not an uncompressed EC point")
  else
    x ← slice_at key 1 clen;
    y ← rest_at key (1 + clen);
    Ok (x, y).

(** The match on the signature scheme. *)
Definition check_signature (s scheme : Z) (leaf : Cert) (content signature : list Z) : result Error bool :=
  if (scheme =? sigscheme.RSA_PSS_PSS_SHA256) || (scheme =? sigscheme.RSA_PSS_RSAE_SHA256) then
    key ← leaf_rsa_key leaf; Ok (verify_pss key SHA256 content 32 signature)
  else if (scheme =? sigscheme.RSA_PSS_PSS_SHA384) || (scheme =? sigscheme.RSA_PSS_RSAE_SHA384) then
    key ← leaf_rsa_key leaf; Ok (verify_pss key SHA384 content 48 signature)
  else if scheme =? sigscheme.RSA_PKCS1_SHA256 then
    key ← leaf_rsa_key leaf; Ok (verify_pkcs1v15 key SHA256 (digest SHA256 content) signature)
  else if scheme =? sigscheme.RSA_PKCS1_SHA384 then
    key ← leaf_rsa_key leaf; Ok (verify_pkcs1v15 key SHA384 (digest SHA384 content) signature)
  else if scheme =? sigscheme.ECDSA_SECP256R1_SHA256 then
    if negb (s =? suite.AES_128_GCM_SHA256) && negb (s =? suite.CHACHA20_POLY1305_SHA256) then
      Err (dnssec_error "ECDSA P-256 scheme with a SHA-384 suite")
    else
      '(qx, qy) ← leaf_ec_point leaf P256; Ok (ecdsa_verify_der P256 qx qy (digest SHA256 content) signature)
  else if scheme =? sigscheme.ECDSA_SECP384R1_SHA384 then
    if negb (s =? suite.AES_256_GCM_SHA384) then
      Err (dnssec_error "ECDSA P-384 scheme with a SHA-256 suite")
    else
      '(qx, qy) ← leaf_ec_point leaf P384; Ok (ecdsa_verify_der P384 qx qy (digest SHA384 content) signature)
  else if scheme =? sigscheme.ED25519 then
    if negb (zlen (spki_key leaf) =? 32) then Err (dnssec_error "Ed25519 certificate key is not 32 bytes") else
    if negb (zlen signature =? 64) then Err (dnssec_error "Ed25519 signature is not 64 bytes") else
    Ok (ed25519_verify (spki_key leaf) content signature)
  else Err (dnssec_error "unsupported CertificateVerify signature scheme").

(** What the server signs. *)
Definition signed_content (hash_before_cv : list Z) : list Z :=
  replicate CV_CONTEXT_PAD 0x20 ++ ascii_bytes "TLS 1.3, server CertificateVerify" ++ [0] ++ hash_before_cv.

Definition verify_certificate_verify h (body hash_before_cv : list Z) : result Error unit :=
  reject_if (zlen body <? 4) (wire "CertificateVerify truncated") ≫= fun _ =>
  scheme ← u16_at body 0;
  sig_len ← u16_at body 2;
  reject_if (negb (4 + sig_len =? zlen body)) (wire "CertificateVerify signature length mismatch") ≫= fun _ =>
  signature ← rest_at body 4;
  leaf_der ← ok_or (head (chain h)) (wire "CertificateVerify before any certificate");
  leaf ← map_err (fun e => dnssec_error ("cannot parse leaf certificate: " ++ e)) (parse_certificate leaf_der);
  validate_certificate h leaf ≫= fun _ =>
  match hs_suite h with
  | None => Err (wire "CertificateVerify before a cipher suite was negotiated")
  | Some s =>
      ok ← check_signature s scheme leaf (signed_content hash_before_cv) signature;
      if negb ok then Err (dnssec_error "CertificateVerify signature did not verify") else Ok tt
  end.

(** ** The state machine *)

Definition out_of_order : Error := wire "TLS handshake messages out of order".
Definition unexpected : Error := wire "unexpected TLS handshake message".

(** A step that leaves the state as it was when it fails. *)
Definition or_keep {A} h (r : result Error A) (k : A -> result Error (option Completed) * ClientHandshake)
    : result Error (option Completed) * ClientHandshake :=
  match r with Ok a => k a | Err e => (Err e, h) end.

Definition feed_server_hello h (msg body : list Z) : result Error (option Completed) * ClientHandshake :=
  or_keep h (parse_server_hello h body) (fun h =>
  let h := push_msg h msg in
  or_keep h (derive_handshake_secrets h) (fun h => (Ok None, h))).

Definition feed_flight h (msg_type : Z) (msg body : list Z) : result Error (option Completed) * ClientHandshake :=
  if negb (msg_type =? next h) then (Err out_of_order, h) else
  or_keep h
    (if msg_type =? hstype.ENCRYPTED_EXTENSIONS then
       p ← parse_encrypted_extensions body; Ok (set_next (set_server_params h p) hstype.CERTIFICATE)
     else if msg_type =? hstype.CERTIFICATE then
       c ← parse_certificate_list body; Ok (set_next (set_chain h c) hstype.CERTIFICATE_VERIFY)
     else
       verify_certificate_verify h body (transcript_hash h) ≫= fun _ => Ok (set_next h hstype.FINISHED))
    (fun h => (Ok None, push_msg h msg)).

Definition feed_finished h (msg body : list Z) : result Error (option Completed) * ClientHandshake :=
  if negb (next h =? hstype.FINISHED) then (Err out_of_order, h) else
  or_keep h (verify_server_finished h body (transcript_hash h)) (fun _ =>
  let h := push_msg h msg in
  or_keep h (derive_application_secrets h) (fun '(client_finished, h) =>
  let h := set_done h in
  match hs_suite h with
  | None => (Err (wire "TLS Finished without a negotiated cipher suite"), h)
  | Some s => (Ok (Some (mkCompleted client_finished s)), h)
  end)).

Definition feed h (msg : list Z) : result Error (option Completed) * ClientHandshake :=
  or_keep h (hs_header msg) (fun '(msg_type, body) =>
  if (msg_type =? hstype.SERVER_HELLO) && negb (saw_server_hello h) then feed_server_hello h msg body
  else if ((msg_type =? hstype.ENCRYPTED_EXTENSIONS) || (msg_type =? hstype.CERTIFICATE)
           || (msg_type =? hstype.CERTIFICATE_VERIFY)) && saw_server_hello h then feed_flight h msg_type msg body
  else if (msg_type =? hstype.FINISHED) && saw_server_hello h then feed_finished h msg body
  else (Err unexpected, h)).
End certificates.

(** ** What a completed handshake means *)

Section authenticated.
Context {TC : TlsCrypto}.
Implicit Types h : ClientHandshake.

(** Our own first message, a function of what the state never changes. *)
Definition own_hello h : list Z := fst (client_hello h).
Definition messages_hash (s : Z) (msgs : list (list Z)) : list Z := digest (new_digest s) (concat msgs).

(** RFC 8446, section 7.1. *)
Definition handshake_secret_of (s : Z) (shared : list Z) : list Z :=
  let zeros := replicate (Z.to_nat (hash_len s)) 0 in
  hkdf_extract (new_digest s) (derive_secret s (hkdf_extract (new_digest s) zeros zeros) "derived" (empty_hash s)) shared.
Definition master_secret_of (s : Z) (shared : list Z) : list Z :=
  hkdf_extract (new_digest s) (derive_secret s (handshake_secret_of s shared) "derived" (empty_hash s))
    (replicate (Z.to_nat (hash_len s)) 0).

(** A signature of the certificate's key, by scheme. *)
Inductive signature_valid (s : Z) (leaf : Cert) (content signature : list Z) : Z -> Prop :=
| sig_pss256 scheme key : scheme = sigscheme.RSA_PSS_PSS_SHA256 \/ scheme = sigscheme.RSA_PSS_RSAE_SHA256 ->
    parse_rsa_public_key (spki_key leaf) = Some key -> verify_pss key SHA256 content 32 signature = true ->
    signature_valid s leaf content signature scheme
| sig_pss384 scheme key : scheme = sigscheme.RSA_PSS_PSS_SHA384 \/ scheme = sigscheme.RSA_PSS_RSAE_SHA384 ->
    parse_rsa_public_key (spki_key leaf) = Some key -> verify_pss key SHA384 content 48 signature = true ->
    signature_valid s leaf content signature scheme
| sig_pkcs256 key : parse_rsa_public_key (spki_key leaf) = Some key ->
    verify_pkcs1v15 key SHA256 (digest SHA256 content) signature = true ->
    signature_valid s leaf content signature sigscheme.RSA_PKCS1_SHA256
| sig_pkcs384 key : parse_rsa_public_key (spki_key leaf) = Some key ->
    verify_pkcs1v15 key SHA384 (digest SHA384 content) signature = true ->
    signature_valid s leaf content signature sigscheme.RSA_PKCS1_SHA384
| sig_p256 qx qy : new_digest s = SHA256 -> leaf_ec_point leaf P256 = Ok (qx, qy) ->
    ecdsa_verify_der P256 qx qy (digest SHA256 content) signature = true ->
    signature_valid s leaf content signature sigscheme.ECDSA_SECP256R1_SHA256
| sig_p384 qx qy : new_digest s = SHA384 -> leaf_ec_point leaf P384 = Ok (qx, qy) ->
    ecdsa_verify_der P384 qx qy (digest SHA384 content) signature = true ->
    signature_valid s leaf content signature sigscheme.ECDSA_SECP384R1_SHA384
| sig_ed25519 : zlen (spki_key leaf) = 32 -> zlen signature = 64 -> ed25519_verify (spki_key leaf) content signature = true ->
    signature_valid s leaf content signature sigscheme.ED25519.

(** The chain leads to a trusted root, for this purpose and this host. *)
Definition trusted (c : ClientConfig) (chain_ : list (list Z)) (leaf : Cert) : Prop :=
  verify c = true ->
  validate_chain (roots c) chain_ (cfg_now c) = Ok tt /\ has_server_auth_eku leaf = true /\
  forall name, hostname c = Some name -> hostname_matches name leaf = true.

(** A CertificateVerify message over the messages [before] it. *)
Definition certified (c : ClientConfig) (s : Z) (chain_ : list (list Z)) (before : list (list Z)) (body : list Z) : Prop :=
  exists leaf_der leaf scheme signature,
    head chain_ = Some leaf_der /\ parse_certificate leaf_der = Ok leaf /\ trusted c chain_ leaf /\
    u16_at body 0 = Ok scheme /\ rest_at body 4 = Ok signature /\
    signature_valid s leaf (signed_content (messages_hash s before)) signature scheme.

Lemma new_digest_256 s : negb (s =? suite.AES_128_GCM_SHA256) && negb (s =? suite.CHACHA20_POLY1305_SHA256) = false -> new_digest s = SHA256.
Proof.
  intros H. apply andb_false_iff in H as [H|H]; apply negb_false_iff, Z.eqb_eq in H as ->; reflexivity.
Qed.

Lemma new_digest_384 s : negb (s =? suite.AES_256_GCM_SHA384) = false -> new_digest s = SHA384.
Proof. intros H. apply negb_false_iff, Z.eqb_eq in H as ->. reflexivity. Qed.

Lemma check_signature_sound s scheme leaf content signature :
  check_signature s scheme leaf content signature = Ok true -> signature_valid s leaf content signature scheme.
Proof.
  unfold check_signature, leaf_rsa_key. intros H.
  destruct (_ || _) eqn:E1 in H.
  { apply ok_or_bind in H as (key & K & [= V]). apply orb_true_iff in E1. eapply sig_pss256; [|done..].
    destruct E1 as [->%Z.eqb_eq| ->%Z.eqb_eq]; [by left|by right]. }
  destruct (_ || _) eqn:E2 in H.
  { apply ok_or_bind in H as (key & K & [= V]). apply orb_true_iff in E2. eapply sig_pss384; [|done..].
    destruct E2 as [->%Z.eqb_eq| ->%Z.eqb_eq]; [by left|by right]. }
  destruct (scheme =? sigscheme.RSA_PKCS1_SHA256) eqn:E3.
  { apply ok_or_bind in H as (key & K & [= V]). apply Z.eqb_eq in E3 as ->. by eapply sig_pkcs256. }
  destruct (scheme =? sigscheme.RSA_PKCS1_SHA384) eqn:E4.
  { apply ok_or_bind in H as (key & K & [= V]). apply Z.eqb_eq in E4 as ->. by eapply sig_pkcs384. }
  destruct (scheme =? sigscheme.ECDSA_SECP256R1_SHA256) eqn:E5.
  { apply Z.eqb_eq in E5 as ->. destruct (_ && _) eqn:S in H; [done|]. apply bind_Ok in H as ([qx qy] & P & [= V]).
    eapply sig_p256; [by apply new_digest_256|done..]. }
  destruct (scheme =? sigscheme.ECDSA_SECP384R1_SHA384) eqn:E6.
  { apply Z.eqb_eq in E6 as ->. destruct (negb _) eqn:S in H; [done|]. apply bind_Ok in H as ([qx qy] & P & [= V]).
    eapply sig_p384; [by apply new_digest_384|done..]. }
  destruct (scheme =? sigscheme.ED25519) eqn:E7; [|done]. apply Z.eqb_eq in E7 as ->.
  destruct (negb _) eqn:L1 in H; [done|]. destruct (negb _) eqn:L2 in H; [done|]. injection H as V.
  apply negb_false_iff, Z.eqb_eq in L1, L2. by apply sig_ed25519.
Qed.

Lemma validate_certificate_sound h leaf : validate_certificate h leaf = Ok tt -> trusted (cfg h) (chain h) leaf.
Proof.
  unfold validate_certificate, trusted. intros H V. rewrite V in H. cbn [negb] in H.
  apply map_err_bind in H as ([] & C & H). destruct (has_server_auth_eku leaf); [|done]. cbn [negb] in H.
  split; [done|]. split; [done|]. intros name N. rewrite N in H. by destruct (hostname_matches name leaf).
Qed.

Lemma verify_certificate_verify_sound h s body before :
  hs_suite h = Some s -> verify_certificate_verify h body (messages_hash s before) = Ok tt -> certified (cfg h) s (chain h) before body.
Proof.
  intros Hs H. unfold verify_certificate_verify in H. apply reject_bind in H as [_ H].
  apply bind_Ok in H as (scheme & Sc & H). apply bind_Ok in H as (len & _ & H). apply reject_bind in H as [_ H].
  apply bind_Ok in H as (sg & Sg & H). apply ok_or_bind in H as (der & D & H). apply map_err_bind in H as (leaf & L & H).
  apply bind_Ok in H as ([] & T & H). rewrite Hs in H. apply bind_Ok in H as (b & C & H). destruct b; [|done].
  exists der, leaf, scheme, sg. split; [done|]. split; [done|]. split; [by apply validate_certificate_sound|].
  split; [done|]. split; [done|]. by apply check_signature_sound.
Qed.

(** ** The states a handshake goes through *)

(** After the ServerHello: what was taken from it. *)
Record negotiated h (s : Z) (sh : list Z) : Prop := {
  ng_saw : saw_server_hello h = true;
  ng_suite : hs_suite h = Some s;
  ng_hello : exists body share, hs_header sh = Ok (hstype.SERVER_HELLO, body) /\ hello_choice body = Ok (s, share) /\
    shared h = x25519 (ecdhe_secret h) share;
  ng_shared : forallb (fun b => b =? 0) (shared h) = false;
  ng_secret : handshake_secret h = Some (handshake_secret_of s (shared h));
  ng_c_hs : c_hs h = Some (derive_secret s (handshake_secret_of s (shared h)) "c hs traffic" (messages_hash s [own_hello h; sh]));
  ng_s_hs : s_hs h = Some (derive_secret s (handshake_secret_of s (shared h)) "s hs traffic" (messages_hash s [own_hello h; sh])) }.

Definition is_extensions h (ee : list Z) : Prop :=
  exists body p, hs_header ee = Ok (hstype.ENCRYPTED_EXTENSIONS, body) /\ parse_encrypted_extensions body = Ok p /\ server_params h = Some p.
Definition is_certificate h (ct : list Z) : Prop :=
  exists body, hs_header ct = Ok (hstype.CERTIFICATE, body) /\ parse_certificate_list body = Ok (chain h).
Definition is_certificate_verify h (s : Z) (before : list (list Z)) (cv : list Z) : Prop :=
  exists body, hs_header cv = Ok (hstype.CERTIFICATE_VERIFY, body) /\ certified (cfg h) s (chain h) before body.
(** The server's key confirmation. *)
Definition is_finished h (s : Z) (sh : list Z) (before : list (list Z)) (fin : list Z) : Prop :=
  hs_header fin = Ok (hstype.FINISHED,
    finished_mac s (derive_secret s (handshake_secret_of s (shared h)) "s hs traffic" (messages_hash s [own_hello h; sh]))
      (messages_hash s before)).

(** The traffic secrets of a transcript. *)
Definition application_secrets h (s : Z) (msgs : list (list Z)) : Prop :=
  c_ap h = Some (derive_secret s (master_secret_of s (shared h)) "c ap traffic" (messages_hash s msgs)) /\
  s_ap h = Some (derive_secret s (master_secret_of s (shared h)) "s ap traffic" (messages_hash s msgs)).

Inductive flight h (s : Z) (sh : list Z) : list (list Z) -> Prop :=
| fl_hello : next h = hstype.ENCRYPTED_EXTENSIONS -> done_ h = false -> flight h s sh []
| fl_extensions ee : next h = hstype.CERTIFICATE -> done_ h = false -> is_extensions h ee -> flight h s sh [ee]
| fl_certificate ee ct : next h = hstype.CERTIFICATE_VERIFY -> done_ h = false -> is_extensions h ee -> is_certificate h ct ->
    flight h s sh [ee; ct]
| fl_verified ee ct cv : next h = hstype.FINISHED -> done_ h = false -> is_extensions h ee -> is_certificate h ct ->
    is_certificate_verify h s [own_hello h; sh; ee; ct] cv -> flight h s sh [ee; ct; cv]
| fl_finished ee ct cv fin rest : next h = hstype.FINISHED -> done_ h = true -> is_extensions h ee -> is_certificate h ct ->
    is_certificate_verify h s [own_hello h; sh; ee; ct] cv -> is_finished h s sh [own_hello h; sh; ee; ct; cv] fin ->
    application_secrets h s ([own_hello h; sh; ee; ct; cv; fin] ++ rest) ->
    flight h s sh ([ee; ct; cv; fin] ++ rest).

Inductive stage h : Prop :=
| st_start : saw_server_hello h = false -> hs_suite h = None -> next h = hstype.ENCRYPTED_EXTENSIONS -> done_ h = false ->
    transcript_msgs h = [own_hello h] -> stage h
| st_negotiated s sh rest : negotiated h s sh -> transcript_msgs h = own_hello h :: sh :: rest -> flight h s sh rest -> stage h.

Inductive hs_reachable : ClientHandshake -> Prop :=
| hs_start c random secret public : hs_reachable (snd (client_hello (handshake_new c random secret public)))
| hs_feed h msg : hs_reachable h -> hs_reachable (snd (feed h msg)).

Lemma transcript_hash_suite h s : hs_suite h = Some s -> transcript_hash h = messages_hash s (transcript_msgs h).
Proof. unfold transcript_hash. by intros ->. Qed.

Lemma feed_server_hello_stage h msg body : saw_server_hello h = false -> stage h -> hs_header msg = Ok (hstype.SERVER_HELLO, body) ->
  stage (snd (feed_server_hello h msg body)) /\
  (forall e, fst (feed_server_hello h msg body) = Err e -> snd (feed_server_hello h msg body) = h).
Proof.
  intros Hsaw St Hm. destruct St as [_ Su Ne Dn Tr|s sh rest [Saw _ _ _ _ _ _] _ _]; [|congruence].
  unfold feed_server_hello, parse_server_hello.
  destruct (hello_choice body) as [[s share]|e] eqn:C; cbn [mbind result_bind]; [|by split; [apply st_start|]].
  destruct (forallb _ _) eqn:Z0; cbn [reject_if mbind result_bind or_keep]; [by split; [apply st_start|]|].
  split; [|done]. cbn [snd]. eapply (st_negotiated _ s msg []).
  - constructor; cbn; [done|done| |done|done| |].
    + exists body, share. done.
    + unfold transcript_hash, messages_hash. cbn. by rewrite Tr.
    + unfold transcript_hash, messages_hash. cbn. by rewrite Tr.
  - cbn. by rewrite Tr.
  - by apply fl_hello.
Qed.

Lemma negotiated_same h h' s sh : negotiated h s sh ->
  cfg h' = cfg h -> random h' = random h -> ecdhe_secret h' = ecdhe_secret h -> ecdhe_public h' = ecdhe_public h ->
  saw_server_hello h' = saw_server_hello h -> hs_suite h' = hs_suite h -> shared h' = shared h ->
  handshake_secret h' = handshake_secret h -> c_hs h' = c_hs h -> s_hs h' = s_hs h -> negotiated h' s sh.
Proof.
  intros [H1 H2 (body & share & H3) H4 H5 H6 H7] E1 E2 E3 E4 E5 E6 E7 E8 E9 E10.
  assert (own_hello h' = own_hello h) as Ho.
  { unfold own_hello, client_hello, hello_body, hello_extensions. cbn [fst]. by rewrite E1, E2, E4. }
  constructor; rewrite ?E5, ?E6, ?E7, ?E8, ?E9, ?E10, ?Ho; try done. exists body, share. by rewrite E3.
Qed.

Lemma or_keep_cases h r k :
  (exists h', r = Ok h' /\ or_keep h r k = k h') \/ (exists e : Error, r = Err e /\ or_keep (A := ClientHandshake) h r k = (Err e, h)).
Proof. destruct r; [left|right]; eauto. Qed.

Lemma feed_flight_stage h msg t body : saw_server_hello h = true -> stage h -> hs_header msg = Ok (t, body) ->
  t = hstype.ENCRYPTED_EXTENSIONS \/ t = hstype.CERTIFICATE \/ t = hstype.CERTIFICATE_VERIFY ->
  stage (snd (feed_flight h t msg body)) /\ (forall e, fst (feed_flight h t msg body) = Err e -> snd (feed_flight h t msg body) = h).
Proof.
  intros Hsaw St Hm Ht. assert (stage h) as St0 by done. destruct St as [Sa _ _ _ _|s sh rest N Tr Fl]; [congruence|].
  unfold feed_flight. destruct (t =? next h) eqn:E; cbn [negb]; [|done]. apply Z.eqb_eq in E. subst t.
  match goal with |- context [or_keep h ?r ?k] => destruct (or_keep_cases h r k) as [(h' & R & ->)|(e & _ & ->)]; [|done] end.
  split; [|done]. cbn [snd].
  destruct Fl as [Ne Dn|ee Ne Dn X|ee ct Ne Dn X C|ee ct cv Ne _ _ _ _|ee ct cv fin rest Ne _ _ _ _ _ _];
    rewrite Ne in *; cbn [Z.eqb hstype.ENCRYPTED_EXTENSIONS hstype.CERTIFICATE hstype.CERTIFICATE_VERIFY Pos.eqb] in R.
  - apply bind_Ok in R as (p & P & [= <-]). eapply (st_negotiated _ s sh [msg]).
    + by apply (negotiated_same h).
    + cbn. by rewrite Tr.
    + apply fl_extensions; [done..|]. exists body, p. done.
  - apply bind_Ok in R as (c & P & [= <-]). eapply (st_negotiated _ s sh [ee; msg]).
    + by apply (negotiated_same h).
    + cbn. by rewrite Tr.
    + apply fl_certificate; [done..|]. by exists body.
  - apply bind_Ok in R as ([] & P & [= <-]). eapply (st_negotiated _ s sh [ee; ct; msg]).
    + by apply (negotiated_same h).
    + cbn. by rewrite Tr.
    + apply fl_verified; [done..|]. exists body. split; [done|].
      rewrite (transcript_hash_suite h s), Tr in P by apply N. by eapply verify_certificate_verify_sound; [apply N|].
  - by destruct Ht as [?|[?|?]].
  - by destruct Ht as [?|[?|?]].
Qed.

Lemma verify_server_finished_sound h s sh body hash : negotiated h s sh -> verify_server_finished h body hash = Ok tt ->
  body = finished_mac s (derive_secret s (handshake_secret_of s (shared h)) "s hs traffic" (messages_hash s [own_hello h; sh])) hash.
Proof.
  intros N H. unfold verify_server_finished in H. rewrite (ng_suite _ _ _ N), (ng_s_hs _ _ _ N) in H.
  apply reject_bind in H as [_ H]. cbn [ok_or mbind result_bind] in H. destruct (bool_decide _) eqn:B; [|done].
  apply bool_decide_eq_true in B. done.
Qed.

Lemma derive_application_spec h s sh msg rest : negotiated h s sh -> transcript_msgs h = own_hello h :: sh :: rest ->
  exists fin h', derive_application_secrets (push_msg h msg) = Ok (fin, h') /\
    fin = hs_message hstype.FINISHED (finished_mac s
            (derive_secret s (handshake_secret_of s (shared h)) "c hs traffic" (messages_hash s [own_hello h; sh]))
            (messages_hash s (own_hello h :: sh :: rest ++ [msg]))) /\
    transcript_msgs h' = own_hello h :: sh :: rest ++ [msg] /\ negotiated h' s sh /\ next h' = next h /\ chain h' = chain h /\
    server_params h' = server_params h /\ cfg h' = cfg h /\ own_hello h' = own_hello h /\ shared h' = shared h /\
    application_secrets h' s (own_hello h :: sh :: rest ++ [msg]).
Proof.
  intros N Tr. unfold derive_application_secrets. cbn [push_msg hs_suite handshake_secret c_hs].
  rewrite (ng_suite _ _ _ N), (ng_secret _ _ _ N), (ng_c_hs _ _ _ N). cbn [ok_or mbind result_bind].
  rewrite (transcript_hash_suite (push_msg h msg) s) by apply N. cbn [push_msg transcript_msgs]. rewrite Tr.
  eexists _, _. split; [done|]. split; [done|]. split; [cbn; by rewrite Tr|].
  split; [by apply (negotiated_same h)|]. do 6 (split; [done|]). split; [done|]. done.
Qed.

Lemma facts_same h h' s before ee ct cv : server_params h' = server_params h -> chain h' = chain h -> cfg h' = cfg h ->
  is_extensions h ee -> is_certificate h ct -> is_certificate_verify h s before cv ->
  is_extensions h' ee /\ is_certificate h' ct /\ is_certificate_verify h' s before cv.
Proof. unfold is_extensions, is_certificate, is_certificate_verify. by intros -> -> ->. Qed.

Lemma feed_finished_stage h msg body : stage h -> saw_server_hello h = true -> hs_header msg = Ok (hstype.FINISHED, body) ->
  stage (snd (feed_finished h msg body)) /\ (forall e, fst (feed_finished h msg body) = Err e -> snd (feed_finished h msg body) = h).
Proof.
  intros St Hsaw Hm. assert (stage h) as St0 by done. destruct St as [Sa _ _ _ _|s sh rest N Tr Fl]; [congruence|].
  unfold feed_finished. destruct (next h =? hstype.FINISHED) eqn:E; cbn [negb]; [|done]. apply Z.eqb_eq in E.
  destruct (verify_server_finished h body (transcript_hash h)) as [[]|e] eqn:V; cbn [or_keep]; [|done].
  rewrite (transcript_hash_suite h s), Tr in V by apply N. apply (verify_server_finished_sound h s sh) in V; [|done].
  destruct (derive_application_spec h s sh msg rest N Tr) as (fin & h' & -> & _ & Tr' & N' & Ne & Ch & Sp & Cf & Oh & Sd & Ap).
  cbn [or_keep]. cbn [set_done hs_suite]. rewrite (ng_suite _ _ _ N'). split; [|done]. cbn [snd].
  assert (negotiated (set_done h') s sh) as N2 by (by apply (negotiated_same h')).
  eapply (st_negotiated _ s sh (rest ++ [msg])); [done|cbn [set_done transcript_msgs]; by rewrite Tr', <- Oh|].
  assert (next (set_done h') = hstype.FINISHED) as Ne' by (cbn; congruence).
  assert (own_hello (set_done h') = own_hello h) as Oh' by exact Oh.
  assert (application_secrets (set_done h') s (own_hello h :: sh :: rest ++ [msg])) as Ap' by exact Ap.
  destruct Fl as [Nx _|ee Nx _ _|ee ct Nx _ _ _|ee ct cv Nx _ X C K|ee ct cv f0 rest Nx _ X C K F A]; cbn [app];
    try (rewrite Nx in E; discriminate E).
  - destruct (facts_same h (set_done h') s _ ee ct cv Sp Ch Cf X C K) as (X' & C' & K').
    apply (fl_finished _ s sh ee ct cv msg []); rewrite ?Oh'; try done. unfold is_finished. cbn [set_done shared].
    rewrite Oh', Sd, Hm. by subst body.
  - destruct (facts_same h (set_done h') s _ ee ct cv Sp Ch Cf X C K) as (X' & C' & K').
    apply (fl_finished _ s sh ee ct cv f0 (rest ++ [msg])); rewrite ?Oh'; try done. unfold is_finished in *. cbn [set_done shared].
    by rewrite Oh', Sd.
Qed.

Lemma feed_stage h msg : stage h -> stage (snd (feed h msg)) /\ (forall e, fst (feed h msg) = Err e -> snd (feed h msg) = h).
Proof.
  intros St. unfold feed. destruct (hs_header msg) as [[t body]|e] eqn:Hm; cbn [or_keep]; [|done].
  destruct (saw_server_hello h) eqn:Saw; rewrite ?andb_true_r, ?andb_false_r.
  - destruct ((t =? hstype.ENCRYPTED_EXTENSIONS) || _ || _) eqn:T.
    + apply feed_flight_stage; [done..|]. rewrite !orb_true_iff, !Z.eqb_eq in T. tauto.
    + destruct (t =? hstype.FINISHED) eqn:F; [|done]. apply Z.eqb_eq in F as ->. by apply feed_finished_stage.
  - cbn [negb]. rewrite ?andb_true_r, ?andb_false_r. destruct (t =? hstype.SERVER_HELLO) eqn:T; [|done].
    apply Z.eqb_eq in T as ->. by apply feed_server_hello_stage.
Qed.

Lemma reachable_stage h : hs_reachable h -> stage h.
Proof. induction 1 as [|h msg _ IH]; [by apply st_start|]. by apply feed_stage. Qed.

(** What done means: the six messages, the two signatures over them, the secrets. *)
Definition authenticated h : Prop :=
  exists s sh ee ct cv fin rest,
    transcript_msgs h = [own_hello h; sh; ee; ct; cv; fin] ++ rest /\
    negotiated h s sh /\ is_extensions h ee /\ is_certificate h ct /\
    is_certificate_verify h s [own_hello h; sh; ee; ct] cv /\
    is_finished h s sh [own_hello h; sh; ee; ct; cv] fin /\
    application_secrets h s (transcript_msgs h).

Lemma stage_done h : stage h -> done_ h = true -> authenticated h /\ next h = hstype.FINISHED /\ saw_server_hello h = true.
Proof.
  intros St D. destruct St as [_ _ _ Dn _|s sh rest N Tr Fl]; [congruence|].
  destruct Fl as [_ Dn|ee _ Dn _|ee ct _ Dn _ _|ee ct cv _ Dn _ _ _|ee ct cv fin rest Nx Dn X C K F A]; try congruence.
  split; [|split; [done|apply N]]. exists s, sh, ee, ct, cv, fin, rest. rewrite Tr. done.
Qed.

(** C4: whatever messages a peer feeds it, a handshake is done only after exactly the
    ServerHello, EncryptedExtensions, Certificate, CertificateVerify and Finished messages in
    that order after our own ClientHello; the certificate's key signed the transcript up to the
    certificate, with a chain to a trusted root for the host when verification is on, the
    Finished message is the key confirmation of the transcript before it, and the traffic
    secrets are those of the key schedule over the whole transcript. *)
Theorem handshake_authenticated h : hs_reachable h -> done_ h = true ->
  exists s sh ee ct cv fin rest,
    transcript_msgs h = [own_hello h; sh; ee; ct; cv; fin] ++ rest /\
    negotiated h s sh /\ is_extensions h ee /\ is_certificate h ct /\
    is_certificate_verify h s [own_hello h; sh; ee; ct] cv /\
    is_finished h s sh [own_hello h; sh; ee; ct; cv] fin /\
    application_secrets h s (transcript_msgs h).
Proof. intros R D. by destruct (stage_done h (reachable_stage h R) D). Qed.

Lemma or_keep_cfg {A} h (r : result Error A) k : (forall a, r = Ok a -> cfg (snd (k a)) = cfg h) -> cfg (snd (or_keep h r k)) = cfg h.
Proof. intros H. destruct r; [by apply H|done]. Qed.

(** The configuration is never touched. *)
Lemma feed_cfg h msg : cfg (snd (feed h msg)) = cfg h.
Proof.
  unfold feed. apply or_keep_cfg. intros [t body] _. destruct (_ && _); [|destruct (_ && _); [|destruct (_ && _); [|done]]].
  - unfold feed_server_hello. apply or_keep_cfg. intros h' P. unfold parse_server_hello in P.
    apply bind_Ok in P as ([s share] & _ & P). apply reject_bind in P as [_ [= <-]].
    set (h1 := push_msg _ msg). change (cfg h) with (cfg h1). apply or_keep_cfg. intros h2 D. unfold derive_handshake_secrets in D.
    destruct (hs_suite h1); [|done]. by injection D as <-.
  - unfold feed_flight. destruct (negb _); [done|]. apply or_keep_cfg. intros h' P.
    destruct (t =? _); [by apply bind_Ok in P as (p & _ & [= <-])|]. destruct (t =? _); [by apply bind_Ok in P as (p & _ & [= <-])|].
    by apply bind_Ok in P as (p & _ & [= <-]).
  - unfold feed_finished. destruct (negb _); [done|]. apply or_keep_cfg. intros [] _.
    change (cfg h) with (cfg (push_msg h msg)). apply or_keep_cfg. intros [fin h'] D. unfold derive_application_secrets in D.
    destruct (hs_suite (push_msg h msg)); [|done]. apply bind_Ok in D as (hs & _ & D). apply bind_Ok in D as (c & _ & [= _ <-]).
    by destruct (hs_suite _).
Qed.

(** Completion is reported when the handshake is done, with its suite. *)
Lemma feed_completed h msg c : fst (feed h msg) = Ok (Some c) -> done_ (snd (feed h msg)) = true /\ hs_suite (snd (feed h msg)) = Some (cp_suite c).
Proof.
  unfold feed. destruct (hs_header msg) as [[t body]|e]; cbn [or_keep]; [|done].
  destruct (_ && _); [|destruct (_ && _); [|destruct (_ && _); [|done]]].
  - unfold feed_server_hello. destruct (parse_server_hello h body); cbn [or_keep]; [|done]. by destruct (derive_handshake_secrets _).
  - unfold feed_flight. destruct (negb _); [done|].
    match goal with |- context [or_keep h ?r ?k] => destruct (or_keep_cases h r k) as [(h' & R & ->)|(e & _ & ->)] end; done.
  - unfold feed_finished. destruct (negb _); [done|]. destruct (verify_server_finished _ _ _); cbn [or_keep]; [|done].
    destruct (derive_application_secrets _) as [[fin h']|]; cbn [or_keep]; [|done]. destruct (hs_suite (set_done h')) eqn:S; [|done].
    cbn [fst snd]. intros [= <-]. split; [done|]. exact S.
Qed.

(** A handshake that is done takes nothing but another Finished message. *)
Lemma feed_when_done h msg : stage h -> done_ h = true -> fst (feed h msg) = Ok None -> False.
Proof.
  intros St D. destruct (stage_done h St D) as (_ & Nx & Saw). unfold feed. destruct (hs_header msg) as [[t body]|e]; cbn [or_keep]; [|done].
  rewrite Saw, Nx || rewrite Saw. cbn [negb]. rewrite andb_false_r, !andb_true_r. destruct (_ || _) eqn:T.
  - unfold feed_flight. rewrite Nx. destruct (t =? hstype.FINISHED) eqn:F; [|done]. apply Z.eqb_eq in F as ->. done.
  - destruct (t =? hstype.FINISHED); [|done]. unfold feed_finished. destruct (negb _); [done|].
    destruct (verify_server_finished _ _ _); cbn [or_keep]; [|done].
    destruct (derive_application_secrets _) as [[fin h']|]; cbn [or_keep]; [|done]. by destruct (hs_suite (set_done h')).
Qed.

(** a message that is refused, for whatever reason, leaves the handshake as it was. *)
Theorem feed_refused h msg e : hs_reachable h -> fst (feed h msg) = Err e -> snd (feed h msg) = h.
Proof. intros R. apply feed_stage. by apply reachable_stage. Qed.
End authenticated.

(** ** Transport parameters read back *)

(** What QUIC promises of variable-length integers (RFC 9000, section 16). *)
Class VarintLaws {TC : TlsCrypto} := {
  varint_read : forall v rest, 0 <= v < 2 ^ 62 -> varint_decode (varint_encode v ++ rest) = Some (v, zlen (varint_encode v));
  varint_used : forall bs v used, varint_decode bs = Some (v, used) -> 1 <= used <= zlen bs /\ 0 <= v }.

Section params_round_trip.
Context {TC : TlsCrypto} {VL : VarintLaws}.

Definition put_all (l : list (Z * list Z)) : list Z := concat (map (fun p => put_param p.1 p.2) l).

Fixpoint store_all (out : ServerTransportParams) (l : list (Z * list Z)) : result Error ServerTransportParams :=
  match l with
  | [] => Ok out
  | (id, value) :: l => out ← store_param out id value; store_all out l
  end.

Definition param_ok (p : Z * list Z) : Prop := 0 <= p.1 < 2 ^ 62 /\ zlen p.2 < 2 ^ 62.

Lemma varint_pos v : 0 <= v < 2 ^ 62 -> 1 <= zlen (varint_encode v).
Proof.
  intros H. pose proof (varint_read v [] H) as R. apply varint_used in R. lia.
Qed.

Lemma rest_at_split (a b : list Z) : rest_at (a ++ b) (zlen a) = Ok b.
Proof.
  unfold rest_at, get_from. replace (get_range (a ++ b) (zlen a) (zlen (a ++ b))) with (Some b); [done|].
  symmetry. apply get_range_split. exists a, []. rewrite app_nil_r, zlen_app. done.
Qed.

Lemma params_loop_reads l pre out fuel : Forall param_ok l -> (length l < fuel)%nat -> zlen (pre ++ put_all l) <= usize_max ->
  params_loop fuel (pre ++ put_all l) (zlen pre) out = store_all out l.
Proof.
  revert pre out fuel. induction l as [|[id value] l IH]; intros pre out fuel Hl Hf Hz; (destruct fuel as [|fuel]; [cbn in Hf; lia|]); cbn [params_loop].
  { unfold put_all. cbn [map concat]. rewrite app_nil_r. rewrite (proj2 (Z.leb_le _ _)) by lia. done. }
  inversion Hl as [|? ? [Hid Hv] Hl']; subst. cbn [fst snd] in *. set (bs := pre ++ put_all ((id, value) :: l)) in *.
  pose proof (varint_pos id Hid) as P1. pose proof (varint_pos (zlen value) (conj (zlen_nonneg _) Hv)) as P2.
  assert (bs = pre ++ varint_encode id ++ varint_encode (zlen value) ++ value ++ put_all l) as E.
  { unfold bs, put_all. cbn [map concat]. unfold put_param. cbn [fst snd]. by rewrite <- !app_assoc. }
  clearbody bs. subst bs. pose proof (zlen_nonneg value) as P3. pose proof (zlen_nonneg (put_all l)) as P4. pose proof (zlen_nonneg pre) as P5.
  rewrite !zlen_app in *. rewrite (proj2 (Z.leb_gt _ _)) by lia.
  rewrite rest_at_split. cbn [mbind result_bind]. rewrite varint_read by done. cbn [ok_or mbind result_bind].
  rewrite <- zlen_app, (app_assoc pre (varint_encode id)), rest_at_split. cbn [mbind result_bind].
  rewrite varint_read by (by split). cbn [ok_or mbind result_bind].
  rewrite <- zlen_app, (app_assoc (pre ++ varint_encode id)).
  replace (slice_at _ _ (zlen value)) with (Ok (E := Error) value).
  2: { symmetry. apply slice_at_Ok. split; [by apply get_range_middle|]. rewrite !zlen_app. lia. }
  cbn [map_err mbind result_bind store_all]. destruct (store_param out id value) as [out'|e]; [|done]. cbn [mbind result_bind].
  rewrite <- zlen_app, (app_assoc _ value). apply IH; [done|cbn in Hf; lia|]. rewrite !zlen_app. lia.
Qed.

(** The parameters of a client, in the order it writes them. *)
Definition param_list (p : TransportParams) : list (Z * list Z) :=
  (if 0 <? tp_max_idle_timeout_ms p then [(0x01, varint_encode (tp_max_idle_timeout_ms p))] else []) ++
  [(0x03, varint_encode (tp_max_udp_payload_size p)); (0x04, varint_encode (tp_initial_max_data p));
   (0x05, varint_encode (tp_initial_max_stream_data_bidi_local p)); (0x06, varint_encode (tp_initial_max_stream_data_bidi_remote p));
   (0x07, varint_encode (tp_initial_max_stream_data_uni p)); (0x08, varint_encode (tp_initial_max_streams_bidi p));
   (0x09, varint_encode (tp_initial_max_streams_uni p)); (0x0e, varint_encode (tp_active_connection_id_limit p));
   (0x0f, tp_initial_source_connection_id p)] ++
  match tp_retry_source_connection_id p with Some scid => [(0x10, scid)] | None => [] end.

Lemma params_encode_list p : params_encode p = put_all (param_list p).
Proof.
  unfold params_encode, put_all, param_list. rewrite !map_app, !concat_app. f_equal; [by destruct (0 <? _); cbn; rewrite ?app_nil_r|].
  cbn [map concat fst snd]. rewrite <- !app_assoc. repeat f_equal. destruct (tp_retry_source_connection_id p); cbn; [by rewrite app_nil_r|done].
Qed.

Lemma put_all_length l : Forall param_ok l -> Z.of_nat (length l) <= zlen (put_all l).
Proof.
  induction 1 as [|[id v] l [H1 H2] _ IH]; [done|]. unfold put_all in *. cbn [map concat fst snd length] in *. unfold put_param at 1.
  rewrite !zlen_app. pose proof (varint_pos id H1). pose proof (zlen_nonneg (varint_encode (zlen v))). pose proof (zlen_nonneg v). lia.
Qed.

Lemma decode_params_list l : Forall param_ok l -> zlen (put_all l) <= usize_max ->
  decode_server_transport_params (put_all l) = store_all default_server_params l.
Proof.
  intros Hl Hz. unfold decode_server_transport_params. apply (params_loop_reads l []); [done| |done].
  pose proof (put_all_length l Hl). unfold zlen in *. lia.
Qed.

(** The values fit a variable-length integer. *)
Definition tp_ok (p : TransportParams) : Prop :=
  Forall (fun v => 0 <= v < 2 ^ 62) [tp_max_idle_timeout_ms p; tp_max_udp_payload_size p; tp_initial_max_data p;
    tp_initial_max_stream_data_bidi_local p; tp_initial_max_stream_data_bidi_remote p; tp_initial_max_stream_data_uni p;
    tp_initial_max_streams_bidi p; tp_initial_max_streams_uni p; tp_active_connection_id_limit p] /\
  zlen (params_encode p) < 2 ^ 62.

Lemma decode_param_read v : 0 <= v < 2 ^ 62 -> decode_param_u64 (varint_encode v) = Ok v.
Proof.
  intros H. unfold decode_param_u64. pose proof (varint_read v [] H) as R. rewrite app_nil_r in R. rewrite R. cbn [ok_or mbind result_bind].
  by rewrite Z.eqb_refl.
Qed.
Lemma store_all_app out l1 l2 : store_all out (l1 ++ l2) = (out ← store_all out l1; store_all out l2).
Proof. revert out. induction l1 as [|[id v] l1 IH]; intros out; [done|]. cbn [app store_all]. destruct (store_param out id v); [apply IH|done]. Qed.

Lemma param_list_ok p : tp_ok p -> Forall param_ok (param_list p).
Proof.
  intros [H Hz]. assert (forall id v, 0 <= id < 2 ^ 62 -> In (id, v) (param_list p) -> zlen v < 2 ^ 62) as B.
  { intros id v _ I. rewrite params_encode_list in Hz. enough (zlen v <= zlen (put_all (param_list p))) by lia. clear -I.
    induction (param_list p) as [|[i w] l IH]; [done|]. unfold put_all in *. cbn [map concat fst snd]. unfold put_param at 1. rewrite !zlen_app.
    pose proof (zlen_nonneg (varint_encode i)). pose proof (zlen_nonneg (varint_encode (zlen w))).
    pose proof (zlen_nonneg (concat (map (fun q : Z * list Z => put_param q.1 q.2) l))). pose proof (zlen_nonneg w).
    destruct I as [[= -> ->]|I]; [lia|]. specialize (IH I). lia. }
  assert (Forall (fun q => 0 <= q.1 < 2 ^ 62) (param_list p)) as I.
  { unfold param_list. destruct (0 <? _), (tp_retry_source_connection_id p); repeat (constructor; [cbn; lia|]); constructor. }
  apply List.Forall_forall. intros [id v] Hin. rewrite List.Forall_forall in I. specialize (I _ Hin). split; [done|]. by apply (B id).
Qed.

(** the parameters a client writes are read back by the decoder, whatever identifiers are
    in between: the limits it knows have the values written, the connection identifiers are
    those written, and nothing is taken from the parameters it does not know. *)
Theorem transport_params_round_trip p : tp_ok p -> zlen (params_encode p) <= usize_max ->
  decode_server_transport_params (params_encode p) =
    Ok (mkSTP (tp_initial_max_data p) (tp_initial_max_stream_data_bidi_local p) (tp_initial_max_streams_bidi p)
          (tp_initial_max_streams_uni p) None (Some (tp_initial_source_connection_id p)) (tp_retry_source_connection_id p)).
Proof.
  intros Hp Hz. rewrite params_encode_list in *. rewrite decode_params_list by (done || by apply param_list_ok).
  unfold param_list. rewrite store_all_app.
  replace (store_all default_server_params (if 0 <? tp_max_idle_timeout_ms p then _ else _)) with (Ok (E := Error) default_server_params)
    by (by destruct (0 <? _)).
  cbn [mbind result_bind]. destruct Hp as [Hp _]. repeat (apply Forall_cons_1 in Hp as [? Hp]).
  cbn [app store_all store_param default_server_params Z.eqb Pos.eqb mbind result_bind].
  rewrite decode_param_read by done. cbn [mbind result_bind Z.eqb Pos.eqb store_param].
  rewrite decode_param_read by done. cbn [mbind result_bind Z.eqb Pos.eqb store_param].
  rewrite decode_param_read by done. cbn [mbind result_bind Z.eqb Pos.eqb store_param].
  rewrite decode_param_read by done. cbn [mbind result_bind Z.eqb Pos.eqb store_param].
  by destruct (tp_retry_source_connection_id p).
Qed.
End params_round_trip.

(** ** Every message is decided: the loops never run out of fuel *)

Definition decided {A} (r : result Error A) : Prop := r <> Err out_of_fuel.
Create HintDb decided.

Lemma decided_ok {A} (a : A) : decided (Ok a).
Proof. done. Qed.
Lemma decided_wire {A} m : decided (Err (wire m) : result Error A).
Proof. done. Qed.
Lemma decided_dnssec {A} m : decided (Err (dnssec_error m) : result Error A).
Proof. done. Qed.
Lemma decided_bind {A B} (r : result Error A) (f : A -> result Error B) : decided r -> (forall a, r = Ok a -> decided (f a)) -> decided (r ≫= f).
Proof. intros H F. destruct r as [a|e]; cbn; [by apply F|]. intros [= ->]. by apply H. Qed.
Lemma decided_reject c m : decided (reject_if c (wire m)).
Proof. by destruct c. Qed.
Lemma decided_map {E A} (r : result E A) m : decided (map_err (fun _ => wire m) r).
Proof. by destruct r. Qed.
Lemma decided_map_dnssec {E A} (r : result E A) m : decided (map_err (fun e => dnssec_error (m e)) r).
Proof. by destruct r. Qed.
Lemma decided_ok_or {A} (o : option A) m : decided (ok_or o (wire m)).
Proof. by destruct o. Qed.
Lemma decided_ok_or_dnssec {A} (o : option A) m : decided (ok_or o (dnssec_error m)).
Proof. by destruct o. Qed.
Lemma decided_slice b i n : decided (slice_at b i n).
Proof. unfold slice_at. apply decided_bind; [apply decided_ok_or|]. intros; apply decided_ok_or. Qed.
Lemma decided_byte b i : decided (byte_at b i).
Proof. apply decided_ok_or. Qed.
Lemma decided_rest b i : decided (rest_at b i).
Proof. apply decided_ok_or. Qed.
Lemma decided_array n b i : decided (array_at n b i).
Proof. unfold array_at. apply decided_bind; [apply decided_slice|]. intros a _. by destruct (_ =? _). Qed.
Lemma decided_u16 b i : decided (u16_at b i).
Proof. unfold u16_at. apply decided_bind; [apply decided_array|done]. Qed.
#[export] Hint Resolve decided_ok decided_wire decided_dnssec decided_reject decided_map decided_map_dnssec decided_ok_or
  decided_ok_or_dnssec decided_slice decided_byte decided_rest decided_array decided_u16 : decided.

(** Sequences of reads and guards. *)
Ltac decides :=
  repeat match goal with
  | |- decided (_ ≫= _) => apply decided_bind; [auto with decided|intros ? ?]
  | |- decided (if ?c then _ else _) => destruct c eqn:?
  | |- decided (let '(_, _) := ?p in _) => destruct p
  | |- decided (match ?o with _ => _ end) => destruct o eqn:?
  end; auto with decided.

Section decided_handshake.
Context {TC : TlsCrypto} {VL : VarintLaws}.

(** A loop over a buffer that moves on at every round. *)
Definition rounds (fuel : nat) (end_ pos : Z) : Prop := Z.of_nat fuel >= end_ - pos.

Lemma u16_at_nonneg b i v : bytes b -> u16_at b i = Ok v -> 0 <= v.
Proof. intros Hb H. apply u16_at_bound in H; [|done]. unfold is_u16 in H. lia. Qed.

Lemma decided_hello_loop fuel body ep end_ share saw : bytes body -> rounds fuel end_ ep -> end_ >= 0 -> ep >= 0 ->
  decided (hello_loop (S fuel) body ep end_ share saw).
Proof.
  intros Hb. revert ep share saw. induction fuel as [|fuel IH]; intros ep share saw R He Hp; cbn [hello_loop];
    (destruct (end_ <? ep + 4) eqn:E; [done|]); unfold rounds in R; bools; [lia|].
  apply decided_bind; [auto with decided|intros etype _]. apply decided_bind; [auto with decided|intros elen Hl].
  apply decided_bind; [auto with decided|intros ev _]. apply u16_at_nonneg in Hl; [|done]. apply IH; unfold rounds; lia.
Qed.
Lemma decided_params_loop fuel bs pos out : rounds fuel (zlen bs) pos -> 0 <= pos -> decided (params_loop (S fuel) bs pos out).
Proof.
  revert pos out. induction fuel as [|fuel IH]; intros pos out R Hp; cbn [params_loop];
    (destruct (zlen bs <=? pos) eqn:E; [done|]); unfold rounds in R; bools; [lia|].
  apply decided_bind; [auto with decided|intros rest _].
  apply decided_bind; [auto with decided|intros [id u1] V1%ok_or_Ok%varint_used]. apply decided_bind; [auto with decided|intros rest2 _].
  apply decided_bind; [auto with decided|intros [len u2] V2%ok_or_Ok%varint_used].
  apply decided_bind; [auto with decided|intros value _]. apply decided_bind.
  - unfold store_param. destruct out. unfold decode_param_u64. decides.
  - intros out' _. apply IH; unfold rounds; lia.
Qed.

Lemma decided_extensions_loop fuel body pos end_ params : bytes body -> rounds fuel end_ pos -> 0 <= pos ->
  decided (extensions_loop (S fuel) body pos end_ params).
Proof.
  intros Hb. revert pos params. induction fuel as [|fuel IH]; intros pos params R Hp; cbn [extensions_loop];
    (destruct (end_ <? pos + 4) eqn:E; [done|]); unfold rounds in R; bools; [lia|].
  apply decided_bind; [auto with decided|intros etype _]. apply decided_bind; [auto with decided|intros elen Hl].
  apply decided_bind; [auto with decided|intros ext _]. apply u16_at_nonneg in Hl; [|done]. apply decided_bind.
  - destruct (etype =? _); [|done]. apply decided_bind; [|done]. apply decided_params_loop; [|lia]. unfold rounds, zlen. lia.
  - intros p _. apply IH; unfold rounds; lia.
Qed.

Lemma u24_at_nonneg b i v : bytes b -> u24_at b i = Ok v -> 0 <= v.
Proof.
  intros Hb (s & [Hs _]%array_at_Ok & H)%bind_Ok. pose proof (get_range_Forall _ _ _ _ _ Hb Hs) as F.
  destruct s as [|b0 [|b1 [|b2 [|? ?]]]]; try done. injection H as <-. repeat (apply Forall_cons_1 in F as [? F]). unfold is_byte in *.
  rewrite !Z.lor_nonneg, !Z.shiftl_nonneg. lia.
Qed.

Lemma decided_certificates_loop fuel l pos ch : bytes l -> rounds fuel (zlen l) pos -> 0 <= pos -> decided (certificates_loop (S fuel) l pos ch).
Proof.
  intros Hb. revert pos ch. induction fuel as [|fuel IH]; intros pos ch R Hp; cbn [certificates_loop];
    (destruct (zlen l <=? pos) eqn:E; [done|]); unfold rounds in R; bools; [lia|].
  apply decided_bind; [auto with decided|intros n Hn]. apply decided_bind; [auto with decided|intros c _].
  apply decided_bind; [auto with decided|intros x Hx]. apply decided_bind; [auto with decided|intros y _].
  assert (forall {A} (r : result Error A) m a, map_err (fun _ => wire m) r = Ok a -> r = Ok a) as M by (by intros A [|]).
  apply M, u24_at_nonneg in Hn; [|done]. apply M, u16_at_nonneg in Hx; [|done]. apply IH; unfold rounds; lia.
Qed.

Lemma bytes_slice b i n s : bytes b -> slice_at b i n = Ok s -> bytes s.
Proof. intros H [S _]%slice_at_Ok. by eapply get_range_Forall. Qed.

Lemma decided_certificate_list body : bytes body -> decided (parse_certificate_list body).
Proof.
  intros Hb. unfold parse_certificate_list. apply decided_bind; [auto with decided|intros ctx _].
  apply decided_bind; [auto with decided|intros ? _]. apply decided_bind; [auto with decided|intros n _].
  apply decided_bind; [auto with decided|intros l Hl]. apply decided_bind.
  - apply decided_certificates_loop; [|unfold rounds, zlen; lia|lia]. destruct (slice_at body 4 n) eqn:S; [|done].
    injection Hl as <-. by eapply bytes_slice.
  - intros ch _. by destruct ch.
Qed.

Lemma decided_hello body : bytes body -> decided (hello_choice body).
Proof.
  intros Hb. unfold hello_choice. apply decided_bind.
  { unfold hello_fields. decides. }
  intros [[s pos] end_] H. apply decided_bind; [|intros [share saw] _; decides].
  assert (35 <= pos /\ end_ <= zlen body /\ pos <= end_) as B.
  { unfold hello_fields in H. repeat (first [apply reject_bind in H as [? H]|apply bind_Ok in H as (? & ? & H)]).
    injection H as <- <- <-. bools. repeat match goal with E : u16_at _ _ = Ok _ |- _ => apply u16_at_nonneg in E; [|done] end.
    lia. }
  apply decided_hello_loop; [done|unfold rounds, zlen in *; lia|lia|lia].
Qed.
Lemma decided_extensions body : bytes body -> decided (parse_encrypted_extensions body).
Proof.
  intros Hb. unfold parse_encrypted_extensions. apply decided_bind; [auto with decided|intros [] H%reject_if_Ok].
  apply decided_bind; [auto with decided|intros n Hn]. apply decided_bind; [auto with decided|intros [] G%reject_if_Ok].
  apply decided_bind; [|auto with decided]. apply decided_extensions_loop; [done| |lia]. unfold rounds, zlen in *. bools. lia.
Qed.

Lemma decided_certificate_verify h body hash : decided (verify_certificate_verify h body hash).
Proof.
  assert (forall leaf c, decided (leaf_ec_point leaf c)) as EC by (intros; unfold leaf_ec_point; decides).
  assert (forall leaf, decided (validate_certificate h leaf)) as VC.
  { intros leaf. unfold validate_certificate. destruct (negb _); [done|]. apply decided_bind; [apply decided_map_dnssec|intros _ _]. decides. }
  assert (forall s scheme leaf c sg, decided (check_signature s scheme leaf c sg)) as CS.
  { intros. unfold check_signature, leaf_rsa_key. repeat (match goal with |- decided (if ?b then _ else _) => destruct b end);
      auto with decided; (apply decided_bind; [auto with decided|]); by intros [] _. }
  unfold verify_certificate_verify. repeat (apply decided_bind; [auto with decided|intros ? ?]).
  destruct (hs_suite h); [|done]. apply decided_bind; [apply CS|intros b _]. by destruct b.
Qed.

(** every message a peer sends is taken or refused: the loops over extensions, transport
    parameters and certificates end within the rounds the length of their buffer gives them. *)
Theorem feed_decided h msg : bytes msg -> decided (fst (feed h msg)).
Proof.
  intros Hb. unfold feed.
  assert (forall A (r : result Error A) k, decided r -> (forall a, decided (fst (k a))) -> decided (fst (or_keep h r k))) as K
    by (intros A [a|e] k D F; cbn; [apply F|by intros [= ->]]).
  destruct (hs_header msg) as [[t body]|e] eqn:Hm; cbn [or_keep fst].
  2: { unfold hs_header in Hm. intros [= ->]. revert Hm. change (decided (hs_header msg)). unfold hs_header. decides. }
  assert (bytes body) as Hbody.
  { unfold hs_header in Hm. repeat (first [apply reject_bind in Hm as [? Hm]|apply bind_Ok in Hm as (? & ? & Hm)]). injection Hm as <- <-.
    match goal with E : rest_at msg 4 = Ok _ |- _ => apply ok_or_Ok in E; by eapply get_range_Forall end. }
  destruct (_ && _); [|destruct (_ && _); [|destruct (_ && _); [|done]]].
  - unfold feed_server_hello. apply K.
    + unfold parse_server_hello. apply decided_bind; [by apply decided_hello|intros [s share] _]. decides.
    + intros h'. unfold derive_handshake_secrets. by destruct (hs_suite (push_msg h' msg)).
  - unfold feed_flight. destruct (negb _); [done|]. apply K; [|done].
    destruct (t =? _); [apply decided_bind; [by apply decided_extensions|done]|].
    destruct (t =? _); [apply decided_bind; [by apply decided_certificate_list|done]|].
    apply decided_bind; [apply decided_certificate_verify|done].
  - unfold feed_finished. destruct (negb _); [done|]. apply K; [unfold verify_server_finished; decides|intros []].
    destruct (derive_application_secrets _) as [[fin h']|e] eqn:D; cbn [or_keep fst].
    + by destruct (hs_suite _).
    + intros [= ->]. revert D. change (decided (derive_application_secrets (push_msg h msg))). unfold derive_application_secrets.
      destruct (hs_suite _); [|done]. decides.
Qed.
End decided_handshake.

(** ** A stand-in for the cryptography, with QUIC's own integers *)

Definition rfc_varint_encode (v : Z) : list Z :=
  if v <? 2 ^ 6 then [v]
  else if v <? 2 ^ 14 then be_bytes 2 (v + 2 ^ 14)
  else if v <? 2 ^ 30 then be_bytes 4 (v + 2 ^ 31)
  else be_bytes 8 (v + 3 * 2 ^ 62).

Definition rfc_varint_decode (bs : list Z) : option (Z * Z) :=
  match bs with
  | [] => None
  | b :: _ =>
      let n := if b <? 64 then 1 else if b <? 128 then 2 else if b <? 192 then 4 else 8 in
      s ← get_range bs 0 n;
      Some (be_val s mod 2 ^ (8 * n - 2), n)
  end.

#[local] Instance plain_crypto : TlsCrypto := {
  Cert := list Z;
  RootStore := unit;
  varint_encode := rfc_varint_encode;
  varint_decode := rfc_varint_decode;
  digest h bs := [zlen bs];
  hkdf_extract h salt ikm := salt ++ ikm;
  expand_label h secret label context n := replicate (Z.to_nat n) (be_val context);
  hmac h key msg := replicate (match h with SHA256 => 32 | SHA384 => 48 end) (be_val msg);
  x25519 secret public := public;
  parse_certificate der := Ok der;
  spki_key c := c;
  ec_curve c := None;
  validate_chain r ch now := Ok tt;
  has_server_auth_eku c := true;
  hostname_matches name c := String.eqb name "dns.example";
  verify_pss _ _ _ _ _ := false;
  verify_pkcs1v15 _ _ _ _ := false;
  ecdsa_verify_der _ _ _ _ _ := false;
  ed25519_verify key content sig := bool_decide (sig = key ++ key) }.

(** The length the first octet announces. *)
Definition varint_len (b : Z) : Z := if b <? 64 then 1 else if b <? 128 then 2 else if b <? 192 then 4 else 8.

Lemma varint_case m w v rest : 0 <= w < 256 ^ Z.of_nat (S m) -> varint_len (w / 256 ^ Z.of_nat m mod 256) = Z.of_nat (S m) ->
  w mod 2 ^ (8 * Z.of_nat (S m) - 2) = v -> rfc_varint_decode (be_bytes (S m) w ++ rest) = Some (v, Z.of_nat (S m)).
Proof.
  intros Hw Hl Hv. unfold rfc_varint_decode. cbn [be_bytes app]. fold (varint_len (w / 256 ^ Z.of_nat m mod 256)). rewrite Hl.
  change (w / 256 ^ Z.of_nat m mod 256 :: be_bytes m w ++ rest) with (be_bytes (S m) w ++ rest).
  replace (get_range _ 0 _) with (Some (be_bytes (S m) w)).
  - cbn [mbind option_bind]. rewrite be_val_be_bytes_small by done. by rewrite Hv.
  - symmetry. apply (get_range_middle []); [done|]. by rewrite zlen_be_bytes.
Qed.

#[local] Instance plain_varints : VarintLaws.
Proof.
  constructor.
  - intros v rest H. cbn [varint_decode varint_encode plain_crypto]. unfold rfc_varint_encode.
    destruct (v <? 2 ^ 6) eqn:E1; [|destruct (v <? 2 ^ 14) eqn:E2; [|destruct (v <? 2 ^ 30) eqn:E3]]; bools.
    + replace [v] with (be_bytes 1 v).
      2: { cbn. rewrite Z.div_1_r, Z.mod_small by lia. done. }
      rewrite zlen_be_bytes. apply varint_case; [lia| |].
      * cbn [Z.of_nat]. rewrite Z.pow_0_r, Z.div_1_r, Z.mod_small by lia. unfold varint_len. by rewrite (proj2 (Z.ltb_lt _ _)) by lia.
      * apply Z.mod_small. lia.
    + rewrite zlen_be_bytes. apply varint_case; [lia| |].
      * change (256 ^ Z.of_nat 1) with 256.
        assert (64 <= (v + 2 ^ 14) / 256 < 128) by (split; [apply Z.div_le_lower_bound|apply Z.div_lt_upper_bound]; lia).
        rewrite Z.mod_small by lia. unfold varint_len.
        rewrite (proj2 (Z.ltb_ge _ _)), (proj2 (Z.ltb_lt _ _)) by lia. done.
      * change (2 ^ (8 * Z.of_nat 2 - 2)) with (2 ^ 14). rewrite <- (Z.mul_1_l (2 ^ 14)) at 1. rewrite Z.mod_add by lia. apply Z.mod_small. lia.
    + rewrite zlen_be_bytes. apply varint_case; [lia| |].
      * change (256 ^ Z.of_nat 3) with (2 ^ 24).
        assert (128 <= (v + 2 ^ 31) / 2 ^ 24 < 192) by (split; [apply Z.div_le_lower_bound|apply Z.div_lt_upper_bound]; lia).
        rewrite Z.mod_small by lia. unfold varint_len.
        rewrite (proj2 (Z.ltb_ge _ 64)), (proj2 (Z.ltb_ge _ 128)), (proj2 (Z.ltb_lt _ 192)) by lia. done.
      * change (2 ^ (8 * Z.of_nat 4 - 2)) with (2 ^ 30). change (2 ^ 31) with (2 * 2 ^ 30). rewrite Z.mod_add by lia. apply Z.mod_small. lia.
    + rewrite zlen_be_bytes. apply varint_case; [lia| |].
      * change (256 ^ Z.of_nat 7) with (2 ^ 56).
        assert (192 <= (v + 3 * 2 ^ 62) / 2 ^ 56 < 256) by (split; [apply Z.div_le_lower_bound|apply Z.div_lt_upper_bound]; lia).
        rewrite Z.mod_small by lia. unfold varint_len.
        rewrite (proj2 (Z.ltb_ge _ 64)), (proj2 (Z.ltb_ge _ 128)), (proj2 (Z.ltb_ge _ 192)) by lia. done.
      * change (2 ^ (8 * Z.of_nat 8 - 2)) with (2 ^ 62). rewrite Z.mod_add by lia. apply Z.mod_small. lia.
  - intros [|b bs] v used H; [done|]. cbn [varint_decode plain_crypto rfc_varint_decode] in H. fold (varint_len b) in H.
    destruct (get_range _ 0 _) as [s|] eqn:G; cbn [mbind option_bind] in H; [|done]. injection H as <- <-. apply get_range_len in G.
    assert (1 <= varint_len b <= 8) by (unfold varint_len; destruct (b <? 64), (b <? 128), (b <? 192); lia). split; [lia|].
    apply Z.mod_pos_bound. lia.
Qed.

(** ** A handshake from end to end *)

Definition sample_client : ClientConfig :=
  mkClientConfig (ascii_bytes "doq") (Some "dns.example"%string) (Some "dns.example"%string) tt true 0 (client_defaults [1; 2; 3; 4]).
Definition sample_start : ClientHandshake :=
  snd (client_hello (handshake_new sample_client (replicate 32 5) (replicate 32 1) (replicate 32 2))).
Definition sample_key : list Z := replicate 32 4.

Definition sample_hello : list Z :=
  let exts := extension 0x002b [3; 4] ++ extension 0x0033 ([0x00; 0x1d; 0x00; 0x20] ++ replicate 32 8) in
  hs_message hstype.SERVER_HELLO
    ([3; 3] ++ replicate 32 6 ++ [0] ++ be_bytes 2 suite.CHACHA20_POLY1305_SHA256 ++ [0] ++ be_bytes 2 (zlen exts) ++ exts).
Definition sample_extensions : list Z :=
  let exts := extension 0x0039 (put_all [(0x00, [9; 9]); (0x04, rfc_varint_encode 70000); (0x08, rfc_varint_encode 100); (0x0f, [7; 7])]) in
  hs_message hstype.ENCRYPTED_EXTENSIONS (be_bytes 2 (zlen exts) ++ exts).
Definition sample_certificate : list Z :=
  hs_message hstype.CERTIFICATE ([0] ++ be_bytes 3 37 ++ be_bytes 3 32 ++ sample_key ++ [0; 0]).
Definition sample_verify : list Z :=
  hs_message hstype.CERTIFICATE_VERIFY (be_bytes 2 sigscheme.ED25519 ++ be_bytes 2 64 ++ sample_key ++ sample_key).
Definition sample_finished : list Z :=
  hs_message hstype.FINISHED
    (replicate 32 (be_val (messages_hash suite.CHACHA20_POLY1305_SHA256
       [own_hello sample_start; sample_hello; sample_extensions; sample_certificate; sample_verify]))).

Definition feeds (h : ClientHandshake) (msgs : list (list Z)) : ClientHandshake := fold_left (fun h m => snd (feed h m)) msgs h.
Definition sample_done : ClientHandshake :=
  feeds sample_start [sample_hello; sample_extensions; sample_certificate; sample_verify; sample_finished].

Lemma feeds_reachable h msgs : hs_reachable h -> hs_reachable (feeds h msgs).
Proof. revert h. induction msgs as [|m msgs IH]; intros h R; [done|]. apply IH. by apply hs_feed. Qed.

Lemma handshake_authenticated_witness :
  done_ sample_done = true /\ (initial_max_data <$> server_params sample_done) = Some 70000 /\
  exists s sh ee ct cv, hs_suite sample_done = Some s /\
    is_certificate_verify sample_done s [own_hello sample_done; sh; ee; ct] cv.
Proof.
  assert (done_ sample_done = true) as D by (vm_compute; reflexivity). split; [exact D|]. split; [vm_compute; reflexivity|].
  destruct (handshake_authenticated sample_done) as (s & sh & ee & ct & cv & fin & rest & T & N & _ & _ & V & _); [|exact D|].
  - apply feeds_reachable. apply hs_start.
  - exists s, sh, ee, ct, cv. split; [apply N|exact V].
Defined.

Lemma feed_refused_witness : snd (feed sample_start sample_finished) = sample_start.
Proof. apply (feed_refused sample_start sample_finished unexpected); [apply hs_start|vm_compute; reflexivity]. Defined.

Lemma feed_decided_witness : decided (fst (feed sample_start [2; 0; 0; 1; 3])).
Proof. apply (feed_decided sample_start). repeat constructor; unfold is_byte; lia. Defined.

Lemma transport_params_round_trip_witness :
  decode_server_transport_params (params_encode (client_defaults [1; 2; 3; 4])) =
    Ok (mkSTP (2 ^ 26) (2 ^ 20) 1024 16 None (Some [1; 2; 3; 4]) None).
Proof.
  apply (transport_params_round_trip (client_defaults [1; 2; 3; 4])); [|vm_compute; congruence].
  split; [|vm_compute; reflexivity]. repeat (constructor; [cbn; lia|]). constructor.
Defined.

(** The application protocol the server settled on is not looked at: the extensions of the
    server may name any, or none. *)
Example alpn_unchecked :
  let other := extension 0x0010 (be_bytes 2 3 ++ [2] ++ ascii_bytes "h3") in
  let params := extension 0x0039 (put_param 0x04 (rfc_varint_encode 5)) in
  parse_encrypted_extensions (be_bytes 2 (zlen (other ++ params)) ++ other ++ params) = Ok (mkSTP 5 0 0 0 None None None) /\
  parse_encrypted_extensions (be_bytes 2 (zlen params) ++ params) = Ok (mkSTP 5 0 0 0 None None None).
Proof. vm_compute. split; reflexivity. Qed.

(** A P-256 key is refused under the SHA-384 suite, though both are offered. *)
Example p256_needs_sha256 leaf content sg :
  check_signature suite.AES_256_GCM_SHA384 sigscheme.ECDSA_SECP256R1_SHA256 leaf content sg =
    Err (dnssec_error "ECDSA P-256 scheme with a SHA-384 suite").
Proof. done. Qed.

(** A second Finished message is taken, and moves the traffic secrets. *)
Example finished_again :
  let again := hs_message hstype.FINISHED (replicate 32 (be_val (messages_hash suite.CHACHA20_POLY1305_SHA256 (transcript_msgs sample_done)))) in
  is_ok (fst (feed sample_done again)) = true /\ zlen (transcript_msgs (snd (feed sample_done again))) = 7.
Proof. vm_compute. split; reflexivity. Qed.
