(* ===== verification/QuicLink.v ===== *)
(** * Establishing a QUIC connection ([src/transports/doq/quic.rs], [doq/mod.rs])

    The part of a connection around [QuicConn.Conn]: connection identifiers, the keys of
    the three packet-number spaces, the TLS handshake fed from CRYPTO frames, packet
    headers, coalesced datagrams and Retry; and the DoQ framing of a message.  Packet
    protection, the frame codec and the socket are third-party code or the system's:
    the class [PacketProtection].  The transport that keeps a connection between queries is
    in [Transports]. *)
From S2P Require Import Prelude Wire Prng Name Compress Qtype Edns Bitmap RData Rr Message BTree QuicRx QuicConn Addr Tls.

Definition PN_LEN : Z := 4.
Definition TAG_LEN : Z := 16.
Definition VERSION_1 : Z := 1.

Inductive LongType := LtInitial | LtZeroRtt | LtHandshake | LtRetry.
#[global] Instance LongType_eq_dec : EqDecision LongType.
Proof. solve_decision. Defined.

Class PacketProtection := {
  PacketKey : Type;
  key_initial : list Z -> bool -> result string PacketKey;
  key_from_secret : Z -> list Z -> result string PacketKey;
  unprotect_header : PacketKey -> list Z -> Z -> bool -> option (list Z * Z);
  key_open : PacketKey -> Z -> list Z -> list Z -> option (list Z);
  decode_pn : list Z -> Z -> Z -> Z;
  decode_frames : list Z -> list Frame;
  verify_retry_integrity : list Z -> list Z -> list Z -> result string bool;
  (** Encoding, padding, sealing and sending one packet: key, space, destination and
      source identifiers, token, packet number, frames, whether to pad. *)
  seal_and_send : PacketKey -> Space -> list Z -> list Z -> list Z -> Z -> list Frame -> bool -> result Error unit }.

Section link.
Context {TC : TlsCrypto} {PP : PacketProtection}.

Record Link := mkLink {
  conn : Conn; local_cid : list Z; server_cid : list Z; original_dcid : list Z; retry_token : list Z;
  retry_scid : option (list Z); saw_server_scid : bool; tls_cfg : ClientConfig; tls : ClientHandshake;
  initial_write : PacketKey; initial_read : PacketKey; hs_write : option PacketKey; hs_read : option PacketKey;
  app_write : option PacketKey; app_read : option PacketKey;
  largest_rx : PerSpace Z; crypto_rx : PerSpace CryptoRx; crypto_tx : PerSpace Z }.
Implicit Types l : Link.

Definition set_conn l (c : Conn) : Link :=
  mkLink c (local_cid l) (server_cid l) (original_dcid l) (retry_token l) (retry_scid l) (saw_server_scid l) (tls_cfg l) (tls l)
    (initial_write l) (initial_read l) (hs_write l) (hs_read l) (app_write l) (app_read l) (largest_rx l) (crypto_rx l) (crypto_tx l).
Definition set_tls l (t : ClientHandshake) : Link :=
  mkLink (conn l) (local_cid l) (server_cid l) (original_dcid l) (retry_token l) (retry_scid l) (saw_server_scid l) (tls_cfg l) t
    (initial_write l) (initial_read l) (hs_write l) (hs_read l) (app_write l) (app_read l) (largest_rx l) (crypto_rx l) (crypto_tx l).
Definition set_server_cid l (cid : list Z) : Link :=
  mkLink (conn l) (local_cid l) cid (original_dcid l) (retry_token l) (retry_scid l) true (tls_cfg l) (tls l)
    (initial_write l) (initial_read l) (hs_write l) (hs_read l) (app_write l) (app_read l) (largest_rx l) (crypto_rx l) (crypto_tx l).
Definition set_hs_read l (k : PacketKey) : Link :=
  mkLink (conn l) (local_cid l) (server_cid l) (original_dcid l) (retry_token l) (retry_scid l) (saw_server_scid l) (tls_cfg l) (tls l)
    (initial_write l) (initial_read l) (hs_write l) (Some k) (app_write l) (app_read l) (largest_rx l) (crypto_rx l) (crypto_tx l).
Definition set_app_keys l (hw aw ar : PacketKey) : Link :=
  mkLink (conn l) (local_cid l) (server_cid l) (original_dcid l) (retry_token l) (retry_scid l) (saw_server_scid l) (tls_cfg l) (tls l)
    (initial_write l) (initial_read l) (Some hw) (hs_read l) (Some aw) (Some ar) (largest_rx l) (crypto_rx l) (crypto_tx l).
Definition set_largest_rx l (v : PerSpace Z) : Link :=
  mkLink (conn l) (local_cid l) (server_cid l) (original_dcid l) (retry_token l) (retry_scid l) (saw_server_scid l) (tls_cfg l) (tls l)
    (initial_write l) (initial_read l) (hs_write l) (hs_read l) (app_write l) (app_read l) v (crypto_rx l) (crypto_tx l).
Definition set_crypto_rx l (v : PerSpace CryptoRx) : Link :=
  mkLink (conn l) (local_cid l) (server_cid l) (original_dcid l) (retry_token l) (retry_scid l) (saw_server_scid l) (tls_cfg l) (tls l)
    (initial_write l) (initial_read l) (hs_write l) (hs_read l) (app_write l) (app_read l) (largest_rx l) v (crypto_tx l).
Definition set_crypto_tx l (v : PerSpace Z) : Link :=
  mkLink (conn l) (local_cid l) (server_cid l) (original_dcid l) (retry_token l) (retry_scid l) (saw_server_scid l) (tls_cfg l) (tls l)
    (initial_write l) (initial_read l) (hs_write l) (hs_read l) (app_write l) (app_read l) (largest_rx l) (crypto_rx l) v.

(** ** Handlers *)

Definition LM (A : Type) : Type := Link -> result Error A * Link.
#[global] Instance LM_ret : MRet LM := fun _ a l => (Ok a, l).
#[global] Instance LM_bind : MBind LM := fun _ _ f m l => match m l with (Ok a, l) => f a l | (Err e, l) => (Err e, l) end.
Definition get_link : LM Link := fun l => (Ok l, l).
Definition update (f : Link -> Link) : LM unit := fun l => (Ok tt, f l).
Definition of_result {A} (r : result Error A) : LM A := fun l => (r, l).
(** A handler of the connection proper. *)
Definition on_conn {A} (m : Link -> QuicConn.M A) : LM A := fun l => let '(r, c) := m l (conn l) in (r, set_conn l c).

Context (client_bidi server_uni : Z) (stream_type stream_index : Z -> Z) (make_stream_id : Z -> Z -> Z).
Context (now : Z).

(** The key and the token of a space. *)
Definition write_key l (space : Space) : result Error (PacketKey * list Z) :=
  match space with
  | SpInitial => Ok (initial_write l, retry_token l)
  | SpHandshake => k ← ok_or (hs_write l) (transport "doq handshake write key missing"); Ok (k, [])
  | SpApplication => k ← ok_or (app_write l) (transport "doq application write key missing"); Ok (k, [])
  end.

Definition transmit l (c : Conn) (space : Space) (frames : list Frame) (pad : bool) : result Error unit :=
  '(k, token) ← write_key l space;
  seal_and_send k space (server_cid l) (local_cid l) token (at_space (next_pn c) space) frames pad.

Definition link_send (space : Space) (frames : list Frame) (pad : bool) : LM unit :=
  on_conn (fun l => QuicConn.send_packet (transmit l) now space frames pad).
Definition send_crypto (space : Space) (data : list Z) (offset : Z) (pad : bool) : LM unit :=
  link_send space [FCrypto offset data] pad.

(** ** The TLS handshake *)

Definition set_handshake_confirmed (c : Conn) (v : bool) : Conn :=
  mkConn (next_pn c) (pending_acks c) v (stream_id c) (query_tx c) (query_rx c) (opened_bidi c) (peer_max_data c)
    (peer_max_stream_data c) (peer_max_streams_bidi c) (peer_max_streams_uni c) (our_max_data c)
    (our_max_stream_data_bidi_local c) (our_max_stream_data_uni c) (our_max_streams_uni c) (conn_rx_consumed c)
    (server_uni_opened c) (uni_consumed c) (sent c) (srtt c) (rttvar c) (pto_count c) (close_sent c) (closed c).

(** The limits a server set, zero being no limit set. *)
Definition apply_limits (p : ServerTransportParams) (c : Conn) : Conn :=
  let c := if 0 <? initial_max_data p then set_peer_max_data c (initial_max_data p) else c in
  let c := if 0 <? initial_max_stream_data_bidi_local p then set_peer_max_stream_data c (initial_max_stream_data_bidi_local p) else c in
  let c := if 0 <? initial_max_streams_bidi p then set_peer_max_streams_bidi c (initial_max_streams_bidi p) else c in
  if 0 <? initial_max_streams_uni p then set_peer_max_streams_uni c (initial_max_streams_uni p) else c.

Definition differs (expected : list Z) (got : option (list Z)) : bool :=
  match got with Some g => negb (bool_decide (g = expected)) | None => false end.

Definition validate_server_transport_params : LM unit :=
  l ← get_link;
  params ← of_result (ok_or (server_params (tls l)) (wire "server sent no transport parameters"));
  of_result (reject_if (differs (original_dcid l) (original_destination_connection_id params))
    (wire "server original_destination_connection_id mismatch")) ≫= fun _ =>
  of_result (reject_if (differs (server_cid l) (initial_source_connection_id params))
    (wire "server initial_source_connection_id mismatch")) ≫= fun _ =>
  of_result (reject_if (match retry_scid l with Some r => differs r (retry_source_connection_id params) | None => false end)
    (wire "server retry_source_connection_id mismatch")) ≫= fun _ =>
  update (fun l => set_conn l (apply_limits params (conn l))) ≫= fun _ =>
  l ← get_link;
  of_result (reject_if (peer_max_streams_bidi (conn l) =? 0)
    (transport "server does not allow client-initiated bidirectional streams")).

Definition key_of (what : string) (s : Z) (secret : option (list Z)) (missing : string) : result Error PacketKey :=
  secret ← ok_or secret (transport missing);
  map_err (fun e => transport (what ++ e)) (key_from_secret s secret).

Definition handshake_done (completed : Completed) : LM unit :=
  l ← get_link;
  let s := cp_suite completed in
  hw ← of_result (key_of "doq handshake key: " s (c_hs (tls l)) "doq client handshake secret missing");
  aw ← of_result (key_of "doq application key: " s (c_ap (tls l)) "doq application secret missing");
  ar ← of_result (key_of "doq application key: " s (s_ap (tls l)) "doq application secret missing");
  update (fun l => set_app_keys l hw aw ar) ≫= fun _ =>
  validate_server_transport_params ≫= fun _ =>
  l ← get_link;
  send_crypto SpHandshake (client_finished completed) (handshake (crypto_tx l)) false ≫= fun _ =>
  update (fun l => set_crypto_tx l (set_at (crypto_tx l) SpHandshake (handshake (crypto_tx l) + zlen (client_finished completed)))) ≫= fun _ =>
  update (fun l => set_conn l (set_pto_count (set_handshake_confirmed (conn l) true) 0)).

Definition derive_read_key : LM unit :=
  l ← get_link;
  match hs_read l, s_hs (tls l) with
  | None, Some secret =>
      s ← of_result (ok_or (hs_suite (tls l)) (transport "doq cipher suite missing after ServerHello"));
      k ← of_result (map_err (fun e => transport ("doq handshake read key: " ++ e)) (key_from_secret s secret));
      update (fun l => set_hs_read l k)
  | _, _ => mret tt
  end.

(** One message of the handshake. *)
Definition tls_message (msg : list Z) : LM unit :=
  l ← get_link;
  let '(r, t) := feed (tls l) msg in
  update (fun l => set_tls l t) ≫= fun _ =>
  completed ← of_result r;
  match completed with Some c => handshake_done c | None => derive_read_key end.

Fixpoint crypto_loop (fuel : nat) (space : Space) : LM unit :=
  match fuel with
  | O => of_result (Err out_of_fuel)
  | S fuel =>
      l ← get_link;
      match pop_message (at_space (crypto_rx l) space) with
      | None => mret tt
      | Some (msg, rx) =>
          update (fun l => set_crypto_rx l (set_at (crypto_rx l) space rx)) ≫= fun _ =>
          tls_message msg ≫= fun _ => crypto_loop fuel space
      end
  end.

Definition on_crypto (space : Space) (offset : Z) (data : list Z) : LM unit :=
  if bool_decide (space = SpApplication) then mret tt else
  l ← get_link;
  rx ← of_result (rx_insert (at_space (crypto_rx l) space) offset data);
  update (fun l => set_crypto_rx l (set_at (crypto_rx l) space rx)) ≫= fun _ =>
  crypto_loop (S (Z.to_nat (buffered rx))) space.
(** ** Frames, packets and datagrams *)

(** One frame of [process_plaintext]: CRYPTO goes to the handshake, the rest to the
    connection. *)
Definition link_frame (space : Space) (f : Frame) : LM bool :=
  match f with
  | FCrypto offset data => on_crypto space offset data ≫= fun _ => mret true
  | _ => on_conn (fun l => on_frame (transmit l) (fun _ _ _ => mret tt) client_bidi server_uni stream_type stream_index now space f)
  end.

Fixpoint link_frames (space : Space) (frames : list Frame) (ack_eliciting : bool) : LM bool :=
  match frames with
  | [] => mret ack_eliciting
  | f :: frames => link_frame space f ≫= fun b => link_frames space frames (ack_eliciting || b)
  end.

Definition process_plaintext (space : Space) (pn : Z) (plaintext : list Z) : LM unit :=
  link_frames space (decode_frames plaintext) false ≫= fun ack_eliciting =>
  if (ack_eliciting : bool) then
    update (fun l => set_conn l (set_pending_acks (conn l)
              (set_at (pending_acks (conn l)) space (set_insert (at_space (pending_acks (conn l)) space) pn))))
  else mret tt.

Record Header := mkHeader {
  hd_type : option LongType; hd_dcid : list Z; hd_scid : list Z; hd_token : list Z; hd_pn_offset : Z; hd_payload_end : Z }.

Definition long_type (first : Z) : LongType :=
  let t := Z.land (Z.shiftr first 4) 0x03 in
  if t =? 0 then LtInitial else if t =? 1 then LtZeroRtt else if t =? 2 then LtHandshake else LtRetry.

(** A connection identifier behind its length. *)
Definition read_cid (dg : list Z) (pos len : Z) (malformed : string) : result Error (list Z) :=
  if (20 <? len) || (zlen dg <? pos + len) then Err (wire malformed) else slice_at dg pos len.

(** The token of an Initial packet. *)
Definition read_token (dg : list Z) (ptype : LongType) (pos : Z) : result Error (list Z * Z) :=
  if bool_decide (ptype = LtInitial) then
    rest ← rest_at dg pos;
    '(tlen, used) ← ok_or (varint_decode rest) (wire "doq token length malformed");
    let pos := pos + used in
    token_end ← ok_or (e ← checked_add pos tlen; if e <=? zlen dg then Some e else None) (wire "doq token truncated");
    token ← slice_at dg pos tlen;
    Ok (token, token_end)
  else Ok ([], pos).

Definition parse_long_header (first : Z) (dg : list Z) : result Error Header :=
  reject_if (zlen dg <? 7) (wire "doq long header truncated") ≫= fun _ =>
  version ← u32_at dg 1;
  reject_if (negb (version =? VERSION_1)) (wire "doq unsupported QUIC version") ≫= fun _ =>
  let ptype := long_type first in
  dcid_len ← byte_at dg 5;
  dcid ← read_cid dg 6 dcid_len "doq DCID malformed";
  let pos := 6 + dcid_len in
  reject_if (zlen dg <=? pos) (wire "doq long header truncated") ≫= fun _ =>
  scid_len ← byte_at dg pos;
  let pos := pos + 1 in
  scid ← read_cid dg pos scid_len "doq SCID malformed";
  let pos := pos + scid_len in
  '(token, pos) ← read_token dg ptype pos;
  rest ← rest_at dg pos;
  '(plen, used) ← ok_or (varint_decode rest) (wire "doq payload length malformed");
  let pn_offset := pos + used in
  reject_if (plen <? PN_LEN) (wire "doq payload shorter than packet number") ≫= fun _ =>
  payload_end ← ok_or (checked_add pn_offset plen) (wire "doq payload length overflow");
  reject_if (zlen dg <? payload_end) (wire "doq packet payload truncated") ≫= fun _ =>
  Ok (mkHeader (Some ptype) dcid scid token pn_offset payload_end).

Definition parse_header l (dg : list Z) : result Error Header :=
  first ← ok_or (get dg 0) (wire "doq empty datagram");
  if negb (Z.land first 0x80 =? 0) then parse_long_header first dg else
  let start := 1 + zlen (local_cid l) in
  reject_if (zlen dg <? start + 1) (wire "doq short header truncated") ≫= fun _ =>
  dcid ← slice_at dg 1 (zlen (local_cid l));
  Ok (mkHeader None dcid [] [] start (zlen dg)).

(** The space of a packet and the key that opens it, when there is one. *)
Definition read_key l (t : option LongType) : option (Space * PacketKey) :=
  match t with
  | Some LtInitial => Some (SpInitial, initial_read l)
  | Some LtHandshake => k ← hs_read l; Some (SpHandshake, k)
  | Some LtZeroRtt | Some LtRetry => None
  | None => k ← app_read l; Some (SpApplication, k)
  end.

(** [self.closed = Some(err.clone()); return Err(err)] *)
Definition close_link {A} (e : Error) : LM A := fun l => (Err e, set_conn l (set_closed (conn l) (Some e))).

Section datagram.
(** The random values of a handshake begun again after a Retry: the client random and
    the key pair. *)
Context (rnd : list Z * list Z * list Z).

Definition retry_params (p : TransportParams) (scid : list Z) : TransportParams :=
  mkTP (tp_max_idle_timeout_ms p) (tp_max_udp_payload_size p) (tp_initial_max_data p)
    (tp_initial_max_stream_data_bidi_local p) (tp_initial_max_stream_data_bidi_remote p)
    (tp_initial_max_stream_data_uni p) (tp_initial_max_streams_bidi p) (tp_initial_max_streams_uni p)
    (tp_active_connection_id_limit p) (tp_initial_source_connection_id p) (Some scid).
Definition retry_config (c : ClientConfig) (scid : list Z) : ClientConfig :=
  mkClientConfig (alpn c) (server_name c) (hostname c) (roots c) (verify c) (cfg_now c) (retry_params (transport_params c) scid).

Record Retry := mkRetry { rt_dcid : list Z; rt_scid : list Z; rt_token : list Z; rt_tag : list Z; rt_wire : list Z }.

Definition parse_retry (dg : list Z) : result Error Retry :=
  reject_if (zlen dg <? 7 + TAG_LEN) (wire "doq Retry packet truncated") ≫= fun _ =>
  dcid_len ← byte_at dg 5;
  reject_if ((20 <? dcid_len) || (zlen dg <? 6 + dcid_len + 1)) (wire "doq Retry malformed") ≫= fun _ =>
  dcid ← slice_at dg 6 dcid_len;
  let pos := 6 + dcid_len in
  scid_len ← byte_at dg pos;
  let pos := pos + 1 in
  reject_if ((20 <? scid_len) || (zlen dg <? pos + scid_len + TAG_LEN)) (wire "doq Retry malformed") ≫= fun _ =>
  scid ← slice_at dg pos scid_len;
  let pos := pos + scid_len in
  let tag_at := zlen dg - TAG_LEN in
  tag ← slice_at dg tag_at TAG_LEN;
  token ← slice_at dg pos (tag_at - pos);
  retry_wire ← slice_at dg 0 tag_at;
  Ok (mkRetry dcid scid token tag retry_wire).

Definition bad_initial_keys (e : string) : Error := transport ("doq initial keys: " ++ e).

(** The Initial space begun again. *)
Definition reset_initial l (token scid : list Z) (iw ir : PacketKey) : Link :=
  let c := conn l in
  let c := set_next_pn c (set_at (next_pn c) SpInitial 0) in
  let c := set_pending_acks c (set_at (pending_acks c) SpInitial []) in
  let c := set_sent c (List.filter (fun p => negb (bool_decide (sp_space p = SpInitial))) (sent c)) in
  mkLink c (local_cid l) scid (original_dcid l) token (Some scid) (saw_server_scid l) (tls_cfg l) (tls l) iw ir
    (hs_write l) (hs_read l) (app_write l) (app_read l) (set_at (largest_rx l) SpInitial 0)
    (set_at (crypto_rx l) SpInitial crypto_rx_new) (set_at (crypto_tx l) SpInitial 0).

Definition set_handshake l (c : ClientConfig) (t : ClientHandshake) : Link :=
  mkLink (conn l) (local_cid l) (server_cid l) (original_dcid l) (retry_token l) (retry_scid l) (saw_server_scid l) c t
    (initial_write l) (initial_read l) (hs_write l) (hs_read l) (app_write l) (app_read l) (largest_rx l) (crypto_rx l) (crypto_tx l).

(** The identifiers and the token a Retry leaves when its keys cannot be derived. *)
Definition set_retry l (token scid : list Z) (iw : PacketKey) : Link :=
  mkLink (conn l) (local_cid l) scid (original_dcid l) token (Some scid) (saw_server_scid l) (tls_cfg l) (tls l)
    iw (initial_read l) (hs_write l) (hs_read l) (app_write l) (app_read l) (largest_rx l) (crypto_rx l) (crypto_tx l).

Definition apply_retry (r : Retry) : LM unit := fun l =>
  match key_initial (rt_scid r) false with
  | Err e => (Err (bad_initial_keys e), set_retry l (rt_token r) (rt_scid r) (initial_write l))
  | Ok iw =>
      match key_initial (rt_scid r) true with
      | Err e => (Err (bad_initial_keys e), set_retry l (rt_token r) (rt_scid r) iw)
      | Ok ir =>
          let l := reset_initial l (rt_token r) (rt_scid r) iw ir in
          let cfg := retry_config (tls_cfg l) (rt_scid r) in
          let '(random, secret, public) := rnd in
          let '(ch, t) := client_hello (handshake_new cfg random secret public) in
          (send_crypto SpInitial ch 0 true ≫= fun _ =>
           update (fun l => set_crypto_tx l (set_at (crypto_tx l) SpInitial (zlen ch)))) (set_handshake l cfg t)
      end
  end.

Definition process_retry (dg : list Z) : LM unit :=
  r ← of_result (parse_retry dg);
  l ← get_link;
  if negb (bool_decide (rt_dcid r = local_cid l)) then mret tt else
  if match retry_scid l with Some _ => true | None => false end || handshake_confirmed (conn l) || saw_server_scid l then
    close_link (wire "doq unexpected Retry")
  else
  ok ← of_result (map_err (fun e => wire ("doq Retry integrity check failed: " ++ e))
         (verify_retry_integrity (original_dcid l) (rt_wire r) (rt_tag r)));
  if negb ok then mret tt else apply_retry r.

(** The packet at the head of a datagram; the result is what follows it, [None] when the
    rest of the datagram is dropped. *)
Definition process_packet (dg : list Z) : LM (option (list Z)) :=
  l ← get_link;
  h ← of_result (parse_header l dg);
  if negb (bool_decide (hd_dcid h = [])) && negb (bool_decide (hd_dcid h = local_cid l)) then mret None else
  match read_key l (hd_type h) with
  | None => mret None
  | Some (space, key) =>
      if bool_decide (space = SpInitial) && handshake_confirmed (conn l) then mret None else
      let is_long := match hd_type h with Some _ => true | None => false end in
      update (fun l => if is_long && negb (bool_decide (hd_scid h = [])) && negb (saw_server_scid l)
                       then set_server_cid l (hd_scid h) else l) ≫= fun _ =>
      match unprotect_header key dg (hd_pn_offset h) is_long with
      | None => mret None
      | Some (packet, pn_len) =>
          if negb ((1 <=? pn_len) && (pn_len <=? 4)) then mret None else
          l ← get_link;
          let expected := wrap 64 (at_space (largest_rx l) space + 1) in
          pn_bytes ← of_result (slice_at packet (hd_pn_offset h) pn_len);
          let pn := decode_pn pn_bytes expected pn_len in
          let payload_start := hd_pn_offset h + pn_len in
          if hd_payload_end h <? payload_start then mret None else
          header ← of_result (slice_at packet 0 payload_start);
          payload ← of_result (slice_at packet payload_start (hd_payload_end h - payload_start));
          match key_open key pn header payload with
          | None => mret None
          | Some plaintext =>
              update (fun l => if at_space (largest_rx l) space <? pn
                               then set_largest_rx l (set_at (largest_rx l) space pn) else l) ≫= fun _ =>
              process_plaintext space pn plaintext ≫= fun _ =>
              rest ← of_result (rest_at dg (hd_payload_end h)); mret (Some rest)
          end
      end
  end.

Definition no_version : Error := transport "doq server does not support QUIC version 1 (version negotiation)".

(** A long header with this version. *)
Definition long_version (dg : list Z) (v : Z) : result Error bool :=
  first ← ok_or (get dg 0) (wire "doq empty datagram");
  if negb (Z.land first 0x80 =? 0) && (5 <=? zlen dg) then version ← u32_at dg 1; Ok (version =? v) else Ok false.

Definition is_retry (dg : list Z) : result Error bool :=
  first ← ok_or (get dg 0) (wire "doq empty datagram");
  if Z.land (Z.shiftr first 4) 0x03 =? 3 then long_version dg VERSION_1 else Ok false.

Fixpoint datagram_loop (fuel : nat) (dg : list Z) : LM unit :=
  match fuel with
  | O => of_result (Err out_of_fuel)
  | S fuel =>
      match dg with
      | [] => mret tt
      | _ =>
          negotiation ← of_result (long_version dg 0);
          if (negotiation : bool) then close_link no_version else
          retry ← of_result (is_retry dg);
          if (retry : bool) then process_retry dg else
          rest ← process_packet dg;
          match rest with Some dg => datagram_loop fuel dg | None => mret tt end
      end
  end.
Definition process_datagram (dg : list Z) : LM unit := datagram_loop (S (length dg)) dg.
End datagram.

(** ** The life of a connection *)

Definition conn_new : Conn :=
  mkConn (mkPerSpace 0 0 0) (mkPerSpace [] [] []) false 0 None (mkQueryRecv [] false) 0 u64_max u64_max 1 1
    (2 ^ 20) (2 ^ 20) (2 ^ 20) 8 0 0 [] [] None 0 0 false None.

(** [connect] up to its event loop, with the random identifiers and values given. *)
Definition connect (local server : list Z) (cfg : ClientConfig) (rnd : list Z * list Z * list Z) : result Error Link :=
  let '(random, secret, public) := rnd in
  let '(ch, t) := client_hello (handshake_new cfg random secret public) in
  iw ← map_err bad_initial_keys (key_initial server false);
  ir ← map_err bad_initial_keys (key_initial server true);
  let l := mkLink conn_new local server server [] None false cfg t iw ir None None None None (mkPerSpace 0 0 0)
             (mkPerSpace crypto_rx_new crypto_rx_new crypto_rx_new) (mkPerSpace 0 0 0) in
  match (send_crypto SpInitial ch 0 true ≫= fun _ => update (fun l => set_crypto_tx l (set_at (crypto_tx l) SpInitial (zlen ch)))) l with
  | (Ok _, l) => Ok l
  | (Err e, _) => Err e
  end.

(** [exchange_query] up to its event loop. *)
Definition open_link_query (query : list Z) : LM unit :=
  on_conn (fun l => QuicConn.open_query (transmit l) client_bidi make_stream_id now query).

(** What one pass of the event loop does after the datagrams: acknowledgements, the timer
    and the rest of the query. *)
Definition loop_tail (received_any : bool) : LM unit :=
  update (fun l => if received_any then set_conn l (set_pto_count (conn l) 0) else l) ≫= fun _ =>
  update (fun l => set_conn l (flush_acks (transmit l) now (conn l))) ≫= fun _ =>
  on_conn (fun l => run_pto (transmit l) now) ≫= fun _ =>
  l ← get_link;
  if handshake_confirmed (conn l) then on_conn (fun l => flush_query_send (transmit l) now) else mret tt.

Definition close_query_connection : LM unit := update (fun l => set_conn l (QuicConn.close (transmit l) now (conn l))).
End link.

(** ** DoQ messages ([doq/mod.rs]) *)

Definition MAX_TCP_MESSAGE : Z := 65535.

Definition frame_query (query : list Z) : result Error (list Z) :=
  if MAX_TCP_MESSAGE <? zlen query then Err (transport "query too large for DoQ")
  else Ok (be_bytes 2 (wrap 16 (zlen query)) ++ query).

Definition deframe_response (bs : list Z) : result Error Message :=
  reject_if (zlen bs <? 2) (wire "DoQ response shorter than length prefix") ≫= fun _ =>
  len ← u16_at bs 0;
  reject_if (negb (zlen bs =? 2 + len)) (wire "DoQ response length mismatch") ≫= fun _ =>
  body ← rest_at bs 2;
  message_parse body.

(** The tail of [DoqTransport::exchange]: the response without its prefix. *)
Definition doq_answer (resp : list Z) : result Error (list Z) :=
  deframe_response resp ≫= fun _ => rest_at resp 2.

(** ** The connection's own handlers leave the handshake flag alone *)

Definition keeps {A} (m : QuicConn.M A) : Prop := forall c, handshake_confirmed (snd (m c)) = handshake_confirmed c.

Lemma keeps_ret {A} (a : A) : keeps (mret a).
Proof. done. Qed.
Lemma keeps_bind {A B} (m : QuicConn.M A) (f : A -> QuicConn.M B) : keeps m -> (forall a, keeps (f a)) -> keeps (m ≫= f).
Proof. intros H F c. specialize (H c). unfold mbind, M_bind. destruct (m c) as [[a|e] c']; cbn [snd] in *; [by rewrite F|done]. Qed.
Lemma keeps_get {A} (f : Conn -> QuicConn.M A) : (forall c, keeps (f c)) -> keeps (get_conn ≫= f).
Proof. intros H c. apply H. Qed.
Lemma keeps_modify f : (forall c, handshake_confirmed (f c) = handshake_confirmed c) -> keeps (modify f).
Proof. intros H c. apply H. Qed.
Lemma keeps_fail {A} e : keeps (fail (A := A) e).
Proof. done. Qed.
Lemma keeps_close_with {A} e : keeps (close_with (A := A) e).
Proof. done. Qed.
Create HintDb keeps.
#[export] Hint Resolve keeps_ret keeps_fail keeps_close_with : keeps.

Section conn_keeps.
Context (tr : Conn -> Space -> list Frame -> bool -> result Error unit) (client_bidi server_uni : Z)
  (stream_type stream_index : Z -> Z) (make_stream_id : Z -> Z -> Z) (now : Z).

Lemma keeps_send space frames pad : keeps (send_packet tr now space frames pad).
Proof. intros c. unfold send_packet. destruct (tr c space frames pad); [|done]. by destruct frames. Qed.
#[local] Hint Resolve keeps_send : keeps.

Ltac keeps_steps :=
  repeat match goal with
  | |- keeps (get_conn ≫= _) => apply keeps_get; intros ?
  | |- keeps (_ ≫= _) => apply keeps_bind; [|intros ?]
  | |- keeps (if ?b then _ else _) => destruct b
  | |- keeps (match ?o with _ => _ end) => destruct o
  | |- keeps (modify _) => apply keeps_modify; intros ?; try done
  end; auto with keeps.

Lemma keeps_replenish : keeps (maybe_replenish_windows tr now).
Proof. unfold maybe_replenish_windows. keeps_steps. Qed.
Lemma keeps_replenish_uni id : keeps (maybe_replenish_uni tr now id).
Proof. unfold maybe_replenish_uni. keeps_steps. Qed.
#[local] Hint Resolve keeps_replenish keeps_replenish_uni : keeps.

Lemma keeps_on_stream id off d fin : keeps (on_stream tr client_bidi server_uni stream_type stream_index now id off d fin).
Proof. unfold on_stream. keeps_steps. Qed.

Lemma keeps_on_ack space largest delay ranges : keeps (on_ack now space largest delay ranges).
Proof.
  intros c. unfold on_ack, update_rtt. destruct (_ <$> _); [|done]. cbn [snd]. by destruct (srtt _).
Qed.
#[local] Hint Resolve keeps_on_stream keeps_on_ack : keeps.

Lemma keeps_on_frame space f :
  keeps (on_frame tr (fun _ _ _ => mret tt) client_bidi server_uni stream_type stream_index now space f).
Proof. unfold on_frame. destruct f; keeps_steps; match goal with |- context [if ?b then _ else _] => by destruct b end. Qed.

Lemma keeps_flush_acks c : handshake_confirmed (flush_acks tr now c) = handshake_confirmed c.
Proof.
  assert (forall sp c, handshake_confirmed (flush_acks_space tr now sp c) = handshake_confirmed c) as H.
  { intros sp c0. unfold flush_acks_space. destruct (at_space _ sp) as [|p ps]; [done|]. destruct (_ && _); [done|].
    destruct (build_ack_frame _) as [la rs]. by rewrite keeps_send. }
  unfold flush_acks. by rewrite !H.
Qed.

Lemma keeps_chunks id chunks : keeps (send_chunks tr now id chunks).
Proof. induction chunks as [|[[off d] fin] chunks IH]; cbn [send_chunks]; keeps_steps. Qed.

Lemma keeps_flush_query : keeps (flush_query_send tr now).
Proof.
  intros c. unfold flush_query_send. destruct (query_tx c) as [q|]; [|done]. destruct (qs_fin_sent q); [done|].
  destruct (_ =? _); [done|]. destruct (chunk_loop _ _ _ _ _ _) as [[chunks n]|]; [|done]. by rewrite keeps_chunks.
Qed.

Lemma keeps_resend l : keeps (resend tr now l).
Proof. induction l as [|p l IH]; cbn [resend]; keeps_steps. Qed.
#[local] Hint Resolve keeps_flush_query keeps_resend : keeps.

Lemma keeps_run_pto : keeps (run_pto tr now).
Proof. unfold run_pto. keeps_steps. Qed.

Lemma keeps_open_query query : keeps (open_query tr client_bidi make_stream_id now query).
Proof. unfold open_query. keeps_steps. Qed.

Lemma keeps_close c : handshake_confirmed (close tr now c) = handshake_confirmed c.
Proof. unfold close. destruct (_ || _); [done|]. exact (keeps_send SpApplication [FConnectionClose 0] false c). Qed.
End conn_keeps.

(** ** A confirmed connection is an authenticated one *)

Section confirmed.
Context {TC : TlsCrypto} {PP : PacketProtection}.
Implicit Types l : Link.

(** The same certificate policy. *)
Definition same_trust (c d : ClientConfig) : Prop :=
  hostname d = hostname c /\ roots d = roots c /\ verify d = verify c /\ cfg_now d = cfg_now c.

(** The keys of the application space are those of the handshake's secrets, and the
    server's transport parameters name the identifiers this connection used. *)
Definition keyed l : Prop :=
  exists s cs ss aw ar p,
    hs_suite (tls l) = Some s /\ c_ap (tls l) = Some cs /\ s_ap (tls l) = Some ss /\
    app_write l = Some aw /\ key_from_secret s cs = Ok aw /\ app_read l = Some ar /\ key_from_secret s ss = Ok ar /\
    server_params (tls l) = Some p /\ differs (original_dcid l) (original_destination_connection_id p) = false /\
    match retry_scid l with Some r => differs r (retry_source_connection_id p) = false | None => True end.

Record link_ok (c0 : ClientConfig) l : Prop := {
  lk_reach : hs_reachable (tls l);
  lk_trust : same_trust c0 (cfg (tls l));
  lk_cfg : same_trust c0 (tls_cfg l);
  lk_keys : handshake_confirmed (conn l) = true -> done_ (tls l) = true /\ keyed l }.

Definition same_link l l' : Prop :=
  tls l' = tls l /\ tls_cfg l' = tls_cfg l /\ app_write l' = app_write l /\ app_read l' = app_read l /\
  original_dcid l' = original_dcid l /\ retry_scid l' = retry_scid l /\
  handshake_confirmed (conn l') = handshake_confirmed (conn l).

Lemma link_ok_same c0 l l' : same_link l l' -> link_ok c0 l -> link_ok c0 l'.
Proof.
  intros (E1 & E2 & E3 & E4 & E5 & E6 & E7) [H1 H2 H3 H4]. constructor; [by rewrite E1|by rewrite E1|by rewrite E2|].
  rewrite E1, E7. unfold keyed. rewrite E1, E3, E4, E5, E6. exact H4.
Qed.

Lemma LM_bind_Ok {A B} (m : LM A) (f : A -> LM B) l b l' :
  (m ≫= f) l = (Ok b, l') <-> exists a l1, m l = (Ok a, l1) /\ f a l1 = (Ok b, l').
Proof.
  unfold mbind, LM_bind. destruct (m l) as [[a|e] l1].
  - split; [eauto|by intros (? & ? & [= <- <-] & ?)].
  - split; [done|by intros (? & ? & ? & _)].
Qed.

(** Successful handlers keep [J]. *)
Definition preserves (J : Link -> Prop) {A} (m : LM A) : Prop := forall l a l', J l -> m l = (Ok a, l') -> J l'.

Lemma preserves_ret J {A} (a : A) : preserves J (mret a).
Proof. by intros l x l' H [= _ <-]. Qed.
Lemma preserves_bind J {A B} (m : LM A) (f : A -> LM B) : preserves J m -> (forall a, preserves J (f a)) -> preserves J (m ≫= f).
Proof. intros H F l b l' Hl E. apply LM_bind_Ok in E as (a & l1 & E1 & E2). eapply F; [|done]. by eapply H. Qed.
Lemma preserves_get J {A} (f : Link -> LM A) : (forall l, preserves J (f l)) -> preserves J (get_link ≫= f).
Proof. intros H l b l' Hl E. by apply (H l l b l'). Qed.
Lemma preserves_result J {A} (r : result Error A) : preserves J (of_result r).
Proof. by intros l a l' H [= _ <-]. Qed.
Lemma preserves_update (J : Link -> Prop) f : (forall l, J l -> J (f l)) -> preserves J (update f).
Proof. intros H l a l' Hl [= _ <-]. by apply H. Qed.
Lemma preserves_close J {A} e : preserves J (close_link (A := A) e).
Proof. by intros l a l' H E. Qed.

Lemma preserves_conn c0 {A} (m : Link -> QuicConn.M A) : (forall l, keeps (m l)) -> preserves (link_ok c0) (on_conn m).
Proof.
  intros K l a l' H E. unfold on_conn in E. specialize (K l (conn l)). destruct (m l (conn l)) as [r c]. injection E as _ <-. cbn [snd] in K.
  eapply link_ok_same; [|done]. by repeat split.
Qed.

Lemma on_conn_same {A} (m : Link -> QuicConn.M A) l r l' : (forall l, keeps (m l)) -> on_conn m l = (r, l') -> same_link l l' /\ crypto_tx l' = crypto_tx l.
Proof.
  intros K E. unfold on_conn in E. specialize (K l (conn l)). destruct (m l (conn l)) as [r0 c]. injection E as _ <-. cbn [snd] in K.
  by repeat split.
Qed.


Context (client_bidi server_uni : Z) (stream_type stream_index : Z -> Z) (make_stream_id : Z -> Z -> Z) (now : Z).

Lemma send_crypto_same space d off pad l r l' : send_crypto now space d off pad l = (r, l') -> same_link l l'.
Proof.
  intros E. unfold send_crypto, link_send in E. apply on_conn_same in E as [? _]; [done|]. intros l0. apply keeps_send.
Qed.

Lemma validated l l' : validate_server_transport_params l = (Ok tt, l') ->
  same_link l l' /\ exists p, server_params (tls l) = Some p /\ differs (original_dcid l) (original_destination_connection_id p) = false /\
    match retry_scid l with Some r => differs r (retry_source_connection_id p) = false | None => True end.
Proof.
  intros E. unfold validate_server_transport_params in E. apply LM_bind_Ok in E as (l1 & l2 & [= <- <-] & E).
  apply LM_bind_Ok in E as (p & l1 & E1 & E). unfold of_result in E1. injection E1 as P <-. apply ok_or_Ok in P.
  apply LM_bind_Ok in E as ([] & l1 & E1 & E). injection E1 as D1 <-. apply reject_if_Ok in D1.
  apply LM_bind_Ok in E as ([] & l1 & E1 & E). injection E1 as _ <-.
  apply LM_bind_Ok in E as ([] & l1 & E1 & E). injection E1 as D3 <-. apply reject_if_Ok in D3.
  apply LM_bind_Ok in E as ([] & l1 & E1 & E). injection E1 as <-. apply LM_bind_Ok in E as (l2 & l3 & [= <- <-] & E). injection E as _ <-.
  split.
  - repeat split. cbn [set_conn conn]. unfold apply_limits. by repeat destruct (0 <? _).
  - exists p. split; [done|]. split; [done|]. by destruct (retry_scid l).
Qed.

Lemma key_of_Ok what s secret missing k : key_of what s secret missing = Ok k -> exists cs, secret = Some cs /\ key_from_secret s cs = Ok k.
Proof.
  unfold key_of. intros (cs & -> & H)%ok_or_bind. exists cs. split; [done|]. destruct (key_from_secret s cs); [|done]. by injection H as ->.
Qed.

Lemma handshake_done_ok c0 c l l' : hs_reachable (tls l) -> same_trust c0 (cfg (tls l)) -> same_trust c0 (tls_cfg l) ->
  done_ (tls l) = true -> hs_suite (tls l) = Some (cp_suite c) -> handshake_done now c l = (Ok tt, l') -> link_ok c0 l'.
Proof.
  intros R T1 T2 D S E. unfold handshake_done in E. apply LM_bind_Ok in E as (l1 & l2 & [= <- <-] & E).
  apply LM_bind_Ok in E as (hw & l1 & E1 & E). injection E1 as _ <-.
  apply LM_bind_Ok in E as (aw & l1 & E1 & E). injection E1 as K2 <-. apply key_of_Ok in K2 as (cs & C & K2).
  apply LM_bind_Ok in E as (ar & l1 & E1 & E). injection E1 as K3 <-. apply key_of_Ok in K3 as (ss & SS & K3).
  apply LM_bind_Ok in E as ([] & l1 & E1 & E). injection E1 as <-. apply LM_bind_Ok in E as ([] & l1 & E1 & E).
  apply validated in E1 as (V1 & p & P & D1 & D2). apply LM_bind_Ok in E as (l2 & l3 & [= <- <-] & E).
  apply LM_bind_Ok in E as ([] & l2 & E1 & E). apply send_crypto_same in E1. rename E1 into V2.
  apply LM_bind_Ok in E as ([] & l3 & E1 & E). injection E1 as <-. injection E as <-.
  cbn [tls original_dcid retry_scid set_app_keys] in P, D1, D2.
  destruct V1 as (A1 & A2 & A3 & A4 & A5 & A6 & _), V2 as (B1 & B2 & B3 & B4 & B5 & B6 & _).
  cbn [tls tls_cfg app_write app_read original_dcid retry_scid set_app_keys] in *.
  assert (tls l2 = tls l) as Et by congruence. constructor; cbn [tls tls_cfg conn set_conn set_crypto_tx].
  - by rewrite Et.
  - by rewrite Et.
  - by replace (tls_cfg l2) with (tls_cfg l) by congruence.
  - intros _. rewrite Et. split; [done|]. unfold keyed. cbn [tls app_write app_read original_dcid retry_scid set_conn set_crypto_tx].
    rewrite Et, B5, A5, B6, A6. exists (cp_suite c), cs, ss, aw, ar, p. conjs; try done; congruence.
Qed.

Lemma derive_read_key_same l l' : derive_read_key l = (Ok tt, l') -> same_link l l'.
Proof.
  intros E. unfold derive_read_key in E. apply LM_bind_Ok in E as (l1 & l2 & [= <- <-] & E).
  destruct (hs_read l), (s_hs (tls l)) as [sec|]; try (injection E as <-; by repeat split).
  apply LM_bind_Ok in E as (s & l1 & E1 & E). injection E1 as _ <-. apply LM_bind_Ok in E as (k & l1 & E1 & E). injection E1 as _ <-.
  injection E as <-. by repeat split.
Qed.

Lemma tls_message_ok c0 msg : preserves (link_ok c0) (tls_message now msg).
Proof.
  intros l [] l' [R T1 T2 K] E. unfold tls_message in E. apply LM_bind_Ok in E as (l1 & l2 & [= <- <-] & E).
  pose proof (hs_feed _ msg R) as R'. pose proof (feed_cfg (tls l) msg) as Cf. pose proof (feed_completed (tls l) msg) as Fc.
  pose proof (feed_when_done (tls l) msg (reachable_stage _ R)) as Fd. destruct (feed (tls l) msg) as [r t]. cbn [fst snd] in *.
  apply LM_bind_Ok in E as ([] & l1 & E1 & E). injection E1 as <-. apply LM_bind_Ok in E as (o & l1 & E1 & E). injection E1 as -> <-.
  destruct o as [c|].
  - destruct (Fc c eq_refl) as [D S]. eapply handshake_done_ok; [..|exact E]; cbn [set_tls tls tls_cfg]; try done. by rewrite Cf.
  - apply derive_read_key_same in E. eapply link_ok_same; [exact E|]. constructor; cbn [set_tls tls tls_cfg conn]; [done|by rewrite Cf|done|].
    intros Cn. destruct (K Cn) as [D _]. by destruct (Fd D).
Qed.

#[local] Hint Resolve preserves_ret preserves_result preserves_close tls_message_ok : keeps.

(** Updates of fields the invariant does not read. *)
Lemma preserves_same c0 f : (forall l, same_link l (f l)) -> preserves (link_ok c0) (update f).
Proof. intros H. apply preserves_update. intros l Hl. eapply link_ok_same; [apply H|done]. Qed.

Ltac link_steps :=
  repeat match goal with
  | |- preserves _ (get_link ≫= _) => apply preserves_get; intros ?
  | |- preserves _ (_ ≫= _) => apply preserves_bind; [|intros ?]
  | |- preserves _ (update _) => apply preserves_same; intros ?; repeat split
  | |- preserves _ (if ?b then _ else _) => destruct b
  | |- preserves _ (match ?o with _ => _ end) => destruct o
  end; auto with keeps.

Lemma crypto_loop_ok c0 fuel space : preserves (link_ok c0) (crypto_loop now fuel space).
Proof. induction fuel as [|fuel IH]; cbn [crypto_loop]; link_steps. Qed.
#[local] Hint Resolve crypto_loop_ok : keeps.

Lemma on_crypto_ok c0 space off d : preserves (link_ok c0) (on_crypto now space off d).
Proof. unfold on_crypto. link_steps. Qed.
#[local] Hint Resolve on_crypto_ok : keeps.

Lemma link_frame_ok c0 space f : preserves (link_ok c0) (link_frame client_bidi server_uni stream_type stream_index now space f).
Proof.
  unfold link_frame. destruct f; try (apply preserves_conn; intros ?; apply keeps_on_frame). link_steps.
Qed.
#[local] Hint Resolve link_frame_ok : keeps.

Lemma link_frames_ok c0 space fs b : preserves (link_ok c0) (link_frames client_bidi server_uni stream_type stream_index now space fs b).
Proof. revert b. induction fs as [|f fs IH]; intros b; cbn [link_frames]; link_steps. Qed.
#[local] Hint Resolve link_frames_ok : keeps.

Lemma plaintext_ok c0 space pn pt : preserves (link_ok c0) (process_plaintext client_bidi server_uni stream_type stream_index now space pn pt).
Proof. unfold process_plaintext. link_steps. Qed.
#[local] Hint Resolve plaintext_ok : keeps.

Lemma packet_ok c0 dg : preserves (link_ok c0) (process_packet client_bidi server_uni stream_type stream_index now dg).
Proof.
  unfold process_packet. link_steps; match goal with |- context [if ?b then _ else _] => by destruct b end.
Qed.

(** A Retry begins a handshake for the same host, before the connection is confirmed. *)
Lemma retry_ok c0 rnd dg : preserves (link_ok c0) (process_retry now rnd dg).
Proof.
  intros l [] l' H E. unfold process_retry in E. apply LM_bind_Ok in E as (r & l1 & E1 & E). injection E1 as _ <-.
  apply LM_bind_Ok in E as (l1 & l2 & [= <- <-] & E). destruct (negb (bool_decide (rt_dcid r = _))); [by injection E as <-|].
  destruct (_ || _) eqn:Sc in E; [done|]. apply orb_false_iff in Sc as [[_ Cn]%orb_false_iff _].
  apply LM_bind_Ok in E as (ok & l1 & E1 & E). injection E1 as _ <-. destruct (negb ok); [by injection E as <-|].
  unfold apply_retry in E. destruct (key_initial _ false) as [iw|]; [|done]. destruct (key_initial _ true) as [ir|]; [|done].
  destruct rnd as [[random secret] public]. apply LM_bind_Ok in E as ([] & l1 & E1 & E). injection E as <-.
  apply send_crypto_same in E1. destruct E1 as (A1 & A2 & _ & _ & _ & _ & A7).
  pose proof (hs_start (retry_config (tls_cfg l) (rt_scid r)) random secret public) as R.
  destruct H as [_ _ T2 _]. constructor; cbn [tls tls_cfg conn set_crypto_tx].
  - rewrite A1. exact R.
  - rewrite A1. exact T2.
  - rewrite A2. exact T2.
  - rewrite A7. cbn. intros C. congruence.
Qed.
#[local] Hint Resolve packet_ok retry_ok : keeps.

Lemma datagram_ok c0 rnd dg : preserves (link_ok c0) (process_datagram client_bidi server_uni stream_type stream_index now rnd dg).
Proof.
  unfold process_datagram. generalize (S (length dg)). intros fuel. revert dg. induction fuel as [|fuel IH]; intros dg; cbn [datagram_loop]; link_steps.
Qed.

Lemma loop_tail_ok c0 b : preserves (link_ok c0) (loop_tail now b).
Proof.
  unfold loop_tail. apply preserves_bind; [apply preserves_same; intros l; by destruct b; repeat split|intros _].
  apply preserves_bind; [|intros _].
  { apply preserves_same. intros l. repeat split. cbn. apply keeps_flush_acks. }
  apply preserves_bind; [apply preserves_conn; intros; apply keeps_run_pto|intros _]. apply preserves_get. intros l.
  destruct (handshake_confirmed (conn l)); [|auto with keeps]. apply preserves_conn. intros. apply keeps_flush_query.
Qed.

Lemma open_query_ok c0 query : preserves (link_ok c0) (open_link_query client_bidi make_stream_id now query).
Proof. apply preserves_conn. intros. apply keeps_open_query. Qed.

Lemma connect_ok cfg local server rnd l : connect now local server cfg rnd = Ok l -> link_ok cfg l.
Proof.
  unfold connect. destruct rnd as [[random secret] public]. cbn [client_hello]. intros (iw & _ & E)%bind_Ok. apply bind_Ok in E as (ir & _ & E).
  match type of E with match ?m ?l0 with _ => _ end = _ => destruct (m l0) as [[[]|e] l1] eqn:M; [|done]; set (l00 := l0) in M end.
  injection E as <-. apply LM_bind_Ok in M as ([] & l2 & M1 & M). injection M as <-. apply send_crypto_same in M1.
  apply (link_ok_same cfg l00); [destruct M1 as (? & ? & ? & ? & ? & ? & ?); by repeat split|]. constructor; cbn; [apply hs_start|done|done|done].
Qed.
End confirmed.

Section runs.
Context {TC : TlsCrypto} {PP : PacketProtection}.
Context (client_bidi server_uni : Z) (stream_type stream_index : Z -> Z) (make_stream_id : Z -> Z -> Z).

(** A connection in use: after [connect], datagrams, passes of the event loop, queries and
    a close, in any order and at any times, as long as none of them fails; a failure ends
    the connection. *)
Inductive link_run (c0 : ClientConfig) : Link -> Prop :=
| run_connect now local server rnd l : connect now local server c0 rnd = Ok l -> link_run c0 l
| run_datagram now rnd dg l l' : link_run c0 l ->
    process_datagram client_bidi server_uni stream_type stream_index now rnd dg l = (Ok tt, l') -> link_run c0 l'
| run_loop now received_any l l' : link_run c0 l -> loop_tail now received_any l = (Ok tt, l') -> link_run c0 l'
| run_query now query l l' : link_run c0 l -> open_link_query client_bidi make_stream_id now query l = (Ok tt, l') -> link_run c0 l'
| run_close now l : link_run c0 l -> link_run c0 (snd (close_query_connection now l)).

Lemma link_run_ok c0 l : link_run c0 l -> link_ok c0 l.
Proof.
  induction 1 as [now local server rnd l E|now rnd dg l l' _ IH E|now b l l' _ IH E|now q l l' _ IH E|now l _ IH].
  - by eapply connect_ok.
  - by eapply datagram_ok.
  - by eapply loop_tail_ok.
  - by eapply open_query_ok.
  - eapply link_ok_same; [|exact IH]. repeat split. cbn. apply keeps_close.
Qed.

End runs.

(** ** A connection from end to end *)

#[local] Existing Instance plain_crypto.
#[local] Existing Instance plain_varints.
(** Packets in the clear, each one CRYPTO frame behind a two-octet offset. *)
#[local] Instance plain_packets : PacketProtection := {
  PacketKey := list Z;
  key_initial cid server := Ok cid;
  key_from_secret s secret := Ok secret;
  unprotect_header k packet off is_long := Some (packet, 1);
  key_open k pn header payload := Some payload;
  decode_pn bs expected n := be_val bs;
  decode_frames pt := [FCrypto (be_val (take 2 pt)) (drop 2 pt)];
  verify_retry_integrity odcid wire tag := Ok (bool_decide (tag = replicate 16 1));
  seal_and_send k space dcid scid token pn frames pad := Ok tt }.

Definition sample_packet (first : Z) (token : list Z) (pn : Z) (offset : Z) (data : list Z) : list Z :=
  let payload := be_bytes 2 offset ++ data in
  [first] ++ be_bytes 4 1 ++ [4; 1; 2; 3; 4] ++ [2; 7; 7] ++ token ++ rfc_varint_encode (1 + zlen payload) ++ [pn] ++ payload.
Definition sample_datagram : list Z :=
  sample_packet 0xc0 [0] 0 0 sample_hello ++
  sample_packet 0xe0 [] 0 0 (sample_extensions ++ sample_certificate ++ sample_verify ++ sample_finished).

Definition sample_rnd : list Z * list Z * list Z := (replicate 32 5, replicate 32 1, replicate 32 2).
Definition sample_link : result Error Link := connect 0 [1; 2; 3; 4] [9; 9] sample_client sample_rnd.
(** The datagram taken by a connection that could be opened. *)
Definition after_datagram (r : result Error Link) : result Error unit * option Link :=
  match r with
  | Ok l => let '(r, l) := process_datagram 0 3 (fun i => i mod 4) (fun i => i / 4) 5 sample_rnd sample_datagram l in (r, Some l)
  | Err e => (Err e, None)
  end.
Definition sample_connected : result Error unit * option Link := after_datagram sample_link.

Example sample_confirmed :
  fst sample_connected = Ok tt /\ (handshake_confirmed ∘ conn <$> snd sample_connected) = Some true /\
  (server_cid <$> snd sample_connected) = Some [7; 7].
Proof. vm_compute. split; [reflexivity|split; reflexivity]. Qed.

Definition sample_query (l : Link) : result Error unit * Link := open_link_query 0 (fun _ i => 4 * i) 6 [0; 1; 7] l.

Lemma sample_connected_eq : sample_connected = after_datagram sample_link.
Proof. reflexivity. Qed.

Lemma sample_query_sent : match snd sample_connected with Some l => fst (sample_query l) | None => Err not_confirmed end = Ok tt.
Proof. vm_compute. reflexivity. Qed.

(** A connection a datagram was taken on. *)
Lemma after_datagram_run r l : after_datagram sample_link = (Ok r, Some l) ->
  link_run 0 3 (fun i => i mod 4) (fun i => i / 4) (fun _ i => 4 * i) sample_client l.
Proof.
  intros H. destruct sample_link as [l0|e] eqn:E0; [|discriminate H]. cbn [after_datagram] in H.
  destruct (process_datagram _ _ _ _ _ _ _ l0) as [[[]|e] l1] eqn:E1; [|discriminate H]. injection H as _ <-.
  eapply run_datagram; [|exact E1]. eapply run_connect. exact E0.
Qed.


(** ** What a peer off the path can do, and what a server may leave out *)

(** A packet that does not even open sets the connection identifier of the server, without
    being addressed to this connection: a spoofed Initial from the server's address decides
    where the client's packets go. *)
#[local] Instance sealed_packets : PacketProtection := {
  PacketKey := list Z;
  key_initial cid server := Ok cid;
  key_from_secret s secret := Ok secret;
  unprotect_header k packet off is_long := Some (packet, 1);
  key_open k pn header payload := None;
  decode_pn bs expected n := be_val bs;
  decode_frames pt := [];
  verify_retry_integrity odcid wire tag := Ok false;
  seal_and_send k space dcid scid token pn frames pad := Ok tt }.

Definition spoofed_initial : list Z := [0xc0] ++ be_bytes 4 1 ++ [0] ++ [2; 66; 66] ++ [0] ++ rfc_varint_encode 8 ++ replicate 8 0.

Example spoofed_scid :
  match connect (PP := sealed_packets) 0 [1; 2; 3; 4] [9; 9] sample_client sample_rnd with
  | Ok l =>
      let l' := snd (process_datagram (PP := sealed_packets) 0 3 (fun i => i mod 4) (fun i => i / 4) 5 sample_rnd spoofed_initial l) in
      server_cid l = [9; 9] /\ server_cid l' = [66; 66] /\ saw_server_scid l' = true
  | Err _ => False
  end.
Proof. vm_compute. split; [reflexivity|split; reflexivity]. Qed.

(** A server that sends none of its connection identifiers is accepted, and one that allows
    no data and no stream leaves the client without a limit and with one stream. *)
Example absent_parameters (c : Conn) :
  let p := mkSTP 0 0 0 0 None None None in
  differs [9; 9] (original_destination_connection_id p) = false /\ differs [7; 7] (initial_source_connection_id p) = false /\
  peer_max_data (apply_limits p conn_new) = u64_max /\ peer_max_streams_bidi (apply_limits p conn_new) = 1.
Proof. vm_compute. split; [reflexivity|split; [reflexivity|split; reflexivity]]. Qed.

(** ** DoQ framing *)

(** a query is framed with its length exactly when it fits; the frame of a message is
    read back as that message, and nothing longer or shorter is accepted. *)
Theorem doq_frame_round_trip query :
  (MAX_TCP_MESSAGE < zlen query -> frame_query query = Err (transport "query too large for DoQ")) /\
  (zlen query <= MAX_TCP_MESSAGE -> exists framed, frame_query query = Ok framed /\ zlen framed = 2 + zlen query /\
     doq_answer framed = (message_parse query ≫= fun _ => Ok query) /\
     (forall extra, extra <> [] -> is_ok (doq_answer (framed ++ extra)) = false) /\
     (forall n, (n < length framed)%nat -> is_ok (doq_answer (take n framed)) = false)).
Proof.
  unfold frame_query. split; [intros H; by rewrite (proj2 (Z.ltb_lt _ _)) by done|]. intros H. rewrite (proj2 (Z.ltb_ge _ _)) by done.
  pose proof (zlen_nonneg query) as P. unfold MAX_TCP_MESSAGE in H. assert (wrap 16 (zlen query) = zlen query) as W by (apply Z.mod_small; lia).
  rewrite W. eexists. split; [done|]. split; [rewrite zlen_app, zlen_be_bytes; lia|].
  assert (forall rest, u16_at (be_bytes 2 (zlen query) ++ rest) 0 = Ok (zlen query)) as U.
  { intros rest. apply (u16_at_middle []); [unfold is_u16; lia|unfold zlen, usize_max; cbn; lia]. }
  assert (forall rest, deframe_response (be_bytes 2 (zlen query) ++ rest) = if zlen rest =? zlen query then message_parse rest else Err (wire "DoQ response length mismatch")) as D.
  { intros rest. pose proof (zlen_nonneg rest). unfold deframe_response. rewrite zlen_app, zlen_be_bytes. change (Z.of_nat 2) with 2.
    rewrite (proj2 (Z.ltb_ge _ _)) by lia. cbn [reject_if mbind result_bind]. rewrite U. cbn [mbind result_bind].
    replace (2 + zlen rest =? 2 + zlen query) with (zlen rest =? zlen query) by (apply eq_true_iff_eq; rewrite !Z.eqb_eq; lia).
    destruct (_ =? _); [|done]. cbn [negb reject_if mbind result_bind]. pose proof (rest_at_app (be_bytes 2 (zlen query)) rest) as R.
    rewrite zlen_be_bytes in R. change (Z.of_nat 2) with 2 in R. by rewrite R. }
  unfold doq_answer. split; [|split].
  - rewrite D, Z.eqb_refl. destruct (message_parse query); [|done]. cbn [mbind result_bind].
    pose proof (rest_at_app (be_bytes 2 (zlen query)) query) as R. rewrite zlen_be_bytes in R. exact R.
  - intros extra Hx. rewrite <- app_assoc, D. destruct (zlen (query ++ extra) =? zlen query) eqn:E; [|done].
    apply Z.eqb_eq in E. rewrite zlen_app in E. destruct extra; [done|]. rewrite zlen_cons in E. pose proof (zlen_nonneg extra). lia.
  - intros n Hn. destruct (decide (2 <= n)%nat) as [H2|H2].
    + rewrite take_app_ge by (cbn; lia). rewrite D. change (length (be_bytes 2 (zlen query))) with 2%nat.
      destruct (zlen (take (n - 2) query) =? zlen query) eqn:E; [|done]. apply Z.eqb_eq in E. rewrite length_app in Hn. cbn in Hn.
      unfold zlen in E. rewrite length_take in E. lia.
    + unfold deframe_response. replace (zlen (take n (be_bytes 2 (zlen query) ++ query)) <? 2) with true; [done|].
      symmetry. apply Z.ltb_lt. unfold zlen. rewrite length_take. lia.
Qed.
