(* ===== verification/Transports.v ===== *)
(** * Transports ([src/transport.rs], [src/transports/])

    One exchange of a query over UDP, TCP, TLS, HTTPS and QUIC, and the choice among
    them.  The operating system's sockets, the TLS and HTTP stack and the QUIC client
    are the classes below; what the program does with them, the loops and checks around
    each call, is here.  A message travels as octets, a host name as its UTF-8 octets. *)
From stdpp Require Import pretty.
From S2P Require Import Prelude Wire Prng Name Compress Qtype Edns Bitmap RData Rr Message BTree Addr Upstream QuicRx QuicConn Tls QuicLink.

Definition MAX_UDP_PAYLOAD : Z := 4096.

(** ** The operating system and the third-party stacks *)

Inductive IoErrorKind := WouldBlock | TimedOut | ConnectionReset | OtherIo.
#[global] Instance IoErrorKind_eq_dec : EqDecision IoErrorKind.
Proof. solve_decision. Defined.

(** [std::net::SocketAddr]; the flow label and the scope belong to version 6. *)
Record SocketAddr := mkSocketAddr { sa_ip : IpAddr; sa_port : Z; sa_flowinfo : Z; sa_scope_id : Z }.
#[global] Instance SocketAddr_eq_dec : EqDecision SocketAddr.
Proof. solve_decision. Defined.

Definition socket_addr (ip : IpAddr) (port : Z) : SocketAddr := mkSocketAddr ip port 0 0.

(** [std::net] over the state [N] of the world, with socket handles [H]; a datagram
    comes with its sender, the octets of a read are at most those asked for. *)
Class Sockets (N H : Type) := {
  udp_bind : SocketAddr -> N -> result IoErrorKind H * N;
  set_read_timeout : H -> Z -> N -> result IoErrorKind unit * N;
  set_write_timeout : H -> Z -> N -> result IoErrorKind unit * N;
  udp_send_to : H -> list Z -> SocketAddr -> N -> result IoErrorKind unit * N;
  udp_recv_from : H -> N -> result IoErrorKind (list Z * SocketAddr) * N;
  tcp_connect : SocketAddr -> Z -> N -> result IoErrorKind H * N;
  tcp_write_all : H -> list Z -> N -> result IoErrorKind unit * N;
  tcp_read_exact : H -> Z -> N -> result IoErrorKind (list Z) * N }.

(** The configuration the program gives its TLS connector; [R] is the store of roots. *)
Record TlsSettings (R : Type) := mkTlsSettings {
  ts_roots : R; ts_verify : bool; ts_alpn : list (list Z); ts_now : Z }.
Arguments mkTlsSettings {R}.

(** The TLS stream of [courierust_tls]: a read reports a count and has written into
    the buffer. *)
Class TlsStreams (N H R L : Type) := {
  tls_connect : TlsSettings R -> list Z -> H -> N -> result IoErrorKind L * N;
  tls_write_all : L -> list Z -> N -> result IoErrorKind unit * N;
  tls_read : L -> Z -> N -> result IoErrorKind Z * list Z * N }.

(** The HTTP client of [courierust_client]. *)
Record HttpConfig (R : Type) := mkHttpConfig {
  hc_http2 : bool; hc_http3 : bool; hc_per_host : option Z; hc_tls : TlsSettings R; hc_max_body : Z }.
Arguments mkHttpConfig {R}.

Class HttpClients (N R C B : Type) := {
  with_config : HttpConfig R -> N -> C * N;
  post : C -> list Z -> list Z -> N -> result IoErrorKind (Z * B) * N;
  collect : B -> N -> result IoErrorKind (list Z) * N }.

(** The QUIC client ([QuicConnection], whose establishment and handlers are [QuicLink]
    and [QuicConn]) and a provider in its place. *)
Class QuicClients (N R Q P D : Type) := {
  quic_connect : Endpoint -> option (list Z) -> R -> bool -> Z -> Z -> N -> result Error Q * N;
  quic_is_open : Q -> bool;
  quic_exchange_query : Q -> list Z -> Z -> N -> result Error (list Z) * Q * N;
  provider_open : P -> Endpoint -> option (list Z) -> R -> bool -> Z -> N -> result Error D * N;
  doq_request : D -> list Z -> N -> result Error (list Z) * D * N;
  doq_close : D -> N -> N }.

(** ** Errors

    A text that interpolates a value is a constant. *)

Definition udp_error : Error := io "udp".
Definition udp_timed_out : Error := mkError Timeout "udp timeout waiting".
Definition tcp_error : Error := io "tcp".
Definition tcp_too_large : Error := transport "tcp message too large".
Definition dot_error : Error := io "dot".
Definition dot_handshake : Error := transport "dot handshake".
Definition dot_too_large : Error := transport "dot message too large".
Definition dot_closed : Error := transport "dot connection closed early".
Definition dot_overrun : Error := transport "dot read reported more bytes than the buffer holds".
Definition doh_request : Error := transport "doh request".
Definition doh_status : Error := transport "doh status".
Definition doh_body : Error := transport "doh body".

(** ** State and error over the world *)

(** The outcome of an exchange; [Waiting] is a receive loop that its fuel cut short. *)
Inductive Exchange (A : Type) := Got (a : A) | Lost (e : Error) | Waiting.
Arguments Got {A} a.
Arguments Lost {A} e.
Arguments Waiting {A}.

Definition of_result {A} (r : result Error A) : Exchange A := match r with Ok a => Got a | Err e => Lost e end.

Definition IO (N A : Type) : Type := N -> Exchange A * N.
#[global] Instance IO_ret {N} : MRet (IO N) := fun _ a w => (Got a, w).
#[global] Instance IO_bind {N} : MBind (IO N) := fun _ _ f m w =>
  match m w with
  | (Got a, w) => f a w
  | (Lost e, w) => (Lost e, w)
  | (Waiting, w) => (Waiting, w)
  end.
Definition lift {N A} (r : result Error A) : IO N A := fun w => (of_result r, w).

(** [.map_err(..)?] on a call of the system. *)
Definition sys {N A} (e : Error) (f : N -> result IoErrorKind A * N) : IO N A := fun w =>
  match f w with (Ok a, w) => (Got a, w) | (Err _, w) => (Lost e, w) end.

(** ** UDP ([transports/udp.rs]) *)

Record UdpTransport := mkUdp { receive_buffer : Z }.

Section udp.
Context {N H : Type} `{Sockets N H}.

(** The receive loop: the first datagram of the server asked, or the first error. *)
Fixpoint recv_loop (fuel : nat) (sock : H) (target : SocketAddr) (room : Z) : IO N (list Z) := fun w =>
  match fuel with
  | O => (Waiting, w)
  | S fuel =>
      match udp_recv_from sock w with
      | (Err k, w) => (Lost (if bool_decide (k = WouldBlock \/ k = TimedOut) then udp_timed_out else udp_error), w)
      | (Ok (datagram, src), w) =>
          if bool_decide (src = target) then (Got (take (Z.to_nat room) datagram), w)
          else recv_loop fuel sock target room w
      end
  end.

Definition udp_exchange (fuel : nat) (t : UdpTransport) (query : list Z) (ep : Endpoint) (timeout_ms : Z) : IO N (list Z) :=
  let bind_addr := socket_addr (match ep_ip ep with V4 _ => V4 0 | V6 _ => V6 0 end) 0 in
  sock ← sys udp_error (udp_bind bind_addr);
  _ ← sys udp_error (set_read_timeout sock timeout_ms);
  let target := socket_addr (ep_ip ep) (ep_port ep) in
  _ ← sys udp_error (udp_send_to sock query target);
  recv_loop fuel sock target (Z.max (receive_buffer t) MAX_UDP_PAYLOAD).
End udp.

(** ** Messages with a two-byte length *)

Definition framed (query : list Z) : list Z := be_bytes 2 (wrap 16 (zlen query)) ++ query.

(** ** TCP ([transports/tcp.rs]) *)

Record TcpTransport := mkTcp { max_message : Z; tcp_connect_timeout_ms : Z }.

Section tcp.
Context {N H : Type} `{Sockets N H}.

Definition read_message (r : H) (max : Z) : IO N (list Z) :=
  len_buf ← sys tcp_error (tcp_read_exact r 2);
  let len := be_val len_buf in
  if max <? len then lift (Err tcp_too_large) else sys tcp_error (tcp_read_exact r len).

Definition tcp_exchange (t : TcpTransport) (query : list Z) (ep : Endpoint) (timeout_ms : Z) : IO N (list Z) :=
  if MAX_TCP_MESSAGE <? zlen query then lift (Err (transport "query too large for DNS-over-TCP")) else
  stream ← sys tcp_error (tcp_connect (socket_addr (ep_ip ep) (ep_port ep)) timeout_ms);
  _ ← sys tcp_error (set_read_timeout stream timeout_ms);
  _ ← sys tcp_error (set_write_timeout stream timeout_ms);
  _ ← sys tcp_error (tcp_write_all stream (framed query));
  read_message stream (Z.max (max_message t) MAX_TCP_MESSAGE).
End tcp.

(** ** TLS ([transports/dot.rs]) *)

(** What a read that wrote [written] leaves in the buffer. *)
Definition overlay (buf written : list Z) : list Z := take (length buf) (written ++ drop (length written) buf).
#[global] Arguments overlay : simpl never.

Section tls.
Context {N H R L : Type} `{Sockets N H, TlsStreams N H R L}.

Record DotTransport := mkDot {
  dot_hostname : list Z; dot_roots : R; dot_verify : bool; dot_now : Z; connect_timeout_ms : Z }.

Definition dot_for_host (hostname : list Z) (roots : R) (verify : bool) (now : Z) : DotTransport :=
  mkDot hostname roots verify now 5000.

Definition dot_connector (t : DotTransport) : TlsSettings R :=
  mkTlsSettings (dot_roots t) (dot_verify t) [ascii_bytes "dot"] (dot_now t).

(** The buffer filled, from the front. *)
Fixpoint read_exact (fuel : nat) (r : L) (buf : list Z) : IO N (list Z) := fun w =>
  match buf, fuel with
  | [], _ => (Got [], w)
  | _, O => (Waiting, w)
  | _, S fuel =>
      let '(n, written, w) := tls_read r (zlen buf) w in
      match n with
      | Err _ => (Lost dot_error, w)
      | Ok n =>
          if n =? 0 then (Lost dot_closed, w) else
          let buf := overlay buf written in
          match get_from buf n with
          | None => (Lost dot_overrun, w)
          | Some rest => (tail ← read_exact fuel r rest; mret (take (Z.to_nat n) buf ++ tail)) w
          end
      end
  end.

(** The buffer's own length is fuel enough ([read_exact_decided]). *)
Definition read_exactly (r : L) (len : Z) : IO N (list Z) :=
  read_exact (Z.to_nat len) r (replicate (Z.to_nat len) 0).

Definition dot_read_message (r : L) : IO N (list Z) :=
  len_buf ← read_exactly r 2;
  let len := be_val len_buf in
  if MAX_TCP_MESSAGE <? len then lift (Err dot_too_large) else read_exactly r len.

Definition dot_exchange (t : DotTransport) (query : list Z) (ep : Endpoint) (timeout_ms : Z) : IO N (list Z) :=
  if MAX_TCP_MESSAGE <? zlen query then lift (Err (transport "query too large for DoT")) else
  let timeout := Z.max timeout_ms (connect_timeout_ms t) in
  stream ← sys dot_error (tcp_connect (socket_addr (ep_ip ep) (ep_port ep)) timeout);
  _ ← sys dot_error (set_read_timeout stream timeout);
  _ ← sys dot_error (set_write_timeout stream timeout);
  tls ← sys dot_handshake (tls_connect (dot_connector t) (dot_hostname t) stream);
  _ ← sys dot_error (tls_write_all tls (framed query));
  dot_read_message tls.
End tls.

(** ** HTTPS ([transports/doh.rs], [transports/doh3.rs]) *)

Definition default_path : list Z := ascii_bytes "/dns-query".

Section https.
Context {N R C B : Type} `{HttpClients N R C B}.

(** [DohTransport] and [Doh3Transport]: the same fields. *)
Record DohTransport := mkDoh {
  doh_hostname : list Z; doh_path : list Z; doh_roots : R; doh_verify : bool; doh_now : Z; doh_client : option C }.

Definition doh_for_host (hostname : list Z) (roots : R) (verify : bool) (now : Z) : DohTransport :=
  mkDoh hostname default_path roots verify now None.

Definition with_client (t : DohTransport) (c : C) : DohTransport :=
  mkDoh (doh_hostname t) (doh_path t) (doh_roots t) (doh_verify t) (doh_now t) (Some c).
Definition with_path (t : DohTransport) (path : list Z) : DohTransport :=
  mkDoh (doh_hostname t) path (doh_roots t) (doh_verify t) (doh_now t) (doh_client t).

Definition doh_config (t : DohTransport) : HttpConfig R :=
  mkHttpConfig true false None
    (mkTlsSettings (doh_roots t) (doh_verify t) [ascii_bytes "h2"; ascii_bytes "http/1.1"] (doh_now t)) MAX_TCP_MESSAGE.
Definition doh3_config (t : DohTransport) : HttpConfig R :=
  mkHttpConfig false true (Some 1)
    (mkTlsSettings (doh_roots t) (doh_verify t) [ascii_bytes "h3"] (doh_now t)) MAX_TCP_MESSAGE.

(** [client]: created once and kept. *)
Definition pooled_client (cfg : DohTransport -> HttpConfig R) (t : DohTransport) (w : N) : C * DohTransport * N :=
  match doh_client t with
  | Some c => (c, t, w)
  | None => let '(c, w) := with_config (cfg t) w in (c, with_client t c, w)
  end.

Definition doh_url (t : DohTransport) (ep : Endpoint) : list Z :=
  ascii_bytes "https://" ++ doh_hostname t ++ ascii_bytes ":" ++ ascii_bytes (pretty (ep_port ep)) ++ doh_path t.

(** One request.  The time limit is ignored, and so is the address. *)
Definition doh_fetch (c : C) (url query : list Z) : IO N (list Z) :=
  '(status, body) ← sys doh_request (post c url query);
  if negb (status =? 200) then lift (Err doh_status) else
  body ← sys doh_body (collect body);
  if MAX_TCP_MESSAGE <? zlen body then lift (Err (transport "doh response too large")) else mret body.

Definition http_exchange (cfg : DohTransport -> HttpConfig R) (t : DohTransport) (query : list Z) (ep : Endpoint)
    (timeout_ms : Z) (w : N) : Exchange (list Z) * DohTransport * N :=
  let '(c, t, w) := pooled_client cfg t w in
  let '(r, w) := doh_fetch c (doh_url t ep) query w in
  (r, t, w).

Definition doh_exchange := http_exchange doh_config.
Definition doh3_exchange := http_exchange doh3_config.
End https.
Arguments DohTransport : clear implicits.

(** ** QUIC ([transports/doq/mod.rs]) *)

Section quic.
Context {N R Q P D : Type} `{QuicClients N R Q P D}.

Record DoqTransport := mkDoq {
  doq_host : option (list Z); doq_roots : R; doq_verify : bool; doq_now : Z; doq_provider : option P; doq_conn : option Q }.

Definition doq_for_host (hostname : list Z) (roots : R) (verify : bool) (now : Z) : DoqTransport :=
  mkDoq (Some hostname) roots verify now None None.

Definition keep_conn (t : DoqTransport) (c : option Q) : DoqTransport :=
  mkDoq (doq_host t) (doq_roots t) (doq_verify t) (doq_now t) (doq_provider t) c.

(** A query through a provider: a session opened for it, and closed whatever it answers. *)
Definition doq_by_provider (t : DoqTransport) (p : P) (query : list Z) (ep : Endpoint) (w : N) : result Error (list Z) * N :=
  match provider_open p ep (doq_host t) (doq_roots t) (doq_verify t) (doq_now t) w with
  | (Err e, w) => (Err e, w)
  | (Ok d, w) => let '(r, d, w) := doq_request d query w in (r, doq_close d w)
  end.

(** The connection kept from before if it is open, else a new one. *)
Definition doq_connection (t : DoqTransport) (ep : Endpoint) (timeout_ms : Z) (w : N) : result Error Q * N :=
  let fresh := quic_connect ep (doq_host t) (doq_roots t) (doq_verify t) (doq_now t) timeout_ms w in
  match doq_conn t with
  | Some c => if quic_is_open c then (Ok c, w) else fresh
  | None => fresh
  end.

Definition doq_exchange (t : DoqTransport) (query : list Z) (ep : Endpoint) (timeout_ms : Z) (w : N) :
    Exchange (list Z) * DoqTransport * N :=
  if MAX_TCP_MESSAGE <? zlen query then (Lost (transport "query too large for DoQ"), t, w) else
  match frame_query query with
  | Err e => (Lost e, t, w)
  | Ok frame =>
      match doq_provider t with
      | Some p =>
          let '(r, w) := doq_by_provider t p frame ep w in
          (of_result (resp ← r; doq_answer resp), t, w)
      | None =>
          match doq_connection t ep timeout_ms w with
          | (Err e, w) => (Lost e, t, w)
          | (Ok c, w) =>
              match quic_exchange_query c frame timeout_ms w with
              | (Ok resp, c, w) => (of_result (doq_answer resp), keep_conn t (Some c), w)
              | (Err e, c, w) => (Lost e, keep_conn t None, w)
              end
          end
      end
  end.
End quic.
Arguments DoqTransport : clear implicits.

(** ** The set of transports ([src/transport.rs]) *)

Section transports.
Context {N H R L C B Q P D : Type}.
Context `{Sockets N H, TlsStreams N H R L, HttpClients N R C B, QuicClients N R Q P D}.

Record Transports := mkTransports {
  tr_udp : UdpTransport; tr_tcp : TcpTransport; tr_dot : DotTransport (R := R);
  tr_doh : DohTransport R C; tr_doh3 : DohTransport R C; tr_doq : DoqTransport R Q P }.

(** [Transports::new]; [empty] is the empty store of roots, [now] the clock's seconds. *)
Definition transports_new (empty : R) (now : Z) : Transports :=
  let google := ascii_bytes "dns.google" in
  mkTransports (mkUdp 0) (mkTcp 0 0) (mkDot (ascii_bytes "localhost") empty false 0 5000)
    (doh_for_host google empty false 0) (doh_for_host google empty false 0)
    (mkDoq None empty true now None None).

Definition transports_exchange (fuel : nat) (t : Transports) (ep : Endpoint) (query : list Z) (timeout_ms : Z) (w : N) :
    Exchange (list Z) * Transports * N :=
  match ep_proto ep with
  | Udp => let '(r, w) := udp_exchange fuel (tr_udp t) query ep timeout_ms w in (r, t, w)
  | Tcp => let '(r, w) := tcp_exchange (tr_tcp t) query ep timeout_ms w in (r, t, w)
  | Upstream.Tls => let '(r, w) := dot_exchange (tr_dot t) query ep timeout_ms w in (r, t, w)
  | DoH =>
      let '(r, doh, w) := doh_exchange (tr_doh t) query ep timeout_ms w in
      (r, mkTransports (tr_udp t) (tr_tcp t) (tr_dot t) doh (tr_doh3 t) (tr_doq t), w)
  | DoH3 =>
      let '(r, doh3, w) := doh3_exchange (tr_doh3 t) query ep timeout_ms w in
      (r, mkTransports (tr_udp t) (tr_tcp t) (tr_dot t) (tr_doh t) doh3 (tr_doq t), w)
  | DoQ =>
      let '(r, doq, w) := doq_exchange (tr_doq t) query ep timeout_ms w in
      (r, mkTransports (tr_udp t) (tr_tcp t) (tr_dot t) (tr_doh t) (tr_doh3 t) doq, w)
  end.
End transports.
Arguments Transports : clear implicits.

(** ** The receive loop of UDP *)

Section recv.
Context {N H : Type} `{Sockets N H}.

(** The world after [k] datagrams. *)
Fixpoint after_recv (sock : H) (k : nat) (w : N) : N :=
  match k with O => w | S k => after_recv sock k (udp_recv_from sock w).2 end.

(** A receive that does not end the loop. *)
Definition stray (sock : H) (target : SocketAddr) (w : N) : Prop :=
  exists datagram src, (udp_recv_from sock w).1 = Ok (datagram, src) /\ src <> target.

(** What a receive that does end it makes of the exchange. *)
Definition recv_outcome (sock : H) (target : SocketAddr) (room : Z) (w : N) : option (Exchange (list Z)) :=
  match (udp_recv_from sock w).1 with
  | Err k => Some (Lost (if bool_decide (k = WouldBlock \/ k = TimedOut) then udp_timed_out else udp_error))
  | Ok (datagram, src) => if bool_decide (src = target) then Some (Got (take (Z.to_nat room) datagram)) else None
  end.

Lemma stray_undecided sock target room w : stray sock target w <-> recv_outcome sock target room w = None.
Proof.
  unfold stray, recv_outcome. destruct (udp_recv_from sock w) as [[[d src]|k] w']; cbn.
  - case_bool_decide as E; split; try done; [by intros (? & ? & [= <- <-] & ?)|]. intros _. by exists d, src.
  - split; [by intros (? & ? & ? & _)|done].
Qed.

Lemma recv_loop_step fuel sock target room w :
  recv_loop (S fuel) sock target room w =
    match recv_outcome sock target room w with
    | Some x => (x, (udp_recv_from sock w).2)
    | None => recv_loop fuel sock target room (udp_recv_from sock w).2
    end.
Proof.
  cbn. unfold recv_outcome. destruct (udp_recv_from sock w) as [[[d src]|k] w']; cbn; [|done]. by case_bool_decide.
Qed.

(** The receive loop of a UDP exchange passes over every datagram that is not from
    the address asked, however many there are, and ends with the first receive that is
    from that address or fails. *)
Theorem recv_loop_first sock target room k w x :
  (forall j, (j < k)%nat -> stray sock target (after_recv sock j w)) ->
  recv_outcome sock target room (after_recv sock k w) = Some x ->
  (forall fuel, (k < fuel)%nat -> recv_loop fuel sock target room w = (x, after_recv sock (S k) w)) /\
  (forall fuel, (fuel <= k)%nat -> (recv_loop fuel sock target room w).1 = Waiting).
Proof.
  revert w. induction k as [|k IH]; intros w Hs Hx.
  - split; intros [|fuel] Hf; try lia; [|done]. rewrite recv_loop_step. cbn in Hx. by rewrite Hx.
  - destruct (IH (udp_recv_from sock w).2) as [I1 I2]; [intros j Hj; apply (Hs (S j)); lia|done|].
    assert (recv_outcome sock target room w = None) as E by (apply stray_undecided, (Hs O); lia).
    split; intros [|fuel] Hf; try lia; [|done|]; rewrite recv_loop_step, E; [apply I1|apply I2]; lia.
Qed.
End recv.

(** ** Reading a message from a TLS stream *)

(** What a stream delivers: a read returns some of what is pending, at least one octet
    while there is any, and zero at the end. *)
Class TlsDelivery (N H R L : Type) `{TlsStreams N H R L} := {
  pending : L -> N -> list Z;
  read_law : forall r room w, 0 < room ->
    let '(n, written, w') := tls_read r room w in
    exists k, n = Ok k /\ written = take (Z.to_nat k) (pending r w) /\ pending r w' = drop (Z.to_nat k) (pending r w) /\
      0 <= k <= Z.min room (zlen (pending r w)) /\ (k = 0 -> pending r w = []) }.

Section delivery.
Context {N H R L : Type} `{Sockets N H, TS : !TlsStreams N H R L, !TlsDelivery N H R L}.

Lemma length_overlay buf written : length (overlay buf written) = length buf.
Proof. unfold overlay. rewrite length_take, length_app, length_drop. lia. Qed.

Lemma get_from_take {A} (l : list A) n rest : get_from l n = Some rest ->
  0 <= n <= zlen l /\ l = take (Z.to_nat n) l ++ rest /\ zlen rest = zlen l - n.
Proof.
  intros E. apply get_range_split in E as (pre & post & El & Hp & Hn).
  assert (post = []) as -> by (apply zlen_0; rewrite El, !zlen_app in *; pose proof (zlen_nonneg post); lia).
  rewrite app_nil_r in El. subst l. unfold zlen in *. rewrite length_app in *. split; [lia|].
  replace (Z.to_nat n) with (length pre) by lia. rewrite take_app_length. split; [done|lia].
Qed.

(** No stream keeps the loop running: each read fills a part of the buffer or ends it. *)
Lemma read_exact_decided fuel (r : L) buf (w : N) : (length buf <= fuel)%nat -> (read_exact fuel r buf w).1 <> Waiting.
Proof.
  revert buf w. induction fuel as [|fuel IH]; intros [|b buf] w Hf; try done; [cbn in Hf; lia|].
  cbn. destruct (tls_read r _ w) as [[[n|k] written] w']; [|done].
  destruct (n =? 0) eqn:En; [done|]. destruct (get_from _ n) as [rest|] eqn:Er; [|done].
  apply get_from_take in Er as (Hn & _ & Hl). bools. unfold zlen in *. rewrite length_overlay in *. cbn [length] in *.
  unfold mbind, IO_bind. specialize (IH rest w'). destruct (read_exact fuel r rest w') as [[]]; [done..|]. apply IH; lia.
Qed.

Lemma take_overlay buf written k : (length written = k)%nat -> (k <= length buf)%nat -> take k (overlay buf written) = written.
Proof.
  intros <- Hk. unfold overlay. rewrite take_take, Nat.min_l by done. apply take_app_length.
Qed.

(** However the reads divide the stream, the buffer gets its first octets. *)
Lemma read_exact_delivers fuel (r : L) buf (w : N) : (length buf <= fuel)%nat ->
  let data := pending r w in
  ((length buf <= length data)%nat ->
     exists w', read_exact fuel r buf w = (Got (take (length buf) data), w') /\ pending r w' = drop (length buf) data) /\
  ((length data < length buf)%nat -> exists w', read_exact fuel r buf w = (Lost dot_closed, w')).
Proof.
  cbn zeta. revert buf w. induction fuel as [|fuel IH]; intros [|b buf] w Hf; try (cbn in Hf; lia).
  1,2: split; [intros _; exists w; by rewrite take_0, drop_0|cbn; lia].
  remember (b :: buf) as full eqn:Eb. assert (read_exact (S fuel) r full w = read_exact (S fuel) r (b :: buf) w) as -> by by subst.
  cbn [read_exact]. rewrite <- Eb. pose proof (read_law r (zlen full) w) as K.
  destruct (tls_read r (zlen full) w) as [[n written] w'].
  destruct K as (k & -> & -> & Hp & Hk & Hz); [subst; unfold zlen; cbn; lia|].
  set (data := pending r w) in *. unfold zlen in *.
  destruct (k =? 0) eqn:Ek; bools.
  { split; [|by exists w']. rewrite Hz by done. subst. cbn. lia. }
  assert (exists rest, get_from (overlay full (take (Z.to_nat k) data)) k = Some rest /\ length rest = (length full - Z.to_nat k)%nat)
    as (rest & Er & Hr).
  { unfold get_from. destruct (get_range_Some (overlay full (take (Z.to_nat k) data)) k (zlen (overlay full (take (Z.to_nat k) data)))) as [rest E];
      [unfold zlen; rewrite length_overlay; lia..|]. exists rest. split; [done|].
    apply get_range_len in E as (_ & E & _). unfold zlen in E. rewrite length_overlay in E. lia. }
  rewrite Er, take_overlay by (rewrite ?length_take; lia).
  destruct (IH rest w' ltac:(lia)) as [I1 I2]. rewrite Hp in *. rewrite length_drop, Hr in *.
  unfold mbind, IO_bind, mret, IO_ret. split; intros Hl.
  - destruct I1 as (w2 & -> & E2); [lia|]. exists w2. rewrite E2, drop_drop. split; [|f_equal; lia].
    f_equal. f_equal. rewrite <- (take_drop (Z.to_nat k) data) at 3. rewrite take_app, length_take. f_equal; [|f_equal; lia].
    rewrite take_take. f_equal. lia.
  - destruct I2 as (w2 & ->); [lia|]. by exists w2.
Qed.

Lemma read_exactly_delivers (r : L) len (w : N) : 0 <= len ->
  let data := pending r w in
  (len <= zlen data ->
     exists w', read_exactly r len w = (Got (take (Z.to_nat len) data), w') /\ pending r w' = drop (Z.to_nat len) data) /\
  (zlen data < len -> exists w', read_exactly r len w = (Lost dot_closed, w')).
Proof.
  cbn zeta. intros Hl. unfold read_exactly, zlen.
  destruct (read_exact_delivers (Z.to_nat len) r (replicate (Z.to_nat len) 0) w) as [D1 D2]; [by rewrite length_replicate|].
  rewrite length_replicate in *. split; intros; [apply D1|apply D2]; lia.
Qed.

(** The stream read as a message: its first two octets announce the length of the
    rest, and a stream that ends before that is reported as closed early. *)
Lemma dot_read_message_spec (r : L) (w : N) : bytes (pending r w) ->
  let data := pending r w in
  let n := be_val (take 2 data) in
  (2 <= zlen data -> 2 + n <= zlen data ->
     exists w', dot_read_message r w = (Got (take (Z.to_nat n) (drop 2 data)), w') /\ pending r w' = drop (Z.to_nat n) (drop 2 data)) /\
  (zlen data < 2 \/ zlen data < 2 + n -> exists w', dot_read_message r w = (Lost dot_closed, w')).
Proof.
  intros Hb. cbn zeta. set (data := pending r w) in *. unfold dot_read_message.
  destruct (read_exactly_delivers r 2 w ltac:(lia)) as [R1 R2]. unfold mbind, IO_bind.
  destruct (decide (zlen data < 2)) as [Hs|Hs].
  { destruct (R2 Hs) as (w1 & ->). split; [lia|]. by exists w1. }
  destruct R1 as (w1 & -> & P1); [fold data; lia|]. fold data in P1 |- *. change (Z.to_nat 2) with 2%nat in *.
  pose proof (be_val_bound (take 2 data) (Forall_take _ 2 _ Hb)) as Bn.
  assert (zlen (take 2 data) = 2) as L2 by (unfold zlen in *; rewrite length_take; lia). rewrite L2 in Bn.
  set (n := be_val (take 2 data)) in *. change (256 ^ 2) with 65536 in Bn.
  replace (MAX_TCP_MESSAGE <? n) with false by (symmetry; unfold MAX_TCP_MESSAGE; bools; lia).
  destruct (read_exactly_delivers r n w1 ltac:(lia)) as [S1 S2]. rewrite P1 in *.
  assert (zlen (drop 2 data) = zlen data - 2) as Ld by (unfold zlen in *; rewrite length_drop; lia).
  split; intros; [apply S1|apply S2]; lia.
Qed.

(** A message sent with its two-byte length is read back whole from a TLS stream,
    however the reads divide it, and nothing beyond it is consumed; a stream that
    ends inside it is an error, never a shorter message. *)
Theorem dot_message_delivered (m extra : list Z) (r : L) (w : N) : bytes (m ++ extra) -> zlen m <= MAX_TCP_MESSAGE ->
  (pending r w = framed m ++ extra -> exists w', dot_read_message r w = (Got m, w') /\ pending r w' = extra) /\
  (forall n, (n < length (framed m))%nat -> pending r w = take n (framed m) ->
     exists w', dot_read_message r w = (Lost dot_closed, w')).
Proof.
  intros [Hm He]%Forall_app Hl. unfold MAX_TCP_MESSAGE in Hl. pose proof (zlen_nonneg m) as H0'.
  assert (bytes (framed m)) as Hf by (apply Forall_app; split; [apply be_bytes_bytes|done]).
  assert (wrap 16 (zlen m) = zlen m) as Ew by (unfold wrap; rewrite Z.mod_small; [done|change (2 ^ 16) with 65536; lia]).
  assert (be_val (be_bytes 2 (zlen m)) = zlen m) as Ev by (apply be_val_be_bytes_small; change (256 ^ Z.of_nat 2) with 65536; lia).
  pose proof (dot_read_message_spec r w) as S. cbn zeta in S.
  split.
  - intros E. rewrite E in S. destruct S as [S _]; [by apply Forall_app|].
    unfold framed in *. rewrite Ew, <- app_assoc in *.
    rewrite take_app_length', drop_app_length', Ev in S by done.
    unfold zlen in S at 2 3. rewrite take_app_length', drop_app_length' in S by (unfold zlen; lia).
    apply S; unfold zlen; rewrite !length_app; cbn [length be_bytes]; lia.
  - intros n Hn E. rewrite E in S. destruct S as [_ S]; [by apply Forall_take|]. apply S.
    unfold framed in *. rewrite Ew, length_app in *. cbn [length be_bytes] in Hn.
    destruct (decide (n < 2)%nat) as [?|Hn2]; [left; unfold zlen; rewrite length_take; lia|right].
    rewrite take_take, Nat.min_l, (take_app_length' _ m 2), Ev by (done || lia).
    unfold zlen. rewrite length_take, length_app. cbn [length be_bytes]. lia.
Qed.
End delivery.

(** ** What a transport's time limit and address do *)

Section notes.
Context {N H : Type} `{Sockets N H}.

(** The limit holds for each receive by itself: while datagrams of others keep coming,
    no number of receives ends the loop. *)
Lemma strays_keep_waiting sock target room w : (forall j, stray sock target (after_recv sock j w)) ->
  forall fuel, (recv_loop fuel sock target room w).1 = Waiting.
Proof.
  intros Hs fuel. revert w Hs. induction fuel as [|fuel IH]; intros w Hs; [done|].
  rewrite recv_loop_step. assert (recv_outcome sock target room w = None) as -> by apply stray_undecided, (Hs O).
  apply IH. intros j. apply (Hs (S j)).
Qed.
End notes.

Section http_notes.
Context {N R C B : Type} `{HttpClients N R C B}.

(** An HTTPS exchange depends on the endpoint's port only, and on no time limit. *)
Lemma http_exchange_ignores cfg (t : DohTransport R C) query ep ep' ms ms' w : ep_port ep = ep_port ep' ->
  http_exchange cfg t query ep ms w = http_exchange cfg t query ep' ms' w.
Proof. intros E. unfold http_exchange, doh_url. by rewrite E. Qed.

(** The client is made by the first exchange, with the identity the transport has then,
    and serves every later one. *)
Lemma http_client_kept cfg (t : DohTransport R C) query ep ms w :
  let '(_, t', _) := http_exchange cfg t query ep ms w in
  doh_client t' = Some (match doh_client t with Some c => c | None => (with_config (cfg t) w).1 end) /\
  doh_hostname t' = doh_hostname t /\ doh_path t' = doh_path t /\
  doh_roots t' = doh_roots t /\ doh_verify t' = doh_verify t /\ doh_now t' = doh_now t.
Proof.
  unfold http_exchange, pooled_client. destruct (doh_client t) as [c|] eqn:E.
  - destruct (doh_fetch _ _ _ _) as [? ?]. by rewrite E.
  - destruct (with_config _ _) as [c w1]. by destruct (doh_fetch _ _ _ _).
Qed.
End http_notes.

(** ** Every exchange ends *)

Create HintDb ended.

(** A world whose sockets receive from the address asked, or fail, within [patience] receives. *)
Definition settles_within {N H : Type} `{Sockets N H} (patience : nat) : Prop :=
  forall (sock : H) target (w : N), exists k, (k < patience)%nat /\ ~ stray sock target (after_recv sock k w).

Section settles.
Context {N H R L C B Q P D : Type}.
Context `{Sockets N H, TlsStreams N H R L, HttpClients N R C B, QuicClients N R Q P D}.

Definition ended {A} (m : IO N A) : Prop := forall w, (m w).1 <> Waiting.

Lemma ended_bind {A A'} (m : IO N A) (f : A -> IO N A') : ended m -> (forall a, ended (f a)) -> ended (m ≫= f).
Proof.
  intros Hm Hf w. unfold mbind, IO_bind. specialize (Hm w). destruct (m w) as [[a|e|] w1]; [apply Hf|done|done].
Qed.
Lemma ended_sys {A} e (f : N -> result IoErrorKind A * N) : ended (sys e f).
Proof. intros w. unfold sys. by destruct (f w) as [[a|k] w1]. Qed.
Lemma ended_lift {A} (r : result Error A) : ended (lift r).
Proof. intros w. by destruct r. Qed.
Lemma ended_ret {A} (a : A) : ended (mret a).
Proof. done. Qed.

Lemma outcome_ended sock target room (w : N) x : recv_outcome sock target room w = Some x -> x <> Waiting.
Proof. unfold recv_outcome. repeat case_match; intros [= <-]; done. Qed.

Lemma recv_loop_ended patience sock target room (w : N) : settles_within (H := H) (N := N) patience ->
  (recv_loop patience sock target room w).1 <> Waiting.
Proof.
  intros (k & Hk & Hs)%(fun G => G sock target w). revert patience w Hk Hs.
  induction k as [|k IH]; intros [|fuel] w Hk Hs; try lia; rewrite recv_loop_step.
  all: destruct (recv_outcome sock target room w) as [x|] eqn:E.
  - by apply outcome_ended in E.
  - exfalso. apply Hs. by apply stray_undecided in E.
  - by apply outcome_ended in E.
  - apply IH; [lia|done].
Qed.

Lemma read_exactly_ended (r : L) len : ended (read_exactly (N := N) r len).
Proof. intros w. apply read_exact_decided. by rewrite length_replicate. Qed.

#[local] Hint Resolve ended_bind ended_sys ended_lift ended_ret read_exactly_ended : ended.

Lemma http_exchange_ended cfg (t : DohTransport R C) query ep ms w : (http_exchange cfg t query ep ms w).1.1 <> Waiting.
Proof.
  unfold http_exchange. destruct (pooled_client cfg t w) as [[c t'] w'].
  assert (ended (doh_fetch c (doh_url t' ep) query)) as K.
  { unfold doh_fetch. apply ended_bind; [apply ended_sys|intros [status body]].
    destruct (negb _); [apply ended_lift|]. apply ended_bind; [apply ended_sys|intros bs]. destruct (_ <? _); auto with ended. }
  specialize (K w'). by destruct (doh_fetch _ _ _ _).
Qed.

Lemma doq_exchange_ended (t : DoqTransport R Q P) query ep ms w : (doq_exchange t query ep ms w).1.1 <> Waiting.
Proof.
  unfold doq_exchange. destruct (_ <? _); [done|]. destruct (frame_query query) as [frame|]; [|done].
  assert (forall r : result Error (list Z), of_result r <> Waiting) as Hr by (by intros []).
  destruct (doq_provider t) as [p|].
  - destruct (doq_by_provider _ _ _ _ _) as [r w1]. apply Hr.
  - destruct (doq_connection _ _ _ _) as [[c|e] w1]; [|done].
    destruct (quic_exchange_query _ _ _ _) as [[[resp|e] c'] w2]; [apply Hr|done].
Qed.

Lemma dot_exchange_ended (t : DotTransport (R := R)) query ep ms : ended (dot_exchange (N := N) t query ep ms).
Proof.
  unfold dot_exchange. destruct (_ <? _); [apply ended_lift|]. repeat (apply ended_bind; [apply ended_sys|intros ?]).
  unfold dot_read_message. apply ended_bind; [apply read_exactly_ended|intros l]. destruct (_ <? _); auto with ended.
Qed.

Lemma transports_exchange_ended patience (t : Transports R C Q P) ep query ms w : settles_within (H := H) (N := N) patience ->
  (transports_exchange patience t ep query ms w).1.1 <> Waiting.
Proof.
  intros Hs. unfold transports_exchange. destruct (ep_proto ep).
  - assert (ended (udp_exchange patience (tr_udp t) query ep ms)) as K.
    { unfold udp_exchange. repeat (apply ended_bind; [apply ended_sys|intros ?]). intros w'. by apply recv_loop_ended. }
    specialize (K w). by destruct (udp_exchange patience (tr_udp t) query ep ms w).
  - assert (ended (tcp_exchange (tr_tcp t) query ep ms)) as K.
    { unfold tcp_exchange. destruct (_ <? _); [apply ended_lift|]. repeat (apply ended_bind; [apply ended_sys|intros ?]).
      cbv zeta. destruct (_ <? _); auto with ended. }
    specialize (K w). by destruct (tcp_exchange (tr_tcp t) query ep ms w).
  - pose proof (dot_exchange_ended (tr_dot t) query ep ms w). by destruct (dot_exchange (tr_dot t) query ep ms w).
  - pose proof (http_exchange_ended doh_config (tr_doh t) query ep ms w) as K. unfold doh_exchange.
    by destruct (http_exchange _ _ _ _ _ _) as [[] ?].
  - pose proof (http_exchange_ended doh3_config (tr_doh3 t) query ep ms w) as K. unfold doh3_exchange.
    by destruct (http_exchange _ _ _ _ _ _) as [[] ?].
  - pose proof (doq_exchange_ended (tr_doq t) query ep ms w) as K. by destruct (doq_exchange _ _ _ _ _) as [[] ?].
Qed.
End settles.

(** ** A scripted world *)

(** Datagrams to come; the octets a TLS stream has to deliver and the sizes of its reads. *)
Record Script := mkScript { datagrams : list (list Z * SocketAddr); stream : list Z; sizes : list Z }.

#[global] Instance script_sockets : Sockets Script unit := {
  udp_bind _ w := (Ok tt, w);
  set_read_timeout _ _ w := (Ok tt, w);
  set_write_timeout _ _ w := (Ok tt, w);
  udp_send_to _ _ _ w := (Ok tt, w);
  udp_recv_from _ w :=
    match datagrams w with [] => (Err TimedOut, w) | d :: ds => (Ok d, mkScript ds (stream w) (sizes w)) end;
  tcp_connect _ _ w := (Ok tt, w);
  tcp_write_all _ _ w := (Ok tt, w);
  tcp_read_exact _ n w :=
    match get_range (stream w) 0 n with
    | Some bs => (Ok bs, mkScript (datagrams w) (drop (Z.to_nat n) (stream w)) (sizes w))
    | None => (Err OtherIo, w)
    end }.

#[global] Instance script_tls : TlsStreams Script unit unit unit := {
  tls_connect _ _ _ w := (Ok tt, w);
  tls_write_all _ _ w := (Ok tt, w);
  tls_read _ room w :=
    let k := Z.min (Z.min room (zlen (stream w))) (Z.max 1 (default 1 (head (sizes w)))) in
    (Ok k, take (Z.to_nat k) (stream w), mkScript (datagrams w) (drop (Z.to_nat k) (stream w)) (drop 1 (sizes w))) }.

#[global] Program Instance script_delivery : TlsDelivery Script unit unit unit := { pending _ w := stream w }.
Next Obligation.
  intros [] room w Hr. cbn. pose proof (zlen_nonneg (stream w)). eexists. conjs; [done..|lia|lia|].
  intros E. apply zlen_0. lia.
Qed.

(** No HTTP server and no QUIC server answers. *)
#[global] Instance script_http : HttpClients Script unit unit unit := {
  with_config _ w := (tt, w);
  post _ _ _ w := (Err OtherIo, w);
  collect _ w := (Err OtherIo, w) }.

#[global] Instance script_quic : QuicClients Script unit unit unit unit := {
  quic_connect _ _ _ _ _ _ w := (Err (transport "no server"), w);
  quic_is_open _ := false;
  quic_exchange_query c _ _ w := (Err (transport "no server"), c, w);
  provider_open _ _ _ _ _ _ w := (Err (transport "no server"), w);
  doq_request d _ w := (Err (transport "no server"), d, w);
  doq_close _ w := w }.

Lemma dot_message_delivered_witness :
  let m := [1; 2; 3; 4; 5] in
  let w := mkScript [] (framed m ++ [9; 9]) [1; 1; 2; 2; 7] in
  bytes (m ++ [9; 9]) /\ zlen m <= MAX_TCP_MESSAGE /\
  exists w', dot_read_message (H := unit) tt w = (Got m, w') /\ stream w' = [9; 9].
Proof.
  intros m w. assert (bytes (m ++ [9; 9])) as Hb by (repeat constructor; unfold is_byte; lia).
  split; [done|]. split; [done|].
  exact (proj1 (dot_message_delivered m [9; 9] tt w Hb ltac:(done)) eq_refl).
Defined.

(** A stray datagram first, then the server's own. *)
Lemma recv_loop_first_witness :
  let server := socket_addr (V4 9) 53 in
  let w := mkScript [([1], socket_addr (V4 8) 53); ([2], mkSocketAddr (V4 9) 54 0 0); ([3; 4], server)] [] [] in
  (recv_loop 7 tt server 4096 w).1 = Got [3; 4].
Proof.
  intros server w.
  assert (forall j, (j < 2)%nat -> stray tt server (after_recv tt j w)) as Hs.
  { intros j Hj. apply stray_undecided with (room := 4096). destruct j as [|[|j]]; [reflexivity..|lia]. }
  by rewrite (proj1 (recv_loop_first tt server 4096 2 w (Got [3; 4]) Hs eq_refl) 7%nat ltac:(lia)).
Defined.

(** The time limit of a TLS exchange is never below five seconds. *)
Example dot_waits : Z.max 200 (connect_timeout_ms (dot_for_host [] tt true 0)) = 5000.
Proof. reflexivity. Qed.
