(* ===== verification/Forward.v ===== *)
(** * Forwarding ([src/forward.rs], and [forward_once] of [src/resolver.rs])

    Upstream resolvers asked in place of iteration: their identities, the pool of
    transports keyed by identity, the loop over a group, the query that goes out and the
    resolution a response becomes.  The transports are those of [Transports]. *)
From stdpp Require Import gmap.
From S2P Require Import Prelude Wire Prng Name Compress Qtype Edns Bitmap RData Rr Message BTree Addr CacheKey Query Engine Upstream QuicRx QuicConn Tls QuicLink Front Transports.

(** ** Addresses as text ([Display] of [core::net]) *)

Definition hex_digit (d : Z) : Z := if d <? 10 then 48 + d else 87 + d.
Fixpoint show_hex (fuel : nat) (n : Z) : list Z :=
  match fuel with
  | O => []
  | S fuel => (if n <? 16 then [] else show_hex fuel (n / 16)) ++ [hex_digit (n mod 16)]
  end.

Definition segments (a : Ipv6Addr) : list Z := map (fun i => a / 65536 ^ i mod 65536) [7; 6; 5; 4; 3; 2; 1; 0].

(** The first longest run of zeros, as its start and length; [cur] is the run at hand. *)
Fixpoint zero_run (l : list Z) (i : nat) (cur best : nat * nat) : nat * nat :=
  match l with
  | [] => best
  | s :: l =>
      let cur := if s =? 0 then (if (cur.2 =? 0)%nat then (i, 1%nat) else (cur.1, S cur.2)) else (O, O) in
      zero_run l (S i) cur (if (best.2 <? cur.2)%nat then cur else best)
  end.

Fixpoint join_groups (l : list Z) : list Z :=
  match l with
  | [] => []
  | [g] => show_hex 4 g
  | g :: l => show_hex 4 g ++ 58 :: join_groups l
  end.

Definition show_v6 (a : Ipv6Addr) : list Z :=
  if a / 2 ^ 32 =? 0xffff then ascii_bytes "::ffff:" ++ show_v4 (a mod 2 ^ 32) else
  let gs := segments a in
  let '(start, len) := zero_run gs O (O, O) (O, O) in
  if (1 <? len)%nat then join_groups (take start gs) ++ ascii_bytes "::" ++ join_groups (drop (start + len) gs)
  else join_groups gs.

Definition show_ip (ip : IpAddr) : list Z := match ip with V4 a => show_v4 a | V6 a => show_v6 a end.

Example show_v6_runs :
  map show_v6 [1; 0x20010db8 * 2 ^ 96 + 2 ^ 48 + 1; 0xffff * 2 ^ 32 + 0x7f000001; 0] =
  [ascii_bytes "::1"; ascii_bytes "2001:db8::1:0:0:1"; ascii_bytes "::ffff:127.0.0.1"; ascii_bytes "::"].
Proof. vm_compute. reflexivity. Qed.

(** ** Forwarders *)

Record Forwarder := mkForwarder { endpoint : Endpoint; host : option (list Z); path : option (list Z) }.

Definition plain (ep : Endpoint) : Forwarder := mkForwarder ep None None.
Definition encrypted (ep : Endpoint) (h : list Z) : Forwarder := mkForwarder ep (Some h) None.
Definition forwarder_with_path (f : Forwarder) (p : list Z) : Forwarder := mkForwarder (endpoint f) (host f) (Some p).

(** [Forwarder::doh_path] *)
Definition fw_path (f : Forwarder) : list Z := default default_path (path f).

(** The name a transport presents and verifies: the address when none is configured. *)
Definition tls_name (f : Forwarder) : list Z := default (show_ip (ep_ip (endpoint f))) (host f).

Record TransportKey := mkKey { key_endpoint : Endpoint; key_host : option (list Z); key_path : option (list Z) }.
#[global] Instance TransportKey_eq_dec : EqDecision TransportKey.
Proof. solve_decision. Defined.

Definition key_tuple (k : TransportKey) : (bool * Z * Z * Z) * option (list Z) * option (list Z) :=
  let ep := key_endpoint k in
  ((match ep_ip ep with V4 _ => false | V6 _ => true end, match ep_ip ep with V4 a => a | V6 a => a end,
    ep_port ep, proto_u8 (ep_proto ep)), key_host k, key_path k).

#[global] Instance key_tuple_inj : Inj (=) (=) key_tuple.
Proof.
  intros [[[] ? p] ? ?] [[[] ? q] ? ?]; unfold key_tuple; cbn; intros [= <- <- E <- <-];
    by destruct p, q; try discriminate E.
Qed.
#[global] Instance TransportKey_countable : Countable TransportKey := inj_countable key_tuple
  (fun t => let '((v6, a, port, p), h, pa) := t in
            Some (mkKey (mkEndpoint (if v6 then V6 a else V4 a) port
              (nth (Z.to_nat p) [Udp; Tcp; Upstream.Tls; DoH; DoH3; DoQ] Udp)) h pa))
  (fun k => match k with mkKey (mkEndpoint ip port p) h pa => ltac:(by destruct ip, p) end).

(** [TransportKey::of] *)
Definition key_of (f : Forwarder) : TransportKey :=
  let p := match path f with
           | None => None
           | Some p => if bool_decide (p = default_path) then None else Some p
           end in
  mkKey (endpoint f) (host f) p.

Definition pooled_transport {T} (cache : gmap TransportKey T) (key : TransportKey) (build : T) : T * gmap TransportKey T :=
  match cache !! key with
  | Some t => (t, cache)
  | None => (build, <[key := build]> cache)
  end.

(** ** The set *)

Definition no_forwarder_answered : Error := mkError NoUpstream "no forwarder answered".
Definition mismatched : Error := transport "forwarder response did not match query".
(** The text names the server and the code. *)
Definition answered_code (code : Rcode) : Error :=
  mkError (if code =? Rcodes.REFUSED then Refused else Servfail) "the upstream answered".

Section forward.
Context {N H R L C B Q P D : Type}.
Context `{Sockets N H, TlsStreams N H R L, HttpClients N R C B, QuicClients N R Q P D}.

Record ForwarderSet := mkSet {
  forwarders : list Forwarder;
  pool_dot : gmap TransportKey (DotTransport (R := R));
  pool_doh : gmap TransportKey (DohTransport R C);
  pool_doh3 : gmap TransportKey (DohTransport R C);
  pool_doq : gmap TransportKey (DoqTransport R Q P);
  fs_plain : Transports R C Q P;
  fs_roots : R; fs_verify : bool; fs_now : Z }.
Implicit Types (s : ForwarderSet) (f : Forwarder) (w : N).

(** [ForwarderSet::new]; [empty] is the empty store of roots, [clock] the system's seconds. *)
Definition forwarder_set_new (empty : R) (clock : Z) (roots : R) (verify : bool) (now : Z) : ForwarderSet :=
  mkSet [] ∅ ∅ ∅ ∅ (transports_new empty clock) roots verify now.

Definition add s f : ForwarderSet :=
  if existsb (fun e => bool_decide (key_of e = key_of f)) (forwarders s) then s
  else mkSet (forwarders s ++ [f]) (pool_dot s) (pool_doh s) (pool_doh3 s) (pool_doq s) (fs_plain s)
         (fs_roots s) (fs_verify s) (fs_now s).

Definition is_enabled s : bool := negb (zlen (forwarders s) =? 0).

Definition set_plain s (t : Transports R C Q P) : ForwarderSet :=
  mkSet (forwarders s) (pool_dot s) (pool_doh s) (pool_doh3 s) (pool_doq s) t (fs_roots s) (fs_verify s) (fs_now s).
Definition set_dot s m : ForwarderSet :=
  mkSet (forwarders s) m (pool_doh s) (pool_doh3 s) (pool_doq s) (fs_plain s) (fs_roots s) (fs_verify s) (fs_now s).
Definition set_doh s m : ForwarderSet :=
  mkSet (forwarders s) (pool_dot s) m (pool_doh3 s) (pool_doq s) (fs_plain s) (fs_roots s) (fs_verify s) (fs_now s).
Definition set_doh3 s m : ForwarderSet :=
  mkSet (forwarders s) (pool_dot s) (pool_doh s) m (pool_doq s) (fs_plain s) (fs_roots s) (fs_verify s) (fs_now s).
Definition set_doq s m : ForwarderSet :=
  mkSet (forwarders s) (pool_dot s) (pool_doh s) (pool_doh3 s) m (fs_plain s) (fs_roots s) (fs_verify s) (fs_now s).

Definition build_dot s f := dot_for_host (tls_name f) (fs_roots s) (fs_verify s) (fs_now s).
Definition build_doh s f : DohTransport R C :=
  with_path (doh_for_host (tls_name f) (fs_roots s) (fs_verify s) (fs_now s)) (fw_path f).
Definition build_doq s f : DoqTransport R Q P := doq_for_host (tls_name f) (fs_roots s) (fs_verify s) (fs_now s).

(** One query to one server, through the transport pooled under its identity; what the
    exchange leaves in the transport stays in the pool. *)
Definition exchange_one (fuel : nat) s f (query : list Z) (timeout_ms : Z) w : Exchange (list Z) * ForwarderSet * N :=
  let key := key_of f in
  let ep := endpoint f in
  match ep_proto ep with
  | Udp | Tcp =>
      let '(r, t, w) := transports_exchange fuel (fs_plain s) ep query timeout_ms w in (r, set_plain s t, w)
  | Upstream.Tls =>
      let '(t, pool) := pooled_transport (pool_dot s) key (build_dot s f) in
      let '(r, w) := dot_exchange t query ep timeout_ms w in
      (r, set_dot s pool, w)
  | DoH =>
      let '(t, pool) := pooled_transport (pool_doh s) key (build_doh s f) in
      let '(r, t, w) := doh_exchange t query ep timeout_ms w in
      (r, set_doh s (<[key := t]> pool), w)
  | DoH3 =>
      let '(t, pool) := pooled_transport (pool_doh3 s) key (build_doh s f) in
      let '(r, t, w) := doh3_exchange t query ep timeout_ms w in
      (r, set_doh3 s (<[key := t]> pool), w)
  | DoQ =>
      let '(t, pool) := pooled_transport (pool_doq s) key (build_doq s f) in
      let '(r, t, w) := doq_exchange t query ep timeout_ms w in
      (r, set_doq s (<[key := t]> pool), w)
  end.

(** What the loop makes of one server's octets. *)
Definition forward_verdict (query : Message) (resp_bytes : list Z) : result Error Message :=
  resp ← message_parse resp_bytes;
  if negb (response_matches_query query resp) then Err mismatched else
  let code := rcode resp in
  if (code <=? u8_max) && is_failure code then Err (answered_code code) else Ok resp.

Fixpoint exchange_with (fuel : nat) (group : list Forwarder) (query : Message) (query_bytes : list Z) (timeout_ms : Z)
    (last_err : option Error) s w : Exchange Message * ForwarderSet * N :=
  match group with
  | [] => (Lost (default no_forwarder_answered last_err), s, w)
  | f :: group =>
      match exchange_one fuel s f query_bytes timeout_ms w with
      | (Waiting, s, w) => (Waiting, s, w)
      | (Lost e, s, w) => exchange_with fuel group query query_bytes timeout_ms (Some e) s w
      | (Got resp_bytes, s, w) =>
          match forward_verdict query resp_bytes with
          | Err e => exchange_with fuel group query query_bytes timeout_ms (Some e) s w
          | Ok resp => (Got resp, s, w)
          end
      end
  end.

(** [ForwarderSet::exchange] *)
Definition exchange_all (fuel : nat) (query : Message) (query_bytes : list Z) (timeout_ms : Z) s w :=
  exchange_with fuel (forwarders s) query query_bytes timeout_ms None s w.

(** *** Which server answers *)

(** The servers of [group], asked in turn, failed one after the other: the last error,
    and what is left of the set and the world. *)
Inductive all_failed (fuel : nat) (query : Message) (query_bytes : list Z) (ms : Z) :
    list Forwarder -> ForwarderSet -> N -> option Error -> ForwarderSet -> N -> Prop :=
| none_failed s w : all_failed fuel query query_bytes ms [] s w None s w
| next_failed g f s w e0 s1 w1 r s2 w2 e :
    all_failed fuel query query_bytes ms g s w e0 s1 w1 ->
    exchange_one fuel s1 f query_bytes ms w1 = (r, s2, w2) ->
    match r with Got resp_bytes => forward_verdict query resp_bytes = Err e | Lost e' => e' = e | Waiting => False end ->
    all_failed fuel query query_bytes ms (g ++ [f]) s w (Some e) s2 w2.

(** Octets that answer the query with [m]. *)
Definition answers_query (query : Message) (resp_bytes : list Z) (m : Message) : Prop :=
  message_parse resp_bytes = Ok m /\ response_matches_query query m = true /\
  (rcode m <= u8_max -> is_failure (rcode m) = false).

Lemma forward_verdict_Ok query resp_bytes m : forward_verdict query resp_bytes = Ok m <-> answers_query query resp_bytes m.
Proof.
  unfold forward_verdict, answers_query. destruct (message_parse resp_bytes) as [p|]; cbn; [|by split; [|intros [? _]]].
  destruct (response_matches_query query p) eqn:M; cbn; [|by split; [|intros ([= ->] & ? & _); congruence]].
  destruct (rcode p <=? u8_max) eqn:U; bools; cbn.
  - destruct (is_failure (rcode p)) eqn:F.
    + split; [done|]. intros ([= ->] & _ & G). by rewrite G in F.
    + split; [by intros [= ->]|by intros ([= ->] & _)].
  - split; [intros [= ->]; split; [done|]; split; [done|lia]|by intros ([= ->] & _)].
Qed.

(** What asking [group] comes to, after the servers [asked] failed. *)
Definition group_outcome (fuel : nat) (query : Message) (query_bytes : list Z) (ms : Z) (asked group : list Forwarder)
    (s : ForwarderSet) (w : N) (out : Exchange Message * ForwarderSet * N) : Prop :=
  match out with
  | (Got m, s', w') =>
      exists pre f post s1 w1 e resp_bytes, group = pre ++ f :: post /\
        all_failed fuel query query_bytes ms (asked ++ pre) s w e s1 w1 /\
        exchange_one fuel s1 f query_bytes ms w1 = (Got resp_bytes, s', w') /\ answers_query query resp_bytes m
  | (Lost e, s', w') =>
      exists e', all_failed fuel query query_bytes ms (asked ++ group) s w e' s' w' /\ e = default no_forwarder_answered e'
  | (Waiting, s', w') =>
      exists pre f post s1 w1 e, group = pre ++ f :: post /\
        all_failed fuel query query_bytes ms (asked ++ pre) s w e s1 w1 /\
        exchange_one fuel s1 f query_bytes ms w1 = (Waiting, s', w')
  end.

Lemma group_outcome_cons fuel query query_bytes ms asked f group s w out :
  group_outcome fuel query query_bytes ms (asked ++ [f]) group s w out ->
  group_outcome fuel query query_bytes ms asked (f :: group) s w out.
Proof.
  destruct out as [[[m|e|] s'] w']; cbn.
  - intros (pre & g & post & s1 & w1 & e & b & -> & Hf & E). rewrite <- app_assoc in Hf.
    exists (f :: pre), g, post, s1, w1, e, b. done.
  - by rewrite <- app_assoc.
  - intros (pre & g & post & s1 & w1 & e & -> & Hf & E). rewrite <- app_assoc in Hf.
    exists (f :: pre), g, post, s1, w1, e. done.
Qed.

Lemma exchange_with_split fuel query query_bytes ms group : forall asked s0 w0 last s w,
  all_failed fuel query query_bytes ms asked s0 w0 last s w ->
  group_outcome fuel query query_bytes ms asked group s0 w0 (exchange_with fuel group query query_bytes ms last s w).
Proof.
  induction group as [|f group IH]; intros asked s0 w0 last s w Ha; cbn [exchange_with].
  { exists last. by rewrite app_nil_r. }
  destruct (exchange_one fuel s f query_bytes ms w) as [[[b|e|] s1] w1] eqn:E.
  - destruct (forward_verdict query b) as [m|e] eqn:J.
    + exists [], f, group, s, w, last, b. rewrite app_nil_r. by apply forward_verdict_Ok in J.
    + eapply group_outcome_cons, IH, next_failed; [done..|exact J].
  - eapply group_outcome_cons, IH, next_failed; [done..|reflexivity].
  - exists [], f, group, s, w, last. by rewrite app_nil_r.
Qed.

(** The answer of a group of forwarders is that of the first server whose response
    parses, belongs to the query and does not fail; the servers before it all failed
    and those behind it are not asked.  With no such server the error is the last
    failure, or that no server is configured. *)
Theorem exchange_with_first_answer fuel group query query_bytes ms s w :
  group_outcome fuel query query_bytes ms [] group s w (exchange_with fuel group query query_bytes ms None s w).
Proof. apply exchange_with_split. constructor. Qed.

(** *** Identities *)

(** The forwarder a key stands for. *)
Definition forwarder_of (k : TransportKey) : Forwarder := mkForwarder (key_endpoint k) (key_host k) (key_path k).

Lemma key_identity f : let g := forwarder_of (key_of f) in endpoint g = endpoint f /\ host g = host f /\ fw_path g = fw_path f.
Proof.
  destruct f as [ep h [p|]]; unfold key_of, forwarder_of, fw_path; cbn; [|done].
  case_bool_decide as E; cbn; [by rewrite E|done].
Qed.

(** Two forwarders share a transport exactly when they agree on the endpoint, the
    configured name and the path used. *)
Lemma key_of_iff f g : key_of f = key_of g <-> endpoint f = endpoint g /\ host f = host g /\ fw_path f = fw_path g.
Proof.
  split.
  - intros E. pose proof (key_identity f) as (<- & <- & <-). pose proof (key_identity g) as (<- & <- & <-). by rewrite E.
  - destruct f as [ep h [p|]], g as [ep' h' [p'|]]; unfold key_of, fw_path; cbn;
      intros (-> & -> & E); repeat case_bool_decide; congruence.
Qed.

(** An HTTPS transport of [f]'s identity, whose client, if any, was made from it. *)
Definition http_for (cfg : DohTransport R C -> HttpConfig R) s f (t : DohTransport R C) : Prop :=
  t = mkDoh (tls_name f) (fw_path f) (fs_roots s) (fs_verify s) (fs_now s) (doh_client t) /\
  forall c, doh_client t = Some c -> exists w, c = (with_config (cfg (build_doh s f)) w).1.

(** A connection to [f] under its own name, and every state of it. *)
Inductive connected (roots : R) (verify : bool) (now : Z) f : Q -> Prop :=
| connected_new ms w c w' :
    quic_connect (endpoint f) (Some (tls_name f)) roots verify now ms w = (Ok c, w') -> connected roots verify now f c
| connected_query c frame ms w r c' w' :
    connected roots verify now f c -> quic_exchange_query c frame ms w = (r, c', w') -> connected roots verify now f c'.

Definition quic_for s f (t : DoqTransport R Q P) : Prop :=
  t = mkDoq (Some (tls_name f)) (fs_roots s) (fs_verify s) (fs_now s) None (doq_conn t) /\
  forall c, doq_conn t = Some c -> connected (fs_roots s) (fs_verify s) (fs_now s) f c.

(** Every transport of a pool is one for the forwarder its key stands for. *)
Definition pool_of {T} (A : Forwarder -> T -> Prop) (pool : gmap TransportKey T) : Prop :=
  forall k t, pool !! k = Some t -> A (forwarder_of k) t.

Record pools_ok s : Prop := {
  ok_dot : pool_of (fun f t => t = build_dot s f) (pool_dot s);
  ok_doh : pool_of (http_for doh_config s) (pool_doh s);
  ok_doh3 : pool_of (http_for doh3_config s) (pool_doh3 s);
  ok_doq : pool_of (quic_for s) (pool_doq s) }.

Lemma pooled_step {T} (A : Forwarder -> T -> Prop) pool f b :
  (forall t, A (forwarder_of (key_of f)) t <-> A f t) -> pool_of A pool -> A f b ->
  let '(t, pool') := pooled_transport pool (key_of f) b in
  A f t /\ pool_of A pool' /\ forall t', A f t' -> pool_of A (<[key_of f := t']> pool').
Proof.
  intros Hk Hp Hb. assert (forall q t', pool_of A q -> A f t' -> pool_of A (<[key_of f := t']> q)) as Hi.
  { intros q t' Hq Ht k t [[<- <-]|[_ ?]]%lookup_insert_Some; [by apply Hk|by apply Hq]. }
  unfold pooled_transport. destruct (pool !! key_of f) as [t|] eqn:E.
  - split; [by apply Hk, Hp|]. split; [done|]. eauto.
  - split; [done|]. split; [eauto|]. eauto.
Qed.

Lemma tls_name_key f : tls_name (forwarder_of (key_of f)) = tls_name f.
Proof. unfold tls_name. by destruct (key_identity f) as (-> & -> & _). Qed.

Lemma build_dot_key s f : build_dot s (forwarder_of (key_of f)) = build_dot s f.
Proof. unfold build_dot. by rewrite tls_name_key. Qed.

Lemma http_for_key cfg s f t : http_for cfg s (forwarder_of (key_of f)) t <-> http_for cfg s f t.
Proof. unfold http_for, build_doh. rewrite tls_name_key. by destruct (key_identity f) as (_ & _ & ->). Qed.

Lemma connected_key roots verify now f c :
  connected roots verify now (forwarder_of (key_of f)) c <-> connected roots verify now f c.
Proof.
  destruct (key_identity f) as (E & _ & _). pose proof (tls_name_key f) as T.
  split; induction 1 as [ms w c w' Hc|c frame ms w r c' w' _ IH Hq].
  1,3: eapply connected_new; first [rewrite <- E, <- T; exact Hc|rewrite E, T; exact Hc].
  all: by eapply connected_query.
Qed.

Lemma quic_for_key s f t : quic_for s (forwarder_of (key_of f)) t <-> quic_for s f t.
Proof. unfold quic_for. rewrite tls_name_key. by setoid_rewrite connected_key. Qed.

(** An exchange leaves a transport with its identity. *)
Lemma http_exchange_for cfg s f t query ep ms w : http_for cfg s f t ->
  let '(_, t', _) := http_exchange cfg t query ep ms w in http_for cfg s f t'.
Proof.
  intros [Et Hc]. pose proof (http_client_kept cfg t query ep ms w) as K.
  destruct (http_exchange cfg t query ep ms w) as [[r t'] w']. destruct K as (K1 & K2 & K3 & K4 & K5 & K6).
  split.
  - rewrite Et in K2, K3, K4, K5, K6. destruct t'; cbn in *. congruence.
  - intros c Ec. rewrite K1 in Ec. injection Ec as <-. destruct (doh_client t) as [c|] eqn:G; [by apply Hc|].
    exists w. by rewrite Et.
Qed.

Lemma doq_exchange_for s f t query ms w : quic_for s f t ->
  let '(_, t', _) := doq_exchange t query (endpoint f) ms w in quic_for s f t'.
Proof.
  intros [Et Hc]. unfold doq_exchange. destruct (_ <? _); [done|]. destruct (frame_query query) as [frame|e]; [|done].
  assert (doq_provider t = None) as -> by by rewrite Et.
  assert (forall r w', doq_connection t (endpoint f) ms w = (Ok r, w') -> connected (fs_roots s) (fs_verify s) (fs_now s) f r) as Hn.
  { unfold doq_connection. rewrite Et. cbn. intros c w' E. destruct (doq_conn t) as [c0|].
    - destruct (quic_is_open c0); [injection E as <- <-; by apply Hc|by eapply connected_new].
    - by eapply connected_new. }
  destruct (doq_connection t (endpoint f) ms w) as [[c|e] w1]; [|done]. specialize (Hn c w1 eq_refl).
  destruct (quic_exchange_query c frame ms w1) as [[[resp|e] c'] w2] eqn:E; (split; [by rewrite Et|]); [|done].
  intros c2 [= <-]. by eapply connected_query.
Qed.

(** How a query to [f] was carried: over its protocol, to its endpoint, and when the
    protocol is encrypted through a transport of its identity. *)
Inductive carried (fuel : nat) s f (query : list Z) (ms : Z) w : Exchange (list Z) -> N -> Prop :=
| by_plain r t w' : is_encrypted (ep_proto (endpoint f)) = false ->
    transports_exchange fuel (fs_plain s) (endpoint f) query ms w = (r, t, w') -> carried fuel s f query ms w r w'
| by_dot r w' : ep_proto (endpoint f) = Upstream.Tls ->
    dot_exchange (build_dot s f) query (endpoint f) ms w = (r, w') -> carried fuel s f query ms w r w'
| by_doh t r t' w' : ep_proto (endpoint f) = DoH -> http_for doh_config s f t ->
    doh_exchange t query (endpoint f) ms w = (r, t', w') -> carried fuel s f query ms w r w'
| by_doh3 t r t' w' : ep_proto (endpoint f) = DoH3 -> http_for doh3_config s f t ->
    doh3_exchange t query (endpoint f) ms w = (r, t', w') -> carried fuel s f query ms w r w'
| by_doq t r t' w' : ep_proto (endpoint f) = DoQ -> quic_for s f t ->
    doq_exchange t query (endpoint f) ms w = (r, t', w') -> carried fuel s f query ms w r w'.

Definition same_settings s s' : Prop := fs_roots s' = fs_roots s /\ fs_verify s' = fs_verify s /\ fs_now s' = fs_now s.

Lemma build_dot_for s f t : t = build_dot s (forwarder_of (key_of f)) <-> t = build_dot s f.
Proof. by rewrite build_dot_key. Qed.
Lemma build_doh_for cfg s f : http_for cfg s f (build_doh s f).
Proof. by split. Qed.
Lemma build_doq_for s f : quic_for s f (build_doq s f).
Proof. by split. Qed.

Lemma exchange_one_ok fuel s f query ms w : pools_ok s ->
  let '(r, s', w') := exchange_one fuel s f query ms w in
  pools_ok s' /\ same_settings s s' /\ carried fuel s f query ms w r w'.
Proof.
  intros [O1 O2 O3 O4]. unfold exchange_one. destruct (ep_proto (endpoint f)) eqn:Ep.
  1,2: destruct (transports_exchange _ _ _ _ _ _) as [[r t] w'] eqn:E; split; [by constructor|]; split; [done|];
    eapply by_plain; [by rewrite Ep|done].
  - pose proof (pooled_step _ (pool_dot s) f _ (build_dot_for s f) O1 eq_refl) as K.
    destruct (pooled_transport _ _ _) as [t pool]. destruct K as (-> & Kp & _).
    destruct (dot_exchange _ _ _ _ _) as [r w'] eqn:E. split; [by constructor|]. split; [done|]. by eapply by_dot.
  - pose proof (pooled_step _ (pool_doh s) f _ (http_for_key doh_config s f) O2 (build_doh_for _ s f)) as K.
    destruct (pooled_transport _ _ _) as [t pool]. destruct K as (Kt & _ & Ki).
    pose proof (http_exchange_for doh_config s f t query (endpoint f) ms w Kt) as X. fold doh_exchange in X.
    destruct (doh_exchange _ _ _ _ _) as [[r t'] w'] eqn:E. split; [constructor; [done|exact (Ki t' X)|done|done]|]. split; [done|].
    by apply (by_doh _ _ _ _ _ _ t r t').
  - pose proof (pooled_step _ (pool_doh3 s) f _ (http_for_key doh3_config s f) O3 (build_doh_for _ s f)) as K.
    destruct (pooled_transport _ _ _) as [t pool]. destruct K as (Kt & _ & Ki).
    pose proof (http_exchange_for doh3_config s f t query (endpoint f) ms w Kt) as X. fold doh3_exchange in X.
    destruct (doh3_exchange _ _ _ _ _) as [[r t'] w'] eqn:E. split; [constructor; [done|done|exact (Ki t' X)|done]|]. split; [done|].
    by apply (by_doh3 _ _ _ _ _ _ t r t').
  - pose proof (pooled_step _ (pool_doq s) f _ (quic_for_key s f) O4 (build_doq_for s f)) as K.
    destruct (pooled_transport _ _ _) as [t pool]. destruct K as (Kt & _ & Ki).
    pose proof (doq_exchange_for s f t query ms w Kt) as X.
    destruct (doq_exchange _ _ _ _ _) as [[r t'] w'] eqn:E. split; [constructor; [done|done|done|exact (Ki t' X)]|]. split; [done|].
    by apply (by_doq _ _ _ _ _ _ t r t').
Qed.

(** A set, over any additions and exchanges. *)
Inductive set_run s0 : ForwarderSet -> Prop :=
| run_start : set_run s0 s0
| run_add s f : set_run s0 s -> set_run s0 (add s f)
| run_exchange fuel s f query ms w r s' w' : set_run s0 s -> exchange_one fuel s f query ms w = (r, s', w') -> set_run s0 s'.

Lemma add_pools s f : same_settings s (add s f) /\ (pools_ok s -> pools_ok (add s f)).
Proof. unfold add. destruct (existsb _ _); [done|]. split; [done|]. intros []. by constructor. Qed.

Lemma set_run_ok s0 s : pools_ok s0 -> set_run s0 s -> same_settings s0 s /\ pools_ok s.
Proof.
  intros H0'. induction 1 as [|s f _ [IHs IHp]|fuel s f query ms w r s' w' _ [IHs IHp] E]; [done|..].
  - destruct (add_pools s f) as [A1 A2]. unfold same_settings in *. split; [intuition congruence|auto].
  - pose proof (exchange_one_ok fuel s f query ms w IHp) as K. rewrite E in K. unfold same_settings in *. intuition congruence.
Qed.


(** Adding keeps the identities distinct, adds what is missing and nothing else. *)
Lemma add_spec s f : NoDup (map key_of (forwarders s)) ->
  NoDup (map key_of (forwarders (add s f))) /\ In (key_of f) (map key_of (forwarders (add s f))) /\
  exists l, forwarders (add s f) = forwarders s ++ l /\ (forall g, In g l -> g = f) /\
    (l = [] <-> In (key_of f) (map key_of (forwarders s))).
Proof.
  intros Hd. unfold add. destruct (existsb _ _) eqn:E.
  - apply existsb_exists in E as (g & Hg & Eg%bool_decide_eq_true).
    assert (In (key_of f) (map key_of (forwarders s))) as Hi by (rewrite <- Eg; by apply in_map).
    split; [done|]. split; [done|]. exists []. rewrite app_nil_r. by repeat split.
  - assert (~ In (key_of f) (map key_of (forwarders s))) as Hn.
    { intros (g & Eg & Hg)%in_map_iff. apply not_true_iff_false in E. apply E, existsb_exists. exists g.
      by rewrite Eg, bool_decide_true. }
    cbn [forwarders]. rewrite map_app. split; [|split].
    + apply list.NoDup_app. split; [done|]. split; [|apply NoDup_singleton].
      intros k Hk%list_elem_of_In ->%list_elem_of_singleton. done.
    + apply in_or_app. right. by left.
    + exists [f]. split; [done|]. split; [by intros g [->|[]]|]. done.
Qed.

(** *** Every exchange ends *)

Lemma exchange_one_settles patience s f query ms w : settles_within (H := H) (N := N) patience ->
  (exchange_one patience s f query ms w).1.1 <> Waiting.
Proof.
  intros Hs. unfold exchange_one. destruct (ep_proto (endpoint f)).
  1,2: pose proof (transports_exchange_ended patience (fs_plain s) (endpoint f) query ms w Hs) as K;
    by destruct (transports_exchange _ _ _ _ _ _) as [[] ?].
  all: destruct (pooled_transport _ _ _) as [t pool].
  - pose proof (dot_exchange_ended t query (endpoint f) ms w) as K. by destruct (dot_exchange t query (endpoint f) ms w).
  - pose proof (http_exchange_ended doh_config t query (endpoint f) ms w) as K. fold doh_exchange in K.
    by destruct (doh_exchange _ _ _ _ _) as [[] ?].
  - pose proof (http_exchange_ended doh3_config t query (endpoint f) ms w) as K. fold doh3_exchange in K.
    by destruct (doh3_exchange _ _ _ _ _) as [[] ?].
  - pose proof (doq_exchange_ended t query (endpoint f) ms w) as K. by destruct (doq_exchange _ _ _ _ _) as [[] ?].
Qed.

Lemma exchange_with_settles patience group query query_bytes ms : settles_within (H := H) (N := N) patience ->
  forall last s w, (exchange_with patience group query query_bytes ms last s w).1.1 <> Waiting.
Proof.
  intros Hs. induction group as [|f group IH]; intros last s w; [done|]. cbn [exchange_with].
  pose proof (exchange_one_settles patience s f query_bytes ms w Hs) as K.
  destruct (exchange_one patience s f query_bytes ms w) as [[[b|e|] s1] w1]; [|apply IH|done].
  destruct (forward_verdict query b) as [m|e]; [done|apply IH].
Qed.
End forward.
Arguments ForwarderSet : clear implicits.

(** ** The query and the resolution *)

Definition build_forward_query {G} `{RandomSource G} (key : QueryKey) (edns_udp_size : Z) (dnssec : bool) (rng : G) : Message * G :=
  let '(r, rng) := next_u32 rng in
  (mkMessage (Z.land r 0xffff) (with_rd default_flags true) [mkQuestion (qk_name key) (qk_type key) (qk_class key)] [] [] []
     (Some (to_edns (mkEdnsSpec edns_udp_size (dnssec || want_dnssec key) (ecs_option key) None))), rng).

Definition response_to_resolution (key : QueryKey) (resp : Message) : Resolution :=
  let '(ttl, answers, rrsigs) :=
    fold_left (fun '(t, ans, sigs) r =>
        if rr_type r =? RrTypes.RRSIG then (Z.min t (ttl r), ans, sigs ++ [r]) else (Z.min t (ttl r), ans ++ [r], sigs))
      (answers resp) (u32_max, [], []) in
  let ttl := if ttl =? u32_max then 0 else ttl in
  let code := if rcode resp <=? u8_max then rcode resp else Rcodes.SERVFAIL in
  mkResolution (qk_name key) (qk_type key) (qk_class key) code answers (authorities resp) rrsigs false ttl false false
    (e ← edns resp; c ← ecs e; Some (scope_prefix c)) 0.

Definition is_rrsig (r : Rr) : bool := rr_type r =? RrTypes.RRSIG.

Lemma split_answers l : forall t ans sigs,
  fold_left (fun '(t, ans, sigs) r =>
      if rr_type r =? RrTypes.RRSIG then (Z.min t (ttl r), ans, sigs ++ [r]) else (Z.min t (ttl r), ans ++ [r], sigs)) l (t, ans, sigs) =
  (fold_left (fun t r => Z.min t (ttl r)) l t, ans ++ List.filter (fun r => negb (is_rrsig r)) l, sigs ++ List.filter is_rrsig l).
Proof.
  unfold is_rrsig. induction l as [|r l IH]; intros t ans sigs; cbn [fold_left List.filter]; [by rewrite !app_nil_r|].
  destruct (rr_type r =? RrTypes.RRSIG); rewrite IH; cbn [negb]; by rewrite <- ?app_assoc.
Qed.

Lemma min_ttl l : forall t, fold_left (fun t r => Z.min t (ttl r)) l t <= t /\
  (forall r, In r l -> fold_left (fun t r => Z.min t (ttl r)) l t <= ttl r) /\
  (fold_left (fun t r => Z.min t (ttl r)) l t = t \/ exists r, In r l /\ fold_left (fun t r => Z.min t (ttl r)) l t = ttl r).
Proof.
  induction l as [|r l IH]; intros t; cbn [fold_left]; [split; [lia|]; split; [done|by left]|].
  destruct (IH (Z.min t (ttl r))) as (I1 & I2 & I3). split; [lia|]. split; [intros r' [<-|Hr]; [lia|by apply I2]|].
  destruct I3 as [E|(r' & Hr & E)]; [|right; exists r'; split; [by right|done]].
  destruct (Z.le_ge_cases t (ttl r)); [left; lia|right; exists r; split; [by left|lia]].
Qed.

(** The resolution of a response: its records with the signatures apart, a time to live
    no record outlives, and nothing claimed of its authenticity or of the cache. *)
Lemma response_to_resolution_spec key resp : Forall (fun r => is_u32 (ttl r)) (answers resp) ->
  let res := response_to_resolution key resp in
  (res_name res, res_type res, res_class res) = (qk_name key, qk_type key, qk_class key) /\
  res_answers res = List.filter (fun r => negb (is_rrsig r)) (answers resp) /\
  res_rrsigs res = List.filter is_rrsig (answers resp) /\ res_authorities res = authorities resp /\
  0 <= res_ttl res /\ (forall r, In r (answers resp) -> res_ttl res <= ttl r) /\
  (rcode resp <= u8_max -> res_rcode res = rcode resp) /\ (u8_max < rcode resp -> res_rcode res = Rcodes.SERVFAIL) /\
  res_validated res = false /\ from_cache res = false /\ res_stale res = false.
Proof.
  intros Ht. unfold response_to_resolution. rewrite split_answers.
  destruct (min_ttl (answers resp) u32_max) as (M1 & M2 & M3).
  set (t := fold_left _ (answers resp) u32_max) in *. rewrite List.Forall_forall in Ht. cbn.
  split; [done|]. split; [done|]. split; [done|]. split; [done|].
  assert (0 <= t) as T0.
  { destruct M3 as [->|(r & Hr & ->)]; [done|]. by apply Ht. }
  destruct (t =? u32_max) eqn:E; bools.
  - split; [lia|]. split; [intros r Hr; specialize (Ht r Hr); unfold is_u32 in Ht; lia|]. case_match; bools; split; try done; lia.
  - split; [lia|]. split; [done|]. case_match; bools; split; try done; lia.
Qed.

(** ** On concrete inputs *)

Definition name_a : Name := of_labels [[97]].
Definition sample_query : Message := message_query 7 name_a RrTypes.A true.
Definition reply (flags : HeaderFlags) (answers : list Rr) : list Z :=
  match to_bytes (mkMessage 7 flags (questions sample_query) answers [] [] None) with Ok b => b | Err _ => [] end.
Definition response_flags (truncated : bool) (code : Z) : HeaderFlags := mkFlags true 0 false truncated true true false false code.

(** One address behind two names. *)
Definition dot_a : Forwarder := encrypted (mkEndpoint (V4 9) 853 Upstream.Tls) (ascii_bytes "a.example").
Definition dot_b : Forwarder := encrypted (mkEndpoint (V4 9) 853 Upstream.Tls) (ascii_bytes "b.example").
Definition sample_set : ForwarderSet unit unit unit unit := add (add (forwarder_set_new tt 0 tt true 7) dot_a) dot_b.


(** A failing server does not veto the one behind it: the first refuses the connection,
    the second answers SERVFAIL, the third has the address. *)
Example third_server_answers :
  let rr := mkRecord name_a RrTypes.A RrClasses.IN_ 60 (RD_A [203; 0; 113; 7]) in
  let udp n := plain (mkEndpoint (V4 n) 53 Udp) in
  let from n bs := (bs, socket_addr (V4 n) 53) in
  let w := mkScript [from 2 (reply (response_flags false 2) []); from 2 []; from 3 (reply (response_flags false 0) [rr])] [] [] in
  let '(r, _, _) := exchange_with 9 [encrypted (mkEndpoint (V4 1) 443 DoH) []; udp 2; udp 3] sample_query [] 100 None sample_set w in
  match r with Got m => answers m = [rr] | _ => False end.
Proof. vm_compute. reflexivity. Qed.

(** A truncated answer of a forwarder is final: nothing asks again over TCP. *)
Example truncated_accepted :
  match forward_verdict sample_query (reply (response_flags true 0) []) with Ok m => is_truncated m = true | Err _ => False end.
Proof. vm_compute. reflexivity. Qed.

(** A server that echoes the query has answered it: the response bit is not looked at. *)
Example echo_accepted :
  match to_bytes sample_query with
  | Ok bs => match forward_verdict sample_query bs with Ok m => is_response m = false /\ rcode m = 0 | Err _ => False end
  | Err _ => False
  end.
Proof. vm_compute. done. Qed.

(** An explicit default path and none at all share a transport; different names do not. *)
Example same_transport :
  key_of (forwarder_with_path dot_a default_path) = key_of dot_a /\ key_of dot_a <> key_of dot_b.
Proof. split; [reflexivity|]. vm_compute. discriminate. Qed.
