(* ===== verification/Forwarded.v ===== *)
(** * Resolving through forwarders ([forward_once], [set_forwarder_roots] of [src/resolver.rs])

    The forwarder put in the place [Walk] keeps for it: one exchange with a group, from
    the query built to the resolution of its response, over a world that holds the
    resolver's transports and its set of forwarders. *)
From stdpp Require Import gmap.
From S2P Require Import Prelude Wire Prng Name Compress Qtype Edns Bitmap RData Rr Message BTree Time Addr Float64 Float Hosts Budget Rendezvous Upstream RrSet Tier CacheKey Cache Alias Query Engine Cidr Pattern Routing FakeIp Front Servers Walk QuicRx QuicConn Tls QuicLink Transports Forward.

(** ** The query sent to a forwarder *)

(** What a forwarder is asked: the key's question with recursion desired, its client
    subnet, and no cookie. *)
Lemma forward_query_message {G} `{RandomSource G} key size dnssec (rng : G) :
  let '(q, _) := build_forward_query key size dnssec rng in
  exists i, q = mkMessage i (with_rd default_flags true) [mkQuestion (qk_name key) (qk_type key) (qk_class key)] [] [] []
                  (Some (to_edns (mkEdnsSpec size (dnssec || want_dnssec key) (ecs_option key) None))) /\ is_u16 i.
Proof.
  unfold build_forward_query. destruct (next_u32 rng) as [r rng']. eexists. split; [reflexivity|].
  change 0xffff with (Z.ones 16). rewrite Z.land_ones by lia. unfold is_u16. change 65536 with (2 ^ 16). by apply Z.mod_pos_bound.
Qed.

(** The query built for a forwarder is written without error, and what a server reads
    from its octets is the query itself: the responses it is checked against echo what
    was sent. *)
Theorem forward_query_reads_back {G} `{RandomSource G} key size dnssec (rng : G) :
  wf_name (qk_name key) -> is_u16 (qk_type key) -> is_u16 (qk_class key) -> is_u16 size ->
  (forall e, ecs_option key = Some e -> ecs_ok e) ->
  let q := (build_forward_query key size dnssec rng).1 in
  exists octets, to_bytes q = Ok octets /\ message_parse octets = Ok q.
Proof.
  intros Hn Ht Hc Hs He. pose proof (forward_query_message key size dnssec rng) as K. cbv zeta.
  destruct (build_forward_query key size dnssec rng) as [q rng']. destruct K as (i & -> & Hi). cbn [fst].
  set (spec := mkEdnsSpec size (dnssec || want_dnssec key) (ecs_option key) None).
  assert (spec_ok spec) as So by (split; [done|]; split; [exact He|done]).
  destruct (query_message_ok i (qk_name key) (qk_name key) (qk_type key) (qk_class key) true (Some spec) Hi Hn
    (canonical_wf _ Hn) Ht Hc ltac:(by intros s [= <-])) as (Hm & En & Hl).
  cbn [fmap option_fmap option_map] in *.
  pose proof (query_bytes i (with_rd default_flags true) (mkQuestion (qk_name key) (qk_type key) (qk_class key)) (Some (to_edns spec))) as B.
  cbv zeta in B. eexists. split; [exact B|]. rewrite <- En at 2.
  apply to_bytes_reparses; [done|done|]. clear B En Hm. pose proof Hn as (ls & (_ & _ & Hz & _) & El).
  cbn [qname qtype qclass]. unfold opt_wire.
  rewrite !zlen_app, zlen_header, !zlen_be_bytes. change (zlen [0]) with 1.
  rewrite El. fold (wire_len (of_labels ls)). rewrite wire_len_of_labels.
  unfold MAX_NAME_LEN, usize_max in *. lia.
Qed.

Lemma forward_query_reads_back_witness :
  let key := mkQueryKey name_a RrTypes.A RrClasses.IN_ (Some (mkEcsKey 1 24 [10; 1; 2])) true false in
  let q := (build_forward_query key 1232 false (mkSplitMix64 7)).1 in
  (e ← edns q; Some (dnssec_ok e, ecs e)) = Some (true, Some (mkEcs 1 24 0 [10; 1; 2])) /\
  exists octets, to_bytes q = Ok octets /\ message_parse octets = Ok q.
Proof.
  intros key q. split; [reflexivity|]. apply (forward_query_reads_back key 1232 false (mkSplitMix64 7)).
  - exists [[97]]. split; [|reflexivity]. repeat split; repeat constructor; done.
  - by split.
  - by split.
  - by split.
  - intros e [= <-]. exists 32. split; [left; by split|]. cbn. split; [lia|]. split; [lia|]. split; [reflexivity|].
    split; [repeat constructor; unfold is_byte; lia|]. left. reflexivity.
Defined.

(** ** The world with its forwarders *)

(** The clocks of the system. *)
Class OsClock (N : Type) := { os_instant : N -> Z * N; os_now : N -> Ts * N }.

(** A receive loop that the fuel cut short; in a world that settles there is none
    ([exchange_one_settles]). *)
Definition unsettled : Error := mkError Timeout "still receiving".
Definition settle {A} (r : Exchange A) : result Error A :=
  match r with Got a => Ok a | Lost e => Err e | Waiting => Err unsettled end.

Definition with_validated (b : bool) (r : Resolution) : Resolution :=
  mkResolution (res_name r) (res_type r) (res_class r) (res_rcode r) (res_answers r) (res_authorities r) (res_rrsigs r)
    b (res_ttl r) (from_cache r) (res_stale r) (ecs_scope r) (served_at r).

Lemma unvalidated key resp : with_validated false (response_to_resolution key resp) = response_to_resolution key resp.
Proof. unfold response_to_resolution. by destruct (fold_left _ _ _) as [[t ans] sigs]. Qed.

Section resolver.
Context {N H R L C B Q P D : Type}.
Context `{OsClock N, Sockets N H, TlsStreams N H R L, HttpClients N R C B, QuicClients N R Q P D}.

(** The resolver's own transports, its set of forwarders, and the system. *)
Record NetState := mkNet { ns_transports : Transports R C Q P; ns_forwarders : ForwarderSet R C Q P; ns_os : N }.

Definition net_ops (patience : nat) : NetworkOps NetState := {|
  instant s := let '(t, o) := os_instant (ns_os s) in (t, mkNet (ns_transports s) (ns_forwarders s) o);
  clock_now s := let '(t, o) := os_now (ns_os s) in (t, mkNet (ns_transports s) (ns_forwarders s) o);
  exchange s ep query ms :=
    let '(r, t, o) := transports_exchange patience (ns_transports s) ep query ms (ns_os s) in
    (settle r, mkNet t (ns_forwarders s) o) |}.

(** The set a resolver starts with, and that [set_forwarder_roots] puts in its place:
    every server of every group, then those of the engine's configuration. *)
Definition forwarder_set_of (empty : R) (clock : Z) (groups : UpstreamGroups Forwarder) (engine : list Forwarder)
    (roots : R) (verify : bool) : ForwarderSet R C Q P :=
  fold_left add (groups_all groups ++ engine) (forwarder_set_new empty clock roots verify clock).

(** Each set is built by additions to an empty one, holds every server it was given under
    one identity each, and has the roots and the policy it was given. *)
Lemma forwarder_set_of_spec empty clock groups engine roots verify :
  let s := forwarder_set_of empty clock groups engine roots verify in
  set_run (forwarder_set_new empty clock roots verify clock) s /\
  NoDup (map key_of (forwarders s)) /\
  forall f, In f (groups_all groups ++ engine) -> In (key_of f) (map key_of (forwarders s)).
Proof.
  cbv zeta. unfold forwarder_set_of. set (s0 := forwarder_set_new empty clock roots verify clock).
  assert (forall l s, set_run s0 s -> NoDup (map key_of (forwarders s)) ->
    set_run s0 (fold_left add l s) /\ NoDup (map key_of (forwarders (fold_left add l s))) /\
    (forall k, In k (map key_of (forwarders s)) -> In k (map key_of (forwarders (fold_left add l s)))) /\
    (forall f, In f l -> In (key_of f) (map key_of (forwarders (fold_left add l s))))) as K.
  { induction l as [|g l IH]; intros s Hr Hd; cbn [fold_left]; [split; [done|]; split; [done|]; by split|].
    destruct (add_spec s g Hd) as (A1 & A2 & ext & E & _). destruct (IH (add s g) (run_add _ _ _ Hr) A1) as (I1 & I2 & I3 & I4).
    split; [done|]. split; [done|]. split.
    - intros k Hk. apply I3. rewrite E, map_app. apply in_or_app. by left.
    - intros f [<-|Hf]; [by apply I3|by apply I4]. }
  destruct (K (groups_all groups ++ engine) s0 (run_start _) (NoDup_nil_2)) as (K1 & K2 & _ & K4). done.
Qed.

Section once.
Context {S E G : Type} `{StabilityOps S, EstimatorOps E, RandomSource G}.
Abbreviation World := (World S E G NetState).
Context (patience : nat) (cfg : EngineConfig).
(** Whether the signatures of a response verify ([validate_message_detailed]). *)
Context (verified : QueryKey -> Message -> World -> bool * World).

Definition forward_once (key : QueryKey) (group : list Forwarder) (w : World) : result Error Resolution * World :=
  let '(query, rng) := build_forward_query key (edns_udp_size cfg) (cfg_dnssec cfg) (w_rng w) in
  let w := set_rng rng w in
  match to_bytes query with
  | Err e => (Err e, w)
  | Ok octets =>
      let net := w_net w in
      let '(r, fs, os) :=
        exchange_with patience group query octets (timeout_ms cfg) None (ns_forwarders net) (ns_os net) in
      let w := set_net (mkNet (ns_transports net) fs os) w in
      match settle r with
      | Err e => (Err e, w)
      | Ok resp =>
          if cfg_dnssec cfg && negb (qk_cd key) then
            let '(v, w) := verified key resp w in (Ok (with_validated v (response_to_resolution key resp)), w)
          else (Ok (response_to_resolution key resp), w)
      end
  end.

(** A resolution that is the response of a server of [group] to the query of some world. *)
Definition forwarded_by (key : QueryKey) (group : list Forwarder) (res : Resolution) : Prop :=
  exists (f : Forwarder) (rng : G) octets resp v, In f group /\
    answers_query (build_forward_query key (edns_udp_size cfg) (cfg_dnssec cfg) rng).1 octets resp /\
    res = with_validated v (response_to_resolution key resp) /\
    (v = true -> cfg_dnssec cfg = true /\ qk_cd key = false).

Lemma forward_once_sound key group w res w' : forward_once key group w = (Ok res, w') -> forwarded_by key group res.
Proof.
  unfold forward_once. intros E1.
  assert (exists i, (build_forward_query key (edns_udp_size cfg) (cfg_dnssec cfg) (w_rng w)).1 = i) as [q Eq] by eauto.
  destruct (build_forward_query _ _ _ _) as [query rng] eqn:Eb. cbn in Eq. subst q.
  destruct (to_bytes query) as [octets|]; [|done].
  pose proof (exchange_with_split patience query octets (timeout_ms cfg) group [] _ _ None _ _
    (none_failed _ _ _ _ (ns_forwarders (w_net (set_rng rng w))) (ns_os (w_net (set_rng rng w))))) as X.
  destruct (exchange_with _ _ _ _ _ _ _ _) as [[[resp|e|] fs] os]; [|done|done].
  destruct X as (pre & f & post & s1 & w1 & e & b & -> & _ & _ & Ha).
  assert (forall v, (v = true -> cfg_dnssec cfg = true /\ qk_cd key = false) ->
    forwarded_by key (pre ++ f :: post) (with_validated v (response_to_resolution key resp))) as K.
  { intros v Hv. exists f, (w_rng w), b, resp, v. rewrite Eb. split; [apply in_elt|]. done. }
  cbn [settle] in E1. destruct (cfg_dnssec cfg && negb (qk_cd key)) eqn:Ed.
  - destruct (verified _ _ _) as [v w2]. injection E1 as <- _. apply K.
    apply andb_true_iff in Ed as [? ?%negb_true_iff]. done.
  - injection E1 as <- _. rewrite <- unvalidated. exact (K false ltac:(done)).
Qed.

End once.
End resolver.
