(* ===== verification/Server.v ===== *)
(** * The server ([src/server.rs])

    What stands between the sockets and [Front.handle_query]: the answer to the octets of
    one query, the bounded queue between receivers and handlers, the admission of TCP
    connections, and the loop that serves one of them.  Threads are the processes of step
    relations; a socket is a class of reads, writes, the clock and the shutdown flag. *)
From stdpp Require Import gmap.
From S2P Require Import Prelude Wire Prng Name Compress Qtype Edns Bitmap RData Rr Message BTree Time Addr Hosts Policy Float64 CacheKey Query Cidr Pattern FakeIp Front Transports.

(** ** One query *)

Definition query_id (bs : list Z) : Z :=
  match bs with hi :: lo :: _ => hi * 256 + lo | _ => 0 end.

(** The response to octets that are no message. *)
Definition unparseable (bs : list Z) : Message :=
  mkMessage (query_id bs)
    (mkFlags true (opcode default_flags) (aa default_flags) (tc default_flags)
       (match get bs 2 with Some b => Z.testbit b 0 | None => false end) true (ad default_flags) (cd default_flags)
       Rcodes.FORMERR) [] [] [] [] None.

(** [to_bytes().unwrap_or_default()] *)
Definition or_empty (r : result Error (list Z)) : list Z := match r with Ok b => b | Err _ => [] end.

(** The size a UDP client accepts. *)
Definition udp_limit (bs : list Z) : Z :=
  match message_parse bs with
  | Ok q => match edns q with Some e => udp_payload_size e | None => 512 end
  | Err _ => 512
  end.

Section answer.
Context (policy : PolicyConfig) (dns : DnsPolicy) (anchored : bool) (resolve : QueryKey -> result Error Resolution).

Definition answer (s : FrontState) (query_bytes : list Z) (client_ip : option IpAddr) (limit : option Z) (now : Z)
    : list Z * FrontState :=
  match message_parse query_bytes with
  | Ok query =>
      let '(resp, s) := handle_query policy dns anchored resolve s query client_ip now in
      let resp := match limit with Some l => truncate_for_udp resp l | None => resp end in
      (match to_bytes resp with
       | Ok bs => bs
       | Err _ => or_empty (to_bytes (error_response query Rcodes.SERVFAIL))
       end, s)
  | Err _ => (or_empty (to_bytes (unparseable query_bytes)), s)
  end.

(** The body of [udp_handler_loop]. *)
Definition udp_answer (s : FrontState) (datagram : list Z) (src : IpAddr) (now : Z) : list Z * FrontState :=
  answer s datagram (Some src) (Some (udp_limit datagram)) now.

(** *** What a client receives *)

Lemma to_bytes_starts m bs : to_bytes m = Ok bs -> exists rest, bs = header m ++ rest.
Proof.
  rewrite to_bytes_body. destruct (body_outcome m (header m)) as [o Ho]. rewrite (Ho _ eq_refl).
  destruct o as [[w []]|e]; [|done]. intros [= <-]. by exists w.
Qed.

Lemma no_records_written m : answers m = [] -> authorities m = [] -> additionals m = [] -> exists bs, to_bytes m = Ok bs.
Proof.
  intros E1 E2 E3. rewrite to_bytes_body. unfold body. rewrite E1, E2, E3.
  destruct (questions_to_wire _ _) as [o1 c1]. cbn [records_to_wire mbind result_bind]. eauto.
Qed.

Lemma or_empty_error m : answers m = [] -> authorities m = [] -> additionals m = [] ->
  exists rest, or_empty (to_bytes m) = header m ++ rest.
Proof.
  intros E1 E2 E3. destruct (no_records_written m E1 E2 E3) as [bs E]. rewrite E. cbn. by apply to_bytes_starts.
Qed.

Lemma handle_query_id s query ip now : id (handle_query policy dns anchored resolve s query ip now).1 = id query.
Proof.
  pose proof (handle_query_cases policy dns anchored resolve s query ip now) as K.
  destruct (handle_query _ _ _ _ _ _ _ _) as [m s']. destruct K as [(e & -> & _)|(_ & q & _ & K)]; [done|].
  destruct (resolve_key _ _ _ _ _ _) as [[res|e] p]; by destruct K as [_ ->].
Qed.

Lemma truncate_id m l : id (truncate_for_udp m l) = id m.
Proof. unfold truncate_for_udp. destruct (_ <=? _); [done|]. by destruct (fit_sections _ _) as [[? ?] ?]. Qed.

Lemma query_id_u16 bs : bytes bs -> is_u16 (query_id bs).
Proof.
  unfold query_id, is_u16. intros H. destruct bs as [|hi [|lo bs]]; [lia..|].
  apply bytes_cons in H as [Hh H]. apply bytes_cons in H as [Hl _]. unfold is_byte in *. lia.
Qed.

Lemma unparseable_written bs : bytes bs ->
  or_empty (to_bytes (unparseable bs)) = header (unparseable bs) /\
  message_parse (header (unparseable bs)) = Ok (unparseable bs).
Proof.
  intros Hb. assert (to_bytes (unparseable bs) = Ok (header (unparseable bs))) as E.
  { rewrite to_bytes_body. unfold body. cbn. done. }
  split; [by rewrite E|]. assert (normal_message (unparseable bs) = unparseable bs) as <- by done.
  apply to_bytes_reparses; [|done|rewrite zlen_header; done].
  split; [by apply query_id_u16|]. split; [by split|]. cbn. repeat (split; [constructor|]). repeat split; done.
Qed.

Lemma questions_parsed bs n : buf_ok bs -> forall pos qs e, parse_questions n bs pos = Ok (qs, e) ->
  Forall (fun q => wf_name (qname q)) qs.
Proof.
  intros Hb. induction n as [|n IH]; intros pos qs e; cbn [parse_questions]; [by intros [= <- <-]|].
  intros ([nm p] & En & E)%bind_Ok. apply bind_Ok in E as (ty & _ & E). apply bind_Ok in E as (cl & _ & E).
  apply bind_Ok in E as ([l e'] & El & E). injection E as <- <-. constructor; [|by eapply IH].
  apply from_wire_iff in En as (ls & h & _ & _ & Hw & ->); [|done]. by exists ls.
Qed.

(** What a message that parses has at its front. *)
Lemma parsed_front bs m : buf_ok bs -> message_parse bs = Ok m ->
  id m = query_id bs /\ Forall (fun q => wf_name (qname q)) (questions m).
Proof.
  intros Hb. unfold message_parse. intros (E0 & E)%reject_bind. apply bind_Ok in E as (i & Ei & E).
  apply bind_Ok in E as (fl & _ & E). apply bind_Ok in E as (qd & _ & E). apply bind_Ok in E as (an & _ & E).
  apply bind_Ok in E as (ns & _ & E). apply bind_Ok in E as (ar & _ & E). apply reject_bind in E as [_ E].
  apply bind_Ok in E as ([qs p1] & Eq & E). apply bind_Ok in E as ([a p2] & _ & E).
  apply bind_Ok in E as ([au p3] & _ & E). apply bind_Ok in E as ([ad ed] & _ & E). injection E as <-. cbn [id questions].
  split; [|by eapply questions_parsed].
  bools. unfold query_id. destruct bs as [|hi [|lo bs]]; [unfold zlen in E0; cbn in E0; lia..|].
  assert (u16_at (hi :: lo :: bs) 0 = Ok (hi * 256 + lo)) as K.
  { destruct Hb as [Hb _]. assert (bytes [hi; lo]) as H2 by (apply bytes_cons in Hb as [? Hb]; apply bytes_cons in Hb as [? _];
      constructor; [done|]; constructor; [done|constructor]).
    pose proof (u16_at_prefix (be_val [hi; lo]) bs) as U. pose proof (be_bytes_be_val [hi; lo] H2) as V. cbn [length] in V.
    rewrite V in U. apply U. pose proof (be_val_bound [hi; lo] H2). exact H. }
  congruence.
Qed.

(** The question section of a message with at most one question. *)
Lemma fixed_part_small m : Forall (fun q => wf_name (qname q)) (questions m) -> zlen (questions m) <= 1 ->
  fixed_part m <= 12 + 255 + 4.
Proof.
  intros Hq Hl. unfold fixed_part. destruct (questions m) as [|q [|q' qs]]; cbn [questions_to_wire].
  - cbn [fst]. rewrite zlen_header. lia.
  - apply List.Forall_inv in Hq as (ls & (_ & _ & Hz & _) & E). unfold question_to_wire. cbn [fst snd put_name]. unfold write.
    rewrite find_hit_empty. cbn [fst]. unfold write_wire. rewrite !zlen_app, zlen_header, !zlen_be_bytes.
    fold (wire_len (qname q)). rewrite E, wire_len_of_labels. unfold MAX_NAME_LEN in Hz. lia.
  - unfold zlen in Hl. cbn in Hl. lia.
Qed.

Lemma fixed_part_questions m m' : questions m = questions m' -> fixed_part m = fixed_part m'.
Proof. intros E. rewrite <- (fixed_part_by_length m (header m')) by apply zlen_header. unfold fixed_part. by rewrite E. Qed.

(** A response carries the question section of the query and an OPT record without options. *)
Lemma response_overhead s query ip now :
  let m := (handle_query policy dns anchored resolve s query ip now).1 in
  questions m = questions query /\ opt_len m <= 11.
Proof.
  cbv zeta. pose proof (handle_query_cases policy dns anchored resolve s query ip now) as K.
  assert (forall e, opt_len (error_response query e) <= 11) as He by (intros e; unfold opt_len; cbn; by destruct (edns query)).
  destruct (handle_query _ _ _ _ _ _ _ _) as [m s']. cbn [fst].
  destruct K as [(e & -> & _)|(_ & q & _ & K)]; [split; [done|apply He]|].
  destruct (resolve_key _ _ _ _ _ _) as [[res|e] p]; destruct K as [_ ->]; (split; [done|]); [|apply He].
  unfold opt_len, build_response. cbn. by destruct (edns query).
Qed.

(** C25: Whatever octets arrive and whatever the resolver says, one response goes out with
    the identifier of the octets.  Octets that are no message get a FORMERR of twelve octets that
    parses back and change nothing; the response to a message of at most one
    question fits the size its client announced over UDP, or 512. *)
Theorem answer_contract s bs ip limit now : buf_ok bs -> (forall l, limit = Some l -> l < usize_max) ->
  let '(out, s') := answer s bs ip limit now in
  (exists rest, out = be_bytes 2 (query_id bs) ++ rest) /\
  match message_parse bs with
  | Err _ => s' = s /\ zlen out = 12 /\ message_parse out = Ok (unparseable bs)
  | Ok query => forall l, limit = Some l -> zlen (questions query) <= 1 -> zlen out <= Z.max l 512
  end.
Proof.
  intros Hb Hl. unfold answer. destruct (message_parse bs) as [query|e] eqn:Ep.
  2: { destruct (unparseable_written bs (proj1 Hb)) as [-> Hp]. split; [by eexists|]. split; [done|]. by rewrite zlen_header. }
  destruct (parsed_front bs query Hb Ep) as [Ei Hq].
  pose proof (handle_query_id s query ip now) as Hi. pose proof (response_overhead s query ip now) as [Hqs Ho].
  destruct (handle_query _ _ _ _ _ _ _ _) as [m s']. cbn [fst] in *.
  set (resp := match limit with Some l => _ | None => m end).
  assert (id resp = id query) as Hr by (unfold resp; destruct limit; [by rewrite truncate_id|done]).
  split.
  - rewrite <- Ei. destruct (to_bytes resp) as [out|e] eqn:Eb.
    + destruct (to_bytes_starts resp out Eb) as [rest ->]. unfold header. rewrite Hr, <- !app_assoc. by eexists.
    + destruct (or_empty_error (error_response query Rcodes.SERVFAIL)) as [rest ->]; try done.
      unfold header. rewrite <- !app_assoc. by eexists.
  - intros l -> H1. destruct (truncate_for_udp_fits m l) as [(out & E & Hz) _]; [|by apply Hl|].
    + rewrite (fixed_part_questions m query Hqs). pose proof (fixed_part_small query Hq H1). lia.
    + unfold resp. by rewrite E.
Qed.
End answer.

Lemma answer_contract_witness :
  let s := mkFront None (limiter_new (f64_of 1) (f64_of 1) 16) in
  let bs := [18; 52; 1; 0; 0; 1] ++ be_bytes 6 0 ++ [1; 97; 0; 0; 1; 0; 1] in
  let '(out, _) := answer policy_default (mkDnsPolicy hosts_default None) false (fun _ => Err blocked_by_policy) s bs
                     (Some (V4 9)) (Some (udp_limit bs)) 0 in
  (exists rest, out = [18; 52] ++ rest) /\ zlen out <= 512.
Proof.
  intros s bs.
  pose proof (answer_contract policy_default (mkDnsPolicy hosts_default None) false (fun _ => Err blocked_by_policy) s bs
    (Some (V4 9)) (Some (udp_limit bs)) 0) as K. cbv beta in K.
  destruct (answer _ _ _ _ s bs _ _ _) as [out s'].
  destruct K as [Hid Hm].
  - split; [|by vm_compute]. repeat (constructor; [by split|]). constructor.
  - intros l [= <-]. by vm_compute.
  - split; [exact Hid|].
    assert (exists q, message_parse bs = Ok q /\ zlen (questions q) <= 1 /\ udp_limit bs = 512) as (q & E & H1 & E2).
    { eexists. split; [vm_compute; reflexivity|]. split; [by vm_compute|]. by vm_compute. }
    rewrite E, E2 in Hm. exact (Hm 512 eq_refl H1).
Defined.

(** A response is itself answered: the FORMERR for octets that are no message draws
    another, and so on, before the rate limiter is asked. *)
Example errors_answer_errors :
  let s := mkFront None (limiter_new (f64_of 1) (f64_of 1) 16) in
  let ask bs := (answer policy_default (mkDnsPolicy hosts_default None) false (fun _ => Err blocked_by_policy) s bs
                   (Some (V4 9)) (Some (udp_limit bs)) 0).1 in
  let first := ask [18; 52; 0] in
  zlen first = 12 /\ ask first = ask (ask first) /\ query_id (ask first) = 0x1234.
Proof. vm_compute. done. Qed.

(** ** The queue between receivers and handlers *)

Definition SHUTDOWN_POLL_MS : Z := 100.

Record ServerConfig := mkServerConfig {
  udp_workers : Z; udp_handlers : Z; udp_queue : Z; max_tcp_connections : Z; tcp_idle_timeout_ms : Z; udp_recv_buffer : Z }.

Definition server_config_default : ServerConfig := mkServerConfig 2 8 1024 1024 30000 4096.

Section queue.
Context {T : Type}.

Record WorkQueue := mkQueue { wq_items : list T; wq_capacity : Z }.

Definition queue_new (capacity : Z) : WorkQueue := mkQueue [] (Z.max capacity 1).

(** The queue [bind_udp] makes. *)
Definition udp_queue_new (c : ServerConfig) : WorkQueue := queue_new (Z.max (udp_queue c) (Z.max (udp_handlers c) 1)).

Definition push (q : WorkQueue) (stopping : bool) (item : T) : bool * WorkQueue :=
  if (wq_capacity q <=? zlen (wq_items q)) || stopping then (false, q)
  else (true, mkQueue (wq_items q ++ [item]) (wq_capacity q)).

(** One pass of the loop of [pop]: an item, the end, or another wait. *)
Inductive Popped := Item (x : T) (q : WorkQueue) | Stopped | Wait.
Definition pop (q : WorkQueue) (stopping : bool) : Popped :=
  match wq_items q with
  | x :: items => Item x (mkQueue items (wq_capacity q))
  | [] => if stopping then Stopped else Wait
  end.

(** The threads of one UDP socket: what was queued and handled so far, the
    counter of datagrams shed, the handlers still running. *)
Record UdpPool := mkPool {
  p_queue : WorkQueue; p_stopping : bool; p_shed : Z; p_handlers : nat;
  p_received : list T; p_queued : list T; p_handled : list T }.

Definition pool_new (c : ServerConfig) : UdpPool :=
  mkPool (udp_queue_new c) false 0 (Z.to_nat (Z.max (udp_handlers c) 1)) [] [] [].

Inductive pool_step : UdpPool -> UdpPool -> Prop :=
| receiver_queues p x q : push (p_queue p) (p_stopping p) x = (true, q) ->
    pool_step p (mkPool q (p_stopping p) (p_shed p) (p_handlers p) (p_received p ++ [x]) (p_queued p ++ [x]) (p_handled p))
| receiver_sheds p x q : push (p_queue p) (p_stopping p) x = (false, q) ->
    pool_step p (mkPool q (p_stopping p) (wrap 64 (p_shed p + 1)) (p_handlers p) (p_received p ++ [x]) (p_queued p) (p_handled p))
| handler_takes p x q : (0 < p_handlers p)%nat -> pop (p_queue p) (p_stopping p) = Item x q ->
    pool_step p (mkPool q (p_stopping p) (p_shed p) (p_handlers p) (p_received p) (p_queued p) (p_handled p ++ [x]))
| handler_leaves p : (0 < p_handlers p)%nat -> pop (p_queue p) (p_stopping p) = Stopped ->
    pool_step p (mkPool (p_queue p) (p_stopping p) (p_shed p) (pred (p_handlers p)) (p_received p) (p_queued p) (p_handled p))
| shutdown_asked p :
    pool_step p (mkPool (p_queue p) true (p_shed p) (p_handlers p) (p_received p) (p_queued p) (p_handled p)).

Inductive pool_run (c : ServerConfig) : UdpPool -> Prop :=
| pool_start : pool_run c (pool_new c)
| pool_next p p' : pool_run c p -> pool_step p p' -> pool_run c p'.

Record pool_ok (c : ServerConfig) (p : UdpPool) : Prop := {
  po_fifo : p_queued p = p_handled p ++ wq_items (p_queue p);
  po_cap : wq_capacity (p_queue p) = Z.max (Z.max (udp_queue c) (Z.max (udp_handlers c) 1)) 1;
  po_bound : zlen (wq_items (p_queue p)) <= wq_capacity (p_queue p);
  po_shed : p_shed p = wrap 64 (zlen (p_received p) - zlen (p_queued p));
  po_left : (p_handlers p < Z.to_nat (Z.max (udp_handlers c) 1))%nat -> p_stopping p = true /\ wq_items (p_queue p) = [] }.

Lemma udp_pool_step_ok c p p' : pool_ok c p -> pool_step p p' -> pool_ok c p'.
Proof.
  intros [Hf Hc Hb Hs Hl]. destruct 1 as [p x q E|p x q E|p x q Hh E|p Hh E|p].
  - unfold push in E. destruct (_ || _) eqn:G; [done|]. injection E as <-. apply orb_false_iff in G as [G1 G2].
    constructor; cbn; try done.
    + by rewrite Hf, app_assoc.
    + bools. rewrite zlen_app. change (zlen [x]) with 1. lia.
    + rewrite Hs, !zlen_app. f_equal. change (zlen [x]) with 1. lia.
    + intros K. destruct (Hl K). congruence.
  - unfold push in E. destruct (_ || _) eqn:G; [|done]. injection E as <-. constructor; cbn; try done.
    rewrite Hs, zlen_app. change (zlen [x]) with 1. unfold wrap. rewrite Zplus_mod_idemp_l. f_equal. lia.
  - unfold pop in E. destruct (wq_items (p_queue p)) as [|y items] eqn:Ei; [by destruct (p_stopping p)|]. injection E as -> <-.
    constructor; cbn; try done.
    + by rewrite Hf, <- app_assoc.
    + rewrite zlen_cons in Hb. lia.
    + intros K. by destruct (Hl K).
  - unfold pop in E. destruct (wq_items (p_queue p)) as [|y items] eqn:Ei; [|done]. destruct (p_stopping p) eqn:Es; [|done].
    constructor; cbn; try done; by rewrite Ei.
  - constructor; cbn; try done. intros K. by destruct (Hl K).
Qed.

(** C27: Over any interleaving of receivers, handlers and a shutdown, the queue holds at
    most its capacity and loses nothing it took in: the datagrams handled are those
    queued, in their order, and every other one received is counted as shed.  A handler
    leaves only when the queue is empty and the server is stopping, so that when one has left
    everything queued has been handled. *)
Theorem udp_pool_fifo c p : pool_run c p ->
  zlen (wq_items (p_queue p)) <= Z.max (Z.max (udp_queue c) (Z.max (udp_handlers c) 1)) 1 /\
  p_queued p = p_handled p ++ wq_items (p_queue p) /\
  p_shed p = wrap 64 (zlen (p_received p) - zlen (p_queued p)) /\
  ((p_handlers p < Z.to_nat (Z.max (udp_handlers c) 1))%nat -> p_stopping p = true /\ p_handled p = p_queued p).
Proof.
  intros R. assert (pool_ok c p) as [Hf Hc Hb Hs Hl].
  { induction R as [|p p' R IH S]; [|by eapply udp_pool_step_ok]. constructor; cbn; try done; try lia.
    rewrite zlen_nil. lia. }
  split; [by rewrite <- Hc|]. split; [done|]. split; [done|]. intros K. destruct (Hl K) as [? E]. split; [done|].
  by rewrite Hf, E, app_nil_r.
Qed.
End queue.

Lemma udp_pool_fifo_witness :
  let c := mkServerConfig 1 1 1 0 0 0 in
  let p := mkPool (mkQueue [7] 1) true 1 1 [7; 8] [7] [] in
  pool_run c p /\ p_queued p = p_handled p ++ wq_items (p_queue p).
Proof.
  intros c p. assert (pool_run c p) as R.
  { apply (pool_next c (mkPool (mkQueue [7] 1) false 1 1 [7; 8] [7] [])); [|apply (shutdown_asked (mkPool (mkQueue [7] 1) false 1 1 [7; 8] [7] []))].
    apply (pool_next c (mkPool (mkQueue [7] 1) false 0 1 [7] [7] [])); [|by apply (receiver_sheds (mkPool (mkQueue [7] 1) false 0 1 [7] [7] []) 8)].
    apply (pool_next c (pool_new c)); [|by apply (receiver_queues (pool_new c) 7)]. apply pool_start. }
  split; [done|]. apply (udp_pool_fifo c p R).
Defined.

(** ** The admission of TCP connections *)

Section admission.
Context (max : Z).

(** Where the accept loop of one listener stands: waiting for a connection, past the
    test of the limit, or past the count and before the thread starts. *)
Inductive AcceptPc := Accepting | Passed | Counted.
Definition pc_eqb (a b : AcceptPc) : bool :=
  match a, b with Accepting, Accepting | Passed, Passed | Counted, Counted => true | _, _ => false end.

(** The shared counter, the accept loops, the connection threads running and, of the
    threads counted, those the system refused to start. *)
Record Admission := mkAdmission { ad_conns : Z; ad_loops : list AcceptPc; ad_live : Z; ad_lost : Z }.

Definition admits (conns : Z) : bool := negb ((0 <? max) && (max <=? conns)).

Inductive admission_step : Admission -> Admission -> Prop :=
| connection_admitted a i : ad_loops a !! i = Some Accepting -> admits (ad_conns a) = true ->
    admission_step a (mkAdmission (ad_conns a) (<[i := Passed]> (ad_loops a)) (ad_live a) (ad_lost a))
| connection_counted a i : ad_loops a !! i = Some Passed ->
    admission_step a (mkAdmission (ad_conns a + 1) (<[i := Counted]> (ad_loops a)) (ad_live a) (ad_lost a))
| thread_started a i : ad_loops a !! i = Some Counted ->
    admission_step a (mkAdmission (ad_conns a) (<[i := Accepting]> (ad_loops a)) (ad_live a + 1) (ad_lost a))
| thread_refused a i : ad_loops a !! i = Some Counted ->
    admission_step a (mkAdmission (ad_conns a) (<[i := Accepting]> (ad_loops a)) (ad_live a) (ad_lost a + 1))
| connection_ended a : 0 < ad_live a ->
    admission_step a (mkAdmission (ad_conns a - 1) (ad_loops a) (ad_live a - 1) (ad_lost a)).

Inductive admission_run (listeners : nat) : Admission -> Prop :=
| admission_start : admission_run listeners (mkAdmission 0 (replicate listeners Accepting) 0 0)
| admission_next a a' : admission_run listeners a -> admission_step a a' -> admission_run listeners a'.

Definition at_pc (pc : AcceptPc) (l : list AcceptPc) : Z := tally (pc_eqb pc) l.

Lemma at_pc_replicate pc n : pc <> Accepting -> at_pc pc (replicate n Accepting) = 0.
Proof.
  intros Hp. unfold at_pc. induction n as [|n IH]; [done|]. cbn [replicate]. rewrite tally_cons, IH. by destruct pc.
Qed.

(** Over any interleaving of the accept loops and the connections, the counter is the
    connections running, those being started, and those whose thread the system
    refused, which nothing counts down again; and it exceeds the limit by fewer
    than there are listeners, since each tests it before it counts. *)
Theorem admission_counts listeners a : (0 < listeners)%nat -> admission_run listeners a ->
  ad_conns a = ad_live a + at_pc Counted (ad_loops a) + ad_lost a /\ 0 <= ad_live a /\ 0 <= ad_lost a /\
  (0 < max -> ad_conns a <= max + Z.of_nat listeners - 1).
Proof.
  intros Hn R.
  assert (zlen (ad_loops a) = Z.of_nat listeners /\
    ad_conns a = ad_live a + at_pc Counted (ad_loops a) + ad_lost a /\ 0 <= ad_live a /\ 0 <= ad_lost a /\
    (0 < max -> ad_conns a + at_pc Passed (ad_loops a) <= max + Z.of_nat listeners - 1)) as (Hl & Hc & H1 & H2 & Hm).
  { induction R as [|a a' R IH S].
    - cbn. unfold zlen. rewrite length_replicate, !at_pc_replicate by done. lia.
    - destruct IH as (Hl & Hc & H1 & H2 & Hm).
      unfold at_pc in *. destruct S as [a i E A|a i E|a i E|a i E|a E]; cbn; unfold zlen in *; rewrite ?length_insert; split; try done.
      1: unfold admits in A; pose proof (tally_bounds (pc_eqb Passed) (<[i := Passed]> (ad_loops a))) as B; unfold zlen in B;
        rewrite length_insert, (tally_insert _ _ _ _ _ E) in B.
      all: try rewrite !(tally_insert _ _ _ _ _ E) in *; cbn in *.
      1: apply negb_true_iff, andb_false_iff in A; rewrite Z.ltb_ge, Z.leb_gt in A.
      all: split; [lia|]; split; [lia|]; split; [lia|]; intros; lia. }
  split; [done|]. split; [done|]. split; [done|]. intros Hp. specialize (Hm Hp).
  pose proof (tally_bounds (pc_eqb Passed) (ad_loops a)). unfold at_pc in *. lia.
Qed.
End admission.

Lemma admission_counts_witness :
  let a := mkAdmission 2 [Accepting; Counted] 1 0 in
  admission_run 1 2 a /\ ad_conns a <= 1 + 2 - 1.
Proof.
  intros a. assert (admission_run 1 2 a) as R.
  { apply (admission_next 1 2 (mkAdmission 1 [Accepting; Passed] 1 0)); [|by apply (connection_counted 1 (mkAdmission 1 [Accepting; Passed] 1 0) 1)].
    apply (admission_next 1 2 (mkAdmission 1 [Counted; Passed] 0 0)); [|by apply (thread_started 1 (mkAdmission 1 [Counted; Passed] 0 0) 0)].
    apply (admission_next 1 2 (mkAdmission 0 [Passed; Passed] 0 0)); [|by apply (connection_counted 1 (mkAdmission 0 [Passed; Passed] 0 0) 0)].
    apply (admission_next 1 2 (mkAdmission 0 [Passed; Accepting] 0 0)); [|by apply (connection_admitted 1 (mkAdmission 0 [Passed; Accepting] 0 0) 1)].
    apply (admission_next 1 2 (mkAdmission 0 [Accepting; Accepting] 0 0)); [|by apply (connection_admitted 1 (mkAdmission 0 [Accepting; Accepting] 0 0) 0)].
    apply admission_start. }
  split; [done|]. apply (admission_counts 1 2 a); [lia|done|lia].
Defined.

(** A thread the system refuses to start takes its place for good: with a limit of one,
    no connection is admitted afterwards though none is served. *)
Example refused_thread_blocks :
  exists a, admission_run 1 1 a /\ ad_live a = 0 /\ ad_loops a = [Accepting] /\ admits 1 (ad_conns a) = false.
Proof.
  exists (mkAdmission 1 [Accepting] 0 1). split; [|done].
  apply (admission_next 1 1 (mkAdmission 1 [Counted] 0 0)); [|by apply (thread_refused 1 (mkAdmission 1 [Counted] 0 0) 0)].
  apply (admission_next 1 1 (mkAdmission 0 [Passed] 0 0)); [|by apply (connection_counted 1 (mkAdmission 0 [Passed] 0 0) 0)].
  apply (admission_next 1 1 (mkAdmission 0 [Accepting] 0 0)); [|by apply (connection_admitted 1 (mkAdmission 0 [Accepting] 0 0) 0)].
  apply admission_start.
Qed.

(** ** One TCP connection *)

(** A connected socket, the clock and the shutdown flag as one thread sees them; a read of
    nothing is the peer's close. *)
Class Connection (N : Type) := {
  instant_now : N -> Z * N;
  wall_now : N -> Z * N;
  stopping : N -> bool * N;
  conn_read : Z -> N -> result IoErrorKind (list Z) * N;
  conn_write : list Z -> N -> result IoErrorKind unit * N }.

Section connection.
Context {N : Type} `{Connection N}.

(** How a bounded read ends; [Reading] is its fuel cut short. *)
Inductive ReadEnd := Full (bs : list Z) | Close | Broke (k : IoErrorKind) | Reading.

(** [read_deadline]: [got] is the filled part of the buffer, [need] its length. *)
Fixpoint read_deadline (fuel : nat) (got : list Z) (need deadline : Z) (w : N) : ReadEnd * N :=
  if need <=? zlen got then (Full got, w) else
  match fuel with
  | O => (Reading, w)
  | S fuel =>
      let '(stop, w) := stopping w in
      if stop then (Close, w) else
      let '(now, w) := instant_now w in
      if deadline <=? now then (Close, w) else
      match conn_read (need - zlen got) w with
      | (Ok [], w) => (Close, w)
      | (Ok bs, w) => read_deadline fuel (got ++ bs) need deadline w
      | (Err k, w) =>
          if bool_decide (k = WouldBlock \/ k = TimedOut) then read_deadline fuel got need deadline w else (Broke k, w)
      end
  end.

(** A read of [need] octets within [ns] nanoseconds from now. *)
Definition read_within (fuel : nat) (need ns : Z) (w : N) : ReadEnd * N :=
  let '(now, w) := instant_now w in read_deadline fuel [] need (now + ns) w.

Inductive ConnEnd := Finished | Failed (k : IoErrorKind) | Serving.

Section serve.
Context (policy : PolicyConfig) (dns : DnsPolicy) (anchored : bool) (resolve : QueryKey -> result Error Resolution).
Context (client_ip : option IpAddr) (idle_ms : Z).

Definition idle_ns : Z := Z.max idle_ms SHUTDOWN_POLL_MS * 1000000.
Definition message_ns : Z := Z.min (10 * 1000000000) idle_ns.

(** The loop of [tcp_conn]: a length, a query, its answer. *)
Fixpoint tcp_conn (rounds fuel : nat) (s : FrontState) (w : N) : ConnEnd * FrontState * N :=
  match rounds with
  | O => (Serving, s, w)
  | S rounds =>
      match read_within fuel 2 idle_ns w with
      | (Close, w) => (Finished, s, w)
      | (Broke k, w) => (Failed k, s, w)
      | (Reading, w) => (Serving, s, w)
      | (Full len_buf, w) =>
          let len := be_val len_buf in
          if len =? 0 then (Finished, s, w) else
          match read_within fuel len message_ns w with
          | (Close, w) => (Finished, s, w)
          | (Broke k, w) => (Failed k, s, w)
          | (Reading, w) => (Serving, s, w)
          | (Full query, w) =>
              let '(now, w) := wall_now w in
              let '(response, s) := answer policy dns anchored resolve s query client_ip None now in
              match conn_write (framed response) w with
              | (Ok _, w) => tcp_conn rounds fuel s w
              | (Err k, w) => (Failed k, s, w)
              end
          end
      end
  end.
End serve.
End connection.

(** *** A peer with a script *)

(** What a read meets: octets that arrive after a while, or the timeout of the socket. *)
Inductive Arrival := Data (delay : Z) (bs : list Z) | Quiet (delay : Z).
Definition arrival_delay (a : Arrival) : Z := match a with Data d _ | Quiet d => d end.
Definition arrival_data (a : Arrival) : list Z := match a with Data _ bs => bs | Quiet _ => [] end.
Definition arrival_ok (a : Arrival) : Prop :=
  0 <= arrival_delay a <= SHUTDOWN_POLL_MS * 1000000 /\ match a with Data _ bs => bs <> [] | Quiet _ => True end.

Record Peer := mkPeer { arrivals : list Arrival; clock : Z; wall : Z; received : list (list Z) }.

#[global] Instance peer_connection : Connection Peer := {
  instant_now p := (clock p, p);
  wall_now p := (wall p, p);
  stopping p := (false, p);
  conn_read room p :=
    match arrivals p with
    | [] => (Ok [], p)
    | Quiet d :: l => (Err WouldBlock, mkPeer l (clock p + d) (wall p) (received p))
    | Data d bs :: l =>
        let rest := drop (Z.to_nat room) bs in
        (Ok (take (Z.to_nat room) bs),
         mkPeer (match rest with [] => l | _ => Data 0 rest :: l end) (clock p + d) (wall p) (received p))
    end;
  conn_write bs p := (Ok tt, mkPeer (arrivals p) (clock p) (wall p) (received p ++ [bs])) }.

Definition still_to_come (p : Peer) : list Z := flat_map arrival_data (arrivals p).
Definition delays (l : list Arrival) : Z := fold_right (fun a t => arrival_delay a + t) 0 l.

Lemma delays_nonneg l : Forall arrival_ok l -> 0 <= delays l.
Proof. induction 1 as [|a l [? _] _ IH]; cbn; [lia|]. unfold delays in *. lia. Qed.

(** A read of [room] octets took [got] from the script. *)
Record advanced (room : Z) (p : Peer) (got : list Z) (p' : Peer) : Prop := {
  adv_data : still_to_come p = got ++ still_to_come p';
  adv_ok : Forall arrival_ok (arrivals p');
  adv_time : clock p' + delays (arrivals p') = clock p + delays (arrivals p);
  adv_clock : clock p <= clock p' <= clock p + SHUTDOWN_POLL_MS * 1000000;
  adv_same : wall p' = wall p /\ received p' = received p;
  adv_room : zlen got <= room;
  adv_count : (length (arrivals p') < length (arrivals p))%nat \/
              (zlen got = room /\ (length (arrivals p') <= length (arrivals p))%nat) }.

Lemma peer_read room p : 0 < room -> Forall arrival_ok (arrivals p) ->
  match arrivals p with
  | [] => conn_read room p = (Ok [], p)
  | Quiet _ :: _ => exists p', conn_read room p = (Err WouldBlock, p') /\ advanced room p [] p'
  | Data _ _ :: _ => exists got p', got <> [] /\ conn_read room p = (Ok got, p') /\ advanced room p got p'
  end.
Proof.
  intros Hr Ho. destruct p as [arr c wl rc]. cbn [arrivals conn_read peer_connection clock wall received] in *.
  destruct arr as [|[d bs|d] l]; [done|inversion Ho as [|? ? [Hd Hne] Hl]; subst; cbn [arrival_delay] in Hd..].
  - eexists _, _. split; [|split; [reflexivity|]].
    { destruct bs as [|b bs]; [done|]. by destruct (Z.to_nat room) eqn:E; [lia|]. }
    set (n := Z.to_nat room). assert (length (drop n bs) = length bs - n)%nat as Hdr by apply length_drop.
    assert (length (take n bs) = Nat.min n (length bs)) as Htk by apply length_take.
    assert (n = Z.to_nat room) as En by done. clearbody n. destruct (drop n bs) as [|b dr] eqn:Ed; cbn [length] in Hdr.
    + rewrite take_ge in * by lia. constructor; cbn; unfold still_to_come, SHUTDOWN_POLL_MS in *; cbn; try done; try lia.
      unfold zlen. lia.
    + constructor; cbn; unfold still_to_come, SHUTDOWN_POLL_MS, zlen in *; cbn; try done; try lia.
      * rewrite <- (take_drop n bs) at 1. by rewrite Ed, <- app_assoc.
      * constructor; [|done]. split; [cbn; unfold SHUTDOWN_POLL_MS; lia|done].
  - eexists. split; [reflexivity|]. constructor; cbn; unfold still_to_come, SHUTDOWN_POLL_MS, zlen in *; cbn; try done; try lia.
Qed.

(** One pass of [read_deadline] over a script. *)
Lemma read_deadline_step fuel got need deadline (p : Peer) : Forall arrival_ok (arrivals p) -> zlen got < need -> clock p < deadline ->
  (arrivals p = [] /\ read_deadline (S fuel) got need deadline p = (Close, p)) \/
  (arrivals p <> [] /\ exists more p', advanced (need - zlen got) p more p' /\
     read_deadline (S fuel) got need deadline p = read_deadline fuel (got ++ more) need deadline p').
Proof.
  intros Ho Hn Hc. cbn [read_deadline stopping instant_now peer_connection]. pose proof (peer_read (need - zlen got) p ltac:(lia) Ho) as K.
  destruct (need <=? zlen got) eqn:E1; [bools; lia|]. destruct (deadline <=? clock p) eqn:E2; [bools; lia|].
  destruct (arrivals p) as [|[d bs|d] l] eqn:Ea.
  - rewrite K. by left.
  - right. split; [done|]. destruct K as (more & p' & Hne & -> & Hadv). exists more, p'. split; [done|]. by destruct more.
  - right. split; [done|]. destruct K as (p' & -> & Hadv). exists [], p'. split; [done|].
    by rewrite app_nil_r, bool_decide_true by (by left).
Qed.

(** However slowly a peer sends, a read ends within one poll of its deadline, and
    each arrival either ends it or is consumed: the arrivals are fuel enough. *)
Theorem read_deadline_bounded fuel got need deadline (p : Peer) : Forall arrival_ok (arrivals p) -> zlen got <= need ->
  let '(r, p') := read_deadline fuel got need deadline p in
  clock p' <= Z.max (clock p) (deadline + SHUTDOWN_POLL_MS * 1000000) /\ ((length (arrivals p) < fuel)%nat -> r <> Reading).
Proof.
  revert got p. induction fuel as [|fuel IH]; intros got p Ho Hg.
  { cbn. destruct (_ <=? _); split; [lia|lia|lia|lia]. }
  destruct (decide (zlen got = need)) as [E|E].
  { cbn [read_deadline]. replace (need <=? zlen got) with true by (symmetry; apply Z.leb_le; lia). split; [lia|done]. }
  destruct (decide (deadline <= clock p)) as [Hd|Hd].
  { cbn [read_deadline stopping instant_now peer_connection]. replace (need <=? zlen got) with false by (symmetry; apply Z.leb_gt; lia).
    replace (deadline <=? clock p) with true by (symmetry; by apply Z.leb_le). split; [lia|done]. }
  destruct (read_deadline_step fuel got need deadline p Ho ltac:(lia) ltac:(lia)) as [[_ ->]|[_ (more & p' & A & ->)]]; [split; [lia|done]|].
  destruct A as [_ Hok _ Hclk _ Hroom Hcnt]. specialize (IH (got ++ more) p' Hok ltac:(rewrite zlen_app; lia)).
  destruct (read_deadline fuel (got ++ more) need deadline p') as [r p2] eqn:Er. destruct IH as [I1 I2]. split; [lia|]. intros Hf.
  destruct Hcnt as [Hc|[Hz Hc]]; [apply I2; lia|]. destruct fuel as [|fuel]; revert Er; cbn [read_deadline];
    (replace (need <=? zlen (got ++ more)) with true by (symmetry; apply Z.leb_le; rewrite zlen_app; lia)); by intros [= <- _].
Qed.

Lemma read_deadline_bounded_witness :
  let p := mkPeer [Data 99000000 [1]; Data 99000000 [2]; Data 99000000 [3]] 0 0 [] in
  let '(r, p') := read_deadline 9 [] 4 150000000 p in r = Close /\ clock p' <= 250000000.
Proof.
  intros p. pose proof (read_deadline_bounded 9 [] 4 150000000 p) as K.
  destruct (read_deadline 9 [] 4 150000000 p) as [r p'] eqn:E. destruct K as [K _].
  - repeat (constructor; [split; [by vm_compute|done]|]). constructor.
  - by vm_compute.
  - split; [by vm_compute in E; injection E as <- _|exact K].
Defined.

(** *** The answers, in order *)

(** Nothing of the peer but its arrivals and the clock has changed, and no time was gained. *)
Definition drained (p p' : Peer) : Prop :=
  Forall arrival_ok (arrivals p') /\ delays (arrivals p') <= delays (arrivals p) /\ wall p' = wall p /\ received p' = received p /\
  (length (arrivals p') <= length (arrivals p))%nat.

Lemma read_deadline_script fuel got need deadline (p : Peer) : Forall arrival_ok (arrivals p) ->
  clock p + delays (arrivals p) < deadline -> zlen got <= need -> (length (arrivals p) < fuel)%nat ->
  exists p', drained p p' /\
    (need - zlen got <= zlen (still_to_come p) -> exists bs, zlen bs = need - zlen got /\
       read_deadline fuel got need deadline p = (Full (got ++ bs), p') /\ still_to_come p = bs ++ still_to_come p') /\
    (zlen (still_to_come p) < need - zlen got -> read_deadline fuel got need deadline p = (Close, p')).
Proof.
  revert got p. induction fuel as [|fuel IH]; intros got p Ho Hd Hg Hf; [lia|].
  pose proof (delays_nonneg _ Ho) as Hn. pose proof (zlen_nonneg (still_to_come p)) as Hs. destruct (decide (zlen got = need)) as [E|E].
  { exists p. split; [done|]. split; [|lia]. intros _. exists []. rewrite app_nil_r, zlen_nil. split; [lia|]. cbn [read_deadline].
    by replace (need <=? zlen got) with true by (symmetry; apply Z.leb_le; lia). }
  destruct (read_deadline_step fuel got need deadline p Ho ltac:(lia) ltac:(lia)) as [[Ea ->]|[_ (more & q & A & ->)]].
  { exists p. split; [done|]. assert (still_to_come p = []) as -> by (unfold still_to_come; by rewrite Ea).
    change (zlen (@nil Z)) with 0. split; [lia|done]. }
  destruct A as [Hdata Hok Htime Hclk [Hw Hrc] Hroom Hcnt]. rewrite Hdata, zlen_app.
  assert (forall p', drained q p' -> drained p p') as Hdr.
  { intros p' (D1 & D2 & D3 & D4 & D5). unfold drained. split; [done|]. split; [lia|]. split; [congruence|]. split; [congruence|]. destruct Hcnt; lia. }
  destruct (decide (zlen (got ++ more) = need)) as [E2|E2]; rewrite zlen_app in E2.
  - exists q. split; [apply Hdr; done|]. split; [|pose proof (zlen_nonneg (still_to_come q)); lia]. intros _. exists more.
    split; [lia|]. split; [|done]. destruct fuel; cbn [read_deadline];
      by replace (need <=? zlen (got ++ more)) with true by (symmetry; apply Z.leb_le; rewrite zlen_app; lia).
  - destruct (IH (got ++ more) q) as (p' & D & F & C); [done|lia|rewrite zlen_app; lia|destruct Hcnt; lia|].
    exists p'. split; [by apply Hdr|]. rewrite zlen_app in F, C. split; [|intros; apply C; lia]. intros Hl.
    destruct F as (bs & Lb & -> & ->); [lia|]. exists (more ++ bs). rewrite zlen_app, !app_assoc. split; [lia|done].
Qed.

Section serving.
Context (policy : PolicyConfig) (dns : DnsPolicy) (anchored : bool) (resolve : QueryKey -> result Error Resolution).
Context (client_ip : option IpAddr) (idle_ms : Z).

(** The queries of a connection, answered one after the other at one moment. *)
Fixpoint answer_all (s : FrontState) (queries : list (list Z)) (now : Z) : list (list Z) * FrontState :=
  match queries with
  | [] => ([], s)
  | q :: queries =>
      let '(out, s) := answer policy dns anchored resolve s q client_ip None now in
      let '(outs, s) := answer_all s queries now in (out :: outs, s)
  end.

Definition query_ok (q : list Z) : Prop := bytes q /\ 1 <= zlen q <= u16_max.

Lemma read_within_script fuel need ns (p : Peer) : Forall arrival_ok (arrivals p) -> delays (arrivals p) < ns -> 0 <= need ->
  (length (arrivals p) < fuel)%nat ->
  exists p', drained p p' /\
    (forall bs rest, still_to_come p = bs ++ rest -> zlen bs = need ->
       read_within fuel need ns p = (Full bs, p') /\ still_to_come p' = rest) /\
    (zlen (still_to_come p) < need -> read_within fuel need ns p = (Close, p')).
Proof.
  intros Ho Hd Hn Hf. unfold read_within. cbn [instant_now peer_connection].
  destruct (read_deadline_script fuel [] need (clock p + ns) p) as (p' & D & F & C); [done|lia|done|done|].
  change (zlen []) with 0 in *. exists p'. split; [done|]. split; [|intros; apply C; lia].
  intros bs rest E Hl. destruct F as (bs' & Hl' & -> & E').
  { rewrite E, zlen_app. pose proof (zlen_nonneg rest). lia. }
  rewrite E in E'. apply app_inj_1 in E' as [-> ->]; [done|]. unfold zlen in *. lia.
Qed.

Lemma framed_query q : query_ok q -> framed q = be_bytes 2 (zlen q) ++ q /\ be_val (be_bytes 2 (zlen q)) = zlen q.
Proof.
  intros [_ Hl]. unfold framed, wrap, u16_max in *. change (2 ^ 16) with 65536 in *. rewrite Z.mod_small by lia.
  split; [done|]. apply be_val_be_bytes_small. change (256 ^ Z.of_nat 2) with 65536. lia.
Qed.

Lemma message_le_idle : message_ns idle_ms <= idle_ns idle_ms.
Proof. unfold message_ns. lia. Qed.

End serving.

