(* ===== verification/Voi.v ===== *)
(** * Which observation to buy next ([src/behavior.rs], [src/voi.rs], [refresh_schedule] of [src/cache/mod.rs])

    The behavioural class and the keyed fingerprint of an entry, what one more
    observation of it is worth in units of risk, and the choice of the observations a
    tick can afford: a reservation per class, then the largest values.  The codes are
    what [as] of the source's [match]es gives; the random key is a parameter. *)
From Stdlib Require Import Sorted Permutation.
From S2P Require Import Prelude Wire Prng Name Compress Qtype Bitmap RData Rr Time BTree Sort Addr Float64 Float FloatOrder RrSet CacheKey Tier Cache Dnssec Rendezvous Hazard Risk Estimator Planner.

(** ** Behavioural identity *)

Definition BEHAVIOR_TAG : list Z := ascii_bytes "recursex:behav:1".
Definition LOG2_OFFSET : f64 := f64_of 64.

(** One bucket per doubling. *)
Definition log2_bucket (value : f64) : Z :=
  if negb (is_positive value) then 0 else
  let l := log2 value in
  let c := ceil l in
  let f := if SFeqb c l then c else f64_sub c (f64_of 1) in
  let b := f64_add f LOG2_OFFSET in
  if f64_le b (f64_of 0) then 0 else if f64_le (f64_of 255) b then 255 else Z.min 255 (f64_to_u64 b).

Record BehaviorClass := mkClass { bc_role : Z; bc_change : Z; bc_ttl : Z; bc_volatility : Z; bc_trust : Z; bc_cost : Z }.
#[global] Instance BehaviorClass_eq_dec : EqDecision BehaviorClass.
Proof. solve_decision. Defined.

Definition role_code (role : Consequence) : Z :=
  match role with Low => 0 | Medium => 1 | High => 2 | Critical => 3 | Absolute => 4 end.
Definition trust_code (trust : TrustLevel) : Z :=
  match trust with TlChainAnchored => 0 | TlCryptoVerified => 1 | TlUnverified => 2 | TlIndeterminate => 3 end.

Definition from_model (model : StabilityModel) (role : Consequence) (trust : TrustLevel) (cost_ms : f64) : BehaviorClass :=
  mkClass (role_code role) (log2_bucket (hazard_upper_bound (hazard model))) (log2_bucket (ttl_ewma (hazard model)))
    (log2_bucket (ttl_volatility (hazard model))) (trust_code trust) (log2_bucket cost_ms).

Definition canonical_bytes (c : BehaviorClass) : list Z :=
  [bc_role c; bc_change c; bc_ttl c; bc_volatility c; bc_trust c; bc_cost c; 0; 0].

Record FingerprintKey := from_words { fk_0 : Z; fk_1 : Z }.

Definition tag (key : FingerprintKey) (message : list Z) : Z := le_val (siphash24_128 (fk_0 key) (fk_1 key) message).

Definition tagged_message (class : BehaviorClass) (name : Name) : list Z := BEHAVIOR_TAG ++ canonical_bytes class ++ as_bytes name.

Definition fingerprint_of (key : FingerprintKey) (class : BehaviorClass) (name : Name) : Z := tag key (tagged_message class name).

(** ** The value of an observation *)

Definition ABSOLUTE_WEIGHT : f64 := f64_of 1000.

Definition class_weight (consequence : Consequence) : f64 :=
  let c := coefficient consequence in if is_finite c then f64_max c (f64_of 0) else ABSOLUTE_WEIGHT.

Record VoiConfig := mkVoi {
  horizon_secs : f64; voi_ttl_secs : Z; voi_tail_probability : f64; observation_weight : f64; min_value : f64;
  reservation_per_class : Z }.

Definition voi_default : VoiConfig := mkVoi (f64_of 60) 300 (dec 5 2) (f64_of 1) (f64_of 0) 1.

Definition voi_sanitised (c : VoiConfig) : VoiConfig :=
  let d := voi_default in
  mkVoi (f64_clamp (finite_or (horizon_secs c) (horizon_secs d)) (f64_of 0) (f64_of 86400)) (Z.max (voi_ttl_secs c) 1)
    (f64_clamp (finite_or (voi_tail_probability c) (voi_tail_probability d)) (dec 1 12) (one_minus (dec 1 12)))
    (f64_clamp (finite_or (observation_weight c) (observation_weight d)) (dec 1 6) (f64_of 1))
    (f64_max (finite_or (min_value c) (min_value d)) (f64_of 0)) (Z.min (reservation_per_class c) 64).

Definition survival (lambda t : f64) : f64 :=
  if negb (is_positive lambda) then f64_of 0 else
  if f64_le t (f64_of 0) then f64_of 1 else
  f64_clamp (exp_nonpos (f64_mul (SFopp lambda) t)) (f64_of 0) (f64_of 1).

Definition knowledge_age_secs (model : StabilityModel) (now : Ts) : f64 :=
  let raw := secs_between now (last_observation (hazard model)) in
  let cap := max_interval_secs (hz_config (hazard model)) in
  if negb (is_finite raw) || f64_lt raw (f64_of 0) then f64_of 0
  else if is_positive cap then f64_min raw cap else raw.

(** What a hit is worth, weighed by how bad a wrong answer is. *)
Definition voi_scale (consequence : Consequence) (trust : TrustLevel) (value : f64) : f64 :=
  f64_mul (f64_mul value (class_weight consequence)) (penalty trust).

(** The risk left after an observation of the given outcome. *)
Definition risk_after (cfg : VoiConfig) (m : HazardModel) (scale r_without age : f64) (now : Ts) (changed : bool) : f64 :=
  let after := hazard_observe m age changed (voi_ttl_secs cfg) now (observation_weight cfg) in
  let lambda_after := hazard_upper_bound after in
  if is_finite lambda_after
  then f64_mul scale (one_minus (survival lambda_after (f64_max (horizon_secs cfg) (f64_of 0))))
  else r_without.

Definition observation_value (model : StabilityModel) (consequence : Consequence) (trust : TrustLevel) (value_ms : f64) (now : Ts)
    (config : VoiConfig) : f64 :=
  let cfg := voi_sanitised config in
  if negb (is_positive (class_weight consequence)) || negb (is_finite (penalty trust)) || f64_le (penalty trust) (f64_of 0)
  then f64_of 0 else
  let value := if is_finite value_ms then f64_max value_ms (f64_of 0) else f64_of 0 in
  if f64_le value (f64_of 0) then f64_of 0 else
  let scale := voi_scale consequence trust value in
  let m := hazard model in
  let lambda := hazard_upper_bound m in
  if negb (is_finite lambda) then f64_of 0 else
  let age := knowledge_age_secs model now in
  let horizon := f64_max (horizon_secs cfg) (f64_of 0) in
  let r_without := f64_mul scale (one_minus (survival lambda (f64_add age horizon))) in
  let p_unchanged := f64_clamp (freshness_predictive m age) (f64_of 0) (f64_of 1) in
  let outcome (changed : bool) :=
    f64_mul (if changed then one_minus p_unchanged else p_unchanged) (risk_after cfg m scale r_without age now changed) in
  let r_with := f64_add (f64_add (f64_of 0) (outcome false)) (outcome true) in
  let delta := f64_sub r_without r_with in
  if is_finite delta && f64_lt (f64_of 0) delta then delta else f64_of 0.

(** ** Lemmas on the value *)

Lemma sub_finite x y : is_finite (f64_sub x y) = true -> is_finite x = true /\ is_finite y = true.
Proof. by destruct x as [s|[]| |s m e], y as [s'|[]| |s' m' e']. Qed.

Lemma add_finite x y : is_finite (f64_add x y) = true -> is_finite x = true /\ is_finite y = true.
Proof. by destruct x as [s|[]| |s m e], y as [s'|[]| |s' m' e']. Qed.

Lemma mul_finite x y : is_finite (f64_mul x y) = true -> is_finite x = true /\ is_finite y = true.
Proof. by destruct x as [s|[]| |s m e], y as [s'|[]| |s' m' e']. Qed.

Lemma within_unit x : is_finite x = true -> f64_le (f64_of 0) x = true -> f64_le x (f64_of 1) = true -> canonical_f64 x ->
  within (f64_of 0) (f64_of 1) x.
Proof. intros F L H C. split; [|done]. split; [done|]. by destruct x. Qed.

Definition unit_or_nan (x : f64) : Prop := is_nan x = true \/ within (f64_of 0) (f64_of 1) x.

Lemma exp_canonical x : canonical_f64 (exp x).
Proof.
  unfold exp. destruct (is_nan x) eqn:E; [by destruct x|]. destruct (f64_lt (dec _ _) x); [done|].
  destruct (f64_lt x _); [apply (is_num_num (f64_of 0) eq_refl)|apply from_bits_canonical].
Qed.

Lemma clamp_unit x : canonical_f64 x -> unit_or_nan (f64_clamp x (f64_of 0) (f64_of 1)).
Proof.
  intros C. destruct (clamp_unit_cases x) as [N|[L H]]; [by left|right]. split; [|done].
  split; [|by destruct (f64_clamp x _ _)]. apply clamp_canonical; [done|apply (is_num_num (f64_of 0) eq_refl)|apply (is_num_num (f64_of 1) eq_refl)].
Qed.

Lemma unit_zero : unit_or_nan (f64_of 0).
Proof. right. apply (within_weaken (f64_of 0) (f64_of 0)); [by apply within_self|done]. Qed.

Lemma unit_one : unit_or_nan (f64_of 1).
Proof. right. apply (within_weaken (f64_of 1) (f64_of 1)); [by apply within_self|done]. Qed.

Lemma survival_unit lambda t : unit_or_nan (survival lambda t).
Proof.
  unfold survival. destruct (negb _); [apply unit_zero|]. destruct (f64_le t _); [apply unit_one|].
  apply clamp_unit. unfold exp_nonpos. destruct (f64_le _ _); [apply (is_num_num (f64_of 0) eq_refl)|apply exp_canonical].
Qed.

Lemma predictive_unit m age : unit_or_nan (freshness_predictive m age).
Proof.
  unfold freshness_predictive. destruct (f64_le age _); [apply unit_one|]. destruct (posterior m) as [alpha beta].
  destruct (negb _); [apply unit_zero|]. destruct (f64_le _ (f64_of 0)); [apply unit_zero|]. apply clamp_unit, exp_canonical.
Qed.

(** The share of the scale that is at risk. *)
Lemma share_ok scale u : nn scale -> unit_or_nan u -> is_finite (f64_mul scale (one_minus u)) = true ->
  is_finite scale = true /\ nn (f64_mul scale (one_minus u)) /\ f64_le (f64_mul scale (one_minus u)) scale = true.
Proof.
  intros [Ns Ps] [N|W] F; [by destruct u; destruct scale as [k|[]| |k n d]|].
  destruct (mul_finite _ _ F) as [Fs _]. destruct (f64_mul_le scale (one_minus u)) as (N & L & P); [done..|by apply one_within|].
  by split; [|split].
Qed.

Lemma weighted_ok p r : unit_or_nan p -> (is_finite r = true -> nn r) -> is_finite (f64_mul p r) = true -> nn (f64_mul p r).
Proof.
  intros U Hr F. destruct (mul_finite _ _ F) as [Fp Fr]. destruct (Hr Fr) as [Nr Pr].
  destruct U as [N|W]; [by destruct p|]. rewrite f64_mul_comm.
  destruct (f64_mul_le r p) as (N & _ & P); [done..|]. by split.
Qed.

Lemma one_minus_unit p : unit_or_nan p -> unit_or_nan (one_minus p).
Proof. intros [N|W]; [left; by destruct p|right; by apply one_within]. Qed.

Lemma scale_ok consequence trust value : nn value -> nn (voi_scale consequence trust value).
Proof.
  intros H. unfold voi_scale.
  assert (num (class_weight consequence) /\ is_finite (class_weight consequence) = true /\ f64_lt (f64_of 0) (class_weight consequence) = true)
    as (N1 & F1 & P1) by (destruct consequence; (split; [by apply is_num_num|by vm_compute])).
  apply nn_mul; [by apply nn_mul|..]; by destruct trust; (apply is_num_num || vm_compute).
Qed.

(** What is gained over the expectation of two outcomes is at most what was at stake. *)
Lemma gain_ok r0 p r1 r2 : num r0 -> unit_or_nan p -> (is_finite r1 = true -> nn r1) -> (is_finite r2 = true -> nn r2) ->
  is_finite (f64_sub r0 (f64_add (f64_add (f64_of 0) (f64_mul p r1)) (f64_mul (one_minus p) r2))) = true ->
  num (f64_sub r0 (f64_add (f64_add (f64_of 0) (f64_mul p r1)) (f64_mul (one_minus p) r2))) /\
  f64_le (f64_sub r0 (f64_add (f64_add (f64_of 0) (f64_mul p r1)) (f64_mul (one_minus p) r2))) r0 = true.
Proof.
  intros N0 Hp H1 H2 F. destruct (sub_finite _ _ F) as [F0 F1]. destruct (add_finite _ _ F1) as [F2 F3].
  destruct (add_finite _ _ F2) as [_ F4]. pose proof (weighted_ok p r1 Hp H1 F4) as W1.
  pose proof (weighted_ok _ r2 (one_minus_unit p Hp) H2 F3) as W2.
  destruct (nn_add _ _ nn_zero W1) as [A1 _]. destruct (nn_add _ _ A1 W2) as [[A2 P2] _]. by apply f64_sub_le.
Qed.

(** For any model and configuration, however spoilt, the value of an observation is a finite
    number that is not negative and never exceeds the worth of a hit weighed by the
    consequence and the trust penalty; a worth that is no positive number gives zero. *)
Theorem observation_value_bounded model consequence trust value_ms now config : canonical_f64 value_ms ->
  let v := observation_value model consequence trust value_ms now config in
  (v = f64_of 0 \/
   f64_lt (f64_of 0) v = true /\ is_finite v = true /\ is_finite value_ms = true /\
   f64_le v (voi_scale consequence trust (f64_max value_ms (f64_of 0))) = true) /\
  (f64_lt (f64_of 0) value_ms = false -> v = f64_of 0).
Proof.
  intros C v. unfold v, observation_value. clear v. destruct (_ || _); [by split; [left|]|].
  destruct (is_finite value_ms) eqn:Fv; [|by split; [left|]].
  assert (num value_ms) as Nv by (split; [done|by destruct value_ms]). pose proof (nn_max_0 _ Nv) as Nm.
  destruct (f64_le (f64_max value_ms (f64_of 0)) (f64_of 0)) eqn:Ez; [by split; [left|]|].
  assert (f64_lt (f64_of 0) value_ms = true) as ->.
  { destruct (uval_max value_ms (f64_of 0) Nv (proj1 nn_zero)) as [Nx Vx]. apply f64_lt_uval; [apply nn_zero|done|].
    pose proof (f64_le_uval _ _ Nx (proj1 nn_zero)) as K. rewrite Ez, Vx in K. change (uval (f64_of 0)) with 0 in *.
    destruct (decide (uval value_ms <= 0)); [|lia]. assert (false = true) by (apply K; lia). done. }
  split; [|done]. pose proof (scale_ok consequence trust _ Nm) as Ns. set (scale := voi_scale _ _ _) in *.
  destruct (negb _); [by left|]. set (r0 := f64_mul scale _).
  set (p := f64_clamp _ _ _).
  assert (unit_or_nan p) as Hp.
  { apply clamp_unit. destruct (predictive_unit (hazard model) (knowledge_age_secs model now)) as [N|W]; [by destruct (freshness_predictive _ _)|apply W]. }
  set (cfg := voi_sanitised config). set (age := knowledge_age_secs model now).
  destruct (is_finite (f64_sub r0 _)) eqn:Fd; cbn [andb]; [|by left]. destruct (f64_lt _ _) eqn:Pd; [|by left]. right.
  destruct (sub_finite _ _ Fd) as [F0 _].
  destruct (share_ok scale _ Ns (survival_unit _ _) F0) as (Fs & [N0 P0] & L0). fold r0 in N0, P0, L0.
  assert (forall b, let r := risk_after cfg (hazard model) scale r0 age now b in is_finite r = true -> nn r) as Hr.
  { intros b. unfold risk_after. destruct (is_finite (hazard_upper_bound _)); [|done]. intros F. by apply share_ok, F; [|apply survival_unit]. }
  destruct (gain_ok r0 p _ _ N0 Hp (Hr false) (Hr true) Fd) as [Nd Ld]. clearbody r0 p scale.
  split; [exact Pd|]. split; [exact Fd|]. split; [done|]. exact (f64_le_trans _ _ _ Nd N0 (proj1 Ns) Ld L0).
Qed.

Definition unwatched : StabilityModel := stability_with_config default_hazard_config 300 0.

Lemma observation_value_bounded_witness :
  let v := observation_value unwatched Low TlChainAnchored (f64_of 50) 120000000000 voi_default in
  canonical_f64 (f64_of 50) /\ f64_lt (f64_of 0) v = true /\ f64_le v (f64_of 50) = true.
Proof.
  intros v. assert (canonical_f64 (f64_of 50)) as C by (apply (is_num_num (f64_of 50) eq_refl)). split; [done|].
  destruct (observation_value_bounded unwatched Low TlChainAnchored (f64_of 50) 120000000000 voi_default C) as [[E|(P & _ & _ & L)] _].
  - exfalso. assert (SFeqb v (f64_of 0) = false) as K by (vm_compute; reflexivity). unfold v in K. by rewrite E in K.
  - split; [exact P|]. assert (voi_scale Low TlChainAnchored (f64_max (f64_of 50) (f64_of 0)) = f64_of 50) as E by (vm_compute; reflexivity).
    rewrite E in L. exact L.
Defined.

(** No exposure is worth nothing while the TTL stays what it was; when the answer is
    expected with another TTL, an observation without any exposure has a positive value. *)
Example no_exposure :
  observation_value unwatched Low TlChainAnchored (f64_of 50) 0 voi_default = f64_of 0 /\
  f64_lt (f64_of 20) (observation_value unwatched Low TlChainAnchored (f64_of 50) 0
    (mkVoi (f64_of 60) 3600 (dec 5 2) (f64_of 1) (f64_of 0) 1)) = true.
Proof. vm_compute. done. Qed.

(** The tail probability of the configuration is never looked at. *)
Lemma tail_probability_unused model consequence trust value_ms now c delta :
  observation_value model consequence trust value_ms now c =
  observation_value model consequence trust value_ms now
    (mkVoi (horizon_secs c) (voi_ttl_secs c) delta (observation_weight c) (min_value c) (reservation_per_class c)).
Proof. done. Qed.

(** Powers of two have buckets of their own, but [ln] is not exact: some fall into the
    bucket below. *)
Example bucket_below_power : log2_bucket (f64_of 1) = 64 /\ log2_bucket (f64_of 1024) = 74 /\
  log2_bucket (f64_of (2 ^ 51)) = 114 /\ log2_bucket (f64_div (f64_of 1) (f64_of (2 ^ 31))) = 32.
Proof. vm_compute. done. Qed.

(** ** The schedule *)

Record Candidate (T : Type) := mkCandidate { cd_payload : T; cd_class : BehaviorClass; cd_value : f64; cd_tie : Z }.
Arguments mkCandidate {T}.
Arguments cd_payload {T}.
Arguments cd_class {T}.
Arguments cd_value {T}.
Arguments cd_tie {T}.

Definition then_with (a b : comparison) : comparison := match a with Eq => b | c => c end.

Section schedule.
Context {T : Type}.
Implicit Types (items : list (Candidate T)) (order chosen : list nat).

Definition eligible (cfg : VoiConfig) (c : Candidate T) : bool := is_finite (cd_value c) && f64_lt (min_value cfg) (cd_value c).

(** The total order of the candidates: value, fingerprint, position. *)
Definition order_cmp items (a b : nat) : comparison :=
  match items !! a, items !! b with
  | Some ca, Some cb =>
      then_with (default Eq (SFcompare (cd_value cb) (cd_value ca)))
        (then_with (cd_tie ca ?= cd_tie cb) (Nat.compare a b))
  | _, _ => Nat.compare a b
  end.
Definition before items (a b : nat) : bool := match order_cmp items a b with Gt => false | _ => true end.

Definition order_of items : list nat := stable_sort (before items) (seq 0 (length items)).

(** [rank\[order\[r\]\] = r] *)
Fixpoint ranks_from (r : Z) order (rank : list Z) : list Z :=
  match order with [] => rank | idx :: order => ranks_from (r + 1) order (<[idx := r]> rank) end.
Definition rank_at (rank : list Z) (idx : nat) : Z := default usize_max (rank !! idx).

(** The entry of a class in the counters, made when it is new. *)
Definition class_slot (class : BehaviorClass) (classes : list (BehaviorClass * Z)) : nat * list (BehaviorClass * Z) :=
  match list_find (fun p => p.1 = class) classes with
  | Some (slot, _) => (slot, classes)
  | None => (length classes, classes ++ [(class, 0)])
  end.

Fixpoint reserve items (per_class budget : Z) order (classes : list (BehaviorClass * Z)) chosen : list nat :=
  match order with
  | [] => chosen
  | idx :: order =>
      if budget <=? zlen chosen then chosen else
      match items !! idx with
      | None => reserve items per_class budget order classes chosen
      | Some candidate =>
          let '(slot, classes) := class_slot (cd_class candidate) classes in
          let taken := match classes !! slot with Some p => p.2 | None => 0 end in
          if per_class <=? taken then reserve items per_class budget order classes chosen
          else reserve items per_class budget order (alter (fun p => (p.1, p.2 + 1)) slot classes) (chosen ++ [idx])
      end
  end.

Fixpoint fill (budget : Z) order (taken : list bool) chosen : list nat :=
  match order with
  | [] => chosen
  | idx :: order =>
      if budget <=? zlen chosen then chosen
      else if default true (taken !! idx) then fill budget order taken chosen
      else fill budget order (<[idx := true]> taken) (chosen ++ [idx])
  end.

(** Each payload is handed out once. *)
Fixpoint hand_out (slots : list (option T)) chosen : list T :=
  match chosen with
  | [] => []
  | idx :: chosen =>
      match slots !! idx with
      | Some (Some payload) => payload :: hand_out (<[idx := None]> slots) chosen
      | _ => hand_out slots chosen
      end
  end.

Definition schedule (candidates : list (Candidate T)) (budget : Z) (config : VoiConfig) : list T :=
  let cfg := voi_sanitised config in
  if budget =? 0 then [] else
  let items := List.filter (eligible cfg) candidates in
  if bool_decide (items = []) then [] else
  let order := order_of items in
  let rank := ranks_from 0 order (replicate (length items) usize_max) in
  let chosen := if 0 <? reservation_per_class cfg then reserve items (reservation_per_class cfg) budget order [] [] else [] in
  let chosen :=
    if zlen chosen <? budget
    then fill budget order (fold_left (fun taken idx => <[idx := true]> taken) chosen (replicate (length items) false)) chosen
    else chosen in
  hand_out (map (fun c => Some (cd_payload c)) items) (stable_sort (fun a b => rank_at rank a <=? rank_at rank b) chosen).
End schedule.

Example schedule_small :
  let c1 := mkClass 0 1 1 1 1 1 in
  let c2 := mkClass 1 1 1 1 1 1 in
  let cands := [mkCandidate 10 c1 (f64_of 5) 7; mkCandidate 11 c1 (f64_of 9) 3; mkCandidate 12 c2 (f64_of 1) 0;
                mkCandidate 13 c1 (f64_of 5) 2; mkCandidate 14 c1 INFINITY 2; mkCandidate 15 c1 (f64_of 0) 2] in
  schedule cands 2 voi_default = [11; 12] /\ schedule cands 3 voi_default = [11; 13; 12] /\
  schedule cands 2 (mkVoi (f64_of 60) 300 (dec 5 2) (f64_of 1) (f64_of 0) 0) = [11; 13] /\
  schedule cands 9 voi_default = [11; 13; 10; 12].
Proof. vm_compute. done. Qed.

(** ** The choice, as a choice from a ranked list *)

Section selection.
Context {A K : Type} `{EqDecision A, EqDecision K} (cls : A -> K) (per : Z).
Implicit Types (o seen p s : list A).

Definition count (k : K) (l : list A) : Z := zlen (filter (fun x => cls x = k) l).

(** The best [per] of every class, in the order of [o]. *)
Fixpoint greedy seen o : list A :=
  match o with
  | [] => []
  | x :: o => if per <=? count (cls x) seen then greedy seen o else x :: greedy (seen ++ [x]) o
  end.

Definition rest (r o : list A) : list A := filter (.∉ r) o.

(** The reservation within the budget, then the best of the rest. *)
Definition picked (budget : Z) o : list A :=
  let r := take (Z.to_nat budget) (greedy [] o) in r ++ take (Z.to_nat (budget - zlen r)) (rest r o).

Definition selected (budget : Z) o : list A := filter (.∈ picked budget o) o.

Lemma count_app k l1 l2 : count k (l1 ++ l2) = count k l1 + count k l2.
Proof. unfold count. by rewrite list.filter_app, zlen_app. Qed.

Lemma count_cons k x l : count k (x :: l) = (if decide (cls x = k) then 1 else 0) + count k l.
Proof. unfold count. rewrite list.filter_cons. case_decide; [by rewrite zlen_cons|lia]. Qed.

Lemma count_nonneg k l : 0 <= count k l.
Proof. apply zlen_nonneg. Qed.

Lemma count_perm k l l' : Permutation l l' -> count k l = count k l'.
Proof. intros P. unfold count, zlen. by rewrite P. Qed.

Lemma greedy_app seen p s : greedy seen (p ++ s) = greedy seen p ++ greedy (seen ++ greedy seen p) s.
Proof.
  revert seen. induction p as [|x p IH]; intros seen; cbn [greedy app]; [by rewrite app_nil_r|].
  destruct (per <=? _); [apply IH|]. cbn [app]. by rewrite IH, <- app_assoc.
Qed.

Lemma count_greedy k seen o : count k seen <= per -> count k (greedy seen o) = Z.min (per - count k seen) (count k o).
Proof.
  revert seen. induction o as [|x o IH]; intros seen Hs; cbn [greedy]; [change (count k []) with 0; lia|].
  pose proof (count_nonneg k o). rewrite (count_cons k x o).
  destruct (per <=? count (cls x) seen) eqn:E; bools.
  - rewrite IH by done. case_decide as Ek; [subst k; lia|lia].
  - rewrite count_cons, IH; rewrite ?count_app, ?count_cons; change (count k []) with 0; case_decide as Ek; subst; lia.
Qed.

Lemma greedy_sublist seen o : greedy seen o `sublist_of` o.
Proof.
  revert seen. induction o as [|x o IH]; intros seen; cbn [greedy]; [done|].
  destruct (per <=? _); [by apply sublist_cons|by apply sublist_skip].
Qed.

(** What is reserved is among the first [per] of its class. *)
Lemma greedy_first o x p s : 0 <= per -> NoDup o -> o = p ++ x :: s -> x ∈ greedy [] o -> count (cls x) p < per.
Proof.
  intros Hp Hn -> Hx. rewrite greedy_app in Hx. cbn [app greedy] in Hx. apply list.NoDup_app in Hn as (_ & Hd & Hn).
  apply list.NoDup_cons in Hn as [Hs _]. pose proof (count_greedy (cls x) [] p Hp) as C. change (count (cls x) []) with 0 in C.
  apply elem_of_app in Hx as [Hx|Hx].
  { apply (sublist_subseteq _ _ (greedy_sublist [] p)) in Hx. exfalso. apply (Hd x Hx). by left. }
  destruct (per <=? _) eqn:E; bools; [|lia]. by apply (sublist_subseteq _ _ (greedy_sublist _ s)) in Hx.
Qed.

Lemma picked_spec budget o : 0 <= budget -> NoDup o ->
  NoDup (picked budget o) /\ picked budget o ⊆ o /\ zlen (picked budget o) = Z.min budget (zlen o).
Proof.
  intros Hb Hn. unfold picked. set (r := take _ _). assert (r `sublist_of` o) as Sr by (etransitivity; [apply sublist_take|apply greedy_sublist]).
  assert (NoDup r) as Nr by (by eapply sublist_NoDup). assert (NoDup (rest r o)) as No by (by apply list.NoDup_filter).
  assert (zlen (rest r o) = zlen o - zlen r) as L.
  { pose proof (filter_app_complement (.∈ r) o) as P. apply Permutation_length in P. rewrite length_app in P. fold (rest r o) in P.
    unfold zlen. enough (length (filter (.∈ r) o) = length r) by lia.
    apply Permutation_length, list.NoDup_Permutation; [by apply list.NoDup_filter|done|]. intros x. rewrite list_elem_of_filter. split; [tauto|].
    intros H. split; [done|]. by eapply sublist_subseteq. }
  assert (zlen r <= budget) as Lr by (unfold r, zlen; rewrite length_take; lia).
  split; [|split].
  - apply list.NoDup_app. split; [done|]. split; [|by eapply sublist_NoDup; [|apply sublist_take]].
    intros x Hx Hy. apply (sublist_subseteq _ _ (sublist_take _ _)) in Hy. by apply list_elem_of_filter in Hy as [Hy _].
  - intros x [Hx|Hx]%elem_of_app; [by eapply sublist_subseteq|]. apply (sublist_subseteq _ _ (sublist_take _ _)) in Hx.
    by apply list_elem_of_filter in Hx as [_ Hx].
  - rewrite zlen_app. pose proof (zlen_nonneg r). unfold zlen in *. rewrite length_take. lia.
Qed.
End selection.

Lemma filter_agree {A} (P Q : A -> Prop) `{forall x, Decision (P x), forall x, Decision (Q x)} (l : list A) :
  (forall x, x ∈ l -> P x <-> Q x) -> filter P l = filter Q l.
Proof.
  induction l as [|x l IH]; intros E; [done|]. rewrite !list.filter_cons. rewrite IH by (intros; apply E; by right).
  destruct (E x) as [E1 E2]; [by left|]. repeat case_decide; tauto.
Qed.

Lemma filter_none {A} (P : A -> Prop) `{forall x, Decision (P x)} (l : list A) : (forall x, x ∈ l -> ~ P x) -> filter P l = [].
Proof.
  induction l as [|x l IH]; intros E; [done|]. rewrite list.filter_cons, decide_False by (apply E; by left). apply IH. intros; apply E; by right.
Qed.

Lemma filter_every {A} (P : A -> Prop) `{forall x, Decision (P x)} (l : list A) : (forall x, x ∈ l -> P x) -> filter P l = l.
Proof.
  induction l as [|x l IH]; intros E; [done|]. rewrite list.filter_cons, decide_True by (apply E; by left). f_equal. apply IH. intros; apply E; by right.
Qed.

Lemma sorted_filter {A} (lt : A -> A -> Prop) (P : A -> Prop) `{forall x, Decision (P x)} (l : list A) :
  StronglySorted lt l -> StronglySorted lt (filter P l).
Proof.
  induction 1 as [|x l Hs IH Hx]; [constructor|]. rewrite list.filter_cons. case_decide; [|done]. constructor; [done|].
  rewrite list.Forall_forall in *. intros y Hy. apply Hx. by apply list_elem_of_filter in Hy as [_ Hy].
Qed.

Lemma sorted_across {A} (lt : A -> A -> Prop) l1 l2 x y : StronglySorted lt (l1 ++ l2) -> x ∈ l1 -> y ∈ l2 -> lt x y.
Proof.
  intros Hs H1 H2. induction l1 as [|z l1 IH]; [by apply not_elem_of_nil in H1|].
  inversion_clear Hs as [|? ? Hs' Hz]. apply elem_of_cons in H1 as [->|H1]; [|by apply IH].
  rewrite list.Forall_forall in Hz. apply Hz, elem_of_app. by right.
Qed.

(** Of a candidate passed over and a worse one taken, the worse one was reserved. *)
Lemma picked_best {A K} `{EqDecision A, EqDecision K} (cls : A -> K) per (lt : A -> A -> Prop) budget o i j p s :
  (forall x y, lt x y -> lt y x -> False) -> StronglySorted lt o -> NoDup o -> 0 <= per ->
  i ∈ o -> i ∉ picked cls per budget o -> j ∈ picked cls per budget o -> lt i j -> o = p ++ j :: s -> count cls (cls j) p < per.
Proof.
  intros Ha Hs Hn Hp Hi Hni Hj Hlt Eo. apply (greedy_first cls per o j p s Hp Hn Eo).
  unfold picked in Hni, Hj. set (r := take _ _) in Hni, Hj. apply elem_of_app in Hj as [Hj|Hj].
  { by apply (sublist_subseteq _ _ (sublist_take _ _)) in Hj. }
  exfalso. rewrite elem_of_app in Hni. assert (i ∈ rest r o) as Hir by (apply list_elem_of_filter; split; [intros Hk; apply Hni; by left|done]).
  pose proof (sorted_filter lt (.∉ r) o Hs) as Hsr. fold (rest r o) in Hsr.
  set (n := Z.to_nat (budget - zlen r)) in *. rewrite <- (take_drop n (rest r o)) in Hir, Hsr. apply elem_of_app in Hir as [Hir|Hir]; [tauto|].
  apply (Ha i j Hlt). by eapply sorted_across.
Qed.

(** ** The code computes that choice *)

Section refinement.
Context {T : Type}.
Implicit Types (items : list (Candidate T)) (order chosen : list nat) (classes : list (BehaviorClass * Z)).

Definition class_at items (i : nat) : option BehaviorClass := cd_class <$> items !! i.

Definition slot_count (c : BehaviorClass) classes : Z :=
  match list_find (fun p => p.1 = c) classes with Some (_, p) => p.2 | None => 0 end.

Lemma class_slot_cons class p classes : class_slot class (p :: classes) =
  if decide (p.1 = class) then (O, p :: classes)
  else let '(slot, classes) := class_slot class classes in (S slot, p :: classes).
Proof.
  unfold class_slot. cbn [list_find]. destruct (decide (p.1 = class)); [done|].
  destruct (list_find _ classes) as [[i q]|]; done.
Qed.

Lemma slot_count_cons c p classes : slot_count c (p :: classes) = if decide (p.1 = c) then p.2 else slot_count c classes.
Proof.
  unfold slot_count. cbn [list_find]. destruct (decide (p.1 = c)); [done|]. by destruct (list_find _ classes) as [[i q]|].
Qed.

Lemma class_slot_spec class classes slot classes' : class_slot class classes = (slot, classes') ->
  (exists p, classes' !! slot = Some p /\ p.1 = class /\ p.2 = slot_count class classes) /\
  forall c, slot_count c classes' = slot_count c classes /\
    slot_count c (alter (fun p => (p.1, p.2 + 1)) slot classes') = slot_count c classes + if decide (c = class) then 1 else 0.
Proof.
  revert slot classes'. induction classes as [|q classes IH]; intros slot classes'.
  - intros [= <- <-]. split; [by exists (class, 0)|]. intros c. cbn [app alter list_alter]. rewrite !slot_count_cons. cbn [fst snd].
    change (slot_count c []) with 0. split; [by case_decide|]. repeat case_decide; first [lia|congruence].
  - rewrite class_slot_cons. destruct (decide (q.1 = class)) as [E|E].
    + intros [= <- <-]. split; [exists q; by rewrite slot_count_cons, decide_True|]. intros c. split; [done|].
      cbn [alter list_alter]. rewrite !slot_count_cons. cbn [fst snd]. repeat case_decide; first [lia|congruence].
    + destruct (class_slot class classes) as [s l] eqn:Es. intros [= <- <-]. destruct (IH s l eq_refl) as [(p & E1 & E2 & E3) H].
      split; [exists p; by rewrite slot_count_cons, decide_False by done|]. intros c. destruct (H c) as [H1 H2].
      cbn [alter list_alter]. change (list_alter ?f s l) with (alter f s l). rewrite !slot_count_cons, H1, H2.
      split; [done|]. repeat case_decide; first [lia|congruence].
Qed.

Lemma reserve_greedy items per budget order classes chosen : 0 <= budget -> zlen chosen <= budget ->
  Forall (fun i => is_Some (items !! i)) order -> (forall c, slot_count c classes = count (class_at items) (Some c) chosen) ->
  reserve items per budget order classes chosen =
  take (Z.to_nat budget) (chosen ++ greedy (class_at items) per chosen order).
Proof.
  intros Hb. revert classes chosen. induction order as [|i order IH]; intros classes chosen Hl Hv Hc; cbn [reserve greedy].
  { rewrite app_nil_r, take_ge; [done|]. unfold zlen in Hl. lia. }
  inversion_clear Hv as [|? ? [c Ei] Hv']. destruct (budget <=? zlen chosen) eqn:Eb; bools.
  { rewrite take_app_le by (unfold zlen in *; lia). rewrite take_ge; [done|]. unfold zlen in *. lia. }
  rewrite Ei. assert (class_at items i = Some (cd_class c)) as Ec by (unfold class_at; by rewrite Ei).
  destruct (class_slot (cd_class c) classes) as [slot classes'] eqn:Es.
  destruct (class_slot_spec _ _ _ _ Es) as [(p & -> & _ & ->) H]. rewrite Hc, <- Ec.
  destruct (per <=? count _ _ chosen) eqn:E; bools.
  - apply IH; [done..|]. intros k. by rewrite (proj1 (H k)).
  - rewrite IH; [by rewrite <- app_assoc|rewrite zlen_app; change (zlen [i]) with 1; lia|done|].
    intros k. rewrite (proj2 (H k)), Hc, count_app, count_cons, Ec. change (count _ (Some k) []) with 0.
    repeat case_decide; first [lia|congruence].
Qed.

Lemma fill_rest budget order taken chosen : 0 <= budget -> NoDup order -> zlen chosen <= budget ->
  (forall i, i ∈ order -> taken !! i = Some (bool_decide (i ∈ chosen))) ->
  fill budget order taken chosen = chosen ++ take (Z.to_nat (budget - zlen chosen)) (rest chosen order).
Proof.
  intros Hb. revert taken chosen. induction order as [|i order IH]; intros taken chosen Hn Hl Ht; cbn [fill].
  { unfold rest. cbn. by rewrite take_nil, app_nil_r. }
  apply list.NoDup_cons in Hn as [Hi Hn]. destruct (budget <=? zlen chosen) eqn:Eb; bools.
  { by replace (budget - zlen chosen) with 0 by lia; rewrite app_nil_r. }
  rewrite (Ht i) by (by left). unfold rest. rewrite list.filter_cons. cbn [default from_option id]. case_bool_decide as Ei.
  - rewrite decide_False by tauto. apply IH; [done..|]. intros j Hj. apply Ht. by right.
  - rewrite decide_True by done. rewrite IH; [|done|rewrite zlen_app; change (zlen [i]) with 1; lia|].
    + rewrite zlen_app, <- app_assoc. change (zlen [i]) with 1. f_equal. cbn [app].
      replace (Z.to_nat (budget - zlen chosen)) with (S (Z.to_nat (budget - (zlen chosen + 1)))) by lia. cbn [take]. f_equal. f_equal.
      apply filter_agree. intros j Hj. rewrite elem_of_app, list_elem_of_singleton. split; [tauto|]. intros H [K| ->]; tauto.
    + intros j Hj. destruct (decide (j = i)) as [->|Hji]; [tauto|]. rewrite list_lookup_insert_ne by done. rewrite Ht by (by right).
      f_equal. apply bool_decide_ext. rewrite elem_of_app, list_elem_of_singleton. tauto.
Qed.
End refinement.

(** The order of the candidates as the order of a key. *)
Definition rev_key (k : Z * (Z * Z)) : Z * (Z * Z) := (- k.1, (- k.2.1, - k.2.2)).

Section order.
Context {T : Type}.
Implicit Types (items : list (Candidate T)) (i j : nat).

Definition candidate_key items i : Z * ((Z * (Z * Z)) * (Z * Z)) :=
  match items !! i with
  | Some c => (0, (rev_key (f64_key (cd_value c)), (cd_tie c, Z.of_nat i)))
  | None => (1, ((0, (0, 0)), (0, Z.of_nat i)))
  end.

Definition numbers items : Prop := Forall (fun c => is_nan (cd_value c) = false) items.

Lemma klt_rev a b : klt (rev_key a) (rev_key b) = klt b a.
Proof.
  rewrite !klt_key. unfold rev_key. cbn [fst snd].
  assert (forall x y : Z, (- x <? - y) = (y <? x)) as E1 by (intros x y; destruct (Z.ltb_spec (- x) (- y)), (Z.ltb_spec y x); lia).
  assert (forall x y : Z, (- x =? - y) = (y =? x)) as E2 by (intros x y; destruct (Z.eqb_spec (- x) (- y)), (Z.eqb_spec y x); lia).
  by rewrite !E1, !E2.
Qed.

Lemma rev_key_inj a b : rev_key a = rev_key b -> a = b.
Proof. destruct a as [? [? ?]], b as [? [? ?]]. intros [=]. repeat f_equal; lia. Qed.

Lemma klt_pair {A B} `{KeyOrder A, KeyOrder B, EqDecision A} (a a' : A) (b b' : B) :
  klt (a, b) (a', b') = klt a a' || (bool_decide (a = a') && klt b b').
Proof. done. Qed.

Lemma nat_compare_key i j : match Nat.compare i j with Gt => false | _ => true end = negb (klt (Z.of_nat j) (Z.of_nat i)).
Proof. unfold klt, Z_order. destruct (Nat.compare_spec i j), (Z.ltb_spec (Z.of_nat j) (Z.of_nat i)); done || lia. Qed.

Lemma before_key items i j : numbers items -> before items i j = kle (candidate_key items i) (candidate_key items j).
Proof.
  intros Hn. unfold before, order_cmp, candidate_key, kle.
  destruct (items !! i) as [ci|] eqn:Ei, (items !! j) as [cj|] eqn:Ej; rewrite klt_pair.
  - unfold numbers in Hn. rewrite list.Forall_lookup in Hn. pose proof (Hn _ _ Ei) as Ni. pose proof (Hn _ _ Ej) as Nj.
    rewrite f64_compare_key by done. change (klt 0 0) with false. rewrite bool_decide_true by done. cbn [orb andb default].
    rewrite klt_pair, klt_rev. destruct (klt (f64_key (cd_value cj)) (f64_key (cd_value ci))) eqn:E1.
    { cbn [from_option id then_with]. assert (klt (f64_key (cd_value ci)) (f64_key (cd_value cj)) = false) as ->.
      { destruct (klt (f64_key (cd_value ci)) _) eqn:E2; [|done]. pose proof (klt_trans _ _ _ E1 E2) as C. by rewrite klt_irrefl in C. }
      rewrite bool_decide_false; [done|]. intros E%rev_key_inj. by rewrite E, klt_irrefl in E1. }
    destruct (klt (f64_key (cd_value ci)) (f64_key (cd_value cj))) eqn:E2; [done|]. cbn [from_option id then_with orb].
    rewrite (klt_total _ _ E1 E2), bool_decide_true by done. cbn [andb]. rewrite klt_pair. unfold klt at 1, Z_order.
    destruct (Z.compare_spec (cd_tie ci) (cd_tie cj)) as [E|E|E]; cbn [then_with].
    + rewrite E, Z.ltb_irrefl, bool_decide_true by done. apply nat_compare_key.
    + replace (cd_tie cj <? cd_tie ci) with false by (symmetry; apply Z.ltb_ge; lia). by rewrite bool_decide_false by lia.
    + by replace (cd_tie cj <? cd_tie ci) with true by (symmetry; apply Z.ltb_lt; lia).
  - apply lookup_ge_None in Ej. apply lookup_lt_Some in Ei. change (klt 1 0) with false. rewrite bool_decide_false by done.
    by destruct (Nat.compare_spec i j); try lia.
  - apply lookup_ge_None in Ei. apply lookup_lt_Some in Ej. change (klt 0 1) with true. by destruct (Nat.compare_spec i j); try lia.
  - change (klt 1 1) with false. rewrite bool_decide_true by done. cbn [orb andb]. rewrite klt_pair, klt_irrefl, bool_decide_true by done.
    cbn [orb andb]. rewrite klt_pair, klt_irrefl, bool_decide_true by done. apply nat_compare_key.
Qed.

Lemma candidate_key_inj items i j : candidate_key items i = candidate_key items j -> i = j.
Proof. unfold candidate_key. destruct (items !! i), (items !! j); intros [=]; lia. Qed.

Definition ahead items i j : Prop := i <> j /\ before items i j = true.
#[global] Instance ahead_dec items i j : Decision (ahead items i j).
Proof. unfold ahead. apply _. Defined.

Lemma ahead_asym items i j : numbers items -> ahead items i j -> ahead items j i -> False.
Proof.
  intros Hn [H1 E1] [_ E2]. rewrite before_key in E1, E2 by done. apply H1, (candidate_key_inj items). by apply kle_antisym.
Qed.

Lemma order_of_spec items : numbers items ->
  Permutation (order_of items) (seq 0 (length items)) /\ StronglySorted (ahead items) (order_of items).
Proof.
  intros Hn. pose proof (stable_sort_perm (before items) (seq 0 (length items))) as P. split; [done|].
  assert (StronglySorted (fun i j => before items i j = true) (order_of items)) as S.
  { apply stable_sort_sorted; intros; rewrite !before_key in * by done; [apply kle_total|by eapply kle_trans]. }
  assert (NoDup (order_of items)) as N by (unfold order_of; rewrite P; apply NoDup_ListNoDup, seq_NoDup).
  induction S as [|x l S IH Hx]; [constructor|]. apply list.NoDup_cons in N as [N1 N2]. constructor; [by apply IH|].
  rewrite list.Forall_forall in *. intros y Hy. split; [|by apply Hx]. by intros ->.
Qed.
End order.

Section chosen.
Context {T : Type}.
Implicit Types (items : list (Candidate T)) (order chosen : list nat).

Lemma hand_out_spec (slots : list (option T)) chosen : NoDup chosen -> hand_out slots chosen = omap (fun i => mjoin (slots !! i)) chosen.
Proof.
  revert slots. induction chosen as [|i l IH]; intros slots; cbn [hand_out omap list_omap]; [done|]. intros [Hi Hn]%list.NoDup_cons.
  assert (forall s', (forall j, j <> i -> s' !! j = slots !! j) -> hand_out s' l = omap (fun j => mjoin (slots !! j)) l) as H.
  { intros s' E. rewrite IH by done. apply list_omap_ext, Forall_Forall2_diag, list.Forall_forall. intros j Hj. f_equal. apply E. by intros ->. }
  destruct (slots !! i) as [[p|]|] eqn:E; cbn [mjoin option_join]; [f_equal|by apply H..]. apply H. intros j Hj. by apply list_lookup_insert_ne.
Qed.

Lemma ranks_from_other r order rank i : i ∉ order -> ranks_from r order rank !! i = rank !! i.
Proof.
  revert r rank. induction order as [|x order IH]; intros r rank; cbn [ranks_from]; [done|]. rewrite not_elem_of_cons. intros [H1 H2].
  rewrite IH by done. by rewrite list_lookup_insert_ne.
Qed.

Lemma ranks_from_sorted r order rank : NoDup order -> Forall (fun i => (i < length rank)%nat) order ->
  let f := rank_at (ranks_from r order rank) in
  (forall i, i ∈ order -> r <= f i) /\ StronglySorted (fun i j => f i < f j) order.
Proof.
  revert r rank. induction order as [|x order IH]; intros r rank; cbn [ranks_from]; [by split; [by intros ? ?%not_elem_of_nil|constructor]|].
  intros [Hx Hn]%list.NoDup_cons [Hl Hls]%list.Forall_cons.
  assert (rank_at (ranks_from (r + 1) order (<[x:=r]> rank)) x = r) as Ex.
  { unfold rank_at. rewrite ranks_from_other, list_lookup_insert_eq by done. done. }
  destruct (IH (r + 1) (<[x:=r]> rank) Hn) as [I1 I2]; [by rewrite length_insert|]. split.
  - intros i [->|Hi]%elem_of_cons; [rewrite Ex; lia|]. pose proof (I1 i Hi). lia.
  - constructor; [done|]. apply list.Forall_forall. intros j Hj. rewrite Ex. pose proof (I1 j Hj). lia.
Qed.

(** Sorting a choice from a ranked list by the ranks puts it in the list's order. *)
Lemma sort_by_rank (f : nat -> Z) order chosen : StronglySorted (fun i j => f i < f j) order -> NoDup chosen -> chosen ⊆ order ->
  stable_sort (fun a b => f a <=? f b) chosen = filter (.∈ chosen) order.
Proof.
  intros Hs Hn Hsub.
  assert (forall i j, i ∈ order -> j ∈ order -> f i = f j -> i = j) as Hinj.
  { clear -Hs. induction Hs as [|x l Hs IH Hx]; [by intros ? ? ?%not_elem_of_nil|]. rewrite list.Forall_forall in Hx.
    intros i j [->|Hi]%elem_of_cons [->|Hj]%elem_of_cons E; [done| | |by apply IH].
    - specialize (Hx j Hj). lia.
    - specialize (Hx i Hi). lia. }
  assert (NoDup order) as No.
  { clear -Hs. induction Hs as [|x l Hs IH Hx]; [constructor|]. apply list.NoDup_cons. split; [|done]. intros H.
    rewrite list.Forall_forall in Hx. specialize (Hx x H). lia. }
  apply (sorted_perm_eq (fun a b => f a <=? f b)).
  - intros x y Hx Hy H1 H2. apply Z.leb_le in H1, H2. apply Hinj; [..|lia]; apply Hsub.
    + apply list_elem_of_In. eapply Permutation_in; [apply stable_sort_perm|exact Hx].
    + apply list_elem_of_In. eapply Permutation_in; [apply stable_sort_perm|exact Hy].
  - apply stable_sort_sorted; intros *; rewrite !Z.leb_le; lia.
  - apply (sorted_filter _ (.∈ chosen)). clear -Hs. induction Hs as [|x l Hs IH Hx]; constructor; [done|].
    eapply list.Forall_impl; [exact Hx|]. cbn. intros y Hy. apply Z.leb_le. lia.
  - rewrite stable_sort_perm. apply list.NoDup_Permutation; [done|by apply list.NoDup_filter|]. intros x. rewrite list_elem_of_filter.
    split; [|tauto]. intros H. split; [done|by apply Hsub].
Qed.

Lemma marks_spec n chosen i : (i < n)%nat ->
  fold_left (fun taken idx => <[idx := true]> taken) chosen (replicate n false) !! i = Some (bool_decide (i ∈ chosen)).
Proof.
  intros Hi. assert (forall l, length l = n -> fold_left (fun taken idx => <[idx := true]> taken) chosen l !! i =
    Some (bool_decide (i ∈ chosen) || default false (l !! i))) as H.
  { induction chosen as [|x chosen IH]; intros l Hl; cbn [fold_left].
    - destruct (l !! i) as [b|] eqn:E; [by rewrite bool_decide_false by (apply not_elem_of_nil)|apply lookup_ge_None in E; lia].
    - rewrite IH by (by rewrite length_insert). f_equal. destruct (decide (i = x)) as [->|Hne].
      + rewrite list_lookup_insert_eq by lia. rewrite (bool_decide_true (x ∈ x :: chosen)) by (by left). apply orb_true_r.
      + rewrite list_lookup_insert_ne by done. f_equal. apply bool_decide_ext. rewrite elem_of_cons. tauto. }
  rewrite H by apply length_replicate. rewrite lookup_replicate_2 by done. cbn. by rewrite orb_false_r.
Qed.

Lemma greedy_zero {A K} `{EqDecision A, EqDecision K} (cls : A -> K) seen (o : list A) : greedy cls 0 seen o = [].
Proof.
  induction o as [|x o IH]; cbn [greedy]; [done|]. pose proof (count_nonneg cls (cls x) seen). by destruct (0 <=? count _ _ _) eqn:E; bools; [|lia].
Qed.

(** The code's two passes are the choice from the ranked list. *)
Lemma passes_picked items per budget order : 0 <= budget -> 0 <= per -> NoDup order ->
  (forall i, i ∈ order -> (i < length items)%nat) ->
  let c1 := if 0 <? per then reserve items per budget order [] [] else [] in
  (if zlen c1 <? budget
   then fill budget order (fold_left (fun taken idx => <[idx := true]> taken) c1 (replicate (length items) false)) c1
   else c1) = picked (class_at items) per budget order.
Proof.
  intros Hb Hp No Ho c1.
  assert (c1 = take (Z.to_nat budget) (greedy (class_at items) per [] order)) as ->.
  { unfold c1. destruct (0 <? per) eqn:E; bools.
    - apply (reserve_greedy items per budget order [] []); [done|by rewrite zlen_nil| |done].
      apply list.Forall_forall. intros i Hi%Ho. by apply lookup_lt_is_Some.
    - replace per with 0 by lia. by rewrite greedy_zero, take_nil. }
  unfold picked. set (r := take _ _). assert (zlen r <= budget) as Lr by (unfold r, zlen; rewrite length_take; lia).
  destruct (zlen r <? budget) eqn:E; bools.
  - apply fill_rest; [lia|done|done|]. intros i Hi%Ho. by apply marks_spec.
  - replace (budget - zlen r) with 0 by lia. by rewrite app_nil_r.
Qed.

Lemma eligible_numbers cfg (candidates : list (Candidate T)) : numbers (List.filter (eligible cfg) candidates).
Proof.
  apply list.Forall_forall. intros c Hc. apply list_elem_of_In, filter_In in Hc as [_ Hc]. unfold eligible in Hc. by destruct (cd_value c).
Qed.

Lemma order_of_elem items i : numbers items -> NoDup (order_of items) /\ (i ∈ order_of items <-> (i < length items)%nat).
Proof.
  intros Hn. destruct (order_of_spec items Hn) as [P _].
  split; [rewrite P; apply NoDup_ListNoDup, seq_NoDup|rewrite P, elem_of_seq; lia].
Qed.

(** The code computes the selection. *)
Lemma schedule_selected (candidates : list (Candidate T)) budget config : 0 <= budget -> 0 <= reservation_per_class config ->
  let items := List.filter (eligible (voi_sanitised config)) candidates in
  schedule candidates budget config =
  omap (fun i => cd_payload <$> items !! i) (selected (class_at items) (Z.min (reservation_per_class config) 64) budget (order_of items)).
Proof.
  intros Hb Hp items. unfold schedule. fold items. set (cfg := voi_sanitised config).
  change (reservation_per_class cfg) with (Z.min (reservation_per_class config) 64). set (per := Z.min _ 64).
  pose proof (eligible_numbers _ _ : numbers items) as Hn. pose proof (fun i => order_of_elem items i Hn) as Ho.
  destruct (order_of_spec items Hn) as [P S]. set (order := order_of items) in *. pose proof (proj1 (Ho O)) as No.
  destruct (picked_spec (class_at items) per budget order Hb No) as (Np & Sp & Lp).
  destruct (budget =? 0) eqn:E0; bools.
  { subst budget. rewrite Z.min_l in Lp by apply zlen_nonneg. apply zlen_0 in Lp. unfold selected. rewrite Lp.
    assert (filter (.∈ @nil nat) order = []) as ->; [|done]. clear. induction order as [|x l IH]; [done|].
    rewrite list.filter_cons, decide_False by apply not_elem_of_nil. exact IH. }
  case_bool_decide as Ei.
  { assert (order = []) as -> by (apply Permutation_nil; by rewrite P, Ei). done. }
  rewrite passes_picked; [|done|unfold per; lia|done|intros; by apply Ho].
  rewrite (sort_by_rank _ order); [|apply ranks_from_sorted; [done|]|done|done].
  - rewrite hand_out_spec by (by apply list.NoDup_filter). apply list_omap_ext, Forall_Forall2_diag, list.Forall_forall.
    intros i _. rewrite list_lookup_fmap. by destruct (items !! i).
  - apply list.Forall_forall. intros i Hi. rewrite length_replicate. by apply Ho.
Qed.

Lemma greedy_bound {A K} `{EqDecision A, EqDecision K} (cls : A -> K) per (ks : list K) (l : list A) :
  (forall k, count cls k l <= per) -> (forall x, x ∈ l -> cls x ∈ ks) -> zlen l <= per * zlen ks.
Proof.
  revert l. induction ks as [|k ks IH]; intros l Hc Hk.
  - destruct l as [|x l]; [change (zlen (@nil K)) with 0; rewrite zlen_nil; lia|]. exfalso. apply (not_elem_of_nil (cls x)), Hk. by left.
  - pose proof (filter_app_complement (fun x => cls x = k) l) as P. apply Permutation_length in P. rewrite length_app in P.
    specialize (Hc k) as Hck. unfold count, zlen in Hck. rewrite zlen_cons.
    assert (zlen (filter (fun x => ¬ cls x = k) l) <= per * zlen ks) as L; [|unfold zlen in *; lia].
    apply IH.
    + intros k'. pose proof (count_perm cls k' _ _ (filter_app_complement (fun x => cls x = k) l)) as C. rewrite count_app in C.
      pose proof (count_nonneg cls k' (filter (fun x => cls x = k) l)). specialize (Hc k'). lia.
    + intros x [Hx1 Hx2]%list_elem_of_filter. by apply Hk in Hx2 as [Hx2|Hx2]%elem_of_cons.
Qed.

(** In an order, what is ahead of an element is what stands before it. *)
Lemma ahead_prefix items p j s : numbers items -> StronglySorted (ahead items) (p ++ j :: s) ->
  filter (fun k => ahead items k j) (p ++ j :: s) = p.
Proof.
  intros Hn Hs. rewrite list.filter_app, list.filter_cons, decide_False by (by intros [? _]).
  assert (filter (fun k => ahead items k j) s = []) as ->.
  { apply filter_none. intros k Hk Ha. apply (ahead_asym items k j Hn Ha).
    apply (sorted_across _ (p ++ [j]) s); [by rewrite <- app_assoc|apply elem_of_app; right; by left|done]. }
  rewrite app_nil_r. apply filter_every. intros k Hk. apply (sorted_across _ p (j :: s)); [done|done|by left].
Qed.

Lemma selected_perm {A K} `{EqDecision A, EqDecision K} (cls : A -> K) per budget (o : list A) : 0 <= budget -> NoDup o ->
  Permutation (selected cls per budget o) (picked cls per budget o).
Proof.
  intros Hb No. destruct (picked_spec cls per budget o Hb No) as (Np & Sp & _).
  apply list.NoDup_Permutation; [by apply list.NoDup_filter|done|]. intros x. unfold selected. rewrite list_elem_of_filter.
  split; [tauto|]. intros H. split; [done|by apply Sp].
Qed.

(** Where the payloads come from. *)
Lemma schedule_result (candidates : list (Candidate T)) budget config : 0 <= budget -> 0 <= reservation_per_class config ->
  let items := List.filter (eligible (voi_sanitised config)) candidates in
  exists sel, schedule candidates budget config = omap (fun i => cd_payload <$> items !! i) sel /\ NoDup sel /\
    Forall (fun i => (i < length items)%nat) sel /\ zlen sel = Z.min budget (zlen items).
Proof.
  intros Hb Hp items. set (per := Z.min (reservation_per_class config) 64). exists (selected (class_at items) per budget (order_of items)).
  pose proof (eligible_numbers _ _ : numbers items) as Hn. destruct (order_of_spec items Hn) as [P _].
  destruct (order_of_elem items O Hn) as [No _]. pose proof (selected_perm (class_at items) per budget _ Hb No) as Ps.
  destruct (picked_spec (class_at items) per budget _ Hb No) as (Np & Sp & Lp).
  split; [by apply schedule_selected|]. split; [by rewrite Ps|]. split.
  - apply list.Forall_forall. intros i Hi. rewrite Ps in Hi. apply Sp in Hi. by apply order_of_elem.
  - transitivity (zlen (picked (class_at items) per budget (order_of items))); [unfold zlen; by rewrite Ps|]. rewrite Lp. unfold zlen.
    by rewrite P, length_seq.
Qed.

(** The schedule holds the payloads of as many worthwhile candidates as the budget
    allows, each once and best first; one passed over in favour of a worse one gave way to
    the reservation, that is, the worse one is among the best of its class; and a budget of
    the reservation for every class gives every class its share. *)
Theorem schedule_spec (candidates : list (Candidate T)) budget config classes :
  0 <= budget -> 0 <= reservation_per_class config ->
  let items := List.filter (eligible (voi_sanitised config)) candidates in
  let per := Z.min (reservation_per_class config) 64 in
  let all := seq 0 (length items) in
  exists sel, schedule candidates budget config = omap (fun i => cd_payload <$> items !! i) sel /\
    sel ⊆ all /\ StronglySorted (ahead items) sel /\ zlen sel = Z.min budget (zlen items) /\
    (forall i j, i ∈ all -> i ∉ sel -> j ∈ sel -> ahead items i j ->
       count (class_at items) (class_at items j) (filter (fun k => ahead items k j) all) < per) /\
    ((forall c, c ∈ items -> cd_class c ∈ classes) -> per * zlen classes <= budget ->
       forall c, Z.min per (count (class_at items) (Some c) all) <= count (class_at items) (Some c) sel).
Proof.
  intros Hb Hp items per all. exists (selected (class_at items) per budget (order_of items)).
  pose proof (eligible_numbers _ _ : numbers items) as Hn. destruct (order_of_spec items Hn) as [P S].
  destruct (order_of_elem items O Hn) as [No _]. set (order := order_of items) in *. fold all in P.
  pose proof (selected_perm (class_at items) per budget order Hb No) as Ps.
  destruct (picked_spec (class_at items) per budget order Hb No) as (_ & Sp & Lp).
  split; [by apply schedule_selected|]. split; [intros i Hi; rewrite Ps in Hi; apply Sp in Hi; by rewrite P in Hi|].
  split; [by apply sorted_filter|]. split; [|split].
  - transitivity (zlen (picked (class_at items) per budget order)); [unfold zlen; by rewrite Ps|]. rewrite Lp. unfold zlen. rewrite P. unfold all. by rewrite length_seq.
  - intros i j Hi Hni Hj Ha. rewrite Ps in Hni, Hj. rewrite <- P in Hi.
    apply Sp in Hj as Hjo. apply list_elem_of_split in Hjo as (p & s & Eo). rewrite (count_perm _ _ _ p).
    + apply (picked_best (class_at items) per (ahead items) budget order i j p s (fun x y => ahead_asym items x y Hn)); try done. unfold per. lia.
    + rewrite <- P, Eo, ahead_prefix; [done|done|by rewrite <- Eo].
  - intros Hc Hlen c. rewrite (count_perm _ _ _ _ Ps), <- (count_perm _ _ _ _ P).
    pose proof (count_greedy (class_at items) per (Some c) [] order ltac:(unfold per; change (count _ _ []) with 0; lia)) as C.
    change (count (class_at items) (Some c) []) with 0 in C. rewrite Z.sub_0_r in C. rewrite <- C. unfold picked. rewrite take_ge.
    + rewrite count_app. set (l := take _ _). pose proof (count_nonneg (class_at items) (Some c) l). lia.
    + assert (zlen (greedy (class_at items) per [] order) <= per * zlen (Some <$> classes)) as L; [|unfold zlen in *; rewrite length_fmap in L; lia].
      apply (greedy_bound (class_at items)).
      * intros k. rewrite count_greedy by (change (count _ _ []) with 0; unfold per; lia). change (count (class_at items) k []) with 0. lia.
      * intros i Hi. apply (sublist_subseteq _ _ (greedy_sublist _ _ _ _)) in Hi. apply (order_of_elem items i Hn) in Hi as Hlt.
        apply lookup_lt_is_Some in Hlt as [x Ex]. unfold class_at. rewrite Ex. cbn. apply list_elem_of_fmap_2, Hc. by apply list_elem_of_lookup_2 in Ex.
Qed.
End chosen.

Definition sample_classes : list BehaviorClass := [mkClass 0 1 1 1 1 1; mkClass 1 1 1 1 1 1].
Definition sample_candidates : list (Candidate Z) :=
  [mkCandidate 10 (mkClass 0 1 1 1 1 1) (f64_of 5) 7; mkCandidate 11 (mkClass 0 1 1 1 1 1) (f64_of 9) 3;
   mkCandidate 12 (mkClass 1 1 1 1 1 1) (f64_of 1) 0; mkCandidate 13 (mkClass 0 1 1 1 1 1) S754_nan 0].

Lemma schedule_spec_witness :
  exists sel, schedule sample_candidates 2 voi_default = omap (fun i => cd_payload <$> take 3 sample_candidates !! i) sel /\
    zlen sel = 2 /\ 1 <= count (class_at (take 3 sample_candidates)) (Some (mkClass 1 1 1 1 1 1)) sel.
Proof.
  destruct (schedule_spec sample_candidates 2 voi_default sample_classes) as (sel & E & _ & _ & L & _ & C); [lia|vm_compute; discriminate|].
  assert (List.filter (eligible (voi_sanitised voi_default)) sample_candidates = take 3 sample_candidates) as Ef by (vm_compute; reflexivity).
  rewrite Ef in *. exists sel. split; [exact E|]. split; [exact L|].
  assert (1 <= Z.min 1 (count (class_at (take 3 sample_candidates)) (Some (mkClass 1 1 1 1 1 1)) (seq 0 3))) as K by (vm_compute; discriminate).
  etransitivity; [exact K|]. apply C; [|vm_compute; discriminate].
  intros c Hc. cbn in Hc. rewrite !elem_of_cons in Hc. destruct Hc as [->|[->|[->|Hc]]]; [by left|by left|by right; left|by apply not_elem_of_nil in Hc].
Defined.

(** ** The schedule of a cache *)

Record RefreshInputs := mkRefreshInputs { query_probability : f64; value_ms : f64 }.
Definition refresh_inputs_default : RefreshInputs := mkRefreshInputs (f64_of 0) (f64_of 0).

Record RefreshScheduling := mkScheduling { rs_min_value : f64; rs_reservation_per_class : Z }.
Definition refresh_scheduling_default : RefreshScheduling := mkScheduling (f64_of 0) 1.

Section refresh_schedule.
(** The field [refresh_scheduling] of the cache's configuration, which nothing else reads. *)
Context (scheduling : RefreshScheduling).
Context (policy : PrefetchPolicy) (key : option FingerprintKey) (now : Ts) (inputs : Name -> Z -> RefreshInputs).
Implicit Types (e : Entry) (c : SemanticCache StabilityModel).

Definition entry_trust_level e : TrustLevel := if ce_validated e then TlCryptoVerified else TlUnverified.
Definition behavior_class e : BehaviorClass := from_model (ce_stability e) (answer_consequence e) (entry_trust_level e) (ce_cost_ms e).
Definition fingerprint (k : FingerprintKey) e : Z := fingerprint_of k (behavior_class e) (ck_name (ce_key e)).

Definition supplied e : RefreshInputs := inputs (apex (ck_name (ce_key e))) (pp_horizon_secs policy).

(** An entry that is a candidate. *)
Definition due e : bool :=
  match ce_kind e with Positive _ => true | _ => false end && negb (ce_refreshing e)
  && wants_refresh policy (ce_stability e) (query_probability (supplied e)).

Definition entry_voi e : VoiConfig :=
  mkVoi (f64_of (pp_horizon_secs policy)) (entry_ttl_secs e) (tail_probability (hz_config (hazard (ce_stability e))))
    (if ce_validated e then f64_of 1 else UNVERIFIED_OBSERVATION_TRUST) (rs_min_value scheduling) (rs_reservation_per_class scheduling).

Definition entry_value e : f64 :=
  observation_value (ce_stability e) (answer_consequence e) (entry_trust_level e) (value_ms (supplied e)) now (entry_voi e).

Definition candidate e : Candidate CacheKey :=
  mkCandidate (ce_key e) (behavior_class e) (entry_value e) (match key with Some k => fingerprint k e | None => 0 end).

Definition schedule_voi : VoiConfig :=
  mkVoi (f64_of (pp_horizon_secs policy)) (voi_ttl_secs voi_default) (voi_tail_probability voi_default)
    (observation_weight voi_default) (rs_min_value scheduling) (rs_reservation_per_class scheduling).

Definition due_entries c : list Entry := List.filter due (tier_values (hot c) ++ tier_values (warm c)).

Definition refresh_schedule c (budget : Z) : list CacheKey := schedule (map candidate (due_entries c)) budget schedule_voi.

(** The entries worth a token. *)
Definition worthwhile e : bool := due e && eligible (voi_sanitised schedule_voi) (candidate e).

Lemma filter_NoDup_map {X Y} (h : X -> Y) (f : X -> bool) l : NoDup (map h l) -> NoDup (map h (List.filter f l)).
Proof.
  induction l as [|e l IH]; cbn [List.filter map]; [done|]. intros [N1 N2]%list.NoDup_cons. destruct (f e); [|by apply IH].
  cbn [map]. apply list.NoDup_cons. split; [|by apply IH]. intros (x & Ex & Hx)%list_elem_of_fmap. apply N1, list_elem_of_fmap.
  exists x. split; [done|]. apply list_elem_of_In in Hx. apply filter_In in Hx as [Hx _]. by apply list_elem_of_In.
Qed.

Lemma filter_map_commute {X Y} (h : X -> Y) (f : Y -> bool) l : List.filter f (map h l) = map h (List.filter (fun x => f (h x)) l).
Proof. induction l as [|x l IH]; cbn [map List.filter]; [done|]. rewrite IH. by destruct (f (h x)). Qed.

Lemma tier_keys_NoDup c t : cache_ok c -> map ce_key (tier_values (tier_map c t)) = (tm_map (tier_map c t)).*1 /\
  NoDup (map ce_key (tier_values (tier_map c t))) /\
  (forall e, e ∈ tier_values (tier_map c t) <-> holds c t (ce_key e) = Some e).
Proof.
  intros Hc. destruct (ok_tiers _ Hc t) as [(Sm & _ & Hk & _) _]. unfold tier_values, holds, tier_get.
  assert (map ce_key (map snd (tm_map (tier_map c t))) = (tm_map (tier_map c t)).*1) as E.
  { rewrite map_map. apply map_ext_in. intros [k e] Hin. cbn. by apply Hk, bt_In_get. }
  split; [done|]. split; [rewrite E; apply NoDup_ListNoDup; by apply bt_sorted_NoDup|]. intros e. rewrite list_elem_of_In, in_map_iff. split.
  - intros ([k e'] & <- & Hin). cbn. apply bt_In_get in Hin; [|done]. by rewrite (Hk _ _ Hin).
  - intros H. exists (ce_key e, e). split; [done|]. by apply bt_In_get.
Qed.

Lemma due_entries_spec c : cache_ok c -> NoDup (map ce_key (due_entries c)) /\
  (forall e, e ∈ due_entries c <-> due e = true /\ exists t, t <> Cold /\ holds c t (ce_key e) = Some e).
Proof.
  intros Hc. destruct (tier_keys_NoDup c Hot Hc) as (_ & N1 & E1). destruct (tier_keys_NoDup c Warm Hc) as (_ & N2 & E2).
  cbn [tier_map] in *. unfold due_entries. split.
  - apply filter_NoDup_map. rewrite map_app. apply list.NoDup_app. split; [done|]. split; [|done].
    intros k (e & -> & He)%list_elem_of_fmap (e' & Ek & He')%list_elem_of_fmap. apply E1 in He. apply E2 in He'. rewrite <- Ek in He'.
    by pose proof (ok_unique _ Hc _ _ _ _ _ He He').
  - intros e. rewrite list_elem_of_In, filter_In, <- list_elem_of_In, elem_of_app, E1, E2. split.
    + intros [[H|H] D]; (split; [done|]); [by exists Hot|by exists Warm].
    + intros [D (t & Ht & H)]. split; [|done]. destruct t; [by left|by right|done].
Qed.

Lemma omap_lookup_NoDup {X} (l : list X) sel : NoDup l -> NoDup sel -> Forall (fun i => (i < length l)%nat) sel ->
  NoDup (omap (l !!.) sel) /\ zlen (omap (l !!.) sel) = zlen sel.
Proof.
  intros Hl. induction sel as [|i sel IH]; cbn [omap list_omap]; [by split; [constructor|]|].
  intros [Hi Hs]%list.NoDup_cons [Hv Hvs]%list.Forall_cons. destruct (IH Hs Hvs) as [I1 I2].
  apply lookup_lt_is_Some in Hv as [x Ex]. rewrite Ex. rewrite !zlen_cons. split; [|by f_equal]. apply list.NoDup_cons. split; [|done].
  intros (j & Hj & Ej)%list_elem_of_omap. by rewrite (NoDup_lookup _ _ _ _ Hl Ex Ej) in Hi.
Qed.

(** What is wanted of an entry, clause by clause. *)
Definition wanted e : Prop :=
  (exists set, ce_kind e = Positive set) /\ ce_refreshing e = false /\
  wants_refresh policy (ce_stability e) (query_probability (supplied e)) = true /\
  is_finite (entry_value e) = true /\ f64_lt (f64_max (finite_or (rs_min_value scheduling) (f64_of 0)) (f64_of 0)) (entry_value e) = true.

Lemma worthwhile_wanted e : worthwhile e = true <-> wanted e.
Proof.
  unfold worthwhile, wanted, due, eligible. rewrite !andb_true_iff, negb_true_iff. change (cd_value (candidate e)) with (entry_value e).
  change (min_value (voi_sanitised schedule_voi)) with (f64_max (finite_or (rs_min_value scheduling) (f64_of 0)) (f64_of 0)).
  destruct (ce_kind e) as [set|rc soa ttl].
  - split; [intros ([[_ ?] ?] & ? & ?)|intros (_ & ? & ? & ? & ?)]; eauto 10.
  - split; [by intros ([[? _] _] & _)|by intros ((? & ?) & _)].
Qed.

(** C13: The keys a tick refreshes are within the budget and distinct; each is held by the hot or
    warm tier, with data, not being refreshed, due by the prefetch policy and worth more than the
    configured minimum; and while the budget is not used up no such entry is left out. *)
Theorem refresh_schedule_sound c budget : cache_ok c -> 0 <= budget -> 0 <= rs_reservation_per_class scheduling ->
  let l := refresh_schedule c budget in
  NoDup l /\ zlen l <= budget /\
  (forall k, k ∈ l -> exists t e, t <> Cold /\ holds c t k = Some e /\ wanted e) /\
  (zlen l < budget -> forall t e, t <> Cold -> holds c t (ce_key e) = Some e -> wanted e -> ce_key e ∈ l).
Proof.
  intros Hc Hb Hr l. destruct (due_entries_spec c Hc) as [Nd Ed].
  set (ws := List.filter (fun e => eligible (voi_sanitised schedule_voi) (candidate e)) (due_entries c)).
  assert (forall e, e ∈ ws <-> wanted e /\ exists t, t <> Cold /\ holds c t (ce_key e) = Some e) as Hw.
  { intros e. unfold ws. rewrite list_elem_of_In, filter_In, <- list_elem_of_In, Ed, <- worthwhile_wanted. unfold worthwhile. rewrite andb_true_iff. tauto. }
  pose proof (filter_NoDup_map ce_key (fun e => eligible (voi_sanitised schedule_voi) (candidate e)) _ Nd) as Nw. fold ws in Nw.
  destruct (schedule_result (map candidate (due_entries c)) budget schedule_voi Hb Hr) as (sel & E & Ns & Vs & Ls).
  rewrite filter_map_commute in E, Vs, Ls. fold ws in E, Vs, Ls.
  assert (l = omap (map ce_key ws !!.) sel) as ->.
  { unfold l, refresh_schedule. rewrite E. apply list_omap_ext, Forall_Forall2_diag, list.Forall_forall. intros i _.
    rewrite !list_lookup_fmap. by destruct (ws !! i). }
  rewrite length_map in Vs. unfold zlen in Ls. rewrite length_map in Ls.
  destruct (omap_lookup_NoDup (map ce_key ws) sel Nw Ns) as [N1 L1]; [by rewrite length_map|].
  split; [done|]. rewrite L1. split; [unfold zlen; lia|]. split.
  - intros k (i & Hi & Ei)%list_elem_of_omap. rewrite list_lookup_fmap in Ei. destruct (ws !! i) as [e|] eqn:Ee; [|done].
    injection Ei as <-. apply list_elem_of_lookup_2 in Ee. apply Hw in Ee as [W (t & Ht & H)]. by exists t, e.
  - intros Hl t e Ht H W. assert (e ∈ ws) as Hin by (apply Hw; eauto). apply list_elem_of_lookup in Hin as [i Ei].
    apply list_elem_of_omap. exists i. rewrite list_lookup_fmap, Ei. split; [|done].
    assert (Permutation sel (seq 0 (length ws))) as P.
    { apply submseteq_length_Permutation; [|rewrite length_seq; unfold zlen in Hl; lia]. apply NoDup_submseteq; [done|].
      intros j Hj. rewrite elem_of_seq. rewrite list.Forall_forall in Vs. specialize (Vs j Hj). lia. }
    rewrite P, elem_of_seq. apply lookup_lt_Some in Ei. lia.
Qed.
End refresh_schedule.

(** ** At a concrete cache *)

Lemma watched_cache_ok : cache_ok watched_cache.
Proof.
  unfold watched_cache. assert (cache_ok (cache_new (S := StabilityModel) default_cache_config)) as H by (apply cache_new_ok, default_cfg_ok).
  revert H. generalize (cache_new (S := StabilityModel) default_cache_config), (seqZ 0 31).
  intros c l. revert c. induction l as [|i l IH]; intros c Hc; cbn [fold_left]; [done|]. apply IH.
  by apply insert_positive_spec.
Qed.

Definition hour_ahead : PrefetchPolicy := mkPrefetch 3600 (dec 9 1) (dec 5 1) (f64_of 300).
Definition busy : Name -> Z -> RefreshInputs := fun _ _ => mkRefreshInputs (f64_of 1) (f64_of 50).

#[local] Abbreviation busy_schedule := (refresh_schedule refresh_scheduling_default hour_ahead None late busy watched_cache 8).

Lemma busy_schedule_short : zlen busy_schedule < 8.
Proof. vm_compute. reflexivity. Qed.

Lemma watched_entry : exists e, holds watched_cache Warm (ce_key e) = Some e /\ ce_key e = sample_key /\
  worthwhile refresh_scheduling_default hour_ahead None late busy e = true.
Proof.
  assert (option_map (fun e => bool_decide (ce_key e = sample_key) && worthwhile refresh_scheduling_default hour_ahead None late busy e)
    (holds watched_cache Warm sample_key) = Some true) as H by (vm_compute; reflexivity).
  destruct (holds watched_cache Warm sample_key) as [e|] eqn:E; [|discriminate H].
  cbn [option_map] in H. injection H as H. apply andb_true_iff in H as [H1 H2].
  apply bool_decide_eq_true in H1. exists e. rewrite H1. split; [exact E|]. split; [reflexivity|exact H2].
Qed.

Lemma refresh_schedule_sound_witness : sample_key ∈ busy_schedule /\ zlen busy_schedule <= 8.
Proof.
  destruct (refresh_schedule_sound refresh_scheduling_default hour_ahead None late busy watched_cache 8 watched_cache_ok)
    as (_ & H1 & _ & H2); [lia|done|]. split; [|exact H1].
  destruct watched_entry as (e & E1 & <- & E3). apply worthwhile_wanted in E3. exact (H2 busy_schedule_short Warm e ltac:(discriminate) E1 E3).
Defined.
