(* ===== verification/Maintain.v ===== *)
(** * Background refreshes and maintenance ([src/resolver.rs])

    How a refresh of a cached key is started from a request or from the maintenance tick:
    the mark on the entry, the slot, the token and the thread; what a refresh leaves behind;
    the refresh of a key's dependents; and one maintenance tick.  Queueing threads and
    refresh threads are the processes of a step relation, of which the functions a single
    thread runs are instances.  [BackgroundEnv] is the clock and the spawning of threads. *)
From stdpp Require Import gmap.
From S2P Require Import Prelude Wire Prng Name Compress Qtype Bitmap RData Rr Message BTree Time Addr Cidr Pattern FakeIp Float64 Float FloatOrder Upstream RrSet CacheKey Tier Cache Alias Query Engine Dnssec Front Servers Walk Hazard Risk Estimator Planner Voi.

Class BackgroundEnv (E : Type) := {
  env_now : E -> Ts * E;
  env_spawn : CacheKey -> E -> bool * E }.

(** Where a thread that queues a refresh, or the refresh it started, stands. *)
Inductive RefreshPc := Marked | Slotted | Denied | Granted | Running | Finished.

Record Background (E : Type) := mkBackground {
  bg_env : E;
  bg_cache : SemanticCache StabilityModel;
  bg_aliases : AliasGraph CacheKey;
  bg_budget : RefreshBudget;
  bg_slots : Z;                              (** the counter [refreshing] *)
  bg_threads : list (CacheKey * RefreshPc);
  bg_lost : Z;                               (** slots of threads that were never started *)
  bg_prefetches : Z; bg_denied : Z; bg_propagated : Z }.
Arguments mkBackground {E}.
Arguments bg_env {E}.
Arguments bg_cache {E}.
Arguments bg_aliases {E}.
Arguments bg_budget {E}.
Arguments bg_slots {E}.
Arguments bg_threads {E}.
Arguments bg_lost {E}.
Arguments bg_prefetches {E}.
Arguments bg_denied {E}.
Arguments bg_propagated {E}.

Section background.
Context {E : Type} `{BackgroundEnv E}.
Context (hc : HazardConfig).
#[local] Instance refresh_ops : StabilityOps StabilityModel := stability_ops hc.
(** [max_concurrent_refreshes], [max_ttl_cap] and [engine.dnssec] of the configuration. *)
Context (max_concurrent cap : Z) (dnssec : bool).
Abbreviation Bg := (Background E).
Implicit Types (b : Bg) (key : CacheKey).

Definition with_env b (e : E) : Bg :=
  mkBackground e (bg_cache b) (bg_aliases b) (bg_budget b) (bg_slots b) (bg_threads b) (bg_lost b) (bg_prefetches b) (bg_denied b) (bg_propagated b).
Definition with_cache b (c : SemanticCache StabilityModel) : Bg :=
  mkBackground (bg_env b) c (bg_aliases b) (bg_budget b) (bg_slots b) (bg_threads b) (bg_lost b) (bg_prefetches b) (bg_denied b) (bg_propagated b).
Definition with_aliases b (g : AliasGraph CacheKey) : Bg :=
  mkBackground (bg_env b) (bg_cache b) g (bg_budget b) (bg_slots b) (bg_threads b) (bg_lost b) (bg_prefetches b) (bg_denied b) (bg_propagated b).
Definition with_budget b (r : RefreshBudget) : Bg :=
  mkBackground (bg_env b) (bg_cache b) (bg_aliases b) r (bg_slots b) (bg_threads b) (bg_lost b) (bg_prefetches b) (bg_denied b) (bg_propagated b).
Definition with_slots b (n : Z) : Bg :=
  mkBackground (bg_env b) (bg_cache b) (bg_aliases b) (bg_budget b) n (bg_threads b) (bg_lost b) (bg_prefetches b) (bg_denied b) (bg_propagated b).
Definition with_threads b (l : list (CacheKey * RefreshPc)) : Bg :=
  mkBackground (bg_env b) (bg_cache b) (bg_aliases b) (bg_budget b) (bg_slots b) l (bg_lost b) (bg_prefetches b) (bg_denied b) (bg_propagated b).
Definition with_lost b (n : Z) : Bg :=
  mkBackground (bg_env b) (bg_cache b) (bg_aliases b) (bg_budget b) (bg_slots b) (bg_threads b) n (bg_prefetches b) (bg_denied b) (bg_propagated b).
Definition count_prefetch b : Bg :=
  mkBackground (bg_env b) (bg_cache b) (bg_aliases b) (bg_budget b) (bg_slots b) (bg_threads b) (bg_lost b)
    (wrap 64 (bg_prefetches b + 1)) (bg_denied b) (bg_propagated b).
Definition count_denied b : Bg :=
  mkBackground (bg_env b) (bg_cache b) (bg_aliases b) (bg_budget b) (bg_slots b) (bg_threads b) (bg_lost b) (bg_prefetches b)
    (wrap 64 (bg_denied b + 1)) (bg_propagated b).
Definition count_propagated b (n : Z) : Bg :=
  mkBackground (bg_env b) (bg_cache b) (bg_aliases b) (bg_budget b) (bg_slots b) (bg_threads b) (bg_lost b) (bg_prefetches b)
    (bg_denied b) (wrap 64 (bg_propagated b + n)).

Definition unmark b key : Bg := with_cache b (clear_refreshing (bg_cache b) key).

Definition slot_limit : Z := Z.max max_concurrent 1.

Definition acquire_refresh_slot b : bool * Bg :=
  if slot_limit <=? bg_slots b then (false, b) else (true, with_slots b (bg_slots b + 1)).

Definition queue_background_refresh b key : bool * Bg :=
  let '(marked, c) := mark_refreshing (bg_cache b) key in
  let b := with_cache b c in
  if negb marked then (false, b) else
  let '(acquired, b) := acquire_refresh_slot b in
  if negb acquired then (false, unmark b key) else
  let '(now, e) := env_now (bg_env b) in
  let '(allowed, budget) := refresh_take (bg_budget b) 1 now in
  let b := with_budget (with_env b e) budget in
  if allowed =? 0 then (false, count_denied (with_slots (unmark b key) (bg_slots b - 1))) else
  let b := count_prefetch b in
  let '(spawned, e) := env_spawn key (bg_env b) in
  let b := with_env b e in
  (true, if spawned then with_threads b (bg_threads b ++ [(key, Running)]) else with_lost b (bg_lost b + 1)).

(** The dependents of a key, one after the other, until enough are queued. *)
Fixpoint queue_dependents (max_dependents queued : Z) (keys : list CacheKey) b : Z * Bg :=
  match keys with
  | [] => (queued, b)
  | k :: keys =>
      if max_dependents <=? queued then (queued, b) else
      let '(ok, b) := queue_background_refresh b k in
      queue_dependents max_dependents (if ok then queued + 1 else queued) keys b
  end.

Definition refresh_with_dependents (max_dependents : Z) b key : Bg :=
  let '(_, b) := queue_background_refresh b key in
  let '(queued, b) := queue_dependents max_dependents 0 (dependents (bg_aliases b) key) b in
  if 0 <? queued then count_propagated b queued else b.

(** The question a refresh asks. *)
Definition refresh_query (key : CacheKey) : QueryKey :=
  mkQueryKey (ck_name key) (ck_type key) (ck_class key) (ck_ecs key) dnssec false.

(** ** The threads together *)

Definition set_pc b (i : nat) key (pc : RefreshPc) : Bg := with_threads b (<[i := (key, pc)]> (bg_threads b)).
Definition leave b (i : nat) : Bg := with_threads b (delete i (bg_threads b)).

Inductive bg_step b : Bg -> Prop :=
| queue_marks key c : mark_refreshing (bg_cache b) key = (true, c) ->
    bg_step b (with_threads (with_cache b c) (bg_threads b ++ [(key, Marked)]))
| slot_taken i key b' : bg_threads b !! i = Some (key, Marked) -> acquire_refresh_slot b = (true, b') ->
    bg_step b (set_pc b' i key Slotted)
| slot_refused i key b' : bg_threads b !! i = Some (key, Marked) -> acquire_refresh_slot b = (false, b') ->
    bg_step b (leave (unmark b' key) i)
| token_granted i key now allowed budget : bg_threads b !! i = Some (key, Slotted) ->
    refresh_take (bg_budget b) 1 now = (allowed, budget) -> allowed <> 0 ->
    bg_step b (set_pc (count_prefetch (with_budget b budget)) i key Granted)
| token_denied i key now budget : bg_threads b !! i = Some (key, Slotted) ->
    refresh_take (bg_budget b) 1 now = (0, budget) -> bg_step b (set_pc (unmark (with_budget b budget) key) i key Denied)
| slot_returned i key : bg_threads b !! i = Some (key, Denied) ->
    bg_step b (leave (count_denied (with_slots b (bg_slots b - 1))) i)
| thread_spawned i key : bg_threads b !! i = Some (key, Granted) -> bg_step b (set_pc b i key Running)
| thread_refused i key : bg_threads b !! i = Some (key, Granted) -> bg_step b (leave (with_lost b (bg_lost b + 1)) i)
| refresh_succeeded i key res now inputs : bg_threads b !! i = Some (key, Running) ->
    bg_step b (set_pc (with_cache b (cache_resolution cap (refresh_query key) res now inputs (bg_cache b))) i key Finished)
| refresh_failed i key now : bg_threads b !! i = Some (key, Running) ->
    bg_step b (set_pc (with_cache b (record_refresh_failure (bg_cache b) key now)) i key Finished)
| slot_dropped i key : bg_threads b !! i = Some (key, Finished) -> bg_step b (leave (with_slots b (bg_slots b - 1)) i)
| queue_gives_up key c : mark_refreshing (bg_cache b) key = (false, c) -> bg_step b (with_cache b c)
| propagation_counted n : bg_step b (count_propagated b n)
| other_cache_traffic c : cache_step (bg_cache b) c -> bg_step b (with_cache b c)
| aliases_change g : bg_step b (with_aliases b g)
| environment_moves e : bg_step b (with_env b e).

Definition bg_new (e : E) (c : SemanticCache StabilityModel) (g : AliasGraph CacheKey) (r : RefreshBudget) : Bg :=
  mkBackground e c g r 0 [] 0 0 0 0.

(** ** Lemmas *)

Definition holds_slot (t : CacheKey * RefreshPc) : bool := match t.2 with Marked => false | _ => true end.
Definition is_running (t : CacheKey * RefreshPc) : bool := match t.2 with Running | Finished => true | _ => false end.

Lemma cache_resolution_steps (key : QueryKey) res now inputs (c : SemanticCache StabilityModel) :
  rtc cache_step c (cache_resolution cap key res now inputs c).
Proof.
  assert (forall gs (c : SemanticCache StabilityModel), rtc cache_step c (fold_left (cache_group cap key res now inputs) gs c)) as F.
  { induction gs as [|g gs IH]; intros c0; cbn [fold_left]; [done|]. etransitivity; [|apply IH]. unfold cache_group.
    destruct (_ =? _); [done|]. destruct (from_records _ _); [|done]. apply rtc_once, step_positive. }
  unfold cache_resolution. cbv zeta. destruct (is_nxdomain _); [destruct (answer_partition _ _)|destruct (_ =? _)]; try apply F.
  - eapply rtc_r; [apply F|apply step_negative].
  - eapply rtc_r; [apply F|apply step_nxdomain].
  - eapply rtc_r; [apply F|apply step_negative].
Qed.

Lemma cache_steps_ok (c c' : SemanticCache StabilityModel) : rtc cache_step c c' -> cache_ok c -> cache_ok c'.
Proof. induction 1 as [|c c1 c2 S _ IH]; [done|]. intros Hc. by apply IH, (cache_step_ok c). Qed.

(** The slots in use, and the invariant of the cache. *)
Record bg_ok b : Prop := {
  bo_slots : bg_slots b = tally holds_slot (bg_threads b) + bg_lost b;
  bo_lost : 0 <= bg_lost b;
  bo_limit : bg_slots b <= slot_limit;
  bo_cache : cache_ok (bg_cache b) }.

Lemma acquire_cases b : let '(ok, b') := acquire_refresh_slot b in
  if ok then bg_slots b < slot_limit /\ b' = with_slots b (bg_slots b + 1) else slot_limit <= bg_slots b /\ b' = b.
Proof. unfold acquire_refresh_slot. destruct (slot_limit <=? bg_slots b) eqn:Es; bools; split; done || lia. Qed.

Lemma unmark_ok (c : SemanticCache StabilityModel) key : cache_ok c -> cache_ok (clear_refreshing c key).
Proof. intros Hc. by apply (cache_step_ok c _ Hc (step_clear c key)). Qed.

Lemma mark_ok (c c' : SemanticCache StabilityModel) key m : mark_refreshing c key = (m, c') -> cache_ok c -> cache_ok c'.
Proof. intros Em Hc. pose proof (mark_refreshing_ok c key Hc) as [Ho _]. by rewrite Em in Ho. Qed.

Lemma bg_step_ok b b' : bg_ok b -> bg_step b b' -> bg_ok b'.
Proof.
  intros [Hs Hl Hm Hc] S.
  destruct S as [key c Em|i key b' Ei Ea|i key b' Ei Ea|i key now allowed budget Ei Et Ha|i key now budget Ei Et|i key Ei|i key Ei|i key Ei
                |i key res now inputs Ei|i key now Ei|i key Ei|key c Em|n|c Sc|g|e].
  all: try (pose proof (tally_insert holds_slot _ _ _ (key, Slotted) Ei) as T1; pose proof (tally_delete holds_slot _ _ _ Ei) as T2).
  all: try (pose proof (acquire_cases b) as A; rewrite Ea in A; destruct A as [A ->]).
  all: constructor; cbn; try rewrite ?tally_app, ?(tally_insert holds_slot _ _ _ _ Ei), ?T2; cbn; try lia; try done.
  - change (tally holds_slot [(key, Marked)]) with 0. lia.
  - by eapply mark_ok.
  - by apply unmark_ok.
  - by apply unmark_ok.
  - eapply cache_steps_ok; [apply cache_resolution_steps|done].
  - by apply (cache_step_ok _ _ Hc (step_failure _ key now)).
  - by eapply mark_ok.
  - by apply (cache_step_ok _ _ Hc Sc).
Qed.

(** ** What one thread runs is a run of the threads *)

Lemma last_pc {A} (l : list A) x y : (l ++ [x]) !! length l = Some x /\ <[length l := y]> (l ++ [x]) = l ++ [y] /\ delete (length l) (l ++ [x]) = l.
Proof.
  split; [|split].
  - by rewrite lookup_app_r, Nat.sub_diag by lia.
  - rewrite <- (Nat.add_0_r (length l)) at 1. by rewrite insert_app_r.
  - rewrite delete_take_drop, take_app_length, drop_app_ge by lia. replace (S (length l) - length l)%nat with 1%nat by lia. by rewrite app_nil_r.
Qed.

(** Names the state a run has reached. *)
Ltac at_state x := match goal with |- rtc _ ?s _ => set (x := s) end.

Lemma queue_steps b key : rtc bg_step b (queue_background_refresh b key).2.
Proof.
  unfold queue_background_refresh. destruct (mark_refreshing (bg_cache b) key) as [[] c] eqn:Em; cbn [negb].
  2: { apply rtc_once. by eapply queue_gives_up. }
  set (ths := bg_threads b). pose proof (fun x y => last_pc ths x y) as L.
  eapply rtc_l; [by apply (queue_marks b key c)|]. fold ths. set (b1 := with_threads _ _).
  assert (bg_threads b1 !! length ths = Some (key, Marked)) as E1 by apply (L _ (key, Marked)).
  unfold acquire_refresh_slot at 1. destruct (slot_limit <=? bg_slots (with_cache b c)) eqn:Es; cbn in Es; cbn [negb].
  { eapply rtc_l; [eapply (slot_refused b1 _ key b1 E1); unfold acquire_refresh_slot; cbn; by rewrite Es|].
    unfold leave, unmark. cbn. rewrite (proj2 (proj2 (L _ (key, Marked)))). done. }
  eapply rtc_l; [eapply (slot_taken b1 _ key (with_slots b1 (bg_slots b1 + 1)) E1); unfold acquire_refresh_slot; cbn; by rewrite Es|].
  unfold set_pc. cbn. rewrite (proj1 (proj2 (L _ _))). at_state b2.
  assert (bg_threads b2 !! length ths = Some (key, Slotted)) as E2 by apply (L _ (key, Marked)).
  destruct (env_now (bg_env b)) as [now e]. destruct (refresh_take (bg_budget b) 1 now) as [allowed budget] eqn:Et.
  eapply rtc_l; [apply (environment_moves b2 e)|]. set (b3 := with_env b2 e).
  destruct (allowed =? 0) eqn:Ea; bools.
  - subst allowed. eapply rtc_l; [by apply (token_denied b3 _ key now budget E2)|].
    unfold set_pc. cbn. rewrite (proj1 (proj2 (L _ _))). at_state b4.
    eapply rtc_l; [apply (slot_returned b4 (length ths) key); apply (L _ (key, Marked))|].
    unfold leave. cbn. rewrite (proj2 (proj2 (L _ (key, Marked)))). done.
  - eapply rtc_l; [by apply (token_granted b3 _ key now allowed budget E2)|].
    unfold set_pc. cbn. rewrite (proj1 (proj2 (L _ _))). at_state b4.
    destruct (env_spawn key e) as [spawned e'] eqn:Ee. cbn. eapply rtc_l; [apply (environment_moves b4 e')|].
    destruct spawned.
    + eapply rtc_l; [apply (thread_spawned (with_env b4 e') (length ths) key); apply (L _ (key, Marked))|].
      unfold set_pc. cbn. by rewrite (proj1 (proj2 (L _ _))).
    + eapply rtc_l; [apply (thread_refused (with_env b4 e') (length ths) key); apply (L _ (key, Marked))|].
      unfold leave. cbn. by rewrite (proj2 (proj2 (L _ (key, Marked)))).
Qed.

Lemma dependents_steps max_dependents keys queued b : rtc bg_step b (queue_dependents max_dependents queued keys b).2.
Proof.
  revert queued b. induction keys as [|k keys IH]; intros queued b; cbn [queue_dependents]; [done|]. destruct (_ <=? _); [done|].
  pose proof (queue_steps b k) as S. destruct (queue_background_refresh b k) as [ok b1]. etransitivity; [exact S|apply IH].
Qed.

Lemma refresh_with_dependents_steps max_dependents b key : rtc bg_step b (refresh_with_dependents max_dependents b key).
Proof.
  unfold refresh_with_dependents. pose proof (queue_steps b key) as S. destruct (queue_background_refresh b key) as [ok b1].
  pose proof (dependents_steps max_dependents (dependents (bg_aliases b1) key) 0 b1) as S'.
  destruct (queue_dependents _ _ _ _) as [q b2]. etransitivity; [exact S|]. etransitivity; [exact S'|].
  destruct (0 <? q); [|done]. apply rtc_once, propagation_counted.
Qed.

(** ** What is started *)

Record adds b b' (ks : list CacheKey) (lost : Z) : Prop := {
  ad_threads : bg_threads b' = bg_threads b ++ map (fun k => (k, Running)) ks;
  ad_slots_lost : bg_lost b' = bg_lost b + lost;
  ad_nonneg : 0 <= lost;
  ad_aliases : bg_aliases b' = bg_aliases b }.

Lemma adds_none b b' (keys : list CacheKey) : bg_threads b' = bg_threads b -> bg_lost b' = bg_lost b -> bg_aliases b' = bg_aliases b ->
  adds b b' [] 0 /\ @nil CacheKey ⊆ keys /\ zlen (@nil CacheKey) + 0 = 0.
Proof.
  intros E1 E2 E3. split; [constructor; [by rewrite E1, app_nil_r|lia|done|done]|]. split; [by intros x Hx%not_elem_of_nil|done].
Qed.

Lemma adds_trans b b1 b2 k1 k2 n1 n2 : adds b b1 k1 n1 -> adds b1 b2 k2 n2 -> adds b b2 (k1 ++ k2) (n1 + n2).
Proof.
  intros [A1 A2 A3 A4] [B1 B2 B3 B4]. constructor; [by rewrite B1, A1, map_app, app_assoc|lia|lia|congruence].
Qed.

Lemma queue_adds b key : let '(ok, b') := queue_background_refresh b key in
  exists ks n, adds b b' ks n /\ ks ⊆ [key] /\ zlen ks + n = if ok then 1 else 0.
Proof.
  unfold queue_background_refresh, acquire_refresh_slot. destruct (mark_refreshing (bg_cache b) key) as [[] c]; cbn [negb].
  2: { exists [], 0. by apply adds_none. }
  destruct (_ <=? _); cbn [negb]; [exists [], 0; by apply adds_none|].
  destruct (env_now _) as [now e]. destruct (refresh_take _ 1 now) as [allowed budget].
  destruct (allowed =? 0); [exists [], 0; by apply adds_none|].
  destruct (env_spawn key _) as [[] e'].
  - exists [key], 0. split; [constructor; cbn; [done|lia|done|done]|done].
  - exists [], 1. split; [constructor; cbn; [by rewrite app_nil_r|done|lia|done]|]. split; [by intros x Hx%not_elem_of_nil|done].
Qed.

Lemma dependents_adds max_dependents keys queued b : let '(queued', b') := queue_dependents max_dependents queued keys b in
  exists ks n, adds b b' ks n /\ ks ⊆ keys /\ zlen ks + n = queued' - queued /\ queued' <= Z.max max_dependents queued.
Proof.
  revert queued b. induction keys as [|k keys IH]; intros queued b; cbn [queue_dependents].
  { exists [], 0. destruct (adds_none b b [] eq_refl eq_refl eq_refl) as (A & S & C). split; [done|]. split; [done|]. lia. }
  destruct (max_dependents <=? queued) eqn:Em; bools.
  { exists [], 0. destruct (adds_none b b (k :: keys) eq_refl eq_refl eq_refl) as (A & S & C). split; [done|]. split; [done|]. lia. }
  pose proof (queue_adds b k) as A. destruct (queue_background_refresh b k) as [ok b1]. destruct A as (k1 & n1 & A & S1 & C1).
  specialize (IH (if ok then queued + 1 else queued) b1). destruct (queue_dependents _ _ keys b1) as [q b2].
  destruct IH as (k2 & n2 & A2 & S2 & C2 & M2). exists (k1 ++ k2), (n1 + n2). split; [by eapply adds_trans|]. split.
  - intros x [Hx|Hx]%elem_of_app; [apply S1 in Hx; apply list_elem_of_singleton in Hx as ->; by left|right; by apply S2].
  - rewrite zlen_app. destruct ok; lia.
Qed.

Lemma refresh_with_dependents_adds max_dependents b key : 0 <= max_dependents ->
  exists ks n, adds b (refresh_with_dependents max_dependents b key) ks n /\
    ks ⊆ key :: dependents (bg_aliases b) key /\ zlen ks + n <= 1 + max_dependents.
Proof.
  intros Hm. unfold refresh_with_dependents. pose proof (queue_adds b key) as A. destruct (queue_background_refresh b key) as [ok b1].
  destruct A as (k1 & n1 & A & S1 & C1). pose proof (dependents_adds max_dependents (dependents (bg_aliases b1) key) 0 b1) as D.
  destruct (queue_dependents _ _ _ b1) as [q b2]. destruct D as (k2 & n2 & A2 & S2 & C2 & M2).
  exists (k1 ++ k2), (n1 + n2). pose proof (adds_trans _ _ _ _ _ _ _ A A2) as A3. split; [|split].
  - destruct A3. by destruct (0 <? q).
  - rewrite <- (ad_aliases _ _ _ _ A). intros x [Hx|Hx]%elem_of_app; [apply S1 in Hx; apply list_elem_of_singleton in Hx as ->; by left|right; by apply S2].
  - rewrite zlen_app. destruct ok; lia.
Qed.

Lemma refresh_all_adds max_dependents keys b : 0 <= max_dependents ->
  exists ks n, adds b (fold_left (refresh_with_dependents max_dependents) keys b) ks n /\
    (forall k, k ∈ ks -> exists s, s ∈ keys /\ (k = s \/ k ∈ dependents (bg_aliases b) s)) /\
    zlen ks + n <= zlen keys * (1 + max_dependents).
Proof.
  intros Hm. revert b. induction keys as [|key keys IH]; intros b; cbn [fold_left].
  { exists [], 0. destruct (adds_none b b [] eq_refl eq_refl eq_refl) as (A & _ & C). split; [done|].
    split; [by intros k Hk%not_elem_of_nil|]. by rewrite C. }
  destruct (refresh_with_dependents_adds max_dependents b key Hm) as (k1 & n1 & A & S1 & C1).
  destruct (IH (refresh_with_dependents max_dependents b key)) as (k2 & n2 & A2 & S2 & C2).
  exists (k1 ++ k2), (n1 + n2). split; [by eapply adds_trans|]. rewrite (ad_aliases _ _ _ _ A) in S2. split.
  - intros k [Hk|Hk]%elem_of_app.
    + exists key. split; [by left|]. apply S1, elem_of_cons in Hk. exact Hk.
    + destruct (S2 k Hk) as (s & Hs & Hks). exists s. split; [by right|done].
  - rewrite zlen_app, zlen_cons. lia.
Qed.

(** ** One maintenance tick *)

Section tick.
Context (scheduling : RefreshScheduling) (policy : PrefetchPolicy) (fkey : option FingerprintKey).
(** [max_prefetch_per_tick], [max_chain_refresh] and [maintenance_interval_ms]. *)
Context (max_prefetch max_chain interval : Z).

Definition tick_inputs (est : QueryEstimator) (now : Ts) (apex : Name) (horizon : Z) : RefreshInputs :=
  mkRefreshInputs (probability est apex now horizon) (estimator_cost_ms est apex).

(** The cache swept, the aliases pruned, the pool cleaned, and the keys due. *)
Definition tick_swept b (now : Ts) : Bg :=
  with_aliases (with_cache b (sweep (bg_cache b) now)) (prune (bg_aliases b) now 0).
Definition tick_keys (est : QueryEstimator) b (now : Ts) : list CacheKey :=
  refresh_schedule scheduling policy fkey now (tick_inputs est now) (bg_cache b) max_prefetch.

Definition maintenance_tick (est : QueryEstimator) (pool : option FakeIpPool) b : option FakeIpPool * Bg :=
  let '(now, e) := env_now (bg_env b) in
  let b := tick_swept (with_env b e) now in
  let pool := match pool with Some p => Some (pool_cleanup_expired p now).2 | None => None end in
  (pool, fold_left (refresh_with_dependents max_chain) (tick_keys est b now) b).

(** One pass of the loop of [spawn_maintenance]: a slice of sleep, and a tick when the
    interval is slept. *)
Definition maintenance_pass (est : QueryEstimator) (slept : Z) (pool : option FakeIpPool) b : Z * option FakeIpPool * Bg :=
  let slept := slept + Z.max (Z.min interval 100) 1 in
  if slept <? interval then (slept, pool, b)
  else let '(pool, b) := maintenance_tick est pool b in (0, pool, b).

Lemma tick_keys_bounded est b now : 0 <= max_prefetch -> 0 <= rs_reservation_per_class scheduling -> zlen (tick_keys est b now) <= max_prefetch.
Proof.
  intros Hm Hr. unfold tick_keys, refresh_schedule.
  destruct (schedule_result (map (candidate scheduling policy fkey now (tick_inputs est now)) (due_entries policy (tick_inputs est now) (bg_cache b)))
    max_prefetch (schedule_voi scheduling policy) Hm Hr) as (sel & -> & _ & _ & L).
  assert (forall {X Y} (f : X -> option Y) l, zlen (omap f l) <= zlen l) as O.
  { intros X Y f l. induction l as [|x l IH]; [done|]. csimpl. destruct (f x); rewrite ?zlen_cons; lia. }
  etransitivity; [apply O|]. lia.
Qed.

Lemma fold_refresh_steps keys b : rtc bg_step b (fold_left (refresh_with_dependents max_chain) keys b).
Proof.
  revert b. induction keys as [|k keys IH]; intros b; cbn [fold_left]; [done|]. etransitivity; [apply refresh_with_dependents_steps|apply IH].
Qed.

Lemma bg_steps_ok b b' : rtc bg_step b b' -> bg_ok b -> bg_ok b'.
Proof. induction 1 as [|b b1 b2 S _ IH]; [done|]. intros Hb. by apply IH, (bg_step_ok b). Qed.

(** C15: A maintenance tick is a run of the threads' steps.  What it starts are scheduled keys and
    keys whose answers depend on them, each as a thread of its own; together with the
    threads the system refused they are at most the tick's budget, each with its
    dependents; and the slots in use stay within the limit on concurrent refreshes. *)
Theorem maintenance_tick_spec est pool b :
  bg_ok b -> 0 <= max_prefetch -> 0 <= max_chain -> 0 <= rs_reservation_per_class scheduling ->
  let now := (env_now (bg_env b)).1 in
  let swept := tick_swept (with_env b (env_now (bg_env b)).2) now in
  let b' := (maintenance_tick est pool b).2 in
  rtc bg_step b b' /\ bg_ok b' /\
  exists ks,
    bg_threads b' = bg_threads b ++ map (fun k => (k, Running)) ks /\
    (forall k, k ∈ ks -> exists s, s ∈ tick_keys est swept now /\ (k = s \/ k ∈ dependents (bg_aliases swept) s)) /\
    zlen ks + (bg_lost b' - bg_lost b) <= max_prefetch * (1 + max_chain) /\
    tally is_running (bg_threads b') + bg_lost b' <= Z.max max_concurrent 1.
Proof.
  intros Hb Hm Hc Hr now swept b'. assert (b' = fold_left (refresh_with_dependents max_chain) (tick_keys est swept now) swept) as Eb.
  { unfold b', maintenance_tick, swept, now. by destruct (env_now (bg_env b)) as [n e]. }
  assert (rtc bg_step b b') as S.
  { rewrite Eb. eapply rtc_l; [apply (environment_moves b)|]. eapply rtc_l; [apply other_cache_traffic, (step_sweep _ now)|].
    eapply rtc_l; [apply (aliases_change _ (prune (bg_aliases b) now 0))|]. apply fold_refresh_steps. }
  pose proof (bg_steps_ok _ _ S Hb) as Hb'. split; [done|]. split; [done|].
  destruct (refresh_all_adds max_chain (tick_keys est swept now) swept Hc) as (ks & n & [A1 A2 A3 A4] & D & L). rewrite <- Eb in A1, A2.
  exists ks. split; [exact A1|]. split; [exact D|]. pose proof (tick_keys_bounded est swept now Hm Hr) as B.
  change (bg_lost swept) with (bg_lost b) in A2. split; [nia|].
  destruct Hb' as [Bs _ Bl _]. unfold slot_limit in Bl. enough (tally is_running (bg_threads b') <= tally holds_slot (bg_threads b')) by lia.
  apply tally_le. intros [k []]; done.
Qed.
End tick.

(** ** The slots, in every interleaving *)

Inductive bg_run e c g r : Bg -> Prop :=
| bg_start : bg_run e c g r (bg_new e c g r)
| bg_next b b' : bg_run e c g r b -> bg_step b b' -> bg_run e c g r b'.

(** C14: In every interleaving of requests, ticks, refreshes and other traffic, the slots in use are
    those of the threads past the slot, and those of threads the system refused to start,
    which are never returned; at most [max_concurrent_refreshes] refreshes run at
    once; and the cache stays well formed. *)
Theorem refresh_slots_exact e c g r b : cache_ok c -> bg_run e c g r b ->
  bg_slots b = tally holds_slot (bg_threads b) + bg_lost b /\ 0 <= bg_lost b /\
  tally is_running (bg_threads b) + bg_lost b <= Z.max max_concurrent 1 /\ cache_ok (bg_cache b).
Proof.
  intros Hc R. assert (bg_ok b) as [Bs Bl Bm Bc].
  { induction R as [|b b' R IH S]; [|by eapply bg_step_ok]. constructor; cbn; unfold slot_limit; [done|done|lia|done]. }
  split; [done|]. split; [done|]. split; [|done]. unfold slot_limit in Bm.
  enough (tally is_running (bg_threads b) <= tally holds_slot (bg_threads b)) by lia. apply tally_le. intros [k []]; done.
Qed.
End background.

(** ** At concrete caches *)

(** The time, and whether each thread asked for starts. *)
#[local] Instance scripted_env : BackgroundEnv (Ts * list bool) := {
  env_now e := (e.1, e);
  env_spawn _ e := match e.2 with ok :: l => (ok, (e.1, l)) | [] => (true, e) end }.

#[local] Instance default_ops : StabilityOps StabilityModel := stability_ops default_hazard_config.

Definition bg_at (spawns : list bool) : Background (Ts * list bool) :=
  bg_new (late, spawns) watched_cache (alias_new default_alias_config) (refresh_new (f64_of 50) (f64_of 512) late).

Definition queued (spawns : list bool) : bool * Background (Ts * list bool) :=
  queue_background_refresh 1 (bg_at spawns) sample_key.

(** A thread the system refuses to start keeps its slot and its mark: the call reports a
    refresh that was queued, no slot is left, and the entry cannot be refreshed again. *)
Example refused_thread_keeps_slot :
  let '(ok, b) := queued [false] in
  ok = true /\ bg_threads b = [] /\ bg_slots b = 1 /\ fst (acquire_refresh_slot 1 b) = false /\
  fst (mark_refreshing (bg_cache b) sample_key) = false.
Proof. vm_compute. done. Qed.

(** A refresh that finds the name gone succeeds and leaves the entry marked, so that it is
    not refreshed again; one that fails takes the mark away. *)
Example success_keeps_mark :
  let c := (mark_refreshing watched_cache sample_key).2 in
  let res := mkResolution (of_labels [[97]]) RrTypes.A 1 Rcodes.NXDOMAIN [] [] [] false 60 false false None late in
  let fill := cache_resolution 86400 (refresh_query false sample_key) res late default_inputs in
  fst (mark_refreshing (fill c) sample_key) = false /\
  fst (mark_refreshing (record_refresh_failure c sample_key late) sample_key) = true.
Proof. vm_compute. done. Qed.

Lemma bg_run_steps hc mc cap dnssec e c g r b b' :
  bg_run (E := Ts * list bool) hc mc cap dnssec e c g r b -> rtc (bg_step hc mc cap dnssec) b b' -> bg_run hc mc cap dnssec e c g r b'.
Proof. intros R S. induction S as [|b b1 b2 S _ IH]; [done|]. apply IH. by eapply bg_next. Qed.

Lemma queued_slots : bg_slots (queued []).2 = 1 /\ bg_threads (queued []).2 = [(sample_key, Running)].
Proof. vm_compute. done. Qed.

Lemma refresh_slots_exact_witness :
  bg_slots (queued []).2 = tally holds_slot (bg_threads (queued []).2) + bg_lost (queued []).2 /\
  bg_threads (queued []).2 = [(sample_key, Running)].
Proof.
  destruct (refresh_slots_exact default_hazard_config 1 86400 false (late, []) watched_cache (alias_new default_alias_config)
    (refresh_new (f64_of 50) (f64_of 512) late) (queued []).2) as [E _].
  - apply watched_cache_ok.
  - apply (bg_run_steps default_hazard_config 1 86400 false _ _ _ _ (bg_at [])); [apply bg_start|].
    exact (queue_steps default_hazard_config 1 86400 false (bg_at []) sample_key).
  - split; [exact E|apply queued_slots].
Defined.

Definition busy_zone : QueryEstimator :=
  fold_left (fun q i => observe_query q (of_labels [[97]]) (late - i * 1000000000)) (reverse (seqZ 0 60)) estimator_default.

Lemma bg_at_ok : bg_ok 2 (bg_at []).
Proof. constructor; [done|done|vm_compute; discriminate|apply watched_cache_ok]. Qed.

#[local] Abbreviation ticked := ((maintenance_tick 2 refresh_scheduling_default hour_ahead None 64 4 busy_zone None (bg_at [])).2).

Lemma ticked_threads : bg_threads ticked = [(sample_key, Running)].
Proof. vm_compute. reflexivity. Qed.

Lemma maintenance_tick_spec_witness : bg_ok 2 ticked /\ bg_threads ticked = [(sample_key, Running)] /\
  tally is_running (bg_threads ticked) + bg_lost ticked <= 2.
Proof.
  destruct (maintenance_tick_spec default_hazard_config 2 86400 false refresh_scheduling_default hour_ahead None 64 4 busy_zone None (bg_at [])
    bg_at_ok) as (_ & Ok & ks & _ & _ & _ & L); [lia|lia|done|]. split; [exact Ok|]. split; [exact ticked_threads|exact L].
Defined.
