(* ===== verification/Config.v ===== *)
(** * Configuration ([src/config.rs])

    The document an operator writes, as the codec delivers it, and what the resolver is
    built from: upstream lines, forwarders, the policy layer and the limits.  Errors are kept
    without the texts they quote.  A build with every transport and the persistent cache;
    [dnssec_feature] says whether it has validation. *)
From stdpp Require Import gmap.
From S2P Require Import Prelude Wire Prng Name Compress Qtype Bitmap RData Rr Message BTree Sort Time Addr Float64 Float Cidr Pattern Routing Hosts FakeIp Policy Budget Rendezvous Upstream RrSet Hazard Risk Planner Tier CacheKey Cache Engine Front Servers Walk Voi Forward.

(** ** Text *)

Definition is_str (s : list Z) (t : string) : bool := bool_decide (s = ascii_bytes t).

(** [split_once] at a text, [rsplit_once] at a character. *)
Fixpoint split_once_str (sep s : list Z) : option (list Z * list Z) :=
  match strip_prefix sep s with
  | Some rest => Some ([], rest)
  | None =>
      match s with
      | [] => None
      | x :: s => '(a, b) ← split_once_str sep s; Some (x :: a, b)
      end
  end.

Definition rsplit_once (c : Z) (s : list Z) : option (list Z * list Z) :=
  '(b, a) ← split_once c (rev s); Some (rev a, rev b).

(** [u16::from_str] *)
Definition parse_u16 (s : list Z) : option Z :=
  v ← decimal (match s with 43 :: s => s | _ => s end);
  if v <=? u16_max then Some v else None.

(** [SocketAddr::from_str]; a scope id is read and dropped, as nothing uses it. *)
Definition read_port (s : list Z) : option (Z * list Z) :=
  s ← read_given_char 58 s; read_number 10 (zlen s + 1) u16_max true s.

Definition read_scope_id (s : list Z) : option (Z * list Z) :=
  s ← read_given_char 37 s; read_number 10 (zlen s + 1) u32_max true s.

Definition read_socket_addr_v4 (s : list Z) : option (IpAddr * Z * list Z) :=
  '(a, s) ← read_ipv4_addr s; '(p, s) ← read_port s; Some (V4 a, p, s).

Definition read_socket_addr_v6 (s : list Z) : option (IpAddr * Z * list Z) :=
  s ← read_given_char 91 s; '(a, s) ← read_ipv6_addr s;
  let s := match read_scope_id s with Some (_, rest) => rest | None => s end in
  s ← read_given_char 93 s; '(p, s) ← read_port s; Some (V6 a, p, s).

Definition parse_socket_addr (s : list Z) : option (IpAddr * Z) :=
  match read_socket_addr_v4 s with
  | Some (ip, p, rest) => match rest with [] => Some (ip, p) | _ => None end
  | None => match read_socket_addr_v6 s with Some (ip, p, []) => Some (ip, p) | _ => None end
  end.

(** [collect::<Result<Vec<_>>>]: the first error. *)
Fixpoint collect {A B} (f : A -> result Error B) (l : list A) : result Error (list B) :=
  match l with
  | [] => Ok []
  | x :: l => y ← f x; ys ← collect f l; Ok (y :: ys)
  end.

(** ** The document *)

Record ListenConfig := mkListen { lc_addr : list Z; lc_proto : list Z; lc_cert : option (list Z) }.
Definition listen_default : ListenConfig := mkListen (ascii_bytes "0.0.0.0:53") (ascii_bytes "udp") None.

Record CacheJson := mkCacheJson {
  cj_hot_capacity : option Z; cj_warm_capacity : option Z; cj_cold_capacity : option Z; cj_nx_capacity : option Z;
  cj_stale_window_secs : option Z; cj_negative_ttl_cap : option Z; cj_max_ttl_cap : option Z;
  cj_prefetch_horizon_secs : option Z; cj_prefetch_target_freshness : option f64 }.
Definition cache_json_default : CacheJson := mkCacheJson None None None None None None None None None.

(** A port of zero stands for the protocol's. *)
Record ForwarderJson := mkForwarderJson {
  fj_ip : list Z; fj_port : Z; fj_proto : list Z; fj_host : option (list Z) }.

Record EngineJson := mkEngineJson {
  ej_root_servers : list (list Z); ej_timeout_ms : option Z; ej_query_budget_ms : option Z; ej_auth_port : option Z;
  ej_qname_minimization : option bool; ej_use_0x20 : option bool; ej_max_cname_depth : option Z; ej_dnssec : option bool;
  ej_tcp_fallback : option bool; ej_affinity_band_pct : option f64; ej_affinity_band_ms : option f64;
  ej_decorrelate_refresh : option bool; ej_forwarders : list ForwarderJson }.
Definition engine_json_default : EngineJson :=
  mkEngineJson [] None None None None None None None None None None None [].

Record PolicyJson := mkPolicyJson { pj_block : list (list Z) }.

Inductive HostValue := One (s : list Z) | Many (l : list (list Z)).
Definition host_values (v : HostValue) : list (list Z) := match v with One s => [s] | Many l => l end.

Record FallbackFilterJson := mkFallbackJson {
  ff_geoip : bool; ff_geoip_code : list (list Z); ff_ipcidr : option (list (list Z)); ff_domain : list (list Z) }.

(** The ordered maps are the lists of their entries, in order. *)
Record DnsJson := mkDnsJson {
  dj_enhanced_mode : option (list Z); dj_fake_ip_range : option (list Z); dj_fake_ip_range6 : option (list Z);
  dj_fake_ip_filter : option (list (list Z)); dj_fake_ip_ttl : option Z; dj_fake_ip_answer_ttl : option Z;
  dj_fake_ip_max_entries : option Z; dj_hosts : list (list Z * HostValue); dj_hosts_ttl : option Z;
  dj_nameservers : list (list Z); dj_fallback : list (list Z); dj_nameserver_policy : list (list Z * list (list Z));
  dj_fallback_filter : option FallbackFilterJson }.
Definition dns_json_default : DnsJson := mkDnsJson None None None None None None None [] None [] [] [] None.

Record PersistJson := mkPersistJson { pe_path : option (list Z); pe_save_interval_ms : Z; pe_frame_limit : Z }.
Definition persist_json_default : PersistJson := mkPersistJson None 60000 (32 * 1024 * 1024).

Record Config := mkConfig {
  c_listen : list ListenConfig; c_cache : CacheJson; c_engine : EngineJson; c_policy : PolicyJson; c_dns : DnsJson;
  c_client_qps : option f64; c_client_burst : option f64; c_maintenance_interval_ms : option Z; c_persist : option PersistJson }.
Definition config_default : Config :=
  mkConfig [listen_default] cache_json_default engine_json_default (mkPolicyJson []) dns_json_default None None None None.

(** ** Forwarders *)

Definition forwarder_proto (s : list Z) : option Proto :=
  if is_str s "udp" then Some Udp else if is_str s "tcp" then Some Tcp else if is_str s "dot" then Some Upstream.Tls
  else if is_str s "doh" then Some DoH else if is_str s "doh3" then Some DoH3 else if is_str s "doq" then Some DoQ
  else None.

Definition is_plain (p : Proto) : bool := match p with Udp | Tcp => true | _ => false end.

(** [ForwarderJson::endpoint] and [ForwarderJson::forwarder] *)
Definition json_endpoint (j : ForwarderJson) : result Error Endpoint :=
  ip ← ok_or (parse_ip (fj_ip j)) (Prelude.config "bad upstream ip");
  proto ← ok_or (forwarder_proto (fj_proto j)) (Prelude.config "unknown upstream proto");
  let port := if fj_port j =? 0
              then match proto with Upstream.Tls | DoQ | DoH3 => 853 | DoH => 443 | _ => 53 end
              else fj_port j in
  Ok (mkEndpoint ip port proto).

Definition json_forwarder (j : ForwarderJson) : result Error Forwarder :=
  ep ← json_endpoint j;
  if is_plain (ep_proto ep) then Ok (plain ep)
  else host ← ok_or (fj_host j) (Prelude.config "forwarder requires a host for TLS verification"); Ok (encrypted ep host).

(** ** Upstream lines *)

(** [authority.parse().ok().map(|ip| (ip, None))] *)
Definition bare (s : list Z) : option (IpAddr * option Z) := ip ← parse_ip s; Some (ip, None).

Definition parse_authority (authority : list Z) : option (IpAddr * option Z) :=
  let authority := trim authority in
  match read_given_char 91 authority with
  | Some rest =>
      '(host, tail) ← split_once 93 rest;
      port ← match tail with
             | [] => Some None
             | _ => t ← match read_given_char 58 tail with Some t => Some t | None => read_given_char 64 tail end;
                    p ← parse_u16 t; Some (Some p)
             end;
      ip ← parse_ip host; Some (ip, port)
  | None =>
      match rsplit_once 64 authority with
      | Some (host, port) => ip ← parse_ip host; p ← parse_u16 port; Some (ip, Some p)
      | None =>
          match rsplit_once 58 authority with
          | Some (host, port) =>
              match parse_ip host, parse_u16 port with
              | Some ip, Some p => Some (ip, Some p)
              | _, _ => bare authority
              end
          | None => bare authority
          end
      end
  end.

(** The default port of a scheme, and its transport. *)
Definition scheme_of (s : list Z) : option (Z * Proto) :=
  if is_str s "udp" then Some (53, Udp) else if is_str s "tcp" then Some (53, Tcp)
  else if is_str s "tls" then Some (853, Upstream.Tls) else if is_str s "quic" then Some (853, DoQ)
  else if is_str s "https" then Some (443, DoH) else if is_str s "h3" then Some (443, DoH3) else None.

Definition takes_path (p : Proto) : bool := match p with DoH | DoH3 => true | _ => false end.

(** The identity fragment, then the scheme, then the path. *)
Definition split_name (s : list Z) : list Z * option (list Z) :=
  match split_once 35 s with
  | Some (a, b) => (trim a, Some (trim b))
  | None => (trim s, None)
  end.
Definition split_scheme (rest : list Z) : list Z * list Z :=
  match split_once_str (ascii_bytes "://") rest with
  | Some (sch, r) => (map to_lower sch, r)
  | None => (ascii_bytes "udp", rest)
  end.
Definition split_path (proto : Proto) (rest : list Z) : result Error (list Z * option (list Z)) :=
  match split_once 47 rest with
  | Some (auth, p) =>
      _ ← reject_if (negb (takes_path proto)) (Prelude.config "the scheme takes no path"); Ok (auth, Some p)
  | None => Ok (rest, None)
  end.

Definition parse_upstream (s : list Z) : result Error Forwarder :=
  let '(rest, name) := split_name s in
  _ ← reject_if (zlen rest =? 0) (Prelude.config "empty upstream string");
  _ ← reject_if (match name with Some n => zlen n =? 0 | None => false end)
        (Prelude.config "upstream has an empty #name fragment; remove the # or name the TLS identity");
  let '(scheme, rest) := split_scheme rest in
  _ ← reject_if (zlen rest =? 0) (Prelude.config "upstream has no address");
  '(default_port, proto) ← ok_or (scheme_of scheme) (Prelude.config "unknown scheme");
  '(authority, path) ← split_path proto rest;
  '(ip, port) ← ok_or (parse_authority authority) (Prelude.config "the authority is not an IP literal");
  let port := default default_port port in
  _ ← reject_if (port =? 0) (Prelude.config "port 0 is not a port");
  let ep := mkEndpoint ip port proto in
  if is_plain proto then
    _ ← reject_if (bool_decide (is_Some name)) (Prelude.config "a plain upstream carries no TLS identity"); Ok (plain ep)
  else
    name ← ok_or name (Prelude.config "the encrypted transports need a TLS name to verify against");
    let f := encrypted ep name in
    Ok (match path with None | Some [] => f | Some p => forwarder_with_path f (47 :: p) end).

Definition parse_root (s : list Z) : option (IpAddr * Z) :=
  match parse_socket_addr s with
  | Some sa => Some sa
  | None => ip ← parse_ip s; Some (ip, 53)
  end.

Example upstream_lines :
  map (fun s => match parse_upstream (ascii_bytes s) with
                | Ok f => Some (endpoint f, host f, path f) | Err _ => None end)
    ["1.2.3.4"; "1.1.1.1@853"; " TLS://1.2.3.4#dns.example "; "h3://[::1]:8443/q#dns.example";
     "https://1.2.3.4/#dns.example"; "tls://1.2.3.4"; "udp://dns.example"; "quic://1.2.3.4/x#n"]%string =
  [Some (mkEndpoint (V4 0x01020304) 53 Udp, None, None); Some (mkEndpoint (V4 0x01010101) 853 Udp, None, None);
   Some (mkEndpoint (V4 0x01020304) 853 Upstream.Tls, Some (ascii_bytes "dns.example"), None);
   Some (mkEndpoint (V6 1) 8443 DoH3, Some (ascii_bytes "dns.example"), Some (ascii_bytes "/q"));
   Some (mkEndpoint (V4 0x01020304) 443 DoH, Some (ascii_bytes "dns.example"), None); None; None; None].
Proof. vm_compute. reflexivity. Qed.

(** The colon before the last group of an unbracketed address is read as the one before a
    port whenever the rest is an address by itself. *)
Example bare_ipv6_misread :
  let quad9 := ascii_bytes "2620:fe::fe:9" in
  parse_ip quad9 = Some (V6 0x262000fe000000000000000000fe0009) /\
  parse_upstream quad9 = Ok (plain (mkEndpoint (V6 0x262000fe0000000000000000000000fe) 9 Udp)).
Proof. split; vm_compute; reflexivity. Qed.

(** Two spellings of one server, and two default ports. *)
Example doh3_default_ports :
  json_forwarder (mkForwarderJson (ascii_bytes "1.1.1.1") 0 (ascii_bytes "doh3") (Some (ascii_bytes "n"))) =
    Ok (encrypted (mkEndpoint (V4 0x01010101) 853 DoH3) (ascii_bytes "n")) /\
  parse_upstream (ascii_bytes "h3://1.1.1.1#n") = Ok (encrypted (mkEndpoint (V4 0x01010101) 443 DoH3) (ascii_bytes "n")).
Proof. split; vm_compute; reflexivity. Qed.
Example roots_read :
  map (fun s => parse_root (ascii_bytes s)) ["198.41.0.4"; "198.41.0.4:5353"; "[::1%3]:53"; "::1"; "198.41.0.4:5x"; "198.41.0.4:65536"]%string
  = [Some (V4 0xc6290004, 53); Some (V4 0xc6290004, 5353); Some (V6 1, 53); Some (V6 1, 53); None; None].
Proof. vm_compute. reflexivity. Qed.

(** ** What the resolver is built from *)

(** A cache's configuration, with the fields its operations do not read. *)
Record CacheSettings := mkCacheSettings {
  cs_config : CacheConfig; cs_hazard : HazardConfig; cs_prefetch_horizon_secs : Z; cs_prefetch_target_freshness : f64;
  cs_prefetch_min_evidence_secs : f64; cs_refresh_scheduling : RefreshScheduling }.
Definition cache_settings_default : CacheSettings :=
  mkCacheSettings default_cache_config default_hazard_config 60 (dec 9 1) (f64_of 300) refresh_scheduling_default.

Record EngineSettings := mkEngineSettings {
  es_config : EngineConfig; es_decorrelate_refresh : bool; es_forwarders : list Forwarder }.
Definition engine_settings_default : EngineSettings := mkEngineSettings default_engine_config true [].

Record RateLimitConfig := mkRateLimit { rl_client_capacity : f64; rl_client_refill_per_sec : f64; rl_max_client_buckets : Z }.
Definition rate_limit_default : RateLimitConfig := mkRateLimit (f64_of 100) (f64_of 50) 65536.

Record PersistConfig := mkPersist { ps_path : list Z; ps_save_interval_ms : Z; ps_frame_limit : Z }.

Record ResolverConfig := mkResolverConfig {
  rc_cache : CacheSettings; rc_planner : PlannerConfig; rc_policy : PolicyConfig; rc_dns : DnsPolicy;
  rc_forward : ForwardPolicy Forwarder; rc_engine : EngineSettings; rc_rate_limit : RateLimitConfig; rc_max_inflight : Z;
  rc_maintenance_interval_ms : Z; rc_max_prefetch_per_tick : Z; rc_max_concurrent_refreshes : Z; rc_max_chain_refresh : Z;
  rc_stale_serve_ttl : Z; rc_persist : option PersistConfig }.

(** [hosts] and [fake_ip] of a [DnsPolicy] are those of [Front]; its rules, its filter and
    its groups are those of [Walk]. *)
Definition resolver_config_default : ResolverConfig :=
  mkResolverConfig cache_settings_default default_planner_config policy_default (mkDnsPolicy hosts_default None)
    (mkForward (mkPolicy []) fallback_default (mkGroups [] [] [])) engine_settings_default rate_limit_default
    4096 1000 64 8 4 30 None.

(** ** The sections *)

Definition into_cache (j : CacheJson) : CacheSettings :=
  let d := cache_settings_default in
  let dc := cs_config d in
  mkCacheSettings
    (mkCacheConfig (default (hot_capacity dc) (cj_hot_capacity j)) (default (warm_capacity dc) (cj_warm_capacity j))
       (default (cold_capacity dc) (cj_cold_capacity j)) (default (nx_capacity dc) (cj_nx_capacity j))
       (default (stale_window_secs dc) (cj_stale_window_secs j)) (default (negative_ttl_cap dc) (cj_negative_ttl_cap j))
       (default (max_ttl_cap dc) (cj_max_ttl_cap j)) (hot_admit_score dc) (warm_admit_score dc) (min_admit_score dc)
       (weights dc))
    (cs_hazard d) (default (cs_prefetch_horizon_secs d) (cj_prefetch_horizon_secs j))
    (default (cs_prefetch_target_freshness d) (cj_prefetch_target_freshness j))
    (cs_prefetch_min_evidence_secs d) (cs_refresh_scheduling d).

Definition name_of (s : list Z) : option Name := match from_ascii s with Ok n => Some n | Err _ => None end.

Definition into_policy (j : PolicyJson) : PolicyConfig :=
  let d := policy_default in
  mkPolicyConfig (map block_subtree (omap name_of (pj_block j))) (max_qname_labels d) (enforce_single_question d)
    (enforce_query_opcode d).

Definition into_persist (j : PersistJson) : option PersistConfig :=
  path ← pe_path j; Some (mkPersist path (pe_save_interval_ms j) (Z.max (pe_frame_limit j) 1024)).

Fixpoint insert_hosts (t : HostsTable) (l : list (list Z * HostValue)) : result Error HostsTable :=
  match l with
  | [] => Ok t
  | (name, value) :: l => t ← insert_from_config t name (host_values value); insert_hosts t l
  end.

Inductive Mode := ModeNormal | ModeFakeIp.
Definition mode_of (s : list Z) : option Mode :=
  if existsb (is_str s) [""; "normal"; "redir-host"]%string then Some ModeNormal
  else if existsb (is_str s) ["fake-ip"; "fakeip"; "fake_ip"]%string then Some ModeFakeIp else None.

Definition fake_ip_settings (d : DnsJson) : result Error (option FakeIpSettings) :=
  mode ← ok_or (mode_of (map to_lower (trim (default (ascii_bytes "normal") (dj_enhanced_mode d)))))
           (Prelude.config "dns.enhanced-mode is not a mode");
  match mode with
  | ModeNormal => Ok None
  | ModeFakeIp =>
      s ← settings_parse (default DEFAULT_FAKE_IP_RANGE (dj_fake_ip_range d)) (dj_fake_ip_range6 d) (dj_fake_ip_filter d)
            (default DEFAULT_FAKE_IP_TTL_SECS (dj_fake_ip_ttl d)) (default DEFAULT_FAKE_IP_MAX_ENTRIES (dj_fake_ip_max_entries d));
      Ok (Some (match dj_fake_ip_answer_ttl d with Some t => with_answer_ttl s t | None => s end))
  end.

Definition fallback_of (f : option FallbackFilterJson) : result Error FallbackFilter :=
  match f with
  | Some f =>
      _ ← reject_if (negb (zlen (ff_geoip_code f) =? 0)) (Prelude.config "dns.fallback-filter.geoipCode has no effect");
      fallback_new (ff_domain f) (ff_ipcidr f) (ff_geoip f)
  | None => Ok fallback_default
  end.

(** The loop over [nameserver_policy]: the rules and the groups they name. *)
Fixpoint policy_groups (l : list (list Z * list (list Z))) (rules : list (list Z * Z)) (extra : list (list Forwarder))
    : result Error (list (list Z * Z) * list (list Forwarder)) :=
  match l with
  | [] => Ok (rules, extra)
  | (pattern, servers) :: l =>
      _ ← reject_if (zlen servers =? 0) (Prelude.config "dns.nameserver-policy entry lists no servers");
      group ← collect parse_upstream servers;
      policy_groups l (rules ++ [(pattern, 2 + zlen extra)]) (extra ++ [group])
  end.

Definition build_dns_policy (c : Config) : result Error (DnsPolicy * ForwardPolicy Forwarder) :=
  let dns := c_dns c in
  _ ← reject_if (negb (zlen (dj_nameservers dns) =? 0) && negb (zlen (ej_forwarders (c_engine c)) =? 0))
        (Prelude.config "set either `dns.nameservers` or `engine.forwarders`, not both: they are the same setting in two spellings, and one would be ignored");
  hosts ← insert_hosts (hosts_new (default DEFAULT_HOSTS_TTL (dj_hosts_ttl dns))) (dj_hosts dns);
  fake_ip ← fake_ip_settings dns;
  filter ← fallback_of (dj_fallback_filter dns);
  servers ← (if zlen (dj_nameservers dns) =? 0 then collect json_forwarder (ej_forwarders (c_engine c))
             else collect parse_upstream (dj_nameservers dns));
  fallback ← collect parse_upstream (dj_fallback dns);
  '(rules, extra) ← policy_groups (dj_nameserver_policy dns) [] [];
  policy ← policy_new rules;
  Ok (mkDnsPolicy hosts fake_ip, mkForward policy filter (mkGroups servers fallback extra)).

(** [EngineConfig] before its forwarders. *)
Definition engine_of (dnssec_feature : bool) (j : EngineJson) : EngineConfig :=
  let d := default_engine_config in
  mkEngineConfig (omap parse_root (ej_root_servers j)) (default (timeout_ms d) (ej_timeout_ms j))
    (default (query_budget_ms d) (ej_query_budget_ms j)) (default (auth_port d) (ej_auth_port j))
    (max_attempts_per_server d) (default (qname_minimization d) (ej_qname_minimization j))
    (default (use_0x20 d) (ej_use_0x20 j)) (default (max_cname_depth d) (ej_max_cname_depth j)) (max_referrals d)
    (edns_udp_size d) (default (cfg_dnssec d) (ej_dnssec j) && dnssec_feature) (dnssec_anchored d) (fetch_limits d)
    (default (tcp_fallback d) (ej_tcp_fallback j)) (retransmit_budget d) (max_ns_depth d) (max_servers_tried d)
    (mkBand (default (percent (affinity_band d)) (ej_affinity_band_pct j))
       (default (absolute_ms (affinity_band d)) (ej_affinity_band_ms j)))
    (max_total_attempts d).

Definition into_resolver_config (dnssec_feature : bool) (c : Config) : result Error ResolverConfig :=
  let d := resolver_config_default in
  let engine := c_engine c in
  forwarders ← collect json_forwarder (ej_forwarders engine);
  let client_burst := default (rl_client_capacity (rc_rate_limit d)) (c_client_burst c) in
  let client_qps := default (rl_client_refill_per_sec (rc_rate_limit d)) (c_client_qps c) in
  '(dns, forward) ← build_dns_policy c;
  Ok (mkResolverConfig (into_cache (c_cache c)) default_planner_config (into_policy (c_policy c)) dns forward
        (mkEngineSettings (engine_of dnssec_feature engine)
           (default (es_decorrelate_refresh (rc_engine d)) (ej_decorrelate_refresh engine)) forwarders)
        (mkRateLimit (f64_max client_burst (f64_of 1)) (f64_max client_qps (f64_of 0))
           (rl_max_client_buckets (rc_rate_limit d)))
        (rc_max_inflight d) (default (rc_maintenance_interval_ms d) (c_maintenance_interval_ms c))
        (rc_max_prefetch_per_tick d) (rc_max_concurrent_refreshes d) (rc_max_chain_refresh d) (rc_stale_serve_ttl d)
        (p ← c_persist c; into_persist p)).

Example default_document : into_resolver_config true config_default = Ok resolver_config_default.
Proof. vm_compute. reflexivity. Qed.

(** ** Record types by name *)

Definition type_words : list (string * RrType) :=
  [("A"%string, RrTypes.A); ("AAAA"%string, RrTypes.AAAA); ("CNAME"%string, RrTypes.CNAME); ("MX"%string, RrTypes.MX);
   ("NS"%string, RrTypes.NS); ("TXT"%string, RrTypes.TXT); ("SOA"%string, RrTypes.SOA); ("PTR"%string, RrTypes.PTR);
   ("SRV"%string, RrTypes.SRV); ("CAA"%string, RrTypes.CAA); ("HTTPS"%string, RrTypes.HTTPS); ("SVCB"%string, RrTypes.SVCB);
   ("DS"%string, RrTypes.DS); ("DNSKEY"%string, RrTypes.DNSKEY); ("TLSA"%string, RrTypes.TLSA); ("ANY"%string, RrTypes.ANY)].

(** [trim_start_matches]: every leading copy. *)
Definition trim_start_matches (p s : list Z) : list Z := trim_with [p] (length s) s.

Definition parse_rr_type (s : list Z) : option RrType :=
  let up := map to_upper s in
  match List.find (fun w => is_str up w.1) type_words with
  | Some (_, t) => Some t
  | None => parse_u16 (trim_start_matches (ascii_bytes "TYPE") up)
  end.

Example types_read :
  map (fun s => parse_rr_type (ascii_bytes s)) ["A"; "https"; "TYPE1234"; "NOPE"; "28"; "TYPETYPE28"; "TYPE+1"; "NSEC"]%string
  = [Some 1; Some 65; Some 1234; None; Some 28; Some 28; Some 1; None].
Proof. vm_compute. reflexivity. Qed.

(** ** Lemmas *)

Lemma collect_Ok {A B} (f : A -> result Error B) l k : collect f l = Ok k <-> Forall2 (fun x y => f x = Ok y) l k.
Proof.
  revert k. induction l as [|x l IH]; intros k; cbn [collect].
  - split; [intros [= <-]; constructor|by inversion 1].
  - rewrite bind_Ok. split.
    + intros (y & Hy & (ys & Hys%IH & [= <-])%bind_Ok). by constructor.
    + inversion 1 as [|? y ? ys Hy Hys]; subst. exists y. split; [done|]. apply bind_Ok. exists ys. split; [by apply IH|done].
Qed.

Lemma Forall2_nil_iff {A B} (P : A -> B -> Prop) l k : Forall2 P l k -> l = [] <-> k = [].
Proof. by destruct 1. Qed.

Lemma zlen_nil_iff {A} (l : list A) : (zlen l =? 0) = true <-> l = [].
Proof. destruct l; [done|]. rewrite zlen_cons. split; [|done]. intros H. bools. pose proof (zlen_nonneg l). lia. Qed.

(** What [policy_groups] adds: a rule and a group for each entry, numbered from [2]. *)
Lemma policy_groups_Ok l rules extra rules' extra' : policy_groups l rules extra = Ok (rules', extra') <->
  exists gs, Forall2 (fun e g => e.2 <> [] /\ collect parse_upstream e.2 = Ok g) l gs /\ extra' = extra ++ gs /\
    rules' = rules ++ imap (fun i e => (e.1, 2 + zlen extra + Z.of_nat i)) l.
Proof.
  revert rules extra. induction l as [|[p ts] l IH]; intros rules extra; cbn [policy_groups].
  - split; [intros [= <- <-]; exists []; by rewrite !app_nil_r|]. intros (gs & H & -> & ->). inversion H; subst. by rewrite !app_nil_r.
  - rewrite reject_bind. split.
    + intros (Hz & (g & Hg & (gs & Hgs & -> & ->)%IH)%bind_Ok). exists (g :: gs). split; [|split].
      * constructor; [|done]. split; [|done]. cbn [snd]. intros ->. done.
      * by rewrite <- app_assoc.
      * rewrite <- app_assoc. cbn [imap app]. do 2 f_equal; [f_equal; lia|]. apply imap_ext. intros i x _. cbn. f_equal. rewrite zlen_app. change (zlen [g]) with 1. lia.
    + intros (gs & H & -> & ->). inversion H as [|? g ? gs' [Hn Hg] Hgs]; subst. cbn [snd] in *. split.
      * destruct (zlen ts =? 0) eqn:E; [|done]. by apply zlen_nil_iff in E.
      * apply bind_Ok. exists g. split; [done|]. apply IH. exists gs'. split; [done|]. rewrite <- !app_assoc. split; [done|].
        cbn [imap app]. do 2 f_equal; [f_equal; lia|]. apply imap_ext. intros i x _. cbn. f_equal. rewrite zlen_app. change (zlen [g]) with 1. lia.
Qed.

(** The rules a configuration's routes come from. *)
Lemma parse_rules_Ok l parsed : parse_rules l = Ok parsed ->
  Forall2 (fun e r => pattern_parse e.1 = Ok r.1 /\ e.2 = r.2) l parsed.
Proof.
  revert parsed. induction l as [|[t g] l IH]; intros parsed; cbn [parse_rules].
  - intros [= <-]. constructor.
  - intros (p & Hp & (_ & (rest & Hr & [= <-])%bind_Ok)%reject_bind)%map_err_bind. constructor; [done|by apply IH].
Qed.

(** The entries of [nameserver-policy] whose pattern matches a name. *)
Definition entry_matches (n : Name) (e : list Z * list (list Z)) (pat : DomainPattern) : Prop :=
  pattern_parse e.1 = Ok pat /\ pattern_matches pat n = true.

Lemma rules_of_entries (l : list (list Z * list (list Z))) gs parsed :
  Forall2 (fun e g => e.2 <> [] /\ collect parse_upstream e.2 = Ok g) l gs ->
  parse_rules (imap (fun i e => (e.1, 2 + zlen (@nil (list Forwarder)) + Z.of_nat i)) l) = Ok parsed ->
  (forall e, In e l -> exists r, In r parsed /\ pattern_parse e.1 = Ok r.1) /\
  (forall r, In r parsed -> exists e g, In e l /\ pattern_parse e.1 = Ok r.1 /\ e.2 <> [] /\
     Forall2 (fun t f => parse_upstream t = Ok f) e.2 g /\ 2 <= r.2 /\ get gs (r.2 - 2) = Some g).
Proof.
  intros Hg Hp%parse_rules_Ok. split.
  - intros e (i & Hi)%list_elem_of_In%list_elem_of_lookup.
    destruct (Forall2_lookup_l _ _ _ i (e.1, 2 + zlen (@nil (list Forwarder)) + Z.of_nat i) Hp) as (r & Hr & Hm & _).
    { by rewrite list_lookup_imap, Hi. }
    exists r. split; [|done]. apply list_elem_of_In. by eapply list_elem_of_lookup_2.
  - intros r (i & Hi)%list_elem_of_In%list_elem_of_lookup.
    destruct (Forall2_lookup_r _ _ _ i r Hp Hi) as (x & Hx & Hm & Hn).
    rewrite list_lookup_imap in Hx. destruct (l !! i) as [e|] eqn:Ee; [|done]. injection Hx as <-. cbn [fst snd] in *.
    destruct (Forall2_lookup_l _ _ _ i e Hg Ee) as (g & Eg & Hne & Hc%collect_Ok).
    exists e, g. split; [apply list_elem_of_In; by eapply list_elem_of_lookup_2|]. split; [done|]. split; [done|]. split; [done|].
    rewrite zlen_nil in Hn. split; [lia|]. rewrite <- Hn.
    replace (2 + 0 + Z.of_nat i - 2) with (Z.of_nat i) by lia. unfold get. decide_ifs. by rewrite Nat2Z.id.
Qed.

Definition listed (texts : list (list Z)) (fs : list Forwarder) : Prop := Forall2 (fun t f => parse_upstream t = Ok f) texts fs.

(** The servers of the default group, in either spelling. *)
Definition default_servers (c : Config) (fs : list Forwarder) : Prop :=
  match dj_nameservers (c_dns c) with
  | [] => Forall2 (fun j f => json_forwarder j = Ok f) (ej_forwarders (c_engine c)) fs
  | l => listed l fs
  end.

Lemma build_dns_policy_Ok c p fw : build_dns_policy c = Ok (p, fw) ->
  (dj_nameservers (c_dns c) = [] \/ ej_forwarders (c_engine c) = []) /\
  fallback_of (dj_fallback_filter (c_dns c)) = Ok (fp_fallback fw) /\
  default_servers c (g_default (fp_groups fw)) /\ listed (dj_fallback (c_dns c)) (g_fallback (fp_groups fw)) /\
  exists rules, policy_groups (dj_nameserver_policy (c_dns c)) [] [] = Ok (rules, g_extra (fp_groups fw)) /\
    policy_new rules = Ok (fp_policy fw).
Proof.
  unfold build_dns_policy. cbv zeta. intros (Hb & H)%reject_bind.
  apply bind_Ok in H as (hosts & Hh & (fake & Hf & (filter & Hl & (servers & Hs & (fallback & Hc%collect_Ok & H)%bind_Ok)%bind_Ok)%bind_Ok)%bind_Ok).
  apply bind_Ok in H as ([rules extra] & Hr & (policy & Hp & [= <- <-])%bind_Ok). cbn [fp_fallback fp_groups fp_policy g_default g_fallback g_extra].
  split; [|split; [done|split; [|split; [done|by exists rules]]]].
  - apply andb_false_iff in Hb as [Hb|Hb]; apply negb_false_iff, zlen_nil_iff in Hb; auto.
  - unfold default_servers. destruct (dj_nameservers (c_dns c)) as [|t l] eqn:E.
    + cbn in Hs. by apply collect_Ok.
    + destruct (zlen (t :: l) =? 0) eqn:Z; [by apply zlen_nil_iff in Z|]. by apply collect_Ok.
Qed.

(** What the rules of an accepted document send a name to. *)
Lemma configured_rules (l : list (list Z * list (list Z))) rules extra policy (n : Name) :
  policy_groups l [] [] = Ok (rules, extra) -> policy_new rules = Ok policy ->
  match route policy n with
  | Default => forall e pat, In e l -> ~ entry_matches n e pat
  | Group g => exists e pat fs, In e l /\ entry_matches n e pat /\ listed e.2 fs /\ fs <> [] /\ 2 <= g /\ get extra (g - 2) = Some fs /\
      forall e' pat', In e' l -> entry_matches n e' pat' -> specificity_ge pat pat' = true
  end.
Proof.
  intros (gs & Hg & -> & ->)%policy_groups_Ok Hp. destruct (policy_new_rules _ _ Hp) as (parsed & Hr & _ & _).
  destruct (proj1 route_most_specific _ _ parsed n Hp Hr) as [Hd Hs]. rewrite !app_nil_l in Hr.
  destruct (rules_of_entries _ _ _ Hg Hr) as [Hto Hfrom]. rewrite app_nil_l. destruct (route policy n) as [g|] eqn:E.
  - destruct (Hs g eq_refl) as (pat & Hi & Hm & Hmax). destruct (Hfrom _ Hi) as (e & fs & He & Hpat & Hne & Hl & Hg2 & Hget).
    exists e, pat, fs. split; [done|]. split; [done|]. split; [done|]. split; [by rewrite <- (Forall2_nil_iff _ _ _ Hl)|].
    split; [done|]. split; [done|]. intros e' pat' He' [Hp' Hm']. destruct (Hto e' He') as (r & Hri & Hrp).
    assert (r.1 = pat') as <- by congruence. by apply Hmax.
  - intros e pat He [Hpat Hm]. destruct (Hto e He) as (r & Hri & Hrp). assert (r.1 = pat) as <- by congruence.
    rewrite (proj1 Hd eq_refl r Hri) in Hm. done.
Qed.

(** C28: where a configured name goes.  In a document that is accepted, a name the
    fallback filter lists is asked of the servers of [fallback]; any other name is asked of
    the servers its most specific [nameserver-policy] entry lists, read from that entry's
    own lines; a name no entry matches is asked of the default servers, in whichever of the
    two spellings gives them, and is resolved by iteration only when neither does.  The
    servers a rule names exist: no group is empty. *)
Theorem configured_route c p fw n : build_dns_policy c = Ok (p, fw) ->
  let dns := c_dns c in
  let unruled := forall e pat, In e (dj_nameserver_policy dns) -> ~ entry_matches n e pat in
  let forced := forces_fallback (fp_fallback fw) n = true /\ dj_fallback dns <> [] in
  match forward_route fw n with
  | None => ~ forced /\ unruled /\ dj_nameservers dns = [] /\ ej_forwarders (c_engine c) = []
  | Some fs => fs <> [] /\
      (forced /\ listed (dj_fallback dns) fs \/
       ~ forced /\ unruled /\ default_servers c fs \/
       ~ forced /\ exists e pat, In e (dj_nameserver_policy dns) /\ entry_matches n e pat /\ listed e.2 fs /\
         forall e' pat', In e' (dj_nameserver_policy dns) -> entry_matches n e' pat' -> specificity_ge pat pat' = true)
  end.
Proof.
  intros (Hx & _ & Hd & Hf & rules & Hr & Hp)%build_dns_policy_Ok. cbv zeta. unfold forward_route.
  assert (has_fallback (fp_groups fw) = true <-> dj_fallback (c_dns c) <> []) as Hb.
  { unfold has_fallback. rewrite negb_true_iff, <- not_true_iff_false, zlen_nil_iff. by rewrite <- (Forall2_nil_iff _ _ _ Hf). }
  destruct (forces_fallback (fp_fallback fw) n && has_fallback (fp_groups fw)) eqn:E.
  { apply andb_true_iff in E as [E1 E2%Hb]. split; [by rewrite <- (Forall2_nil_iff _ _ _ Hf)|]. left. done. }
  assert (~ (forces_fallback (fp_fallback fw) n = true /\ dj_fallback (c_dns c) <> [])) as Hn.
  { intros [E1 E2%Hb]. by rewrite E1, E2 in E. }
  pose proof (configured_rules _ _ _ _ n Hr Hp) as K. destruct (route (fp_policy fw) n) as [g|].
  - destruct K as (e & pat & fs & He & Hm & Hl & Hne & Hg & Hget & Hmax). unfold groups_get. decide_ifs. rewrite Hget.
    destruct fs as [|f fs]; [done|]. split; [done|]. right. right. split; [done|]. by exists e, pat.
  - unfold default_servers in *. destruct (g_default (fp_groups fw)) as [|f fs] eqn:Eg.
    + split; [done|]. split; [done|].
      destruct (dj_nameservers (c_dns c)); [|by inversion Hd]. split; [done|]. by apply (Forall2_nil_iff _ _ _ Hd).
    + split; [done|]. right. left. done.
Qed.

(** ** The characters of addresses and ports *)

Definition v4_char (b : Z) : bool := is_ascii_digit b || (b =? 46).
Definition ip_char (b : Z) : bool := bool_decide (is_Some (to_digit 16 b)) || (b =? 46) || (b =? 58).

(** What a reader leaves is a tail of what it was given, past characters of [P]. *)
Definition past (P : Z -> bool) (s rest : list Z) : Prop := exists ds, s = ds ++ rest /\ forallb P ds = true.

Lemma past_refl P s : past P s s.
Proof. by exists []. Qed.
Lemma past_trans P s t u : past P s t -> past P t u -> past P s u.
Proof. intros (a & -> & Ha) (b & -> & Hb). exists (a ++ b). rewrite forallb_app, Ha, Hb, app_assoc. done. Qed.
Lemma past_cons (P : Z -> bool) c s rest : P c = true -> past P s rest -> past P (c :: s) rest.
Proof. intros Hc (a & -> & Ha). exists (c :: a). cbn. by rewrite Hc. Qed.
Lemma past_nil P s : past P s [] -> forallb P s = true.
Proof. intros (a & -> & Ha). by rewrite app_nil_r. Qed.

Lemma to_digit_10 c d : to_digit 10 c = Some d -> is_ascii_digit c = true.
Proof. unfold to_digit. destruct (is_ascii_digit c) eqn:E; [done|]. repeat case_match; bools; done || lia. Qed.
Lemma digit_ip_char c : is_ascii_digit c = true -> ip_char c = true.
Proof.
  intros H. unfold ip_char, to_digit. rewrite H. unfold is_ascii_digit in H. bools. decide_ifs.
  by rewrite bool_decide_true by eauto.
Qed.
Lemma v4_ip_char c : v4_char c = true -> ip_char c = true.
Proof. unfold v4_char. intros [H|H]%orb_true_iff; [by apply digit_ip_char|]. bools. by subst. Qed.
Lemma ip_char_graphic c : ip_char c = true -> graphic c = true /\ c <> 35 /\ c <> 47 /\ c <> 64 /\ c <> 91 /\ c <> 93.
Proof.
  unfold ip_char, graphic. intros [[H|H]%orb_true_iff|H]%orb_true_iff; [|bools; lia|bools; lia].
  apply bool_decide_eq_true in H as [d H]. unfold to_digit, is_ascii_digit in H. repeat case_match; bools; done || lia.
Qed.

Lemma forallb_weaken {A} (P Q : A -> bool) l : (forall c, P c = true -> Q c = true) -> forallb P l = true -> forallb Q l = true.
Proof. intros H. rewrite !forallb_forall. auto. Qed.

Lemma past_weaken (P Q : Z -> bool) s rest : (forall c, P c = true -> Q c = true) -> past P s rest -> past Q s rest.
Proof. intros H (a & -> & Ha). exists a. split; [done|]. by eapply forallb_weaken, Ha. Qed.

Lemma read_digits_past (P : Z -> bool) radix max s acc n v m rest :
  (forall c d, to_digit radix c = Some d -> P c = true) ->
  read_digits radix max s acc n = Some (v, m, rest) -> past P s rest.
Proof.
  intros HP. revert acc n. induction s as [|c s IH]; cbn [read_digits]; intros acc n.
  - intros [= _ _ <-]. apply past_refl.
  - destruct (to_digit radix c) as [d|] eqn:E; [|intros [= _ _ <-]; apply past_refl].
    destruct (max <? n + 1); [done|]. intros H%IH. apply past_cons; [by eapply HP|done].
Qed.

Lemma read_number_past (P : Z -> bool) radix max bound zp s v rest :
  (forall c d, to_digit radix c = Some d -> P c = true) ->
  read_number radix max bound zp s = Some (v, rest) -> past P s rest.
Proof.
  intros HP. unfold read_number. destruct (read_digits _ _ _ _ _) as [[[v' n] r]|] eqn:E; [|done].
  destruct (_ || _)%bool; [done|]. intros [= _ <-]. by eapply read_digits_past.
Qed.

Lemma read_given_char_past (P : Z -> bool) c s rest : P c = true -> read_given_char c s = Some rest -> past P s rest.
Proof.
  intros Hc. destruct s as [|x s]; cbn; [done|]. destruct (x =? c) eqn:E; [|done]. intros [= <-]. bools. subst.
  apply past_cons; [done|apply past_refl].
Qed.

Lemma read_separator_past {A} (P : Z -> bool) sep i (f : list Z -> option (A * list Z)) s a rest : P sep = true ->
  (forall s, f s = Some (a, rest) -> past P s rest) -> read_separator sep i f s = Some (a, rest) -> past P s rest.
Proof.
  intros Hs Hf. unfold read_separator. destruct (0 <? i); [|by apply Hf].
  intros (t & Ht & H%Hf)%bind_Some. apply (read_given_char_past P) in Ht; [|done]. by eapply past_trans.
Qed.

Lemma read_ipv4_past s a rest : read_ipv4_addr s = Some (a, rest) -> past v4_char s rest.
Proof.
  unfold read_ipv4_addr. cbv zeta.
  assert (forall i s v rest, read_separator 46 i (read_number 10 3 u8_max false) s = Some (v, rest) -> past v4_char s rest) as K.
  { intros i s0 v r. apply read_separator_past; [done|]. intros t. apply read_number_past.
    intros c d H%to_digit_10. unfold v4_char. by rewrite H. }
  intros ([x1 r1] & H1%K & ([x2 r2] & H2%K & ([x3 r3] & H3%K & ([x4 r4] & H4%K & [= _ <-])%bind_Some)%bind_Some)%bind_Some)%bind_Some.
  eauto using past_trans.
Qed.

Lemma read_groups_past n i limit s gs quad rest : read_groups n i limit s = (gs, quad, rest) -> past ip_char s rest.
Proof.
  revert i s gs quad rest. induction n as [|n IH]; intros i s gs quad rest; cbn [read_groups].
  { intros [= _ _ <-]. apply past_refl. }
  destruct (if i <? limit - 1 then _ else None) as [[v4 r]|] eqn:E.
  - destruct (i <? limit - 1); [|done]. intros [= _ _ <-]. revert E. apply read_separator_past; [done|].
    intros t H%read_ipv4_past. by eapply past_weaken, H; apply v4_ip_char.
  - clear E. destruct (read_separator 58 i (read_number 16 4 u16_max true) s) as [[g r]|] eqn:E2.
    2: { intros [= _ _ <-]. apply past_refl. }
    destruct (read_groups n (i + 1) limit r) as [[gs' q'] r'] eqn:E3. intros [= _ _ <-].
    apply IH in E3. eapply past_trans, E3. revert E2. apply read_separator_past; [done|]. intros t. apply read_number_past.
    intros c d H. unfold ip_char. by rewrite bool_decide_true by eauto.
Qed.

Lemma read_ipv6_past s a rest : read_ipv6_addr s = Some (a, rest) -> past ip_char s rest.
Proof.
  unfold read_ipv6_addr. destruct (read_groups 8 0 8 s) as [[hd q] r] eqn:E. apply read_groups_past in E.
  destruct (zlen hd =? 8); [by intros [= _ <-]|]. destruct q; [done|].
  intros (r1 & H1 & (r2 & H2 & H)%bind_Some)%bind_Some. apply (read_given_char_past ip_char) in H1, H2; [|done..].
  destruct (read_groups _ 0 _ r2) as [[tl' q'] r'] eqn:E2. apply read_groups_past in E2. injection H as _ <-.
  eauto using past_trans.
Qed.

(** The texts of addresses, and their values. *)
Lemma parse_ip_text s ip : parse_ip s = Some ip ->
  ip_ok ip /\ forallb (match ip with V4 _ => v4_char | V6 _ => ip_char end) s = true.
Proof.
  unfold parse_ip. destruct (read_ipv4_addr s) as [[a rest]|] eqn:E.
  - destruct rest; [|done]. intros [= <-]. split; [by eapply read_ipv4_range|]. by apply read_ipv4_past, past_nil in E.
  - destruct (read_ipv6_addr s) as [[a [|]]|] eqn:E6; [|done..]. intros [= <-]. split.
    + apply (parse_v6_range s). unfold parse_v6. by rewrite E6.
    + by apply read_ipv6_past, past_nil in E6.
Qed.

Definition port_char (b : Z) : bool := is_ascii_digit b || (b =? 43).

Lemma parse_u16_text s v : parse_u16 s = Some v -> 0 <= v <= u16_max /\ forallb port_char s = true.
Proof.
  unfold parse_u16, decimal. intros (w & Hw & H)%bind_Some. destruct (w <=? u16_max) eqn:Ew; [|done]. injection H as <-.
  set (digits := match s with 43 :: s' => s' | _ => s end) in *. destruct (_ || _)%bool eqn:E; [done|]. bools. injection Hw as <-.
  split; [split; [by apply digits_nonneg|done]|].
  assert (forallb port_char digits = true) as K.
  { eapply forallb_weaken, H0. intros c Hc. unfold port_char. by rewrite Hc. }
  unfold digits in K. clear -K. by repeat case_match; simplify_eq/=.
Qed.

(** ** Splitting *)

Lemma split_once_None c s : ~ In c s -> split_once c s = None.
Proof.
  induction s as [|x s IH]; intros H; cbn; [done|]. rewrite (proj2 (Z.eqb_neq x c)) by (intros ->; apply H; by left).
  rewrite IH; [done|]. intros K. apply H. by right.
Qed.

Lemma rsplit_once_app c a b : ~ In c b -> rsplit_once c (a ++ c :: b) = Some (a, b).
Proof.
  intros H. unfold rsplit_once. rewrite rev_app_distr. cbn [rev]. rewrite <- app_assoc. cbn [app].
  rewrite split_once_app by (by rewrite <- in_rev). cbn. by rewrite !rev_involutive.
Qed.
Lemma rsplit_once_None c s : ~ In c s -> rsplit_once c s = None.
Proof. intros H. unfold rsplit_once. by rewrite split_once_None by (by rewrite <- in_rev). Qed.

Lemma strip_prefix_app p s : strip_prefix p (p ++ s) = Some s.
Proof. induction p as [|x p IH]; cbn; [done|]. by rewrite Z.eqb_refl. Qed.
Lemma strip_prefix_In p s t : strip_prefix p s = Some t -> forall x, In x p -> In x s.
Proof.
  revert s. induction p as [|y p IH]; intros s; [done|]. destruct s as [|z s]; cbn; [done|].
  destruct (y =? z) eqn:E; [|done]. bools. subst. intros H x [->|Hx]; [by left|right; by eapply IH].
Qed.

Lemma split_once_str_app c sep a b : ~ In c a -> split_once_str (c :: sep) (a ++ c :: sep ++ b) = Some (a, b).
Proof.
  intros Hn. induction a as [|x a IH].
  - cbn [app split_once_str strip_prefix]. by rewrite Z.eqb_refl, strip_prefix_app.
  - cbn [app split_once_str strip_prefix]. rewrite (proj2 (Z.eqb_neq c x)) by (intros ->; apply Hn; by left).
    rewrite IH; [done|]. intros K. apply Hn. by right.
Qed.
Lemma split_once_str_None x sep s : In x sep -> ~ In x s -> split_once_str sep s = None.
Proof.
  intros Hx. induction s as [|y s IH]; intros H; cbn [split_once_str].
  - destruct (strip_prefix sep []) eqn:E; [|done]. by eapply strip_prefix_In in E.
  - destruct (strip_prefix sep (y :: s)) eqn:E; [by eapply strip_prefix_In in E|].
    rewrite IH; [done|]. intros K. apply H. by right.
Qed.

Lemma forallb_notin (P : Z -> bool) c s : P c = false -> forallb P s = true -> ~ In c s.
Proof. rewrite forallb_forall. intros Hc H Hi%H. congruence. Qed.

Lemma read_given_char_None c s : ~ In c s -> read_given_char c s = None.
Proof. destruct s as [|x s]; cbn; [done|]. intros H. rewrite (proj2 (Z.eqb_neq x c)); [done|]. intros ->. apply H. by left. Qed.

(** ** A line as it is documented *)

Definition host_text (ip : IpAddr) (t : list Z) : list Z := match ip with V4 _ => t | V6 _ => 91 :: t ++ [93] end.

(** A port's mark, [@] or a colon, and its digits. *)
Definition port_text (p : option (bool * list Z)) : list Z :=
  match p with Some (at_sign, d) => (if at_sign then 64 else 58) :: d | None => [] end.

Definition auth_char (b : Z) : bool := ip_char b || port_char b || (b =? 64) || (b =? 91) || (b =? 93).

Lemma auth_graphic b : auth_char b = true -> graphic b = true /\ b <> 35 /\ b <> 47.
Proof.
  unfold auth_char. intros [[[[H|H]%orb_true_iff|H]%orb_true_iff|H]%orb_true_iff|H]%orb_true_iff.
  - by destruct (ip_char_graphic b H) as (? & ? & ? & _).
  - unfold port_char, is_ascii_digit, graphic in *. apply orb_true_iff in H as [H|H]; bools; lia.
  - unfold graphic. bools. lia.
  - unfold graphic. bools. lia.
  - unfold graphic. bools. lia.
Qed.

Lemma host_port_text ip t p : parse_ip t = Some ip -> (forall m d, p = Some (m, d) -> exists v, parse_u16 d = Some v) ->
  forallb auth_char (host_text ip t ++ port_text p) = true.
Proof.
  intros [_ Hi]%parse_ip_text Hp. assert (forallb auth_char t = true) as Ht.
  { eapply forallb_weaken, Hi. intros c. destruct ip; intros H; unfold auth_char; [apply v4_ip_char in H|]; by rewrite H. }
  rewrite forallb_app. apply andb_true_iff. split.
  - destruct ip; cbn; [done|]. by rewrite forallb_app, Ht.
  - destruct p as [[m d]|]; cbn [port_text]; [|done]. destruct (Hp m d eq_refl) as (v & [_ Hd]%parse_u16_text).
    cbn [forallb]. apply andb_true_iff. split; [by destruct m|]. eapply forallb_weaken, Hd. intros c H. unfold auth_char.
    by rewrite H, orb_true_r.
Qed.

Lemma parse_authority_text ip t p : parse_ip t = Some ip -> (forall m d, p = Some (m, d) -> exists v, parse_u16 d = Some v) ->
  parse_authority (host_text ip t ++ port_text p) = Some (ip, md ← p; parse_u16 md.2).
Proof.
  intros Hi Hp. pose proof (host_port_text ip t p Hi Hp) as Ha. unfold parse_authority.
  rewrite trim_graphic by (eapply forallb_weaken, Ha; apply auth_graphic). destruct (parse_ip_text _ _ Hi) as [_ Hc].
  assert (forall m d, p = Some (m, d) -> forallb port_char d = true) as Hd.
  { intros m d E. destruct (Hp m d E) as (v & [_ H]%parse_u16_text). done. }
  destruct ip as [a|a]; cbn [host_text].
  - assert (forall c m d, p = Some (m, d) -> port_char c = false -> ~ In c d) as Hn by (intros c m d E Ec; eapply forallb_notin, Hd, E; done).
    assert (forall c, v4_char c = false -> ~ In c t) as Ht by (intros c Ec; by eapply forallb_notin).
    rewrite read_given_char_None.
    2: { intros [H|H]%in_app_or; [by eapply Ht in H|]. destruct p as [[m d]|]; cbn in H; [|done].
         destruct H as [H|H]; [by destruct m|]. by eapply Hn in H. }
    destruct p as [[[] d]|]; cbn [port_text].
    + rewrite rsplit_once_app by (by eapply Hn). rewrite Hi. cbn. by destruct (Hp true d eq_refl) as (v & ->).
    + rewrite rsplit_once_None by (intros [H|[H|H]]%in_app_or; [by eapply Ht in H|done|by eapply Hn in H]).
      rewrite rsplit_once_app by (by eapply Hn). rewrite Hi. cbn. by destruct (Hp false d eq_refl) as (v & ->).
    + rewrite app_nil_r, !rsplit_once_None by (by apply Ht). unfold bare. by rewrite Hi.
  - cbn [app read_given_char]. rewrite Z.eqb_refl, <- app_assoc. cbn [app].
    rewrite split_once_app by (by eapply (forallb_notin ip_char)). cbn. destruct p as [[m d]|]; cbn [port_text]; [|by rewrite Hi].
    destruct (Hp m d eq_refl) as (v & Hv). destruct m; cbn; rewrite Hv; cbn; by rewrite Hi.
Qed.

Definition scheme_text (p : Proto) : list Z :=
  ascii_bytes match p with Udp => "udp" | Tcp => "tcp" | Upstream.Tls => "tls" | DoH => "https" | DoH3 => "h3" | DoQ => "quic" end.

(** The fields of a line: a transport, an address and its text, a port's mark and digits, a
    path, and a name. *)
Record UpstreamLine := mkLine {
  ul_proto : Proto; ul_ip : IpAddr; ul_addr : list Z; ul_port : option (bool * list Z); ul_path : option (list Z);
  ul_name : option (list Z) }.

Definition line_body (u : UpstreamLine) : list Z :=
  host_text (ul_ip u) (ul_addr u) ++ port_text (ul_port u) ++ match ul_path u with Some p => 47 :: p | None => [] end.
(** The scheme may be left out for plain [udp]. *)
Definition line_text (scheme : bool) (u : UpstreamLine) : list Z :=
  (if scheme then scheme_text (ul_proto u) ++ ascii_bytes "://" else []) ++ line_body u ++
  match ul_name u with Some n => 35 :: n | None => [] end.

Definition printable (s : list Z) : Prop := forallb graphic s = true.

Record line_ok (scheme : bool) (u : UpstreamLine) : Prop := {
  lo_scheme : scheme = false -> ul_proto u = Udp;
  lo_addr : parse_ip (ul_addr u) = Some (ul_ip u);
  lo_port : forall m d, ul_port u = Some (m, d) -> exists v, parse_u16 d = Some v /\ v <> 0;
  lo_path : forall p, ul_path u = Some p -> takes_path (ul_proto u) = true /\ printable p /\ ~ In 35 p;
  lo_name : if is_plain (ul_proto u) then ul_name u = None else exists n, ul_name u = Some n /\ n <> [] /\ printable n }.

Definition default_port (p : Proto) : Z := match p with Udp | Tcp => 53 | Upstream.Tls | DoQ => 853 | DoH | DoH3 => 443 end.

Definition line_forwarder (u : UpstreamLine) : Forwarder :=
  let port := match ul_port u with Some (_, d) => default 0 (parse_u16 d) | None => default_port (ul_proto u) end in
  mkForwarder (mkEndpoint (ul_ip u) port (ul_proto u)) (ul_name u)
    (match ul_path u with Some (x :: p) => Some (47 :: x :: p) | _ => None end).

Lemma scheme_of_text p : scheme_of (map to_lower (scheme_text p)) = Some (default_port p, p).
Proof. by destruct p. Qed.
Lemma scheme_text_ok p : printable (scheme_text p) /\ ~ In 58 (scheme_text p) /\ ~ In 35 (scheme_text p).
Proof. destruct p; (split; [done|]; split; by apply (forallb_notin (fun b => negb ((b =? 58) || (b =? 35))))). Qed.

Lemma line_host_port scheme u : line_ok scheme u -> forallb auth_char (host_text (ul_ip u) (ul_addr u) ++ port_text (ul_port u)) = true.
Proof. intros H. apply host_port_text; [apply H|]. intros m d E. destruct (lo_port _ _ H m d E) as (v & Hv & _). eauto. Qed.

Lemma line_body_text scheme u : line_ok scheme u -> printable (line_body u) /\ ~ In 35 (line_body u) /\ line_body u <> [].
Proof.
  intros H. pose proof (line_host_port _ _ H) as Ha. unfold line_body. rewrite app_assoc.
  set (hp := host_text _ _ ++ _) in *. assert (hp <> []) as Hne.
  { unfold hp. pose proof (lo_addr _ _ H) as Hi. destruct (ul_addr u); [done|]. by destruct (ul_ip u). }
  assert (printable hp) as Hp by (eapply forallb_weaken, Ha; apply auth_graphic).
  assert (~ In 35 hp) as H35 by (by eapply (forallb_notin auth_char)).
  destruct (ul_path u) as [p|] eqn:E.
  - destruct (lo_path _ _ H p E) as (_ & Hg & Hn). split; [|split].
    + unfold printable. by rewrite forallb_app, Hp.
    + intros [K|[K|K]]%in_app_or; done.
    + intros K. by apply app_eq_nil in K as [-> _].
  - by rewrite app_nil_r.
Qed.

Lemma split_path_text scheme u : line_ok scheme u ->
  split_path (ul_proto u) (line_body u) = Ok (host_text (ul_ip u) (ul_addr u) ++ port_text (ul_port u), ul_path u).
Proof.
  intros H. pose proof (line_host_port _ _ H) as Ha. assert (~ In 47 (host_text (ul_ip u) (ul_addr u) ++ port_text (ul_port u))) as Hn.
  { by eapply (forallb_notin auth_char). }
  unfold split_path, line_body. destruct (ul_path u) as [p|] eqn:E.
  - rewrite app_assoc, split_once_app by done. by destruct (lo_path _ _ H p E) as (-> & _).
  - by rewrite app_nil_r, split_once_None.
Qed.

Lemma split_scheme_text scheme u : line_ok scheme u ->
  split_scheme ((if scheme then scheme_text (ul_proto u) ++ ascii_bytes "://" else []) ++ line_body u) =
    (map to_lower (scheme_text (ul_proto u)), line_body u).
Proof.
  intros H. unfold split_scheme. destruct scheme.
  - rewrite <- app_assoc. change (ascii_bytes "://" ++ line_body u) with (58 :: [47; 47] ++ line_body u).
    change (ascii_bytes "://") with (58 :: [47; 47]). rewrite split_once_str_app by apply scheme_text_ok. done.
  - pose proof (lo_scheme _ _ H eq_refl) as Hu. cbn [app]. rewrite (split_once_str_None 47); [by rewrite Hu|by (right; left)|].
    pose proof (line_host_port _ _ H) as Ha. unfold line_body. destruct (ul_path u) as [p|] eqn:E.
    + destruct (lo_path _ _ H p E) as (K & _). by rewrite Hu in K.
    + rewrite app_nil_r. by eapply (forallb_notin auth_char).
Qed.

Lemma split_name_text scheme u : line_ok scheme u ->
  split_name (line_text scheme u) = ((if scheme then scheme_text (ul_proto u) ++ ascii_bytes "://" else []) ++ line_body u, ul_name u).
Proof.
  intros H. unfold split_name, line_text. rewrite app_assoc. set (body := (if scheme then _ else _) ++ _).
  destruct (line_body_text _ _ H) as (Hg & H35 & _). destruct (scheme_text_ok (ul_proto u)) as (Sg & _ & S35).
  assert (printable body) as Hb.
  { unfold body, printable. rewrite forallb_app, Hg. destruct scheme; [|done]. by rewrite forallb_app, Sg. }
  assert (~ In 35 body) as Hn.
  { unfold body. intros [K|K]%in_app_or; [|done]. destruct scheme; [|done]. apply in_app_or in K as [K|K]; [done|].
    by apply (forallb_notin (fun b => negb (b =? 35)) 35) in K. }
  destruct (ul_name u) as [n|] eqn:E.
  - rewrite split_once_app by done. rewrite trim_graphic by done. f_equal. f_equal. apply trim_graphic.
    pose proof (lo_name _ _ H) as K. destruct (is_plain (ul_proto u)); [congruence|]. destruct K as (m & K & _ & Km). by simplify_eq.
  - by rewrite app_nil_r, split_once_None, trim_graphic.
Qed.


#[local] Abbreviation doh_line := (mkLine DoH (V6 1) (ascii_bytes "::1") (Some (true, ascii_bytes "8443")) (Some (ascii_bytes "q"))
  (Some (ascii_bytes "dns.example"))).


(** ** What is accepted *)

Definition forwarder_ok (f : Forwarder) : Prop :=
  let ep := endpoint f in
  ip_ok (ep_ip ep) /\ 1 <= ep_port ep <= u16_max /\
  (if is_plain (ep_proto ep) then host f = None else is_Some (host f)) /\
  (forall p, path f = Some p -> takes_path (ep_proto ep) = true /\ exists x q, p = 47 :: x :: q).

Lemma plain_ok ip port p : ip_ok ip -> 1 <= port <= u16_max -> is_plain p = true -> forwarder_ok (plain (mkEndpoint ip port p)).
Proof. intros Hi Hp E. unfold forwarder_ok, plain. cbn [endpoint host path ep_ip ep_port ep_proto]. by rewrite E. Qed.
Lemma encrypted_ok ip port p h pa : ip_ok ip -> 1 <= port <= u16_max -> is_plain p = false ->
  (forall q, pa = Some q -> takes_path p = true /\ exists x r, q = 47 :: x :: r) -> forwarder_ok (mkForwarder (mkEndpoint ip port p) (Some h) pa).
Proof.
  intros Hi Hp E Hq. unfold forwarder_ok. cbn [endpoint host path ep_ip ep_port ep_proto]. rewrite E.
  split; [done|]. split; [done|]. split; [by eexists|done].
Qed.

Lemma ip_u16_Some (oip : option IpAddr) (op : option Z) r : (ip ← oip; p ← op; Some (ip, Some p)) = Some r ->
  exists ip p, oip = Some ip /\ op = Some p /\ r = (ip, Some p).
Proof. intros (ip & Hi & (p & Hp & [= <-])%bind_Some)%bind_Some. by exists ip, p. Qed.

Lemma parse_authority_ok s ip port : parse_authority s = Some (ip, port) ->
  ip_ok ip /\ forall p, port = Some p -> 0 <= p <= u16_max.
Proof.
  unfold parse_authority, bare. set (a := trim s).
  assert (forall ip' : IpAddr, parse_ip a = Some ip' -> (ip', None) = (ip, port) -> ip_ok ip /\ forall p, port = Some p -> 0 <= p <= u16_max) as Hb.
  { intros ip' [K _]%parse_ip_text [= <- <-]. done. }
  destruct (read_given_char 91 a) as [rest|].
  { intros ([h tl] & _ & (po & Hpo & (ip' & [Hi _]%parse_ip_text & [= <- <-])%bind_Some)%bind_Some)%bind_Some. split; [done|].
    intros p ->. destruct tl; [done|]. apply bind_Some in Hpo as (t & _ & (v & [Hv _]%parse_u16_text & [= <-])%bind_Some). done. }
  destruct (rsplit_once 64 a) as [[h po]|].
  { intros (ip' & p & [Hi _]%parse_ip_text & [Hv _]%parse_u16_text & [= -> ->])%ip_u16_Some. split; [done|]. by intros ? [= <-]. }
  destruct (rsplit_once 58 a) as [[h po]|]; [|intros (? & K & [= E1 E2])%bind_Some; eapply Hb; [exact K|congruence]].
  destruct (parse_ip h) as [ip'|] eqn:Ei; [destruct (parse_u16 po) as [v|] eqn:Ev|];
    [|intros (? & K & [= E1 E2])%bind_Some; eapply Hb; [exact K|congruence]..].
  apply parse_ip_text in Ei as [Hi _]. apply parse_u16_text in Ev as [Hv _]. intros [= <- <-]. split; [done|]. by intros ? [= <-].
Qed.

Lemma parse_upstream_ok s f : parse_upstream s = Ok f -> forwarder_ok f /\ forall h, host f = Some h -> h <> [].
Proof.
  unfold parse_upstream. destruct (split_name s) as [rest name]. intros (_ & (Hn & H)%reject_bind)%reject_bind.
  destruct (split_scheme rest) as [scheme r]. apply reject_bind in H as (_ & ([dp proto] & Hs & H)%ok_or_bind).
  apply bind_Ok in H as ([auth pa] & Hp & ([ip po] & [Hi Hpo]%parse_authority_ok & (H0 & H)%reject_bind)%ok_or_bind).
  assert (1 <= default dp po <= u16_max) as Hport.
  { destruct po as [p|]; cbn in *; [specialize (Hpo p eq_refl); bools; lia|].
    unfold scheme_of in Hs. repeat case_match; simplify_eq; done. }
  assert (forall p, pa = Some p -> takes_path proto = true) as Ht.
  { intros p ->. unfold split_path in Hp. destruct (split_once 47 r) as [[]|]; [|done]. apply reject_bind in Hp as [Hp _].
    by apply negb_false_iff in Hp. }
  destruct (is_plain proto) eqn:Epl.
  - apply reject_bind in H as (_ & [= <-]). split; [by apply plain_ok|done].
  - apply ok_or_bind in H as (n & -> & [= <-]).
    assert (n <> []) as Hne by (intros ->; done).
    destruct pa as [[|x p]|]; (split; [apply encrypted_ok; [done..|]|by intros h [= <-]]); try done.
    intros q [= <-]. split; [by eapply Ht|by eexists _, _].
Qed.

Lemma json_forwarder_ok j f : 0 <= fj_port j <= u16_max -> json_forwarder j = Ok f -> forwarder_ok f.
Proof.
  intros Hj (ep & (ip & [Hi _]%parse_ip_text & (proto & Hp & [= <-])%ok_or_bind)%ok_or_bind & H)%bind_Ok. cbn [ep_proto] in H.
  assert (1 <= (if fj_port j =? 0 then match proto with Upstream.Tls | DoQ | DoH3 => 853 | DoH => 443 | _ => 53 end else fj_port j) <= u16_max) as Hport.
  { destruct (fj_port j =? 0) eqn:E; bools; [by destruct proto|lia]. }
  destruct (is_plain proto) eqn:Epl.
  - injection H as <-. by apply plain_ok.
  - apply ok_or_bind in H as (h & _ & [= <-]). by apply encrypted_ok.
Qed.

Lemma collect_Forall {A B} (f : A -> result Error B) (P : A -> Prop) (Q : B -> Prop) l k :
  (forall x y, P x -> f x = Ok y -> Q y) -> Forall P l -> collect f l = Ok k -> Forall Q k.
Proof.
  intros H Hl Hk%collect_Ok. revert Hl. induction Hk as [|x y l k Hxy Hk IH]; intros Hl; [constructor|].
  inversion Hl; subst. constructor; [by eapply H|by apply IH].
Qed.

(** [max(0.0)]: never negative, and not a number only never. *)
Lemma f64_max_zero c : f64_le (f64_of 0) (f64_max c (f64_of 0)) = true.
Proof.
  change (f64_of 0) with (S754_zero false). by destruct c as [[]|[]| |[] m e].
Qed.

Definition ports_ok (c : Config) : Prop := Forall (fun j => 0 <= fj_port j <= u16_max) (ej_forwarders (c_engine c)).

Lemma listed_ok l fs : listed l fs -> Forall forwarder_ok fs.
Proof. intros H%collect_Ok. eapply (collect_Forall _ (fun _ => True)), H; [|by apply Forall_true]. intros x y _ Hy. by eapply parse_upstream_ok. Qed.

Lemma json_ok c fs : ports_ok c -> Forall2 (fun j f => json_forwarder j = Ok f) (ej_forwarders (c_engine c)) fs -> Forall forwarder_ok fs.
Proof. intros Hp H%collect_Ok. eapply (collect_Forall _ _), H; [|exact Hp]. intros x y Hx. by apply json_forwarder_ok. Qed.

Lemma groups_ok c p fw : ports_ok c -> build_dns_policy c = Ok (p, fw) -> Forall forwarder_ok (groups_all (fp_groups fw)).
Proof.
  intros Hp (_ & _ & Hd & Hf & rules & Hr & _)%build_dns_policy_Ok. unfold groups_all. rewrite !list.Forall_app. split; [|split].
  - unfold default_servers in Hd. destruct (dj_nameservers (c_dns c)); [by eapply json_ok|by eapply listed_ok].
  - by eapply listed_ok.
  - apply policy_groups_Ok in Hr as (gs & Hg & -> & _). cbn [app]. induction Hg as [|e g l gs [_ He%collect_Ok] Hg IH]; [constructor|].
    cbn [concat]. apply list.Forall_app. split; [by eapply listed_ok|exact IH].
Qed.

(** C30: what a resolver is built from when its document is accepted.  Every server, in a group
    or in the engine's own list, has an address, a port that is one, a name to verify against
    exactly when its transport is encrypted, and a path only over HTTP; the engine's list is
    empty or is the default group; validation is on only in a build that has it; whatever
    numbers the document gives, a client's bucket has room for a token and its refill is not
    negative, and a snapshot of 1024 octets can be read. *)
Theorem resolver_config_sound dnssec_feature c rc : ports_ok c -> into_resolver_config dnssec_feature c = Ok rc ->
  let own := es_forwarders (rc_engine rc) in
  Forall forwarder_ok (groups_all (fp_groups (rc_forward rc)) ++ own) /\
  (own = [] \/ own = g_default (fp_groups (rc_forward rc))) /\
  (cfg_dnssec (es_config (rc_engine rc)) = true -> dnssec_feature = true) /\
  f64_le (f64_of 1) (rl_client_capacity (rc_rate_limit rc)) = true /\
  f64_le (f64_of 0) (rl_client_refill_per_sec (rc_rate_limit rc)) = true /\
  (forall p, rc_persist rc = Some p -> 1024 <= ps_frame_limit p).
Proof.
  intros Hp (own & Ho%collect_Ok & ([dns fw] & Hb & [= <-])%bind_Ok)%bind_Ok. cbn [es_forwarders rc_engine rc_forward rc_rate_limit rc_persist rl_client_capacity rl_client_refill_per_sec es_config].
  split; [|split; [|split; [|split; [|split]]]].
  - apply list.Forall_app. split; [by eapply groups_ok|by eapply json_ok].
  - apply build_dns_policy_Ok in Hb as (Hx & _ & Hd & _). unfold default_servers in Hd.
    destruct (dj_nameservers (c_dns c)) as [|t l]; [|left; destruct Hx as [Hx|Hx]; [done|]; rewrite Hx in Ho; by inversion Ho].
    right. apply collect_Ok in Ho, Hd. congruence.
  - cbn. by intros [_ H]%andb_true_iff.
  - apply f64_max_one.
  - apply f64_max_zero.
  - destruct (c_persist c) as [j|]; cbn; [|done]. unfold into_persist. destruct (pe_path j); cbn; [|done]. intros p [= <-]. cbn. lia.
Qed.

(** ** What is refused *)

Definition config_only {A} (r : result Error A) : Prop := forall e, r = Err e -> err_kind e = Prelude.Config.

Lemma config_only_Ok {A} (a : A) : config_only (Ok a).
Proof. done. Qed.
Lemma config_only_Err {A} msg : config_only (A:=A) (Err (Prelude.config msg)).
Proof. by intros e [= <-]. Qed.
Lemma config_only_reject c msg : config_only (reject_if c (Prelude.config msg)).
Proof. intros e. unfold reject_if. destruct c; [|done]. by intros [= <-]. Qed.
Lemma config_only_ok_or {A} (o : option A) msg : config_only (ok_or o (Prelude.config msg)).
Proof. intros e. destruct o; cbn; [done|]. by intros [= <-]. Qed.
Lemma config_only_map_err {A E} (f : E -> string) (r : result E A) : config_only (map_err (fun e => Prelude.config (f e)) r).
Proof. intros e. destruct r; cbn; [done|]. by intros [= <-]. Qed.
Lemma config_only_bind {A B} (r : result Error A) (f : A -> result Error B) :
  config_only r -> (forall a, config_only (f a)) -> config_only (r ≫= f).
Proof. intros Hr Hf e. destruct r; cbn; [apply Hf|]. intros [= <-]. by apply Hr. Qed.

Create HintDb config_only.
#[local] Hint Resolve config_only_Ok config_only_Err config_only_reject config_only_ok_or config_only_map_err : config_only.
#[local] Ltac cfg_step :=
  match goal with
  | |- config_only (_ ≫= _) => apply config_only_bind; [|intros ?]
  | |- config_only (if ?c then _ else _) => destruct c
  | |- config_only (match ?x with _ => _ end) => destruct x
  | |- config_only (let '_ := ?x in _) => destruct x
  | |- config_only _ => solve [auto with config_only]
  end.
#[local] Ltac cfg := cbv zeta; repeat cfg_step.

Lemma config_only_collect {A B} (f : A -> result Error B) l : (forall a, config_only (f a)) -> config_only (collect f l).
Proof. intros Hf. induction l as [|x l IH]; cbn [collect]; cfg. Qed.

Lemma config_only_wildcards parts : config_only (wildcard_labels parts).
Proof. unfold bad_pattern. induction parts as [|p parts IH]; cbn [wildcard_labels]; unfold bad_pattern; cfg. Qed.
#[local] Hint Resolve config_only_collect config_only_wildcards : config_only.

Lemma config_only_pattern s : config_only (pattern_parse s).
Proof. unfold pattern_parse, parse_suffix, bad_pattern. cfg. Qed.
#[local] Hint Resolve config_only_pattern : config_only.

Lemma config_only_parse_all l : config_only (parse_all l).
Proof. induction l as [|s l IH]; cbn [parse_all]; cfg. Qed.
Lemma config_only_parse_rules l : config_only (parse_rules l).
Proof. unfold shadows. induction l as [|[t g] l IH]; cbn [parse_rules]; unfold shadows; cfg. Qed.
Lemma config_only_parse_blocks l : config_only (parse_blocks l).
Proof. induction l as [|s l IH]; cbn [parse_blocks]; cfg. Qed.
Lemma config_only_parse_addrs l : config_only (parse_addrs l).
Proof. induction l as [|s l IH]; cbn [parse_addrs]; cfg. Qed.
#[local] Hint Resolve config_only_parse_all config_only_parse_rules config_only_parse_blocks config_only_parse_addrs : config_only.

Lemma config_only_hosts l t : config_only (insert_hosts t l).
Proof.
  revert t. induction l as [|[k v] l IH]; intros t; cbn [insert_hosts]; [cfg|].
  unfold insert_from_config, hosts_insert, catch_all_error. cfg.
Qed.
Lemma config_only_fake_ip d : config_only (fake_ip_settings d).
Proof. unfold fake_ip_settings, settings_parse. cfg. Qed.
Lemma config_only_fallback f : config_only (fallback_of f).
Proof. unfold fallback_of, fallback_new, geoip_error. cfg. Qed.
Lemma config_only_upstream s : config_only (parse_upstream s).
Proof. unfold parse_upstream, split_path. cfg. Qed.
Lemma config_only_json j : config_only (json_forwarder j).
Proof. unfold json_forwarder, json_endpoint. cfg. Qed.
#[local] Hint Resolve config_only_hosts config_only_fake_ip config_only_fallback config_only_upstream config_only_json : config_only.

Lemma config_only_groups l rules extra : config_only (policy_groups l rules extra).
Proof. revert rules extra. induction l as [|[p ts] l IH]; intros rules extra; cbn [policy_groups]; cfg. Qed.
#[local] Hint Resolve config_only_groups : config_only.

Lemma config_only_dns c : config_only (build_dns_policy c).
Proof. unfold build_dns_policy, policy_new. cfg. Qed.

(** The documents refused whatever the rest of them says. *)
Definition conflicting (c : Config) : Prop :=
  let dns := c_dns c in
  (dj_nameservers dns <> [] /\ ej_forwarders (c_engine c) <> []) \/
  (exists f, dj_fallback_filter dns = Some f /\ (ff_geoip f = true \/ ff_geoip_code f <> [])) \/
  (exists e, In e (dj_nameserver_policy dns) /\ e.2 = []) \/
  (exists e, In e (dj_hosts dns) /\ (host_values e.2 = [] \/ exists v, In v (host_values e.2) /\ parse_ip (trim v) = None)).

Lemma parse_addrs_all l addrs : parse_addrs l = Ok addrs -> forall v, In v l -> parse_ip (trim v) <> None.
Proof.
  revert addrs. induction l as [|v l IH]; intros addrs; cbn [parse_addrs]; [done|].
  intros (ip & Hi & (rest & Hr & _)%bind_Ok)%ok_or_bind w [<-|Hw]; [congruence|by eapply IH].
Qed.

Lemma insert_hosts_all l t t' : insert_hosts t l = Ok t' ->
  forall e, In e l -> host_values e.2 <> [] /\ forall v, In v (host_values e.2) -> parse_ip (trim v) <> None.
Proof.
  revert t. induction l as [|[k v] l IH]; intros t; cbn [insert_hosts]; [done|].
  intros (t1 & (Hz & (addrs & Ha & _)%bind_Ok)%reject_bind & H)%bind_Ok e [<-|He]; [|by eapply IH].
  cbn [snd]. split; [|by eapply parse_addrs_all]. intros E. by rewrite E in Hz.
Qed.

Lemma conflicting_refused c p : build_dns_policy c = Ok p -> ~ conflicting c.
Proof.
  destruct p as [p fw]. intros Hb. pose proof (build_dns_policy_Ok _ _ _ Hb) as (Hx & Hf & _ & _ & rules & Hr & _).
  intros [[Hn Hj]|[(f & Ef & Hg)|[(e & He & Ee)|(e & He & Hv)]]].
  - by destruct Hx.
  - rewrite Ef in Hf. cbn in Hf. apply reject_bind in Hf as (Hc & (Hgeo & _)%reject_bind).
    apply negb_false_iff, zlen_nil_iff in Hc. destruct Hg as [Hg|Hg]; congruence.
  - apply policy_groups_Ok in Hr as (gs & Hg & _). apply list_elem_of_In, list_elem_of_lookup in He as (i & Hi).
    by destruct (Forall2_lookup_l _ _ _ _ _ Hg Hi) as (g & _ & Hne & _).
  - unfold build_dns_policy in Hb. cbv zeta in Hb. apply reject_bind in Hb as (_ & (t & Ht & _)%bind_Ok).
    destruct (insert_hosts_all _ _ _ Ht e He) as [H1 H2]. destruct Hv as [Hv|(v & Hi & Hv)]; [done|by apply (H2 v)].
Qed.


(** what the [block] list blocks: the names at or under an entry that reads as a name.
    An entry that does not read is dropped, and a leading [*.] is a label like any other. *)
Theorem blocklist_spec j n : is_blocked (into_policy j) n = true <->
  exists entry suffix, In entry (pj_block j) /\ from_ascii entry = Ok suffix /\ is_subdomain_of n suffix = true.
Proof.
  unfold is_blocked, into_policy. cbn [block]. rewrite existsb_exists. split.
  - intros (r & (s & <- & Hs)%in_map_iff & Hn). cbn in Hn. apply list_elem_of_In, list_elem_of_omap in Hs as (t & Ht & Es).
    exists t, s. split; [by apply list_elem_of_In|]. split; [|done]. unfold name_of in Es. destruct (from_ascii t); congruence.
  - intros (t & s & Ht & Es & Hn). exists (block_subtree s). split; [|done]. apply in_map_iff. exists s. split; [done|].
    apply list_elem_of_In, list_elem_of_omap. exists t. split; [by apply list_elem_of_In|]. unfold name_of. by rewrite Es.
Qed.

(** The documented wildcard blocks nothing of the domain. *)
Example wildcard_entry_blocks_nothing :
  let www := of_labels [ascii_bytes "www"; ascii_bytes "example"; ascii_bytes "com"] in
  is_blocked (into_policy (mkPolicyJson [ascii_bytes "*.example.com"])) www = false /\
  is_blocked (into_policy (mkPolicyJson [ascii_bytes "example.com"])) www = true.
Proof. split; vm_compute; reflexivity. Qed.

(** The two settings of the cache's refresh reach nothing that schedules one: the policy
    of [Maintain]'s tick is the planner's, and the document does not set it. *)
Lemma prefetch_settings_ignored dnssec_feature c rc :
  into_resolver_config dnssec_feature c = Ok rc -> prefetch_policy (rc_planner rc) = prefetch_policy default_planner_config.
Proof. by intros (own & _ & ([dns fw] & _ & [= <-])%bind_Ok)%bind_Ok. Qed.

(** A misspelt root is dropped, and with no root left the built-in ones are asked. *)
Example misspelt_root :
  root_servers (engine_of false (mkEngineJson [ascii_bytes "192.0.2.1:53x"] None None None None None None None None None None None [])) = [].
Proof. reflexivity. Qed.

(** A document with two groups and an upstream of its own. *)
#[local] Abbreviation office_dns := (mkDnsJson None None None None None None None
  [(ascii_bytes "router.lan", One (ascii_bytes "192.168.1.1"))] None [ascii_bytes "tls://9.9.9.9#dns.quad9.net"]
  [ascii_bytes "https://1.1.1.1#one.one.one.one"]
  [(ascii_bytes "+.corp.example", [ascii_bytes "10.0.0.53"]); (ascii_bytes "+.example", [ascii_bytes "10.0.0.54"; ascii_bytes "tcp://10.0.0.55"])]
  (Some (mkFallbackJson false [] None [ascii_bytes "+.blocked.example"]))).
#[local] Abbreviation office := (mkConfig [] cache_json_default engine_json_default (mkPolicyJson []) office_dns None None None
  (Some (mkPersistJson (Some (ascii_bytes "cache.rxc")) 0 0))).
Definition office_policy : DnsPolicy * ForwardPolicy Forwarder :=
  Eval vm_compute in match build_dns_policy office with Ok p => p | Err _ => (mkDnsPolicy hosts_default None, mkForward (mkPolicy []) fallback_default (mkGroups [] [] [])) end.
Definition corp_name : Name := Eval vm_compute in of_labels [ascii_bytes "git"; ascii_bytes "corp"; ascii_bytes "example"].

Lemma office_accepted : build_dns_policy office = Ok (office_policy.1, office_policy.2).
Proof. vm_compute. reflexivity. Qed.

Lemma configured_route_witness :
  forward_route office_policy.2 corp_name = Some [plain (mkEndpoint (V4 0x0a000035) 53 Udp)] /\
  exists e pat, In e (dj_nameserver_policy office_dns) /\ entry_matches corp_name e pat /\
    listed e.2 [plain (mkEndpoint (V4 0x0a000035) 53 Udp)].
Proof.
  assert (forward_route office_policy.2 corp_name = Some [plain (mkEndpoint (V4 0x0a000035) 53 Udp)]) as E by (vm_compute; reflexivity).
  split; [exact E|]. pose proof (configured_route office _ _ corp_name office_accepted) as K. cbv zeta in K. rewrite E in K.
  destruct K as (_ & [[[Hf _] _]|[(_ & Hu & _)|(_ & e & pat & He & Hm & Hl & _)]]).
  - exfalso. revert Hf. vm_compute. done.
  - exfalso. apply (Hu (ascii_bytes "+.corp.example", [ascii_bytes "10.0.0.53"])
      (PSubtree (of_labels [ascii_bytes "corp"; ascii_bytes "example"]))); [by left|]. split; vm_compute; reflexivity.
  - exists e, pat. split; [exact He|]. split; [exact Hm|exact Hl].
Defined.

Lemma resolver_config_sound_witness :
  exists rc, into_resolver_config false office = Ok rc /\ length (groups_all (fp_groups (rc_forward rc))) = 5%nat /\
    Forall forwarder_ok (groups_all (fp_groups (rc_forward rc)) ++ es_forwarders (rc_engine rc)).
Proof.
  destruct (into_resolver_config false office) as [rc|e] eqn:E; [|exfalso; revert E; vm_compute; done].
  exists rc. split; [reflexivity|]. split.
  - revert E. intros (own & _ & ([d f] & Hb & [= <-])%bind_Ok)%bind_Ok. rewrite office_accepted in Hb. injection Hb as <- <-. reflexivity.
  - refine (proj1 (resolver_config_sound false office rc _ E)). constructor.
Defined.

